(* ===== verification/_CoqProject ===== *)
-Q . S2P
Prelude.v
StorageError.v
SlotTable.v
Pipeline.v
Capture.v
Worker.v
Window.v
Writer.v
Stop.v
Bytes.v
SerialProto.v
CStdlib.v
CcbTypes.v
Metadata.v
Config.v
Ipc.v
Supervisor.v
Task.v
Diag.v
Health.v
Outbox.v
Commit.v
CommitStore.v
CrossSlot.v
CrossSlotSpec.v
CrossSlotSafe.v
DmaRing.v
DmaSafe.v
WriteQueue.v
CmdConfig.v
WriterThread.v
ProducerStats.v
ProducerBatch.v
ProducerRun.v
ProducerEnd.v
ProducerExample.v
ProducerLogic.v
Buffers.v
ProducerSafe.v
ProducerTurn.v
ProducerSound.v
ProducerQuiesce.v
CrossSlotReqs.v
CrossWriter.v
WriteQueueRep.v
WriteQueueSafe.v
WriterSteps.v
WriterSafe.v
CrossWriterSafe.v
NvmeQueue.v
NvmeConfig.v
NvmeWrite.v
NvmeSlot.v
NvmeDevice.v
NvmePlan.v
NvmeSafe.v
NvmeProbeSafe.v
NvmeSlotSafe.v
Cli.v
ChannelOpen.v
ProducerSetup.v
ProducerFresh.v
FileCommands.v
ReadSafe.v
TcpTransfer.v
TcpSafe.v
NetSend.v
NetPipe.v
NetSafe.v
Launch.v
WorkerMain.v
WorkerMainSafe.v
Parent.v
ParentSafe.v
ParentAnswers.v
ParentStart.v
ParentOwed.v
