(* ===== verification/Prelude.v ===== *)
(** * The board storage controller: a verification development

    The program records the streams of three acquisition channels: a DMA engine
    fills a ring of descriptors in DDR, software harvests them and writes them
    to NVMe, and a parent process supervises one worker process per channel,
    commits the result of a task to metadata files and a database, and talks to
    the platform computer over a serial line.  This library models the parts of
    [src/src/] and [src/include/] that decide something and proves what makes
    them correct.

    ** How the program hangs together

    Per channel, in the worker process, the capture command
    ([execute_write_with_result_mode] of [ccb_commands.c]) reads its settings
    ([CmdConfig]), opens the channel ([channel_runtime_open] of [ccb_hw.c]:
    [ChannelOpen]), plans the file and starts the writer ([ProducerSetup]), and
    is the producer of the data: its state and statistics are in
    [ProducerStats], the harvested batches in [ProducerBatch], the capture loop
    with its stop sequence in [ProducerRun], the drain, the verdict and the
    clean-up in [ProducerEnd].  [ProducerLogic] has the judgements about its
    steps, [Buffers] that the memory of the slots stays where it is,
    [ProducerSafe] the file it writes, [ProducerTurn] what a turn keeps,
    [ProducerSound] what a success means, [ProducerQuiesce] the end of the
    engine, [ProducerFresh] the place of the file, [ProducerExample] a run.
    [WorkerMain] is the process around it ([run_storage_worker_main] of
    [system.c]), which reports the capture to the parent, [WorkerMainSafe] what
    the reports mean.
    Data moves through
    - the DMA descriptor ring ([ccb_hw.c]): [DmaRing], [DmaSafe];
    - the queue between the producer and the writer ([ccb_commands.c]):
      [WriteQueue]; [ccb_storage_pipeline.c] is the library form of the same
      queue: [Pipeline]; both keep the state of every DDR slot in the slot table
      ([storage_queue.c]): [SlotTable];
    - the two writer threads ([ccb_commands.c]): [WriterThread] for the one that
      writes a slot at a time, [CrossWriter] for the one that drives the
      cross-slot engine of [ccb_hw.c]: [CrossSlot], [CrossSlotSpec],
      [CrossSlotSafe]; proofs about them in [WriteQueueRep], [WriteQueueSafe],
      [WriterSteps], [WriterSafe], [CrossSlotReqs] and [CrossWriterSafe];
    - the NVMe queue behind its registers ([ccb_hw.c]): [NvmeQueue] submits,
      polls and drains, [NvmeConfig] configures and probes, [NvmeWrite] and
      [NvmeSlot] write a slot and issue single commands; [NvmeDevice] is the
      device's view of a run, [NvmePlan], [NvmeSafe], [NvmeSlotSafe] and
      [NvmeProbeSafe] prove what it sees;
    - with the lifecycle of the worker ([storage_worker.c]): [Worker]; the stop
      protocol ([storage_stop.c]): [Stop]; the accounting of the drain
      ([storage_writer.c]): [Writer]; the diagnostic ring
      ([ccb_storage_diag.c]): [Diag]; the error record ([storage_error.c]):
      [StorageError].

    The way back: the commands that read, list and clear recorded files
    ([ccb_commands.c]) are in [FileCommands], what the device sees of a read in
    [ReadSafe].  A download over the network ([system.c]) reads a file in chunks
    and sends them, one after the other ([NetSend]) or with two threads and a
    ring of slots ([NetPipe]), through the memory-to-stream half of the DMA
    engine ([ccb_tcp_transfer.c]: [TcpTransfer]); [Transport] in [NetSend] is
    the interface between them.  [NetSafe] and [TcpSafe] prove what the devices
    see.

    The parent process
    - exchanges messages with the workers over pipes ([ccb_storage_ipc.c]): [Ipc];
    - follows their lifecycle and forms the verdict of a task
      ([ccb_storage_supervisor.c]): [Supervisor], with the record of a worker
      process ([ccb_storage_task.c], output handling of [system.c]): [Task], and
      the state of the capture ([storage_controller.c]): [Capture];
    - commits a task ([ccb_storage_commit.c]): [Commit], [CommitStore], to the
      metadata tables ([ccb_metadata.c]): [Metadata], and remembers replicas it
      could not reach ([ccb_storage_sync_outbox.c]): [Outbox];
    - probes the hardware in the background ([storage_health.c]): [Health];
    - reads its configuration ([storage_config.c]): [Config]; parses command
      lines ([ccb_cli.c]): [Cli]; plans a task and starts its workers with
      command lines of its own ([system.c]): [Launch]; receives and sends
      serial frames ([serial_proto.c]): [SerialProto];
    - runs the capture in its main loop ([system.c]): [Parent] polls and reaps
      the workers, answers the start and stop requests once the workers have,
      and announces the verdict; [ParentSafe], [ParentAnswers], [ParentStart]
      and [ParentOwed] prove what the answers mean.

    Each file has one Module, named after the source file or its subject; its
    records have the fields of the structs, its functions the names of the C
    functions.  [Bytes], [CStdlib], [CcbTypes] and [Window] hold what several
    components share: layouts, the parsing functions of the C library, the
    shared types with the channel table, and the automaton of a stable window.

    ** How the code is translated

    - Unsigned integers of width [w] are integers of [Z]; where an operation can
      leave the range, the wrap-around ([u8] .. [u64] below) is written out.
      Bytes are [Z] in [0..255], C strings [string], arrays lists.
    - A structure that is changed through a pointer is a record that the
      function returns; [Eff] below is the state monad with which the operations
      that call outside are written, and [wp] its weakest precondition, the one
      program logic all files use.  A call that can fail returns the code's
      return value.  NULL checks of the object an operation works on have no
      counterpart, except where the object is optional.
    - Hardware registers, the clock, callbacks, the file system and the kernel
      are arguments.  They answer anything; where a property needs more, it is a
      hypothesis of that property.
    - A mutex-protected section is one step.  What other threads may do between
      two sections is explicit: [Health] is a transition system, [WriteQueueSafe]
      runs arbitrary sequences of sections, and [WriterThread] gives control to
      [others] wherever the code takes the mutex or waits.  [CrossSlot] asks
      [take_abort] wherever the engine reads the flag another thread can set.
      The two threads of a download have program counters and are run by a
      schedule ([NetPipe]); one operation on a device is one step.

    ** What is proved

    - A capture that returns 0 has written every byte it received and nothing
      else, and ends drained ([ProducerSound]); its batches continue the file
      without a gap or an overlap, no counter or address wraps around
      ([ProducerSafe], [Buffers]); the recorded file has a slot,
      an index and sectors of its own ([ProducerFresh]); the memory of the
      engine is only unmapped when the engine is stopped ([ProducerQuiesce]);
      the settings of the cross-slot writer are within their limits
      ([CmdConfig]).  The worker reports a success only for such a capture, once
      it is drained, has been told to stop and has finalised ([WorkerMainSafe]).
    - A file is read by exactly the commands of the sectors that the metadata
      table gives for its task and index ([ReadSafe]).
    - A download reads and sends every chunk once, in order, in every
      interleaving of its threads, which never have the same slot; it ends when
      the devices answer and both threads get their turns ([NetSafe]).  A send
      keeps the rules of the engine, covers its range with one frame, leaves the
      engine halted, and returns within its timeouts ([TcpSafe]).
    - Delivery: what the producer pushes is written to NVMe in order and at most
      once, and all of it when the writer ends drained; the writer ends once the
      producer has finished ([WriterSafe]); slots and bytes are conserved under
      every interleaving and the stop latch is final ([WriteQueueSafe]); the
      library queue refines a FIFO ([Pipeline]); the table counts what it holds
      ([SlotTable]).
    - The cross-slot engine refines a protocol automaton whatever the hardware
      answers, its self-check cannot fail, and its abort ends ([CrossSlotSafe]).
    - A slot is written as planned whichever writer does it and whatever the
      device answers, and the device is never given more than it can own
      ([NvmeSlotSafe]); a probe leaves settings the writers can use
      ([NvmeProbeSafe]).
    - The DMA ring is harvested in order and exactly, and is never reset while
      the hardware may own memory ([DmaSafe]).
    - A task is reported successful only when every channel is proved complete,
      the lifecycle is followed, the first failure is kept, and a verdict is
      reached when every worker has answered or gone, whatever the parent calls
      and whenever it writes the stop epoch itself ([Supervisor]).
    - Every start and stop request is answered exactly once; a start is
      confirmed only with every worker ready (or running), a stop only after a
      successful commit, and a failure only with no worker left
      ([ParentAnswers], [ParentOwed]).
    - A commit takes effect as a whole or is undone ([Commit]); metadata is
      restored and never overlaps ([CommitStore], [Metadata]); a pending marker
      is written under a hidden temporary name and durable before it counts
      ([Outbox]).
    - Messages survive partial reads, timeouts and interruptions ([Ipc]); the
      frame receiver never leaves its buffer and delivers what was sent
      ([SerialProto]); configuration values are within bounds ([Config]); a
      worker works on exactly the file the parent planned, and no command line
      makes it write outside the channel's limits ([Launch]).

    Loops the code runs without a bound take [fuel]; theorems of termination say
    how much is enough: [writer_thread_ends] (the producer sections to come and
    the slots they push), [cross_slot_drain_ends] and [dma_quiesce_sound] (the
    clock passes the deadline), [tcp_send_returns] (the descriptors and the
    rounds of a timeout), [download_ends] (the turns of the schedule); the others
    bound their loops by the data.  The loops of the capture command take the
    turns they may have as an argument: their properties hold for any number.

    ** Findings

    Places where the code does not do what it means to:
    [stray_head_loses_frame] proves that a stray frame head makes the receiver
    lose the next frame ([serial_proto.c]); [tight_full_queue_spins] proves that
    the tight writer waits for ever, deaf to its timeout and to a stop, when the
    submission queue stays full with nothing in flight ([ccb_hw.c]); its drain
    gives up on a completion error without marking the memory as owned by the
    device, and its error report reads registers a dry run has not mapped
    ([ccb_hw.c]); the engine's step calls an optional callback without the test
    the drain makes ([ccb_hw.c]); a metadata write that fails before its backup
    is reported as a failed rollback ([system.c]); two deprecated variables
    exceed the limits of their successors ([storage_config.c]); the size check
    of the wrap-around test wraps around itself ([wrap_test_size_unbounded]),
    over-long task numbers are cut instead of rejected
    ([long_task_numbers_collide]) and a timeout of 2^32 is taken as 0
    ([timeout_option_wraps], [ccb_cli.c]); a stop after a rejected task is
    confirmed although nothing was recorded
    ([rejected_task_stops_with_success]), a failed stop names no channel, and an
    empty event pipe can be taken for a broken one because [errno] is read late
    ([system.c]).  A capture of a given size only succeeds when it is asked to
    stop ([bounded_capture_needs_stop]), one without a control pipe never starts
    the engine, a late failure to finalise the engine is reported although the
    command returns 0, and a harvest of the clean-up that fails half-way drops
    what it found ([ccb_commands.c]); a file that is larger than the window of
    its channel is read past the end of the window ([read_leaves_window]).  A
    capture that fails with a deferred error and is not drained is not reported
    at all ([deferred_failure_untold], [system.c]).  A
    stop that is seen while a register is waited for is reported as a failure of
    the send; with the longest timeout such a wait never ends
    ([long_wait_never_ends]); and the descriptors of a send are written before
    the engine is known to be halted ([ccb_tcp_transfer.c]).

    ** What is not modelled

    [storage_process.c] (waitpid and kill), [ccb_storage_perf.c], [logger.c] and
    [debug_uart.c] (output only), [file_list.c] (SQLite statements), the other
    serial commands of [system.c] (file lists, deletion, maintenance, status,
    the process of the transfer worker), the diagnostic commands of
    [ccb_commands.c] and the DDR verification of a download (built with
    CCB_BUILD_DIAG only), and in [ccb_hw.c] the mapping of devices, the bridge
    report and the older multi-slot NVMe writer.  The wall time of an operation
    is not modelled, only what the clock answers.  Debug prints, traces,
    performance logs and register reads that only feed them are left out of the
    modelled functions. *)

From stdpp Require Export base tactics decidable option list list_numbers
  relations strings gmap.
From Stdlib Require Export ZArith Lia ZifyBool Bool.

#[export] Set Default Proof Using "Type".
#[global] Open Scope Z_scope.

(** ** Machine integers

    A C unsigned integer of [w] bits is a [Z] in [0 .. 2^w - 1]; every
    arithmetic operation of the source that can leave the range is written
    under [uwrap]. *)
Declare Scope cint_scope.
Delimit Scope cint_scope with cint.

Definition uwrap (w z : Z) : Z := z mod 2 ^ w.
Definition u8 (z : Z) : Z := uwrap 8 z.
Definition u16 (z : Z) : Z := uwrap 16 z.
Definition u32 (z : Z) : Z := uwrap 32 z.
Definition u64 (z : Z) : Z := uwrap 64 z.

Definition UINT8_MAX : Z := 255.
Definition UINT16_MAX : Z := 65535.
Definition UINT32_MAX : Z := 4294967295.
Definition UINT64_MAX : Z := 18446744073709551615.
Definition INT_MAX : Z := 2147483647.
Definition INT64_MAX : Z := 9223372036854775807.

Definition is_u8 (z : Z) : Prop := 0 <= z <= UINT8_MAX.
Definition is_u16 (z : Z) : Prop := 0 <= z <= UINT16_MAX.
Definition is_u32 (z : Z) : Prop := 0 <= z <= UINT32_MAX.
Definition is_u64 (z : Z) : Prop := 0 <= z <= UINT64_MAX.

#[export] Instance is_u8_dec z : Decision (is_u8 z).
Proof. unfold is_u8. solve_decision. Defined.
#[export] Instance is_u16_dec z : Decision (is_u16 z).
Proof. unfold is_u16. solve_decision. Defined.
#[export] Instance is_u32_dec z : Decision (is_u32 z).
Proof. unfold is_u32. solve_decision. Defined.
#[export] Instance is_u64_dec z : Decision (is_u64 z).
Proof. unfold is_u64. solve_decision. Defined.

(** [cint] unfolds the width constants and range predicates and calls [lia]. *)
Ltac cint_unfold :=
  unfold is_u8, is_u16, is_u32, is_u64, UINT8_MAX, UINT16_MAX, UINT32_MAX,
    UINT64_MAX, INT_MAX, INT64_MAX in *.
Ltac cint := cint_unfold; lia.

Lemma u8_small z : is_u8 z → u8 z = z.
Proof. intros. apply Z.mod_small. cint. Qed.
Lemma u16_small z : is_u16 z → u16 z = z.
Proof. intros. apply Z.mod_small. cint. Qed.
Lemma u32_small z : is_u32 z → u32 z = z.
Proof. intros. apply Z.mod_small. cint. Qed.
Lemma u64_small z : is_u64 z → u64 z = z.
Proof. intros. apply Z.mod_small. cint. Qed.

Lemma uwrap_range w z : 0 <= w → 0 <= uwrap w z < 2 ^ w.
Proof. intros. apply Z.mod_pos_bound. apply Z.pow_pos_nonneg; lia. Qed.
Lemma u8_range z : is_u8 (u8 z).
Proof. pose proof (uwrap_range 8 z). unfold u8. cint. Qed.
Lemma u16_range z : is_u16 (u16 z).
Proof. pose proof (uwrap_range 16 z). unfold u16. cint. Qed.
Lemma u32_range z : is_u32 (u32 z).
Proof. pose proof (uwrap_range 32 z). unfold u32. cint. Qed.
Lemma u64_range z : is_u64 (u64 z).
Proof. pose proof (uwrap_range 64 z). unfold u64. cint. Qed.

Create HintDb cint discriminated.
#[export] Hint Resolve u8_range u16_range u32_range u64_range : cint.

(** ** Record update: [r <| field := v |>]

    One [EtaOf] instance per record (the constructor applied to the
    projections) gives the functional update of every field. *)
Class EtaOf (R : Type) := eta_of : R → R.
Class FieldOf {R T : Type} (proj : R → T) := upd_with : (T → T) → R → R.

Ltac solve_field_of R proj :=
  let e := constr:(_ : EtaOf R) in
  let e := eval hnf in e in
  exact (fun g r =>
    ltac:(let b := eval cbv beta in (e r) in
          match b with
          | context C [proj r] =>
              let b' := context C [g (proj r)] in exact b'
          end)).
#[export] Hint Extern 1 (@FieldOf ?R _ ?proj) =>
  solve_field_of R proj : typeclass_instances.

Definition upd {R T} (proj : R → T) {F : FieldOf proj} (g : T → T) : R → R :=
  F g.
Arguments upd {_ _} _ {_} _ !_ /.
Notation "r <| f := v |>" := (upd f (fun _ => v) r)
  (at level 1, f at level 0, left associativity, only parsing).
Notation "r <| f ::= g |>" := (upd f g r)
  (at level 1, f at level 0, left associativity, only parsing).

(** Unfold record updates everywhere, leaving projections of the old record. *)
Ltac rec_simpl := cbv [upd] in *; simpl in *.

(** ** Effects

    Code that calls the outside world (a callback table, the file system, a
    pipe) is written in a state monad over an abstract world [W]: an operation
    takes the world and returns its result with the next world. *)
Definition Eff (W A : Type) : Type := W → A * W.
Definition eret {W A} (a : A) : Eff W A := λ w, (a, w).
Definition ebind {W A B} (m : Eff W A) (k : A → Eff W B) : Eff W B :=
  λ w, let '(a, w') := m w in k a w'.
Notation "'let!' x ':=' m 'in' k" := (ebind m (λ x, k))
  (at level 10, x pattern, m at level 200, k at level 200).

(** Fallible effects: [inl] is an early error return. *)
Definition xret {W E A} (a : A) : Eff W (E + A) := eret (inr a).
Definition xfail {W E A} (e : E) : Eff W (E + A) := eret (inl e).
Definition xbind {W E A B} (m : Eff W (E + A)) (k : A → Eff W (E + B)) : Eff W (E + B) :=
  ebind m (λ r, match r with inl e => eret (inl e) | inr a => k a end).
Notation "'let?' x ':=' m 'in' k" := (xbind m (λ x, k))
  (at level 10, x pattern, m at level 200, k at level 200).

Lemma xbind_inr {W E A B} (m : Eff W (E + A)) (k : A → Eff W (E + B)) w b w2 :
  xbind m k w = (inr b, w2) → ∃ a w1, m w = (inr a, w1) ∧ k a w1 = (inr b, w2).
Proof.
  unfold xbind, ebind, eret. destruct (m w) as [[e|a] w1]; [done|]. intros H. by exists a, w1.
Qed.

(** Weakest precondition of an effect: [Q] holds of the result and the world
    the effect ends in. *)
Definition wp {W A} (m : Eff W A) (Q : A → W → Prop) (w : W) : Prop := Q (m w).1 (m w).2.

Lemma wp_ret {W A} (a : A) (Q : A → W → Prop) w : Q a w → wp (eret a) Q w.
Proof. done. Qed.
Lemma wp_bind {W A B} (m : Eff W A) (k : A → Eff W B) (Q : B → W → Prop) w :
  wp m (λ a w', wp (k a) Q w') w → wp (ebind m k) Q w.
Proof. unfold wp, ebind. by destruct (m w). Qed.
Lemma wp_mono {W A} (m : Eff W A) (P Q : A → W → Prop) w :
  wp m P w → (∀ a w', P a w' → Q a w') → wp m Q w.
Proof. unfold wp. auto. Qed.
Lemma wp_and {A S} (m : Eff S A) (P Q : A → S → Prop) st : wp m P st → wp m Q st → wp m (λ x s, P x s ∧ Q x s) st.
Proof. unfold wp. by destruct (m st). Qed.
Lemma wp_xbind {W E A B} (m : Eff W (E + A)) (k : A → Eff W (E + B)) (Q : E + B → W → Prop) w :
  wp m (λ r w', match r with inl e => Q (inl e) w' | inr a => wp (k a) Q w' end) w →
  wp (xbind m k) Q w.
Proof. unfold wp, xbind, ebind, eret. by destruct (m w) as [[e|a] w']. Qed.

(** Code that also keeps a state [S] of its own: the state goes with the world.
    [sget], [smod] and [sio] read it, change it and call the outside. *)
Definition sget {S W} : Eff (S * W) S := λ '(s, w), (s, (s, w)).
Definition smod {S W} (f : S → S) : Eff (S * W) unit := λ '(s, w), (tt, (f s, w)).
Definition sio {S W A} (m : Eff W A) : Eff (S * W) A :=
  λ '(s, w), let '(a, w) := m w in (a, (s, w)).

Lemma wp_sget {S W} (Q : S → S * W → Prop) s w : Q s (s, w) → wp sget Q (s, w).
Proof. done. Qed.
Lemma wp_smod {S W} (f : S → S) (Q : unit → S * W → Prop) s w :
  Q tt (f s, w) → wp (smod f) Q (s, w).
Proof. done. Qed.
Lemma wp_sio {S W A} (m : Eff W A) (Q : A → S * W → Prop) s w :
  wp m (λ a w', Q a (s, w')) w → wp (sio m) Q (s, w).
Proof. unfold wp, sio. by destruct (m w). Qed.
(** Nothing is known of the answer. *)
Lemma wp_sio_any {S W A} (m : Eff W A) (Q : A → S * W → Prop) s w :
  (∀ a w', Q a (s, w')) → wp (sio m) Q (s, w).
Proof. intros H. unfold wp, sio. destruct (m w). apply H. Qed.

(** ** C strings

    A C string is its text without the terminating NUL; a fixed buffer of [n]
    bytes filled by [snprintf("%s")] keeps at most [n - 1] of them. *)
Definition c_snprintf_s (size : nat) (s : string) : string :=
  String.substring 0 (size - 1) s.

Lemma substring_length_le n s : (String.length (String.substring 0 n s) <= n)%nat.
Proof.
  revert n; induction s as [|a s IH]; intros [|n]; simpl; try lia.
  specialize (IH n). lia.
Qed.
Lemma substring_full n s :
  (String.length s <= n)%nat → String.substring 0 n s = s.
Proof.
  revert n; induction s as [|a s IH]; intros [|n]; simpl; try done; try lia.
  intros. f_equal. apply IH. lia.
Qed.
Lemma c_snprintf_s_fits size s :
  (0 < size)%nat → (String.length (c_snprintf_s size s) < size)%nat.
Proof.
  intros. unfold c_snprintf_s. pose proof (substring_length_le (size - 1) s). lia.
Qed.

(** ** Filters, up to the order *)
Lemma filter_insert_perm {A} (P : A → Prop) `{∀ x, Decision (P x)} (l : list A) k x y :
  l !! k = Some x →
  filter P [x] ++ filter P (<[k:=y]> l) ≡ₚ filter P [y] ++ filter P l.
Proof.
  intros Hk. rewrite <-(take_drop_middle l k x Hk) at 2.
  rewrite insert_take_drop by (by eapply lookup_lt_Some).
  change (x :: drop (S k) l) with ([x] ++ drop (S k) l).
  change (y :: drop (S k) l) with ([y] ++ drop (S k) l).
  rewrite !filter_app. solve_Permutation.
Qed.

Lemma filter_none {A} (P : A → Prop) `{∀ x, Decision (P x)} (l : list A) :
  (∀ x, x ∈ l → ¬ P x) → filter P l = [].
Proof.
  induction l as [|x l IH]; intros Hl; [done|]. rewrite filter_cons_False by set_solver.
  apply IH. set_solver.
Qed.
Lemma filter_all {A} (P : A → Prop) `{∀ x, Decision (P x)} (l : list A) :
  (∀ x, x ∈ l → P x) → filter P l = l.
Proof.
  induction l as [|x l IH]; intros Hl; [done|]. rewrite filter_cons_True by set_solver.
  f_equal. apply IH. set_solver.
Qed.

Lemma filter_filter_comm {A} (P Q : A → Prop) `{∀ x, Decision (P x)} `{∀ x, Decision (Q x)}
    (l : list A) : filter P (filter Q l) = filter Q (filter P l).
Proof.
  induction l as [|x l IH]; [done|]. rewrite (filter_cons Q), (filter_cons P).
  repeat case_decide; rewrite ?filter_cons; repeat case_decide; simpl; try done; by f_equal.
Qed.

Lemma NoDup_fmap_inj {A B} (f : A → B) (l : list A) x y :
  NoDup (f <$> l) → x ∈ l → y ∈ l → f x = f y → x = y.
Proof.
  induction l as [|z l IH]; intros Hnd Hx Hy Hf; [by apply not_elem_of_nil in Hx|].
  apply NoDup_cons in Hnd as [Hz Hnd]. set_unfold. destruct Hx as [->|Hx], Hy as [->|Hy]; auto.
  - destruct Hz. exists y. by rewrite Hf.
  - destruct Hz. by exists x.
Qed.

(** Values that are all covered by distinct keys: the classes add up. *)
Definition class {A B} `{EqDecision B} (f : A → B) (b : B) (l : list A) : list A :=
  filter (λ x, f x = b) l.
Lemma class_cons {A B} `{EqDecision B} (f : A → B) b x l :
  class f b (x :: l) = (if decide (f x = b) then [x] else []) ++ class f b l.
Proof. unfold class. rewrite filter_cons. by case_decide. Qed.
Lemma sum_class_cons {A B} `{EqDecision B} (f : A → B) (ks : list B) x l :
  NoDup ks → f x ∈ ks →
  foldr (λ k n, Z.of_nat (length (class f k (x :: l))) + n) 0 ks =
  1 + foldr (λ k n, Z.of_nat (length (class f k l)) + n) 0 ks.
Proof.
  induction ks as [|k ks IH]; intros Hnd Hx; [by apply not_elem_of_nil in Hx|].
  apply NoDup_cons in Hnd as [Hk Hnd]. simpl foldr. rewrite class_cons.
  destruct (decide (f x = k)) as [<-|Hne].
  - assert (Hs : foldr (λ k n, Z.of_nat (length (class f k (x :: l))) + n) 0 ks =
                 foldr (λ k n, Z.of_nat (length (class f k l)) + n) 0 ks).
    { clear IH Hnd Hx. induction ks as [|k' ks IH']; [done|]. simpl foldr.
      apply not_elem_of_cons in Hk as [??]. rewrite IH' by done.
      rewrite class_cons, decide_False by done. done. }
    rewrite Hs, length_app. simpl. lia.
  - apply elem_of_cons in Hx as [|Hx]; [done|]. rewrite IH by done. simpl. lia.
Qed.
Lemma sum_class {A B} `{EqDecision B} (f : A → B) (ks : list B) (l : list A) :
  NoDup ks → (∀ x, x ∈ l → f x ∈ ks) →
  foldr (λ k n, Z.of_nat (length (class f k l)) + n) 0 ks = Z.of_nat (length l).
Proof.
  intros Hnd. induction l as [|x l IH]; intros Hl.
  { clear. induction ks; [done|]. simpl in *. done. }
  rewrite sum_class_cons, IH by set_solver. simpl. lia.
Qed.

(** ** Counting the occurrences of a value in a list *)
Definition occ {A} `{EqDecision A} (x : A) (l : list A) : Z :=
  Z.of_nat (length (filter (λ y, y = x) l)).

Section occ.
Context {A : Type} `{EqDecision A}.
Implicit Types (x y : A) (l : list A).

Lemma occ_nil x : occ x [] = 0.
Proof. done. Qed.
Lemma occ_cons x y l : occ x (y :: l) = occ x l + (if decide (y = x) then 1 else 0).
Proof. unfold occ. rewrite filter_cons. case_decide; simpl; lia. Qed.
Lemma occ_nonneg x l : 0 <= occ x l.
Proof. unfold occ. lia. Qed.
Lemma occ_le_length x l : occ x l <= Z.of_nat (length l).
Proof. unfold occ. pose proof (length_filter (λ y, y = x) l). lia. Qed.

(** Replacing one element moves one occurrence from the old to the new value. *)
Lemma occ_insert x l i old new :
  l !! i = Some old →
  occ x (<[i:=new]> l) =
    occ x l - (if decide (old = x) then 1 else 0)
            + (if decide (new = x) then 1 else 0).
Proof.
  revert i; induction l as [|y l IH]; intros [|i] Hi; simplify_eq/=.
  - rewrite !occ_cons. lia.
  - rewrite !occ_cons, (IH _ Hi). lia.
Qed.
Lemma occ_pos x l i : l !! i = Some x → 0 < occ x l.
Proof.
  revert i; induction l as [|y l IH]; intros [|i] Hi; simplify_eq/=;
    rewrite occ_cons.
  - rewrite decide_True by done. pose proof (occ_nonneg x l). lia.
  - pose proof (IH _ Hi). case_decide; lia.
Qed.
Lemma occ_replicate x y n :
  occ x (replicate n y) = if decide (y = x) then Z.of_nat n else 0.
Proof.
  induction n as [|n IH]; simpl; [by case_decide|].
  rewrite occ_cons, IH. case_decide; lia.
Qed.

(** Distinct positions that all hold [x] are at most [occ x l] many. *)
Lemma NoDup_positions_le_occ x y l (ks : list nat) :
  x ≠ y → NoDup ks → (∀ k, k ∈ ks → l !! k = Some x) →
  Z.of_nat (length ks) <= occ x l.
Proof.
  intros Hxy. revert l; induction ks as [|k ks IH]; intros l Hnd Hks.
  { pose proof (occ_nonneg x l). simpl. lia. }
  apply NoDup_cons in Hnd as [Hk Hnd].
  assert (Hlk : l !! k = Some x) by (apply Hks; left).
  specialize (IH (<[k:=y]> l) Hnd). rewrite (occ_insert _ _ _ _ _ Hlk) in IH.
  rewrite decide_True, decide_False in IH by done.
  assert (∀ k', k' ∈ ks → <[k:=y]> l !! k' = Some x).
  { intros k' Hk'. rewrite list_lookup_insert_ne by set_solver.
    apply Hks. by right. }
  specialize (IH H). simpl. lia.
Qed.
End occ.

(** ** A ring buffer read as a queue

    [ring_rep arr hd q]: starting at index [hd] and wrapping at the length of
    the array, the ring holds the queue [q]. *)
Record ring_rep {A} (arr : list A) (hd : Z) (q : list A) : Prop := {
  ring_head : 0 <= hd < Z.of_nat (length arr);
  ring_fits : (length q <= length arr)%nat;
  ring_elem : ∀ i x, q !! i = Some x →
    arr !! Z.to_nat ((hd + Z.of_nat i) mod Z.of_nat (length arr)) = Some x }.

Section ring.
Context {A : Type}.
Implicit Types (arr q : list A) (x : A).

Lemma ring_index_inj n hd i j :
  0 < n → 0 <= i < n → 0 <= j < n → (hd + i) mod n = (hd + j) mod n → i = j.
Proof.
  intros Hn Hi Hj Heq.
  pose proof (Z.div_mod (hd + i) n). pose proof (Z.div_mod (hd + j) n).
  assert (i - j = n * ((hd + i) / n - (hd + j) / n)) by lia.
  assert ((hd + i) / n - (hd + j) / n = 0) by nia. nia.
Qed.

Lemma ring_rep_empty arr hd :
  0 <= hd < Z.of_nat (length arr) → ring_rep arr hd [].
Proof. intros. split; simpl; [done|lia|done]. Qed.

Lemma ring_rep_push arr hd q x :
  ring_rep arr hd q → (length q < length arr)%nat →
  ring_rep (<[Z.to_nat ((hd + Z.of_nat (length q)) mod Z.of_nat (length arr)) := x]> arr)
    hd (q ++ [x]).
Proof.
  intros [Hh Hf He] Hlt. set (n := Z.of_nat (length arr)) in *.
  split; rewrite ?length_insert; [done|rewrite length_app; simpl; lia|].
  fold n. intros i y Hi.
  pose proof (Z.mod_pos_bound (hd + Z.of_nat (length q)) n).
  pose proof (Z.mod_pos_bound (hd + Z.of_nat i) n).
  apply lookup_app_Some in Hi as [Hi|[Hge Hi]].
  - rewrite list_lookup_insert_ne; [by apply He|]. apply lookup_lt_Some in Hi as Hi'.
    intros Heq.
    assert (Z.of_nat (length q) = Z.of_nat i); [|lia].
    apply (ring_index_inj n hd); lia.
  - assert (i = length q) as ->.
    { apply lookup_lt_Some in Hi. simpl in Hi. lia. }
    rewrite Nat.sub_diag in Hi. injection Hi as ->.
    apply list_lookup_insert_eq. lia.
Qed.

Lemma ring_rep_head arr hd x q :
  ring_rep arr hd (x :: q) → arr !! Z.to_nat hd = Some x.
Proof.
  intros [Hh Hf He]. specialize (He 0%nat x eq_refl). rewrite Z.add_0_r in He.
  by rewrite Z.mod_small in He.
Qed.

Lemma ring_rep_pop arr hd x q :
  ring_rep arr hd (x :: q) →
  ring_rep arr ((hd + 1) mod Z.of_nat (length arr)) q.
Proof.
  intros [Hh Hf He]. split.
  - apply Z.mod_pos_bound. lia.
  - simpl in Hf. lia.
  - intros i y Hi. rewrite Zplus_mod_idemp_l.
    replace (hd + 1 + Z.of_nat i) with (hd + Z.of_nat (S i)) by lia.
    by apply He.
Qed.
End ring.
#[export] Hint Resolve occ_nonneg : cint.
