(* ===== verification/StorageError.v ===== *)
(** * Storage error taxonomy ([src/src/storage_error.c])

    The error codes, their severity class and the two-slot (primary,
    secondary) error record every component of the controller shares.  A code
    travels through pipes as a raw enumeration value, so it is kept as the
    integer the C type holds: values outside the enumeration are possible and
    the functions below are total on them, like the code. *)
From S2P Require Import Prelude.

Definition StorageErrorCode : Type := Z.

Definition STORAGE_ERR_NONE : StorageErrorCode := 0.
Definition STORAGE_ERR_CONFIG : StorageErrorCode := 1.
Definition STORAGE_ERR_PCIE_LINK : StorageErrorCode := 2.
Definition STORAGE_ERR_NVME_PROBE : StorageErrorCode := 3.
Definition STORAGE_ERR_DMA_INIT : StorageErrorCode := 4.
Definition STORAGE_ERR_DMA_DESCRIPTOR : StorageErrorCode := 5.
Definition STORAGE_ERR_QUEUE : StorageErrorCode := 6.
Definition STORAGE_ERR_UNKNOWN_CID : StorageErrorCode := 7.
Definition STORAGE_ERR_DUPLICATE_CID : StorageErrorCode := 8.
Definition STORAGE_ERR_OWNERSHIP : StorageErrorCode := 9.
Definition STORAGE_ERR_NVME_TIMEOUT : StorageErrorCode := 10.
Definition STORAGE_ERR_TAIL_UNALIGNED : StorageErrorCode := 11.
Definition STORAGE_ERR_LATE_COMPLETION : StorageErrorCode := 12.
Definition STORAGE_ERR_STOP_BOUNDARY_TIMEOUT : StorageErrorCode := 13.
Definition STORAGE_ERR_STOP_HARVEST_TIMEOUT : StorageErrorCode := 14.
Definition STORAGE_ERR_IPC : StorageErrorCode := 15.
Definition STORAGE_ERR_IPC_SEQUENCE : StorageErrorCode := 16.
Definition STORAGE_ERR_WORKER_EXIT : StorageErrorCode := 17.
Definition STORAGE_ERR_INTEGRITY : StorageErrorCode := 18.
Definition STORAGE_ERR_BYTE_MISMATCH : StorageErrorCode := 19.
Definition STORAGE_ERR_DMA_STOP : StorageErrorCode := 20.
Definition STORAGE_ERR_COMMIT : StorageErrorCode := 21.
Definition STORAGE_ERR_ZERO_PAYLOAD : StorageErrorCode := 22.
Definition STORAGE_ERR_INTERNAL : StorageErrorCode := 23.
Definition STORAGE_ERR_COUNT : Z := 24.

Inductive StorageErrorClass : Type :=
| STORAGE_ERROR_NONE
| STORAGE_ERROR_DEFERRED
| STORAGE_ERROR_FATAL.
#[export] Instance StorageErrorClass_eq_dec : EqDecision StorageErrorClass.
Proof. solve_decision. Defined.

(** The [switch] of [storage_error_class]: four deferred codes, everything
    else (also values outside the enumeration) is fatal. *)
Definition storage_error_class (code : StorageErrorCode) : StorageErrorClass :=
  if code =? STORAGE_ERR_NONE then STORAGE_ERROR_NONE
  else if (code =? STORAGE_ERR_TAIL_UNALIGNED) ||
          (code =? STORAGE_ERR_LATE_COMPLETION) ||
          (code =? STORAGE_ERR_STOP_BOUNDARY_TIMEOUT) ||
          (code =? STORAGE_ERR_STOP_HARVEST_TIMEOUT)
  then STORAGE_ERROR_DEFERRED
  else STORAGE_ERROR_FATAL.

Definition storage_error_names : list string :=
  ["none"; "config"; "pcie_link"; "nvme_probe"; "dma_init"; "dma_descriptor";
   "queue"; "unknown_cid"; "duplicate_cid"; "ownership"; "nvme_timeout";
   "tail_unaligned"; "late_completion"; "stop_boundary_timeout";
   "stop_harvest_timeout"; "ipc"; "ipc_sequence"; "worker_exit"; "integrity";
   "byte_mismatch"; "dma_stop"; "commit"; "zero_payload"; "internal"]%string.

Definition storage_error_string (code : StorageErrorCode) : string :=
  if 0 <=? code
  then default "invalid_error_code"%string (storage_error_names !! Z.to_nat code)
  else "invalid_error_code"%string.

Definition storage_error_code_valid (code : StorageErrorCode) : bool :=
  (STORAGE_ERR_NONE <=? code) && (code <? STORAGE_ERR_COUNT).

(** [storage_error_record]: returns the updated (primary, secondary) pair. *)
Definition storage_error_record (primary secondary code : StorageErrorCode)
  : StorageErrorCode * StorageErrorCode :=
  if decide (storage_error_class code = STORAGE_ERROR_NONE)
  then (primary, secondary)
  else if primary =? STORAGE_ERR_NONE then (code, secondary)
  else if (secondary =? STORAGE_ERR_NONE) && negb (primary =? code)
  then (primary, code)
  else (primary, secondary).

(** ** Lemmas shared by the clients *)
Lemma storage_error_class_none code :
  storage_error_class code = STORAGE_ERROR_NONE ↔ code = STORAGE_ERR_NONE.
Proof.
  unfold storage_error_class. destruct (Z.eqb_spec code STORAGE_ERR_NONE); [done|].
  destruct (_ || _); naive_solver.
Qed.

Lemma storage_error_class_fatal_ne code :
  storage_error_class code = STORAGE_ERROR_FATAL → code ≠ STORAGE_ERR_NONE.
Proof. intros H ->. discriminate H. Qed.

Lemma storage_error_record_primary_stable p s code :
  p ≠ STORAGE_ERR_NONE → fst (storage_error_record p s code) = p.
Proof.
  intros Hp. unfold storage_error_record. case_decide; [done|].
  destruct (Z.eqb_spec p STORAGE_ERR_NONE); [done|]. by destruct (_ && _).
Qed.

Lemma storage_error_record_some p s code :
  code ≠ STORAGE_ERR_NONE → fst (storage_error_record p s code) ≠ STORAGE_ERR_NONE.
Proof.
  intros Hc. unfold storage_error_record.
  rewrite decide_False by (by rewrite storage_error_class_none).
  destruct (Z.eqb_spec p STORAGE_ERR_NONE) as [->|Hp]; [done|].
  by destruct (_ && _).
Qed.

(** Two code paths recording a sequence of errors keep the first one and the
    first later one that differs from it. *)
Definition record_all (codes : list StorageErrorCode)
    (pair : StorageErrorCode * StorageErrorCode) :=
  foldl (λ '(p, s) c, storage_error_record p s c) pair codes.

Definition first_two_distinct (codes : list StorageErrorCode)
  : StorageErrorCode * StorageErrorCode :=
  match filter (λ c, c ≠ STORAGE_ERR_NONE) codes with
  | [] => (STORAGE_ERR_NONE, STORAGE_ERR_NONE)
  | p :: rest => (p, default STORAGE_ERR_NONE (head (filter (λ c, c ≠ p) rest)))
  end.
