(* ===== verification/SlotTable.v ===== *)
(** * The DDR slot table ([src/src/storage_queue.c], [src/include/storage_queue.h])

    Every DMA slot of a channel is in one of six states; the table keeps the
    state of each slot and, next to it, six counters.  The refinement theorem
    says that the counters are exactly the number of slots in each state, that
    a transition is accepted precisely when the slot is in the expected state,
    and that the rollback branch of [storage_slot_transition] is never taken. *)
From S2P Require Import Prelude.

Module storage_queue.

Inductive StorageSlotState : Type :=
| STORAGE_SLOT_DMA_WRITABLE
| STORAGE_SLOT_DMA_COMPLETED_UNHARVESTED
| STORAGE_SLOT_READY_FOR_NVME
| STORAGE_SLOT_NVME_BUSY
| STORAGE_SLOT_REQUEUE_PENDING
| STORAGE_SLOT_FREE
| STORAGE_SLOT_INVALID.
#[export] Instance StorageSlotState_eq_dec : EqDecision StorageSlotState.
Proof. solve_decision. Defined.

Record StorageSlotCounts : Type := mkCounts {
  total : Z;
  dma_writable : Z;
  completed_unharvested : Z;
  ready : Z;
  nvme_busy : Z;
  requeue_pending : Z;
  free_count : Z }.
#[export] Instance eta_Counts : EtaOf StorageSlotCounts := λ c,
  mkCounts (total c) (dma_writable c) (completed_unharvested c) (ready c)
    (nvme_busy c) (requeue_pending c) (free_count c).

(** [states = None] is the NULL pointer of a table not (or no longer) initialised. *)
Record StorageSlotTable : Type := mkTable {
  states : option (list StorageSlotState);
  counts : StorageSlotCounts;
  capacity : Z }.
#[export] Instance eta_Table : EtaOf StorageSlotTable := λ t,
  mkTable (states t) (counts t) (capacity t).

(** The [uint32_t *] returned by [count_for_state]: how to read and how to
    update the counter it points to. *)
Record CountRef : Type := mkCountRef {
  cr_get : StorageSlotCounts → Z;
  cr_upd : (Z → Z) → StorageSlotCounts → StorageSlotCounts }.

Definition count_for_state (state : StorageSlotState) : option CountRef :=
  match state with
  | STORAGE_SLOT_DMA_WRITABLE => Some (mkCountRef dma_writable (upd dma_writable))
  | STORAGE_SLOT_DMA_COMPLETED_UNHARVESTED =>
      Some (mkCountRef completed_unharvested (upd completed_unharvested))
  | STORAGE_SLOT_READY_FOR_NVME => Some (mkCountRef ready (upd ready))
  | STORAGE_SLOT_NVME_BUSY => Some (mkCountRef nvme_busy (upd nvme_busy))
  | STORAGE_SLOT_REQUEUE_PENDING =>
      Some (mkCountRef requeue_pending (upd requeue_pending))
  | STORAGE_SLOT_FREE => Some (mkCountRef free_count (upd free_count))
  | STORAGE_SLOT_INVALID => None
  end.

Definition storage_slot_table_valid (table : StorageSlotTable) : bool :=
  match states table with
  | None => false
  | Some _ =>
    if capacity table =? 0 then false
    else
      let c := counts table in
      let sum := u64 (dma_writable c + completed_unharvested c + ready c +
                      nvme_busy c + requeue_pending c + free_count c) in
      (total c =? capacity table) && (sum =? total c)
  end.

Definition zero_counts : StorageSlotCounts := mkCounts 0 0 0 0 0 0 0.
Definition zero_table : StorageSlotTable := mkTable None zero_counts 0.

(** [calloc_ok] is the outcome of the allocation; [calloc] zeroes the array
    and [STORAGE_SLOT_DMA_WRITABLE] is the enumerator 0. *)
Definition storage_slot_table_init (calloc_ok : bool) (table : StorageSlotTable)
    (slots : Z) : Z * StorageSlotTable :=
  if slots =? 0 then (-1, table)
  else if calloc_ok then
    (0, mkTable (Some (replicate (Z.to_nat slots) STORAGE_SLOT_DMA_WRITABLE))
          (zero_counts <| total := slots |> <| dma_writable := slots |>) slots)
  else (-1, zero_table).

Definition storage_slot_table_destroy (_ : StorageSlotTable) : StorageSlotTable :=
  zero_table.

(** [states[slot]] *)
Definition slot_at (table : StorageSlotTable) (slot : Z) : option StorageSlotState :=
  l ← states table; l !! Z.to_nat slot.

(** [states[slot] = s] *)
Definition set_slot (table : StorageSlotTable) (slot : Z) (s : StorageSlotState)
  : StorageSlotTable :=
  table <| states ::= fmap (<[Z.to_nat slot := s]>) |>.

Definition storage_slot_transition (table : StorageSlotTable) (slot : Z)
    (expected next : StorageSlotState) : Z * StorageSlotTable :=
  if negb (storage_slot_table_valid table) || (capacity table <=? slot) ||
     bool_decide (slot_at table slot ≠ Some expected) ||
     bool_decide (expected = next)
  then (-1, table)
  else
    match count_for_state expected, count_for_state next with
    | Some from, Some to =>
      if cr_get from (counts table) =? 0 then (-1, table)
      else
        let moved := cr_upd to (λ n, u32 (n + 1))
                       (cr_upd from (λ n, u32 (n - 1)) (counts table)) in
        let table' := set_slot (table <| counts := moved |>) slot next in
        if negb (storage_slot_table_valid table') then
          let restored := cr_upd to (λ n, u32 (n - 1))
                            (cr_upd from (λ n, u32 (n + 1)) (counts table')) in
          (-1, (set_slot table' slot expected) <| counts := restored |>)
        else (0, table')
    | _, _ => (-1, table)
    end.

Definition storage_slot_state (table : StorageSlotTable) (slot : Z)
  : StorageSlotState :=
  if capacity table <=? slot then STORAGE_SLOT_INVALID
  else default STORAGE_SLOT_INVALID (slot_at table slot).

Definition storage_slot_busy_count (table : StorageSlotTable) : Z :=
  if negb (storage_slot_table_valid table) then 0
  else u32 (completed_unharvested (counts table) + ready (counts table) +
            nvme_busy (counts table) + requeue_pending (counts table)).

(** ** The abstract table: the list of slot states, nothing else *)

Definition counts_of (l : list StorageSlotState) : StorageSlotCounts :=
  mkCounts (Z.of_nat (length l))
    (occ STORAGE_SLOT_DMA_WRITABLE l)
    (occ STORAGE_SLOT_DMA_COMPLETED_UNHARVESTED l)
    (occ STORAGE_SLOT_READY_FOR_NVME l)
    (occ STORAGE_SLOT_NVME_BUSY l)
    (occ STORAGE_SLOT_REQUEUE_PENDING l)
    (occ STORAGE_SLOT_FREE l).

(** A table represents [l]: its array is [l], its counters count [l], and [l]
    is a non-empty list of real states that fits the 32-bit capacity. *)
Record table_rep (t : StorageSlotTable) (l : list StorageSlotState) : Prop := {
  rep_states : states t = Some l;
  rep_counts : counts t = counts_of l;
  rep_capacity : capacity t = Z.of_nat (length l);
  rep_nonempty : 0 < Z.of_nat (length l) <= UINT32_MAX;
  rep_real : STORAGE_SLOT_INVALID ∉ l }.

(** The specification of a transition on the list of states. *)
Definition spec_transition (l : list StorageSlotState) (slot : Z)
    (expected next : StorageSlotState) : option (list StorageSlotState) :=
  if decide (0 <= slot ∧ l !! Z.to_nat slot = Some expected ∧ expected ≠ next ∧
             next ≠ STORAGE_SLOT_INVALID)
  then Some (<[Z.to_nat slot := next]> l) else None.

Lemma states_partition l :
  STORAGE_SLOT_INVALID ∉ l →
  occ STORAGE_SLOT_DMA_WRITABLE l + occ STORAGE_SLOT_DMA_COMPLETED_UNHARVESTED l +
  occ STORAGE_SLOT_READY_FOR_NVME l + occ STORAGE_SLOT_NVME_BUSY l +
  occ STORAGE_SLOT_REQUEUE_PENDING l + occ STORAGE_SLOT_FREE l
  = Z.of_nat (length l).
Proof.
  induction l as [|s l IH]; intros Hl; [done|].
  rewrite not_elem_of_cons in Hl. destruct Hl as [Hs Hl]. specialize (IH Hl).
  rewrite !occ_cons. simpl length. destruct s; repeat case_decide; done || lia.
Qed.

Lemma rep_valid t l : table_rep t l → storage_slot_table_valid t = true.
Proof.
  intros [Hs Hc Hcap Hne Hr]. unfold storage_slot_table_valid.
  rewrite Hs, Hc, Hcap. simpl.
  pose proof (states_partition l Hr).
  rewrite u64_small by (cint). repeat case_match; try lia.
Qed.

Lemma rep_slot_at t l slot : table_rep t l → slot_at t slot = l !! Z.to_nat slot.
Proof. intros Hr. unfold slot_at. by rewrite (rep_states t l Hr). Qed.

Lemma rep_in_range t l slot s :
  table_rep t l → 0 <= slot → l !! Z.to_nat slot = Some s → slot < capacity t.
Proof.
  intros Hr ? Hl. apply lookup_lt_Some in Hl. rewrite (rep_capacity t l Hr). lia.
Qed.

Lemma rep_lookup_real t l i s :
  table_rep t l → l !! i = Some s → s ≠ STORAGE_SLOT_INVALID.
Proof.
  intros Hr Hl ->. apply (rep_real t l Hr). by eapply list_elem_of_lookup_2.
Qed.

Lemma count_for_state_rep s l :
  s ≠ STORAGE_SLOT_INVALID →
  ∃ cr, count_for_state s = Some cr ∧ cr_get cr (counts_of l) = occ s l.
Proof. destruct s; intros; try done; eexists; done. Qed.

(** Moving one slot moves one unit between the two counters. *)
Lemma counts_of_insert l i expected next from to :
  Z.of_nat (length l) <= UINT32_MAX →
  l !! i = Some expected → expected ≠ next →
  count_for_state expected = Some from → count_for_state next = Some to →
  cr_upd to (λ n, u32 (n + 1)) (cr_upd from (λ n, u32 (n - 1)) (counts_of l))
  = counts_of (<[i:=next]> l).
Proof.
  intros Hlen Hi Hne Hf Ht. unfold counts_of.
  rewrite length_insert, !(occ_insert _ _ _ _ _ Hi).
  pose proof (occ_pos _ _ _ Hi). pose proof (occ_le_length expected l).
  assert (occ next l < Z.of_nat (length l)).
  { pose proof (occ_le_length next (<[i:=expected]> l)) as Hle.
    pose proof (occ_le_length next (<[i:=next]> l)) as Hle'.
    rewrite (occ_insert _ _ _ _ _ Hi) in Hle'. rewrite length_insert in Hle'.
    rewrite decide_False, decide_True in Hle' by done. lia. }
  pose proof (occ_nonneg next l).
  assert (Hdec : u32 (occ expected l - 1) = occ expected l - 1)
    by (apply u32_small; cint).
  assert (Hinc : u32 (occ next l + 1) = occ next l + 1)
    by (apply u32_small; cint).
  destruct expected, next; simplify_eq/=; f_equal; try lia.
Qed.

Lemma spec_transition_real l slot e n l' :
  STORAGE_SLOT_INVALID ∉ l → spec_transition l slot e n = Some l' →
  STORAGE_SLOT_INVALID ∉ l'.
Proof.
  unfold spec_transition. intros Hl Heq. case_decide as Hd; simplify_eq.
  destruct Hd as (_ & _ & _ & Hn). rewrite list_elem_of_lookup. intros [i Hi].
  apply list_lookup_insert_Some in Hi as [(_ & ? & _)|(_ & Hi)]; [done|].
  by apply Hl; eapply list_elem_of_lookup_2.
Qed.

(** The accepting branch: no rollback, the counters follow the array. *)
Lemma transition_accept t l slot e n :
  table_rep t l → 0 <= slot → l !! Z.to_nat slot = Some e → e ≠ n →
  n ≠ STORAGE_SLOT_INVALID →
  ∃ t', storage_slot_transition t slot e n = (0, t') ∧
        table_rep t' (<[Z.to_nat slot := n]> l).
Proof.
  intros Hr Hslot Hl Hne Hn.
  destruct (count_for_state_rep e l) as (from & Hfrom & Hget);
    [by eapply rep_lookup_real|].
  destruct (count_for_state_rep n l) as (to & Hto & _); [done|].
  set (t' := set_slot (t <| counts := counts_of (<[Z.to_nat slot:=n]> l) |>) slot n).
  assert (Hr' : table_rep t' (<[Z.to_nat slot:=n]> l)).
  { pose proof Hr as [Hs Hc Hcap Hnz Hreal].
    split; unfold t', set_slot; simpl; rewrite ?length_insert; try done.
    - by rewrite Hs.
    - eapply spec_transition_real; [apply Hreal|].
      unfold spec_transition. by rewrite decide_True. }
  exists t'. split; [|done].
  pose proof (occ_pos _ _ _ Hl). pose proof (rep_in_range _ _ _ _ Hr Hslot Hl).
  unfold storage_slot_transition.
  rewrite (rep_valid _ _ Hr), (rep_slot_at _ _ _ Hr), Hl, Hfrom, Hto.
  rewrite (rep_counts _ _ Hr), Hget.
  rewrite !bool_decide_eq_false_2 by naive_solver.
  rewrite (counts_of_insert l (Z.to_nat slot) e n from to); try done;
    [|apply (rep_nonempty _ _ Hr)].
  fold t'. rewrite (rep_valid _ _ Hr').
  destruct (Z.leb_spec (capacity t) slot); [lia|].
  destruct (Z.eqb_spec (occ e l) 0); [lia|done].
Qed.

(** The refusing branch leaves the table untouched. *)
Lemma transition_refuse t l slot e n :
  table_rep t l → 0 <= slot → spec_transition l slot e n = None →
  storage_slot_transition t slot e n = (-1, t).
Proof.
  intros Hr Hslot Hspec. unfold storage_slot_transition.
  rewrite (rep_valid _ _ Hr), (rep_slot_at _ _ _ Hr). simpl.
  unfold spec_transition in Hspec. case_decide as Hd; [done|].
  destruct (decide (l !! Z.to_nat slot = Some e)) as [Hl|Hl].
  - destruct (decide (e = n)) as [He|He].
    { rewrite (bool_decide_eq_true_2 (e = n)) by done. by rewrite !orb_true_r. }
    assert (n = STORAGE_SLOT_INVALID) as -> by (destruct n; naive_solver).
    simpl. destruct (count_for_state e); by destruct (_ || _).
  - rewrite (bool_decide_eq_true_2 (_ ≠ Some e)) by done. by rewrite orb_true_r.
Qed.

Lemma transition_spec t l slot e n :
  table_rep t l → 0 <= slot →
  match spec_transition l slot e n with
  | Some l' => ∃ t', storage_slot_transition t slot e n = (0, t') ∧ table_rep t' l'
  | None => storage_slot_transition t slot e n = (-1, t)
  end.
Proof.
  intros Hr Hslot. destruct (spec_transition l slot e n) as [l'|] eqn:Hs.
  - unfold spec_transition in Hs. case_decide as Hd; simplify_eq.
    destruct Hd as (_ & ? & ? & ?). by apply transition_accept.
  - by eapply transition_refuse.
Qed.

Lemma init_rep t slots :
  0 < slots <= UINT32_MAX →
  table_rep (snd (storage_slot_table_init true t slots))
            (replicate (Z.to_nat slots) STORAGE_SLOT_DMA_WRITABLE).
Proof.
  intros Hs. unfold storage_slot_table_init.
  destruct (Z.eqb_spec slots 0); [lia|].
  assert (Z.of_nat (Z.to_nat slots) = slots) by lia.
  split; simpl; rewrite ?length_replicate; try lia; try done.
  - unfold counts_of. rewrite length_replicate, !occ_replicate. simpl.
    unfold zero_counts. rec_simpl. f_equal; lia.
  - by intros [? _]%elem_of_replicate.
Qed.

Lemma rep_slot_state t l slot :
  table_rep t l → 0 <= slot →
  storage_slot_state t slot = default STORAGE_SLOT_INVALID (l !! Z.to_nat slot).
Proof.
  intros Hr ?. unfold storage_slot_state. rewrite (rep_slot_at _ _ _ Hr).
  rewrite (rep_capacity _ _ Hr). destruct (Z.leb_spec (Z.of_nat (length l)) slot); [|done].
  rewrite lookup_ge_None_2; [done|lia].
Qed.

Lemma rep_busy_count t l :
  table_rep t l →
  storage_slot_busy_count t + occ STORAGE_SLOT_DMA_WRITABLE l
    + occ STORAGE_SLOT_FREE l = capacity t.
Proof.
  intros Hr. unfold storage_slot_busy_count. rewrite (rep_valid _ _ Hr). simpl.
  pose proof Hr as [_ Hc Hcap Hne Hreal]. rewrite Hc, Hcap. simpl.
  pose proof (states_partition l Hreal).
  pose proof (occ_nonneg STORAGE_SLOT_DMA_WRITABLE l).
  pose proof (occ_nonneg STORAGE_SLOT_DMA_COMPLETED_UNHARVESTED l).
  pose proof (occ_nonneg STORAGE_SLOT_READY_FOR_NVME l).
  pose proof (occ_nonneg STORAGE_SLOT_NVME_BUSY l).
  pose proof (occ_nonneg STORAGE_SLOT_REQUEUE_PENDING l).
  pose proof (occ_nonneg STORAGE_SLOT_FREE l).
  rewrite u32_small by cint. lia.
Qed.

(** ** Sequences of transitions *)
Record transition_req : Type := mkReq {
  rq_slot : Z; rq_expected : StorageSlotState; rq_next : StorageSlotState }.

Fixpoint run_transitions (t : StorageSlotTable) (reqs : list transition_req)
  : list Z * StorageSlotTable :=
  match reqs with
  | [] => ([], t)
  | r :: rest =>
    let '(rc, t1) := storage_slot_transition t (rq_slot r) (rq_expected r) (rq_next r) in
    let '(rcs, t2) := run_transitions t1 rest in (rc :: rcs, t2)
  end.

Fixpoint spec_transitions (l : list StorageSlotState) (reqs : list transition_req)
  : list Z * list StorageSlotState :=
  match reqs with
  | [] => ([], l)
  | r :: rest =>
    match spec_transition l (rq_slot r) (rq_expected r) (rq_next r) with
    | Some l1 => let '(rcs, l2) := spec_transitions l1 rest in (0 :: rcs, l2)
    | None => let '(rcs, l2) := spec_transitions l rest in (-1 :: rcs, l2)
    end
  end.

Lemma run_transitions_spec reqs : ∀ t l,
  Forall (λ r, 0 <= rq_slot r) reqs → table_rep t l →
  fst (run_transitions t reqs) = fst (spec_transitions l reqs) ∧
  table_rep (snd (run_transitions t reqs)) (snd (spec_transitions l reqs)).
Proof.
  induction reqs as [|r reqs IH]; intros t l Hs Hr; [done|].
  apply Forall_cons in Hs as [Hr0 Hs]. simpl.
  pose proof (transition_spec t l _ (rq_expected r) (rq_next r) Hr Hr0) as Hspec.
  destruct (spec_transition _ _ _ _) as [l1|].
  - destruct Hspec as (t1 & -> & Hr1). specialize (IH t1 l1 Hs Hr1).
    destruct (run_transitions t1 reqs), (spec_transitions l1 reqs). simpl in *.
    destruct IH as [-> ?]. done.
  - rewrite Hspec. specialize (IH t l Hs Hr).
    destruct (run_transitions t reqs), (spec_transitions l reqs). simpl in *.
    destruct IH as [-> ?]. done.
Qed.

Lemma spec_transitions_length reqs : ∀ l,
  length (snd (spec_transitions l reqs)) = length l.
Proof.
  induction reqs as [|r reqs IH]; intros l; [done|]. simpl.
  unfold spec_transition. case_decide.
  - pose proof (IH (<[Z.to_nat (rq_slot r):=rq_next r]> l)) as H1.
    rewrite length_insert in H1. by destruct (spec_transitions _ reqs).
  - specialize (IH l). by destruct (spec_transitions _ reqs).
Qed.

(** The slot table refines the plain list of slot states.  From a table
    initialised with any number of slots, any sequence of transition requests
    returns exactly the result codes of the specification (accept iff the slot
    is in range, is in the expected state and the target is a different real
    state; otherwise refuse and change nothing), the six counters always equal
    the number of slots in each state (so the rollback branch is dead), reads
    return the specified state, and busy + writable + free slots is the capacity. *)
Theorem slot_table_refines_states :
  ∀ (t0 : StorageSlotTable) (slots : Z) (reqs : list transition_req),
    0 < slots <= UINT32_MAX → Forall (λ r, 0 <= rq_slot r) reqs →
    let l0 := replicate (Z.to_nat slots) STORAGE_SLOT_DMA_WRITABLE in
    let '(rcs, t) := run_transitions (snd (storage_slot_table_init true t0 slots)) reqs in
    let '(rcs', l) := spec_transitions l0 reqs in
    rcs = rcs' ∧ states t = Some l ∧ counts t = counts_of l ∧
    storage_slot_table_valid t = true ∧
    (∀ slot, 0 <= slot →
       storage_slot_state t slot = default STORAGE_SLOT_INVALID (l !! Z.to_nat slot)) ∧
    storage_slot_busy_count t + occ STORAGE_SLOT_DMA_WRITABLE l
      + occ STORAGE_SLOT_FREE l = slots.
Proof.
  intros t0 slots reqs Hslots Hreqs l0.
  pose proof (run_transitions_spec reqs _ _ Hreqs (init_rep t0 slots Hslots)) as [Hrc Hr].
  fold l0 in Hrc, Hr. pose proof (spec_transitions_length reqs l0) as Hlen.
  destruct (run_transitions _ reqs) as [rcs t], (spec_transitions l0 reqs) as [rcs' l].
  simpl in *. pose proof (rep_busy_count _ _ Hr) as Hb.
  split_and!; [done|apply Hr|apply Hr|by eapply rep_valid| |].
  - intros slot ?. by apply rep_slot_state.
  - rewrite Hb, (rep_capacity _ _ Hr), Hlen. unfold l0. rewrite length_replicate. lia.
Qed.

Definition witness_reqs : list transition_req :=
  [mkReq 1 STORAGE_SLOT_DMA_WRITABLE STORAGE_SLOT_DMA_COMPLETED_UNHARVESTED;
   mkReq 0 STORAGE_SLOT_NVME_BUSY STORAGE_SLOT_FREE;
   mkReq 1 STORAGE_SLOT_DMA_COMPLETED_UNHARVESTED STORAGE_SLOT_READY_FOR_NVME].

Lemma slot_table_refines_states_witness :
  (0 < 3 <= UINT32_MAX ∧ Forall (λ r, 0 <= rq_slot r) witness_reqs) ∧
  let l0 := replicate (Z.to_nat 3) STORAGE_SLOT_DMA_WRITABLE in
  let '(rcs, t) :=
    run_transitions (snd (storage_slot_table_init true zero_table 3)) witness_reqs in
  let '(rcs', l) := spec_transitions l0 witness_reqs in
  rcs = rcs' ∧ states t = Some l ∧ counts t = counts_of l ∧
  storage_slot_table_valid t = true ∧
  (∀ slot, 0 <= slot →
     storage_slot_state t slot = default STORAGE_SLOT_INVALID (l !! Z.to_nat slot)) ∧
  storage_slot_busy_count t + occ STORAGE_SLOT_DMA_WRITABLE l
    + occ STORAGE_SLOT_FREE l = 3.
Proof.
  assert (H1 : 0 < 3 <= UINT32_MAX) by cint.
  assert (H2 : Forall (λ r, 0 <= rq_slot r) witness_reqs)
    by (repeat constructor; simpl; lia).
  split; [by split|]. exact (slot_table_refines_states zero_table 3 witness_reqs H1 H2).
Defined.

End storage_queue.
