(* ===== verification/Pipeline.v ===== *)
(** * The DMA-to-NVMe slot pipeline ([src/src/ccb_storage_pipeline.c])

    A ring of work items between the DMA producer and the NVMe writer, next to
    the slot table.  Every operation of the code runs under [p->lock], so an
    operation is one atomic step on the [StoragePipeline] record; the two
    operations that wait on [not_empty] return [None] when they would block.
    The abstract specification is a FIFO list with a list of slot states. *)
From S2P Require Import Prelude SlotTable.

Module ccb_storage_pipeline.
Import storage_queue.

(** ** Pressure, budget, deadline and batch-limit functions *)

Definition storage_ring_pressure_level (occupied_slots total_slots
    warning_percent critical_percent : Z) : Z :=
  if (total_slots =? 0) || (warning_percent =? 0) ||
     (critical_percent <=? warning_percent) || (100 <? critical_percent)
  then 0
  else if total_slots <=? occupied_slots then 3
  else
    let occupied_percent := u64 (occupied_slots * 100) / total_slots in
    if critical_percent <=? occupied_percent then 2
    else if warning_percent <=? occupied_percent then 1
    else 0.

Definition storage_writer_budget_for_pressure (base_budget_us pressure_level : Z) : Z :=
  let scaled :=
    if 2 <=? pressure_level then u64 (base_budget_us * 2)
    else if pressure_level =? 1 then u64 (base_budget_us + (base_budget_us + 1) / 2)
    else base_budget_us in
  if UINT32_MAX <? scaled then UINT32_MAX else u32 scaled.

Definition storage_ring_pressure_should_stop (pressure_level critical_since_us
    now_us critical_duration_us : Z) (stop_enabled : bool) : bool :=
  stop_enabled && (2 <=? pressure_level) && negb (critical_since_us =? 0) &&
  (critical_since_us <=? now_us) &&
  (critical_duration_us <=? now_us - critical_since_us).

Inductive StorageFirstDmaDeadlineOutcome : Type :=
| STORAGE_FIRST_DMA_DEADLINE_WAIT
| STORAGE_FIRST_DMA_DEADLINE_DATA
| STORAGE_FIRST_DMA_DEADLINE_HARVEST_FAILED
| STORAGE_FIRST_DMA_DEADLINE_EXPIRED.

Definition storage_first_dma_deadline_outcome (deadline_due saw_dma_data
    stop_requested : bool) (harvest_rc harvest_count : Z)
  : StorageFirstDmaDeadlineOutcome :=
  if negb (harvest_rc =? 0) then STORAGE_FIRST_DMA_DEADLINE_HARVEST_FAILED
  else if negb (harvest_count =? 0) || saw_dma_data
  then STORAGE_FIRST_DMA_DEADLINE_DATA
  else if deadline_due && negb stop_requested
  then STORAGE_FIRST_DMA_DEADLINE_EXPIRED
  else STORAGE_FIRST_DMA_DEADLINE_WAIT.

Definition storage_harvest_limit_for_remaining (remaining_bytes dma_desc_bytes
    max_batch : Z) : Z :=
  if (remaining_bytes =? 0) || (dma_desc_bytes =? 0) || (max_batch =? 0) then 0
  else
    let needed := remaining_bytes / dma_desc_bytes in
    let needed := if negb (remaining_bytes mod dma_desc_bytes =? 0)
                  then u64 (needed + 1) else needed in
    if needed <? max_batch then u32 needed else max_batch.

(** ** The ring *)

Record StoragePipelineItem : Type := mkItem {
  slot : Z;
  bytes : Z;
  chunk_index : Z;
  file_offset : Z;
  start_lba : Z;
  sectors : Z;
  hw_addr : Z }.
#[export] Instance StoragePipelineItem_eq_dec : EqDecision StoragePipelineItem.
Proof. solve_decision. Defined.

Definition zero_item : StoragePipelineItem := mkItem 0 0 0 0 0 0 0.

(** The mutex and the condition variable have no state of their own here. *)
Record StoragePipeline : Type := mkPipeline {
  items : option (list StoragePipelineItem);
  slots : StorageSlotTable;
  head : Z;
  tail : Z;
  count : Z;
  error : bool }.
#[export] Instance eta_Pipeline : EtaOf StoragePipeline := λ p,
  mkPipeline (items p) (slots p) (head p) (tail p) (count p) (error p).

Definition zero_pipeline : StoragePipeline :=
  mkPipeline None zero_table 0 0 0 false.

Definition storage_pipeline_counts_valid (p : StoragePipeline) : bool :=
  (count p <=? capacity (slots p)) && storage_slot_table_valid (slots p).

(** [items_ok], [table_ok] and [sync_ok] are the outcomes of the two
    allocations and of creating the mutex and the condition variable. *)
Definition storage_pipeline_init (items_ok table_ok sync_ok : bool)
    (p : StoragePipeline) (n : Z) : Z * StoragePipeline :=
  if n =? 0 then (-1, p)
  else if items_ok then
    let '(rc, table) := storage_slot_table_init table_ok zero_table n in
    if (rc =? 0) && sync_ok then
      (0, zero_pipeline <| items := Some (replicate (Z.to_nat n) zero_item) |>
                        <| slots := table |>)
    else (-1, zero_pipeline)
  else (-1, zero_pipeline).

Definition storage_pipeline_destroy (_ : StoragePipeline) : StoragePipeline :=
  zero_pipeline.

(** Record the failure of a slot transition. *)
Definition with_transition (p : StoragePipeline) (r : Z * StorageSlotTable)
  : Z * StoragePipeline :=
  let '(rc, table) := r in
  (rc, p <| slots := table |> <| error := error p || negb (rc =? 0) |>).

Definition storage_pipeline_mark_completed (p : StoragePipeline) (s : Z)
  : Z * StoragePipeline :=
  with_transition p
    (storage_slot_transition (slots p) s STORAGE_SLOT_DMA_WRITABLE
       STORAGE_SLOT_DMA_COMPLETED_UNHARVESTED).

Definition expected_sectors (b : Z) : Z :=
  let n := b / 512 in if negb (b mod 512 =? 0) then u64 (n + 1) else n.

(** The body of the validation loop for [items[i]], [seen] being [items[0..i-1]]. *)
Definition batch_item_ok (p : StoragePipeline) (seen : list StoragePipelineItem)
    (it : StoragePipelineItem) : bool :=
  negb (bytes it =? 0) && negb (sectors it =? 0) &&
  (slot it <? capacity (slots p)) &&
  bool_decide (storage_slot_state (slots p) (slot it) =
               STORAGE_SLOT_DMA_COMPLETED_UNHARVESTED) &&
  (sectors it =? expected_sectors (bytes it)) &&
  forallb (λ it', negb (slot it' =? slot it)) seen.

Fixpoint batch_valid (p : StoragePipeline) (seen its : list StoragePipelineItem) : bool :=
  match its with
  | [] => true
  | it :: rest => batch_item_ok p seen it && batch_valid p (seen ++ [it]) rest
  end.

(** The commit loop; [false] is its [goto bad]. *)
Fixpoint batch_commit (p : StoragePipeline) (tl : Z) (its : list StoragePipelineItem)
  : bool * Z * StoragePipeline :=
  match its with
  | [] => (true, tl, p)
  | it :: rest =>
    let p1 := p <| items ::= fmap (<[Z.to_nat tl := it]>) |> in
    let tl1 := u32 (tl + 1) mod capacity (slots p) in
    let '(rc, table) := storage_slot_transition (slots p1) (slot it)
                          STORAGE_SLOT_DMA_COMPLETED_UNHARVESTED
                          STORAGE_SLOT_READY_FOR_NVME in
    let p2 := p1 <| slots := table |> in
    if negb (rc =? 0) then (false, tl1, p2) else batch_commit p2 tl1 rest
  end.

(** [its] is the array [items[0 .. item_count - 1]]. *)
Definition storage_queue_push_batch (p : StoragePipeline)
    (its : list StoragePipelineItem) : Z * StoragePipeline :=
  let item_count := Z.of_nat (length its) in
  if item_count =? 0 then (-1, p)
  else if error p || (capacity (slots p) <? count p) ||
          negb (storage_pipeline_counts_valid p) ||
          (capacity (slots p) - count p <? item_count) ||
          (completed_unharvested (counts (slots p)) <? item_count) ||
          negb (batch_valid p [] its)
  then (-1, p <| error := true |>)
  else
    let '(ok, tl, p') := batch_commit p (tail p) its in
    if ok : bool then (0, p' <| tail := tl |> <| count ::= λ n, u32 (n + item_count) |>)
    else (-1, p' <| error := true |>).

(** [storage_pipeline_pop]: [None] when the caller blocks on [not_empty];
    otherwise the return code, the item written to [*out] if any, and the ring. *)
Definition storage_pipeline_pop (p : StoragePipeline) (wait : bool)
  : option (Z * option StoragePipelineItem * StoragePipeline) :=
  if wait && negb (error p) && (count p =? 0) then None
  else if error p then Some (-1, None, p)
  else if count p =? 0 then Some (1, None, p)
  else
    let out := default zero_item (arr ← items p; arr !! Z.to_nat (head p)) in
    let p1 := p <| head := u32 (head p + 1) mod capacity (slots p) |>
                <| count := u32 (count p - 1) |> in
    let '(rc, table) := storage_slot_transition (slots p1) (slot out)
                          STORAGE_SLOT_READY_FOR_NVME STORAGE_SLOT_NVME_BUSY in
    if negb (rc =? 0)
    then Some (-1, Some out, p1 <| slots := table |> <| error := true |>)
    else Some (0, Some out, p1 <| slots := table |>).

Definition storage_pipeline_complete (p : StoragePipeline) (s : Z) (requeue : bool)
  : Z * StoragePipeline :=
  with_transition p
    (storage_slot_transition (slots p) s STORAGE_SLOT_NVME_BUSY
       (if requeue then STORAGE_SLOT_REQUEUE_PENDING else STORAGE_SLOT_FREE)).

(** ** The abstract pipeline: a FIFO of items and a list of slot states *)

Record pipe_spec : Type := mkSpec {
  sp_slots : list StorageSlotState;
  sp_queue : list StoragePipelineItem;
  sp_error : bool }.

Definition mark_ready (l : list StorageSlotState) (its : list StoragePipelineItem)
  : list StorageSlotState :=
  foldl (λ l it, <[Z.to_nat (slot it) := STORAGE_SLOT_READY_FOR_NVME]> l) l its.
Arguments mark_ready : simpl never.

(** An item the producer may enqueue: a completed slot, a non-empty payload
    and a sector count that is the payload rounded up. *)
Definition item_acceptable (l : list StorageSlotState) (it : StoragePipelineItem) : Prop :=
  l !! Z.to_nat (slot it) = Some STORAGE_SLOT_DMA_COMPLETED_UNHARVESTED ∧
  bytes it ≠ 0 ∧ sectors it ≠ 0 ∧ sectors it = expected_sectors (bytes it).
#[export] Instance item_acceptable_dec l it : Decision (item_acceptable l it).
Proof. unfold item_acceptable. solve_decision. Defined.

Inductive pipe_op : Type :=
| OpMarkCompleted (s : Z)
| OpPushBatch (its : list StoragePipelineItem)
| OpPop (wait : bool)
| OpComplete (s : Z) (requeue : bool).

(** What the caller observes: [None] when it would block. *)
Definition pipe_obs : Type := option (Z * option StoragePipelineItem).

Definition spec_move (s : pipe_spec) (k : Z) (e n : StorageSlotState)
  : pipe_obs * pipe_spec :=
  match spec_transition (sp_slots s) k e n with
  | Some l => (Some (0, None), mkSpec l (sp_queue s) (sp_error s))
  | None => (Some (-1, None), mkSpec (sp_slots s) (sp_queue s) true)
  end.

Definition spec_step (s : pipe_spec) (op : pipe_op) : pipe_obs * pipe_spec :=
  match op with
  | OpMarkCompleted k =>
      spec_move s k STORAGE_SLOT_DMA_WRITABLE STORAGE_SLOT_DMA_COMPLETED_UNHARVESTED
  | OpPushBatch [] => (Some (-1, None), s)
  | OpPushBatch its =>
      if decide (sp_error s = false ∧ NoDup (slot <$> its) ∧
                 Forall (item_acceptable (sp_slots s)) its)
      then (Some (0, None),
            mkSpec (mark_ready (sp_slots s) its) (sp_queue s ++ its) false)
      else (Some (-1, None), mkSpec (sp_slots s) (sp_queue s) true)
  | OpPop wait =>
      if sp_error s then (Some (-1, None), s)
      else match sp_queue s with
           | [] => (if wait then None else Some (1, None), s)
           | it :: q =>
               (Some (0, Some it),
                mkSpec (<[Z.to_nat (slot it) := STORAGE_SLOT_NVME_BUSY]> (sp_slots s))
                  q false)
           end
  | OpComplete k requeue =>
      spec_move s k STORAGE_SLOT_NVME_BUSY
        (if requeue then STORAGE_SLOT_REQUEUE_PENDING else STORAGE_SLOT_FREE)
  end.

Definition impl_step (p : StoragePipeline) (op : pipe_op) : pipe_obs * StoragePipeline :=
  match op with
  | OpMarkCompleted k =>
      let '(rc, p') := storage_pipeline_mark_completed p k in (Some (rc, None), p')
  | OpPushBatch its =>
      let '(rc, p') := storage_queue_push_batch p its in (Some (rc, None), p')
  | OpPop wait =>
      match storage_pipeline_pop p wait with
      | None => (None, p)
      | Some (rc, out, p') => (Some (rc, out), p')
      end
  | OpComplete k requeue =>
      let '(rc, p') := storage_pipeline_complete p k requeue in (Some (rc, None), p')
  end.

(** Slot numbers are unsigned. *)
Definition op_wf (op : pipe_op) : Prop :=
  match op with
  | OpMarkCompleted k | OpComplete k _ => 0 <= k
  | OpPushBatch its => Forall (λ it, 0 <= slot it) its
  | OpPop _ => True
  end.

(** ** The representation relation *)

Record pipe_rep (p : StoragePipeline) (s : pipe_spec) : Prop := {
  pr_table : table_rep (slots p) (sp_slots s);
  pr_items : ∃ arr, items p = Some arr ∧ Z.of_nat (length arr) = capacity (slots p) ∧
                    ring_rep arr (head p) (sp_queue s);
  pr_tail : tail p = (head p + Z.of_nat (length (sp_queue s))) mod capacity (slots p);
  pr_count : count p = Z.of_nat (length (sp_queue s));
  pr_error : error p = sp_error s;
  pr_nodup : NoDup (slot <$> sp_queue s);
  pr_nonneg : Forall (λ it, 0 <= slot it) (sp_queue s);
  pr_ready : Forall (λ it, sp_slots s !! Z.to_nat (slot it)
                           = Some STORAGE_SLOT_READY_FOR_NVME) (sp_queue s) }.

Lemma slot_nat_NoDup (its : list StoragePipelineItem) :
  Forall (λ it, 0 <= slot it) its → NoDup (slot <$> its) →
  NoDup ((λ it, Z.to_nat (slot it)) <$> its).
Proof.
  induction its as [|it its IH]; intros Hn Hd; [constructor|].
  apply Forall_cons in Hn as [H0 Hn]. simpl in Hd. apply NoDup_cons in Hd as [Hi Hd].
  simpl. apply NoDup_cons. split; [|by apply IH].
  rewrite list_elem_of_fmap. intros (it' & Heq & Hin). apply Hi.
  rewrite Forall_forall in Hn. specialize (Hn it' Hin).
  apply list_elem_of_fmap. exists it'. split; [lia|done].
Qed.

(** Distinct items whose slots are all in state [x] are at most the counter of [x]. *)
Lemma items_le_occ (l : list StorageSlotState) its x y :
  x ≠ y → Forall (λ it, 0 <= slot it) its → NoDup (slot <$> its) →
  Forall (λ it, l !! Z.to_nat (slot it) = Some x) its →
  Z.of_nat (length its) <= occ x l.
Proof.
  intros Hxy Hn Hd Hx.
  pose proof (NoDup_positions_le_occ x y l _ Hxy (slot_nat_NoDup its Hn Hd)) as Hle.
  rewrite length_fmap in Hle. apply Hle. intros k Hk.
  apply list_elem_of_fmap in Hk as (it & -> & Hin).
  rewrite Forall_forall in Hx. by apply Hx.
Qed.

(** A queue and a batch of completed slots always fit the ring together. *)
Lemma queue_and_batch_fit l q its :
  STORAGE_SLOT_INVALID ∉ l →
  Forall (λ it, 0 <= slot it) q → NoDup (slot <$> q) →
  Forall (λ it, l !! Z.to_nat (slot it) = Some STORAGE_SLOT_READY_FOR_NVME) q →
  Forall (λ it, 0 <= slot it) its → NoDup (slot <$> its) →
  Forall (λ it, l !! Z.to_nat (slot it)
                = Some STORAGE_SLOT_DMA_COMPLETED_UNHARVESTED) its →
  Z.of_nat (length its) <= occ STORAGE_SLOT_DMA_COMPLETED_UNHARVESTED l ∧
  Z.of_nat (length q) + Z.of_nat (length its) <= Z.of_nat (length l).
Proof.
  intros Hreal Hq0 Hqd Hq Hi0 Hid Hi.
  pose proof (items_le_occ l q STORAGE_SLOT_READY_FOR_NVME STORAGE_SLOT_FREE ltac:(done) Hq0 Hqd Hq).
  pose proof (items_le_occ l its STORAGE_SLOT_DMA_COMPLETED_UNHARVESTED STORAGE_SLOT_FREE
                ltac:(done) Hi0 Hid Hi).
  pose proof (states_partition l Hreal).
  pose proof (occ_nonneg STORAGE_SLOT_DMA_WRITABLE l).
  pose proof (occ_nonneg STORAGE_SLOT_NVME_BUSY l).
  pose proof (occ_nonneg STORAGE_SLOT_REQUEUE_PENDING l).
  pose proof (occ_nonneg STORAGE_SLOT_FREE l). lia.
Qed.

(** ** The validation loop decides acceptability *)

Lemma batch_item_ok_spec p l seen it :
  table_rep (slots p) l → 0 <= slot it →
  batch_item_ok p seen it = true ↔
    item_acceptable l it ∧ Forall (λ it', slot it' ≠ slot it) seen.
Proof.
  intros Hr H0. unfold batch_item_ok, item_acceptable.
  rewrite (rep_slot_state _ _ _ Hr H0). rewrite !andb_true_iff, bool_decide_eq_true.
  rewrite !negb_true_iff, !Z.eqb_neq, Z.ltb_lt, Z.eqb_eq, forallb_forall, Forall_forall.
  setoid_rewrite negb_true_iff. setoid_rewrite Z.eqb_neq.
  setoid_rewrite list_elem_of_In.
  split; [|intros ((Hl & ?) & ?)].
  - intros (((((? & ?) & ?) & Hl) & ?) & ?).
    destruct (l !! Z.to_nat (slot it)) eqn:E; simplify_eq/=. naive_solver.
  - rewrite Hl. pose proof (rep_in_range _ _ _ _ Hr H0 Hl). naive_solver.
Qed.

Lemma batch_valid_spec p l its : ∀ seen,
  table_rep (slots p) l → Forall (λ it, 0 <= slot it) its →
  batch_valid p seen its = true ↔
    Forall (item_acceptable l) its ∧ NoDup (slot <$> its) ∧
    (∀ it it', it ∈ its → it' ∈ seen → slot it' ≠ slot it).
Proof.
  induction its as [|it its IH]; intros seen Hr Hn; simpl.
  { split; [|done]. intros _. split_and!; [done|constructor|set_solver]. }
  apply Forall_cons in Hn as [H0 Hn].
  rewrite andb_true_iff, (batch_item_ok_spec _ _ _ _ Hr H0), (IH _ Hr Hn).
  rewrite Forall_cons, NoDup_cons, list_elem_of_fmap, Forall_forall.
  split; [intros ((? & Hs) & ? & ? & Hx)|intros ((? & ?) & (Hni & ?) & Hx)].
  - split_and!; try done; [intros (it' & He & ?); eapply (Hx it' it); set_solver|].
    intros a b Ha Hb. apply elem_of_cons in Ha as [->|Ha]; [by apply Hs|].
    apply Hx; set_solver.
  - split_and!; try done; [intros; apply Hx; set_solver|].
    intros a b Ha Hb. apply elem_of_app in Hb as [Hb|Hb]; [apply Hx; set_solver|].
    apply list_elem_of_singleton in Hb as ->. intros He. apply Hni. by exists a.
Qed.

(** ** The commit loop never fails after validation *)

Lemma mark_ready_cons l it its :
  mark_ready l (it :: its) =
  mark_ready (<[Z.to_nat (slot it) := STORAGE_SLOT_READY_FOR_NVME]> l) its.
Proof. done. Qed.

Lemma mark_ready_lookup_ne its : ∀ l (k : nat),
  (∀ it, it ∈ its → Z.to_nat (slot it) ≠ k) → mark_ready l its !! k = l !! k.
Proof.
  induction its as [|it its IH]; intros l k Hne; [done|].
  rewrite mark_ready_cons, IH by set_solver.
  apply list_lookup_insert_ne. set_solver.
Qed.

Lemma mark_ready_lookup its : ∀ l it,
  it ∈ its → Forall (λ it, 0 <= slot it) its → NoDup (slot <$> its) →
  (Z.to_nat (slot it) < length l)%nat →
  mark_ready l its !! Z.to_nat (slot it) = Some STORAGE_SLOT_READY_FOR_NVME.
Proof.
  induction its as [|it0 its IH]; intros l it Hin Hn Hd Hlt; [set_solver|].
  apply Forall_cons in Hn as [H0 Hn]. simpl in Hd. apply NoDup_cons in Hd as [Hi Hd].
  rewrite mark_ready_cons. apply elem_of_cons in Hin as [->|Hin].
  - rewrite mark_ready_lookup_ne; [by apply list_lookup_insert_eq|].
    intros it' Hin' Heq. apply Hi. apply list_elem_of_fmap. exists it'.
    rewrite Forall_forall in Hn. specialize (Hn it' Hin'). split; [lia|done].
  - apply IH; rewrite ?length_insert; done.
Qed.

Lemma batch_commit_spec its : ∀ p l arr q,
  table_rep (slots p) l → items p = Some arr →
  Z.of_nat (length arr) = capacity (slots p) → ring_rep arr (head p) q →
  Forall (λ it, 0 <= slot it) its → NoDup (slot <$> its) →
  Forall (λ it, l !! Z.to_nat (slot it)
                = Some STORAGE_SLOT_DMA_COMPLETED_UNHARVESTED) its →
  (length q + length its <= length arr)%nat →
  ∃ p' arr',
    batch_commit p ((head p + Z.of_nat (length q)) mod capacity (slots p)) its =
      (true, (head p + Z.of_nat (length (q ++ its))) mod capacity (slots p), p') ∧
    items p' = Some arr' ∧ length arr' = length arr ∧
    ring_rep arr' (head p') (q ++ its) ∧
    table_rep (slots p') (mark_ready l its) ∧
    capacity (slots p') = capacity (slots p) ∧
    head p' = head p ∧ count p' = count p ∧ error p' = error p.
Proof.
  induction its as [|it its IH]; intros p l arr q Hr Hit Hcap Hring Hn Hd Hc Hlen; simpl.
  { exists p, arr. rewrite !app_nil_r. done. }
  apply Forall_cons in Hn as [H0 Hn]. simpl in Hd. apply NoDup_cons in Hd as [Hi Hd].
  apply Forall_cons in Hc as [Hc0 Hc]. simpl in Hlen.
  destruct (transition_accept _ _ _ _ STORAGE_SLOT_READY_FOR_NVME Hr H0 Hc0)
    as (t' & Ht & Hr'); [done..|].
  rewrite Ht. simpl.
  set (tl := (head p + Z.of_nat (length q)) mod capacity (slots p)).
  assert (Htl : u32 (tl + 1) mod capacity (slots p)
                = (head p + Z.of_nat (length (q ++ [it]))) mod capacity (slots p)).
  { pose proof (rep_nonempty _ _ Hr). pose proof (rep_capacity _ _ Hr).
    pose proof (Z.mod_pos_bound (head p + Z.of_nat (length q)) (capacity (slots p))).
    rewrite u32_small by (unfold tl; cint). unfold tl.
    rewrite Zplus_mod_idemp_l, length_app. simpl. f_equal. lia. }
  rewrite Htl.
  set (p1 := (p <| items ::= fmap (<[Z.to_nat tl:=it]>) |>) <| slots := t' |>).
  assert (Hcap' : capacity (slots p1) = capacity (slots p)).
  { simpl. rewrite (rep_capacity _ _ Hr'), (rep_capacity _ _ Hr), length_insert. done. }
  destruct (IH p1 (<[Z.to_nat (slot it):=STORAGE_SLOT_READY_FOR_NVME]> l)
              (<[Z.to_nat tl:=it]> arr) (q ++ [it]))
    as (p' & arr' & Heq & Ha & Hla & Hra & Hta & Hca & Hh & Hco & He).
  - done.
  - simpl. by rewrite Hit.
  - rewrite length_insert, Hcap'. done.
  - unfold tl. rewrite <- Hcap. apply ring_rep_push; [done|lia].
  - done.
  - done.
  - rewrite Forall_forall in *. intros it' Hin'. rewrite list_lookup_insert_ne; [by apply Hc|].
    intros Heq. apply Hi. apply list_elem_of_fmap. exists it'.
    specialize (Hn it' Hin'). split; [lia|done].
  - rewrite length_app, length_insert. simpl. lia.
  - exists p', arr'. rewrite length_insert in Hla. rewrite Hcap' in Heq, Hca.
    change (head p1) with (head p) in *.
    rewrite <- (assoc_L (++)) in Heq, Hra. simpl in Heq, Hra.
    split; [exact Heq|done].
Qed.

(** ** One step of the code is one step of the specification *)

Lemma rep_set_error p s :
  pipe_rep p s →
  pipe_rep (p <| error := true |>) (mkSpec (sp_slots s) (sp_queue s) true).
Proof. intros [? (arr & ? & ? & ?) ? ? ? ? ? ?]. split; simpl; eauto. Qed.

(** Moving a slot that is not (and does not become) READY keeps the queue. *)
Lemma move_refines p s k e n :
  pipe_rep p s → 0 <= k →
  e ≠ STORAGE_SLOT_READY_FOR_NVME →
  let '(rc, p') := with_transition p (storage_slot_transition (slots p) k e n) in
  let '(o, s') := spec_move s k e n in
  o = Some (rc, None) ∧ pipe_rep p' s'.
Proof.
  intros [Ht (arr & Hit & Hlen & Hring) Htl Hco He Hd Hn Hrd] Hk Hen.
  pose proof (transition_spec _ _ k e n Ht Hk) as Hspec. unfold spec_move.
  destruct (spec_transition (sp_slots s) k e n) as [l'|] eqn:Hs.
  - destruct Hspec as (t' & -> & Ht'). simpl. split; [done|].
    unfold spec_transition in Hs. case_decide as Hdec; simplify_eq.
    destruct Hdec as (_ & Hl & _ & _).
    assert (Hcap : capacity t' = capacity (slots p)).
    { rewrite (rep_capacity _ _ Ht'), (rep_capacity _ _ Ht), length_insert. done. }
    split; simpl; rewrite ?Hcap, ?orb_false_r; eauto.
    rewrite Forall_forall in *. intros it Hin. specialize (Hrd it Hin).
    rewrite list_lookup_insert_ne; [done|]. intros Heq. rewrite Heq in Hl. congruence.
  - rewrite Hspec. simpl. split; [done|]. rewrite orb_true_r. split; simpl; eauto.
Qed.

Lemma push_refines p s its :
  pipe_rep p s → Forall (λ it, 0 <= slot it) its →
  let '(rc, p') := storage_queue_push_batch p its in
  let '(o, s') := spec_step s (OpPushBatch its) in
  o = Some (rc, None) ∧ pipe_rep p' s'.
Proof.
  intros Hp Hn. pose proof Hp as [Ht (arr & Hit & Hlen & Hring) Htl Hco He Hd Hqn Hrd].
  destruct its as [|it0 its0]; [done|]. set (its := it0 :: its0) in *.
  unfold storage_queue_push_batch.
  destruct (Z.eqb_spec (Z.of_nat (length its)) 0); [simpl in *; lia|].
  pose proof (batch_valid_spec p _ its [] Ht Hn) as Hbv.
  simpl spec_step. fold its.
  case_decide as Hacc.
  - destruct Hacc as (Her & Hnd & Hok).
    assert (Hc : Forall (λ it, sp_slots s !! Z.to_nat (slot it)
                  = Some STORAGE_SLOT_DMA_COMPLETED_UNHARVESTED) its).
    { eapply Forall_impl; [exact Hok|]. by intros ? (? & _). }
    destruct (queue_and_batch_fit _ _ its (rep_real _ _ Ht) Hqn Hd Hrd Hn Hnd Hc) as [H1 H2].
    pose proof (rep_capacity _ _ Ht) as Hcap. pose proof (rep_nonempty _ _ Ht).
    unfold storage_pipeline_counts_valid.
    rewrite He, Her, (rep_valid _ _ Ht), (rep_counts _ _ Ht). simpl counts_of.
    rewrite (proj2 Hbv) by (split_and!; [done..|set_solver]).
    cbn [completed_unharvested counts_of].
    destruct (Z.ltb_spec (capacity (slots p)) (count p)); [lia|].
    destruct (Z.leb_spec (count p) (capacity (slots p))); [|lia].
    destruct (Z.ltb_spec (capacity (slots p) - count p) (Z.of_nat (length its))); [lia|].
    destruct (Z.ltb_spec (occ STORAGE_SLOT_DMA_COMPLETED_UNHARVESTED (sp_slots s))
               (Z.of_nat (length its))); [lia|]. simpl orb. cbn iota.
    destruct (batch_commit_spec its p (sp_slots s) arr (sp_queue s))
      as (p' & arr' & Heq & Ha & Hla & Hra & Hta & Hca & Hh & Hcn & Hee);
      [done..|lia|].
    rewrite Htl, Heq. split; [done|].
    split; simpl; rewrite ?Hca, ?Hh; eauto.
    + exists arr'. rewrite Hla, <- Hh. done.
    + rewrite Hcn, Hco, length_app. change (S (length its0)) with (length its).
      rewrite u32_small; [lia|cint].
    + rewrite fmap_app, NoDup_app. split_and!; [done| |done].
      intros k (a & -> & Ha')%list_elem_of_fmap (b & Hb & Hb')%list_elem_of_fmap.
      rewrite Forall_forall in Hrd, Hc. specialize (Hrd a Ha'). specialize (Hc b Hb').
      rewrite Hb in Hrd. congruence.
    + by apply Forall_app.
    + apply Forall_app. split; apply Forall_forall; intros a Ha'.
      * rewrite Forall_forall in Hrd, Hc, Hqn, Hn.
        rewrite mark_ready_lookup_ne; [by apply Hrd|].
        intros b Hb Hab. specialize (Hrd a Ha'). specialize (Hc b Hb).
        rewrite Hab in Hc. congruence.
      * apply mark_ready_lookup; try done. rewrite Forall_forall in Hc.
        by eapply lookup_lt_Some, Hc.
  - rewrite <- He in Hacc. destruct (error p) eqn:Hep.
    { simpl. split; [done|]. by apply rep_set_error. }
    assert (batch_valid p [] its = false) as ->.
    { apply not_true_is_false. intros Hb. apply Hacc. tauto. }
    simpl. rewrite !orb_true_r. split; [done|]. by apply rep_set_error.
Qed.

Lemma pop_refines p s wait :
  pipe_rep p s →
  let '(o, p') := impl_step p (OpPop wait) in
  let '(o', s') := spec_step s (OpPop wait) in
  o = o' ∧ pipe_rep p' s'.
Proof.
  intros Hp. pose proof Hp as [Ht (arr & Hit & Hlen & Hring) Htl Hco He Hd Hqn Hrd].
  simpl. unfold storage_pipeline_pop. rewrite Hco, He, Hit. simpl.
  destruct (sp_error s) eqn:Hes; [by rewrite andb_false_r|].
  destruct (sp_queue s) as [|it q] eqn:Hq; [by destruct wait|].
  rewrite (ring_rep_head _ _ _ _ Hring). rewrite andb_false_r. simpl default.
  simpl in Hd. apply NoDup_cons in Hd as [Hi Hd]. apply Forall_cons in Hqn as [H0 Hqn].
  apply Forall_cons in Hrd as [Hr0 Hrd]. cbn -[u32 Z.modulo Z.of_nat storage_slot_transition].
  destruct (transition_accept _ _ _ _ STORAGE_SLOT_NVME_BUSY Ht H0 Hr0)
    as (t' & Htt & Ht'); [done..|].
  assert (Hcap' : capacity t' = capacity (slots p)).
  { rewrite (rep_capacity _ _ Ht'), (rep_capacity _ _ Ht), length_insert. done. }
  pose proof (ring_fits _ _ _ Hring). simpl in H.
  pose proof (ring_head _ _ _ Hring) as Hhd. pose proof (rep_nonempty _ _ Ht).
  pose proof (rep_capacity _ _ Ht).
  destruct (Z.eqb_spec (Z.of_nat (S (length q))) 0); [lia|].
  rewrite Htt. split; [done|].
  rewrite !u32_small by cint.
  split; simpl; rewrite ?Hcap'; eauto; try lia.
  - exists arr. split_and!; [done..|]. rewrite <- Hlen. by eapply ring_rep_pop.
  - rewrite Htl, Zplus_mod_idemp_l. f_equal. simpl. lia.
  - rewrite Forall_forall in *. intros a Ha. rewrite list_lookup_insert_ne; [by apply Hrd|].
    intros Heq. apply Hi, list_elem_of_fmap. exists a. specialize (Hqn a Ha). split; [lia|done].
Qed.

Lemma step_refines p s op :
  pipe_rep p s → op_wf op →
  fst (impl_step p op) = fst (spec_step s op) ∧
  pipe_rep (snd (impl_step p op)) (snd (spec_step s op)).
Proof.
  intros Hp Hwf. destruct op as [k|its|wait|k rq].
  - pose proof (move_refines p s k STORAGE_SLOT_DMA_WRITABLE
      STORAGE_SLOT_DMA_COMPLETED_UNHARVESTED Hp Hwf ltac:(done)) as Hm.
    simpl. unfold storage_pipeline_mark_completed.
    destruct (with_transition _ _), (spec_move _ _ _ _). simpl. naive_solver.
  - pose proof (push_refines p s its Hp Hwf) as Hm. simpl impl_step.
    destruct (storage_queue_push_batch _ _), (spec_step _ _). simpl. naive_solver.
  - pose proof (pop_refines p s wait Hp) as Hm.
    destruct (impl_step _ _), (spec_step _ _). simpl. naive_solver.
  - pose proof (move_refines p s k STORAGE_SLOT_NVME_BUSY
      (if rq then STORAGE_SLOT_REQUEUE_PENDING else STORAGE_SLOT_FREE) Hp Hwf
      ltac:(done)) as Hm.
    simpl. unfold storage_pipeline_complete.
    destruct (with_transition _ _), (spec_move _ _ _ _). simpl. naive_solver.
Qed.

(** ** Runs *)
Fixpoint impl_run (p : StoragePipeline) (ops : list pipe_op) : list pipe_obs * StoragePipeline :=
  match ops with
  | [] => ([], p)
  | op :: rest =>
    let '(o, p1) := impl_step p op in
    let '(os, p2) := impl_run p1 rest in (o :: os, p2)
  end.

Fixpoint spec_run (s : pipe_spec) (ops : list pipe_op) : list pipe_obs * pipe_spec :=
  match ops with
  | [] => ([], s)
  | op :: rest =>
    let '(o, s1) := spec_step s op in
    let '(os, s2) := spec_run s1 rest in (o :: os, s2)
  end.

Definition spec_init (n : Z) : pipe_spec :=
  mkSpec (replicate (Z.to_nat n) STORAGE_SLOT_DMA_WRITABLE) [] false.

Lemma run_refines ops : ∀ p s,
  pipe_rep p s → Forall op_wf ops →
  fst (impl_run p ops) = fst (spec_run s ops) ∧
  pipe_rep (snd (impl_run p ops)) (snd (spec_run s ops)).
Proof.
  induction ops as [|op ops IH]; intros p s Hp Hwf; [done|].
  apply Forall_cons in Hwf as [Hop Hwf]. simpl.
  pose proof (step_refines p s op Hp Hop) as [Ho Hp'].
  destruct (impl_step p op) as [o p1], (spec_step s op) as [o' s1]. simpl in *.
  specialize (IH p1 s1 Hp' Hwf) as [Hos Hp2].
  destruct (impl_run p1 ops), (spec_run s1 ops). simpl in *. by subst.
Qed.

Lemma init_pipe_rep p n :
  0 < n <= UINT32_MAX →
  pipe_rep (snd (storage_pipeline_init true true true p n)) (spec_init n).
Proof.
  intros Hn. unfold storage_pipeline_init, storage_slot_table_init.
  destruct (Z.eqb_spec n 0); [lia|].
  pose proof (init_rep zero_table n Hn) as Hr.
  unfold storage_slot_table_init in Hr. destruct (Z.eqb_spec n 0); [lia|].
  simpl. split; simpl; eauto using NoDup_nil_2.
  - eexists. split; [done|]. rewrite length_replicate. split; [lia|].
    apply ring_rep_empty. rewrite length_replicate. lia.
Qed.

(** The items accepted by the pushes of a run and the items its pops delivered. *)
Fixpoint accepted (ops : list pipe_op) (os : list pipe_obs) : list StoragePipelineItem :=
  match ops, os with
  | OpPushBatch its :: ops', Some (0, None) :: os' => its ++ accepted ops' os'
  | _ :: ops', _ :: os' => accepted ops' os'
  | _, _ => []
  end.

Fixpoint delivered (os : list pipe_obs) : list StoragePipelineItem :=
  match os with
  | [] => []
  | Some (0, Some it) :: os' => it :: delivered os'
  | _ :: os' => delivered os'
  end.

Lemma spec_run_conserves ops : ∀ s,
  delivered (fst (spec_run s ops)) ++ sp_queue (snd (spec_run s ops))
  = sp_queue s ++ accepted ops (fst (spec_run s ops)).
Proof.
  induction ops as [|op ops IH]; intros s; [simpl; by rewrite app_nil_r|].
  cbn [spec_run]. destruct (spec_step s op) as [o s1] eqn:Hs. specialize (IH s1).
  destruct (spec_run s1 ops) as [os s2]. cbn [fst snd] in *.
  destruct op as [k|[|it its]|wait|k rq]; cbn [spec_step] in Hs.
  1,5: unfold spec_move in Hs; case_match; simplify_eq; exact IH.
  - simplify_eq. exact IH.
  - case_decide; simplify_eq; [|exact IH].
    simpl accepted. simpl delivered. rewrite IH. simpl. by rewrite <- (assoc_L (++)).
  - destruct (sp_error s) eqn:E; [simplify_eq; exact IH|].
    destruct (sp_queue s) eqn:Q; [destruct wait; simplify_eq; rewrite Q in IH; exact IH|].
    simplify_eq. simpl. by rewrite IH.
Qed.

(** C30: the pipeline refines a FIFO.  For every number of slots and every
    sequence of mark/push/pop/complete calls, the ring-buffer code gives the
    same return codes and the same items (and blocks in the same calls) as the
    specification on a plain queue and a list of slot states: a batch is
    accepted exactly when its slots are pairwise different and completed and
    every item is well formed (a full ring never refuses such a batch, and the
    commit loop never fails half-way), a refused batch changes nothing but the
    error latch, and the final counters are valid. *)
Theorem pipeline_refines_fifo :
  ∀ (p : StoragePipeline) (n : Z) (ops : list pipe_op),
    0 < n <= UINT32_MAX → Forall op_wf ops →
    let '(rc, p0) := storage_pipeline_init true true true p n in
    let '(os, p') := impl_run p0 ops in
    let '(os', s') := spec_run (spec_init n) ops in
    rc = 0 ∧ os = os' ∧ error p' = sp_error s' ∧
    count p' = Z.of_nat (length (sp_queue s')) ∧
    states (slots p') = Some (sp_slots s') ∧
    counts (slots p') = counts_of (sp_slots s') ∧
    storage_pipeline_counts_valid p' = true.
Proof.
  intros p n ops Hn Hwf. pose proof (init_pipe_rep p n Hn) as Hp.
  assert (Hrc : fst (storage_pipeline_init true true true p n) = 0).
  { unfold storage_pipeline_init, storage_slot_table_init.
    by destruct (Z.eqb_spec n 0); [lia|]. }
  destruct (storage_pipeline_init true true true p n) as [rc p0]. simpl in Hp, Hrc.
  pose proof (run_refines ops p0 _ Hp Hwf) as [Ho Hp'].
  destruct (impl_run p0 ops) as [os p'], (spec_run (spec_init n) ops) as [os' s'].
  simpl in *. pose proof Hp' as [Ht (arr & _ & Hlen & Hring) _ Hco He _ _ _].
  split_and!; try done; try apply Ht.
  unfold storage_pipeline_counts_valid. rewrite (rep_valid _ _ Ht), Hco.
  pose proof (ring_fits _ _ _ Hring).
  destruct (Z.leb_spec (Z.of_nat (length (sp_queue s'))) (capacity (slots p'))); [done|lia].
Qed.

(** Exactly-once, in-order delivery.  Whatever calls are made, the items
    handed to the writer followed by the items still queued are precisely the
    items of the accepted batches in the order they were pushed: nothing is
    lost, duplicated or reordered, also when calls fail. *)
Theorem pipeline_exactly_once :
  ∀ (p : StoragePipeline) (n : Z) (ops : list pipe_op),
    0 < n <= UINT32_MAX → Forall op_wf ops →
    ∃ queued : list StoragePipelineItem,
      let '(os, p') := impl_run (snd (storage_pipeline_init true true true p n)) ops in
      delivered os ++ queued = accepted ops os ∧
      count p' = Z.of_nat (length queued) ∧ NoDup (slot <$> queued) ∧
      (∀ it, it ∈ queued →
         storage_slot_state (slots p') (slot it) = STORAGE_SLOT_READY_FOR_NVME).
Proof.
  intros p n ops Hn Hwf.
  pose proof (run_refines ops _ _ (init_pipe_rep p n Hn) Hwf) as [Ho Hp'].
  pose proof (spec_run_conserves ops (spec_init n)) as Hc.
  exists (sp_queue (snd (spec_run (spec_init n) ops))).
  destruct (impl_run _ ops) as [os p'], (spec_run (spec_init n) ops) as [os' s'].
  simpl in *. subst os'. pose proof Hp' as [Ht _ _ Hco _ Hd Hqn Hrd].
  split_and!; [done..|]. intros it Hin. rewrite Forall_forall in Hqn, Hrd.
  rewrite (rep_slot_state _ _ _ Ht) by (by apply Hqn). by rewrite (Hrd it Hin).
Qed.

(** The harvest limit of a bounded capture.  For a non-degenerate request
    the limit is between 1 and the batch maximum, never asks for a descriptor
    beyond the remaining bytes, and falls short of the remaining bytes only
    because of the batch maximum. *)
Theorem harvest_limit_exact :
  ∀ remaining desc max_batch : Z,
    0 < remaining <= UINT64_MAX → 0 < desc <= UINT32_MAX →
    0 < max_batch <= UINT32_MAX →
    let limit := storage_harvest_limit_for_remaining remaining desc max_batch in
    1 <= limit <= max_batch ∧ (limit - 1) * desc < remaining ∧
    (remaining <= limit * desc ∨ limit = max_batch).
Proof.
  intros remaining desc mb Hr Hd Hm. unfold storage_harvest_limit_for_remaining.
  destruct (Z.eqb_spec remaining 0); [lia|]. destruct (Z.eqb_spec desc 0); [lia|].
  destruct (Z.eqb_spec mb 0); [lia|]. simpl.
  pose proof (Z.div_mod remaining desc). pose proof (Z.mod_pos_bound remaining desc).
  assert (0 <= remaining / desc <= remaining) by
    (split; [apply Z.div_pos|apply Z.div_le_upper_bound]; nia).
  destruct (Z.eqb_spec (remaining mod desc) 0); simpl.
  - destruct (Z.ltb_spec (remaining / desc) mb); [rewrite u32_small by cint|]; nia.
  - assert (remaining / desc < UINT64_MAX \/ desc = 1) as [?| ->].
    { destruct (decide (desc = 1)); [by right|left]. cint_unfold. nia. }
    + rewrite u64_small by cint.
      destruct (Z.ltb_spec (remaining / desc + 1) mb); [rewrite u32_small by cint|]; nia.
    + rewrite Z.mod_1_r in *. lia.
Qed.

Definition witness_item (s : Z) : StoragePipelineItem := mkItem s 1000 0 0 1000 2 0.
Definition witness_ops : list pipe_op :=
  [OpPop true; OpMarkCompleted 1; OpMarkCompleted 0;
   OpPushBatch [witness_item 1; witness_item 0]; OpPop true; OpComplete 1 true;
   OpPushBatch [witness_item 0]; OpPop false].

Lemma witness_ops_wf : Forall op_wf witness_ops.
Proof. repeat constructor; simpl; lia. Qed.

Lemma pipeline_refines_fifo_witness :
  (0 < 2 <= UINT32_MAX ∧ Forall op_wf witness_ops) ∧
  let '(rc, p0) := storage_pipeline_init true true true zero_pipeline 2 in
  let '(os, p') := impl_run p0 witness_ops in
  let '(os', s') := spec_run (spec_init 2) witness_ops in
  rc = 0 ∧ os = os' ∧ error p' = sp_error s' ∧
  count p' = Z.of_nat (length (sp_queue s')) ∧
  states (slots p') = Some (sp_slots s') ∧
  counts (slots p') = counts_of (sp_slots s') ∧
  storage_pipeline_counts_valid p' = true.
Proof.
  split; [split; [cint|apply witness_ops_wf]|].
  exact (pipeline_refines_fifo zero_pipeline 2 witness_ops ltac:(cint) witness_ops_wf).
Defined.

Lemma pipeline_exactly_once_witness :
  ∃ queued : list StoragePipelineItem,
    let '(os, p') := impl_run (snd (storage_pipeline_init true true true zero_pipeline 2))
                       witness_ops in
    delivered os ++ queued = accepted witness_ops os ∧
    count p' = Z.of_nat (length queued) ∧ NoDup (slot <$> queued) ∧
    (∀ it, it ∈ queued →
       storage_slot_state (slots p') (slot it) = STORAGE_SLOT_READY_FOR_NVME).
Proof.
  exact (pipeline_exactly_once zero_pipeline 2 witness_ops ltac:(cint) witness_ops_wf).
Defined.

Lemma harvest_limit_exact_witness :
  let limit := storage_harvest_limit_for_remaining 33554433 16777216 8 in
  1 <= limit <= 8 ∧ (limit - 1) * 16777216 < 33554433 ∧
  (33554433 <= limit * 16777216 ∨ limit = 8).
Proof.
  exact (harvest_limit_exact 33554433 16777216 8 ltac:(cint) ltac:(cint) ltac:(cint)).
Defined.

End ccb_storage_pipeline.
