(* ===== verification/Capture.v ===== *)
(** * The capture task ([src/src/storage_controller.c])

    The task-level state machine of the parent process: one capture goes from
    PREPARING through READY, STARTING, RUNNING, STOPPING and COMMITTING to DONE,
    and can fail at any busy state.  A [CaptureTask *] argument is modelled by
    the record it points to; the NULL guards have no state to change. *)
From S2P Require Import Prelude StorageError.

Module storage_controller.

Inductive CaptureState : Type :=
| CAPTURE_IDLE
| CAPTURE_PREPARING
| CAPTURE_READY
| CAPTURE_STARTING
| CAPTURE_RUNNING
| CAPTURE_STOPPING
| CAPTURE_COMMITTING
| CAPTURE_DONE
| CAPTURE_FAILED.
#[export] Instance CaptureState_eq_dec : EqDecision CaptureState.
Proof. solve_decision. Defined.

(** The enumeration value, used by the [<] and [>=] comparisons of the code. *)
Definition capture_rank (s : CaptureState) : Z :=
  match s with
  | CAPTURE_IDLE => 0 | CAPTURE_PREPARING => 1 | CAPTURE_READY => 2
  | CAPTURE_STARTING => 3 | CAPTURE_RUNNING => 4 | CAPTURE_STOPPING => 5
  | CAPTURE_COMMITTING => 6 | CAPTURE_DONE => 7 | CAPTURE_FAILED => 8
  end.

Record CaptureTask : Type := mkTask {
  state : CaptureState;
  task_id : string;
  target_mask : Z;
  deadline_us : Z;
  stop_epoch : Z;
  primary_error : StorageErrorCode;
  secondary_error : StorageErrorCode }.
#[export] Instance eta_Task : EtaOf CaptureTask := λ t,
  mkTask (state t) (task_id t) (target_mask t) (deadline_us t) (stop_epoch t)
    (primary_error t) (secondary_error t).

Definition transition_allowed (expected next : CaptureState) : bool :=
  if bool_decide (next = CAPTURE_FAILED)
  then (capture_rank CAPTURE_IDLE <? capture_rank expected) &&
       (capture_rank expected <? capture_rank CAPTURE_DONE)
  else
    match expected with
    | CAPTURE_PREPARING =>
        bool_decide (next = CAPTURE_READY) || bool_decide (next = CAPTURE_STOPPING)
    | CAPTURE_READY =>
        bool_decide (next = CAPTURE_STARTING) || bool_decide (next = CAPTURE_STOPPING)
    | CAPTURE_STARTING =>
        bool_decide (next = CAPTURE_RUNNING) || bool_decide (next = CAPTURE_STOPPING)
    | CAPTURE_RUNNING => bool_decide (next = CAPTURE_STOPPING)
    | CAPTURE_STOPPING => bool_decide (next = CAPTURE_COMMITTING)
    | CAPTURE_COMMITTING => bool_decide (next = CAPTURE_DONE)
    | _ => false
    end.

Definition capture_task_init : CaptureTask :=
  mkTask CAPTURE_IDLE "" 0 0 0 STORAGE_ERR_NONE STORAGE_ERR_NONE.

(** [id = None] is a NULL [task_id]; [strncpy] keeps 11 characters. *)
Definition capture_task_begin (task : CaptureTask) (id : option string)
    (mask deadline : Z) : Z * CaptureTask :=
  match id with
  | None => (-1, task)
  | Some id =>
    if bool_decide (id = ""%string) || (mask =? 0) ||
       negb (bool_decide (state task = CAPTURE_IDLE) ||
             bool_decide (state task = CAPTURE_DONE) ||
             bool_decide (state task = CAPTURE_FAILED))
    then (-1, task)
    else (0, capture_task_init <| state := CAPTURE_PREPARING |>
               <| target_mask := mask |> <| deadline_us := deadline |>
               <| task_id := String.substring 0 11 id |>)
  end.

Definition capture_task_transition (task : CaptureTask) (expected next : CaptureState)
  : Z * CaptureTask :=
  if negb (bool_decide (state task = expected)) || negb (transition_allowed expected next)
  then (-1, task)
  else (0, task <| state := next |>).

Definition capture_task_request_stop (task : CaptureTask) (epoch : Z) : Z * CaptureTask :=
  if epoch =? 0 then (-1, task)
  else if bool_decide (state task = CAPTURE_STOPPING) ||
          bool_decide (state task = CAPTURE_COMMITTING) ||
          bool_decide (state task = CAPTURE_DONE) ||
          bool_decide (state task = CAPTURE_FAILED)
  then
    let task' := if stop_epoch task =? 0 then task <| stop_epoch := epoch |> else task in
    (if stop_epoch task' =? epoch then 0 else -1, task')
  else
    let '(rc, task1) := capture_task_transition task (state task) CAPTURE_STOPPING in
    if negb (rc =? 0) then (-1, task1)
    else (0, task1 <| stop_epoch := epoch |>).

Definition capture_task_fail (task : CaptureTask) (error : StorageErrorCode) : CaptureTask :=
  if error =? STORAGE_ERR_NONE then task
  else
    let '(p, s) := storage_error_record (primary_error task) (secondary_error task) error in
    let task1 := task <| primary_error := p |> <| secondary_error := s |> in
    if (capture_rank CAPTURE_IDLE <? capture_rank (state task1)) &&
       (capture_rank (state task1) <? capture_rank CAPTURE_DONE)
    then snd (capture_task_transition task1 (state task1) CAPTURE_FAILED)
    else task1.

Definition capture_task_busy (task : CaptureTask) : bool :=
  (capture_rank CAPTURE_PREPARING <=? capture_rank (state task)) &&
  (capture_rank (state task) <=? capture_rank CAPTURE_COMMITTING).

Definition capture_state_name (s : CaptureState) : string :=
  match s with
  | CAPTURE_IDLE => "idle" | CAPTURE_PREPARING => "preparing"
  | CAPTURE_READY => "ready" | CAPTURE_STARTING => "starting"
  | CAPTURE_RUNNING => "running" | CAPTURE_STOPPING => "stopping"
  | CAPTURE_COMMITTING => "committing" | CAPTURE_DONE => "done"
  | CAPTURE_FAILED => "failed"
  end.

(** ** The task as a transition system *)
Inductive capture_op : Type :=
| OpBegin (id : option string) (mask deadline : Z)
| OpTransition (expected next : CaptureState)
| OpRequestStop (epoch : Z)
| OpFail (error : StorageErrorCode).

Definition capture_step (t : CaptureTask) (op : capture_op) : CaptureTask :=
  match op with
  | OpBegin id mask deadline => snd (capture_task_begin t id mask deadline)
  | OpTransition e n => snd (capture_task_transition t e n)
  | OpRequestStop epoch => snd (capture_task_request_stop t epoch)
  | OpFail err => capture_task_fail t err
  end.

Definition capture_run (t : CaptureTask) (ops : list capture_op) : CaptureTask :=
  foldl capture_step t ops.

Definition is_begin (op : capture_op) : bool :=
  match op with OpBegin _ _ _ => true | _ => false end.

(** Closed as far as STOPPING: the states in which a stop epoch may be set. *)
Definition stop_reached (s : CaptureState) : bool :=
  capture_rank CAPTURE_STOPPING <=? capture_rank s.

Record capture_inv (t : CaptureTask) : Prop := {
  ci_busy : capture_task_busy t = true →
    target_mask t ≠ 0 ∧ task_id t ≠ ""%string ∧ (String.length (task_id t) <= 11)%nat;
  ci_epoch : stop_epoch t ≠ 0 → stop_reached (state t) = true;
  ci_errors : secondary_error t ≠ STORAGE_ERR_NONE →
    primary_error t ≠ STORAGE_ERR_NONE ∧ primary_error t ≠ secondary_error t;
  ci_failed : primary_error t ≠ STORAGE_ERR_NONE → capture_task_busy t = false }.

(** [transition_allowed] enumerated. *)
Lemma transition_allowed_rank e n :
  transition_allowed e n = true →
  capture_rank e < capture_rank n ∧ 0 < capture_rank e < 7 ∧ 1 < capture_rank n ∧
  (5 <= capture_rank e → 5 <= capture_rank n).
Proof. destruct e, n; intros H; try discriminate H; simpl; lia. Qed.

Ltac capture_cases :=
  repeat match goal with
  | |- context [bool_decide ?P] => destruct (bool_decide_reflect P)
  | |- context [Z.eqb ?a ?b] => destruct (Z.eqb_spec a b)
  end; simplify_eq/=.

Lemma transition_ok_inv t e n t' :
  capture_task_transition t e n = (0, t') →
  state t = e ∧ transition_allowed e n = true ∧ t' = t <| state := n |>.
Proof.
  unfold capture_task_transition. destruct (bool_decide_reflect (state t = e)); [|done].
  destruct (transition_allowed e n); naive_solver.
Qed.

Lemma transition_or_same t e n :
  capture_task_transition t e n = (-1, t) ∨
  (state t = e ∧ transition_allowed e n = true ∧
   capture_task_transition t e n = (0, t <| state := n |>)).
Proof.
  unfold capture_task_transition. destruct (bool_decide_reflect (state t = e)); [|by left].
  destruct (transition_allowed e n); [right|left]; done.
Qed.

Lemma set_state_inv t n :
  capture_inv t → transition_allowed (state t) n = true →
  capture_inv (t <| state := n |>).
Proof.
  intros [Hb He Her Hf] Ha. pose proof (transition_allowed_rank _ _ Ha) as Hrk.
  assert (Hbusy : capture_task_busy t = true).
  { unfold capture_task_busy. simpl. rewrite andb_true_iff, !Z.leb_le. lia. }
  split; simpl; intros H.
  - by apply Hb.
  - unfold stop_reached in *. specialize (He H). rewrite Z.leb_le in *. simpl in *. lia.
  - by apply Her.
  - specialize (Hf H). congruence.
Qed.

Lemma capture_task_fail_eq t err :
  err ≠ STORAGE_ERR_NONE →
  ∃ p s, storage_error_record (primary_error t) (secondary_error t) err = (p, s) ∧
    capture_task_fail t err =
      (t <| primary_error := p |> <| secondary_error := s |>)
         <| state := if capture_task_busy t then CAPTURE_FAILED else state t |>.
Proof.
  intros He. unfold capture_task_fail. destruct (Z.eqb_spec err STORAGE_ERR_NONE); [done|].
  destruct (storage_error_record _ _ _) as [p s]. exists p, s. split; [done|].
  destruct t as [st ? ? ? ? ? ?]. by destruct st.
Qed.

Lemma record_pair p s e p' s' :
  storage_error_record p s e = (p', s') →
  (s ≠ STORAGE_ERR_NONE → p ≠ STORAGE_ERR_NONE ∧ p ≠ s) →
  (s' ≠ STORAGE_ERR_NONE → p' ≠ STORAGE_ERR_NONE ∧ p' ≠ s').
Proof.
  unfold storage_error_record. intros Hr Hps. case_decide; simplify_eq; [done|].
  destruct (Z.eqb_spec p STORAGE_ERR_NONE), (Z.eqb_spec s STORAGE_ERR_NONE),
    (Z.eqb_spec p e); simplify_eq/=; naive_solver.
Qed.

Lemma capture_step_inv t op : capture_inv t → capture_inv (capture_step t op).
Proof.
  intros Hinv. pose proof Hinv as [Hb He Her Hf]. destruct op as [id m d|e n|ep|err]; simpl.
  - unfold capture_task_begin. destruct id as [id|]; [|done].
    destruct (bool_decide_reflect (id = ""%string)); [done|].
    destruct (Z.eqb_spec m 0); [done|]. simpl.
    destruct (negb _); [done|]. split; simpl; try done. intros _. split_and!; [done| |].
    + by destruct id.
    + apply substring_length_le.
  - destruct (transition_or_same t e n) as [->|(<- & Ha & ->)]; [done|].
    by apply set_state_inv.
  - unfold capture_task_request_stop. destruct (Z.eqb_spec ep 0); [done|].
    destruct (_ || _) eqn:Hs.
    + simpl. destruct (Z.eqb_spec (stop_epoch t) 0); [|done].
      split; simpl; try done. intros _. destruct (state t); done.
    + destruct (transition_or_same t (state t) CAPTURE_STOPPING) as [->|(_ & Ha & ->)]; [done|].
      simpl. apply (set_state_inv _ _ Hinv) in Ha. destruct Ha. by split.
  - destruct (decide (err = STORAGE_ERR_NONE)) as [->|Hne]; [done|].
    destruct (capture_task_fail_eq t err Hne) as (p & s & Hrec & ->).
    split; simpl.
    + destruct (capture_task_busy t) eqn:E; intros H; [done|].
      unfold capture_task_busy in *. simpl in *. congruence.
    + destruct (capture_task_busy t); [done|]. apply He.
    + by eapply record_pair.
    + intros _. unfold capture_task_busy at 1. simpl. by destruct (capture_task_busy t) eqn:E.
Qed.

Lemma capture_init_inv : capture_inv capture_task_init.
Proof. split; by intros. Qed.

Lemma capture_run_inv ops : ∀ t, capture_inv t → capture_inv (capture_run t ops).
Proof.
  induction ops as [|op ops IH]; intros t Ht; [done|]. by apply IH, capture_step_inv.
Qed.

(** What is true of a capture task in every reachable state, whatever calls
    are made: a busy task has a target and an identifier that fits its 12-byte
    field, a stop epoch is set only once STOPPING has been reached, a secondary
    error is only ever recorded after a different primary one, and no task with
    a recorded error is still busy. *)
Theorem capture_reachable_invariant :
  ∀ (ops : list capture_op),
    let t := capture_run capture_task_init ops in
    (capture_task_busy t = true →
       target_mask t ≠ 0 ∧ task_id t ≠ ""%string ∧
       (String.length (task_id t) < 12)%nat ∧ primary_error t = STORAGE_ERR_NONE) ∧
    (stop_epoch t ≠ 0 → capture_rank CAPTURE_STOPPING <= capture_rank (state t)) ∧
    (secondary_error t ≠ STORAGE_ERR_NONE →
       primary_error t ≠ STORAGE_ERR_NONE ∧ primary_error t ≠ secondary_error t).
Proof.
  intros ops t. destruct (capture_run_inv ops _ capture_init_inv) as [Hb He Her Hf].
  fold t in Hb, He, Her, Hf. split_and!.
  - intros H. destruct (Hb H) as (? & ? & ?). split_and!; [done..|lia|].
    destruct (decide (primary_error t = STORAGE_ERR_NONE)); [done|].
    rewrite Hf in H by done. done.
  - intros H. specialize (He H). unfold stop_reached in He. by apply Z.leb_le.
  - done.
Qed.

(** ** Progress *)

(** Number of calls of a run that changed the state. *)
Fixpoint state_changes (t : CaptureTask) (ops : list capture_op) : Z :=
  match ops with
  | [] => 0
  | op :: rest =>
    (if decide (state (capture_step t op) = state t) then 0 else 1)
    + state_changes (capture_step t op) rest
  end.

Lemma capture_step_rank t op :
  is_begin op = false →
  capture_rank (state t) + (if decide (state (capture_step t op) = state t) then 0 else 1)
  <= capture_rank (state (capture_step t op)).
Proof.
  intros Hop. destruct op as [|e n|ep|err]; [done| | |]; simpl.
  - destruct (transition_or_same t e n) as [->|(<- & Ha & ->)]; simpl.
    { case_decide; [lia|done]. }
    apply transition_allowed_rank in Ha. case_decide; lia.
  - unfold capture_task_request_stop.
    destruct (Z.eqb_spec ep 0); [simpl; case_decide; [lia|done]|].
    destruct (_ || _).
    { simpl. destruct (stop_epoch t =? 0); simpl; (case_decide; [lia|done]). }
    destruct (transition_or_same t (state t) CAPTURE_STOPPING) as [->|(_ & Ha & ->)]; simpl.
    { case_decide; [lia|done]. }
    apply transition_allowed_rank in Ha. simpl in Ha. case_decide; lia.
  - destruct (decide (err = STORAGE_ERR_NONE)) as [->|Hne].
    { change (capture_task_fail t STORAGE_ERR_NONE) with t. case_decide; [lia|done]. }
    destruct (capture_task_fail_eq t err Hne) as (p & s & _ & ->). simpl.
    destruct (capture_task_busy t) eqn:Hb; simpl; [|case_decide; [lia|done]].
    unfold capture_task_busy in Hb. rewrite andb_true_iff, !Z.leb_le in Hb. simpl in Hb.
    case_decide; lia.
Qed.

Lemma capture_step_closed t op :
  is_begin op = false → capture_rank CAPTURE_DONE <= capture_rank (state t) →
  state (capture_step t op) = state t.
Proof.
  intros Hop Hd. destruct op as [|e n|ep|err]; [done| | |]; simpl.
  - destruct (transition_or_same t e n) as [->|(<- & Ha & _)]; [done|].
    apply transition_allowed_rank in Ha. simpl in Hd. lia.
  - unfold capture_task_request_stop. destruct (Z.eqb_spec ep 0); [done|].
    destruct (_ || _) eqn:E; [by simpl; destruct (stop_epoch t =? 0)|].
    destruct (state t); try (simpl in Hd; lia); discriminate E.
  - destruct (decide (err = STORAGE_ERR_NONE)) as [->|Hne]; [done|].
    destruct (capture_task_fail_eq t err Hne) as (p & s & _ & ->). simpl.
    unfold capture_task_busy. destruct (state t); try done; simpl in Hd; lia.
Qed.

Lemma capture_step_epoch t op :
  is_begin op = false → capture_inv t → stop_epoch t ≠ 0 →
  stop_epoch (capture_step t op) = stop_epoch t.
Proof.
  intros Hop Hinv Hne. pose proof (ci_epoch _ Hinv Hne) as Hs.
  destruct op as [|e n|ep|err]; [done| | |]; simpl.
  - by destruct (transition_or_same t e n) as [->|(_ & _ & ->)].
  - unfold capture_task_request_stop. destruct (Z.eqb_spec ep 0); [done|].
    destruct (Z.eqb_spec (stop_epoch t) 0); [done|].
    destruct (_ || _) eqn:E; [done|]. destruct (state t); discriminate.
  - destruct (decide (err = STORAGE_ERR_NONE)) as [->|Hn]; [done|].
    by destruct (capture_task_fail_eq t err Hn) as (p & s & _ & ->).
Qed.

(** a capture only moves forward.  From any reachable task, along calls
    other than [capture_task_begin], every accepted call that changes the state
    moves it up in the order PREPARING < ... < DONE < FAILED (so the number of
    state changes is bounded by the distance to FAILED), a finished or failed
    task never changes state again, and a stop epoch, once latched, is never
    replaced: a later stop request with another epoch is refused. *)
Theorem capture_progress :
  ∀ (past ops : list capture_op),
    Forall (λ op, is_begin op = false) ops →
    let t := capture_run capture_task_init past in
    let t' := capture_run t ops in
    state_changes t ops <= capture_rank (state t') - capture_rank (state t) ∧
    (capture_rank CAPTURE_DONE <= capture_rank (state t) → state t' = state t) ∧
    (stop_epoch t ≠ 0 → stop_epoch t' = stop_epoch t ∧
       ∀ epoch, epoch ≠ stop_epoch t →
         fst (capture_task_request_stop t' epoch) = -1).
Proof.
  intros past ops Hops t. pose proof (capture_run_inv past _ capture_init_inv) as Hinv.
  fold t in Hinv. generalize dependent t. clear past. intros t Hinv.
  assert (Hep : stop_epoch t ≠ 0 → stop_epoch (capture_run t ops) = stop_epoch t).
  { revert t Hinv. induction Hops as [|op ops Hop Hops IH]; intros t Hinv Hne; [done|].
    pose proof (capture_step_epoch t op Hop Hinv Hne) as Hs. simpl. rewrite <- Hs.
    apply IH; [by apply capture_step_inv|by rewrite Hs]. }
  split_and!.
  - clear Hinv Hep. unfold capture_run. revert t.
    induction Hops as [|op ops Hop Hops IH]; intros t; cbn [state_changes foldl]; [lia|].
    pose proof (capture_step_rank t op Hop). specialize (IH (capture_step t op)). lia.
  - clear Hinv Hep. revert t. induction Hops as [|op ops Hop Hops IH]; intros t Hd; [done|].
    pose proof (capture_step_closed t op Hop Hd) as Hs. simpl. rewrite <- Hs.
    apply IH. by rewrite Hs.
  - intros Hne. specialize (Hep Hne). split; [done|]. intros ep Hep'.
    pose proof (ci_epoch _ (capture_run_inv ops t Hinv)) as Hst. rewrite Hep in Hst.
    specialize (Hst Hne). unfold capture_task_request_stop, stop_reached in *.
    destruct (Z.eqb_spec ep 0); [done|].
    destruct (_ || _) eqn:E; [|by destruct (state (capture_run t ops))].
    rewrite Hep. destruct (Z.eqb_spec (stop_epoch t) 0); [done|].
    rewrite Hep. by destruct (Z.eqb_spec (stop_epoch t) ep).
Qed.

Definition witness_past : list capture_op :=
  [OpBegin (Some "20260101001"%string) 7 0; OpTransition CAPTURE_PREPARING CAPTURE_READY;
   OpTransition CAPTURE_READY CAPTURE_STARTING; OpRequestStop 42].
Definition witness_future : list capture_op :=
  [OpRequestStop 43; OpTransition CAPTURE_STOPPING CAPTURE_COMMITTING;
   OpFail STORAGE_ERR_COMMIT].

Lemma capture_progress_witness :
  let t := capture_run capture_task_init witness_past in
  let t' := capture_run t witness_future in
  state_changes t witness_future <= capture_rank (state t') - capture_rank (state t) ∧
  (capture_rank CAPTURE_DONE <= capture_rank (state t) → state t' = state t) ∧
  (stop_epoch t ≠ 0 → stop_epoch t' = stop_epoch t ∧
     ∀ epoch, epoch ≠ stop_epoch t → fst (capture_task_request_stop t' epoch) = -1).
Proof.
  apply (capture_progress witness_past witness_future). repeat constructor.
Defined.

End storage_controller.
