(* ===== verification/Worker.v ===== *)
(** * The storage worker lifecycle ([src/src/storage_worker.c])

    The twelve-state machine of one storage worker process and the predicates
    the producer and the writer thread test on it. *)
From S2P Require Import Prelude.

Module storage_worker.

Inductive StorageWorkerState : Type :=
| WORKER_INIT
| WORKER_READY
| WORKER_ARMED
| WORKER_RUNNING
| WORKER_WAIT_BOUNDARY
| WORKER_DMA_QUIESCING
| WORKER_HARVESTING
| WORKER_DRAINING
| WORKER_DRAINED_WAIT_STOP
| WORKER_FINALIZING
| WORKER_DONE
| WORKER_FAILED.
#[export] Instance StorageWorkerState_eq_dec : EqDecision StorageWorkerState.
Proof. solve_decision. Defined.

(** The enumeration value. *)
Definition worker_rank (s : StorageWorkerState) : Z :=
  match s with
  | WORKER_INIT => 0 | WORKER_READY => 1 | WORKER_ARMED => 2 | WORKER_RUNNING => 3
  | WORKER_WAIT_BOUNDARY => 4 | WORKER_DMA_QUIESCING => 5 | WORKER_HARVESTING => 6
  | WORKER_DRAINING => 7 | WORKER_DRAINED_WAIT_STOP => 8 | WORKER_FINALIZING => 9
  | WORKER_DONE => 10 | WORKER_FAILED => 11
  end.

Definition transition_allowed (expected next : StorageWorkerState) : bool :=
  if bool_decide (next = WORKER_FAILED)
  then (worker_rank WORKER_INIT <=? worker_rank expected) &&
       (worker_rank expected <? worker_rank WORKER_DONE)
  else
    match expected with
    | WORKER_INIT => bool_decide (next = WORKER_READY)
    | WORKER_READY => bool_decide (next = WORKER_ARMED)
    | WORKER_ARMED => bool_decide (next = WORKER_RUNNING)
    | WORKER_RUNNING =>
        bool_decide (next = WORKER_WAIT_BOUNDARY) || bool_decide (next = WORKER_DRAINING)
    | WORKER_WAIT_BOUNDARY => bool_decide (next = WORKER_DMA_QUIESCING)
    | WORKER_DMA_QUIESCING => bool_decide (next = WORKER_HARVESTING)
    | WORKER_HARVESTING => bool_decide (next = WORKER_DRAINING)
    | WORKER_DRAINING => bool_decide (next = WORKER_DRAINED_WAIT_STOP)
    | WORKER_DRAINED_WAIT_STOP => bool_decide (next = WORKER_FINALIZING)
    | WORKER_FINALIZING => bool_decide (next = WORKER_DONE)
    | _ => false
    end.

Definition storage_worker_transition (state expected next : StorageWorkerState)
  : Z * StorageWorkerState :=
  if negb (bool_decide (state = expected)) || negb (transition_allowed expected next)
  then (-1, state) else (0, next).

Definition storage_worker_stop_latched (state : StorageWorkerState) : bool :=
  worker_rank WORKER_WAIT_BOUNDARY <=? worker_rank state.

Definition storage_worker_producer_done (state : StorageWorkerState) : bool :=
  worker_rank WORKER_DRAINING <=? worker_rank state.

Definition storage_worker_can_requeue (state : StorageWorkerState) : bool :=
  bool_decide (state = WORKER_RUNNING).

Definition storage_worker_state_name (state : StorageWorkerState) : string :=
  match state with
  | WORKER_INIT => "init" | WORKER_READY => "ready" | WORKER_ARMED => "armed"
  | WORKER_RUNNING => "running" | WORKER_WAIT_BOUNDARY => "wait_boundary"
  | WORKER_DMA_QUIESCING => "dma_quiescing" | WORKER_HARVESTING => "harvesting"
  | WORKER_DRAINING => "draining" | WORKER_DRAINED_WAIT_STOP => "drained_wait_stop"
  | WORKER_FINALIZING => "finalizing" | WORKER_DONE => "done"
  | WORKER_FAILED => "failed"
  end.

(** ** Lifecycles: the states visited by accepted transitions, newest first *)
Inductive lifecycle : list StorageWorkerState → Prop :=
| lifecycle_init : lifecycle [WORKER_INIT]
| lifecycle_step s n hist :
    lifecycle (s :: hist) → storage_worker_transition s s n = (0, n) →
    lifecycle (n :: s :: hist).

Lemma transition_iff s n :
  storage_worker_transition s s n = (0, n) ↔ transition_allowed s n = true.
Proof.
  unfold storage_worker_transition. rewrite bool_decide_eq_true_2 by done.
  destruct (transition_allowed s n); naive_solver.
Qed.

Lemma transition_rank s n :
  transition_allowed s n = true → worker_rank s < worker_rank n.
Proof. destruct s, n; intros H; try discriminate H; simpl; lia. Qed.

(** The states a live worker goes through before reaching a given one. *)
Definition must_precede (s : StorageWorkerState) : list StorageWorkerState :=
  match s with
  | WORKER_DONE => [WORKER_FINALIZING; WORKER_DRAINED_WAIT_STOP; WORKER_DRAINING;
                    WORKER_RUNNING; WORKER_ARMED; WORKER_READY; WORKER_INIT]
  | WORKER_FINALIZING => [WORKER_DRAINED_WAIT_STOP; WORKER_DRAINING; WORKER_RUNNING;
                          WORKER_ARMED; WORKER_READY; WORKER_INIT]
  | WORKER_DRAINED_WAIT_STOP => [WORKER_DRAINING; WORKER_RUNNING; WORKER_ARMED;
                                 WORKER_READY; WORKER_INIT]
  | WORKER_DRAINING => [WORKER_RUNNING; WORKER_ARMED; WORKER_READY; WORKER_INIT]
  | WORKER_HARVESTING => [WORKER_DMA_QUIESCING; WORKER_WAIT_BOUNDARY; WORKER_RUNNING;
                          WORKER_ARMED; WORKER_READY; WORKER_INIT]
  | WORKER_DMA_QUIESCING => [WORKER_WAIT_BOUNDARY; WORKER_RUNNING; WORKER_ARMED;
                             WORKER_READY; WORKER_INIT]
  | WORKER_WAIT_BOUNDARY => [WORKER_RUNNING; WORKER_ARMED; WORKER_READY; WORKER_INIT]
  | WORKER_RUNNING => [WORKER_ARMED; WORKER_READY; WORKER_INIT]
  | WORKER_ARMED => [WORKER_READY; WORKER_INIT]
  | WORKER_READY => [WORKER_INIT]
  | WORKER_INIT | WORKER_FAILED => []
  end.

Lemma must_precede_step s n p :
  transition_allowed s n = true → p ∈ must_precede n →
  p = s ∨ p ∈ must_precede s.
Proof.
  destruct s, n; intros H; try discriminate H; simpl; rewrite ?elem_of_cons, ?elem_of_nil; tauto.
Qed.

Lemma lifecycle_precede hist :
  lifecycle hist → ∀ n rest, hist = n :: rest →
  (∀ p, p ∈ must_precede n → p ∈ rest) ∧
  (∀ m, m ∈ rest → worker_rank m < worker_rank n) ∧
  Z.of_nat (length rest) <= worker_rank n.
Proof.
  induction 1 as [|s n hist Hl IH Ht]; intros m rest Heq; simplify_eq.
  { split_and!; [set_solver..|simpl; lia]. }
  destruct (IH s hist eq_refl) as (Hp & Hr & Hlen).
  apply transition_iff in Ht. pose proof (transition_rank _ _ Ht).
  split_and!.
  - intros p Hin. destruct (must_precede_step _ _ _ Ht Hin) as [->|Hin']; [left|right].
    by apply Hp.
  - intros p [->|Hin]%elem_of_cons; [done|]. specialize (Hr p Hin). lia.
  - simpl. lia.
Qed.

(** the worker lifecycle.  Along any sequence of accepted transitions from
    INIT: the states visited are strictly increasing in the enumeration, so a
    lifecycle has at most twelve states and always terminates; a worker that is
    DONE has been RUNNING, has drained, has waited for STOP and has finalized;
    and once a stop is latched or the producer is done it stays so, with no
    descriptor ever requeued again. *)
Theorem worker_lifecycle :
  ∀ (now : StorageWorkerState) (past : list StorageWorkerState),
    lifecycle (now :: past) →
    (length (now :: past) <= 12)%nat ∧
    (∀ s, s ∈ past → worker_rank s < worker_rank now) ∧
    (now = WORKER_DONE →
       WORKER_RUNNING ∈ past ∧ WORKER_DRAINING ∈ past ∧
       WORKER_DRAINED_WAIT_STOP ∈ past ∧ WORKER_FINALIZING ∈ past) ∧
    (∀ s, s ∈ past → storage_worker_stop_latched s = true →
       storage_worker_stop_latched now = true ∧ storage_worker_can_requeue now = false) ∧
    (∀ s, s ∈ past → storage_worker_producer_done s = true →
       storage_worker_producer_done now = true).
Proof.
  intros now past Hl. destruct (lifecycle_precede _ Hl now past eq_refl) as (Hp & Hr & Hlen).
  split_and!.
  - simpl. assert (worker_rank now <= 11) by (by destruct now). lia.
  - done.
  - intros ->. split_and!; apply Hp; set_solver.
  - intros s Hs Hst. specialize (Hr s Hs).
    unfold storage_worker_stop_latched in *. rewrite Z.leb_le in *.
    unfold storage_worker_can_requeue. split; [simpl in *; lia|].
    apply bool_decide_eq_false_2. intros ->. simpl in *. lia.
  - intros s Hs Hst. specialize (Hr s Hs). unfold storage_worker_producer_done in *.
    rewrite Z.leb_le in *. simpl in *. lia.
Qed.

Definition witness_history : list StorageWorkerState :=
  [WORKER_FINALIZING; WORKER_DRAINED_WAIT_STOP; WORKER_DRAINING; WORKER_HARVESTING;
   WORKER_DMA_QUIESCING; WORKER_WAIT_BOUNDARY; WORKER_RUNNING; WORKER_ARMED;
   WORKER_READY; WORKER_INIT].

Lemma worker_lifecycle_witness :
  lifecycle (WORKER_DONE :: witness_history) ∧
  (length (WORKER_DONE :: witness_history) <= 12)%nat ∧
  (∀ s, s ∈ witness_history → worker_rank s < worker_rank WORKER_DONE) ∧
  (WORKER_DONE = WORKER_DONE →
     WORKER_RUNNING ∈ witness_history ∧ WORKER_DRAINING ∈ witness_history ∧
     WORKER_DRAINED_WAIT_STOP ∈ witness_history ∧ WORKER_FINALIZING ∈ witness_history) ∧
  (∀ s, s ∈ witness_history → storage_worker_stop_latched s = true →
     storage_worker_stop_latched WORKER_DONE = true ∧
     storage_worker_can_requeue WORKER_DONE = false) ∧
  (∀ s, s ∈ witness_history → storage_worker_producer_done s = true →
     storage_worker_producer_done WORKER_DONE = true).
Proof.
  assert (H : lifecycle (WORKER_DONE :: witness_history))
    by (unfold witness_history; repeat constructor).
  split; [exact H|]. exact (worker_lifecycle WORKER_DONE witness_history H).
Defined.

End storage_worker.
