(* ===== verification/Window.v ===== *)
(** * Stable windows

    Two components of the controller decide that something has been quiet for
    long enough by the same automaton: a counter of consecutive quiet scans
    (saturating at [UINT32_MAX]) and the time of the first of them.  This file
    proves once what such an automaton detects. *)
From S2P Require Import Prelude.

Module window.

Record win : Type := mkWin { scans : Z; since : Z }.

Definition win0 : win := mkWin 0 0.

(** One observation at [now]: [quiet] tells whether it continues the window. *)
Definition win_observe (st : win) (quiet : bool) (now required_scans stable_us : Z)
  : bool * win :=
  if negb quiet then (false, win0)
  else
    let required := if required_scans =? 0 then 1 else required_scans in
    let since' := if scans st =? 0 then now else since st in
    let scans' := if negb (scans st =? UINT32_MAX) then scans st + 1 else scans st in
    ((required <=? scans') && (since' <=? now) && (stable_us <=? now - since'),
     mkWin scans' since').

Arguments win_observe : simpl never.

(** The state after a sequence of observations [(quiet, now)], oldest first. *)
Definition win_run (required stable : Z) (obs : list (bool * Z)) (st : win) : win :=
  foldl (λ st '(q, now), snd (win_observe st q now required stable)) st obs.

(** The maximal suffix of quiet observations. *)
Definition quiet_suffix (obs : list (bool * Z)) : list (bool * Z) :=
  foldl (λ acc o, if o.1 : bool then acc ++ [o] else []) [] obs.

Definition win_of (suffix : list (bool * Z)) : win :=
  match suffix with
  | [] => win0
  | o :: _ => mkWin (Z.min UINT32_MAX (Z.of_nat (length suffix))) o.2
  end.

Lemma win_observe_quiet suffix now required stable :
  snd (win_observe (win_of suffix) true now required stable)
  = win_of (suffix ++ [(true, now)]).
Proof.
  destruct suffix as [|o suffix]; [done|]. simpl. rewrite length_app. simpl.
  unfold win_observe, win_of. simpl.
  destruct (Z.eqb_spec (Z.min UINT32_MAX (Z.of_nat (S (length suffix)))) 0); [cint|].
  destruct (Z.eqb_spec (Z.min UINT32_MAX (Z.of_nat (S (length suffix)))) UINT32_MAX);
    simpl; f_equal; cint.
Qed.

Lemma win_run_suffix required stable obs : ∀ suffix,
  win_run required stable obs (win_of suffix) =
  win_of (foldl (λ acc o, if o.1 : bool then acc ++ [o] else []) suffix obs).
Proof.
  induction obs as [|[q now] obs IH]; intros suffix; [done|].
  change (win_run required stable ((q, now) :: obs) (win_of suffix)) with
    (win_run required stable obs (snd (win_observe (win_of suffix) q now required stable))).
  destruct q.
  - rewrite win_observe_quiet. apply IH.
  - apply (IH []).
Qed.

Lemma win_run_init required stable obs :
  win_run required stable obs win0 = win_of (quiet_suffix obs).
Proof. apply (win_run_suffix required stable obs []). Qed.

Lemma quiet_suffix_snoc obs q now :
  quiet_suffix (obs ++ [(q, now)]) =
  if q : bool then quiet_suffix obs ++ [(true, now)] else [].
Proof. unfold quiet_suffix. rewrite foldl_app. simpl. by destruct q. Qed.

(** The quiet suffix really is a suffix, of quiet observations only. *)
Lemma quiet_suffix_spec obs :
  ∃ before, obs = before ++ quiet_suffix obs ∧
    Forall (λ o, o.1 = true) (quiet_suffix obs) ∧
    (∀ o, last before = Some o → o.1 = false).
Proof.
  induction obs as [|[q now] obs IH] using rev_ind.
  { exists []. split_and!; [done|constructor|done]. }
  rewrite quiet_suffix_snoc. destruct IH as (before & Heq & Hq & Hlast). destruct q.
  - exists before. rewrite (assoc_L (++)), <- Heq. split_and!; [done| |done].
    apply Forall_app. split; [done|]. by constructor.
  - exists (obs ++ [(false, now)]). rewrite app_nil_r.
    split_and!; [done|constructor|]. intros o. rewrite last_snoc. by intros [= <-].
Qed.

Lemma quiet_suffix_app obs run :
  Forall (λ o, o.1 = true) run → quiet_suffix (obs ++ run) = quiet_suffix obs ++ run.
Proof.
  induction run as [|[q now] run IH] using rev_ind; intros Hq; [by rewrite !app_nil_r|].
  apply Forall_app in Hq as [Hr Hq]. apply Forall_cons in Hq as [Hq _]. simpl in Hq. subst q.
  rewrite (assoc_L (++)), quiet_suffix_snoc, IH by done. by rewrite (assoc_L (++)).
Qed.

(** [quiet_since obs first run]: the history ends in the unbroken quiet run
    [first :: run], preceded by nothing or by a noisy observation. *)
Definition quiet_since (obs : list (bool * Z)) (first : bool * Z)
    (run : list (bool * Z)) : Prop :=
  ∃ before, obs = before ++ first :: run ∧
    Forall (λ o, o.1 = true) (first :: run) ∧
    (∀ o, last before = Some o → o.1 = false).

Lemma quiet_since_suffix obs first run :
  quiet_since obs first run ↔ quiet_suffix obs = first :: run.
Proof.
  split.
  - intros (before & -> & Hq & Hl). rewrite quiet_suffix_app by done.
    destruct before as [|[q now] before _] using rev_ind; [done|].
    rewrite quiet_suffix_snoc. specialize (Hl (q, now)). rewrite last_snoc in Hl.
    simpl in Hl. by rewrite Hl.
  - intros Hs. destruct (quiet_suffix_spec obs) as (before & Heq & Hq & Hl).
    rewrite Hs in *. by exists before.
Qed.

(** The scan at [now] answers "stable": the history ends in an unbroken quiet
    run with enough scans, the first of which is at least [stable] old. *)
Definition stable_at (obs : list (bool * Z)) (now required stable : Z) : Prop :=
  ∃ first run, quiet_since obs first run ∧
    Z.max 1 required <= Z.of_nat (length (first :: run)) ∧
    first.2 <= now ∧ stable <= now - first.2.

Lemma win_answer required stable obs q now :
  0 <= required <= UINT32_MAX →
  fst (win_observe (win_run required stable obs win0) q now required stable) = true ↔
  stable_at (obs ++ [(q, now)]) now required stable.
Proof.
  intros Hreq. unfold stable_at. setoid_rewrite quiet_since_suffix.
  rewrite win_run_init, quiet_suffix_snoc. unfold win_observe.
  destruct q; simpl negb; cbn iota; [|split; [done|naive_solver]]. simpl fst.
  assert (Hm : (if required =? 0 then 1 else required) = Z.max 1 required)
    by (destruct (Z.eqb_spec required 0); lia). rewrite Hm.
  destruct (quiet_suffix obs) as [|first rest] eqn:Hs; simpl.
  - rewrite !andb_true_iff, !Z.leb_le. split.
    + intros ((? & ?) & ?). exists (true, now), []. simpl. split_and!; done || lia.
    + intros (f & r & Heq & ? & ? & ?). simplify_eq/=. lia.
  - set (len := Z.of_nat (S (length rest))).
    assert (Hne : (Z.min UINT32_MAX len =? 0) = false)
      by (apply Z.eqb_neq; unfold len; cint).
    rewrite Hne. rewrite !andb_true_iff, !Z.leb_le.
    assert (Hsc : (if negb (Z.min UINT32_MAX len =? UINT32_MAX)
                   then Z.min UINT32_MAX len + 1 else Z.min UINT32_MAX len)
                  = Z.min UINT32_MAX (len + 1))
      by (destruct (Z.eqb_spec (Z.min UINT32_MAX len) UINT32_MAX); simpl; cint).
    rewrite Hsc. split.
    + intros ((? & ?) & ?). exists first, (rest ++ [(true, now)]). simpl.
      rewrite length_app. simpl. split_and!; done || (unfold len in *; cint).
    + intros (f & r & Heq & Hlen & ? & ?). simplify_eq/=.
      rewrite length_app in Hlen. simpl in Hlen. unfold len. split_and!; cint.
Qed.

End window.
