(* ===== verification/Writer.v ===== *)
(** * Writer drain accounting ([src/src/storage_writer.c])

    When may the writer of a channel be declared drained?  The byte and count
    invariant of a drained channel, the stability window over it and the
    decision of the cross-slot writer loop.  [storage_rate_mib_s] (a [double]
    used for display only) is not modelled. *)
From S2P Require Import Prelude Window.

Module storage_writer.
Import window.

Record StorageDrainInvariant : Type := mkInvariant {
  input_complete : bool;
  dma_quiesced : bool;
  dma_harvested_payload_bytes : Z;
  queued_payload_bytes : Z;
  nvme_completed_payload_bytes : Z;
  file_bytes : Z;
  tail_unqueued_bytes : Z;
  completed_unharvested : Z;
  ready_count : Z;
  active_count : Z;
  global_inflight : Z;
  submit_count : Z;
  completion_count : Z;
  ring_occupied_bytes : Z }.

Record StorageDrainStableState : Type := mkStable {
  consecutive_scans : Z;
  empty_since_us : Z }.

Inductive StorageCrossSlotWriterDecision : Type :=
| STORAGE_CROSS_SLOT_WRITER_CONTINUE
| STORAGE_CROSS_SLOT_WRITER_WAIT_FOR_QUEUE
| STORAGE_CROSS_SLOT_WRITER_DRAINED
| STORAGE_CROSS_SLOT_WRITER_QUEUE_ERROR.

Definition storage_drain_invariant_ok (inv : StorageDrainInvariant) : bool :=
  if submit_count inv <? completion_count inv then false
  else if UINT64_MAX - queued_payload_bytes inv <? tail_unqueued_bytes inv then false
  else
    input_complete inv && dma_quiesced inv &&
    (dma_harvested_payload_bytes inv =?
       u64 (queued_payload_bytes inv + tail_unqueued_bytes inv)) &&
    (queued_payload_bytes inv =? nvme_completed_payload_bytes inv) &&
    (nvme_completed_payload_bytes inv =? file_bytes inv) &&
    (completed_unharvested inv =? 0) && (ready_count inv =? 0) &&
    (active_count inv =? 0) && (global_inflight inv =? 0) &&
    (submit_count inv =? completion_count inv) && (ring_occupied_bytes inv =? 0).

Definition storage_drain_stable_init : StorageDrainStableState := mkStable 0 0.

Definition storage_drain_stable_observe (state : StorageDrainStableState)
    (inv : StorageDrainInvariant) (now_us required_scans stable_us : Z)
  : bool * StorageDrainStableState :=
  if negb (storage_drain_invariant_ok inv) then (false, storage_drain_stable_init)
  else
    let required_scans := if required_scans =? 0 then 1 else required_scans in
    let since := if consecutive_scans state =? 0 then now_us else empty_since_us state in
    let scans := if negb (consecutive_scans state =? UINT32_MAX)
                 then u32 (consecutive_scans state + 1) else consecutive_scans state in
    ((required_scans <=? scans) && (since <=? now_us) &&
     (stable_us <=? now_us - since), mkStable scans since).

Definition storage_cross_slot_writer_decide (producer_done : bool) (queue_count : Z)
    (queue_error : bool) (engine_active engine_inflight : Z)
  : StorageCrossSlotWriterDecision :=
  if queue_error then STORAGE_CROSS_SLOT_WRITER_QUEUE_ERROR
  else if negb (queue_count =? 0) || negb (engine_active =? 0) || negb (engine_inflight =? 0)
  then STORAGE_CROSS_SLOT_WRITER_CONTINUE
  else if producer_done then STORAGE_CROSS_SLOT_WRITER_DRAINED
  else STORAGE_CROSS_SLOT_WRITER_WAIT_FOR_QUEUE.

(** ** What a drained channel means *)

(** The C types of the fields. *)
Definition inv_typed (inv : StorageDrainInvariant) : Prop :=
  is_u64 (dma_harvested_payload_bytes inv) ∧ is_u64 (queued_payload_bytes inv) ∧
  is_u64 (tail_unqueued_bytes inv).

(** The drain invariant is exactly byte conservation.  On values of their C
    types the check accepts if and only if the input is complete, the DMA is
    quiesced, nothing is left in any stage (descriptors, ready queue, active
    slots, in-flight commands, ring), every submitted command has completed,
    and - as integers, with no wrap-around - every harvested byte is either in
    the file or counted as an unqueued tail. *)
Theorem drain_invariant_is_conservation :
  ∀ inv : StorageDrainInvariant, inv_typed inv →
    storage_drain_invariant_ok inv = true ↔
    input_complete inv = true ∧ dma_quiesced inv = true ∧
    completed_unharvested inv = 0 ∧ ready_count inv = 0 ∧ active_count inv = 0 ∧
    global_inflight inv = 0 ∧ ring_occupied_bytes inv = 0 ∧
    submit_count inv = completion_count inv ∧
    queued_payload_bytes inv = file_bytes inv ∧
    nvme_completed_payload_bytes inv = file_bytes inv ∧
    dma_harvested_payload_bytes inv = file_bytes inv + tail_unqueued_bytes inv.
Proof.
  intros inv (Hh & Hq & Ht). unfold storage_drain_invariant_ok.
  destruct (Z.ltb_spec (submit_count inv) (completion_count inv)).
  { split; [done|]. intros H'. destruct_and! H'. lia. }
  destruct (Z.ltb_spec (UINT64_MAX - queued_payload_bytes inv) (tail_unqueued_bytes inv)).
  { split; [done|]. intros H'. destruct_and! H'. cint. }
  rewrite (u64_small (_ + _)) by cint.
  rewrite !andb_true_iff, !Z.eqb_eq. split; intros H'; destruct_and! H';
    split_and!; try done; congruence || lia.
Qed.

Definition witness_inv : StorageDrainInvariant :=
  mkInvariant true true 4608 4096 4096 4096 512 0 0 0 0 8 8 0.

Lemma drain_invariant_is_conservation_witness :
  inv_typed witness_inv ∧
  (storage_drain_invariant_ok witness_inv = true ↔
   input_complete witness_inv = true ∧ dma_quiesced witness_inv = true ∧
   completed_unharvested witness_inv = 0 ∧ ready_count witness_inv = 0 ∧
   active_count witness_inv = 0 ∧ global_inflight witness_inv = 0 ∧
   ring_occupied_bytes witness_inv = 0 ∧
   submit_count witness_inv = completion_count witness_inv ∧
   queued_payload_bytes witness_inv = file_bytes witness_inv ∧
   nvme_completed_payload_bytes witness_inv = file_bytes witness_inv ∧
   dma_harvested_payload_bytes witness_inv
     = file_bytes witness_inv + tail_unqueued_bytes witness_inv).
Proof.
  assert (H : inv_typed witness_inv) by (repeat split; vm_compute; congruence).
  split; [exact H|]. exact (drain_invariant_is_conservation witness_inv H).
Defined.

(** ** The stability window *)

Definition to_win (st : StorageDrainStableState) : win :=
  mkWin (consecutive_scans st) (empty_since_us st).

Lemma drain_observe_win st inv now required stable :
  is_u32 (consecutive_scans st) →
  let '(b, st') := storage_drain_stable_observe st inv now required stable in
  (b, to_win st') =
    win_observe (to_win st) (storage_drain_invariant_ok inv) now required stable ∧
  is_u32 (consecutive_scans st').
Proof.
  intros Hs. unfold storage_drain_stable_observe, win_observe, to_win.
  destruct (storage_drain_invariant_ok inv); simpl; [|split; [done|cint]].
  destruct (Z.eqb_spec (consecutive_scans st) UINT32_MAX); simpl.
  - split; [done|]. cint.
  - rewrite u32_small by cint. split; [done|]. cint.
Qed.

(** The history of scans of one drain: invariant snapshots with their times. *)
Definition drain_history (required stable : Z) (obs : list (StorageDrainInvariant * Z))
  : StorageDrainStableState :=
  foldl (λ st '(inv, now), snd (storage_drain_stable_observe st inv now required stable))
    storage_drain_stable_init obs.

Definition scan_quiet (o : StorageDrainInvariant * Z) : bool * Z :=
  (storage_drain_invariant_ok o.1, o.2).

Lemma drain_history_win required stable obs :
  to_win (drain_history required stable obs)
    = win_run required stable (scan_quiet <$> obs) win0 ∧
  is_u32 (consecutive_scans (drain_history required stable obs)).
Proof.
  induction obs as [|[inv now] obs [IH Hu]] using rev_ind; [split; [done|simpl; cint]|].
  unfold drain_history, win_run. rewrite fmap_app, !foldl_app. simpl.
  pose proof (drain_observe_win (drain_history required stable obs) inv now required stable Hu)
    as Hw. unfold drain_history, win_run in *.
  destruct (storage_drain_stable_observe _ _ _ _ _) as [b st']. simpl.
  destruct Hw as [Hw ?]. rewrite IH in Hw. by rewrite <- Hw.
Qed.

(** the drain stability window is sound and complete.  After any history of
    scans, the scan at [now] reports "stable" exactly when the drain invariant
    holds now and at the scans before it back to some first one, that unbroken
    run has at least the required number of scans (at least one), and the first
    of them is at least [stable_us] old. *)
Theorem drain_stable_window :
  ∀ (obs : list (StorageDrainInvariant * Z)) (inv : StorageDrainInvariant)
    (now required stable : Z),
    0 <= required <= UINT32_MAX →
    fst (storage_drain_stable_observe (drain_history required stable obs)
           inv now required stable) = true ↔
    stable_at (scan_quiet <$> (obs ++ [(inv, now)])) now required stable.
Proof.
  intros obs inv now required stable Hreq.
  destruct (drain_history_win required stable obs) as [Hh Hu].
  pose proof (drain_observe_win _ inv now required stable Hu) as Hw.
  destruct (storage_drain_stable_observe _ _ _ _ _) as [b st']. destruct Hw as [Hw _].
  rewrite Hh in Hw. simpl fst.
  assert (Hb : b = fst (b, to_win st')) by done. rewrite Hb, Hw.
  rewrite fmap_app. by apply win_answer.
Qed.

Definition witness_scans : list (StorageDrainInvariant * Z) :=
  [(witness_inv, 100); (witness_inv, 200)].

Lemma drain_stable_window_witness :
  (0 <= 3 <= UINT32_MAX) ∧
  fst (storage_drain_stable_observe (drain_history 3 100 witness_scans)
         witness_inv 250 3 100) = true ∧
  stable_at (scan_quiet <$> (witness_scans ++ [(witness_inv, 250)])) 250 3 100.
Proof.
  assert (H : 0 <= 3 <= UINT32_MAX) by cint. split; [exact H|].
  split; [reflexivity|].
  apply (drain_stable_window witness_scans witness_inv 250 3 100 H). reflexivity.
Defined.

End storage_writer.
