(* ===== verification/Stop.v ===== *)
(** * The stop protocol ([src/src/storage_stop.c])

    Stopping a capture without losing data: the linear stop phases, the
    once-only DMA quiesce, the stable-empty harvest window, the input-idle
    detector that starts an automatic drain and the disposition of the last,
    possibly unaligned, payload. *)
From S2P Require Import Prelude Window.

Module storage_stop.
Import window.

Inductive StorageStopPhase : Type :=
| STORAGE_STOP_NONE
| STORAGE_STOP_REQUESTED
| STORAGE_STOP_WAIT_BOUNDARY
| STORAGE_STOP_DMA_QUIESCING
| STORAGE_STOP_HARVESTING
| STORAGE_STOP_PRODUCER_DONE
| STORAGE_STOP_WRITER_DRAINING
| STORAGE_STOP_FINALIZING
| STORAGE_STOP_FINISHED
| STORAGE_STOP_FAILED.
#[export] Instance StorageStopPhase_eq_dec : EqDecision StorageStopPhase.
Proof. solve_decision. Defined.

Definition phase_rank (p : StorageStopPhase) : Z :=
  match p with
  | STORAGE_STOP_NONE => 0 | STORAGE_STOP_REQUESTED => 1
  | STORAGE_STOP_WAIT_BOUNDARY => 2 | STORAGE_STOP_DMA_QUIESCING => 3
  | STORAGE_STOP_HARVESTING => 4 | STORAGE_STOP_PRODUCER_DONE => 5
  | STORAGE_STOP_WRITER_DRAINING => 6 | STORAGE_STOP_FINALIZING => 7
  | STORAGE_STOP_FINISHED => 8 | STORAGE_STOP_FAILED => 9
  end.

Record StorageDmaQuiesceState : Type := mkQuiesce {
  drain_epoch : Z;
  started : bool;
  finished : bool;
  result : Z }.

Record StorageStopState : Type := mkStop {
  state : StorageStopPhase;
  deadline_us : Z;
  quiesce : StorageDmaQuiesceState }.
#[export] Instance eta_Stop : EtaOf StorageStopState := λ s,
  mkStop (state s) (deadline_us s) (quiesce s).

Definition STORAGE_DMA_QUIESCE_WAIT_MAX_US : Z := 250000.

Definition storage_dma_quiesce_wait_us (configured_timeout_us : Z) : Z :=
  if (configured_timeout_us =? 0) ||
     (STORAGE_DMA_QUIESCE_WAIT_MAX_US <? configured_timeout_us)
  then STORAGE_DMA_QUIESCE_WAIT_MAX_US else configured_timeout_us.

Definition quiesce_init : StorageDmaQuiesceState := mkQuiesce 0 false false 0.

Definition storage_stop_state_init : StorageStopState :=
  mkStop STORAGE_STOP_NONE 0 quiesce_init.

(** The callback is an effect on the hardware world [W]; [None] is NULL. *)
Definition storage_dma_quiesce_once {W} (st : StorageDmaQuiesceState) (epoch : Z)
    (callback : option (Eff W Z)) : Eff W (Z * StorageDmaQuiesceState) :=
  match callback with
  | None => eret (-1, st)
  | Some f =>
    if epoch =? 0 then eret (-1, st)
    else if started st then
      if negb (drain_epoch st =? epoch) || negb (finished st)
      then eret (-1, st) else eret (result st, st)
    else
      let! r := f in
      eret (r, mkQuiesce epoch true true r)
  end.

Definition storage_stop_state_latch (st : StorageStopState) (deadline : Z)
  : bool * StorageStopState :=
  if negb (bool_decide (state st = STORAGE_STOP_NONE)) then (false, st)
  else (true, st <| state := STORAGE_STOP_REQUESTED |> <| deadline_us := deadline |>).

Definition storage_stop_state_advance (st : StorageStopState) (next : StorageStopPhase)
  : Z * StorageStopState :=
  if bool_decide (state st = STORAGE_STOP_FAILED) ||
     negb (phase_rank next =? phase_rank (state st) + 1) ||
     (phase_rank STORAGE_STOP_FINISHED <? phase_rank next)
  then (-1, st) else (0, st <| state := next |>).

Definition storage_stop_state_fail (st : StorageStopState) : StorageStopState :=
  st <| state := STORAGE_STOP_FAILED |>.

Definition storage_stop_state_expired (st : StorageStopState) (now_us : Z) : bool :=
  negb (bool_decide (state st = STORAGE_STOP_NONE)) && negb (deadline_us st =? 0) &&
  (deadline_us st <=? now_us).

Definition storage_stop_boundary_should_quiesce (st : StorageStopState)
    (rx_packet_open : bool) (now_us : Z) : bool :=
  bool_decide (state st = STORAGE_STOP_WAIT_BOUNDARY) &&
  (negb rx_packet_open || storage_stop_state_expired st now_us).

(** ** Harvest window *)
Record StorageStopHarvestState : Type := mkHarvest {
  consecutive_empty_scans : Z;
  empty_since_us : Z }.

Definition storage_stop_harvest_state_init : StorageStopHarvestState := mkHarvest 0 0.

Definition storage_stop_harvest_observe (st : StorageStopHarvestState)
    (dma_quiesced : bool) (harvested_count completed_unharvested : Z)
    (rx_packet_open : bool) (now_us required_empty_scans stable_window_us : Z)
  : bool * StorageStopHarvestState :=
  if negb dma_quiesced || negb (harvested_count =? 0) ||
     negb (completed_unharvested =? 0) || rx_packet_open
  then (false, storage_stop_harvest_state_init)
  else
    let required := if required_empty_scans =? 0 then 1 else required_empty_scans in
    let since := if consecutive_empty_scans st =? 0 then now_us else empty_since_us st in
    let scans := if negb (consecutive_empty_scans st =? UINT32_MAX)
                 then u32 (consecutive_empty_scans st + 1)
                 else consecutive_empty_scans st in
    ((required <=? scans) && (since <=? now_us) &&
     (stable_window_us <=? now_us - since), mkHarvest scans since).

(** ** Input-idle detector *)
Inductive StorageInputIdleEvent : Type :=
| STORAGE_INPUT_IDLE_NO_CHANGE
| STORAGE_INPUT_IDLE_CANDIDATE
| STORAGE_INPUT_ACTIVE.
#[export] Instance StorageInputIdleEvent_eq_dec : EqDecision StorageInputIdleEvent.
Proof. solve_decision. Defined.

Record StorageInputIdleState : Type := mkIdle {
  first_data_seen : bool;
  candidate : bool;
  last_dma_activity_us : Z;
  dma_observed_bytes : Z;
  completed_descriptor_count : Z;
  idle_since_us : Z;
  idle_scan_count : Z }.
#[export] Instance eta_Idle : EtaOf StorageInputIdleState := λ s,
  mkIdle (first_data_seen s) (candidate s) (last_dma_activity_us s)
    (dma_observed_bytes s) (completed_descriptor_count s) (idle_since_us s)
    (idle_scan_count s).

Definition storage_input_idle_init : StorageInputIdleState :=
  mkIdle false false 0 0 0 0 0.

Definition storage_input_idle_observe (st : StorageInputIdleState)
    (now_us bytes descs : Z) (rx_packet_open dma_error : bool)
    (required_idle_us required_scans : Z)
  : StorageInputIdleEvent * StorageInputIdleState :=
  let activity := negb (bytes =? dma_observed_bytes st) ||
                  negb (descs =? completed_descriptor_count st) || rx_packet_open in
  let was_candidate := candidate st in
  let st1 := st <| first_data_seen ::=
                     λ b, b || negb (bytes =? 0) || negb (descs =? 0) |>
                <| dma_observed_bytes := bytes |>
                <| completed_descriptor_count := descs |> in
  if activity || dma_error || negb (first_data_seen st1) then
    let st2 := if activity then st1 <| last_dma_activity_us := now_us |> else st1 in
    (if was_candidate && activity then STORAGE_INPUT_ACTIVE
     else STORAGE_INPUT_IDLE_NO_CHANGE,
     st2 <| candidate := false |> <| idle_since_us := 0 |> <| idle_scan_count := 0 |>)
  else
    let st2 := if last_dma_activity_us st1 =? 0
               then st1 <| last_dma_activity_us := now_us |> else st1 in
    if (now_us <? last_dma_activity_us st2) ||
       (now_us - last_dma_activity_us st2 <? required_idle_us)
    then (STORAGE_INPUT_IDLE_NO_CHANGE,
          st2 <| idle_since_us := 0 |> <| idle_scan_count := 0 |>)
    else
      let required := if required_scans =? 0 then 1 else required_scans in
      let st3 := if idle_scan_count st2 =? 0
                 then st2 <| idle_since_us := now_us |> else st2 in
      let st4 := if negb (idle_scan_count st3 =? UINT32_MAX)
                 then st3 <| idle_scan_count ::= λ n, u32 (n + 1) |> else st3 in
      if negb (candidate st4) && (required <=? idle_scan_count st4)
      then (STORAGE_INPUT_IDLE_CANDIDATE, st4 <| candidate := true |>)
      else (STORAGE_INPUT_IDLE_NO_CHANGE, st4).

(** ** Tail disposition *)
Inductive StorageStopTailDisposition : Type :=
| STORAGE_STOP_TAIL_QUEUE
| STORAGE_STOP_TAIL_DEFER_UNALIGNED
| STORAGE_STOP_TAIL_DEFER_LATE.

(** [stop_active] is ignored, as in the code. *)
Definition storage_stop_tail_disposition (stop_active tail_already_seen : bool)
    (payload_bytes media_bytes : Z) (padding_coherent : bool)
  : StorageStopTailDisposition :=
  if (payload_bytes =? 0) || (media_bytes =? payload_bytes) || padding_coherent
  then STORAGE_STOP_TAIL_QUEUE
  else if media_bytes <? payload_bytes then STORAGE_STOP_TAIL_DEFER_LATE
  else if tail_already_seen then STORAGE_STOP_TAIL_DEFER_LATE
  else STORAGE_STOP_TAIL_DEFER_UNALIGNED.

(** ** Quiesce at most once *)
Section quiesce.
Context {W : Type}.

Fixpoint quiesce_calls (st : StorageDmaQuiesceState)
    (calls : list (Z * option (Eff W Z))) (w : W)
  : list Z * StorageDmaQuiesceState * W :=
  match calls with
  | [] => ([], st, w)
  | (epoch, cb) :: rest =>
    let '(rc, st1, w1) := storage_dma_quiesce_once st epoch cb w in
    let '(rcs, st2, w2) := quiesce_calls st1 rest w1 in (rc :: rcs, st2, w2)
  end.

(** The first call with a non-zero epoch and a callback. *)
Fixpoint first_valid (calls : list (Z * option (Eff W Z))) : option (Z * Eff W Z) :=
  match calls with
  | [] => None
  | (epoch, Some f) :: rest => if epoch =? 0 then first_valid rest else Some (epoch, f)
  | (_, None) :: rest => first_valid rest
  end.

Lemma first_valid_epoch calls e f : first_valid calls = Some (e, f) → e ≠ 0.
Proof.
  induction calls as [|[e' [g|]] calls IH]; simpl; try done.
  destruct (Z.eqb_spec e' 0); [done|]. by intros [= <- _].
Qed.

Definition same_epoch (e : Z) (call : Z * option (Eff W Z)) : bool :=
  (call.1 =? e) && (match call.2 with Some _ => true | None => false end).

Lemma quiesce_calls_done calls : ∀ e r (w : W),
  e ≠ 0 →
  quiesce_calls (mkQuiesce e true true r) calls w =
  ((λ c, if same_epoch e c then r else -1) <$> calls, mkQuiesce e true true r, w).
Proof.
  induction calls as [|[e' [f|]] calls IH]; intros e r w He; [done| |];
    simpl; unfold same_epoch; simpl.
  - rewrite (Z.eqb_sym e' e). destruct (Z.eqb_spec e' 0) as [->|He'].
    + destruct (Z.eqb_spec e 0); [done|]. unfold eret. by rewrite IH.
    + destruct (Z.eqb_spec e e'); unfold eret; simpl; by rewrite IH.
  - unfold eret. rewrite IH by done. by rewrite andb_false_r.
Qed.

(** The hardware is quiesced at most once per stop state.  Over any
    sequence of calls, with any epochs and any callbacks, only the callback of
    the first valid call is ever run, exactly once; every later call with the
    same epoch returns that first result, and every other call returns -1
    without touching the hardware. *)
Theorem quiesce_runs_once :
  ∀ (calls : list (Z * option (Eff W Z))) (w : W),
    let '(rcs, st, w') := quiesce_calls quiesce_init calls w in
    match first_valid calls with
    | None => w' = w ∧ rcs = ((λ _, -1) <$> calls) ∧ st = quiesce_init
    | Some (e, f) =>
        w' = snd (f w) ∧
        rcs = ((λ c, if same_epoch e c then fst (f w) else -1) <$> calls) ∧
        st = mkQuiesce e true true (fst (f w))
    end.
Proof.
  intros calls. induction calls as [|[e [f|]] calls IH]; intros w; [done| |]; simpl.
  - destruct (Z.eqb_spec e 0) as [->|He].
    + unfold eret. specialize (IH w).
      destruct (quiesce_calls quiesce_init calls w) as [[rcs st] w'].
      destruct (first_valid calls) as [[e' f']|] eqn:Hf; [|naive_solver].
      destruct IH as (-> & -> & ->). split_and!; [done| |done].
      unfold same_epoch at 2. simpl. apply first_valid_epoch in Hf.
      by destruct e'.
    + unfold ebind, eret. destruct (f w) as [r w1] eqn:Hfw. simpl.
      rewrite quiesce_calls_done by done. split_and!; [done| |done].
      unfold same_epoch at 2. simpl. by rewrite Z.eqb_refl.
  - unfold eret. specialize (IH w).
    destruct (quiesce_calls quiesce_init calls w) as [[rcs st] w'].
    destruct (first_valid calls) as [[e' f']|]; [|naive_solver].
    destruct IH as (-> & -> & ->). split_and!; [done| |done].
    unfold same_epoch at 2. simpl. by rewrite andb_false_r.
Qed.
End quiesce.

Definition witness_calls : list (Z * option (Eff nat Z)) :=
  [(0, Some (λ n, (7, S n))); (5, Some (λ n, (0, S n))); (5, Some (λ n, (-1, S n)));
   (6, Some (λ n, (-1, S n)))].
Example quiesce_example :
  quiesce_calls quiesce_init witness_calls 0%nat
  = ([-1; 0; 0; -1], mkQuiesce 5 true true 0, 1%nat).
Proof. reflexivity. Qed.

(** ** The stop phases *)
Inductive stop_op : Type :=
| StopLatch (deadline : Z)
| StopAdvance (next : StorageStopPhase)
| StopFail.

Definition stop_step (s : StorageStopState) (op : stop_op) : bool * StorageStopState :=
  match op with
  | StopLatch d => storage_stop_state_latch s d
  | StopAdvance n =>
      let '(rc, s') := storage_stop_state_advance s n in (rc =? 0, s')
  | StopFail => (false, storage_stop_state_fail s)
  end.

(** The final state and the number of accepted latches and advances. *)
Fixpoint stop_run (s : StorageStopState) (ops : list stop_op) : Z * StorageStopState :=
  match ops with
  | [] => (0, s)
  | op :: rest =>
    let '(ok, s1) := stop_step s op in
    let '(n, s2) := stop_run s1 rest in ((if ok : bool then 1 else 0) + n, s2)
  end.

Lemma stop_step_cases s op :
  let '(ok, s') := stop_step s op in
  (ok = true ∧ state s ≠ STORAGE_STOP_FAILED ∧ state s' ≠ STORAGE_STOP_FAILED ∧
   phase_rank (state s') = phase_rank (state s) + 1) ∨
  (ok = false ∧ s' = s) ∨
  (ok = false ∧ state s' = STORAGE_STOP_FAILED).
Proof.
  destruct op as [d|n|]; simpl.
  - unfold storage_stop_state_latch.
    destruct (bool_decide_reflect (state s = STORAGE_STOP_NONE)) as [He|]; simpl; [left|by right; left].
    rewrite He. done.
  - unfold storage_stop_state_advance.
    destruct (bool_decide_reflect (state s = STORAGE_STOP_FAILED)) as [He|He]; [by right; left|].
    destruct (Z.eqb_spec (phase_rank n) (phase_rank (state s) + 1)); [|by right; left].
    destruct (Z.ltb_spec (phase_rank STORAGE_STOP_FINISHED) (phase_rank n));
      [by right; left|]. left. split_and!; try done. simpl. intros ->. simpl in *. lia.
  - by right; right.
Qed.

Lemma failed_absorbing ops : ∀ s,
  state s = STORAGE_STOP_FAILED → stop_run s ops = (0, s).
Proof.
  induction ops as [|op ops IH]; intros s Hs; [done|]. simpl.
  destruct op as [d|n|]; simpl.
  - unfold storage_stop_state_latch. rewrite bool_decide_eq_false_2 by congruence. simpl.
    by rewrite (IH s Hs).
  - unfold storage_stop_state_advance. rewrite bool_decide_eq_true_2 by done. simpl.
    by rewrite (IH s Hs).
  - replace (storage_stop_state_fail s) with s by (destruct s; simpl in *; by subst).
    by rewrite (IH s Hs).
Qed.

Lemma stop_run_rank ops : ∀ s,
  let '(n, s') := stop_run s ops in
  state s' = STORAGE_STOP_FAILED ∨ phase_rank (state s') = phase_rank (state s) + n.
Proof.
  induction ops as [|op ops IH]; intros s; simpl; [right; lia|].
  pose proof (stop_step_cases s op) as Hc. destruct (stop_step s op) as [ok s1].
  specialize (IH s1). destruct Hc as [(-> & _ & _ & Hr)|[(-> & ->)|(-> & Hf)]].
  - destruct (stop_run s1 ops) as [n s2]. destruct IH; [by left|right; lia].
  - destruct (stop_run s ops) as [n s2]. destruct IH; [by left|right; lia].
  - rewrite failed_absorbing by done. by left.
Qed.

(** the stop phases are passed one by one.  Whatever calls are made on a
    fresh stop state, a stop that has not failed is in the phase whose number
    is the number of accepted calls - no phase is skipped or repeated, FINISHED
    is reached only after exactly eight accepted steps - and a failed stop
    accepts nothing any more. *)
Theorem stop_phases_linear :
  ∀ (ops more : list stop_op),
    let '(n, s) := stop_run storage_stop_state_init ops in
    (state s ≠ STORAGE_STOP_FAILED → phase_rank (state s) = n) ∧
    (state s = STORAGE_STOP_FINISHED → n = 8) ∧
    (state s = STORAGE_STOP_FAILED → stop_run s more = (0, s)).
Proof.
  intros ops more. pose proof (stop_run_rank ops storage_stop_state_init) as Hr.
  destruct (stop_run _ ops) as [n s]. simpl in Hr. split_and!.
  - intros Hne. destruct Hr; [done|lia].
  - intros Hf. destruct Hr as [Hr|Hr]; [congruence|]. rewrite Hf in Hr. simpl in Hr. lia.
  - intros Hf. by apply failed_absorbing.
Qed.

(** ** The harvest window *)
Record harvest_scan : Type := mkScan {
  sc_quiesced : bool;
  sc_harvested : Z;
  sc_unharvested : Z;
  sc_open : bool;
  sc_now : Z }.

Definition harvest_history (required stable : Z) (obs : list harvest_scan)
  : StorageStopHarvestState :=
  foldl (λ st o, snd (storage_stop_harvest_observe st (sc_quiesced o) (sc_harvested o)
                        (sc_unharvested o) (sc_open o) (sc_now o) required stable))
    storage_stop_harvest_state_init obs.

(** A scan is empty: DMA quiesced, nothing harvested, nothing left, no open packet. *)
Definition scan_empty (o : harvest_scan) : bool :=
  sc_quiesced o && (sc_harvested o =? 0) && (sc_unharvested o =? 0) && negb (sc_open o).

Definition scan_obs (o : harvest_scan) : bool * Z := (scan_empty o, sc_now o).

Definition to_win (st : StorageStopHarvestState) : win :=
  mkWin (consecutive_empty_scans st) (empty_since_us st).

Lemma harvest_observe_win st o required stable :
  is_u32 (consecutive_empty_scans st) →
  let '(b, st') := storage_stop_harvest_observe st (sc_quiesced o) (sc_harvested o)
                     (sc_unharvested o) (sc_open o) (sc_now o) required stable in
  (b, to_win st') = win_observe (to_win st) (scan_empty o) (sc_now o) required stable ∧
  is_u32 (consecutive_empty_scans st').
Proof.
  intros Hs. unfold storage_stop_harvest_observe, win_observe, to_win, scan_empty.
  destruct o as [q h u op now]. simpl.
  destruct q, (h =? 0), (u =? 0), op; simpl; try (split; [done|cint]).
  destruct (Z.eqb_spec (consecutive_empty_scans st) UINT32_MAX); simpl.
  - split; [done|cint].
  - rewrite u32_small by cint. split; [done|cint].
Qed.

Lemma harvest_history_win required stable obs :
  to_win (harvest_history required stable obs)
    = win_run required stable (scan_obs <$> obs) win0 ∧
  is_u32 (consecutive_empty_scans (harvest_history required stable obs)).
Proof.
  induction obs as [|o obs [IH Hu]] using rev_ind; [split; [done|simpl; cint]|].
  unfold harvest_history, win_run. rewrite fmap_app, !foldl_app. simpl.
  pose proof (harvest_observe_win (harvest_history required stable obs) o required stable Hu)
    as Hw. unfold harvest_history, win_run in *.
  destruct (storage_stop_harvest_observe _ _ _ _ _ _ _ _) as [b st']. simpl.
  destruct Hw as [Hw ?]. rewrite IH in Hw.
  change (scan_obs o) with (scan_empty o, sc_now o). simpl. by rewrite <- Hw.
Qed.

(** The harvest of a stop ends only in a stable-empty window.  After any
    history of scans, the harvest is declared finished at a scan exactly when
    this scan and the unbroken run of scans before it were all empty on a
    quiesced DMA with no packet open, the run has the required number of scans,
    and its first scan is at least the stable window old. *)
Theorem harvest_stable_window :
  ∀ (obs : list harvest_scan) (o : harvest_scan) (required stable : Z),
    0 <= required <= UINT32_MAX →
    fst (storage_stop_harvest_observe (harvest_history required stable obs)
           (sc_quiesced o) (sc_harvested o) (sc_unharvested o) (sc_open o) (sc_now o)
           required stable) = true ↔
    stable_at (scan_obs <$> (obs ++ [o])) (sc_now o) required stable.
Proof.
  intros obs o required stable Hreq.
  destruct (harvest_history_win required stable obs) as [Hh Hu].
  pose proof (harvest_observe_win _ o required stable Hu) as Hw.
  destruct (storage_stop_harvest_observe _ _ _ _ _ _ _ _) as [b st']. destruct Hw as [Hw _].
  rewrite Hh in Hw. simpl fst. rewrite fmap_app.
  rewrite <- (win_answer required stable (scan_obs <$> obs) (scan_empty o) (sc_now o) Hreq).
  by rewrite <- Hw.
Qed.

Definition witness_scan (now : Z) : harvest_scan := mkScan true 0 0 false now.

Lemma harvest_stable_window_witness :
  (0 <= 2 <= UINT32_MAX) ∧
  fst (storage_stop_harvest_observe (harvest_history 2 100 [witness_scan 10])
         true 0 0 false 110 2 100) = true ∧
  stable_at (scan_obs <$> ([witness_scan 10] ++ [witness_scan 110])) 110 2 100.
Proof.
  assert (H : 0 <= 2 <= UINT32_MAX) by cint. split; [exact H|]. split; [reflexivity|].
  apply (harvest_stable_window [witness_scan 10] (witness_scan 110) 2 100 H). reflexivity.
Defined.

(** ** Input idleness *)
Record idle_obs : Type := mkIdleObs {
  io_now : Z; io_bytes : Z; io_descs : Z; io_open : bool; io_error : bool }.

Definition idle_history (required_idle required_scans : Z) (obs : list idle_obs)
  : StorageInputIdleState :=
  foldl (λ st o, snd (storage_input_idle_observe st (io_now o) (io_bytes o) (io_descs o)
                        (io_open o) (io_error o) required_idle required_scans))
    storage_input_idle_init obs.

(** Nothing has moved since [act]: same counters, no packet open. *)
Definition unmoved (act o : idle_obs) : Prop :=
  io_bytes o = io_bytes act ∧ io_descs o = io_descs act ∧ io_open o = false.
Definition idle_scan (required_idle : Z) (act o : idle_obs) : Prop :=
  io_error o = false ∧ io_now act + required_idle <= io_now o.
Definition saw_data (o : idle_obs) : Prop := io_bytes o ≠ 0 ∨ io_descs o ≠ 0.

(** [quiet_tail hist act run]: the history ends in activity [act], a silence and
    the idle scans [run]. *)
Definition quiet_tail (required_idle : Z) (hist : list idle_obs) (act : idle_obs)
    (run : list idle_obs) : Prop :=
  ∃ before mid, hist = before ++ act :: mid ++ run ∧
    Forall (unmoved act) (mid ++ run) ∧ Forall (idle_scan required_idle act) run.

Record idle_inv (required_idle : Z) (hist : list idle_obs) (st : StorageInputIdleState)
    : Prop := {
  ii_unseen : first_data_seen st = false →
    dma_observed_bytes st = 0 ∧ completed_descriptor_count st = 0;
  ii_count : is_u32 (idle_scan_count st);
  ii_seen : first_data_seen st = true → Exists saw_data hist ∧
    ∃ act run, quiet_tail required_idle hist act run ∧
      last_dma_activity_us st = io_now act ∧
      dma_observed_bytes st = io_bytes act ∧
      completed_descriptor_count st = io_descs act ∧
      idle_scan_count st <= Z.of_nat (length run) }.

Lemma quiet_tail_restart ri hist o : quiet_tail ri (hist ++ [o]) o [].
Proof. exists hist, []. done. Qed.

Lemma quiet_tail_silence ri hist act run o :
  quiet_tail ri hist act run → unmoved act o → quiet_tail ri (hist ++ [o]) act [].
Proof.
  intros (before & mid & -> & Hu & _) Ho. exists before, ((mid ++ run) ++ [o]).
  split_and!; [|apply Forall_app; split; [apply Forall_app; by rewrite Forall_singleton|done]|done].
  rewrite app_nil_r, <- !app_assoc. simpl. by rewrite <- !app_assoc.
Qed.

Lemma quiet_tail_scan ri hist act run o :
  quiet_tail ri hist act run → unmoved act o → idle_scan ri act o →
  quiet_tail ri (hist ++ [o]) act (run ++ [o]).
Proof.
  intros (before & mid & -> & Hu & Hs) Ho Hi. exists before, mid. split_and!.
  - rewrite <- !app_assoc. simpl. by rewrite <- !app_assoc.
  - rewrite app_assoc, Forall_app, Forall_singleton. done.
  - rewrite Forall_app, Forall_singleton. done.
Qed.

Lemma quiet_tail_act_in ri hist act run : quiet_tail ri hist act run → act ∈ hist.
Proof. intros (before & mid & -> & _). set_solver. Qed.

Definition moved (st : StorageInputIdleState) (o : idle_obs) : bool :=
  negb (io_bytes o =? dma_observed_bytes st) ||
  negb (io_descs o =? completed_descriptor_count st) || io_open o.

Lemma moved_false st o act :
  moved st o = false → dma_observed_bytes st = io_bytes act →
  completed_descriptor_count st = io_descs act → unmoved act o.
Proof.
  unfold moved, unmoved. intros Hm Hb Hd.
  destruct (Z.eqb_spec (io_bytes o) (dma_observed_bytes st)); [|done].
  destruct (Z.eqb_spec (io_descs o) (completed_descriptor_count st)); [|done].
  simpl in Hm. split_and!; congruence.
Qed.

(** What the detector requires before it answers CANDIDATE. *)
Lemma idle_observe_inv ri rs hist st o :
  is_u32 rs → Forall (λ p, 0 < io_now p) hist → idle_inv ri hist st →
  let '(ev, st') := storage_input_idle_observe st (io_now o) (io_bytes o) (io_descs o)
                      (io_open o) (io_error o) ri rs in
  idle_inv ri (hist ++ [o]) st' ∧
  (ev = STORAGE_INPUT_IDLE_CANDIDATE →
     first_data_seen st' = true ∧ Z.max 1 rs <= idle_scan_count st').
Proof.
  intros Hrs Hpos [Hun Hcnt Hseen].
  unfold storage_input_idle_observe. fold (moved st o).
  destruct (moved st o) eqn:Hm.
  - (* activity *)
    rec_simpl. split; [|by destruct (candidate st)]. split; simpl; [|cint|].
    + intros Hf. lia.
    + intros Hf. split.
      * apply Exists_app. destruct (first_data_seen st); [left; by apply Hseen|right].
        apply Exists_cons. left. unfold saw_data. simpl in Hf. lia.
      * exists o, []. split; [apply quiet_tail_restart|done].
  - assert (Hobs : io_bytes o = dma_observed_bytes st ∧
                   io_descs o = completed_descriptor_count st ∧ io_open o = false).
    { unfold moved in Hm. lia. }
    destruct Hobs as (Hb & Hd & Ho). rec_simpl.
    assert (Hsd : first_data_seen st || negb (io_bytes o =? 0) || negb (io_descs o =? 0)
                  = first_data_seen st).
    { destruct (first_data_seen st); [done|]. destruct Hun as [? ?]; [done|].
      simpl. lia. }
    rewrite Hsd.
    destruct (first_data_seen st) eqn:Hs; simpl.
    2: { rewrite orb_true_r. simpl. destruct (candidate st); simpl;
         (split; [|done]); split; simpl; try done; try cint;
         intros _; destruct Hun as [? ?]; try done; lia. }
    destruct Hseen as (Hex & act & run & Hq & Hl & Hab & Had & Hc); [done|].
    assert (Hun' : unmoved act o) by (by apply (moved_false st)).
    assert (Hex' : Exists saw_data (hist ++ [o])) by (apply Exists_app; by left).
    assert (Hla : io_now act ≠ 0).
    { rewrite Forall_forall in Hpos. pose proof (Hpos act (quiet_tail_act_in _ _ _ _ Hq)). lia. }
    assert (Hreset : ∀ c, idle_inv ri (hist ++ [o])
              (mkIdle true c (io_now act) (io_bytes o) (io_descs o) 0 0)).
    { intros c. split; simpl; [done|cint|]. intros _. split; [done|].
      exists act, []. split; [by eapply quiet_tail_silence|]. split_and!; try done; lia. }
    rewrite Hl.
    destruct (io_error o) eqn:He; simpl.
    { rewrite andb_false_r. split; [apply Hreset|done]. }
    destruct (Z.eqb_spec (io_now act) 0); [done|]. simpl. rewrite ?Hl.
    destruct (Z.ltb_spec (io_now o) (io_now act));
      [split; [apply Hreset|done]|].
    destruct (Z.ltb_spec (io_now o - io_now act) ri);
      [split; [apply Hreset|done]|]. simpl.
    assert (Hscan : ∀ c since n, is_u32 n → n <= idle_scan_count st + 1 →
              idle_inv ri (hist ++ [o])
              (mkIdle true c (io_now act) (io_bytes o) (io_descs o) since n)).
    { intros c since k Hk Hle. split; simpl; [done|done|]. intros _. split; [done|].
      exists act, (run ++ [o]). split_and!; [eapply quiet_tail_scan; try done|done|lia|lia|].
      - split; [done|lia].
      - rewrite length_app. simpl. lia. }
    assert (Hu : idle_scan_count st ≠ UINT32_MAX →
                 u32 (idle_scan_count st + 1) = idle_scan_count st + 1).
    { intros. apply u32_small. cint. }
    destruct (Z.eqb_spec (idle_scan_count st) 0) as [Hz|Hz]; simpl;
      [rewrite Hz in *|]; simpl;
      repeat (match goal with |- context [?x =? UINT32_MAX] =>
                destruct (Z.eqb_spec x UINT32_MAX); simpl end);
      rewrite ?Hu by done;
      match goal with |- context [negb (candidate st) && ?b] =>
        destruct (negb (candidate st) && b) eqn:Hcand end; simpl;
      (split; [apply Hscan; cint|]); try done; intros _; split; try done;
      destruct (Z.eqb_spec rs 0); cint.
Qed.

Lemma idle_history_inv ri rs hist :
  is_u32 rs → Forall (λ p, 0 < io_now p) hist → idle_inv ri hist (idle_history ri rs hist).
Proof.
  intros Hrs. induction hist as [|o hist IH] using rev_ind; intros Hpos.
  { split; simpl; [done|cint|done]. }
  apply Forall_app in Hpos as [Hpos _]. specialize (IH Hpos).
  unfold idle_history in *. rewrite foldl_app. simpl.
  pose proof (idle_observe_inv ri rs hist _ o Hrs Hpos IH) as Hstep.
  destruct (storage_input_idle_observe _ _ _ _ _ _ _ _) as [ev st']. by destruct Hstep.
Qed.

(** an automatic drain starts only on a genuinely idle input.  When the
    detector answers CANDIDATE at an observation, the history up to and
    including it ends in some activity [act] after which neither counter moved
    and no packet was open, and its last observations - at least the required
    number of them - saw no DMA error and were all made at least the required
    idle time after [act]; and some data had been received. *)
Theorem idle_candidate_sound :
  ∀ (hist : list idle_obs) (o : idle_obs) (required_idle required_scans : Z),
    is_u32 required_scans → Forall (λ p, 0 < io_now p) hist →
    fst (storage_input_idle_observe (idle_history required_idle required_scans hist)
           (io_now o) (io_bytes o) (io_descs o) (io_open o) (io_error o)
           required_idle required_scans) = STORAGE_INPUT_IDLE_CANDIDATE →
    Exists saw_data (hist ++ [o]) ∧
    ∃ act run, quiet_tail required_idle (hist ++ [o]) act run ∧
      Z.max 1 required_scans <= Z.of_nat (length run).
Proof.
  intros hist o ri rs Hrs Hpos Hev.
  pose proof (idle_observe_inv ri rs hist _ o Hrs Hpos (idle_history_inv _ _ _ Hrs Hpos))
    as Hstep.
  destruct (storage_input_idle_observe _ _ _ _ _ _ _ _) as [ev st'].
  destruct Hstep as [[_ _ Hseen] Hc]. destruct (Hc Hev) as [Hs Hn].
  destruct (Hseen Hs) as (Hex & act & run & Hq & _ & _ & _ & Hle).
  split; [done|]. exists act, run. split; [done|lia].
Qed.

Lemma idle_candidate_sound_witness :
  is_u32 2 ∧
  fst (storage_input_idle_observe
         (idle_history 50 2 [mkIdleObs 10 512 1 false false; mkIdleObs 60 512 1 false false])
         70 512 1 false false 50 2) = STORAGE_INPUT_IDLE_CANDIDATE ∧
  ∃ act run, quiet_tail 50 [mkIdleObs 10 512 1 false false; mkIdleObs 60 512 1 false false;
                            mkIdleObs 70 512 1 false false] act run ∧
    Z.max 1 2 <= Z.of_nat (length run).
Proof.
  assert (H : is_u32 2) by cint. split; [exact H|]. split; [reflexivity|].
  apply (idle_candidate_sound
           [mkIdleObs 10 512 1 false false; mkIdleObs 60 512 1 false false]
           (mkIdleObs 70 512 1 false false) 50 2 H); [|reflexivity].
  repeat constructor.
Defined.
End storage_stop.
