(* ===== verification/Bytes.v ===== *)
(** * Byte strings and integer layouts shared by the wire and disk formats

    A byte string is a [list Z] with elements in [0 .. 255].  [le_bytes n v] and
    [be_bytes n v] are the [n]-byte encodings of [v]; a packed C struct is the
    concatenation of its fields, and a field is read back with [field off n]. *)
From S2P Require Import Prelude.

Definition is_byte (b : Z) : Prop := 0 <= b <= 255.
#[export] Instance is_byte_dec b : Decision (is_byte b).
Proof. unfold is_byte. solve_decision. Defined.

(** Little endian, as the target CPU stores integers. *)
Fixpoint le_bytes (n : nat) (v : Z) : list Z :=
  match n with
  | O => []
  | S n => v mod 256 :: le_bytes n (v / 256)
  end.
Fixpoint le_val (l : list Z) : Z :=
  match l with
  | [] => 0
  | b :: l => b + 256 * le_val l
  end.
(** Big endian, as the serial protocol sends them. *)
Definition be_bytes (n : nat) (v : Z) : list Z := rev (le_bytes n v).
Definition be_val (l : list Z) : Z := le_val (rev l).

(** Bytes [off .. off + n - 1] of a buffer. *)
Definition field (off n : nat) (l : list Z) : list Z := take n (drop off l).
Definition byte_at (off : nat) (l : list Z) : Z := nth off l 0.

(** The text of a C string: the bytes before the first NUL. *)
Fixpoint c_text (l : list Z) : list Z :=
  match l with
  | [] => []
  | b :: l => if b =? 0 then [] else b :: c_text l
  end.
(** A string literal as bytes. *)
Fixpoint txt (s : string) : list Z :=
  match s with
  | EmptyString => []
  | String a s => Z.of_nat (Ascii.nat_of_ascii a) :: txt s
  end.

Arguments txt : simpl never.

Lemma le_bytes_length n v : length (le_bytes n v) = n.
Proof. revert v; induction n; intros v; simpl; [done|by rewrite IHn]. Qed.
Lemma be_bytes_length n v : length (be_bytes n v) = n.
Proof. unfold be_bytes. by rewrite length_rev, le_bytes_length. Qed.

Lemma le_val_bytes n v : le_val (le_bytes n v) = v mod 256 ^ Z.of_nat n.
Proof.
  revert v; induction n as [|n IH]; intros v; [simpl; by rewrite Z.mod_1_r|].
  simpl le_bytes. simpl le_val. rewrite IH.
  replace (256 ^ Z.of_nat (S n)) with (256 * 256 ^ Z.of_nat n)
    by (rewrite Nat2Z.inj_succ, Z.pow_succ_r; lia).
  assert (0 < 256 ^ Z.of_nat n) by (apply Z.pow_pos_nonneg; lia).
  rewrite Z.rem_mul_r by lia. lia.
Qed.
Lemma le_val_small n v max :
  256 ^ Z.of_nat n = max + 1 → 0 <= v <= max → le_val (le_bytes n v) = v.
Proof. intros Hm Hv. rewrite le_val_bytes, Hm. apply Z.mod_small. lia. Qed.
Lemma be_val_bytes n v : be_val (be_bytes n v) = v mod 256 ^ Z.of_nat n.
Proof. unfold be_val, be_bytes. by rewrite rev_involutive, le_val_bytes. Qed.

Lemma le_bytes_bytes n v : Forall is_byte (le_bytes n v).
Proof.
  revert v; induction n as [|n IH]; intros v; simpl; constructor; [|apply IH].
  unfold is_byte. pose proof (Z.mod_pos_bound v 256). lia.
Qed.
Lemma be_bytes_bytes n v : Forall is_byte (be_bytes n v).
Proof. unfold be_bytes. apply Forall_rev, le_bytes_bytes. Qed.

Lemma le_val_range l : Forall is_byte l → 0 <= le_val l < 256 ^ Z.of_nat (length l).
Proof.
  induction 1 as [|b l Hb _ IH]; simpl; [lia|]. unfold is_byte in Hb.
  rewrite Nat2Z.inj_succ, Z.pow_succ_r by lia. lia.
Qed.

Lemma le_bytes_val l : Forall is_byte l → le_bytes (length l) (le_val l) = l.
Proof.
  induction 1 as [|b l Hb Hl IH]; [done|]. unfold is_byte in Hb. simpl. f_equal.
  - rewrite (Z.mul_comm 256), Z_mod_plus_full. apply Z.mod_small. lia.
  - rewrite (Z.mul_comm 256), Z.div_add by lia. rewrite Z.div_small by lia.
    by rewrite Z.add_0_l.
Qed.

Lemma le_bytes_mod n v m : n = m → le_bytes n (v mod 256 ^ Z.of_nat m) = le_bytes n v.
Proof.
  intros <-. rewrite <- le_val_bytes. rewrite <- (le_bytes_length n v) at 1.
  apply le_bytes_val, le_bytes_bytes.
Qed.

(** The shift-and-mask idiom of the C code extracts one byte. *)
Lemma byte_shift v k : 0 <= k → u8 (Z.land (Z.shiftr v k) 255) = v / 2 ^ k mod 256.
Proof.
  intros. replace 255 with (Z.ones 8) by reflexivity.
  rewrite Z.land_ones, Z.shiftr_div_pow2 by lia. apply u8_small.
  change (2 ^ 8) with 256. pose proof (Z.mod_pos_bound (v / 2 ^ k) 256). cint.
Qed.

Lemma div256_iter v n : Nat.iter n (λ x, x / 256) v = v / 256 ^ Z.of_nat n.
Proof.
  induction n as [|n IH]; [by rewrite Z.div_1_r|].
  change (Nat.iter (S n) (λ x, x / 256) v) with (Nat.iter n (λ x, x / 256) v / 256).
  rewrite IH, Z.div_div by (try apply Z.pow_pos_nonneg; lia).
  f_equal. rewrite Nat2Z.inj_succ, Z.pow_succ_r by lia. lia.
Qed.
Lemma byte_shift_n v k n :
  k = 8 * Z.of_nat n →
  u8 (Z.land (Z.shiftr v k) 255) = Nat.iter n (λ x, x / 256) v mod 256.
Proof.
  intros ->. rewrite byte_shift, div256_iter by lia. rewrite Z.pow_mul_r by lia. done.
Qed.
Lemma byte_shift_0 v : u8 (Z.land v 255) = v mod 256.
Proof. pose proof (byte_shift_n v 0 0 eq_refl) as H. by rewrite Z.shiftr_0_r in H. Qed.

Lemma byte_at_take i n l : (i < n)%nat → byte_at i (take n l) = byte_at i l.
Proof. intros. unfold byte_at. by rewrite !nth_lookup, lookup_take_lt. Qed.

(** Reading a field of a concatenation. *)
Lemma field_app_l n l k : n = length l → field 0 n (l ++ k) = l.
Proof. intros ->. unfold field. rewrite drop_0. apply take_app_length. Qed.
Lemma field_app_r off n l k :
  (length l <= off)%nat → field off n (l ++ k) = field (off - length l) n k.
Proof. intros. unfold field. by rewrite drop_app_ge. Qed.
Lemma field_all l n : n = length l → field 0 n l = l.
Proof. intros ->. unfold field. rewrite drop_0. by apply firstn_all. Qed.
Lemma field_cons off n b l : field (S off) n (b :: l) = field off n l.
Proof. done. Qed.

(** [resolve_field] reads a field out of an explicit concatenation. *)
Ltac bytes_len := rewrite ?length_app, ?le_bytes_length, ?be_bytes_length,
  ?length_replicate, ?length_take; simpl; try lia.
