(* ===== verification/SerialProto.v ===== *)
(** * The serial protocol ([src/src/serial_proto.c], [src/include/serial_proto.h])

    The byte-driven frame receiver with its static 128-byte buffer, the ACK
    builders and the packed layouts.  Debug dumps of frames are not modelled:
    they read the buffer and change nothing. *)
From S2P Require Import Prelude Bytes.

Module serial_proto.

Definition FRAME_HEAD : Z := 0x55.
Definition FRAME_TAIL : Z := 0xAA.
Definition DEVICE_ID : Z := 0xCC.
Definition CMD_TASK_INFO : Z := 0x11.
Definition CMD_ACQ_CTRL : Z := 0x21.
Definition CMD_USB_TRANSFER : Z := 0x31.
Definition CMD_FILE_LIST : Z := 0x41.
Definition CMD_FILE_OP : Z := 0x51.
Definition CMD_STATUS : Z := 0x61.
Definition CMD_STOP_TRANSFER : Z := 0x71.

Definition get_len (cmd : Z) : nat :=
  if cmd =? 0x11 then 64 else if cmd =? 0x21 then 16 else if cmd =? 0x31 then 16
  else if cmd =? 0x41 then 16 else if cmd =? 0x51 then 32 else if cmd =? 0x61 then 16
  else if cmd =? 0x71 then 16 else 0.

(** The static variables [buf], [idx] and [expected_len]. *)
Record proto_state : Type := mkProto {
  buf : list Z;
  idx : nat;
  expected_len : nat }.
#[export] Instance eta_proto : EtaOf proto_state := λ s,
  mkProto (buf s) (idx s) (expected_len s).

Definition proto_static : proto_state := mkProto (replicate 128 0) 0 0.

Definition proto_init (s : proto_state) : proto_state :=
  s <| idx := 0%nat |> <| expected_len := 0%nat |>.

(** [buf[idx++] = byte]; [None] is a write outside the 128 bytes. *)
Definition put_byte (s : proto_state) (byte : Z) : option proto_state :=
  if decide (idx s < 128)%nat
  then Some (s <| buf ::= <[idx s := byte]> |> <| idx ::= S |>)
  else None.

(** ** ACK frames *)
Definition send_ack_frame (cmd result : Z) : list Z :=
  [FRAME_HEAD; DEVICE_ID; cmd; result] ++ replicate 11 0 ++ [FRAME_TAIL].

Definition send_acq_ack_frame (result acq_type failure_type : Z) : list Z :=
  [FRAME_HEAD; DEVICE_ID; CMD_ACQ_CTRL; result; acq_type; failure_type] ++
  replicate 9 0 ++ [FRAME_TAIL].

Definition store_be32 (value : Z) : list Z :=
  [u8 (Z.land (Z.shiftr value 24) 0xFF); u8 (Z.land (Z.shiftr value 16) 0xFF);
   u8 (Z.land (Z.shiftr value 8) 0xFF); u8 (Z.land value 0xFF)].

Definition store_be64 (value : Z) : list Z :=
  [u8 (Z.land (Z.shiftr value 56) 0xFF); u8 (Z.land (Z.shiftr value 48) 0xFF);
   u8 (Z.land (Z.shiftr value 40) 0xFF); u8 (Z.land (Z.shiftr value 32) 0xFF);
   u8 (Z.land (Z.shiftr value 24) 0xFF); u8 (Z.land (Z.shiftr value 16) 0xFF);
   u8 (Z.land (Z.shiftr value 8) 0xFF); u8 (Z.land value 0xFF)].

(** The zeroed [task_id[11]] with at most 11 bytes of the text copied in. *)
Definition copy_task_id (task_id : option (list Z)) : list Z :=
  match task_id with
  | None => replicate 11 0
  | Some t => take 11 t ++ replicate (11 - length t) 0
  end.

Definition file_list_frame (task_id : option (list Z))
    (result file_count file_index file_type file_size start_sector sector_count
     flag calibration_type : Z) : list Z :=
  [FRAME_HEAD; DEVICE_ID; CMD_FILE_LIST; result] ++ copy_task_id task_id ++
  [file_count; file_index; file_type] ++ store_be64 file_size ++
  store_be64 start_sector ++ store_be32 sector_count ++
  [flag; calibration_type; FRAME_TAIL].

Section callbacks.
Context {W : Type}.
(** The registered callbacks; [None] is NULL. *)
Context (send_cb : option (list Z → Eff W Z)).
Context (handler_cb : option (list Z → Eff W ())).

Definition send_frame (frame : list Z) : Eff W () :=
  match send_cb with
  | Some send => let! _ := send frame in eret ()
  | None => eret ()
  end.

Definition send_ack (cmd result : Z) : Eff W () := send_frame (send_ack_frame cmd result).
Definition send_acq_ack (result acq_type failure_type : Z) : Eff W () :=
  send_frame (send_acq_ack_frame result acq_type failure_type).
Definition proto_send_ack (cmd result : Z) : Eff W () := send_ack cmd result.
Definition proto_send_acq_ack (result acq_type failure_type : Z) : Eff W () :=
  send_acq_ack result acq_type failure_type.
Definition proto_send_file_list (task_id : option (list Z))
    (result file_count file_index file_type file_size start_sector sector_count
     flag calibration_type : Z) : Eff W () :=
  send_frame (file_list_frame task_id result file_count file_index file_type
    file_size start_sector sector_count flag calibration_type).

(** What a complete frame with a good tail does. *)
Definition dispatch (frame : list Z) : Eff W () :=
  match handler_cb with
  | Some handler => handler frame
  | None => send_ack (byte_at 2 frame) 0x00
  end.

(** The outer [None] is an out-of-bounds access of [buf]. *)
Definition proto_input (s : proto_state) (byte : Z) : option (Eff W proto_state) :=
  if decide (idx s = 0%nat) then
    if negb (byte =? FRAME_HEAD) then Some (eret s)
    else eret <$> put_byte s byte
  else if decide (idx s = 1%nat) then
    if negb (byte =? DEVICE_ID) then
      s1 ← put_byte s byte; Some (eret (s1 <| idx := 0%nat |>))
    else eret <$> put_byte s byte
  else if decide (idx s = 2%nat) then
    s1 ← put_byte s byte;
    let s2 := s1 <| expected_len := get_len byte |> in
    Some (eret (if decide (expected_len s2 = 0%nat) then s2 <| idx := 0%nat |> else s2))
  else
    s1 ← put_byte s byte;
    if decide (expected_len s1 <= idx s1)%nat then
      tail ← buf s1 !! (expected_len s1 - 1)%nat;
      Some (
        let! _ := (if tail =? FRAME_TAIL then dispatch (buf s1) else eret ()) in
        eret (s1 <| idx := 0%nat |>))
    else Some (eret s1).

(** The receiver fed with a stream of bytes. *)
Fixpoint proto_feed (s : proto_state) (bytes : list Z) : Eff W (option proto_state) :=
  match bytes with
  | [] => eret (Some s)
  | b :: rest =>
    match proto_input s b with
    | None => eret None
    | Some m => let! s' := m in proto_feed s' rest
    end
  end.
End callbacks.

(** ** Reference: the frames of a stream

    A stream is read left to right: skip to a head byte; the next byte must be
    the device id (it is consumed either way); the next is the command, which
    gives the frame length; the frame is kept when its last byte is the tail. *)
Fixpoint frames (fuel : nat) (l : list Z) : list (list Z) :=
  match fuel with
  | O => []
  | S fuel =>
    match l with
    | [] => []
    | h :: l1 =>
      if negb (h =? FRAME_HEAD) then frames fuel l1 else
      match l1 with
      | [] => []
      | d :: l2 =>
        if negb (d =? DEVICE_ID) then frames fuel l2 else
        match l2 with
        | [] => []
        | cmd :: body =>
          let n := (get_len cmd - 3)%nat in
          if decide (get_len cmd = 0%nat) then frames fuel body
          else if decide (length body < n)%nat then []
          else
            let rest := frames fuel (drop n body) in
            if byte_at (n - 1) body =? FRAME_TAIL
            then (h :: d :: cmd :: take n body) :: rest else rest
        end
      end
    end
  end.
Definition frames_of (l : list Z) : list (list Z) := frames (S (length l)) l.

Lemma get_len_cases cmd :
  get_len cmd = 0%nat ∨ get_len cmd = 16%nat ∨ get_len cmd = 32%nat ∨ get_len cmd = 64%nat.
Proof. unfold get_len. repeat case_match; auto. Qed.

(** Between calls: the receiver is scanning for a head, has a head, has a head
    and a device id, or is inside the body of a frame. *)
Definition proto_ok (s : proto_state) : Prop :=
  length (buf s) = 128%nat ∧
  (idx s <= 2 ∨
   (expected_len s = 16 ∨ expected_len s = 32 ∨ expected_len s = 64) ∧
   idx s < expected_len s)%nat.

Lemma put_byte_some s b :
  (idx s < 128)%nat →
  put_byte s b = Some (mkProto (<[idx s := b]> (buf s)) (S (idx s)) (expected_len s)).
Proof. intros. unfold put_byte. by rewrite decide_True. Qed.

Section feed.
Context {W : Type} (send_cb : option (list Z → Eff W Z)).
Context (handler_cb : option (list Z → Eff W ())).
(** The handler reads only the frame: the packet struct of its command. *)
Context (handler_reads_frame : ∀ (b1 b2 : list Z),
  take (get_len (byte_at 2 b1)) b1 = take (get_len (byte_at 2 b1)) b2 →
  get_len (byte_at 2 b1) ≠ 0%nat →
  dispatch send_cb handler_cb b1 = dispatch send_cb handler_cb b2).

Local Notation "'input'" := (proto_input send_cb handler_cb).
Local Notation "'feed'" := (proto_feed send_cb handler_cb).

Fixpoint dispatch_all (fs : list (list Z)) : Eff W () :=
  match fs with
  | [] => eret ()
  | f :: fs => let! _ := dispatch send_cb handler_cb f in dispatch_all fs
  end.

Lemma proto_input_ok s b (w : W) :
  proto_ok s → ∃ m, input s b = Some m ∧ proto_ok (fst (m w)).
Proof using Type.
  intros [Hlen Hidx]. unfold proto_input.
  assert (H128 : (idx s < 128)%nat) by lia. rewrite (put_byte_some _ _ H128).
  destruct (decide (idx s = 0%nat)) as [H0|H0].
  { destruct (negb (b =? FRAME_HEAD)); eexists; (split; [done|]); simpl;
      split; simpl; rewrite ?length_insert; try done; lia. }
  destruct (decide (idx s = 1%nat)) as [H1|H1].
  { destruct (negb (b =? DEVICE_ID)); eexists; (split; [done|]); rec_simpl;
      split; simpl; rewrite ?length_insert; try done; lia. }
  destruct (decide (idx s = 2%nat)) as [H2|H2].
  { eexists. split; [done|]. rec_simpl. pose proof (get_len_cases b).
    case_decide; split; simpl; rewrite ?length_insert; try done; lia. }
  simpl. rec_simpl. case_decide.
  - destruct (lookup_lt_is_Some_2 (<[idx s:=b]> (buf s)) (expected_len s - 1)) as [t Ht].
    { rewrite length_insert. lia. }
    rewrite Ht. simpl. eexists. split; [done|]. unfold ebind.
    destruct (_ w) as [u w']. simpl. split; simpl; rewrite ?length_insert; [done|lia].
  - eexists. split; [done|]. split; simpl; rewrite ?length_insert; [done|lia].
Qed.

Lemma dispatch_frame s1 frame n :
  take n (buf s1) = frame → n = get_len (byte_at 2 frame) → (3 <= n)%nat →
  (n <= length (buf s1))%nat →
  dispatch send_cb handler_cb (buf s1) = dispatch send_cb handler_cb frame.
Proof using All.
  intros Ht Hn H3 Hl.
  assert (H2 : byte_at 2 (buf s1) = byte_at 2 frame).
  { rewrite <- Ht. by rewrite byte_at_take by lia. }
  apply handler_reads_frame; rewrite H2, <- Hn; [|lia].
  rewrite <- Ht. by rewrite take_take, Nat.min_id.
Qed.

Lemma body_step s b p (n : nat) :
  length (buf s) = 128%nat → expected_len s = n → (3 <= idx s < n)%nat → (n <= 64)%nat →
  take (idx s) (buf s) = p → get_len (byte_at 2 p) = n →
  let s1 := mkProto (<[idx s := b]> (buf s)) (S (idx s)) n in
  take (S (idx s)) (buf s1) = p ++ [b] ∧ length (buf s1) = 128%nat ∧
  byte_at 2 (p ++ [b]) = byte_at 2 p ∧
  ∀ (w : W), (m ← input s b; Some (m w)) = Some
    (if decide (n = S (idx s)) then
       (mkProto (buf s1) 0 n,
        snd ((if b =? FRAME_TAIL then dispatch send_cb handler_cb (p ++ [b])
              else eret ()) w))
     else (s1, w)).
Proof using All.
  intros Hl Hn Hi H64 Hp Hg s1. simpl.
  assert (Hplen : length p = idx s) by (rewrite <- Hp, length_take; lia).
  assert (Htk : take (S (idx s)) (<[idx s:=b]> (buf s)) = p ++ [b]).
  { rewrite insert_take_drop by lia. rewrite Hp.
    rewrite take_app_ge by lia. rewrite Hplen.
    by replace (S (idx s) - idx s)%nat with 1%nat by lia. }
  assert (H2 : byte_at 2 (p ++ [b]) = byte_at 2 p)
    by (unfold byte_at; apply app_nth1; lia).
  split_and!; [done|by rewrite length_insert|done|]. intros w.
  unfold proto_input. rewrite !decide_False by lia. rewrite put_byte_some by lia.
  simpl. rewrite Hn.
  destruct (decide (n <= S (idx s))%nat); [rewrite decide_True by lia|by rewrite decide_False by lia].
  assert (Hlk : <[idx s:=b]> (buf s) !! (n - 1)%nat = Some b).
  { replace (n - 1)%nat with (idx s) by lia. apply list_lookup_insert_eq. lia. }
  rewrite Hlk. simpl. unfold ebind, eret. rec_simpl.
  rewrite <- (dispatch_frame s1 (p ++ [b]) n); simpl.
  - destruct (b =? FRAME_TAIL); [|done]. by destruct (dispatch _ _ _ w) as [[] ?].
  - by replace n with (S (idx s)) by lia.
  - by rewrite H2.
  - lia.
  - rewrite length_insert. lia.
Qed.

Lemma feed_cons s b rest (w : W) r :
  (m ← input s b; Some (m w)) = Some r →
  feed s (b :: rest) w = feed (fst r) rest (snd r).
Proof using Type.
  simpl. destruct (input s b) as [m|]; simpl; [|done]. intros [= <-].
  unfold ebind. by destruct (m w).
Qed.

Lemma feed_body n body : ∀ s p,
  length (buf s) = 128%nat → expected_len s = n → (3 <= idx s < n)%nat → (n <= 64)%nat →
  take (idx s) (buf s) = p → get_len (byte_at 2 p) = n →
  let k := (n - idx s)%nat in
  if decide (length body < k)%nat
  then ∃ s', proto_ok s' ∧ ∀ w, feed s body w = (Some s', w)
  else ∃ s', idx s' = 0%nat ∧ length (buf s') = 128%nat ∧
    ∀ w, feed s body w = feed s' (drop k body)
      (snd ((if byte_at (k - 1) body =? FRAME_TAIL
             then dispatch send_cb handler_cb (p ++ take k body) else eret ()) w)).
Proof using All.
  induction body as [|b body IH]; intros s p Hl Hn Hi H64 Hp Hg k; subst k.
  { simpl. rewrite decide_True by lia. exists s. split; [|done].
    pose proof (get_len_cases (byte_at 2 p)). split; [done|lia]. }
  destruct (body_step s b p n Hl Hn Hi H64 Hp Hg) as (Htk & Hl1 & H2 & Hstep).
  set (s1 := mkProto (<[idx s := b]> (buf s)) (S (idx s)) n) in *.
  destruct (decide (n = S (idx s))) as [He|He].
  - replace (n - idx s)%nat with 1%nat by lia. rewrite decide_False by (simpl; lia).
    exists (mkProto (buf s1) 0 n). split_and!; [done|done|]. intros w.
    rewrite (feed_cons _ _ _ _ _ (Hstep w)). simpl. by rewrite drop_0.
  - specialize (IH s1 (p ++ [b]) Hl1 eq_refl). simpl in IH.
    specialize (IH ltac:(lia) H64 Htk ltac:(by rewrite H2)).
    assert (Hk : (n - idx s = S (n - S (idx s)))%nat) by lia.
    destruct (decide (length body < n - S (idx s))%nat).
    + rewrite decide_True by (simpl; lia). destruct IH as (s' & Hok & Hf).
      exists s'. split; [done|]. intros w. rewrite (feed_cons _ _ _ _ _ (Hstep w)).
      apply Hf.
    + rewrite decide_False by (simpl; lia). destruct IH as (s' & H0 & Hl' & Hf).
      exists s'. split_and!; [done|done|]. intros w.
      rewrite (feed_cons _ _ _ _ _ (Hstep w)). simpl fst. simpl snd.
      rewrite Hf. unfold byte_at. rewrite Hk.
      replace (S (n - S (idx s)) - 1)%nat with (S (n - S (idx s) - 1)) by lia.
      simpl. by rewrite <- app_assoc.
Qed.

Lemma feed_pure s b rest s' :
  input s b = Some (eret s') → ∀ w, feed s (b :: rest) w = feed s' rest w.
Proof using Type. simpl. intros -> w. done. Qed.

Lemma input_head s b :
  idx s = 0%nat →
  input s b = Some (eret (if b =? FRAME_HEAD
                          then mkProto (<[0%nat:=b]> (buf s)) 1 (expected_len s) else s)).
Proof using Type.
  intros H0. unfold proto_input. rewrite decide_True, put_byte_some by lia.
  rewrite H0. by destruct (b =? FRAME_HEAD).
Qed.
Lemma input_device s b :
  idx s = 1%nat →
  input s b = Some (eret (mkProto (<[1%nat:=b]> (buf s))
                            (if b =? DEVICE_ID then 2 else 0) (expected_len s))).
Proof using Type.
  intros H1. unfold proto_input. rewrite decide_False, decide_True, put_byte_some by lia.
  rewrite H1. by destruct (b =? DEVICE_ID).
Qed.
Lemma input_cmd s b :
  idx s = 2%nat →
  input s b = Some (eret (mkProto (<[2%nat:=b]> (buf s))
                            (if decide (get_len b = 0%nat) then 0 else 3) (get_len b))).
Proof using Type.
  intros H2. unfold proto_input. rewrite !decide_False, decide_True, put_byte_some by lia.
  simpl. rec_simpl. rewrite H2. by destruct (decide (get_len b = 0%nat)).
Qed.

Lemma feed_frames fuel l : ∀ s,
  (length l < fuel)%nat → length (buf s) = 128%nat → idx s = 0%nat →
  ∃ s', proto_ok s' ∧
    ∀ w, feed s l w = (Some s', snd (dispatch_all (frames fuel l) w)).
Proof using All.
  revert l; induction fuel as [|fuel IH]; intros l s Hf Hl H0; [lia|].
  destruct l as [|h l1]; [exists s; split; [split; lia|done]|].
  simpl in Hf. cbn [frames]. setoid_rewrite (feed_pure _ _ _ _ (input_head s h H0)).
  destruct (Z.eqb_spec h FRAME_HEAD) as [->|Hh]; cbn [negb]; [|apply IH; lia].
  set (s1 := mkProto (<[0%nat:=FRAME_HEAD]> (buf s)) 1 (expected_len s)).
  destruct l1 as [|d l2].
  { exists s1. split; [split; simpl; rewrite ?length_insert; [done|lia]|done]. }
  simpl in Hf. setoid_rewrite (feed_pure _ _ _ _ (input_device s1 d eq_refl)).
  destruct (Z.eqb_spec d DEVICE_ID) as [->|Hd]; cbn [negb].
  2: { apply IH; [lia| |done]. simpl. by rewrite !length_insert. }
  set (s2 := mkProto (<[1%nat:=DEVICE_ID]> (buf s1)) 2 (expected_len s1)).
  destruct l2 as [|cmd body].
  { exists s2. split; [split; simpl; rewrite ?length_insert; [done|lia]|done]. }
  simpl in Hf. setoid_rewrite (feed_pure _ _ _ _ (input_cmd s2 cmd eq_refl)).
  set (s3 := λ i, mkProto (<[2%nat:=cmd]> (buf s2)) i (get_len cmd)).
  fold (s3 (if decide (get_len cmd = 0%nat) then 0%nat else 3%nat)).
  assert (Hl3 : ∀ i, length (buf (s3 i)) = 128%nat)
    by (intros; simpl; by rewrite !length_insert).
  destruct (decide (get_len cmd = 0%nat)) as [Hz|Hz]; [apply IH; [lia|apply Hl3|done]|].
  pose proof (get_len_cases cmd) as Hgl.
  assert (Htk : take 3 (buf (s3 3%nat)) = [FRAME_HEAD; DEVICE_ID; cmd]).
  { simpl. destruct (buf s) as [|? [|? [|? ?]]]; simpl in Hl; try lia. done. }
  pose proof (feed_body (get_len cmd) body (s3 3%nat) [FRAME_HEAD; DEVICE_ID; cmd]
    (Hl3 3%nat) eq_refl ltac:(simpl; lia) ltac:(lia) Htk eq_refl) as Hb.
  simpl in Hb. destruct (decide (length body < get_len cmd - 3)%nat).
  { destruct Hb as (s' & Hok & Hw). exists s'. split; [done|]. intros w. apply Hw. }
  destruct Hb as (s' & H0' & Hl' & Hw).
  destruct (IH (drop (get_len cmd - 3) body) s') as (s'' & Hok & Hw');
    [rewrite length_drop; lia|done|done|].
  exists s''. split; [done|]. intros w. rewrite Hw, Hw'. f_equal.
  destruct (byte_at _ _ =? FRAME_TAIL); [|done]. cbn [dispatch_all]. unfold ebind.
  by destruct (dispatch _ _ _ w).
Qed.
End feed.

(** the receiver never leaves its buffer.  Whatever bytes arrive, in
    whatever order, and whatever the callbacks do, no write or read of
    [proto_input] is outside the 128-byte static buffer, the index never passes
    the length of the command being received, and so it stays below 64. *)
Theorem proto_memory_safe :
  ∀ (W : Type) (send_cb : option (list Z → Eff W Z))
    (handler_cb : option (list Z → Eff W ())) (bytes : list Z) (w : W),
    ∃ s w', proto_feed send_cb handler_cb proto_static bytes w = (Some s, w') ∧
      length (buf s) = 128%nat ∧ (idx s < 64)%nat ∧
      (2 < idx s → idx s < expected_len s ∧ expected_len s ∈ [16; 32; 64])%nat.
Proof.
  intros W send_cb handler_cb bytes w.
  assert (Hok : proto_ok proto_static) by (split; simpl; lia).
  generalize proto_static, w, Hok. clear w Hok.
  induction bytes as [|b bytes IH]; intros s w [Hl Hi].
  - exists s, w. split_and!; [done|done|lia|]. intros. destruct Hi as [|[[->|[->| ->]] ?]];
      [lia|..]; (split; [lia|set_solver]).
  - destruct (proto_input_ok send_cb handler_cb s b w) as (m & Hm & Hok'); [done|].
    simpl. rewrite Hm. unfold ebind. destruct (m w) as [s' w']. by apply IH.
Qed.

(** C37: the receiver parses the stream.  Fed byte by byte from its initial
    state, [proto_input] calls the handler (or acknowledges, without a handler)
    for exactly the frames that the reference scanner [frames_of] finds in the
    whole stream, once each and in order; nothing else reaches the outside. *)
Theorem proto_feed_refines :
  ∀ (W : Type) (send_cb : option (list Z → Eff W Z))
    (handler_cb : option (list Z → Eff W ())),
    (∀ b1 b2, take (get_len (byte_at 2 b1)) b1 = take (get_len (byte_at 2 b1)) b2 →
       get_len (byte_at 2 b1) ≠ 0%nat →
       dispatch send_cb handler_cb b1 = dispatch send_cb handler_cb b2) →
    ∀ (bytes : list Z) (w : W),
      snd (proto_feed send_cb handler_cb proto_static bytes w) =
      snd (dispatch_all send_cb handler_cb (frames_of bytes) w).
Proof.
  intros W send_cb handler_cb Hr bytes w.
  destruct (feed_frames send_cb handler_cb Hr (S (length bytes)) bytes proto_static)
    as (s' & _ & Hw); [lia|done|done|]. by rewrite Hw.
Qed.

(** A handler that records the frame it was given. *)
Definition log_handler : option (list Z → Eff (list (list Z)) ()) :=
  Some (λ b w, ((), w ++ [take (get_len (byte_at 2 b)) b])).

Lemma log_handler_reads_frame b1 b2 :
  take (get_len (byte_at 2 b1)) b1 = take (get_len (byte_at 2 b1)) b2 →
  get_len (byte_at 2 b1) ≠ 0%nat →
  dispatch None log_handler b1 = dispatch None log_handler b2.
Proof.
  intros Ht Hn. unfold dispatch, log_handler.
  assert (H2 : byte_at 2 b1 = byte_at 2 b2).
  { pose proof (get_len_cases (byte_at 2 b1)).
    rewrite <- (byte_at_take 2 (get_len (byte_at 2 b1)) b1) by lia.
    rewrite Ht. by rewrite byte_at_take by lia. }
  by rewrite <- H2, Ht.
Qed.

Definition witness_frame : list Z := [0x55; 0xCC; 0x61] ++ replicate 12 0 ++ [0xAA].

Lemma proto_feed_refines_witness :
  frames_of ([0; 1] ++ witness_frame ++ [0x55; 7] ++ witness_frame)
    = [witness_frame; witness_frame] ∧
  snd (proto_feed None log_handler proto_static
         ([0; 1] ++ witness_frame ++ [0x55; 7] ++ witness_frame) []) =
  snd (dispatch_all None log_handler
         (frames_of ([0; 1] ++ witness_frame ++ [0x55; 7] ++ witness_frame)) []).
Proof.
  split; [reflexivity|].
  exact (proto_feed_refines (list (list Z)) None log_handler log_handler_reads_frame
           ([0; 1] ++ witness_frame ++ [0x55; 7] ++ witness_frame) []).
Defined.

(** ** Frames in noise *)
Definition well_formed (f : list Z) : Prop :=
  ∃ cmd payload, f = [FRAME_HEAD; DEVICE_ID; cmd] ++ payload ++ [FRAME_TAIL] ∧
    length f = get_len cmd.

Lemma frames_fuel n m l :
  (length l < n)%nat → (length l < m)%nat → frames n l = frames m l.
Proof.
  revert m l; induction n as [|n IH]; intros [|m] l Hn Hm; try lia.
  destruct l as [|h [|d [|cmd body]]]; simpl in *; [done| | |].
  - destruct (negb _); [by apply IH; simpl; lia|done].
  - destruct (negb (h =? _)); [by apply IH; simpl; lia|].
    destruct (negb _); [by apply IH; simpl; lia|done].
  - destruct (negb (h =? _)); [by apply IH; simpl; lia|].
    destruct (negb _); [by apply IH; simpl; lia|].
    destruct (decide _); [by apply IH; simpl; lia|].
    destruct (decide _); [done|].
    rewrite (IH m) by (rewrite length_drop; lia). done.
Qed.

Lemma frames_noise h l : h ≠ FRAME_HEAD → frames_of (h :: l) = frames_of l.
Proof.
  intros Hh. unfold frames_of. simpl. destruct (Z.eqb_spec h FRAME_HEAD); [done|].
  simpl. done.
Qed.

Lemma frames_bad_device d l :
  d ≠ DEVICE_ID → frames_of (FRAME_HEAD :: d :: l) = frames_of l.
Proof.
  intros Hd.
  assert (Hs : ∀ k, frames (S k) (FRAME_HEAD :: d :: l) = frames k l).
  { intros k. simpl. by destruct (Z.eqb_spec d DEVICE_ID). }
  unfold frames_of. rewrite Hs. apply frames_fuel; simpl; lia.
Qed.

Lemma frames_frame f l : well_formed f → frames_of (f ++ l) = f :: frames_of l.
Proof.
  intros (cmd & payload & -> & Hlen). rewrite !length_app in Hlen. simpl in Hlen.
  unfold frames_of at 1.
  remember (length (_ ++ l)) as k eqn:Hk. rewrite !length_app in Hk. simpl in Hk.
  simpl. rewrite <- app_assoc. simpl.
  assert (Hn : (get_len cmd - 3 = length payload + 1)%nat) by lia.
  rewrite decide_False by lia. rewrite decide_False by (rewrite length_app; simpl; lia).
  replace (payload ++ FRAME_TAIL :: l) with ((payload ++ [FRAME_TAIL]) ++ l)
    by (by rewrite <- app_assoc).
  assert (Hl : length (payload ++ [FRAME_TAIL]) = (get_len cmd - 3)%nat)
    by (rewrite length_app; simpl; lia).
  rewrite <- Hl, take_app_length, drop_app_length. unfold byte_at.
  rewrite app_nth1 by (rewrite length_app; simpl; lia).
  rewrite app_nth2 by (rewrite length_app; simpl; lia).
  replace (_ - 1 - length payload)%nat with 0%nat by (rewrite length_app; simpl; lia).
  simpl. f_equal. apply frames_fuel; lia.
Qed.

Lemma frames_clean noise l :
  Forall (λ b, b ≠ FRAME_HEAD) noise → frames_of (noise ++ l) = frames_of l.
Proof. induction 1; [done|]. simpl. by rewrite frames_noise. Qed.

Lemma feed_logged l :
  snd (proto_feed None log_handler proto_static l []) =
  snd (dispatch_all None log_handler (frames_of l) []).
Proof.
  destruct (feed_frames None log_handler log_handler_reads_frame _ l
    proto_static (Nat.lt_succ_diag_r _) eq_refl eq_refl) as (s' & _ & ->). done.
Qed.

(** Every well-formed frame is delivered.  In a stream of well-formed
    frames separated by arbitrary noise that contains no head byte, every frame
    is dispatched exactly once, in order, and nothing else is. *)
Theorem proto_delivers_frames :
  ∀ (pieces : list (list Z * list Z)) (tail_noise : list Z),
    Forall (λ p, Forall (λ b, b ≠ FRAME_HEAD) p.1 ∧ well_formed p.2) pieces →
    Forall (λ b, b ≠ FRAME_HEAD) tail_noise →
    snd (proto_feed None log_handler proto_static
           (concat ((λ p, p.1 ++ p.2) <$> pieces) ++ tail_noise) []) = snd <$> pieces.
Proof.
  intros pieces noise Hp Hn. rewrite feed_logged.
  assert (Hf : frames_of (concat ((λ p, p.1 ++ p.2) <$> pieces) ++ noise) = snd <$> pieces).
  { induction Hp as [|[n f] pieces [Hc Hw] _ IH]; simpl in *.
    - rewrite <- (app_nil_r noise). by rewrite frames_clean.
    - rewrite <- !app_assoc, frames_clean, frames_frame by done. simpl; f_equal; exact IH. }
  rewrite Hf.
  assert (Hd : ∀ acc fs, Forall well_formed fs →
    snd (dispatch_all None log_handler fs acc) = acc ++ fs).
  { intros acc fs Hfs. revert acc. induction Hfs as [|f fs Hwf _ IH]; intros acc; simpl;
      [by rewrite app_nil_r|].
    unfold ebind, dispatch, log_handler. simpl. rewrite IH, <- app_assoc. simpl.
    do 2 f_equal. destruct Hwf as (cmd & pl & -> & Hlen). unfold byte_at. simpl nth.
    rewrite <- Hlen. by apply firstn_all. }
  rewrite Hd; [done|]. apply Forall_fmap. eapply Forall_impl; [exact Hp|]. by intros ? [].
Qed.

Lemma witness_frame_ok : well_formed witness_frame.
Proof. exists 0x61, (replicate 12 0). done. Qed.

Lemma proto_delivers_frames_witness :
  snd (proto_feed None log_handler proto_static
         (concat ((λ p, p.1 ++ p.2) <$> [([0; 0xCC], witness_frame); ([], witness_frame)])
          ++ [1]) []) = [witness_frame; witness_frame].
Proof.
  apply (proto_delivers_frames [([0; 0xCC], witness_frame); ([], witness_frame)] [1]).
  - repeat constructor; simpl; try exact witness_frame_ok; discriminate.
  - repeat constructor; discriminate.
Defined.

(** A stray head byte directly before a frame loses the frame.  The byte
    that fails the device-id test is dropped even when it is itself a head
    byte, so for a well-formed frame whose other bytes are not head bytes the
    stream [0x55 :: frame] delivers nothing, although [b :: frame] delivers the
    frame for every other byte [b]. *)
Theorem stray_head_loses_frame :
  ∀ (f : list Z) (b : Z),
    well_formed f → Forall (λ x, x ≠ FRAME_HEAD) (tl f) → b ≠ FRAME_HEAD →
    snd (proto_feed None log_handler proto_static (FRAME_HEAD :: f) []) = [] ∧
    snd (proto_feed None log_handler proto_static (b :: f) []) = [f].
Proof.
  intros f b Hf Htl Hb.
  rewrite !feed_logged, (frames_noise _ _ Hb).
  rewrite <- (app_nil_r f) at 2. rewrite frames_frame by done.
  destruct Hf as (cmd & pl & -> & Hlen). split.
  - simpl app in *. rewrite frames_bad_device by done. simpl in Htl.
    by rewrite <- (app_nil_r (DEVICE_ID :: _)), frames_clean by done.
  - unfold dispatch_all, dispatch, log_handler, ebind, eret. simpl snd.
    unfold byte_at. cbn [app nth]. rewrite <- Hlen. rewrite firstn_all. done.
Qed.

Lemma stray_head_loses_frame_witness :
  snd (proto_feed None log_handler proto_static (FRAME_HEAD :: witness_frame) []) = [] ∧
  snd (proto_feed None log_handler proto_static (0 :: witness_frame) []) = [witness_frame].
Proof.
  apply (stray_head_loses_frame witness_frame 0 witness_frame_ok).
  - repeat constructor; discriminate.
  - discriminate.
Defined.

(** ** The packed layouts of the header, as their receiver reads them *)
Record AckFileList : Type := mkAckFileList {
  fl_result : Z; fl_task_id : list Z; fl_file_count : Z; fl_file_index : Z;
  fl_file_type : Z; fl_file_size : Z; fl_start_sector : Z; fl_sector_count : Z;
  fl_flag : Z; fl_calibration_type : Z }.

Definition read_file_list (l : list Z) : AckFileList :=
  mkAckFileList (byte_at 3 l) (field 4 11 l) (byte_at 15 l) (byte_at 16 l)
    (byte_at 17 l) (be_val (field 18 8 l)) (be_val (field 26 8 l))
    (be_val (field 34 4 l)) (byte_at 38 l) (byte_at 39 l).

Record CmdTaskInfo : Type := mkTaskInfo {
  ti_task_id : list Z; ti_overpass_time : list Z; ti_work_mode : Z; ti_rcs_value : Z;
  ti_delay_setting : Z; ti_envelope_clock : Z; ti_iq_clock : Z; ti_rx_bandwidth : Z;
  ti_azimuth_angle : Z; ti_elevation_angle : Z; ti_envelope_duration : Z;
  ti_iq_duration : Z; ti_lo_select : Z; ti_freq_select : Z; ti_bandwidth_setting : Z;
  ti_pulse_width : Z; ti_period_setting : Z; ti_task_file_mode : Z;
  ti_usb_transfer_enable : Z; ti_calibration_type : Z }.

Definition read_task_info (l : list Z) : CmdTaskInfo :=
  mkTaskInfo (field 3 11 l) (field 14 14 l) (byte_at 28 l) (byte_at 29 l) (byte_at 30 l)
    (byte_at 31 l) (byte_at 32 l) (byte_at 33 l) (be_val (field 34 2 l))
    (be_val (field 36 2 l)) (be_val (field 38 2 l)) (byte_at 40 l) (byte_at 41 l)
    (byte_at 42 l) (byte_at 43 l) (byte_at 44 l) (be_val (field 45 2 l))
    (byte_at 47 l) (byte_at 48 l) (byte_at 49 l).

Record CmdFileOp : Type := mkFileOp {
  fo_operation : Z; fo_task_id : list Z; fo_file_index : Z; fo_file_type : Z;
  fo_calibration_type : Z }.

Definition read_file_op (l : list Z) : CmdFileOp :=
  mkFileOp (byte_at 3 l) (field 4 11 l) (byte_at 15 l) (byte_at 16 l) (byte_at 17 l).

Lemma store_be32_bytes v : store_be32 v = be_bytes 4 v.
Proof.
  unfold store_be32. rewrite (byte_shift_n v 24 3 eq_refl), (byte_shift_n v 16 2 eq_refl),
    (byte_shift_n v 8 1 eq_refl), byte_shift_0. reflexivity.
Qed.
Lemma store_be64_bytes v : store_be64 v = be_bytes 8 v.
Proof.
  unfold store_be64. rewrite (byte_shift_n v 56 7 eq_refl), (byte_shift_n v 48 6 eq_refl),
    (byte_shift_n v 40 5 eq_refl), (byte_shift_n v 32 4 eq_refl), (byte_shift_n v 24 3 eq_refl), (byte_shift_n v 16 2 eq_refl),
    (byte_shift_n v 8 1 eq_refl), byte_shift_0. reflexivity.
Qed.

Lemma copy_task_id_length t : length (copy_task_id t) = 11%nat.
Proof. destruct t as [t|]; simpl; [|done]. rewrite length_app, length_take, length_replicate. lia. Qed.

(** a file-list answer decodes to what was sent.  For every entry, the
    41-byte frame of [proto_send_file_list] has the packed offsets of
    [AckFileList]: a receiver reading those offsets, multi-byte fields big
    endian, recovers the sizes and sectors modulo their field widths, and the
    task id cut to 11 bytes and zero-padded; the frame starts with head, device
    and command and ends with the tail. *)
Theorem file_list_roundtrip :
  ∀ (task_id : option (list Z))
    (result file_count file_index file_type file_size start_sector sector_count
     flag calibration_type : Z),
    let f := file_list_frame task_id result file_count file_index file_type file_size
               start_sector sector_count flag calibration_type in
    length f = 41%nat ∧
    field 0 3 f = [FRAME_HEAD; DEVICE_ID; CMD_FILE_LIST] ∧ byte_at 40 f = FRAME_TAIL ∧
    read_file_list f = mkAckFileList result (copy_task_id task_id) file_count file_index
      file_type (u64 file_size) (u64 start_sector) (u32 sector_count) flag calibration_type.
Proof.
  intros t r fc fi ft fs ss sc fl ct. unfold file_list_frame.
  rewrite !store_be64_bytes, store_be32_bytes.
  pose proof (copy_task_id_length t) as Ht. destruct (copy_task_id t) as [|a0 l0]; [done|].
  do 10 (destruct l0 as [|? l0]; [done|]). destruct l0; [|done].
  split_and!; [by rewrite !length_app, !be_bytes_length|done| |].
  - reflexivity.
  - unfold read_file_list.
    replace (u64 fs) with (be_val (be_bytes 8 fs)) by (by rewrite be_val_bytes).
    replace (u64 ss) with (be_val (be_bytes 8 ss)) by (by rewrite be_val_bytes).
    replace (u32 sc) with (be_val (be_bytes 4 sc)) by (by rewrite be_val_bytes).
    reflexivity.
Qed.
End serial_proto.
