(* ===== verification/CStdlib.v ===== *)
(** * The C library functions the program's parsing uses

    [strtoul]/[strtoull] (64-bit [unsigned long]), [strstr], [strncmp] and the
    process environment, on [string]s. *)
From S2P Require Import Prelude.
From Stdlib Require Import Ascii.

Module c_stdlib.

Definition environ : Type := gmap string string.
Definition getenv (e : environ) (name : string) : option string := e !! name.

(** [value && value[0] != 0] *)
Definition non_empty (v : option string) : bool :=
  match v with Some (String _ _) => true | _ => false end.

Definition code (c : ascii) : Z := Z.of_nat (nat_of_ascii c).

Definition is_space (c : ascii) : bool :=
  (code c =? 32) || ((9 <=? code c) && (code c <=? 13)).

Definition digit_val (c : ascii) : option Z :=
  let n := code c in
  if (48 <=? n) && (n <=? 57) then Some (n - 48)
  else if (97 <=? n) && (n <=? 122) then Some (n - 87)
  else if (65 <=? n) && (n <=? 90) then Some (n - 55)
  else None.

Fixpoint skip_space (s : string) : string :=
  match s with
  | String c rest => if is_space c then skip_space rest else s
  | EmptyString => s
  end.

(** The longest run of digits of the base: value so far and the rest. *)
Fixpoint digits (base acc : Z) (s : string) : Z * string :=
  match s with
  | EmptyString => (acc, s)
  | String c rest =>
    match digit_val c with
    | Some d => if d <? base then digits base (acc * base + d) rest else (acc, s)
    | None => (acc, s)
    end
  end.

Definition starts_digit (base : Z) (s : string) : bool :=
  match s with
  | String c _ => match digit_val c with Some d => d <? base | None => false end
  | EmptyString => false
  end.

(** Base selection of [strtoul(_, _, 0)]: [0x] before a hex digit, a leading 0,
    or decimal. *)
Definition base_of (base : Z) (s : string) : Z * string :=
  if negb (base =? 0) then (base, s)
  else match s with
  | String z (String x rest) =>
    if (code z =? 48) && ((code x =? 120) || (code x =? 88)) && starts_digit 16 rest
    then (16, rest) else if code z =? 48 then (8, s) else (10, s)
  | String z EmptyString => if code z =? 48 then (8, s) else (10, s)
  | EmptyString => (10, s)
  end.

Record strtoul_result : Type := mkStrtoul {
  parsed : Z;
  no_digits : bool;   (* end == value *)
  rest : string;      (* end *)
  erange : bool }.

Definition strtoul (s : string) (base0 : Z) : strtoul_result :=
  let s1 := skip_space s in
  let '(neg, s2) := match s1 with
    | String c r => if code c =? 45 then (true, r) else if code c =? 43 then (false, r)
                    else (false, s1)
    | EmptyString => (false, s1) end in
  let '(base, s3) := base_of base0 s2 in
  if negb (starts_digit base s3) then mkStrtoul 0 true s false
  else
    let '(v, r) := digits base 0 s3 in
    if UINT64_MAX <? v then mkStrtoul UINT64_MAX false r true
    else mkStrtoul (if neg : bool then u64 (- v) else v) false r false.

(** The common acceptance test: [errno == 0 && end != value && *end == 0]. *)
Definition strtoul_full (s : string) (base : Z) : option Z :=
  let r := strtoul s base in
  if erange r || no_digits r then None
  else match rest r with EmptyString => Some (parsed r) | _ => None end.

(** The same for [strtol]: a sign and a 64-bit [long]. *)
Definition strtol_full (s : string) (base0 : Z) : option Z :=
  let s1 := skip_space s in
  let '(neg, s2) := match s1 with
    | String c r => if code c =? 45 then (true, r) else if code c =? 43 then (false, r)
                    else (false, s1)
    | EmptyString => (false, s1) end in
  let '(base, s3) := base_of base0 s2 in
  if negb (starts_digit base s3) then None
  else
    let '(v, r) := digits base 0 s3 in
    let n := if neg : bool then - v else v in
    if (n <? - 2 ^ 63) || (2 ^ 63 - 1 <? n) then None
    else match r with EmptyString => Some n | _ => None end.

Fixpoint strstr (hay needle : string) : bool :=
  String.prefix needle hay ||
  match hay with EmptyString => false | String _ h => strstr h needle end.

Lemma digits_nonneg base s : ∀ acc, 0 <= base → 0 <= acc → 0 <= fst (digits base acc s).
Proof.
  induction s as [|c s IH]; intros acc Hb Ha; simpl; [done|].
  destruct (digit_val c) as [d|] eqn:Hd; [|done]. destruct (d <? base); [|done].
  apply IH; [done|]. unfold digit_val in Hd.
  assert (0 <= d) by (repeat case_match; simplify_eq; lia). nia.
Qed.

Lemma base_of_nonneg base s : 0 <= base → 0 <= fst (base_of base s).
Proof. intros. unfold base_of. repeat case_match; simpl; lia. Qed.

Lemma strtoul_full_range s base v : 0 <= base → strtoul_full s base = Some v → is_u64 v.
Proof.
  intros Hb. unfold strtoul_full, strtoul.
  destruct (match skip_space s with String c r => _ | EmptyString => _ end) as [neg s2].
  pose proof (base_of_nonneg base s2 Hb) as Hb'.
  destruct (base_of base s2) as [b s3]. simpl in Hb'.
  destruct (negb (starts_digit b s3)); [done|].
  pose proof (digits_nonneg b s3 0 Hb' ltac:(lia)) as Hd.
  destruct (digits b 0 s3) as [v' r]. simpl in Hd.
  destruct (Z.ltb_spec UINT64_MAX v'); [done|]. simpl.
  destruct r; [|done]. intros [= <-]. destruct neg; [apply u64_range|cint].
Qed.

Example strtoul_examples :
  strtoul_full " +42" 10 = Some 42 ∧ strtoul_full "0x1F" 0 = Some 31 ∧
  strtoul_full "017" 0 = Some 15 ∧ strtoul_full "12x" 10 = None ∧
  strtoul_full "" 10 = None ∧ strtoul_full "-1" 10 = Some UINT64_MAX ∧
  strtoul_full "18446744073709551616" 10 = None ∧ strtol_full "-2" 10 = Some (-2) ∧
  strtol_full "9223372036854775808" 10 = None.
Proof. vm_compute. done. Qed.
End c_stdlib.
