(* ===== verification/CcbTypes.v ===== *)
(** * Shared types and the channel table ([src/include/ccb_types.h],
      [src/src/ccb_config.c]) *)
From S2P Require Import Prelude Bytes.

Module ccb_types.

Definition NUM_CHANNELS : Z := 3.
Definition HIGH_I_CHANNEL_ID : Z := 0.
Definition HIGH_Q_CHANNEL_ID : Z := 1.
Definition LOW_SPEED_CHANNEL_ID : Z := 2.
Definition CHANNEL_CPU_DDR_BYTES : Z := 64 * 1024 * 1024.
Definition CHANNEL0_DDR_BYTES : Z := 1 * 1024 * 1024 * 1024.
Definition CHANNEL1_DDR_BYTES : Z := 1 * 1024 * 1024 * 1024.
Definition CHANNEL2_DDR_BYTES : Z := 512 * 1024 * 1024.
Definition CHANNEL0_DDR_BYTES_MAX : Z := 2 * 1024 * 1024 * 1024.
Definition CHANNEL1_DDR_BYTES_MAX : Z := 2 * 1024 * 1024 * 1024.
Definition CHANNEL2_DDR_BYTES_MAX : Z := CHANNEL2_DDR_BYTES.
Definition DMA_DESC_BYTES_CH0_DEFAULT : Z := 16 * 1024 * 1024.
Definition DMA_DESC_BYTES_CH2_DEFAULT : Z := 16 * 1024 * 1024.
Definition DMA_DESC_BYTES_MAX : Z := DMA_DESC_BYTES_CH2_DEFAULT.
Definition DMA_DESC_ENTRY_BYTES : Z := 64.

Definition SECTOR_SIZE : Z := 512.
Definition FILE_ENTRY_SIZE : nat := 32.
Definition MAX_FILES_TOTAL : nat := 128.
Definition DATA_START_LBA : Z := 1000.
Definition FILE_MAX_SECTORS : Z := UINT32_MAX.
Definition FILE_MAX_BYTES : Z := FILE_MAX_SECTORS * SECTOR_SIZE.

(** The packed 32-byte on-disk metadata entry; the task number is its 11 bytes. *)
Record FileEntry : Type := mkEntry {
  task_no : list Z;
  file_cnt : Z;
  file_type : Z;
  file_index : Z;
  file_size_bytes : Z;
  start_lba : Z;
  sector_count : Z;
  valid : Z }.
#[export] Instance eta_FileEntry : EtaOf FileEntry := λ e,
  mkEntry (task_no e) (file_cnt e) (file_type e) (file_index e) (file_size_bytes e)
    (start_lba e) (sector_count e) (valid e).
#[export] Instance FileEntry_eq_dec : EqDecision FileEntry.
Proof. solve_decision. Defined.

(** Every field holds a value of its C type. *)
Record entry_ok (e : FileEntry) : Prop := {
  eo_task : length (task_no e) = 11%nat ∧ Forall is_byte (task_no e);
  eo_cnt : is_u8 (file_cnt e);
  eo_type : is_u8 (file_type e);
  eo_index : is_u16 (file_index e);
  eo_size : is_u32 (file_size_bytes e);
  eo_lba : is_u64 (start_lba e);
  eo_sectors : is_u32 (sector_count e);
  eo_valid : is_u8 (valid e) }.

Definition zero_entry : FileEntry := mkEntry (replicate 11 0) 0 0 0 0 0 0 0.

(** The memory image of a [FileEntry] on the little-endian target. *)
Definition entry_bytes (e : FileEntry) : list Z :=
  task_no e ++ le_bytes 1 (file_cnt e) ++ le_bytes 1 (file_type e) ++
  le_bytes 2 (file_index e) ++ le_bytes 4 (file_size_bytes e) ++
  le_bytes 8 (start_lba e) ++ le_bytes 4 (sector_count e) ++ le_bytes 1 (valid e).

Definition bytes_entry (l : list Z) : FileEntry :=
  mkEntry (field 0 11 l) (le_val (field 11 1 l)) (le_val (field 12 1 l))
    (le_val (field 13 2 l)) (le_val (field 15 4 l)) (le_val (field 19 8 l))
    (le_val (field 27 4 l)) (le_val (field 31 1 l)).

Lemma entry_bytes_length e : length (task_no e) = 11%nat → length (entry_bytes e) = 32%nat.
Proof. intros H. unfold entry_bytes. rewrite !length_app, !le_bytes_length. lia. Qed.

Lemma bytes_entry_bytes e rest : entry_ok e → bytes_entry (entry_bytes e ++ rest) = e.
Proof.
  intros [[Ht _] Hc Hty Hi Hs Hl Hn Hv]. destruct e as [t c ty ix sz lba n v]. simpl in *.
  unfold entry_bytes, bytes_entry. cbn [task_no file_cnt file_type file_index
    file_size_bytes start_lba sector_count valid].
  do 11 (destruct t as [|? t]; [done|]). destruct t; [|done].
  f_equal.
  - trans (le_val (le_bytes 1 c)); [reflexivity|by apply (le_val_small 1 c UINT8_MAX)].
  - trans (le_val (le_bytes 1 ty)); [reflexivity|by apply (le_val_small 1 ty UINT8_MAX)].
  - trans (le_val (le_bytes 2 ix)); [reflexivity|by apply (le_val_small 2 ix UINT16_MAX)].
  - trans (le_val (le_bytes 4 sz)); [reflexivity|by apply (le_val_small 4 sz UINT32_MAX)].
  - trans (le_val (le_bytes 8 lba)); [reflexivity|by apply (le_val_small 8 lba UINT64_MAX)].
  - trans (le_val (le_bytes 4 n)); [reflexivity|by apply (le_val_small 4 n UINT32_MAX)].
  - trans (le_val (le_bytes 1 v)); [reflexivity|by apply (le_val_small 1 v UINT8_MAX)].
Qed.

Lemma zero_entry_ok : entry_ok zero_entry.
Proof. split; simpl; try cint. split; [done|]. repeat constructor; unfold is_byte; lia. Qed.

(** ** Channel topology *)
Record ChannelConfig : Type := mkChannel {
  id : Z;
  name : string;
  ch_file_type : Z;
  dma_base : Z;
  axis_switch_base : Z;
  nvme_base : Z;
  pcie_bridge_base : Z;
  desc_cpu_base : Z;
  desc_dma_base : Z;
  desc_cpu_size : Z;
  ddr_cpu_base : Z;
  ddr_hw_base : Z;
  ddr_cpu_size : Z;
  dma_ring_bytes : Z;
  dma_ring_bytes_max : Z;
  dma_desc_bytes_default : Z }.

End ccb_types.

Module ccb_config.
Import ccb_types.

Definition kChannels : list ChannelConfig :=
  [ mkChannel HIGH_I_CHANNEL_ID "HIGH_I" 1 0x41e00000 0x44a10000 0x44a00000 0xb0000000
      0x20000000 0x10000000 0x4000 0x10000000 0 CHANNEL_CPU_DDR_BYTES
      CHANNEL0_DDR_BYTES CHANNEL0_DDR_BYTES_MAX DMA_DESC_BYTES_CH0_DEFAULT;
    mkChannel HIGH_Q_CHANNEL_ID "HIGH_Q" 2 0xa0060000 0xa0070000 0xa0080000 0xd0000000
      0x30000000 0x10000000 0x4000 0xd0000000 0 CHANNEL_CPU_DDR_BYTES
      CHANNEL1_DDR_BYTES CHANNEL1_DDR_BYTES_MAX DMA_DESC_BYTES_CH0_DEFAULT;
    mkChannel LOW_SPEED_CHANNEL_ID "LOW_SPEED" 0 0x00030000 0x00040000 0x00010000 0
      0x20004000 0x10000000 0x4000 0xc0000000 0 CHANNEL_CPU_DDR_BYTES
      CHANNEL2_DDR_BYTES CHANNEL2_DDR_BYTES_MAX DMA_DESC_BYTES_CH2_DEFAULT ].

Fixpoint find_in (l : list ChannelConfig) (i : Z) : option ChannelConfig :=
  match l with
  | [] => None
  | c :: l => if id c =? i then Some c else find_in l i
  end.
Definition find_channel (i : Z) : option ChannelConfig := find_in kChannels i.

(** Two half-open address ranges are disjoint. *)
Definition disjoint_ranges (a n b m : Z) : Prop := a + n <= b ∨ b + m <= a.

(** The channel table is consistent.  [find_channel] is defined exactly on
    the ids 0, 1 and 2 and returns the entry with that id; every configured
    channel can program its whole ring - the default descriptors cover it, fit
    in its descriptor memory and divide it exactly - and the descriptor memories
    that the CPU maps for different channels do not overlap. *)
Theorem channel_table_consistent :
  (∀ i, (∃ c, find_channel i = Some c ∧ id c = i ∧ c ∈ kChannels) ↔ 0 <= i < NUM_CHANNELS) ∧
  (∀ c, c ∈ kChannels →
     dma_desc_bytes_default c <= DMA_DESC_BYTES_MAX ∧
     dma_ring_bytes c <= dma_ring_bytes_max c ∧
     dma_ring_bytes c mod dma_desc_bytes_default c = 0 ∧
     dma_ring_bytes_max c / dma_desc_bytes_default c * DMA_DESC_ENTRY_BYTES
       <= desc_cpu_size c) ∧
  (∀ c d, c ∈ kChannels → d ∈ kChannels → id c ≠ id d →
     disjoint_ranges (desc_cpu_base c) (desc_cpu_size c) (desc_cpu_base d) (desc_cpu_size d)).
Proof.
  split_and!.
  - intros i. unfold find_channel, NUM_CHANNELS. simpl.
    unfold HIGH_I_CHANNEL_ID, HIGH_Q_CHANNEL_ID, LOW_SPEED_CHANNEL_ID. split.
    + intros (c & Hc & <- & _). repeat case_match; simplify_eq; simpl; try lia; done.
    + intros Hi. assert (i = 0 ∨ i = 1 ∨ i = 2) as [->|[->| ->]] by lia;
        eexists; (split; [reflexivity|split; [done|]]); set_solver.
  - intros c Hc. unfold kChannels in Hc.
    repeat (apply elem_of_cons in Hc as [->|Hc]); [..|set_solver];
      split_and!; vm_compute; congruence.
  - intros c d Hc Hd Hne. unfold kChannels in Hc, Hd.
    repeat (apply elem_of_cons in Hc as [->|Hc]); [..|set_solver];
      repeat (apply elem_of_cons in Hd as [->|Hd]); try set_solver;
      unfold disjoint_ranges; simpl; lia.
Qed.
End ccb_config.
