(* ===== verification/Metadata.v ===== *)
(** * The file-list metadata ([src/src/ccb_metadata.c])

    One table of 128 entries of 32 bytes per channel, kept in a file of the
    metadata directory: reading and writing the table, allocating a slot and a
    disk range, the overlap check and the lookups by task. *)
From stdpp Require Import pretty.
From S2P Require Import Prelude Bytes CcbTypes.

Module ccb_metadata.
Import ccb_types.

(** ** Entries and slots *)
Definition entry_valid (e : FileEntry) : bool := valid e =? 1.

Definition end_lba (e : FileEntry) : Z := u64 (start_lba e + sector_count e).

(** One iteration of the scan: (slot, next_lba, valid_count). *)
Definition alloc_step (i : Z) (e : FileEntry) (acc : Z * Z * Z) : Z * Z * Z :=
  let '(slot, next_lba, valid_count) := acc in
  if entry_valid e
  then (slot, if next_lba <? end_lba e then end_lba e else next_lba,
        u32 (valid_count + 1))
  else if slot <? 0 then (i, next_lba, valid_count) else (slot, next_lba, valid_count).

Fixpoint alloc_scan (i : Z) (table : list FileEntry) (acc : Z * Z * Z) : Z * Z * Z :=
  match table with
  | [] => acc
  | e :: rest => alloc_scan (i + 1) rest (alloc_step i e acc)
  end.

(** [None] is the result -1; [Some (slot, lba, valid_count)] the out parameters. *)
Definition metadata_alloc_slot_and_lba (table : list FileEntry) : option (Z * Z * Z) :=
  let '(slot, next_lba, valid_count) := alloc_scan 0 table (-1, DATA_START_LBA, 0) in
  if slot <? 0 then None else Some (slot, next_lba, valid_count).

Definition range_overlaps (start_a sectors_a start_b sectors_b : Z) : bool :=
  (start_a <? u64 (start_b + sectors_b)) && (start_b <? u64 (start_a + sectors_a)).

(** The check of one entry: [false] is the early return -1. *)
Definition overlap_step (start_lba' sectors : Z) (e : FileEntry) : bool :=
  if negb (entry_valid e) then true
  else if UINT64_MAX - start_lba e <? sector_count e then false
  else negb (range_overlaps start_lba' sectors (start_lba e) (sector_count e)).

Definition metadata_check_lba_overlap (table : list FileEntry) (start_lba' sectors : Z) : Z :=
  if UINT64_MAX - start_lba' <? sectors then -1
  else if forallb (overlap_step start_lba' sectors) table then 0 else -1.

(** ** Lookups by task *)

(** [strcmp] of the NUL-terminated 12-byte copy of [task_no] with a C string. *)
Definition task_string (e : FileEntry) : list Z := c_text (task_no e).
Definition task_matches (e : FileEntry) (task : list Z) : bool :=
  bool_decide (task_string e = task).

Definition find_step (task : list Z) (index : Z) (e : FileEntry) : bool :=
  entry_valid e && (file_index e =? index) && task_matches e task.

Fixpoint find_from (i : Z) (table : list FileEntry) (task : list Z) (index : Z)
  : option (Z * FileEntry) :=
  match table with
  | [] => None
  | e :: rest => if find_step task index e then Some (i, e)
                 else find_from (i + 1) rest task index
  end.
Definition metadata_find_by_task (table : list FileEntry) (task : list Z) (index : Z)
  : option (Z * FileEntry) := find_from 0 table task index.

Definition resolve_step (task : list Z) (acc : bool * Z) (e : FileEntry) : bool * Z :=
  if negb (entry_valid e) || negb (task_matches e task) then acc
  else (true, if acc.2 <? file_index e then file_index e else acc.2).

Definition metadata_resolve_file_index (table : list FileEntry) (task : list Z)
    (requested_index : Z) : option Z :=
  if UINT16_MAX <? requested_index then None
  else
    let '(task_exists, max_index) := foldl (resolve_step task) (false, 0) table in
    if negb task_exists || (max_index <? requested_index) then Some requested_index
    else if UINT16_MAX <=? max_index then None
    else Some (u32 (max_index + 1)).

(** ** The table file

    The metadata directory and the standard I/O calls on it.  [mkdir_ok] says
    whether the directory exists or can be made, [open_r]/[open_w] whether the
    file opens, [read_error] whether [ferror] is set after [fread],
    [write_room] how many entries [fwrite] can still store. *)
Record meta_io : Type := mkMetaIo {
  meta_dir : string;
  mkdir_ok : bool;
  open_r : string → bool;
  read_error : string → bool;
  open_w : string → bool;
  write_room : string → nat;
  meta_files : gmap string (list Z) }.
#[export] Instance eta_meta_io : EtaOf meta_io := λ s,
  mkMetaIo (meta_dir s) (mkdir_ok s) (open_r s) (read_error s) (open_w s)
    (write_room s) (meta_files s).

Definition build_metadata_path (dir : string) (ch : Z) (path_size : nat) : option string :=
  let path := (dir ++ "/meta_ch" ++ pretty ch ++ ".bin")%string in
  if decide (String.length path < path_size)%nat then Some path else None.

(** [fread] of whole 32-byte items; the partial last item is overwritten by the
    zero fill. *)
Fixpoint read_entries (n : nat) (l : list Z) : list FileEntry :=
  match n with
  | O => []
  | S n => if decide (length l < FILE_ENTRY_SIZE)%nat then []
           else bytes_entry l :: read_entries n (drop FILE_ENTRY_SIZE l)
  end.

Definition read_metadata_from_file (ch : Z) : Eff meta_io (option (list FileEntry)) := λ io,
  if negb (mkdir_ok io) then (None, io) else
  match build_metadata_path (meta_dir io) ch 512 with
  | None => (None, io)
  | Some path =>
    match meta_files io !! path with
    | Some content =>
      if negb (open_r io path) then (Some (replicate MAX_FILES_TOTAL zero_entry), io)
      else if read_error io path then (None, io)
      else
        let items := read_entries MAX_FILES_TOTAL content in
        (Some (items ++ replicate (MAX_FILES_TOTAL - length items) zero_entry), io)
    | None => (Some (replicate MAX_FILES_TOTAL zero_entry), io)
    end
  end.

Definition table_bytes (table : list FileEntry) : list Z := concat (entry_bytes <$> table).

(** [fopen("wb")] truncates; [fwrite] stores as many entries as there is room. *)
Definition write_metadata_to_file (ch : Z) (table : list FileEntry) : Eff meta_io Z := λ io,
  if negb (mkdir_ok io) then (-1, io) else
  match build_metadata_path (meta_dir io) ch 512 with
  | None => (-1, io)
  | Some path =>
    if negb (open_w io path) then (-1, io)
    else
      let n := Nat.min (write_room io path) (length (take MAX_FILES_TOTAL table)) in
      (if decide (n = MAX_FILES_TOTAL) then 0 else -1,
       io <| meta_files ::= <[path := table_bytes (take n table)]> |>)
  end.

Definition metadata_read (ch : ChannelConfig) : Eff meta_io (option (list FileEntry)) :=
  read_metadata_from_file (id ch).
Definition metadata_write (ch : ChannelConfig) (table : list FileEntry) : Eff meta_io Z :=
  write_metadata_to_file (id ch) table.

(** ** Allocation *)
(** The ranges in use: every valid entry lies in the data area and inside the
    64-bit address space, and two of them never share a sector. *)
Definition range_ok (e : FileEntry) : Prop :=
  DATA_START_LBA <= start_lba e ∧ 0 <= sector_count e ∧
  start_lba e + sector_count e <= UINT64_MAX.
Record table_inv (t : list FileEntry) : Prop := {
  ti_range : ∀ i e, t !! i = Some e → entry_valid e = true → range_ok e;
  ti_disjoint : ∀ i j a b, t !! i = Some a → t !! j = Some b → i ≠ j →
    entry_valid a = true → entry_valid b = true →
    ccb_config.disjoint_ranges (start_lba a) (sector_count a) (start_lba b) (sector_count b) }.

Definition valid_entries (t : list FileEntry) : list FileEntry := filter (λ e, entry_valid e = true) t.

Lemma valid_entries_cons e t :
  Z.of_nat (length (valid_entries (e :: t))) =
  Z.of_nat (length (valid_entries t)) + (if entry_valid e then 1 else 0).
Proof.
  unfold valid_entries. rewrite filter_cons. destruct (entry_valid e); simpl; lia.
Qed.

Lemma end_lba_ok e : range_ok e → end_lba e = start_lba e + sector_count e.
Proof. unfold range_ok, DATA_START_LBA. intros. apply u64_small. cint. Qed.

(** What the scan has computed after a prefix. *)
Lemma alloc_scan_spec t : ∀ i slot lba n,
  0 <= i → 0 <= n → n + Z.of_nat (length t) <= UINT32_MAX →
  Forall (λ e, entry_valid e = true → range_ok e) t →
  let '(slot', lba', n') := alloc_scan i t (slot, lba, n) in
  n' = n + Z.of_nat (length (valid_entries t)) ∧ lba <= lba' ∧
  (∀ e, e ∈ t → entry_valid e = true → start_lba e + sector_count e <= lba') ∧
  (lba' = lba ∨ ∃ e, e ∈ t ∧ entry_valid e = true ∧ lba' = start_lba e + sector_count e) ∧
  (if slot <? 0
   then (slot' = slot ∧ Forall (λ e, entry_valid e = true) t) ∨
        ∃ k e, slot' = i + Z.of_nat k ∧ t !! k = Some e ∧ entry_valid e = false ∧
          Forall (λ e, entry_valid e = true) (take k t)
   else slot' = slot).
Proof.
  induction t as [|e t IH]; intros i slot lba n Hi Hn Hlen Hr; simpl.
  { split_and!; [simpl; lia|lia|set_solver|by left|].
    destruct (slot <? 0); [left; by split|done]. }
  apply Forall_cons in Hr as [He Hr]. simpl in Hlen.
  unfold alloc_step. pose proof (valid_entries_cons e t) as Hc.
  destruct (entry_valid e) eqn:Hv; simpl.
  - rewrite u32_small by cint. rewrite end_lba_ok by auto.
    set (lba1 := if lba <? start_lba e + sector_count e then _ else lba).
    assert (Hl1 : lba <= lba1 ∧ start_lba e + sector_count e <= lba1 ∧
      (lba1 = lba ∨ lba1 = start_lba e + sector_count e)).
    { subst lba1. destruct (Z.ltb_spec lba (start_lba e + sector_count e)); lia. }
    specialize (IH (i + 1) slot lba1 (n + 1) ltac:(lia) ltac:(lia) ltac:(lia) Hr).
    destruct (alloc_scan _ _ _) as [[slot' lba'] n'].
    destruct IH as (-> & Hl & Hub & Hex & Hs).
    split_and!; [lia|lia| | |].
    + intros x [->|Hx]%elem_of_cons Hvx; [lia|by apply Hub].
    + destruct Hex as [->|(x & ? & ? & ?)].
      * destruct Hl1 as (_ & _ & [->| ->]); [by left|right; exists e; set_solver].
      * right. exists x. set_solver.
    + destruct (slot <? 0); [|done]. destruct Hs as [[-> Hall]|(k & x & -> & Hk & Hx & Ht)].
      * left. split; [done|]. by constructor.
      * right. exists (S k), x. split_and!; [lia|done|done|]. simpl. by constructor.
  - destruct (Z.ltb_spec slot 0) as [Hs0|Hs0].
    + specialize (IH (i + 1) i lba n ltac:(lia) Hn ltac:(lia) Hr).
      destruct (alloc_scan _ _ _) as [[slot' lba'] n'].
      destruct IH as (-> & Hl & Hub & Hex & Hs).
      destruct (Z.ltb_spec i 0); [lia|]. subst slot'.
      split_and!; [lia|done| | |].
      * intros x [->|Hx]%elem_of_cons Hvx; [congruence|by apply Hub].
      * destruct Hex as [->|(x & ? & ? & ?)]; [by left|right; exists x; set_solver].
      * right. exists 0%nat, e. split_and!; [lia|done|done|constructor].
    + specialize (IH (i + 1) slot lba n ltac:(lia) Hn ltac:(lia) Hr).
      destruct (alloc_scan _ _ _) as [[slot' lba'] n'].
      destruct IH as (-> & Hl & Hub & Hex & Hs).
      destruct (Z.ltb_spec slot 0); [lia|]. subst slot'.
      split_and!; [lia|done| | |done].
      * intros x [->|Hx]%elem_of_cons Hvx; [congruence|by apply Hub].
      * destruct Hex as [->|(x & ? & ? & ?)]; [by left|right; exists x; set_solver].
Qed.

Lemma table_range t e : table_inv t → e ∈ t → entry_valid e = true → range_ok e.
Proof. intros [Hr _] He. apply list_elem_of_lookup in He as [i Hi]. by apply (Hr i). Qed.

Lemma table_ranges t : table_inv t → Forall (λ e, entry_valid e = true → range_ok e) t.
Proof. intros Hinv. apply Forall_forall. intros e He. by apply (table_range t). Qed.

Lemma alloc_some t slot lba n :
  table_inv t → length t = MAX_FILES_TOTAL →
  metadata_alloc_slot_and_lba t = Some (slot, lba, n) →
  ∃ k old, slot = Z.of_nat k ∧ t !! k = Some old ∧ entry_valid old = false ∧
    DATA_START_LBA <= lba ∧
    ∀ e, e ∈ t → entry_valid e = true → start_lba e + sector_count e <= lba.
Proof.
  intros Hinv Hlen. unfold metadata_alloc_slot_and_lba.
  pose proof (alloc_scan_spec t 0 (-1) DATA_START_LBA 0 ltac:(lia) ltac:(lia)) as H.
  rewrite Hlen in H. specialize (H ltac:(done) (table_ranges t Hinv)).
  destruct (alloc_scan _ _ _) as [[slot' lba'] n'].
  destruct H as (_ & Hl & Hub & _ & Hs). destruct (slot' <? 0) eqn:Hneg; [done|].
  intros [= <- <- _]. destruct Hs as [[-> _]|(k & e & -> & Hk & He & _)]; [done|].
  exists k, e. split_and!; [lia|done..].
Qed.

Lemma table_inv_insert t k e :
  table_inv t → range_ok e →
  (∀ x, x ∈ t → entry_valid x = true → ccb_config.disjoint_ranges
     (start_lba x) (sector_count x) (start_lba e) (sector_count e)) →
  table_inv (<[k := e]> t).
Proof.
  intros Hinv Hr Hd. pose proof Hinv as [Hra Hdi].
  assert (Hcase : ∀ i x, <[k:=e]> t !! i = Some x →
            (i = k ∧ x = e) ∨ (i ≠ k ∧ t !! i = Some x)).
  { intros i x Hi. apply list_lookup_insert_Some in Hi as [(-> & <- & _)|[Hne Hi]]; auto. }
  split.
  - intros i x [[-> ->]|[_ Hi]]%Hcase Hv; [done|by apply (Hra i)].
  - intros i j a b Hi Hj Hne Hva Hvb.
    apply Hcase in Hi as [[-> ->]|[Hi' Hi]]; apply Hcase in Hj as [[-> ->]|[Hj' Hj]].
    + done.
    + apply list_elem_of_lookup_2 in Hj. specialize (Hd b Hj Hvb).
      unfold ccb_config.disjoint_ranges in *. lia.
    + apply list_elem_of_lookup_2 in Hi. by apply Hd.
    + by apply (Hdi i j).
Qed.

Lemma valid_entries_insert t k old e :
  t !! k = Some old → entry_valid old = false → entry_valid e = true →
  valid_entries (<[k := e]> t) ≡ₚ e :: valid_entries t.
Proof.
  intros Hk Ho He. revert k Hk. induction t as [|x t IH]; intros [|k] Hk; simplify_eq/=.
  - unfold valid_entries. rewrite !filter_cons, decide_True, decide_False by congruence. done.
  - unfold valid_entries in *. rewrite !filter_cons. specialize (IH k Hk).
    destruct (decide _); [|done]. rewrite IH. apply Permutation_swap.
Qed.

(** Slot and disk allocation.  On a consistent table the allocator fails
    exactly when no slot is free; otherwise it returns the first free slot, the
    number of valid entries and the lowest address that is at or above the start
    of the data area and the end of every valid entry. *)
Theorem metadata_alloc_spec :
  ∀ (table : list FileEntry),
    table_inv table → length table = MAX_FILES_TOTAL →
    match metadata_alloc_slot_and_lba table with
    | None => Forall (λ e, entry_valid e = true) table
    | Some (slot, lba, count) =>
        (∃ k e, slot = Z.of_nat k ∧ table !! k = Some e ∧ entry_valid e = false ∧
           Forall (λ e, entry_valid e = true) (take k table)) ∧
        count = Z.of_nat (length (valid_entries table)) ∧
        DATA_START_LBA <= lba ∧
        (∀ e, e ∈ table → entry_valid e = true → start_lba e + sector_count e <= lba) ∧
        (lba = DATA_START_LBA ∨
         ∃ e, e ∈ table ∧ entry_valid e = true ∧ lba = start_lba e + sector_count e)
    end.
Proof.
  intros t Hinv Hlen. unfold metadata_alloc_slot_and_lba.
  pose proof (alloc_scan_spec t 0 (-1) DATA_START_LBA 0 ltac:(lia) ltac:(lia)) as H.
  rewrite Hlen in H. specialize (H ltac:(done) (table_ranges t Hinv)).
  destruct (alloc_scan _ _ _) as [[slot lba] n]. simpl in H.
  destruct H as (-> & Hl & Hub & Hex & Hs).
  destruct Hs as [[-> Hall]|(k & e & -> & Hk & He & Ht)]; [done|].
  destruct (Z.ltb_spec (0 + Z.of_nat k) 0); [lia|]. split_and!; try done.
  exists k, e. split_and!; [lia|done|done|done].
Qed.

Definition witness_entry (lba n : Z) : FileEntry :=
  mkEntry (replicate 11 65) 1 0 3 (n * 512) lba n 1.
Definition witness_table : list FileEntry :=
  witness_entry 1000 8 :: replicate 127 zero_entry.

Lemma witness_table_inv : table_inv witness_table.
Proof.
  assert (Hz : ∀ i e, witness_table !! S i = Some e → entry_valid e = false).
  { intros i e Hi. simpl in Hi. change (replicate 127 zero_entry !! i = Some e) in Hi.
    apply lookup_replicate in Hi as [-> _]. done. }
  split.
  - intros [|i] e Hi Hv; [injection Hi as <-; unfold range_ok; simpl;
      unfold DATA_START_LBA; cint|]. apply Hz in Hi. congruence.
  - intros [|i] [|j] a b Ha Hb Hne Hva Hvb; [done|..].
    + apply Hz in Hb. congruence.
    + apply Hz in Ha. congruence.
    + apply Hz in Ha. congruence.
Qed.

Lemma metadata_alloc_spec_witness :
  metadata_alloc_slot_and_lba witness_table = Some (1, 1008, 1) ∧
  (∃ k e, 1 = Z.of_nat k ∧ witness_table !! k = Some e ∧ entry_valid e = false ∧
     Forall (λ e, entry_valid e = true) (take k witness_table)).
Proof.
  split; [reflexivity|].
  exact (proj1 (metadata_alloc_spec witness_table witness_table_inv eq_refl)).
Defined.

(** ** Appending *)
Lemma overlap_step_ok a n e :
  0 <= a → 0 <= n → a + n <= UINT64_MAX → range_ok e → entry_valid e = true →
  overlap_step a n e = true ↔
  ¬ (a < start_lba e + sector_count e ∧ start_lba e < a + n).
Proof.
  unfold range_ok, DATA_START_LBA. intros Ha Hn Hu (Hd & Hs & He) Hv.
  unfold overlap_step, range_overlaps. rewrite Hv. simpl.
  destruct (Z.ltb_spec (UINT64_MAX - start_lba e) (sector_count e)); [lia|].
  rewrite !u64_small by cint. lia.
Qed.

Lemma check_lba_overlap_iff t a n :
  table_inv t → 0 <= a → 0 <= n →
  metadata_check_lba_overlap t a n = 0 ↔
  a + n <= UINT64_MAX ∧ ∀ e, e ∈ t → entry_valid e = true →
    ¬ (a < start_lba e + sector_count e ∧ start_lba e < a + n).
Proof.
  intros Hinv Ha Hn. unfold metadata_check_lba_overlap.
  destruct (Z.ltb_spec (UINT64_MAX - a) n); [split; [done|lia]|].
  assert (Hu : a + n <= UINT64_MAX) by lia.
  transitivity (forallb (overlap_step a n) t = true); [by destruct (forallb _ _)|].
  rewrite forallb_forall. setoid_rewrite <- list_elem_of_In. split.
  - intros Hall. split; [done|]. intros e He Hv.
    apply overlap_step_ok; auto. apply (table_range t e); auto.
  - intros [_ Hall] e He. destruct (entry_valid e) eqn:Hv.
    + apply overlap_step_ok; auto. apply (table_range t e); auto.
    + unfold overlap_step. by rewrite Hv.
Qed.

(** appended files never overlap.  Writing a file of any length at the
    allocated address passes the overlap check whenever it fits in the address
    space, and storing its entry in the allocated slot keeps the table
    consistent: all valid files stay pairwise disjoint and in the data area, and
    no earlier entry is overwritten. *)
Theorem metadata_append_safe :
  ∀ (table : list FileEntry) (slot lba count : Z) (e : FileEntry),
    table_inv table → length table = MAX_FILES_TOTAL →
    metadata_alloc_slot_and_lba table = Some (slot, lba, count) →
    start_lba e = lba → 0 <= sector_count e → lba + sector_count e <= UINT64_MAX →
    entry_valid e = true →
    metadata_check_lba_overlap table lba (sector_count e) = 0 ∧
    table_inv (<[Z.to_nat slot := e]> table) ∧
    valid_entries (<[Z.to_nat slot := e]> table) ≡ₚ e :: valid_entries table.
Proof.
  intros t slot lba n e Hinv Hlen Hal Hst Hsc Hmax Hv.
  destruct (alloc_some t slot lba n Hinv Hlen Hal) as (k & old & -> & Hk & Hold & Hl & Hub).
  rewrite Nat2Z.id. pose proof (lookup_lt_Some _ _ _ Hk) as Hlt. split_and!.
  - apply check_lba_overlap_iff; [done|unfold DATA_START_LBA in *; lia|lia|].
    split; [lia|]. intros x Hx Hvx. specialize (Hub x Hx Hvx). lia.
  - apply table_inv_insert; [done| |].
    + unfold range_ok. lia.
    + intros x Hx Hvx. specialize (Hub x Hx Hvx). unfold ccb_config.disjoint_ranges. lia.
  - by apply (valid_entries_insert t k old).
Qed.

Lemma metadata_append_safe_witness :
  metadata_alloc_slot_and_lba witness_table = Some (1, 1008, 1) ∧
  metadata_check_lba_overlap witness_table 1008 16 = 0 ∧
  table_inv (<[1%nat := witness_entry 1008 16]> witness_table).
Proof.
  assert (Ha : metadata_alloc_slot_and_lba witness_table = Some (1, 1008, 1))
    by reflexivity.
  split; [exact Ha|].
  destruct (metadata_append_safe witness_table 1 1008 1 (witness_entry 1008 16)
    witness_table_inv eq_refl Ha eq_refl ltac:(simpl; lia) ltac:(simpl; cint) eq_refl)
    as (H1 & H2 & _). split; [exact H1|exact H2].
Defined.

(** ** File indexes of a task *)
Definition of_task (task : list Z) (e : FileEntry) : bool :=
  entry_valid e && task_matches e task.

Lemma exists_in_cons (P : FileEntry → Prop) e t :
  (∃ x, x ∈ e :: t ∧ P x) ↔ P e ∨ ∃ x, x ∈ t ∧ P x.
Proof.
  split.
  - intros (x & [->|Hx]%elem_of_cons & Hp); [by left|right; by exists x].
  - intros [Hp|(x & Hx & Hp)]; [exists e; split; [left|done]|exists x; split; [by right|done]].
Qed.
Lemma forall_in_cons (P : FileEntry → Prop) e t :
  (∀ x, x ∈ e :: t → P x) ↔ P e ∧ ∀ x, x ∈ t → P x.
Proof.
  split.
  - intros H. split; [apply H; left|intros x Hx; apply H; by right].
  - intros [He Ht] x [->|Hx]%elem_of_cons; auto.
Qed.

Lemma resolve_scan t task : ∀ ex mx,
  let '(ex', mx') := foldl (resolve_step task) (ex, mx) t in
  (ex' = true ↔ ex = true ∨ ∃ e, e ∈ t ∧ of_task task e = true) ∧ mx <= mx' ∧
  (∀ e, e ∈ t → of_task task e = true → file_index e <= mx') ∧
  (mx' = mx ∨ ∃ e, e ∈ t ∧ of_task task e = true ∧ mx' = file_index e).
Proof.
  induction t as [|e t IH]; intros ex mx.
  { simpl. split_and!; [|lia|intros ? []%elem_of_nil|by left].
    split; [auto|]. by intros [?|(? & []%elem_of_nil & _)]. }
  change (foldl (resolve_step task) (ex, mx) (e :: t))
    with (foldl (resolve_step task) (resolve_step task (ex, mx) e) t).
  unfold resolve_step at 2.
  destruct (negb (entry_valid e) || negb (task_matches e task)) eqn:Hm.
  - specialize (IH ex mx). destruct (foldl _ _ _) as [ex' mx'].
    assert (Hno : of_task task e = false) by (unfold of_task; lia).
    destruct IH as (Hex & Hle & Hub & Hat).
    rewrite !exists_in_cons, forall_in_cons, Hex, Hno. split_and!; try done.
    + intuition done.
    + intuition auto.
  - assert (Hyes : of_task task e = true) by (unfold of_task; lia). simpl.
    set (mx1 := if mx <? file_index e then file_index e else mx).
    assert (H1 : mx <= mx1 ∧ file_index e <= mx1 ∧ (mx1 = mx ∨ mx1 = file_index e))
      by (subst mx1; destruct (Z.ltb_spec mx (file_index e)); lia).
    specialize (IH true mx1). destruct (foldl _ _ _) as [ex' mx'].
    destruct IH as (Hex & Hle & Hub & Hat).
    rewrite !exists_in_cons, forall_in_cons, Hex, Hyes.
    split_and!; [intuition auto|lia|intros; lia|done|].
    destruct Hat as [->|Hat]; [|by right; right].
    destruct H1 as (_ & _ & [-> | ->]); [by left|by right; left].
Qed.

Lemma find_from_none t task index : ∀ i,
  find_from i t task index = None ↔ ∀ e, e ∈ t → find_step task index e = false.
Proof.
  induction t as [|e t IH]; intros i; simpl; [set_solver|].
  destruct (find_step task index e) eqn:Hf.
  - split; [done|]. intros Hall. specialize (Hall e ltac:(set_solver)). congruence.
  - rewrite IH. set_solver.
Qed.

Lemma find_from_first t task index : ∀ i k e,
  t !! k = Some e → find_step task index e = true →
  (∀ j x, (j < k)%nat → t !! j = Some x → find_step task index x = false) →
  find_from i t task index = Some (i + Z.of_nat k, e).
Proof.
  induction t as [|x t IH]; intros i [|k] e Hk Hf Hb; simplify_eq/=.
  - rewrite Hf. by rewrite Z.add_0_r.
  - rewrite (Hb 0%nat x) by (done || lia). rewrite (IH (i + 1) k e); [f_equal; f_equal; lia|done..|].
    intros j y Hj Hy. by apply (Hb (S j) y); [lia|].
Qed.

(** resolved file indexes are fresh.  For a request in 16 bits the result
    is the request itself when the task has no file or none with an index as
    large, and otherwise one above the task's largest index; resolution fails
    only when that would leave 16 bits.  No entry of the task has the resolved
    index: the lookup fails, and after the new entry is stored in any slot the
    lookup returns exactly that slot and entry. *)
Theorem resolved_index_fresh :
  ∀ (table : list FileEntry) (task : list Z) (requested : Z),
    length table = MAX_FILES_TOTAL → Forall entry_ok table → 0 <= requested →
    match metadata_resolve_file_index table task requested with
    | None => UINT16_MAX < requested ∨
        ∃ e, e ∈ table ∧ of_task task e = true ∧ file_index e = UINT16_MAX
    | Some index =>
        requested <= index <= UINT16_MAX ∧
        (index = requested ∨
         ∃ e, e ∈ table ∧ of_task task e = true ∧ index = file_index e + 1) ∧
        metadata_find_by_task table task index = None ∧
        ∀ k e, (k < MAX_FILES_TOTAL)%nat → of_task task e = true → file_index e = index →
          metadata_find_by_task (<[k := e]> table) task index = Some (Z.of_nat k, e)
    end.
Proof.
  intros t task req Hlen Hok Hreq. unfold metadata_resolve_file_index.
  destruct (Z.ltb_spec UINT16_MAX req); [by left|].
  pose proof (resolve_scan t task false 0) as Hs.
  destruct (foldl _ _ _) as [ex mx]. destruct Hs as (Hex & Hmx & Hub & Hat).
  assert (Hidx : ∀ e, e ∈ t → is_u16 (file_index e)).
  { intros e He. rewrite Forall_forall in Hok. apply (Hok e He). }
  assert (Hfresh : ∀ index, (∀ e, e ∈ t → of_task task e = true → file_index e < index) →
    metadata_find_by_task t task index = None ∧
    ∀ k e, (k < MAX_FILES_TOTAL)%nat → of_task task e = true → file_index e = index →
      metadata_find_by_task (<[k := e]> t) task index = Some (Z.of_nat k, e)).
  { intros index Hlt.
    assert (Hno : ∀ e, e ∈ t → find_step task index e = false).
    { intros e He. specialize (Hlt e He). unfold of_task, find_step in *. lia. }
    split; [by apply find_from_none|]. intros k e Hk Ho Hi.
    unfold metadata_find_by_task. rewrite <- (Z.add_0_l (Z.of_nat k)).
    apply find_from_first.
    - apply list_lookup_insert_eq. lia.
    - unfold of_task, find_step in *. lia.
    - intros j x Hj Hx. rewrite list_lookup_insert_ne in Hx by lia.
      apply Hno. by eapply list_elem_of_lookup_2. }
  destruct ex; simpl.
  - destruct (Z.ltb_spec mx req).
    + split_and!; [lia|lia|by left|..]; apply Hfresh; intros e He Ho;
        specialize (Hub e He Ho); lia.
    + destruct (proj1 Hex eq_refl) as [|(e0 & He0 & Ho0)]; [done|].
      assert (Hatt : ∃ e, e ∈ t ∧ of_task task e = true ∧ mx = file_index e).
      { destruct Hat as [->|Hat]; [|done]. exists e0. specialize (Hub e0 He0 Ho0).
        specialize (Hidx e0 He0). split_and!; [done|done|cint]. }
      destruct Hatt as (e & He & Ho & ->). specialize (Hidx e He).
      destruct (Z.leb_spec UINT16_MAX (file_index e)).
      * right. exists e. split_and!; [done|done|cint].
      * rewrite u32_small by cint.
        split_and!; [cint|cint|right; by exists e|..]; apply Hfresh; intros x Hx Hox;
          specialize (Hub x Hx Hox); lia.
  - split_and!; [lia|lia|by left|..]; apply Hfresh; intros e He Ho; exfalso;
      enough (false = true) by done; apply Hex; right; by exists e.
Qed.

Lemma witness_entries_ok : Forall entry_ok witness_table.
Proof.
  unfold witness_table. constructor; [|apply Forall_replicate, zero_entry_ok].
  split; simpl; try cint. split; [done|]. repeat constructor; unfold is_byte; lia.
Qed.

Lemma resolved_index_fresh_witness :
  metadata_resolve_file_index witness_table (replicate 11 65) 2 = Some 4 ∧
  metadata_find_by_task witness_table (replicate 11 65) 4 = None.
Proof.
  split; [reflexivity|].
  exact (proj1 (proj2 (proj2 (resolved_index_fresh witness_table (replicate 11 65) 2
    eq_refl witness_entries_ok ltac:(lia))))).
Defined.

(** ** The table file *)
Lemma table_bytes_length t :
  Forall entry_ok t → length (table_bytes t) = (32 * length t)%nat.
Proof.
  induction 1 as [|e t He _ IH]; [done|].
  change (table_bytes (e :: t)) with (entry_bytes e ++ table_bytes t).
  rewrite length_app, IH, entry_bytes_length; [simpl; lia|apply He].
Qed.

Lemma read_entries_bytes t : ∀ n,
  Forall entry_ok t → (length t <= n)%nat → read_entries n (table_bytes t) = t.
Proof.
  induction t as [|e t IH]; intros n Hok Hn.
  { by destruct n. }
  apply Forall_cons in Hok as [He Hok]. destruct n as [|n]; [simpl in Hn; lia|].
  change (table_bytes (e :: t)) with (entry_bytes e ++ table_bytes t). simpl.
  pose proof (entry_bytes_length e (proj1 (eo_task e He))) as Hl.
  rewrite decide_False by (rewrite length_app; unfold FILE_ENTRY_SIZE; lia).
  rewrite bytes_entry_bytes by done. f_equal.
  rewrite drop_app_length' by done. apply IH; [done|simpl in Hn; lia].
Qed.

(** The table survives a write and a read.  Reading a channel's table
    after writing it returns the same 128 entries; when the file system runs out
    of room after [k] entries the write reports -1 and a later read returns those
    [k] entries followed by empty ones - the rest of the table is gone, also the
    entries that the file held before. *)
Theorem metadata_roundtrip :
  ∀ (io : meta_io) (ch : ChannelConfig) (path : string) (table : list FileEntry),
    mkdir_ok io = true → build_metadata_path (meta_dir io) (id ch) 512 = Some path →
    open_w io path = true → open_r io path = true → read_error io path = false →
    length table = MAX_FILES_TOTAL → Forall entry_ok table →
    let '(rc, io') := metadata_write ch table io in
    let kept := Nat.min (write_room io path) MAX_FILES_TOTAL in
    rc = (if decide (MAX_FILES_TOTAL <= write_room io path)%nat then 0 else -1) ∧
    fst (metadata_read ch io') =
      Some (take kept table ++ replicate (MAX_FILES_TOTAL - kept) zero_entry).
Proof.
  intros io ch path t Hmk Hpath How Hor Hre Hlen Hok.
  unfold metadata_write, write_metadata_to_file. rewrite Hmk. simpl negb. cbv iota.
  rewrite Hpath, How. simpl negb. cbv iota.
  rewrite firstn_all2 by lia. rewrite Hlen.
  set (kept := Nat.min (write_room io path) MAX_FILES_TOTAL).
  split.
  { destruct (decide (MAX_FILES_TOTAL <= write_room io path)%nat);
      [rewrite decide_True by lia|rewrite decide_False by lia]; done. }
  unfold metadata_read, read_metadata_from_file. cbv [upd].
  cbn [mkdir_ok meta_dir meta_files open_r read_error].
  rewrite Hmk. cbn [negb]. rewrite Hpath, lookup_insert_eq, Hor, Hre. cbn [negb].
  rewrite read_entries_bytes; [|by apply Forall_take|rewrite length_take; lia].
  rewrite length_take, Hlen. by replace (Nat.min kept MAX_FILES_TOTAL) with kept by lia.
Qed.

Definition witness_io : meta_io :=
  mkMetaIo "/run/ccb" true (λ _, true) (λ _, false) (λ _, true) (λ _, 128%nat) ∅.

Lemma metadata_roundtrip_witness :
  ∃ ch, ccb_config.find_channel 0 = Some ch ∧
    fst (metadata_write ch witness_table witness_io) = 0 ∧
    fst (metadata_read ch (snd (metadata_write ch witness_table witness_io)))
      = Some witness_table.
Proof.
  destruct (ccb_config.find_channel 0) as [ch|] eqn:Hc; [|discriminate Hc].
  exists ch. split; [reflexivity|].
  assert (Hp : build_metadata_path "/run/ccb" (id ch) 512 = Some "/run/ccb/meta_ch0.bin"%string)
    by (injection Hc as <-; reflexivity).
  pose proof (metadata_roundtrip witness_io ch _ witness_table eq_refl Hp eq_refl eq_refl
    eq_refl eq_refl witness_entries_ok) as H.
  destruct (metadata_write ch witness_table witness_io) as [rc io']. simpl fst. simpl snd.
  destruct H as [H1 H2]. split; [exact H1|]. rewrite H2. reflexivity.
Defined.
End ccb_metadata.
