(* ===== verification/Config.v ===== *)
(** * Configuration ([src/src/storage_config.c], [src/include/storage_config.h])

    The process environment is a map; loading is an effect on it and on the
    list of deprecation warnings already printed. *)
From stdpp Require Import pretty.
From S2P Require Import Prelude CStdlib CcbTypes.

Module storage_config.
Import c_stdlib ccb_types.

Definition MIB : Z := 1024 * 1024.
Definition DEFAULT_UART_DEVICE : string := "/dev/ttyUL1".
Definition DEFAULT_STATUS_TIMEOUT_MS : Z := 100.
Definition DEFAULT_FIRST_DATA_TIMEOUT_MS : Z := 5000.
Definition DEFAULT_PERF_INTERVAL_MS : Z := 1000.
Definition STORAGE_CONFIG_UART_PATH_MAX : nat := 256.
Definition CCB_INTERNAL_STORAGE_WORKER : string := "CCB_INTERNAL_STORAGE_WORKER".

Inductive CcbLogLevel := CCB_LOG_ERROR | CCB_LOG_INFO | CCB_LOG_PERF | CCB_LOG_DEBUG.
Inductive StorageProfile := STORAGE_PROFILE_SAFE_QD1 | STORAGE_PROFILE_PERF_QD8.
Inductive StorageWriterMode := STORAGE_WRITER_LEGACY | STORAGE_WRITER_CROSS_SLOT.
#[export] Instance StorageProfile_eq_dec : EqDecision StorageProfile.
Proof. solve_decision. Defined.
#[export] Instance CcbLogLevel_eq_dec : EqDecision CcbLogLevel.
Proof. solve_decision. Defined.

Record ChannelStorageConfig : Type := mkChannelStorage {
  channel : Z;
  writer_mode : StorageWriterMode;
  ring_bytes : Z;
  descriptor_bytes : Z;
  command_bytes : Z;
  nvme_qd : Z;
  max_active_slots : Z;
  cq_batch : Z;
  writer_realtime : bool;
  writer_priority : Z;
  producer_realtime : bool;
  producer_priority : Z }.

Record AppConfig : Type := mkAppConfig {
  uart_device : string;
  log_level : CcbLogLevel;
  perf_enabled : bool;
  perf_interval_ms : Z;
  status_timeout_ms : Z;
  first_data_timeout_ms : Z;
  storage_profile : StorageProfile;
  legacy_compat_mode : bool;
  dump_diag_on_error : bool;
  auto_input_complete : bool;
  idle_scan_interval_ms : Z;
  idle_required_ms : Z;
  idle_required_scans : Z;
  drain_stable_scans : Z;
  drain_stable_us : Z;
  channels : list ChannelStorageConfig }.

(** [g_config], [g_config_loaded], [g_deprecated_names] (its count is the length)
    and the lines printed on stderr. *)
Record config_state : Type := mkConfigState {
  env : environ;
  g_deprecated_names : list string;
  stderr_names : list string;
  g_config : option AppConfig }.
#[export] Instance eta_config_state : EtaOf config_state := λ s,
  mkConfigState (env s) (g_deprecated_names s) (stderr_names s) (g_config s).

Definition ceff (A : Type) : Type := Eff config_state A.
Definition cgetenv (name : string) : ceff (option string) := λ s, (getenv (env s) name, s).

Definition text_is_false (value : option string) : bool :=
  match value with
  | None => true
  | Some v => bool_decide (v ∈ [""; "0"; "false"; "FALSE"; "off"; "OFF"; "no"; "NO"]%string)
  end.

Definition storage_config_legacy_compat_enabled : ceff bool :=
  let! v := cgetenv "CCB_STORAGE_COMPAT_MODE" in eret (negb (text_is_false v)).

Definition is_profile_override_name (name : string) : bool :=
  String.prefix "SRC_REAL_" name &&
  (strstr name "NVME_CMD_KIB" || strstr name "NVME_QD" || strstr name "CROSS_SLOT_QD" ||
   strstr name "MAX_ACTIVE" || strstr name "CROSS_SLOT_BATCH" || strstr name "TARGET_QD" ||
   strstr name "CQ_BATCH" || strstr name "CROSS_SLOT_ENABLED" ||
   strstr name "CROSS_SLOT_CH" || bool_decide (name = "SRC_REAL_CROSS_SLOT"%string) ||
   strstr name "WRITER_RT_POLICY" || strstr name "PRODUCER_RT_POLICY" ||
   strstr name "WRITER_RT_PRIO" || strstr name "PRODUCER_RT_PRIO" ||
   strstr name "STORAGE_RING_BYTES" || strstr name "STORAGE_DMA_DESC_BYTES").

(** 128 names of 96 bytes; a full table prints but does not remember. *)
Definition warn_deprecated_once (name : string) : ceff () := λ s,
  if bool_decide (name = ""%string) then (tt, s)
  else if bool_decide (name ∈ g_deprecated_names s) then (tt, s)
  else
    let s1 := if decide (length (g_deprecated_names s) < 128)%nat
              then s <| g_deprecated_names ::= λ l, l ++ [c_snprintf_s 96 name] |>
              else s in
    (tt, s1 <| stderr_names ::= λ l, l ++ [name] |>).

Definition is_storage_worker_process : ceff bool :=
  let! v := cgetenv CCB_INTERNAL_STORAGE_WORKER in eret (negb (text_is_false v)).

Definition global_names : list string :=
  [ "SRC_REAL_NVME_CMD_KIB"; "SRC_REAL_NVME_QD"; "SRC_REAL_TARGET_QD";
    "SRC_REAL_MAX_ACTIVE"; "SRC_REAL_CQ_BATCH"; "SRC_REAL_CROSS_SLOT";
    "SRC_REAL_CROSS_SLOT_ENABLED"; "SRC_REAL_WRITER_RT_POLICY";
    "SRC_REAL_PRODUCER_RT_POLICY"; "SRC_REAL_STORAGE_RING_BYTES";
    "SRC_REAL_STORAGE_DMA_DESC_BYTES" ]%string.

Definition channel_names : list (string * string) :=
  [ ("SRC_REAL_NVME_CMD_KIB_CH", ""); ("SRC_REAL_NVME_QD_CH", "");
    ("SRC_REAL_TARGET_QD_CH", ""); ("SRC_REAL_MAX_ACTIVE_CH", "");
    ("SRC_REAL_CQ_BATCH_CH", ""); ("SRC_REAL_CROSS_SLOT_CH", "");
    ("SRC_REAL_CH", "_TARGET_QD"); ("SRC_REAL_CH", "_CQ_BATCH");
    ("SRC_REAL_CH", "_WRITER_RT_PRIO"); ("SRC_REAL_CH", "_PRODUCER_RT_PRIO");
    ("SRC_REAL_STORAGE_RING_BYTES_CH", ""); ("SRC_REAL_STORAGE_DMA_DESC_BYTES_CH", "") ]%string.

Fixpoint warn_present (names : list string) : ceff () :=
  match names with
  | [] => eret tt
  | n :: names =>
    let! v := cgetenv n in
    let! _ := (if non_empty v then warn_deprecated_once n else eret tt) in
    warn_present names
  end.

Definition channel_override_names (ch : Z) : list string :=
  (λ p : string * string, c_snprintf_s 96 (p.1 ++ pretty ch ++ p.2)%string) <$> channel_names.

Definition warn_profile_overrides_once : ceff () :=
  let! worker := is_storage_worker_process in
  if worker : bool then eret tt
  else
    let! _ := warn_present global_names in
    warn_present (concat (channel_override_names <$> [0; 1; 2])).

(** [name] is never NULL at the call sites. *)
Definition storage_config_compat_getenv (name : string) : ceff (option string) :=
  let! value := cgetenv name in
  let! worker := is_storage_worker_process in
  let! _ := (if non_empty value && String.prefix "SRC_REAL_" name && negb worker
             then warn_deprecated_once name else eret tt) in
  let! compat := storage_config_legacy_compat_enabled in
  if non_empty value && is_profile_override_name name && negb compat
  then eret None else eret value.

Definition read_primary_or_legacy (primary : string) (legacy : option string)
  : ceff (option string) :=
  let! value := cgetenv primary in
  if non_empty value then eret value else
  match legacy with
  | None => eret None
  | Some l =>
    let! value := cgetenv l in
    let! _ := (if non_empty value then warn_deprecated_once l else eret tt) in
    eret value
  end.

(** [inl] is -1; [inr None] leaves [*out] as it was. *)
Definition parse_u32 (name : string) (value : option string) (minimum maximum : Z)
  : string + option Z :=
  match value with
  | None | Some EmptyString => inr None
  | Some v =>
    match strtoul_full v 10 with
    | Some p => if (p <? minimum) || (maximum <? p)
                then inl ("invalid " ++ name ++ "=" ++ v)%string else inr (Some (u32 p))
    | None => inl ("invalid " ++ name ++ "=" ++ v)%string
    end
  end.

Definition parse_legacy_us (name : string) (value : option string) : string + option Z :=
  match parse_u32 name value 1000 UINT32_MAX with
  | inl e => inl e
  | inr None => inr None
  | inr (Some us) => inr (Some (us / 1000))
  end.

Definition parse_log_level (value : option string) : option CcbLogLevel :=
  match value with
  | None => Some CCB_LOG_INFO
  | Some v =>
    if bool_decide (v ∈ [""; "info"; "summary"]%string) then Some CCB_LOG_INFO
    else if bool_decide (v ∈ ["error"; "critical"; "quiet"]%string) then Some CCB_LOG_ERROR
    else if bool_decide (v = "perf"%string) then Some CCB_LOG_PERF
    else if bool_decide (v ∈ ["debug"; "trace"]%string) then Some CCB_LOG_DEBUG
    else None
  end.

Definition parse_profile (value : option string) : option StorageProfile :=
  match value with
  | None => Some STORAGE_PROFILE_PERF_QD8
  | Some v =>
    if bool_decide (v ∈ [""; "PERF_QD8"; "perf_qd8"; "perf"]%string)
    then Some STORAGE_PROFILE_PERF_QD8
    else if bool_decide (v ∈ ["SAFE_QD1"; "safe_qd1"; "safe"]%string)
    then Some STORAGE_PROFILE_SAFE_QD1
    else None
  end.

Definition set_channel_profile (profile : StorageProfile) : list ChannelStorageConfig :=
  let safe := bool_decide (profile = STORAGE_PROFILE_SAFE_QD1) in
  (λ ch,
    let low := ch =? LOW_SPEED_CHANNEL_ID in
    mkChannelStorage ch (if low then STORAGE_WRITER_LEGACY else STORAGE_WRITER_CROSS_SLOT)
      (if low then CHANNEL2_DDR_BYTES else CHANNEL0_DDR_BYTES)
      (if low then 16 * MIB else 8 * MIB) (256 * 1024)
      (if safe then 1 else 8) (if safe then 1 else if low then 1 else 4)
      (if safe then 1 else 8) false 0 false 0) <$> [0; 1; 2].

Definition lift_parse {A} (r : string + A) : ceff (string + A) := eret r.
Definition lift {A} (m : ceff A) : ceff (string + A) := let! a := m in xret a.

(** A primary variable in its own unit, otherwise the deprecated one. *)
Definition load_timeout (primary : string) (max dflt : Z) (legacy_name : string)
  : ceff (string + Z) :=
  let? value := lift (cgetenv primary) in
  if non_empty value then
    let? v := lift_parse (parse_u32 primary value 1 max) in
    xret (default dflt v)
  else
    let? legacy := lift (cgetenv legacy_name) in
    let? _ := lift (if non_empty legacy then warn_deprecated_once legacy_name else eret tt) in
    let? v := lift_parse (parse_legacy_us legacy_name legacy) in
    xret (default dflt v).

Definition load_perf_interval : ceff (string + Z) :=
  let? value := lift (cgetenv "CCB_PERF_INTERVAL_MS") in
  if non_empty value then
    let? v := lift_parse (parse_u32 "CCB_PERF_INTERVAL_MS" value 100 60000) in
    xret (default DEFAULT_PERF_INTERVAL_MS v)
  else
    let? legacy := lift (cgetenv "SRC_REAL_PERF_LOG_INTERVAL_SEC") in
    if non_empty legacy then
      let? _ := lift (warn_deprecated_once "SRC_REAL_PERF_LOG_INTERVAL_SEC") in
      let? v := lift_parse (parse_u32 "SRC_REAL_PERF_LOG_INTERVAL_SEC" legacy 1 60) in
      xret (u32 (default 0 v * 1000))
    else xret DEFAULT_PERF_INTERVAL_MS.

Definition storage_config_load : ceff (string + AppConfig) :=
  let? uart := lift (cgetenv "UART_DEV_PATH") in
  let? lvl := lift (read_primary_or_legacy "CCB_LOG_LEVEL" (Some "SRC_REAL_LOG_LEVEL"%string)) in
  match parse_log_level lvl with
  | None => xfail ("invalid CCB_LOG_LEVEL=" ++ default "" lvl)%string
  | Some level =>
  let? prof := lift (cgetenv "CCB_STORAGE_PROFILE") in
  match parse_profile prof with
  | None => xfail ("invalid CCB_STORAGE_PROFILE=" ++ default "" prof)%string
  | Some profile =>
  let? compat := lift storage_config_legacy_compat_enabled in
  let? _ := lift warn_profile_overrides_once in
  let? status := load_timeout "CCB_STATUS_TIMEOUT_MS" 60000 DEFAULT_STATUS_TIMEOUT_MS
                   "SRC_REAL_STATUS_TIMEOUT_US" in
  let? first := load_timeout "CCB_FIRST_DATA_TIMEOUT_MS" 3600000
                  DEFAULT_FIRST_DATA_TIMEOUT_MS "SRC_REAL_FIRST_DMA_TIMEOUT_US" in
  let? perf := lift (read_primary_or_legacy "CCB_PERF_ENABLE"
                       (Some "SRC_REAL_PERF_LOG_ENABLE"%string)) in
  let? interval := load_perf_interval in
  let? dump := lift (read_primary_or_legacy "CCB_DUMP_DIAG_ON_ERROR"
                       (Some "SRC_REAL_DUMP_EVENT_RING_ON_ERROR"%string)) in
  xret (mkAppConfig
    (c_snprintf_s STORAGE_CONFIG_UART_PATH_MAX
       (if non_empty uart then default "" uart else DEFAULT_UART_DEVICE)%string)
    level (negb (text_is_false perf)) interval status first profile compat
    (negb (text_is_false dump)) true 100 500 5 3 100 (set_channel_profile profile))
  end end.

(** [storage_config_load_global]: the first success is kept for good. *)
Definition storage_config_load_global : ceff Z := λ s,
  match g_config s with
  | Some _ => (0, s)
  | None =>
    match storage_config_load s with
    | (inl _, s') => (-1, s')
    | (inr c, s') => (0, s' <| g_config := Some c |>)
    end
  end.

Definition storage_config_get : ceff (option AppConfig) := λ s,
  let '(rc, s') := storage_config_load_global s in
  (if rc =? 0 then g_config s' else None, s').

Definition storage_config_channel (config : option AppConfig) (channel : Z)
  : option ChannelStorageConfig :=
  c ← config; if channel <? NUM_CHANNELS then channels c !! Z.to_nat channel else None.

Definition storage_config_profile_name (p : StorageProfile) : string :=
  if bool_decide (p = STORAGE_PROFILE_SAFE_QD1) then "SAFE_QD1" else "PERF_QD8".
Definition storage_config_log_level_name (l : CcbLogLevel) : string :=
  match l with
  | CCB_LOG_ERROR => "ERROR" | CCB_LOG_INFO => "INFO" | CCB_LOG_PERF => "PERF"
  | CCB_LOG_DEBUG => "DEBUG" end.

(** ** The environment is only read *)
Definition env_const {A} (m : ceff A) : Prop := ∀ s, env (snd (m s)) = env s.

Create HintDb config discriminated.
Lemma env_const_ret {A} (a : A) : env_const (eret a).
Proof. done. Qed.
Lemma env_const_bind {A B} (m : ceff A) (k : A → ceff B) :
  env_const m → (∀ a, env_const (k a)) → env_const (ebind m k).
Proof.
  intros Hm Hk s. unfold ebind. specialize (Hm s). destruct (m s) as [a s1]. simpl in *.
  by rewrite Hk.
Qed.
Lemma env_const_xbind {E A B} (m : ceff (E + A)) (k : A → ceff (E + B)) :
  env_const m → (∀ a, env_const (k a)) → env_const (xbind m k).
Proof. intros. apply env_const_bind; [done|]. intros [e|a]; [done|auto]. Qed.
Lemma env_const_getenv n : env_const (cgetenv n).
Proof. done. Qed.
Lemma env_const_warn n : env_const (warn_deprecated_once n).
Proof. intros s. unfold warn_deprecated_once. repeat case_match; done. Qed.
Lemma env_const_if {A} (b : bool) (m1 m2 : ceff A) :
  env_const m1 → env_const m2 → env_const (if b then m1 else m2).
Proof. by destruct b. Qed.
Lemma env_const_lift {A} (m : ceff A) : env_const m → env_const (lift m).
Proof. intros. by apply env_const_bind. Qed.
#[export] Hint Resolve env_const_ret env_const_bind env_const_xbind env_const_getenv
  env_const_warn env_const_if env_const_lift : config.

Lemma env_const_read p l : env_const (read_primary_or_legacy p l).
Proof. unfold read_primary_or_legacy. destruct l; auto 10 with config. Qed.
Lemma env_const_warn_present ns : env_const (warn_present ns).
Proof. induction ns; simpl; auto 10 with config. Qed.
Lemma env_const_profile_warnings : env_const warn_profile_overrides_once.
Proof.
  unfold warn_profile_overrides_once, is_storage_worker_process.
  auto 10 using env_const_warn_present with config.
Qed.
Lemma env_const_compat_enabled : env_const storage_config_legacy_compat_enabled.
Proof. unfold storage_config_legacy_compat_enabled. auto with config. Qed.
Lemma env_const_compat_getenv n : env_const (storage_config_compat_getenv n).
Proof.
  unfold storage_config_compat_getenv, is_storage_worker_process.
  auto 10 using env_const_compat_enabled with config.
Qed.
Lemma env_const_timeout p m d l : env_const (load_timeout p m d l).
Proof. unfold load_timeout, lift_parse, xret. auto 15 with config. Qed.
Lemma env_const_interval : env_const load_perf_interval.
Proof. unfold load_perf_interval, lift_parse, xret. auto 15 with config. Qed.
#[export] Hint Resolve env_const_read env_const_profile_warnings env_const_timeout
  env_const_interval env_const_compat_enabled env_const_compat_getenv : config.

(** The variables that can influence the loaded configuration. *)
Definition config_variables : list string :=
  [ "UART_DEV_PATH"; "CCB_LOG_LEVEL"; "SRC_REAL_LOG_LEVEL"; "CCB_STORAGE_PROFILE";
    "CCB_STORAGE_COMPAT_MODE"; "CCB_STATUS_TIMEOUT_MS"; "SRC_REAL_STATUS_TIMEOUT_US";
    "CCB_FIRST_DATA_TIMEOUT_MS"; "SRC_REAL_FIRST_DMA_TIMEOUT_US"; "CCB_PERF_ENABLE";
    "SRC_REAL_PERF_LOG_ENABLE"; "CCB_PERF_INTERVAL_MS"; "SRC_REAL_PERF_LOG_INTERVAL_SEC";
    "CCB_DUMP_DIAG_ON_ERROR"; "SRC_REAL_DUMP_EVENT_RING_ON_ERROR" ]%string.

Definition agree (s1 s2 : config_state) : Prop :=
  ∀ n, n ∈ config_variables → env s1 !! n = env s2 !! n.

(** [m] computes the same result from environments that agree. *)
Definition determined {A} (m : ceff A) : Prop :=
  env_const m ∧ ∀ s1 s2, agree s1 s2 → fst (m s1) = fst (m s2).

Lemma agree_step {A B} (m1 : ceff A) (m2 : ceff B) s1 s2 :
  env_const m1 → env_const m2 → agree s1 s2 → agree (snd (m1 s1)) (snd (m2 s2)).
Proof. intros H1 H2 Ha n Hn. rewrite H1, H2. by apply Ha. Qed.

Lemma determined_ret {A} (a : A) : determined (eret a).
Proof. done. Qed.
Lemma determined_bind {A B} (m : ceff A) (k : A → ceff B) :
  determined m → (∀ a, determined (k a)) → determined (ebind m k).
Proof.
  intros [Hc Hm] Hk. split; [apply env_const_bind; [done|apply Hk]|].
  intros s1 s2 Ha. unfold ebind.
  pose proof (Hm s1 s2 Ha) as Hr. pose proof (agree_step m m s1 s2 Hc Hc Ha) as Ha'.
  destruct (m s1) as [a1 s1'], (m s2) as [a2 s2']. simpl in *. subst. by apply Hk.
Qed.
Lemma determined_xbind {E A B} (m : ceff (E + A)) (k : A → ceff (E + B)) :
  determined m → (∀ a, determined (k a)) → determined (xbind m k).
Proof. intros. apply determined_bind; [done|]. intros [e|a]; [by apply determined_ret|auto]. Qed.
Lemma determined_getenv n : n ∈ config_variables → determined (cgetenv n).
Proof. intros Hn. split; [done|]. intros s1 s2 Ha. by apply Ha. Qed.
Lemma determined_unit (m : ceff ()) : env_const m → determined m.
Proof. intros. split; [done|]. intros. by destruct (fst (m s1)), (fst (m s2)). Qed.
Lemma determined_if {A} (b : bool) (m1 m2 : ceff A) :
  determined m1 → determined m2 → determined (if b then m1 else m2).
Proof. by destruct b. Qed.
Lemma determined_lift {A} (m : ceff A) : determined m → determined (lift m).
Proof. intros. by apply determined_bind. Qed.
#[export] Hint Resolve determined_ret determined_bind determined_xbind determined_getenv
  determined_unit determined_if determined_lift : config.

Ltac in_vars := repeat (first [left | right]); fail.
Lemma determined_read p l :
  p ∈ config_variables → l ∈ config_variables →
  determined (read_primary_or_legacy p (Some l)).
Proof. intros. unfold read_primary_or_legacy. auto 10 with config. Qed.
Lemma determined_timeout p m d l :
  p ∈ config_variables → l ∈ config_variables → determined (load_timeout p m d l).
Proof. intros. unfold load_timeout, lift_parse, xret. auto 15 with config. Qed.

(** Only fifteen variables configure the system.  Two environments that
    agree on [config_variables] load the same configuration or fail with the
    same message; in particular none of the SRC_REAL_ profile override
    variables, which the program still warns about, can change it. *)
Theorem config_load_frame :
  ∀ (s1 s2 : config_state),
    (∀ n, n ∈ config_variables → env s1 !! n = env s2 !! n) →
    fst (storage_config_load s1) = fst (storage_config_load s2).
Proof.
  assert (Hin : ∀ n, bool_decide (n ∈ config_variables) = true → n ∈ config_variables)
    by (intros n; apply bool_decide_eq_true_1).
  enough (determined storage_config_load) as [_ H] by exact H.
  unfold storage_config_load, xfail, xret, storage_config_legacy_compat_enabled,
    load_perf_interval, lift_parse, xret.
  apply determined_xbind; [by apply determined_lift, determined_getenv, Hin|intros uart].
  apply determined_xbind; [by apply determined_lift, determined_read; apply Hin|intros lvl].
  destruct (parse_log_level lvl); [|done].
  apply determined_xbind; [by apply determined_lift, determined_getenv, Hin|intros prof].
  destruct (parse_profile prof); [|done].
  apply determined_xbind.
  { apply determined_lift, determined_bind; [by apply determined_getenv, Hin|done]. }
  intros compat.
  apply determined_xbind; [by apply determined_lift, determined_unit, env_const_profile_warnings|].
  intros _.
  do 2 (apply determined_xbind; [by apply determined_timeout; apply Hin|intros ?]).
  apply determined_xbind; [by apply determined_lift, determined_read; apply Hin|intros perf].
  apply determined_xbind.
  { apply determined_xbind; [by apply determined_lift, determined_getenv, Hin|intros v].
    apply determined_if; [auto with config|].
    apply determined_xbind; [by apply determined_lift, determined_getenv, Hin|intros leg].
    auto 10 with config. }
  intros interval.
  apply determined_xbind; [by apply determined_lift, determined_read; apply Hin|done].
Qed.

Definition witness_state (e : list (string * string)) : config_state :=
  mkConfigState (list_to_map e) [] [] None.

Lemma config_load_frame_witness :
  fst (storage_config_load (witness_state [("SRC_REAL_NVME_QD", "64")]%string)) =
  fst (storage_config_load (witness_state [])) ∧
  g_deprecated_names (snd (storage_config_load
    (witness_state [("SRC_REAL_NVME_QD", "64")]%string))) = ["SRC_REAL_NVME_QD"%string].
Proof.
  split; [|vm_compute; reflexivity].
  apply (config_load_frame (witness_state [("SRC_REAL_NVME_QD", "64")]%string)
           (witness_state [])).
  apply (Forall_forall (λ n, env (witness_state [("SRC_REAL_NVME_QD", "64")]%string) !! n
                             = env (witness_state []) !! n)).
  apply (bool_decide_eq_true_1 _). vm_compute. reflexivity.
Defined.

(** ** Bounds of a loaded configuration *)
Lemma parse_u32_range n v lo hi p :
  0 <= lo → hi <= UINT32_MAX → parse_u32 n v lo hi = inr (Some p) → lo <= p <= hi.
Proof.
  intros Hlo Hhi. unfold parse_u32. destruct v as [[|c v]|]; [done| |done].
  destruct (strtoul_full _ _) as [x|]; [|done].
  destruct (Z.ltb_spec x lo), (Z.ltb_spec hi x); try done. simpl.
  rewrite u32_small by cint. by intros [= <-].
Qed.

Lemma parse_legacy_range n v p :
  parse_legacy_us n v = inr (Some p) → 1 <= p <= UINT32_MAX / 1000.
Proof.
  unfold parse_legacy_us. destruct (parse_u32 _ _ _ _) as [|[us|]] eqn:Hp; try done.
  intros [= <-]. apply parse_u32_range in Hp; [|lia|lia].
  split; [apply Z.div_le_lower_bound; lia|apply Z.div_le_mono; lia].
Qed.

Lemma load_timeout_range primary max dflt legacy s v s' :
  1 <= dflt <= max → max <= UINT32_MAX → max <= UINT32_MAX / 1000 →
  load_timeout primary max dflt legacy s = (inr v, s') →
  1 <= v <= UINT32_MAX / 1000 ∧
  (non_empty (getenv (env s) primary) = true ∨ non_empty (getenv (env s) legacy) = false →
   v <= max).
Proof.
  intros Hd Hm Hm'. unfold load_timeout, lift, lift_parse, xret, xbind, ebind, eret, cgetenv.
  destruct (non_empty (getenv (env s) primary)) eqn:Hp.
  - destruct (parse_u32 _ _ _ _) as [|[p|]] eqn:Hr; [done| |]; intros [= <- _]; simpl.
    + apply parse_u32_range in Hr; lia.
    + lia.
  - destruct (non_empty (getenv (env s) legacy)) eqn:Hl.
    + destruct (warn_deprecated_once legacy s) as [[] s1].
      destruct (parse_legacy_us _ _) as [|[p|]] eqn:Hr; [done| |]; intros [= <- _]; simpl.
      * apply parse_legacy_range in Hr. split; [lia|]. by intros [|].
      * split; [lia|]. by intros [|].
    + unfold parse_legacy_us, parse_u32.
      destruct (getenv (env s) legacy) as [[|]|]; try done; intros [= <- _]; simpl; lia.
Qed.

Lemma load_interval_range s v s' :
  load_perf_interval s = (inr v, s') → 100 <= v <= 60000.
Proof.
  unfold load_perf_interval, lift, lift_parse, xret, xbind, ebind, eret, cgetenv.
  cbv beta iota. destruct (non_empty (getenv (env s) "CCB_PERF_INTERVAL_MS")).
  - destruct (parse_u32 _ _ _ _) as [|[p|]] eqn:Hr; [done| |]; intros [= <- _]; simpl.
    + apply parse_u32_range in Hr; cint.
    + unfold DEFAULT_PERF_INTERVAL_MS. lia.
  - set (leg := getenv (env s) "SRC_REAL_PERF_LOG_INTERVAL_SEC").
    destruct (non_empty leg) eqn:Hl; [|intros [= <- _]; unfold DEFAULT_PERF_INTERVAL_MS; lia].
    destruct (warn_deprecated_once "SRC_REAL_PERF_LOG_INTERVAL_SEC" s) as [[] s1].
    destruct (parse_u32 _ _ _ _) as [|[p|]] eqn:Hr; [done| |]; intros [= <- _].
    + apply parse_u32_range in Hr; [|lia|cint]. simpl. rewrite u32_small by cint. lia.
    + exfalso. unfold parse_u32 in Hr. destruct leg as [[|]|]; try done.
      by repeat case_match.
Qed.

(** What a channel profile must satisfy to be programmable. *)
Definition channel_profile_ok (c : ChannelStorageConfig) : Prop :=
  ring_bytes c mod descriptor_bytes c = 0 ∧
  descriptor_bytes c mod command_bytes c = 0 ∧
  command_bytes c mod SECTOR_SIZE = 0 ∧
  1 <= max_active_slots c <= nvme_qd c ∧ nvme_qd c <= 8 ∧ 1 <= cq_batch c <= 8 ∧
  ∃ k, ccb_config.find_channel (channel c) = Some k ∧
    ring_bytes c <= ccb_types.dma_ring_bytes k ∧
    ring_bytes c / descriptor_bytes c * DMA_DESC_ENTRY_BYTES <= desc_cpu_size k ∧
    descriptor_bytes c <= DMA_DESC_BYTES_MAX.

Lemma set_channel_profile_ok p :
  length (set_channel_profile p) = 3%nat ∧ Forall channel_profile_ok (set_channel_profile p).
Proof.
  split; [done|]. unfold set_channel_profile. simpl.
  destruct p; simpl; repeat apply Forall_cons_2; try apply Forall_nil_2;
    unfold channel_profile_ok; simpl;
    (split_and!; [done|done|done|lia|lia|lia|lia|lia|]);
    eexists; (split; [reflexivity|]); split_and!; vm_compute; congruence.
Qed.

(** a configuration that loads is in range.  Whatever the environment
    holds, every loaded value is within its documented limits, the device path
    fits its buffer, the three channel profiles can be programmed into the
    descriptor memories and divide into whole commands and sectors, and the
    safe profile runs everything at depth one.  The timeouts keep their upper
    limit except when only the deprecated microsecond variable is set. *)
Theorem config_load_bounds :
  ∀ (s : config_state) (c : AppConfig) (s' : config_state),
    storage_config_load s = (inr c, s') →
    (String.length (uart_device c) < STORAGE_CONFIG_UART_PATH_MAX)%nat ∧
    100 <= perf_interval_ms c <= 60000 ∧
    1 <= status_timeout_ms c <= 4294967 ∧ 1 <= first_data_timeout_ms c <= 4294967 ∧
    (non_empty (getenv (env s) "CCB_STATUS_TIMEOUT_MS") = true ∨
     non_empty (getenv (env s) "SRC_REAL_STATUS_TIMEOUT_US") = false →
     status_timeout_ms c <= 60000) ∧
    (non_empty (getenv (env s) "CCB_FIRST_DATA_TIMEOUT_MS") = true ∨
     non_empty (getenv (env s) "SRC_REAL_FIRST_DMA_TIMEOUT_US") = false →
     first_data_timeout_ms c <= 3600000) ∧
    channels c = set_channel_profile (storage_profile c) ∧
    Forall channel_profile_ok (channels c) ∧
    (storage_profile c = STORAGE_PROFILE_SAFE_QD1 →
     Forall (λ ch, nvme_qd ch = 1 ∧ max_active_slots ch = 1 ∧ cq_batch ch = 1) (channels c)).
Proof.
  intros s c s' H. unfold storage_config_load in H.
  apply xbind_inr in H as (uart & s1 & H1 & H).
  apply xbind_inr in H as (lvl & s2 & H2 & H).
  destruct (parse_log_level lvl) as [level|]; [|done].
  apply xbind_inr in H as (prof & s3 & H3 & H).
  destruct (parse_profile prof) as [profile|]; [|done].
  apply xbind_inr in H as (compat & s4 & H4 & H).
  apply xbind_inr in H as ([] & s5 & H5 & H).
  apply xbind_inr in H as (status & s6 & H6 & H).
  apply xbind_inr in H as (first & s7 & H7 & H).
  apply xbind_inr in H as (perf & s8 & H8 & H).
  apply xbind_inr in H as (interval & s9 & H9 & H).
  apply xbind_inr in H as (dump & s10 & H10 & H). injection H as <- <-. simpl.
  assert (E : ∀ A (m : ceff (string + A)) t r t', env_const m → m t = (r, t') → env t' = env t).
  { intros A m t r t' Hm Ht. specialize (Hm t). by rewrite Ht in Hm. }
  assert (Henv5 : env s5 = env s).
  { rewrite (E _ _ _ _ _ (env_const_lift _ env_const_profile_warnings) H5).
    rewrite (E _ _ _ _ _ (env_const_lift _ env_const_compat_enabled) H4).
    rewrite (E _ _ _ _ _ (env_const_lift _ (env_const_getenv _)) H3).
    rewrite (E _ _ _ _ _ (env_const_lift _ (env_const_read _ _)) H2).
    by rewrite (E _ _ _ _ _ (env_const_lift _ (env_const_getenv _)) H1). }
  assert (Henv6 : env s6 = env s) by
    (rewrite <- Henv5; exact (E _ _ _ _ _ (env_const_timeout _ _ _ _) H6)).
  apply load_timeout_range in H6; [|unfold DEFAULT_STATUS_TIMEOUT_MS; lia|cint|done].
  apply load_timeout_range in H7; [|unfold DEFAULT_FIRST_DATA_TIMEOUT_MS; lia|cint|done].
  rewrite Henv5 in H6. rewrite Henv6 in H7.
  change (UINT32_MAX / 1000) with 4294967 in *.
  split_and!; try tauto; try (apply load_interval_range in H9; lia).
  - apply c_snprintf_s_fits. unfold STORAGE_CONFIG_UART_PATH_MAX. lia.
  - apply set_channel_profile_ok.
  - intros ->. repeat constructor.
Qed.

Lemma config_load_bounds_witness :
  ∃ c s', storage_config_load (witness_state []) = (inr c, s') ∧
    status_timeout_ms c = 100 ∧ Forall channel_profile_ok (channels c).
Proof.
  destruct (storage_config_load (witness_state [])) as [r s'] eqn:H.
  destruct r as [e|c]; [vm_compute in H; discriminate H|].
  exists c, s'. split; [reflexivity|].
  destruct (config_load_bounds (witness_state []) c s' H)
    as (_ & _ & _ & _ & _ & _ & _ & Hc & _).
  split; [|exact Hc]. vm_compute in H. injection H as <- _. reflexivity.
Defined.

(** The deprecated microsecond variables are not held to the limit of the
    millisecond variables that replace them. *)
Theorem legacy_timeout_unbounded :
  fst (storage_config_load (witness_state [("CCB_STATUS_TIMEOUT_MS", "90000")]%string))
    = inl "invalid CCB_STATUS_TIMEOUT_MS=90000"%string ∧
  ∃ c, fst (storage_config_load
              (witness_state [("SRC_REAL_STATUS_TIMEOUT_US", "90000000")]%string)) = inr c ∧
    status_timeout_ms c = 90000.
Proof.
  split; [vm_compute; reflexivity|]. eexists. split; vm_compute; reflexivity.
Qed.
End storage_config.
