(* ===== verification/Ipc.v ===== *)
(** * Supervisor/worker messages ([src/src/ccb_storage_ipc.c],
      [src/include/ccb_storage_ipc.h])

    Deadlines and timeout arithmetic, the control and event messages with their
    memory layout (64-bit ABI), their validation, and the pipe I/O loops over a
    scripted kernel: each [read], [write] and [poll] consumes the next element
    of a script, so partial transfers, EINTR, EAGAIN and timeouts can occur
    anywhere, and an exhausted script is a call that blocks. *)
From S2P Require Import Prelude Bytes CStdlib StorageError Config.

Module storage_ipc.
Import c_stdlib storage_config.

Definition STORAGE_IPC_MAGIC : Z := 0x53544732.
Definition STORAGE_IPC_VERSION : Z := 8.

Definition EINTR : Z := 4.
Definition EIO : Z := 5.
Definition EINVAL : Z := 22.
Definition EPROTO : Z := 71.
Definition ETIMEDOUT : Z := 110.

(** ** Deadlines *)

(** [None]: -1 with ETIMEDOUT. *)
Definition storage_ipc_deadline_remaining_ms (deadline_us now_us : Z) : option Z :=
  if deadline_us <=? now_us then None
  else
    let remaining_us := deadline_us - now_us in
    let ms := remaining_us / 1000 in
    let remaining_ms := if negb (remaining_us mod 1000 =? 0) then u64 (ms + 1) else ms in
    Some (if INT_MAX <? remaining_ms then INT_MAX else remaining_ms).

Definition storage_ipc_saturating_add_u64 (a b : Z) : Z :=
  if UINT64_MAX - b <? a then UINT64_MAX else u64 (a + b).

Definition storage_ipc_saturating_mul_u64 (a b : Z) : Z :=
  if (a =? 0) || (b =? 0) then 0
  else if UINT64_MAX / b <? a then UINT64_MAX else u64 (a * b).

(** [None] is [false]. *)
Definition storage_ipc_parse_u64_env (name : string) : ceff (option Z) :=
  let! value := storage_config_compat_getenv name in
  eret (if non_empty value then
          match strtoul_full (default "" value)%string 0 with
          | Some p => if p =? 0 then None else Some p
          | None => None
          end
        else None).

Definition storage_ipc_timeout_env_us (us_name : string) (ms_name : option string)
    (fallback_us : Z) : ceff Z :=
  let! v := storage_ipc_parse_u64_env us_name in
  match v with
  | Some value => eret value
  | None =>
    match ms_name with
    | None => eret fallback_us
    | Some ms =>
      let! v := storage_ipc_parse_u64_env ms in
      eret (match v with
            | Some value => storage_ipc_saturating_mul_u64 value 1000
            | None => fallback_us end)
    end
  end.

Inductive StorageParentStopTimeoutSource : Type :=
| STORAGE_PARENT_STOP_TIMEOUT_EXPLICIT_US
| STORAGE_PARENT_STOP_TIMEOUT_EXPLICIT_MS
| STORAGE_PARENT_STOP_TIMEOUT_CALCULATED.

Record StorageParentStopTimeoutConfig : Type := mkParentStop {
  parent_timeout_us : Z;
  dma_quiesce_us : Z;
  stop_harvest_us : Z;
  writer_drain_us : Z;
  nvme_abort_us : Z;
  stage_total_us : Z;
  margin_us : Z;
  source : StorageParentStopTimeoutSource }.

Definition storage_ipc_parent_stop_timeout_source (s : StorageParentStopTimeoutSource)
  : string :=
  match s with
  | STORAGE_PARENT_STOP_TIMEOUT_EXPLICIT_US => "explicit_us"
  | STORAGE_PARENT_STOP_TIMEOUT_EXPLICIT_MS => "explicit_ms"
  | STORAGE_PARENT_STOP_TIMEOUT_CALCULATED => "calculated"
  end.

Definition storage_ipc_parent_stop_timeout_config (worker_compat_default_us : Z)
  : ceff StorageParentStopTimeoutConfig :=
  let! compat_us := storage_ipc_timeout_env_us "SRC_REAL_STORAGE_STOP_TIMEOUT_US"
      (Some "SRC_REAL_STORAGE_STOP_TIMEOUT_MS"%string) worker_compat_default_us in
  let! dma := storage_ipc_timeout_env_us "SRC_REAL_DMA_QUIESCE_TIMEOUT_US" None compat_us in
  let! harvest := storage_ipc_timeout_env_us "SRC_REAL_STOP_HARVEST_TIMEOUT_US" None compat_us in
  let! drain := storage_ipc_timeout_env_us "SRC_REAL_WRITER_DRAIN_TIMEOUT_US" None compat_us in
  let! abort := storage_ipc_timeout_env_us "SRC_REAL_NVME_ABORT_TIMEOUT_US" None
      (if drain <? compat_us then compat_us else drain) in
  let total := storage_ipc_saturating_add_u64
                 (storage_ipc_saturating_add_u64
                    (storage_ipc_saturating_add_u64 dma harvest) drain) abort in
  let margin := if total / 10 <? 5000000 then 5000000 else total / 10 in
  let! us := storage_ipc_parse_u64_env "SRC_REAL_STORAGE_PARENT_STOP_TIMEOUT_US" in
  match us with
  | Some v => eret (mkParentStop v dma harvest drain abort total margin
                      STORAGE_PARENT_STOP_TIMEOUT_EXPLICIT_US)
  | None =>
    let! ms := storage_ipc_parse_u64_env "SRC_REAL_STORAGE_PARENT_STOP_TIMEOUT_MS" in
    match ms with
    | Some v => eret (mkParentStop (storage_ipc_saturating_mul_u64 v 1000) dma harvest drain
                        abort total margin STORAGE_PARENT_STOP_TIMEOUT_EXPLICIT_MS)
    | None => eret (mkParentStop (storage_ipc_saturating_add_u64 total margin) dma harvest
                      drain abort total margin STORAGE_PARENT_STOP_TIMEOUT_CALCULATED)
    end
  end.

Definition storage_ipc_parent_stop_should_force_reap (worker_live already_forced : bool)
    (now_us deadline_us : Z) : bool :=
  worker_live && negb already_forced && negb (deadline_us =? 0) && (deadline_us <=? now_us).

(** ** Control messages *)
Definition STORAGE_CTRL_ARM : Z := 1.
Definition STORAGE_CTRL_RUN : Z := 2.
Definition STORAGE_CTRL_STOP : Z := 3.
Definition STORAGE_CTRL_AUTO_DRAIN : Z := 4.
Definition CONTROL_SIZE : nat := 32.

Record StorageControlMessage : Type := mkControl {
  c_magic : Z; c_version : Z; c_size : Z; c_type : Z; c_flags : Z;
  c_timestamp_us : Z; c_stop_epoch : Z }.

Definition storage_ipc_make_control (type timestamp_us : Z) : StorageControlMessage :=
  mkControl STORAGE_IPC_MAGIC STORAGE_IPC_VERSION (Z.of_nat CONTROL_SIZE) (u32 type) 0
    timestamp_us 0.

Definition storage_ipc_control_valid (m : StorageControlMessage) : bool :=
  (c_magic m =? STORAGE_IPC_MAGIC) && (c_version m =? STORAGE_IPC_VERSION) &&
  (c_size m =? Z.of_nat CONTROL_SIZE) && (STORAGE_CTRL_ARM <=? c_type m) &&
  (c_type m <=? STORAGE_CTRL_AUTO_DRAIN).

Definition control_bytes (m : StorageControlMessage) : list Z :=
  le_bytes 4 (c_magic m) ++ le_bytes 2 (c_version m) ++ le_bytes 2 (c_size m) ++
  le_bytes 4 (c_type m) ++ le_bytes 4 (c_flags m) ++ le_bytes 8 (c_timestamp_us m) ++
  le_bytes 8 (c_stop_epoch m).
Definition bytes_control (l : list Z) : StorageControlMessage :=
  mkControl (le_val (field 0 4 l)) (le_val (field 4 2 l)) (le_val (field 6 2 l))
    (le_val (field 8 4 l)) (le_val (field 12 4 l)) (le_val (field 16 8 l))
    (le_val (field 24 8 l)).

(** ** Worker events *)
Definition STORAGE_WORKER_READY : Z := 1.
Definition STORAGE_WORKER_ARMED : Z := 2.
Definition STORAGE_WORKER_RUNNING : Z := 3.
Definition STORAGE_WORKER_FATAL : Z := 4.
Definition STORAGE_WORKER_DRAIN_READY : Z := 5.
Definition STORAGE_WORKER_FINAL_RESULT : Z := 6.
Definition STORAGE_WORKER_PERF_SAMPLE : Z := 7.
Definition STORAGE_WORKER_DIAG_EVENT : Z := 8.
Definition STORAGE_WORKER_STOP_PHASE : Z := 9.
Definition STORAGE_WORKER_INPUT_IDLE_CANDIDATE : Z := 10.
Definition STORAGE_WORKER_INPUT_ACTIVE : Z := 11.

Definition STORAGE_WORKER_STOP_REQUESTED : Z := 1.
Definition STORAGE_WORKER_PACKET_BOUNDARY_REACHED : Z := 2.
Definition STORAGE_WORKER_DMA_QUIESCED : Z := 3.
Definition STORAGE_WORKER_HARVEST_STABLE_EMPTY : Z := 4.
Definition STORAGE_WORKER_WRITER_DRAINED : Z := 5.
Definition STORAGE_WORKER_FINALIZED : Z := 6.
Definition STORAGE_WORKER_FAILED_FATAL : Z := 7.

Definition READY_SIZE : Z := 72.
Definition PHASE_SIZE : Z := 88.
Definition FATAL_SIZE : Z := 80.
Definition DRAIN_READY_SIZE : Z := 160.
Definition FINAL_SIZE : Z := 584.
Definition PERF_SIZE : Z := 216.
Definition DIAG_SIZE : Z := 40.
Definition PAYLOAD_BYTES : nat := 584.
Definition EVENT_SIZE : nat := 616.

(** The payload union is its bytes; the views of the code are at these offsets. *)
Record StorageWorkerEvent : Type := mkEvent {
  e_magic : Z; e_version : Z; e_size : Z; e_type : Z; e_channel : Z;
  e_payload_size : Z; e_reserved : Z; e_timestamp_us : Z; e_payload : list Z }.
#[export] Instance eta_Event : EtaOf StorageWorkerEvent := λ e,
  mkEvent (e_magic e) (e_version e) (e_size e) (e_type e) (e_channel e)
    (e_payload_size e) (e_reserved e) (e_timestamp_us e) (e_payload e).

Definition ready_received_off : nat := 0%nat.
Definition ready_reason_off : nat := 8%nat.
Definition error_code_off : nat := 0%nat.
Definition phase_stop_phase_off : nat := 4%nat.
Definition received_off : nat := 8%nat.
Definition phase_epoch_off : nat := 16%nat.
Definition phase_reason_off : nat := 24%nat.
Definition fatal_reason_off : nat := 16%nat.
Definition drain_epoch_off : nat := 16%nat.
Definition drain_observed_off : nat := 24%nat.
Definition drain_primary_off : nat := 84%nat.
Definition drain_secondary_off : nat := 88%nat.
Definition drain_reason_off : nat := 92%nat.
Definition get32 (off : nat) (p : list Z) : Z := le_val (field off 4 p).
Definition get64 (off : nat) (p : list Z) : Z := le_val (field off 8 p).
(** Overwrite the bytes at an offset. *)
Definition put (off : nat) (bs : list Z) (p : list Z) : list Z :=
  take off p ++ bs ++ drop (off + length bs) p.
Definition put32 (off : nat) (v : Z) : list Z → list Z := put off (le_bytes 4 v).
Definition put64 (off : nat) (v : Z) : list Z → list Z := put off (le_bytes 8 v).
(** [snprintf] into a zeroed 64-byte field. *)
Definition put_reason (off : nat) (reason : option (list Z)) (p : list Z) : list Z :=
  match reason with None => p | Some r => put off (take 63 r) p end.

Definition is_ready_like (type : Z) : bool :=
  bool_decide (type ∈ [STORAGE_WORKER_READY; STORAGE_WORKER_ARMED; STORAGE_WORKER_RUNNING;
    STORAGE_WORKER_INPUT_IDLE_CANDIDATE; STORAGE_WORKER_INPUT_ACTIVE]).

Definition storage_ipc_event_payload_size (type : Z) : Z :=
  if is_ready_like type then READY_SIZE
  else if type =? STORAGE_WORKER_DRAIN_READY then DRAIN_READY_SIZE
  else if type =? STORAGE_WORKER_FATAL then FATAL_SIZE
  else if type =? STORAGE_WORKER_FINAL_RESULT then FINAL_SIZE
  else if type =? STORAGE_WORKER_PERF_SAMPLE then PERF_SIZE
  else if type =? STORAGE_WORKER_DIAG_EVENT then DIAG_SIZE
  else if type =? STORAGE_WORKER_STOP_PHASE then PHASE_SIZE
  else 0.

(** [now] is the answer of [storage_ipc_monotonic_us]. *)
Definition storage_ipc_make_event (now type channel : Z) (error_code : StorageErrorCode)
    (received_bytes : Z) (reason : option (list Z)) : StorageWorkerEvent :=
  let zero := replicate PAYLOAD_BYTES 0 in
  let payload :=
    if is_ready_like type then
      put_reason ready_reason_off reason (put64 ready_received_off received_bytes zero)
    else if type =? STORAGE_WORKER_DRAIN_READY then
      put_reason drain_reason_off reason
        (put64 drain_observed_off received_bytes (put32 drain_primary_off error_code zero))
    else if (type =? STORAGE_WORKER_FATAL) || (type =? STORAGE_WORKER_FINAL_RESULT) then
      put_reason fatal_reason_off reason
        (put64 received_off received_bytes (put32 error_code_off error_code zero))
    else if type =? STORAGE_WORKER_STOP_PHASE then
      put_reason phase_reason_off reason
        (put64 received_off received_bytes (put32 error_code_off error_code zero))
    else zero in
  mkEvent STORAGE_IPC_MAGIC STORAGE_IPC_VERSION (Z.of_nat EVENT_SIZE) (u32 type) channel
    (storage_ipc_event_payload_size type) 0 now payload.

Definition storage_ipc_validate_event (e : StorageWorkerEvent) : bool :=
  let p := e_payload e in
  if negb (e_magic e =? STORAGE_IPC_MAGIC) || negb (e_version e =? STORAGE_IPC_VERSION) ||
     negb (e_size e =? Z.of_nat EVENT_SIZE) || (e_type e <? STORAGE_WORKER_READY) ||
     (STORAGE_WORKER_INPUT_ACTIVE <? e_type e) then false
  else if negb (e_payload_size e =? storage_ipc_event_payload_size (e_type e)) then false
  else if e_type e =? STORAGE_WORKER_FATAL then
    storage_error_code_valid (get32 error_code_off p) &&
    bool_decide (storage_error_class (get32 error_code_off p) = STORAGE_ERROR_FATAL)
  else if e_type e =? STORAGE_WORKER_FINAL_RESULT then
    storage_error_code_valid (get32 error_code_off p)
  else if e_type e =? STORAGE_WORKER_DRAIN_READY then
    negb (get64 drain_epoch_off p =? 0) &&
    storage_error_code_valid (get32 drain_primary_off p) &&
    storage_error_code_valid (get32 drain_secondary_off p)
  else if e_type e =? STORAGE_WORKER_STOP_PHASE then
    let code := get32 error_code_off p in
    let phase := get32 phase_stop_phase_off p in
    if negb (storage_error_code_valid code) || (phase <? STORAGE_WORKER_STOP_REQUESTED) ||
       (STORAGE_WORKER_FAILED_FATAL <? phase) then false
    else if phase =? STORAGE_WORKER_FAILED_FATAL then
      bool_decide (storage_error_class code = STORAGE_ERROR_FATAL)
    else (code =? STORAGE_ERR_NONE) ||
         bool_decide (storage_error_class code = STORAGE_ERROR_DEFERRED)
  else true.

Definition storage_ipc_stop_phase_name (phase : Z) : string :=
  if phase =? STORAGE_WORKER_STOP_REQUESTED then "stop_requested"
  else if phase =? STORAGE_WORKER_PACKET_BOUNDARY_REACHED then "packet_boundary_reached"
  else if phase =? STORAGE_WORKER_DMA_QUIESCED then "dma_quiesced"
  else if phase =? STORAGE_WORKER_HARVEST_STABLE_EMPTY then "harvest_stable_empty"
  else if phase =? STORAGE_WORKER_WRITER_DRAINED then "writer_drained"
  else if phase =? STORAGE_WORKER_FINALIZED then "finalized"
  else if phase =? STORAGE_WORKER_FAILED_FATAL then "failed_fatal"
  else "invalid".

Definition event_bytes (e : StorageWorkerEvent) : list Z :=
  le_bytes 4 (e_magic e) ++ le_bytes 2 (e_version e) ++ le_bytes 2 (e_size e) ++
  le_bytes 4 (e_type e) ++ le_bytes 4 (e_channel e) ++ le_bytes 4 (e_payload_size e) ++
  le_bytes 4 (e_reserved e) ++ le_bytes 8 (e_timestamp_us e) ++ e_payload e.
Definition bytes_event (l : list Z) : StorageWorkerEvent :=
  mkEvent (le_val (field 0 4 l)) (le_val (field 4 2 l)) (le_val (field 6 2 l))
    (le_val (field 8 4 l)) (le_val (field 12 4 l)) (le_val (field 16 4 l))
    (le_val (field 20 4 l)) (le_val (field 24 8 l)) (field 32 PAYLOAD_BYTES l).

(** ** Pipe I/O over a scripted kernel *)
Inductive poll_answer : Type := PollReady | PollTimeout | PollIntr | PollErr (e : Z).

(** What the next [read] meets: bytes in the pipe (at least one), end of file,
    EINTR, another error, or EAGAIN - then the clock reads [now] and [poll]
    answers [p]. *)
Inductive read_step : Type :=
| RdBytes (b : Z) (l : list Z)
| RdEof
| RdIntr
| RdErr (e : Z)
| RdAgain (now : Z) (p : poll_answer).

(** What the next [write] meets: [n] more bytes accepted, or a failure. *)
Inductive write_step : Type :=
| WrBytes (n : nat)
| WrIntr
| WrErr (e : Z)
| WrAgain (now : Z) (p : poll_answer).

(** Bytes the kernel hands over beyond the request stay in the pipe. *)
Definition push_back (l : list Z) (script : list read_step) : list read_step :=
  match l with [] => script | b :: l => RdBytes b l :: script end.

(** Results: (return code, bytes in the buffer, script); [None] blocks. *)
Fixpoint storage_ipc_read_full (size : nat) (used : list Z) (script : list read_step)
  : option (Z * list Z * list read_step) :=
  if decide (size <= length used)%nat then Some (0, used, script)
  else match script with
  | [] => None
  | RdBytes b l :: s =>
    let want := (size - length used)%nat in
    if decide (want < length (b :: l))%nat
    then Some (0, used ++ take want (b :: l), push_back (drop want (b :: l)) s)
    else storage_ipc_read_full size (used ++ b :: l) s
  | RdEof :: _ => Some (if decide (used = []) then 1 else -1, used, script)
  | RdIntr :: s => storage_ipc_read_full size used s
  | RdErr _ :: s => Some (-1, used, s)
  | RdAgain _ _ :: s => Some (-1, used, s)
  end.

(** (return code, bytes written, script) *)
Fixpoint storage_ipc_write_full (data : list Z) (written : list Z) (script : list write_step)
  : option (Z * list Z * list write_step) :=
  match data with
  | [] => Some (0, written, script)
  | _ =>
    match script with
    | [] => None
    | WrBytes n :: s =>
      if decide (n = 0%nat) then Some (-1, written, s)
      else storage_ipc_write_full (drop n data) (written ++ take n data) s
    | WrIntr :: s => storage_ipc_write_full data written s
    | WrErr _ :: s => Some (-1, written, s)
    | WrAgain _ _ :: s => Some (-1, written, s)
    end
  end.

Definition storage_ipc_write_control (m : StorageControlMessage) (script : list write_step)
  : option (Z * list Z * list write_step) :=
  if storage_ipc_control_valid m
  then storage_ipc_write_full (control_bytes m) [] script else Some (-1, [], script).

Definition storage_ipc_write_event (e : StorageWorkerEvent) (script : list write_step)
  : option (Z * list Z * list write_step) :=
  if storage_ipc_validate_event e
  then storage_ipc_write_full (event_bytes e) [] script else Some (-1, [], script).

Definition storage_ipc_read_control (script : list read_step)
  : option (Z * StorageControlMessage * list read_step) :=
  '(rc, l, s) ← storage_ipc_read_full CONTROL_SIZE [] script;
  let m := bytes_control l in
  Some (if (rc =? 0) && negb (storage_ipc_control_valid m) then -1 else rc, m, s).

Definition storage_ipc_read_event_raw (script : list read_step)
  : option (Z * StorageWorkerEvent * list read_step) :=
  '(rc, l, s) ← storage_ipc_read_full EVENT_SIZE [] script;
  Some (rc, bytes_event l, s).
Definition storage_ipc_read_event (script : list read_step)
  : option (Z * StorageWorkerEvent * list read_step) :=
  '(rc, e, s) ← storage_ipc_read_event_raw script;
  Some (if (rc =? 0) && negb (storage_ipc_validate_event e) then -1 else rc, e, s).

(** One whole message per [write] (at most PIPE_BUF bytes): results are
    (return code, errno, bytes written, script). *)
Fixpoint write_deadline (data : list Z) (deadline_us : Z) (script : list write_step)
  : option (Z * Z * list Z * list write_step) :=
  match script with
  | [] => None
  | WrBytes n :: s =>
    if decide (n = length data) then Some (0, 0, data, s)
    else Some (-1, EIO, take n data, s)
  | WrIntr :: s => write_deadline data deadline_us s
  | WrErr e :: s => Some (-1, e, [], s)
  | WrAgain now p :: s =>
    match storage_ipc_deadline_remaining_ms deadline_us now with
    | None => Some (-1, ETIMEDOUT, [], s)
    | Some _ =>
      match p with
      | PollReady | PollIntr => write_deadline data deadline_us s
      | PollTimeout => Some (-1, ETIMEDOUT, [], s)
      | PollErr e => Some (-1, e, [], s)
      end
    end
  end.

Definition storage_ipc_write_control_deadline (m : StorageControlMessage) (deadline_us : Z)
    (script : list write_step) : option (Z * Z * list Z * list write_step) :=
  if storage_ipc_control_valid m then write_deadline (control_bytes m) deadline_us script
  else Some (-1, EINVAL, [], script).

Definition storage_ipc_write_event_deadline (e : StorageWorkerEvent) (deadline_us : Z)
    (script : list write_step) : option (Z * Z * list Z * list write_step) :=
  if negb (storage_ipc_validate_event e) || (e_type e =? STORAGE_WORKER_PERF_SAMPLE)
  then Some (-1, EINVAL, [], script)
  else write_deadline (event_bytes e) deadline_us script.

(** Samples are dropped, and counted, when the pipe is full. *)
Definition storage_ipc_try_write_event (e : StorageWorkerEvent) (expected_type : Z)
    (dropped_events : Z) (script : list write_step)
  : option (Z * Z * list Z * Z * list write_step) :=
  if negb (storage_ipc_validate_event e) || negb (e_type e =? expected_type)
  then Some (-1, EINVAL, [], dropped_events, script)
  else match script with
  | [] => None
  | WrBytes n :: s =>
    if decide (n = EVENT_SIZE) then Some (0, 0, event_bytes e, dropped_events, s)
    else Some (-1, EIO, take n (event_bytes e), dropped_events, s)
  | WrAgain _ _ :: s => Some (1, 0, [], u64 (dropped_events + 1), s)
  | WrIntr :: s => Some (-1, EINTR, [], dropped_events, s)
  | WrErr err :: s => Some (-1, err, [], dropped_events, s)
  end.
Definition storage_ipc_try_write_perf e := storage_ipc_try_write_event e STORAGE_WORKER_PERF_SAMPLE.
Definition storage_ipc_try_write_diag e := storage_ipc_try_write_event e STORAGE_WORKER_DIAG_EVENT.

(** ** The control reader: [bytes[0 .. used-1]] of an incomplete message *)
Record StorageControlReader : Type := mkReader { rd_bytes : list Z }.
Definition storage_ipc_control_reader_init : StorageControlReader := mkReader [].

Record read_result : Type := mkReadResult {
  rr_rc : Z; rr_errno : Z; rr_msg : option (list Z) }.

Definition finish_message (l : list Z) : read_result :=
  if storage_ipc_control_valid (bytes_control l) then mkReadResult 0 0 (Some l)
  else mkReadResult (-1) EPROTO (Some l).

Fixpoint storage_ipc_read_control_deadline (reader : StorageControlReader) (deadline_us : Z)
    (script : list read_step)
  : option (read_result * StorageControlReader * list read_step) :=
  let used := rd_bytes reader in
  if decide (CONTROL_SIZE <= length used)%nat
  then Some (finish_message used, mkReader [], script)
  else match script with
  | [] => None
  | RdBytes b l :: s =>
    let want := (CONTROL_SIZE - length used)%nat in
    if decide (want < length (b :: l))%nat
    then Some (finish_message (used ++ take want (b :: l)), mkReader [],
               push_back (drop want (b :: l)) s)
    else storage_ipc_read_control_deadline (mkReader (used ++ b :: l)) deadline_us s
  | RdEof :: _ =>
    Some (if decide (used = []) then mkReadResult 1 0 None
          else mkReadResult (-1) EPROTO None, reader, script)
  | RdIntr :: s => storage_ipc_read_control_deadline reader deadline_us s
  | RdErr e :: s => Some (mkReadResult (-1) e None, reader, s)
  | RdAgain now p :: s =>
    match storage_ipc_deadline_remaining_ms deadline_us now with
    | None => Some (mkReadResult (-1) ETIMEDOUT None, reader, s)
    | Some _ =>
      match p with
      | PollReady | PollIntr => storage_ipc_read_control_deadline reader deadline_us s
      | PollTimeout => Some (mkReadResult (-1) ETIMEDOUT None, reader, s)
      | PollErr e => Some (mkReadResult (-1) e None, reader, s)
      end
    end
  end.

(** ** Layouts *)
Record control_ok (m : StorageControlMessage) : Prop := {
  co_magic : is_u32 (c_magic m); co_version : is_u16 (c_version m);
  co_size : is_u16 (c_size m); co_type : is_u32 (c_type m); co_flags : is_u32 (c_flags m);
  co_time : is_u64 (c_timestamp_us m); co_epoch : is_u64 (c_stop_epoch m) }.

Record event_ok (e : StorageWorkerEvent) : Prop := {
  ev_magic : is_u32 (e_magic e); ev_version : is_u16 (e_version e);
  ev_size : is_u16 (e_size e); ev_type : is_u32 (e_type e);
  ev_channel : is_u32 (e_channel e); ev_psize : is_u32 (e_payload_size e);
  ev_reserved : is_u32 (e_reserved e); ev_time : is_u64 (e_timestamp_us e);
  ev_payload : length (e_payload e) = PAYLOAD_BYTES }.

Lemma control_bytes_length m : length (control_bytes m) = CONTROL_SIZE.
Proof. unfold control_bytes. by rewrite !length_app, !le_bytes_length. Qed.

Lemma bytes_control_bytes m : control_ok m → bytes_control (control_bytes m) = m.
Proof.
  intros [? ? ? ? ? ? ?]. destruct m as [a b c d e f g]. simpl in *.
  unfold bytes_control. f_equal.
  - trans (le_val (le_bytes 4 a)); [reflexivity|by apply (le_val_small 4 a UINT32_MAX)].
  - trans (le_val (le_bytes 2 b)); [reflexivity|by apply (le_val_small 2 b UINT16_MAX)].
  - trans (le_val (le_bytes 2 c)); [reflexivity|by apply (le_val_small 2 c UINT16_MAX)].
  - trans (le_val (le_bytes 4 d)); [reflexivity|by apply (le_val_small 4 d UINT32_MAX)].
  - trans (le_val (le_bytes 4 e)); [reflexivity|by apply (le_val_small 4 e UINT32_MAX)].
  - trans (le_val (le_bytes 8 f)); [reflexivity|by apply (le_val_small 8 f UINT64_MAX)].
  - trans (le_val (le_bytes 8 g)); [reflexivity|by apply (le_val_small 8 g UINT64_MAX)].
Qed.

Lemma event_bytes_length e :
  length (e_payload e) = PAYLOAD_BYTES → length (event_bytes e) = EVENT_SIZE.
Proof. intros H. unfold event_bytes. rewrite !length_app, !le_bytes_length, H. done. Qed.

Lemma bytes_event_bytes e : event_ok e → bytes_event (event_bytes e) = e.
Proof.
  intros [? ? ? ? ? ? ? ? Hp]. destruct e as [a b c d ch f g h p]. simpl in *.
  unfold bytes_event. f_equal.
  - trans (le_val (le_bytes 4 a)); [reflexivity|by apply (le_val_small 4 a UINT32_MAX)].
  - trans (le_val (le_bytes 2 b)); [reflexivity|by apply (le_val_small 2 b UINT16_MAX)].
  - trans (le_val (le_bytes 2 c)); [reflexivity|by apply (le_val_small 2 c UINT16_MAX)].
  - trans (le_val (le_bytes 4 d)); [reflexivity|by apply (le_val_small 4 d UINT32_MAX)].
  - trans (le_val (le_bytes 4 ch)); [reflexivity|by apply (le_val_small 4 ch UINT32_MAX)].
  - trans (le_val (le_bytes 4 f)); [reflexivity|by apply (le_val_small 4 f UINT32_MAX)].
  - trans (le_val (le_bytes 4 g)); [reflexivity|by apply (le_val_small 4 g UINT32_MAX)].
  - trans (le_val (le_bytes 8 h)); [reflexivity|by apply (le_val_small 8 h UINT64_MAX)].
  - trans (field 0 PAYLOAD_BYTES p); [reflexivity|]. by apply field_all.
Qed.

(** ** What the pipe loops do to the byte stream *)
Fixpoint script_bytes (script : list read_step) : list Z :=
  match script with
  | [] => []
  | RdBytes b l :: s => b :: l ++ script_bytes s
  | _ :: s => script_bytes s
  end.

Lemma script_bytes_push_back l s : script_bytes (push_back l s) = l ++ script_bytes s.
Proof. by destruct l. Qed.

Lemma read_full_stream size script : ∀ used rc got script',
  (length used <= size)%nat →
  storage_ipc_read_full size used script = Some (rc, got, script') →
  used ++ script_bytes script = got ++ script_bytes script' ∧
  (rc = 0 → length got = size).
Proof.
  induction script as [|[b l| | |e|now p] script IH]; intros used rc got script' Hu; simpl;
    (case_decide as Hs; [intros [= <- <- <-]; split; [done|intros; lia]|]); try done.
  - case_decide as Hw; simpl in Hw.
    + intros [= <- <- <-]. rewrite script_bytes_push_back. split.
      * rewrite <- app_assoc, (app_assoc (take _ _)). by rewrite take_drop.
      * intros _. rewrite length_app, length_take. simpl. lia.
    + intros H. apply IH in H as [Heq Hl]; [|rewrite length_app; simpl; lia].
      split; [|done]. rewrite <- Heq, <- app_assoc. done.
  - intros [= <- <- <-]. split; [done|]. by case_decide.
  - intros H. apply IH in H; done.
  - intros [= <- <- <-]. done.
  - intros [= <- <- <-]. done.
Qed.

Lemma write_full_stream script : ∀ data written rc out script',
  storage_ipc_write_full data written script = Some (rc, out, script') →
  ∃ sent, out = written ++ sent ∧ sent `prefix_of` data ∧ (rc = 0 → sent = data).
Proof.
  induction script as [|[n| |e|now p] script IH]; intros data written rc out script';
    destruct data as [|d data]; simpl;
    try (intros [= <- <- <-]; exists []; rewrite app_nil_r; split_and!; [done|apply prefix_nil|done]);
    try done.
  - case_decide as Hn.
    + intros [= <- <- <-]. exists []. rewrite app_nil_r. split_and!; [done|apply prefix_nil|done].
    + intros H. apply IH in H as (sent & -> & Hp & Hd).
      exists (take n (d :: data) ++ sent). split_and!; [by rewrite app_assoc| |].
      * rewrite <- (take_drop n (d :: data)) at 2. by apply prefix_app.
      * intros Hrc. rewrite (Hd Hrc). apply take_drop.
  - apply IH.
Qed.

Definition msg_bytes (r : read_result) : list Z := default [] (rr_msg r).

Lemma finish_message_msg l : rr_msg (finish_message l) = Some l.
Proof. unfold finish_message. by destruct (storage_ipc_control_valid _). Qed.

(** One call moves bytes from the pipe to the reader or into the message. *)
Lemma read_control_stream deadline script : ∀ reader r reader' script',
  (length (rd_bytes reader) <= CONTROL_SIZE)%nat →
  storage_ipc_read_control_deadline reader deadline script = Some (r, reader', script') →
  rd_bytes reader ++ script_bytes script
    = msg_bytes r ++ rd_bytes reader' ++ script_bytes script' ∧
  (length (rd_bytes reader') < CONTROL_SIZE)%nat ∧
  match rr_msg r with
  | Some l => r = finish_message l ∧ length l = CONTROL_SIZE
  | None => rr_rc r ≠ 0
  end.
Proof.
  assert (HC : (0 < CONTROL_SIZE)%nat) by (unfold CONTROL_SIZE; lia).
  induction script as [|[b l| | |e|now p] script IH]; intros [used] r reader' script' Hu;
    simpl; simpl in Hu;
    (case_decide as Hs;
      [intros [= <- <- <-]; unfold msg_bytes; rewrite !finish_message_msg;
       split_and!; [done|simpl; lia|done|lia]|]);
    try done.
  - case_decide as Hw; simpl in Hw.
    + intros [= <- <- <-]. rewrite script_bytes_push_back.
      set (m := used ++ take _ (b :: l)).
      unfold msg_bytes. rewrite !finish_message_msg. simpl default. subst m. split_and!; [|simpl; unfold CONTROL_SIZE; lia|done|].
      * rewrite <- app_assoc. simpl rd_bytes. rewrite app_nil_l.
        change (b :: l ++ script_bytes script) with ((b :: l) ++ script_bytes script).
        by rewrite <- (take_drop (CONTROL_SIZE - length used) (b :: l)) at 1;
          rewrite <- app_assoc.
      * rewrite length_app, length_take. simpl. lia.
    + intros H. apply IH in H as (Heq & Hl & Hm); [|simpl; rewrite length_app; simpl; lia].
      split; [|done]. rewrite <- Heq. simpl. by rewrite <- app_assoc.
  - intros [= <- <- <-]. unfold msg_bytes. case_decide; simpl; (split_and!; [done|lia|done]).
  - intros H. by apply (IH (mkReader used)) in H.
  - intros [= <- <- <-]. simpl. split_and!; [done|lia|done].
  - destruct (storage_ipc_deadline_remaining_ms _ _).
    + destruct p; try (intros H; by apply (IH (mkReader used)) in H);
        intros [= <- <- <-]; simpl; split_and!; done || lia.
    + intros [= <- <- <-]. simpl. split_and!; [done|lia|done].
Qed.

(** Any number of calls, each with its own deadline, until one blocks. *)
Fixpoint read_calls (deadlines : list Z) (reader : StorageControlReader)
    (script : list read_step)
  : list StorageControlMessage * bool * StorageControlReader * list read_step :=
  match deadlines with
  | [] => ([], false, reader, script)
  | d :: ds =>
    match storage_ipc_read_control_deadline reader d script with
    | None => ([], false, reader, script)
    | Some (r, reader', script') =>
      let '(ms, bad, reader'', script'') := read_calls ds reader' script' in
      match rr_msg r with
      | Some l => if rr_rc r =? 0 then (bytes_control l :: ms, bad, reader'', script'')
                  else (ms, true, reader'', script'')
      | None => (ms, bad, reader'', script'')
      end
    end
  end.

Lemma message_split (m : StorageControlMessage) ms l k :
  length l = CONTROL_SIZE → concat (control_bytes <$> (m :: ms)) = l ++ k →
  l = control_bytes m ∧ k = concat (control_bytes <$> ms).
Proof.
  intros Hl Heq. rewrite fmap_cons, concat_cons in Heq. apply app_inj_1 in Heq as [-> ->]; [done|].
  by rewrite control_bytes_length.
Qed.

(** Control messages survive any transport.  When the bytes in the pipe
    are a sequence of valid messages - cut into chunks anywhere, interleaved
    with EINTR, EAGAIN, expired deadlines, poll timeouts, read errors and end of
    file - any sequence of reader calls with any deadlines returns an initial
    part of exactly these messages in order and never a protocol error; the
    bytes of the others are the reader's partial message and the rest of the
    pipe, so once the pipe is drained every message has been returned. *)
Theorem control_stream_recovered :
  ∀ (ms : list StorageControlMessage) (script : list read_step) (deadlines : list Z),
    Forall (λ m, control_ok m ∧ storage_ipc_control_valid m = true) ms →
    script_bytes script = concat (control_bytes <$> ms) →
    let '(got, bad, reader, script') :=
      read_calls deadlines storage_ipc_control_reader_init script in
    ∃ later, ms = got ++ later ∧ bad = false ∧
      rd_bytes reader ++ script_bytes script' = concat (control_bytes <$> later) ∧
      (script_bytes script' = [] → later = []).
Proof.
  intros ms script deadlines Hms Hscript.
  assert (Hgen : ∀ ms reader script,
    Forall (λ m, control_ok m ∧ storage_ipc_control_valid m = true) ms →
    (length (rd_bytes reader) < CONTROL_SIZE)%nat →
    rd_bytes reader ++ script_bytes script = concat (control_bytes <$> ms) →
    let '(got, bad, reader', script') := read_calls deadlines reader script in
    ∃ later, ms = got ++ later ∧ bad = false ∧
      (length (rd_bytes reader') < CONTROL_SIZE)%nat ∧
      rd_bytes reader' ++ script_bytes script' = concat (control_bytes <$> later)).
  { clear. induction deadlines as [|d ds IH]; intros ms reader script Hms Hlt Heq; simpl.
    { exists ms. done. }
    destruct (storage_ipc_read_control_deadline reader d script)
      as [[[r reader'] script']|] eqn:Hr; [|exists ms; done].
    apply read_control_stream in Hr as (Hst & Hlt' & Hmsg); [|lia].
    rewrite Heq in Hst. unfold msg_bytes in Hst.
    destruct (rr_msg r) as [l|] eqn:Hrm; simpl in Hst.
    - destruct Hmsg as [Hfin Hlen]. destruct ms as [|m ms].
      { destruct l; [|done]. unfold CONTROL_SIZE in Hlen. simpl in Hlen. lia. }
      apply message_split in Hst as [-> Hrest]; [|done].
      apply Forall_cons in Hms as [[Hok Hv] Hms].
      specialize (IH ms reader' script' Hms Hlt' Hrest).
      destruct (read_calls ds reader' script') as [[[got bad] rd2] s2].
      rewrite Hfin. unfold finish_message. rewrite bytes_control_bytes, Hv by done.
      cbn [rr_rc]. rewrite Z.eqb_refl.
      destruct IH as (later & -> & -> & ? & ?). by exists later.
    - specialize (IH ms reader' script' Hms Hlt' (eq_sym Hst)).
      by destruct (read_calls ds reader' script') as [[[got bad] rd2] s2]. }
  specialize (Hgen ms storage_ipc_control_reader_init script Hms
    ltac:(simpl; unfold CONTROL_SIZE; lia) Hscript).
  destruct (read_calls _ _ _) as [[[got bad] reader] script'].
  destruct Hgen as (later & Hm & Hb & Hl & Hrest). exists later. split_and!; try done.
  intros Hempty. rewrite Hempty, app_nil_r in Hrest. destruct later as [|m later]; [done|].
  exfalso. rewrite Hrest, fmap_cons, concat_cons in Hl.
  rewrite length_app, control_bytes_length in Hl. lia.
Qed.

Definition witness_control (t : Z) : StorageControlMessage :=
  storage_ipc_make_control t 7.
Lemma witness_control_ok t :
  1 <= t <= 4 → control_ok (witness_control t) ∧
  storage_ipc_control_valid (witness_control t) = true.
Proof.
  intros Ht. assert (t = 1 ∨ t = 2 ∨ t = 3 ∨ t = 4) as [->|[->|[->| ->]]] by lia;
    (split; [split; vm_compute; split; congruence|reflexivity]).
Qed.

(** Two messages, the first cut after one byte with a poll timeout in between. *)
Definition witness_script : list read_step :=
  match control_bytes (witness_control 1) ++ control_bytes (witness_control 3) with
  | a :: b :: l => [RdIntr; RdBytes a []; RdAgain 10 PollTimeout; RdBytes b l; RdEof]
  | _ => []
  end.

Lemma control_stream_recovered_witness :
  script_bytes witness_script
    = concat (control_bytes <$> [witness_control 1; witness_control 3]) ∧
  ∃ later, [witness_control 1; witness_control 3]
      = (read_calls [20; 20; 20] storage_ipc_control_reader_init witness_script).1.1.1 ++ later
    ∧ later = [].
Proof.
  assert (Hs : script_bytes witness_script
    = concat (control_bytes <$> [witness_control 1; witness_control 3])) by reflexivity.
  split; [exact Hs|].
  assert (Hms : Forall (λ m, control_ok m ∧ storage_ipc_control_valid m = true)
                  [witness_control 1; witness_control 3]).
  { repeat constructor; apply witness_control_ok; lia. }
  pose proof (control_stream_recovered _ witness_script [20; 20; 20] Hms Hs) as H.
  destruct (read_calls _ _ _) as [[[got bad] reader] s'] eqn:Hr. simpl.
  destruct H as (later & Hm & _ & _ & Hl). exists later. split; [exact Hm|].
  apply Hl. vm_compute in Hr. injection Hr as _ _ _ <-. reflexivity.
Defined.

(** ** Timeout arithmetic *)
Lemma saturating_add_min a b :
  is_u64 a → is_u64 b → storage_ipc_saturating_add_u64 a b = Z.min UINT64_MAX (a + b).
Proof.
  intros Ha Hb. unfold storage_ipc_saturating_add_u64.
  destruct (Z.ltb_spec (UINT64_MAX - b) a); [cint|]. rewrite u64_small; cint.
Qed.

Lemma saturating_mul_min a b :
  is_u64 a → is_u64 b → storage_ipc_saturating_mul_u64 a b = Z.min UINT64_MAX (a * b).
Proof.
  intros Ha Hb. unfold storage_ipc_saturating_mul_u64.
  destruct (Z.eqb_spec a 0) as [->|]; [simpl; cint|].
  destruct (Z.eqb_spec b 0) as [->|]; [rewrite Z.mul_0_r; simpl; cint|]. simpl.
  assert (Hab : 0 < b) by cint.
  destruct (Z.ltb_spec (UINT64_MAX / b) a) as [Hlt|Hge].
  - assert (UINT64_MAX < b * a); [|cint].
    pose proof (Z.mul_succ_div_gt UINT64_MAX b Hab).
    assert (b * Z.succ (UINT64_MAX / b) <= b * a) by (apply Z.mul_le_mono_nonneg_l; lia). lia.
  - assert (a * b <= UINT64_MAX).
    { pose proof (Z.mul_div_le UINT64_MAX b Hab).
      assert (a * b <= UINT64_MAX / b * b) by (apply Z.mul_le_mono_nonneg_r; lia). lia. }
    rewrite u64_small; [|unfold is_u64 in *; nia]. lia.
Qed.

(** Deadlines round up.  The poll timeout computed from a deadline is
    refused once the deadline has passed; otherwise it is positive, fits an int
    and, unless clamped to INT_MAX, is the remaining time rounded up to the next
    millisecond - never shorter than the time left, and less than one
    millisecond longer. *)
Theorem deadline_rounds_up :
  ∀ (deadline_us now_us : Z),
    is_u64 deadline_us → is_u64 now_us →
    match storage_ipc_deadline_remaining_ms deadline_us now_us with
    | None => deadline_us <= now_us
    | Some ms =>
        now_us < deadline_us ∧ 1 <= ms <= INT_MAX ∧
        (deadline_us - now_us <= ms * 1000 < deadline_us - now_us + 1000 ∨
         ms = INT_MAX ∧ INT_MAX * 1000 < deadline_us - now_us)
    end.
Proof.
  intros d n Hd Hn. unfold storage_ipc_deadline_remaining_ms.
  destruct (Z.leb_spec d n); [done|].
  set (r := d - n). assert (Hr : 0 < r <= UINT64_MAX) by (subst r; cint).
  pose proof (Z.div_mod r 1000 ltac:(lia)). pose proof (Z.mod_pos_bound r 1000 ltac:(lia)).
  assert (is_u64 (r / 1000 + 1)) by (unfold is_u64, UINT64_MAX in *; lia).
  destruct (Z.eqb_spec (r mod 1000) 0); simpl.
  - destruct (Z.ltb_spec INT_MAX (r / 1000)); cint.
  - rewrite u64_small by done. destruct (Z.ltb_spec INT_MAX (r / 1000 + 1)); cint.
Qed.

Lemma deadline_rounds_up_witness :
  is_u64 5001 ∧ storage_ipc_deadline_remaining_ms 5001 0 = Some 6 ∧ 0 < 5001 ∧ 1 <= 6 <= INT_MAX.
Proof.
  assert (H1 : is_u64 5001) by cint. assert (H2 : is_u64 0) by cint.
  pose proof (deadline_rounds_up 5001 0 H1 H2) as H.
  split; [exact H1|]. split; [reflexivity|]. split; [apply H|apply H].
Defined.

Lemma parse_u64_env_range name s :
  match fst (storage_ipc_parse_u64_env name s) with
  | Some v => 0 < v <= UINT64_MAX
  | None => True
  end.
Proof.
  unfold storage_ipc_parse_u64_env, ebind, eret.
  destruct (storage_config_compat_getenv name s) as [value s1]. simpl.
  destruct (non_empty value); [|done].
  destruct (strtoul_full _ _) as [p|] eqn:Hp; [|done].
  apply strtoul_full_range in Hp; [|lia]. destruct (Z.eqb_spec p 0); [done|cint].
Qed.

Lemma timeout_env_range us ms fb s :
  is_u64 fb → is_u64 (fst (storage_ipc_timeout_env_us us ms fb s)).
Proof.
  intros Hf. unfold storage_ipc_timeout_env_us, ebind.
  pose proof (parse_u64_env_range us s) as H1.
  destruct (storage_ipc_parse_u64_env us s) as [[v|] s1]; simpl in *; [cint|].
  destruct ms as [ms|]; [|done].
  pose proof (parse_u64_env_range ms s1) as H2.
  destruct (storage_ipc_parse_u64_env ms s1) as [[v|] s2]; simpl in *; [|done].
  rewrite saturating_mul_min by cint. cint.
Qed.

(** The parent waits long enough.  Whatever the environment, the timeout
    after which the parent kills a stopping worker is positive and in 64 bits;
    unless it is set explicitly it is the sum of the four worker stages plus a
    margin of a tenth, at least five seconds, both saturating - so the worker's
    own stage timeouts always expire first. *)
Theorem parent_timeout_covers_stages :
  ∀ (worker_default_us : Z) (s : config_state),
    is_u64 worker_default_us →
    let c := fst (storage_ipc_parent_stop_timeout_config worker_default_us s) in
    0 < parent_timeout_us c <= UINT64_MAX ∧
    stage_total_us c = Z.min UINT64_MAX
      (dma_quiesce_us c + stop_harvest_us c + writer_drain_us c + nvme_abort_us c) ∧
    margin_us c = Z.max 5000000 (stage_total_us c / 10) ∧
    (source c = STORAGE_PARENT_STOP_TIMEOUT_CALCULATED →
     parent_timeout_us c = Z.min UINT64_MAX (stage_total_us c + margin_us c)).
Proof.
  intros d s Hd. unfold storage_ipc_parent_stop_timeout_config, ebind.
  pose proof (timeout_env_range "SRC_REAL_STORAGE_STOP_TIMEOUT_US"
    (Some "SRC_REAL_STORAGE_STOP_TIMEOUT_MS"%string) d s Hd) as H0.
  destruct (storage_ipc_timeout_env_us _ _ d s) as [compat s0]; simpl in H0.
  pose proof (timeout_env_range "SRC_REAL_DMA_QUIESCE_TIMEOUT_US" None compat s0 H0) as H1.
  destruct (storage_ipc_timeout_env_us _ _ compat s0) as [dma s1]; simpl in H1.
  pose proof (timeout_env_range "SRC_REAL_STOP_HARVEST_TIMEOUT_US" None compat s1 H0) as H2.
  destruct (storage_ipc_timeout_env_us _ _ compat s1) as [har s2]; simpl in H2.
  pose proof (timeout_env_range "SRC_REAL_WRITER_DRAIN_TIMEOUT_US" None compat s2 H0) as H3.
  destruct (storage_ipc_timeout_env_us _ _ compat s2) as [dr s3]; simpl in H3.
  assert (H4' : is_u64 (if dr <? compat then compat else dr)) by (destruct (dr <? compat); done).
  pose proof (timeout_env_range "SRC_REAL_NVME_ABORT_TIMEOUT_US" None _ s3 H4') as H4.
  destruct (storage_ipc_timeout_env_us _ _ _ s3) as [ab s4]; simpl in H4.
  assert (Hsum : storage_ipc_saturating_add_u64 (storage_ipc_saturating_add_u64
      (storage_ipc_saturating_add_u64 dma har) dr) ab = Z.min UINT64_MAX (dma + har + dr + ab)).
  { rewrite (saturating_add_min dma har) by done.
    rewrite (saturating_add_min _ dr) by cint. rewrite saturating_add_min by cint. cint. }
  rewrite Hsum. set (total := Z.min UINT64_MAX (dma + har + dr + ab)).
  assert (Ht : is_u64 total) by (subst total; cint).
  assert (Hmg : (if total / 10 <? 5000000 then 5000000 else total / 10)
                = Z.max 5000000 (total / 10)).
  { destruct (Z.ltb_spec (total / 10) 5000000); lia. }
  rewrite Hmg. assert (Hmr : 0 < Z.max 5000000 (total / 10) <= UINT64_MAX).
  { unfold is_u64, UINT64_MAX in *. assert (total / 10 <= total) by (apply Z.div_le_upper_bound; lia).
    lia. }
  pose proof (parse_u64_env_range "SRC_REAL_STORAGE_PARENT_STOP_TIMEOUT_US" s4) as H5.
  destruct (storage_ipc_parse_u64_env _ s4) as [[v|] s5]; simpl in *; [done|].
  pose proof (parse_u64_env_range "SRC_REAL_STORAGE_PARENT_STOP_TIMEOUT_MS" s5) as H6.
  destruct (storage_ipc_parse_u64_env _ s5) as [[v|] s6]; simpl in *.
  - rewrite saturating_mul_min by cint. split_and!; try done; cint.
  - rewrite saturating_add_min by cint. split_and!; try done; cint.
Qed.

Lemma parent_timeout_covers_stages_witness :
  let c := fst (storage_ipc_parent_stop_timeout_config 1000000 (witness_state [])) in
  is_u64 1000000 ∧ parent_timeout_us c = 9000000 ∧ 0 < parent_timeout_us c <= UINT64_MAX.
Proof.
  assert (H : is_u64 1000000) by cint. split; [exact H|]. split; [vm_compute; reflexivity|].
  exact (proj1 (parent_timeout_covers_stages 1000000 (witness_state []) H)).
Defined.

(** ** Events *)

(** The event types that [storage_ipc_make_event] alone makes acceptable. *)
Definition made_event_acceptable (type code : Z) : bool :=
  is_ready_like type || (type =? STORAGE_WORKER_PERF_SAMPLE) ||
  (type =? STORAGE_WORKER_DIAG_EVENT) ||
  ((type =? STORAGE_WORKER_FINAL_RESULT) && storage_error_code_valid code) ||
  ((type =? STORAGE_WORKER_FATAL) && storage_error_code_valid code &&
   bool_decide (storage_error_class code = STORAGE_ERROR_FATAL)).

Lemma field_put_same off bs p :
  (off + length bs <= length p)%nat → field off (length bs) (put off bs p) = bs.
Proof.
  intros H. unfold field, put. rewrite drop_app_ge by (rewrite length_take; lia).
  rewrite length_take, Nat.min_l, Nat.sub_diag, drop_0 by lia. apply take_app_length.
Qed.
Lemma field_put_before off n o bs p :
  (o + n <= off)%nat → (off <= length p)%nat → field o n (put off bs p) = field o n p.
Proof.
  intros H Hl. unfold field, put.
  rewrite drop_app_le by (rewrite length_take; lia).
  rewrite take_app_le by (rewrite length_drop, length_take; lia).
  rewrite skipn_firstn_comm, take_take. f_equal. lia.
Qed.
Lemma length_put off bs p :
  (off + length bs <= length p)%nat → length (put off bs p) = length p.
Proof. intros. unfold put. rewrite !length_app, length_take, length_drop. lia. Qed.

Lemma field_put_reason off o n r p :
  (o + n <= off)%nat → (off <= length p)%nat → field o n (put_reason off r p) = field o n p.
Proof. intros. destruct r; [by apply field_put_before|done]. Qed.

Lemma made_code_field off reason recv code :
  is_u32 code → (16 <= off <= 100)%nat →
  get32 error_code_off (put_reason off reason
    (put64 received_off recv (put32 error_code_off code (replicate PAYLOAD_BYTES 0)))) = code.
Proof.
  intros Hc Ho. unfold get32. rewrite field_put_reason.
  - trans (le_val (le_bytes 4 code)); [reflexivity|by apply (le_val_small 4 code UINT32_MAX)].
  - unfold error_code_off. lia.
  - change (length _) with 584%nat. lia.
Qed.

Lemma made_phase_field reason recv code :
  get32 phase_stop_phase_off (put_reason phase_reason_off reason
    (put64 received_off recv (put32 error_code_off code (replicate PAYLOAD_BYTES 0)))) = 0.
Proof.
  unfold get32. rewrite field_put_reason; [reflexivity| |].
  - unfold phase_stop_phase_off, phase_reason_off. lia.
  - change (length _) with 584%nat. unfold phase_reason_off. lia.
Qed.

(** what a worker may send.  An event built by [storage_ipc_make_event]
    passes the receiver's validation exactly for the start-up, input and sample
    events, for a final result whose code is in the enumeration, and for a fatal
    event whose code is in the enumeration and fatal - so a drain-ready or
    stop-phase event is rejected until its epoch or phase has been filled in. *)
Theorem make_event_validity :
  ∀ (now type channel code received : Z) (reason : option (list Z)),
    is_u32 type → is_u32 code →
    storage_ipc_validate_event
      (storage_ipc_make_event now type channel code received reason)
    = made_event_acceptable type code.
Proof.
  intros now ty ch code recv reason Hty Hc.
  unfold storage_ipc_validate_event. cbn [storage_ipc_make_event e_magic e_version e_size
    e_type e_payload_size]. rewrite (u32_small ty Hty), !Z.eqb_refl.
  destruct (decide (1 <= ty <= 11)) as [Hr|Hr].
  2: { unfold made_event_acceptable, is_ready_like.
       rewrite (bool_decide_eq_false_2 (ty ∈ _)).
       2: { rewrite !elem_of_cons, elem_of_nil.
            unfold STORAGE_WORKER_READY, STORAGE_WORKER_ARMED, STORAGE_WORKER_RUNNING,
              STORAGE_WORKER_INPUT_IDLE_CANDIDATE, STORAGE_WORKER_INPUT_ACTIVE. lia. }
       unfold STORAGE_WORKER_READY, STORAGE_WORKER_INPUT_ACTIVE, STORAGE_WORKER_PERF_SAMPLE,
         STORAGE_WORKER_DIAG_EVENT, STORAGE_WORKER_FINAL_RESULT, STORAGE_WORKER_FATAL.
       destruct (Z.ltb_spec ty 1), (Z.ltb_spec 11 ty), (Z.eqb_spec ty 7), (Z.eqb_spec ty 8),
         (Z.eqb_spec ty 6), (Z.eqb_spec ty 4); try lia; done. }
  assert (ty = 1 ∨ ty = 2 ∨ ty = 3 ∨ ty = 4 ∨ ty = 5 ∨ ty = 6 ∨ ty = 7 ∨ ty = 8 ∨ ty = 9 ∨
          ty = 10 ∨ ty = 11) as Hcases by lia.
  repeat destruct Hcases as [->|Hcases]; [..|subst ty]; try reflexivity.
  - (* FATAL *)
    change (e_payload _) with (put_reason fatal_reason_off reason
      (put64 received_off recv (put32 error_code_off code (replicate PAYLOAD_BYTES 0)))).
    rewrite made_code_field by (done || unfold fatal_reason_off; lia).
    unfold made_event_acceptable. simpl. by destruct (storage_error_code_valid code).
  - (* DRAIN_READY *)
    change (e_payload _) with (put_reason drain_reason_off reason
      (put64 drain_observed_off recv (put32 drain_primary_off code
         (replicate PAYLOAD_BYTES 0)))).
    unfold get64. rewrite field_put_reason; [reflexivity|unfold drain_epoch_off, drain_reason_off; lia|].
    change (length _) with 584%nat. unfold drain_reason_off. lia.
  - (* FINAL_RESULT *)
    change (e_payload _) with (put_reason fatal_reason_off reason
      (put64 received_off recv (put32 error_code_off code (replicate PAYLOAD_BYTES 0)))).
    rewrite made_code_field by (done || unfold fatal_reason_off; lia).
    unfold made_event_acceptable. simpl. by destruct (storage_error_code_valid code).
  - (* STOP_PHASE *)
    change (e_payload _) with (put_reason phase_reason_off reason
      (put64 received_off recv (put32 error_code_off code (replicate PAYLOAD_BYTES 0)))).
    rewrite made_code_field by (done || unfold phase_reason_off; lia).
    rewrite made_phase_field. unfold made_event_acceptable. simpl. by rewrite orb_true_r.
Qed.

Lemma make_event_validity_witness :
  is_u32 4 ∧ is_u32 STORAGE_ERR_INTERNAL ∧
  storage_ipc_validate_event
    (storage_ipc_make_event 1 4 0 STORAGE_ERR_INTERNAL 512 (Some [111; 107])) = true.
Proof.
  assert (H1 : is_u32 4) by cint.
  assert (H2 : is_u32 STORAGE_ERR_INTERNAL) by (vm_compute; split; congruence).
  split; [exact H1|]. split; [exact H2|].
  rewrite (make_event_validity 1 4 0 STORAGE_ERR_INTERNAL 512 (Some [111; 107]) H1 H2).
  reflexivity.
Defined.

(** C38: an event read is the event sent.  When writing a valid event reports
    success, the bytes put into the pipe are the event's 616 bytes and nothing
    else, whatever the partial writes were; and when those bytes, cut up in any
    way, are next in the pipe and the read does not end early, the reader
    accepts and returns exactly that event, and leaves in the pipe exactly what
    followed it. *)
Theorem event_pipe_roundtrip :
  ∀ (e : StorageWorkerEvent) (ws ws' : list write_step) (out : list Z)
    (more : list Z) (rs rs' : list read_step) (rc : Z) (e' : StorageWorkerEvent),
    event_ok e → storage_ipc_write_event e ws = Some (0, out, ws') →
    script_bytes rs = out ++ more →
    storage_ipc_read_event_raw rs = Some (0, e', rs') →
    storage_ipc_read_event rs = Some (rc, e', rs') →
    out = event_bytes e ∧ length out = 616%nat ∧
    e' = e ∧ rc = 0 ∧ script_bytes rs' = more ∧ storage_ipc_validate_event e = true.
Proof.
  intros e ws ws' out more rs rs' rc e' Hok Hw Hmore Hraw Hread.
  unfold storage_ipc_write_event in Hw.
  destruct (storage_ipc_validate_event e) eqn:Hv; [|done].
  apply write_full_stream in Hw as (sent & -> & _ & Hs). pose proof (Hs eq_refl) as ->.
  unfold storage_ipc_read_event in Hread. rewrite Hraw in Hread. simpl in Hread.
  unfold storage_ipc_read_event_raw in Hraw.
  destruct (storage_ipc_read_full EVENT_SIZE [] rs) as [[[rc' l] s']|] eqn:Hf; [|done].
  simpl in Hraw. injection Hraw as -> <- <-.
  apply read_full_stream in Hf as [Heq Hl]; [|apply Nat.le_0_l].
  simpl in Heq. rewrite Hmore in Heq. rewrite app_nil_l in Heq.
  apply app_inj_1 in Heq as [<- ->];
    [|rewrite (Hl eq_refl); apply event_bytes_length, Hok].
  rewrite (bytes_event_bytes e Hok) in *. rewrite Hv in Hread. injection Hread as <-.
  split_and!; try done. apply event_bytes_length, Hok.
Qed.

Definition witness_event : StorageWorkerEvent :=
  storage_ipc_make_event 1 STORAGE_WORKER_READY 0 0 512 (Some [111; 107]).
Lemma witness_event_ok : event_ok witness_event.
Proof. split; vm_compute; try (split; congruence). Qed.

Definition witness_event_script : list read_step :=
  match event_bytes witness_event with
  | a :: b :: l => [RdIntr; RdBytes a []; RdIntr; RdBytes b l]
  | _ => [] end.

Lemma event_pipe_roundtrip_witness :
  storage_ipc_write_event witness_event [WrBytes 100; WrIntr; WrBytes 1000]
    = Some (0, event_bytes witness_event, []) ∧
  length (event_bytes witness_event) = 616%nat ∧
  storage_ipc_validate_event witness_event = true.
Proof.
  assert (Hw : storage_ipc_write_event witness_event [WrBytes 100; WrIntr; WrBytes 1000]
    = Some (0, event_bytes witness_event, [])) by (vm_compute; reflexivity).
  split; [exact Hw|].
  destruct (event_pipe_roundtrip witness_event _ _ _ [] witness_event_script [] 0 witness_event
    witness_event_ok Hw) as (_ & Hl & _ & _ & _ & Hv); try (vm_compute; reflexivity).
  by split.
Defined.
End storage_ipc.
