(* ===== verification/Supervisor.v ===== *)
(** * The task supervisor ([src/src/ccb_storage_supervisor.c])

    The parent's view of one storage task: which worker has reached which
    lifecycle stage, the stop protocol towards the workers, the first error and
    the aggregate verdict.  Channel masks are 32-bit words; the union payloads
    that the supervisor stores are kept as their bytes.  The properties hold for
    all sequences of the parent's calls and writes. *)
From S2P Require Import Prelude Bytes StorageError CcbTypes Ipc.

Module storage_supervisor.
Import ccb_types storage_ipc.

Inductive StorageTaskTerminal : Type :=
| STORAGE_TASK_ACTIVE | STORAGE_TASK_SUCCESS | STORAGE_TASK_FAILED.
#[export] Instance StorageTaskTerminal_eq_dec : EqDecision StorageTaskTerminal.
Proof. solve_decision. Defined.

(** [WriteResult] is 504 bytes; the fields the supervisor reads. *)
Definition wr_off : nat := 80.
Definition wr_size : nat := 504.
Definition data_persisted (r : list Z) : bool := negb (byte_at 36 r =? 0).
Definition receive_integrity_ok (r : list Z) : bool := negb (byte_at 37 r =? 0).
Definition storage_integrity_ok (r : list Z) : bool := negb (byte_at 38 r =? 0).
Definition integrity_ok (r : list Z) : bool := negb (byte_at 39 r =? 0).
Definition dma_received_bytes (r : list Z) : Z := get64 48 r.
Definition nvme_completed_bytes (r : list Z) : Z := get64 80 r.
Definition file_bytes (r : list Z) : Z := get64 272 r.
Definition wr_primary_error (r : list Z) : Z := get32 352 r.
Definition wr_secondary_error (r : list Z) : Z := get32 356 r.
Definition integrity_risk (r : list Z) : list Z := c_text (drop 360 r).
Definition wr_secondary_reason (r : list Z) : list Z := c_text (drop 424 r).

Record StorageTaskSupervisor : Type := mkSup {
  target_channel_mask : Z; ready_mask : Z; armed_mask : Z; running_mask : Z;
  drained_mask : Z; final_seen_mask : Z; idle_candidate_mask : Z;
  auto_drain_sent_mask : Z; fatal_seen_mask : Z; unavailable_mask : Z;
  worker_exited_mask : Z; stop_requested_mask : Z; stop_sent_mask : Z;
  stop_failed_mask : Z; stop_epoch : Z; auto_drain_epoch : Z;
  stop_phase : list Z;
  first_fatal : bool; result_known_failed : bool; aggregate_ready : bool;
  auto_drain_triggered : bool;
  primary_error : StorageErrorCode; secondary_error : StorageErrorCode;
  fatal_channel : Z; fatal_reason : list Z; secondary_reason : list Z;
  final_result : list (list Z); drain_result : list (list Z);
  terminal : StorageTaskTerminal }.
#[export] Instance eta_Sup : EtaOf StorageTaskSupervisor := λ s,
  mkSup (target_channel_mask s) (ready_mask s) (armed_mask s) (running_mask s)
    (drained_mask s) (final_seen_mask s) (idle_candidate_mask s)
    (auto_drain_sent_mask s) (fatal_seen_mask s) (unavailable_mask s)
    (worker_exited_mask s) (stop_requested_mask s) (stop_sent_mask s)
    (stop_failed_mask s) (stop_epoch s) (auto_drain_epoch s) (stop_phase s)
    (first_fatal s) (result_known_failed s) (aggregate_ready s)
    (auto_drain_triggered s) (primary_error s) (secondary_error s)
    (fatal_channel s) (fatal_reason s) (secondary_reason s) (final_result s)
    (drain_result s) (terminal s).

Definition storage_supervisor_init (target_mask : Z) : StorageTaskSupervisor :=
  mkSup target_mask 0 0 0 0 0 0 0 0 0 0 0 0 0 0 0 [0; 0; 0] false false false false
    STORAGE_ERR_NONE STORAGE_ERR_NONE 0 [] []
    (replicate 3 (replicate wr_size 0)) (replicate 3 (replicate 160 0))
    STORAGE_TASK_ACTIVE.

Definition bit (ch : Z) : Z := if ch <? NUM_CHANNELS then Z.shiftl 1 ch else 0.
(** [(mask & b) != 0] *)
Definition has (mask b : Z) : bool := negb (Z.land mask b =? 0).

(** [snprintf(buf, 64, "%s", ...)] *)
Definition reason64 (t : list Z) : list Z := take 63 t.
Definition or_else (reason : option (list Z)) (dflt : string) : list Z :=
  match reason with None | Some [] => txt dflt | Some r => r end.

(** [first_fatal] and the reasons are set by [fail]: the class of a non-fatal
    code is promoted to an internal error. *)
Definition fail (s : StorageTaskSupervisor) (ch : Z) (code : StorageErrorCode)
    (reason : option (list Z)) : StorageTaskSupervisor :=
  let text := or_else reason "worker_fatal" in
  let code := if bool_decide (storage_error_class code = STORAGE_ERROR_FATAL)
              then code else STORAGE_ERR_INTERNAL in
  let '(p, q) := storage_error_record (primary_error s) (secondary_error s) code in
  let s1 := s <| primary_error := p |> <| secondary_error := q |> in
  let s2 :=
    if (primary_error s =? STORAGE_ERR_NONE) && negb (p =? STORAGE_ERR_NONE)
    then s1 <| first_fatal := true |> <| fatal_channel := ch |>
            <| fatal_reason := reason64 text |>
    else if (secondary_error s =? STORAGE_ERR_NONE) && negb (q =? STORAGE_ERR_NONE)
    then s1 <| secondary_reason := reason64 text |>
    else s1 in
  let s3 := s2 <| result_known_failed := true |>
               <| stop_requested_mask ::= λ m,
                    Z.lor m (Z.ldiff (target_channel_mask s) (final_seen_mask s)) |> in
  if aggregate_ready s3 then s3 <| terminal := STORAGE_TASK_FAILED |> else s3.

Definition fail_worker_exit_without_final (s : StorageTaskSupervisor) (ch : Z) :=
  fail s ch STORAGE_ERR_WORKER_EXIT (Some (txt "worker_exit_without_final")).

Definition fail_task_result (s : StorageTaskSupervisor) (ch : Z) (r : list Z)
    (fallback_code : StorageErrorCode) (fallback_reason : string) : StorageTaskSupervisor :=
  let primary := if storage_error_code_valid (wr_primary_error r) &&
                    negb (wr_primary_error r =? STORAGE_ERR_NONE)
                 then wr_primary_error r else fallback_code in
  let reason := match integrity_risk r with [] => txt fallback_reason | t => t end in
  let primary := if negb (storage_error_code_valid primary) || (primary =? STORAGE_ERR_NONE)
                 then STORAGE_ERR_INTEGRITY else primary in
  let '(p, q) := storage_error_record (primary_error s) (secondary_error s) primary in
  let '(p, q) := if storage_error_code_valid (wr_secondary_error r) &&
                    negb (wr_secondary_error r =? STORAGE_ERR_NONE)
                 then storage_error_record p q (wr_secondary_error r) else (p, q) in
  s <| primary_error := p |> <| secondary_error := q |> <| fatal_channel := ch |>
    <| fatal_reason := reason64 (or_else (Some reason) "storage_integrity_failed") |>
    <| secondary_reason ::= λ t, match wr_secondary_reason r with [] => t
                                 | u => reason64 u end |>
    <| result_known_failed := true |> <| terminal := STORAGE_TASK_FAILED |>.

Definition storage_supervisor_protocol_fail (s : StorageTaskSupervisor) (ch : Z)
    (reason : option (list Z)) : StorageTaskSupervisor :=
  fail s ch STORAGE_ERR_IPC (Some (or_else reason "event_protocol_invalid")).

(** ** The verdict *)

(** The first problem of one final result: (code, reason). *)
Definition result_problem (r : list Z) : option (StorageErrorCode * string) :=
  if negb (receive_integrity_ok r)
  then Some (STORAGE_ERR_INTEGRITY, "receive_integrity_failed"%string)
  else if negb (data_persisted r) || negb (storage_integrity_ok r) || negb (integrity_ok r)
  then Some (STORAGE_ERR_INTEGRITY, "storage_integrity_failed"%string)
  else if negb (dma_received_bytes r =? nvme_completed_bytes r)
  then Some (STORAGE_ERR_BYTE_MISMATCH, "dma_nvme_byte_mismatch"%string)
  else if negb (nvme_completed_bytes r =? file_bytes r)
  then Some (STORAGE_ERR_BYTE_MISMATCH, "nvme_file_byte_mismatch"%string)
  else None.

Definition result_of (s : StorageTaskSupervisor) (ch : Z) : list Z :=
  nth (Z.to_nat ch) (final_result s) [].

(** The loop over the channels: the first one with a problem. *)
Fixpoint check_channels (s : StorageTaskSupervisor) (chs : list Z)
  : option (Z * StorageErrorCode * string) :=
  match chs with
  | [] => None
  | ch :: rest =>
    if negb (has (target_channel_mask s) (bit ch)) then check_channels s rest
    else match result_problem (result_of s ch) with
         | Some (code, reason) => Some (ch, code, reason)
         | None => check_channels s rest
         end
  end.

Definition storage_supervisor_result_status (s : StorageTaskSupervisor)
  : StorageTaskTerminal * StorageTaskSupervisor :=
  if negb (bool_decide (terminal s = STORAGE_TASK_ACTIVE)) then (terminal s, s)
  else if negb (Z.lor (final_seen_mask s) (unavailable_mask s) =? target_channel_mask s)
  then (STORAGE_TASK_ACTIVE, s)
  else
    let s := s <| aggregate_ready := true |> in
    if first_fatal s || negb (unavailable_mask s =? 0)
    then (STORAGE_TASK_FAILED, s <| terminal := STORAGE_TASK_FAILED |>)
    else match check_channels s [0; 1; 2] with
    | Some (ch, code, reason) =>
      (STORAGE_TASK_FAILED, fail_task_result s ch (result_of s ch) code reason)
    | None =>
      if (Z.land (target_channel_mask s) 3 =? 3) &&
         negb (dma_received_bytes (result_of s 0) =? dma_received_bytes (result_of s 1))
      then (STORAGE_TASK_FAILED, fail_task_result s 0 (result_of s 0)
              STORAGE_ERR_BYTE_MISMATCH "split_channel_byte_mismatch")
      else (STORAGE_TASK_SUCCESS, s <| terminal := STORAGE_TASK_SUCCESS |>)
    end.

(** [(void)storage_supervisor_result_status(s); return rc;] *)
Definition settle (rc : Z) (s : StorageTaskSupervisor) : Z * StorageTaskSupervisor :=
  (rc, snd (storage_supervisor_result_status s)).

Definition storage_supervisor_mark_unavailable (s : StorageTaskSupervisor) (ch : Z)
    (reason : option (list Z)) : StorageTaskSupervisor :=
  let b := bit ch in
  if (b =? 0) || negb (has (target_channel_mask s) b) then s
  else
    let s := s <| worker_exited_mask ::= λ m, Z.lor m b |>
               <| unavailable_mask ::= λ m, Z.lor m b |> in
    let s := fail s ch STORAGE_ERR_WORKER_EXIT (Some (or_else reason "worker_unavailable")) in
    snd (storage_supervisor_result_status s).

(** ** Events *)
Definition reject (s : StorageTaskSupervisor) (ch code : Z) (reason : string)
  : Z * StorageTaskSupervisor := (-1, fail s ch code (Some (txt reason))).
Definition accept (s : StorageTaskSupervisor) : Z * StorageTaskSupervisor := settle 0 s.

(** The views of the payload union. *)
Definition ev_drain_epoch (e : StorageWorkerEvent) : Z := get64 drain_epoch_off (e_payload e).
Definition ev_fatal_code (e : StorageWorkerEvent) : Z := get32 error_code_off (e_payload e).
Definition ev_fatal_reason (e : StorageWorkerEvent) : list Z :=
  c_text (drop fatal_reason_off (e_payload e)).
Definition ev_phase_code (e : StorageWorkerEvent) : Z := get32 error_code_off (e_payload e).
Definition ev_stop_phase (e : StorageWorkerEvent) : Z :=
  get32 phase_stop_phase_off (e_payload e).
Definition ev_stop_epoch (e : StorageWorkerEvent) : Z := get64 phase_epoch_off (e_payload e).

Definition stop_phase_of (s : StorageTaskSupervisor) (ch : Z) : Z :=
  nth (Z.to_nat ch) (stop_phase s) 0.

(** The guard of each event type; the result is [None] when the event is in
    sequence, else the error code and reason of the failure. *)
Definition stop_phase_out_of_sequence (s : StorageTaskSupervisor) (e : StorageWorkerEvent)
  : option string :=
  let cur := stop_phase_of s (e_channel e) in
  if ev_stop_phase e =? STORAGE_WORKER_FAILED_FATAL then
    if cur =? STORAGE_WORKER_FAILED_FATAL then Some "duplicate_stop_phase"%string else None
  else if negb (ev_stop_phase e =? u32 (cur + 1)) &&
          negb ((cur =? STORAGE_WORKER_STOP_REQUESTED) &&
                (ev_stop_phase e =? STORAGE_WORKER_DMA_QUIESCED) &&
                (ev_phase_code e =? STORAGE_ERR_STOP_BOUNDARY_TIMEOUT))
       then Some "invalid_stop_phase_sequence"%string else None.

Definition storage_supervisor_handle_event (s : StorageTaskSupervisor)
    (e : StorageWorkerEvent) : Z * StorageTaskSupervisor :=
  let ch := e_channel e in
  let b := bit ch in
  let seq := reject s ch STORAGE_ERR_IPC_SEQUENCE in
  if (b =? 0) || negb (has (target_channel_mask s) b) then (-1, s)
  else if e_type e =? STORAGE_WORKER_READY then
    if has (ready_mask s) b || has (armed_mask s) b || has (running_mask s) b
    then seq "invalid_ready_sequence"%string
    else accept (s <| ready_mask ::= λ m, Z.lor m b |>)
  else if e_type e =? STORAGE_WORKER_ARMED then
    if negb (has (ready_mask s) b) || has (armed_mask s) b || has (running_mask s) b
    then seq "invalid_armed_sequence"%string
    else accept (s <| armed_mask ::= λ m, Z.lor m b |>)
  else if e_type e =? STORAGE_WORKER_RUNNING then
    if negb (has (armed_mask s) b) || has (running_mask s) b
    then seq "invalid_running_sequence"%string
    else accept (s <| running_mask ::= λ m, Z.lor m b |>)
  else if e_type e =? STORAGE_WORKER_INPUT_IDLE_CANDIDATE then
    if negb (has (running_mask s) b) || has (drained_mask s) b || has (final_seen_mask s) b
    then seq "invalid_input_idle_sequence"%string
    else accept (s <| idle_candidate_mask ::= λ m, Z.lor m b |>)
  else if e_type e =? STORAGE_WORKER_INPUT_ACTIVE then
    if negb (has (running_mask s) b) || has (drained_mask s) b ||
       has (final_seen_mask s) b || auto_drain_triggered s
    then seq "invalid_input_active_sequence"%string
    else accept (s <| idle_candidate_mask ::= λ m, Z.ldiff m b |>)
  else if e_type e =? STORAGE_WORKER_DRAIN_READY then
    if negb (has (running_mask s) b) || has (drained_mask s) b ||
       has (final_seen_mask s) b || (ev_drain_epoch e =? 0)
    then seq "invalid_drained_sequence"%string
    else
      let s := if stop_epoch s =? 0 then s <| stop_epoch := ev_drain_epoch e |> else s in
      if negb (stop_epoch s =? ev_drain_epoch e)
      then reject s ch STORAGE_ERR_IPC_SEQUENCE "drain_epoch_mismatch"
      else accept (s <| drained_mask ::= λ m, Z.lor m b |>
                     <| drain_result ::= <[Z.to_nat ch := field 0 160 (e_payload e)]> |>)
  else if e_type e =? STORAGE_WORKER_FATAL then
    if has (final_seen_mask s) b || has (fatal_seen_mask s) b
    then seq "invalid_fatal_sequence"%string
    else accept (fail (s <| fatal_seen_mask ::= λ m, Z.lor m b |>) ch (ev_fatal_code e)
                   (Some (ev_fatal_reason e)))
  else if e_type e =? STORAGE_WORKER_FINAL_RESULT then
    if has (final_seen_mask s) b then seq "duplicate_final"%string
    else if negb (has (drained_mask s) b) && negb (has (fatal_seen_mask s) b)
    then seq "invalid_final_sequence"%string
    else accept (s <| final_seen_mask ::= λ m, Z.lor m b |>
                   <| final_result ::= <[Z.to_nat ch := field wr_off wr_size (e_payload e)]> |>)
  else if e_type e =? STORAGE_WORKER_PERF_SAMPLE then
    if negb (has (running_mask s) b) || has (final_seen_mask s) b
    then seq "invalid_perf_sequence"%string else accept s
  else if e_type e =? STORAGE_WORKER_DIAG_EVENT then
    if negb (has (running_mask s) b) && negb (has (fatal_seen_mask s) b) &&
       negb (has (final_seen_mask s) b)
    then seq "invalid_diag_sequence"%string else accept s
  else if e_type e =? STORAGE_WORKER_STOP_PHASE then
    if negb (has (running_mask s) b) || has (final_seen_mask s) b || (ev_stop_epoch e =? 0) ||
       (ev_stop_phase e <? STORAGE_WORKER_STOP_REQUESTED) ||
       (STORAGE_WORKER_FAILED_FATAL <? ev_stop_phase e)
    then seq "invalid_stop_phase_event"%string
    else
      let s := if stop_epoch s =? 0 then s <| stop_epoch := ev_stop_epoch e |> else s in
      if negb (stop_epoch s =? ev_stop_epoch e)
      then reject s ch STORAGE_ERR_IPC_SEQUENCE "stop_epoch_mismatch"
      else match stop_phase_out_of_sequence s e with
      | Some reason => reject s ch STORAGE_ERR_IPC_SEQUENCE reason
      | None => accept (s <| stop_phase ::= <[Z.to_nat ch := ev_stop_phase e]> |>)
      end
  else reject s ch STORAGE_ERR_IPC "event_type_invalid".

Definition storage_supervisor_handle_event_for_channel (s : StorageTaskSupervisor)
    (expected_channel : Z) (e : StorageWorkerEvent) : Z * StorageTaskSupervisor :=
  if negb (storage_ipc_validate_event e)
  then (-1, storage_supervisor_protocol_fail s expected_channel
              (Some (txt "event_protocol_invalid")))
  else if negb (e_channel e =? expected_channel)
  then (-1, storage_supervisor_protocol_fail s expected_channel
              (Some (txt "event_channel_mismatch")))
  else storage_supervisor_handle_event s e.

(** ** Worker termination *)
Definition storage_supervisor_handle_worker_eof (s : StorageTaskSupervisor) (ch : Z)
  : Z * StorageTaskSupervisor :=
  let b := bit ch in
  if (b =? 0) || negb (has (target_channel_mask s) b) then (-1, s)
  else if has (final_seen_mask s) b then (0, s)
  else
    let s := fail s ch STORAGE_ERR_WORKER_EXIT (Some (txt "event_eof_without_final")) in
    settle (-1) (s <| unavailable_mask ::= λ m, Z.lor m b |>).

Definition storage_supervisor_handle_worker_exit (s : StorageTaskSupervisor) (ch code : Z)
  : Z * StorageTaskSupervisor :=
  let b := bit ch in
  if (b =? 0) || negb (has (target_channel_mask s) b) then (-1, s)
  else
    let s := s <| worker_exited_mask ::= λ m, Z.lor m b |> in
    if negb (has (final_seen_mask s) b) then
      let s := if negb (code =? 0) then fail_worker_exit_without_final s ch
               else fail s ch STORAGE_ERR_WORKER_EXIT (Some (txt "event_eof_without_final")) in
      settle (-1) (s <| unavailable_mask ::= λ m, Z.lor m b |>)
    else if negb (code =? 0) then
      settle (-1) (fail s ch STORAGE_ERR_WORKER_EXIT (Some (txt "worker_exit_failed")))
    else settle 0 s.

(** ** The stop and automatic-drain bookkeeping *)
Definition storage_supervisor_stop_mask (s : StorageTaskSupervisor) : Z :=
  stop_requested_mask s.

Definition storage_supervisor_auto_drain_ready (s : StorageTaskSupervisor) : bool :=
  negb (auto_drain_triggered s) && negb (target_channel_mask s =? 0) &&
  (Z.land (idle_candidate_mask s) (target_channel_mask s) =? target_channel_mask s).

Definition storage_supervisor_begin_auto_drain (s : StorageTaskSupervisor) (epoch : Z)
  : bool * StorageTaskSupervisor :=
  if negb (storage_supervisor_auto_drain_ready s) || (epoch =? 0) then (false, s)
  else (true, s <| auto_drain_triggered := true |> <| auto_drain_epoch := epoch |>).

Definition storage_supervisor_auto_drain_pending_mask (s : StorageTaskSupervisor) : Z :=
  if auto_drain_triggered s
  then Z.ldiff (target_channel_mask s) (auto_drain_sent_mask s) else 0.

Definition storage_supervisor_mark_auto_drain_sent (s : StorageTaskSupervisor) (ch : Z)
  : StorageTaskSupervisor :=
  if auto_drain_triggered s && has (target_channel_mask s) (bit ch)
  then s <| auto_drain_sent_mask ::= λ m, Z.lor m (bit ch) |> else s.

Definition storage_supervisor_request_stop (s : StorageTaskSupervisor) (channel_mask : Z)
  : StorageTaskSupervisor :=
  s <| stop_requested_mask ::= λ m, Z.lor m (Z.land channel_mask (target_channel_mask s)) |>.

Definition storage_supervisor_peek_stop_mask (s : StorageTaskSupervisor) : Z :=
  Z.ldiff (stop_requested_mask s) (stop_sent_mask s).

Definition storage_supervisor_mark_stop_sent (s : StorageTaskSupervisor) (ch : Z)
  : StorageTaskSupervisor :=
  if has (stop_requested_mask s) (bit ch)
  then s <| stop_sent_mask ::= λ m, Z.lor m (bit ch) |>
         <| stop_failed_mask ::= λ m, Z.ldiff m (bit ch) |> else s.

Definition storage_supervisor_mark_stop_failed (s : StorageTaskSupervisor) (ch : Z)
  : StorageTaskSupervisor :=
  if has (stop_requested_mask s) (bit ch)
  then s <| stop_sent_mask ::= λ m, Z.ldiff m (bit ch) |>
         <| stop_failed_mask ::= λ m, Z.lor m (bit ch) |> else s.

Definition storage_supervisor_is_terminal (s : StorageTaskSupervisor) : bool :=
  negb (bool_decide (terminal s = STORAGE_TASK_ACTIVE)).

(** ** All that the parent does to the supervisor

    Besides its calls, the parent writes the stop epoch itself, twice: to that
    of the capture task when it stops all workers, whatever the epoch was, and,
    when stops are pending and there is no epoch, before it sends them
    ([request_storage_stop_all] and [storage_try_send_pending_stops] of
    [system.c]).  Its flags of what it has announced are in [Parent]. *)
Definition parent_set_stop_epoch (s : StorageTaskSupervisor) (epoch : Z) : StorageTaskSupervisor :=
  s <| stop_epoch := epoch |>.
Definition parent_adopt_stop_epoch (s : StorageTaskSupervisor) (epoch : Z) : StorageTaskSupervisor :=
  if negb (storage_supervisor_peek_stop_mask s =? 0) && (stop_epoch s =? 0)
  then s <| stop_epoch := epoch |> else s.

Inductive sup_op : Type :=
| OpEvent (e : StorageWorkerEvent)
| OpEventForChannel (ch : Z) (e : StorageWorkerEvent)
| OpProtocolFail (ch : Z) (reason : option (list Z))
| OpUnavailable (ch : Z) (reason : option (list Z))
| OpEof (ch : Z)
| OpExit (ch code : Z)
| OpResultStatus
| OpBeginAutoDrain (epoch : Z)
| OpAutoDrainSent (ch : Z)
| OpRequestStop (mask : Z)
| OpStopSent (ch : Z)
| OpStopFailed (ch : Z)
| OpSetStopEpoch (epoch : Z)
| OpAdoptStopEpoch (epoch : Z).

Definition sup_step (s : StorageTaskSupervisor) (op : sup_op) : StorageTaskSupervisor :=
  match op with
  | OpEvent e => snd (storage_supervisor_handle_event s e)
  | OpEventForChannel ch e => snd (storage_supervisor_handle_event_for_channel s ch e)
  | OpProtocolFail ch r => storage_supervisor_protocol_fail s ch r
  | OpUnavailable ch r => storage_supervisor_mark_unavailable s ch r
  | OpEof ch => snd (storage_supervisor_handle_worker_eof s ch)
  | OpExit ch code => snd (storage_supervisor_handle_worker_exit s ch code)
  | OpResultStatus => snd (storage_supervisor_result_status s)
  | OpBeginAutoDrain epoch => snd (storage_supervisor_begin_auto_drain s epoch)
  | OpAutoDrainSent ch => storage_supervisor_mark_auto_drain_sent s ch
  | OpRequestStop mask => storage_supervisor_request_stop s mask
  | OpStopSent ch => storage_supervisor_mark_stop_sent s ch
  | OpStopFailed ch => storage_supervisor_mark_stop_failed s ch
  | OpSetStopEpoch epoch => parent_set_stop_epoch s epoch
  | OpAdoptStopEpoch epoch => parent_adopt_stop_epoch s epoch
  end.
Definition sup_run (s : StorageTaskSupervisor) (ops : list sup_op) : StorageTaskSupervisor :=
  foldl sup_step s ops.

(** ** Masks as sets of channels *)
Definition msub (a b : Z) : Prop := ∀ k, Z.testbit a k = true → Z.testbit b k = true.

Lemma msub_refl a : msub a a.
Proof. by intros k. Qed.
Lemma msub_trans a b c : msub a b → msub b c → msub a c.
Proof. intros H1 H2 k Hk. by apply H2, H1. Qed.
Lemma msub_0 a : msub 0 a.
Proof. intros k. by rewrite Z.bits_0. Qed.
Lemma msub_lor_l a b c : msub a c → msub b c → msub (Z.lor a b) c.
Proof. intros H1 H2 k. rewrite Z.lor_spec. intros [?|?]%orb_true_iff; auto. Qed.
Lemma msub_lor_r1 a b c : msub a b → msub a (Z.lor b c).
Proof. intros H k Hk. rewrite Z.lor_spec. by rewrite (H k Hk). Qed.
Lemma msub_lor_r2 a b c : msub a c → msub a (Z.lor b c).
Proof. intros H k Hk. rewrite Z.lor_spec. rewrite (H k Hk). by rewrite orb_true_r. Qed.
Lemma msub_ldiff_l a b c : msub a b → msub (Z.ldiff a c) b.
Proof. intros H k. rewrite Z.ldiff_spec. intros [? _]%andb_true_iff. auto. Qed.
Lemma msub_land_r a b c : msub b c → msub (Z.land a b) c.
Proof. intros H k. rewrite Z.land_spec. intros [_ ?]%andb_true_iff. auto. Qed.
Lemma msub_lor_eq a b c : msub a c → msub b c → msub c (Z.lor a b) → Z.lor a b = c.
Proof.
  intros H1 H2 H3. apply Z.bits_inj'. intros k _. pose proof (msub_lor_l a b c H1 H2 k).
  specialize (H3 k). destruct (Z.testbit (Z.lor a b) k), (Z.testbit c k); naive_solver.
Qed.

Lemma bit_spec ch k : Z.testbit (bit ch) k = (k =? ch) && (0 <=? ch) && (ch <? NUM_CHANNELS).
Proof.
  unfold bit. destruct (Z.ltb_spec ch NUM_CHANNELS) as [Hlt|]; [|by rewrite Z.bits_0, andb_false_r].
  destruct (Z.leb_spec 0 ch).
  - rewrite Z.shiftl_1_l, Z.pow2_bits_eqb by done. rewrite (Z.eqb_sym ch k).
    by rewrite !andb_true_r.
  - rewrite andb_false_r. rewrite Z.shiftl_div_pow2 by lia.
    rewrite Z.div_small; [apply Z.bits_0|]. split; [lia|]. apply Z.pow_gt_1; lia.
Qed.

Lemma has_bit m ch : 0 <= ch < NUM_CHANNELS → has m (bit ch) = Z.testbit m ch.
Proof.
  intros Hch. unfold has. destruct (Z.testbit m ch) eqn:Ht.
  - destruct (Z.eqb_spec (Z.land m (bit ch)) 0) as [He|]; [|done].
    assert (Z.testbit (Z.land m (bit ch)) ch = true).
    { rewrite Z.land_spec, Ht, bit_spec. lia. }
    rewrite He, Z.bits_0 in *. done.
  - destruct (Z.eqb_spec (Z.land m (bit ch)) 0) as [|Hne]; [done|]. exfalso. apply Hne.
    apply Z.bits_inj'. intros k _. rewrite Z.land_spec, bit_spec, Z.bits_0.
    destruct (Z.eqb_spec k ch) as [->|]; [by rewrite Ht|by rewrite andb_false_r].
Qed.

Lemma bit_nonzero ch : 0 <= ch → bit ch ≠ 0 → 0 <= ch < NUM_CHANNELS.
Proof. unfold bit. destruct (Z.ltb_spec ch NUM_CHANNELS); [lia|done]. Qed.

Lemma msub_bit m ch : has m (bit ch) = true → msub (bit ch) m.
Proof.
  intros Hh k Hk. rewrite bit_spec in Hk.
  assert (k = ch ∧ 0 <= ch < NUM_CHANNELS) as [-> Hch] by lia. by rewrite <- has_bit.
Qed.
Lemma msub_lor_mono a b c : msub a b → msub (Z.lor a c) (Z.lor b c).
Proof. intros. apply msub_lor_l; [by apply msub_lor_r1|by apply msub_lor_r2, msub_refl]. Qed.

Create HintDb mask discriminated.
#[export] Hint Resolve msub_refl msub_0 msub_lor_l msub_lor_r1 msub_lor_r2 msub_ldiff_l
  msub_land_r msub_bit : mask.

(** ** What [fail] and the verdict change *)
Definition after_fail (s : StorageTaskSupervisor) (ff : bool) (p q : StorageErrorCode)
    (fc : Z) (fr sr : list Z) : StorageTaskSupervisor :=
  s <| first_fatal := ff |> <| primary_error := p |> <| secondary_error := q |>
    <| fatal_channel := fc |> <| fatal_reason := fr |> <| secondary_reason := sr |>
    <| result_known_failed := true |>
    <| stop_requested_mask ::= λ m, Z.lor m (Z.ldiff (target_channel_mask s) (final_seen_mask s)) |>
    <| terminal ::= λ t, if aggregate_ready s then STORAGE_TASK_FAILED else t |>.

(** The error fields after [fail]: first_fatal, primary, secondary,
    fatal_channel, fatal_reason, secondary_reason. *)
Definition fail_parts (ff : bool) (p0 q0 fc : Z) (fr sr : list Z) (ch code : Z)
    (r : option (list Z)) : bool * Z * Z * Z * list Z * list Z :=
  let code := if bool_decide (storage_error_class code = STORAGE_ERROR_FATAL)
              then code else STORAGE_ERR_INTERNAL in
  let '(p, q) := storage_error_record p0 q0 code in
  if (p0 =? STORAGE_ERR_NONE) && negb (p =? STORAGE_ERR_NONE)
  then (true, p, q, ch, reason64 (or_else r "worker_fatal"), sr)
  else if (q0 =? STORAGE_ERR_NONE) && negb (q =? STORAGE_ERR_NONE)
  then (ff, p, q, fc, fr, reason64 (or_else r "worker_fatal"))
  else (ff, p, q, fc, fr, sr).

Lemma fail_parts_eq s ch code r :
  fail s ch code r =
  let '(ff, p, q, fc, fr, sr) := fail_parts (first_fatal s) (primary_error s)
    (secondary_error s) (fatal_channel s) (fatal_reason s) (secondary_reason s) ch code r in
  after_fail s ff p q fc fr sr.
Proof.
  unfold fail, after_fail, fail_parts.
  destruct (storage_error_record _ _ _) as [p q].
  destruct (_ && negb (p =? _)); [|destruct (_ && negb (q =? _))];
    by destruct s as [? ? ? ? ? ? ? ? ? ? ? ? ? ? ? ? ? ? ? [] ?].
Qed.

Lemma fail_eq s ch code r :
  ∃ ff p q fc fr sr, fail s ch code r = after_fail s ff p q fc fr sr ∧
    p ≠ STORAGE_ERR_NONE ∧
    (primary_error s = STORAGE_ERR_NONE → ff = true) ∧
    (primary_error s ≠ STORAGE_ERR_NONE → p = primary_error s ∧ ff = first_fatal s ∧
       fc = fatal_channel s ∧ fr = fatal_reason s).
Proof.
  rewrite fail_parts_eq. unfold fail_parts.
  set (code' := if bool_decide (storage_error_class code = STORAGE_ERROR_FATAL)
                then code else STORAGE_ERR_INTERNAL).
  assert (Hc : code' ≠ STORAGE_ERR_NONE).
  { subst code'. case_bool_decide as H; [by apply storage_error_class_fatal_ne|done]. }
  pose proof (storage_error_record_some (primary_error s) (secondary_error s) code' Hc) as Hp.
  pose proof (storage_error_record_primary_stable (primary_error s) (secondary_error s) code') as Hst.
  destruct (storage_error_record _ _ _) as [p q]. simpl in Hp, Hst.
  destruct (Z.eqb_spec p STORAGE_ERR_NONE); [done|].
  destruct (Z.eqb_spec (primary_error s) STORAGE_ERR_NONE) as [H0|H0]; cbn [negb andb].
  - by repeat eexists.
  - destruct ((secondary_error s =? STORAGE_ERR_NONE) && negb (q =? STORAGE_ERR_NONE));
      repeat eexists; auto.
Qed.

(** ** The atomic changes of the supervisor

    Every call is a sequence of the following changes, each with the condition
    its guards establish.  The invariant is proved once per change. *)
Definition in_target (s : StorageTaskSupervisor) (ch : Z) : Prop :=
  0 <= ch < NUM_CHANNELS ∧ has (target_channel_mask s) (bit ch) = true.

Inductive sup_atom (s : StorageTaskSupervisor) : StorageTaskSupervisor → Prop :=
| at_fail ch code r : sup_atom s (fail s ch code r)
| at_status : sup_atom s (snd (storage_supervisor_result_status s))
| at_ready ch : in_target s ch → sup_atom s (s <| ready_mask ::= λ m, Z.lor m (bit ch) |>)
| at_armed ch : has (ready_mask s) (bit ch) = true →
    sup_atom s (s <| armed_mask ::= λ m, Z.lor m (bit ch) |>)
| at_running ch : has (armed_mask s) (bit ch) = true →
    sup_atom s (s <| running_mask ::= λ m, Z.lor m (bit ch) |>)
| at_idle ch : has (running_mask s) (bit ch) = true →
    sup_atom s (s <| idle_candidate_mask ::= λ m, Z.lor m (bit ch) |>)
| at_active ch : sup_atom s (s <| idle_candidate_mask ::= λ m, Z.ldiff m (bit ch) |>)
| at_epoch epoch : stop_epoch s = 0 → epoch ≠ 0 → sup_atom s (s <| stop_epoch := epoch |>)
| at_drained ch p : in_target s ch → has (running_mask s) (bit ch) = true →
    stop_epoch s ≠ 0 → get64 drain_epoch_off p = stop_epoch s →
    sup_atom s (s <| drained_mask ::= λ m, Z.lor m (bit ch) |>
                  <| drain_result ::= <[Z.to_nat ch := p]> |>)
| at_fatal ch : in_target s ch → result_known_failed s = true →
    sup_atom s (s <| fatal_seen_mask ::= λ m, Z.lor m (bit ch) |>)
| at_final ch r : in_target s ch → has (final_seen_mask s) (bit ch) = false →
    has (drained_mask s) (bit ch) || has (fatal_seen_mask s) (bit ch) = true →
    sup_atom s (s <| final_seen_mask ::= λ m, Z.lor m (bit ch) |>
                  <| final_result ::= <[Z.to_nat ch := r]> |>)
| at_phase ch ph : sup_atom s (s <| stop_phase ::= <[Z.to_nat ch := ph]> |>)
| at_exited ch : in_target s ch → sup_atom s (s <| worker_exited_mask ::= λ m, Z.lor m (bit ch) |>)
| at_unavailable ch : in_target s ch → result_known_failed s = true →
    sup_atom s (s <| unavailable_mask ::= λ m, Z.lor m (bit ch) |>)
| at_auto_drain epoch : sup_atom s (s <| auto_drain_triggered := true |>
                                      <| auto_drain_epoch := epoch |>)
| at_auto_sent ch : has (target_channel_mask s) (bit ch) = true →
    sup_atom s (s <| auto_drain_sent_mask ::= λ m, Z.lor m (bit ch) |>)
| at_request mask :
    sup_atom s (s <| stop_requested_mask ::= λ m, Z.lor m (Z.land mask (target_channel_mask s)) |>)
| at_sent ch : has (stop_requested_mask s) (bit ch) = true →
    sup_atom s (s <| stop_sent_mask ::= λ m, Z.lor m (bit ch) |>
                  <| stop_failed_mask ::= λ m, Z.ldiff m (bit ch) |>)
| at_stop_failed ch : has (stop_requested_mask s) (bit ch) = true →
    sup_atom s (s <| stop_sent_mask ::= λ m, Z.ldiff m (bit ch) |>
                  <| stop_failed_mask ::= λ m, Z.lor m (bit ch) |>).

Ltac fail_commutes s :=
  rewrite !fail_parts_eq; destruct s as [? ? ? ? ? ? ? ? ? ? ? ? ? ? ? ? ? ? ? ag ? ? ? ? ? ? ? ? ?];
  cbn [primary_error secondary_error upd upd_with first_fatal fatal_channel fatal_reason
    secondary_reason];
  destruct (fail_parts _ _ _ _ _ _ _ _ _) as [[[[[? ?] ?] ?] ?] ?]; reflexivity.

(** [fail] does not look at the masks the callers set around it. *)
Lemma fail_fatal_commute s ch code r b :
  fail (s <| fatal_seen_mask ::= λ m, Z.lor m b |>) ch code r
  = (fail s ch code r) <| fatal_seen_mask ::= λ m, Z.lor m b |>.
Proof. by fail_commutes s. Qed.
Lemma fail_unavailable_commute s ch code r b b' :
  fail (s <| worker_exited_mask ::= λ m, Z.lor m b |>
          <| unavailable_mask ::= λ m, Z.lor m b' |>) ch code r
  = (fail (s <| worker_exited_mask ::= λ m, Z.lor m b |>) ch code r)
      <| unavailable_mask ::= λ m, Z.lor m b' |>.
Proof. by fail_commutes s. Qed.

Lemma fail_known s ch code r : result_known_failed (fail s ch code r) = true.
Proof. destruct (fail_eq s ch code r) as (?&?&?&?&?&?&->&_). by destruct s. Qed.
Lemma fail_target s ch code r : target_channel_mask (fail s ch code r) = target_channel_mask s.
Proof. destruct (fail_eq s ch code r) as (?&?&?&?&?&?&->&_). by destruct s. Qed.
Lemma fail_in_target s ch code r c : in_target s c → in_target (fail s ch code r) c.
Proof. unfold in_target. by rewrite fail_target. Qed.

Notation "'atoms'" := (rtc sup_atom).

Lemma atoms_status s s1 : atoms s s1 → atoms s (snd (storage_supervisor_result_status s1)).
Proof. intros H. eapply rtc_r; [exact H|apply at_status]. Qed.
Lemma atoms_settle s s1 rc : atoms s s1 → atoms s (snd (settle rc s1)).
Proof. intros H. eapply rtc_r; [exact H|apply at_status]. Qed.
Lemma atoms_accept s s1 : atoms s s1 → atoms s (snd (accept s1)).
Proof. apply atoms_settle. Qed.
Lemma atoms_reject s s1 ch code reason : atoms s s1 → atoms s (snd (reject s1 ch code reason)).
Proof. intros H. eapply rtc_r; [exact H|apply at_fail]. Qed.

Ltac atom_one H := apply atoms_accept, rtc_once; by apply H.

Lemma handle_event_atoms s e :
  0 <= e_channel e → atoms s (snd (storage_supervisor_handle_event s e)).
Proof.
  intros Hch. unfold storage_supervisor_handle_event.
  destruct ((bit (e_channel e) =? 0) || _) eqn:Hb; [done|].
  apply orb_false_iff in Hb as [Hb0 Hb]. apply negb_false_iff in Hb.
  assert (Hin : in_target s (e_channel e)).
  { split; [|done]. apply bit_nonzero; lia. }
  repeat match goal with
  | |- context [if e_type e =? ?t then _ else _] => destruct (e_type e =? t)
  end.
  - (* READY *) destruct (has (ready_mask s) _ || _ || _);
      [apply atoms_reject; done|atom_one at_ready].
  - destruct (has (ready_mask s) _) eqn:?; [|apply atoms_reject; done]. cbn [negb orb].
    destruct (_ || _); [apply atoms_reject; done|atom_one at_armed].
  - destruct (has (armed_mask s) _) eqn:?; [|apply atoms_reject; done]. cbn [negb orb].
    destruct (has (running_mask s) _); [apply atoms_reject; done|atom_one at_running].
  - destruct (has (running_mask s) _) eqn:?; [|apply atoms_reject; done]. cbn [negb orb].
    destruct (_ || _); [apply atoms_reject; done|atom_one at_idle].
  - destruct (_ || _); [apply atoms_reject; done|atom_one at_active].
  - (* DRAIN_READY *) destruct (has (running_mask s) _) eqn:Hrun; [|apply atoms_reject; done].
    cbn [negb orb]. destruct (_ || _ || _) eqn:Hg; [apply atoms_reject; done|].
    assert (Hep : ev_drain_epoch e ≠ 0) by lia.
    assert (Hf : ev_drain_epoch e = get64 drain_epoch_off (field 0 160 (e_payload e))).
    { unfold ev_drain_epoch, get64, field, drain_epoch_off. rewrite drop_0.
      by rewrite skipn_firstn_comm, take_take. }
    destruct (Z.eqb_spec (stop_epoch s) 0) as [H0|H0].
    + set (s1 := s <| stop_epoch := ev_drain_epoch e |>).
      assert (H1 : atoms s s1) by (apply rtc_once; by apply at_epoch).
      destruct (negb _); [by apply atoms_reject|].
      apply atoms_accept. eapply rtc_r; [exact H1|]. apply at_drained; by destruct s.
    + destruct (Z.eqb_spec (stop_epoch s) (ev_drain_epoch e)) as [He|He]; cbn [negb];
        [|by apply atoms_reject].
      apply atoms_accept, rtc_once. apply at_drained; try done. by rewrite He.
  - (* FATAL *) destruct (_ || _); [by apply atoms_reject|].
    apply atoms_accept. rewrite fail_fatal_commute.
    eapply rtc_l; [apply at_fail|]. apply rtc_once.
    apply at_fatal; [by apply fail_in_target|apply fail_known].
  - (* FINAL *) destruct (has (final_seen_mask s) _) eqn:Hfin; [by apply atoms_reject|].
    destruct (negb _ && negb _) eqn:Hg; [by apply atoms_reject|].
    apply atoms_accept, rtc_once, at_final; [done|done|]. lia.
  - destruct (_ || _); [by apply atoms_reject|by apply atoms_accept].
  - destruct (_ && _); [by apply atoms_reject|by apply atoms_accept].
  - (* STOP_PHASE *) destruct (_ || (STORAGE_WORKER_FAILED_FATAL <? _)) eqn:Hg; [by apply atoms_reject|].
    assert (H1 : atoms s (if stop_epoch s =? 0 then s <| stop_epoch := ev_stop_epoch e |> else s)).
    { destruct (Z.eqb_spec (stop_epoch s) 0); [|done]. apply rtc_once, at_epoch; lia. }
    destruct (negb (stop_epoch _ =? ev_stop_epoch e)); [by apply atoms_reject|].
    destruct (stop_phase_out_of_sequence _ e); [by apply atoms_reject|].
    apply atoms_accept. eapply rtc_r; [exact H1|apply at_phase].
  - by apply atoms_reject.
Qed.

(** A channel argument is an unsigned integer. *)
Definition op_ok (op : sup_op) : Prop :=
  match op with
  | OpEvent e => 0 <= e_channel e
  | OpEventForChannel ch e => 0 <= ch ∧ 0 <= e_channel e
  | OpProtocolFail ch _ | OpUnavailable ch _ | OpEof ch | OpExit ch _
  | OpAutoDrainSent ch | OpStopSent ch | OpStopFailed ch => 0 <= ch
  | _ => True
  end.

Lemma guard_in_target s ch :
  0 <= ch → (bit ch =? 0) || negb (has (target_channel_mask s) (bit ch)) = false →
  in_target s ch.
Proof.
  intros Hch [H0 H1]%orb_false_iff. apply negb_false_iff in H1. split; [|done].
  apply bit_nonzero; lia.
Qed.


Lemma handle_exit_atoms s ch code :
  0 <= ch → atoms s (snd (storage_supervisor_handle_worker_exit s ch code)).
Proof.
  intros Hch. unfold storage_supervisor_handle_worker_exit.
  destruct (_ || _) eqn:Hb; [done|]. pose proof (guard_in_target s ch Hch Hb) as Hin.
  set (s1 := s <| worker_exited_mask ::= _ |>).
  assert (H1 : atoms s s1) by (by apply rtc_once, at_exited).
  assert (Hin1 : in_target s1 ch) by (by destruct s).
  destruct (negb (has (final_seen_mask s1) _)).
  - apply atoms_settle. unfold fail_worker_exit_without_final.
    destruct (negb (code =? 0)); (eapply rtc_r; [eapply rtc_r; [exact H1|apply at_fail]|]);
      (apply at_unavailable; [by apply fail_in_target|apply fail_known]).
  - destruct (negb (code =? 0)); apply atoms_settle; [|done].
    eapply rtc_r; [exact H1|apply at_fail].
Qed.

Lemma sup_step_atoms s op :
  op_ok op → (∀ epoch, op ≠ OpSetStopEpoch epoch) → atoms s (sup_step s op).
Proof.
  intros Hop Hset. destruct op as [e|ch e|ch r|ch r|ch|ch code| |epoch|ch|mask|ch|ch|epoch|epoch];
    cbn [sup_step op_ok] in *.
  - by apply handle_event_atoms.
  - unfold storage_supervisor_handle_event_for_channel, storage_supervisor_protocol_fail.
    destruct (negb (storage_ipc_validate_event e)); [apply rtc_once, at_fail|].
    destruct (negb (e_channel e =? ch)); [apply rtc_once, at_fail|].
    apply handle_event_atoms. lia.
  - apply rtc_once, at_fail.
  - unfold storage_supervisor_mark_unavailable.
    destruct (_ || _) eqn:Hb; [done|]. pose proof (guard_in_target s ch Hop Hb) as Hin.
    rewrite fail_unavailable_commute. apply atoms_status.
    eapply rtc_l; [by apply at_exited|]. eapply rtc_l; [apply at_fail|]. apply rtc_once.
    apply at_unavailable; [by apply fail_in_target; destruct s|apply fail_known].
  - unfold storage_supervisor_handle_worker_eof.
    destruct (_ || _) eqn:Hb; [done|]. pose proof (guard_in_target s ch Hop Hb) as Hin.
    destruct (has (final_seen_mask s) _); [done|]. apply atoms_settle.
    eapply rtc_l; [apply at_fail|]. apply rtc_once.
    apply at_unavailable; [by apply fail_in_target|apply fail_known].
  - by apply handle_exit_atoms.
  - by apply atoms_status.
  - unfold storage_supervisor_begin_auto_drain. destruct (_ || _); [done|].
    apply rtc_once, at_auto_drain.
  - unfold storage_supervisor_mark_auto_drain_sent.
    destruct (auto_drain_triggered s && _) eqn:Hb; [|done].
    apply andb_true_iff in Hb as [_ Hb]. by apply rtc_once, at_auto_sent.
  - apply rtc_once, at_request.
  - unfold storage_supervisor_mark_stop_sent. destruct (has _ _) eqn:Hb; [|done].
    by apply rtc_once, at_sent.
  - unfold storage_supervisor_mark_stop_failed. destruct (has _ _) eqn:Hb; [|done].
    by apply rtc_once, at_stop_failed.
  - by destruct (Hset epoch).
  - unfold parent_adopt_stop_epoch. destruct (_ && _) eqn:Hb; [|done].
    apply andb_true_iff in Hb as [_ H0%Z.eqb_eq]. destruct (decide (epoch = 0)) as [->|He].
    + by destruct s; simpl in *; subst.
    + by apply rtc_once, at_epoch.
Qed.

(** One change of the supervisor: an atom, or a write of the epoch. *)
Inductive sup_change (s : StorageTaskSupervisor) : StorageTaskSupervisor → Prop :=
| ch_atom s' : sup_atom s s' → sup_change s s'
| ch_epoch epoch : sup_change s (s <| stop_epoch := epoch |>).

Lemma sup_step_changes s op : op_ok op → rtc sup_change s (sup_step s op).
Proof.
  intros Hop. assert (Hat : atoms s (sup_step s op) → rtc sup_change s (sup_step s op)).
  { induction 1 as [|x y z H _ IH]; [done|]. eapply rtc_l; [by apply ch_atom|done]. }
  destruct op as [| | | | | | | | | | | |epoch|epoch]; try (apply Hat, sup_step_atoms; done).
  apply rtc_once, ch_epoch.
Qed.

(** ** The invariant *)
Definition results_ok (target : Z) (results : list (list Z)) : Prop :=
  (∀ ch, 0 <= ch < NUM_CHANNELS → Z.testbit target ch = true →
     result_problem (nth (Z.to_nat ch) results []) = None) ∧
  (Z.land target 3 = 3 →
   dma_received_bytes (nth 0 results []) = dma_received_bytes (nth 1 results [])).
Arguments results_ok : simpl never.
Arguments check_channels : simpl never.
Arguments result_problem : simpl never.

(** The stop epoch in which a channel was drained, as its worker reported it. *)
Definition drained_in (s : StorageTaskSupervisor) (ch : Z) : Z :=
  get64 drain_epoch_off (nth (Z.to_nat ch) (drain_result s) []).

Record sup_inv (s : StorageTaskSupervisor) : Prop := {
  (* lifecycle *)
  i_ready : msub (ready_mask s) (target_channel_mask s);
  i_armed : msub (armed_mask s) (ready_mask s);
  i_running : msub (running_mask s) (armed_mask s);
  i_idle : msub (idle_candidate_mask s) (running_mask s);
  i_drained : msub (drained_mask s) (running_mask s);
  i_fatal : msub (fatal_seen_mask s) (target_channel_mask s);
  i_final : msub (final_seen_mask s) (Z.lor (drained_mask s) (fatal_seen_mask s));
  i_unavailable : msub (unavailable_mask s) (target_channel_mask s);
  i_exited : msub (worker_exited_mask s) (target_channel_mask s);
  (* stop requests *)
  i_requested : msub (stop_requested_mask s) (target_channel_mask s);
  i_sent : msub (stop_sent_mask s) (stop_requested_mask s);
  i_sfailed : msub (stop_failed_mask s) (stop_requested_mask s);
  i_sent_failed : ∀ k, Z.testbit (stop_sent_mask s) k = true →
    Z.testbit (stop_failed_mask s) k = false;
  i_auto : msub (auto_drain_sent_mask s) (target_channel_mask s);
  (* errors *)
  i_known : result_known_failed s = true ↔ primary_error s ≠ STORAGE_ERR_NONE;
  i_cause : result_known_failed s = false →
    first_fatal s = false ∧ unavailable_mask s = 0 ∧ fatal_seen_mask s = 0;
  i_fatal_or_failed : result_known_failed s = true →
    first_fatal s = true ∨ terminal s = STORAGE_TASK_FAILED;
  i_stops : result_known_failed s = true →
    msub (target_channel_mask s) (Z.lor (stop_requested_mask s) (final_seen_mask s));
  i_failed_known : terminal s = STORAGE_TASK_FAILED → result_known_failed s = true;
  (* verdict *)
  i_term : aggregate_ready s = false ↔ terminal s = STORAGE_TASK_ACTIVE;
  i_agg : aggregate_ready s = true →
    Z.lor (final_seen_mask s) (unavailable_mask s) = target_channel_mask s;
  i_success : terminal s = STORAGE_TASK_SUCCESS → result_known_failed s = false ∧
    results_ok (target_channel_mask s) (final_result s);
  (* epochs *)
  i_epoch : ∀ ch, 0 <= ch < NUM_CHANNELS → Z.testbit (drained_mask s) ch = true →
    drained_in s ch ≠ 0;
  i_lens : length (drain_result s) = 3%nat ∧ length (final_result s) = 3%nat }.

Lemma sup_inv_init target : sup_inv (storage_supervisor_init target).
Proof. split; simpl; auto with mask; try done; intros; rewrite ?Z.bits_0 in *; done. Qed.

Lemma sup_inv_fail s ch code r : sup_inv s → sup_inv (fail s ch code r).
Proof.
  intros Hi. destruct (fail_eq s ch code r) as (ff & p & q & fc & fr & sr & -> & Hp & Hff & Hst).
  destruct Hi. destruct s. unfold after_fail. simpl in *. split; simpl; auto with mask.
  - done.
  - done.
  - intros _. destruct (decide (primary_error0 = STORAGE_ERR_NONE)); [left; auto|].
    destruct Hst as (-> & -> & _); [done|].
    destruct i_fatal_or_failed0 as [->|Ht]; [by apply i_known0|by left|].
    destruct aggregate_ready0; [by right|]. destruct i_term0 as [H _]. rewrite H in Ht; done.
  - intros _ k Hk. rewrite !Z.lor_spec, Z.ldiff_spec, Hk. simpl.
    destruct (Z.testbit stop_requested_mask0 k), (Z.testbit final_seen_mask0 k); done.
  - destruct aggregate_ready0; [split; done|done].
  - destruct aggregate_ready0; [done|]. intros ->. destruct i_term0 as [H _].
    by specialize (H eq_refl).
Qed.

Lemma fail_task_result_eq s ch r code reason :
  ∃ p q fr sr, fail_task_result s ch r code reason =
    s <| primary_error := p |> <| secondary_error := q |> <| fatal_channel := ch |>
      <| fatal_reason := fr |> <| secondary_reason := sr |>
      <| result_known_failed := true |> <| terminal := STORAGE_TASK_FAILED |> ∧
    p ≠ STORAGE_ERR_NONE ∧ (primary_error s ≠ STORAGE_ERR_NONE → p = primary_error s).
Proof.
  unfold fail_task_result.
  set (c := if negb _ || _ then STORAGE_ERR_INTEGRITY else _).
  assert (Hc : c ≠ STORAGE_ERR_NONE).
  { subst c. match goal with |- context [if ?b then STORAGE_ERR_INTEGRITY else _] =>
      destruct b eqn:Hb end; [done|]. apply orb_false_iff in Hb as [_ Hb]. lia. }
  pose proof (storage_error_record_some (primary_error s) (secondary_error s) c Hc) as Hp.
  pose proof (storage_error_record_primary_stable (primary_error s) (secondary_error s) c) as Hst.
  destruct (storage_error_record (primary_error s) _ c) as [p q]. simpl in Hp, Hst.
  destruct (storage_error_code_valid (wr_secondary_error r) && _).
  - pose proof (storage_error_record_primary_stable p q (wr_secondary_error r) Hp) as Hp2.
    destruct (storage_error_record p q _) as [p' q']. simpl in Hp2. subst p'.
    repeat eexists; auto; by destruct s.
  - repeat eexists; auto; by destruct s.
Qed.

Lemma check_channels_none s :
  check_channels s [0; 1; 2] = None →
  ∀ ch, 0 <= ch < NUM_CHANNELS → Z.testbit (target_channel_mask s) ch = true →
    result_problem (nth (Z.to_nat ch) (final_result s) []) = None.
Proof.
  intros Hc ch Hch Ht. rewrite <- has_bit in Ht by done.
  change (result_problem (result_of s ch) = None).
  assert (Hin : ch ∈ [0; 1; 2]).
  { unfold NUM_CHANNELS in Hch. assert (ch = 0 ∨ ch = 1 ∨ ch = 2) as [->|[->| ->]] by lia; set_solver. }
  revert Hc Hin. generalize [0; 1; 2]. induction l as [|c l IH]; [set_solver|].
  unfold check_channels; fold check_channels.
  destruct (has (target_channel_mask s) (bit c)) eqn:Hb; cbn [negb].
  - destruct (result_problem (result_of s c)) as [[? ?]|] eqn:Hr; [done|].
    intros Hc [->|Hin]%elem_of_cons; auto.
  - intros Hc [->|Hin]%elem_of_cons; [congruence|auto].
Qed.

Lemma sup_inv_status s :
  sup_inv s → sup_inv (snd (storage_supervisor_result_status s)).
Proof.
  intros Hi. unfold storage_supervisor_result_status.
  case_bool_decide as Hact; [|done]. cbn [negb].
  destruct (Z.eqb_spec (Z.lor (final_seen_mask s) (unavailable_mask s)) (target_channel_mask s))
    as [Heq|]; [|done]. cbn [negb].
  set (s1 := s <| aggregate_ready := true |>).
  assert (Hff : first_fatal s1 = first_fatal s) by (by destruct s).
  assert (Hun : unavailable_mask s1 = unavailable_mask s) by (by destruct s).
  assert (Hpr : primary_error s1 = primary_error s) by (by destruct s).
  assert (Hkf : result_known_failed s = false → primary_error s = STORAGE_ERR_NONE).
  { intros Hk. destruct (decide (primary_error s = STORAGE_ERR_NONE)); [done|].
    rewrite <- (i_known s Hi) in *. congruence. }
  destruct (first_fatal s1 || negb (unavailable_mask s1 =? 0)) eqn:Hbad.
  { assert (Hk : result_known_failed s = true).
    { destruct (result_known_failed s) eqn:Hk; [done|].
      destruct (i_cause s Hi Hk) as (? & ? & _). rewrite Hff, Hun in Hbad.
      replace (first_fatal s) with false in Hbad by done. lia. }
    subst s1. clear Hff Hun Hpr Hbad. destruct Hi, s. simpl in *. split; simpl; auto with mask; done. }
  apply orb_false_iff in Hbad as [Hff0 Hun0].
  assert (Hu0 : unavailable_mask s = 0) by (rewrite Hun in Hun0; lia).
  assert (Hk : result_known_failed s = false).
  { destruct (result_known_failed s) eqn:Hk; [|done].
    destruct (i_fatal_or_failed s Hi Hk); congruence. }
  assert (Hfin : final_seen_mask s = target_channel_mask s)
    by (rewrite Hu0, Z.lor_0_r in Heq; done).
  assert (Hfail : ∀ ch r code reason, sup_inv (fail_task_result s1 ch r code reason)).
  { intros ch r code reason.
    destruct (fail_task_result_eq s1 ch r code reason) as (p & q & fr & sr & -> & Hp & _).
    subst s1. clear Hff Hun Hpr Hff0 Hun0. destruct Hi, s. simpl in *.
    split; simpl; auto with mask; try done.
    intros _. rewrite Hfin. apply msub_lor_r2, msub_refl. }
  destruct (check_channels s1 [0; 1; 2]) as [[[ch code] reason]|] eqn:Hcc; [apply Hfail|].
  destruct (_ && negb _) eqn:Hsp; [apply Hfail|].
  assert (Hok : results_ok (target_channel_mask s) (final_result s)).
  { split.
    - intros ch Hch Ht. pose proof (check_channels_none s1 Hcc ch Hch) as H.
      assert (target_channel_mask s1 = target_channel_mask s ∧ final_result s1 = final_result s)
        as [E1 E2] by (by destruct s). rewrite E1, E2 in H. auto.
    - intros H3. assert (target_channel_mask s1 = target_channel_mask s ∧
        result_of s1 0 = nth 0 (final_result s) [] ∧ result_of s1 1 = nth 1 (final_result s) [])
        as (E1 & E2 & E3) by (by destruct s). rewrite E1, E2, E3, H3 in Hsp. simpl in Hsp. lia. }
  subst s1. clear Hff Hun Hpr Hff0 Hun0 Hfail Hcc Hsp. destruct Hi, s. simpl in *.
  split; simpl; auto with mask; try done. intros Hk'. congruence.
Qed.

Lemma nth_insert_self {A} (l : list A) i (x d : A) :
  (i < length l)%nat → nth i (<[i := x]> l) d = x.
Proof. intros. apply nth_lookup_Some. by apply list_lookup_insert_eq. Qed.
Lemma nth_insert_other {A} (l : list A) i j (x d : A) :
  i ≠ j → nth j (<[i := x]> l) d = nth j l d.
Proof. intros. rewrite !nth_lookup. by rewrite list_lookup_insert_ne. Qed.

Lemma final_in_target s : sup_inv s → msub (final_seen_mask s) (target_channel_mask s).
Proof.
  intros Hi. destruct Hi. eauto 10 using msub_trans with mask.
Qed.

Lemma i_final_known s : sup_inv s → aggregate_ready s = true →
  result_known_failed s = false → final_seen_mask s = target_channel_mask s.
Proof.
  intros Hi Ha Hk. destruct (i_cause s Hi Hk) as (_ & Hu & _).
  pose proof (i_agg s Hi Ha) as H. by rewrite Hu, Z.lor_0_r in H.
Qed.

Ltac atom_inv Hi s := destruct Hi; destruct s; simpl in *; split; simpl; auto with mask; try done.

Lemma sup_inv_drained s ch p :
  sup_inv s → in_target s ch → has (running_mask s) (bit ch) = true →
  stop_epoch s ≠ 0 → get64 drain_epoch_off p = stop_epoch s →
  sup_inv (s <| drained_mask ::= λ m, Z.lor m (bit ch) |>
             <| drain_result ::= <[Z.to_nat ch := p]> |>).
Proof.
  intros Hi [Hch Hin] Hb He Hp. atom_inv Hi s.
  - intros k Hk. pose proof (i_final0 k Hk) as H. rewrite !Z.lor_spec in *.
    apply orb_true_iff in H as [-> | ->]; [done|]. by rewrite orb_true_r.
  - intros k Hk Ht. destruct (decide (k = ch)) as [->|Hne].
    + unfold drained_in. simpl. rewrite nth_insert_self; [by rewrite Hp|]. unfold NUM_CHANNELS in *. lia.
    + unfold drained_in. simpl. rewrite nth_insert_other by lia. apply i_epoch0; [done|].
      rewrite Z.lor_spec, bit_spec in Ht. destruct (Z.eqb_spec k ch); [done|].
      by rewrite orb_false_r in Ht.
  - by rewrite length_insert.
Qed.

Lemma sup_inv_final s ch r :
  sup_inv s → in_target s ch → has (final_seen_mask s) (bit ch) = false →
  has (drained_mask s) (bit ch) || has (fatal_seen_mask s) (bit ch) = true →
  sup_inv (s <| final_seen_mask ::= λ m, Z.lor m (bit ch) |>
             <| final_result ::= <[Z.to_nat ch := r]> |>).
Proof.
  intros Hi [Hch Hin] Hnf Hdf. pose proof (final_in_target s Hi) as Hft.
  pose proof (i_final_known s Hi) as Hfk. atom_inv Hi s.
  - apply msub_lor_l; [done|]. apply orb_true_iff in Hdf as [H|H]; auto with mask.
  - intros Hk k Ht. specialize (i_stops0 Hk k Ht). rewrite !Z.lor_spec in *.
    apply orb_true_iff in i_stops0 as [-> | ->]; [done|]. by rewrite orb_true_r.
  - intros Ha. specialize (i_agg0 Ha).
    apply msub_lor_eq; auto with mask. rewrite <- i_agg0. intros k. rewrite !Z.lor_spec.
    destruct (Z.testbit final_seen_mask0 k); [done|]. simpl. intros ->. by rewrite orb_true_r.
  - intros ->. destruct i_success0 as [Hk Hok]; [done|]. exfalso.
    destruct aggregate_ready0; [|by destruct i_term0 as [H _]; specialize (H eq_refl)].
    rewrite (Hfk eq_refl Hk) in Hnf. congruence.
  - by rewrite length_insert.
Qed.

Lemma sup_inv_unavailable s ch :
  sup_inv s → in_target s ch → result_known_failed s = true →
  sup_inv (s <| unavailable_mask ::= λ m, Z.lor m (bit ch) |>).
Proof.
  intros Hi [Hch Hin] Hk. pose proof (final_in_target s Hi) as Hft. atom_inv Hi s.
  - intros; congruence.
  - intros Ha. specialize (i_agg0 Ha).
    apply msub_lor_eq; auto with mask. rewrite <- i_agg0. intros k. rewrite !Z.lor_spec.
    destruct (Z.testbit final_seen_mask0 k); [done|]. simpl. by intros ->.
Qed.

Lemma sup_inv_fatal s ch :
  sup_inv s → in_target s ch → result_known_failed s = true →
  sup_inv (s <| fatal_seen_mask ::= λ m, Z.lor m (bit ch) |>).
Proof.
  intros Hi [Hch Hin] Hk. atom_inv Hi s.
  - intros k H. specialize (i_final0 k H). rewrite !Z.lor_spec in *.
    apply orb_true_iff in i_final0 as [-> | ->]; [done|]. by rewrite orb_true_r.
  - intros; congruence.
Qed.

Lemma sup_inv_atom s s' : sup_inv s → sup_atom s s' → sup_inv s'.
Proof.
  intros Hi Hat. destruct Hat as [ch code r| |ch Hin|ch Hb|ch Hb|ch Hb|ch|epoch H0 He
    |ch p Hin Hb He Hp|ch Hin Hk|ch r Hin Hnf Hdf|ch ph|ch Hin|ch Hin Hk|epoch|ch Hb|mask|ch Hb|ch Hb].
  - by apply sup_inv_fail.
  - by apply sup_inv_status.
  - destruct Hin. by atom_inv Hi s.
  - by atom_inv Hi s.
  - by atom_inv Hi s.
  - by atom_inv Hi s.
  - by atom_inv Hi s.
  - by atom_inv Hi s.
  - by apply sup_inv_drained.
  - by apply sup_inv_fatal.
  - by apply sup_inv_final.
  - by atom_inv Hi s.
  - destruct Hin. by atom_inv Hi s.
  - by apply sup_inv_unavailable.
  - by atom_inv Hi s.
  - by atom_inv Hi s.
  - atom_inv Hi s. intros Hk k Ht. specialize (i_stops0 Hk k Ht). rewrite !Z.lor_spec in *.
    apply orb_true_iff in i_stops0 as [-> | ->]; [done|]. by rewrite orb_true_r.
  - atom_inv Hi s. intros k. rewrite Z.lor_spec, Z.ldiff_spec.
    intros [H|H]%orb_true_iff; [by rewrite (i_sent_failed0 k H)|]. rewrite H. by rewrite andb_false_r.
  - atom_inv Hi s. intros k. rewrite Z.lor_spec, Z.ldiff_spec.
    intros [H1 H2]%andb_true_iff. rewrite (i_sent_failed0 k H1). by apply negb_true_iff.
Qed.

Lemma sup_inv_change s s' : sup_change s s' → sup_inv s → sup_inv s'.
Proof. intros [s1 H|epoch] Hi; [by eapply sup_inv_atom|]. by atom_inv Hi s. Qed.
Lemma sup_inv_changes s s' : rtc sup_change s s' → sup_inv s → sup_inv s'.
Proof. induction 1; [done|]. intros. eauto using sup_inv_change. Qed.

Lemma sup_inv_run target ops :
  Forall op_ok ops → sup_inv (sup_run (storage_supervisor_init target) ops).
Proof.
  intros Hops. unfold sup_run. induction ops as [|op ops IH] using rev_ind;
    [apply sup_inv_init|]. apply Forall_app in Hops as [Hops Hop].
  rewrite foldl_snoc. rewrite Forall_singleton in Hop.
  eapply sup_inv_changes; [apply sup_step_changes; exact Hop|by apply IH].
Qed.

(** *** The epochs of the drained channels *)
(** Since [s0], a channel was drained before, or in the present epoch. *)
Definition drained_since (s0 s : StorageTaskSupervisor) : Prop :=
  ∀ ch, 0 <= ch < NUM_CHANNELS → Z.testbit (drained_mask s) ch = true →
    (Z.testbit (drained_mask s0) ch = true ∧ drained_in s ch = drained_in s0 ch) ∨
    (stop_epoch s ≠ 0 ∧ drained_in s ch = stop_epoch s).
(** All drained channels were drained in the present epoch. *)
Definition one_epoch (s : StorageTaskSupervisor) : Prop :=
  ∀ ch, 0 <= ch < NUM_CHANNELS → Z.testbit (drained_mask s) ch = true →
    stop_epoch s ≠ 0 ∧ drained_in s ch = stop_epoch s.

Definition same_drains (s s' : StorageTaskSupervisor) : Prop :=
  drained_mask s' = drained_mask s ∧ drain_result s' = drain_result s ∧ stop_epoch s' = stop_epoch s.

Lemma status_drains s : same_drains s (snd (storage_supervisor_result_status s)).
Proof.
  unfold storage_supervisor_result_status. case_bool_decide; cbn [negb]; [|done].
  destruct (negb (_ =? _)); [done|]. set (s1 := s <| aggregate_ready := true |>).
  assert (Hf : ∀ ch r c why, same_drains s (fail_task_result s1 ch r c why)).
  { intros ch r c why. destruct (fail_task_result_eq s1 ch r c why) as (?&?&?&?&->&_). by destruct s. }
  destruct (_ || _); [by destruct s|]. destruct (check_channels s1 _) as [[[? ?] ?]|]; [apply Hf|].
  destruct (_ && _); [apply Hf|by destruct s].
Qed.

Lemma drained_since_same s0 s s' : same_drains s s' → drained_since s0 s → drained_since s0 s'.
Proof.
  intros (Hm & Hr & He) H ch Hch. unfold drained_in. rewrite Hm, Hr, He. by apply H.
Qed.
Lemma one_epoch_same s s' : same_drains s s' → one_epoch s → one_epoch s'.
Proof.
  intros (Hm & Hr & He) H ch Hch. unfold drained_in. rewrite Hm, Hr, He. by apply H.
Qed.

(** What the atoms do: nothing to the drains, a first epoch, or a drain. *)
Lemma atom_drains s s' : sup_inv s → sup_atom s s' →
  same_drains s s' ∨
  (stop_epoch s = 0 ∧ drained_mask s' = drained_mask s ∧ drain_result s' = drain_result s) ∨
  (stop_epoch s ≠ 0 ∧ stop_epoch s' = stop_epoch s ∧
   ∀ ch, 0 <= ch < NUM_CHANNELS → Z.testbit (drained_mask s') ch = true →
     drained_in s' ch = stop_epoch s ∨
     (Z.testbit (drained_mask s) ch = true ∧ drained_in s' ch = drained_in s ch)).
Proof.
  intros Hi Hat. destruct Hat as [ch code r| |ch Hin|ch Hb|ch Hb|ch Hb|ch|epoch H0 He
    |ch p [Hch Hin] Hb He Hp|ch Hin Hk|ch r Hin Hnf Hdf|ch ph|ch Hin|ch Hin Hk|epoch|ch Hb|mask|ch Hb|ch Hb];
    try (left; by destruct s).
  - left. destruct (fail_eq s ch code r) as (?&?&?&?&?&?&->&_). by destruct s.
  - left. apply status_drains.
  - right. left. by destruct s.
  - right. right. split; [done|]. pose proof (i_lens s Hi) as [Hl _]. destruct s. simpl in *.
    split; [done|]. intros k Hk Ht. unfold drained_in. simpl. destruct (decide (k = ch)) as [->|Hne].
    + left. rewrite nth_insert_self; [done|]. unfold NUM_CHANNELS in *. lia.
    + right. rewrite nth_insert_other by lia. split; [|done].
      rewrite Z.lor_spec, bit_spec in Ht. destruct (Z.eqb_spec k ch); [done|]. by rewrite orb_false_r in Ht.
Qed.

Lemma atom_since s0 s s' :
  sup_inv s → sup_atom s s' → drained_since s0 s → drained_since s0 s'.
Proof.
  intros Hi Hat H. destruct (atom_drains s s' Hi Hat) as [Hs|[(H0 & Hm & Hr)|(H0 & He & Hd)]].
  - by eapply drained_since_same.
  - intros ch Hch Ht. rewrite Hm in Ht. destruct (H ch Hch Ht) as [[Hb E]|[? _]]; [|done].
    left. split; [done|]. rewrite <- E. unfold drained_in. by rewrite Hr.
  - intros ch Hch Ht. rewrite He. destruct (Hd ch Hch Ht) as [E|[Hb E]]; [by right|].
    rewrite E. by apply H.
Qed.
Lemma atom_one_epoch s s' : sup_inv s → sup_atom s s' → one_epoch s → one_epoch s'.
Proof.
  intros Hi Hat H. destruct (atom_drains s s' Hi Hat) as [Hs|[(H0 & Hm & Hr)|(H0 & He & Hd)]].
  - by eapply one_epoch_same.
  - intros ch Hch Ht. rewrite Hm in Ht. by destruct (H ch Hch Ht).
  - intros ch Hch Ht. rewrite He. split; [done|]. destruct (Hd ch Hch Ht) as [E|[Hb E]]; [done|].
    rewrite E. by apply H.
Qed.

(** The steps of a run. *)
Lemma step_since s op : sup_inv s → op_ok op → drained_since s (sup_step s op).
Proof.
  intros Hi Hop. assert (Hs : drained_since s s) by (intros ch _ Ht; by left).
  destruct op as [| | | | | | | | | | | |epoch|epoch]; [..|by intros ch _ Ht; left; destruct s|].
  all: match goal with |- drained_since _ (sup_step _ ?op) =>
    assert (Hat : atoms s (sup_step s op)) by (by apply sup_step_atoms) end.
  all: revert Hs; generalize s at 1 3; intros s0 Hs; clear Hop.
  all: induction Hat as [x|x y z H _ IH]; [done|]; apply IH; [by eapply sup_inv_atom|by eapply atom_since].
Qed.
Lemma step_one_epoch s op : sup_inv s → op_ok op →
  (∀ epoch, op = OpSetStopEpoch epoch → stop_epoch s = 0 ∨ epoch = stop_epoch s) →
  one_epoch s → one_epoch (sup_step s op).
Proof.
  intros Hi Hop Hset Hs.
  destruct op as [| | | | | | | | | | | |epoch|epoch]; [..|destruct (Hset epoch eq_refl) as [H0| ->]|].
  13: { intros ch Hch Ht. destruct (Hs ch Hch); [by destruct s|done]. }
  13: { by destruct s. }
  all: match goal with |- one_epoch (sup_step _ ?op) =>
    assert (Hat : atoms s (sup_step s op)) by (by apply sup_step_atoms) end.
  all: clear Hop Hset; induction Hat as [x|x y z H _ IH]; [done|]; apply IH;
    [by eapply sup_inv_atom|by eapply atom_one_epoch].
Qed.

(** The epochs of a run: every drained channel has one that the supervisor held. *)
Lemma run_epochs target ops : Forall op_ok ops →
  ∀ ch, 0 <= ch < NUM_CHANNELS → Z.testbit (drained_mask (sup_run (storage_supervisor_init target) ops)) ch = true →
  ∃ before after, ops = before ++ after ∧
    drained_in (sup_run (storage_supervisor_init target) ops) ch =
      stop_epoch (sup_run (storage_supervisor_init target) before).
Proof.
  intros Hops ch Hch. induction ops as [|op ops IH] using rev_ind.
  { simpl. by rewrite Z.bits_0. }
  apply Forall_app in Hops as [Hops Hop]. rewrite Forall_singleton in Hop.
  pose proof (step_since _ op (sup_inv_run target ops Hops) Hop) as Hs.
  unfold sup_run in *. rewrite foldl_snoc. intros Ht. destruct (Hs ch Hch Ht) as [[Hb ->]|[_ ->]].
  - destruct (IH Hops Hb) as (before & after & -> & E). exists before, (after ++ [op]).
    by rewrite (assoc_L (++)).
  - exists (ops ++ [op]), []. rewrite app_nil_r, foldl_snoc. done.
Qed.

(** The parent's write replaces no epoch by another. *)
Definition epoch_kept (target : Z) (ops : list sup_op) : Prop :=
  ∀ before epoch after, ops = before ++ OpSetStopEpoch epoch :: after →
    let s := sup_run (storage_supervisor_init target) before in stop_epoch s = 0 ∨ epoch = stop_epoch s.

Lemma run_one_epoch target ops : Forall op_ok ops → epoch_kept target ops →
  one_epoch (sup_run (storage_supervisor_init target) ops).
Proof.
  intros Hops. induction ops as [|op ops IH] using rev_ind; intros Hk.
  { intros ch _. simpl. by rewrite Z.bits_0. }
  apply Forall_app in Hops as [Hops Hop]. rewrite Forall_singleton in Hop.
  pose proof (sup_inv_run target ops Hops) as Hi. unfold sup_run in *. rewrite foldl_snoc.
  apply step_one_epoch; [done|done| |].
  - intros epoch ->. by apply (Hk ops epoch []).
  - apply IH; [done|]. intros before epoch after ->. apply (Hk before epoch (after ++ [op])).
    by rewrite <- (assoc_L (++)).
Qed.

(** C32: the supervisor only believes workers that follow the protocol.
    Whatever events, exits, stop bookkeeping and writes of the stop epoch
    arrive, in any order: a channel counts as running only after it was armed,
    armed only after it was ready, drained or idle only after it was running,
    finished only after it was drained or reported a fatal error; everything
    stays inside the target set; a stop is marked sent or failed only where it
    was requested, never both; and every drained channel was drained in a
    non-zero stop epoch that the supervisor held at some point of the run, which
    is the present one for all of them unless the parent's own write has
    replaced a non-zero epoch by another. *)
Theorem supervisor_lifecycle :
  ∀ (target : Z) (ops : list sup_op),
    Forall op_ok ops →
    let s := sup_run (storage_supervisor_init target) ops in
    msub (running_mask s) (armed_mask s) ∧ msub (armed_mask s) (ready_mask s) ∧
    msub (ready_mask s) (target_channel_mask s) ∧
    msub (drained_mask s) (running_mask s) ∧ msub (idle_candidate_mask s) (running_mask s) ∧
    msub (final_seen_mask s) (Z.lor (drained_mask s) (fatal_seen_mask s)) ∧
    msub (fatal_seen_mask s) (target_channel_mask s) ∧
    msub (stop_requested_mask s) (target_channel_mask s) ∧
    (∀ ch, Z.testbit (stop_sent_mask s) ch = true ∨ Z.testbit (stop_failed_mask s) ch = true →
       Z.testbit (stop_requested_mask s) ch = true) ∧
    (∀ ch, Z.testbit (stop_sent_mask s) ch = true → Z.testbit (stop_failed_mask s) ch = false) ∧
    (∀ ch, 0 <= ch < NUM_CHANNELS → Z.testbit (drained_mask s) ch = true →
       let epoch := get64 drain_epoch_off (nth (Z.to_nat ch) (drain_result s) []) in
       epoch ≠ 0 ∧
       (∃ before after, ops = before ++ after ∧
          epoch = stop_epoch (sup_run (storage_supervisor_init target) before)) ∧
       (epoch_kept target ops → epoch = stop_epoch s)).
Proof.
  intros target ops Hops. pose proof (sup_inv_run target ops Hops) as []. simpl.
  split_and!; try done.
  - intros ch [H|H]; [by apply i_sent0|by apply i_sfailed0].
  - intros ch Hch Ht. split; [by apply i_epoch0|]. split; [by apply run_epochs|].
    intros Hk. by apply (run_one_epoch target ops Hops Hk).
Qed.

(** ** A run of one channel *)
Definition witness_result : list Z :=
  put 36 [1; 1; 1; 1] (put64 48 4096 (put64 80 4096 (put64 272 4096 (replicate wr_size 0)))).
Definition witness_ev (type : Z) : StorageWorkerEvent :=
  let e := storage_ipc_make_event 1 type 0 0 4096 None in
  if type =? STORAGE_WORKER_DRAIN_READY
  then e <| e_payload ::= put64 drain_epoch_off 5 |>
  else if type =? STORAGE_WORKER_FINAL_RESULT
  then e <| e_payload ::= put wr_off witness_result |> else e.
Definition witness_ops : list sup_op :=
  OpEventForChannel 0 ∘ witness_ev <$>
    [STORAGE_WORKER_READY; STORAGE_WORKER_ARMED; STORAGE_WORKER_RUNNING;
     STORAGE_WORKER_DRAIN_READY; STORAGE_WORKER_FINAL_RESULT].
Notation "'witness_run'" := (sup_run (storage_supervisor_init 1) witness_ops) (only parsing).

Lemma witness_ops_ok : Forall op_ok witness_ops.
Proof. repeat constructor; vm_compute; congruence. Qed.
Lemma witness_run_success : terminal witness_run = STORAGE_TASK_SUCCESS.
Proof. vm_compute. reflexivity. Qed.

(** Two channels that drain in turn; between them the parent stops all workers
    and replaces the epoch. *)
Definition witness_drain (ch epoch : Z) : StorageWorkerEvent :=
  let e := witness_ev STORAGE_WORKER_DRAIN_READY in
  e <| e_channel := ch |> <| e_payload ::= put64 drain_epoch_off epoch |>.
Definition witness_begin (ch : Z) : list sup_op :=
  (λ t, OpEventForChannel ch ((witness_ev t) <| e_channel := ch |>)) <$>
    [STORAGE_WORKER_READY; STORAGE_WORKER_ARMED; STORAGE_WORKER_RUNNING].
Definition witness_two : list sup_op :=
  witness_begin 0 ++ witness_begin 1 ++
  [OpEventForChannel 0 (witness_drain 0 5); OpRequestStop 3; OpSetStopEpoch 9;
   OpEventForChannel 1 (witness_drain 1 9)].

(** Then the channels are drained in different epochs: [epoch_kept] is needed. *)
Example epoch_replaced :
  let s := sup_run (storage_supervisor_init 3) witness_two in
  drained_mask s = 3 ∧ primary_error s = STORAGE_ERR_NONE ∧ drained_in s 0 = 5 ∧ drained_in s 1 = 9.
Proof. vm_compute. by split_and!. Qed.

Lemma supervisor_lifecycle_witness :
  drained_mask witness_run = 1 ∧ stop_epoch witness_run = 5 ∧
  get64 drain_epoch_off (nth 0 (drain_result witness_run) []) = stop_epoch witness_run ∧
  msub (running_mask witness_run) (armed_mask witness_run).
Proof.
  pose proof (supervisor_lifecycle 1 witness_ops witness_ops_ok) as H. cbv zeta in H.
  assert (Hd : drained_mask witness_run = 1) by (vm_compute; reflexivity).
  split; [exact Hd|]. split; [vm_compute; reflexivity|]. split; [|exact (proj1 H)].
  destruct H as (_&_&_&_&_&_&_&_&_&_&H). destruct (H 0) as (_ & _ & He);
    [unfold NUM_CHANNELS; lia|rewrite Hd; reflexivity|]. apply He.
  intros before epoch after E. exfalso.
  assert (Hin : OpSetStopEpoch epoch ∈ witness_ops).
  { rewrite E. apply elem_of_app. right. by left. }
  unfold witness_ops in Hin. apply list_elem_of_fmap in Hin as (t & Ht & _). discriminate Ht.
Defined.

(** C1: SUCCESS means success.  When the task is reported successful, every
    target channel sent its final result after draining, no fatal event, exit or
    protocol failure was seen and no error is recorded, every channel's result
    has all integrity flags set, its received, stored and file byte counts are
    equal, and when both high-speed channels take part they received the same
    number of bytes. *)
Theorem supervisor_success_sound :
  ∀ (target : Z) (ops : list sup_op),
    Forall op_ok ops →
    let s := sup_run (storage_supervisor_init target) ops in
    terminal s = STORAGE_TASK_SUCCESS →
    final_seen_mask s = target_channel_mask s ∧
    msub (target_channel_mask s) (drained_mask s) ∧
    first_fatal s = false ∧ fatal_seen_mask s = 0 ∧ unavailable_mask s = 0 ∧
    primary_error s = STORAGE_ERR_NONE ∧
    (∀ ch, 0 <= ch < NUM_CHANNELS → Z.testbit (target_channel_mask s) ch = true →
       let r := nth (Z.to_nat ch) (final_result s) [] in
       receive_integrity_ok r = true ∧ data_persisted r = true ∧
       storage_integrity_ok r = true ∧ integrity_ok r = true ∧
       dma_received_bytes r = nvme_completed_bytes r ∧
       nvme_completed_bytes r = file_bytes r) ∧
    (Z.land (target_channel_mask s) 3 = 3 →
     dma_received_bytes (nth 0 (final_result s) []) =
     dma_received_bytes (nth 1 (final_result s) [])).
Proof.
  intros target ops Hops s Hs. pose proof (sup_inv_run target ops Hops) as Hi. fold s in Hi.
  destruct (i_success s Hi Hs) as [Hk [Hres Hsplit]].
  destruct (i_cause s Hi Hk) as (Hff & Hu & Hfs).
  assert (Ha : aggregate_ready s = true).
  { destruct (aggregate_ready s) eqn:Ha; [done|]. apply (i_term s Hi) in Ha. congruence. }
  pose proof (i_final_known s Hi Ha Hk) as Hfin.
  split_and!; try done.
  - rewrite <- Hfin. pose proof (i_final s Hi) as H. by rewrite Hfs, Z.lor_0_r in H.
  - destruct (decide (primary_error s = STORAGE_ERR_NONE)); [done|].
    rewrite <- (i_known s Hi) in *. congruence.
  - intros ch Hch Ht r. specialize (Hres ch Hch Ht). fold r in Hres.
    unfold result_problem in Hres.
    destruct (receive_integrity_ok r), (data_persisted r), (storage_integrity_ok r),
      (integrity_ok r); try done. simpl in Hres.
    destruct (Z.eqb_spec (dma_received_bytes r) (nvme_completed_bytes r)); [|done].
    destruct (Z.eqb_spec (nvme_completed_bytes r) (file_bytes r)); done.
Qed.

Lemma supervisor_success_sound_witness :
  terminal witness_run = STORAGE_TASK_SUCCESS ∧
  final_seen_mask witness_run = target_channel_mask witness_run.
Proof.
  split; [exact witness_run_success|].
  exact (proj1 (supervisor_success_sound 1 witness_ops witness_ops_ok witness_run_success)).
Defined.

(** ** The verdict is always reached *)
Definition settled (s : StorageTaskSupervisor) : Prop :=
  terminal s = STORAGE_TASK_ACTIVE →
  Z.lor (final_seen_mask s) (unavailable_mask s) ≠ target_channel_mask s.

Lemma settled_status s : settled (snd (storage_supervisor_result_status s)).
Proof.
  unfold storage_supervisor_result_status, settled. case_bool_decide as Hact; [|done].
  cbn [negb]. destruct (Z.eqb_spec (Z.lor (final_seen_mask s) (unavailable_mask s))
    (target_channel_mask s)); [|done]. cbn [negb].
  set (s1 := s <| aggregate_ready := true |>).
  assert (Hf : ∀ ch r code reason, terminal (fail_task_result s1 ch r code reason)
               ≠ STORAGE_TASK_ACTIVE).
  { intros. destruct (fail_task_result_eq s1 ch r code reason) as (?&?&?&?&->&_).
    by destruct s1. }
  destruct (_ || _); [by destruct s|].
  destruct (check_channels s1 _) as [[[? ?] ?]|]; [intros H; by apply Hf in H|].
  destruct (_ && _); [intros H; by apply Hf in H|by destruct s].
Qed.

(** Nothing the verdict looks at changes. *)
Definition same_verdict (s s' : StorageTaskSupervisor) : Prop :=
  (terminal s' = STORAGE_TASK_ACTIVE → terminal s = STORAGE_TASK_ACTIVE) ∧
  final_seen_mask s' = final_seen_mask s ∧ unavailable_mask s' = unavailable_mask s ∧
  target_channel_mask s' = target_channel_mask s.
Lemma settled_same s s' : same_verdict s s' → settled s → settled s'.
Proof. intros (Ht & Hf & Hu & Hta) Hs H. rewrite Hf, Hu, Hta. by apply Hs, Ht. Qed.
Lemma same_verdict_fail s ch code r : same_verdict s (fail s ch code r).
Proof.
  destruct (fail_eq s ch code r) as (?&?&?&?&?&?&->&_). destruct s. unfold same_verdict.
  simpl. split_and!; try done. by destruct aggregate_ready0.
Qed.
Lemma same_verdict_trans s1 s2 s3 :
  same_verdict s1 s2 → same_verdict s2 s3 → same_verdict s1 s3.
Proof. unfold same_verdict. intros (?&?&?&?) (?&?&?&?). split_and!; [auto|congruence..]. Qed.
Lemma same_verdict_epoch s e :
  same_verdict s (if stop_epoch s =? 0 then s <| stop_epoch := e |> else s).
Proof. destruct (stop_epoch s =? 0); [|done]. by destruct s. Qed.

Lemma settled_settle rc s : settled (snd (settle rc s)).
Proof. apply settled_status. Qed.
Lemma settled_reject s s1 ch code reason :
  same_verdict s s1 → settled s → settled (snd (reject s1 ch code reason)).
Proof. intros H. apply settled_same. eapply same_verdict_trans; [exact H|apply same_verdict_fail]. Qed.

Lemma settled_event s e : settled s → settled (snd (storage_supervisor_handle_event s e)).
Proof.
  intros Hs. unfold storage_supervisor_handle_event.
  assert (Hr : ∀ ch code reason, settled (snd (reject s ch code reason)))
    by (intros; by apply (settled_reject s)).
  assert (Ha : ∀ s1, settled (snd (accept s1))) by (intros; apply settled_settle).
  destruct (_ || negb (has (target_channel_mask s) _)); [done|].
  repeat match goal with
  | |- context [if e_type e =? ?t then _ else _] => destruct (e_type e =? t)
  end; try (case_match; [apply Hr|apply Ha]); try apply Hr.
  - destruct (_ || (ev_drain_epoch e =? 0)); [apply Hr|].
    destruct (negb (stop_epoch _ =? _)); [|apply Ha].
    apply (settled_reject s); [apply same_verdict_epoch|done].
  - destruct (has (final_seen_mask s) _); [apply Hr|].
    destruct (negb _ && negb _); [apply Hr|apply Ha].
  - destruct (_ || (STORAGE_WORKER_FAILED_FATAL <? _)); [apply Hr|].
    destruct (negb (stop_epoch _ =? ev_stop_epoch e));
      [apply (settled_reject s); [apply same_verdict_epoch|done]|].
    destruct (stop_phase_out_of_sequence _ e); [|apply Ha].
    apply (settled_reject s); [apply same_verdict_epoch|done].
Qed.

Lemma settled_step s op : settled s → settled (sup_step s op).
Proof.
  intros Hs. destruct op as [e|ch e|ch r|ch r|ch|ch code| |epoch|ch|mask|ch|ch|epoch|epoch];
    cbn [sup_step].
  - by apply settled_event.
  - unfold storage_supervisor_handle_event_for_channel, storage_supervisor_protocol_fail.
    destruct (negb (storage_ipc_validate_event e));
      [eapply settled_same; [apply same_verdict_fail|done]|].
    destruct (negb (e_channel e =? ch)); [eapply settled_same; [apply same_verdict_fail|done]|].
    by apply settled_event.
  - eapply settled_same; [apply same_verdict_fail|done].
  - unfold storage_supervisor_mark_unavailable.
    destruct (_ || _); [done|apply settled_status].
  - unfold storage_supervisor_handle_worker_eof.
    destruct (_ || _); [done|]. destruct (has _ _); [done|apply settled_settle].
  - unfold storage_supervisor_handle_worker_exit.
    destruct (_ || _); [done|]. destruct (negb (has _ _)); [apply settled_settle|].
    destruct (negb (code =? 0)); apply settled_settle.
  - apply settled_status.
  - unfold storage_supervisor_begin_auto_drain. destruct (_ || _); [done|]. by destruct s.
  - unfold storage_supervisor_mark_auto_drain_sent. destruct (_ && _); [by destruct s|done].
  - by destruct s.
  - unfold storage_supervisor_mark_stop_sent. destruct (has _ _); [by destruct s|done].
  - unfold storage_supervisor_mark_stop_failed. destruct (has _ _); [by destruct s|done].
  - by destruct s.
  - unfold parent_adopt_stop_epoch. destruct (_ && _); [by destruct s|done].
Qed.

(** C33: the verdict is reached.  For a task with at least one channel the
    supervisor is still active after any history exactly when some target
    channel has neither delivered a final result nor been declared unavailable;
    a FAILED verdict has a known failure, and from the moment a failure is known
    every target channel without a final result has a stop request. *)
Theorem supervisor_decides :
  ∀ (target : Z) (ops : list sup_op),
    target ≠ 0 → Forall op_ok ops →
    let s := sup_run (storage_supervisor_init target) ops in
    (terminal s = STORAGE_TASK_ACTIVE ↔
     Z.lor (final_seen_mask s) (unavailable_mask s) ≠ target_channel_mask s) ∧
    (result_known_failed s = true →
     msub (target_channel_mask s) (Z.lor (stop_requested_mask s) (final_seen_mask s))) ∧
    (terminal s = STORAGE_TASK_FAILED → result_known_failed s = true).
Proof.
  intros target ops Hne Hops s. pose proof (sup_inv_run target ops Hops) as Hi. fold s in Hi.
  assert (Hset : settled s).
  { subst s. unfold sup_run. clear Hops Hi. induction ops as [|op ops IH] using rev_ind.
    - intros _. simpl. by apply not_eq_sym.
    - rewrite foldl_snoc. by apply settled_step. }
  split_and!.
  - split; [apply Hset|]. intros Hlor. destruct (aggregate_ready s) eqn:Ha.
    + by rewrite (i_agg s Hi Ha) in Hlor.
    + by apply (i_term s Hi).
  - apply (i_stops s Hi).
  - apply (i_failed_known s Hi).
Qed.

Lemma supervisor_decides_witness :
  1 ≠ 0 ∧ (terminal (sup_run (storage_supervisor_init 1) [OpEof 0]) = STORAGE_TASK_FAILED) ∧
  result_known_failed (sup_run (storage_supervisor_init 1) [OpEof 0]) = true.
Proof.
  assert (H1 : 1 ≠ 0) by discriminate.
  assert (H2 : Forall op_ok [OpEof 0]) by (repeat constructor; simpl; lia).
  assert (H3 : terminal (sup_run (storage_supervisor_init 1) [OpEof 0]) = STORAGE_TASK_FAILED)
    by (vm_compute; reflexivity).
  split; [exact H1|]. split; [exact H3|].
  exact (proj2 (proj2 (supervisor_decides 1 [OpEof 0] H1 H2)) H3).
Defined.

(** ** The first failure *)
Lemma atom_latched s s' :
  sup_inv s → sup_atom s s' → primary_error s ≠ STORAGE_ERR_NONE →
  primary_error s' = primary_error s ∧ fatal_channel s' = fatal_channel s ∧
  fatal_reason s' = fatal_reason s.
Proof.
  intros Hi Hat Hp. destruct Hat; try by destruct s.
  - destruct (fail_eq s ch code r) as (ff & p & q & fc & fr & sr & -> & _ & _ & Hst).
    destruct (Hst Hp) as (-> & _ & -> & ->). by destruct s.
  - unfold storage_supervisor_result_status. case_bool_decide as Hact; [|done]. cbn [negb].
    destruct (negb _); [done|]. set (s1 := s <| aggregate_ready := true |>).
    assert (Hff : first_fatal s1 = true).
    { assert (Hk : result_known_failed s = true) by (by apply (i_known s Hi)).
      destruct (i_fatal_or_failed s Hi Hk) as [H|H]; [by destruct s|congruence]. }
    rewrite Hff. simpl orb. by destruct s.
Qed.

Lemma change_latched s s' :
  sup_inv s → sup_change s s' → primary_error s ≠ STORAGE_ERR_NONE →
  primary_error s' = primary_error s ∧ fatal_channel s' = fatal_channel s ∧
  fatal_reason s' = fatal_reason s.
Proof. intros Hi [s1 H|epoch] Hp; [by apply atom_latched|by destruct s]. Qed.

(** C35: the first failure is the one reported.  Once an error is recorded, its
    code, its channel and its reason never change again, whatever further
    events, failures, exits or results arrive. *)
Theorem first_failure_latched :
  ∀ (target : Z) (ops more : list sup_op),
    Forall op_ok (ops ++ more) →
    let s := sup_run (storage_supervisor_init target) ops in
    primary_error s ≠ STORAGE_ERR_NONE →
    let s' := sup_run s more in
    primary_error s' = primary_error s ∧ fatal_channel s' = fatal_channel s ∧
    fatal_reason s' = fatal_reason s ∧ result_known_failed s' = true.
Proof.
  intros target ops more Hops s Hp s'. apply Forall_app in Hops as [Hops Hmore].
  pose proof (sup_inv_run target ops Hops) as Hi. fold s in Hi.
  assert (Hat : rtc sup_change s s').
  { subst s'. unfold sup_run. clear -Hmore. induction more as [|op more IH] using rev_ind; [done|].
    apply Forall_app in Hmore as [Hm Ho]. rewrite Forall_singleton in Ho.
    rewrite foldl_snoc. etrans; [by apply IH|by apply sup_step_changes]. }
  clearbody s s'. clear Hmore Hops.
  assert (Hgen : primary_error s' = primary_error s ∧ fatal_channel s' = fatal_channel s ∧
                 fatal_reason s' = fatal_reason s ∧ sup_inv s').
  { induction Hat as [s|s s1 s2 Hstep Hat IH]; [done|].
    destruct (change_latched s s1 Hi Hstep Hp) as (E1 & E2 & E3).
    rewrite <- E1, <- E2, <- E3. apply IH; [by rewrite E1|by apply (sup_inv_change s)]. }
  destruct Hgen as (E1 & E2 & E3 & Hi'). split_and!; try done.
  apply (i_known s' Hi'). by rewrite E1.
Qed.

Lemma first_failure_latched_witness :
  let s := sup_run (storage_supervisor_init 3) [OpEof 1] in
  primary_error s = STORAGE_ERR_WORKER_EXIT ∧ fatal_channel s = 1 ∧
  fatal_channel (sup_run s [OpProtocolFail 0 None; OpExit 0 9]) = 1.
Proof.
  assert (H1 : Forall op_ok ([OpEof 1] ++ [OpProtocolFail 0 None; OpExit 0 9]))
    by (repeat constructor; simpl; lia).
  assert (H2 : primary_error (sup_run (storage_supervisor_init 3) [OpEof 1])
               ≠ STORAGE_ERR_NONE) by (vm_compute; discriminate).
  split; [vm_compute; reflexivity|]. split; [vm_compute; reflexivity|].
  exact (proj1 (proj2 (first_failure_latched 3 [OpEof 1]
    [OpProtocolFail 0 None; OpExit 0 9] H1 H2))).
Defined.
End storage_supervisor.
