(* ===== verification/Task.v ===== *)
(** * Storage task descriptors ([src/src/ccb_storage_task.c] and the worker
      output handling of [src/src/system.c])

    The parent's record of one worker process: its descriptors, what it has
    reported and the tail of its output.  The kernel is the log of [close]
    calls; the two text buffers are kept as their bytes with the fill counters
    of the source. *)
From S2P Require Import Prelude Bytes CStdlib CcbTypes Config Ipc.

Module ccb_storage_task.
Import c_stdlib ccb_types storage_config storage_ipc.

Definition STORAGE_TASK_OUTPUT_SIZE : nat := 4096.
Definition STORAGE_TASK_ECHO_LINE_SIZE : nat := 2048.

Inductive TaskState : Type := IDLE | RUNNING | ERROR.
#[export] Instance TaskState_eq_dec : EqDecision TaskState.
Proof. solve_decision. Defined.

Record PlannedFile : Type := mkPlanned {
  pf_channel_id : Z; pf_proto_file_type_code : Z; pf_file_type_name : option string;
  pf_size_bytes : Z; pf_file_index : Z; pf_start_lba : Z; pf_sector_count : Z;
  pf_calibration_type : Z }.
Definition zero_planned : PlannedFile := mkPlanned 0 0 None 0 0 0 0 0.

(** [WriteResult] (504 bytes) is stored as its bytes. *)
Record Task : Type := mkTask {
  pid : Z; start_time : Z; state : TaskState; t_name : string;
  output_fd : Z; control_fd : Z; event_fd : Z; stop_send_attempts : Z;
  worker_event : StorageWorkerEvent; t_first_fatal : StorageWorkerEvent; t_final_result : list Z;
  worker_phase : Z; ready_seen : bool; armed_seen : bool; running_seen : bool;
  drained_seen : bool; fatal_seen : bool;
  output : list Z; output_used : nat; echo_line : list Z; echo_line_used : nat;
  final_result_seen : bool; final_data_persisted : bool; final_integrity_ok : bool;
  final_status_success : bool; final_receive_seen : bool;
  split_mismatch_reported : bool; final_dma_received_bytes : Z;
  planned_file : PlannedFile; has_planned_file : bool; task_id : string;
  overpass_time : Z; timeout_seconds : Z }.
#[export] Instance eta_Task : EtaOf Task := λ t,
  mkTask (pid t) (start_time t) (state t) (t_name t) (output_fd t) (control_fd t)
    (event_fd t) (stop_send_attempts t) (worker_event t) (t_first_fatal t)
    (t_final_result t) (worker_phase t) (ready_seen t) (armed_seen t)
    (running_seen t) (drained_seen t) (fatal_seen t) (output t)
    (output_used t) (echo_line t) (echo_line_used t) (final_result_seen t)
    (final_data_persisted t) (final_integrity_ok t) (final_status_success t)
    (final_receive_seen t) (split_mismatch_reported t)
    (final_dma_received_bytes t) (planned_file t) (has_planned_file t)
    (task_id t) (overpass_time t) (timeout_seconds t).

Definition zero_event : StorageWorkerEvent :=
  mkEvent 0 0 0 0 0 0 0 0 (replicate PAYLOAD_BYTES 0).

(** ** Descriptors

    [close] is a call to the kernel, which logs the descriptor. *)
Definition close (fd : Z) : Eff (list Z) unit := λ closed, (tt, closed ++ [fd]).

Definition storage_fd_is_kept (fd : Z) (keep_fds : list Z) : bool :=
  existsb (λ k, fd =? k) keep_fds.

Definition close_open (fd : Z) : Eff (list Z) unit :=
  if 0 <=? fd then close fd else eret tt.

Definition storage_task_close_fds (t : Task) : Eff (list Z) Task :=
  let! _ := close_open (output_fd t) in
  let! _ := close_open (control_fd t) in
  let! _ := close_open (event_fd t) in
  eret (t <| output_fd := -1 |> <| control_fd := -1 |> <| event_fd := -1 |>).

(** The first byte of a buffer set to NUL. *)
Definition clear_text (buf : list Z) : list Z := <[0%nat := 0]> buf.

(** The name and the timeout are the slot's own and stay. *)
Definition storage_task_reset_runtime (t : Task) : Eff (list Z) Task :=
  let! t := storage_task_close_fds t in
  eret (mkTask (-1) 0 IDLE (t_name t) (output_fd t) (control_fd t) (event_fd t) 0
          zero_event zero_event (replicate 504 0) 0 false false false false false
          (clear_text (output t)) 0 (clear_text (echo_line t)) 0
          false false false false false false 0 zero_planned false "" 0
          (timeout_seconds t)).

(** One descriptor of the inner loop. *)
Definition close_unless_kept (keep_fds : list Z) (fd : Z) : Eff (list Z) Z :=
  if (0 <=? fd) && negb (storage_fd_is_kept fd keep_fds)
  then let! _ := close fd in eret (-1) else eret fd.

Fixpoint storage_child_close_inherited_fds (tasks : list Task) (keep_fds : list Z) :
    Eff (list Z) (list Task) :=
  match tasks with
  | [] => eret []
  | t :: tasks =>
      let! o := close_unless_kept keep_fds (output_fd t) in
      let! c := close_unless_kept keep_fds (control_fd t) in
      let! e := close_unless_kept keep_fds (event_fd t) in
      let! rest := storage_child_close_inherited_fds tasks keep_fds in
      eret (t <| output_fd := o |> <| control_fd := c |> <| event_fd := e |> :: rest)
  end.

(** ** Worker output *)

(** [memcpy]/[memmove] of [data] to offset [off] of a buffer. *)
Definition mem_put (off : nat) (data buf : list Z) : list Z :=
  take off buf ++ data ++ drop (off + length data) buf.

(** The oldest bytes are dropped until [len] more fit. *)
Definition drop_oldest (t : Task) (len : nat) : list Z * nat :=
  let capacity := (STORAGE_TASK_OUTPUT_SIZE - 1)%nat in
  if decide (capacity < output_used t + len)%nat then
    let d := (output_used t + len - capacity)%nat in
    (mem_put 0 (take (output_used t - d) (drop d (output t))) (output t),
     (output_used t - d)%nat)
  else (output t, output_used t).

Definition append_task_output (t : Task) (data : list Z) : Task :=
  let len := length data in
  let capacity := (STORAGE_TASK_OUTPUT_SIZE - 1)%nat in
  if decide (len = 0%nat) then t
  else if decide (capacity <= len)%nat then
    t <| output ::= λ b, mem_put capacity [0] (mem_put 0 (drop (len - capacity) data) b) |>
      <| output_used := capacity |>
  else
    let '(b, used) := drop_oldest t len in
    t <| output := mem_put (used + len) [0] (mem_put used data b) |>
      <| output_used := (used + len)%nat |>.

Definition bytes_string (l : list Z) : string :=
  String.string_of_list_ascii (Ascii.ascii_of_N <$> (Z.to_N <$> l)).

(** [log_level] is [None] while no configuration has been loaded. *)
Definition worker_output_is_quiet_critical (level : option CcbLogLevel) (line : list Z) : bool :=
  let text := bytes_string (c_text line) in
  match level with
  | Some CCB_LOG_ERROR | None =>
      strstr text "storage_ddr_full" || strstr text "storage_receive_failed" ||
      strstr text "storage_first_dma_timeout" || strstr text "storage_ring_config_error" ||
      strstr text "dma_bd_exhausted" ||
      (strstr text "storage_result" && strstr text "status=failed")
  | Some _ => true
  end.

(** The standard output is the bytes written so far. *)
Definition system_write_stdout_line (line : list Z) : Eff (list Z) unit := λ out,
  let text := c_text line in
  (tt, out ++ text ++ if decide (last text = Some 10) then [] else [10]).

Definition echo_worker_line (level : option CcbLogLevel) (line : list Z) : Eff (list Z) unit :=
  if worker_output_is_quiet_critical level line then system_write_stdout_line line
  else eret tt.

Section Echo.
Context {W : Type} (emit : list Z → Eff W unit).

(** The line buffer, NUL-terminated at [used], is handed over and emptied. *)
Definition flush_line (b : list Z) (used : nat) : Eff W (list Z * nat) :=
  let b := mem_put used [0] b in
  let! _ := emit (take used b) in eret (b, 0%nat).

Definition echo_byte (b : list Z) (used : nat) (c : Z) : Eff W (list Z * nat) :=
  let! (b, used) :=
    if decide (STORAGE_TASK_ECHO_LINE_SIZE <= used + 1)%nat then flush_line b used
    else eret (b, used) in
  let b := mem_put used [c] b in
  let used := S used in
  if c =? 10 then flush_line b used else eret (b, used).

Fixpoint echo_loop (b : list Z) (used : nat) (data : list Z) : Eff W (list Z * nat) :=
  match data with
  | [] => eret (b, used)
  | c :: data => let! (b, used) := echo_byte b used c in echo_loop b used data
  end.

Definition echo_worker_trace_output (t : Task) (data : list Z) : Eff W Task :=
  let! (b, used) := echo_loop (echo_line t) (echo_line_used t) data in
  eret (t <| echo_line := b |> <| echo_line_used := used |>).
End Echo.

(** The answers of the pipe to [read]; every other answer than data (end of
    file, EAGAIN, an error) ends the poll, and so does an empty script. *)
Definition poll_task_output (level : option CcbLogLevel) (t : Task)
    (reads : list (option (list Z))) : Eff (list Z) Task :=
  if output_fd t <? 0 then eret t
  else
    (fix go (t : Task) (reads : list (option (list Z))) : Eff (list Z) Task :=
       match reads with
       | Some data :: reads =>
           if decide (data = []) then eret t
           else
             let t := append_task_output t data in
             let! t := echo_worker_trace_output (echo_worker_line level) t data in
             go t reads
       | _ => eret t
       end) t reads.

(** ** Descriptors: what is closed and what is left *)
Definition task_fds (t : Task) : list Z := [output_fd t; control_fd t; event_fd t].
Definition to_close (keep_fds : list Z) (fd : Z) : Prop := 0 <= fd ∧ fd ∉ keep_fds.
#[export] Instance to_close_dec keep fd : Decision (to_close keep fd).
Proof. unfold to_close. solve_decision. Defined.

Lemma fd_kept_spec fd keep : storage_fd_is_kept fd keep = true ↔ fd ∈ keep.
Proof.
  unfold storage_fd_is_kept. rewrite existsb_exists. split.
  - intros (k & Hk & E). apply list_elem_of_In. by replace fd with k by lia.
  - intros H. exists fd. split; [by apply list_elem_of_In|lia].
Qed.

Lemma close_unless_kept_spec keep fd closed :
  close_unless_kept keep fd closed =
  (if decide (to_close keep fd) then -1 else fd, closed ++ filter (to_close keep) [fd]).
Proof.
  unfold close_unless_kept. rewrite filter_cons, filter_nil.
  destruct (decide (to_close keep fd)) as [[H1 H2]|H].
  - rewrite <-fd_kept_spec in H2. apply not_true_is_false in H2. rewrite H2.
    by replace (0 <=? fd) with true by lia.
  - rewrite app_nil_r. destruct (0 <=? fd) eqn:E; [|done].
    destruct (storage_fd_is_kept fd keep) eqn:K; [done|].
    destruct H. split; [lia|]. rewrite <-fd_kept_spec. by rewrite K.
Qed.

(** A forked child gives up exactly the descriptors it does not need: of
    all descriptors in the task table those that are open and not in the keep
    list are closed, once per entry and in table order, and become -1; every
    other entry is untouched.  So no kept descriptor is ever closed, and none
    is closed twice when the entries are distinct. *)
Theorem inherited_fds_closed (tasks : list Task) (keep_fds closed : list Z) :
  let '(tasks', log) := storage_child_close_inherited_fds tasks keep_fds closed in
  let fds ts := concat (task_fds <$> ts) in
  log = closed ++ filter (to_close keep_fds) (fds tasks) ∧
  fds tasks' = (λ fd, if decide (to_close keep_fds fd) then -1 else fd) <$> fds tasks ∧
  (NoDup (filter (λ fd, 0 <= fd) (fds tasks)) → NoDup (drop (length closed) log)).
Proof.
  destruct (storage_child_close_inherited_fds _ _ _) as [tasks' log] eqn:E. intros fds.
  assert (H : log = closed ++ filter (to_close keep_fds) (fds tasks) ∧
    fds tasks' = (λ fd, if decide (to_close keep_fds fd) then -1 else fd) <$> fds tasks).
  { revert closed tasks' log E. induction tasks as [|t tasks IH]; intros closed tasks' log E.
    - simpl in E. injection E as <- <-. by rewrite app_nil_r.
    - simpl in E. unfold ebind in E. rewrite !close_unless_kept_spec in E.
      destruct (storage_child_close_inherited_fds tasks keep_fds _) as [ts l] eqn:E'.
      apply IH in E' as [Hl Hf]. injection E as <- <-. split.
      + rewrite Hl. change (fds (t :: tasks)) with (task_fds t ++ fds tasks).
        change (task_fds t) with ([output_fd t] ++ [control_fd t] ++ [event_fd t]).
        by rewrite !filter_app, <-!(assoc_L (++)).
      + change (fds (t :: tasks)) with (task_fds t ++ fds tasks).
        rewrite fmap_app, <-Hf. done. }
  destruct H as [Hl Hf]. split_and!; [done..|]. intros Hnd. subst log.
  rewrite drop_app_length. revert Hnd.
  rewrite (list_filter_iff (to_close keep_fds) (λ fd, (fd ∉ keep_fds) ∧ 0 <= fd))
    by (unfold to_close; tauto).
  rewrite <-list_filter_filter. apply NoDup_filter.
Qed.

(** ** The output window *)
Definition last_n (n : nat) (l : list Z) : list Z := drop (length l - n) l.

Lemma mem_put_length off d b :
  (off + length d <= length b)%nat → length (mem_put off d b) = length b.
Proof. intros. unfold mem_put. rewrite !length_app, length_take, length_drop. lia. Qed.
Lemma mem_put_take off d b n :
  (off <= length b)%nat → n = (off + length d)%nat → take n (mem_put off d b) = take off b ++ d.
Proof.
  intros ? ->. unfold mem_put. rewrite (assoc_L (++)), take_app_length'; [done|].
  rewrite length_app, length_take. lia.
Qed.
Lemma mem_put_take_before off d b n :
  (n <= off)%nat → (off <= length b)%nat → take n (mem_put off d b) = take n b.
Proof.
  intros. unfold mem_put. rewrite take_app_le by (rewrite length_take; lia).
  by rewrite take_take, Nat.min_l.
Qed.
Lemma mem_put_nul off b : (off < length b)%nat → mem_put off [0] b !! off = Some 0.
Proof.
  intros. unfold mem_put. rewrite lookup_app_r by (rewrite length_take; lia).
  rewrite length_take. by replace (off - _)%nat with 0%nat by lia.
Qed.

(** The window holds the last 4095 bytes of the stream, NUL-terminated. *)
Record out_rep (t : Task) (stream : list Z) : Prop := {
  or_len : length (output t) = STORAGE_TASK_OUTPUT_SIZE;
  or_used : (output_used t <= STORAGE_TASK_OUTPUT_SIZE - 1)%nat;
  or_text : take (output_used t) (output t) = last_n (STORAGE_TASK_OUTPUT_SIZE - 1) stream;
  or_nul : output t !! output_used t = Some 0 }.

Lemma out_rep_used t stream : out_rep t stream →
  output_used t = Nat.min (length stream) (STORAGE_TASK_OUTPUT_SIZE - 1).
Proof.
  intros [Hl Hu Ht _]. apply (f_equal length) in Ht. unfold last_n in Ht.
  rewrite length_take, length_drop in Ht. lia.
Qed.

Lemma out_rep_append t stream data :
  out_rep t stream → out_rep (append_task_output t data) (stream ++ data).
Proof.
  intros H. pose proof (out_rep_used _ _ H) as Hused. destruct H as [Hl Hu Ht Hn].
  unfold append_task_output. set (cap := (STORAGE_TASK_OUTPUT_SIZE - 1)%nat) in *.
  assert (Hcap : STORAGE_TASK_OUTPUT_SIZE = S cap) by done. clearbody cap. rewrite Hcap in Hl.
  case_decide as E1; [destruct data; [|done]; rewrite app_nil_r; split; rewrite ?Hcap, ?Nat.sub_succ, ?Nat.sub_0_r; done|].
  case_decide as E2.
  - assert (Hld : length (drop (length data - cap) data) = cap) by (rewrite length_drop; lia).
    assert (Hlb : length (mem_put 0 (drop (length data - cap) data) (output t)) = S cap)
      by (rewrite mem_put_length; rewrite ?Hld; simpl; lia).
    split; cbv [upd]; cbn [output output_used];
      rewrite ?Hcap, ?Nat.sub_succ, ?Nat.sub_0_r.
    + rewrite mem_put_length; simpl; lia.
    + lia.
    + rewrite mem_put_take_before by lia. rewrite mem_put_take by (rewrite ?Hld; lia).
      unfold last_n. rewrite length_app, drop_app_ge by lia. simpl. f_equal. lia.
    + by rewrite mem_put_nul by lia.
  - assert (Hb : ∃ b used, drop_oldest t (length data) = (b, used) ∧
        length b = S cap ∧ (used + length data <= cap)%nat ∧
        take used b ++ data = last_n cap (stream ++ data)).
    { unfold drop_oldest. rewrite Hcap, Nat.sub_succ, Nat.sub_0_r.
      case_decide as E3; eexists _, _; split; [done| |done|].
      - set (d := (output_used t + length data - cap)%nat).
        set (keep := take (output_used t - d) (drop d (output t))).
        assert (Hk : length keep = (output_used t - d)%nat)
          by (unfold keep; rewrite length_take, length_drop; lia).
        rewrite mem_put_length by (rewrite Hk; lia). split_and!; [done|lia|].
        rewrite mem_put_take by (rewrite ?Hk; lia). simpl.
        unfold keep. rewrite take_drop_commute.
        replace (d + (output_used t - d))%nat with (output_used t) by lia.
        rewrite Ht. unfold last_n. rewrite drop_drop, length_app.
        rewrite drop_app_le by lia. f_equal. f_equal. lia.
      - split_and!; [done|lia|]. rewrite Ht. unfold last_n. rewrite length_app.
        rewrite drop_app_le by lia. f_equal. f_equal. lia. }
    destruct Hb as (b & used & -> & Hlb & Hfit & Htext).
    assert (Hlm : length (mem_put used data b) = S cap) by (rewrite mem_put_length; lia).
    split; cbv [upd]; cbn [output output_used];
      rewrite ?Hcap, ?Nat.sub_succ, ?Nat.sub_0_r.
    + rewrite mem_put_length; simpl; lia.
    + lia.
    + rewrite mem_put_take_before by lia. rewrite mem_put_take by lia. done.
    + by rewrite mem_put_nul by lia.
Qed.

(** ** The echoed lines *)

(** A piece handed to the echo: a whole line, or a full buffer of one. *)
Definition piece_ok (l : list Z) : Prop :=
  (length l <= STORAGE_TASK_ECHO_LINE_SIZE - 1)%nat ∧ (10 ∉ take (length l - 1) l) ∧
  (last l = Some 10 ∨ length l = (STORAGE_TASK_ECHO_LINE_SIZE - 1)%nat).

(** The line buffer holds [pending], the part of a line not yet echoed. *)
Record echo_rep (b : list Z) (used : nat) (pending : list Z) : Prop := {
  er_len : length b = STORAGE_TASK_ECHO_LINE_SIZE;
  er_text : take used b = pending;
  er_used : used = length pending;
  er_room : (length pending < STORAGE_TASK_ECHO_LINE_SIZE)%nat;
  er_line : 10 ∉ pending }.

Section EchoProofs.
Context {W : Type} (emit : list Z → Eff W unit).

(** The world after a sequence of pieces was handed over. *)
Definition emit_all (pieces : list (list Z)) (w : W) : W :=
  foldl (λ w p, snd (emit p w)) w pieces.

Lemma emit_all_app p q w : emit_all (p ++ q) w = emit_all q (emit_all p w).
Proof. apply foldl_app. Qed.

Lemma flush_line_eq b used w :
  flush_line emit b used w =
  (mem_put used [0] b, 0%nat, emit_all [take used (mem_put used [0] b)] w).
Proof. unfold flush_line, ebind. simpl. by destruct (emit _ w). Qed.

Lemma flush_rep b used text :
  length b = STORAGE_TASK_ECHO_LINE_SIZE → (used < STORAGE_TASK_ECHO_LINE_SIZE)%nat →
  take used b = text →
  echo_rep (mem_put used [0] b) 0 [] ∧ take used (mem_put used [0] b) = text.
Proof.
  intros Hl Hu <-. split; [|by rewrite mem_put_take_before by lia].
  split; [by rewrite mem_put_length by (simpl; lia)|done|done| |by apply not_elem_of_nil].
  unfold STORAGE_TASK_ECHO_LINE_SIZE. simpl. lia.
Qed.

(** Storing one byte where there is room, and handing a completed line over. *)
Lemma store_rep b used pending c w :
  echo_rep b used pending → (S used < STORAGE_TASK_ECHO_LINE_SIZE)%nat →
  ∃ b' used' pieces pending',
    (if c =? 10 then flush_line emit (mem_put used [c] b) (S used)
     else eret (mem_put used [c] b, S used)) w = (b', used', emit_all pieces w) ∧
    echo_rep b' used' pending' ∧ concat pieces ++ pending' = pending ++ [c] ∧
    Forall piece_ok pieces.
Proof.
  intros [Hl Ht Hu Hroom Hnl] Hsp.
  assert (Hlen : length (mem_put used [c] b) = STORAGE_TASK_ECHO_LINE_SIZE)
    by (rewrite mem_put_length; simpl; lia).
  assert (Htext : take (S used) (mem_put used [c] b) = pending ++ [c])
    by (rewrite mem_put_take by (simpl; lia); by rewrite Ht).
  destruct (c =? 10) eqn:Ec.
  - rewrite flush_line_eq. destruct (flush_rep _ (S used) _ Hlen Hsp Htext) as [Hr Hp].
    rewrite Hp. eexists _, _, [pending ++ [c]], []. split_and!; [done|done|by simpl; rewrite !app_nil_r|].
    apply Forall_singleton. split; [rewrite length_app; cbn [length]; lia|]. split.
    + rewrite length_app, take_app_le by (cbn [length]; lia). by rewrite take_ge by (cbn [length]; lia).
    + left. rewrite last_snoc. f_equal. lia.
  - eexists _, _, [], (pending ++ [c]). split_and!; [done| |done|by constructor].
    split; [done|done|rewrite length_app; cbn [length]; lia|rewrite length_app; cbn [length]; lia|].
    intros Hin. apply elem_of_app in Hin as [?|Hin%list_elem_of_singleton]; [done|lia].
Qed.

Lemma echo_byte_rep b used pending c w :
  echo_rep b used pending →
  ∃ b' used' pieces pending', echo_byte emit b used c w = (b', used', emit_all pieces w) ∧
    echo_rep b' used' pending' ∧ concat pieces ++ pending' = pending ++ [c] ∧
    Forall piece_ok pieces.
Proof.
  intros Hrep. unfold echo_byte, ebind at 1. case_decide as Hfull.
  - destruct Hrep as [Hl Ht Hu Hroom Hnl].
    rewrite flush_line_eq. destruct (flush_rep b used pending Hl) as [Hr Hp]; [lia|done|].
    rewrite Hp. edestruct (store_rep _ 0 [] c (emit_all [pending] w) Hr)
      as (b' & used' & pieces & pending' & E & Hr' & Hc & Hok).
    { unfold STORAGE_TASK_ECHO_LINE_SIZE. lia. }
    exists b', used', (pending :: pieces), pending'. split_and!; [exact E|done| |].
    + simpl. rewrite <-(assoc_L (++)), Hc. done.
    + constructor; [|done]. split_and!; [lia| |right; lia].
      intros Hin. destruct Hnl. rewrite <-(take_drop (length pending - 1) pending).
      apply elem_of_app. by left.
  - cbn beta iota delta [eret]. apply store_rep; [done|lia].
Qed.

Lemma echo_loop_rep data : ∀ b used pending w,
  echo_rep b used pending →
  ∃ b' used' pieces pending', echo_loop emit b used data w = (b', used', emit_all pieces w) ∧
    echo_rep b' used' pending' ∧ concat pieces ++ pending' = pending ++ data ∧
    Forall piece_ok pieces.
Proof.
  induction data as [|c data IH]; intros b used pending w Hrep.
  - exists b, used, [], pending. split_and!; [done|done|by rewrite app_nil_r|by constructor].
  - simpl. unfold ebind at 1.
    destruct (echo_byte_rep b used pending c w Hrep)
      as (b1 & u1 & ps1 & p1 & -> & Hr1 & Hc1 & Hok1).
    destruct (IH b1 u1 p1 (emit_all ps1 w) Hr1) as (b2 & u2 & ps2 & p2 & -> & Hr2 & Hc2 & Hok2).
    exists b2, u2, (ps1 ++ ps2), p2. split_and!; [by rewrite emit_all_app|done| |].
    + rewrite concat_app, <-(assoc_L (++)), Hc2, (assoc_L (++)), Hc1. by rewrite <-(assoc_L (++)).
    + by apply Forall_app.
Qed.
End EchoProofs.

(** What one piece adds to the standard output. *)
Definition echoed (level : option CcbLogLevel) (p : list Z) : list Z :=
  snd (echo_worker_line level p []).

Lemma emit_all_stdout level pieces out :
  emit_all (echo_worker_line level) pieces out = out ++ concat (echoed level <$> pieces).
Proof.
  revert out; induction pieces as [|p ps IH]; intros out; [by rewrite app_nil_r|].
  change (emit_all (echo_worker_line level) (p :: ps) out) with
    (emit_all (echo_worker_line level) ps (snd (echo_worker_line level p out))).
  rewrite IH. simpl. rewrite (assoc_L (++)). f_equal. unfold echoed, echo_worker_line.
  by destruct (worker_output_is_quiet_critical level p); [|rewrite app_nil_r].
Qed.

(** The data that arrives before the first read that brings none. *)
Fixpoint arrived (reads : list (option (list Z))) : list Z :=
  match reads with
  | Some data :: reads => if decide (data = []) then [] else data ++ arrived reads
  | _ => []
  end.

(** The worker's output is neither lost nor reordered.  Polling a worker's
    pipe appends what arrives to the kept text, of which exactly the last 4095
    bytes remain, NUL-terminated; the echo cuts the same bytes into pieces -
    whole lines, or full buffers of 2047 bytes of an over-long line - that
    together with the bytes still pending are the stream, and the standard
    output receives those pieces, in order, each through the quiet-mode gate. *)
Theorem worker_output_preserved level (t : Task) (stream pending out : list Z) reads :
  0 <= output_fd t → out_rep t stream → echo_rep (echo_line t) (echo_line_used t) pending →
  let '(t', out') := poll_task_output level t reads out in
  ∃ pieces pending',
    out' = out ++ concat (echoed level <$> pieces) ∧
    concat pieces ++ pending' = pending ++ arrived reads ∧ Forall piece_ok pieces ∧
    out_rep t' (stream ++ arrived reads) ∧ echo_rep (echo_line t') (echo_line_used t') pending'.
Proof.
  intros Hfd. unfold poll_task_output. replace (output_fd t <? 0) with false by lia. clear Hfd.
  revert t stream pending out. induction reads as [|r reads IH]; intros t stream pending out Ho He.
  { exists [], pending. rewrite !app_nil_r. simpl. split_and!; done. }
  assert (Hstop : ∃ pieces pending', out = out ++ concat (echoed level <$> pieces) ∧
    concat pieces ++ pending' = pending ++ [] ∧ Forall piece_ok pieces ∧
    out_rep t (stream ++ []) ∧ echo_rep (echo_line t) (echo_line_used t) pending')
    by (exists [], pending; rewrite !app_nil_r; done).
  destruct r as [data|]; simpl; [|exact Hstop].
  case_decide as Hd; [exact Hstop|]. clear Hstop.
  apply (out_rep_append _ _ data) in Ho.
  assert (He' : echo_rep (echo_line (append_task_output t data))
    (echo_line_used (append_task_output t data)) pending).
  { unfold append_task_output. by repeat case_match. }
  unfold ebind at 1. unfold echo_worker_trace_output, ebind at 1.
  destruct (echo_loop_rep (echo_worker_line level) data _ _ _ out He')
    as (b & u & ps & p & -> & Hr & Hc & Hok). cbn beta iota delta [eret].
  set (t1 := upd echo_line_used _ _).
  assert (Ho1 : out_rep t1 (stream ++ data)) by (by destruct Ho; split).
  specialize (IH t1 _ p (emit_all (echo_worker_line level) ps out) Ho1 Hr).
  destruct (_ t1 reads _) as [t' out'].
  destruct IH as (pieces & pending' & -> & Hc' & Hok' & Ho' & He2).
  exists (ps ++ pieces), pending'. rewrite emit_all_stdout, fmap_app, !concat_app.
  split_and!; [by rewrite (assoc_L (++))| |by apply Forall_app|by rewrite (assoc_L (++))|done].
  by rewrite <-(assoc_L (++)), Hc', !(assoc_L (++)), Hc.
Qed.

(** A task fresh from [storage_task_reset_runtime]. *)
Definition witness_task : Task :=
  mkTask (-1) 0 IDLE "storage0" 7 8 9 0 zero_event zero_event (replicate 504 0) 0
    false false false false false (replicate 4096 0) 0 (replicate 2048 0) 0
    false false false false false false 0 zero_planned false "" 0 0.

Lemma worker_output_preserved_witness :
  ∃ t', poll_task_output (Some CCB_LOG_INFO) witness_task [Some [104; 105; 10; 33]; None] []
          = (t', [104; 105; 10]) ∧ out_rep t' [104; 105; 10; 33].
Proof.
  pose proof (worker_output_preserved (Some CCB_LOG_INFO) witness_task [] [] []
    [Some [104; 105; 10; 33]; None]) as H.
  destruct (poll_task_output _ _ _ _) as [t' out'] eqn:E.
  destruct H as (ps & pd & Hout & _ & _ & Ho & _).
  - simpl. lia.
  - split; [done|simpl; lia|done|done].
  - split; [done|done|done|unfold STORAGE_TASK_ECHO_LINE_SIZE; simpl; lia|apply not_elem_of_nil].
  - exists t'. split; [|exact Ho]. f_equal. clear -E. vm_compute in E. by injection E.
Defined.

End ccb_storage_task.
