(* ===== verification/Diag.v ===== *)
(** * The diagnostic event ring ([src/src/ccb_storage_diag.c])

    A fixed-size ring of the latest events, which also keeps the first fatal
    one, and its copy in sequence order.  Calls are sequential. *)
From stdpp Require Import sorting.
From S2P Require Import Prelude.

Module ccb_storage_diag.

Record StorageEventRecord : Type := mkRec {
  timestamp_us : Z; event_id : Z; channel : Z; flags : Z; arg0 : Z; arg1 : Z; sequence : Z }.
#[export] Instance eta_Rec : EtaOf StorageEventRecord := λ r,
  mkRec (timestamp_us r) (event_id r) (channel r) (flags r) (arg0 r) (arg1 r) (sequence r).
#[export] Instance StorageEventRecord_eq_dec : EqDecision StorageEventRecord.
Proof. solve_decision. Defined.
Definition zero_rec : StorageEventRecord := mkRec 0 0 0 0 0 0 0.

Record StorageEventRing : Type := mkRing {
  records : list StorageEventRecord; capacity : Z; next_sequence : Z;
  overwrite_count : Z; fatal_sequence : Z; fatal : StorageEventRecord }.
#[export] Instance eta_Ring : EtaOf StorageEventRing := λ r,
  mkRing (records r) (capacity r) (next_sequence r) (overwrite_count r) (fatal_sequence r)
    (fatal r).

Definition storage_event_ring_init (cap : Z) (calloc_ok : bool) : option StorageEventRing :=
  if (cap =? 0) || negb calloc_ok then None
  else Some (mkRing (replicate (Z.to_nat cap) zero_rec) cap 0 0 0 zero_rec).

Definition storage_event_ring_push (record : StorageEventRecord) (is_fatal : bool)
    (r : StorageEventRing) : StorageEventRing :=
  let seq := u64 (u64 (next_sequence r) + 1) in
  let r := r <| next_sequence ::= λ n, u64 (n + 1) |> in
  let r := if capacity r <? seq then r <| overwrite_count ::= λ n, u64 (n + 1) |> else r in
  let copy := record <| sequence := 0 |> in
  let slot := Z.to_nat (seq mod capacity r) in
  let r := r <| records ::= <[slot := copy <| sequence := seq |>]> |> in
  if is_fatal && (fatal_sequence r =? 0)
  then r <| fatal := copy <| sequence := seq |> |> <| fatal_sequence := seq |>
  else r.

(** The scan [seq = first .. last] for at most [max] records; a slot that holds
    another sequence number is skipped. *)
Fixpoint copy_scan (r : StorageEventRing) (n : nat) (seq : Z) (max : nat) :
    list StorageEventRecord :=
  match n, max with
  | O, _ | _, O => []
  | S n, S max' =>
      let x := nth (Z.to_nat (seq mod capacity r)) (records r) zero_rec in
      if sequence x =? seq then x :: copy_scan r n (seq + 1) max'
      else copy_scan r n (seq + 1) max
  end.

(** One round of the insertion sort: [sorted] is the sorted prefix, last first. *)
Fixpoint shift_in (sorted : list StorageEventRecord) (v : StorageEventRecord) :
    list StorageEventRecord :=
  match sorted with
  | x :: rest => if sequence v <? sequence x then x :: shift_in rest v else v :: sorted
  | [] => [v]
  end.
Definition insertion_sort (out : list StorageEventRecord) : list StorageEventRecord :=
  rev (foldl shift_in [] out).

Definition storage_event_ring_copy (max : Z) (r : StorageEventRing) : list StorageEventRecord :=
  if max =? 0 then []
  else
    let last := next_sequence r in
    let first := if capacity r <? last then u64 (last - capacity r + 1) else 1 in
    let out := copy_scan r (Z.to_nat (last - first + 1)) first (Z.to_nat max) in
    let out :=
      if negb (fatal_sequence r =? 0) && (Z.of_nat (length out) <? max) &&
         negb (existsb (λ x, sequence x =? sequence (fatal r)) out)
      then out ++ [fatal r] else out in
    insertion_sort out.

Definition storage_event_ring_should_dump (is_error stopped dump_on_error dump_on_stop : bool) :
    bool := (is_error && dump_on_error) || (stopped && dump_on_stop).

(** ** The history the ring stands for *)

(** The events pushed, each with its number from 1 and whether it is fatal. *)
Definition numbered (h : list (StorageEventRecord * bool)) : list (StorageEventRecord * bool) :=
  imap (λ i e, (e.1 <| sequence := Z.of_nat i + 1 |>, e.2)) h.
Definition events (h : list (StorageEventRecord * bool)) : list StorageEventRecord :=
  fst <$> numbered h.
Definition first_fatal (h : list (StorageEventRecord * bool)) : option StorageEventRecord :=
  head (fst <$> filter (λ e, e.2 = true) (numbered h)).
Definition push_all (h : list (StorageEventRecord * bool)) (r : StorageEventRing) :
    StorageEventRing := foldl (λ r e, storage_event_ring_push e.1 e.2 r) r h.

Lemma numbered_snoc h e :
  numbered (h ++ [e]) = numbered h ++ [(e.1 <| sequence := Z.of_nat (length h) + 1 |>, e.2)].
Proof. unfold numbered. rewrite imap_app. simpl. by rewrite Nat.add_0_r. Qed.
Lemma events_snoc h e :
  events (h ++ [e]) = events h ++ [e.1 <| sequence := Z.of_nat (length h) + 1 |>].
Proof. unfold events. by rewrite numbered_snoc, fmap_app. Qed.
Lemma events_length h : length (events h) = length h.
Proof. unfold events, numbered. by rewrite length_fmap, length_imap. Qed.
Lemma events_sequence h i x : events h !! i = Some x → sequence x = Z.of_nat i + 1.
Proof.
  unfold events, numbered. rewrite list_lookup_fmap, list_lookup_imap.
  destruct (h !! i); [|done]. by intros [= <-].
Qed.
Lemma first_fatal_snoc h e :
  first_fatal (h ++ [e]) =
  match first_fatal h with
  | Some f => Some f
  | None => if e.2 then Some (e.1 <| sequence := Z.of_nat (length h) + 1 |>) else None
  end.
Proof.
  unfold first_fatal. rewrite numbered_snoc, filter_app, fmap_app, filter_cons, filter_nil.
  destruct (fst <$> filter _ (numbered h)); [|done]. by destruct e as [? []].
Qed.
Lemma first_fatal_in h f : first_fatal h = Some f → f ∈ events h.
Proof.
  unfold first_fatal, events. intros H.
  assert (Hf : f ∈ fst <$> filter (λ e, e.2 = true) (numbered h))
    by (destruct (fst <$> _); [done|injection H as ->; by left]).
  apply list_elem_of_fmap in Hf as (e & -> & [_ He]%list_elem_of_filter).
  by apply list_elem_of_fmap_2.
Qed.

(** The ring after the history [h]: each of the latest [capacity] events sits
    in its slot, and the fatal record is the first fatal event. *)
Record ring_rep (h : list (StorageEventRecord * bool)) (r : StorageEventRing) : Prop := {
  rr_cap : 0 < capacity r ∧ length (records r) = Z.to_nat (capacity r);
  rr_next : next_sequence r = Z.of_nat (length h);
  rr_slot : ∀ i x, events h !! i = Some x → Z.of_nat (length h) - capacity r <= Z.of_nat i →
    records r !! Z.to_nat (sequence x mod capacity r) = Some x;
  rr_over : overwrite_count r = Z.max 0 (Z.of_nat (length h) - capacity r);
  rr_fatal : match first_fatal h with
    | Some f => fatal r = f ∧ fatal_sequence r = sequence f ∧ 0 < sequence f
    | None => fatal_sequence r = 0
    end }.

Lemma push_capacity x b r : capacity (storage_event_ring_push x b r) = capacity r.
Proof.
  destruct r as [rs cap nx ov fs fr]. unfold storage_event_ring_push. simpl.
  by destruct (cap <? _); destruct (b && (fs =? 0)) eqn:E; simpl; rewrite E.
Qed.

Lemma mod_window_inj a b n : 0 < n → a < b → b - a < n → a mod n ≠ b mod n.
Proof.
  intros Hn Hab Hw E. pose proof (Z.div_mod a n ltac:(lia)). pose proof (Z.div_mod b n ltac:(lia)).
  rewrite <-E in *. set (x := a mod n) in *. set (p := a / n) in *. set (q := b / n) in *.
  assert (q <= p ∨ p + 1 <= q) as [?|?] by lia; nia.
Qed.

Lemma push_rep h r e :
  ring_rep h r → Z.of_nat (length h) + 1 < 2 ^ 64 →
  ring_rep (h ++ [e]) (storage_event_ring_push e.1 e.2 r).
Proof.
  intros [[Hc Hl] Hn Hs Ho Hf] Hlen. destruct r as [rs cap nx ov fs fr]. simpl in *.
  set (n := Z.of_nat (length h)) in *.
  change (2 ^ 64) with 18446744073709551616 in Hlen.
  assert (Hu' : u64 (nx + 1) = n + 1) by (rewrite Hn; apply u64_small; cint).
  assert (Hu : u64 (u64 nx + 1) = n + 1) by (by rewrite (u64_small nx) by cint).
  set (new := e.1 <| sequence := 0 |> <| sequence := n + 1 |>).
  assert (Hnew : new = e.1 <| sequence := n + 1 |>) by done.
  set (slot := Z.to_nat ((n + 1) mod cap)).
  assert (Hmod : 0 <= (n + 1) mod cap < cap) by (apply Z.mod_pos_bound; lia).
  assert (Hslot : ∀ i x, events (h ++ [e]) !! i = Some x →
    n + 1 - cap <= Z.of_nat i → <[slot := new]> rs !! Z.to_nat (sequence x mod cap) = Some x).
  { intros i x Hx Hi. rewrite events_snoc in Hx. apply lookup_app_Some in Hx as [Hx|[Hge Hx]].
    - pose proof (events_sequence _ _ _ Hx) as Hseq.
      assert (Hlt : (i < length h)%nat) by (rewrite <-events_length; by eapply lookup_lt_Some).
      rewrite list_lookup_insert_ne; [apply (Hs i x Hx); lia|]. unfold slot.
      rewrite Hseq. pose proof (Z.mod_pos_bound (Z.of_nat i + 1) cap Hc).
      pose proof (mod_window_inj (Z.of_nat i + 1) (n + 1) cap Hc ltac:(lia) ltac:(lia)). lia.
    - apply list_lookup_singleton_Some in Hx as [_ <-]. fold n. rewrite <-Hnew.
      change (sequence new) with (n + 1). rewrite list_lookup_insert_eq; [done|]. unfold slot. lia. }
  assert (Hover : (if cap <? n + 1 then u64 (ov + 1) else ov) = Z.max 0 (n + 1 - cap)).
  { destruct (cap <? n + 1) eqn:E; [|lia]. rewrite u64_small by cint. lia. }
  assert (Hlen' : Z.of_nat (length (h ++ [e])) = n + 1) by (rewrite length_app; simpl; lia).
  assert (Heq : storage_event_ring_push e.1 e.2 (mkRing rs cap nx ov fs fr) =
    let take_it := e.2 && (fs =? 0) in
    mkRing (<[slot := new]> rs) cap (n + 1) (if cap <? n + 1 then u64 (ov + 1) else ov)
      (if take_it then n + 1 else fs) (if take_it then new else fr)).
  { unfold storage_event_ring_push. simpl. rewrite Hu, Hu'.
    by destruct (cap <? n + 1), (e.2 && (fs =? 0)) eqn:E; simpl; rewrite E. }
  rewrite Heq. clear Heq. split; simpl; rewrite ?Hlen'.
  - by rewrite length_insert.
  - done.
  - exact Hslot.
  - exact Hover.
  - rewrite first_fatal_snoc. destruct (first_fatal h) as [f|].
    + destruct Hf as (-> & -> & Hpos). replace (sequence f =? 0) with false by lia.
      by rewrite andb_false_r.
    + subst fs. rewrite andb_true_r. destruct e as [x []]; simpl in *; [|done].
      fold n. rewrite <-Hnew. split_and!; [done|done|]. change (sequence new) with (n + 1). lia.
Qed.

(** ** The copy *)
Lemma copy_scan_window h r max : ring_rep h r → ∀ pre suf,
  events h = pre ++ suf → Z.of_nat (length h) - capacity r <= Z.of_nat (length pre) →
  copy_scan r (length suf) (Z.of_nat (length pre) + 1) max = take max suf.
Proof.
  intros Hrep pre suf. revert pre max. induction suf as [|x suf IH]; intros pre max He Hw.
  { by rewrite take_nil. }
  destruct max as [|max]; [done|].
  assert (Hx : events h !! length pre = Some x) by (rewrite He; by apply list_lookup_middle).
  pose proof (events_sequence _ _ _ Hx) as Hseq.
  simpl. rewrite <-Hseq. rewrite (nth_lookup_Some _ _ _ _ (rr_slot _ _ Hrep _ _ Hx Hw)).
  rewrite Z.eqb_refl. f_equal. rewrite Hseq.
  specialize (IH (pre ++ [x]) max). rewrite length_app in IH. simpl in IH.
  replace (Z.of_nat (length pre + 1)) with (Z.of_nat (length pre) + 1) in IH by lia.
  apply IH; [by rewrite <-(assoc_L (++))|lia].
Qed.

(** Increasing sequence numbers. *)
Definition increasing (l : list StorageEventRecord) : Prop :=
  StronglySorted (λ x y, sequence x < sequence y) l.

Lemma shift_in_last sorted v :
  Forall (λ x, sequence x < sequence v) sorted → shift_in sorted v = v :: sorted.
Proof.
  intros [|x l Hx _]; [done|]. simpl. by replace (sequence v <? sequence x) with false by lia.
Qed.
Lemma shift_in_first sorted v :
  Forall (λ x, sequence v < sequence x) sorted → shift_in sorted v = sorted ++ [v].
Proof.
  induction 1 as [|x l Hx _ IH]; [done|]. simpl.
  replace (sequence v <? sequence x) with true by lia. by rewrite IH.
Qed.

Lemma shift_all l : ∀ acc, increasing (acc ++ l) → foldl shift_in (rev acc) l = rev (acc ++ l).
Proof.
  induction l as [|x l IH]; intros acc Hs; simpl; [by rewrite app_nil_r|].
  assert (Hacc : Forall (λ y, sequence y < sequence x) (rev acc)).
  { apply Forall_rev. apply Forall_forall. intros y Hy.
    apply (StronglySorted_app_1_elem_of _ acc (x :: l) y x Hs); [done|by left]. }
  rewrite shift_in_last by done.
  replace (x :: rev acc) with (rev (acc ++ [x])) by (by rewrite rev_app_distr).
  rewrite IH by (by rewrite <-(assoc_L (++))).
  by rewrite <-(assoc_L (++)).
Qed.

Lemma insertion_sort_sorted l : increasing l → insertion_sort l = l.
Proof. intros H. unfold insertion_sort. change [] with (rev (A := StorageEventRecord) []).
  rewrite (shift_all l []) by done. apply rev_involutive. Qed.
Lemma insertion_sort_old l f :
  increasing l → Forall (λ x, sequence f < sequence x) l → insertion_sort (l ++ [f]) = f :: l.
Proof.
  intros Hs Hf. unfold insertion_sort. rewrite foldl_app.
  change (foldl shift_in [] l) with (foldl shift_in (rev []) l).
  rewrite (shift_all l []) by done. simpl.
  rewrite shift_in_first by (by apply Forall_rev). by rewrite rev_app_distr, rev_involutive.
Qed.

Lemma increasing_lookup l :
  (∀ i j x y, l !! i = Some x → l !! j = Some y → (i < j)%nat → sequence x < sequence y) →
  increasing l.
Proof.
  induction l as [|x l IH]; intros H; [constructor|]. constructor.
  - apply IH. intros i j a b Ha Hb Hij. apply (H (S i) (S j) a b Ha Hb). lia.
  - apply Forall_lookup. intros j y Hy. apply (H 0%nat (S j) x y eq_refl Hy). lia.
Qed.

Lemma events_increasing h : increasing (events h).
Proof.
  apply increasing_lookup. intros i j x y Hx%events_sequence Hy%events_sequence ?. lia.
Qed.
Lemma increasing_drop n l : increasing l → increasing (drop n l).
Proof. intros H. rewrite <-(take_drop n l) in H. by apply StronglySorted_app_1_r in H. Qed.
Lemma increasing_take n l : increasing l → increasing (take n l).
Proof. intros H. rewrite <-(take_drop n l) in H. by apply StronglySorted_app_1_l in H. Qed.

(** The events still in the ring: the latest [capacity] ones. *)
Definition window (h : list (StorageEventRecord * bool)) (cap : Z) : list StorageEventRecord :=
  drop (length h - Z.to_nat cap) (events h).

Lemma copy_window h r max : ring_rep h r → Z.of_nat (length h) < 2 ^ 64 →
  let first := if capacity r <? next_sequence r
               then u64 (next_sequence r - capacity r + 1) else 1 in
  copy_scan r (Z.to_nat (next_sequence r - first + 1)) first max = take max (window h (capacity r)).
Proof.
  intros Hrep Hlen first. change (2 ^ 64) with 18446744073709551616 in Hlen.
  destruct (rr_cap _ _ Hrep) as [Hc _]. unfold first. clear first. rewrite (rr_next _ _ Hrep).
  set (k := (length h - Z.to_nat (capacity r))%nat).
  replace (if capacity r <? Z.of_nat (length h)
           then u64 (Z.of_nat (length h) - capacity r + 1) else 1) with (Z.of_nat k + 1).
  2:{ unfold k; destruct (_ <? _) eqn:E; [rewrite u64_small by cint|]; lia. }
  pose proof (events_length h) as Hel.
  assert (Htk : length (take k (events h)) = k) by (rewrite length_take; lia).
  pose proof (copy_scan_window h r max Hrep (take k (events h)) (drop k (events h))) as H.
  rewrite Htk, length_drop, Hel in H.
  replace (Z.to_nat (Z.of_nat (length h) - (Z.of_nat k + 1) + 1)) with (length h - k)%nat by lia.
  apply H; [by rewrite take_drop|lia].
Qed.

(** The ring keeps the latest events and the first fatal one.  From a fresh
    ring, after any sequence of fewer than 2^64 pushes, a copy into room for
    [max] records returns, in sequence order, the oldest [max] of the events
    still in the ring (the last [capacity] pushed), each with its contents and
    number intact; and if the first fatal event has been overwritten since and
    there is room left, it comes first. *)
Theorem event_ring_copy_exact (cap max : Z) (r0 : StorageEventRing)
    (h : list (StorageEventRecord * bool)) :
  0 < cap → 0 < max → storage_event_ring_init cap true = Some r0 →
  Z.of_nat (length h) < 2 ^ 64 →
  let r := push_all h r0 in
  let kept := take (Z.to_nat max) (window h cap) in
  storage_event_ring_copy max r =
    match first_fatal h with
    | Some f => if (Z.of_nat (length kept) <? max) && (sequence f <=? Z.of_nat (length h) - cap)
                then f :: kept else kept
    | None => kept
    end ∧ overwrite_count r = Z.max 0 (Z.of_nat (length h) - cap).
Proof.
  intros Hcap Hmax H0 Hlen r kept.
  assert (Hrep : ring_rep h r ∧ capacity r = cap).
  { unfold storage_event_ring_init in H0. replace (cap =? 0) with false in H0 by lia.
    injection H0 as <-. subst r kept. revert Hlen. induction h as [|e h IH] using rev_ind; intros Hlen.
    - split; [|done]. split; simpl; try done; [by rewrite length_replicate|lia].
    - rewrite length_app in Hlen. simpl in Hlen. destruct (IH ltac:(lia)) as [Hrep Hc].
      unfold push_all. rewrite foldl_app. simpl. split; [apply push_rep; [done|lia]|].
      etrans; [apply push_capacity|exact Hc]. }
  destruct Hrep as [Hrep Hc]. split; [|rewrite <-Hc; apply Hrep].
  unfold storage_event_ring_copy. replace (max =? 0) with false by lia.
  rewrite (copy_window h) by done. rewrite Hc. fold kept.
  assert (Hinc : increasing kept) by (apply increasing_take, increasing_drop, events_increasing).
  pose proof (rr_fatal _ _ Hrep) as Hf. destruct (first_fatal h) as [f|] eqn:Ef.
  2:{ rewrite Hf. simpl. by apply insertion_sort_sorted. }
  destruct Hf as (-> & -> & Hpos). replace (sequence f =? 0) with false by lia. simpl negb.
  destruct (Z.of_nat (length kept) <? max) eqn:Hroom; simpl; [|by apply insertion_sort_sorted].
  apply first_fatal_in in Ef. apply list_elem_of_lookup in Ef as [i Hi].
  pose proof (events_sequence _ _ _ Hi) as Hseq.
  assert (Hk : kept = window h cap).
  { unfold kept. apply take_ge. unfold kept in Hroom. rewrite length_take in Hroom. lia. }
  assert (Hwin : ∀ j x, kept !! j = Some x →
    sequence x = Z.of_nat (length h - Z.to_nat cap + j) + 1).
  { intros j x Hx. rewrite Hk in Hx. unfold window in Hx. rewrite lookup_drop in Hx.
    by apply events_sequence in Hx. }
  destruct (sequence f <=? Z.of_nat (length h) - cap) eqn:Hold.
  - replace (existsb _ kept) with false; simpl.
    + apply insertion_sort_old; [done|]. apply Forall_lookup. intros j x Hx.
      rewrite (Hwin j x Hx). lia.
    + symmetry. apply not_true_is_false. intros (x & Hin & Hx)%existsb_exists.
      apply list_elem_of_In, list_elem_of_lookup in Hin as [j Hj]. pose proof (Hwin j x Hj). lia.
  - replace (existsb _ kept) with true; simpl; [by apply insertion_sort_sorted|].
    symmetry. apply existsb_exists. exists f. split; [|lia].
    apply list_elem_of_In, list_elem_of_lookup. exists (i - (length h - Z.to_nat cap))%nat.
    rewrite Hk. unfold window. rewrite lookup_drop. rewrite <-Hi. f_equal. lia.
Qed.

(** Five events in a ring of two, the second one fatal. *)
Definition witness_ring : StorageEventRing := mkRing (replicate 2 zero_rec) 2 0 0 0 zero_rec.
Definition witness_history : list (StorageEventRecord * bool) :=
  (λ i, (mkRec (10 * i) i 0 0 0 0 0, i =? 2)) <$> [1; 2; 3; 4; 5].

Lemma event_ring_copy_exact_witness :
  storage_event_ring_init 2 true = Some witness_ring ∧
  sequence <$> storage_event_ring_copy 8 (push_all witness_history witness_ring) = [2; 4; 5].
Proof.
  split; [reflexivity|].
  assert (H1 : 0 < 2) by lia. assert (H2 : 0 < 8) by lia.
  assert (H3 : Z.of_nat (length witness_history) < 2 ^ 64) by (vm_compute; reflexivity).
  destruct (event_ring_copy_exact 2 8 witness_ring witness_history H1 H2 eq_refl H3) as [E _].
  etrans; [exact (f_equal (fmap sequence) E)|]. vm_compute. reflexivity.
Defined.
End ccb_storage_diag.
