(* ===== verification/Health.v ===== *)
(** * The health service ([src/src/storage_health.c])

    A background thread probes the three channels and publishes their
    snapshots; clients ask for the aggregate, request a refresh, or declare the
    hardware busy.  Every critical section of the mutex is one step.  The probe
    function is a parameter: each call may answer anything. *)
From S2P Require Import Prelude StorageError.

Module storage_health.

Definition STORAGE_HEALTH_CHANNELS : nat := 3.

Record StorageHealthSnapshot : Type := mkSnap {
  sn_channel : Z; pcie_link : bool; nvme_ready : bool; capacity_valid : bool;
  checked_us : Z; error : StorageErrorCode }.
#[export] Instance eta_Snap : EtaOf StorageHealthSnapshot := λ s,
  mkSnap (sn_channel s) (pcie_link s) (nvme_ready s) (capacity_valid s) (checked_us s) (error s).
#[export] Instance StorageHealthSnapshot_eq_dec : EqDecision StorageHealthSnapshot.
Proof. solve_decision. Defined.

Inductive StorageHealthResult : Type :=
| STORAGE_HEALTH_RETRYING | STORAGE_HEALTH_OK | STORAGE_HEALTH_FAILED.

Record StorageHealthService : Type := mkHealth {
  snapshots : list StorageHealthSnapshot; refresh_interval_ms : Z;
  initialized : bool; running : bool; stop : bool; busy : bool; refresh_requested : bool }.
#[export] Instance eta_Health : EtaOf StorageHealthService := λ s,
  mkHealth (snapshots s) (refresh_interval_ms s) (initialized s) (running s) (stop s)
    (busy s) (refresh_requested s).

Definition zero_snap : StorageHealthSnapshot := mkSnap 0 false false false 0 STORAGE_ERR_NONE.
Definition zero_service : StorageHealthService :=
  mkHealth (replicate 3 zero_snap) 0 false false false false false.

(** A [timespec] deadline: seconds and nanoseconds. *)
Definition realtime_deadline (tv_sec tv_nsec delay_ms : Z) : Z * Z :=
  let nanoseconds := u64 (tv_nsec + u64 (delay_ms * 1000000)) in
  (tv_sec + nanoseconds / 1000000000, nanoseconds mod 1000000000).

(** ** The thread *)
Inductive pc : Type :=
| PcTop | PcProbe (channel : nat) (refreshed : list StorageHealthSnapshot)
| PcPublish (refreshed : list StorageHealthSnapshot) | PcWait | PcExit.

Definition Probe : Type := StorageHealthSnapshot → StorageErrorCode * StorageHealthSnapshot.

(** One probe: the callback gets the zeroed snapshot with its channel set. *)
Definition probe_channel (probe : Probe) (now : Z) (channel : nat) : StorageHealthSnapshot :=
  let '(e, snap) := probe (zero_snap <| sn_channel := Z.of_nat channel |>) in
  snap <| error := e |> <| checked_us := now |>.

(** The thread's next step; at [PcWait] a thread that nothing wakes stays. *)
Definition thread_step (probe : Probe) (now : Z) (s : StorageHealthService) (p : pc) :
    StorageHealthService * pc :=
  match p with
  | PcTop =>
      if stop s then (s, PcExit)
      else (s <| refresh_requested := false |>,
            if busy s then PcWait
            else PcProbe 0 (replicate STORAGE_HEALTH_CHANNELS zero_snap))
  | PcProbe ch refreshed =>
      let refreshed := <[ch := probe_channel probe now ch]> refreshed in
      (s, if (S ch <? STORAGE_HEALTH_CHANNELS)%nat then PcProbe (S ch) refreshed
          else PcPublish refreshed)
  | PcPublish refreshed => (s <| snapshots := refreshed |>, PcWait)
  | PcWait => (s, if stop s || refresh_requested s then PcTop else PcWait)
  | PcExit => (s, PcExit)
  end.

(** [pthread_cond_timedwait] returns ETIMEDOUT. *)
Definition thread_timeout (s : StorageHealthService) (p : pc) : pc :=
  match p with PcWait => PcTop | p => p end.

(** ** The clients *)

(** [sync_ok]: the mutex, the condition variable and the thread can be made;
    [has_probe]: the probe pointer is not NULL. *)
Definition storage_health_start (has_probe sync_ok : bool) (refresh_interval : Z)
    (s : StorageHealthService) : option StorageHealthService :=
  if negb has_probe || (refresh_interval =? 0) || initialized s then None
  else if negb sync_ok then None
  else Some (mkHealth ((λ ch, zero_snap <| sn_channel := ch |>) <$> [0; 1; 2])
               refresh_interval true true false false false).

(** The two halves of [storage_health_stop]: the request, and the reset after
    [pthread_join] has returned. *)
Definition stop_request (s : StorageHealthService) : StorageHealthService :=
  if initialized s then s <| stop := true |> else s.
Definition stop_join (s : StorageHealthService) : StorageHealthService :=
  if initialized s then zero_service else s.

Definition storage_health_set_busy (b : bool) (s : StorageHealthService) : StorageHealthService :=
  if negb (initialized s) then s
  else
    let was_busy := busy s in
    let s := s <| busy := b |> in
    if was_busy && negb b then s <| refresh_requested := true |> else s.

Definition storage_health_request_refresh (s : StorageHealthService) : StorageHealthService :=
  if initialized s then s <| refresh_requested := true |> else s.

Definition snapshot_stale (max_age_us now_us : Z) (sn : StorageHealthSnapshot) : bool :=
  (checked_us sn =? 0) || (now_us <? checked_us sn) || (max_age_us <? now_us - checked_us sn).
Definition snapshot_failed (sn : StorageHealthSnapshot) : bool :=
  negb (error sn =? STORAGE_ERR_NONE) || negb (pcie_link sn) || negb (nvme_ready sn) ||
  negb (capacity_valid sn).

(** The result, the snapshots copied out, and the service. *)
Definition storage_health_query (max_age_us now_us : Z) (s : StorageHealthService) :
    StorageHealthResult * list StorageHealthSnapshot * StorageHealthService :=
  if negb (initialized s) || (max_age_us =? 0) then (STORAGE_HEALTH_RETRYING, [], s)
  else
    let '(stale, failed) :=
      foldl (λ '(stale, failed) sn,
               if snapshot_stale max_age_us now_us sn then (true, failed)
               else (stale, failed || snapshot_failed sn)) (false, false) (snapshots s) in
    (if stale then STORAGE_HEALTH_RETRYING
     else if failed then STORAGE_HEALTH_FAILED else STORAGE_HEALTH_OK,
     snapshots s,
     if stale then s <| refresh_requested := true |> else s).

(** ** The service as a transition system

    The clock only moves forward; [probes] is the history of all probes made:
    when, of which channel, and what the callback answered. *)
Definition probe_event : Type := Z * nat * (StorageErrorCode * StorageHealthSnapshot).
Record state : Type := mkState {
  svc : StorageHealthService; thr : pc; clock : Z;
  probes : list probe_event }.

Definition record_probe (probe : Probe) (now : Z) (p : pc)
    (h : list probe_event) : list probe_event :=
  match p with
  | PcProbe ch _ =>
      h ++ [(now, ch, probe (zero_snap <| sn_channel := Z.of_nat ch |>))]
  | _ => h
  end.

Inductive step : state → state → Prop :=
| st_tick s t : clock s <= t → step s (mkState (svc s) (thr s) t (probes s))
| st_thread s probe :
    step s (mkState (thread_step probe (clock s) (svc s) (thr s)).1
              (thread_step probe (clock s) (svc s) (thr s)).2 (clock s)
              (record_probe probe (clock s) (thr s) (probes s)))
| st_timeout s : step s (mkState (svc s) (thread_timeout (svc s) (thr s)) (clock s) (probes s))
| st_busy s b :
    step s (mkState (storage_health_set_busy b (svc s)) (thr s) (clock s) (probes s))
| st_refresh s :
    step s (mkState (storage_health_request_refresh (svc s)) (thr s) (clock s) (probes s))
| st_query s max_age :
    step s (mkState (storage_health_query max_age (clock s) (svc s)).2 (thr s) (clock s) (probes s))
| st_stop s : step s (mkState (stop_request (svc s)) (thr s) (clock s) (probes s))
| st_join s : thr s = PcExit →
    step s (mkState (stop_join (svc s)) (thr s) (clock s) (probes s)).

Inductive reachable : state → Prop :=
| re_start interval t s :
    storage_health_start true true interval zero_service = Some s → 0 <= t →
    reachable (mkState s PcTop t [])
| re_step s s' : reachable s → step s s' → reachable s'.

(** The snapshot states what the callback answered. *)
Definition states (sn : StorageHealthSnapshot) (a : StorageErrorCode * StorageHealthSnapshot) :
    Prop :=
  error sn = a.1 ∧ pcie_link sn = pcie_link a.2 ∧ nvme_ready sn = nvme_ready a.2 ∧
  capacity_valid sn = capacity_valid a.2.

(** A snapshot is that of a probe of the channel, or no probe's. *)
Definition recorded (h : list probe_event) (ch : nat)
    (sn : StorageHealthSnapshot) : Prop :=
  checked_us sn = 0 ∨ ∃ a, (checked_us sn, ch, a) ∈ h ∧ states sn a.

Definition table_recorded h (l : list StorageHealthSnapshot) : Prop :=
  length l = STORAGE_HEALTH_CHANNELS ∧ ∀ ch sn, l !! ch = Some sn → recorded h ch sn.

Record health_inv (s : state) : Prop := {
  hi_table : table_recorded (probes s) (snapshots (svc s));
  hi_thread : match thr s with
    | PcProbe ch r => (ch < STORAGE_HEALTH_CHANNELS)%nat ∧ table_recorded (probes s) r
    | PcPublish r => table_recorded (probes s) r
    | _ => True
    end;
  hi_past : ∀ t ch a, (t, ch, a) ∈ probes s → t <= clock s;
  hi_exit : thr s = PcExit → stop (svc s) = true ∨ initialized (svc s) = false }.

Lemma recorded_mono h h' ch sn : recorded h ch sn → recorded (h ++ h') ch sn.
Proof.
  intros [?|(a & ? & ?)]; [by left|right]. exists a. split; [|done]. by apply elem_of_app; left.
Qed.
Lemma table_recorded_mono h h' l : table_recorded h l → table_recorded (h ++ h') l.
Proof. intros [? H]. split; [done|]. intros ch sn ?%H. by apply recorded_mono. Qed.
Lemma zero_table_recorded h :
  table_recorded h (replicate STORAGE_HEALTH_CHANNELS zero_snap).
Proof. split; [done|]. intros ch sn [-> _]%lookup_replicate. by left. Qed.

Lemma thread_step_inv probe s : health_inv s →
  health_inv (mkState (thread_step probe (clock s) (svc s) (thr s)).1
    (thread_step probe (clock s) (svc s) (thr s)).2 (clock s)
    (record_probe probe (clock s) (thr s) (probes s))).
Proof.
  intros [Ht Hp Hpast Hex]. destruct s as [sv p now h]. simpl in *.
  destruct p as [|ch r|r| |]; simpl in *.
  - destruct (stop sv) eqn:Hs; [split; auto|]. split; simpl; [done| |done|by destruct (busy sv)].
    destruct (busy sv); [done|]. split; [unfold STORAGE_HEALTH_CHANNELS; lia|].
    apply zero_table_recorded.
  - destruct Hp as [Hch Hr]. set (new := (now, ch, probe (zero_snap <| sn_channel := Z.of_nat ch |>))).
    change (list probe_event) in h.
    assert (Hr' : table_recorded (h ++ [new]) (<[ch := probe_channel probe now ch]> r)).
    { apply (table_recorded_mono _ [new]) in Hr as [Hl Hr]. split; [by rewrite length_insert|].
      intros c sn. rewrite list_lookup_insert_Some.
      intros [(-> & <- & _)|(_ & ?)]; [right|by apply Hr].
      unfold new, probe_channel. destruct (probe _) as [e a]. exists (e, a). split; [|done].
      apply elem_of_app; right. by apply list_elem_of_singleton. }
    split; simpl.
    + by apply table_recorded_mono.
    + destruct (S ch <? STORAGE_HEALTH_CHANNELS)%nat eqn:E; [|done].
      split; [by apply Nat.ltb_lt|done].
    + intros t c sn [?|Hin%list_elem_of_singleton]%elem_of_app; [by eapply Hpast|].
      injection Hin as -> _ _. lia.
    + by destruct (S ch <? STORAGE_HEALTH_CHANNELS)%nat.
  - by split.
  - split; simpl; [done| |done|]; by destruct (_ || _).
  - by split.
Qed.

Lemma reachable_inv s : reachable s → health_inv s.
Proof.
  induction 1 as [interval t s Hs Ht|s s' Hr IH Hstep].
  - unfold storage_health_start in Hs. case_match; [done|]. injection Hs as <-.
    split; simpl; [|done|by intros ??? ?%elem_of_nil|done].
    split; [done|]. intros ch sn Hin%list_elem_of_lookup_2. left.
    change (sn ∈ (λ ch, zero_snap <| sn_channel := ch |>) <$> [0; 1; 2]) in Hin.
    by apply list_elem_of_fmap in Hin as (c & -> & _).
  - inversion Hstep; subst; [| by apply thread_step_inv| | | | | |];
      destruct s as [sv p now h]; simpl in *.
    + destruct IH as [H1 H2 H3 H4]. split; simpl in *; try done.
      intros ??? Hin. etrans; [by eapply H3|done].
    + destruct IH as [H1 H2 H3 H4]. split; simpl in *; try done; by destruct p.
    + unfold storage_health_set_busy. destruct (negb _); [exact IH|].
      destruct IH as [H1 H2 H3 H4]. destruct (_ && _); split; assumption.
    + unfold storage_health_request_refresh. case (initialized sv); [|exact IH].
      destruct IH as [H1 H2 H3 H4]. split; assumption.
    + unfold storage_health_query. destruct (_ || _); [exact IH|].
      destruct (foldl _ _ _) as [stale failed]. destruct stale; [|exact IH].
      destruct IH as [H1 H2 H3 H4]. split; assumption.
    + unfold stop_request. case (initialized sv); [|exact IH].
      destruct IH as [H1 H2 H3 H4]. split; try assumption. intros _. by left.
    + unfold stop_join. case (initialized sv); [|exact IH].
      destruct IH as [H1 H2 H3 H4]. split; simpl; [apply zero_table_recorded|done|done|by right].
Qed.

(** ** What an answer means *)
Lemma query_fold max_age now l stale failed :
  foldl (λ '(stale, failed) sn,
           if snapshot_stale max_age now sn then (true, failed)
           else (stale, failed || snapshot_failed sn)) (stale, failed) l =
  (stale || existsb (snapshot_stale max_age now) l,
   failed || existsb (λ sn, negb (snapshot_stale max_age now sn) && snapshot_failed sn) l).
Proof.
  revert stale failed; induction l as [|sn l IH]; intros stale failed; simpl;
    [by rewrite !orb_false_r|].
  destruct (snapshot_stale max_age now sn); rewrite IH; simpl.
  - by rewrite orb_true_r.
  - by rewrite <-orb_assoc.
Qed.

Lemma existsb_Forall {A} (f : A → bool) l : existsb f l = false ↔ Forall (λ x, f x = false) l.
Proof.
  induction l as [|x l IH]; simpl; [by split; [constructor|]|].
  by rewrite orb_false_iff, Forall_cons, IH.
Qed.

(** C39: A verdict of the health service rests on recent probes.  In every
    reachable state, an answer other than RETRYING to a query that allows
    snapshots of age [max_age] implies that each of the three channels was
    probed within that time, and that the copied snapshot states what that probe
    answered; OK means that every one of these probes reported no error with
    the link up, the drive ready and the capacity known, and FAILED that at
    least one did not.  A query that finds a snapshot stale requests a
    refresh. *)
Theorem health_verdict_sound (s : state) (max_age : Z) :
  reachable s →
  let '((result, copied), sv) := storage_health_query max_age (clock s) (svc s) in
  (result ≠ STORAGE_HEALTH_RETRYING →
     length copied = STORAGE_HEALTH_CHANNELS ∧
     (∀ ch sn, copied !! ch = Some sn →
        clock s - max_age <= checked_us sn <= clock s ∧
        ∃ a, (checked_us sn, ch, a) ∈ probes s ∧ states sn a) ∧
     (result = STORAGE_HEALTH_OK ↔
        Forall (λ sn, error sn = STORAGE_ERR_NONE ∧ pcie_link sn = true ∧
                      nvme_ready sn = true ∧ capacity_valid sn = true) copied)) ∧
  (initialized (svc s) = true → max_age ≠ 0 → result = STORAGE_HEALTH_RETRYING →
     refresh_requested sv = true).
Proof.
  intros [[Hlen Hrec] _ _ _]%reachable_inv. unfold storage_health_query.
  destruct (negb (initialized (svc s)) || (max_age =? 0)) eqn:Hi.
  { split; [done|]. intros H1 H2 _. rewrite H1 in Hi. simpl in Hi. lia. }
  rewrite query_fold. simpl orb.
  destruct (existsb (snapshot_stale max_age (clock s)) (snapshots (svc s))) eqn:Hst.
  { split; [done|]. done. }
  split; [|by case_match]. intros _. apply existsb_Forall in Hst.
  split_and!; [done| |].
  - intros ch sn Hl. pose proof (Forall_lookup_1 _ _ _ _ Hst Hl) as Hs. cbv beta in Hs.
    unfold snapshot_stale in Hs. rewrite !orb_false_iff in Hs.
    destruct (Hrec ch sn Hl) as [?|?]; [lia|]. split; [lia|done].
  - assert (Hiff : existsb (λ sn, negb (snapshot_stale max_age (clock s) sn) && snapshot_failed sn)
        (snapshots (svc s)) = false ↔
      Forall (λ sn, error sn = STORAGE_ERR_NONE ∧ pcie_link sn = true ∧
                      nvme_ready sn = true ∧ capacity_valid sn = true) (snapshots (svc s))).
    { rewrite existsb_Forall. clear Hlen Hrec Hi.
      induction Hst as [|sn l Hs Hst IH]; [done|]. rewrite !Forall_cons, IH, Hs.
      unfold snapshot_failed. destruct (pcie_link sn), (nvme_ready sn), (capacity_valid sn);
        simpl; rewrite ?orb_true_r, ?orb_false_r, ?negb_false_iff, ?Z.eqb_eq; naive_solver. }
    rewrite <-Hiff. by destruct (existsb _ _).
Qed.

(** ** Progress of the thread *)

(** The thread alone, its [i]-th step with answer [ans i] at time [t i]. *)
Fixpoint run_thread (ans : nat → Probe) (t : nat → Z) (n i : nat)
    (s : StorageHealthService) (p : pc) : StorageHealthService * pc :=
  match n with
  | O => (s, p)
  | S n => let '(s, p) := thread_step (ans i) (t i) s p in run_thread ans t n (S i) s p
  end.

(** One full round, from the top of the loop: five steps. *)
Lemma round_fresh ans t t0 i s :
  stop s = false → busy s = false → (∀ j, t0 <= t j) →
  ∃ s', run_thread ans t 5 i s PcTop = (s', PcWait) ∧
    Forall (λ sn, t0 <= checked_us sn) (snapshots s') ∧ length (snapshots s') = 3%nat.
Proof.
  intros Hs Hb Ht.
  assert (Hp : ∀ j ch, t0 <= checked_us (probe_channel (ans j) (t j) ch)).
  { intros j ch. unfold probe_channel. destruct (ans j _). simpl. apply Ht. }
  eexists. split.
  - cbn [run_thread thread_step]. rewrite Hs, Hb. reflexivity.
  - simpl. split; [|done]. by repeat (apply Forall_cons; split; [apply Hp|]).
Qed.

Lemma run_thread_add ans t n m i s p :
  run_thread ans t (n + m) i s p =
  let '(s', p') := run_thread ans t n i s p in run_thread ans t m (n + i) s' p'.
Proof.
  revert i s p. induction n as [|n IH]; intros i s p; [done|]. simpl.
  destruct (thread_step _ _ _ _) as [s1 p1]. rewrite IH.
  destruct (run_thread ans t n (S i) s1 p1). by rewrite Nat.add_succ_r.
Qed.

(** The steps to the top of the loop when a refresh or a stop is pending. *)
Definition to_top (p : pc) : nat :=
  match p with
  | PcTop | PcExit => 0 | PcWait => 1 | PcPublish _ => 2 | PcProbe ch _ => 5 - ch
  end.

Lemma reach_top ans t i s p :
  stop s || refresh_requested s = true → p ≠ PcExit →
  match p with PcProbe ch _ => (ch < STORAGE_HEALTH_CHANNELS)%nat | _ => True end →
  ∃ s', run_thread ans t (to_top p) i s p = (s', PcTop) ∧ stop s' = stop s ∧ busy s' = busy s.
Proof.
  intros Hw Hne Hp.
  destruct p as [|ch r|r| |]; simpl; [by eexists| |by rewrite Hw; eexists|by rewrite Hw; eexists|done].
  unfold STORAGE_HEALTH_CHANNELS in Hp.
  destruct ch as [|[|[|ch]]]; [| | |lia]; simpl; rewrite Hw; by eexists.
Qed.

(** No refresh request is lost, and stop is answered.  In a reachable state
    of a running service that is not busy and has a request pending - also one
    that arrived while the thread was probing - the thread by itself publishes,
    within ten of its own steps, snapshots all of which were probed after now;
    and once a stop was requested it exits within six steps, without waiting
    for the refresh interval. *)
Theorem health_thread_progress (s : state) (ans : nat → Probe) (t : nat → Z) :
  reachable s → initialized (svc s) = true → (∀ j, clock s <= t j) → thr s ≠ PcExit →
  (stop (svc s) = false → busy (svc s) = false → refresh_requested (svc s) = true →
     ∃ n s', (n <= 10)%nat ∧ run_thread ans t n 0 (svc s) (thr s) = (s', PcWait) ∧
       length (snapshots s') = STORAGE_HEALTH_CHANNELS ∧
       Forall (λ sn, clock s <= checked_us sn) (snapshots s')) ∧
  (stop (svc s) = true →
     ∃ n s', (n <= 6)%nat ∧ run_thread ans t n 0 (svc s) (thr s) = (s', PcExit)).
Proof.
  intros Hr _ Ht Hne. destruct (reachable_inv _ Hr) as [_ Hthr _ _].
  assert (Hp : match thr s with PcProbe ch _ => (ch < STORAGE_HEALTH_CHANNELS)%nat | _ => True end)
    by (destruct (thr s); [done|apply Hthr|done..]).
  assert (Hlt : (to_top (thr s) <= 5)%nat) by (destruct (thr s); simpl; lia). split.
  - intros Hs Hb Hq.
    destruct (reach_top ans t 0 (svc s) (thr s)) as (s1 & E1 & Hs1 & Hb1);
      [by rewrite Hq, orb_true_r|done|done|].
    destruct (round_fresh ans t (clock s) (to_top (thr s)) s1) as (s2 & E2 & Hf & Hl);
      [congruence|congruence|done|].
    exists (to_top (thr s) + 5)%nat, s2. rewrite run_thread_add, E1, Nat.add_0_r.
    split_and!; [lia|done|done|done].
  - intros Hs. destruct (reach_top ans t 0 (svc s) (thr s)) as (s1 & E1 & Hs1 & _);
      [by rewrite Hs|done|done|].
    exists (to_top (thr s) + 1)%nat, s1. rewrite run_thread_add, E1. split; [lia|].
    simpl. by rewrite Hs1, Hs.
Qed.

Definition started : StorageHealthService :=
  mkHealth ((λ ch, zero_snap <| sn_channel := ch |>) <$> [0; 1; 2]) 5000 true true false false false.
Definition good_probe : Probe := λ sn, (STORAGE_ERR_NONE, mkSnap (sn_channel sn) true true true 0 0).

(** A started service after one round of the thread at time 100. *)
Definition witness_run : state :=
  mkState (run_thread (λ _, good_probe) (λ _, 100) 5 0 started PcTop).1 PcWait 100
    ((λ ch, (100, ch, good_probe (zero_snap <| sn_channel := Z.of_nat ch |>)))
       <$> [0%nat; 1%nat; 2%nat]).

Lemma witness_run_reachable : reachable witness_run.
Proof.
  assert (H0 : reachable (mkState started PcTop 100 [])) by (by apply (re_start 5000)).
  do 5 (apply (re_step _ _) with (2 := st_thread _ good_probe) in H0; simpl in H0).
  exact H0.
Qed.

Lemma health_verdict_sound_witness :
  reachable witness_run ∧
  (storage_health_query 50 (clock witness_run) (svc witness_run)).1.1 = STORAGE_HEALTH_OK ∧
  ∀ ch sn, (storage_health_query 50 (clock witness_run) (svc witness_run)).1.2 !! ch = Some sn →
    50 <= checked_us sn <= 100.
Proof.
  split; [exact witness_run_reachable|]. split; [vm_compute; reflexivity|].
  pose proof (health_verdict_sound witness_run 50 witness_run_reachable) as H.
  assert (E : (storage_health_query 50 (clock witness_run) (svc witness_run)).1.1 = STORAGE_HEALTH_OK)
    by (vm_compute; reflexivity).
  destruct (storage_health_query _ _ _) as [[result copied] sv]. simpl in *. subst result.
  destruct H as [H _]. intros ch sn Hl. destruct (H ltac:(discriminate)) as (_ & H2 & _).
  apply (H2 ch sn Hl).
Defined.

(** A request that arrives while the thread is about to publish. *)
Lemma health_thread_progress_witness :
  ∃ s, thr s = PcWait ∧ refresh_requested (svc s) = true ∧
    ∃ n s', (n <= 10)%nat ∧
      run_thread (λ _, good_probe) (λ _, 200) n 0 (svc s) (thr s) = (s', PcWait).
Proof.
  exists (mkState (storage_health_request_refresh (svc witness_run)) (thr witness_run)
    (clock witness_run) (probes witness_run)).
  assert (Hr := re_step _ _ witness_run_reachable (st_refresh witness_run)).
  split; [reflexivity|]. split; [reflexivity|].
  destruct (health_thread_progress _ (λ _, good_probe) (λ _, 200) Hr) as [H _];
    [reflexivity|intros j; simpl; lia|discriminate|].
  destruct (H eq_refl eq_refl eq_refl) as (n & s' & Hn & E & _). exists n, s'. split; [exact Hn|exact E].
Defined.
End storage_health.
