(* ===== verification/Outbox.v ===== *)
(** * The synchronisation outbox ([src/src/ccb_storage_sync_outbox.c])

    A replica that could not be brought up to date is remembered by a marker
    file per task: written to a temporary file, made durable, renamed into
    place, and the directory made durable.  The table of file-system callbacks
    is one function of the call; [inl] is a failure with its [errno]. *)
From stdpp Require Import pretty.
From S2P Require Import Prelude Bytes.

Module ccb_storage_sync_outbox.

Definition ENOENT : Z := 2.
Definition EINTR : Z := 4.
Definition EIO : Z := 5.
Definition EEXIST : Z := 17.
Definition EINVAL : Z := 22.
Definition ENAMETOOLONG : Z := 36.
Definition PATH_MAX : Z := 4096.
Definition STORAGE_SYNC_OUTBOX_TEMP_ATTEMPTS : nat := 64.

Inductive Call : Type :=
| mkdir_path (path : string) | open_file (path : string) | open_directory (path : string)
| write_file (fd : Z) (bytes : list Z) | fsync_fd (fd : Z) | close_fd (fd : Z)
| rename_path (old_path new_path : string) | unlink_path (path : string).
#[export] Instance Call_eq_dec : EqDecision Call.
Proof. solve_decision. Defined.

(** [complete] is false when an entry of the table is NULL. *)
Record StorageSyncOutboxOps (W : Type) : Type := mkOutboxOps {
  complete : bool; do_call : Call → Eff W (Z + Z) }.
Arguments mkOutboxOps {W}. Arguments complete {W}. Arguments do_call {W}.

(** Why an operation returned -1: its [errno] ([None]: not set), or no answer
    within the fuel of the write loop. *)
Inductive failure : Type := Blocked | Errno (e : option Z).

Definition outbox_char_valid (a : Ascii.ascii) : bool :=
  let n := Ascii.nat_of_ascii a in
  (65 <=? n)%nat && (n <=? 90)%nat || (97 <=? n)%nat && (n <=? 122)%nat ||
  (48 <=? n)%nat && (n <=? 57)%nat || (n =? 95)%nat || (n =? 45)%nat.

Fixpoint all_chars_valid (s : string) : bool :=
  match s with
  | EmptyString => true
  | String a s => outbox_char_valid a && all_chars_valid s
  end.

Definition outbox_task_id_valid (task_id : option string) : bool :=
  match task_id with
  | None | Some EmptyString => false
  | Some s => all_chars_valid s
  end.

(** [snprintf] into a buffer of [size] bytes that must not truncate. *)
Definition fit (size : Z) (path : string) : failure + string :=
  if size <=? Z.of_nat (String.length path) then inl (Errno (Some ENAMETOOLONG)) else inr path.

Definition outbox_marker_path (outbox_dir task_id : option string) : failure + string :=
  match outbox_dir, task_id with
  | Some dir, Some task =>
      if String.eqb dir "" || negb (outbox_task_id_valid task_id)
      then inl (Errno (Some EINVAL))
      else fit PATH_MAX (dir ++ "/" ++ task ++ ".pending")
  | _, _ => inl (Errno (Some EINVAL))
  end.

Definition outbox_make_temp_path (pid : Z) (dir task : string) (attempt : Z) : failure + string :=
  fit PATH_MAX (dir ++ "/." ++ task ++ ".pending.tmp." ++ pretty pid ++ "." ++ pretty attempt).

Section Ops.
Context {W : Type} (ops : StorageSyncOutboxOps W) (pid : Z).

(** A call whose failure is the caller's failure. *)
Definition must_call (c : Call) : Eff W (failure + Z) :=
  let! r := do_call ops c in
  eret (match r with inl e => inl (Errno (Some e)) | inr v => inr v end).

(** One iteration per [write]; EINTR repeats it. *)
Fixpoint outbox_write_all (fuel : nat) (fd : Z) (bytes : list Z) : Eff W (failure + unit) :=
  match bytes with
  | [] => xret tt
  | _ =>
    match fuel with
    | O => xfail Blocked
    | S fuel =>
      let! r := do_call ops (write_file fd bytes) in
      match r with
      | inr n =>
          if 0 <? n then outbox_write_all fuel fd (drop (Z.to_nat n) bytes)
          else xfail (Errno (Some EIO))
      | inl e =>
          if e =? EINTR then outbox_write_all fuel fd bytes else xfail (Errno (Some e))
      end
    end
  end.

Definition outbox_fsync_directory (path : string) : Eff W (failure + unit) :=
  let? fd := must_call (open_directory path) in
  let! r := must_call (fsync_fd fd) in
  match r with
  | inl e => let! _ := do_call ops (close_fd fd) in xfail e
  | inr _ => let? _ := must_call (close_fd fd) in xret tt
  end.

(** The attempts [attempt .. attempt + n - 1] at a fresh temporary file. *)
Fixpoint open_temp (n : nat) (attempt : Z) (dir task : string) : Eff W (failure + (Z * string)) :=
  match n with
  | O => xfail (Errno (Some EEXIST))
  | S n =>
    match outbox_make_temp_path pid dir task attempt with
    | inl e => xfail e
    | inr temp =>
      let! r := do_call ops (open_file temp) in
      match r with
      | inr fd => xret (fd, temp)
      | inl e => if negb (e =? EEXIST) then xfail (Errno (Some e))
                 else open_temp n (attempt + 1) dir task
      end
    end
  end.

(** The marker's text, made durable through the open temporary file. *)
Definition write_marker (fuel : nat) (fd : Z) (task : string) : Eff W (failure + unit) :=
  let? _ := outbox_write_all fuel fd (txt task) in
  let? _ := outbox_write_all fuel fd [10] in
  let? _ := must_call (fsync_fd fd) in xret tt.

(** An existing directory is as good as a new one. *)
Definition ensure_directory (dir : string) : Eff W (failure + unit) :=
  let! r := do_call ops (mkdir_path dir) in
  match r with
  | inl e => if negb (e =? EEXIST) then xfail (Errno (Some e)) else xret tt
  | inr _ => xret tt
  end.

(** From the closed temporary file to the durable marker. *)
Definition publish (fd : Z) (temp final dir : string) : Eff W (failure + unit) :=
  let! c := must_call (close_fd fd) in
  match c with
  | inl e => let! _ := do_call ops (unlink_path temp) in xfail e
  | inr _ =>
    let! r := must_call (rename_path temp final) in
    match r with
    | inl e => let! _ := do_call ops (unlink_path temp) in xfail e
    | inr _ => outbox_fsync_directory dir
    end
  end.

Definition write_and_publish (fuel : nat) (fd : Z) (task temp final dir : string) :
    Eff W (failure + unit) :=
  let! w := write_marker fuel fd task in
  match w with
  | inl Blocked => xfail Blocked
  | inl e =>
      let! _ := do_call ops (close_fd fd) in
      let! _ := do_call ops (unlink_path temp) in xfail e
  | inr _ => publish fd temp final dir
  end.

Definition storage_sync_outbox_mark_pending_with_ops (fuel : nat)
    (outbox_dir task_id : option string) : Eff W (failure + unit) :=
  if negb (complete ops) then xfail (Errno None) else
  match outbox_marker_path outbox_dir task_id with
  | inl e => xfail e
  | inr final =>
    let dir := default ""%string outbox_dir in
    let task := default ""%string task_id in
    let? _ := ensure_directory dir in
    let? (fd, temp) := open_temp STORAGE_SYNC_OUTBOX_TEMP_ATTEMPTS 0 dir task in
    write_and_publish fuel fd task temp final dir
  end.

(** A marker that is not there is already complete. *)
Definition storage_sync_outbox_mark_complete_with_ops
    (outbox_dir task_id : option string) : Eff W (failure + unit) :=
  if negb (complete ops) then xfail (Errno None) else
  match outbox_marker_path outbox_dir task_id with
  | inl e => xfail e
  | inr final =>
    let! r := do_call ops (unlink_path final) in
    match r with
    | inl e => if e =? ENOENT then xret tt else xfail (Errno (Some e))
    | inr _ => outbox_fsync_directory (default ""%string outbox_dir)
    end
  end.
End Ops.

(** ** Names *)
Definition slash : Ascii.ascii := Ascii.ascii_of_nat 47.

Fixpoint has_char (a : Ascii.ascii) (s : string) : bool :=
  match s with EmptyString => false | String b s => Ascii.eqb a b || has_char a s end.

Lemma valid_not_slash a : outbox_char_valid a = true → Ascii.eqb slash a = false.
Proof. intros H. apply Ascii.eqb_neq. intros <-. discriminate H. Qed.

Lemma valid_no_slash s : all_chars_valid s = true → has_char slash s = false.
Proof.
  induction s as [|a s IH]; [done|]. cbn [all_chars_valid has_char].
  intros [Ha Hs]%andb_true_iff. by rewrite (valid_not_slash a Ha), IH.
Qed.

Lemma string_app_inj_l (a b c : string) : (a ++ b)%string = (a ++ c)%string → b = c.
Proof. induction a as [|x a IH]; [done|]. simpl. intros H. apply IH. by injection H. Qed.

(** Texts of valid characters are told apart by what follows a dot. *)
Lemma valid_app_inj s t x y :
  all_chars_valid s = true → all_chars_valid t = true →
  (s ++ "." ++ x)%string = (t ++ "." ++ y)%string → s = t ∧ x = y.
Proof.
  revert t. induction s as [|a s IH]; intros [|b t] Hs Ht H; simpl in *.
  - injection H as H. simpl in H. by subst.
  - injection H as H _. subst b. discriminate Ht.
  - injection H as H _. subst a. discriminate Hs.
  - injection H as -> H. apply andb_true_iff in Hs as [_ Hs]. apply andb_true_iff in Ht as [_ Ht].
    by destruct (IH t Hs Ht H) as [-> ->].
Qed.

Lemma marker_path_inr dir task path :
  outbox_marker_path dir task = inr path →
  ∃ d t, dir = Some d ∧ task = Some t ∧ d ≠ ""%string ∧ t ≠ ""%string ∧ all_chars_valid t = true ∧
    path = (d ++ "/" ++ t ++ ".pending")%string ∧ Z.of_nat (String.length path) < PATH_MAX.
Proof.
  unfold outbox_marker_path. destruct dir as [d|], task as [t|]; try done.
  destruct (String.eqb d "") eqn:Ed; [done|]. destruct (outbox_task_id_valid (Some t)) eqn:Ev; [|done].
  unfold fit. simpl negb. cbn [orb]. destruct (_ <=? _) eqn:Hd; [done|]. intros [= <-].
  exists d, t. apply String.eqb_neq in Ed. split_and!; try done; [by intros -> | |lia].
  by destruct t.
Qed.

Lemma fit_inl size path e : fit size path = inl e → e = Errno (Some ENAMETOOLONG).
Proof. unfold fit. case_match; by intros [= <-]. Qed.
Lemma fit_inr size path p : fit size path = inr p → p = path.
Proof. unfold fit. case_match; by intros [= <-]. Qed.

(** A task identifier cannot leave the outbox directory or hit another
    task's marker.  An accepted marker path is the directory, a slash and a name
    without a slash; two tasks have the same marker only if they are the same
    task; and no temporary name, whatever the process and the attempt, is the
    marker of any task. *)
Theorem marker_names_confined (dir task path : string) :
  outbox_marker_path (Some dir) (Some task) = inr path →
  (∃ name, path = (dir ++ "/" ++ name)%string ∧ has_char slash name = false ∧
     String.get 0 name ≠ Some (Ascii.ascii_of_nat 46)) ∧
  (∀ task', outbox_marker_path (Some dir) (Some task') = inr path → task' = task) ∧
  (∀ pid task' attempt temp, outbox_make_temp_path pid dir task' attempt = inr temp → temp ≠ path).
Proof.
  intros (d & t & [= <-] & [= <-] & Hd & Ht & Hv & -> & _)%marker_path_inr. split_and!.
  - exists (task ++ ".pending")%string. split_and!; [done| |].
    + assert (H : ∀ s, has_char slash s = false → has_char slash (s ++ ".pending") = false).
      { induction s as [|a s IH]; [done|]. 
        change (String a s ++ ".pending")%string with (String a (s ++ ".pending")).
        cbn [has_char].
        intros [-> Hs]%orb_false_iff. by apply IH. }
      by apply H, valid_no_slash.
    + destruct task as [|a task]; [done|]. cbn [all_chars_valid] in Hv.
      apply andb_true_iff in Hv as [Ha _].
      change (Some a ≠ Some (Ascii.ascii_of_nat 46)). intros [= ->]. discriminate Ha.
  - intros task' (d & t & [= <-] & [= <-] & _ & _ & Hv' & E & _)%marker_path_inr.
    apply string_app_inj_l in E. injection E as E.
    by destruct (valid_app_inj task task' "pending" "pending" Hv Hv' E) as [-> _].
  - intros pid task' attempt temp. intros ->%fit_inr E. apply string_app_inj_l in E. injection E as E.
    destruct task as [|a task]; [done|]. simpl in E. injection E as <- _.
    discriminate Hv.
Qed.

Lemma marker_names_confined_witness :
  outbox_marker_path (Some "/var/out"%string) (Some "T_1"%string)
    = inr "/var/out/T_1.pending"%string ∧
  ∀ task', outbox_marker_path (Some "/var/out"%string) (Some task')
      = inr "/var/out/T_1.pending"%string → task' = "T_1"%string.
Proof.
  assert (H : outbox_marker_path (Some "/var/out"%string) (Some "T_1"%string)
    = inr "/var/out/T_1.pending"%string) by (vm_compute; reflexivity).
  split; [exact H|]. exact (proj1 (proj2 (marker_names_confined _ _ _ H))).
Defined.

(** ** The order of the calls

    The file system logs every call and answers it by an arbitrary function of
    the calls made before. *)
Definition Log : Type := list (Call * (Z + Z)).

(** The bytes that reached the file: what each [write] accepted. *)
Definition accepted (l : Log) : list Z :=
  concat ((λ '(c, r), match c, r with
                      | write_file _ bs, inr n => take (Z.to_nat n) bs
                      | _, _ => [] end) <$> l).
Definition is_write (fd : Z) (e : Call * (Z + Z)) : Prop :=
  match e.1 with write_file fd' _ => fd' = fd | _ => False end.
Definition interrupted (l : Log) : nat :=
  length (List.filter (λ e, match e with (write_file _ _, inl e) => e =? EINTR | _ => false end) l).

(** Success, or a failure that has set [errno]: not out of fuel. *)
Definition returned (r : failure + unit) : Prop :=
  r = inr tt ∨ ∃ e, r = inl (Errno (Some e)).

Section Env.
Context (ans : Log → Call → Z + Z) (pid : Z).
Definition log_ops : StorageSyncOutboxOps Log :=
  mkOutboxOps true (λ c l, (ans l c, l ++ [(c, ans l c)])).

(** A [write] is interrupted at most [K] times. *)
Context (K : nat).
Definition few_interrupts : Prop := ∀ l fd bs,
  ans l (write_file fd bs) = inl EINTR → (interrupted l < K)%nat.

Lemma accepted_app l l' : accepted (l ++ l') = accepted l ++ accepted l'.
Proof. unfold accepted. by rewrite fmap_app, concat_app. Qed.
Lemma interrupted_app l l' : interrupted (l ++ l') = (interrupted l + interrupted l')%nat.
Proof. unfold interrupted. by rewrite List.filter_app, length_app. Qed.

Lemma write_all_log fuel fd : ∀ bytes l, few_interrupts →
  (length bytes + (K - interrupted l) <= fuel)%nat →
  ∃ r ws, outbox_write_all log_ops fuel fd bytes l = (r, l ++ ws) ∧ returned r ∧
    Forall (is_write fd) ws ∧ (r = inr tt → accepted ws = bytes).
Proof.
  induction fuel as [|fuel IH]; intros bytes l HK Hf.
  - destruct bytes; [|simpl in Hf; lia]. exists (inr tt), []. simpl.
    rewrite app_nil_r. split_and!; first [done|by constructor|by left|by right; eexists].
  - destruct bytes as [|b bytes].
    { exists (inr tt), []. simpl. rewrite app_nil_r. split_and!; first [done|by constructor|by left|by right; eexists]. }
    set (bs := b :: bytes) in *. change (outbox_write_all log_ops (S fuel) fd bs) with
      (let! r := do_call log_ops (write_file fd bs) in
       match r with
       | inr n => if 0 <? n then outbox_write_all log_ops fuel fd (drop (Z.to_nat n) bs)
                  else xfail (Errno (Some EIO))
       | inl e => if e =? EINTR then outbox_write_all log_ops fuel fd bs
                  else xfail (Errno (Some e))
       end).
    unfold ebind. cbn [do_call log_ops]. set (a := ans l (write_file fd bs)).
    assert (Hw : is_write fd (write_file fd bs, a)) by done.
    destruct a as [e|n] eqn:Ea; fold a in Ea.
    + destruct (e =? EINTR) eqn:Ee.
      * replace e with EINTR in * by lia. pose proof (HK _ _ _ Ea) as Hlt.
        destruct (IH bs (l ++ [(write_file fd bs, inl EINTR)]) HK) as (r & ws & -> & ? & ? & Hacc).
        { rewrite interrupted_app. change (interrupted [_]) with 1%nat. lia. }
        exists r, ((write_file fd bs, inl EINTR) :: ws). rewrite <-(assoc_L (++)).
        split_and!; [done|done|by constructor|]. intros ->. by apply Hacc.
      * exists (inl (Errno (Some e))), [(write_file fd bs, inl e)].
        split_and!; first [done|by constructor|by left|by right; eexists].
    + destruct (0 <? n) eqn:En.
      * destruct (IH (drop (Z.to_nat n) bs) (l ++ [(write_file fd bs, inr n)]) HK)
          as (r & ws & -> & ? & ? & Hacc).
        { rewrite interrupted_app, length_drop. change (interrupted [_]) with 0%nat.
          subst bs. simpl length in *. lia. }
        exists r, ((write_file fd bs, inr n) :: ws). rewrite <-(assoc_L (++)).
        split_and!; [done|done|by constructor|]. intros ->.
        change (accepted (?x :: ws)) with (take (Z.to_nat n) bs ++ accepted ws).
        rewrite Hacc by done. apply take_drop.
      * exists (inl (Errno (Some EIO))), [(write_file fd bs, inr n)].
        split_and!; first [done|by constructor|by left|by right; eexists].
Qed.

(** What a temporary name is: a hidden name in the outbox directory that
    carries the task, the process and one of the 64 attempts, and that is the
    marker of no task. *)
Definition temporary (dir task p : string) : Prop :=
  (∃ attempt, 0 <= attempt < 64 ∧
     p = (dir ++ "/." ++ task ++ ".pending.tmp." ++ pretty pid ++ "." ++ pretty attempt)%string) ∧
  ∀ task' marker, outbox_marker_path (Some dir) (Some task') = inr marker → p ≠ marker.

(** The directory is there and a temporary file was created and opened. *)
Inductive opened (dir task temp : string) (fd : Z) : Log → Prop :=
| opened_intro m opens :
    m = inl EEXIST ∨ (∃ v, m = inr v) →
    Forall (λ e, ∃ p, temporary dir task p ∧ e = (open_file p, inl EEXIST)) opens →
    temporary dir task temp →
    opened dir task temp fd ((mkdir_path dir, m) :: opens ++ [(open_file temp, inr fd)]).

Definition no_file (dir task : string) (e : Call * (Z + Z)) : Prop :=
  e.1 = mkdir_path dir ∨ ∃ p x, temporary dir task p ∧ e = (open_file p, inl x).

(** Making the directory durable. *)
Inductive dir_sync (dir : string) : Log → failure + unit → Prop :=
| ds_open e : dir_sync dir [(open_directory dir, inl e)] (inl (Errno (Some e)))
| ds_fsync fd e x :
    dir_sync dir [(open_directory dir, inr fd); (fsync_fd fd, inl e); (close_fd fd, x)]
      (inl (Errno (Some e)))
| ds_close fd v e :
    dir_sync dir [(open_directory dir, inr fd); (fsync_fd fd, inr v); (close_fd fd, inl e)]
      (inl (Errno (Some e)))
| ds_done fd v w :
    dir_sync dir [(open_directory dir, inr fd); (fsync_fd fd, inr v); (close_fd fd, inr w)]
      (inr tt).

Definition file_op (fd : Z) (e : Call * (Z + Z)) : Prop := is_write fd e ∨ e.1 = fsync_fd fd.

(** The ways a marker is made or given up. *)
Inductive pending_outcome (dir task final : string) : Log → failure + unit → Prop :=
| po_no_file l e :
    Forall (no_file dir task) l → pending_outcome dir task final l (inl (Errno (Some e)))
| po_discarded l temp fd ops e x y :
    opened dir task temp fd l → Forall (file_op fd) ops →
    pending_outcome dir task final
      (l ++ ops ++ [(close_fd fd, x); (unlink_path temp, y)]) (inl (Errno (Some e)))
| po_not_renamed l temp fd ops e v y :
    opened dir task temp fd l → Forall (file_op fd) ops →
    pending_outcome dir task final
      (l ++ ops ++ [(close_fd fd, inr v); (rename_path temp final, inl e); (unlink_path temp, y)])
      (inl (Errno (Some e)))
| po_renamed l temp fd ws u v w tail res :
    opened dir task temp fd l → Forall (is_write fd) ws → accepted ws = txt task ++ [10] →
    dir_sync dir tail res →
    pending_outcome dir task final
      (l ++ ws ++ (fsync_fd fd, inr u) :: (close_fd fd, inr v) ::
       (rename_path temp final, inr w) :: tail) res.

(** A call followed by the rest. *)
Lemma fs_call {B} (P : B * Log → Prop) c (k : Z + Z → Eff Log B) l :
  (∀ a, P (k a (l ++ [(c, a)]))) → P (ebind (do_call log_ops c) k l).
Proof. intros H. apply H. Qed.

Lemma fs_must {B} (P : B * Log → Prop) c (k : failure + Z → Eff Log B) l :
  (∀ e, P (k (inl (Errno (Some e))) (l ++ [(c, inl e)]))) →
  (∀ v, P (k (inr v) (l ++ [(c, inr v)]))) →
  P (ebind (must_call log_ops c) k l).
Proof.
  intros He Hv. unfold must_call, ebind. cbn [do_call log_ops].
  destruct (ans l c) as [e|v]; [apply He|apply Hv].
Qed.

Lemma dir_sync_log dir l :
  ∃ tail res, outbox_fsync_directory log_ops dir l = (res, l ++ tail) ∧ dir_sync dir tail res.
Proof.
  set (P (x : (failure + unit) * Log) := ∃ tail res, x = (res, l ++ tail) ∧ dir_sync dir tail res).
  change (P (outbox_fsync_directory log_ops dir l)).
  unfold outbox_fsync_directory, xbind.
  apply fs_must; [intros e|intros fd].
  { eexists _, _. split; [reflexivity|constructor]. }
  apply fs_must; [intros e|intros v].
  - apply fs_call. intros x. eexists _, _. rewrite <-!(assoc_L (++)). split; [reflexivity|constructor].
  - apply fs_must; [intros e|intros w]; eexists _, _; rewrite <-!(assoc_L (++));
      (split; [reflexivity|constructor]).
Qed.

Lemma publish_outcome dir task final temp fd l ws u :
  opened dir task temp fd l → Forall (is_write fd) ws → accepted ws = txt task ++ [10] →
  let '(res, l') := publish log_ops fd temp final dir (l ++ ws ++ [(fsync_fd fd, inr u)]) in
  pending_outcome dir task final l' res.
Proof.
  intros Ho Hws Hacc.
  assert (Hops : Forall (file_op fd) (ws ++ [(fsync_fd fd, inr u)])).
  { apply Forall_app; split; [|by apply Forall_singleton; right].
    eapply Forall_impl; [exact Hws|]. by left. }
  set (P (x : (failure + unit) * Log) := pending_outcome dir task final x.2 x.1).
  assert (HP : P (publish log_ops fd temp final dir (l ++ ws ++ [(fsync_fd fd, inr u)])));
    [|by destruct (publish _ _ _ _ _ _)].
  unfold publish. apply fs_must; [intros e|intros v].
  { apply fs_call. intros y. unfold P. cbn. rewrite <-(assoc_L (++)), <-(assoc_L (++)).
    by eapply po_discarded. }
  apply fs_must; [intros e|intros w].
  { apply fs_call. intros y. unfold P. cbn. rewrite <-!(assoc_L (++) l), <-!(assoc_L (++)).
    rewrite (assoc_L (++) ws). by eapply po_not_renamed. }
  edestruct dir_sync_log as (tail & res & -> & Hd). unfold P. cbn.
  rewrite <-!(assoc_L (++)). by eapply po_renamed.
Qed.

Lemma write_marker_log fuel fd task l : few_interrupts →
  (S (String.length task) + K <= fuel)%nat →
  ∃ r ops, write_marker log_ops fuel fd task l = (r, l ++ ops) ∧ returned r ∧
    Forall (file_op fd) ops ∧
    (r = inr tt → ∃ ws u, ops = ws ++ [(fsync_fd fd, inr u)] ∧
       Forall (is_write fd) ws ∧ accepted ws = txt task ++ [10]).
Proof.
  intros HK Hf. unfold write_marker, xbind.
  assert (Himp : ∀ ws, Forall (is_write fd) ws → Forall (file_op fd) ws)
    by (intros ws H; eapply Forall_impl; [exact H|by left]).
  unfold ebind at 1.
  destruct (write_all_log fuel fd (txt task) l HK) as (r1 & ws1 & -> & Hb1 & Hw1 & Ha1).
  { assert (Hl : ∀ s, length (txt s) = String.length s)
      by (induction s as [|a s IH]; [done|by change (S (length (txt s)) = S (String.length s)); rewrite IH]).
    rewrite Hl. lia. }
  destruct r1 as [e|[]].
  { exists (inl e), ws1. destruct Hb1 as [?|[? [= ->]]]; [done|].
    split_and!; [done|by right; eexists|by apply Himp|done]. }
  unfold ebind at 1.
  destruct (write_all_log fuel fd [10] (l ++ ws1) HK) as (r2 & ws2 & -> & Hb2 & Hw2 & Ha2);
    [simpl; lia|].
  destruct r2 as [e|[]].
  { exists (inl e), (ws1 ++ ws2). rewrite <-(assoc_L (++)).
    destruct Hb2 as [?|[? [= ->]]]; [done|].
    split_and!; [done|by right; eexists|by apply Forall_app; auto|done]. }
  unfold ebind, must_call, ebind. cbn [do_call log_ops].
  set (a := ans _ _). exists (match a with inl e => inl (Errno (Some e)) | inr _ => inr tt end),
    (ws1 ++ ws2 ++ [(fsync_fd fd, a)]).
  rewrite <-!(assoc_L (++)). split_and!; [by destruct a|destruct a; [by right; eexists|by left]| |].
  - apply Forall_app; split; [by apply Himp|]. apply Forall_app; split; [by apply Himp|].
    apply Forall_singleton. by right.
  - destruct a as [e|u]; [done|]. intros _. exists (ws1 ++ ws2), u.
    rewrite <-(assoc_L (++)). split_and!; [done|by apply Forall_app|].
    by rewrite accepted_app, Ha1, Ha2.
Qed.

Lemma make_temp_temporary dir task attempt temp :
  0 <= attempt < 64 → outbox_make_temp_path pid dir task attempt = inr temp →
  temporary dir task temp.
Proof.
  intros Ha Et. split.
  - exists attempt. split; [done|]. by apply fit_inr in Et.
  - intros task' marker Hm. by eapply (marker_names_confined _ _ _ Hm).
Qed.

Lemma open_temp_log dir task n : ∀ attempt l,
  0 <= attempt → attempt + Z.of_nat n <= 64 →
  ∃ opens, Forall (λ e, ∃ p, temporary dir task p ∧ e = (open_file p, inl EEXIST)) opens ∧
   ((∃ e, open_temp log_ops pid n attempt dir task l = (inl (Errno (Some e)), l ++ opens)) ∨
    (∃ p e, temporary dir task p ∧ open_temp log_ops pid n attempt dir task l =
       (inl (Errno (Some e)), l ++ opens ++ [(open_file p, inl e)])) ∨
    (∃ fd temp, temporary dir task temp ∧ open_temp log_ops pid n attempt dir task l =
       (inr (fd, temp), l ++ opens ++ [(open_file temp, inr fd)]))).
Proof.
  induction n as [|n IH]; intros attempt l Ha Hn.
  { exists []. split; [constructor|]. left. exists EEXIST. by rewrite app_nil_r. }
  cbn [open_temp]. destruct (outbox_make_temp_path pid dir task attempt) as [e|temp] eqn:Et.
  { apply fit_inl in Et as ->. exists []. split; [constructor|]. left. eexists. by rewrite app_nil_r. }
  assert (Htmp : temporary dir task temp) by (eapply make_temp_temporary; [|exact Et]; lia).
  unfold ebind. cbn [do_call log_ops]. destruct (ans l (open_file temp)) as [e|fd].
  - destruct (e =? EEXIST) eqn:Ee; cbn [negb].
    + replace e with EEXIST by lia.
      destruct (IH (attempt + 1) (l ++ [(open_file temp, inl EEXIST)])) as (opens & Hf & H);
        [lia..|].
      exists ((open_file temp, inl EEXIST) :: opens). split; [constructor; [by eexists|exact Hf]|].
      destruct H as [(e' & ->)|[(p & e' & ? & ->)|(fd & tmp & ? & ->)]]; rewrite <-!(assoc_L (++));
        [left; by eexists|right; left; by eexists _, _|right; right; by eexists _, _].
    + exists []. split; [constructor|]. right. left. by exists temp, e.
  - exists []. split; [constructor|]. right. right. by exists fd, temp.
Qed.

Lemma write_and_publish_outcome fuel dir task final temp fd l :
  few_interrupts → (S (String.length task) + K <= fuel)%nat → opened dir task temp fd l →
  let '(res, l') := write_and_publish log_ops fuel fd task temp final dir l in
  pending_outcome dir task final l' res.
Proof.
  intros HK Hf Ho. unfold write_and_publish, ebind at 1.
  destruct (write_marker_log fuel fd task l HK Hf) as (r & ops & -> & Hb & Hops & Hok).
  destruct Hb as [->|[e ->]].
  - destruct (Hok eq_refl) as (ws & u & -> & Hws & Hacc). by apply publish_outcome.
  - unfold ebind. cbn [do_call log_ops]. unfold xfail, eret. rewrite <-!(assoc_L (++)).
    by eapply po_discarded.
Qed.

Lemma ensure_log dir l :
  ∃ r m, ensure_directory log_ops dir l = (r, l ++ [(mkdir_path dir, m)]) ∧
    ((∃ e, r = inl (Errno (Some e))) ∨ r = inr tt ∧ (m = inl EEXIST ∨ ∃ v, m = inr v)).
Proof.
  unfold ensure_directory, ebind. cbn [do_call log_ops].
  destruct (ans l (mkdir_path dir)) as [e|v]; [destruct (e =? EEXIST) eqn:E|];
    eexists _, _; (split; [reflexivity|]).
  - right. split; [done|]. left. f_equal. lia.
  - left. by eexists.
  - right. split; [done|]. right. by eexists.
Qed.

Lemma outcome_returned dir task final l res :
  pending_outcome dir task final l res → returned res.
Proof.
  intros H. inversion H as [| | |? ? ? ? ? ? ? ? ? ? ? ? Hd]; subst; try (by right; eexists).
  inversion Hd; subst; first [by left|by right; eexists].
Qed.

(** What the log may hold: only temporary files are opened to be created, and
    only a temporary file is renamed, to the marker. *)
Definition hidden (dir task final : string) (e : Call * (Z + Z)) : Prop :=
  match e.1 with
  | open_file p => temporary dir task p ∧ p ≠ final
  | rename_path p q => temporary dir task p ∧ p ≠ final ∧ q = final
  | _ => True
  end.

Lemma opened_hidden dir task temp final fd l :
  outbox_marker_path (Some dir) (Some task) = inr final → opened dir task temp fd l →
  Forall (hidden dir task final) l ∧ temporary dir task temp ∧ temp ≠ final.
Proof.
  intros Hp [m opens _ Ho Ht]. pose proof (proj2 Ht _ _ Hp). split; [|done].
  constructor; [done|]. apply Forall_app. split; [|by apply Forall_singleton].
  eapply Forall_impl; [exact Ho|]. intros e (p & Hpt & ->). split; [done|]. by apply (proj2 Hpt task).
Qed.

Lemma file_ops_hidden dir task final fd ops :
  Forall (file_op fd) ops → Forall (hidden dir task final) ops.
Proof.
  intros H. eapply Forall_impl; [exact H|].
  intros [c a] [E|E]; simpl in E; [by destruct c|by subst].
Qed.

Lemma outcome_hidden dir task final l res :
  outbox_marker_path (Some dir) (Some task) = inr final →
  pending_outcome dir task final l res → Forall (hidden dir task final) l.
Proof.
  intros Hp H. destruct H as [l0 e Hf|l0 temp fd ops e x y Ho Hops|l0 temp fd ops e v y Ho Hops
    |l0 temp fd ws u v w tail res' Ho Hws _ Hd].
  - eapply Forall_impl; [exact Hf|]. intros [c a] [E|(p & x & Hpt & [= -> ->])].
    + simpl in E. by subst.
    + split; [done|]. by apply (proj2 Hpt task).
  - destruct (opened_hidden _ _ _ _ _ _ Hp Ho) as (? & ? & ?).
    apply Forall_app; split; [done|]. apply Forall_app; split; [by eapply file_ops_hidden|].
    by repeat constructor.
  - destruct (opened_hidden _ _ _ _ _ _ Hp Ho) as (? & ? & ?).
    apply Forall_app; split; [done|]. apply Forall_app; split; [by eapply file_ops_hidden|].
    constructor; [done|]. constructor; [done|]. by constructor.
  - destruct (opened_hidden _ _ _ _ _ _ Hp Ho) as (? & ? & ?).
    apply Forall_app; split; [done|]. apply Forall_app; split.
    { eapply file_ops_hidden, Forall_impl; [exact Hws|]. by left. }
    constructor; [done|]. constructor; [done|]. constructor; [done|].
    destruct Hd; repeat constructor.
Qed.

(** C36: A pending marker is durable before it is visible.  Marking a task
    always returns, if a write is interrupted a bounded number of times; it
    opens a file to create only under a temporary name, which is the marker of
    no task, and renames no other file; and it reports success only
    after the marker's text was written in full, synced and closed, renamed to
    the final name, and the directory synced and closed, in this order.  The
    rename is never attempted on an incomplete file, a temporary file that was
    opened is renamed or else closed and unlinked, and every failure is
    reported; the one failure that leaves the marker in place is that of the
    last step. *)
Theorem pending_marker_durable (fuel : nat) (dir task : string) (final : string) :
  outbox_marker_path (Some dir) (Some task) = inr final → few_interrupts →
  (S (String.length task) + K <= fuel)%nat →
  let '(res, l) :=
    storage_sync_outbox_mark_pending_with_ops log_ops pid fuel (Some dir) (Some task) [] in
  returned res ∧ pending_outcome dir task final l res ∧
  Forall (hidden dir task final) l.
Proof.
  intros Hp HK Hf. unfold storage_sync_outbox_mark_pending_with_ops.
  cbn [complete log_ops negb]. rewrite Hp. cbn [default from_option].
  set (P (x : (failure + unit) * Log) := pending_outcome dir task final x.2 x.1).
  match goal with |- (let '(_, _) := ?x in _) => assert (H : P x) end; cycle 1.
  { unfold P in H. destruct (xbind _ _ _) as [res l].
    split; [by eapply outcome_returned|]. split; [done|by eapply outcome_hidden]. }
  unfold xbind at 1, ebind at 1. cbv [id].
  destruct (ensure_log dir []) as (r & m & -> & [(e & ->)|[-> Hm]]).
  { apply po_no_file. apply Forall_singleton. by left. }
  unfold xbind at 1, ebind at 1.
  destruct (open_temp_log dir task STORAGE_SYNC_OUTBOX_TEMP_ATTEMPTS 0 ([] ++ [(mkdir_path dir, m)]))
    as (opens & Hf' & [(e & ->)|[(p & e & Hpt & ->)|(fd & temp & Hpt & ->)]]); [done|done| | |].
  1,2: apply po_no_file; constructor; [by left|].
  - eapply Forall_impl; [exact Hf'|]. intros y (p & ? & ->). right. by eexists _, _.
  - apply Forall_app; split; [|apply Forall_singleton; right; by eexists _, _].
    eapply Forall_impl; [exact Hf'|]. intros y (p' & ? & ->). right. by eexists _, _.
  - pose proof (write_and_publish_outcome fuel dir task final temp fd
      (([] ++ [(mkdir_path dir, m)]) ++ opens ++ [(open_file temp, inr fd)]) HK Hf) as H.
    destruct (write_and_publish _ _ _ _ _ _ _ _) as [res l']. apply H. by apply opened_intro.
Qed.

End Env.

(** The directory exists, the first temporary name is taken, the first write is
    interrupted and the second stores one byte. *)
Definition witness_ans (l : Log) (c : Call) : Z + Z :=
  match c, length l with
  | mkdir_path _, _ => inl EEXIST
  | open_file _, 1%nat => inl EEXIST
  | write_file _ bs, _ =>
      if (interrupted l =? 0)%nat then inl EINTR else inr 1
  | _, _ => inr 5
  end.

Lemma pending_marker_durable_witness :
  let '(res, l) := storage_sync_outbox_mark_pending_with_ops (log_ops witness_ans) 42 10
      (Some "/o"%string) (Some "T1"%string) [] in
  res = inr tt ∧ pending_outcome 42 "/o" "T1" "/o/T1.pending" l res.
Proof.
  pose proof (pending_marker_durable witness_ans 42 1 10 "/o" "T1" "/o/T1.pending") as H.
  destruct (storage_sync_outbox_mark_pending_with_ops _ _ _ _ _ _) as [res l] eqn:E.
  split.
  - apply (f_equal fst) in E. vm_compute in E. exact (eq_sym E).
  - apply H.
    + vm_compute. reflexivity.
    + intros l' fd bs. unfold witness_ans.
      destruct (interrupted l' =? 0)%nat eqn:Ei; [intros _|done]. apply Nat.eqb_eq in Ei. lia.
    + vm_compute. lia.
Defined.
End ccb_storage_sync_outbox.
