(* ===== verification/Commit.v ===== *)
(** * The commit transaction ([src/src/ccb_storage_commit.c])

    One task's results are made durable in one go: duplicate check, metadata
    tables, database rows, task totals, task status, database commit and then
    the flash replica.  The operations are a table of callbacks; a callback the
    source allows to be NULL is an [option].  The theorem about the order of
    the calls runs the code against an environment that logs every call and
    answers it by an arbitrary function of the calls made so far. *)
From S2P Require Import Prelude Bytes CcbTypes.

Module ccb_storage_commit.
Import ccb_types.

Inductive TaskStatus : Type :=
| TASK_PENDING | TASK_RUNNING | TASK_COMPLETED | TASK_FAILED.
#[export] Instance TaskStatus_eq_dec : EqDecision TaskStatus.
Proof. solve_decision. Defined.

Record FileRecord : Type := mkFileRecord {
  fr_id : Z; fr_task_id : string; fr_overpass_time : Z; fr_file_index : Z;
  fr_file_type : string; fr_channel_id : Z; fr_proto_file_type_code : Z;
  fr_calibration_type : Z; fr_start_sector : Z; fr_sector_count : Z;
  fr_file_size : Z; fr_filename : string; fr_created_at : Z }.
#[export] Instance FileRecord_eq_dec : EqDecision FileRecord.
Proof. solve_decision. Defined.

Record StorageCommitItem : Type := mkItem {
  channel : Z; metadata_slot : Z; metadata : FileEntry; record : FileRecord }.
#[export] Instance StorageCommitItem_eq_dec : EqDecision StorageCommitItem.
Proof. solve_decision. Defined.

(** [record_count] returns its status and the value it stores in [*count]. *)
Record StorageCommitOps (W : Type) : Type := mkOps {
  db_begin : option (Eff W Z);
  record_exists : option (FileRecord → Eff W Z);
  op_metadata_write : option (StorageCommitItem → Eff W Z);
  metadata_rollback : option (StorageCommitItem → Eff W Z);
  record_insert : option (FileRecord → Eff W Z);
  record_count : option (string → Eff W (Z * Z));
  task_total_update : option (string → Z → Eff W Z);
  task_status_update : option (string → TaskStatus → Eff W Z);
  db_commit : option (Eff W Z);
  db_rollback : option (Eff W Z);
  flash_sync : option (Eff W Z);
  sync_mark_pending : option (string → Eff W Z);
  sync_mark_complete : option (string → Eff W Z) }.
Arguments db_begin {W}. Arguments record_exists {W}.
Arguments op_metadata_write {W}. Arguments metadata_rollback {W}.
Arguments record_insert {W}. Arguments record_count {W}.
Arguments task_total_update {W}. Arguments task_status_update {W}.
Arguments db_commit {W}. Arguments db_rollback {W}. Arguments flash_sync {W}.
Arguments sync_mark_pending {W}. Arguments sync_mark_complete {W}.
Arguments mkOps {W}.

Definition STORAGE_COMMIT_REASON_SIZE : nat := 64.

Record StorageCommitState : Type := mkState {
  attempted : bool; success : bool; sync_pending : bool; reason : string }.
#[export] Instance eta_State : EtaOf StorageCommitState := λ s,
  mkState (attempted s) (success s) (sync_pending s) (reason s).

Definition set_reason (s : StorageCommitState) (r : option string) : StorageCommitState :=
  s <| reason := c_snprintf_s STORAGE_COMMIT_REASON_SIZE (default "commit_failed"%string r) |>.

Definition storage_commit_state_reset : StorageCommitState :=
  set_reason (mkState false false false "") (Some "not_attempted"%string).

(** A [for] loop of calls that stops at the first nonzero status: that status
    and the number of calls made. *)
Fixpoint for_each {W A} (f : A → Eff W Z) (l : list A) : Eff W (Z * nat) :=
  match l with
  | [] => eret (0, 0%nat)
  | x :: l =>
      let! r := f x in
      if negb (r =? 0) then eret (r, 1%nat)
      else let! (r, n) := for_each f l in eret (r, S n)
  end.

Section Run.
Context {W : Type}.
Implicit Types ops : StorageCommitOps W.

(** A call through a pointer that the code has checked; the default answer is
    never reached once the guards of [storage_commit_run_once] have passed. *)
Definition must {A} (f : option (A → Eff W Z)) (a : A) : Eff W Z :=
  match f with Some f => f a | None => eret (-1) end.
Definition must0 (f : option (Eff W Z)) : Eff W Z := default (eret (-1)) f.
Definition must2 {A B} (f : option (A → B → Eff W Z)) (a : A) (b : B) : Eff W Z :=
  match f with Some f => f a b | None => eret (-1) end.

(** The [while (metadata_count > 0)] loop over the items already attempted,
    newest first; a missing callback counts as a failure of every item. *)
Fixpoint rollback_loop ops (l : list StorageCommitItem) (failed : bool) : Eff W bool :=
  match l with
  | [] => eret failed
  | it :: l =>
      match metadata_rollback ops with
      | None => rollback_loop ops l true
      | Some f => let! r := f it in rollback_loop ops l (failed || negb (r =? 0))
      end
  end.

Definition rollback_failure (s : StorageCommitState) (task_id : string)
    (items : list StorageCommitItem) (metadata_count : nat) ops
    (transaction_open : bool) (why : string) : Eff W (Z * StorageCommitState) :=
  let s1 := set_reason s (Some why) in
  let! s2 :=
    match db_rollback ops with
    | Some f =>
        if transaction_open then
          let! r := f in
          eret (if negb (r =? 0) then set_reason s1 (Some "db_rollback_failed"%string) else s1)
        else eret s1
    | None => eret s1
    end in
  let! metadata_rollback_failed :=
    rollback_loop ops (rev (take metadata_count items)) false in
  let s3 := if metadata_rollback_failed : bool
            then set_reason s2 (Some "metadata_rollback_failed"%string) else s2 in
  let! bad :=
    match task_status_update ops with
    | None => eret true
    | Some f => let! r := f task_id TASK_FAILED in eret (negb (r =? 0))
    end in
  let s4 := if bad && negb metadata_rollback_failed
            then set_reason s3 (Some "task_failed_update_failed"%string) else s3 in
  eret (-1, s4 <| success := false |>).

Definition is_some {A} (o : option A) : bool := match o with Some _ => true | None => false end.

(** The mandatory callbacks. *)
Definition ops_complete ops : bool :=
  is_some (db_begin ops) && is_some (record_exists ops) && is_some (op_metadata_write ops) &&
  is_some (record_insert ops) && is_some (record_count ops) &&
  is_some (task_total_update ops) && is_some (task_status_update ops) &&
  is_some (db_commit ops) && is_some (db_rollback ops).

(** A replica that is not up to date must be recorded as pending work. *)
Definition mark_or_fail (s : StorageCommitState) (task_id : string) ops :
    Eff W (Z * StorageCommitState) :=
  let! ok :=
    match sync_mark_pending ops with
    | None => eret false
    | Some f => let! r := f task_id in eret (r =? 0)
    end in
  if negb ok then eret (-1, set_reason s (Some "sync_outbox_persist_failed"%string))
  else eret (0, set_reason (s <| success := true |> <| sync_pending := true |>)
                  (Some "sync_pending"%string)).

(** After [db_commit] has succeeded. *)
Definition after_commit (s : StorageCommitState) (task_id : string) ops :
    Eff W (Z * StorageCommitState) :=
  let! sync :=
    match flash_sync ops with None => eret 0 | Some f => f end in
  if negb (sync =? 0) then mark_or_fail s task_id ops
  else
    let! done :=
      match sync_mark_complete ops with None => eret 0 | Some f => f task_id end in
    if negb (done =? 0) then mark_or_fail s task_id ops
    else eret (0, set_reason (s <| success := true |>) (Some "none"%string)).

(** The end of the transaction: recount, total, task status and [db_commit]. *)
Definition finish_transaction (s : StorageCommitState) (task_id : string)
    (items : list StorageCommitItem) (metadata_count : nat) ops :
    Eff W (Z * StorageCommitState) :=
  let fail why := rollback_failure s task_id items metadata_count ops true why in
  let! (c, total) :=
    match record_count ops with Some f => f task_id | None => eret (-1, 0) end in
  if negb (c =? 0) then fail "db_count_failed"%string else
  let! t := must2 (task_total_update ops) task_id total in
  if negb (t =? 0) then fail "total_files_update_failed"%string else
  let! u := must2 (task_status_update ops) task_id TASK_COMPLETED in
  if negb (u =? 0) then fail "task_completed_update_failed"%string else
  let! c := must0 (db_commit ops) in
  if negb (c =? 0) then fail "db_commit_failed"%string else
  after_commit s task_id ops.

(** The open transaction, from the duplicate check on. *)
Definition transaction (s : StorageCommitState) (task_id : string)
    (items : list StorageCommitItem) ops : Eff W (Z * StorageCommitState) :=
  let fail n why := rollback_failure s task_id items n ops true why in
  let! (exists_, _) := for_each (λ it, must (record_exists ops) (record it)) items in
  if negb (exists_ =? 0) then
    fail 0%nat (if exists_ >? 0 then "duplicate_record" else "duplicate_check_failed")%string
  else
  let! (w, metadata_count) := for_each (must (op_metadata_write ops)) items in
  if negb (w =? 0) then fail metadata_count "metadata_write_failed"%string else
  let! (ins, _) := for_each (λ it, must (record_insert ops) (record it)) items in
  if negb (ins =? 0) then fail metadata_count "db_insert_failed"%string else
  finish_transaction s task_id items metadata_count ops.

(** [items = None] and [ops = None] are NULL pointers; [count] is the number of
    items the caller passes. *)
Definition storage_commit_run_once (state : StorageCommitState) (task_id : option string)
    (items : option (list StorageCommitItem)) (count : Z)
    (ops : option (StorageCommitOps W)) : Eff W (Z * StorageCommitState) :=
  if attempted state then eret (if success state then 0 else -1, state) else
  let s := state <| attempted := true |> <| success := false |> in
  let invalid := eret (-1, set_reason s (Some "invalid_commit_input"%string)) in
  match task_id, items, ops with
  | Some task_id, Some items, Some ops =>
      if String.eqb task_id "" || (count =? 0) || (count >? NUM_CHANNELS) ||
         negb (ops_complete ops) then invalid
      else
        let! b := must0 (db_begin ops) in
        if negb (b =? 0) then
          let! _ := must2 (task_status_update ops) task_id TASK_FAILED in
          eret (-1, set_reason s (Some "db_begin_failed"%string))
        else transaction s task_id (take (Z.to_nat count) items) ops
  | _, _, _ => invalid
  end.

End Run.

(** ** The logging environment *)

Inductive Event : Type :=
| EvBegin | EvExists (r : FileRecord) | EvWrite (it : StorageCommitItem)
| EvRestore (it : StorageCommitItem) | EvInsert (r : FileRecord)
| EvCount (t : string) | EvTotal (t : string) (n : Z)
| EvStatus (t : string) (s : TaskStatus) | EvCommit | EvRollback
| EvFlash | EvPending (t : string) | EvComplete (t : string).
#[export] Instance Event_eq_dec : EqDecision Event.
Proof. solve_decision. Defined.

Definition Log : Type := list (Event * Z).

Section Env.
(** The answer to each call and the number of records counted, both arbitrary
    functions of the calls made before, and which optional callbacks exist. *)
Context (ans : Log → Event → Z) (total : Log → Z).
Context (has_restore has_flash has_pending has_complete : bool).

Definition call (e : Event) : Eff Log Z := λ l, (ans l e, l ++ [(e, ans l e)]).
Definition count_call (t : string) : Eff Log (Z * Z) := λ l,
  (ans l (EvCount t), total l, l ++ [(EvCount t, ans l (EvCount t))]).
Definition optional {A} (present : bool) (f : A) : option A :=
  if present then Some f else None.

Definition log_ops : StorageCommitOps Log :=
  mkOps (Some (call EvBegin)) (Some (λ r, call (EvExists r))) (Some (λ i, call (EvWrite i)))
    (optional has_restore (λ i, call (EvRestore i))) (Some (λ r, call (EvInsert r)))
    (Some count_call) (Some (λ t n, call (EvTotal t n))) (Some (λ t s, call (EvStatus t s)))
    (Some (call EvCommit)) (Some (call EvRollback))
    (optional has_flash (call EvFlash)) (optional has_pending (λ t, call (EvPending t)))
    (optional has_complete (λ t, call (EvComplete t))).

(** The calls of a transaction that goes through, in order. *)
Definition work (task : string) (items : list StorageCommitItem) (n : Z) : list Event :=
  EvBegin :: ((λ i, EvExists (record i)) <$> items) ++ (EvWrite <$> items) ++
  ((λ i, EvInsert (record i)) <$> items) ++
  [EvCount task; EvTotal task n; EvStatus task TASK_COMPLETED; EvCommit].

Definition oks (es : list Event) : Log := (λ e, (e, 0)) <$> es.
Definition events (l : Log) : list Event := fst <$> l.
(** The items whose metadata write was attempted. *)
Definition written (es : list Event) : list StorageCommitItem :=
  omap (λ e, match e with EvWrite i => Some i | _ => None end) es.

(** What follows a call that failed inside the transaction. *)
Definition undo (task : string) (items : list StorageCommitItem) : list Event :=
  EvRollback :: (if has_restore then EvRestore <$> rev items else []) ++
  [EvStatus task TASK_FAILED].

(** The replica calls of a run that leaves nothing pending. *)
Definition replica (task : string) : list Event :=
  (if has_flash then [EvFlash] else []) ++ (if has_complete then [EvComplete task] else []).

(** The outcomes a run may have: its log, its status and its final state. *)
Inductive outcome (task : string) (items : list StorageCommitItem) :
    Log → Z → StorageCommitState → Prop :=
| out_clean n :
    outcome task items (oks (work task items n) ++ oks (replica task)) 0
      (mkState true true false "none")
| out_pending n pre e r :
    pre ++ [e] `prefix_of` replica task → r ≠ 0 → has_pending = true →
    outcome task items
      (oks (work task items n) ++ oks pre ++ [(e, r); (EvPending task, 0)]) 0
      (mkState true true true "sync_pending")
| out_unrecorded n pre e r tail :
    pre ++ [e] `prefix_of` replica task → r ≠ 0 →
    (if has_pending then ∃ q, q ≠ 0 ∧ tail = [(EvPending task, q)] else tail = []) →
    outcome task items
      (oks (work task items n) ++ oks pre ++ (e, r) :: tail) (-1)
      (mkState true false false "sync_outbox_persist_failed")
| out_not_begun r q :
    r ≠ 0 →
    outcome task items [(EvBegin, r); (EvStatus task TASK_FAILED, q)] (-1)
      (mkState true false false "db_begin_failed")
| out_undone n pre e r tail why :
    r ≠ 0 → pre ≠ [] → pre ++ [e] `prefix_of` work task items n →
    events tail = undo task (written (pre ++ [e])) →
    outcome task items (oks pre ++ (e, r) :: tail) (-1)
      (mkState true false false why).

Lemma for_each_log {A} (g : A → Event) (xs : list A) (l : Log) :
  (for_each (λ x, call (g x)) xs l = ((0, length xs), l ++ oks (g <$> xs)))
  ∨ ∃ k x r, r ≠ 0 ∧ xs !! k = Some x ∧
      for_each (λ x, call (g x)) xs l =
        ((r, S k), l ++ oks (g <$> take k xs) ++ [(g x, r)]).
Proof.
  revert l; induction xs as [|x xs IH]; intros l; simpl.
  - left. unfold eret, oks. simpl. by rewrite app_nil_r.
  - unfold ebind at 1 3. unfold call at 1 3. simpl.
    destruct (ans l (g x) =? 0) eqn:E; simpl.
    + apply Z.eqb_eq in E. rewrite E. unfold ebind.
      destruct (IH (l ++ [(g x, 0)])) as [->|(k & y & r & Hr & Hk & ->)].
      * left. unfold eret. by rewrite <-(assoc_L (++)).
      * right. exists (S k), y, r. split_and!; [done|done|]. unfold eret.
        by rewrite <-(assoc_L (++)).
    + right. exists 0%nat, x, (ans l (g x)). split_and!; [lia|done|done].
Qed.

Lemma rollback_loop_log items failed l :
  ∃ b tail, rollback_loop log_ops items failed l = (b, l ++ tail) ∧
    events tail = if has_restore then EvRestore <$> items else [].
Proof.
  revert failed l; induction items as [|it items IH]; intros failed l; simpl.
  - exists failed, []. rewrite app_nil_r. split; [done|]. by destruct has_restore.
  - destruct has_restore; simpl.
    + unfold ebind, call at 1. cbn beta iota zeta.
      edestruct IH as (b & tail & -> & Ht). eexists b, (_ :: tail).
      rewrite <-(assoc_L (++)). split; [done|].
      change (EvRestore it :: events tail = EvRestore it :: (EvRestore <$> items)).
      by rewrite Ht.
    + apply (IH true l).
Qed.

Lemma rollback_failure_log s task items n why l :
  ∃ tail why', rollback_failure s task items n log_ops true why l =
      ((-1, mkState (attempted s) false (sync_pending s) why'), l ++ tail) ∧
    events tail = undo task (take n items).
Proof.
  unfold rollback_failure. simpl. unfold ebind, call at 1, eret. cbn beta iota zeta.
  edestruct (rollback_loop_log (rev (take n items)) false) as (b & tail & -> & Ht).
  unfold call. simpl. eexists (_ :: tail ++ [_]).
  match goal with |- ∃ _, (_, ?st, _) = _ ∧ _ => exists (reason st) end. split.
  - f_equal; [|by rewrite <-!(assoc_L (++))]. f_equal.
    by repeat case_match; destruct s.
  - unfold events, undo. simpl. rewrite fmap_app. f_equal. f_equal. by fold (events tail).
Qed.

Lemma oks_app es es' : oks (es ++ es') = oks es ++ oks es'.
Proof. apply fmap_app. Qed.

Definition started (why : string) : StorageCommitState := mkState true false false why.

Lemma fail_outcome task items n k pre e r why why0 :
  r ≠ 0 → pre ≠ [] → pre ++ [e] `prefix_of` work task items n →
  written (pre ++ [e]) = take k items →
  let '((rc, s'), l) := rollback_failure (started why0) task items k log_ops true why
                          (oks pre ++ [(e, r)]) in
  outcome task items l rc s'.
Proof.
  intros Hr Hp Hpre Hw.
  destruct (rollback_failure_log (started why0) task items k why (oks pre ++ [(e, r)]))
    as (tail & why' & -> & Ht).
  rewrite <-(assoc_L (++)). simpl. eapply out_undone; [done..|]. by rewrite Ht, Hw.
Qed.

Lemma mark_outcome task items n pre e r why0 :
  pre ++ [e] `prefix_of` replica task → r ≠ 0 →
  let '((rc, s'), l) := mark_or_fail (started why0) task log_ops
                          (oks (work task items n) ++ oks pre ++ [(e, r)]) in
  outcome task items l rc s'.
Proof.
  intros Hpre Hr. unfold mark_or_fail. simpl. destruct has_pending eqn:Hp; simpl.
  - unfold ebind, call. cbn beta iota zeta. unfold eret.
    set (q := ans _ _). destruct (q =? 0) eqn:E; simpl; rewrite <-!(assoc_L (++)); simpl.
    + replace q with 0 by lia. by apply out_pending.
    + apply out_unrecorded; [done..|]. rewrite Hp. exists q. split; [lia|done].
  - apply out_unrecorded; [done..|]. by rewrite Hp.
Qed.

Lemma after_commit_outcome task items n why0 :
  let '((rc, s'), l) := after_commit (started why0) task log_ops (oks (work task items n)) in
  outcome task items l rc s'.
Proof.
  assert (Hmark : ∀ pre e r l, l = oks (work task items n) ++ oks pre ++ [(e, r)] → r ≠ 0 →
    pre ++ [e] `prefix_of` replica task →
    let '((rc, s'), l) := mark_or_fail (started why0) task log_ops l in outcome task items l rc s')
    by (intros pre e r l -> ??; by apply mark_outcome).
  assert (Hclean : ∀ l, l = oks (work task items n) ++ oks (replica task) →
    outcome task items l 0 (mkState true true false "none")) by (intros l ->; apply out_clean).
  unfold replica in *. unfold after_commit, ebind, call, eret. simpl. unfold optional.
  destruct has_flash; simpl; [set (q := ans _ _); destruct (q =? 0) eqn:E; simpl|].
  - destruct has_complete; simpl; [set (q' := ans _ _); destruct (q' =? 0) eqn:E'; simpl|].
    + apply Hclean. unfold oks at 3. simpl. rewrite <-(assoc_L (++)). simpl. repeat f_equal; lia.
    + apply (Hmark [EvFlash] (EvComplete task) q'); [|lia|by exists []].
      rewrite <-(assoc_L (++)). simpl. repeat f_equal; lia.
    + apply Hclean. simpl. repeat f_equal; lia.
  - apply (Hmark [] EvFlash q); [done|lia|]. by eexists.
  - destruct has_complete; simpl; [set (q' := ans _ _); destruct (q' =? 0) eqn:E'; simpl|].
    + apply Hclean. simpl. repeat f_equal; lia.
    + apply (Hmark [] (EvComplete task) q'); [done|lia|by exists []].
    + apply Hclean. simpl. by rewrite app_nil_r.
Qed.

Lemma fmap_snoc_take {A} (g : A → Event) (xs : list A) k x :
  xs !! k = Some x → (g <$> take k xs) ++ [g x] = g <$> take (S k) xs.
Proof. intros H. by rewrite (take_S_r _ _ _ H), fmap_app. Qed.

Lemma fmap_take_prefix {A} (g : A → Event) (xs : list A) k rest :
  (g <$> take k xs) `prefix_of` (g <$> xs) ++ rest.
Proof.
  rewrite <-(take_drop k xs) at 2. rewrite fmap_app, <-(assoc_L (++)). by eexists.
Qed.

Lemma written_app es es' : written (es ++ es') = written es ++ written es'.
Proof. apply omap_app. Qed.
Lemma written_none {A} (g : A → Event) (xs : list A) :
  (∀ x, match g x with EvWrite _ => False | _ => True end) → written (g <$> xs) = [].
Proof.
  intros Hg. induction xs as [|x xs IH]; simpl; [done|].
  unfold written. simpl. specialize (Hg x). destruct (g x); done || exact IH.
Qed.
Lemma written_writes xs : written (EvWrite <$> xs) = xs.
Proof. induction xs as [|x xs IH]; [done|]. unfold written. simpl. by f_equal. Qed.

Definition inserted (items : list StorageCommitItem) : list Event :=
  EvBegin :: ((λ i, EvExists (record i)) <$> items) ++ (EvWrite <$> items) ++
  ((λ i, EvInsert (record i)) <$> items).

Lemma inserted_work task items n :
  work task items n =
  inserted items ++ [EvCount task; EvTotal task n; EvStatus task TASK_COMPLETED; EvCommit].
Proof. unfold work, inserted. simpl. by rewrite <-!(assoc_L (++)). Qed.

Lemma written_inserted items : written (inserted items) = items.
Proof.
  unfold inserted. change (EvBegin :: ?l) with ([EvBegin] ++ l).
  rewrite !written_app, written_writes, !written_none by done. by rewrite app_nil_r.
Qed.

Lemma fail_outcome' task items k pre e r why why0 l n rest :
  l = oks pre ++ [(e, r)] → (r =? 0) = false → pre ≠ [] →
  work task items n = pre ++ e :: rest → written (pre ++ [e]) = take k items →
  let '((rc, s'), l) := rollback_failure (started why0) task items k log_ops true why l in
  outcome task items l rc s'.
Proof.
  intros -> ????. eapply fail_outcome; try done; [lia|].
  exists rest. by rewrite <-(assoc_L (++)).
Qed.

(** One more call after calls that all succeeded. *)
Lemma bind_call {B} (P : B * Log → Prop) (e : Event) (k : Z → Eff Log B) (es : list Event) :
  P (k 0 (oks (es ++ [e]))) →
  (∀ r, (r =? 0) = false → P (k r (oks es ++ [(e, r)]))) →
  P (ebind (call e) k (oks es)).
Proof.
  intros H0 Hr. unfold ebind, call. destruct (ans (oks es) e =? 0) eqn:E.
  - replace (ans (oks es) e) with 0 by lia. unfold oks in H0. by rewrite fmap_app in H0.
  - by apply Hr.
Qed.

Definition good (task : string) (items : list StorageCommitItem)
    (res : Z * StorageCommitState * Log) : Prop :=
  outcome task items res.2 res.1.1 res.1.2.

Lemma fail_good task items k pre e r why why0 n rest :
  (r =? 0) = false → pre ≠ [] →
  work task items n = pre ++ e :: rest → written (pre ++ [e]) = take k items →
  good task items (rollback_failure (started why0) task items k log_ops true why
    (oks pre ++ [(e, r)])).
Proof.
  intros ????. pose proof (fail_outcome' task items k pre e r why why0 _ n rest eq_refl) as H'.
  unfold good. destruct (rollback_failure _ _ _ _ _ _ _ _) as [[rc s'] l]. by apply H'.
Qed.

Lemma finish_good task items why0 :
  good task items
    (finish_transaction (started why0) task items (length items) log_ops (oks (inserted items))).
Proof.
  assert (Hne : inserted items ≠ []) by done.
  assert (Hw : ∀ es, written es = [] → written (inserted items ++ es) = take (length items) items).
  { intros es He. by rewrite written_app, written_inserted, He, app_nil_r, take_ge. }
  set (n := total (oks (inserted items))).
  assert (Hwork := inserted_work task items n).
  revert Hw n Hne Hwork. generalize (inserted items). intros I Hw n HI Hwork.
  change (good task items
    ((let! q := call (EvCount task) in
      if negb (q =? 0)
      then rollback_failure (started why0) task items (length items) log_ops true "db_count_failed"
      else let! t := call (EvTotal task n) in
      if negb (t =? 0)
      then rollback_failure (started why0) task items (length items) log_ops true "total_files_update_failed"
      else let! u := call (EvStatus task TASK_COMPLETED) in
      if negb (u =? 0)
      then rollback_failure (started why0) task items (length items) log_ops true "task_completed_update_failed"
      else let! c := call EvCommit in
      if negb (c =? 0)
      then rollback_failure (started why0) task items (length items) log_ops true "db_commit_failed"
      else after_commit (started why0) task log_ops) (oks I))).
  do 4 (refine (bind_call (good task items) _ _ _ _ _);
    [cbv beta; change (negb (0 =? 0)) with false; cbv iota; rewrite <-?(assoc_L (++)); simpl app
    |intros r Hr; rewrite Hr; simpl negb; cbv iota;
     eapply fail_good;
       [exact Hr|by destruct I|by rewrite Hwork, <-?(assoc_L (++))|
        rewrite <-?(assoc_L (++)); by apply Hw]]).
  rewrite <-Hwork.
  pose proof (after_commit_outcome task items n why0) as H.
  unfold good. by destruct (after_commit _ _ _ _) as [[? ?] ?].
Qed.

(** The same for a loop of calls. *)
Lemma bind_each {A B} (P : B * Log → Prop) (g : A → Event) (xs : list A)
    (k : Z * nat → Eff Log B) (es : list Event) :
  P (k (0, length xs) (oks (es ++ (g <$> xs)))) →
  (∀ i x r, (r =? 0) = false → xs !! i = Some x →
    P (k (r, S i) (oks (es ++ (g <$> take i xs)) ++ [(g x, r)]))) →
  P (ebind (for_each (λ x, call (g x)) xs) k (oks es)).
Proof.
  intros H0 Hr. unfold ebind.
  destruct (for_each_log g xs (oks es)) as [->|(i & x & r & ? & ? & ->)].
  - rewrite <-oks_app. apply H0.
  - rewrite (assoc_L (++)), <-oks_app. apply Hr; [lia|done].
Qed.

(** The rest of a list of events after the one at position [i]. *)
Lemma fmap_split {A} (g : A → Event) (xs : list A) i x :
  xs !! i = Some x → g <$> xs = (g <$> take i xs) ++ g x :: (g <$> drop (S i) xs).
Proof. intros H. rewrite <-(take_drop_middle _ _ _ H) at 1. by rewrite fmap_app. Qed.

Lemma transaction_good task items why0 :
  good task items (transaction (started why0) task items log_ops (oks [EvBegin])).
Proof.
  assert (Hw1 : ∀ l, written ((λ i, EvExists (record i)) <$> l) = []) by (intros; by apply written_none).
  assert (Hw2 : ∀ l, written ((λ i, EvInsert (record i)) <$> l) = []) by (intros; by apply written_none).
  unfold transaction.
  assert (Hb : written [EvBegin] = []) by done.
  refine (bind_each (good task items) (λ it, EvExists (record it)) items _ [EvBegin] _ _);
    cbv beta iota; [change (negb (0 =? 0)) with false; cbv iota
      |intros i x r Hr Hx; rewrite Hr; simpl negb; cbv iota].
  2:{ eapply (fail_good task items _ _ (EvExists (record x)) _ _ _ 0);
        [exact Hr|done|unfold work; rewrite (fmap_split _ _ _ _ Hx);
         rewrite <-?(assoc_L (++)); reflexivity|].
      by rewrite !written_app, Hb, Hw1. }
  set (es := [EvBegin] ++ _).
  refine (bind_each (good task items) EvWrite items _ es _ _);
    cbv beta iota; [change (negb (0 =? 0)) with false; cbv iota
      |intros i x r Hr Hx; rewrite Hr; simpl negb; cbv iota].
  2:{ eapply (fail_good task items _ _ (EvWrite x) _ _ _ 0); [exact Hr|done| |].
      - unfold work, es. rewrite (fmap_split EvWrite _ _ _ Hx) at 1.
        rewrite <-?(assoc_L (++)). reflexivity.
      - unfold es. rewrite !written_app, Hb, Hw1, written_writes.
        by rewrite (take_S_r _ _ _ Hx). }
  refine (bind_each (good task items) (λ it, EvInsert (record it)) items _ _ _ _);
    cbv beta iota; [change (negb (0 =? 0)) with false; cbv iota
      |intros i x r Hr Hx; rewrite Hr; simpl negb; cbv iota].
  2:{ eapply (fail_good task items _ _ (EvInsert (record x)) _ _ _ 0); [exact Hr|done| |].
      - unfold work, es. rewrite (fmap_split (λ i, EvInsert (record i)) _ _ _ Hx) at 1.
        rewrite <-?(assoc_L (++)). reflexivity.
      - unfold es. rewrite !written_app, Hb, Hw1, Hw2, written_writes.
        by rewrite !app_nil_l, !app_nil_r, take_ge. }
  unfold es. rewrite <-!(assoc_L (++)). apply finish_good.
Qed.

(** C2: Commit is all or nothing, whatever the environment answers.  Running
    the commit of a fresh state for a non-empty task and one to three items has
    one of five outcomes: every call of the transaction succeeded in the
    prescribed order and the replica is up to date; the same, and the pending
    replica work was recorded after the replica call that failed; the same, but
    recording it failed (status -1, nothing is rolled back); the transaction
    could not be opened and the task is marked failed; or some call inside the
    transaction failed, and then, with no commit, the database is rolled back,
    exactly the items whose metadata write was attempted are restored, newest
    first, and the task is marked failed. *)
Theorem commit_all_or_nothing (task : string) (items : list StorageCommitItem)
    (s : StorageCommitState) :
  task ≠ ""%string → items ≠ [] → (length items <= 3)%nat →
  attempted s = false → sync_pending s = false →
  let '((rc, s'), l) :=
    storage_commit_run_once s (Some task) (Some items) (Z.of_nat (length items))
      (Some log_ops) [] in
  outcome task items l rc s'.
Proof.
  intros Ht Hi Hlen Ha Hp. unfold storage_commit_run_once. rewrite Ha.
  assert (HZ : String.eqb task "" = false) by by apply String.eqb_neq.
  rewrite HZ. replace (Z.of_nat (length items) =? 0) with false
    by (destruct items; simpl; [done|lia]).
  replace (Z.of_nat (length items) >? NUM_CHANNELS) with false by (unfold NUM_CHANNELS; lia).
  change (negb (ops_complete log_ops)) with false. cbn [orb].
  rewrite Nat2Z.id, take_ge by done.
  change (must0 (db_begin log_ops)) with (call EvBegin).
  pose proof (transaction_good task items (reason s)) as H. unfold good, started in H.
  unfold ebind. unfold call at 1. cbn [app]. destruct (ans [] EvBegin =? 0) eqn:E; simpl negb; cbv iota.
  - replace (ans [] EvBegin) with 0 by lia. destruct s as [a b c d]. simpl in Hp |- *. subst c.
    by destruct (transaction _ _ _ _ _) as [[??]?].
  - destruct s as [a b c d]. simpl in Hp |- *. subst c. apply out_not_begun. lia.
Qed.

End Env.

Definition witness_item : StorageCommitItem :=
  mkItem 2 0 zero_entry (mkFileRecord 0 "T1" 0 1 "LOW_SPEED" 2 0 0 1000 8 4096 "T1_LOW_SPEED_1.bin" 0).

(** An insert that fails: the outcome is the undone one. *)
Lemma commit_all_or_nothing_witness :
  let ans := λ (_ : Log) e, match e with EvInsert _ => -1 | _ => 0 end in
  let '((rc, s'), l) :=
    storage_commit_run_once storage_commit_state_reset (Some "T1"%string) (Some [witness_item]) 1
      (Some (log_ops ans (λ _, 1) true true true true)) [] in
  outcome true true true true "T1" [witness_item] l rc s' ∧ rc = -1 ∧
  events l = [EvBegin; EvExists (record witness_item); EvWrite witness_item;
              EvInsert (record witness_item); EvRollback; EvRestore witness_item;
              EvStatus "T1" TASK_FAILED].
Proof.
  intros ans.
  pose proof (commit_all_or_nothing ans (λ _, 1) true true true true "T1" [witness_item]
    storage_commit_state_reset ltac:(done) ltac:(done) ltac:(simpl; lia) eq_refl eq_refl) as H.
  change (Z.of_nat (length [witness_item])) with 1 in H.
  destruct (storage_commit_run_once _ _ _ _ _ _) as [[rc s'] l] eqn:E.
  split; [exact H|]. clear H. vm_compute in E. by injection E as <- <- <-.
Defined.

(** ** Running once *)
Section Once.
Context {W : Type} (ops : StorageCommitOps W).

(** A verdict: the state is attempted and the status is the stored one. *)
Definition verdict (res : Z * StorageCommitState * W) : Prop :=
  attempted res.1.2 = true ∧ res.1.1 = (if success res.1.2 then 0 else -1).

Lemma verdict_bind {A} (m : Eff W A) (k : A → Eff W (Z * StorageCommitState)) w :
  (∀ a w', m w = (a, w') → verdict (k a w')) → verdict (ebind m k w).
Proof. intros H. unfold ebind. destruct (m w) as [a w'] eqn:E. by apply (H a w'). Qed.

Lemma verdict_rollback s task items n why w :
  attempted s = true → verdict (rollback_failure s task items n ops true why w).
Proof.
  intros Ha. unfold rollback_failure.
  apply verdict_bind; intros s2 w2 E.
  assert (H2 : attempted s2 = true).
  { revert E. unfold ebind, eret. repeat case_match; intros; simplify_eq; done. }
  clear E. apply verdict_bind; intros b w3 _. apply verdict_bind; intros b' w4 _.
  by destruct b, b'.
Qed.

Lemma verdict_mark s task w :
  attempted s = true → success s = false → verdict (mark_or_fail s task ops w).
Proof.
  intros Ha Hs. unfold mark_or_fail. apply verdict_bind; intros b w' _.
  destruct b; [done|]. split; simpl; [done|by rewrite Hs].
Qed.

Lemma verdict_after s task w :
  attempted s = true → success s = false → verdict (after_commit s task ops w).
Proof.
  intros Ha Hs. unfold after_commit. apply verdict_bind; intros r w' _.
  destruct (negb (r =? 0)); [by apply verdict_mark|].
  apply verdict_bind; intros r' w'' _.
  destruct (negb (r' =? 0)); [by apply verdict_mark|done].
Qed.

Lemma verdict_transaction s task items w :
  attempted s = true → success s = false → verdict (transaction s task items ops w).
Proof.
  intros Ha Hs. unfold transaction, finish_transaction.
  repeat (apply verdict_bind; intros [??] ? _; destruct (negb _); [by apply verdict_rollback|]).
  repeat (apply verdict_bind; intros ? ? _; destruct (negb _); [by apply verdict_rollback|]).
  by apply verdict_after.
Qed.

Lemma run_once_verdict s task_id items count w :
  verdict (storage_commit_run_once s task_id items count (Some ops) w).
Proof.
  unfold storage_commit_run_once. destruct (attempted s) eqn:Ha; [done|].
  destruct task_id, items; try done. destruct (_ || _); [done|].
  apply verdict_bind; intros r w' _. destruct (negb (r =? 0)).
  - by apply verdict_bind.
  - by apply verdict_transaction.
Qed.

End Once.

(** The commit runs at most once per task.  Whatever the first call does,
    its status is the verdict stored in the state, and every later call on that
    state, with any arguments and any callbacks, makes no call, changes nothing
    and returns the same status. *)
Theorem commit_runs_once (W : Type) (s : StorageCommitState) task_id items count
    (ops : option (StorageCommitOps W)) (w : W) :
  let '((rc, s'), _) := storage_commit_run_once s task_id items count ops w in
  attempted s' = true ∧
  ∀ (W' : Type) task2 items2 count2 (ops2 : option (StorageCommitOps W')) (w' : W'),
    storage_commit_run_once s' task2 items2 count2 ops2 w' = ((rc, s'), w').
Proof.
  assert (H : verdict (storage_commit_run_once s task_id items count ops w)).
  { destruct ops as [o|]; [apply (run_once_verdict o)|].
    unfold storage_commit_run_once. destruct (attempted s) eqn:Ha; [done|].
    by destruct task_id, items. }
  destruct (storage_commit_run_once _ _ _ _ _ _) as [[rc s'] w1]. destruct H as [Ha Hr].
  simpl in Ha, Hr. split; [done|]. intros. unfold storage_commit_run_once.
  rewrite Ha. by rewrite Hr.
Qed.
End ccb_storage_commit.
