(* ===== verification/CommitStore.v ===== *)
(** * What the commit writes ([src/src/system.c])

    The production callbacks of the commit that touch the metadata tables, and
    the construction of the commit items from the supervised results. *)
From stdpp Require Import pretty.
From S2P Require Import Prelude Bytes StorageError CcbTypes Metadata Ipc Supervisor Task Commit.

Module system_commit.
Import ccb_types ccb_config ccb_metadata ccb_storage_task ccb_storage_commit.

(** ** Metadata callbacks

    The context keeps one backup table per channel; a channel without a valid
    backup is absent from the map. *)
Definition store : Type := meta_io * gmap Z (list FileEntry).

(** The guard on the item that both callbacks share. *)
Definition item_channel (it : StorageCommitItem) : option ChannelConfig :=
  if NUM_CHANNELS <=? channel it then None else find_channel (channel it).

Definition storage_commit_metadata_write (it : StorageCommitItem) : Eff store Z := λ '(io, ctx),
  match item_channel it with
  | None => (-1, (io, ctx))
  | Some cfg =>
    if Z.of_nat MAX_FILES_TOTAL <=? metadata_slot it then (-1, (io, ctx)) else
    let '(r, io) := metadata_read cfg io in
    match r with
    | None => (-1, (io, ctx))
    | Some table =>
      let ctx := <[channel it := table]> ctx in
      let slot := Z.to_nat (metadata_slot it) in
      match table !! slot with
      | Some e =>
        if valid e =? 1 then (-1, (io, ctx))
        else
          let '(rc, io) := metadata_write cfg (<[slot := metadata it]> table) io in
          (rc, (io, ctx))
      | None => (-1, (io, ctx))
      end
    end
  end.

Definition storage_commit_metadata_rollback (it : StorageCommitItem) : Eff store Z := λ '(io, ctx),
  match item_channel it, ctx !! channel it with
  | Some cfg, Some table =>
      let '(rc, io) := metadata_write cfg table io in
      if negb (rc =? 0) then (-1, (io, ctx)) else (0, (io, delete (channel it) ctx))
  | _, _ => (-1, (io, ctx))
  end.

(** ** The items *)
Definition FILE_TYPE_LOW : Z := 0.
Definition FILE_TYPE_I : Z := 1.
Definition FILE_TYPE_Q : Z := 2.
Definition FILE_TYPE_CALIB : Z := 3.

Definition file_type_name_from_proto (t : Z) : string :=
  if t =? FILE_TYPE_LOW then "LOW_SPEED" else if t =? FILE_TYPE_I then "HIGH_I"
  else if t =? FILE_TYPE_Q then "HIGH_Q" else if t =? FILE_TYPE_CALIB then "CALIB"
  else "UNKNOWN".

(** More fields of the 504-byte [WriteResult]. *)
Definition wr_channel_id (r : list Z) : Z := storage_ipc.get32 0 r.
Definition wr_metadata_slot (r : list Z) : Z := storage_ipc.get32 4 r.
Definition wr_start_lba (r : list Z) : Z := storage_ipc.get64 8 r.
Definition wr_sector_count (r : list Z) : Z := storage_ipc.get64 16 r.
Definition wr_file_index (r : list Z) : Z := storage_ipc.get32 32 r.
Definition wr_task_no (r : list Z) : list Z := c_text (drop 488 r).

Section Items.
Context (sup : storage_supervisor.StorageTaskSupervisor) (tasks : list Task) (task_no' : string).

(** The result of a channel does not belong to its planned file. *)
Definition result_mismatch (channel' : Z) (t : Task) (r : list Z) : bool :=
  negb (has_planned_file t) || negb (pf_channel_id (planned_file t) =? channel') ||
  negb (wr_channel_id r =? channel') || (Z.of_nat MAX_FILES_TOTAL <=? wr_metadata_slot r) ||
  (UINT16_MAX <? wr_file_index r) || (UINT32_MAX <? wr_sector_count r) ||
  negb (String.eqb (ccb_storage_task.task_id t) task_no') ||
  negb (bool_decide (wr_task_no r = txt task_no')).

Definition commit_metadata (t : Task) (r : list Z) : FileEntry :=
  let text := take 11 (txt task_no') in
  mkEntry (text ++ replicate (11 - length text) 0) 1
    (u8 (pf_proto_file_type_code (planned_file t))) (u16 (wr_file_index r))
    (if UINT32_MAX <? storage_supervisor.file_bytes r then UINT32_MAX
     else u32 (storage_supervisor.file_bytes r))
    (wr_start_lba r) (u32 (wr_sector_count r)) 1.

Definition commit_record (channel' : Z) (t : Task) (r : list Z) : FileRecord :=
  let p := planned_file t in
  let type_name := c_snprintf_s 32 (file_type_name_from_proto (u32 (pf_proto_file_type_code p))) in
  mkFileRecord 0 (c_snprintf_s 64 task_no') (overpass_time t) (wr_file_index r) type_name
    channel' (pf_proto_file_type_code p) (pf_calibration_type p) (wr_start_lba r)
    (wr_sector_count r) (storage_supervisor.file_bytes r)
    (c_snprintf_s 256
       (task_no' ++ "_" ++ type_name ++ "_" ++ pretty (wr_file_index r) ++ ".bin")%string) 0.

Definition commit_item (channel' : Z) (t : Task) (r : list Z) : StorageCommitItem :=
  mkItem channel' (wr_metadata_slot r) (commit_metadata t r) (commit_record channel' t r).

(** The loop over the channels of the target mask; [None]: a mismatch. *)
Fixpoint commit_items (chs : list Z) : option (list StorageCommitItem) :=
  match chs with
  | [] => Some []
  | ch :: chs =>
      if negb (Z.testbit (storage_supervisor.target_channel_mask sup) ch) then commit_items chs
      else
        match tasks !! Z.to_nat ch, storage_supervisor.final_result sup !! Z.to_nat ch with
        | Some t, Some r =>
            if result_mismatch ch t r then None
            else match commit_items chs with
                 | Some items => Some (commit_item ch t r :: items)
                 | None => None
                 end
        | _, _ => None
        end
  end.

Definition all_channels : list Z := [0; 1; 2].

(** [ops] is the table of production callbacks. *)
Definition storage_commit_supervised_results {W} (s : StorageCommitState)
    (ops : StorageCommitOps W) : Eff W (Z * StorageCommitState) :=
  match commit_items all_channels with
  | None =>
      let s := s <| reason := c_snprintf_s 64 "provisional_result_mismatch" |>
                 <| attempted := true |> <| success := false |> in
      let! _ := must2 (task_status_update ops) task_no' TASK_FAILED in
      eret (-1, s)
  | Some items =>
      storage_commit_run_once s (Some task_no') (Some items) (Z.of_nat (length items)) (Some ops)
  end.
End Items.

(** ** The items describe the results *)
Definition int32_range (z : Z) : Prop := - 2 ^ 31 <= z < 2 ^ 31.

(** What the theorem promises of one item. *)
Record item_faithful (task : string) (t : Task) (r : list Z) (it : StorageCommitItem) : Prop := {
  if_planned : has_planned_file t = true ∧ pf_channel_id (planned_file t) = channel it;
  if_task : ccb_storage_task.task_id t = task ∧ wr_task_no r = txt task;
  if_entry : entry_ok (metadata it) ∧ valid (metadata it) = 1;
  if_slot : 0 <= metadata_slot it < Z.of_nat MAX_FILES_TOTAL;
  if_lba : start_lba (metadata it) = wr_start_lba r ∧ fr_start_sector (record it) = wr_start_lba r;
  if_sectors : sector_count (metadata it) = wr_sector_count r ∧
    fr_sector_count (record it) = wr_sector_count r;
  if_index : file_index (metadata it) = wr_file_index r ∧
    fr_file_index (record it) = wr_file_index r;
  if_size : fr_file_size (record it) = storage_supervisor.file_bytes r ∧
    file_size_bytes (metadata it) = Z.min (storage_supervisor.file_bytes r) UINT32_MAX;
  if_channel : fr_channel_id (record it) = channel it }.

Lemma txt_bytes s : Forall is_byte (txt s).
Proof.
  induction s as [|a s IH]; [constructor|]. change (txt (String a s)) with
    (Z.of_nat (Ascii.nat_of_ascii a) :: txt s). constructor; [|done].
  pose proof (Ascii.nat_ascii_bounded a). unfold is_byte. lia.
Qed.

Lemma le_val_field_range off n l :
  Forall is_byte l → 0 <= le_val (field off n l) < 256 ^ Z.of_nat n.
Proof.
  intros H. assert (Hf : Forall is_byte (field off n l)) by (apply Forall_take, Forall_drop, H).
  pose proof (le_val_range _ Hf) as Hr.
  assert (length (field off n l) <= n)%nat by (unfold field; rewrite length_take; lia).
  split; [lia|]. eapply Z.lt_le_trans; [apply Hr|]. apply Z.pow_le_mono_r; lia.
Qed.

Lemma commit_item_faithful task ch t r :
  Forall is_byte r → result_mismatch task ch t r = false →
  item_faithful task t r (commit_item task ch t r).
Proof.
  intros Hb Hm. unfold result_mismatch in Hm. rewrite !orb_false_iff in Hm.
  destruct Hm as [[[[[[[H1 H2] H3] H4] H5] H6] H7] H8].
  assert (Hslot : 0 <= wr_metadata_slot r < 4294967296) by exact (le_val_field_range 4 4 r Hb).
  assert (Hlba : 0 <= wr_start_lba r < 18446744073709551616)
    by exact (le_val_field_range 8 8 r Hb).
  assert (Hsec : 0 <= wr_sector_count r < 18446744073709551616)
    by exact (le_val_field_range 16 8 r Hb).
  assert (Hidx : 0 <= wr_file_index r < 4294967296) by exact (le_val_field_range 32 4 r Hb).
  assert (Hsz : 0 <= storage_supervisor.file_bytes r < 18446744073709551616)
    by exact (le_val_field_range 272 8 r Hb).
  rewrite negb_false_iff in H1, H2, H3, H7, H8. apply String.eqb_eq in H7.
  apply bool_decide_eq_true in H8.
  split; simpl; unfold commit_metadata; simpl; rewrite ?u16_small, ?u32_small by cint; try done.
  - split; [done|lia].
  - split; [|done]. split; simpl; try cint; try apply u8_range.
    + split; [rewrite length_app, length_replicate, length_take; lia|].
      apply Forall_app; split; [apply Forall_take, txt_bytes|].
      apply Forall_replicate. unfold is_byte. lia.
    + case_match; [cint|apply u32_range].
    + apply u32_range.
  - unfold MAX_FILES_TOTAL in *. lia.
  - split; [done|]. case_match; [cint|]. rewrite u32_small by cint. cint.
Qed.

(** The items of a commit describe exactly the supervised results.  When
    the results pass the checks there is one item per channel of the task's
    mask, in channel order, so at most three and for distinct channels; each
    agrees with the channel's planned file and final result, the metadata entry
    fits its 32-byte form, nothing is truncated but the size, which the entry
    saturates, and entry and database record name the same extent and index. *)
Theorem commit_items_faithful
    (sup : storage_supervisor.StorageTaskSupervisor) (tasks : list Task) (task : string)
    (items : list StorageCommitItem) :
  Forall (Forall is_byte) (storage_supervisor.final_result sup) →
  commit_items sup tasks task all_channels = Some items →
  channel <$> items =
    filter (λ ch, Z.testbit (storage_supervisor.target_channel_mask sup) ch = true) all_channels ∧
  Forall (λ it, ∃ t r, tasks !! Z.to_nat (channel it) = Some t ∧
    storage_supervisor.final_result sup !! Z.to_nat (channel it) = Some r ∧
    item_faithful task t r it) items.
Proof.
  intros Hb. revert items. induction all_channels as [|ch chs IH]; intros items H.
  { injection H as <-. split; [done|constructor]. }
  simpl in H. rewrite filter_cons. destruct (Z.testbit _ ch) eqn:Hbit; simpl in H.
  2:{ rewrite decide_False by done. by apply IH. }
  rewrite decide_True by done.
  destruct (tasks !! Z.to_nat ch) as [t|] eqn:Ht; [|done].
  destruct (storage_supervisor.final_result sup !! Z.to_nat ch) as [r|] eqn:Hr; [|done].
  destruct (result_mismatch task ch t r) eqn:Hm; [done|].
  destruct (commit_items sup tasks task chs) as [its|]; [|done]. injection H as <-.
  destruct (IH its eq_refl) as [Hc Hf]. split; [simpl; by f_equal|].
  constructor; [|done]. exists t, r. split_and!; [done|done|].
  apply commit_item_faithful; [|done]. by eapply Forall_lookup_1.
Qed.

Definition witness_result : list Z :=
  le_bytes 4 2 ++ le_bytes 4 5 ++ le_bytes 8 1000 ++ le_bytes 8 8 ++ replicate 8 0 ++
  le_bytes 4 3 ++ replicate 236 0 ++ le_bytes 8 4096 ++ replicate 208 0 ++ txt "T1" ++ replicate 14 0.
Definition witness_sup : storage_supervisor.StorageTaskSupervisor :=
  storage_supervisor.mkSup 4 0 0 0 0 0 0 0 0 0 0 0 0 0 0 0 [0; 0; 0] false false false false
    STORAGE_ERR_NONE STORAGE_ERR_NONE 0 [] [] [[]; []; witness_result] []
    storage_supervisor.STORAGE_TASK_ACTIVE.
Definition planned_task : Task :=
  ccb_storage_task.witness_task
    <| planned_file := mkPlanned 2 FILE_TYPE_LOW (Some "LOW_SPEED"%string) 0 0 0 0 0 |>
    <| has_planned_file := true |> <| ccb_storage_task.task_id := "T1"%string |>.

Lemma commit_items_faithful_witness :
  ∃ it, commit_items witness_sup (replicate 3 planned_task) "T1" all_channels = Some [it] ∧
    channel it = 2 ∧ start_lba (metadata it) = 1000 ∧
    item_faithful "T1" planned_task witness_result it.
Proof.
  destruct (commit_items witness_sup (replicate 3 planned_task) "T1" all_channels)
    as [items|] eqn:E; [|vm_compute in E; discriminate E].
  assert (Hb : Forall (Forall is_byte) (storage_supervisor.final_result witness_sup)).
  { apply (bool_decide_unpack _). vm_compute. exact I. }
  destruct (commit_items_faithful _ _ _ _ Hb E) as [Hc Hf].
  assert (Hc' : channel <$> items = [2]) by (rewrite Hc; vm_compute; reflexivity).
  destruct items as [|it [|]]; try discriminate Hc'. exists it.
  apply Forall_cons in Hf as [(t & r & Ht & Hr & Hit) _].
  assert (Hch : channel it = 2) by (by injection Hc'). rewrite Hch in Ht, Hr.
  change (Some planned_task = Some t) in Ht. change (Some witness_result = Some r) in Hr.
  injection Ht as <-. injection Hr as <-. split_and!; [done|done| |exact Hit].
  destruct (if_lba _ _ _ _ Hit) as [-> _]. vm_compute. reflexivity.
Defined.

(** ** Undoing the metadata writes *)

(** A file system that works: the metadata directory exists and its path fits,
    every table file opens, reads and has room. *)
Record io_good (io : meta_io) : Prop := {
  ig_dir : mkdir_ok io = true ∧ (String.length (meta_dir io) < 499)%nat;
  ig_r : ∀ p, open_r io p = true ∧ read_error io p = false;
  ig_w : ∀ p, open_w io p = true ∧ (MAX_FILES_TOTAL <= write_room io p)%nat;
  ig_files : ∀ p l, meta_files io !! p = Some l → Forall is_byte l }.

Definition table_ok (t : list FileEntry) : Prop :=
  length t = MAX_FILES_TOTAL ∧ Forall entry_ok t.

Definition meta_path (io : meta_io) (ch : Z) : string :=
  (meta_dir io ++ "/meta_ch" ++ pretty ch ++ ".bin")%string.

Lemma app_string_length (a b : string) :
  String.length (a ++ b) = (String.length a + String.length b)%nat.
Proof. induction a as [|c a IH]; [done|]. simpl. by rewrite IH. Qed.
Lemma app_string_inj (a b c : string) : (a ++ b)%string = (a ++ c)%string → b = c.
Proof. induction a as [|x a IH]; [done|]. simpl. intros H. apply IH. by injection H. Qed.

Lemma find_channel_id ch cfg : find_channel ch = Some cfg → id cfg = ch ∧ 0 <= ch <= 2.
Proof.
  unfold find_channel.
  assert (Hk : Forall (λ c, 0 <= id c <= 2) kChannels)
    by (repeat (apply Forall_cons; split; [cbv; split; discriminate|]); apply Forall_nil; exact I).
  induction Hk as [|c l Hc Hl IH]; [done|]. cbn [find_in].
  destruct (id c =? ch) eqn:E; [|done]. intros H. injection H as <-. lia.
Qed.

Lemma path_good io ch : io_good io → 0 <= ch <= 2 →
  build_metadata_path (meta_dir io) ch 512 = Some (meta_path io ch).
Proof.
  intros [[_ Hd] _ _ _] Hch. unfold build_metadata_path. apply decide_True.
  rewrite !app_string_length. assert (ch = 0 ∨ ch = 1 ∨ ch = 2) as [->|[->| ->]] by lia;
    simpl; lia.
Qed.

Lemma meta_path_inj io a b : 0 <= a <= 2 → 0 <= b <= 2 → meta_path io a = meta_path io b → a = b.
Proof.
  intros Ha Hb H. apply app_string_inj in H.
  assert (a = 0 ∨ a = 1 ∨ a = 2) as [->|[->| ->]] by lia;
    assert (b = 0 ∨ b = 1 ∨ b = 2) as [->|[->| ->]] by lia;
    first [reflexivity|vm_compute in H; discriminate H].
Qed.

Lemma bytes_entry_ok l : Forall is_byte l → (32 <= length l)%nat → entry_ok (bytes_entry l).
Proof.
  intros Hb Hl. pose proof (λ off n, le_val_field_range off n l Hb) as Hr.
  split; simpl.
  - unfold field. rewrite length_take, length_drop. split; [lia|]. by apply Forall_take, Forall_drop.
  - specialize (Hr 11%nat 1%nat). change (256 ^ Z.of_nat 1) with 256 in Hr. cint.
  - specialize (Hr 12%nat 1%nat). change (256 ^ Z.of_nat 1) with 256 in Hr. cint.
  - specialize (Hr 13%nat 2%nat). change (256 ^ Z.of_nat 2) with 65536 in Hr. cint.
  - specialize (Hr 15%nat 4%nat). change (256 ^ Z.of_nat 4) with 4294967296 in Hr. cint.
  - specialize (Hr 19%nat 8%nat). change (256 ^ Z.of_nat 8) with 18446744073709551616 in Hr. cint.
  - specialize (Hr 27%nat 4%nat). change (256 ^ Z.of_nat 4) with 4294967296 in Hr. cint.
  - specialize (Hr 31%nat 1%nat). change (256 ^ Z.of_nat 1) with 256 in Hr. cint.
Qed.

Lemma read_entries_ok n : ∀ l, Forall is_byte l →
  Forall entry_ok (read_entries n l) ∧ (length (read_entries n l) <= n)%nat.
Proof.
  induction n as [|n IH]; intros l Hb; simpl; [split; [constructor|lia]|].
  case_decide as Hd; [split; [constructor|simpl; lia]|].
  destruct (IH (drop FILE_ENTRY_SIZE l)) as [Hf Hl]; [by apply Forall_drop|].
  split; [|simpl; lia]. constructor; [|done].
  apply bytes_entry_ok; [done|]. unfold FILE_ENTRY_SIZE in Hd. lia.
Qed.

Lemma read_good io cfg ch : io_good io → find_channel ch = Some cfg →
  ∃ t, metadata_read cfg io = (Some t, io) ∧ table_ok t.
Proof.
  intros Hio Hc. apply find_channel_id in Hc as [Hid Hch].
  unfold metadata_read, read_metadata_from_file. rewrite Hid, (path_good _ _ Hio Hch).
  destruct Hio as [[-> _] Hr _ Hf]. simpl negb. cbv iota.
  assert (Hz : table_ok (replicate MAX_FILES_TOTAL zero_entry))
    by (split; [apply length_replicate|apply Forall_replicate, zero_entry_ok]).
  destruct (meta_files io !! _) as [l|] eqn:E; [|by eexists].
  destruct (Hr (meta_path io ch)) as [-> ->]. simpl negb. cbv iota.
  destruct (read_entries_ok MAX_FILES_TOTAL l (Hf _ _ E)) as [H1 H2].
  eexists. split; [done|]. split.
  - rewrite length_app, length_replicate. lia.
  - apply Forall_app; split; [done|apply Forall_replicate, zero_entry_ok].
Qed.

Lemma entry_bytes_ok e : entry_ok e → Forall is_byte (entry_bytes e).
Proof.
  intros [[_ Ht] _ _ _ _ _ _ _]. unfold entry_bytes.
  repeat (apply Forall_app; split); try done; apply le_bytes_bytes.
Qed.
Lemma table_bytes_ok t : Forall entry_ok t → Forall is_byte (table_bytes t).
Proof.
  induction 1 as [|e t He Ht IH]; [constructor|].
  change (table_bytes (e :: t)) with (entry_bytes e ++ table_bytes t).
  apply Forall_app; split; [by apply entry_bytes_ok|done].
Qed.

(** A write replaces the channel's table and no other. *)
Lemma write_good io cfg ch t : io_good io → find_channel ch = Some cfg → table_ok t →
  ∃ io', metadata_write cfg t io = (0, io') ∧ io_good io' ∧
    fst (metadata_read cfg io') = Some t ∧
    ∀ ch2 cfg2, find_channel ch2 = Some cfg2 → ch2 ≠ ch →
      fst (metadata_read cfg2 io') = fst (metadata_read cfg2 io).
Proof.
  intros Hio Hc [Hlen Hok]. apply find_channel_id in Hc as [Hid Hch].
  unfold metadata_write, write_metadata_to_file, metadata_read, read_metadata_from_file.
  rewrite Hid. pose proof (path_good _ _ Hio Hch) as Hp. rewrite Hp.
  assert (Hp2 : ∀ ch2 cfg2, find_channel ch2 = Some cfg2 →
    build_metadata_path (meta_dir io) (id cfg2) 512 = Some (meta_path io ch2) ∧
    (ch2 ≠ ch → meta_path io ch2 ≠ meta_path io ch)).
  { intros ch2 cfg2 H2. apply find_channel_id in H2 as [-> H2]. split; [by apply path_good|].
    intros Hne He. by apply Hne, (meta_path_inj io). }
  destruct Hio as [[Hmk Hd] Hr Hw Hf]. destruct (Hw (meta_path io ch)) as [-> Hroom].
  destruct (Hr (meta_path io ch)) as [Hopen Herr].
  rewrite Hmk. simpl negb. cbv iota. rewrite (firstn_all2 t) by lia. rewrite Hlen.
  rewrite Nat.min_r by done. rewrite decide_True by done. rewrite firstn_all2 by lia.
  eexists. split; [reflexivity|]. cbv [upd].
  cbn [mkdir_ok meta_dir meta_files open_r read_error write_room open_w]. rewrite Hmk, Hp.
  split_and!.
  - split; cbn [mkdir_ok meta_dir meta_files open_r read_error write_room open_w];
      [done..|]. intros p l Hl. destruct (decide (p = meta_path io ch)) as [->|Hne].
    + rewrite lookup_insert_eq in Hl. injection Hl as <-. by apply table_bytes_ok.
    + rewrite lookup_insert_ne in Hl by done. by eapply Hf.
  - rewrite lookup_insert_eq, Hopen, Herr. cbn [negb fst].
    rewrite read_entries_bytes by (done || lia). rewrite Hlen, Nat.sub_diag. by rewrite app_nil_r.
  - intros ch2 cfg2 H2 Hne. destruct (Hp2 _ _ H2) as [-> Hn]. rewrite lookup_insert_ne.
    + cbn [negb]. by repeat case_match.
    + intros E. by apply Hn.
Qed.

(** The stack of channels whose table was replaced, newest first, over the
    tables [T] read before: their backups are held, all other tables are as
    they were. *)
Record undoable (T : Z → list FileEntry) (stack : list Z) (st : store) : Prop := {
  un_io : io_good (fst st);
  un_table : ∀ ch cfg, find_channel ch = Some cfg → table_ok (T ch);
  un_backup : ∀ ch, ch ∈ stack → snd st !! ch = Some (T ch);
  un_same : ∀ ch cfg, find_channel ch = Some cfg → ch ∉ stack →
    fst (metadata_read cfg (fst st)) = Some (T ch) }.

(** An item with a channel, a slot and an entry that exist. *)
Definition item_ok (it : StorageCommitItem) : Prop :=
  0 <= channel it < NUM_CHANNELS ∧ 0 <= metadata_slot it < Z.of_nat MAX_FILES_TOTAL ∧
  entry_ok (metadata it).

Lemma item_channel_ok it : item_ok it → ∃ cfg,
  item_channel it = Some cfg ∧ find_channel (channel it) = Some cfg.
Proof.
  intros [Hc _]. unfold item_channel.
  replace (NUM_CHANNELS <=? channel it) with false by lia. unfold NUM_CHANNELS in Hc.
  assert (channel it = 0 ∨ channel it = 1 ∨ channel it = 2) as [->|[->| ->]] by lia;
    by eexists.
Qed.

Lemma undoable_write T stack it st :
  undoable T stack st → item_ok it → channel it ∉ stack →
  undoable T (channel it :: stack) (snd (storage_commit_metadata_write it st)).
Proof.
  intros [Hio HT Hb Hs] Hit Hnew. destruct (item_channel_ok _ Hit) as (cfg & Hic & Hfc).
  destruct Hit as (Hch & Hslot & He). destruct st as [io ctx]. simpl in *.
  unfold storage_commit_metadata_write. rewrite Hic.
  replace (Z.of_nat MAX_FILES_TOTAL <=? metadata_slot it) with false by lia.
  destruct (read_good io cfg _ Hio Hfc) as (t & Hrd & Hlen & Hok). rewrite Hrd.
  assert (Ht : t = T (channel it)).
  { specialize (Hs _ _ Hfc Hnew). rewrite Hrd in Hs. by injection Hs. }
  assert (Hback : ∀ ch, ch ∈ channel it :: stack → <[channel it := t]> ctx !! ch = Some (T ch)).
  { intros ch Hin. destruct (decide (ch = channel it)) as [->|Hne].
    - by rewrite lookup_insert_eq, Ht.
    - rewrite lookup_insert_ne by done. apply Hb. apply elem_of_cons in Hin as [?|?]; done. }
  destruct (lookup_lt_is_Some_2 t (Z.to_nat (metadata_slot it))) as [e Hlook]; [lia|].
  rewrite Hlook. destruct (valid e =? 1).
  - split; [done|done|done|]. intros ch c Hc Hn. apply (Hs ch c Hc). set_solver.
  - destruct (write_good io cfg _ (<[Z.to_nat (metadata_slot it) := metadata it]> t) Hio Hfc)
      as (io' & -> & Hio' & _ & Hother).
    { split; [by rewrite length_insert|]. by apply Forall_insert. }
    split; [done|done|done|]. simpl. intros ch c Hc Hn. rewrite (Hother ch c Hc) by set_solver.
    apply (Hs ch c Hc). set_solver.
Qed.

Lemma undoable_rollback T stack it st :
  undoable T (channel it :: stack) st → item_ok it → channel it ∉ stack →
  fst (storage_commit_metadata_rollback it st) = 0 ∧
  undoable T stack (snd (storage_commit_metadata_rollback it st)).
Proof.
  intros [Hio HT Hb Hs] Hit Hnew. destruct (item_channel_ok _ Hit) as (cfg & Hic & Hfc).
  destruct st as [io ctx]. simpl in *. unfold storage_commit_metadata_rollback. rewrite Hic.
  rewrite (Hb (channel it)) by (by left).
  destruct (write_good io cfg _ (T (channel it)) Hio Hfc (HT _ _ Hfc))
    as (io' & -> & Hio' & Hsame & Hother).
  split; [done|]. split; [done|done| |]; simpl.
  - intros ch Hin. rewrite lookup_delete_ne by (intros <-; done). apply Hb. by right.
  - intros ch c Hc Hn. destruct (decide (ch = channel it)) as [->|Hne].
    + by replace c with cfg by congruence.
    + rewrite (Hother ch c Hc) by done. apply (Hs ch c Hc). set_solver.
Qed.

(** The callbacks that reach the metadata; the database is not involved. *)
Definition metadata_ops : StorageCommitOps store :=
  mkOps None None (Some storage_commit_metadata_write) (Some storage_commit_metadata_rollback)
    None None None None None None None None None.

Lemma undoable_writes T items : ∀ stack st,
  undoable T stack st → Forall item_ok items → NoDup (channel <$> items) →
  (∀ it, it ∈ items → channel it ∉ stack) →
  let '((_, n), st') := for_each storage_commit_metadata_write items st in
  undoable T (rev (channel <$> take n items) ++ stack) st'.
Proof.
  induction items as [|it items IH]; intros stack st Hu Hok Hnd Hdis; [done|].
  apply Forall_cons in Hok as [Hit Hok]. apply NoDup_cons in Hnd as [Hni Hnd].
  simpl. unfold ebind at 1.
  pose proof (undoable_write T stack it st Hu Hit (Hdis it ltac:(by left))) as H1.
  destruct (storage_commit_metadata_write it st) as [r st1]. simpl in H1.
  destruct (negb (r =? 0)); [by simpl|]. unfold ebind.
  specialize (IH _ st1 H1 Hok Hnd). destruct (for_each _ items st1) as [[r2 n] st2].
  cbn beta iota delta [eret]. simpl. rewrite <-(assoc_L (++)). apply IH.
  intros it' Hin. apply not_elem_of_cons. split; [|by apply Hdis; right].
  intros E. apply Hni. rewrite <-E. by apply list_elem_of_fmap_2.
Qed.

Lemma undoable_rollbacks T items : ∀ st,
  undoable T (channel <$> items) st → Forall item_ok items → NoDup (channel <$> items) →
  let '(failed, st') := rollback_loop metadata_ops items false st in
  failed = false ∧ undoable T [] st'.
Proof.
  induction items as [|it items IH]; intros st Hu Hok Hnd; [done|].
  apply Forall_cons in Hok as [Hit Hok]. apply NoDup_cons in Hnd as [Hni Hnd].
  simpl. unfold ebind.
  destruct (undoable_rollback T _ it st Hu Hit Hni) as [Hr Hu'].
  destruct (storage_commit_metadata_rollback it st) as [r st1]. simpl in Hr, Hu'. subst r.
  by apply IH.
Qed.

(** Undoing a commit restores the metadata.  On a working file system, for
    items of distinct channels, run the loop of metadata writes - to its end or
    to the first item refused because its slot is taken - and then the rollback
    loop over the items attempted: no rollback fails, and every channel's table
    reads as it did before the commit. *)
Theorem metadata_writes_undone (io : meta_io) (items : list StorageCommitItem) :
  io_good io → Forall item_ok items → NoDup (channel <$> items) →
  let '((_, n), st) := for_each storage_commit_metadata_write items (io, ∅) in
  let '(failed, st') := rollback_loop metadata_ops (rev (take n items)) false st in
  failed = false ∧
  ∀ ch cfg, find_channel ch = Some cfg →
    fst (metadata_read cfg (fst st')) = fst (metadata_read cfg io).
Proof.
  intros Hio Hok Hnd.
  set (T ch := default [] (cfg ← find_channel ch; fst (metadata_read cfg io))).
  assert (HT : ∀ ch cfg, find_channel ch = Some cfg →
    fst (metadata_read cfg io) = Some (T ch) ∧ table_ok (T ch)).
  { intros ch cfg Hc. destruct (read_good io cfg ch Hio Hc) as (t & Hr & Ht).
    unfold T. rewrite Hc. simpl. by rewrite Hr. }
  assert (Hu : undoable T [] (io, ∅)).
  { split; [done|intros ch cfg Hc; apply (HT _ _ Hc)|by intros ch ?%elem_of_nil|].
    intros ch cfg Hc _. apply (HT _ _ Hc). }
  pose proof (undoable_writes T items [] _ Hu Hok Hnd) as H.
  destruct (for_each _ _ _) as [[r n] st]. rewrite app_nil_r in H.
  pose proof (undoable_rollbacks T (rev (take n items)) st) as H2.
  destruct (rollback_loop _ _ _ _) as [failed st']. destruct H2 as [Hf Hu'].
  - rewrite map_rev. apply H. intros ? _. apply not_elem_of_nil.
  - apply Forall_rev. by apply Forall_take.
  - rewrite map_rev. apply NoDup_ListNoDup, NoDup_rev, NoDup_ListNoDup.
    change (map channel) with (fmap (M := list) channel). rewrite fmap_take. by eapply sublist_NoDup, sublist_take.
  - split; [done|]. intros ch cfg Hc. destruct (HT _ _ Hc) as [-> _].
    apply (un_same _ _ _ Hu' ch cfg Hc). apply not_elem_of_nil.
Qed.

(** The second item's slot is taken, so its write is refused. *)
Lemma metadata_writes_undone_witness :
  let it ch slot := mkItem ch slot zero_entry (record witness_item) in
  let '((rc, n), st) :=
    for_each storage_commit_metadata_write [it 0 3; it 1 4]
      (witness_io <| meta_files := {[ "/run/ccb/meta_ch1.bin"%string := replicate 160 1 ]} |>, ∅) in
  (rc, n) = (-1, 2%nat) ∧
  fst (rollback_loop metadata_ops (rev (take n [it 0 3; it 1 4])) false st) = false.
Proof.
  intros it. set (io := witness_io <| meta_files := _ |>).
  assert (Hio : io_good io).
  { split.
    - split; [done|simpl; lia].
    - by intros p.
    - intros p. split; [done|simpl; unfold MAX_FILES_TOTAL; lia].
    - intros p l. change (meta_files io)
        with ({[ "/run/ccb/meta_ch1.bin"%string := replicate 160 1 ]} : gmap string (list Z)).
      intros [<- <-]%lookup_singleton_Some. apply Forall_replicate. unfold is_byte. lia. }
  pose proof (metadata_writes_undone io [it 0 3; it 1 4] Hio) as H.
  destruct (for_each _ _ _) as [[rc n] st] eqn:E.
  destruct (rollback_loop _ _ _ _) as [failed st'] eqn:E2. split.
  - clear -E. apply (f_equal fst) in E. vm_compute in E. injection E as <- <-. reflexivity.
  - apply H.
    + repeat (apply Forall_cons; split; [split_and!; cbn [channel metadata_slot metadata it]; unfold NUM_CHANNELS, MAX_FILES_TOTAL;
        try lia; apply zero_entry_ok|]). by apply Forall_nil.
    + apply (bool_decide_unpack _). vm_compute. exact I.
Defined.
End system_commit.
