(* ===== verification/CrossSlot.v ===== *)
(** * The cross-slot NVMe write engine ([src/src/ccb_hw.c])

    The engine keeps several DMA slots in flight at once: each accepted slot is
    split into write commands, the commands of all slots share one submission
    queue, completions arrive in any order, and a slot is handed back through
    the callback once all of its commands have completed.  The hardware is a
    table of callbacks over an abstract world; the file holds the engine's
    state and operations, [CrossSlotSafe] what they guarantee.

    The parallel arrays [active], [contexts] and [reqs] are one list of
    [SlotEntry]; [completed_cid_seen] is the set of the identifiers marked. *)
From stdpp Require Import gmap.
From S2P Require Import Prelude StorageError.

Module ccb_hw.

Definition NVME_SECTOR_BYTES : Z := 512.
Definition NVME_PENDING_CAPACITY : nat := 32.
Definition NO_SLOT : Z := UINT32_MAX.

Record NvmeCompletion : Type := mkCompletion { cpl_cid : Z; cpl_error : bool }.

Record NvmePendingCmd : Type := mkPending {
  p_valid : bool; p_cid : Z; p_slot : Z; p_slot_offset : Z; p_lba : Z; p_ddr_addr : Z;
  p_sectors : Z; p_bytes : Z; p_payload_bytes : Z; p_submit_us : Z }.
#[export] Instance eta_Pending : EtaOf NvmePendingCmd := λ p,
  mkPending (p_valid p) (p_cid p) (p_slot p) (p_slot_offset p) (p_lba p) (p_ddr_addr p)
    (p_sectors p) (p_bytes p) (p_payload_bytes p) (p_submit_us p).
Definition zero_pending : NvmePendingCmd := mkPending false 0 0 0 0 0 0 0 0 0.

Record NvmeSlotWriteContext : Type := mkCtx {
  c_slot : Z; base_lba : Z; base_ddr_addr : Z; total_bytes : Z; total_sectors : Z;
  next_submit_sector : Z; submitted_cmds : Z; completed_cmds : Z; failed_cmds : Z;
  inflight_cmds : Z }.
#[export] Instance eta_Ctx : EtaOf NvmeSlotWriteContext := λ c,
  mkCtx (c_slot c) (base_lba c) (base_ddr_addr c) (total_bytes c) (total_sectors c)
    (next_submit_sector c) (submitted_cmds c) (completed_cmds c) (failed_cmds c)
    (inflight_cmds c).
Definition idle_ctx : NvmeSlotWriteContext := mkCtx NO_SLOT 0 0 0 0 0 0 0 0 0.

Record NvmeWriteSlotReq : Type := mkReq {
  r_slot : Z; r_start_lba : Z; r_sectors : Z; r_hw_addr : Z; r_bytes : Z;
  r_chunk_index : Z; r_file_offset : Z; r_media_bytes : Z }.
#[export] Instance NvmeWriteSlotReq_eq_dec : EqDecision NvmeWriteSlotReq.
Proof. solve_decision. Defined.
Definition zero_req : NvmeWriteSlotReq := mkReq 0 0 0 0 0 0 0 0.

(** Index [i] of [active], [contexts] and [reqs]. *)
Record SlotEntry : Type := mkEntry {
  s_active : bool; s_ctx : NvmeSlotWriteContext; s_req : NvmeWriteSlotReq }.
#[export] Instance eta_Entry : EtaOf SlotEntry := λ s, mkEntry (s_active s) (s_ctx s) (s_req s).
Definition idle_entry : SlotEntry := mkEntry false idle_ctx zero_req.

Record NvmeCrossSlotConfig : Type := mkConfig {
  max_active_slots : Z; target_qd : Z; cq_batch : Z; writer_budget_us : Z;
  busy_poll_us : Z; empty_sleep_us : Z; no_progress_timeout_us : Z }.

Record NvmeCrossSlotStats : Type := mkStats {
  sq_full_wait_count : Z; sq_full_wait_max_us : Z; cq_empty_wait_count : Z;
  cq_empty_wait_max_us : Z; submit_mmio_count : Z; submit_mmio_max_us : Z;
  completion_process_count : Z; completion_process_max_us : Z;
  no_progress_sleep_count : Z }.
#[export] Instance eta_Stats : EtaOf NvmeCrossSlotStats := λ s,
  mkStats (sq_full_wait_count s) (sq_full_wait_max_us s) (cq_empty_wait_count s)
    (cq_empty_wait_max_us s) (submit_mmio_count s) (submit_mmio_max_us s)
    (completion_process_count s) (completion_process_max_us s) (no_progress_sleep_count s).

Inductive NvmeCrossSlotState : Type :=
| NVME_CROSS_SLOT_RUNNING | NVME_CROSS_SLOT_ABORT_REQUESTED
| NVME_CROSS_SLOT_DRAINING_INFLIGHT | NVME_CROSS_SLOT_RESETTING
| NVME_CROSS_SLOT_QUIESCED | NVME_CROSS_SLOT_FAILED.
#[export] Instance NvmeCrossSlotState_eq_dec : EqDecision NvmeCrossSlotState.
Proof. solve_decision. Defined.

Definition NVME_SUBMIT_ACCEPTED : Z := 0.
Definition NVME_SUBMIT_RETRY_SQ_FULL : Z := 1.
Definition NVME_SUBMIT_NOT_ACCEPTED : Z := -1.
Definition NVME_SUBMIT_STOPPED_BEFORE_DOORBELL : Z := -2.
Definition NVME_SUBMIT_ACCEPTANCE_UNKNOWN : Z := -3.

(** The part of [ChannelRuntime] that the engine uses. *)
Record Runtime : Type := mkRt {
  next_cmd_id : Z; nvme_max_lba : Z; nvme_cmd_sectors : Z; nvme_diag_timing : bool;
  dma_desc_count : Z;
  nvme_cmd_count : Z; nvme_cmd_bytes_total : Z; nvme_write_bytes_done : Z;
  nvme_payload_bytes_done : Z; nvme_cmd_latency_total_us : Z; nvme_latency_sample_count : Z;
  nvme_cmd_latency_min_us : Z; nvme_cmd_latency_max_us : Z; nvme_last_completion_us : Z;
  active_qd_max : Z; active_qd_current : Z; active_qd_integral_us : Z;
  active_qd_observed_us : Z; active_qd_last_update_us : Z; active_qd_event_sum : Z;
  active_qd_event_samples : Z; active_qd_event_min : Z;
  nvme_primary_error : StorageErrorCode; nvme_secondary_error : StorageErrorCode;
  nvme_last_error : string }.
#[export] Instance eta_Rt : EtaOf Runtime := λ r,
  mkRt (next_cmd_id r) (nvme_max_lba r) (nvme_cmd_sectors r) (nvme_diag_timing r)
    (dma_desc_count r) (nvme_cmd_count r) (nvme_cmd_bytes_total r) (nvme_write_bytes_done r)
    (nvme_payload_bytes_done r) (nvme_cmd_latency_total_us r) (nvme_latency_sample_count r)
    (nvme_cmd_latency_min_us r) (nvme_cmd_latency_max_us r) (nvme_last_completion_us r)
    (active_qd_max r) (active_qd_current r) (active_qd_integral_us r)
    (active_qd_observed_us r) (active_qd_last_update_us r) (active_qd_event_sum r)
    (active_qd_event_samples r) (active_qd_event_min r) (nvme_primary_error r)
    (nvme_secondary_error r) (nvme_last_error r).

Record NvmeCrossSlotEngine : Type := mkEngine {
  rt : Runtime; config : NvmeCrossSlotConfig;
  pending : list NvmePendingCmd; slots : list SlotEntry;
  active_count : Z; global_inflight : Z; rr_index : Z; completed_cid_seen : gset Z;
  sq_full_start_us : Z; cq_empty_start_us : Z; no_progress_start_us : Z;
  stats : NvmeCrossSlotStats; state : NvmeCrossSlotState; last_error : string }.
#[export] Instance eta_Engine : EtaOf NvmeCrossSlotEngine := λ e,
  mkEngine (rt e) (config e) (pending e) (slots e) (active_count e) (global_inflight e)
    (rr_index e) (completed_cid_seen e) (sq_full_start_us e) (cq_empty_start_us e)
    (no_progress_start_us e) (stats e) (state e) (last_error e).

(** [submit] gets the identifier, the address range and the DDR address;
    [poll_completion] a status (negative: error, 0: none) and the completion. *)
Record NvmeCrossSlotOps (W : Type) : Type := mkOps {
  submit : Z → Z → Z → Z → Eff W Z;
  poll_completion : Eff W (Z * NvmeCompletion);
  monotonic_us : Eff W Z;
  sleep_us : option (Z → Eff W unit);
  yield_cpu : option (Eff W unit);
  reset : option (Eff W Z) }.
Arguments mkOps {W}. Arguments submit {W}. Arguments poll_completion {W}.
Arguments monotonic_us {W}. Arguments sleep_us {W}. Arguments yield_cpu {W}.
Arguments reset {W}.

(** ** Statistics *)
Definition atomic_update_min_u64 (target value : Z) : Z :=
  if (target =? 0) || (value <? target) then value else target.
Definition atomic_update_max_u64 (target value : Z) : Z :=
  if target <? value then value else target.

Definition nvme_update_active_qd (new_qd now_us : Z) (r : Runtime) : Runtime :=
  let last_us := active_qd_last_update_us r in
  let r :=
    if negb (last_us =? 0) && (last_us <=? now_us) then
      let elapsed_us := now_us - last_us in
      r <| active_qd_integral_us ::= λ n, u64 (n + u64 (elapsed_us * active_qd_current r)) |>
        <| active_qd_observed_us ::= λ n, u64 (n + elapsed_us) |>
    else r in
  r <| active_qd_last_update_us := now_us |> <| active_qd_current := new_qd |>
    <| active_qd_max ::= λ m, if m <? new_qd then new_qd else m |>.

Definition nvme_record_active_qd_event (active_qd : Z) (r : Runtime) : Runtime :=
  r <| active_qd_event_sum ::= λ n, u64 (n + active_qd) |>
    <| active_qd_event_samples ::= λ n, u64 (n + 1) |>
    <| active_qd_event_min ::= λ m, if active_qd <? m then active_qd else m |>
    <| active_qd_max ::= λ m, if m <? active_qd then active_qd else m |>
    <| active_qd_current := active_qd |>.

Definition nvme_record_write_completion (p : NvmePendingCmd) (completion_us : Z)
    (r : Runtime) : Runtime :=
  let latency_us := if negb (p_submit_us p =? 0) && (p_submit_us p <=? completion_us)
                    then completion_us - p_submit_us p else 0 in
  let payload := if negb (p_payload_bytes p =? 0) then p_payload_bytes p else p_bytes p in
  let r := r <| nvme_cmd_count ::= λ n, u64 (n + 1) |>
             <| nvme_cmd_bytes_total ::= λ n, u64 (n + p_bytes p) |>
             <| nvme_write_bytes_done ::= λ n, u64 (n + p_bytes p) |>
             <| nvme_payload_bytes_done ::= λ n, u64 (n + payload) |>
             <| nvme_last_completion_us := completion_us |> in
  if negb (p_submit_us p =? 0) then
    r <| nvme_cmd_latency_total_us ::= λ n, u64 (n + latency_us) |>
      <| nvme_latency_sample_count ::= λ n, u64 (n + 1) |>
      <| nvme_cmd_latency_min_us ::= λ m, atomic_update_min_u64 m latency_us |>
      <| nvme_cmd_latency_max_us ::= λ m, atomic_update_max_u64 m latency_us |>
  else r.

Definition nvme_set_error (code : StorageErrorCode) (reason : string) (r : Runtime) : Runtime :=
  let previous_primary := nvme_primary_error r in
  let '(p, s) := storage_error_record (nvme_primary_error r) (nvme_secondary_error r) code in
  let r := r <| nvme_primary_error := p |> <| nvme_secondary_error := s |> in
  if negb (previous_primary =? STORAGE_ERR_NONE) then r
  else r <| nvme_last_error := c_snprintf_s 64 reason |>.
Definition nvme_set_last_error (reason : string) (r : Runtime) : Runtime :=
  nvme_set_error STORAGE_ERR_INTERNAL reason r.

Definition cross_slot_update_max (value sample : Z) : Z :=
  if value <? sample then sample else value.

Definition cross_slot_record_cq_empty (now_us : Z) (e : NvmeCrossSlotEngine) : NvmeCrossSlotEngine :=
  let e := if cq_empty_start_us e =? 0 then
             e <| cq_empty_start_us := now_us |>
               <| stats ::= λ s, s <| cq_empty_wait_count ::= λ n, u64 (n + 1) |> |>
           else e in
  e <| stats ::= λ s, s <| cq_empty_wait_max_us ::= λ m,
         cross_slot_update_max m (u64 (now_us - cq_empty_start_us e)) |> |>.

Definition cross_slot_clear_cq_empty (now_us : Z) (e : NvmeCrossSlotEngine) : NvmeCrossSlotEngine :=
  if negb (cq_empty_start_us e =? 0) then
    e <| stats ::= λ s, s <| cq_empty_wait_max_us ::= λ m,
           cross_slot_update_max m (u64 (now_us - cq_empty_start_us e)) |> |>
      <| cq_empty_start_us := 0 |>
  else e.

(** ** Lookups *)
Definition find_if {A} (p : A → bool) (l : list A) : option (nat * A) :=
  list_find (λ x, p x = true) l.

Definition nvme_find_pending_by_cid (pend : list NvmePendingCmd) (cid : Z) :
    option (nat * NvmePendingCmd) := find_if (λ p, p_valid p && (p_cid p =? cid)) pend.
Definition nvme_find_free_pending (pend : list NvmePendingCmd) : option (nat * NvmePendingCmd) :=
  find_if (λ p, negb (p_valid p)) pend.
Definition nvme_find_slot_context (l : list SlotEntry) (slot : Z) : option (nat * SlotEntry) :=
  find_if (λ s, c_slot (s_ctx s) =? slot) l.

(** At most 65535 identifiers are tried; the result and the next identifier. *)
Fixpoint alloc_cid_loop (attempts : nat) (next : Z) (pend : list NvmePendingCmd) :
    option Z * Z :=
  match attempts with
  | O => (None, next)
  | S attempts =>
      let cid := next in
      let next := u16 (next + 1) in
      if cid =? 0 then alloc_cid_loop attempts next pend
      else if existsb (λ p, p_valid p && (p_cid p =? cid)) pend
      then alloc_cid_loop attempts next pend
      else (Some cid, next)
  end.
Definition nvme_alloc_cid (r : Runtime) (pend : list NvmePendingCmd) : option Z * Runtime :=
  let '(cid, next) := alloc_cid_loop (Z.to_nat UINT16_MAX) (next_cmd_id r) pend in
  (cid, r <| next_cmd_id := next |>).

(** The next context with sectors left, round robin from [rr]. *)
Definition submit_candidate (s : SlotEntry) : bool :=
  s_active s && (next_submit_sector (s_ctx s) <? total_sectors (s_ctx s)).
Fixpoint next_submit_loop (attempts : nat) (attempt rr : Z) (l : list SlotEntry) : option nat :=
  match attempts with
  | O => None
  | S attempts =>
      let index := Z.to_nat ((rr + attempt) mod Z.of_nat NVME_PENDING_CAPACITY) in
      match l !! index with
      | Some s => if submit_candidate s then Some index
                  else next_submit_loop attempts (attempt + 1) rr l
      | None => next_submit_loop attempts (attempt + 1) rr l
      end
  end.
Definition nvme_find_next_submit_context (l : list SlotEntry) (rr : Z) : option (nat * Z) :=
  match next_submit_loop NVME_PENDING_CAPACITY 0 rr l with
  | Some index => Some (index, (Z.of_nat index + 1) mod Z.of_nat NVME_PENDING_CAPACITY)
  | None => None
  end.

Definition nvme_lba_range_valid (r : Runtime) (start_lba sectors : Z) : bool :=
  negb (nvme_max_lba r =? 0) && negb (sectors =? 0) && (start_lba <? nvme_max_lba r) &&
  (sectors <=? nvme_max_lba r - start_lba).

(** ** The engine's state *)
Definition is_running (e : NvmeCrossSlotEngine) : bool :=
  bool_decide (state e = NVME_CROSS_SLOT_RUNNING).

Definition cross_slot_fail_code (code : StorageErrorCode) (reason : string)
    (e : NvmeCrossSlotEngine) : NvmeCrossSlotEngine :=
  let e := if String.eqb (last_error e) "" then
             e <| last_error := c_snprintf_s 64 reason |> <| rt ::= nvme_set_error code reason |>
           else e in
  if is_running e then e <| state := NVME_CROSS_SLOT_ABORT_REQUESTED |> else e.
Definition cross_slot_fail : string → NvmeCrossSlotEngine → NvmeCrossSlotEngine :=
  cross_slot_fail_code STORAGE_ERR_INTERNAL.

Definition nvme_cross_slot_engine_request_abort (reason : string) (e : NvmeCrossSlotEngine) :
    NvmeCrossSlotEngine :=
  if bool_decide (state e = NVME_CROSS_SLOT_QUIESCED) ||
     bool_decide (state e = NVME_CROSS_SLOT_FAILED) then e
  else
    let e := if String.eqb (last_error e) "" then
               let text := c_snprintf_s 64 (if String.eqb reason "" then "abort_requested" else reason) in
               e <| last_error := text |> <| rt ::= nvme_set_last_error text |>
             else e in
    if is_running e then e <| state := NVME_CROSS_SLOT_ABORT_REQUESTED |> else e.

Definition nvme_cross_slot_engine_can_accept (e : NvmeCrossSlotEngine) : bool :=
  is_running e && (active_count e <? max_active_slots (config e)).

(** The sanity check: [Some reason] when the tables contradict each other. *)
Definition entry_consistent (r : Runtime) (s : SlotEntry) : bool :=
  let c := s_ctx s in
  negb (negb (dma_desc_count r =? 0) && (dma_desc_count r <=? c_slot c)) &&
  (c_slot c =? r_slot (s_req s)) && (next_submit_sector c <=? total_sectors c) &&
  (completed_cmds c <=? submitted_cmds c) &&
  (submitted_cmds c =? u32 (completed_cmds c + failed_cmds c + inflight_cmds c)).

Definition owner_of (l : list SlotEntry) (p : NvmePendingCmd) : option nat :=
  fst <$> find_if (λ s, s_active s && (c_slot (s_ctx s) =? p_slot p)) l.

Fixpoint pending_consistent (seen : gset Z) (l : list SlotEntry) (before pend : list NvmePendingCmd) :
    bool :=
  match pend with
  | [] => true
  | p :: pend =>
      (negb (p_valid p) ||
       (negb (bool_decide (p_cid p ∈ seen)) &&
        negb (existsb (λ q, p_valid q && (p_cid q =? p_cid p)) before) &&
        match owner_of l p with Some _ => true | None => false end)) &&
      pending_consistent seen l (before ++ [p]) pend
  end.

Definition pending_of (l : list SlotEntry) (pend : list NvmePendingCmd) (j : nat) : Z :=
  Z.of_nat (length (filter (λ p, p_valid p = true ∧ owner_of l p = Some j) pend)).

Fixpoint inflight_consistent (l pend_slots : list SlotEntry) (pend : list NvmePendingCmd)
    (j : nat) : bool :=
  match pend_slots with
  | [] => true
  | s :: rest =>
      (negb (s_active s) || (pending_of l pend j =? inflight_cmds (s_ctx s))) &&
      inflight_consistent l rest pend (S j)
  end.

Definition actives (l : list SlotEntry) : list SlotEntry := filter (λ s, s_active s = true) l.
Definition valids (l : list NvmePendingCmd) : list NvmePendingCmd := filter (λ p, p_valid p = true) l.
Definition inflight_sum (l : list SlotEntry) : Z :=
  u32 (foldr (λ s n, inflight_cmds (s_ctx s) + n) 0 (actives l)).

Definition validate_reason (e : NvmeCrossSlotEngine) : option string :=
  let active := Z.of_nat (length (actives (slots e))) in
  let npending := Z.of_nat (length (valids (pending e))) in
  if negb (forallb (entry_consistent (rt e)) (actives (slots e)))
  then Some "context_count_invariant_failed"%string
  else if negb (active =? active_count e) || (max_active_slots (config e) <? active)
  then Some "context_count_invariant_failed"%string
  else if negb (pending_consistent (completed_cid_seen e) (slots e) [] (pending e))
  then Some "pending_cid_state_inconsistent"%string
  else if negb (inflight_consistent (slots e) (slots e) (pending e) 0)
  then Some "pending_cid_state_inconsistent"%string
  else if negb (npending =? global_inflight e) || negb (inflight_sum (slots e) =? global_inflight e)
  then Some "submitted_completed_inflight_invariant_failed"%string
  else None.

Definition cross_slot_validate (e : NvmeCrossSlotEngine) : Z * NvmeCrossSlotEngine :=
  match validate_reason e with
  | Some reason => (-1, cross_slot_fail reason e)
  | None => (0, e)
  end.

(** ** Operations

    The engine is threaded with the world.  [inl] leaves the operation:
    [Returned rc] with its status, [NullCall] when it calls through a callback
    that is NULL, [OutOfFuel] when the fuel of a waiting loop is used up. *)
Inductive exit : Type := Returned (rc : Z) | NullCall | OutOfFuel.

Section Operations.
Context {W : Type} (ops : NvmeCrossSlotOps W).
(** The slot callback ([None]: NULL), and what the producer thread asked for
    since the last look at the state: an abort with its reason, or nothing. *)
Context (done_cb : option (NvmeWriteSlotReq → Eff W Z)) (concurrent_abort : Eff W (option string)).

Definition M (A : Type) : Type := Eff (NvmeCrossSlotEngine * W) A.
Definition get : M NvmeCrossSlotEngine := λ '(e, w), (e, (e, w)).
Definition modify (f : NvmeCrossSlotEngine → NvmeCrossSlotEngine) : M unit :=
  λ '(e, w), (tt, (f e, w)).
Definition run {A} (f : NvmeCrossSlotEngine → A * NvmeCrossSlotEngine) : M A :=
  λ '(e, w), let '(a, e) := f e in (a, (e, w)).
Definition io {A} (m : Eff W A) : M A := λ '(e, w), let '(a, w) := m w in (a, (e, w)).
Definition return_ {A} (rc : Z) : M (exit + A) := eret (inl (Returned rc)).

(** [return cross_slot_fail(...)]. *)
Definition fail_with {A} (reason : string) : M (exit + A) :=
  let! _ := modify (cross_slot_fail reason) in return_ (-1).

Definition yield_ : M unit := match yield_cpu ops with Some y => io y | None => eret tt end.

(** A look at the atomic state. *)
Definition load_running : M bool :=
  let! a := io concurrent_abort in
  let! _ := modify (match a with Some reason => nvme_cross_slot_engine_request_abort reason
                               | None => λ e, e end) in
  let! e := get in eret (is_running e).

Definition put_pending (k : nat) (p : NvmePendingCmd) (e : NvmeCrossSlotEngine) : NvmeCrossSlotEngine :=
  e <| pending ::= <[k := p]> |>.
Definition put_slot (i : nat) (s : SlotEntry) (e : NvmeCrossSlotEngine) : NvmeCrossSlotEngine :=
  e <| slots ::= <[i := s]> |>.

(** A failed command and a completed one. *)
Definition retire (k : nat) (p : NvmePendingCmd) (j : nat) (s : SlotEntry) (error : bool)
    (e : NvmeCrossSlotEngine) : NvmeCrossSlotEngine :=
  let s := s <| s_ctx ::= λ c,
             let c := c <| inflight_cmds ::= λ n, u32 (n - 1) |> in
             if error then c <| failed_cmds ::= λ n, u32 (n + 1) |>
             else c <| completed_cmds ::= λ n, u32 (n + 1) |> |> in
  let e := put_slot j s (put_pending k (p <| p_valid := false |>) e) in
  let e := e <| completed_cid_seen ::= λ seen, {[p_cid p]} ∪ seen |>
             <| global_inflight ::= λ n, u32 (n - 1) |> in
  e <| rt ::= nvme_record_active_qd_event (global_inflight e) |>.

Definition cross_slot_handle_completion (cpl : NvmeCompletion) : M Z :=
  let! e := get in
  match nvme_find_pending_by_cid (pending e) (cpl_cid cpl) with
  | None =>
      let duplicate := bool_decide (cpl_cid cpl ∈ completed_cid_seen e) in
      let! _ := modify (cross_slot_fail_code
        (if duplicate then STORAGE_ERR_DUPLICATE_CID else STORAGE_ERR_UNKNOWN_CID)
        (if duplicate then "duplicate_completion_cid" else "unknown_completion_cid")) in
      eret (-1)
  | Some (k, p) =>
    match nvme_find_slot_context (slots e) (p_slot p) with
    | Some (j, s) =>
      if (inflight_cmds (s_ctx s) =? 0) || (global_inflight e =? 0)
      then let! _ := modify (cross_slot_fail "pending_cid_state_inconsistent") in eret (-1)
      else
        let! completion_us := (if nvme_diag_timing (rt e) then io (monotonic_us ops) else eret 0) in
        if cpl_error cpl then
          let! _ := modify (retire k p j s true) in
          let! _ := modify (cross_slot_fail "completion_status_error") in eret (-1)
        else
          let! _ := modify (λ e, e <| rt ::= nvme_record_write_completion p completion_us |>) in
          let! _ := modify (retire k p j s false) in
          run cross_slot_validate
    | None => let! _ := modify (cross_slot_fail "pending_cid_state_inconsistent") in eret (-1)
    end
  end.

(** A completion that was polled, handled and timed. *)
Definition process_completion (cpl : NvmeCompletion) (process_start_us : Z) : M (exit + unit) :=
  let! rc := cross_slot_handle_completion cpl in
  if negb (rc =? 0) then return_ (-1) else
  let! _ := modify (λ e, e <| stats ::= λ s, s <| completion_process_count ::= λ n, u64 (n + 1) |> |>) in
  let! e := get in
  if nvme_diag_timing (rt e) then
    let! t := io (monotonic_us ops) in
    let! _ := modify (λ e, e <| stats ::= λ s, s <| completion_process_max_us ::= λ m,
      cross_slot_update_max m (u64 (t - process_start_us)) |> |>) in xret tt
  else xret tt.

(** Completion queue first: at most [n] completions; whether one was handled. *)
Fixpoint poll_cq (n : nat) (progress : bool) : M (exit + bool) :=
  match n with
  | O => xret progress
  | S n =>
      let! e := get in
      if negb (0 <? global_inflight e) then xret progress else
      let! (prc, cpl) := io (poll_completion ops) in
      let! poll_end_us := io (monotonic_us ops) in
      if prc <? 0 then fail_with "completion_poll_failed"
      else if prc =? 0 then
        let! _ := modify (cross_slot_record_cq_empty poll_end_us) in xret progress
      else
        let! _ := modify (cross_slot_clear_cq_empty poll_end_us) in
        let? _ := process_completion cpl poll_end_us in
        poll_cq n true
  end.

(** A context all of whose commands have been submitted and have ended. *)
Definition drained (s : SlotEntry) : bool :=
  let c := s_ctx s in
  s_active s && (next_submit_sector c =? total_sectors c) &&
  (completed_cmds c =? submitted_cmds c) && (inflight_cmds c =? 0).

Definition release (i : nat) (e : NvmeCrossSlotEngine) : NvmeCrossSlotEngine :=
  put_slot i idle_entry e <| active_count ::= λ n, u32 (n - 1) |>.

(** The slots at the given indices that are drained go to the callback. *)
Fixpoint finish_slots (idx : list nat) (progress : bool) : M (exit + bool) :=
  match idx with
  | [] => xret progress
  | i :: idx =>
      let! e := get in
      match slots e !! i with
      | None => finish_slots idx progress
      | Some s =>
        if negb (drained s) then finish_slots idx progress
        else if negb (failed_cmds (s_ctx s) =? 0) then fail_with "completion_status_error"
        else
          let! crc := match done_cb with Some f => io (f (s_req s)) | None => eret 0 end in
          if negb (crc =? 0) then fail_with "slot_callback_failed"
          else let! _ := modify (release i) in finish_slots idx true
      end
  end.

(** The next command of a context. *)
Definition next_command (command_limit cid : Z) (c : NvmeSlotWriteContext) : NvmePendingCmd :=
  let remaining := u64 (total_sectors c - next_submit_sector c) in
  let sectors := u32 (if command_limit <? remaining then command_limit else remaining) in
  let slot_offset := u64 (next_submit_sector c * NVME_SECTOR_BYTES) in
  let bytes := u32 (sectors * NVME_SECTOR_BYTES) in
  let payload_remaining := if slot_offset <? total_bytes c then total_bytes c - slot_offset else 0 in
  mkPending true cid (c_slot c) slot_offset (u64 (base_lba c + next_submit_sector c))
    (u64 (base_ddr_addr c + slot_offset)) sectors bytes
    (u32 (if bytes <? payload_remaining then bytes else payload_remaining)) 0.

(** The command now belongs to the hardware. *)
Definition account_submitted (i : nat) (p : NvmePendingCmd) (e : NvmeCrossSlotEngine) :
    NvmeCrossSlotEngine :=
  let e := e <| completed_cid_seen ::= λ seen, seen ∖ {[p_cid p]} |>
             <| slots ::= alter (λ s, s <| s_ctx ::= λ c,
                  c <| next_submit_sector ::= λ n, u64 (n + p_sectors p) |>
                    <| submitted_cmds ::= λ n, u32 (n + 1) |>
                    <| inflight_cmds ::= λ n, u32 (n + 1) |> |>) i |>
             <| global_inflight ::= λ n, u32 (n + 1) |> in
  e <| rt ::= nvme_record_active_qd_event (global_inflight e) |>.

Definition record_sq_full (submit_end_us : Z) (e : NvmeCrossSlotEngine) : NvmeCrossSlotEngine :=
  let e := if sq_full_start_us e =? 0 then
             e <| sq_full_start_us := submit_end_us |>
               <| stats ::= λ s, s <| sq_full_wait_count ::= λ n, u64 (n + 1) |> |>
           else e in
  e <| stats ::= λ s, s <| sq_full_wait_max_us ::= λ m,
         cross_slot_update_max m (u64 (submit_end_us - sq_full_start_us e)) |> |>.
Definition clear_sq_full (submit_end_us : Z) (e : NvmeCrossSlotEngine) : NvmeCrossSlotEngine :=
  if negb (sq_full_start_us e =? 0) then
    e <| stats ::= λ s, s <| sq_full_wait_max_us ::= λ m,
           cross_slot_update_max m (u64 (submit_end_us - sq_full_start_us e)) |> |>
      <| sq_full_start_us := 0 |>
  else e.

(** The call of [submit] with its timing: the status and the end time. *)
Definition timed_submit (p : NvmePendingCmd) : M (Z * Z) :=
  let! e := get in
  let diag := nvme_diag_timing (rt e) in
  let! submit_start_us := (if diag then io (monotonic_us ops) else eret 0) in
  let! src := io (submit ops (p_cid p) (p_lba p) (p_sectors p) (p_ddr_addr p)) in
  let! submit_end_us := (if diag then io (monotonic_us ops) else eret 0) in
  let! _ := modify (λ e, e <| stats ::= λ s, s <| submit_mmio_count ::= λ n, u64 (n + 1) |> |>) in
  let! _ := modify (λ e, if diag then
    e <| stats ::= λ s, s <| submit_mmio_max_us ::= λ m,
           cross_slot_update_max m (u64 (submit_end_us - submit_start_us)) |> |> else e) in
  let! submit_end_us :=
    (if (src =? NVME_SUBMIT_RETRY_SQ_FULL) && negb diag then io (monotonic_us ops)
     else eret submit_end_us) in
  eret (src, submit_end_us).

(** Refill: every iteration that goes on adds one command in flight, so
    [target_qd] iterations are enough for [while (global_inflight < qd)]. *)
Fixpoint refill (n : nat) (progress : bool) : M (exit + bool) :=
  match n with
  | O => xret progress
  | S n =>
    let! e := get in
    if negb (global_inflight e <? target_qd (config e)) then xret progress else
    let! running := load_running in
    if negb running then return_ (-1) else
    let! e := get in
    match nvme_find_next_submit_context (slots e) (rr_index e) with
    | None => xret progress
    | Some (index, rr) =>
      let! _ := modify (λ e, e <| rr_index := rr |>) in
      match nvme_find_free_pending (pending e), slots e !! index with
      | Some (k, _), Some s =>
        let! cid := run (λ e, let '(cid, r) := nvme_alloc_cid (rt e) (pending e) in
                              (cid, e <| rt := r |>)) in
        match cid with
        | None => fail_with "pending_cid_state_inconsistent"
        | Some cid =>
          let limit := if nvme_cmd_sectors (rt e) =? 0 then 512 else nvme_cmd_sectors (rt e) in
          let p := next_command limit cid (s_ctx s) in
          let! _ := modify (put_pending k p) in
          let! (src, submit_end_us) := timed_submit p in
          if src =? NVME_SUBMIT_RETRY_SQ_FULL then
            let! _ := modify (record_sq_full submit_end_us) in
            let! _ := modify (put_pending k (p <| p_valid := false |>)) in
            xret progress
          else
            let! _ := modify (clear_sq_full submit_end_us) in
            if src =? NVME_SUBMIT_ACCEPTANCE_UNKNOWN then
              let! _ := modify (account_submitted index p) in
              fail_with "submit_accept_timeout"
            else if negb (src =? NVME_SUBMIT_ACCEPTED) then
              let! _ := modify (put_pending k (p <| p_valid := false |>)) in
              fail_with (if src =? NVME_SUBMIT_STOPPED_BEFORE_DOORBELL
                         then "submit_stopped" else "submit_not_accepted")
            else
              let! _ := modify (account_submitted index p) in refill n true
        end
      | _, _ => fail_with "pending_cid_state_inconsistent"
      end
    end
  end.
(** Poll without sleeping until the deadline; whether a completion was handled. *)
Fixpoint busy_poll (fuel : nat) (busy_deadline_us : Z) : M (exit + bool) :=
  match fuel with
  | O => eret (inl OutOfFuel)
  | S fuel =>
    let! e := get in
    if negb (0 <? global_inflight e) then xret false else
    let! t := io (monotonic_us ops) in
    if negb (t <? busy_deadline_us) then xret false else
    let! (prc, cpl) := io (poll_completion ops) in
    let! poll_end_us := io (monotonic_us ops) in
    if prc <? 0 then fail_with "completion_poll_failed"
    else if prc =? 0 then
      let! _ := modify (cross_slot_record_cq_empty poll_end_us) in
      busy_poll fuel busy_deadline_us
    else
      let! _ := modify (cross_slot_clear_cq_empty poll_end_us) in
      let? _ := process_completion cpl poll_end_us in xret true
  end.

(** The last poll before sleeping. *)
Definition poll_once : M (exit + bool) :=
  let! e := get in
  if negb (0 <? global_inflight e) then xret false else
  let! (prc, cpl) := io (poll_completion ops) in
  if prc <? 0 then fail_with "completion_poll_failed"
  else if 0 <? prc then
    let! process_start_us := (if nvme_diag_timing (rt e) then io (monotonic_us ops) else eret 0) in
    let? _ := process_completion cpl process_start_us in xret true
  else
    let! t := io (monotonic_us ops) in
    let! _ := modify (cross_slot_record_cq_empty t) in xret false.

Definition sleep_ (us : Z) : M (exit + unit) :=
  if us =? 0 then xret tt else
  match sleep_us ops with
  | None => eret (inl NullCall)
  | Some f =>
      let! _ := io (f us) in
      let! _ := modify (λ e, e <| stats ::= λ s, s <| no_progress_sleep_count ::= λ n, u64 (n + 1) |> |>) in
      xret tt
  end.

Definition clear_no_progress : M unit := modify (λ e, e <| no_progress_start_us := 0 |>).

(** An iteration of [step] without progress; whether the outer loop goes on. *)
Definition no_progress (fuel : nat) (start_us effective_budget : Z) : M (exit + bool) :=
  let! now_us := io (monotonic_us ops) in
  let! e := get in
  let busy_deadline_us := u64 (now_us + busy_poll_us (config e)) in
  let! _ := modify (λ e, if no_progress_start_us e =? 0
                         then e <| no_progress_start_us := now_us |> else e) in
  let? busy_progress := busy_poll fuel busy_deadline_us in
  if (busy_progress : bool) then let! _ := clear_no_progress in xret true else
  let! _ := yield_ in
  let? polled := poll_once in
  if (polled : bool) then let! _ := clear_no_progress in xret true else
  let? _ := sleep_ (empty_sleep_us (config e)) in
  let! now_us := io (monotonic_us ops) in
  let! e := get in
  if negb (no_progress_timeout_us (config e) =? 0) &&
     (no_progress_timeout_us (config e) <=? u64 (now_us - no_progress_start_us e))
  then fail_with "no_progress_timeout"
  else xret (negb (negb (effective_budget =? 0) &&
                   (effective_budget <=? u64 (now_us - start_us)))).

(** One iteration of the loop of [step]; whether it goes on. *)
Definition step_iteration (fuel : nat) (start_us effective_budget : Z) : M (exit + bool) :=
  let! running := load_running in
  if negb running then return_ (-1) else
  let! rc := run cross_slot_validate in
  if negb (rc =? 0) then return_ (-1) else
  let! e := get in
  let? progress := poll_cq (Z.to_nat (cq_batch (config e))) false in
  let? progress := finish_slots (seq 0 NVME_PENDING_CAPACITY) progress in
  let? progress := refill (Z.to_nat (target_qd (config e))) progress in
  if (progress : bool) then
    let! _ := clear_no_progress in
    if effective_budget =? 0 then xret true else
    let! now_us := io (monotonic_us ops) in
    if u64 (now_us - start_us) <? effective_budget then xret true
    else let! _ := yield_ in xret false
  else no_progress fuel start_us effective_budget.

Fixpoint step_loop (fuel : nat) (start_us effective_budget : Z) : M (exit + unit) :=
  match fuel with
  | O => eret (inl OutOfFuel)
  | S fuel =>
    let! e := get in
    if negb (0 <? active_count e) then xret tt else
    let? again := step_iteration fuel start_us effective_budget in
    if (again : bool) then step_loop fuel start_us effective_budget else xret tt
  end.

Definition update_qd (t : Z) : M unit :=
  modify (λ e, e <| rt ::= nvme_update_active_qd (global_inflight e) t |>).

Definition nvme_cross_slot_engine_step (fuel : nat) (budget_us : Z) : M (exit + Z) :=
  let! running := load_running in
  if negb running then return_ (-1) else
  let! e := get in
  let effective_budget := if negb (budget_us =? 0) then budget_us else writer_budget_us (config e) in
  let! start_us := io (monotonic_us ops) in
  let! _ := update_qd start_us in
  let? _ := step_loop fuel start_us effective_budget in
  let! end_us := io (monotonic_us ops) in
  let! _ := update_qd end_us in xret 0.

(** Accepting a slot. *)
Definition accept (i : nat) (req : NvmeWriteSlotReq) (e : NvmeCrossSlotEngine) : NvmeCrossSlotEngine :=
  put_slot i (mkEntry true (mkCtx (r_slot req) (r_start_lba req) (r_hw_addr req) (r_bytes req)
                              (r_sectors req) 0 0 0 0 0) req) e
    <| active_count ::= λ n, u32 (n + 1) |>.

Definition nvme_cross_slot_engine_add (req : NvmeWriteSlotReq) : M Z :=
  let fail (reason : string) : M Z := let! _ := modify (cross_slot_fail reason) in eret (-1) in
  if (r_sectors req =? 0) || (r_bytes req =? 0) then eret (-1) else
  let! running := load_running in
  if negb running then eret (-1) else
  if UINT64_MAX / NVME_SECTOR_BYTES <? r_sectors req then fail "media_byte_overflow"%string else
  let media := r_sectors req * NVME_SECTOR_BYTES in
  if (media <? r_bytes req) || (negb (r_media_bytes req =? 0) && negb (r_media_bytes req =? media))
  then fail "payload_media_mismatch"%string
  else if (UINT64_MAX - r_sectors req <? r_start_lba req) || (UINT64_MAX - media <? r_hw_addr req)
  then fail "slot_range_overflow"%string else
  let! e := get in
  if negb (nvme_max_lba (rt e) =? 0) &&
     negb (nvme_lba_range_valid (rt e) (r_start_lba req) (r_sectors req))
  then fail "slot_lba_out_of_range"%string
  else if negb (dma_desc_count (rt e) =? 0) && (dma_desc_count (rt e) <=? r_slot req)
  then fail "slot_range_overflow"%string
  else if existsb (λ s, s_active s && (r_slot (s_req s) =? r_slot req)) (slots e)
  then fail "duplicate_active_slot"%string else
  let! _ := load_running in
  let! e := get in
  if negb (nvme_cross_slot_engine_can_accept e) then eret 1 else
  match find_if (λ s, negb (s_active s)) (slots e) with
  | None => eret 1
  | Some (i, _) => let! _ := modify (accept i req) in run cross_slot_validate
  end.

Definition cross_slot_discard_contexts (e : NvmeCrossSlotEngine) : NvmeCrossSlotEngine :=
  e <| pending := replicate NVME_PENDING_CAPACITY zero_pending |>
    <| slots := replicate NVME_PENDING_CAPACITY idle_entry |>
    <| global_inflight := 0 |> <| active_count := 0 |>.

Fixpoint drain_loop (fuel : nat) (absolute_deadline_us : Z) : M (exit + unit) :=
  match fuel with
  | O => eret (inl OutOfFuel)
  | S fuel =>
    let! e := get in
    if negb (0 <? global_inflight e) then xret tt else
    let! t := io (monotonic_us ops) in
    if negb (t <? absolute_deadline_us) then xret tt else
    let! (rc, cpl) := io (poll_completion ops) in
    if rc <? 0 then xret tt else
    let! _ := (if 0 <? rc then let! _ := cross_slot_handle_completion cpl in eret tt else eret tt) in
    let! e' := get in
    if (0 <? rc) && (global_inflight e' <? global_inflight e)
    then drain_loop fuel absolute_deadline_us
    else
      let! _ := yield_ in
      let! _ := match sleep_us ops with
                | Some f => if negb (empty_sleep_us (config e') =? 0)
                            then io (f (empty_sleep_us (config e'))) else eret tt
                | None => eret tt end in
      drain_loop fuel absolute_deadline_us
  end.

Definition set_state (s : NvmeCrossSlotState) : M unit := modify (λ e, e <| state := s |>).
Definition quiesce : M (exit + Z) :=
  let! _ := modify cross_slot_discard_contexts in
  let! _ := set_state NVME_CROSS_SLOT_QUIESCED in xret 0.

Definition nvme_cross_slot_engine_drain_abort (fuel : nat) (absolute_deadline_us : Z) : M (exit + Z) :=
  let! _ := modify (nvme_cross_slot_engine_request_abort "abort_requested") in
  let! e := get in
  if bool_decide (state e = NVME_CROSS_SLOT_QUIESCED) then xret 0 else
  if bool_decide (state e = NVME_CROSS_SLOT_FAILED) then xret (-1) else
  let! _ := set_state NVME_CROSS_SLOT_DRAINING_INFLIGHT in
  let? _ := drain_loop fuel absolute_deadline_us in
  let! e := get in
  if global_inflight e =? 0 then quiesce else
  let! _ := set_state NVME_CROSS_SLOT_RESETTING in
  let! rc := match reset ops with Some f => io f | None => eret (-1) end in
  if rc =? 0 then quiesce
  else let! _ := set_state NVME_CROSS_SLOT_FAILED in xret (-1).
End Operations.

(** ** Creation and queries *)

(** [None]: the creation is refused. *)
Definition nvme_cross_slot_engine_create_with_ops_config (r : Runtime) (c : NvmeCrossSlotConfig) :
    option NvmeCrossSlotEngine :=
  let capacity := Z.of_nat NVME_PENDING_CAPACITY in
  if (max_active_slots c =? 0) || (target_qd c =? 0) || (cq_batch c =? 0) ||
     (capacity <? max_active_slots c) || (capacity <? target_qd c)
  then None
  else Some (mkEngine r c (replicate NVME_PENDING_CAPACITY zero_pending)
               (replicate NVME_PENDING_CAPACITY idle_entry) 0 0 0 ∅ 0 0 0
               (mkStats 0 0 0 0 0 0 0 0 0) NVME_CROSS_SLOT_RUNNING "").

Definition slot_quiet (s : SlotEntry) : bool :=
  let c := s_ctx s in
  negb (s_active s) && (c_slot c =? NO_SLOT) && (next_submit_sector c =? 0) &&
  (total_sectors c =? 0) && (submitted_cmds c =? 0) && (completed_cmds c =? 0) &&
  (inflight_cmds c =? 0) && (failed_cmds c =? 0).
Definition nvme_cross_slot_engine_is_quiesced (e : NvmeCrossSlotEngine) : bool :=
  (global_inflight e =? 0) && (active_count e =? 0) &&
  forallb (λ p, negb (p_valid p)) (pending e) && forallb slot_quiet (slots e).

(** The engine that is left, [None] when it has been freed. *)
Definition nvme_cross_slot_engine_destroy (e : NvmeCrossSlotEngine) : option NvmeCrossSlotEngine :=
  if nvme_cross_slot_engine_is_quiesced e then None else Some e.

Definition nvme_cross_slot_engine_active (e : option NvmeCrossSlotEngine) : Z :=
  match e with Some e => active_count e | None => 0 end.
Definition nvme_cross_slot_engine_capacity (e : option NvmeCrossSlotEngine) : Z :=
  match e with Some e => max_active_slots (config e) | None => 0 end.
Definition nvme_cross_slot_engine_inflight (e : option NvmeCrossSlotEngine) : Z :=
  match e with Some e => global_inflight e | None => 0 end.
Definition nvme_cross_slot_engine_last_error (e : option NvmeCrossSlotEngine) : string :=
  match e with Some e => last_error e | None => "invalid_engine" end.
Definition nvme_cross_slot_engine_state (e : option NvmeCrossSlotEngine) : NvmeCrossSlotState :=
  match e with Some e => state e | None => NVME_CROSS_SLOT_FAILED end.
Definition nvme_cross_slot_engine_get_stats (e : option NvmeCrossSlotEngine) : NvmeCrossSlotStats :=
  match e with Some e => stats e | None => mkStats 0 0 0 0 0 0 0 0 0 end.
End ccb_hw.
