(* ===== verification/CrossSlotSpec.v ===== *)
(** * What the cross-slot engine promises: a protocol automaton

    The automaton watches the calls that cross the engine's boundary: requests
    accepted, commands submitted, completions polled, slots handed back, resets.
    It owns a ledger of the accepted requests, of the commands the hardware may
    still execute and of the commands that completed.  [R0] relates the ledger
    to the engine's tables; the lemmas say that each change of the tables
    follows a step of the automaton, and that the engine's self-check cannot
    fail while the two agree. *)
From stdpp Require Import gmap.
From S2P Require Import Prelude StorageError CrossSlot.

Module cross_slot_protocol.
Import ccb_hw.

(** A command as the hardware sees it. *)
Record Cmd : Type := mkCmd { m_lba : Z; m_sectors : Z; m_ddr : Z }.

Inductive Ev : Type :=
| EvAccept (req : NvmeWriteSlotReq)
| EvSubmit (cid : Z) (c : Cmd) (rc : Z)
| EvPoll (rc : Z) (cpl : NvmeCompletion)
| EvDone (req : NvmeWriteSlotReq) (rc : Z)
| EvReset (rc : Z)
| EvAbandon.

Record Owned : Type := mkOwned { o_cid : Z; o_slot : Z; o_cmd : Cmd }.
Record Spec : Type := mkSpec {
  accepted : list NvmeWriteSlotReq; outstanding : list Owned;
  finished : list (Z * Cmd); halted : bool }.
#[export] Instance eta_Spec : EtaOf Spec := λ s,
  mkSpec (accepted s) (outstanding s) (finished s) (halted s).
Definition spec_init : Spec := mkSpec [] [] [] false.

(** The commands follow one another, without gap or overlap, from the start of
    a range of [n] sectors to its end. *)
Fixpoint tiles (lba ddr n : Z) (cs : list Cmd) : Prop :=
  match cs with
  | [] => n = 0
  | c :: cs => m_lba c = lba ∧ m_ddr c = ddr ∧ 0 < m_sectors c ∧
      tiles (lba + m_sectors c) (ddr + NVME_SECTOR_BYTES * m_sectors c) (n - m_sectors c) cs
  end.
Definition covers (req : NvmeWriteSlotReq) (cs : list Cmd) : Prop :=
  tiles (r_start_lba req) (r_hw_addr req) (r_sectors req) cs.
(** The command writes a part of the slot to the matching part of its range. *)
Definition inside (c : Cmd) (req : NvmeWriteSlotReq) : Prop :=
  r_start_lba req <= m_lba c ∧ 0 < m_sectors c ∧
  m_lba c + m_sectors c <= r_start_lba req + r_sectors req ∧
  m_ddr c - r_hw_addr req = NVME_SECTOR_BYTES * (m_lba c - r_start_lba req).

Definition halt (s : Spec) : Spec := s <| halted := true |>.
Definition submitted (o : Owned) (rc : Z) (s : Spec) : Spec :=
  if rc =? NVME_SUBMIT_ACCEPTED then s <| outstanding ::= cons o |>
  else if rc =? NVME_SUBMIT_RETRY_SQ_FULL then s
  else if rc =? NVME_SUBMIT_ACCEPTANCE_UNKNOWN then halt (s <| outstanding ::= cons o |>)
  else halt s.
Definition completed (cpl : NvmeCompletion) (s : Spec) : Spec :=
  match filter (λ o, o_cid o = cpl_cid cpl) (outstanding s) with
  | [] => halt s
  | o :: _ =>
      let s := s <| outstanding ::= filter (λ o, o_cid o ≠ cpl_cid cpl) |> in
      if cpl_error cpl then halt s
      else s <| finished ::= cons (o_slot o, o_cmd o) |>
  end.
Definition polled (rc : Z) (cpl : NvmeCompletion) (s : Spec) : Spec :=
  if rc <? 0 then halt s else if rc =? 0 then s else completed cpl s.
Definition finished_of (slot : Z) (fin : list (Z * Cmd)) : list Cmd := snd <$> class fst slot fin.

Inductive spec_step (qd : Z) (s : Spec) : Ev → Spec → Prop :=
| sp_accept req :
    halted s = false → (∀ r, r ∈ accepted s → r_slot r ≠ r_slot req) →
    spec_step qd s (EvAccept req) (s <| accepted ::= cons req |>)
| sp_submit cid c req rc :
    halted s = false → Z.of_nat (length (outstanding s)) < qd →
    0 < cid <= UINT16_MAX → (∀ o, o ∈ outstanding s → o_cid o ≠ cid) →
    req ∈ accepted s → inside c req →
    spec_step qd s (EvSubmit cid c rc) (submitted (mkOwned cid (r_slot req) c) rc s)
| sp_poll rc cpl : spec_step qd s (EvPoll rc cpl) (polled rc cpl s)
| sp_done req cs rc :
    halted s = false → req ∈ accepted s →
    (∀ o, o ∈ outstanding s → o_slot o ≠ r_slot req) →
    finished_of (r_slot req) (finished s) ≡ₚ cs → covers req cs →
    spec_step qd s (EvDone req rc)
      (if rc =? 0 then s <| accepted ::= filter (λ r, r ≠ req) |>
                         <| finished ::= filter (λ f, f.1 ≠ r_slot req) |>
       else halt s)
| sp_reset rc :
    outstanding s ≠ [] →
    spec_step qd s (EvReset rc) (halt (if rc =? 0 then s <| outstanding := [] |> else s))
| sp_abandon :
    outstanding s = [] →
    spec_step qd s EvAbandon (halt (s <| accepted := [] |> <| finished := [] |>)).

Inductive run (qd : Z) : list Ev → Spec → Prop :=
| run_nil : run qd [] spec_init
| run_snoc l s ev s' : run qd l s → spec_step qd s ev s' → run qd (l ++ [ev]) s'.

(** ** The relation between the tables and the ledger *)
Definition cmd_of (p : NvmePendingCmd) : Cmd := mkCmd (p_lba p) (p_sectors p) (p_ddr_addr p).
Definition owned_of (p : NvmePendingCmd) : Owned := mkOwned (p_cid p) (p_slot p) (cmd_of p).
Definition slot_of (s : SlotEntry) : Z := c_slot (s_ctx s).

(** A request that the engine's client may pass, and that [add] lets through. *)
Record client_ok (req : NvmeWriteSlotReq) : Prop := {
  ck_slot : 0 <= r_slot req < UINT32_MAX;
  ck_sectors : 0 <= r_sectors req <= UINT32_MAX;
  ck_lba : is_u64 (r_start_lba req);
  ck_addr : is_u64 (r_hw_addr req);
  ck_bytes : is_u64 (r_bytes req) }.
Record req_ok (dma : Z) (req : NvmeWriteSlotReq) : Prop := {
  ro_client : client_ok req;
  ro_sectors : r_sectors req ≠ 0;
  ro_lba : r_start_lba req + r_sectors req <= UINT64_MAX;
  ro_addr : r_hw_addr req + r_sectors req * NVME_SECTOR_BYTES <= UINT64_MAX;
  ro_dma : dma ≠ 0 → r_slot req < dma }.

(** An active context: what was submitted tiles its range up to the next sector,
    and each of these commands has completed, failed or is pending. *)
Record entry_ok (dma : Z) (pend : list NvmePendingCmd) (fin : list (Z * Cmd)) (s : SlotEntry) :
    Prop := {
  eo_req : req_ok dma (s_req s);
  eo_slot : slot_of s = r_slot (s_req s);
  eo_lba : base_lba (s_ctx s) = r_start_lba (s_req s);
  eo_addr : base_ddr_addr (s_ctx s) = r_hw_addr (s_req s);
  eo_total : total_sectors (s_ctx s) = r_sectors (s_req s);
  eo_next : 0 <= next_submit_sector (s_ctx s) <= total_sectors (s_ctx s);
  eo_cmds : ∃ subs failed,
    tiles (r_start_lba (s_req s)) (r_hw_addr (s_req s)) (next_submit_sector (s_ctx s)) subs ∧
    subs ≡ₚ finished_of (slot_of s) fin ++ failed ++ (cmd_of <$> class p_slot (slot_of s) (valids pend)) ∧
    submitted_cmds (s_ctx s) = Z.of_nat (length subs) ∧
    completed_cmds (s_ctx s) = Z.of_nat (length (finished_of (slot_of s) fin)) ∧
    failed_cmds (s_ctx s) = Z.of_nat (length failed) ∧
    inflight_cmds (s_ctx s) = Z.of_nat (length (class p_slot (slot_of s) (valids pend))) }.

Definition internal_error (reason : string) : bool :=
  existsb (String.eqb reason)
    ["context_count_invariant_failed"; "pending_cid_state_inconsistent";
     "submitted_completed_inflight_invariant_failed"].

Record config_ok (c : NvmeCrossSlotConfig) : Prop := {
  co_slots : 0 < max_active_slots c <= Z.of_nat NVME_PENDING_CAPACITY;
  co_qd : 0 < target_qd c <= Z.of_nat NVME_PENDING_CAPACITY }.

Record R0 (e : NvmeCrossSlotEngine) (s : Spec) : Prop := {
  r0_pending : length (pending e) = NVME_PENDING_CAPACITY;
  r0_slots : length (slots e) = NVME_PENDING_CAPACITY;
  r0_config : config_ok (config e);
  r0_cid : is_u16 (next_cmd_id (rt e));
  r0_limit : is_u32 (nvme_cmd_sectors (rt e));
  r0_entry : ∀ se, se ∈ actives (slots e) →
    entry_ok (dma_desc_count (rt e)) (pending e) (finished s) se;
  r0_idle : ∀ se, se ∈ slots e → s_active se = false → se = idle_entry;
  r0_distinct : NoDup (slot_of <$> actives (slots e));
  r0_accepted : accepted s ≡ₚ s_req <$> actives (slots e);
  r0_outstanding : outstanding s ≡ₚ owned_of <$> valids (pending e);
  r0_cids : NoDup (p_cid <$> valids (pending e));
  r0_range : ∀ p, p ∈ valids (pending e) →
    0 < p_cid p <= UINT16_MAX ∧ (p_cid p ∉ completed_cid_seen e) ∧
    p_slot p ∈ slot_of <$> actives (slots e);
  r0_finished : ∀ f, f ∈ finished s → f.1 ∈ slot_of <$> actives (slots e);
  r0_active : active_count e = Z.of_nat (length (actives (slots e)));
  r0_max : active_count e <= max_active_slots (config e);
  r0_inflight : global_inflight e = Z.of_nat (length (valids (pending e)));
  r0_qd : global_inflight e <= target_qd (config e);
  r0_quiet : state e = NVME_CROSS_SLOT_QUIESCED → actives (slots e) = [] ∧ valids (pending e) = [];
  r0_error : internal_error (last_error e) = false }.

(** [R0] does not look at statistics, timers and errors that are not internal. *)
Lemma R0_frame e e' s :
  pending e' = pending e → slots e' = slots e → config e' = config e →
  active_count e' = active_count e → global_inflight e' = global_inflight e →
  completed_cid_seen e' = completed_cid_seen e →
  dma_desc_count (rt e') = dma_desc_count (rt e) →
  nvme_cmd_sectors (rt e') = nvme_cmd_sectors (rt e) →
  is_u16 (next_cmd_id (rt e')) →
  (state e' = NVME_CROSS_SLOT_QUIESCED → state e = NVME_CROSS_SLOT_QUIESCED) →
  internal_error (last_error e') = false →
  R0 e s → R0 e' s.
Proof.
  intros H1 H2 H3 H4 H5 H6 H7 H8 H9 H10 H11 [].
  constructor; rewrite ?H1, ?H2, ?H3, ?H4, ?H5, ?H6, ?H7, ?H8; auto.
Qed.

(** ** Tilings *)
Lemma tiles_nonneg lba ddr n cs : tiles lba ddr n cs → Z.of_nat (length cs) <= n.
Proof.
  revert lba ddr n; induction cs as [|c cs IH]; intros lba ddr n; simpl; [lia|].
  intros (_ & _ & Hc & Ht). apply IH in Ht. lia.
Qed.

Lemma tiles_snoc lba ddr n cs c :
  tiles lba ddr n cs → m_lba c = lba + n → m_ddr c = ddr + NVME_SECTOR_BYTES * n →
  0 < m_sectors c → tiles lba ddr (n + m_sectors c) (cs ++ [c]).
Proof.
  revert lba ddr n; induction cs as [|c' cs IH]; intros lba ddr n; simpl.
  - intros -> ???. repeat split; lia.
  - intros (? & ? & ? & Ht) Hl Hd Hc. repeat split; try done.
    replace (n + m_sectors c - m_sectors c') with ((n - m_sectors c') + m_sectors c) by lia.
    apply IH; [done|lia|unfold NVME_SECTOR_BYTES in *; lia|done].
Qed.

(** The commands of a slot, at every moment, lie in its range. *)
Lemma tiles_inside lba ddr n cs c :
  tiles lba ddr n cs → c ∈ cs → lba <= m_lba c ∧ m_lba c + m_sectors c <= lba + n.
Proof.
  revert lba ddr n; induction cs as [|c' cs IH]; intros lba ddr n; simpl; [set_solver|].
  intros (? & ? & ? & Ht) Hc. pose proof (tiles_nonneg _ _ _ _ Ht).
  apply elem_of_cons in Hc as [->|Hc]; [lia|]. specialize (IH _ _ _ Ht Hc). lia.
Qed.

Lemma actives_spec l se : se ∈ actives l ↔ s_active se = true ∧ se ∈ l.
Proof. unfold actives. by rewrite list_elem_of_filter. Qed.
Lemma valids_spec l p : p ∈ valids l ↔ p_valid p = true ∧ p ∈ l.
Proof. unfold valids. by rewrite list_elem_of_filter. Qed.

Lemma find_if_spec {A} (f : A → bool) (l : list A) i x :
  find_if f l = Some (i, x) → l !! i = Some x ∧ f x = true.
Proof. unfold find_if. rewrite list_find_Some. naive_solver. Qed.
Lemma find_if_none {A} (f : A → bool) (l : list A) :
  find_if f l = None → ∀ x, x ∈ l → f x = false.
Proof.
  unfold find_if. rewrite list_find_None, Forall_forall. intros H x Hx.
  specialize (H x Hx). by destruct (f x).
Qed.

Section relation.
Context (e : NvmeCrossSlotEngine) (s : Spec) (HR : R0 e s).
#[local] Set Default Proof Using "e s HR".

Lemma entry_bounds se :
  se ∈ actives (slots e) →
  submitted_cmds (s_ctx se) =
    completed_cmds (s_ctx se) + failed_cmds (s_ctx se) + inflight_cmds (s_ctx se) ∧
  0 <= completed_cmds (s_ctx se) ∧ 0 <= failed_cmds (s_ctx se) ∧ 0 <= inflight_cmds (s_ctx se) ∧
  submitted_cmds (s_ctx se) <= next_submit_sector (s_ctx se) ∧
  next_submit_sector (s_ctx se) <= total_sectors (s_ctx se) ∧
  total_sectors (s_ctx se) <= UINT32_MAX.
Proof.
  intros Hse. destruct (r0_entry _ _ HR _ Hse) as [Hreq _ _ _ Ht ? (subs & failed & Hti & Hp & -> & -> & -> & ->)].
  apply Permutation_length in Hp. rewrite !length_app, length_fmap in Hp.
  apply tiles_nonneg in Hti. destruct Hreq as [[]]. rewrite Ht. lia.
Qed.


Lemma actives_at j se : slots e !! j = Some se → s_active se = true → se ∈ actives (slots e).
Proof. intros Hj Ha. apply actives_spec. split; [done|]. by eapply list_elem_of_lookup_2. Qed.

(** Two active entries for one slot are one entry. *)
Lemma active_index_unique i j si sj :
  slots e !! i = Some si → slots e !! j = Some sj → s_active si = true → s_active sj = true →
  slot_of si = slot_of sj → i = j.
Proof.
  intros Hi Hj Hai Haj Heq. pose proof (r0_distinct _ _ HR) as Hnd. revert Hnd.
  rewrite <-(take_drop_middle _ _ _ Hi). unfold actives. rewrite filter_app, filter_cons_True by done.
  rewrite fmap_app, NoDup_app. intros (_ & Hd & Hr).
  apply NoDup_cons in Hr as [Hr _].
  destruct (lt_eq_lt_dec i j) as [[Hlt|]|Hlt]; [|done|]; exfalso.
  - apply Hr. rewrite Heq. apply list_elem_of_fmap_2. apply list_elem_of_filter. split; [done|].
    apply (list_elem_of_lookup_2 _ (j - S i)%nat). rewrite lookup_drop. rewrite <-Hj. f_equal. lia.
  - apply (Hd (slot_of sj)); [|rewrite <-Heq; left].
    apply list_elem_of_fmap_2. apply list_elem_of_filter. split; [done|].
    apply (list_elem_of_lookup_2 _ j). by rewrite lookup_take_lt by lia.
Qed.


Lemma owner_exists p :
  p ∈ valids (pending e) → ∃ j se, slots e !! j = Some se ∧ s_active se = true ∧
    slot_of se = p_slot p ∧ owner_of (slots e) p = Some j.
Proof.
  intros Hp. destruct (r0_range _ _ HR p Hp) as (_ & _ & Ho).
  apply list_elem_of_fmap_1 in Ho as (se & Hs & Hse). apply actives_spec in Hse as [Ha Hse].
  unfold owner_of. destruct (find_if _ _) as [[j se']|] eqn:Hf; simpl.
  - apply find_if_spec in Hf as [Hj Hf]. exists j, se'. unfold slot_of. repeat split; try done; lia.
  - pose proof (find_if_none _ _ Hf se Hse) as H. unfold slot_of in Hs. simpl in H.
    rewrite Ha in H. simpl in H. lia.
Qed.

Lemma owner_iff p j se :
  p ∈ valids (pending e) → slots e !! j = Some se → s_active se = true →
  owner_of (slots e) p = Some j ↔ p_slot p = slot_of se.
Proof.
  intros Hp Hj Ha. destruct (owner_exists p Hp) as (j' & se' & Hj' & Ha' & Hs & ->). split.
  - intros [= ->]. by simplify_eq.
  - intros Heq. f_equal. apply (active_index_unique _ _ se' se); congruence.
Qed.

Lemma pending_of_inflight j se :
  slots e !! j = Some se → s_active se = true →
  pending_of (slots e) (pending e) j = inflight_cmds (s_ctx se).
Proof.
  intros Hj Ha. destruct (r0_entry _ _ HR se (actives_at _ _ Hj Ha)) as [_ _ _ _ _ _ (? & ? & _ & _ & _ & _ & _ & ->)].
  unfold pending_of, class. do 2 f_equal.
  unfold valids. clear -HR Hj Ha.
  assert (H : ∀ p, p ∈ pending e → p ∈ pending e) by done. revert H.
  generalize (pending e) at 1 3 4. intros l. induction l as [|p l IH]; intros Hl; [done|].
  rewrite (filter_cons (λ p, p_valid p = true)), filter_cons.
  assert (Hi := IH ltac:(set_solver)). destruct (p_valid p) eqn:Hv.
  - pose proof (owner_iff p j se) as Ho. rewrite valids_spec in Ho. specialize (Ho ltac:(set_solver) Hj Ha).
    rewrite (decide_True (P := true = true)) by done. rewrite filter_cons.
    repeat case_decide; try (f_equal; done); naive_solver.
  - rewrite decide_False by naive_solver. rewrite (decide_False (P := false = true)) by done. done.
Qed.

Lemma inflight_total :
  foldr (λ se n, inflight_cmds (s_ctx se) + n) 0 (actives (slots e)) = global_inflight e.
Proof.
  rewrite (r0_inflight _ _ HR).
  rewrite <-(sum_class p_slot (slot_of <$> actives (slots e)) (valids (pending e))).
  2:{ apply HR. }
  2:{ intros p Hp. by apply (r0_range _ _ HR). }
  assert (He : ∀ se, se ∈ actives (slots e) → inflight_cmds (s_ctx se) =
     Z.of_nat (length (class p_slot (slot_of se) (valids (pending e))))).
  { intros se Hse. destruct (r0_entry _ _ HR se Hse) as [_ _ _ _ _ _ (? & ? & _ & _ & _ & _ & _ & ->)]. done. }
  revert He. generalize (actives (slots e)). intros l He. induction l as [|se l IH]; [done|].
  simpl. rewrite IH by set_solver. rewrite He by set_solver. done.
Qed.

(** ** The self-check *)
Lemma entries_consistent : forallb (entry_consistent (rt e)) (actives (slots e)) = true.
Proof.
  apply forallb_forall. intros se Hse%list_elem_of_In.
  pose proof (entry_bounds se Hse) as (Hs & ? & ? & ? & ? & ? & ?).
  destruct (r0_entry _ _ HR se Hse) as [[_ _ _ _ Hd] Hslot _ _ _ ? _]. unfold slot_of in *.
  unfold entry_consistent. rewrite u32_small by cint.
  rewrite Hslot. repeat (apply andb_true_intro; split); try lia.
Qed.

Lemma pendings_consistent before pend :
  before ++ pend = pending e →
  pending_consistent (completed_cid_seen e) (slots e) before pend = true.
Proof.
  revert before; induction pend as [|p pend IH]; intros before Heq; [done|]. simpl.
  rewrite IH by (by rewrite <-(assoc_L (++))). rewrite andb_true_r.
  destruct (p_valid p) eqn:Hv; [simpl|done].
  assert (Hp : p ∈ valids (pending e)) by (apply valids_spec; split; [done|rewrite <-Heq; apply elem_of_app; right; left]).
  destruct (r0_range _ _ HR p Hp) as (_ & Hseen & _).
  destruct (owner_exists p Hp) as (j & se & _ & _ & _ & ->).
  rewrite bool_decide_false by done. rewrite andb_true_r. simpl.
  apply negb_true_iff. apply not_true_iff_false. intros (q & Hq & Hc)%existsb_exists.
  apply list_elem_of_In in Hq. apply andb_prop in Hc as [Hqv Hc].
  pose proof (r0_cids _ _ HR) as Hnd. rewrite <-Heq in Hnd. unfold valids in Hnd.
  rewrite filter_app, fmap_app in Hnd. apply NoDup_app in Hnd as (_ & Hd & _).
  apply (Hd (p_cid q)).
  - apply list_elem_of_fmap_2, list_elem_of_filter. done.
  - replace (p_cid q) with (p_cid p) by lia.
    apply list_elem_of_fmap_2, list_elem_of_filter. split; [done|left].
Qed.

Lemma inflights_consistent l j :
  (∀ i se, l !! i = Some se → slots e !! (j + i)%nat = Some se) →
  inflight_consistent (slots e) l (pending e) j = true.
Proof.
  revert j; induction l as [|se l IH]; intros j Hl; [done|]. simpl.
  rewrite IH by (intros i se' Hi; rewrite <-(Hl (S i) se' Hi); f_equal; lia).
  rewrite andb_true_r. destruct (s_active se) eqn:Ha; [simpl|done].
  rewrite (pending_of_inflight j se) by (try done; rewrite <-(Hl 0%nat se eq_refl); f_equal; lia).
  apply Z.eqb_refl.
Qed.

Lemma R0_validate : validate_reason e = None.
Proof.
  unfold validate_reason. rewrite entries_consistent. simpl negb. cbv iota.
  pose proof (r0_active _ _ HR) as Ha. pose proof (r0_max _ _ HR) as Hm.
  replace (negb _ || _) with false by lia.
  rewrite pendings_consistent by done. rewrite inflights_consistent by done. simpl negb. cbv iota.
  pose proof (r0_inflight _ _ HR) as Hi. unfold inflight_sum. rewrite inflight_total.
  pose proof (r0_qd _ _ HR). destruct (r0_config _ _ HR) as [_ Hqd].
  rewrite u32_small by (change (Z.of_nat NVME_PENDING_CAPACITY) with 32 in Hqd; cint).
  rewrite <-Hi. by rewrite !Z.eqb_refl.
Qed.

(** ** Lookups of the tables and of the ledger *)
Lemma outstanding_cid cid :
  filter (λ o, o_cid o = cid) (outstanding s) ≡ₚ
  owned_of <$> filter (λ p, p_cid p = cid) (valids (pending e)).
Proof.
  rewrite (r0_outstanding _ _ HR). clear HR. unfold valids.
  induction (filter _ (pending e)) as [|p l IH]; [done|].
  rewrite fmap_cons, !filter_cons. simpl. case_decide; simpl; by rewrite IH.
Qed.

Lemma find_pending_some cid k p :
  nvme_find_pending_by_cid (pending e) cid = Some (k, p) →
  pending e !! k = Some p ∧ p ∈ valids (pending e) ∧ p_cid p = cid ∧
  filter (λ o, o_cid o = cid) (outstanding s) = [owned_of p].
Proof.
  intros [Hk Hf]%find_if_spec. apply andb_prop in Hf as [Hv Hc].
  assert (Hp : p ∈ valids (pending e))
    by (apply valids_spec; split; [done|by eapply list_elem_of_lookup_2]).
  repeat split; [done|done|lia|]. apply Permutation_singleton_r. rewrite outstanding_cid.
  pose proof (r0_cids _ _ HR) as Hnd. clear -Hnd Hp Hc.
  induction (valids (pending e)) as [|q l IH]; [by apply not_elem_of_nil in Hp|].
  apply NoDup_cons in Hnd as [Hq Hnd]. apply elem_of_cons in Hp as [<-|Hp].
  - rewrite filter_cons_True by lia.
    rewrite filter_none; [done|]. intros q Hql Hqc. apply Hq.
    apply list_elem_of_fmap. exists q. split; [lia|done].
  - rewrite filter_cons_False; [by apply IH|]. intros Heq. apply Hq.
    apply list_elem_of_fmap. exists p. split; [lia|done].
Qed.

Lemma find_pending_none cid :
  nvme_find_pending_by_cid (pending e) cid = None →
  filter (λ o, o_cid o = cid) (outstanding s) = [].
Proof.
  intros Hf. apply Permutation_nil_r. rewrite outstanding_cid.
  rewrite filter_none; [done|]. intros p [Hv Hp]%valids_spec Hc.
  pose proof (find_if_none _ _ Hf p Hp) as H. simpl in H. rewrite Hv in H. simpl in H. lia.
Qed.

Lemma find_context p :
  p ∈ valids (pending e) → ∃ j se, nvme_find_slot_context (slots e) (p_slot p) = Some (j, se) ∧
    slots e !! j = Some se ∧ s_active se = true ∧ slot_of se = p_slot p ∧
    0 < inflight_cmds (s_ctx se).
Proof.
  intros Hp. destruct (owner_exists p Hp) as (j & se & Hj & Ha & Hs & Ho).
  assert (Hact := actives_at _ _ Hj Ha). pose proof (r0_entry _ _ HR se Hact) as He.
  assert (Hslot : p_slot p < UINT32_MAX).
  { rewrite <-Hs, (eo_slot _ _ _ _ He). apply He. }
  destruct (nvme_find_slot_context _ _) as [[j' se']|] eqn:Hf.
  - apply find_if_spec in Hf as [Hj' Hf]. simpl in Hf. assert (Ha' : s_active se' = true).
    { destruct (s_active se') eqn:E; [done|].
      rewrite (r0_idle _ _ HR se') in Hf by (done || by eapply list_elem_of_lookup_2).
      change (c_slot (s_ctx idle_entry)) with UINT32_MAX in Hf. lia. }
    assert (j' = j) as -> by (apply (active_index_unique j' j se' se); try done; unfold slot_of in *; lia).
    simplify_eq. exists j, se. repeat split; try done.
    destruct (r0_entry _ _ HR se Hact) as [_ _ _ _ _ _ (? & ? & _ & _ & _ & _ & _ & ->)].
    assert (Hin : p ∈ class p_slot (slot_of se) (valids (pending e)))
      by (apply list_elem_of_filter; done).
    destruct (class _ _ _); [by apply not_elem_of_nil in Hin|simpl; lia].
  - pose proof (find_if_none _ _ Hf se (list_elem_of_lookup_2 _ _ _ Hj)) as H. unfold slot_of in Hs.
    simpl in H. lia.
Qed.
End relation.

(** ** Changes of the tables

    An entry that is replaced by one for the same slot and request. *)
#[export] Instance class_Permutation {A B} `{EqDecision B} (f : A → B) (b : B) :
  Proper ((≡ₚ) ==> (≡ₚ)) (class f b).
Proof. unfold class. apply filter_Permutation. Qed.

Lemma actives_same {A} (f : SlotEntry → A) l j se se' :
  l !! j = Some se → s_active se = true → s_active se' = true → f se' = f se →
  f <$> actives (<[j:=se']> l) = f <$> actives l.
Proof.
  intros Hj Ha Ha' Hf. rewrite <-(take_drop_middle _ _ _ Hj) at 2.
  rewrite insert_take_drop by (by eapply lookup_lt_Some). unfold actives.
  rewrite !filter_app, !filter_cons_True by done. rewrite !fmap_app, !fmap_cons. by rewrite Hf.
Qed.

Lemma actives_replaced l j se se' x :
  l !! j = Some se → s_active se = true → s_active se' = true →
  NoDup (slot_of <$> actives l) →
  x ∈ actives (<[j:=se']> l) → x = se' ∨ (x ∈ actives l ∧ slot_of x ≠ slot_of se).
Proof.
  intros Hj Ha Ha' Hnd. unfold actives in *.
  assert (Hl := take_drop_middle _ _ _ Hj). rewrite <-Hl in Hnd.
  rewrite insert_take_drop by (by eapply lookup_lt_Some). rewrite <-Hl at 3. clear Hl. revert Hnd.
  rewrite !filter_app, !filter_cons_True by done. rewrite fmap_app, fmap_cons.
  intros (_ & Hd & [Hn _]%NoDup_cons)%NoDup_app Hx.
  apply elem_of_app in Hx as [Hx|Hx%elem_of_cons].
  - right. split; [set_solver|]. intros Heq.
    apply (Hd (slot_of x)); [by apply list_elem_of_fmap_2|rewrite Heq; left].
  - destruct Hx as [->|Hx]; [by left|right]. split; [set_solver|]. intros Heq.
    apply Hn. rewrite <-Heq. by apply list_elem_of_fmap_2.
Qed.

(** Entries of other slots do not notice. *)
Lemma entry_ok_frame dma pend pend' fin fin' se :
  class p_slot (slot_of se) (valids pend') ≡ₚ class p_slot (slot_of se) (valids pend) →
  finished_of (slot_of se) fin' = finished_of (slot_of se) fin →
  entry_ok dma pend fin se → entry_ok dma pend' fin' se.
Proof.
  intros Hp Hf [? ? ? ? ? ? (subs & failed & Ht & Hs & ? & ? & ? & Hi)].
  split; try done. exists subs, failed. rewrite Hf, Hp. done.
Qed.

Lemma finished_of_cons slot slot' c fin :
  finished_of slot ((slot', c) :: fin) =
  (if decide (slot' = slot) then [c] else []) ++ finished_of slot fin.
Proof. unfold finished_of. rewrite class_cons. simpl. by case_decide. Qed.
Lemma valids_drop pend k p p' :
  pend !! k = Some p → p_valid p = true → p_valid p' = false →
  valids pend ≡ₚ p :: valids (<[k:=p']> pend).
Proof.
  intros Hk Hv Hv'. pose proof (filter_insert_perm (λ p, p_valid p = true) pend k p p' Hk) as H.
  rewrite filter_cons_True in H by done. rewrite (filter_cons_False _ p') in H by (by rewrite Hv').
  by symmetry.
Qed.
Lemma valids_put pend k p p' :
  pend !! k = Some p → p_valid p = false → p_valid p' = true →
  valids (<[k:=p']> pend) ≡ₚ p' :: valids pend.
Proof.
  intros Hk Hv Hv'. pose proof (filter_insert_perm (λ p, p_valid p = true) pend k p p' Hk) as H.
  rewrite (filter_cons_False _ p) in H by (by rewrite Hv). by rewrite filter_cons_True in H.
Qed.

(** A completion takes its command off both sides. *)
Lemma R0_retire e s k p j se (err h : bool) :
  R0 e s → pending e !! k = Some p → p ∈ valids (pending e) →
  slots e !! j = Some se → s_active se = true → slot_of se = p_slot p →
  0 < inflight_cmds (s_ctx se) →
  R0 (retire k p j se err e)
     (mkSpec (accepted s) (filter (λ o, o_cid o ≠ p_cid p) (outstanding s))
        (if err then finished s else (p_slot p, cmd_of p) :: finished s) h).
Proof.
  intros HR Hk Hp Hj Ha Hslot Hin. assert (Hact := actives_at e s HR _ _ Hj Ha).
  assert (Hv : p_valid p = true) by (by apply valids_spec in Hp as [? _]).
  pose proof (valids_drop (pending e) k p (p <| p_valid := false |>) Hk Hv eq_refl) as Hvs.
  set (pend' := <[k:=_]> (pending e)) in *.
  assert (Hb := entry_bounds e s HR se Hact). simpl in Hb.
  pose proof (r0_inflight _ _ HR) as Hg. rewrite Hvs in Hg. simpl in Hg.
  pose proof (r0_qd _ _ HR) as Hqd. destruct (r0_config _ _ HR) as [? Hqd'].
  change (Z.of_nat NVME_PENDING_CAPACITY) with 32 in *.
  pose proof (r0_cids _ _ HR) as Hnd. rewrite Hvs in Hnd. simpl in Hnd.
  apply NoDup_cons in Hnd as [Hpc Hnd].
  unfold retire. set (se' := se <| s_ctx ::= _ |>).
  assert (Hsl' : slot_of se' = slot_of se) by by destruct err.
  assert (Hin1 : u32 (inflight_cmds (s_ctx se) - 1) = inflight_cmds (s_ctx se) - 1)
    by (apply u32_small; cint).
  constructor; simpl; try apply HR.
  - rewrite length_insert. apply HR.
  - rewrite length_insert. apply HR.
  - intros x Hx. destruct (actives_replaced (slots e) j se se' x Hj Ha Ha (r0_distinct _ _ HR) Hx)
      as [->|[Hxa Hne]].
    + destruct (r0_entry _ _ HR se Hact) as [? ? ? ? ? ? (subs & failed & Ht & Hs & H1 & H2 & H3 & H4)].
      assert (Hcls : class p_slot (slot_of se) (valids (pending e)) ≡ₚ
                     p :: class p_slot (slot_of se) (valids pend')).
      { rewrite Hvs, class_cons, decide_True by done. done. }
      rewrite Hcls in Hs, H4. simpl in Hs, H4.
      split; try done; [by rewrite Hsl'|by destruct err..|]. rewrite Hsl'. 
      exists subs, (if err then cmd_of p :: failed else failed). subst se'. destruct err; simpl; fold pend'; rewrite Hin1.
      * rewrite u32_small by cint. split_and!; try done; [|lia|lia].
        rewrite Hs. simpl. solve_Permutation.
      * rewrite finished_of_cons, decide_True by done. simpl.
        rewrite u32_small by cint. split_and!; try done; [|lia|lia].
        rewrite Hs. simpl. solve_Permutation.
    + apply (entry_ok_frame _ (pending e) _ (finished s)); [| |by apply HR].
      * rewrite Hvs, class_cons, decide_False by congruence. done.
      * destruct err; [done|]. by rewrite finished_of_cons, decide_False by congruence.
  - intros x Hx Hxa. apply list_elem_of_lookup_1 in Hx as [i Hi].
    apply list_lookup_insert_Some in Hi as [(-> & <- & _)|[_ Hi]]; [simpl in Hxa; congruence|].
    apply HR; [by eapply list_elem_of_lookup_2|done].
  - rewrite (actives_same slot_of _ _ se) by done. apply HR.
  - rewrite (actives_same s_req _ _ se) by done. apply HR.
  - rewrite (r0_outstanding _ _ HR), Hvs. simpl. rewrite filter_cons_False by naive_solver.
    rewrite filter_all; [done|]. intros o Ho. apply list_elem_of_fmap in Ho as (q & -> & Hq). simpl.
    intros Heq. apply Hpc. rewrite <-Heq. by apply list_elem_of_fmap_2.
  - done.
  - intros q Hq. destruct (r0_range _ _ HR q) as (? & ? & ?); [rewrite Hvs; by right|].
    rewrite (actives_same slot_of _ _ se) by done. split_and!; try done; [lia..|].
    apply not_elem_of_union. split; [|done]. intros Heq%elem_of_singleton.
    apply Hpc. rewrite <-Heq. by apply list_elem_of_fmap_2.
  - rewrite (actives_same slot_of _ _ se) by done. intros f Hf. destruct err; [by apply HR|].
    apply elem_of_cons in Hf as [->|Hf]; [|by apply HR]. simpl. rewrite <-Hslot.
    by apply list_elem_of_fmap_2.
  - rewrite <-(length_fmap slot_of), (actives_same slot_of _ _ se), length_fmap by done. apply HR.
  - fold pend'. rewrite u32_small by cint. lia.
  - rewrite u32_small by cint. lia.
  - intros Hq. destruct (r0_quiet _ _ HR Hq) as [Hq1 _]. rewrite Hq1 in Hact. set_solver.
Qed.

(** The command built for a context continues its tiling. *)
Lemma next_command_spec e s se limit cid :
  R0 e s → se ∈ actives (slots e) → next_submit_sector (s_ctx se) < total_sectors (s_ctx se) →
  0 < limit <= UINT32_MAX →
  let c := s_ctx se in let p := next_command limit cid c in
  p_valid p = true ∧ p_cid p = cid ∧ p_slot p = slot_of se ∧
  p_lba p = r_start_lba (s_req se) + next_submit_sector c ∧
  p_ddr_addr p = r_hw_addr (s_req se) + NVME_SECTOR_BYTES * next_submit_sector c ∧
  0 < p_sectors p <= total_sectors c - next_submit_sector c.
Proof.
  intros HR Hse Hlt Hlim. destruct (r0_entry _ _ HR se Hse) as [[[] ? ? ? ?] ? Hl Hd Ht Hn _].
  unfold next_command. simpl. rewrite Hl, Hd. unfold NVME_SECTOR_BYTES in *.
  rewrite !(u64_small (total_sectors _ - _)) by cint.
  rewrite (u64_small (_ + next_submit_sector _)) by cint.
  rewrite (u64_small (next_submit_sector _ * 512)) by cint.
  rewrite (u64_small (r_hw_addr _ + _)) by cint.
  split_and!; try done; try lia; destruct (limit <? _) eqn:E; rewrite u32_small; cint.
Qed.

(** A command handed to the hardware appears on both sides. *)
Lemma R0_submit e s k q i se limit cid h :
  R0 e s → pending e !! k = Some q → p_valid q = false → slots e !! i = Some se →
  s_active se = true → next_submit_sector (s_ctx se) < total_sectors (s_ctx se) →
  0 < limit <= UINT32_MAX → 0 < cid <= UINT16_MAX → (cid ∉ p_cid <$> valids (pending e)) →
  global_inflight e < target_qd (config e) →
  let p := next_command limit cid (s_ctx se) in
  R0 (account_submitted i p (put_pending k p e))
     (mkSpec (accepted s) (owned_of p :: outstanding s) (finished s) h).
Proof.
  intros HR Hk Hq Hi Ha Hlt Hlim Hcid Hfresh Hqd p.
  assert (Hact := actives_at e s HR _ _ Hi Ha).
  destruct (next_command_spec e s se limit cid HR Hact Hlt Hlim) as (Hv & Hc & Hs & Hl & Hd & Hsec).
  fold p in Hv, Hc, Hs, Hl, Hd, Hsec. clearbody p.
  pose proof (valids_put (pending e) k q p Hk Hq Hv) as Hvs.
  assert (Hb := entry_bounds e s HR se Hact).
  pose proof (r0_inflight _ _ HR) as Hg. destruct (r0_config _ _ HR) as [? Hqd'].
  change (Z.of_nat NVME_PENDING_CAPACITY) with 32 in *.
  unfold account_submitted, put_pending.
  set (f := λ s : SlotEntry, s <| s_ctx ::= _ |>). set (pend' := <[k:=p]> (pending e)) in *.
  set (se' := f se).
  assert (Hal : alter f i (slots e) = <[i:=se']> (slots e)).
  { apply list_eq. intros n. destruct (decide (n = i)) as [->|].
    - rewrite list_lookup_alter_eq, list_lookup_insert_eq, Hi by (by eapply lookup_lt_Some). done.
    - by rewrite list_lookup_alter_ne, list_lookup_insert_ne by done. }
  constructor; simpl; fold f; fold pend'; rewrite ?Hal; try apply HR.
  - subst pend'. rewrite length_insert. apply HR.
  - rewrite length_insert. apply HR.
  - intros x Hx. destruct (actives_replaced (slots e) i se se' x Hi Ha Ha (r0_distinct _ _ HR) Hx)
      as [->|[Hxa Hne]].
    + destruct (r0_entry _ _ HR se Hact) as [? ? ? ? Ht0 Hn (subs & failed & Ht & Hsb & H1 & H2 & H3 & H4)].
      assert (Hcls : class p_slot (slot_of se) (valids pend') ≡ₚ
                     p :: class p_slot (slot_of se) (valids (pending e))).
      { rewrite Hvs, class_cons, decide_True by done. done. }
      assert (Hnx : u64 (next_submit_sector (s_ctx se) + p_sectors p) =
                    next_submit_sector (s_ctx se) + p_sectors p) by (apply u64_small; cint).
      split; try done; [simpl; rewrite Hnx; lia|].
      exists (subs ++ [cmd_of p]), failed. simpl. rewrite Hnx.
      change (slot_of se') with (slot_of se). rewrite length_app, Hcls. simpl.
      pose proof (Permutation_length Hsb) as Hlen. rewrite !length_app, length_fmap in Hlen.
      rewrite (u32_small (submitted_cmds _ + 1)) by cint.
      rewrite (u32_small (inflight_cmds _ + 1)) by cint.
      split_and!; try done; [|rewrite Hsb; solve_Permutation|lia|lia].
      change (p_sectors p) with (m_sectors (cmd_of p)). apply tiles_snoc; [done|simpl; lia|simpl; lia|simpl; lia].
    + apply (entry_ok_frame _ (pending e) _ (finished s)); [|done|by apply HR].
      rewrite Hvs, class_cons, decide_False by congruence. done.
  - intros x Hx Hxa. apply list_elem_of_lookup_1 in Hx as [n Hn].
    apply list_lookup_insert_Some in Hn as [(-> & <- & _)|[_ Hn]]; [simpl in Hxa; congruence|].
    apply HR; [by eapply list_elem_of_lookup_2|done].
  - rewrite (actives_same slot_of _ _ se) by done. apply HR.
  - rewrite (actives_same s_req _ _ se) by done. apply HR.
  - rewrite Hvs. simpl. by rewrite (r0_outstanding _ _ HR).
  - rewrite Hvs. simpl. apply NoDup_cons. split; [by rewrite Hc|apply HR].
  - intros x Hx. rewrite Hvs in Hx. rewrite (actives_same slot_of _ _ se) by done.
    apply elem_of_cons in Hx as [->|Hx].
    + rewrite Hc, Hs. split_and!; try lia; [set_solver|by apply list_elem_of_fmap_2].
    + destruct (r0_range _ _ HR x Hx) as (? & ? & ?). split_and!; try done; try lia. set_solver.
  - rewrite (actives_same slot_of _ _ se) by done. apply HR.
  - rewrite <-(length_fmap slot_of), (actives_same slot_of _ _ se), length_fmap by done. apply HR.
  - rewrite Hvs. simpl. rewrite u32_small by cint. lia.
  - rewrite u32_small by cint. lia.
  - intros Hqu. destruct (r0_quiet _ _ HR Hqu) as [Hq1 _]. rewrite Hq1 in Hact. set_solver.
Qed.

(** The command that was built stays out of the tables when it is refused. *)
Lemma R0_refused e s k q p :
  R0 e s → pending e !! k = Some q → p_valid q = false → p_valid p = false →
  R0 (put_pending k p e) s.
Proof.
  intros HR Hk Hq Hp.
  assert (Hvs : valids (<[k:=p]> (pending e)) ≡ₚ valids (pending e)).
  { pose proof (filter_insert_perm (λ p, p_valid p = true) (pending e) k q p Hk) as H.
    rewrite (filter_cons_False _ q) in H by (by rewrite Hq).
    by rewrite (filter_cons_False _ p) in H by (by rewrite Hp). }
  constructor; simpl; rewrite ?Hvs; try apply HR.
  - rewrite length_insert. apply HR.
  - intros se Hse. apply (entry_ok_frame _ (pending e) _ (finished s)); [by rewrite Hvs|done|by apply HR].
  - intros x Hx. rewrite Hvs in Hx. by apply HR.
  - intros Hqu. destruct (r0_quiet _ _ HR Hqu) as [? Hv]. split; [done|].
    apply Permutation_nil_r. by rewrite Hvs, Hv.
Qed.

(** An inactive entry that becomes active, and the reverse. *)
Lemma actives_put l i se se' :
  l !! i = Some se → s_active se = false → s_active se' = true →
  actives (<[i:=se']> l) ≡ₚ se' :: actives l.
Proof.
  intros Hi Ha Ha'. pose proof (filter_insert_perm (λ s, s_active s = true) l i se se' Hi) as H.
  rewrite (filter_cons_False _ se) in H by (by rewrite Ha). by rewrite filter_cons_True in H.
Qed.
Lemma actives_drop l i se se' :
  l !! i = Some se → s_active se = true → s_active se' = false →
  actives l ≡ₚ se :: actives (<[i:=se']> l).
Proof.
  intros Hi Ha Ha'. pose proof (filter_insert_perm (λ s, s_active s = true) l i se se' Hi) as H.
  rewrite filter_cons_True in H by done. rewrite (filter_cons_False _ se') in H by (by rewrite Ha').
  by symmetry.
Qed.

(** A drained slot without failures has all of its sectors completed. *)
Lemma drained_covers e s se :
  R0 e s → se ∈ actives (slots e) → drained se = true → failed_cmds (s_ctx se) = 0 →
  (∀ o, o ∈ outstanding s → o_slot o ≠ slot_of se) ∧
  ∃ cs, finished_of (slot_of se) (finished s) ≡ₚ cs ∧ covers (s_req se) cs.
Proof.
  intros HR Hse Hd Hf. unfold drained in Hd.
  destruct (r0_entry _ _ HR se Hse) as [_ _ _ _ Ht _ (subs & failed & Hti & Hs & H1 & H2 & H3 & H4)].
  assert (Hnil : class p_slot (slot_of se) (valids (pending e)) = []) by (apply length_zero_iff_nil; lia).
  assert (Hfail : failed = []) by (apply length_zero_iff_nil; lia).
  rewrite Hfail, Hnil in Hs. simpl in Hs. rewrite app_nil_r in Hs. split.
  - intros o Ho. rewrite (r0_outstanding _ _ HR) in Ho.
    apply list_elem_of_fmap in Ho as (p & -> & Hp). simpl. intros Heq.
    assert (H : p ∈ class p_slot (slot_of se) (valids (pending e))) by by apply list_elem_of_filter.
    rewrite Hnil in H. by apply not_elem_of_nil in H.
  - exists subs. split; [by symmetry|]. unfold covers. rewrite <-Ht.
    replace (total_sectors (s_ctx se)) with (next_submit_sector (s_ctx se)) by lia. done.
Qed.

(** Handing a drained slot back. *)
Lemma R0_release e s i se :
  R0 e s → slots e !! i = Some se → drained se = true → failed_cmds (s_ctx se) = 0 →
  R0 (release i e)
     (s <| accepted ::= filter (λ r, r ≠ s_req se) |>
        <| finished ::= filter (λ f, f.1 ≠ r_slot (s_req se)) |>).
Proof.
  intros HR Hi Hd Hf. assert (Ha : s_active se = true) by (unfold drained in Hd; lia).
  assert (Hact := actives_at e s HR _ _ Hi Ha).
  destruct (r0_entry _ _ HR se Hact) as [_ Hsl _ _ _ _ (subs & failed & _ & _ & _ & _ & _ & H4)].
  assert (Hnil : class p_slot (slot_of se) (valids (pending e)) = [])
    by (unfold drained in Hd; apply length_zero_iff_nil; lia).
  pose proof (actives_drop (slots e) i se idle_entry Hi Ha eq_refl) as Has.
  pose proof (r0_distinct _ _ HR) as Hnd. rewrite Has in Hnd. simpl in Hnd.
  apply NoDup_cons in Hnd as [Hfresh Hnd].
  pose proof (r0_active _ _ HR) as Hn. rewrite Has in Hn. simpl in Hn.
  pose proof (r0_max _ _ HR) as Hm. destruct (r0_config _ _ HR) as [Hm' _].
  change (Z.of_nat NVME_PENDING_CAPACITY) with 32 in *.
  unfold release, put_slot. constructor; simpl; try apply HR.
  - rewrite length_insert. apply HR.
  - intros x Hx. assert (Hx' : x ∈ actives (slots e)) by (rewrite Has; by right).
    apply (entry_ok_frame _ (pending e) _ (finished s)); [done| |by apply HR].
    unfold finished_of, class. rewrite filter_filter_comm, filter_all; [done|].
    intros f [Hfx _]%list_elem_of_filter. rewrite Hfx, <-Hsl. intros Heq. apply Hfresh.
    rewrite <-Heq. by apply list_elem_of_fmap_2.
  - intros x Hx Hxa. apply list_elem_of_lookup_1 in Hx as [n Hx].
    apply list_lookup_insert_Some in Hx as [(-> & <- & _)|[_ Hx]]; [done|].
    apply HR; [by eapply list_elem_of_lookup_2|done].
  - done.
  - rewrite (r0_accepted _ _ HR), Has. simpl. rewrite filter_cons_False by naive_solver.
    rewrite filter_all; [done|]. intros r Hr Heq. apply list_elem_of_fmap in Hr as (x & -> & Hx).
    assert (Hx' : x ∈ actives (slots e)) by (rewrite Has; by right).
    apply Hfresh. rewrite Hsl, <-Heq, <-(eo_slot _ _ _ _ (r0_entry _ _ HR x Hx')).
    by apply list_elem_of_fmap_2.
  - intros p Hp. destruct (r0_range _ _ HR p Hp) as (? & ? & Ho). split_and!; try done; try lia.
    rewrite Has in Ho. apply elem_of_cons in Ho as [Ho|]; [|done]. exfalso.
    assert (H' : p ∈ class p_slot (slot_of se) (valids (pending e))) by by apply list_elem_of_filter.
    rewrite Hnil in H'. by apply not_elem_of_nil in H'.
  - intros f [Hne Hin]%list_elem_of_filter. pose proof (r0_finished _ _ HR f Hin) as Ho.
    rewrite Has in Ho. apply elem_of_cons in Ho as [Ho|]; [|done]. by rewrite Ho, Hsl in Hne.
  - rewrite u32_small by cint. lia.
  - rewrite u32_small by cint. lia.
  - intros Hqu. destruct (r0_quiet _ _ HR Hqu) as [Hq1 _]. rewrite Hq1 in Hact. set_solver.
Qed.

(** Accepting a request into a free entry. *)
Lemma R0_accept e s i se req :
  R0 e s → slots e !! i = Some se → s_active se = false →
  req_ok (dma_desc_count (rt e)) req → state e = NVME_CROSS_SLOT_RUNNING →
  (∀ x, x ∈ actives (slots e) → r_slot (s_req x) ≠ r_slot req) →
  active_count e < max_active_slots (config e) →
  R0 (accept i req e) (s <| accepted ::= cons req |>).
Proof.
  intros HR Hi Ha Hreq Hrun Hnew Hlt.
  unfold accept, put_slot. set (se' := mkEntry true _ req).
  pose proof (actives_put (slots e) i se se' Hi Ha eq_refl) as Has.
  pose proof (r0_active _ _ HR) as Hn.
  pose proof (r0_max _ _ HR) as Hm. destruct (r0_config _ _ HR) as [Hm' _].
  change (Z.of_nat NVME_PENDING_CAPACITY) with 32 in *.
  assert (Hfresh : slot_of se' ∉ slot_of <$> actives (slots e)).
  { intros (x & Heq & Hx)%list_elem_of_fmap. apply (Hnew x Hx).
    rewrite <-(eo_slot _ _ _ _ (r0_entry _ _ HR x Hx)). by rewrite <-Heq. }
  constructor; simpl; try apply HR.
  - rewrite length_insert. apply HR.
  - intros x Hx. rewrite Has in Hx. apply elem_of_cons in Hx as [->|Hx]; [|by apply HR].
    assert (Hfin : finished_of (slot_of se') (finished s) = []).
    { unfold finished_of, class. rewrite filter_none; [done|]. intros f Hf Heq.
      apply Hfresh. rewrite <-Heq. by apply (r0_finished _ _ HR). }
    assert (Hpen : class p_slot (slot_of se') (valids (pending e)) = []).
    { unfold class. apply filter_none. intros p Hp Heq.
      apply Hfresh. rewrite <-Heq. by apply (r0_range _ _ HR). }
    destruct Hreq as [[] ? ? ? ?].
    split; simpl; try done; [lia|]. exists [], []. rewrite Hfin, Hpen. done.
  - intros x Hx Hxa. apply list_elem_of_lookup_1 in Hx as [n Hx].
    apply list_lookup_insert_Some in Hx as [(-> & <- & _)|[_ Hx]]; [done|].
    apply HR; [by eapply list_elem_of_lookup_2|done].
  - rewrite Has. simpl. apply NoDup_cons. split; [done|apply HR].
  - rewrite Has. simpl. by rewrite (r0_accepted _ _ HR).
  - intros p Hp. destruct (r0_range _ _ HR p Hp) as (? & ? & Ho). split_and!; try done; try lia.
    rewrite Has. by right.
  - intros f Hf. rewrite Has. right. by apply HR.
  - rewrite Has. simpl. rewrite u32_small by cint. lia.
  - rewrite u32_small by cint. lia.
  - by rewrite Hrun.
Qed.

(** The emptied tables, at creation and after a drain. *)
Lemma R0_discard e s st h :
  R0 e s → internal_error (last_error e) = false →
  R0 ((cross_slot_discard_contexts e) <| state := st |>) (mkSpec [] [] [] h).
Proof.
  intros HR He. destruct (r0_config _ _ HR).
  assert (Hv : valids (replicate NVME_PENDING_CAPACITY zero_pending) = []) by done.
  assert (Ha : actives (replicate NVME_PENDING_CAPACITY idle_entry) = []) by done.
  constructor; simpl pending; simpl slots; rewrite ?Hv, ?Ha; try (by apply HR); try done;
    try (intros ? []%not_elem_of_nil); try (simpl; lia).
  - intros se Hse _. by apply (elem_of_replicate_inv _ NVME_PENDING_CAPACITY idle_entry).
  - by constructor.
  - by constructor.
Qed.

Lemma R0_create r c e :
  is_u16 (next_cmd_id r) → is_u32 (nvme_cmd_sectors r) →
  0 <= max_active_slots c → 0 <= target_qd c →
  nvme_cross_slot_engine_create_with_ops_config r c = Some e → R0 e spec_init.
Proof.
  intros Hr Hl Hm Hq. unfold nvme_cross_slot_engine_create_with_ops_config.
  destruct (_ || _) eqn:Hb; [done|]. intros [= <-].
  assert (Hv : valids (replicate NVME_PENDING_CAPACITY zero_pending) = []) by done.
  assert (Ha : actives (replicate NVME_PENDING_CAPACITY idle_entry) = []) by done.
  constructor; simpl pending; simpl slots; rewrite ?Hv, ?Ha; try done;
    try (intros ? []%not_elem_of_nil); try (simpl; lia).
  - split; simpl; lia.
  - intros se Hse _. by apply (elem_of_replicate_inv _ NVME_PENDING_CAPACITY idle_entry).
  - by constructor.
  - by constructor.
Qed.
End cross_slot_protocol.
