(* ===== verification/CrossSlotSafe.v ===== *)
(** * The cross-slot engine follows the protocol

    The engine of [CrossSlot] runs on a hardware table that answers what it
    likes; [trace_ops] records the calls that cross the boundary.  Each
    operation keeps the relation of [CrossSlotSpec] between the recorded log
    and the engine's tables, so every sequence of calls of the client yields a
    run of the protocol automaton. *)
From stdpp Require Import gmap.
From S2P Require Import Prelude StorageError CrossSlot CrossSlotSpec.

Module cross_slot_safety.
Import ccb_hw cross_slot_protocol.

(** ** Changes that the relation does not see *)
Definition same_tables (e e' : NvmeCrossSlotEngine) : Prop :=
  pending e' = pending e ∧ slots e' = slots e ∧ config e' = config e ∧
  active_count e' = active_count e ∧ global_inflight e' = global_inflight e ∧
  completed_cid_seen e' = completed_cid_seen e ∧
  dma_desc_count (rt e') = dma_desc_count (rt e) ∧
  nvme_cmd_sectors (rt e') = nvme_cmd_sectors (rt e) ∧
  next_cmd_id (rt e') = next_cmd_id (rt e) ∧ state e' = state e ∧ last_error e' = last_error e.

#[export] Instance same_tables_preorder : PreOrder same_tables.
Proof.
  split; [by intros e|]. unfold same_tables. intros e1 e2 e3 H1 H2.
  destruct_and!. split_and!; congruence.
Qed.

Lemma R0_same e e' s : same_tables e e' → R0 e s → R0 e' s.
Proof.
  intros Hsame HR. pose proof (r0_cid _ _ HR). pose proof (r0_error _ _ HR).
  unfold same_tables in Hsame. destruct_and!.
  apply (R0_frame e); try done; congruence.
Qed.
Lemma R0_halted e s h : R0 e s → R0 e (s <| halted := h |>).
Proof. intros HR. constructor; simpl; apply HR. Qed.

Ltac tables := unfold same_tables; simpl; repeat case_match; done.

Lemma same_record_cq t e : same_tables e (cross_slot_record_cq_empty t e).
Proof. unfold cross_slot_record_cq_empty. tables. Qed.
Lemma same_clear_cq t e : same_tables e (cross_slot_clear_cq_empty t e).
Proof. unfold cross_slot_clear_cq_empty. tables. Qed.
Lemma same_record_sq t e : same_tables e (record_sq_full t e).
Proof. unfold record_sq_full. tables. Qed.
Lemma same_clear_sq t e : same_tables e (clear_sq_full t e).
Proof. unfold clear_sq_full. tables. Qed.
Lemma same_completion p t e :
  same_tables e (e <| rt ::= nvme_record_write_completion p t |>).
Proof. unfold nvme_record_write_completion. tables. Qed.
Lemma same_qd n t e : same_tables e (e <| rt ::= nvme_update_active_qd n t |>).
Proof. unfold nvme_update_active_qd. tables. Qed.
Create HintDb same discriminated.
#[export] Hint Resolve same_record_cq same_clear_cq same_record_sq same_clear_sq same_completion
  same_qd : same.

(** ** Failing and aborting *)
Lemma set_error_frame code reason r :
  dma_desc_count (nvme_set_error code reason r) = dma_desc_count r ∧
  nvme_cmd_sectors (nvme_set_error code reason r) = nvme_cmd_sectors r ∧
  next_cmd_id (nvme_set_error code reason r) = next_cmd_id r.
Proof. unfold nvme_set_error. destruct (storage_error_record _ _ _). by case_match. Qed.

Lemma fail_tables code reason e :
  internal_error (c_snprintf_s 64 reason) = false →
  let e' := cross_slot_fail_code code reason e in
  (∀ s, R0 e s → R0 e' s) ∧ is_running e' = false ∧ config e' = config e.
Proof.
  intros Hi. unfold cross_slot_fail_code. destruct (String.eqb (last_error e) "") eqn:He.
  - pose proof (set_error_frame code reason (rt e)) as (? & ? & Hn).
    destruct (is_running _) eqn:Hr; simpl; split_and!; try done; intros s HR.
    + apply (R0_frame e); try done. simpl. rewrite Hn. apply HR.
    + apply (R0_frame e); try done. simpl. rewrite Hn. apply HR.
  - destruct (is_running _) eqn:Hr; simpl; split_and!; try done. intros s HR.
    apply (R0_frame e); try done; apply HR.
Qed.

Lemma abort_tables reason e :
  internal_error (c_snprintf_s 64 reason) = false →
  let e' := nvme_cross_slot_engine_request_abort reason e in
  (∀ s, R0 e s → R0 e' s) ∧ is_running e' = false ∧ config e' = config e ∧
  (state e ≠ NVME_CROSS_SLOT_QUIESCED → state e' ≠ NVME_CROSS_SLOT_QUIESCED).
Proof.
  intros Hi. unfold nvme_cross_slot_engine_request_abort.
  destruct (bool_decide (state e = NVME_CROSS_SLOT_QUIESCED)) eqn:Hq; simpl.
  { apply bool_decide_eq_true in Hq. unfold is_running. by rewrite Hq. }
  destruct (bool_decide (state e = NVME_CROSS_SLOT_FAILED)) eqn:Hf; simpl.
  { apply bool_decide_eq_true in Hf. unfold is_running. by rewrite Hf. }
  set (text := c_snprintf_s 64 _).
  assert (Ht : internal_error text = false) by (subst text; by destruct (String.eqb reason "")).
  clearbody text. destruct (String.eqb (last_error e) "") eqn:He.
  - pose proof (set_error_frame STORAGE_ERR_INTERNAL text (rt e)) as (? & ? & Hn).
    destruct (is_running _) eqn:Hr; simpl; split_and!; try done; intros s HR;
      (apply (R0_frame e); try done; simpl; unfold nvme_set_last_error; rewrite Hn; apply HR).
  - destruct (is_running _) eqn:Hr; simpl; split_and!; try done. intros s HR.
    apply (R0_frame e); try done; apply HR.
Qed.

(** ** Allocating an identifier and the other searches *)
Lemma alloc_cid_loop_spec n next pend :
  is_u16 next →
  let '(r, next') := alloc_cid_loop n next pend in
  is_u16 next' ∧
  match r with
  | Some cid => 0 < cid <= UINT16_MAX ∧ (cid ∉ p_cid <$> valids pend)
  | None => ∀ i, 0 <= i < Z.of_nat n → u16 (next + i) ∈ 0 :: (p_cid <$> valids pend)
  end.
Proof.
  revert next; induction n as [|n IH]; intros next Hn; [split; [done|lia]|].
  change (alloc_cid_loop (S n) next pend) with
    (if next =? 0 then alloc_cid_loop n (u16 (next + 1)) pend
     else if existsb (λ p, p_valid p && (p_cid p =? next)) pend
     then alloc_cid_loop n (u16 (next + 1)) pend
     else (Some next, u16 (next + 1))).
  assert (Hrec : next ∈ 0 :: (p_cid <$> valids pend) →
    let '(r, next') := alloc_cid_loop n (u16 (next + 1)) pend in
    is_u16 next' ∧
    match r with
    | Some cid => 0 < cid <= UINT16_MAX ∧ (cid ∉ p_cid <$> valids pend)
    | None => ∀ i, 0 <= i < Z.of_nat (S n) → u16 (next + i) ∈ 0 :: (p_cid <$> valids pend)
    end).
  { intros Hin. specialize (IH (u16 (next + 1)) (u16_range _)).
    destruct (alloc_cid_loop n (u16 (next + 1)) pend) as [[cid|] next']; [done|].
    destruct IH as [? IH]. split; [done|]. intros i Hi.
    destruct (decide (i = 0)) as [->|]; [by rewrite Z.add_0_r, u16_small|].
    replace (next + i) with (next + 1 + (i - 1)) by lia. unfold u16, uwrap in *.
    rewrite <-Zplus_mod_idemp_l. apply IH. lia. }
  destruct (next =? 0) eqn:E; [apply Hrec, elem_of_cons; left; lia|].
  destruct (existsb _ _) eqn:Hex.
  - apply Hrec. right. apply existsb_exists in Hex as (p & Hp%list_elem_of_In & [Hv Hc]%andb_prop).
    replace next with (p_cid p) by lia. apply list_elem_of_fmap_2. by apply valids_spec.
  - split; [apply u16_range|]. split; [cint|]. intros (p & Heq & Hp)%list_elem_of_fmap.
    apply valids_spec in Hp as [Hv Hp]. apply not_true_iff_false in Hex. apply Hex.
    apply existsb_exists. exists p. split; [by apply list_elem_of_In|]. rewrite Hv. simpl. lia.
Qed.

Lemma u16_distinct next n :
  is_u16 next → Z.of_nat n <= 65536 → NoDup ((λ i, u16 (next + Z.of_nat i)) <$> seq 0 n).
Proof.
  intros Hn Hle. apply NoDup_fmap_2_strong; [|apply NoDup_seq].
  intros i j Hi%elem_of_seq Hj%elem_of_seq Heq.
  apply Nat2Z.inj. apply (ring_index_inj 65536 next); [lia|lia|lia|exact Heq].
Qed.

(** With at most 32 commands in flight an identifier is always found. *)
Lemma alloc_cid_found r pend :
  is_u16 (next_cmd_id r) → (length (valids pend) <= 32)%nat →
  ∃ cid next, nvme_alloc_cid r pend = (Some cid, r <| next_cmd_id := next |>) ∧
    0 < cid <= UINT16_MAX ∧ (cid ∉ p_cid <$> valids pend) ∧ is_u16 next.
Proof.
  intros Hn Hlen. unfold nvme_alloc_cid.
  assert (Hle : Z.of_nat (Z.to_nat UINT16_MAX) <= 65536) by cint.
  assert (Hge : (64 <= Z.to_nat UINT16_MAX)%nat) by cint.
  revert Hle Hge. generalize (Z.to_nat UINT16_MAX). intros n Hle Hge.
  pose proof (alloc_cid_loop_spec n (next_cmd_id r) pend Hn) as H.
  destruct (alloc_cid_loop n (next_cmd_id r) pend) as [[cid|] next'].
  - exists cid, next'. naive_solver.
  - exfalso. destruct H as [_ H].
    assert (Hsub : (λ i, u16 (next_cmd_id r + Z.of_nat i)) <$> seq 0 n ⊆+ 0 :: (p_cid <$> valids pend)).
    { apply NoDup_submseteq; [by apply u16_distinct|].
      intros x (i & -> & Hi%elem_of_seq)%list_elem_of_fmap. apply H. lia. }
    apply submseteq_length in Hsub. rewrite length_fmap, length_seq in Hsub. simpl in Hsub.
    rewrite length_fmap in Hsub. lia.
Qed.

Lemma free_pending_found pend :
  (length (valids pend) < length pend)%nat →
  ∃ k q, nvme_find_free_pending pend = Some (k, q) ∧ pend !! k = Some q ∧ p_valid q = false.
Proof.
  intros Hlt. unfold nvme_find_free_pending. destruct (find_if _ _) as [[k q]|] eqn:Hf.
  - apply find_if_spec in Hf as [? ?]. exists k, q. split_and!; try done. by destruct (p_valid q).
  - pose proof (find_if_none _ _ Hf) as Hall. unfold valids in Hlt.
    rewrite filter_all in Hlt; [lia|]. intros x Hx. specialize (Hall x Hx). simpl in Hall.
    by destruct (p_valid x).
Qed.

Lemma next_submit_found l rr i rr' :
  nvme_find_next_submit_context l rr = Some (i, rr') →
  ∃ se, l !! i = Some se ∧ s_active se = true ∧
    next_submit_sector (s_ctx se) < total_sectors (s_ctx se).
Proof.
  unfold nvme_find_next_submit_context.
  destruct (next_submit_loop _ _ _ _) as [j|] eqn:Hj; [|done]. intros [= <- _].
  revert Hj. generalize 0 at 1. generalize NVME_PENDING_CAPACITY at 1.
  intros n. induction n as [|n IH]; intros a; simpl; [done|].
  destruct (l !! Z.to_nat _) as [se|] eqn:Hse; [|apply IH].
  destruct (submit_candidate se) eqn:Hc; [|apply IH]. intros [= <-].
  exists se. unfold submit_candidate in Hc. split_and!; [done|lia..].
Qed.

(** ** The self-check and the quiesced tables *)
Lemma validate_ok e s : R0 e s → cross_slot_validate e = (0, e).
Proof. intros HR. unfold cross_slot_validate. by rewrite (R0_validate e s HR). Qed.

Lemma quiesced_tables e s :
  R0 e s → actives (slots e) = [] → valids (pending e) = [] →
  nvme_cross_slot_engine_is_quiesced e = true.
Proof.
  intros HR Ha Hv. unfold nvme_cross_slot_engine_is_quiesced.
  rewrite (r0_inflight _ _ HR), (r0_active _ _ HR), Ha, Hv. simpl.
  apply andb_true_intro. split; apply forallb_forall; intros x Hx%list_elem_of_In.
  - destruct (p_valid x) eqn:E; [|done]. exfalso.
    assert (H : x ∈ valids (pending e)) by by apply valids_spec. rewrite Hv in H. set_solver.
  - destruct (s_active x) eqn:E.
    + exfalso. assert (H : x ∈ actives (slots e)) by by apply actives_spec. rewrite Ha in H. set_solver.
    + by rewrite (r0_idle _ _ HR x Hx E).
Qed.

Lemma quiesced_nothing_owned e s :
  R0 e s → nvme_cross_slot_engine_is_quiesced e = true →
  actives (slots e) = [] ∧ valids (pending e) = [] ∧ outstanding s = [].
Proof.
  intros HR Hq. unfold nvme_cross_slot_engine_is_quiesced in Hq.
  repeat apply andb_prop in Hq as [Hq ?].
  pose proof (r0_inflight _ _ HR). pose proof (r0_active _ _ HR).
  assert (Ha : actives (slots e) = []) by (apply length_zero_iff_nil; lia).
  assert (Hv : valids (pending e) = []) by (apply length_zero_iff_nil; lia).
  split_and!; try done. apply Permutation_nil_r. by rewrite (r0_outstanding _ _ HR), Hv.
Qed.

Lemma R0_empty e s h :
  R0 e s → actives (slots e) = [] → valids (pending e) = [] → R0 e (mkSpec [] [] [] h).
Proof.
  intros HR Ha Hv. constructor; try apply HR; simpl; rewrite ?Ha, ?Hv; try done;
    try (intros ? []%not_elem_of_nil).
  all: pose proof (r0_active _ _ HR) as H1; pose proof (r0_inflight _ _ HR) as H2;
    rewrite ?Ha, ?Hv in *; done.
Qed.

(** ** The recorded hardware *)
Definition Log : Type := list Ev.

Section Trace.
Context {W : Type} (hw : NvmeCrossSlotOps W) (cb : NvmeWriteSlotReq → Eff W Z)
  (ab : Eff W (option string)).

Definition silent {A} (m : Eff W A) : Eff (W * Log) A :=
  λ '(w, l), let '(a, w) := m w in (a, (w, l)).
Definition logged {A} (ev : A → Ev) (m : Eff W A) : Eff (W * Log) A :=
  λ '(w, l), let '(a, w) := m w in (a, (w, l ++ [ev a])).
Definition trace_ops : NvmeCrossSlotOps (W * Log) :=
  mkOps (λ cid lba sectors ddr,
           logged (EvSubmit cid (mkCmd lba sectors ddr)) (submit hw cid lba sectors ddr))
        (logged (λ '(rc, cpl), EvPoll rc cpl) (poll_completion hw))
        (silent (monotonic_us hw))
        (option_map (λ f us, silent (f us)) (sleep_us hw))
        (option_map silent (yield_cpu hw))
        (option_map (logged EvReset) (reset hw)).
Definition trace_cb : option (NvmeWriteSlotReq → Eff (W * Log) Z) :=
  Some (λ req, logged (EvDone req) (cb req)).

(** ** What holds between the engine and the log *)
Context (qd : Z).
Context (Hab : ∀ w reason, (ab w).1 = Some reason → internal_error (c_snprintf_s 64 reason) = false).
#[local] Set Default Proof Using "Hab hw cb".

Definition State : Type := NvmeCrossSlotEngine * (W * Log).
Record rel (e : NvmeCrossSlotEngine) (s : Spec) : Prop := {
  rel_tables : R0 e s;
  rel_qd : target_qd (config e) = qd;
  rel_halted : halted s = true → is_running e = false }.
Definition inv (st : State) : Prop := ∃ s, run qd st.2.2 s ∧ rel st.1 s.
Definition live (st : State) : Prop := ∃ s, run qd st.2.2 s ∧ rel st.1 s ∧ halted s = false.
(** An operation that returns through [exit] keeps [inv], otherwise [live]. *)
Definition safe {A} (r : exit + A) (st : State) : Prop :=
  match r with inl _ => inv st | inr _ => live st end.

Lemma live_inv st : live st → inv st.
Proof. intros (s & ? & ? & _). by exists s. Qed.
Lemma safe_inv {A} (r : exit + A) st : safe r st → inv st.
Proof. destruct r; [done|apply live_inv]. Qed.

Lemma rel_same e e' s : same_tables e e' → rel e s → rel e' s.
Proof.
  intros Hs [HR Hq Hh]. split; [by apply (R0_same e)| |]; unfold same_tables in Hs; destruct_and!.
  - congruence.
  - intros Hs. unfold is_running in *. replace (state e') with (state e) by congruence. auto.
Qed.
Lemma live_same e e' w l : same_tables e e' → live (e, (w, l)) → live (e', (w, l)).
Proof. intros Hs (s & ? & ? & ?). exists s. split_and!; try done. by apply (rel_same e). Qed.

Lemma rel_fail code reason e s :
  internal_error (c_snprintf_s 64 reason) = false → R0 e s → target_qd (config e) = qd →
  rel (cross_slot_fail_code code reason e) s.
Proof.
  intros Hi HR Hq. destruct (fail_tables code reason e Hi) as (HR' & Hrun & Hc).
  split; [by apply HR'|by rewrite Hc|done].
Qed.

(** *** Reasoning steps *)
Lemma wp_get (Q : NvmeCrossSlotEngine → State → Prop) e x : Q e (e, x) → wp get Q (e, x).
Proof. done. Qed.
Lemma wp_modify f (Q : unit → State → Prop) e x : Q tt (f e, x) → wp (modify f) Q (e, x).
Proof. done. Qed.
Lemma wp_run {A} f (Q : A → State → Prop) e x a e' :
  f e = (a, e') → Q a (e', x) → wp (ccb_hw.run f) Q (e, x).
Proof. intros Hf. unfold wp, ccb_hw.run. by rewrite Hf. Qed.
Lemma wp_time (Q : Z → State → Prop) e w l :
  (∀ t w', Q t (e, (w', l))) → wp (io (monotonic_us trace_ops)) Q (e, (w, l)).
Proof. intros H. unfold wp, io. simpl. destruct (monotonic_us hw w). apply H. Qed.
Lemma wp_maybe_time (b : bool) t0 (Q : Z → State → Prop) e w l :
  (∀ t w', Q t (e, (w', l))) →
  wp (if b then io (monotonic_us trace_ops) else eret t0) Q (e, (w, l)).
Proof. intros H. destruct b; [by apply wp_time|apply H]. Qed.
Lemma wp_poll (Q : Z * NvmeCompletion → State → Prop) e w l :
  (∀ rc cpl w', Q (rc, cpl) (e, (w', l ++ [EvPoll rc cpl]))) →
  wp (io (poll_completion trace_ops)) Q (e, (w, l)).
Proof. intros H. unfold wp, io. simpl. destruct (poll_completion hw w) as [[rc cpl] w']. apply H. Qed.
Lemma wp_submit cid lba n ddr (Q : Z → State → Prop) e w l :
  (∀ rc w', Q rc (e, (w', l ++ [EvSubmit cid (mkCmd lba n ddr) rc]))) →
  wp (io (submit trace_ops cid lba n ddr)) Q (e, (w, l)).
Proof. intros H. unfold wp, io. simpl. destruct (submit hw cid lba n ddr w). apply H. Qed.
Lemma wp_yield (Q : unit → State → Prop) e w l :
  (∀ w', Q tt (e, (w', l))) → wp (yield_ trace_ops) Q (e, (w, l)).
Proof.
  intros H. unfold wp, yield_. simpl. destruct (yield_cpu hw) as [y|]; simpl; [|apply H].
  destruct (y w) as [[] w']. apply H.
Qed.

Lemma wp_fail {A} reason (Q : exit + A → State → Prop) e x :
  Q (inl (Returned (-1))) (cross_slot_fail reason e, x) → wp (fail_with reason) Q (e, x).
Proof. done. Qed.

(** A look at the state: running means that nothing went wrong so far. *)
Definition seen_abort : Eff (W * Log) (option string) := silent ab.
Lemma load_running_spec e w l :
  inv (e, (w, l)) → wp (load_running seen_abort) 
    (λ b st, inv st ∧ b = is_running st.1 ∧ (b = true → live st ∧ st.1 = e ∧ st.2.2 = l)) (e, (w, l)).
Proof.
  intros (s & Hrun & [HR Hq Hh]). unfold load_running. apply wp_bind. unfold wp at 1, io, seen_abort.
  simpl. pose proof (Hab w) as Ha. destruct (ab w) as [[reason|] w']; simpl; (apply wp_bind, wp_modify, wp_bind, wp_get, wp_ret).
  - destruct (abort_tables reason e (Ha _ eq_refl)) as (HR' & Hr & Hc & _).
    split; [|by rewrite Hr]. exists s. split; [done|]. cbn [fst snd]. split; [by apply HR'|by rewrite Hc|done].
  - split; [by exists s|]. split; [done|]. intros Hr. split; [|done]. exists s. split_and!; try done.
    destruct (halted s); [|done]. cbn [fst] in Hh. by rewrite (Hh eq_refl) in Hr.
Qed.

(** *** Completions *)
Lemma run_poll l s rc cpl : run qd l s → run qd (l ++ [EvPoll rc cpl]) (polled rc cpl s).
Proof. intros H. eapply run_snoc; [done|constructor]. Qed.


Lemma handle_spec e s w l cpl :
  rel e s → run qd l (completed cpl s) →
  wp (cross_slot_handle_completion trace_ops cpl)
     (λ rc st, inv st ∧ (rc = 0 → halted s = false → live st)) (e, (w, l)).
Proof.
  intros [HR Hq Hh] Hrun. unfold cross_slot_handle_completion. apply wp_bind, wp_get.
  assert (Hfail : ∀ code reason e' s' w', internal_error (c_snprintf_s 64 reason) = false →
    R0 e' s' → target_qd (config e') = qd → run qd l s' →
    inv (cross_slot_fail_code code reason e', (w', l)) ∧
    (-1 = 0 → halted s = false → live (cross_slot_fail_code code reason e', (w', l)))).
  { intros code reason e' s' w' Hi HR' Hq' Hr. split; [|done]. exists s'. split; [done|].
    by apply rel_fail. }
  unfold completed in Hrun.
  destruct (nvme_find_pending_by_cid (pending e) (cpl_cid cpl)) as [[k p]|] eqn:Hf.
  - destruct (find_pending_some e s HR _ _ _ Hf) as (Hk & Hp & Hc & Ho). rewrite Ho in Hrun.
    destruct (find_context e s HR p Hp) as (j & se & Hctx & Hj & Ha & Hslot & Hin). rewrite Hctx.
    assert (Hglob : global_inflight e ≠ 0).
    { rewrite (r0_inflight _ _ HR). destruct (valids (pending e)); [set_solver|simpl; lia]. }
    replace (_ || _) with false by lia. apply wp_bind, wp_maybe_time. intros t w'.
    rewrite <-Hc in Hrun. destruct (cpl_error cpl).
    + apply wp_bind, wp_modify, wp_bind, wp_modify, wp_ret. eapply Hfail; [done| |done|exact Hrun].
      apply (R0_retire e s k p j se true true); done.
    + apply wp_bind, wp_modify, wp_bind, wp_modify. unfold wp, ccb_hw.run.
      assert (HR' : R0 (e <| rt ::= nvme_record_write_completion p t |>) s)
        by (eapply R0_same; [apply same_completion|done]).
      pose proof (R0_retire _ s k p j se false (halted s) HR' Hk Hp Hj Ha Hslot Hin) as HR2.
      rewrite (validate_ok _ _ HR2). simpl.
      assert (Hrel : rel (retire k p j se false (e <| rt ::= nvme_record_write_completion p t |>))
        (mkSpec (accepted s) (filter (λ o, o_cid o ≠ p_cid p) (outstanding s))
                ((p_slot p, cmd_of p) :: finished s) (halted s))).
      { split; [exact HR2|done|]. intros Hhs. by apply Hh. }
      split; [|intros _ Hhs]; eexists; split_and!; try exact Hrel; try exact Hrun; try done.
  - rewrite (find_pending_none e s HR _ Hf) in Hrun. apply wp_bind, wp_modify, wp_ret.
    eapply Hfail; [by destruct (bool_decide _)|by apply (R0_halted e s true)|done|exact Hrun].
Qed.

Lemma process_spec e s w l cpl t :
  rel e s → halted s = false → run qd l (completed cpl s) →
  wp (process_completion trace_ops cpl t) safe (e, (w, l)).
Proof.
  intros Hrel Hh Hrun. unfold process_completion. apply wp_bind.
  eapply wp_mono; [by apply handle_spec|]. intros rc [e' [w' l']] [Hi Hl].
  destruct (rc =? 0) eqn:E; simpl; [|done].
  specialize (Hl ltac:(lia) Hh). apply wp_bind, wp_modify, wp_bind, wp_get.
  assert (Hl' : live (e' <| stats ::= λ s, s <| completion_process_count ::= λ n, u64 (n + 1) |> |>, (w', l')))
    by (eapply live_same; [|done]; tables).
  destruct (nvme_diag_timing _); [|exact Hl'].
  apply wp_bind, wp_time. intros t' w2. apply wp_bind, wp_modify, wp_ret. simpl.
  destruct Hl as (s' & Hr & ? & ?). exists s'. split_and!; try done.
  eapply rel_same; [|done]. tables.
Qed.

Lemma poll_failed_spec {A} e s w l rc cpl :
  rel e s → run qd l s → (rc <? 0) = true →
  wp (fail_with (A := A) "completion_poll_failed") safe (e, (w, l ++ [EvPoll rc cpl])).
Proof.
  intros [HR Hq Hh] Hrun Hrc. apply wp_fail. exists (halt s). split.
  - pose proof (run_poll l s rc cpl Hrun) as H. unfold polled in H. by rewrite Hrc in H.
  - apply rel_fail; [done|by apply R0_halted|done].
Qed.

Lemma poll_none_live e s w l rc cpl :
  rel e s → run qd l s → halted s = false → (rc =? 0) = true →
  live (e, (w, l ++ [EvPoll rc cpl])).
Proof.
  intros Hrel Hrun Hh Hrc. exists s. split_and!; try done.
  pose proof (run_poll l s rc cpl Hrun) as H. unfold polled in H.
  replace (rc <? 0) with false in H by lia. by rewrite Hrc in H.
Qed.
Lemma poll_some_run s l rc cpl :
  run qd l s → (rc <? 0) = false → (rc =? 0) = false →
  run qd (l ++ [EvPoll rc cpl]) (completed cpl s).
Proof.
  intros Hrun H1 H2. pose proof (run_poll l s rc cpl Hrun) as H. unfold polled in H.
  by rewrite H1, H2 in H.
Qed.

Lemma poll_cq_spec n progress e w l :
  live (e, (w, l)) → wp (poll_cq trace_ops n progress) safe (e, (w, l)).
Proof.
  revert progress e w l; induction n as [|n IH]; intros progress e w l Hl; [done|].
  simpl poll_cq. apply wp_bind, wp_get. destruct (negb _); [done|].
  destruct Hl as (s & Hrun & Hrel & Hh). simpl in Hrun, Hrel.
  apply wp_bind, wp_poll. intros rc cpl w1. apply wp_bind, wp_time. intros t w2.
  destruct (rc <? 0) eqn:Hneg; [by eapply poll_failed_spec|].
  destruct (rc =? 0) eqn:Hz.
  - apply wp_bind, wp_modify. eapply live_same; [apply same_record_cq|]. by eapply poll_none_live.
  - apply wp_bind, wp_modify, wp_xbind. eapply wp_mono.
    { eapply process_spec; [|done|by eapply poll_some_run].
      eapply rel_same; [apply same_clear_cq|done]. }
    intros [r|[]] [e' [w' l']] Hs; [done|by apply IH].
Qed.

(** *** Handing slots back *)
Lemma finish_slots_spec idx progress e w l :
  live (e, (w, l)) → wp (finish_slots trace_cb idx progress) safe (e, (w, l)).
Proof.
  revert progress e w l; induction idx as [|i idx IH]; intros progress e w l Hl; [done|].
  simpl finish_slots. apply wp_bind, wp_get. destruct (slots e !! i) as [se|] eqn:Hi; [|by apply IH].
  destruct (drained se) eqn:Hd; simpl negb; cbv iota; [|by apply IH].
  destruct Hl as (s & Hrun & [HR Hq Hh] & Hhs). simpl in Hrun, HR, Hq, Hh.
  destruct (failed_cmds (s_ctx se) =? 0) eqn:Hf; simpl negb; cbv iota.
  2:{ apply wp_fail. exists s. split; [done|]. by apply rel_fail. }
  assert (Ha : s_active se = true) by (unfold drained in Hd; lia).
  assert (Hact := actives_at e s HR _ _ Hi Ha).
  destruct (drained_covers e s se HR Hact Hd ltac:(lia)) as (Hout & cs & Hcs & Hcov).
  rewrite (eo_slot _ _ _ _ (r0_entry _ _ HR se Hact)) in Hout, Hcs.
  assert (Hacc : s_req se ∈ accepted s).
  { rewrite (r0_accepted _ _ HR). by apply list_elem_of_fmap_2. }
  apply wp_bind. unfold wp at 1, io, logged. simpl. destruct (cb (s_req se) w) as [crc w1]. simpl.
  pose proof (run_snoc qd l s _ _ Hrun (sp_done qd s (s_req se) cs crc Hhs Hacc Hout Hcs Hcov)) as Hrun'.
  destruct (crc =? 0) eqn:Hc; simpl negb; cbv iota.
  - apply wp_bind, wp_modify. apply IH. eexists. split; [exact Hrun'|].
    split; [split; [|done|by intros; apply Hh]|done]. apply (R0_release e s i se); [done|done|done|lia].
  - apply wp_fail. eexists. split; [exact Hrun'|]. apply rel_fail; [done|by apply R0_halted|done].
Qed.

(** *** Refilling the queue *)
Lemma timed_submit_spec p (Q : Z * Z → State → Prop) e w l :
  (∀ src t e' w', same_tables e e' →
     Q (src, t) (e', (w', l ++ [EvSubmit (p_cid p) (cmd_of p) src]))) →
  wp (timed_submit trace_ops p) Q (e, (w, l)).
Proof.
  intros HQ. unfold timed_submit. apply wp_bind, wp_get, wp_bind, wp_maybe_time. intros t0 w0.
  apply wp_bind, wp_submit. intros src w1. apply wp_bind, wp_maybe_time. intros t1 w2.
  apply wp_bind, wp_modify, wp_bind, wp_modify, wp_bind, wp_maybe_time. intros t2 w3.
  apply wp_ret, HQ. destruct (nvme_diag_timing (rt e)); tables.
Qed.

Lemma same_account i p e e' :
  same_tables e e' → same_tables (account_submitted i p e) (account_submitted i p e').
Proof.
  unfold same_tables. intros Hs. destruct_and!. simpl. split_and!; congruence.
Qed.
Lemma same_put k p p' e e' :
  same_tables (put_pending k p e) e' → same_tables (put_pending k p' e) (put_pending k p' e').
Proof.
  unfold same_tables. intros Hs. destruct_and!. simpl in *. split_and!; try congruence.
  replace (pending e') with (<[k:=p]> (pending e)) by congruence. by rewrite list_insert_insert_eq.
Qed.

Lemma seq_submit l s cid c req rc :
  run qd l s → halted s = false → Z.of_nat (length (outstanding s)) < qd →
  0 < cid <= UINT16_MAX → (∀ o, o ∈ outstanding s → o_cid o ≠ cid) →
  req ∈ accepted s → inside c req →
  run qd (l ++ [EvSubmit cid c rc]) (submitted (mkOwned cid (r_slot req) c) rc s).
Proof. intros. eapply run_snoc; [done|]. by apply sp_submit. Qed.

Lemma submitted_refused o src s :
  src ≠ NVME_SUBMIT_ACCEPTED → src ≠ NVME_SUBMIT_ACCEPTANCE_UNKNOWN →
  src ≠ NVME_SUBMIT_RETRY_SQ_FULL → submitted o src s = halt s.
Proof.
  intros. unfold submitted. repeat rewrite (proj2 (Z.eqb_neq _ _)) by done. done.
Qed.

(** What [refill] does with the answer to one command. *)
Lemma submit_answer_spec (k i : nat) q p se limit e s w l progress (next : M (exit + bool)) :
  rel e s → run qd l s → halted s = false → pending e !! k = Some q → p_valid q = false →
  slots e !! i = Some se → s_active se = true →
  next_submit_sector (s_ctx se) < total_sectors (s_ctx se) → 0 < limit <= UINT32_MAX →
  0 < p_cid p <= UINT16_MAX → (p_cid p ∉ p_cid <$> valids (pending e)) →
  p = next_command limit (p_cid p) (s_ctx se) → global_inflight e < target_qd (config e) →
  (∀ e w l, live (e, (w, l)) → wp next safe (e, (w, l))) →
  wp (let! (src, submit_end_us) := timed_submit trace_ops p in
      if src =? NVME_SUBMIT_RETRY_SQ_FULL then
        let! _ := modify (record_sq_full submit_end_us) in
        let! _ := modify (put_pending k (p <| p_valid := false |>)) in
        xret progress
      else
        let! _ := modify (clear_sq_full submit_end_us) in
        if src =? NVME_SUBMIT_ACCEPTANCE_UNKNOWN then
          let! _ := modify (account_submitted i p) in
          fail_with "submit_accept_timeout"
        else if negb (src =? NVME_SUBMIT_ACCEPTED) then
          let! _ := modify (put_pending k (p <| p_valid := false |>)) in
          fail_with (if src =? NVME_SUBMIT_STOPPED_BEFORE_DOORBELL
                     then "submit_stopped" else "submit_not_accepted")
        else
          let! _ := modify (account_submitted i p) in next)
     safe (put_pending k p e, (w, l)).
Proof.
  intros [HR Hq Hh] Hrun Hhs Hk Hqv Hi Ha Hlt Hlim Hcid Hfresh Hp Hqd Hnext.
  assert (Hact := actives_at e s HR _ _ Hi Ha).
  destruct (next_command_spec e s se limit (p_cid p) HR Hact Hlt Hlim) as (_ & _ & Hsl & Hl & Hd & Hsec).
  rewrite <-Hp in Hsl, Hl, Hd, Hsec.
  pose proof (r0_entry _ _ HR se Hact) as He.
  assert (Hsub : ∀ src, run qd (l ++ [EvSubmit (p_cid p) (cmd_of p) src]) (submitted (owned_of p) src s)).
  { intros src. unfold owned_of. rewrite Hsl, (eo_slot _ _ _ _ He). apply seq_submit; try done.
    - rewrite (r0_outstanding _ _ HR), length_fmap. pose proof (r0_inflight _ _ HR). lia.
    - intros o Ho Heq. rewrite (r0_outstanding _ _ HR) in Ho.
      apply list_elem_of_fmap in Ho as (p' & -> & Hp'). apply Hfresh. rewrite <-Heq.
      by apply (list_elem_of_fmap_2 p_cid).
    - rewrite (r0_accepted _ _ HR). by apply list_elem_of_fmap_2.
    - pose proof (eo_total _ _ _ _ He). pose proof (eo_next _ _ _ _ He). unfold inside. simpl. lia. }
  assert (Hput : R0 (put_pending k (p <| p_valid := false |>) e) s) by by eapply R0_refused.
  assert (Hacc : ∀ h, R0 (account_submitted i p (put_pending k p e))
                        (mkSpec (accepted s) (owned_of p :: outstanding s) (finished s) h)).
  { intros h. rewrite Hp. by eapply R0_submit. }
  apply wp_bind, timed_submit_spec. intros src t e' w' Hsame. specialize (Hsub src).
  destruct (src =? NVME_SUBMIT_RETRY_SQ_FULL) eqn:E1.
  { apply wp_bind, wp_modify, wp_bind, wp_modify, wp_ret. exists s.
    replace src with NVME_SUBMIT_RETRY_SQ_FULL in * by lia. split_and!; try done. cbn [fst].
    apply (rel_same (put_pending k (p <| p_valid := false |>) e)).
    - eapply same_put. etrans; [exact Hsame|apply same_record_sq].
    - split; [done|done|by intros; congruence]. }
  apply wp_bind, wp_modify.
  assert (Hsame' : same_tables (put_pending k p e) (clear_sq_full t e'))
    by (etrans; [exact Hsame|apply same_clear_sq]).
  revert Hsame'. generalize (clear_sq_full t e'). intros e2 Hs2.
  assert (Hq2 : target_qd (config e2) = qd)
    by (unfold same_tables in Hs2; destruct_and!; simpl in *; congruence).
  destruct (src =? NVME_SUBMIT_ACCEPTANCE_UNKNOWN) eqn:E2.
  { apply wp_bind, wp_modify, wp_fail.
    replace src with NVME_SUBMIT_ACCEPTANCE_UNKNOWN in * by lia. eexists. split; [exact Hsub|].
    apply rel_fail; [done| |done]. eapply R0_same; [by apply same_account|]. apply Hacc. }
  destruct (src =? NVME_SUBMIT_ACCEPTED) eqn:E3; simpl negb; cbv iota.
  - apply wp_bind, wp_modify, Hnext. replace src with NVME_SUBMIT_ACCEPTED in * by lia.
    eexists. split; [exact Hsub|]. split; [|done]. split; [|done|simpl; intros; congruence].
    eapply R0_same; [by apply same_account|]. apply Hacc.
  - rewrite submitted_refused in Hsub by lia.
    apply wp_bind, wp_modify, wp_fail. eexists. split; [exact Hsub|].
    apply rel_fail; [destruct (src =? NVME_SUBMIT_STOPPED_BEFORE_DOORBELL); reflexivity| |done]. eapply R0_same; [by eapply same_put|]. by apply R0_halted.
Qed.

Lemma command_limit_ok e s :
  R0 e s → 0 < (if nvme_cmd_sectors (rt e) =? 0 then 512 else nvme_cmd_sectors (rt e)) <= UINT32_MAX.
Proof. intros HR. pose proof (r0_limit _ _ HR). destruct (_ =? _) eqn:E; cint. Qed.

Lemma refill_spec n progress e w l :
  live (e, (w, l)) → wp (refill trace_ops seen_abort n progress) safe (e, (w, l)).
Proof.
  revert progress e w l; induction n as [|n IH]; intros progress e w l Hl; [done|].
  simpl refill. apply wp_bind, wp_get. destruct (_ <? _) eqn:Hqd; simpl negb; cbv iota; [|done].
  apply wp_bind. eapply wp_mono; [by apply load_running_spec, live_inv|].
  intros running [e1 [w1 l1]] (Hi & _ & Hlv). destruct running; simpl negb; cbv iota; [|exact Hi].
  destruct (Hlv eq_refl) as (_ & He & Hl1). simpl in He, Hl1. subst e1 l1. clear Hi Hlv.
  apply wp_bind, wp_get.
  destruct (nvme_find_next_submit_context _ _) as [[i rr]|] eqn:Hnx; [|done].
  apply wp_bind, wp_modify.
  destruct (next_submit_found _ _ _ _ Hnx) as (se & Hse & Ha & Hlt).
  destruct Hl as (s & Hrun & [HR Hq Hh] & Hhs). simpl in Hrun, HR, Hq, Hh.
  pose proof (r0_inflight _ _ HR) as Hg. destruct (r0_config _ _ HR) as [_ Hcap].
  change (Z.of_nat NVME_PENDING_CAPACITY) with 32 in Hcap.
  destruct (free_pending_found (pending e)) as (k & q & -> & Hk & Hqv).
  { rewrite (r0_pending _ _ HR). unfold NVME_PENDING_CAPACITY. lia. }
  rewrite Hse. destruct (alloc_cid_found (rt e) (pending e)) as (cid & nx & Halloc & Hcid & Hfresh & Hnext).
  { apply HR. }
  { lia. }
  set (e2 := e <| rr_index := rr |> <| rt ::= λ r, r <| next_cmd_id := nx |> |>).
  apply wp_bind, (wp_run _ _ _ _ (Some cid) e2).
  { change (rt (e <| rr_index := rr |>)) with (rt e).
    change (pending (e <| rr_index := rr |>)) with (pending e). by rewrite Halloc. }
  assert (HR2 : R0 e2 s) by (apply (R0_frame e); done || apply HR).
  apply wp_bind, wp_modify.
  refine (submit_answer_spec k i q _ se _ e2 s w1 l progress _ _ Hrun Hhs _ _ _ _ _ _ _ _ _ _ _); try done.
  - by apply (command_limit_ok e s).
  - simpl. lia.
  - intros. by apply IH.
Qed.

(** *** Waiting and the step *)
Lemma safe_bind {A B} (m : M (exit + A)) (k : A → M (exit + B)) x :
  wp m safe x → (∀ a e w l, live (e, (w, l)) → wp (k a) safe (e, (w, l))) →
  wp (xbind m k) safe x.
Proof.
  intros Hm Hk. apply wp_xbind. eapply wp_mono; [exact Hm|].
  intros [r|a] [e [w l]] Hs; [done|by apply Hk].
Qed.

(** A poll whose completion is handled when there is one. *)
Lemma poll_then {A} rc cpl e e' s w l (t : Z) (k : M (exit + A)) :
  rel e s → run qd l s → halted s = false → (rc <? 0) = false → (rc =? 0) = false →
  same_tables e e' → (∀ e w l, live (e, (w, l)) → wp k safe (e, (w, l))) →
  wp (let? _ := process_completion trace_ops cpl t in k) safe (e', (w, l ++ [EvPoll rc cpl])).
Proof.
  intros Hrel Hrun Hh Hneg Hz Hsame Hk. apply safe_bind.
  - eapply process_spec; [by eapply rel_same|done|by apply poll_some_run].
  - intros _. exact Hk.
Qed.

Lemma busy_poll_spec fuel deadline e w l :
  live (e, (w, l)) → wp (busy_poll trace_ops fuel deadline) safe (e, (w, l)).
Proof.
  revert e w l; induction fuel as [|fuel IH]; intros e w l Hl; [by apply live_inv|].
  simpl busy_poll. apply wp_bind, wp_get. destruct (negb _); [done|].
  apply wp_bind, wp_time. intros t w1. destruct (negb _); [done|].
  destruct Hl as (s & Hrun & Hrel & Hh). simpl in Hrun, Hrel.
  apply wp_bind, wp_poll. intros rc cpl w2. apply wp_bind, wp_time. intros t' w3.
  destruct (rc <? 0) eqn:Hneg; [by eapply poll_failed_spec|].
  destruct (rc =? 0) eqn:Hz.
  - apply wp_bind, wp_modify, IH. eapply live_same; [apply same_record_cq|]. by eapply poll_none_live.
  - apply wp_bind, wp_modify. eapply (poll_then (A := bool)); try done. apply same_clear_cq.
Qed.

Lemma poll_once_spec e w l : live (e, (w, l)) → wp (poll_once trace_ops) safe (e, (w, l)).
Proof.
  intros Hl. unfold poll_once. apply wp_bind, wp_get. destruct (negb _); [done|].
  destruct Hl as (s & Hrun & Hrel & Hh). simpl in Hrun, Hrel.
  apply wp_bind, wp_poll. intros rc cpl w2.
  destruct (rc <? 0) eqn:Hneg; [by eapply poll_failed_spec|].
  destruct (0 <? rc) eqn:Hz.
  - apply wp_bind, wp_maybe_time. intros t w3. eapply (poll_then (A := bool)); try done. lia.
  - apply wp_bind, wp_time. intros t w3. apply wp_bind, wp_modify, wp_ret.
    eapply live_same; [apply same_record_cq|]. eapply poll_none_live; try done. lia.
Qed.

Lemma sleep_spec us e w l : live (e, (w, l)) → wp (sleep_ trace_ops us) safe (e, (w, l)).
Proof.
  intros Hl. unfold sleep_. destruct (us =? 0); [done|]. simpl.
  destruct (sleep_us hw) as [f|]; simpl; [|by apply live_inv].
  apply wp_bind. unfold wp at 1, io, silent. destruct (f us w) as [[] w1]. simpl.
  apply wp_bind, wp_modify, wp_ret. eapply live_same; [|exact Hl]. tables.
Qed.

Lemma live_clear_np e w l : live (e, (w, l)) → live (e <| no_progress_start_us := 0 |>, (w, l)).
Proof. apply live_same. tables. Qed.

Lemma no_progress_spec fuel start budget e w l :
  live (e, (w, l)) → wp (no_progress trace_ops fuel start budget) safe (e, (w, l)).
Proof.
  intros Hl. unfold no_progress. apply wp_bind, wp_time. intros now w1.
  apply wp_bind, wp_get, wp_bind, wp_modify, safe_bind.
  { apply busy_poll_spec. eapply live_same; [|exact Hl]. tables. }
  intros [] e1 w2 l1 Hl1.
  { apply wp_bind, wp_modify, wp_ret. by apply live_clear_np. }
  apply wp_bind, wp_yield. intros w3. apply safe_bind; [by apply poll_once_spec|].
  intros [] e2 w4 l2 Hl2.
  { apply wp_bind, wp_modify, wp_ret. by apply live_clear_np. }
  apply safe_bind; [by apply sleep_spec|]. intros [] e3 w5 l3 Hl3.
  apply wp_bind, wp_time. intros now' w6. apply wp_bind, wp_get.
  destruct (_ && _); [|done]. apply wp_fail.
  destruct Hl3 as (s & Hrun & [HR Hq Hh] & _). exists s. split; [done|]. by apply rel_fail.
Qed.

Lemma step_iteration_spec fuel start budget e w l :
  inv (e, (w, l)) →
  wp (step_iteration trace_ops trace_cb seen_abort fuel start budget) safe (e, (w, l)).
Proof.
  intros Hi. unfold step_iteration. apply wp_bind. eapply wp_mono; [by apply load_running_spec|].
  intros running [e1 [w1 l1]] (Hi1 & _ & Hlv). destruct running; simpl negb; cbv iota; [|exact Hi1].
  destruct (Hlv eq_refl) as [Hl _]. clear Hlv Hi1 Hi.
  assert (Hv : cross_slot_validate e1 = (0, e1)).
  { destruct Hl as (s & _ & [HR _ _] & _). by apply (validate_ok e1 s). }
  apply wp_bind, (wp_run _ _ _ _ _ _ Hv). simpl negb. cbv iota.
  apply wp_bind, wp_get, safe_bind; [by apply poll_cq_spec|]. intros progress e2 w2 l2 Hl2.
  apply safe_bind; [by apply finish_slots_spec|]. intros progress' e3 w3 l3 Hl3.
  apply safe_bind; [by apply refill_spec|]. intros [] e4 w4 l4 Hl4; [|by apply no_progress_spec].
  apply wp_bind, wp_modify. apply live_clear_np in Hl4.
  destruct (budget =? 0); [done|]. apply wp_bind, wp_time. intros t w5.
  destruct (_ <? _); [done|]. by apply wp_bind, wp_yield.
Qed.

Lemma step_loop_spec fuel start budget e w l :
  live (e, (w, l)) →
  wp (step_loop trace_ops trace_cb seen_abort fuel start budget) safe (e, (w, l)).
Proof.
  revert e w l; induction fuel as [|fuel IH]; intros e w l Hl; [by apply live_inv|].
  simpl step_loop. apply wp_bind, wp_get. destruct (negb _); [done|].
  apply safe_bind; [by apply step_iteration_spec, live_inv|].
  intros [] e1 w1 l1 Hl1; [by apply IH|done].
Qed.

Lemma step_spec fuel budget e w l :
  inv (e, (w, l)) →
  wp (nvme_cross_slot_engine_step trace_ops trace_cb seen_abort fuel budget) safe (e, (w, l)).
Proof.
  intros Hi. unfold nvme_cross_slot_engine_step.
  apply wp_bind. eapply wp_mono; [by apply load_running_spec|].
  intros running [e1 [w1 l1]] (Hi1 & _ & Hlv). destruct running; simpl negb; cbv iota; [|exact Hi1].
  destruct (Hlv eq_refl) as [Hl _]. clear Hlv Hi1 Hi.
  apply wp_bind, wp_get, wp_bind, wp_time. intros t w2. apply wp_bind, wp_modify, safe_bind.
  { apply step_loop_spec. eapply live_same; [apply same_qd|done]. }
  intros [] e2 w3 l2 Hl2. apply wp_bind, wp_time. intros t' w4.
  apply wp_bind, wp_modify, wp_ret. eapply live_same; [apply same_qd|done].
Qed.

(** *** Accepting a request *)
Definition accepted_now (req : NvmeWriteSlotReq) (st : State) : Prop :=
  ∃ s, run qd st.2.2 s ∧ rel st.1 (s <| accepted ::= cons req |>) ∧ halted s = false ∧
    (∀ r, r ∈ accepted s → r_slot r ≠ r_slot req).

Lemma inv_fail reason e w l :
  internal_error (c_snprintf_s 64 reason) = false → inv (e, (w, l)) →
  inv (cross_slot_fail reason e, (w, l)).
Proof. intros Hi (s & Hrun & [HR Hq Hh]). exists s. split; [done|]. by apply rel_fail. Qed.

Lemma add_spec req e w l :
  client_ok req → inv (e, (w, l)) →
  wp (nvme_cross_slot_engine_add seen_abort req)
     (λ rc st, (rc = 0 → accepted_now req st) ∧ (rc ≠ 0 → inv st)) (e, (w, l)).
Proof.
  intros Hck Hi. unfold nvme_cross_slot_engine_add.
  assert (Hfail : ∀ reason e w, internal_error (c_snprintf_s 64 reason) = false →
    inv (e, (w, l)) →
    wp (let! _ := modify (cross_slot_fail reason) in eret (-1))
       (λ rc st, (rc = 0 → accepted_now req st) ∧ (rc ≠ 0 → inv st)) (e, (w, l))).
  { intros reason e' w' Hr Hi'. apply wp_bind, wp_modify, wp_ret. split; [done|]. intros _.
    by apply inv_fail. }
  destruct (_ || _) eqn:H0; [by apply wp_ret|].
  apply wp_bind. eapply wp_mono; [by apply load_running_spec|].
  intros running [e1 [w1 l1]] (Hi1 & _ & Hlv). destruct running; simpl negb; cbv iota; [|by apply wp_ret].
  destruct (Hlv eq_refl) as (_ & He & Hl). simpl in He, Hl. subst e1 l1. clear Hlv Hi.
  destruct (UINT64_MAX / _ <? _) eqn:H1; [by apply Hfail|].
  destruct ((_ <? r_bytes req) || _) eqn:H2; [by apply Hfail|].
  destruct ((_ <? r_start_lba req) || _) eqn:H3; [by apply Hfail|].
  apply wp_bind, wp_get. destruct (negb (nvme_max_lba _ =? 0) && _) eqn:H4; [by apply Hfail|].
  destruct (negb (dma_desc_count _ =? 0) && _) eqn:H5; [by apply Hfail|]. destruct (existsb _ _) eqn:H6; [by apply Hfail|].
  apply wp_bind. eapply wp_mono; [by apply load_running_spec|].
  intros running [e1 [w2 l2]] (Hi2 & Hb & Hlv). apply wp_bind, wp_get.
  destruct (nvme_cross_slot_engine_can_accept e1) eqn:Hca; simpl negb; cbv iota;
    [|apply wp_ret; done].
  unfold nvme_cross_slot_engine_can_accept in Hca. simpl in Hb.
  destruct (Hlv ltac:(lia)) as ((s & Hrun & Hrel & Hhs) & He & Hl). simpl in Hrun, Hrel, He, Hl.
  subst e1 l2. clear Hlv Hi1. destruct (find_if _ _) as [[i se]|] eqn:Hf; [|by apply wp_ret].
  apply find_if_spec in Hf as [Hse Hina]. apply negb_true_iff in Hina.
  destruct Hrel as [HR Hq Hh].
  assert (Hnew : ∀ x, x ∈ actives (slots e) → r_slot (s_req x) ≠ r_slot req).
  { intros x [Hxa Hx]%actives_spec Heq. apply not_true_iff_false in H6. apply H6, existsb_exists.
    exists x. split; [by apply list_elem_of_In|]. rewrite Hxa. simpl. lia. }
  assert (HR2 : R0 (accept i req e) (s <| accepted ::= cons req |>)).
  { apply (R0_accept e s i se); try done.
    - clear -Hck H0 H1 H2 H3 H4 H5. split; [exact Hck|lia|lia|lia|lia].
    - apply andb_prop in Hca as [Hrn _]. by apply bool_decide_eq_true in Hrn.
    - lia. }
  apply wp_bind, wp_modify. unfold wp, ccb_hw.run. rewrite (validate_ok _ _ HR2). simpl.
  split; [|done]. intros _. exists s. split_and!; try done.
  intros r Hr. rewrite (r0_accepted _ _ HR) in Hr.
  apply list_elem_of_fmap in Hr as (x & -> & Hx). by apply Hnew.
Qed.

(** *** Draining *)
Definition stopped (st : State) : Prop := inv st ∧ is_running st.1 = false.
Definition quiet (st : State) : Prop :=
  ∃ s, run qd st.2.2 s ∧ outstanding s = [] ∧ R0 st.1 (mkSpec [] [] [] true) ∧
    target_qd (config st.1) = qd ∧ is_running st.1 = false ∧
    nvme_cross_slot_engine_is_quiesced st.1 = true.

Lemma wp_both {A} (m : M A) (P Q : A → State → Prop) x :
  wp m P x → wp m Q x → wp m (λ a y, P a y ∧ Q a y) x.
Proof. done. Qed.

Lemma not_running_halted e :
  is_running (if is_running e then e <| state := NVME_CROSS_SLOT_ABORT_REQUESTED |> else e) = false.
Proof. destruct (is_running e) eqn:E; [done|exact E]. Qed.
Lemma not_running_fail code reason e : is_running (cross_slot_fail_code code reason e) = false.
Proof. apply not_running_halted. Qed.

(** Handling a completion does not restart the engine. *)
Lemma handle_stopped cpl e w l :
  is_running e = false →
  wp (cross_slot_handle_completion trace_ops cpl) (λ _ st, is_running st.1 = false) (e, (w, l)).
Proof.
  intros Hr. unfold cross_slot_handle_completion. apply wp_bind, wp_get.
  destruct (nvme_find_pending_by_cid _ _) as [[k p]|]; [|apply not_running_fail].
  destruct (nvme_find_slot_context _ _) as [[j se]|]; [|apply not_running_fail].
  destruct (_ || _); [apply not_running_fail|]. apply wp_bind, wp_maybe_time. intros t w'.
  destruct (cpl_error cpl); [apply not_running_fail|].
  apply wp_bind, wp_modify, wp_bind, wp_modify. unfold wp, ccb_hw.run, cross_slot_validate.
  destruct (validate_reason _); [apply not_running_fail|exact Hr].
Qed.

Lemma drain_poll_spec e s w l rc cpl :
  rel e s → run qd l s → is_running e = false → (rc <? 0) = false →
  wp (if 0 <? rc then let! _ := cross_slot_handle_completion trace_ops cpl in eret tt else eret tt)
     (λ _ st, stopped st) (e, (w, l ++ [EvPoll rc cpl])).
Proof.
  intros Hrel Hrun Hr Hneg. pose proof (run_poll l s rc cpl Hrun) as Hp. unfold polled in Hp.
  rewrite Hneg in Hp. destruct (0 <? rc) eqn:Hz.
  - replace (rc =? 0) with false in Hp by lia. apply wp_bind. eapply wp_mono.
    + eapply wp_both; [by apply (handle_spec e s)|by apply handle_stopped].
    + intros rc' st [[Hi _] Hs]. by split.
  - replace (rc =? 0) with true in Hp by lia. split; [|done]. by exists s.
Qed.

Lemma drain_loop_spec fuel deadline e w l :
  stopped (e, (w, l)) → wp (drain_loop trace_ops fuel deadline) (λ _ st, stopped st) (e, (w, l)).
Proof.
  revert e w l; induction fuel as [|fuel IH]; intros e w l Hs; [done|].
  simpl drain_loop. apply wp_bind, wp_get. destruct (negb _); [done|].
  apply wp_bind, wp_time. intros t w1. destruct (negb _); [done|].
  destruct Hs as [(s & Hrun & Hrel) Hr]. simpl in Hrun, Hrel, Hr.
  apply wp_bind, wp_poll. intros rc cpl w2. destruct (rc <? 0) eqn:Hneg.
  { split; [|done]. exists (halt s). split.
    - pose proof (run_poll l s rc cpl Hrun) as H. unfold polled in H. by rewrite Hneg in H.
    - destruct Hrel as [HR Hq Hh]. split; [by apply R0_halted|done|done]. }
  apply wp_bind. eapply wp_mono; [by apply (drain_poll_spec e s)|].
  intros [] [e' [w3 l3]] Hst. apply wp_bind, wp_get. destruct (_ && _); [by apply IH|].
  apply wp_bind, wp_yield. intros w4. apply wp_bind. simpl.
  destruct (sleep_us hw) as [f|]; simpl; [|by apply IH].
  destruct (negb _); [|by apply IH]. unfold wp, io, silent.
  destruct (f _ w4) as [[] w5]. simpl. by apply IH.
Qed.




Lemma quiesce_spec e s0 s w l :
  R0 e s0 → run qd l s → outstanding s = [] → target_qd (config e) = qd →
  wp (quiesce (W := W * Log)) (λ r st, r = inr 0 ∧ quiet st) (e, (w, l)).
Proof.
  intros HR Hrun Ho Hq. unfold quiesce. apply wp_bind, wp_modify, wp_bind, wp_modify, wp_ret.
  split; [done|]. exists s. split_and!; try done. apply (R0_discard e s0); [done|apply HR].
Qed.

Lemma drain_spec fuel deadline e w l :
  inv (e, (w, l)) →
  wp (nvme_cross_slot_engine_drain_abort trace_ops fuel deadline)
     (λ r st, (r = inr 0 → quiet st) ∧ (r ≠ inr 0 → inv st)) (e, (w, l)).
Proof.
  intros (s & Hrun & [HR Hq Hh]). unfold nvme_cross_slot_engine_drain_abort.
  destruct (abort_tables "abort_requested" e eq_refl) as (HR' & Hr & Hc & Hnq).
  cbn [fst snd] in *. specialize (HR' s HR).
  apply wp_bind, wp_modify, wp_bind, wp_get. revert HR' Hr Hc Hnq.
  generalize (nvme_cross_slot_engine_request_abort "abort_requested" e). intros e1 HR' Hr Hc _.
  destruct (bool_decide (state e1 = NVME_CROSS_SLOT_QUIESCED)) eqn:Hqs.
  { apply bool_decide_eq_true in Hqs. destruct (r0_quiet _ _ HR' Hqs) as [Ha Hv].
    apply wp_ret. split; [intros _|done]. exists s. cbn [fst snd]. split_and!; try done.
    - apply Permutation_nil_r. by rewrite (r0_outstanding _ _ HR'), Hv.
    - by apply (R0_empty _ s).
    - by rewrite Hc.
    - by apply (quiesced_tables _ s). }
  destruct (bool_decide (state e1 = NVME_CROSS_SLOT_FAILED)).
  { apply wp_ret. split; [done|intros _]. exists s. split; [done|]. cbn [fst]. split; [done|by rewrite Hc|done]. }
  apply wp_bind, wp_modify, wp_xbind. eapply wp_mono.
  { apply drain_loop_spec. split; [|done]. exists s. split; [done|]. cbn [fst snd].
    split; [|by simpl; rewrite Hc|done]. apply (R0_frame e1); try done; apply HR'. }
  intros [x|[]] [e2 [w2 l2]] [(s2 & Hrun2 & [HR2 Hq2 Hh2]) Hr2]; simpl in Hrun2, HR2, Hq2, Hh2, Hr2.
  { split; [done|intros _]. exists s2. split; [done|]. by split. }
  apply wp_bind, wp_get. pose proof (r0_inflight _ _ HR2) as Hg.
  pose proof (r0_outstanding _ _ HR2) as Ho.
  destruct (global_inflight e2 =? 0) eqn:Hz.
  { eapply wp_mono; [apply (quiesce_spec e2 s2 s2); try done|intros r st [-> ?]; done].
    apply Permutation_nil_r. rewrite Ho. destruct (valids _); [done|simpl in Hg; lia]. }
  apply wp_bind, wp_modify. set (e3 := e2 <| state := NVME_CROSS_SLOT_RESETTING |>).
  assert (HR3 : R0 e3 s2) by (apply (R0_frame e2); try done; apply HR2).
  assert (Hfailed : ∀ s' w' l', run qd l' s' → R0 e3 s' →
    wp (let! _ := set_state NVME_CROSS_SLOT_FAILED in xret (E := exit) (-1))
      (λ r st, (r = inr 0 → quiet st) ∧ (r ≠ inr 0 → inv st)) (e3, (w', l'))).
  { intros s' w' l' Hrun' HR3'. apply wp_bind, wp_modify, wp_ret. split; [done|intros _].
    exists s'. split; [done|]. split; [|done|done]. apply (R0_frame e3); try done; apply HR3'. }
  apply wp_bind. simpl reset. destruct (reset hw) as [f|]; simpl option_map; cbv iota;
    [|by apply (Hfailed s2)].
  unfold wp at 1, io, logged. simpl. destruct (f w2) as [rc w3]. simpl.
  assert (Hne : outstanding s2 ≠ []).
  { intros Hn. rewrite Hn in Ho. symmetry in Ho. apply Permutation_nil_r in Ho.
    destruct (valids _); [simpl in Hg; lia|done]. }
  pose proof (run_snoc qd _ _ _ _ Hrun2 (sp_reset qd s2 rc Hne)) as Hrun3.
  destruct (rc =? 0) eqn:Hrc.
  - eapply wp_mono; [by eapply (quiesce_spec e3 s2)|by intros r st [-> ?]].
  - apply (Hfailed (halt s2)); [done|by apply R0_halted].
Qed.

(** ** The client's calls, in any order *)
Inductive Call : Type :=
| CallAdd (req : NvmeWriteSlotReq)
| CallStep (fuel : nat) (budget_us : Z)
| CallAbort (reason : string)
| CallDrain (fuel : nat) (deadline_us : Z).
Definition call_ok (c : Call) : Prop :=
  match c with
  | CallAdd req => client_ok req
  | CallAbort reason => internal_error (c_snprintf_s 64 reason) = false
  | _ => True
  end.

Definition emit (ev : Ev) : Eff State unit := λ '(e, (w, l)), (tt, (e, (w, l ++ [ev]))).
Definition returned {A} (r : exit + A) : bool :=
  match r with inl NullCall | inl OutOfFuel => false | _ => true end.

(** One call; whether it returned. *)
Definition exec_call (c : Call) : Eff State bool :=
  match c with
  | CallAdd req =>
      let! rc := nvme_cross_slot_engine_add seen_abort req in
      if rc =? 0 then let! _ := emit (EvAccept req) in eret true else eret true
  | CallStep fuel budget =>
      let! r := nvme_cross_slot_engine_step trace_ops trace_cb seen_abort fuel budget in
      eret (returned r)
  | CallAbort reason =>
      let! _ := modify (nvme_cross_slot_engine_request_abort reason) in eret true
  | CallDrain fuel deadline =>
      let! r := nvme_cross_slot_engine_drain_abort trace_ops fuel deadline in
      match r with
      | inr rc => if rc =? 0 then let! _ := emit EvAbandon in eret true else eret true
      | inl _ => eret (returned r)
      end
  end.
Fixpoint run_calls (calls : list Call) : Eff State unit :=
  match calls with
  | [] => eret tt
  | c :: calls => let! ok := exec_call c in if (ok : bool) then run_calls calls else eret tt
  end.

Lemma exec_call_spec c e w l :
  call_ok c → inv (e, (w, l)) → wp (exec_call c) (λ _ st, inv st) (e, (w, l)).
Proof.
  intros Hc Hi. destruct c as [req|fuel budget|reason|fuel deadline]; simpl exec_call; simpl in Hc.
  - apply wp_bind. eapply wp_mono; [by apply add_spec|]. intros rc [e1 [w1 l1]] [H0 H1].
    destruct (rc =? 0) eqn:E; [|apply wp_ret, H1; lia].
    destruct (H0 ltac:(lia)) as (s & Hrun & Hrel & Hhs & Hnew).
    apply wp_bind. unfold wp, emit. simpl. eexists. split; [|exact Hrel].
    eapply run_snoc; [exact Hrun|]. by apply sp_accept.
  - apply wp_bind. eapply wp_mono; [by apply step_spec|]. intros r st Hs. by apply safe_inv in Hs.
  - destruct Hi as (s & Hrun & [HR Hq Hh]). apply wp_bind, wp_modify, wp_ret. exists s. split; [done|].
    destruct (abort_tables reason e Hc) as (HR' & Hr & Hcf & _). cbn [fst].
    split; [by apply HR'|by rewrite Hcf|done].
  - apply wp_bind. eapply wp_mono; [by apply drain_spec|]. intros r [e1 [w1 l1]] [H0 H1].
    destruct r as [x|rc]; [by apply wp_ret, H1|]. destruct (rc =? 0) eqn:E.
    + replace rc with 0 in * by lia. destruct (H0 eq_refl) as (s & Hrun & Ho & HR & Hq & Hr & _).
      apply wp_bind. unfold wp, emit. simpl in *. eexists. split; [eapply run_snoc; [exact Hrun|by constructor]|].
      simpl. unfold halt. destruct s as [acc out fin h]. simpl in Ho. subst out. by split.
    + apply wp_ret, H1. intros [= ->]. lia.
Qed.

Lemma run_calls_spec calls e w l :
  Forall call_ok calls → inv (e, (w, l)) → wp (run_calls calls) (λ _ st, inv st) (e, (w, l)).
Proof.
  intros Hc. revert e w l. induction Hc as [|c calls Hc _ IH]; intros e w l Hi; [done|].
  simpl run_calls. apply wp_bind. eapply wp_mono; [by apply exec_call_spec|].
  intros [] [e1 [w1 l1]] H; [by apply IH|done].
Qed.
End Trace.

(** ** The theorems *)

Lemma initial_inv {W} (qd : Z) e (w : W) :
  R0 e spec_init → target_qd (config e) = qd → inv qd (e, (w, [])).
Proof. intros HR Hq. exists spec_init. split; [constructor|]. by split. Qed.

(** What a client needs to pass for the engine to be created and used. *)
Record client (r : Runtime) (c : NvmeCrossSlotConfig) (calls : list Call) : Prop := {
  cl_cid : is_u16 (next_cmd_id r);
  cl_limit : is_u32 (nvme_cmd_sectors r);
  cl_slots : 0 <= max_active_slots c;
  cl_qd : 0 <= target_qd c;
  cl_calls : Forall call_ok calls }.
(** Aborts that come from another thread do not name internal errors. *)
Definition outside_reasons {W} (ab : Eff W (option string)) : Prop :=
  ∀ w reason, (ab w).1 = Some reason → internal_error (c_snprintf_s 64 reason) = false.

(** A device that completes commands in order and whose clock ticks. *)
Definition fifo_hw : NvmeCrossSlotOps (Z * list Z) :=
  mkOps (λ cid _ _ _ '(t, q), (NVME_SUBMIT_ACCEPTED, (t, q ++ [cid])))
        (λ '(t, q), match q with
                    | [] => ((0, mkCompletion 0 false), (t, q))
                    | cid :: q => ((1, mkCompletion cid false), (t, q))
                    end)
        (λ '(t, q), (t, (t + 1, q))) None None None.
Definition witness_rt : Runtime :=
  mkRt 65534 0 8 true 16 0 0 0 0 0 0 0 0 0 0 0 0 0 0 0 0 0 0 0 "".
Definition witness_config : NvmeCrossSlotConfig := mkConfig 4 3 2 0 0 0 0.
Definition witness_req (slot lba sectors : Z) : NvmeWriteSlotReq :=
  mkReq slot lba sectors (slot * 65536) (sectors * 512) 0 0 0.
Definition witness_calls : list Call :=
  [CallAdd (witness_req 3 100 20); CallAdd (witness_req 7 400 9); CallStep 60 0; CallDrain 5 1000].
Definition deliveries (l : Log) : list Z :=
  omap (λ ev, match ev with EvDone req rc => Some (r_slot req) | _ => None end) l.

Lemma witness_client : client witness_rt witness_config witness_calls.
Proof.
  split; [unfold witness_rt; simpl; cint|unfold witness_rt; simpl; cint|done|done|].
  repeat constructor; simpl; cint.
Qed.
Lemma no_abort {W} : outside_reasons (eret None : Eff W (option string)).
Proof. by intros w reason [=]. Qed.

(** C11: The engine implements its protocol.  Whatever the hardware, the slot
    callback and concurrent aborts answer, the calls of any client of a fresh
    engine produce a log that is a run of the protocol automaton: at most
    [target_qd] commands are owned by the hardware, with distinct identifiers,
    each inside the range of an accepted slot; a slot is handed back at most
    once, only when no command of it is in flight and its successfully completed
    commands tile exactly its sectors; nothing is submitted, accepted or handed
    back after an error; and an engine that reports itself quiesced owns no
    command. *)
Theorem cross_slot_follows_protocol (W : Type) (hw : NvmeCrossSlotOps W)
    (cb : NvmeWriteSlotReq → Eff W Z) (ab : Eff W (option string))
    (r : Runtime) (c : NvmeCrossSlotConfig) (calls : list Call)
    (e0 : NvmeCrossSlotEngine) (w0 : W) :
  client r c calls → outside_reasons ab →
  nvme_cross_slot_engine_create_with_ops_config r c = Some e0 →
  let '(_, (e, (_, log))) := run_calls hw cb ab calls (e0, (w0, [])) in
  ∃ s, run (target_qd c) log s ∧
    (nvme_cross_slot_engine_is_quiesced e = true → outstanding s = []).
Proof.
  intros [Hr Hl Hm Hq Hcalls] Hab He.
  pose proof (R0_create r c e0 Hr Hl Hm Hq He) as HR.
  assert (Hqd : target_qd (config e0) = target_qd c).
  { revert He. unfold nvme_cross_slot_engine_create_with_ops_config.
    destruct (_ || _); [done|]. by intros [= <-]. }
  pose proof (run_calls_spec hw cb ab (target_qd c) Hab calls e0 w0 [] Hcalls
    (initial_inv _ _ _ HR Hqd)) as H. unfold wp in H.
  destruct (run_calls _ _ _ _ _) as [[] [e [w log]]]. destruct H as (s & Hrun & [HR' _ _]).
  exists s. split; [done|]. intros Hqu. by apply (quiesced_nothing_owned e s).
Qed.

(** Two slots, split into three and two commands, are handed back. *)
Lemma cross_slot_follows_protocol_witness :
  let e0 := default (mkEngine witness_rt witness_config [] [] 0 0 0 ∅ 0 0 0
                       (mkStats 0 0 0 0 0 0 0 0 0) NVME_CROSS_SLOT_FAILED "")
              (nvme_cross_slot_engine_create_with_ops_config witness_rt witness_config) in
  let '(_, (e, (_, log))) :=
    run_calls fifo_hw (λ _, eret 0) (eret None) witness_calls (e0, ((1, []), [])) in
  (∃ s, run 3 log s ∧ (nvme_cross_slot_engine_is_quiesced e = true → outstanding s = [])) ∧
  nvme_cross_slot_engine_is_quiesced e = true ∧ deliveries log = [7; 3] ∧ last log = Some EvAbandon.
Proof.
  intros e0.
  pose proof (cross_slot_follows_protocol (Z * list Z) fifo_hw (λ _, eret 0) (eret None) witness_rt
    witness_config witness_calls e0 (1, []) witness_client no_abort eq_refl) as H.
  change (target_qd witness_config) with 3 in H.
  destruct (run_calls _ _ _ _ _) as [u [e [w log]]] eqn:E.
  split; [exact H|]. clear H. vm_compute in E. by injection E as <- <- <- <-.
Defined.

(** C12: The engine never catches itself in a contradiction.  After any calls,
    with any answers of the hardware, the consistency check finds nothing, none
    of its errors has been recorded, the identifiers of pending commands are
    distinct and absent from the completed set, and while the queue depth
    allows another command an entry and an identifier for it exist. *)
Theorem cross_slot_self_check (W : Type) (hw : NvmeCrossSlotOps W)
    (cb : NvmeWriteSlotReq → Eff W Z) (ab : Eff W (option string))
    (r : Runtime) (c : NvmeCrossSlotConfig) (calls : list Call)
    (e0 : NvmeCrossSlotEngine) (w0 : W) :
  client r c calls → outside_reasons ab →
  nvme_cross_slot_engine_create_with_ops_config r c = Some e0 →
  let '(_, (e, _)) := run_calls hw cb ab calls (e0, (w0, [])) in
  cross_slot_validate e = (0, e) ∧ internal_error (last_error e) = false ∧
  NoDup (p_cid <$> valids (pending e)) ∧
  (global_inflight e < target_qd (config e) →
   (∃ k p, nvme_find_free_pending (pending e) = Some (k, p)) ∧
   ∃ cid next, nvme_alloc_cid (rt e) (pending e) = (Some cid, (rt e) <| next_cmd_id := next |>) ∧
     0 < cid <= UINT16_MAX ∧ nvme_find_pending_by_cid (pending e) cid = None).
Proof.
  intros [Hr Hl Hm Hq Hcalls] Hab He.
  pose proof (R0_create r c e0 Hr Hl Hm Hq He) as HR.
  pose proof (run_calls_spec hw cb ab _ Hab calls e0 w0 [] Hcalls
    (initial_inv _ _ _ HR eq_refl)) as H. unfold wp in H.
  destruct (run_calls _ _ _ _ _) as [[] [e [w log]]]. destruct H as (s & Hrun & [HR' _ _]).
  simpl in HR'. split_and!; [by apply (validate_ok e s)|apply HR'|apply HR'|]. intros Hlt.
  pose proof (r0_inflight _ _ HR') as Hg. destruct (r0_config _ _ HR') as [_ Hcap].
  change (Z.of_nat NVME_PENDING_CAPACITY) with 32 in Hcap. split.
  - destruct (free_pending_found (pending e)) as (k & q & -> & _); [|by exists k, q].
    rewrite (r0_pending _ _ HR'). unfold NVME_PENDING_CAPACITY. lia.
  - destruct (alloc_cid_found (rt e) (pending e)) as (cid & nx & -> & Hcid & Hf & _).
    { apply HR'. }
    { lia. }
    exists cid, nx. split_and!; try done; [lia..|].
    destruct (nvme_find_pending_by_cid _ _) as [[k p]|] eqn:E; [|done].
    destruct (find_pending_some e s HR' _ _ _ E) as (_ & Hp & <- & _).
    destruct Hf. by apply list_elem_of_fmap_2.
Qed.

Lemma cross_slot_self_check_witness :
  let e0 := default (mkEngine witness_rt witness_config [] [] 0 0 0 ∅ 0 0 0
                       (mkStats 0 0 0 0 0 0 0 0 0) NVME_CROSS_SLOT_FAILED "")
              (nvme_cross_slot_engine_create_with_ops_config witness_rt witness_config) in
  let '(_, (e, _)) :=
    run_calls fifo_hw (λ _, eret 0) (eret None) (take 2 witness_calls) (e0, ((1, []), [])) in
  cross_slot_validate e = (0, e) ∧ active_count e = 2.
Proof.
  intros e0. assert (Hc : client witness_rt witness_config (take 2 witness_calls)).
  { destruct witness_client. split; try done. by apply Forall_take. }
  pose proof (cross_slot_self_check (Z * list Z) fifo_hw (λ _, eret 0) (eret None) witness_rt
    witness_config (take 2 witness_calls) e0 (1, []) Hc no_abort eq_refl) as H.
  destruct (run_calls _ _ _ _ _) as [u [e w]] eqn:E.
  split; [by destruct H|]. clear H. vm_compute in E. by injection E as <- <- <-.
Defined.

(** *** Draining ends *)
Section Drain.
Context {W : Type} (hw : NvmeCrossSlotOps W) (deadline : Z) (left : W → nat).

(** Time passes: [left w] readings of the clock can still come before the
    deadline; the other calls do not turn the clock back. *)
Record time_passes : Prop := {
  tp_time : ∀ w, (left (monotonic_us hw w).2 <= left w)%nat;
  tp_before : ∀ w, (monotonic_us hw w).1 < deadline → (left (monotonic_us hw w).2 < left w)%nat;
  tp_poll : ∀ w, (left (poll_completion hw w).2 <= left w)%nat;
  tp_yield : ∀ y w, yield_cpu hw = Some y → (left (y w).2 <= left w)%nat;
  tp_sleep : ∀ f us w, sleep_us hw = Some f → (left (f us w).2 <= left w)%nat }.
Context (Ht : time_passes).
#[local] Set Default Proof Using "Ht".

Lemma handle_left cpl e w :
  wp (cross_slot_handle_completion hw cpl) (λ _ st, (left st.2 <= left w)%nat) (e, w).
Proof.
  unfold cross_slot_handle_completion. apply wp_bind. unfold wp at 1. simpl.
  destruct (nvme_find_pending_by_cid _ _) as [[k p]|]; [|apply Nat.le_refl].
  destruct (nvme_find_slot_context _ _) as [[j se]|]; [|apply Nat.le_refl].
  destruct (_ || _); [apply Nat.le_refl|]. apply wp_bind.
  assert (Hl : ∀ t w', (left w' <= left w)%nat →
    wp (if cpl_error cpl
        then let! _ := modify (retire k p j se true) in
             let! _ := modify (cross_slot_fail "completion_status_error") in eret (-1)
        else let! _ := modify (λ e, e <| rt ::= nvme_record_write_completion p t |>) in
             let! _ := modify (retire k p j se false) in ccb_hw.run cross_slot_validate)
       (λ _ st, (left st.2 <= left w)%nat) (e, w')).
  { intros t w' Hw. destruct (cpl_error cpl); [exact Hw|]. unfold wp, ebind, modify, ccb_hw.run. simpl.
    by destruct (cross_slot_validate _). }
  destruct (nvme_diag_timing _); [|by apply Hl].
  unfold wp at 1, io. pose proof (tp_time Ht w) as H.
  destruct (monotonic_us hw w) as [t w']. by apply Hl.
Qed.

Lemma drain_loop_ends fuel e w :
  (left w < fuel)%nat → wp (drain_loop hw fuel deadline) (λ r _, r = inr tt) (e, w).
Proof.
  revert e w; induction fuel as [|fuel IH]; intros e w Hf; [lia|].
  simpl drain_loop. apply wp_bind. unfold wp at 1. simpl. destruct (negb _); [done|].
  apply wp_bind. unfold wp at 1, io. pose proof (tp_before Ht w) as Hb.
  destruct (monotonic_us hw w) as [t w1]. simpl in *.
  destruct (t <? deadline) eqn:Hd; simpl negb; cbv iota; [|done]. specialize (Hb ltac:(lia)).
  apply wp_bind. unfold wp at 1, io. pose proof (tp_poll Ht w1) as Hp.
  destruct (poll_completion hw w1) as [[rc cpl] w2]. simpl in *.
  destruct (rc <? 0); [done|]. apply wp_bind.
  eapply (wp_mono _ (λ _ st, (left st.2 <= left w2)%nat)).
  { destruct (0 <? rc); [|apply Nat.le_refl]. apply wp_bind. eapply wp_mono; [apply handle_left|]. done. }
  intros [] [e3 w3] Hw3. simpl in Hw3. apply wp_bind. unfold wp at 1. simpl.
  destruct (_ && _); [apply IH; lia|].
  apply wp_bind. eapply (wp_mono _ (λ _ st, (left st.2 <= left w3)%nat)).
  { unfold yield_. pose proof (tp_yield Ht) as Hy. destruct (yield_cpu hw) as [y|]; [|apply Nat.le_refl].
    specialize (Hy y w3 eq_refl). unfold wp, io. by destruct (y w3). }
  intros [] [e4 w4] Hw4. simpl in Hw4. apply wp_bind.
  eapply (wp_mono _ (λ _ st, (left st.2 <= left w4)%nat)).
  { pose proof (tp_sleep Ht) as Hs. destruct (sleep_us hw) as [f|]; [|apply Nat.le_refl].
    destruct (negb _); [|apply Nat.le_refl]. specialize (Hs f (empty_sleep_us (config e3)) w4 eq_refl).
    unfold wp, io. by destruct (f _ w4). }
  intros [] [e5 w5] Hw5. simpl in Hw5. apply IH. lia.
Qed.
End Drain.

Lemma abort_state reason e :
  let e' := nvme_cross_slot_engine_request_abort reason e in
  (state e' = NVME_CROSS_SLOT_QUIESCED ↔ state e = NVME_CROSS_SLOT_QUIESCED) ∧
  (state e' = NVME_CROSS_SLOT_FAILED ↔ state e = NVME_CROSS_SLOT_FAILED).
Proof.
  unfold nvme_cross_slot_engine_request_abort. repeat case_bool_decide; simpl; try done.
  destruct (String.eqb _ _); destruct (is_running _) eqn:E; simpl; try done;
    unfold is_running in E; simpl in E; apply bool_decide_eq_true in E; by rewrite E.
Qed.

Definition drain_outcome {W} (hw : NvmeCrossSlotOps W) (e : NvmeCrossSlotEngine)
    (r : exit + Z) (e' : NvmeCrossSlotEngine) : Prop :=
  (r = inr 0 ∧ state e' = NVME_CROSS_SLOT_QUIESCED ∧
   (state e ≠ NVME_CROSS_SLOT_QUIESCED → nvme_cross_slot_engine_is_quiesced e' = true)) ∨
  (r = inr (-1) ∧ state e' = NVME_CROSS_SLOT_FAILED ∧
   (state e ≠ NVME_CROSS_SLOT_FAILED → global_inflight e' ≠ 0 ∧
      match reset hw with Some f => ∃ w, (f w).1 ≠ 0 | None => True end)).

(** C13: Draining ends and says how.  When only finitely many readings of the
    clock come before the deadline, the drain returns: with 0 in the quiesced
    state, with every table empty unless it was quiesced before; or with -1 in
    the failed state, and then commands are still in flight and the reset is
    missing or was refused. *)
Theorem cross_slot_drain_ends (W : Type) (hw : NvmeCrossSlotOps W) (deadline : Z)
    (left : W → nat) (fuel : nat) (e : NvmeCrossSlotEngine) (w : W) :
  time_passes hw deadline left → (left w < fuel)%nat →
  let '(r, (e', _)) := nvme_cross_slot_engine_drain_abort hw fuel deadline (e, w) in
  drain_outcome hw e r e'.
Proof.
  intros Ht Hf.
  assert (H : wp (nvme_cross_slot_engine_drain_abort hw fuel deadline)
                (λ r st, drain_outcome hw e r st.1) (e, w)).
  2:{ unfold wp in H. by destruct (nvme_cross_slot_engine_drain_abort _ _ _ _) as [r [e' w']]. }
  unfold nvme_cross_slot_engine_drain_abort. apply wp_bind. unfold wp at 1. simpl.
  destruct (abort_state "abort_requested" e) as [Hq Hfl]. simpl in Hq, Hfl. revert Hq Hfl.
  generalize (nvme_cross_slot_engine_request_abort "abort_requested" e). intros e1 Hq Hfl.
  apply wp_bind. unfold wp at 1. simpl. case_bool_decide as Hq1.
  { left. split_and!; try done. intros Hn. by destruct Hn; apply Hq. }
  case_bool_decide as Hf1.
  { right. split_and!; try done. intros Hn. by destruct Hn; apply Hfl. }
  apply wp_bind. unfold wp at 1. simpl. apply wp_xbind.
  eapply wp_mono; [by apply (drain_loop_ends hw deadline left Ht)|].
  intros r [e2 w2] ->. apply wp_bind. unfold wp at 1. simpl.
  destruct (global_inflight e2 =? 0) eqn:Hz; [by left|].
  apply wp_bind. unfold wp at 1. simpl. apply wp_bind.
  destruct (reset hw) as [f|] eqn:Hr.
  - unfold wp at 1, io. destruct (f w2) as [rc w3] eqn:Hfw. simpl.
    destruct (rc =? 0) eqn:Hrc; [by left|]. right. split_and!; try done. intros _.
    rewrite Hr. split; [simpl; lia|]. exists w2. rewrite Hfw. simpl. lia.
  - right. split_and!; try done. intros _. rewrite Hr. split; [simpl; lia|done].
Qed.

(** A device that never completes and cannot be reset: the drain fails when the
    clock reaches the deadline. *)
Lemma cross_slot_drain_ends_witness :
  let hw := mkOps (λ _ _ _ _ t, (0, t)) (λ t, ((0, mkCompletion 0 false), t)) (λ t, (t, t + 1))
              None None None : NvmeCrossSlotOps Z in
  let e := mkEngine witness_rt witness_config (replicate 32 zero_pending) (replicate 32 idle_entry)
             0 1 0 ∅ 0 0 0 (mkStats 0 0 0 0 0 0 0 0 0) NVME_CROSS_SLOT_RUNNING "" in
  time_passes hw 20 (λ t, Z.to_nat (20 - t)) ∧
  let '(r, (e', _)) := nvme_cross_slot_engine_drain_abort hw 21 20 (e, 0) in
  drain_outcome hw e r e' ∧ r = inr (-1).
Proof.
  intros hw e. assert (Ht : time_passes hw 20 (λ t, Z.to_nat (20 - t))).
  { split; simpl; intros; simplify_eq; lia. }
  split; [exact Ht|].
  pose proof (cross_slot_drain_ends Z hw 20 (λ t, Z.to_nat (20 - t)) 21 e 0 Ht ltac:(simpl; lia)) as H.
  destruct (nvme_cross_slot_engine_drain_abort _ _ _ _) as [r [e' t]] eqn:E.
  split; [exact H|]. clear H. vm_compute in E. by injection E as <- _ _.
Defined.
End cross_slot_safety.
