(* ===== verification/DmaRing.v ===== *)
(** * The DMA descriptor ring ([src/src/ccb_hw.c])

    The stream-to-memory DMA engine fills a ring of descriptors; software
    harvests the completed ones in ring order, hands them back one by one and,
    at the end of a task, stops the engine.  The registers, the descriptor
    memory and the clock belong to the hardware and are parameters: every read
    may answer anything.  Reads that only feed a debug print are left out. *)
From S2P Require Import Prelude SlotTable.

Module ccb_dma.
Import storage_queue.

(** ** Registers and bits *)
Definition MM2S_DMACR : Z := 0x00.
Definition S2MM_DMACR : Z := 0x30.
Definition S2MM_DMASR : Z := 0x34.
Definition S2MM_CURDESC : Z := 0x38.
Definition S2MM_CURDESC_MSB : Z := 0x3C.
Definition S2MM_TAILDESC : Z := 0x40.
Definition S2MM_TAILDESC_MSB : Z := 0x44.
Definition DMA_CR_RS_BIT : Z := Z.shiftl 1 0.
Definition DMA_CR_RESET_BIT : Z := Z.shiftl 1 2.
Definition DMA_SR_HALT_BIT : Z := Z.shiftl 1 0.
Definition DMA_ERROR_MASK_S2MM : Z := 0x4770.
Definition DMA_IRQ_STATUS_MASK : Z := 0x7000.
Definition DESC_STS_CMPLT : Z := Z.shiftl 1 31.
Definition DESC_STS_ERROR_MASK : Z := 0x70000000.
Definition DESC_STS_RXSOF : Z := Z.shiftl 1 27.
Definition DESC_STS_RXEOF : Z := Z.shiftl 1 26.
Definition DESC_STS_LEN_MASK : Z := 0x3FFFFFF.
Definition DESC_SIZE : Z := 64.
Definition DEFAULT_TIMEOUT_US : Z := 5000000.

(** [(v & mask) != 0] *)
Definition any (v mask : Z) : bool := negb (Z.land v mask =? 0).

(** The words of a descriptor that the code touches. *)
Inductive DescWord : Type :=
| next_desc | next_desc_msb | buffer_addr | buffer_addr_msb | control | status.

Record DmaHw (W : Type) : Type := mkHw {
  reg_read32 : Z → Eff W Z;
  reg_write32 : Z → Z → Eff W unit;
  desc_read : Z → DescWord → Eff W Z;
  desc_write : Z → DescWord → Z → Eff W unit;
  desc_clear : Z → Eff W unit;
  wall_time_us : Eff W Z;
  pause : Eff W unit }.
Arguments mkHw {W}. Arguments reg_read32 {W}. Arguments reg_write32 {W}.
Arguments desc_read {W}. Arguments desc_write {W}. Arguments desc_clear {W}.
Arguments wall_time_us {W}. Arguments pause {W}.

(** The part of [ChannelRuntime] that the ring uses, with its configuration. *)
Record Rt : Type := mkRt {
  desc_dma_base : Z; desc_cpu_size : Z; ddr_hw_base : Z; desc_valid : bool;
  dry_run : bool; timeout_us : Z;
  next_harvest_bd : Z; dma_desc_bytes : Z; dma_ring_bytes : Z; dma_desc_count : Z;
  dma_hw_desc_count : Z; dma_last_completed_bd : Z; dma_last_completed_status : Z;
  dma_harvest_sequence : Z; dma_rxsof_count : Z; dma_rxeof_count : Z;
  dma_rx_packet_open : bool; dma_stop_latched : bool; dma_requeue_enabled : bool;
  dma_requeue_after_stop_count : Z }.
#[export] Instance eta_Rt : EtaOf Rt := λ r,
  mkRt (desc_dma_base r) (desc_cpu_size r) (ddr_hw_base r) (desc_valid r) (dry_run r)
    (timeout_us r) (next_harvest_bd r) (dma_desc_bytes r) (dma_ring_bytes r)
    (dma_desc_count r) (dma_hw_desc_count r) (dma_last_completed_bd r)
    (dma_last_completed_status r) (dma_harvest_sequence r) (dma_rxsof_count r)
    (dma_rxeof_count r) (dma_rx_packet_open r) (dma_stop_latched r)
    (dma_requeue_enabled r) (dma_requeue_after_stop_count r).

Record DmaHarvestItem : Type := mkItem {
  slot : Z; actual_bytes : Z; descriptor_status : Z; submission_sequence : Z }.

Record DmaBdSnapshot : Type := mkSnapshot {
  total_slots : Z; sn_dma_writable : Z; sn_completed_unharvested : Z; ready_slots : Z;
  nvme_busy_slots : Z; sn_requeue_pending : Z; free_slots : Z; curdesc_index : Z;
  taildesc_index : Z; curdesc_addr : Z; taildesc_addr : Z; s2mm_dmasr : Z; s2mm_dmacr : Z;
  occupied_bytes_est : Z }.
#[export] Instance eta_Snapshot : EtaOf DmaBdSnapshot := λ s,
  mkSnapshot (total_slots s) (sn_dma_writable s) (sn_completed_unharvested s) (ready_slots s)
    (nvme_busy_slots s) (sn_requeue_pending s) (free_slots s) (curdesc_index s)
    (taildesc_index s) (curdesc_addr s) (taildesc_addr s) (s2mm_dmasr s) (s2mm_dmacr s)
    (occupied_bytes_est s).

Definition DMA_STOP_FAILED : Z := -1.
Definition DMA_STOP_OK : Z := 0.
Definition DMA_STOP_RESET_RECOVERED : Z := 1.

Record DmaStopReport : Type := mkReport {
  s2mm_cr_before : Z; s2mm_sr_before : Z; s2mm_cr_after : Z; s2mm_sr_after : Z;
  curdesc : Z; taildesc : Z; rp_curdesc_addr : Z; rp_taildesc_addr : Z;
  next_bd : Z; next_bd_status : Z; hw_owned : Z; rxsof_count : Z; rxeof_count : Z;
  rx_packet_open : bool; reset_attempted : bool; result : Z; safe_reset_confirmed : bool;
  rp_completed_unharvested : Z; reason : string }.
#[export] Instance eta_Report : EtaOf DmaStopReport := λ r,
  mkReport (s2mm_cr_before r) (s2mm_sr_before r) (s2mm_cr_after r) (s2mm_sr_after r)
    (curdesc r) (taildesc r) (rp_curdesc_addr r) (rp_taildesc_addr r) (next_bd r)
    (next_bd_status r) (hw_owned r) (rxsof_count r) (rxeof_count r) (rx_packet_open r)
    (reset_attempted r) (result r) (safe_reset_confirmed r) (rp_completed_unharvested r)
    (reason r).
Definition zero_report : DmaStopReport :=
  mkReport 0 0 0 0 0 0 0 0 0 0 0 0 0 false false 0 false 0 "".

(** The runtime and the caller's report ([None]: NULL). *)
Record State : Type := mkState { rt : Rt; report : option DmaStopReport }.
#[export] Instance eta_State : EtaOf State := λ s, mkState (rt s) (report s).

(** [inl]: an early return, a division by zero, or the fuel of a waiting loop. *)
Inductive exit : Type := Returned (rc : Z) | DivideByZero | OutOfFuel.

(** [elapsed_us_since(start)] at [now]. *)
Definition elapsed_us_since (start_us now_us : Z) : Z :=
  if now_us <=? start_us then 0
  else if UINT32_MAX <? now_us - start_us then UINT32_MAX else now_us - start_us.

Section Ring.
Context {W : Type} (hw : DmaHw W).

Definition M (A : Type) : Type := Eff (State * W) A.
Definition get_rt : M Rt := let! s := sget in eret (rt s).
Definition mod_rt (f : Rt → Rt) : M unit := smod (λ s, s <| rt ::= f |>).
Definition mod_report (f : DmaStopReport → DmaStopReport) : M unit :=
  smod (λ s, s <| report ::= fmap f |>).
Definition set_reason (text : string) : M unit :=
  mod_report (λ r, r <| reason := c_snprintf_s 64 text |>).
Definition return_ {A} (rc : Z) : M (exit + A) := eret (inl (Returned rc)).
Definition rd (off : Z) : M Z := sio (reg_read32 hw off).
Definition wr (off v : Z) : M unit := sio (reg_write32 hw off v).
Definition now : M Z := sio (wall_time_us hw).

(** *** Reset *)
Fixpoint wait_loop (fuel : nat) (start_us off mask expected timeout : Z) : M (exit + Z) :=
  match fuel with
  | O => eret (inl OutOfFuel)
  | S fuel =>
      let! t := now in
      if negb (elapsed_us_since start_us t <? timeout) then xret (-1) else
      let! v := rd off in
      if Z.land v mask =? expected then xret 0 else
      let! _ := sio (pause hw) in wait_loop fuel start_us off mask expected timeout
  end.
Definition wait_reg_bits (fuel : nat) (off mask expected timeout : Z) : M (exit + Z) :=
  let! start_us := now in wait_loop fuel start_us off mask expected timeout.

Definition dma_reset_full (fuel : nat) : M (exit + Z) :=
  let! r := get_rt in
  if dry_run r then xret 0 else
  let! mm2s_cr := rd MM2S_DMACR in
  let! s2mm_cr := rd S2MM_DMACR in
  if any (Z.lor mm2s_cr s2mm_cr) DMA_CR_RESET_BIT then xret (-1) else
  let! _ := wr MM2S_DMACR DMA_CR_RESET_BIT in
  let! _ := wr S2MM_DMACR DMA_CR_RESET_BIT in
  let? mm2s := wait_reg_bits fuel MM2S_DMACR DMA_CR_RESET_BIT 0 (timeout_us r) in
  let? s2mm := wait_reg_bits fuel S2MM_DMACR DMA_CR_RESET_BIT 0 (timeout_us r) in
  xret (if (mm2s =? 0) && (s2mm =? 0) then 0 else -1).

(** *** Building the ring *)
Definition next_addr (r : Rt) (i : Z) : Z :=
  u64 (desc_dma_base r + ((i + 1) mod dma_desc_count r) * DESC_SIZE).
Definition buffer_at (r : Rt) (i : Z) : Z := u64 (ddr_hw_base r + i * dma_desc_bytes r).

Definition write_desc (r : Rt) (i : Z) : M unit :=
  let d w v := sio (desc_write hw i w v) in
  let! _ := sio (desc_clear hw i) in
  let! _ := d next_desc (u32 (next_addr r i)) in
  let! _ := d next_desc_msb (u32 (Z.shiftr (next_addr r i) 32)) in
  let! _ := d buffer_addr (u32 (buffer_at r i)) in
  let! _ := d buffer_addr_msb (u32 (Z.shiftr (buffer_at r i) 32)) in
  let! _ := d control (dma_desc_bytes r) in
  d status 0.
Fixpoint write_descs (r : Rt) (idx : list Z) : M unit :=
  match idx with
  | [] => eret tt
  | i :: idx => let! _ := write_desc r i in write_descs r idx
  end.

(** Whether the descriptor reads back as it was written. *)
Definition check_desc (r : Rt) (i : Z) : M bool :=
  let g w := sio (desc_read hw i w) in
  let! nd := g next_desc in
  if negb (nd =? u32 (next_addr r i)) then eret false else
  let! ndm := g next_desc_msb in
  if negb (ndm =? u32 (Z.shiftr (next_addr r i) 32)) then eret false else
  let! ba := g buffer_addr in
  if negb (ba =? u32 (buffer_at r i)) then eret false else
  let! bam := g buffer_addr_msb in
  if negb (bam =? u32 (Z.shiftr (buffer_at r i) 32)) then eret false else
  let! c := g control in
  if negb (c =? dma_desc_bytes r) then eret false else
  let! st := g status in
  if negb (st =? 0) then eret false else
  eret (negb ((buffer_at r i <? ddr_hw_base r) ||
              (u64 (ddr_hw_base r + dma_ring_bytes r) <? u64 (buffer_at r i + dma_desc_bytes r)))).
Fixpoint check_descs (r : Rt) (idx : list Z) : M bool :=
  match idx with
  | [] => eret true
  | i :: idx => let! ok := check_desc r i in if (ok : bool) then check_descs r idx else eret false
  end.

Definition indices (n : Z) : list Z := seqZ 0 n.

Definition dma_prepare_s2mm_ring (fuel : nat) (desc_bytes : Z) : M (exit + Z) :=
  let! r := get_rt in
  if desc_bytes =? 0 then eret (inl DivideByZero) else
  let desc_count := u32 (dma_ring_bytes r / desc_bytes) in
  let desc_capacity := u32 (desc_cpu_size r / DESC_SIZE) in
  if (dma_ring_bytes r =? 0) || negb (dma_ring_bytes r mod desc_bytes =? 0) ||
     (desc_count =? 0) || (desc_capacity =? 0) || (desc_capacity <? desc_count)
  then xret (-1) else
  let! _ := mod_rt (λ r, r <| dma_desc_bytes := desc_bytes |> <| dma_desc_count := desc_count |>
    <| dma_rx_packet_open := false |> <| dma_last_completed_bd := UINT32_MAX |>
    <| dma_last_completed_status := 0 |> <| dma_rxsof_count := 0 |> <| dma_rxeof_count := 0 |>
    <| dma_stop_latched := false |> <| dma_requeue_enabled := true |>
    <| dma_requeue_after_stop_count := 0 |> <| dma_hw_desc_count := desc_count |>) in
  let! r := get_rt in
  if dry_run r then let! _ := mod_rt (λ r, r <| next_harvest_bd := 0 |>) in xret 0 else
  let! _ := write_descs r (indices desc_count) in
  let! ok := check_descs r (indices desc_count) in
  if negb ok then xret (-1) else
  let? rc := dma_reset_full fuel in
  if negb (rc =? 0) then xret (-1) else
  let! _ := wr S2MM_DMASR DMA_IRQ_STATUS_MASK in
  let! _ := wr S2MM_CURDESC (u32 (desc_dma_base r)) in
  let! _ := wr S2MM_CURDESC_MSB (u32 (Z.shiftr (desc_dma_base r) 32)) in
  xret 0.

Definition desc_addr (r : Rt) (i : Z) : Z := u64 (desc_dma_base r + i * DESC_SIZE).

Definition dma_start_s2mm_ring (fuel : nat) : M (exit + Z) :=
  let! r := get_rt in
  if dma_desc_count r =? 0 then xret (-1) else
  if dry_run r then xret 0 else
  let! _ := wr S2MM_DMACR (Z.lor DMA_CR_RS_BIT 0x1000) in
  let! _ := wr S2MM_TAILDESC (u32 (desc_addr r (dma_desc_count r - 1))) in
  let! _ := wr S2MM_TAILDESC_MSB (u32 (Z.shiftr (desc_addr r (dma_desc_count r - 1)) 32)) in
  let? rc := wait_reg_bits fuel S2MM_DMASR DMA_SR_HALT_BIT 0 (timeout_us r) in
  if negb (rc =? 0) then xret (-1) else
  let! cr := rd S2MM_DMACR in
  let! sr := rd S2MM_DMASR in
  if negb (any cr DMA_CR_RS_BIT) || any sr DMA_ERROR_MASK_S2MM then xret (-1) else
  let! _ := mod_rt (λ r, r <| dma_hw_desc_count := dma_desc_count r |> <| next_harvest_bd := 0 |>
    <| dma_harvest_sequence := 0 |> <| dma_stop_latched := false |>
    <| dma_requeue_enabled := true |>) in
  xret 0.

Definition dma_init_s2mm_ring (fuel : nat) (desc_bytes : Z) : M (exit + Z) :=
  let? rc := dma_prepare_s2mm_ring fuel desc_bytes in
  if negb (rc =? 0) then xret (-1) else dma_start_s2mm_ring fuel.

(** *** Harvesting *)
Definition dry_item (r : Rt) : DmaHarvestItem :=
  mkItem (next_harvest_bd r) (dma_desc_bytes r) 0 (dma_harvest_sequence r).
Definition advance (r : Rt) : Rt :=
  r <| dma_harvest_sequence ::= λ n, u64 (n + 1) |>
    <| next_harvest_bd := u32 (next_harvest_bd r + 1) mod dma_desc_count r |>.
Fixpoint dry_harvest (n : nat) : M (list DmaHarvestItem) :=
  match n with
  | O => eret []
  | S n =>
      let! r := get_rt in
      let! _ := mod_rt advance in
      let! items := dry_harvest n in eret (dry_item r :: items)
  end.

(** The bookkeeping of a completed descriptor. *)
Definition note_packet (st : Z) (r : Rt) : Rt :=
  let r := if any st DESC_STS_RXSOF
           then r <| dma_rxsof_count ::= λ n, u64 (n + 1) |> <| dma_rx_packet_open := true |> else r in
  if any st DESC_STS_RXEOF
  then r <| dma_rxeof_count ::= λ n, u64 (n + 1) |> <| dma_rx_packet_open := false |> else r.

(** The loop over at most [n] items: the status and the items found. *)
Fixpoint harvest_loop (n : nat) (budget_us start_us : Z) (allow_halted : bool) :
    M (Z * list DmaHarvestItem) :=
  match n with
  | O => eret (0, [])
  | S n =>
    let! r := get_rt in
    let owned := dma_hw_desc_count r in
    if (owned =? 0) && negb allow_halted then eret (0, []) else
    let! dsr := rd S2MM_DMASR in
    if any dsr DMA_ERROR_MASK_S2MM || (negb allow_halted && any dsr DMA_SR_HALT_BIT)
    then eret (-1, []) else
    let idx := next_harvest_bd r in
    let! st := sio (desc_read hw idx status) in
    if negb (any st DESC_STS_CMPLT) then eret (0, []) else
    let! _ := mod_rt (λ r, r <| dma_last_completed_bd := idx |> <| dma_last_completed_status := st |>) in
    if any st DESC_STS_ERROR_MASK then eret (-1, []) else
    let item := mkItem idx (Z.land st DESC_STS_LEN_MASK) st (dma_harvest_sequence r) in
    let! _ := mod_rt (note_packet st) in
    let! _ := (if allow_halted then sio (desc_write hw idx status 0) else eret tt) in
    let! _ := mod_rt (λ r, advance (if owned =? 0 then r else r <| dma_hw_desc_count ::= λ n, u32 (n - 1) |>)) in
    let! late := (if budget_us =? 0 then eret false
                  else let! t := now in eret (budget_us <=? u64 (t - start_us))) in
    if (late : bool) then eret (0, [item]) else
    let! (rc, items) := harvest_loop n budget_us start_us allow_halted in
    eret (rc, item :: items)
  end.

Definition dma_harvest_batch_impl (max_items budget_us : Z) (allow_halted : bool) :
    M (Z * list DmaHarvestItem) :=
  if max_items =? 0 then eret (-1, []) else
  let! start_us := (if budget_us =? 0 then eret 0 else now) in
  let! r := get_rt in
  if dry_run r then let! items := dry_harvest (Z.to_nat max_items) in eret (0, items)
  else harvest_loop (Z.to_nat max_items) budget_us start_us allow_halted.

Definition dma_harvest_batch (max_items budget_us : Z) : M (Z * list DmaHarvestItem) :=
  dma_harvest_batch_impl max_items budget_us false.
Definition dma_harvest_completed_batch (max_items : Z) : M (Z * list DmaHarvestItem) :=
  dma_harvest_batch_impl max_items 0 true.
(** The status and the slot with its bytes, when there is one. *)
Definition dma_harvest_one : M (Z * option (Z * Z)) :=
  let! (rc, items) := dma_harvest_batch 1 0 in
  let found := match items with it :: _ => Some (slot it, actual_bytes it) | [] => None end in
  eret (if negb (rc =? 0) then -1 else match items with [] => 0 | _ => 1 end, found).

(** *** Handing back *)
Definition dma_latch_stop : M unit :=
  mod_rt (λ r, r <| dma_requeue_enabled := false |> <| dma_stop_latched := true |>).

Definition dma_requeue_one (sl : Z) : M Z :=
  let! r := get_rt in
  if dma_stop_latched r || negb (dma_requeue_enabled r) then
    let! _ := mod_rt (λ r, r <| dma_requeue_after_stop_count ::= λ n, u64 (n + 1) |>) in eret (-2)
  else if dry_run r || (dma_desc_count r <=? sl) then
    eret (if dry_run r && (sl <? dma_desc_count r) then 0 else -1)
  else
    let! _ := sio (desc_write hw sl status 0) in
    let! _ := wr S2MM_TAILDESC (u32 (desc_addr r sl)) in
    let! _ := wr S2MM_TAILDESC_MSB (u32 (Z.shiftr (desc_addr r sl) 32)) in
    let! sr := rd S2MM_DMASR in
    let! cr := rd S2MM_DMACR in
    if any sr (Z.lor DMA_ERROR_MASK_S2MM DMA_SR_HALT_BIT) || negb (any cr DMA_CR_RS_BIT)
    then eret (-1) else
    let! _ := mod_rt (λ r, r <| dma_hw_desc_count ::= λ n, u32 (n + 1) |>) in
    let! r := get_rt in
    if dma_desc_count r <? dma_hw_desc_count r then
      let! _ := mod_rt (λ r, r <| dma_hw_desc_count := dma_desc_count r |>) in eret (-1)
    else eret 0.

(** *** Snapshots *)
Definition dma_desc_address_to_index (r : Rt) (address : Z) : Z :=
  if address <? desc_dma_base r then UINT32_MAX else
  let offset := address - desc_dma_base r in
  if negb (offset mod DESC_SIZE =? 0) || (dma_desc_count r <=? offset / DESC_SIZE) then UINT32_MAX
  else u32 (offset / DESC_SIZE).

Definition read_pair (lo hi : Z) : M Z :=
  let! l := rd lo in let! h := rd hi in eret (Z.lor l (Z.shiftl h 32)).
Definition snapshot_registers (s : DmaBdSnapshot) : M DmaBdSnapshot :=
  let! r := get_rt in
  if dry_run r then eret s else
  let! sr := rd S2MM_DMASR in
  let! cr := rd S2MM_DMACR in
  let! cur := read_pair S2MM_CURDESC S2MM_CURDESC_MSB in
  let! tail := read_pair S2MM_TAILDESC S2MM_TAILDESC_MSB in
  eret (s <| s2mm_dmasr := sr |> <| s2mm_dmacr := cr |> <| curdesc_addr := cur |>
          <| taildesc_addr := tail |> <| curdesc_index := dma_desc_address_to_index r cur |>
          <| taildesc_index := dma_desc_address_to_index r tail |>).

Definition empty_snapshot (total : Z) : DmaBdSnapshot :=
  mkSnapshot total 0 0 0 0 0 0 UINT32_MAX UINT32_MAX 0 0 0 0 0.
Definition occupied (r : Rt) (s : DmaBdSnapshot) : DmaBdSnapshot :=
  s <| occupied_bytes_est := u64 (u32 (sn_completed_unharvested s + ready_slots s +
         nvme_busy_slots s + sn_requeue_pending s) * dma_desc_bytes r) |>.

(** [None]: a slot in no legal state. *)
Definition count_slot (i : Z) (state : StorageSlotState) (s : DmaBdSnapshot) :
    M (option DmaBdSnapshot) :=
  let inc (f : DmaBdSnapshot) : M (option DmaBdSnapshot) := eret (Some f) in
  match state with
  | STORAGE_SLOT_DMA_WRITABLE =>
      let! r := get_rt in
      let! st := (if dry_run r then eret 0 else sio (desc_read hw i status)) in
      if any st DESC_STS_CMPLT then inc (s <| sn_completed_unharvested ::= λ n, n + 1 |>)
      else inc (s <| sn_dma_writable ::= λ n, n + 1 |>)
  | STORAGE_SLOT_DMA_COMPLETED_UNHARVESTED => inc (s <| sn_completed_unharvested ::= λ n, n + 1 |>)
  | STORAGE_SLOT_READY_FOR_NVME => inc (s <| ready_slots ::= λ n, n + 1 |>)
  | STORAGE_SLOT_NVME_BUSY => inc (s <| nvme_busy_slots ::= λ n, n + 1 |>)
  | STORAGE_SLOT_REQUEUE_PENDING => inc (s <| sn_requeue_pending ::= λ n, n + 1 |>)
  | STORAGE_SLOT_FREE => inc (s <| free_slots ::= λ n, n + 1 |>)
  | STORAGE_SLOT_INVALID => eret None
  end.
Definition state_of (states : option (list StorageSlotState)) (i : Z) : StorageSlotState :=
  match states with
  | None => STORAGE_SLOT_DMA_WRITABLE
  | Some l => default STORAGE_SLOT_INVALID (l !! Z.to_nat i)
  end.
Fixpoint count_slots (states : option (list StorageSlotState)) (idx : list Z) (s : DmaBdSnapshot) :
    M (option DmaBdSnapshot) :=
  match idx with
  | [] => eret (Some s)
  | i :: idx =>
      let! o := count_slot i (state_of states i) s in
      match o with Some s => count_slots states idx s | None => eret None end
  end.

Definition dma_get_bd_snapshot (states : option (list StorageSlotState)) :
    M (option DmaBdSnapshot) :=
  let! r := get_rt in
  if dma_desc_count r =? 0 then eret None else
  let! s := snapshot_registers (empty_snapshot (dma_desc_count r)) in
  let! o := count_slots states (indices (dma_desc_count r)) s in
  eret (occupied r <$> o).

Definition dma_get_bd_snapshot_o1 (c : StorageSlotCounts) : M (option DmaBdSnapshot) :=
  let! r := get_rt in
  if dma_desc_count r =? 0 then eret None else
  let sum := u64 (dma_writable c + completed_unharvested c + ready c + nvme_busy c +
                  requeue_pending c + free_count c) in
  if negb (total c =? dma_desc_count r) || negb (sum =? total c) then eret None else
  let! s := snapshot_registers (mkSnapshot (total c) (dma_writable c) (completed_unharvested c)
    (ready c) (nvme_busy c) (requeue_pending c) (free_count c) UINT32_MAX UINT32_MAX 0 0 0 0 0) in
  eret (Some (occupied r s)).

(** *** Stopping *)
Definition dma_s2mm_tail_incomplete : M bool :=
  let! r := get_rt in
  if dry_run r || (dma_desc_count r =? 0) || negb (desc_valid r) then eret false else
  let! st := sio (desc_read hw (next_harvest_bd r) status) in
  eret (dma_rx_packet_open r || (negb (any st DESC_STS_CMPLT) && any st DESC_STS_LEN_MASK)).

(** The audit before a reset is allowed while the engine has not halted. *)
Definition dma_stop_reset_safe (states : option (list StorageSlotState)) : M bool :=
  let! r := get_rt in
  if negb (dma_stop_latched r) || dma_requeue_enabled r then
    let! _ := set_reason "stop_not_latched" in eret false else
  let! sr := (if dry_run r then eret 0 else rd S2MM_DMASR) in
  if any sr DMA_ERROR_MASK_S2MM then let! _ := set_reason "dma_error" in eret false else
  let! incomplete := (if dma_rx_packet_open r then eret true else dma_s2mm_tail_incomplete) in
  if (incomplete : bool) then let! _ := set_reason "tail_descriptor_incomplete" in eret false else
  let! snapshot := dma_get_bd_snapshot states in
  match snapshot with
  | None => let! _ := set_reason "slot_ownership_invariant_failed" in eret false
  | Some s =>
      let! _ := mod_report (λ r, r <| rp_completed_unharvested := sn_completed_unharvested s |>) in
      eret true
  end.

(** The report at the start of a stop. *)
Definition begin_report (cr next_status : Z) (states : option (list StorageSlotState)) : M unit :=
  let! s := sget in
  match report s with
  | None => eret tt
  | Some _ =>
      let r := rt s in
      let! sr := rd S2MM_DMASR in
      let! cur := rd S2MM_CURDESC in
      let! tail := rd S2MM_TAILDESC in
      let! curh := rd S2MM_CURDESC_MSB in
      let! tailh := rd S2MM_TAILDESC_MSB in
      let! _ := mod_report (λ _,
        mkReport cr sr 0 0 cur tail (Z.lor cur (Z.shiftl curh 32)) (Z.lor tail (Z.shiftl tailh 32))
          (next_harvest_bd r) next_status (dma_hw_desc_count r) (dma_rxsof_count r)
          (dma_rxeof_count r) (dma_rx_packet_open r) false 0 false 0 "") in
      let! snapshot := dma_get_bd_snapshot states in
      mod_report (λ p, (match snapshot with
                        | Some sn => p <| rp_completed_unharvested := sn_completed_unharvested sn |>
                        | None => p end) <| result := DMA_STOP_FAILED |>)
  end.

(** The registers after the stop, for the report. *)
Definition end_report (res : Z) (text : string) (confirmed : bool) : M unit :=
  let! s := sget in
  match report s with
  | None => eret tt
  | Some _ =>
      let! _ := mod_report (λ p, (if confirmed then p <| safe_reset_confirmed := true |> else p)
                                   <| result := res |>) in
      let! _ := set_reason text in
      let! cr := rd S2MM_DMACR in
      let! sr := rd S2MM_DMASR in
      mod_report (λ p, p <| s2mm_cr_after := cr |> <| s2mm_sr_after := sr |>)
  end.

(** The deadline has passed and the engine has not halted. *)
Definition recover_idle (fuel : nat) (states : option (list StorageSlotState)) (sr : Z) :
    M (exit + Z) :=
  let! safe := (match states with None => eret false | Some _ => dma_stop_reset_safe states end) in
  if negb safe then
    let! _ := mod_report (λ p, p <| s2mm_sr_after := sr |>) in xret DMA_STOP_FAILED else
  let! _ := mod_report (λ p, p <| reset_attempted := true |>) in
  let? rc := dma_reset_full fuel in
  if negb (rc =? 0) then let! _ := set_reason "dma_reset_failed" in xret DMA_STOP_FAILED else
  let! _ := mod_rt (λ r, r <| dma_hw_desc_count := 0 |>) in
  let! _ := end_report DMA_STOP_RESET_RECOVERED "idle_safe_reset" true in
  xret DMA_STOP_RESET_RECOVERED.

Fixpoint halt_loop (fuel : nat) (deadline_us : Z) (states : option (list StorageSlotState)) :
    M (exit + Z) :=
  match fuel with
  | O => eret (inl OutOfFuel)
  | S fuel =>
    let! sr := rd S2MM_DMASR in
    if any sr DMA_ERROR_MASK_S2MM then
      let! _ := set_reason "dma_error" in
      let! _ := mod_report (λ p, p <| s2mm_sr_after := sr |>) in xret DMA_STOP_FAILED
    else if any sr DMA_SR_HALT_BIT then
      let! _ := end_report DMA_STOP_OK "halted" false in xret DMA_STOP_OK
    else
    let! expired := (if deadline_us =? 0 then eret false
                     else let! t := now in eret (deadline_us <=? t)) in
    if (expired : bool) then recover_idle fuel states sr
    else
      let! _ := now in
      let! _ := sio (pause hw) in halt_loop fuel deadline_us states
  end.

Definition dma_quiesce_s2mm_with_state (fuel : nat) (deadline_us : Z)
    (states : option (list StorageSlotState)) : M (exit + Z) :=
  let! r := get_rt in
  if dry_run r then
    let! _ := mod_report (λ _, zero_report <| result := DMA_STOP_OK |> <| reason := "dry_run"%string |>) in
    xret DMA_STOP_OK
  else
  let! deadline_us := (if deadline_us =? 0 then let! t := now in eret (u64 (t + DEFAULT_TIMEOUT_US))
                       else eret deadline_us) in
  let! next_status :=
    (if desc_valid r && (0 <? dma_desc_count r) && (next_harvest_bd r <? dma_desc_count r)
     then sio (desc_read hw (next_harvest_bd r) status) else eret 0) in
  let! cr := rd S2MM_DMACR in
  let! _ := begin_report cr next_status states in
  let! _ := wr S2MM_DMACR (Z.ldiff cr DMA_CR_RS_BIT) in
  halt_loop fuel deadline_us states.

Definition dma_quiesce_s2mm (fuel : nat) (deadline_us : Z) : M (exit + Z) :=
  let? r := dma_quiesce_s2mm_with_state fuel deadline_us None in
  xret (if r =? DMA_STOP_FAILED then -1 else 0).

(** The audit before the final reset: [Some reason] when it must not happen. *)
Definition final_audit (states : option (list StorageSlotState)) : M (option string) :=
  match states with
  | None => eret None
  | Some _ =>
    let! incomplete := dma_s2mm_tail_incomplete in
    if (incomplete : bool) then eret (Some "tail_descriptor_incomplete"%string) else
    let! snapshot := dma_get_bd_snapshot states in
    match snapshot with
    | None => eret (Some "slot_ownership_invariant_failed"%string)
    | Some s =>
        if sn_completed_unharvested s =? 0 then eret None else
        let! _ := mod_report (λ p, p <| rp_completed_unharvested := sn_completed_unharvested s |>) in
        eret (Some "completed_unharvested"%string)
    end
  end.

Definition dma_finalize_stop_s2mm_with_state (fuel : nat) (states : option (list StorageSlotState)) :
    M (exit + Z) :=
  let! s := sget in
  let r := rt s in
  if dry_run r then xret DMA_STOP_OK else
  if match report s with
     | Some p => (result p =? DMA_STOP_RESET_RECOVERED) && safe_reset_confirmed p
     | None => false end
  then xret DMA_STOP_RESET_RECOVERED else
  if bool_decide (is_Some states) && (negb (dma_stop_latched r) || dma_requeue_enabled r) then
    let! _ := set_reason "stop_not_latched" in xret DMA_STOP_FAILED else
  let! problem := final_audit states in
  match problem with
  | Some text => let! _ := set_reason text in xret DMA_STOP_FAILED
  | None =>
    let! _ := mod_rt (λ r, r <| dma_hw_desc_count := 0 |>) in
    let! _ := mod_report (λ p, p <| reset_attempted := true |>) in
    let? rc := dma_reset_full fuel in
    if negb (rc =? 0) then
      let! _ := mod_report (λ p, p <| result := DMA_STOP_FAILED |>) in
      let! _ := set_reason "dma_reset_failed" in xret DMA_STOP_FAILED
    else
      let! _ := end_report DMA_STOP_OK "full_reset" false in xret DMA_STOP_OK
  end.
Definition dma_finalize_stop_s2mm (fuel : nat) : M (exit + Z) :=
  dma_finalize_stop_s2mm_with_state fuel None.

Definition dma_stop_s2mm (fuel : nat) : M (exit + Z) :=
  let! r := get_rt in
  let! t := now in
  let deadline := u64 (t + (if timeout_us r =? 0 then DEFAULT_TIMEOUT_US else timeout_us r)) in
  let? rc := dma_quiesce_s2mm fuel deadline in
  if negb (rc =? 0) then xret DMA_STOP_FAILED else dma_finalize_stop_s2mm fuel.
End Ring.
End ccb_dma.
