(* ===== verification/DmaSafe.v ===== *)
(** * What the descriptor ring guarantees

    Whatever the hardware answers: descriptors are harvested in ring order and
    only when complete; on a device that has stopped, harvesting returns each
    completed descriptor exactly once; after the stop is latched nothing is
    handed back to the hardware; a running engine is reset only after the audit
    of its ownership has passed. *)
From S2P Require Import Prelude SlotTable DmaRing.

Module ccb_dma_safety.
Import storage_queue ccb_dma.

(** ** Ring order *)
Record in_order (r r' : Rt) (items : list DmaHarvestItem) : Prop := {
  io_slots : ∀ i it, items !! i = Some it →
    slot it = (next_harvest_bd r + Z.of_nat i) mod dma_desc_count r ∧
    submission_sequence it = u64 (dma_harvest_sequence r + Z.of_nat i);
  io_next : next_harvest_bd r' = (next_harvest_bd r + Z.of_nat (length items)) mod dma_desc_count r;
  io_sequence : dma_harvest_sequence r' = u64 (dma_harvest_sequence r + Z.of_nat (length items));
  io_owned : dma_hw_desc_count r' = Z.max 0 (dma_hw_desc_count r - Z.of_nat (length items));
  io_count : dma_desc_count r' = dma_desc_count r;
  io_flags : dma_stop_latched r' = dma_stop_latched r ∧
             dma_requeue_enabled r' = dma_requeue_enabled r }.

(** The ring as [dma_prepare_s2mm_ring] leaves it. *)
Record ring_ok (r : Rt) : Prop := {
  rk_count : 0 < dma_desc_count r <= UINT32_MAX;
  rk_next : 0 <= next_harvest_bd r < dma_desc_count r;
  rk_sequence : is_u64 (dma_harvest_sequence r);
  rk_owned : is_u32 (dma_hw_desc_count r) }.

Lemma in_order_nil r r' :
  ring_ok r → next_harvest_bd r' = next_harvest_bd r →
  dma_harvest_sequence r' = dma_harvest_sequence r → dma_hw_desc_count r' = dma_hw_desc_count r →
  dma_desc_count r' = dma_desc_count r → dma_stop_latched r' = dma_stop_latched r →
  dma_requeue_enabled r' = dma_requeue_enabled r → in_order r r' [].
Proof.
  intros [] H1 H2 H3 H4 H5 H6. split; rewrite ?H1, ?H2, ?H3; simpl; try done.
  - by rewrite Z.add_0_r, Z.mod_small.
  - by rewrite Z.add_0_r, u64_small.
  - cint.
Qed.

(** One descriptor taken. *)
Definition taken (r : Rt) : Rt :=
  advance (if dma_hw_desc_count r =? 0 then r else r <| dma_hw_desc_count ::= λ n, u32 (n - 1) |>).

Lemma taken_ok r :
  ring_ok r → ring_ok (taken r) ∧
  next_harvest_bd (taken r) = (next_harvest_bd r + 1) mod dma_desc_count r ∧
  dma_harvest_sequence (taken r) = u64 (dma_harvest_sequence r + 1) ∧
  dma_hw_desc_count (taken r) = Z.max 0 (dma_hw_desc_count r - 1) ∧
  dma_desc_count (taken r) = dma_desc_count r.
Proof.
  intros [Hc Hn Hs Ho].
  assert (Hm : 0 <= (next_harvest_bd r + 1) mod dma_desc_count r < dma_desc_count r)
    by (apply Z.mod_pos_bound; lia).
  assert (Hu : u32 (next_harvest_bd r + 1) = next_harvest_bd r + 1) by (apply u32_small; cint).
  unfold taken. destruct (dma_hw_desc_count r =? 0) eqn:E; simpl; rewrite Hu; split_and!; try done;
    try (split; simpl; rewrite ?Hu; try done; auto with cint; cint); try cint.
  rewrite u32_small by cint. cint.
Qed.

Lemma in_order_cons r r' st items :
  ring_ok r → in_order (taken r) r' items →
  dma_stop_latched r' = dma_stop_latched r → dma_requeue_enabled r' = dma_requeue_enabled r →
  in_order r r' (mkItem (next_harvest_bd r) (Z.land st DESC_STS_LEN_MASK) st (dma_harvest_sequence r) :: items).
Proof.
  intros Hr [Hs Hn Hq Ho Hc _] Hl Hrq. destruct (taken_ok r Hr) as (_ & Tn & Ts & To & Tc).
  rewrite Tn, Ts, To, Tc in *. destruct Hr as [Hcnt Hnx Hsq Hown]. split; try done; simpl length.
  - intros [|i] it Hi; simpl in Hi.
    + injection Hi as <-. simpl. by rewrite !Z.add_0_r, Z.mod_small, u64_small.
    + destruct (Hs i it Hi) as [-> ->]. unfold u64, uwrap.
      rewrite !Zplus_mod_idemp_l. split; f_equal; lia.
  - rewrite Hn, Zplus_mod_idemp_l. f_equal. lia.
  - rewrite Hq. unfold u64, uwrap. rewrite Zplus_mod_idemp_l. f_equal. lia.
  - rewrite Ho. lia.
Qed.

Definition same_ring (r r' : Rt) : Prop :=
  next_harvest_bd r' = next_harvest_bd r ∧ dma_harvest_sequence r' = dma_harvest_sequence r ∧
  dma_hw_desc_count r' = dma_hw_desc_count r ∧ dma_desc_count r' = dma_desc_count r ∧
  dma_stop_latched r' = dma_stop_latched r ∧ dma_requeue_enabled r' = dma_requeue_enabled r.

#[export] Instance same_ring_preorder : PreOrder same_ring.
Proof.
  split; [by intros r|]. unfold same_ring. intros r1 r2 r3 H1 H2. destruct_and!. split_and!; congruence.
Qed.
Lemma ring_ok_same r r' : same_ring r r' → ring_ok r → ring_ok r'.
Proof. intros (H1 & H2 & H3 & H4 & _) []. split; rewrite ?H1, ?H2, ?H3, ?H4; done. Qed.
Lemma in_order_same r1 r r' items : same_ring r r1 → in_order r1 r' items → in_order r r' items.
Proof.
  intros (H1 & H2 & H3 & H4 & H5 & H6) [].
  split; rewrite <-?H1, <-?H2, <-?H3, <-?H4, <-?H5, <-?H6; done.
Qed.
Lemma same_note st r : same_ring r (note_packet st r).
Proof. unfold note_packet, same_ring. by destruct (any st DESC_STS_RXSOF), (any st DESC_STS_RXEOF). Qed.

Definition item_complete (it : DmaHarvestItem) : Prop :=
  any (descriptor_status it) DESC_STS_CMPLT = true ∧
  any (descriptor_status it) DESC_STS_ERROR_MASK = false ∧
  actual_bytes it = Z.land (descriptor_status it) DESC_STS_LEN_MASK.

(** What a harvest of at most [n] items promises. *)
Definition harvested (n : nat) (allow_halted : bool) (r : Rt) (res : Z * list DmaHarvestItem)
    (r' : Rt) : Prop :=
  (length res.2 <= n)%nat ∧ in_order r r' res.2 ∧ Forall item_complete res.2 ∧
  (res.1 = 0 ∨ res.1 = -1) ∧
  (allow_halted = false → Z.of_nat (length res.2) <= dma_hw_desc_count r).

Lemma harvested_nil n ah r r' rc :
  ring_ok r → same_ring r r' → rc = 0 ∨ rc = -1 → harvested n ah r (rc, []) r'.
Proof.
  intros Hr (H1 & H2 & H3 & H4 & H5 & H6) Hrc.
  split_and!; simpl; [lia|by apply in_order_nil|constructor|done|intros _; destruct Hr; cint].
Qed.

Lemma harvested_cons n ah r r1 r' st rc items :
  ring_ok r → same_ring r r1 → harvested n ah (taken r1) (rc, items) r' →
  (ah = false → dma_hw_desc_count r ≠ 0) →
  any st DESC_STS_CMPLT = true → any st DESC_STS_ERROR_MASK = false →
  harvested (S n) ah r
    (rc, mkItem (next_harvest_bd r) (Z.land st DESC_STS_LEN_MASK) st (dma_harvest_sequence r) :: items) r'.
Proof.
  intros Hr Hs (Hl & Ho & Hi & Hrc & Hah) Hne Hc He. cbn [fst snd] in *.
  pose proof (ring_ok_same _ _ Hs Hr) as Hr1. destruct (taken_ok r1 Hr1) as (_ & _ & _ & To & _).
  assert (Hf : dma_stop_latched r' = dma_stop_latched r1 ∧ dma_requeue_enabled r' = dma_requeue_enabled r1).
  { destruct (io_flags _ _ _ Ho) as [-> ->]. unfold taken. by destruct (_ =? 0). }
  pose proof (in_order_cons r1 r' st items Hr1 Ho (proj1 Hf) (proj2 Hf)) as Hcons.
  pose proof Hs as (H1 & H2 & H3 & _). rewrite H1, H2 in Hcons.
  split_and!; simpl; [lia|by apply (in_order_same r1)|by constructor|done|].
  intros Ha. specialize (Hah Ha). specialize (Hne Ha). rewrite To, H3 in Hah. destruct Hr. cint.
Qed.

Lemma harvest_loop_spec {W} (hw : DmaHw W) n budget start ah s w :
  ring_ok (rt s) →
  wp (harvest_loop hw n budget start ah) (λ res st, harvested n ah (rt s) res (rt st.1)) (s, w).
Proof.
  revert s w; induction n as [|n IH]; intros s w Hr; [by apply harvested_nil; auto|].
  simpl harvest_loop. apply wp_bind, wp_bind, wp_sget, wp_ret.
  destruct (_ && negb ah) eqn:Hown; [by apply harvested_nil; auto|].
  apply wp_bind, wp_sio_any. intros dsr w1.
  destruct (_ || _); [by apply harvested_nil; auto|].
  apply wp_bind, wp_sio_any. intros st w2.
  destruct (any st DESC_STS_CMPLT) eqn:Hc; simpl negb; cbv iota; [|by apply harvested_nil; auto].
  apply wp_bind, wp_smod. destruct (any st DESC_STS_ERROR_MASK) eqn:He; [by apply harvested_nil; auto|].
  apply wp_bind, wp_smod.
  set (r1 := note_packet st ((rt s) <| dma_last_completed_bd := next_harvest_bd (rt s) |>
                                  <| dma_last_completed_status := st |>)).
  assert (Hs1 : same_ring (rt s) r1) by (etrans; [|apply same_note]; done).
  apply wp_bind.
  assert (Hrest : ∀ w3, wp
    (let! _ := mod_rt (λ r, advance (if dma_hw_desc_count (rt s) =? 0 then r
                                     else r <| dma_hw_desc_count ::= λ n, u32 (n - 1) |>)) in
     let! late := (if budget =? 0 then eret false
                   else let! t := now hw in eret (budget <=? u64 (t - start))) in
     if (late : bool) then eret (0, [mkItem (next_harvest_bd (rt s)) (Z.land st DESC_STS_LEN_MASK) st
                                       (dma_harvest_sequence (rt s))])
     else let! (rc, items) := harvest_loop hw n budget start ah in
          eret (rc, mkItem (next_harvest_bd (rt s)) (Z.land st DESC_STS_LEN_MASK) st
                      (dma_harvest_sequence (rt s)) :: items))
    (λ res st, harvested (S n) ah (rt s) res (rt st.1)) (mkState r1 (report s), w3)).
  { intros w3. apply wp_bind, wp_smod. set (s2 := upd rt _ _).
    assert (Hs2 : rt s2 = taken r1).
    { unfold s2, taken. simpl. destruct Hs1 as (_ & _ & -> & _). done. }
    destruct (taken_ok r1 (ring_ok_same _ _ Hs1 Hr)) as [Hr2 _]. rewrite <-Hs2 in Hr2.
    assert (Hne : ah = false → dma_hw_desc_count (rt s) ≠ 0) by (intros ->; lia).
    apply wp_bind. eapply (wp_mono _ (λ _ st, st.1 = s2)).
    { destruct (budget =? 0); [done|]. apply wp_bind, wp_sio_any. done. }
    intros late [s3 w4] Heq. simpl in Heq. subst s3. destruct late.
    - apply wp_ret. eapply harvested_cons; try done.
      rewrite <-Hs2. by apply harvested_nil; auto.
    - apply wp_bind. eapply wp_mono; [by apply IH|]. intros [rc items] [s5 w5] Hh. apply wp_ret.
      eapply harvested_cons; try done. by rewrite <-Hs2. }
  destruct ah; [apply wp_sio_any; intros _ w3; apply Hrest|apply Hrest].
Qed.

(** Descriptors are harvested in ring order.  Whatever the registers, the
    descriptor memory and the clock answer, a harvest returns at most
    [max_items] items; their slots follow one another around the ring from the
    harvest position and their sequence numbers are consecutive; each was read
    as completed and without error bits; the position, the sequence and the
    count of descriptors owned by the hardware move by the number of items; and
    while the engine runs no more are harvested than the hardware owned. *)
Theorem dma_harvest_in_order (W : Type) (hw : DmaHw W) (max_items budget_us : Z)
    (allow_halted : bool) (s : State) (w : W) :
  ring_ok (rt s) → dry_run (rt s) = false → 0 < max_items →
  let '((rc, items), (s', _)) := dma_harvest_batch_impl hw max_items budget_us allow_halted (s, w) in
  harvested (Z.to_nat max_items) allow_halted (rt s) (rc, items) (rt s').
Proof.
  intros Hr Hd Hm.
  assert (H : wp (dma_harvest_batch_impl hw max_items budget_us allow_halted)
    (λ res st, harvested (Z.to_nat max_items) allow_halted (rt s) res (rt st.1)) (s, w)).
  { unfold dma_harvest_batch_impl. replace (max_items =? 0) with false by lia. apply wp_bind.
    eapply (wp_mono _ (λ _ st, st.1 = s)).
    { destruct (budget_us =? 0); [done|by apply wp_sio_any]. }
    intros start [s1 w1] Heq. simpl in Heq. subst s1.
    apply wp_bind, wp_bind, wp_sget, wp_ret. rewrite Hd. by apply harvest_loop_spec. }
  unfold wp in H. by destruct (dma_harvest_batch_impl _ _ _ _ _) as [[rc items] [s' w']].
Qed.

(** ** A device that has stopped *)
Record still {W} (hw : DmaHw W) (mem : W → list Z) : Prop := {
  st_reg : ∀ off w, mem (reg_read32 hw off w).2 = mem w;
  st_error : ∀ w, any (reg_read32 hw S2MM_DMASR w).1 DMA_ERROR_MASK_S2MM = false;
  st_read : ∀ i w, (desc_read hw (Z.of_nat i) status w).1 = default 0 (mem w !! i) ∧
                   mem (desc_read hw (Z.of_nat i) status w).2 = mem w;
  st_write : ∀ i v w, mem (desc_write hw (Z.of_nat i) status v w).2 = <[i := v]> (mem w) }.

(** The ring from position [p], and its leading completed descriptors. *)
Definition rotated (p : nat) (l : list Z) : list Z := drop p l ++ take p l.
Fixpoint completed_run (l : list Z) : list Z :=
  match l with
  | st :: l => if any st DESC_STS_CMPLT then st :: completed_run l else []
  | [] => []
  end.

Lemma completed_run_snoc l : completed_run (l ++ [0]) = completed_run l.
Proof. induction l as [|st l IH]; [done|]. simpl. by rewrite IH. Qed.

Lemma rotated_cons p l st :
  l !! p = Some st →
  rotated p l = st :: (drop (S p) l ++ take p l).
Proof. intros H. unfold rotated. by rewrite (drop_S _ _ _ H). Qed.

Lemma rotated_step p l st v :
  l !! p = Some st →
  rotated (if decide (S p = length l) then 0 else S p)%nat (<[p := v]> l) =
  (drop (S p) l ++ take p l) ++ [v].
Proof.
  intros H. assert (Hp := lookup_lt_Some _ _ _ H).
  rewrite insert_take_drop by done. unfold rotated. case_decide as Hlast.
  - rewrite drop_0, take_0, app_nil_r. by rewrite (drop_ge l (S p)) by lia.
  - assert (Hl : length (take p l) = p) by (rewrite length_take; lia).
    replace (take p l ++ v :: drop (S p) l) with ((take p l ++ [v]) ++ drop (S p) l)
      by by rewrite <-(assoc_L (++)).
    rewrite drop_app_length', take_app_length' by (rewrite length_app; simpl; lia).
    by rewrite (assoc_L (++)).
Qed.

Lemma completed_run_length l : (length (completed_run l) <= length l)%nat.
Proof. induction l as [|st l IH]; simpl; [lia|]. destruct (any st DESC_STS_CMPLT); simpl; lia. Qed.

Definition still_post (n : nat) (mem0 : list Z) (p : nat) (res : Z * list DmaHarvestItem)
    (r' : Rt) (mem' : list Z) : Prop :=
  let taken_ := take n (completed_run (rotated p mem0)) in
  res.1 = 0 ∧ descriptor_status <$> res.2 = taken_ ∧
  length mem' = length mem0 ∧
  rotated (Z.to_nat (next_harvest_bd r')) mem' =
    drop (length taken_) (rotated p mem0) ++ replicate (length taken_) 0.

(** One more item in front. *)
Lemma still_post_cons n mem0 p st it items r' mem' rc :
  mem0 !! p = Some st → any st DESC_STS_CMPLT = true → descriptor_status it = st →
  still_post n (<[p := 0]> mem0) (if decide (S p = length mem0) then 0 else S p)%nat (rc, items) r' mem' →
  still_post (S n) mem0 p (rc, it :: items) r' mem'.
Proof.
  intros Hlk Hc Hit (Hrc & Hitems & Hlen & Hrot). unfold still_post. cbn [fst snd] in *.
  rewrite length_insert in Hlen.
  rewrite rotated_step with (st := st), completed_run_snoc in Hitems, Hrot by done.
  rewrite rotated_cons with (st := st) by done. simpl completed_run. rewrite Hc. simpl take.
  simpl length. simpl drop. set (k := length (take n _)) in *.
  assert (Hk : (k <= length (drop (S p) mem0 ++ take p mem0))%nat).
  { subst k. rewrite length_take. pose proof (completed_run_length (drop (S p) mem0 ++ take p mem0)). lia. }
  split_and!; try done.
  - rewrite fmap_cons, Hitems. by rewrite Hit.
  - rewrite Hrot, drop_app_le by done. by rewrite <-(assoc_L (++)).
Qed.

Lemma harvest_still {W} (hw : DmaHw W) mem n s w :
  still hw mem → ring_ok (rt s) → Z.of_nat (length (mem w)) = dma_desc_count (rt s) →
  (∀ st, st ∈ mem w → any st DESC_STS_CMPLT = true → any st DESC_STS_ERROR_MASK = false) →
  wp (harvest_loop hw n 0 0 true)
     (λ res st, still_post n (mem w) (Z.to_nat (next_harvest_bd (rt s))) res (rt st.1) (mem st.2))
     (s, w).
Proof.
  intros Hst. revert s w; induction n as [|n IH]; intros s w Hr Hlen Herr.
  { unfold still_post, wp. simpl. by rewrite take_0, drop_0, app_nil_r. }
  set (p := Z.to_nat (next_harvest_bd (rt s))).
  assert (Hp : (p < length (mem w))%nat) by (destruct Hr; lia).
  destruct (lookup_lt_is_Some_2 _ _ Hp) as [st Hlk].
  simpl harvest_loop. apply wp_bind, wp_bind, wp_sget, wp_ret. rewrite andb_false_r.
  apply wp_bind, wp_sio. unfold wp at 1. rewrite (st_error _ _ Hst). simpl orb. cbv iota.
  pose proof (st_reg _ _ Hst S2MM_DMASR w) as Hm1.
  destruct (reg_read32 hw S2MM_DMASR w) as [dsr w1]. simpl in Hm1. cbn [fst snd].
  apply wp_bind, wp_sio. unfold wp at 1.
  replace (next_harvest_bd (rt s)) with (Z.of_nat p) by (destruct Hr; lia).
  destruct (st_read _ _ Hst p w1) as [Hread Hm2]. rewrite Hm1, Hlk in Hread. rewrite Hm1 in Hm2.
  destruct (desc_read hw (Z.of_nat p) status w1) as [st' w2]. simpl in Hread, Hm2. subst st'.
  cbn [fst snd]. pose proof (rotated_cons p (mem w) st Hlk) as Hrot.
  destruct (any st DESC_STS_CMPLT) eqn:Hc; simpl negb; cbv iota.
  2:{ unfold still_post, wp, eret. cbn [fst snd]. fold p. rewrite Hrot. simpl. rewrite Hc. simpl.
      rewrite Hm2, app_nil_r. by rewrite Hrot. }
  rewrite (Herr st) by (done || by eapply list_elem_of_lookup_2).
  apply wp_bind, wp_smod, wp_bind, wp_smod, wp_bind, wp_sio. unfold wp at 1.
  pose proof (st_write _ _ Hst p 0 w2) as Hm3. rewrite Hm2 in Hm3.
  destruct (desc_write hw (Z.of_nat p) status 0 w2) as [[] w3]. simpl in Hm3. cbn [fst snd].
  apply wp_bind, wp_smod. set (s2 := upd rt _ _).
  set (r1 := note_packet st ((rt s) <| dma_last_completed_bd := Z.of_nat p |>
                                    <| dma_last_completed_status := st |>)).
  assert (Hs1 : same_ring (rt s) r1) by (etrans; [|apply same_note]; done).
  assert (Hs2 : rt s2 = taken r1) by (unfold s2, taken; simpl; by destruct Hs1 as (_ & _ & -> & _)).
  destruct (taken_ok r1 (ring_ok_same _ _ Hs1 Hr)) as (Hr2 & Hnx & _ & _ & Hcnt).
  rewrite <-Hs2 in Hr2, Hnx, Hcnt. destruct Hs1 as (Hn1 & _ & _ & Hc1 & _).
  rewrite Hn1, Hc1 in Hnx. rewrite Hc1 in Hcnt. clearbody s2. clear Hs2 r1 Hn1 Hc1.
  apply wp_bind, wp_ret. cbv iota. apply wp_bind. eapply wp_mono.
  { apply IH; [done|rewrite Hm3, length_insert; lia|]. rewrite Hm3.
    intros x Hx%list_elem_of_lookup_1 Hxc. destruct Hx as [k Hk].
    apply list_lookup_insert_Some in Hk as [(_ & <- & _)|[_ Hk]]; [done|].
    apply Herr; [by eapply list_elem_of_lookup_2|done]. }
  intros [rc items] [s3 w4] Hpost. apply wp_ret. cbn [fst snd] in *. rewrite Hm3 in Hpost.
  eapply still_post_cons; [done..|].
  replace (if decide (S p = length (mem w)) then 0%nat else S p) with (Z.to_nat (next_harvest_bd (rt s2)));
    [done|].
  rewrite Hnx. pose proof (rk_next _ Hr). case_decide as Hd.
  - replace (next_harvest_bd (rt s) + 1) with (dma_desc_count (rt s)) by lia. by rewrite Z.mod_same by lia.
  - rewrite Z.mod_small by lia. lia.
Qed.

(** A memory of status words behind registers that read as zero. *)
Definition mem_hw : DmaHw (list Z) :=
  mkHw (λ _ l, (0, l)) (λ _ _ l, (tt, l))
    (λ i f l, (match f with status => default 0 (l !! Z.to_nat i) | _ => 0 end, l))
    (λ i f v l, (tt, match f with status => <[Z.to_nat i := v]> l | _ => l end))
    (λ _ l, (tt, l)) (λ l, (0, l)) (λ l, (tt, l)).
Lemma mem_hw_still : still mem_hw (λ l, l).
Proof. split; try done; intros; simpl; by rewrite Nat2Z.id. Qed.
Definition witness_state : State :=
  mkState (mkRt 0x40000000 256 0x10000000 true false 1000 3 4096 16384 4 4 0 0 9 0 0 false true false 0)
    None.
Definition done_ (bytes : Z) : Z := Z.lor DESC_STS_CMPLT bytes.
Lemma witness_ring : ring_ok (rt witness_state).
Proof. split; simpl; cint. Qed.

Lemma dma_harvest_in_order_witness :
  let '((rc, items), (s', _)) :=
    dma_harvest_batch_impl mem_hw 10 0 true (witness_state, [done_ 100; 0; done_ 7; done_ 50]) in
  harvested 10 true (rt witness_state) (rc, items) (rt s') ∧
  slot <$> items = [3; 0] ∧ submission_sequence <$> items = [9; 10].
Proof.
  pose proof (dma_harvest_in_order (list Z) mem_hw 10 0 true witness_state
    [done_ 100; 0; done_ 7; done_ 50] witness_ring eq_refl ltac:(lia)) as H.
  destruct (dma_harvest_batch_impl _ _ _ _ _) as [[rc items] [s' w']] eqn:E.
  split; [exact H|]. clear H. vm_compute in E. by injection E as <- <- <- <-.
Defined.

(** The item of the [i]-th descriptor from the harvest position, with the status
    word [st]: its slot, its length, its place in the sequence. *)
Definition item_at (r : Rt) (i : nat) (st : Z) : DmaHarvestItem :=
  mkItem ((next_harvest_bd r + Z.of_nat i) mod dma_desc_count r) (Z.land st 0x03FFFFFF) st
    ((dma_harvest_sequence r + Z.of_nat i) mod 2 ^ 64).

Lemma harvested_items n ah r rc items r' sts :
  harvested n ah r (rc, items) r' → descriptor_status <$> items = sts →
  items = imap (item_at r) sts.
Proof.
  intros (_ & Ho & Hf & _) <-. cbn [fst snd] in *. apply list_eq. intros i.
  rewrite list_lookup_imap, list_lookup_fmap. destruct (items !! i) as [it|] eqn:Hi; [|done]. simpl.
  destruct (io_slots _ _ _ Ho i it Hi) as [Hs Hq].
  destruct (Forall_lookup_1 _ _ _ _ Hf Hi) as (_ & _ & Hb). unfold item_at.
  destruct it as [sl by_ st sq]. simpl in *. by subst.
Qed.

(** C15: On a device that has stopped, every completed descriptor is harvested
    exactly once.  When the memory keeps what is written and no error is
    reported, a harvest of completed descriptors succeeds and returns, in ring
    order, the leading run of completed descriptors, as many as [max_items]
    allows: the [i]-th item has the [i]-th slot around the ring from the harvest
    position, the length its status word gives and the next sequence number.
    The position, the sequence and the count of descriptors owned by the
    hardware move by the number of items; seen from the
    new position the ring holds what is left of it, followed by as many cleared
    words as there are items.  So a repeated harvest goes on where this one
    ended and the run ends when it is used up. *)
Theorem dma_harvest_completed_exact (W : Type) (hw : DmaHw W) (mem : W → list Z)
    (max_items : Z) (s : State) (w : W) :
  still hw mem → ring_ok (rt s) → dry_run (rt s) = false → 0 < max_items →
  Z.of_nat (length (mem w)) = dma_desc_count (rt s) →
  (∀ st, st ∈ mem w → any st DESC_STS_CMPLT = true → any st DESC_STS_ERROR_MASK = false) →
  let '((rc, items), (s', w')) := dma_harvest_completed_batch hw max_items (s, w) in
  let run := take (Z.to_nat max_items)
    (completed_run (rotated (Z.to_nat (next_harvest_bd (rt s))) (mem w))) in
  let moved := Z.of_nat (length run) in
  rc = 0 ∧ items = imap (item_at (rt s)) run ∧
  next_harvest_bd (rt s') = (next_harvest_bd (rt s) + moved) mod dma_desc_count (rt s) ∧
  dma_harvest_sequence (rt s') = (dma_harvest_sequence (rt s) + moved) mod 2 ^ 64 ∧
  dma_hw_desc_count (rt s') = Z.max 0 (dma_hw_desc_count (rt s) - moved) ∧
  length (mem w') = length (mem w) ∧
  rotated (Z.to_nat (next_harvest_bd (rt s'))) (mem w') =
    drop (length run) (rotated (Z.to_nat (next_harvest_bd (rt s))) (mem w)) ++ replicate (length run) 0.
Proof.
  intros Hst Hr Hd Hm Hlen Herr.
  unfold dma_harvest_completed_batch, dma_harvest_batch_impl. replace (max_items =? 0) with false by lia.
  change (0 =? 0) with true. cbv iota.
  unfold ebind at 1, eret at 1, get_rt, ebind at 1, sget at 1, ebind at 1, eret at 1. rewrite Hd.
  pose proof (harvest_still hw mem (Z.to_nat max_items) s w Hst Hr Hlen Herr) as H.
  pose proof (harvest_loop_spec hw (Z.to_nat max_items) 0 0 true s w Hr) as Hh. unfold wp in H, Hh.
  destruct (harvest_loop _ _ _ _ _ _) as [[rc items] [s' w']]. destruct H as (Hrc & Hi & Hl & Hrot).
  cbn [fst snd] in *. pose proof (harvested_items _ _ _ _ _ _ _ Hh Hi) as Heq.
  destruct Hh as (_ & [_ Hn Hq Hown _ _] & _). cbn [snd] in *.
  assert (El : length items = length (take (Z.to_nat max_items)
    (completed_run (rotated (Z.to_nat (next_harvest_bd (rt s))) (mem w))))).
  { by rewrite <- Hi, length_fmap. }
  rewrite El in *. by split_and!.
Qed.

Lemma dma_harvest_completed_exact_witness :
  let '((rc, items), (s', mem')) :=
    dma_harvest_completed_batch mem_hw 10 (witness_state, [done_ 100; 0; done_ 7; done_ 50]) in
  rc = 0 ∧ items = [mkItem 3 50 (done_ 50) 9; mkItem 0 100 (done_ 100) 10] ∧
  next_harvest_bd (rt s') = 1 ∧ rotated 1 mem' = [0; done_ 7; 0; 0].
Proof.
  assert (Herr : ∀ st, st ∈ [done_ 100; 0; done_ 7; done_ 50] →
    any st DESC_STS_CMPLT = true → any st DESC_STS_ERROR_MASK = false).
  { intros st Hin _. set_unfold. by destruct Hin as [->|[->|[->|[->|[]]]]]. }
  pose proof (dma_harvest_completed_exact (list Z) mem_hw (λ l, l) 10 witness_state
    [done_ 100; 0; done_ 7; done_ 50] mem_hw_still witness_ring eq_refl ltac:(lia) eq_refl Herr) as H.
  destruct (dma_harvest_completed_batch _ _ _) as [[rc items] [s' w']].
  destruct H as (Hrc & Hi & Hn & _ & _ & _ & Hrot). cbv zeta in *.
  assert (Hn1 : next_harvest_bd (rt s') = 1) by (rewrite Hn; vm_compute; reflexivity).
  rewrite Hn1 in Hrot. split_and!; [exact Hrc|rewrite Hi; vm_compute; reflexivity|exact Hn1|].
  change (Z.to_nat 1) with 1%nat in Hrot. rewrite Hrot. vm_compute. reflexivity.
Defined.

(** ** The calls that reach the hardware *)
Inductive Ev : Type :=
| Rd (off v : Z) | Wr (off v : Z) | DescRd (i : Z) (f : DescWord) (v : Z)
| DescWr (i : Z) (f : DescWord) (v : Z) | DescClr (i : Z) | Clock (t : Z).
Definition Log : Type := list Ev.

Section Trace.
Context {W : Type} (hw : DmaHw W).
Definition logged {A} (ev : A → Ev) (m : Eff W A) : Eff (W * Log) A :=
  λ '(w, l), let '(a, w) := m w in (a, (w, l ++ [ev a])).
Definition trace_hw : DmaHw (W * Log) :=
  mkHw (λ off, logged (Rd off) (reg_read32 hw off))
    (λ off v, logged (λ _, Wr off v) (reg_write32 hw off v))
    (λ i f, logged (DescRd i f) (desc_read hw i f))
    (λ i f v, logged (λ _, DescWr i f v) (desc_write hw i f v))
    (λ i, logged (λ _, DescClr i) (desc_clear hw i))
    (logged Clock (wall_time_us hw))
    (λ '(w, l), let '(u, w) := pause hw w in (u, (w, l))).

Definition St : Type := State * (W * Log).
Lemma wp_rd off (Q : Z → St → Prop) s w l :
  (∀ v w', Q v (s, (w', l ++ [Rd off v]))) → wp (rd trace_hw off) Q (s, (w, l)).
Proof. intros H. unfold wp, rd, sio. simpl. destruct (reg_read32 hw off w). apply H. Qed.
Lemma wp_wr off v (Q : unit → St → Prop) s w l :
  (∀ w', Q tt (s, (w', l ++ [Wr off v]))) → wp (wr trace_hw off v) Q (s, (w, l)).
Proof. intros H. unfold wp, wr, sio. simpl. destruct (reg_write32 hw off v w) as [[] w']. apply H. Qed.
Lemma wp_now (Q : Z → St → Prop) s w l :
  (∀ t w', Q t (s, (w', l ++ [Clock t]))) → wp (now trace_hw) Q (s, (w, l)).
Proof. intros H. unfold wp, now, sio. simpl. destruct (wall_time_us hw w). apply H. Qed.
Lemma wp_desc_rd i f (Q : Z → St → Prop) s w l :
  (∀ v w', Q v (s, (w', l ++ [DescRd i f v]))) → wp (sio (desc_read trace_hw i f)) Q (s, (w, l)).
Proof. intros H. unfold wp, sio. simpl. destruct (desc_read hw i f w). apply H. Qed.
Lemma wp_desc_wr i f v (Q : unit → St → Prop) s w l :
  (∀ w', Q tt (s, (w', l ++ [DescWr i f v]))) → wp (sio (desc_write trace_hw i f v)) Q (s, (w, l)).
Proof. intros H. unfold wp, sio. simpl. destruct (desc_write hw i f v w) as [[] w']. apply H. Qed.
Lemma wp_pause (Q : unit → St → Prop) s w l :
  (∀ w', Q tt (s, (w', l))) → wp (sio (pause trace_hw)) Q (s, (w, l)).
Proof. intros H. unfold wp, sio. simpl. destruct (pause hw w) as [[] w']. apply H. Qed.
Lemma wp_mod_rt f (Q : unit → St → Prop) s x :
  Q tt (s <| rt ::= f |>, x) → wp (mod_rt f) Q (s, x).
Proof. done. Qed.
Lemma wp_mod_report f (Q : unit → St → Prop) s x :
  Q tt (s <| report ::= fmap f |>, x) → wp (mod_report f) Q (s, x).
Proof. done. Qed.
Lemma wp_get_rt (Q : Rt → St → Prop) s x : Q (rt s) (s, x) → wp get_rt Q (s, x).
Proof. done. Qed.

(** The registers written. *)
Definition writes (l : Log) : list (Z * Z) :=
  omap (λ ev, match ev with Wr off v => Some (off, v) | _ => None end) l.
Lemma writes_app l l' : writes (l ++ l') = writes l ++ writes l'.
Proof. apply omap_app. Qed.

(** *** Operations that only read *)
Definition reading {A} (m : M (W := W * Log) A) (Q : Rt → A → Log → Prop) : Prop :=
  ∀ s w l, wp m (λ a st, ∃ es, st.2.2 = l ++ es ∧ writes es = [] ∧ rt st.1 = rt s ∧ Q (rt s) a es)
    (s, (w, l)).

Lemma reading_bind {A B} (m : M A) (k : A → M B) P Q :
  reading m P → (∀ a, reading (k a) (λ r b es, ∀ es0, P r a es0 → Q r b (es0 ++ es))) →
  reading (ebind m k) Q.
Proof.
  intros Hm Hk s w l. apply wp_bind. eapply wp_mono; [apply Hm|].
  intros a [s1 [w1 l1]] (es & Hl & He & Hr & HP). cbn [fst snd] in *. subst l1.
  eapply wp_mono; [apply Hk|]. intros b [s2 [w2 l2]] (es' & Hl & He' & Hr' & HQ).
  cbn [fst snd] in *. subst l2. exists (es ++ es'). rewrite writes_app, He, He'. split_and!; [by rewrite (assoc_L (++))|done|congruence|].
  rewrite Hr in HQ. by apply HQ.
Qed.
Lemma reading_weaken {A} (m : M A) (P Q : Rt → A → Log → Prop) :
  reading m P → (∀ r a es, P r a es → Q r a es) → reading m Q.
Proof.
  intros Hm HQ s w l. eapply wp_mono; [apply Hm|]. intros a st (es & ? & ? & ? & ?).
  exists es. split_and!; auto.
Qed.
Lemma reading_true {A} (m : M A) P : reading m P → reading m (λ _ _ _, True).
Proof. intros H. eapply reading_weaken; [exact H|done]. Qed.
(** Two steps of which nothing is recorded. *)
Lemma reading_seq {A B} (m : M A) (k : A → M B) :
  reading m (λ _ _ _, True) → (∀ a, reading (k a) (λ _ _ _, True)) →
  reading (ebind m k) (λ _ _ _, True).
Proof. intros Hm Hk. eapply reading_bind; [exact Hm|]. intros a. eapply reading_weaken; [apply Hk|done]. Qed.

Lemma reading_ret {A} (a : A) : reading (eret a) (λ _ b es, b = a ∧ es = []).
Proof. intros s w l. exists []. by rewrite app_nil_r. Qed.
Lemma reading_get : reading get_rt (λ r a es, a = r ∧ es = []).
Proof. intros s w l. exists []. by rewrite app_nil_r. Qed.
Lemma reading_sget {B} (k : State → M B) Q :
  (∀ s, reading (k s) (λ r b es, rt s = r → Q r b es)) → reading (ebind sget k) Q.
Proof.
  intros Hk s w l. apply wp_bind, wp_sget. eapply wp_mono; [apply (Hk s)|].
  intros b st (es & ? & ? & ? & HQ). exists es. split_and!; auto.
Qed.
Lemma reading_report f : reading (mod_report f) (λ _ _ es, es = []).
Proof. intros s w l. exists []. by rewrite app_nil_r. Qed.
Lemma reading_rd off : reading (rd trace_hw off) (λ _ v es, es = [Rd off v]).
Proof. intros s w l. apply wp_rd. intros v w'. by exists [Rd off v]. Qed.
Lemma reading_now : reading (now trace_hw) (λ _ t es, es = [Clock t]).
Proof. intros s w l. apply wp_now. intros v w'. by exists [Clock v]. Qed.
Lemma reading_desc i f : reading (sio (desc_read trace_hw i f)) (λ _ v es, es = [DescRd i f v]).
Proof. intros s w l. apply wp_desc_rd. intros v w'. by exists [DescRd i f v]. Qed.
Lemma reading_pause : reading (sio (pause trace_hw)) (λ _ _ es, es = []).
Proof. intros s w l. apply wp_pause. intros w'. exists []. by rewrite app_nil_r. Qed.
Lemma reading_if {A} (b : bool) (m1 m2 : M A) Q :
  reading m1 Q → reading m2 Q → reading (if b then m1 else m2) Q.
Proof. by destruct b. Qed.

(** Closes [reading _ (λ _ _ _, True)] over straight-line code. *)
Ltac reads :=
  first
    [ eassumption
    | eapply reading_true; first [apply reading_ret|apply reading_get|apply reading_report
        |apply reading_rd|apply reading_now|apply reading_desc|apply reading_pause]
    | apply reading_seq; [reads|intros ?; reads]
    | apply reading_if; reads
    | match goal with |- reading (match ?x with _ => _ end) _ => destruct x; reads end
    | idtac ].

Lemma tail_incomplete_reads :
  reading (dma_s2mm_tail_incomplete trace_hw) (λ r b _, dma_rx_packet_open r = true →
    dry_run r = false → dma_desc_count r ≠ 0 → desc_valid r = true → b = true).
Proof.
  unfold dma_s2mm_tail_incomplete. eapply reading_bind; [apply reading_get|]. intros r0.
  destruct (_ || negb (desc_valid r0)) eqn:E.
  - eapply reading_weaken; [apply reading_ret|]. intros r b es _ es0 [-> _] ????. 
    destruct (dma_desc_count r =? 0) eqn:?; [lia|]. exfalso.
    destruct (dry_run r), (desc_valid r); done.
  - eapply reading_bind; [apply reading_desc|]. intros st. eapply reading_weaken; [apply reading_ret|].
    intros r b es [-> _] ? _ ? [-> _] -> ???. done.
Qed.

Lemma snapshot_registers_reads sn : reading (snapshot_registers trace_hw sn) (λ _ _ _, True).
Proof. unfold snapshot_registers, read_pair. reads. Qed.

Lemma count_slot_reads i state sn :
  reading (count_slot trace_hw i state sn)
    (λ _ o _, is_Some o → state ≠ STORAGE_SLOT_INVALID).
Proof.
  destruct state; simpl; try (eapply reading_weaken; [apply reading_ret|]; by intros).
  - eapply reading_weaken; [|by intros]. reads.
  - eapply reading_weaken; [apply reading_ret|]. intros r a es [-> _] [? [=]].
Qed.

Lemma count_slots_reads states idx sn :
  reading (count_slots trace_hw states idx sn)
    (λ _ o _, is_Some o → ∀ i, i ∈ idx → state_of states i ≠ STORAGE_SLOT_INVALID).
Proof.
  revert sn; induction idx as [|i idx IH]; intros sn.
  - eapply reading_weaken; [apply reading_ret|]. intros r a es _ _ i []%not_elem_of_nil.
  - simpl. eapply reading_bind; [apply count_slot_reads|]. intros [sn'|].
    + eapply reading_weaken; [apply IH|]. intros r o es Ho es0 H0 Hs j Hj.
      apply elem_of_cons in Hj as [->|Hj]; [by apply H0|by apply Ho].
    + eapply reading_weaken; [apply reading_ret|]. intros r o es [-> _] es0 _ [? [=]].
Qed.

Definition legal (states : option (list StorageSlotState)) (n : Z) : Prop :=
  ∀ i, 0 <= i < n → state_of states i ≠ STORAGE_SLOT_INVALID.

Lemma snapshot_reads states :
  reading (dma_get_bd_snapshot trace_hw states)
    (λ r o _, is_Some o → legal states (dma_desc_count r)).
Proof.
  unfold dma_get_bd_snapshot. eapply reading_bind; [apply reading_get|]. intros r0.
  destruct (dma_desc_count r0 =? 0) eqn:E.
  - eapply reading_weaken; [apply reading_ret|]. intros r o es [-> _] ? ? [? [=]].
  - eapply reading_bind; [apply snapshot_registers_reads|]. intros sn.
    eapply reading_bind; [apply count_slots_reads|]. intros o0.
    eapply reading_weaken; [apply reading_ret|].
    intros r o es [-> _] es0 Hc es1 _ es2 [-> _] Hs i Hi. apply Hc; [by destruct o0|].
    unfold indices. apply elem_of_seqZ. lia.
Qed.

(** What the audit has established when it allows a reset. *)
Definition audited (r : Rt) (states : option (list StorageSlotState)) (es : Log) : Prop :=
  dma_stop_latched r = true ∧ dma_requeue_enabled r = false ∧ dma_rx_packet_open r = false ∧
  legal states (dma_desc_count r) ∧
  (dry_run r = false → ∃ v, Rd S2MM_DMASR v ∈ es ∧ any v DMA_ERROR_MASK_S2MM = false).

Lemma refuse_reads text (Q : Rt → bool → Log → Prop) :
  (∀ r es, Q r false es) →
  reading (let! _ := set_reason text in eret false) Q.
Proof.
  intros HQ. eapply reading_bind; [apply reading_report|]. intros [].
  eapply reading_weaken; [apply reading_ret|]. intros r b es [-> ->] es0 ->. apply HQ.
Qed.

Lemma reset_safe_reads states :
  reading (dma_stop_reset_safe trace_hw states) (λ r b es, b = true → audited r states es).
Proof.
  unfold dma_stop_reset_safe. eapply reading_bind; [apply reading_get|]. intros r0.
  destruct (negb (dma_stop_latched r0) || _) eqn:Hl; [by apply refuse_reads|].
  eapply (reading_bind _ _ (λ r v es, dry_run r = false → dry_run r0 = false → es = [Rd S2MM_DMASR v])).
  { destruct (dry_run r0); [|eapply reading_weaken; [apply reading_rd|]; by intros r a es ->].
    eapply reading_weaken; [apply reading_ret|]. done. }
  intros v. destruct (any v DMA_ERROR_MASK_S2MM) eqn:Herr; [by apply refuse_reads|].
  eapply (reading_bind _ _ (λ _ b _, b = false → dma_rx_packet_open r0 = false)).
  { destruct (dma_rx_packet_open r0).
    - eapply reading_weaken; [apply reading_ret|]. by intros r a es [-> _].
    - eapply reading_weaken; [apply tail_incomplete_reads|]. done. }
  intros []; [by apply refuse_reads|].
  eapply reading_bind; [apply snapshot_reads|]. intros [sn|]; [|by apply refuse_reads].
  eapply reading_bind; [apply reading_report|]. intros [].
  eapply reading_weaken; [apply reading_ret|].
  intros r b es [-> ->] es1 -> es2 Hlegal es3 Hopen es4 Hrd es5 [-> ->] _.
  split_and!; [by destruct (dma_stop_latched r)|by destruct (dma_stop_latched r), (dma_requeue_enabled r)
    |by apply Hopen|by apply Hlegal|].
  intros Hdry. exists v. rewrite (Hrd Hdry Hdry). split; [|done]. set_solver.
Qed.

Lemma begin_report_reads cr st states : reading (begin_report trace_hw cr st states) (λ _ _ _, True).
Proof.
  unfold begin_report. apply reading_sget. intros s.
  assert (H : reading
    (match report s with None => eret tt | Some _ =>
      let! sr := rd trace_hw S2MM_DMASR in
      let! cur := rd trace_hw S2MM_CURDESC in
      let! tail := rd trace_hw S2MM_TAILDESC in
      let! curh := rd trace_hw S2MM_CURDESC_MSB in
      let! tailh := rd trace_hw S2MM_TAILDESC_MSB in
      let! _ := mod_report (λ _,
        mkReport cr sr 0 0 cur tail (Z.lor cur (Z.shiftl curh 32)) (Z.lor tail (Z.shiftl tailh 32))
          (next_harvest_bd (rt s)) st (dma_hw_desc_count (rt s)) (dma_rxsof_count (rt s))
          (dma_rxeof_count (rt s)) (dma_rx_packet_open (rt s)) false 0 false 0 "") in
      let! snapshot := dma_get_bd_snapshot trace_hw states in
      mod_report (λ p, (match snapshot with
                        | Some sn => p <| rp_completed_unharvested := sn_completed_unharvested sn |>
                        | None => p end) <| result := DMA_STOP_FAILED |>) end) (λ _ _ _, True)).
  { pose proof (reading_true _ _ (snapshot_reads states)). destruct (report s); reads. }
  eapply reading_weaken; [exact H|done].
Qed.

Lemma end_report_reads res text c : reading (end_report trace_hw res text c) (λ _ _ _, True).
Proof.
  unfold end_report, set_reason. apply reading_sget. intros s.
  eapply reading_weaken; [|done]. destruct (report s); reads.
Qed.

(** *** Reset *)
Definition resets : Log := [Wr MM2S_DMACR DMA_CR_RESET_BIT; Wr S2MM_DMACR DMA_CR_RESET_BIT].
Definition cleared (off : Z) (es : Log) : Prop :=
  ∃ v, Rd off v ∈ es ∧ Z.land v DMA_CR_RESET_BIT = 0.

Lemma wait_reads fuel off timeout :
  reading (wait_reg_bits trace_hw fuel off DMA_CR_RESET_BIT 0 timeout)
    (λ _ r es, r = inr 0 → cleared off es).
Proof.
  unfold wait_reg_bits. eapply reading_bind; [apply reading_now|]. intros t0.
  eapply (reading_weaken _ (λ _ r es, r = inr 0 → cleared off es)).
  2:{ intros r a es H es0 _ Ha. destruct (H Ha) as (v & ? & ?). exists v. set_solver. }
  induction fuel as [|fuel IH]; simpl.
  - eapply reading_weaken; [apply reading_ret|]. by intros r a es [-> _].
  - eapply reading_bind; [apply reading_now|]. intros t. destruct (negb _).
    { eapply reading_weaken; [apply reading_ret|]. by intros r a es [-> _]. }
    eapply reading_bind; [apply reading_rd|]. intros v. destruct (_ =? 0) eqn:E.
    { eapply reading_weaken; [apply reading_ret|]. intros r a es _ es0 -> es1 _ _.
      exists v. split; [set_solver|lia]. }
    eapply reading_bind; [apply reading_pause|]. intros []. eapply reading_weaken; [apply IH|].
    intros r a es H es0 -> es1 -> es2 _ Ha. destruct (H Ha) as (v' & ? & ?). exists v'. set_solver.
Qed.

Definition reset_done (r : exit + Z) (es : Log) : Prop :=
  (writes es = [] ∧ r = inr (-1)) ∨
  ∃ pre post, es = pre ++ resets ++ post ∧ writes pre = [] ∧ writes post = [] ∧
    (r = inr 0 → cleared MM2S_DMACR post ∧ cleared S2MM_DMACR post).

Lemma reset_full_spec fuel s w l :
  dry_run (rt s) = false →
  wp (dma_reset_full trace_hw fuel)
     (λ r st, ∃ es, st.2.2 = l ++ es ∧ rt st.1 = rt s ∧ reset_done r es) (s, (w, l)).
Proof.
  intros Hd. unfold dma_reset_full. apply wp_bind, wp_get_rt. rewrite Hd.
  apply wp_bind, wp_rd. intros v1 w1. apply wp_bind, wp_rd. intros v2 w2.
  destruct (any _ _).
  { apply wp_ret. exists [Rd MM2S_DMACR v1; Rd S2MM_DMACR v2]. split_and!; [|done|by left].
    by rewrite <-(assoc_L (++)). }
  apply wp_bind, wp_wr. intros w3. apply wp_bind, wp_wr. intros w4.
  apply wp_xbind. eapply wp_mono; [apply wait_reads|].
  intros r1 [s1 [w5 l5]] (es1 & Hl & He1 & Hr1 & H1). cbn [fst snd] in *. subst l5.
  set (pre := [Rd MM2S_DMACR v1; Rd S2MM_DMACR v2]).
  assert (Hlog : ∀ es, ((((l ++ [Rd MM2S_DMACR v1]) ++ [Rd S2MM_DMACR v2]) ++
    [Wr MM2S_DMACR DMA_CR_RESET_BIT]) ++ [Wr S2MM_DMACR DMA_CR_RESET_BIT]) ++ es =
    l ++ pre ++ resets ++ es) by (intros; by rewrite <-!(assoc_L (++))).
  destruct r1 as [x|rc1].
  { exists (pre ++ resets ++ es1). split_and!; [apply Hlog|done|]. right. by exists pre, es1. }
  apply wp_xbind. eapply wp_mono; [apply wait_reads|].
  intros r2 [s2 [w6 l6]] (es2 & Hl & He2 & Hr2 & H2). cbn [fst snd] in *. subst l6.
  assert (Hw : writes (es1 ++ es2) = []) by by rewrite writes_app, He1, He2.
  destruct r2 as [x|rc2].
  { exists (pre ++ resets ++ es1 ++ es2). rewrite <-(assoc_L (++)), Hlog.
    split_and!; [done|congruence|]. right. by exists pre, (es1 ++ es2). }
  apply wp_ret. cbn [fst snd]. exists (pre ++ resets ++ es1 ++ es2). rewrite <-(assoc_L (++)), Hlog.
  split_and!; [done|congruence|]. right. exists pre, (es1 ++ es2). split_and!; try done.
  intros Hrc. destruct (rc1 =? 0) eqn:E1, (rc2 =? 0) eqn:E2; try done.
  destruct H1 as (v & ? & ?); [f_equal; lia|]. destruct H2 as (v' & ? & ?); [f_equal; lia|].
  split; [exists v|exists v']; set_solver.
Qed.

(** *** Quiescing *)
(** How the wait for the halt bit ends, from the calls [es] it made. *)
Definition halt_outcome (deadline_us : Z) (states : option (list StorageSlotState)) (r0 : Rt)
    (r : exit + Z) (r' : Rt) (es : Log) : Prop :=
  (writes es = [] ∧ r' = r0 ∧ r ≠ inr DMA_STOP_RESET_RECOVERED ∧
   (r = inr DMA_STOP_OK →
    ∃ v, Rd S2MM_DMASR v ∈ es ∧ any v DMA_SR_HALT_BIT = true ∧ any v DMA_ERROR_MASK_S2MM = false)) ∨
  ∃ pre post, es = pre ++ resets ++ post ∧ writes pre = [] ∧ writes post = [] ∧
    is_Some states ∧ audited r0 states pre ∧ (∃ t, Clock t ∈ pre ∧ deadline_us <= t) ∧
    r ≠ inr DMA_STOP_OK ∧
    (r = inr DMA_STOP_RESET_RECOVERED →
     cleared MM2S_DMACR post ∧ cleared S2MM_DMACR post ∧ dma_hw_desc_count r' = 0).

(** Calls made before do not change how it ends. *)
Lemma halt_outcome_app deadline states r0 r r' es0 es :
  writes es0 = [] → halt_outcome deadline states r0 r r' es →
  halt_outcome deadline states r0 r r' (es0 ++ es).
Proof.
  intros H0 [(He & Hr & Hn & Hok)|(pre & post & -> & Hp & Hq & Hs & (A1 & A2 & A3 & A4 & A5) & (t & Ht & Hle) & Hn & Hrec)].
  - left. rewrite writes_app, H0, He. split_and!; try done.
    intros Hr0. destruct (Hok Hr0) as (v & ? & ?). exists v. set_solver.
  - right. exists (es0 ++ pre), post. rewrite writes_app, H0, Hp.
    split_and!; try done; [by rewrite (assoc_L (++))| |exists t; set_solver].
    repeat split; try done. intros Hd. destruct (A5 Hd) as (v & ? & ?). exists v. set_solver.
Qed.

Lemma audited_app r states es es' : audited r states es → audited r states (es ++ es').
Proof.
  intros (A1 & A2 & A3 & A4 & A5). repeat split; try done.
  intros Hd. destruct (A5 Hd) as (v & ? & ?). exists v. set_solver.
Qed.

Lemma recover_spec fuel deadline states sr t s w l l0 es0 :
  dry_run (rt s) = false → l = l0 ++ es0 → writes es0 = [] → Clock t ∈ es0 → deadline <= t →
  wp (recover_idle trace_hw fuel states sr)
     (λ r st, ∃ es, st.2.2 = l0 ++ es ∧ halt_outcome deadline states (rt s) r (rt st.1) es)
     (s, (w, l)).
Proof.
  intros Hd -> He0 Ht Hle. unfold recover_idle. apply wp_bind.
  eapply (wp_mono _ (λ b st, ∃ es, st.2.2 = (l0 ++ es0) ++ es ∧ writes es = [] ∧ rt st.1 = rt s ∧
    (b = true → is_Some states ∧ audited (rt s) states es))).
  { destruct states as [l|].
    - eapply wp_mono; [apply reset_safe_reads|]. intros b st (es & ? & ? & ? & H).
      exists es. split_and!; try done. intros Hb. split; [done|by apply H].
    - apply wp_ret. exists []. by rewrite app_nil_r. }
  intros safe [s1 [w1 l1]] (es1 & Hl & He1 & Hr1 & Haud). cbn [fst snd] in *. subst l1.
  destruct safe; simpl negb; cbv iota.
  2:{ apply wp_bind, wp_mod_report, wp_ret. exists (es0 ++ es1). cbn [fst snd].
      split; [by rewrite (assoc_L (++))|]. left. rewrite writes_app, He0, He1. done. }
  destruct (Haud eq_refl) as [Hsome Haudit]. clear Haud.
  apply wp_bind, wp_mod_report, wp_xbind. eapply wp_mono; [apply reset_full_spec; simpl; congruence|].
  intros r [s2 [w2 l2]] (es2 & Hl & Hr2 & Hdone). cbn [fst snd] in *. subst l2.
  change (rt s2 = rt s1) in Hr2.
  assert (Hlog : ∀ es, ((l0 ++ es0) ++ es1) ++ es = l0 ++ (es0 ++ es1) ++ es)
    by (intros; by rewrite <-!(assoc_L (++))).
  assert (Hpre : writes (es0 ++ es1) = []) by by rewrite writes_app, He0, He1.
  assert (Hbase : audited (rt s) states (es0 ++ es1)).
  { destruct Haudit as (A1 & A2 & A3 & A4 & A5). repeat split; try done.
    intros Hdr. destruct (A5 Hdr) as (v & ? & ?). exists v. set_solver. }
  assert (Hreset : ∀ (rr : exit + Z) r' pre post, writes pre = [] → writes post = [] →
    rr ≠ inr DMA_STOP_OK →
    (rr = inr DMA_STOP_RESET_RECOVERED →
       cleared MM2S_DMACR post ∧ cleared S2MM_DMACR post ∧ dma_hw_desc_count r' = 0) →
    halt_outcome deadline states (rt s) rr r' ((es0 ++ es1) ++ pre ++ resets ++ post)).
  { intros rr r' pre post Hp Hq Hok Hrec. right. exists ((es0 ++ es1) ++ pre), post.
    rewrite writes_app, Hpre, Hp. split_and!; try done; [by rewrite <-!(assoc_L (++))
      |by apply audited_app|exists t; set_solver]. }
  destruct r as [x|rc].
  { exists ((es0 ++ es1) ++ es2). cbn [fst snd]. split; [apply Hlog|].
    destruct Hdone as [[? [=]]|(pre & post & -> & Hp & Hq & _)]. by apply Hreset. }
  destruct (rc =? 0) eqn:Hrc; simpl negb; cbv iota.
  - apply wp_bind, wp_mod_rt, wp_bind. eapply wp_mono; [apply end_report_reads|].
    intros [] [s3 [w3 l3]] (es3 & Hl & He3 & Hr3 & _). cbn [fst snd] in *. subst l3. apply wp_ret.
    exists ((es0 ++ es1) ++ es2 ++ es3). cbn [fst snd]. split; [by rewrite <-!(assoc_L (++))|].
    destruct Hdone as [[_ [= ->]]|(pre & post & -> & Hp & Hq & Hc)]; [done|].
    rewrite <-!(assoc_L (++)). rewrite (assoc_L (++) es0). apply Hreset; try done.
    + by rewrite writes_app, Hq, He3.
    + intros _. replace rc with 0 in Hc by lia. destruct (Hc eq_refl) as [(v & ? & ?) (v' & ? & ?)].
      split_and!; [exists v; set_solver|exists v'; set_solver|by rewrite Hr3].
  - apply wp_bind, wp_mod_report, wp_ret. exists ((es0 ++ es1) ++ es2). cbn [fst snd].
    split; [apply Hlog|]. destruct Hdone as [[He2 _]|(pre & post & -> & Hp & Hq & _)].
    + left. rewrite writes_app, Hpre, He2. split_and!; try done. simpl. congruence.
    + by apply Hreset.
Qed.

Lemma halt_loop_spec fuel deadline states s w l :
  dry_run (rt s) = false →
  wp (halt_loop trace_hw fuel deadline states)
     (λ r st, ∃ es, st.2.2 = l ++ es ∧ halt_outcome deadline states (rt s) r (rt st.1) es)
     (s, (w, l)).
Proof.
  revert s w l; induction fuel as [|fuel IH]; intros s w l Hd.
  { exists []. rewrite app_nil_r. split; [done|]. left. done. }
  simpl halt_loop. apply wp_bind, wp_rd. intros sr w1. destruct (any sr DMA_ERROR_MASK_S2MM) eqn:Herr.
  { apply wp_bind, wp_mod_report, wp_bind, wp_mod_report, wp_ret. exists [Rd S2MM_DMASR sr].
    split; [done|]. by left. }
  destruct (any sr DMA_SR_HALT_BIT) eqn:Hh.
  { apply wp_bind. eapply wp_mono; [apply end_report_reads|].
    intros [] [s2 [w2 l2]] (es & Hl & He & Hr & _). cbn [fst snd] in *. subst l2. apply wp_ret.
    exists ([Rd S2MM_DMASR sr] ++ es). cbn [fst snd]. split; [by rewrite <-(assoc_L (++))|]. left.
    rewrite writes_app, He. split_and!; try done. intros _. exists sr. set_solver. }
  apply wp_bind. destruct (deadline =? 0).
  - apply wp_ret. apply wp_bind, wp_now. intros t w2. apply wp_bind, wp_pause. intros w3.
    eapply wp_mono; [by apply IH|]. intros r [s4 [w4 l4]] (es & Hl & Ho). cbn [fst snd] in *. subst l4.
    exists ([Rd S2MM_DMASR sr; Clock t] ++ es). split; [by rewrite <-!(assoc_L (++))|].
    by apply halt_outcome_app.
  - apply wp_bind, wp_now. intros t w2. apply wp_ret. destruct (deadline <=? t) eqn:Hle.
    + eapply (recover_spec _ _ _ _ t _ _ _ l ([Rd S2MM_DMASR sr] ++ [Clock t])); try done; [|set_solver|lia].
      by rewrite (assoc_L (++)).
    + apply wp_bind, wp_now. intros t2 w3. apply wp_bind, wp_pause. intros w4.
      eapply wp_mono; [by apply IH|]. intros r [s4 [w5 l5]] (es & Hl & Ho). cbn [fst snd] in *. subst l5.
      exists ([Rd S2MM_DMASR sr; Clock t; Clock t2] ++ es). split; [by rewrite <-!(assoc_L (++))|].
      by apply halt_outcome_app.
Qed.

(** C14: The verdict of a quiesce is sound and a running engine is reset only
    after its audit.  Whatever the hardware answers, the first register written
    clears the run bit of the value just read.  After it, either no register is
    written, the engine is reported stopped only after the status was read
    halted and free of errors, and never as recovered; or exactly the two reset
    bits are written, once, after a clock reading past the deadline and with the
    slot states given, the stop latched, no requeue allowed, no packet open, no
    error and every slot in a legal state; then the recovery is reported only
    after both reset bits were read back clear, with no descriptor counted as
    the hardware's. *)
Theorem dma_quiesce_sound (fuel : nat) (deadline_us : Z) (states : option (list StorageSlotState))
    (s : State) (w : W) :
  dry_run (rt s) = false → deadline_us ≠ 0 →
  let '(r, (s', (_, log))) := dma_quiesce_s2mm_with_state trace_hw fuel deadline_us states (s, (w, [])) in
  ∃ before cr after, log = before ++ [Wr S2MM_DMACR (Z.ldiff cr DMA_CR_RS_BIT)] ++ after ∧
    writes before = [] ∧ Rd S2MM_DMACR cr ∈ before ∧
    halt_outcome deadline_us states (rt s) r (rt s') after.
Proof.
  intros Hd Hdl.
  assert (H : wp (dma_quiesce_s2mm_with_state trace_hw fuel deadline_us states)
    (λ r st, ∃ before cr after,
       st.2.2 = before ++ [Wr S2MM_DMACR (Z.ldiff cr DMA_CR_RS_BIT)] ++ after ∧
       writes before = [] ∧ Rd S2MM_DMACR cr ∈ before ∧
       halt_outcome deadline_us states (rt s) r (rt st.1) after) (s, (w, []))).
  2:{ unfold wp in H. by destruct (dma_quiesce_s2mm_with_state _ _ _ _ _) as [r [s' [w' log]]]. }
  unfold dma_quiesce_s2mm_with_state. apply wp_bind, wp_get_rt. rewrite Hd.
  replace (deadline_us =? 0) with false by lia. apply wp_bind, wp_ret, wp_bind.
  eapply (wp_mono _ (λ _ st, st.1 = s ∧ writes st.2.2 = [])).
  { destruct (_ && _); [apply wp_desc_rd; by intros|done]. }
  intros st [s1 [w1 l1]] [Hs1 Hw1]. cbn [fst snd] in *. subst s1.
  apply wp_bind, wp_rd. intros cr w2. apply wp_bind. eapply wp_mono; [apply begin_report_reads|].
  intros [] [s3 [w3 l3]] (es & Hl & He & Hr3 & _). cbn [fst snd] in *. subst l3.
  apply wp_bind, wp_wr. intros w4. eapply wp_mono; [apply halt_loop_spec; congruence|].
  intros r [s5 [w5 l5]] (es2 & Hl & Ho). cbn [fst snd] in *. subst l5.
  exists ((l1 ++ [Rd S2MM_DMACR cr]) ++ es), cr, es2.
  split_and!; [by rewrite <-!(assoc_L (++))|by rewrite !writes_app, Hw1, He|set_solver|congruence].
Qed.
End Trace.

(** A device that never halts, past its deadline: it is reset. *)
Definition idle_hw : DmaHw (list Z) :=
  mkHw (reg_read32 mem_hw) (reg_write32 mem_hw) (desc_read mem_hw) (desc_write mem_hw)
    (desc_clear mem_hw) (λ l, (100, l)) (pause mem_hw).
Definition latched_state : State :=
  mkState ((rt witness_state) <| dma_stop_latched := true |> <| dma_requeue_enabled := false |>)
    (Some zero_report).
Definition writable4 : option (list StorageSlotState) :=
  Some (replicate 4 STORAGE_SLOT_DMA_WRITABLE).

Lemma dma_quiesce_sound_witness :
  let '(r, (s', (_, log))) := dma_quiesce_s2mm_with_state (trace_hw idle_hw) 3 50 writable4
    (latched_state, ([0; 0; 0; 0], [])) in
  (∃ before cr after, log = before ++ [Wr S2MM_DMACR (Z.ldiff cr DMA_CR_RS_BIT)] ++ after ∧
    writes before = [] ∧ Rd S2MM_DMACR cr ∈ before ∧
    halt_outcome 50 writable4 (rt latched_state) r (rt s') after) ∧
  r = inr DMA_STOP_RESET_RECOVERED ∧ dma_hw_desc_count (rt s') = 0.
Proof.
  pose proof (dma_quiesce_sound idle_hw 3 50 writable4 latched_state [0; 0; 0; 0] eq_refl
    ltac:(done)) as H.
  destruct (dma_quiesce_s2mm_with_state _ _ _ _ _) as [r [s' [w' log]]] eqn:E.
  split; [exact H|]. clear H. vm_compute in E. by injection E as <- <- _ _.
Defined.
End ccb_dma_safety.
