(* ===== verification/WriteQueue.v ===== *)
(** * The storage write queue ([src/src/ccb_commands.c])

    The queue between the DMA producer of a channel and its NVMe writer
    thread: a ring of pending slots, the slot table, the worker lifecycle and
    the accounting, all under one mutex.  What happens between taking and
    releasing the mutex is one function here; where the mutex is taken by the
    writer the other threads may run first ([others]).  The NVMe write, the
    cross-slot engine and the scheduler are reached through [Outside]. *)
From S2P Require Import Prelude StorageError SlotTable Worker Writer CStdlib Config Diag DmaRing CrossSlot CcbTypes.

Module storage_write_queue.
Import storage_queue storage_worker storage_writer c_stdlib ccb_types.

(** ** Data *)
Record PendingDdrSlot : Type := mkPending {
  slot : Z; bytes : Z; media_bytes : Z; chunk_index : Z; file_offset : Z; start_lba : Z;
  sectors : Z; hw_addr : Z }.
#[export] Instance PendingDdrSlot_eq_dec : EqDecision PendingDdrSlot.
Proof. solve_decision. Defined.
Definition zero_pending : PendingDdrSlot := mkPending 0 0 0 0 0 0 0 0.

Inductive StorageQueuePopResult : Type :=
| STORAGE_QUEUE_POP_ERROR | STORAGE_QUEUE_POP_TEMP_EMPTY | STORAGE_QUEUE_POP_ITEM
| STORAGE_QUEUE_POP_PRODUCER_DRAINED | STORAGE_QUEUE_POP_NOT_ATTEMPTED.
#[export] Instance StorageQueuePopResult_eq_dec : EqDecision StorageQueuePopResult.
Proof. solve_decision. Defined.

(** The part of [ChannelRuntime] the queue uses; the counters that the NVMe
    code keeps in it are read through [Outside]. *)
Record ChannelRuntime : Type := mkRuntime {
  dma : ccb_dma.Rt; channel : Z; nvme_max_lba : Z; nvme_feed_mode_tight : bool;
  nvme_qd_effective : Z; nvme_last_error : string }.
#[export] Instance eta_Runtime : EtaOf ChannelRuntime := λ r,
  mkRuntime (dma r) (channel r) (nvme_max_lba r) (nvme_feed_mode_tight r)
    (nvme_qd_effective r) (nvme_last_error r).

(** The ready-queue depth and the high-water marks. *)
Record Depth : Type := mkDepth {
  ready_depth_sum : Z; ready_depth_samples : Z; ready_depth_max : Z;
  max_busy_count : Z; max_buffered_bytes : Z }.
#[export] Instance eta_Depth : EtaOf Depth := λ d,
  mkDepth (ready_depth_sum d) (ready_depth_samples d) (ready_depth_max d)
    (max_busy_count d) (max_buffered_bytes d).

(** What has gone through the queue. *)
Record Totals : Type := mkTotals {
  buffered_bytes : Z; bytes_written : Z; queued_slot_count : Z; completed_slot_count : Z;
  recycled_slot_count : Z; chunks : Z }.
#[export] Instance eta_Totals : EtaOf Totals := λ t,
  mkTotals (buffered_bytes t) (bytes_written t) (queued_slot_count t)
    (completed_slot_count t) (recycled_slot_count t) (chunks t).

(** What the writer thread measures of itself. *)
Record Timing : Type := mkTiming {
  nvme_write_us : Z; writer_idle_us : Z; queue_empty_wait_us : Z; writer_active_us : Z;
  ready_q_nonempty_us : Z; writer_drain_loop_count : Z; writer_slots_drained : Z;
  writer_schedule_gap_count : Z; writer_schedule_gap_max_us : Z;
  writer_no_progress_sleep_count : Z }.
#[export] Instance eta_Timing : EtaOf Timing := λ t,
  mkTiming (nvme_write_us t) (writer_idle_us t) (queue_empty_wait_us t) (writer_active_us t)
    (ready_q_nonempty_us t) (writer_drain_loop_count t) (writer_slots_drained t)
    (writer_schedule_gap_count t) (writer_schedule_gap_max_us t)
    (writer_no_progress_sleep_count t).

(** [StorageWriteQueue]; [nvme_engine] tells whether an engine is published. *)
Record StorageWriteQueue : Type := mkQueue {
  rt : ChannelRuntime; items : list PendingDdrSlot; slots : StorageSlotTable;
  producer_event_ring : ccb_storage_diag.StorageEventRing;
  writer_event_ring : ccb_storage_diag.StorageEventRing;
  capacity : Z; head : Z; tail : Z; count : Z;
  depth : Depth; totals : Totals; timing : Timing; backlog_mode : bool;
  worker_state : StorageWorkerState; writer_ready : bool; producer_ready : bool;
  requeue_enabled : bool; error : bool; error_reason : string;
  deferred_stop_error : StorageErrorCode; deferred_stop_reason : string;
  nvme_engine_quiesced : bool; nvme_engine : bool;
  cross_slot_config : ccb_hw.NvmeCrossSlotConfig; cross_stats : ccb_hw.NvmeCrossSlotStats;
  nvme_abort_timeout_us : Z; writer_budget_override_us : Z }.
#[export] Instance eta_Queue : EtaOf StorageWriteQueue := λ q,
  mkQueue (rt q) (items q) (slots q) (producer_event_ring q) (writer_event_ring q) (capacity q)
    (head q) (tail q) (count q) (depth q) (totals q) (timing q) (backlog_mode q)
    (worker_state q) (writer_ready q) (producer_ready q) (requeue_enabled q) (error q)
    (error_reason q) (deferred_stop_error q) (deferred_stop_reason q)
    (nvme_engine_quiesced q) (nvme_engine q) (cross_slot_config q) (cross_stats q)
    (nvme_abort_timeout_us q) (writer_budget_override_us q).

(** ** Guards and transitions, under the lock *)
Definition storage_queue_slot_counts_valid_locked (q : StorageWriteQueue) : bool :=
  (count q <=? capacity q) && (capacity q =? storage_queue.capacity (slots q)) &&
  storage_slot_table_valid (slots q).

Definition storage_queue_transition_locked (expected next : StorageWorkerState)
    (q : StorageWriteQueue) : Z * StorageWriteQueue :=
  let '(rc, state) := storage_worker_transition (worker_state q) expected next in
  if rc =? 0 then (0, q <| worker_state := state |>) else (-1, q <| error := true |>).

Definition storage_queue_fail_locked (q : StorageWriteQueue) : StorageWriteQueue :=
  let current := worker_state q in
  let q := if bool_decide (current ≠ WORKER_DONE ∧ current ≠ WORKER_FAILED)
           then q <| worker_state := (storage_worker_transition current current WORKER_FAILED).2 |>
           else q in
  q <| error := true |>.

Definition storage_local_slot_transition_locked (sl : Z) (expected next : StorageSlotState)
    (q : StorageWriteQueue) : Z * StorageWriteQueue :=
  let '(rc, table) := storage_slot_transition (slots q) sl expected next in
  if rc =? 0 then (0, q <| slots := table |>)
  else (-1, q <| slots := table |> <| error := true |>).

Definition storage_mark_harvest_slot_failed (sl : Z) (q : StorageWriteQueue) : StorageWriteQueue :=
  if capacity q <=? sl then q else
  let q := if bool_decide (storage_slot_state (slots q) sl = STORAGE_SLOT_DMA_WRITABLE)
           then (storage_local_slot_transition_locked sl STORAGE_SLOT_DMA_WRITABLE
                   STORAGE_SLOT_DMA_COMPLETED_UNHARVESTED q).2 else q in
  q <| error := true |>.

Definition storage_release_harvested_slot (sl : Z) (q : StorageWriteQueue) :
    Z * StorageWriteQueue :=
  if capacity q <=? sl then (-1, q)
  else storage_local_slot_transition_locked sl STORAGE_SLOT_DMA_WRITABLE STORAGE_SLOT_FREE q.

(** ** Creation *)
Definition storage_env_u32_limit (name : string) (fallback max_value : Z) : storage_config.ceff Z :=
  let! value := storage_config.storage_config_compat_getenv name in
  eret (match value with
        | Some v => if non_empty value
                    then match strtoul_full v 0 with
                         | Some p => if max_value <? p then fallback else p
                         | None => fallback end
                    else fallback
        | None => fallback end).

Definition storage_env_flag_enabled (name : string) : storage_config.ceff bool :=
  let! value := storage_config.storage_config_compat_getenv name in
  eret (match value with
        | Some v => non_empty value &&
            negb (existsb (String.eqb v) ["0"; "false"; "FALSE"; "off"; "OFF"; "no"; "NO"]%string)
        | None => false end).

(** The outcomes of the allocations and of creating the lock. *)
Record Allocations : Type := mkAllocations {
  items_ok : bool; table_ok : bool; producer_ring_ok : bool; writer_ring_ok : bool; lock_ok : bool }.

(** [None] is the return of -1, after which the caller does not use the queue. *)
Definition storage_queue_init (r : ChannelRuntime) (a : Allocations) :
    storage_config.ceff (option StorageWriteQueue) :=
  let n := ccb_dma.dma_desc_count (dma r) in
  if n =? 0 then eret None else
  let '(rc, table) := storage_slot_table_init (table_ok a) zero_table n in
  if negb (items_ok a) || negb (rc =? 0) then eret None else
  let! size1 := storage_env_u32_limit "SRC_REAL_EVENT_RING_SIZE" 1024 65536 in
  match ccb_storage_diag.storage_event_ring_init size1 (producer_ring_ok a) with
  | None => eret None
  | Some ring1 =>
    let! size2 := storage_env_u32_limit "SRC_REAL_EVENT_RING_SIZE" 1024 65536 in
    match ccb_storage_diag.storage_event_ring_init size2 (writer_ring_ok a) with
    | None => eret None
    | Some ring2 =>
      let! backlog := storage_env_flag_enabled "SRC_REAL_WRITER_BACKLOG_MODE" in
      if negb (lock_ok a) then eret None else
      eret (Some (mkQueue r (replicate (Z.to_nat n) zero_pending) table ring1 ring2 n 0 0 0
        (mkDepth 0 0 0 0 0) (mkTotals 0 0 0 0 0 0) (mkTiming 0 0 0 0 0 0 0 0 0 0) backlog
        WORKER_INIT false false true false "" STORAGE_ERR_NONE "" true false
        (ccb_hw.mkConfig 0 0 0 0 0 0 0) (ccb_hw.mkStats 0 0 0 0 0 0 0 0 0) 0 0))
    end
  end.

(** ** The producer's side *)
Definition storage_queue_record_depth_locked (q : StorageWriteQueue) : StorageWriteQueue :=
  q <| depth ::= λ d, d <| ready_depth_sum ::= λ n, u64 (n + count q) |>
                        <| ready_depth_samples ::= λ n, u64 (n + 1) |>
                        <| ready_depth_max ::= λ n, if n <? count q then count q else n |> |>.

Definition bytes_to_sectors (b : Z) : Z :=
  u64 (b / SECTOR_SIZE + (if negb (b mod SECTOR_SIZE =? 0) then 1 else 0)).
Definition nvme_lba_range_valid (max_lba lba n : Z) : bool :=
  negb (max_lba =? 0) && negb (n =? 0) && (lba <? max_lba) && (n <=? max_lba - lba).

(** The tests on one item; [seen] are the items before it and [batch] their bytes. *)
Definition pending_item_ok (q : StorageWriteQueue) (seen : list PendingDdrSlot) (batch : Z)
    (it : PendingDdrSlot) : bool :=
  let d := dma (rt q) in
  let desc_bytes := ccb_dma.dma_desc_bytes d in
  let base := ccb_dma.ddr_hw_base d in
  let ring_bytes := ccb_dma.dma_ring_bytes d in
  let expected_sectors := bytes_to_sectors (bytes it) in
  let expected_hw_addr := u64 (base + slot it * desc_bytes) in
  let ddr_end := u64 (hw_addr it + media_bytes it) in
  negb ((bytes it =? 0) || (desc_bytes <? bytes it) || (sectors it =? 0) ||
        (capacity q <=? slot it) ||
        negb (bool_decide (storage_slot_state (slots q) (slot it) = STORAGE_SLOT_DMA_WRITABLE))) &&
  negb ((UINT64_MAX - base) / desc_bytes <? slot it) &&
  negb ((media_bytes it =? 0) || (desc_bytes <? media_bytes it) ||
        negb (media_bytes it =? u64 (expected_sectors * SECTOR_SIZE)) ||
        negb (sectors it =? expected_sectors) ||
        (UINT64_MAX - sectors it <? start_lba it) ||
        (negb (nvme_max_lba (rt q) =? 0) &&
         negb (nvme_lba_range_valid (nvme_max_lba (rt q)) (start_lba it) (sectors it))) ||
        negb (hw_addr it =? expected_hw_addr) ||
        (UINT64_MAX - media_bytes it <? hw_addr it)) &&
  negb ((UINT64_MAX - ring_bytes <? base) || (u64 (base + ring_bytes) <? ddr_end) ||
        (UINT64_MAX - bytes it <? batch)) &&
  negb (existsb (λ it', slot it' =? slot it) seen).

(** The bytes of a batch, when it is acceptable. *)
Fixpoint batch_bytes (q : StorageWriteQueue) (seen : list PendingDdrSlot) (batch : Z)
    (its : list PendingDdrSlot) : option Z :=
  match its with
  | [] => Some batch
  | it :: rest => if pending_item_ok q seen batch it
                  then batch_bytes q (seen ++ [it]) (u64 (batch + bytes it)) rest else None
  end.

(** The commit loop; [false] is its [goto bad]. *)
Fixpoint commit_items (tl : Z) (its : list PendingDdrSlot) (q : StorageWriteQueue) :
    bool * Z * StorageWriteQueue :=
  match its with
  | [] => (true, tl, q)
  | it :: rest =>
    let q := q <| items ::= <[Z.to_nat tl := it]> |> in
    let tl := u32 (tl + 1) mod capacity q in
    let '(rc, q) := storage_local_slot_transition_locked (slot it)
      STORAGE_SLOT_DMA_WRITABLE STORAGE_SLOT_DMA_COMPLETED_UNHARVESTED q in
    if negb (rc =? 0) then (false, tl, q) else
    let '(rc, q) := storage_local_slot_transition_locked (slot it)
      STORAGE_SLOT_DMA_COMPLETED_UNHARVESTED STORAGE_SLOT_READY_FOR_NVME q in
    if negb (rc =? 0) then (false, tl, q) else commit_items tl rest q
  end.

Definition note_pushed (n batch : Z) (q : StorageWriteQueue) : StorageWriteQueue :=
  let q := q <| count ::= λ c, u32 (c + n) |>
             <| totals ::= λ t, t <| buffered_bytes ::= λ b, u64 (b + batch) |>
                                  <| queued_slot_count ::= λ c, u64 (c + n) |> |> in
  let busy := storage_slot_busy_count (slots q) in
  let q := q <| depth ::= λ d,
      d <| max_busy_count ::= λ m, if m <? busy then busy else m |>
        <| max_buffered_bytes ::= λ m, if m <? buffered_bytes (totals q)
                                       then buffered_bytes (totals q) else m |> |> in
  storage_queue_record_depth_locked q.

Definition storage_local_queue_push_batch (its : list PendingDdrSlot) (q : StorageWriteQueue) :
    Z * StorageWriteQueue :=
  let n := Z.of_nat (length its) in
  if n =? 0 then (-1, q) else
  let bad q := (-1, q <| error := true |>) in
  if error q || (ccb_dma.dma_desc_bytes (dma (rt q)) =? 0) ||
     negb (storage_queue_slot_counts_valid_locked q) || (capacity q - count q <? n) ||
     (dma_writable (counts (slots q)) <? n) then bad q else
  match batch_bytes q [] 0 its with
  | None => bad q
  | Some batch =>
      if (UINT64_MAX - batch <? buffered_bytes (totals q)) ||
         (UINT64_MAX - n <? queued_slot_count (totals q)) then bad q else
      let '(ok, tl, q) := commit_items (tail q) its q in
      if negb ok then bad q else (0, note_pushed n batch (q <| tail := tl |>))
  end.

(** ** The lifecycle *)
(** The queue, and whether the whole process is asked to stop. *)
Definition storage_queue_finish (q : StorageWriteQueue) : bool * StorageWriteQueue :=
  match worker_state q with
  | WORKER_RUNNING =>
      let '(rc, q) := storage_queue_transition_locked WORKER_RUNNING WORKER_DRAINING q in
      (negb (rc =? 0), q)
  | WORKER_HARVESTING =>
      let '(rc, q) := storage_queue_transition_locked WORKER_HARVESTING WORKER_DRAINING q in
      (negb (rc =? 0), q)
  | WORKER_DRAINING | WORKER_FINALIZING | WORKER_DONE | WORKER_FAILED => (false, q)
  | _ => (true, storage_queue_fail_locked q)
  end.

Definition storage_queue_request_stop_state (q : StorageWriteQueue) : Z * StorageWriteQueue :=
  if bool_decide (worker_state q = WORKER_RUNNING)
  then storage_queue_transition_locked WORKER_RUNNING WORKER_WAIT_BOUNDARY q
  else if negb (storage_worker_stop_latched (worker_state q))
  then (-1, storage_queue_fail_locked q) else (0, q).

(** [dma_latch_stop] on the channel. *)
Definition latch_dma (d : ccb_dma.Rt) : ccb_dma.Rt :=
  ccb_dma.rt (ccb_dma.dma_latch_stop (ccb_dma.mkState d None, tt)).2.1.
Definition storage_queue_latch_stop (q : StorageWriteQueue) : bool * StorageWriteQueue :=
  let q := if bool_decide (worker_state q = WORKER_RUNNING)
           then (storage_queue_transition_locked WORKER_RUNNING WORKER_WAIT_BOUNDARY q).2 else q in
  let '(first, q) :=
    if bool_decide (worker_state q = WORKER_WAIT_BOUNDARY)
    then let '(rc, q) := storage_queue_transition_locked WORKER_WAIT_BOUNDARY WORKER_DMA_QUIESCING q in
         (rc =? 0, q)
    else (false, q) in
  (first, q <| requeue_enabled := false |> <| rt ::= λ r, r <| dma ::= latch_dma |> |>).

Definition storage_queue_mark_harvesting (q : StorageWriteQueue) : Z * StorageWriteQueue :=
  if bool_decide (worker_state q = WORKER_FAILED) then (0, q)
  else storage_queue_transition_locked WORKER_DMA_QUIESCING WORKER_HARVESTING q.

Definition storage_queue_mark_finalizing (q : StorageWriteQueue) : Z * StorageWriteQueue :=
  let '(rc, q) := storage_queue_transition_locked WORKER_DRAINING WORKER_DRAINED_WAIT_STOP q in
  if rc =? 0 then storage_queue_transition_locked WORKER_DRAINED_WAIT_STOP WORKER_FINALIZING q
  else (rc, q).

Definition storage_queue_mark_done (q : StorageWriteQueue) : Z * StorageWriteQueue :=
  storage_queue_transition_locked WORKER_FINALIZING WORKER_DONE q.
Definition storage_queue_mark_ready (q : StorageWriteQueue) : Z * StorageWriteQueue :=
  storage_queue_transition_locked WORKER_INIT WORKER_READY q.
Definition storage_queue_enable_run (q : StorageWriteQueue) : Z * StorageWriteQueue :=
  storage_queue_transition_locked WORKER_READY WORKER_ARMED q.

Definition storage_queue_set_writer_ready (success : bool) (q : StorageWriteQueue) :
    StorageWriteQueue :=
  if success && bool_decide (worker_state q = WORKER_ARMED) && negb (writer_ready q)
  then q <| writer_ready := true |> else storage_queue_fail_locked q.
Definition storage_queue_set_producer_ready (success : bool) (q : StorageWriteQueue) :
    Z * StorageWriteQueue :=
  if success && bool_decide (worker_state q = WORKER_ARMED) && writer_ready q &&
     negb (producer_ready q)
  then (0, q <| producer_ready := true |>) else (-1, storage_queue_fail_locked q).
Definition storage_queue_mark_running (q : StorageWriteQueue) : Z * StorageWriteQueue :=
  if negb (writer_ready q) || negb (producer_ready q) then (-1, storage_queue_fail_locked q)
  else storage_queue_transition_locked WORKER_ARMED WORKER_RUNNING q.

(** ** Queries *)
Definition storage_queue_abort_requested (q : StorageWriteQueue) : bool :=
  bool_decide (worker_state q = WORKER_FAILED).
Definition storage_queue_has_error (q : StorageWriteQueue) : bool := error q.
Definition storage_queue_busy_count (q : StorageWriteQueue) : Z * Z :=
  (storage_slot_busy_count (slots q), max_busy_count (depth q)).
Definition storage_queue_buffered_bytes (q : StorageWriteQueue) : Z * Z :=
  (buffered_bytes (totals q), max_buffered_bytes (depth q)).
Definition storage_queue_written_bytes (q : StorageWriteQueue) : Z := bytes_written (totals q).
Definition storage_queue_ready_count (q : StorageWriteQueue) : Z := count q.

(** The snapshot, without the scheduling parameters of the writer thread. *)
Record StorageQueueSnapshot : Type := mkQueueSnapshot {
  ready_depth_current : Z; ready_depth_avg : Z; sn_ready_depth_max : Z; sn_busy_count : Z;
  sn_totals : Totals; sn_timing : Timing; sn_counts : StorageSlotCounts }.
Definition storage_queue_snapshot (q : StorageWriteQueue) :
    StorageQueueSnapshot * StorageWriteQueue :=
  let d := depth q in
  (mkQueueSnapshot (count q)
     (if 0 <? ready_depth_samples d then u32 (ready_depth_sum d / ready_depth_samples d) else count q)
     (ready_depth_max d) (storage_slot_busy_count (slots q)) (totals q) (timing q)
     (counts (slots q)),
   if negb (storage_queue_slot_counts_valid_locked q) then q <| error := true |> else q).

(** ** Error texts *)
Definition set_error_reason (reason : string) (q : StorageWriteQueue) : StorageWriteQueue :=
  if String.eqb reason "" then q
  else if String.eqb (error_reason q) "" then q <| error_reason := c_snprintf_s 64 reason |> else q.
Definition storage_copy_writer_error_reason (out_size : nat) (q : StorageWriteQueue) : string :=
  c_snprintf_s out_size (error_reason q).
Definition storage_record_deferred_stop_error (code : StorageErrorCode) (reason : string)
    (q : StorageWriteQueue) : StorageWriteQueue :=
  if negb (bool_decide (storage_error_class code = STORAGE_ERROR_DEFERRED)) then q
  else if deferred_stop_error q =? STORAGE_ERR_NONE
  then q <| deferred_stop_error := code |> <| deferred_stop_reason := c_snprintf_s 64 reason |>
  else q.

End storage_write_queue.
