(* ===== verification/CmdConfig.v ===== *)
(** * Configuration of a capture ([src/src/ccb_commands.c])

    How the storage worker reads its settings: numbers and flags from the
    environment, the timeouts of a stop, the parameters of the cross-slot
    engine with their new and legacy names, the scheduling policies and the
    layout of the DMA ring.  Every read goes through
    [storage_config_compat_getenv], so a setting that the profile owns is only
    seen in compatibility mode. *)
From stdpp Require Import gmap pretty.
From S2P Require Import Prelude CStdlib Config CcbTypes Stop DmaRing WriteQueue.

Module ccb_cmd_config.
Import c_stdlib ccb_types storage_config storage_stop storage_write_queue.

Definition STORAGE_IDLE_NOTICE_MS_DEFAULT : Z := 5000.
Definition STORAGE_PIPELINE_STATS_SEC_DEFAULT : Z := 5.
Definition STORAGE_HIGH_DESC_BYTES_DEFAULT : Z := 8 * 1024 * 1024.
Definition DEFAULT_TIMEOUT_US : Z := 5000000.
Definition DMA_DESC_BYTES_DEFAULT : Z := DMA_DESC_BYTES_CH2_DEFAULT.

(** ** Numbers *)
Definition storage_idle_notice_ms : ceff Z :=
  let! env := storage_config_compat_getenv "SRC_REAL_STORAGE_IDLE_NOTICE_MS" in
  eret (match env with
        | Some v => if non_empty env
                    then match strtoul_full v 0 with
                         | Some p => if UINT32_MAX <? p then STORAGE_IDLE_NOTICE_MS_DEFAULT else p
                         | None => STORAGE_IDLE_NOTICE_MS_DEFAULT end
                    else STORAGE_IDLE_NOTICE_MS_DEFAULT
        | None => STORAGE_IDLE_NOTICE_MS_DEFAULT end).

(** [summary] tells whether summaries are logged. *)
Definition storage_pipeline_stats_ms (summary : bool) : ceff Z :=
  let! env := storage_config_compat_getenv "SRC_REAL_PIPELINE_STATS_SEC" in
  let dflt := STORAGE_PIPELINE_STATS_SEC_DEFAULT * 1000 in
  eret (if negb summary then 0 else
        match env with
        | Some v => if non_empty env
                    then match strtoul_full v 0 with
                         | Some p => if UINT32_MAX / 1000 <? p then dflt else p * 1000
                         | None => dflt end
                    else dflt
        | None => dflt end).

Definition storage_perf_log_interval_ms : ceff Z :=
  let! sec := storage_env_u32_limit "SRC_REAL_PERF_LOG_INTERVAL_SEC" 5 (UINT32_MAX / 1000) in
  eret (u32 (sec * 1000)).

Definition storage_env_u64 (name : string) : ceff (option Z) :=
  let! value := storage_config_compat_getenv name in
  eret (match value with
        | Some v => if non_empty value then strtoul_full v 0 else None
        | None => None end).

(** The channel's variable, then the global one, when they are present. *)
Definition storage_channel_env_u32 (c : ChannelConfig) (suffix : string)
    (global_fallback : option string) (fallback max_value : Z) : ceff Z :=
  let name := c_snprintf_s 96 ("SRC_REAL_CH" ++ pretty (id c) ++ "_" ++ suffix) in
  let! own := storage_config_compat_getenv name in
  match own, global_fallback with
  | Some _, _ => storage_env_u32_limit name fallback max_value
  | None, Some g =>
      let! common := storage_config_compat_getenv g in
      match common with
      | Some _ => storage_env_u32_limit g fallback max_value
      | None => eret fallback end
  | None, None => eret fallback
  end.

(** ** Timeouts *)
Record StorageStopTimeouts : Type := mkTimeouts {
  compat_us : Z; dma_quiesce_us : Z; stop_harvest_us : Z; writer_drain_us : Z;
  nvme_abort_us : Z }.

(** A positive number of microseconds, or of milliseconds that does not
    overflow in microseconds. *)
Definition positive_number (limit : Z) (value : option string) : option Z :=
  match value with
  | Some v => if non_empty value
              then match strtoul_full v 0 with
                   | Some p => if (0 <? p) && (p <=? limit) then Some p else None
                   | None => None end
              else None
  | None => None end.

Definition storage_timeout_us (us_name : string) (ms_name : option string) (fallback_us : Z) : ceff Z :=
  let! us := storage_config_compat_getenv us_name in
  match positive_number UINT64_MAX us, ms_name with
  | Some p, _ => eret p
  | None, Some name =>
      let! ms := storage_config_compat_getenv name in
      eret (match positive_number (UINT64_MAX / 1000) ms with
            | Some p => p * 1000 | None => fallback_us end)
  | None, None => eret fallback_us
  end.

Definition storage_stop_timeouts (timeout_us : Z) : ceff StorageStopTimeouts :=
  let compat := if negb (timeout_us =? 0) then timeout_us else DEFAULT_TIMEOUT_US in
  let! compat := storage_timeout_us "SRC_REAL_STORAGE_STOP_TIMEOUT_US"
                   (Some "SRC_REAL_STORAGE_STOP_TIMEOUT_MS"%string) compat in
  let! q := storage_timeout_us "SRC_REAL_DMA_QUIESCE_TIMEOUT_US" None compat in
  let! h := storage_timeout_us "SRC_REAL_STOP_HARVEST_TIMEOUT_US" None compat in
  let! w := storage_timeout_us "SRC_REAL_WRITER_DRAIN_TIMEOUT_US" None compat in
  let! a := storage_timeout_us "SRC_REAL_NVME_ABORT_TIMEOUT_US" None
              (if w <? compat then compat else w) in
  eret (mkTimeouts compat (storage_dma_quiesce_wait_us q) h w a).

Definition storage_first_dma_timeout_us (c : ChannelConfig) : ceff Z :=
  let! fallback := storage_env_u32_limit "SRC_REAL_FIRST_DMA_TIMEOUT_US" 0 UINT32_MAX in
  storage_env_u32_limit (c_snprintf_s 80 ("SRC_REAL_FIRST_DMA_TIMEOUT_US_CH" ++ pretty (id c)))
    fallback UINT32_MAX.

Definition storage_dma_idle_done_ms : ceff Z :=
  storage_env_u32_limit "SRC_REAL_DMA_IDLE_DONE_MS" 5000 3600000.

(** ** The parameters of the cross-slot engine *)
Inductive StorageCrossSlotConfigParam : Type :=
| STORAGE_CROSS_SLOT_CONFIG_ENABLED | STORAGE_CROSS_SLOT_CONFIG_MAX_ACTIVE
| STORAGE_CROSS_SLOT_CONFIG_TARGET_QD | STORAGE_CROSS_SLOT_CONFIG_CQ_BATCH
| STORAGE_CROSS_SLOT_CONFIG_WRITER_BUDGET_US | STORAGE_CROSS_SLOT_CONFIG_BUSY_POLL_US
| STORAGE_CROSS_SLOT_CONFIG_EMPTY_SLEEP_US | STORAGE_CROSS_SLOT_CONFIG_NO_PROGRESS_TIMEOUT_US.

Inductive StorageCrossSlotSourceKind : Type :=
| STORAGE_CROSS_SLOT_SOURCE_CHANNEL_NEW | STORAGE_CROSS_SLOT_SOURCE_CHANNEL_LEGACY
| STORAGE_CROSS_SLOT_SOURCE_GLOBAL_NEW | STORAGE_CROSS_SLOT_SOURCE_GLOBAL_LEGACY
| STORAGE_CROSS_SLOT_SOURCE_DEFAULT.
#[export] Instance StorageCrossSlotSourceKind_eq_dec : EqDecision StorageCrossSlotSourceKind.
Proof. solve_decision. Defined.

Record StorageCrossSlotResolution : Type := mkResolution {
  value : Z; source_kind : StorageCrossSlotSourceKind; source_name : string;
  invalid_source_name : string; fallback_source_name : string }.
#[export] Instance eta_Resolution : EtaOf StorageCrossSlotResolution := λ r,
  mkResolution (value r) (source_kind r) (source_name r) (invalid_source_name r)
    (fallback_source_name r).

Record StorageCrossSlotCandidate : Type := mkCandidate {
  cand_name : string; cand_kind : StorageCrossSlotSourceKind }.

Definition storage_cross_slot_source_kind_name (k : StorageCrossSlotSourceKind) : string :=
  match k with
  | STORAGE_CROSS_SLOT_SOURCE_CHANNEL_NEW => "channel_new"
  | STORAGE_CROSS_SLOT_SOURCE_CHANNEL_LEGACY => "channel_legacy"
  | STORAGE_CROSS_SLOT_SOURCE_GLOBAL_NEW => "global_new"
  | STORAGE_CROSS_SLOT_SOURCE_GLOBAL_LEGACY => "global_legacy"
  | STORAGE_CROSS_SLOT_SOURCE_DEFAULT => "default" end.

Definition profile_for (channel_id : Z) : ceff (option ChannelStorageConfig) :=
  let! c := storage_config_get in eret (storage_config_channel c (u32 channel_id)).

Definition storage_cross_slot_default_target_qd (channel_id : Z) : ceff Z :=
  if channel_id <? 0 then eret (if channel_id =? 2 then 4 else 8) else
  let! profile := profile_for channel_id in
  eret (match profile with Some p => nvme_qd p | None => if channel_id =? 2 then 4 else 8 end).

Definition storage_cross_slot_resolution_default (fallback : Z) (profile_source : bool) :
    StorageCrossSlotResolution :=
  let name := if profile_source then "profile"%string else "default"%string in
  mkResolution fallback STORAGE_CROSS_SLOT_SOURCE_DEFAULT name "" name.

Definition storage_cross_slot_parse_u32 (value : string) (max_value : Z) : option Z :=
  if non_empty (Some value)
  then match strtoul_full value 0 with
       | Some p => if max_value <? p then None else Some p
       | None => None end
  else None.

Definition storage_cross_slot_parse_enabled (value : string) : option Z :=
  if bool_decide (value ∈ ["true"; "TRUE"; "on"; "ON"; "yes"; "YES"]%string) then Some 1 else
  if bool_decide (value ∈ ["false"; "FALSE"; "off"; "OFF"; "no"; "NO"]%string) then Some 0 else
  match storage_cross_slot_parse_u32 value UINT32_MAX with
  | Some numeric => Some (if negb (numeric =? 0) then 1 else 0)
  | None => None end.

Definition parse_candidate (enabled : bool) (max_value : Z) (v : string) : option Z :=
  if enabled then storage_cross_slot_parse_enabled v else storage_cross_slot_parse_u32 v max_value.

(** The first candidate that is present decides, also when it is not valid. *)
Fixpoint storage_cross_slot_resolve_candidates (fallback max_value : Z)
    (enabled profile_source : bool) (candidates : list StorageCrossSlotCandidate) :
    ceff StorageCrossSlotResolution :=
  let out := storage_cross_slot_resolution_default fallback profile_source in
  match candidates with
  | [] => eret out
  | c :: rest =>
    let! v := storage_config_compat_getenv (cand_name c) in
    match v with
    | None => storage_cross_slot_resolve_candidates fallback max_value enabled profile_source rest
    | Some v =>
      eret (match parse_candidate enabled max_value v with
            | Some parsed => mkResolution parsed (cand_kind c) (c_snprintf_s 96 (cand_name c)) "" ""
            | None => out <| invalid_source_name := c_snprintf_s 96 (cand_name c) |> end)
    end
  end.

(** [CROSS_SLOT_ADD]: a buffer of 96 bytes. *)
Definition candidate (kind : StorageCrossSlotSourceKind) (name : string) : StorageCrossSlotCandidate :=
  mkCandidate (c_snprintf_s 96 name) kind.
#[local] Abbreviation new_channel := (candidate STORAGE_CROSS_SLOT_SOURCE_CHANNEL_NEW).
#[local] Abbreviation old_channel := (candidate STORAGE_CROSS_SLOT_SOURCE_CHANNEL_LEGACY).
#[local] Abbreviation new_global := (candidate STORAGE_CROSS_SLOT_SOURCE_GLOBAL_NEW).
#[local] Abbreviation old_global := (candidate STORAGE_CROSS_SLOT_SOURCE_GLOBAL_LEGACY).

(** The last part of a name, for the parameters named by one rule. *)
Definition short_name (p : StorageCrossSlotConfigParam) : string :=
  match p with
  | STORAGE_CROSS_SLOT_CONFIG_ENABLED => "CROSS_SLOT"
  | STORAGE_CROSS_SLOT_CONFIG_MAX_ACTIVE => "MAX_ACTIVE"
  | STORAGE_CROSS_SLOT_CONFIG_TARGET_QD => "TARGET_QD"
  | STORAGE_CROSS_SLOT_CONFIG_CQ_BATCH => "CQ_BATCH"
  | STORAGE_CROSS_SLOT_CONFIG_WRITER_BUDGET_US => "WRITER_BUDGET_US"
  | STORAGE_CROSS_SLOT_CONFIG_BUSY_POLL_US => "BUSY_POLL_US"
  | STORAGE_CROSS_SLOT_CONFIG_EMPTY_SLEEP_US => "EMPTY_SLEEP_US"
  | STORAGE_CROSS_SLOT_CONFIG_NO_PROGRESS_TIMEOUT_US => "NO_PROGRESS_TIMEOUT_US" end.

Definition cross_slot_candidates (p : StorageCrossSlotConfigParam) (channel_id : Z) :
    list StorageCrossSlotCandidate :=
  let ch := pretty channel_id in
  match p with
  | STORAGE_CROSS_SLOT_CONFIG_ENABLED =>
    [new_channel ("SRC_REAL_CROSS_SLOT_CH" ++ ch); old_channel ("SRC_REAL_CROSS_SLOT_ENABLED_CH" ++ ch);
     old_channel ("SRC_REAL_NVME_CROSS_SLOT_QD_CH" ++ ch); new_global "SRC_REAL_CROSS_SLOT";
     old_global "SRC_REAL_CROSS_SLOT_ENABLED"; old_global "SRC_REAL_NVME_CROSS_SLOT_QD"]%string
  | STORAGE_CROSS_SLOT_CONFIG_MAX_ACTIVE =>
    [new_channel ("SRC_REAL_MAX_ACTIVE_CH" ++ ch); old_channel ("SRC_REAL_CROSS_SLOT_BATCH_CH" ++ ch);
     old_channel ("SRC_REAL_NVME_CROSS_SLOT_MAX_ACTIVE_CH" ++ ch);
     old_channel ("SRC_REAL_NVME_CROSS_SLOT_BATCH_CH" ++ ch);
     old_channel ("SRC_REAL_CH" ++ ch ++ "_NVME_CROSS_SLOT_MAX_ACTIVE");
     old_channel ("SRC_REAL_CH" ++ ch ++ "_CROSS_SLOT_BATCH"); new_global "SRC_REAL_MAX_ACTIVE";
     old_global "SRC_REAL_CROSS_SLOT_BATCH"; old_global "SRC_REAL_CROSS_SLOT_MAX_ACTIVE";
     old_global "SRC_REAL_NVME_CROSS_SLOT_MAX_ACTIVE"; old_global "SRC_REAL_NVME_CROSS_SLOT_BATCH"]%string
  | _ =>
    let n := short_name p in
    [new_channel ("SRC_REAL_" ++ n ++ "_CH" ++ ch); old_channel ("SRC_REAL_CH" ++ ch ++ "_" ++ n);
     old_channel ("SRC_REAL_NVME_CROSS_SLOT_" ++ n ++ "_CH" ++ ch); new_global ("SRC_REAL_" ++ n);
     old_global ("SRC_REAL_NVME_CROSS_SLOT_" ++ n)]%string
  end.

Definition cross_slot_max_value (p : StorageCrossSlotConfigParam) : Z :=
  match p with
  | STORAGE_CROSS_SLOT_CONFIG_ENABLED => 1
  | STORAGE_CROSS_SLOT_CONFIG_MAX_ACTIVE | STORAGE_CROSS_SLOT_CONFIG_TARGET_QD
  | STORAGE_CROSS_SLOT_CONFIG_CQ_BATCH => 64
  | STORAGE_CROSS_SLOT_CONFIG_WRITER_BUDGET_US | STORAGE_CROSS_SLOT_CONFIG_BUSY_POLL_US
  | STORAGE_CROSS_SLOT_CONFIG_EMPTY_SLEEP_US => 1000000
  | STORAGE_CROSS_SLOT_CONFIG_NO_PROGRESS_TIMEOUT_US => UINT32_MAX end.

(** The parameters that the profile sets. *)
Definition cross_slot_profiled (p : StorageCrossSlotConfigParam) : bool :=
  match p with
  | STORAGE_CROSS_SLOT_CONFIG_ENABLED | STORAGE_CROSS_SLOT_CONFIG_MAX_ACTIVE
  | STORAGE_CROSS_SLOT_CONFIG_TARGET_QD | STORAGE_CROSS_SLOT_CONFIG_CQ_BATCH => true
  | _ => false end.

Definition cross_slot_fallback (p : StorageCrossSlotConfigParam) (channel_id : Z)
    (profile : option ChannelStorageConfig) : Z :=
  match p, profile with
  | STORAGE_CROSS_SLOT_CONFIG_ENABLED, Some c =>
      match writer_mode c with STORAGE_WRITER_CROSS_SLOT => 1 | STORAGE_WRITER_LEGACY => 0 end
  | STORAGE_CROSS_SLOT_CONFIG_ENABLED, None => if channel_id =? 2 then 0 else 1
  | STORAGE_CROSS_SLOT_CONFIG_MAX_ACTIVE, Some c => max_active_slots c
  | STORAGE_CROSS_SLOT_CONFIG_MAX_ACTIVE, None => if channel_id =? 2 then 1 else 4
  | STORAGE_CROSS_SLOT_CONFIG_TARGET_QD, Some c => nvme_qd c
  | STORAGE_CROSS_SLOT_CONFIG_TARGET_QD, None => if channel_id =? 2 then 4 else 8
  | STORAGE_CROSS_SLOT_CONFIG_CQ_BATCH, Some c => cq_batch c
  | STORAGE_CROSS_SLOT_CONFIG_CQ_BATCH, None => 32
  | STORAGE_CROSS_SLOT_CONFIG_WRITER_BUDGET_US, _ => 300
  | STORAGE_CROSS_SLOT_CONFIG_BUSY_POLL_US, _ => 20
  | STORAGE_CROSS_SLOT_CONFIG_EMPTY_SLEEP_US, _ => 1
  | STORAGE_CROSS_SLOT_CONFIG_NO_PROGRESS_TIMEOUT_US, _ => 5000000
  end.

Definition is_enabled_param (p : StorageCrossSlotConfigParam) : bool :=
  match p with STORAGE_CROSS_SLOT_CONFIG_ENABLED => true | _ => false end.

Definition storage_cross_slot_resolve_config (channel_id : Z) (p : StorageCrossSlotConfigParam) :
    ceff StorageCrossSlotResolution :=
  if channel_id <? 0 then eret (storage_cross_slot_resolution_default 0 false) else
  let! profile := profile_for channel_id in
  storage_cross_slot_resolve_candidates (cross_slot_fallback p channel_id profile)
    (cross_slot_max_value p) (is_enabled_param p)
    (cross_slot_profiled p && bool_decide (is_Some profile)) (cross_slot_candidates p channel_id).

Definition storage_cross_slot_active_slots_for_channel (channel_id : Z) : ceff Z :=
  let! r := storage_cross_slot_resolve_config channel_id STORAGE_CROSS_SLOT_CONFIG_MAX_ACTIVE in
  eret (value r).
Definition storage_cross_slot_enabled_for_channel (channel_id : Z) : ceff bool :=
  let! r := storage_cross_slot_resolve_config channel_id STORAGE_CROSS_SLOT_CONFIG_ENABLED in
  eret (negb (value r =? 0)).

(** ** Scheduling *)
Inductive SchedPolicy : Type := SCHED_OTHER | SCHED_FIFO | SCHED_RR.
#[export] Instance SchedPolicy_eq_dec : EqDecision SchedPolicy.
Proof. solve_decision. Defined.

(** A variable that is present wins over the profile, also when it is not valid. *)
Definition rt_prio (variable : string) (of_profile : ChannelStorageConfig → Z) (channel_id : Z) : ceff Z :=
  let name := c_snprintf_s 64 ("SRC_REAL_CH" ++ pretty channel_id ++ variable) in
  let! own := storage_config_compat_getenv name in
  match own with
  | Some _ => storage_env_u32_limit name 0 99
  | None =>
    let! profile := profile_for channel_id in
    eret (match profile with Some p => of_profile p | None => 0 end)
  end.
Definition storage_writer_rt_prio : Z → ceff Z := rt_prio "_WRITER_RT_PRIO" writer_priority.
Definition storage_producer_rt_prio : Z → ceff Z := rt_prio "_PRODUCER_RT_PRIO" producer_priority.

Definition storage_profile_rt_policy (channel_id : Z) (writer : bool) : ceff SchedPolicy :=
  let! profile := profile_for channel_id in
  eret (match profile with
        | Some p => if (if writer then writer_realtime p else producer_realtime p)
                    then SCHED_RR else SCHED_OTHER
        | None => SCHED_OTHER end).

Definition storage_rt_policy (name : string) (fallback : SchedPolicy) : ceff SchedPolicy :=
  let! v := storage_config_compat_getenv name in
  eret (match v with
        | Some v => if String.eqb v "rr" then SCHED_RR
                    else if String.eqb v "fifo" then SCHED_FIFO
                    else if String.eqb v "other" then SCHED_OTHER else fallback
        | None => fallback end).
Definition storage_rt_policy_name (p : SchedPolicy) : string :=
  match p with SCHED_RR => "rr" | SCHED_FIFO => "fifo" | SCHED_OTHER => "other" end.
Definition storage_require_rt : ceff bool := storage_env_flag_enabled "SRC_REAL_REQUIRE_RT".

(** What was asked of the scheduler and what holds afterwards. *)
Record Scheduling : Type := mkScheduling { rt_enabled : bool; policy : SchedPolicy; prio : Z }.

Section Apply.
Context {W : Type} (pthread_setschedparam : SchedPolicy → Z → Eff W Z).

Definition configured {A} (m : ceff A) : Eff (config_state * W) A := λ '(c, w),
  let '(a, c) := m c in (a, (c, w)).

(** A refused request is an error only when real time is required. *)
Definition rt_refused : Eff (config_state * W) (Z * Scheduling) :=
  let! required := configured storage_require_rt in
  eret (if required : bool then -1 else 0, mkScheduling false SCHED_OTHER 0).

Definition storage_apply_writer_rt (channel_id : Z) : Eff (config_state * W) (Z * Scheduling) :=
  let! prio := configured (storage_writer_rt_prio channel_id) in
  if prio =? 0 then eret (0, mkScheduling false SCHED_OTHER 0) else
  let! dflt := configured (storage_profile_rt_policy channel_id true) in
  let! policy := configured (storage_rt_policy "SRC_REAL_WRITER_RT_POLICY" dflt) in
  let! rc := sio (pthread_setschedparam policy
                    (if bool_decide (policy = SCHED_OTHER) then 0 else prio)) in
  if rc =? 0 then eret (0, mkScheduling true policy prio) else rt_refused.

Definition storage_apply_producer_rt (channel_id : Z) : Eff (config_state * W) (Z * Scheduling) :=
  let! prio := configured (storage_producer_rt_prio channel_id) in
  let! dflt := configured (storage_profile_rt_policy channel_id false) in
  let! policy := configured (storage_rt_policy "SRC_REAL_PRODUCER_RT_POLICY" dflt) in
  let! rc := sio (pthread_setschedparam policy
                    (if bool_decide (policy = SCHED_OTHER) then 0 else prio)) in
  if rc =? 0 then eret (0, mkScheduling (bool_decide (policy ≠ SCHED_OTHER)) policy prio)
  else rt_refused.
End Apply.

(** ** The layout of the ring *)
Definition storage_requested_ring_bytes (c : ChannelConfig) : ceff Z :=
  let! own := storage_config_compat_getenv
                (c_snprintf_s 64 ("SRC_REAL_STORAGE_RING_BYTES_CH" ++ pretty (id c))) in
  let! env := if non_empty own then eret own
              else storage_config_compat_getenv "SRC_REAL_STORAGE_RING_BYTES" in
  eret (match env with
        | Some v => if non_empty env then default (dma_ring_bytes c) (strtoul_full v 0)
                    else dma_ring_bytes c
        | None => dma_ring_bytes c end).

Definition storage_ring_clamp_reason (ring requested : Z) : string :=
  if requested =? ring then "none" else if ring <? requested then "exceeds_hw_span" else "configured".

Definition storage_default_dma_desc_bytes (c : option ChannelConfig) : Z :=
  match c with
  | Some c => if (id c =? HIGH_I_CHANNEL_ID) || (id c =? HIGH_Q_CHANNEL_ID)
              then STORAGE_HIGH_DESC_BYTES_DEFAULT else dma_desc_bytes_default c
  | None => DMA_DESC_BYTES_DEFAULT end.

(** The reason why the layout is refused, the slots and the capacity of the
    descriptor memory. *)
Definition storage_ring_layout_error_reason (c : ChannelConfig) (ring dma_desc_bytes : Z) :
    option string * Z * Z :=
  if dma_desc_bytes =? 0 then (Some "invalid_slot_bytes"%string, 0, 0) else
  let desc_capacity := u32 (desc_cpu_size c / DMA_DESC_ENTRY_BYTES) in
  if ring =? 0 then (Some "zero_ring"%string, 0, 0) else
  if negb (ring mod dma_desc_bytes =? 0) then (Some "slot_bytes_not_divisor"%string, 0, 0) else
  let desc_count := u32 (ring / dma_desc_bytes) in
  (if desc_count =? 0 then Some "zero_slots"%string else
   if desc_capacity =? 0 then Some "zero_desc_capacity"%string else
   if desc_capacity <? desc_count then Some "max_slots"%string else
   if dma_ring_bytes c <? ring then Some "exceeds_hw_span"%string else None,
   desc_count, desc_capacity).

(** ** Lemmas *)
(** The value of a variable is a function of the environment. *)
Definition compat_value (e : environ) (name : string) : option string :=
  let v := getenv e name in
  if non_empty v && is_profile_override_name name && text_is_false (getenv e "CCB_STORAGE_COMPAT_MODE")
  then None else v.

Lemma compat_getenv_value name s :
  (storage_config_compat_getenv name s).1 = compat_value (env s) name.
Proof.
  pose proof (env_const_warn name s) as Hw. unfold compat_value.
  unfold storage_config_compat_getenv, storage_config_legacy_compat_enabled,
    is_storage_worker_process, ebind, eret, cgetenv.
  destruct (non_empty (getenv (env s) name)) eqn:Hn; cbn [andb]; [|done].
  destruct (String.prefix "SRC_REAL_" name && _) eqn:Hp.
  - destruct (warn_deprecated_once name s) as [[] s1]. cbn [fst snd] in *. rewrite Hw, negb_involutive.
    by destruct (is_profile_override_name name && _).
  - rewrite negb_involutive. by destruct (is_profile_override_name name && _).
Qed.

Lemma env_const_resolve fb mx en pr cs :
  env_const (storage_cross_slot_resolve_candidates fb mx en pr cs).
Proof.
  induction cs as [|c cs IH]; simpl; [auto with config|].
  apply env_const_bind; [auto with config|]. intros [v|]; auto with config.
Qed.

Lemma env_const_load : env_const storage_config_load.
Proof.
  unfold storage_config_load, xfail, xret.
  repeat first [ apply env_const_xbind; [|intros ?] | progress (auto 4 with config) | case_match ].
Qed.

Lemma env_const_profile ch : env_const (profile_for ch).
Proof.
  intros s. unfold profile_for, storage_config_get, storage_config_load_global, ebind, eret.
  destruct (g_config s); [done|]. pose proof (env_const_load s) as H.
  destruct (storage_config_load s) as [[e|c] s1]; simpl in *; done.
Qed.

(** What the search finds. *)
Lemma resolve_candidates_spec fb mx en pr cs s r :
  (storage_cross_slot_resolve_candidates fb mx en pr cs s).1 = r →
  (value r = fb ∧ source_kind r = STORAGE_CROSS_SLOT_SOURCE_DEFAULT) ∨
  ∃ before c after v, cs = before ++ c :: after ∧
    Forall (λ c', compat_value (env s) (cand_name c') = None) before ∧
    compat_value (env s) (cand_name c) = Some v ∧
    parse_candidate en mx v = Some (value r) ∧ source_kind r = cand_kind c.
Proof.
  revert s. induction cs as [|c cs IH]; intros s; cbn [storage_cross_slot_resolve_candidates].
  { intros <-. by left. }
  unfold ebind. pose proof (compat_getenv_value (cand_name c) s) as Hv.
  pose proof (env_const_compat_getenv (cand_name c) s) as Hc.
  destruct (storage_config_compat_getenv (cand_name c) s) as [[v|] s1]; cbn [fst snd] in *.
  - destruct (parse_candidate en mx v) as [n|] eqn:Hp; intros <-; [right|by left].
    by exists [], c, cs, v.
  - intros Hr. apply IH in Hr as [Hr|(b & c' & a & v & -> & Hb & Hv' & Hr)]; [by left|right].
    rewrite Hc in Hb, Hv'. destruct Hr as [Hr Hk].
    exists (c :: b), c', a, v. by repeat constructor.
Qed.

Lemma parse_candidate_range en mx v n :
  0 <= mx → (en = true → 1 <= mx) → parse_candidate en mx v = Some n → 0 <= n <= mx.
Proof.
  intros H0 H1. unfold parse_candidate, storage_cross_slot_parse_enabled, storage_cross_slot_parse_u32.
  destruct en; [specialize (H1 eq_refl)|];
    repeat case_match; intros [= <-]; try lia; simplify_eq/=.
  all: repeat match goal with H : strtoul_full _ 0 = Some _ |- _ =>
    apply strtoul_full_range in H; [|lia] end; cint.
Qed.

(** The profile's parameters cannot be named outside compatibility mode. *)
Lemma profiled_candidates ch p :
  0 <= ch < NUM_CHANNELS → cross_slot_profiled p = true →
  Forall (λ c, is_profile_override_name (cand_name c) = true) (cross_slot_candidates p ch).
Proof.
  intros Hch Hp. assert (ch = 0 ∨ ch = 1 ∨ ch = 2) as Hc by (unfold NUM_CHANNELS in Hch; lia).
  destruct p; try done; destruct Hc as [->|[->| ->]]; repeat constructor.
Qed.

Lemma fallback_range p ch prof :
  channel_profile_ok prof → 0 <= cross_slot_fallback p ch (Some prof) <= cross_slot_max_value p.
Proof.
  intros (_&_&_&?&?&?&_). destruct p; cbn [cross_slot_fallback cross_slot_max_value]; try cint.
  destruct (writer_mode prof); lia.
Qed.

(** ** Properties *)
(** The settings of the cross-slot engine.  Whatever the environment
    holds, a resolved parameter of a channel with a valid profile is within the
    parameter's limits.  Its value is the fallback or the valid value of the
    first variable present, new names of the channel before its legacy names
    and those before the global ones; and outside compatibility mode no
    variable changes a parameter that the profile sets. *)
Theorem cross_slot_settings_sound :
  ∀ (s : config_state) (ch : Z) (p : StorageCrossSlotConfigParam) (prof : ChannelStorageConfig),
    0 <= ch < NUM_CHANNELS → (profile_for ch s).1 = Some prof → channel_profile_ok prof →
    let r := (storage_cross_slot_resolve_config ch p s).1 in
    0 <= value r <= cross_slot_max_value p ∧
    ((value r = cross_slot_fallback p ch (Some prof) ∧
      source_kind r = STORAGE_CROSS_SLOT_SOURCE_DEFAULT) ∨
     ∃ before c after v, cross_slot_candidates p ch = before ++ c :: after ∧
       Forall (λ c', compat_value (env s) (cand_name c') = None) before ∧
       compat_value (env s) (cand_name c) = Some v ∧
       parse_candidate (is_enabled_param p) (cross_slot_max_value p) v = Some (value r) ∧
       source_kind r = cand_kind c) ∧
    (cross_slot_profiled p = true → text_is_false (getenv (env s) "CCB_STORAGE_COMPAT_MODE") = true →
     value r = cross_slot_fallback p ch (Some prof) ∧
     source_kind r = STORAGE_CROSS_SLOT_SOURCE_DEFAULT).
Proof.
  intros s ch p prof Hch Hprof Hok r.
  assert (Hspec : (value r = cross_slot_fallback p ch (Some prof) ∧
      source_kind r = STORAGE_CROSS_SLOT_SOURCE_DEFAULT) ∨
     ∃ before c after v, cross_slot_candidates p ch = before ++ c :: after ∧
       Forall (λ c', compat_value (env s) (cand_name c') = None) before ∧
       compat_value (env s) (cand_name c) = Some v ∧
       parse_candidate (is_enabled_param p) (cross_slot_max_value p) v = Some (value r) ∧
       source_kind r = cand_kind c).
  { unfold storage_cross_slot_resolve_config, ebind in r.
    destruct (Z.ltb_spec ch 0); [lia|]. pose proof (env_const_profile ch s) as He.
    destruct (profile_for ch s) as [o s1]. cbn [fst snd] in *. subst o. rewrite <- He.
    exact (resolve_candidates_spec _ _ _ _ _ s1 r eq_refl). }
  pose proof (fallback_range p ch prof Hok) as Hf.
  split; [|split; [done|]].
  { destruct Hspec as [[-> _]|(b & c & a & v & _ & _ & _ & Hv & _)]; [done|].
    apply parse_candidate_range in Hv; [done|by destruct p|by destruct p]. }
  intros Hp Hc. destruct Hspec as [?|(b & c & a & v & Hl & _ & Hget & Hv & _)]; [done|exfalso].
  pose proof (profiled_candidates ch p Hch Hp) as Hn. rewrite Hl in Hn.
  apply Forall_app in Hn as [_ [Hn _]%Forall_cons_1].
  unfold compat_value in Hget. rewrite Hn, Hc, andb_true_r in Hget.
  destruct (non_empty _) eqn:Hne; cbn [andb] in Hget; [done|].
  rewrite Hget in Hne. destruct v; [|done].
  clearbody r. by destruct p.
Qed.

Definition witness_profile : ChannelStorageConfig :=
  default (mkChannelStorage 0 STORAGE_WRITER_LEGACY 0 0 0 0 0 0 false 0 false 0)
    (set_channel_profile STORAGE_PROFILE_PERF_QD8 !! 0%nat).

Lemma cross_slot_settings_sound_witness :
  value (storage_cross_slot_resolve_config 0 STORAGE_CROSS_SLOT_CONFIG_MAX_ACTIVE
    (witness_state [("SRC_REAL_MAX_ACTIVE_CH0", "64")]%string)).1 = max_active_slots witness_profile.
Proof.
  destruct (cross_slot_settings_sound (witness_state [("SRC_REAL_MAX_ACTIVE_CH0", "64")]%string) 0
    STORAGE_CROSS_SLOT_CONFIG_MAX_ACTIVE witness_profile) as (_ & _ & H).
  - split; vm_compute; congruence.
  - vm_compute. reflexivity.
  - apply (Forall_lookup_1 channel_profile_ok (set_channel_profile STORAGE_PROFILE_PERF_QD8) 0);
      [apply set_channel_profile_ok|reflexivity].
  - apply H; vm_compute; reflexivity.
Defined.

(** An accepted layout can be programmed: the slots tile the ring, their
    descriptors fit the descriptor memory, and nothing is truncated. *)
Theorem ring_layout_accepted :
  ∀ (c : ChannelConfig) (ring desc_bytes n cap : Z),
    is_u64 ring → is_u32 desc_bytes → 0 <= desc_cpu_size c <= UINT32_MAX →
    dma_ring_bytes c <= UINT32_MAX →
    storage_ring_layout_error_reason c ring desc_bytes = (None, n, cap) →
    n * desc_bytes = ring ∧ 0 < n <= cap ∧ n * DMA_DESC_ENTRY_BYTES <= desc_cpu_size c ∧
    0 < ring <= dma_ring_bytes c.
Proof.
  intros c ring d n cap Hr Hd Hs Hb. unfold storage_ring_layout_error_reason.
  destruct (Z.eqb_spec d 0) as [->|Hd0]; [done|]. destruct (Z.eqb_spec ring 0); [done|].
  destruct (Z.eqb_spec (ring mod d) 0) as [Hm|]; [|done]. cbn [negb].
  repeat case_match; try done. intros [= <- <-].
  assert (0 < d) by cint. assert (0 <= ring / d) by (apply Z.div_pos; cint).
  assert (ring / d <= ring) by (cint_unfold; apply Z.div_le_upper_bound; nia).
  assert (0 <= desc_cpu_size c / DMA_DESC_ENTRY_BYTES <= desc_cpu_size c).
  { unfold DMA_DESC_ENTRY_BYTES. split; [apply Z.div_pos; lia|apply Z.div_le_upper_bound; lia]. }
  pose proof (Z.div_mod ring d). pose proof (Z.div_mod (desc_cpu_size c) DMA_DESC_ENTRY_BYTES).
  pose proof (Z.mod_pos_bound (desc_cpu_size c) DMA_DESC_ENTRY_BYTES ltac:(done)).
  rewrite !u32_small in * by cint. clear H4 H6. unfold DMA_DESC_ENTRY_BYTES in *. split_and!; cint.
Qed.

End ccb_cmd_config.
