(* ===== verification/WriterThread.v ===== *)
(** * The NVMe writer threads ([src/src/ccb_commands.c])

    The two thread bodies that take slots from the write queue: the one that
    writes a slot at a time and the one that drives the cross-slot engine, with
    the critical sections they share with the producer.  Each time the writer
    takes the mutex, waits for the condition variable or polls, [others] may
    run: the critical sections of the producer, in any number and order. *)
From S2P Require Import Prelude StorageError SlotTable Worker Writer Diag DmaRing CrossSlot CcbTypes WriteQueue.

Module storage_writer_thread.
Import storage_queue storage_worker storage_writer ccb_types storage_write_queue.

(** The queue, the process-wide stop flag, and an abort of the published engine
    that it has not seen yet. *)
Record Sys : Type := mkSys {
  queue : StorageWriteQueue; g_storage_stop_requested : bool; engine_abort : option string }.
#[export] Instance eta_Sys : EtaOf Sys := λ s,
  mkSys (queue s) (g_storage_stop_requested s) (engine_abort s).

(** What the threads reach outside: the DMA registers, the NVMe writes of one
    slot, the counters the NVMe code keeps, the scheduler. *)
Record Outside (W : Type) : Type := mkOutside {
  dma_hw : ccb_dma.DmaHw W;
  nvme_write_contiguous_tight_qd_payload : Z → Z → Z → Z → Z → Eff W Z;
  nvme_write_slot_qd_payload : Z → Z → Z → Z → Z → Eff W Z;
  nvme_submit_stall_count : Eff W Z;
  nvme_cq_empty_polls : Eff W Z;
  nvme_ownership_unresolved : Eff W bool;
  storage_apply_writer_rt : Eff W Z;
  nvme_ops : ccb_hw.NvmeCrossSlotOps W }.
Arguments mkOutside {W}. Arguments dma_hw {W}.
Arguments nvme_write_contiguous_tight_qd_payload {W}. Arguments nvme_write_slot_qd_payload {W}.
Arguments nvme_submit_stall_count {W}. Arguments nvme_cq_empty_polls {W}.
Arguments nvme_ownership_unresolved {W}. Arguments storage_apply_writer_rt {W}.
Arguments nvme_ops {W}.

Definition STORAGE_EVENT_NVME_SUBMIT_STALL : Z := 9.
Definition STORAGE_EVENT_NVME_CQ_STALL : Z := 10.
Definition STORAGE_EVENT_WRITER_SCHEDULE_GAP : Z := 11.
Definition STORAGE_EVENT_WORKER_FATAL : Z := 15.
Definition STORAGE_EVENT_STOP_DRAINED : Z := 16.

(** [storage_elapsed_us(start)] at [now]. *)
Definition storage_elapsed_us (start_us now_us : Z) : Z :=
  if now_us <? start_us then 0 else now_us - start_us.

(** ** Checks of one slot *)
(** The offset of the slot's buffer. *)
Definition storage_slot_addresses (r : ChannelRuntime) (it : PendingDdrSlot) : option Z :=
  let d := dma r in
  let media := if negb (media_bytes it =? 0) then media_bytes it else bytes it in
  if (ccb_dma.dma_desc_count d <=? slot it) || (bytes it =? 0) || (media <? bytes it) ||
     (ccb_dma.dma_desc_bytes d <? media) then None else
  let offset := u64 (slot it * ccb_dma.dma_desc_bytes d) in
  if (ccb_dma.dma_ring_bytes d <? offset) || (ccb_dma.dma_ring_bytes d - offset <? media)
  then None else Some offset.

Definition storage_zero_tail_padding (it : PendingDdrSlot) (r : ChannelRuntime) :
    Z * ChannelRuntime :=
  let media := if negb (media_bytes it =? 0) then media_bytes it else bytes it in
  if media <? bytes it then (-1, r) else
  if (media - bytes it =? 0) || ccb_dma.dry_run (dma r) then (0, r) else
  (-1, r <| nvme_last_error := "unaligned_payload_not_safely_paddable"%string |>).

Section Thread.
Context {W : Type} (out : Outside W) (others : Eff (Sys * W) unit).

Definition M (A : Type) : Type := Eff (Sys * W) A.
Definition get_q : M StorageWriteQueue := let! s := sget in eret (queue s).
Definition mod_q (f : StorageWriteQueue → StorageWriteQueue) : M unit :=
  smod (λ s, s <| queue ::= f |>).
Definition run_q {A} (f : StorageWriteQueue → A * StorageWriteQueue) : M A :=
  λ '(s, w), let '(a, q) := f (queue s) in (a, (s <| queue := q |>, w)).
Definition mod_timing (f : Timing → Timing) : M unit := mod_q (λ q, q <| timing ::= f |>).
(** Taking the mutex, or waiting: the other threads may run. *)
Definition lock : M unit := others.
Definition now : M Z := sio (ccb_dma.wall_time_us (dma_hw out)).
Definition storage_write_request_stop : M unit := smod (λ s, s <| g_storage_stop_requested := true |>).

(** An operation of the DMA ring of the channel. *)
Definition on_dma {A} (m : Eff (ccb_dma.State * W) A) : M A := λ '(s, w),
  let '(a, (d, w)) := m (ccb_dma.mkState (dma (rt (queue s))) None, w) in
  (a, (s <| queue ::= λ q, q <| rt ::= λ r, r <| dma := ccb_dma.rt d |> |> |>, w)).

(** [storage_ring_event] on the ring of the writer. *)
Definition storage_ring_event (id arg0 arg1 : Z) (fatal : bool) : M unit :=
  let! t := now in
  mod_q (λ q, q <| writer_event_ring ::= ccb_storage_diag.storage_event_ring_push
    (ccb_storage_diag.mkRec t id (u16 (channel (rt q))) 0 arg0 arg1 0) fatal |>).

(** *** Errors *)
Definition storage_set_writer_error_reason (reason : string) : M unit :=
  if String.eqb reason "" then eret tt else
  let! _ := lock in mod_q (set_error_reason reason).

(** The critical section of [storage_fail_fatal]. *)
Definition fail_section (unresolved : bool) (q : StorageWriteQueue) : StorageWriteQueue :=
  storage_queue_fail_locked (if unresolved then q <| nvme_engine_quiesced := false |> else q).
Definition storage_fail_fatal : M unit :=
  let! _ := storage_set_writer_error_reason "storage_writer_error" in
  let! _ := lock in
  let! unresolved := sio (nvme_ownership_unresolved out) in
  let! _ := mod_q (fail_section unresolved) in
  let! _ := storage_ring_event STORAGE_EVENT_WORKER_FATAL 0 0 true in
  storage_write_request_stop.

(** The abort reaches the published engine at its next look at its state; an
    abort that is already on its way is kept. *)
Definition storage_queue_request_abort : M unit :=
  let! _ := mod_q storage_queue_fail_locked in
  let! q := get_q in
  if nvme_engine q
  then smod (λ s, s <| engine_abort ::= λ a, Some (default "writer_abort_requested"%string a) |>)
  else eret tt.

(** *** Completing a slot *)
Inductive after_section : Type := ReturnNow (rc : Z) | FailFatal | Completed (requeued : bool).

Definition account_completed (it : PendingDdrSlot) (t : Totals) : Totals :=
  t <| bytes_written ::= λ n, n + bytes it |> <| chunks ::= λ n, u32 (n + 1) |>
    <| completed_slot_count ::= λ n, n + 1 |>
    <| buffered_bytes ::= λ b, if bytes it <=? b then b - bytes it else 0 |>.

(** Handing the slot back to the DMA engine. *)
Definition requeue_section (it : PendingDdrSlot) : M after_section :=
  let! q := get_q in
  if recycled_slot_count (totals q) =? UINT64_MAX then
    let! _ := mod_q (λ q, q <| error := true |>) in eret (ReturnNow (-1)) else
  let! rc := on_dma (ccb_dma.dma_requeue_one (dma_hw out) (slot it)) in
  if negb (rc =? 0) then
    let! _ := mod_q (λ q, set_error_reason "dma_requeue_failed" (storage_queue_fail_locked q)) in
    eret FailFatal else
  let! rc := run_q (storage_local_slot_transition_locked (slot it)
                      STORAGE_SLOT_REQUEUE_PENDING STORAGE_SLOT_DMA_WRITABLE) in
  if negb (rc =? 0) then eret (ReturnNow (-1)) else
  let! _ := mod_q (λ q, q <| totals ::= λ t, t <| recycled_slot_count ::= λ n, n + 1 |> |>) in
  eret (Completed true).

(** From taking the mutex to releasing it. *)
Definition complete_section (it : PendingDdrSlot) : M after_section :=
  let! q := get_q in
  if negb (bool_decide (storage_slot_state (slots q) (slot it) = STORAGE_SLOT_NVME_BUSY)) then
    let! _ := mod_q (λ q, q <| error := true |>) in eret (ReturnNow (-1)) else
  if (UINT64_MAX - bytes it <? bytes_written (totals q)) ||
     (completed_slot_count (totals q) =? UINT64_MAX) then
    let! _ := mod_q (λ q, q <| error := true |>) in eret (ReturnNow (-1)) else
  let! _ := mod_q (λ q, q <| totals ::= account_completed it |>) in
  let should_requeue := requeue_enabled q && storage_worker_can_requeue (worker_state q) in
  let! rc := run_q (storage_local_slot_transition_locked (slot it) STORAGE_SLOT_NVME_BUSY
    (if should_requeue then STORAGE_SLOT_REQUEUE_PENDING else STORAGE_SLOT_FREE)) in
  if negb (rc =? 0) then eret (ReturnNow (-1)) else
  if should_requeue then requeue_section it else eret (Completed false).

Definition storage_complete_slot (it : PendingDdrSlot) : M Z :=
  let! q := get_q in
  if capacity q <=? slot it then eret (-1) else
  let! _ := lock in
  let! a := complete_section it in
  match a with
  | ReturnNow rc => eret rc
  | FailFatal => let! _ := storage_fail_fatal in eret (-1)
  | Completed requeued =>
      let! q := get_q in
      if negb requeued && negb (ccb_dma.dma_requeue_after_stop_count (dma (rt q)) =? 0) then
        let! _ := storage_set_writer_error_reason "requeue_after_stop_latched" in
        let! _ := storage_fail_fatal in eret (-1)
      else eret 0
  end.

(** *** Taking a slot *)

Definition must_wait (q : StorageWriteQueue) : bool :=
  negb (storage_worker_producer_done (worker_state q)) && negb (error q) && (count q =? 0).
(** What follows the wait, [start] being when it began (0: there was none). *)
Definition pop_section (start : Z) : M (StorageQueuePopResult * PendingDdrSlot) :=
  let! _ := (if start =? 0 then eret tt else
             let! t := now in
             let wait_us := storage_elapsed_us start t in
             mod_timing (λ m, m <| queue_empty_wait_us ::= λ n, u64 (n + wait_us) |>
                                <| writer_idle_us ::= λ n, u64 (n + wait_us) |>)) in
  let! q := get_q in
  if error q then eret (STORAGE_QUEUE_POP_ERROR, zero_pending) else
  if count q =? 0 then
    eret (if storage_worker_producer_done (worker_state q)
          then STORAGE_QUEUE_POP_PRODUCER_DRAINED else STORAGE_QUEUE_POP_TEMP_EMPTY, zero_pending)
  else
  let it := default zero_pending (items q !! Z.to_nat (head q)) in
  let! _ := mod_q (λ q, q <| head := u32 (head q + 1) mod capacity q |> <| count := u32 (count q - 1) |>) in
  let! rc := run_q (storage_local_slot_transition_locked (slot it)
                      STORAGE_SLOT_READY_FOR_NVME STORAGE_SLOT_NVME_BUSY) in
  if negb (rc =? 0) then eret (STORAGE_QUEUE_POP_ERROR, it) else
  let! _ := mod_q storage_queue_record_depth_locked in
  eret (STORAGE_QUEUE_POP_ITEM, it).

(** The loop around [pthread_cond_wait]; [None]: the fuel is used up. *)
Fixpoint pop_wait (fuel : nat) (wait_for_item : bool) (start : Z) :
    M (option (StorageQueuePopResult * PendingDdrSlot)) :=
  let! q := get_q in
  if wait_for_item && must_wait q then
    match fuel with
    | O => eret None
    | S fuel => let! _ := lock in pop_wait fuel wait_for_item start
    end
  else let! r := pop_section start in eret (Some r).

Definition storage_queue_pop (fuel : nat) (wait_for_item : bool) :
    M (option (StorageQueuePopResult * PendingDdrSlot)) :=
  let! _ := lock in
  let! q := get_q in
  let! start := (if wait_for_item && must_wait q then now else eret 0) in
  pop_wait fuel wait_for_item start.

(** *** Readiness *)
Fixpoint storage_queue_wait_run (fuel : nat) : M (option Z) :=
  let! _ := lock in
  let! q := get_q in
  if bool_decide (worker_state q = WORKER_INIT) || bool_decide (worker_state q = WORKER_READY)
  then match fuel with O => eret None | S fuel => storage_queue_wait_run fuel end
  else eret (Some (if error q || negb (bool_decide (worker_state q = WORKER_ARMED)) then -1 else 0)).

(** The polling loop of the producer; here the writer is among [others].  The
    boolean tells whether [errno] becomes ETIMEDOUT. *)
Fixpoint storage_queue_wait_writer_ready (fuel : nat) (deadline_us : Z) : M (option (Z * bool)) :=
  let! _ := lock in
  let! q := get_q in
  if writer_ready q then eret (Some (0, false)) else
  if bool_decide (worker_state q = WORKER_FAILED) || error q then eret (Some (-1, false)) else
  let! t := now in
  if deadline_us <=? t then eret (Some (-1, true)) else
  match fuel with O => eret None | S fuel => storage_queue_wait_writer_ready fuel deadline_us end.

Definition storage_record_writer_schedule_gap (expected_run_us actual_run_us : Z) : M unit :=
  if (expected_run_us =? 0) || (actual_run_us <=? expected_run_us) then eret tt else
  let gap_us := actual_run_us - expected_run_us in
  if gap_us <? 1000 then eret tt else
  let! _ := mod_timing (λ m, m <| writer_schedule_gap_count ::= λ n, u64 (n + 1) |>
    <| writer_schedule_gap_max_us ::= λ n, if n <? gap_us then gap_us else n |>) in
  storage_ring_event STORAGE_EVENT_WRITER_SCHEDULE_GAP gap_us 0 false.

(** *** The writer of one slot at a time *)
(** What [flush_slot_to_nvme] requires of the slot: its media bytes. *)
Definition slot_writable (it : PendingDdrSlot) : M (option Z) :=
  let! q := get_q in
  let r := rt q in
  let media := if negb (media_bytes it =? 0) then media_bytes it else bytes it in
  if (ccb_dma.dma_desc_count (dma r) <=? slot it) || (ccb_dma.dma_desc_bytes (dma r) <? bytes it) ||
     (media <? bytes it) || (ccb_dma.dma_desc_bytes (dma r) <? media) then eret None else
  match storage_slot_addresses r it with
  | None => eret None
  | Some offset =>
      let! rc := run_q (λ q, let '(rc, r) := storage_zero_tail_padding it (rt q) in (rc, q <| rt := r |>)) in
      if negb (rc =? 0) then eret None else
      if negb (sectors it =? media / SECTOR_SIZE) ||
         negb (hw_addr it =? u64 (ccb_dma.ddr_hw_base (dma r) + offset)) then eret None else
      if (UINT64_MAX - sectors it <? start_lba it) ||
         ((0 <? nvme_max_lba r) && (nvme_max_lba r <? start_lba it + sectors it)) then eret None
      else eret (Some media)
  end.
Definition flush_slot_to_nvme (it : PendingDdrSlot) : M Z :=
  if bytes it =? 0 then eret 0 else
  let! o := slot_writable it in
  match o with
  | None => eret (-1)
  | Some media =>
      let! q := get_q in
      let! rc := sio (if nvme_feed_mode_tight (rt q)
        then nvme_write_contiguous_tight_qd_payload out (hw_addr it) (start_lba it) media (bytes it)
               (nvme_qd_effective (rt q))
        else nvme_write_slot_qd_payload out (slot it) (start_lba it) (sectors it) (bytes it)
               (hw_addr it)) in
      eret (if negb (rc =? 0) then -1 else 0)
  end.

(** How a thread ends. *)
Inductive WriterEnd : Type := NotStarted | SetupFailed | Failed | Drained.

Definition ready_count : M Z :=
  let! _ := lock in let! q := get_q in eret (storage_queue_ready_count q).
Definition event_if_grown (before after id write_us : Z) : M unit :=
  if before <? after then storage_ring_event id write_us 0 false else eret tt.
Definition account_write (write_us : Z) (backlog : bool) (q : StorageWriteQueue) : StorageWriteQueue :=
  q <| timing ::= λ m,
    let m := m <| nvme_write_us ::= λ n, u64 (n + write_us) |>
               <| writer_active_us ::= λ n, u64 (n + write_us) |>
               <| writer_drain_loop_count ::= λ n, u64 (n + 1) |>
               <| writer_slots_drained ::= λ n, u64 (n + 1) |> in
    if backlog || backlog_mode q then m <| ready_q_nonempty_us ::= λ n, u64 (n + write_us) |> else m |>.

(** Writing and completing the slot; the time from which the next pop is due. *)
Definition write_popped (it : PendingDdrSlot) : M (WriterEnd + Z) :=
  let! ready := ready_count in
  let! stalls_before := sio (nvme_submit_stall_count out) in
  let! cq_empty_before := sio (nvme_cq_empty_polls out) in
  let! start := now in
  let! rc := flush_slot_to_nvme it in
  if negb (rc =? 0) then let! _ := storage_fail_fatal in eret (inl Failed) else
  let! t := now in
  let write_us := storage_elapsed_us start t in
  let! stalls := sio (nvme_submit_stall_count out) in
  let! _ := event_if_grown stalls_before stalls STORAGE_EVENT_NVME_SUBMIT_STALL write_us in
  let! cq_empty := sio (nvme_cq_empty_polls out) in
  let! _ := event_if_grown cq_empty_before cq_empty STORAGE_EVENT_NVME_CQ_STALL write_us in
  let! _ := mod_q (account_write write_us (0 <? ready)) in
  let! rc := storage_complete_slot it in
  if negb (rc =? 0) then let! _ := storage_fail_fatal in eret (inl Failed) else
  let! ready := ready_count in
  if 0 <? ready then let! t := now in eret (inr t) else eret (inr 0).

Definition abort_seen : M bool :=
  let! _ := lock in let! q := get_q in eret (storage_queue_abort_requested q).

(** [None]: the fuel is used up while waiting. *)
Fixpoint writer_loop (fuel : nat) (expected_run_us : Z) : M (option WriterEnd) :=
  match fuel with
  | O => eret None
  | S fuel =>
    let! aborted := abort_seen in
    if (aborted : bool) then eret (Some Failed) else
    let! _ := (if expected_run_us =? 0 then eret tt else
               let! t := now in storage_record_writer_schedule_gap expected_run_us t) in
    let! popped := storage_queue_pop fuel true in
    match popped with
    | None => eret None
    | Some (STORAGE_QUEUE_POP_ERROR, _) => let! _ := storage_fail_fatal in eret (Some Failed)
    | Some (STORAGE_QUEUE_POP_PRODUCER_DRAINED, _) =>
        let! _ := storage_ring_event STORAGE_EVENT_STOP_DRAINED 0 0 false in eret (Some Drained)
    | Some (STORAGE_QUEUE_POP_ITEM, it) =>
        let! r := write_popped it in
        match r with inl e => eret (Some e) | inr expected => writer_loop fuel expected end
    | Some (_, _) => writer_loop fuel 0
    end
  end.

Definition set_writer_ready (success : bool) : M unit :=
  let! _ := lock in mod_q (storage_queue_set_writer_ready success).
Definition setup_failed : M (option WriterEnd) :=
  let! _ := set_writer_ready false in
  let! _ := storage_ring_event STORAGE_EVENT_WORKER_FATAL 0 0 true in
  let! _ := storage_write_request_stop in eret (Some SetupFailed).

Definition storage_nvme_writer_thread (fuel : nat) : M (option WriterEnd) :=
  let! run := storage_queue_wait_run fuel in
  match run with
  | None => eret None
  | Some rc =>
    if negb (rc =? 0) then eret (Some NotStarted) else
    let! rc := sio (storage_apply_writer_rt out) in
    if negb (rc =? 0) then
      let! _ := storage_set_writer_error_reason "writer_schedule_failed" in setup_failed else
    let! _ := set_writer_ready true in
    writer_loop fuel 0
  end.
End Thread.
End storage_writer_thread.
