(* ===== verification/ProducerStats.v ===== *)
(** * The producer of a capture: state, statistics and events
      ([src/src/ccb_commands.c])

    The producer is the main thread of a storage worker: it takes completed
    descriptors from the DMA ring and hands them to the writer thread through
    the write queue.  This file holds the locals of
    [execute_write_with_result_mode] and the helpers that update the statistics
    of the producer and send its events; [ProducerBatch] holds what it does
    with a batch of descriptors, [ProducerRun] the capture as a whole.  The
    writer thread runs between the critical sections ([others]). *)
From S2P Require Import Prelude StorageError SlotTable Pipeline Worker Writer Stop CStdlib Bytes Config Ipc Diag DmaRing CrossSlot CcbTypes WriteQueue WriterThread CmdConfig.

Module ccb_capture.
Import storage_queue storage_worker ccb_types storage_stop storage_ipc ccb_storage_pipeline storage_write_queue storage_writer_thread ccb_cmd_config.

Definition STORAGE_EVENT_DMA_BD_LOW : Z := 2.
Definition STORAGE_EVENT_DMA_BD_EXHAUSTED : Z := 3.
Definition STORAGE_EVENT_DMA_ERROR : Z := 4.
Definition STORAGE_EVENT_DESCRIPTOR_ERROR : Z := 5.
Definition STORAGE_EVENT_SLOT_STATE_ERROR : Z := 6.
Definition STORAGE_EVENT_QUEUE_FULL : Z := 7.
Definition STORAGE_EVENT_STOP_LATCHED : Z := 8.
Definition STORAGE_EVENT_DEADLINE_US : Z := 1000000.
Definition STORAGE_STOP_STABLE_EMPTY_SCANS : Z := 3.
Definition STORAGE_STOP_STABLE_EMPTY_US : Z := 100.

(** ** Statistics of the producer *)
Record RingFull : Type := mkRingFull {
  ring_full_count : Z; ring_full_total_us : Z; ring_full_start_us : Z;
  ring_full_first_at_bytes : Z; ring_full_last_at_bytes : Z; ring_full_active : bool;
  integrity_risk_ring_full : bool }.
#[export] Instance eta_RingFull : EtaOf RingFull := λ r,
  mkRingFull (ring_full_count r) (ring_full_total_us r) (ring_full_start_us r)
    (ring_full_first_at_bytes r) (ring_full_last_at_bytes r) (ring_full_active r)
    (integrity_risk_ring_full r).

Record Pressure : Type := mkPressure {
  watermark_level : Z; ring_warning_percent : Z; ring_critical_percent : Z;
  ring_critical_duration_us : Z; ring_critical_since_us : Z;
  ring_critical_stop_enabled : bool; ring_critical_stop_triggered : bool }.
#[export] Instance eta_Pressure : EtaOf Pressure := λ p,
  mkPressure (watermark_level p) (ring_warning_percent p) (ring_critical_percent p)
    (ring_critical_duration_us p) (ring_critical_since_us p) (ring_critical_stop_enabled p)
    (ring_critical_stop_triggered p).

Record Harvested : Type := mkHarvested {
  dma_desc_completed_count : Z; dma_harvest_interval_count : Z;
  dma_harvest_interval_total_us : Z; dma_harvest_interval_min_us : Z;
  dma_harvest_interval_max_us : Z; first_dma_desc_us : Z; last_dma_desc_us : Z;
  dma_harvest_batches : Z; dma_harvest_batch_total : Z; dma_harvest_batch_max : Z;
  dma_harvest_batch_current : Z }.
#[export] Instance eta_Harvested : EtaOf Harvested := λ h,
  mkHarvested (dma_desc_completed_count h) (dma_harvest_interval_count h)
    (dma_harvest_interval_total_us h) (dma_harvest_interval_min_us h)
    (dma_harvest_interval_max_us h) (first_dma_desc_us h) (last_dma_desc_us h)
    (dma_harvest_batches h) (dma_harvest_batch_total h) (dma_harvest_batch_max h)
    (dma_harvest_batch_current h).

Record Receive : Type := mkReceive {
  receive_integrity_ok : bool; receive_integrity_risk : string;
  primary_error : StorageErrorCode; secondary_error : StorageErrorCode;
  secondary_reason : string; first_receive_failure_us : Z; first_receive_failure_bytes : Z }.
#[export] Instance eta_Receive : EtaOf Receive := λ r,
  mkReceive (receive_integrity_ok r) (receive_integrity_risk r) (primary_error r)
    (secondary_error r) (secondary_reason r) (first_receive_failure_us r)
    (first_receive_failure_bytes r).

(** [StorageProducerStats], without the windows of the performance log and the
    snapshot kept of the first failure, which nothing reads. *)
Record StorageProducerStats : Type := mkStats {
  full : RingFull; pressure : Pressure; harvested : Harvested; receive : Receive;
  max_completed_unharvested : Z; min_dma_writable : Z; max_occupied_bytes_est : Z;
  dma_no_free_slot_count : Z; dma_error_count : Z; descriptor_error_count : Z;
  dma_bd_low_active : bool; last_bd_snapshot : option ccb_dma.DmaBdSnapshot;
  last_bd_snapshot_us : Z }.
#[export] Instance eta_Stats : EtaOf StorageProducerStats := λ s,
  mkStats (full s) (pressure s) (harvested s) (receive s) (max_completed_unharvested s)
    (min_dma_writable s) (max_occupied_bytes_est s) (dma_no_free_slot_count s)
    (dma_error_count s) (descriptor_error_count s) (dma_bd_low_active s) (last_bd_snapshot s)
    (last_bd_snapshot_us s).

(** The settings of ring pressure, as the capture reads them. *)
Definition pressure_init (warning critical duration_us : Z) : Pressure :=
  let '(warning, critical) := if (warning =? 0) || (critical <=? warning) then (75, 90)
                              else (warning, critical) in
  mkPressure 0 warning critical duration_us 0 false false.
Definition stats_init (p : Pressure) : StorageProducerStats :=
  mkStats (mkRingFull 0 0 0 0 0 false false) p (mkHarvested 0 0 0 0 0 0 0 0 0 0 0)
    (mkReceive true "none" STORAGE_ERR_NONE STORAGE_ERR_NONE "" 0 0) 0 UINT32_MAX 0 0 0 0 false
    None 0.

(** A snapshot that could not be taken. *)
Definition zero_snapshot : ccb_dma.DmaBdSnapshot := ccb_dma.mkSnapshot 0 0 0 0 0 0 0 0 0 0 0 0 0 0.
Definition storage_stats_observe_bd_snapshot (sn : ccb_dma.DmaBdSnapshot) (s : StorageProducerStats) :
    StorageProducerStats :=
  s <| max_completed_unharvested ::= λ m, if m <? ccb_dma.sn_completed_unharvested sn
                                          then ccb_dma.sn_completed_unharvested sn else m |>
    <| min_dma_writable ::= λ m, if (m =? UINT32_MAX) || (ccb_dma.sn_dma_writable sn <? m)
                                 then ccb_dma.sn_dma_writable sn else m |>
    <| max_occupied_bytes_est ::= λ m, if m <? ccb_dma.occupied_bytes_est sn
                                       then ccb_dma.occupied_bytes_est sn else m |>.

(** The first error and the first one that differs are kept with their reasons. *)
Definition record_in (code : StorageErrorCode) (reason : string) (r : Receive) : Receive :=
  if String.eqb reason "" then r else
  let '(p, s) := storage_error_record (primary_error r) (secondary_error r) code in
  let r' := r <| receive_integrity_ok := false |> <| primary_error := p |> <| secondary_error := s |> in
  if (primary_error r =? STORAGE_ERR_NONE) && negb (p =? STORAGE_ERR_NONE)
  then r' <| receive_integrity_risk := c_snprintf_s 64 reason |>
  else if (secondary_error r =? STORAGE_ERR_NONE) && negb (s =? STORAGE_ERR_NONE)
  then r' <| secondary_reason := c_snprintf_s 64 reason |> else r'.
Definition storage_record_error (code : StorageErrorCode) (reason : string)
    (s : StorageProducerStats) : StorageProducerStats :=
  s <| receive ::= record_in code reason |>.
Definition storage_record_failure : string → StorageProducerStats → StorageProducerStats :=
  storage_record_error STORAGE_ERR_INTERNAL.

Definition storage_stats_finish_harvest_batch (s : StorageProducerStats) : StorageProducerStats :=
  s <| harvested ::= λ h,
    if dma_harvest_batch_current h =? 0 then h else
    h <| dma_harvest_batches ::= λ n, u64 (n + 1) |>
      <| dma_harvest_batch_total ::= λ n, u64 (n + dma_harvest_batch_current h) |>
      <| dma_harvest_batch_max ::= λ m, if m <? dma_harvest_batch_current h
                                        then dma_harvest_batch_current h else m |>
      <| dma_harvest_batch_current := 0 |> |>.

Definition note_interval (now_us : Z) (h : Harvested) : Harvested :=
  if negb (last_dma_desc_us h =? 0) && (last_dma_desc_us h <=? now_us) then
    let interval_us := now_us - last_dma_desc_us h in
    h <| dma_harvest_interval_count ::= λ n, u64 (n + 1) |>
      <| dma_harvest_interval_total_us ::= λ n, u64 (n + interval_us) |>
      <| dma_harvest_interval_min_us ::= λ m, if (m =? 0) || (interval_us <? m) then interval_us else m |>
      <| dma_harvest_interval_max_us ::= λ m, if m <? interval_us then interval_us else m |>
  else h.
Definition storage_stats_record_dma_desc (now_us : Z) (s : StorageProducerStats) : StorageProducerStats :=
  s <| harvested ::= λ h,
    let h := h <| dma_desc_completed_count ::= λ n, u64 (n + 1) |>
               <| dma_harvest_batch_current ::= λ n, u32 (n + 1) |>
               <| first_dma_desc_us ::= λ t, if t =? 0 then now_us else t |> in
    note_interval now_us h <| last_dma_desc_us := now_us |> |>.

Definition storage_stats_update_ring_full (is_full : bool) (now_us received_bytes : Z)
    (s : StorageProducerStats) : StorageProducerStats :=
  s <| full ::= λ f,
    if is_full then
      let f := f <| ring_full_last_at_bytes := received_bytes |> in
      if ring_full_active f then f else
      f <| ring_full_active := true |> <| integrity_risk_ring_full := true |>
        <| ring_full_start_us := now_us |> <| ring_full_count ::= λ n, u64 (n + 1) |>
        <| ring_full_first_at_bytes ::= λ n, if n =? 0 then received_bytes else n |>
    else if ring_full_active f then
      f <| ring_full_total_us ::= λ n, u64 (n + u64 (now_us - ring_full_start_us f)) |>
        <| ring_full_active := false |> <| ring_full_start_us := 0 |>
    else f |>.

Definition storage_watermark_name (level : Z) : string :=
  if level =? 1 then "warning" else if level =? 2 then "critical" else if level =? 3 then "full"
  else "normal".

(** ** The locals of the capture *)
(** The byte counters and the next sector. *)
Record Counters : Type := mkCounters {
  dma_received_bytes : Z; dma_observed_bytes : Z; dma_harvested_payload_bytes : Z;
  queued_payload_bytes : Z; tail_unqueued_bytes : Z; bytes_captured : Z; next_queue_lba : Z }.
#[export] Instance eta_Counters : EtaOf Counters := λ c,
  mkCounters (dma_received_bytes c) (dma_observed_bytes c) (dma_harvested_payload_bytes c)
    (queued_payload_bytes c) (tail_unqueued_bytes c) (bytes_captured c) (next_queue_lba c).

Record Times : Type := mkTimes {
  stop_request_us : Z; packet_boundary_us : Z; dma_quiesced_us : Z; producer_done_us : Z;
  writer_drained_us : Z; final_us : Z; capture_start_us : Z; start_skew_us : Z }.
#[export] Instance eta_Times : EtaOf Times := λ t,
  mkTimes (stop_request_us t) (packet_boundary_us t) (dma_quiesced_us t) (producer_done_us t)
    (writer_drained_us t) (final_us t) (capture_start_us t) (start_skew_us t).

(** How far the capture is. *)
Record Flags : Type := mkFlags {
  write_queue_ready : bool; writer_started : bool; dma_started : bool; dma_quiesced : bool;
  dma_stop_attempted : bool; manual_stop_seen : bool; tail_incomplete : bool;
  dma_stop_failed : bool; data_persisted : bool; auto_idle_done : bool;
  stop_harvest_stable : bool; stop_tail_seen : bool; stop_failed_phase_sent : bool;
  final_perf_emitted : bool }.
#[export] Instance eta_Flags : EtaOf Flags := λ f,
  mkFlags (write_queue_ready f) (writer_started f) (dma_started f) (dma_quiesced f)
    (dma_stop_attempted f) (manual_stop_seen f) (tail_incomplete f) (dma_stop_failed f)
    (data_persisted f) (auto_idle_done f) (stop_harvest_stable f) (stop_tail_seen f)
    (stop_failed_phase_sent f) (final_perf_emitted f).

(** The locals of the loop. *)
Record Loop : Type := mkLoop {
  last_dma_us : Z; first_dma_deadline_us : Z; next_input_idle_scan_us : Z;
  saw_dma_data : bool; stop_logged : bool; stop_harvest_state : StorageStopHarvestState;
  input_idle_state : StorageInputIdleState }.
#[export] Instance eta_Loop : EtaOf Loop := λ l,
  mkLoop (last_dma_us l) (first_dma_deadline_us l) (next_input_idle_scan_us l) (saw_dma_data l)
    (stop_logged l) (stop_harvest_state l) (input_idle_state l).

(** The process-wide variables the producer alone changes. *)
Record Globals : Type := mkGlobals {
  g_storage_control_drain_latched : bool; g_storage_control_stop_latched : bool;
  g_storage_stop_epoch : Z; g_storage_fatal_event_sent : bool }.
#[export] Instance eta_Globals : EtaOf Globals := λ g,
  mkGlobals (g_storage_control_drain_latched g) (g_storage_control_stop_latched g)
    (g_storage_stop_epoch g) (g_storage_fatal_event_sent g).

(** What is read from the queue when the writer has ended. *)
Record Finals : Type := mkFinals {
  final_queue_snapshot : StorageQueueSnapshot; completed_unharvested_bytes : Z;
  file_bytes : Z; chunks : Z; total_sectors : Z }.
#[export] Instance eta_Finals : EtaOf Finals := λ f,
  mkFinals (final_queue_snapshot f) (completed_unharvested_bytes f) (file_bytes f) (chunks f)
    (total_sectors f).

Record Locals : Type := mkLocals {
  stats : StorageProducerStats; counters : Counters; times : Times; flags : Flags; loop : Loop;
  globals : Globals; finals : Finals; stop_state : StorageStopState; dma_stop_result : Z;
  dma_stop_report : ccb_dma.DmaStopReport }.
#[export] Instance eta_Locals : EtaOf Locals := λ l,
  mkLocals (stats l) (counters l) (times l) (flags l) (loop l) (globals l) (finals l) (stop_state l)
    (dma_stop_result l) (dma_stop_report l).

(** The locals when the writer thread has been created. *)
Definition zero_queue_snapshot : StorageQueueSnapshot :=
  mkQueueSnapshot 0 0 0 0 (mkTotals 0 0 0 0 0 0) (mkTiming 0 0 0 0 0 0 0 0 0 0)
    (mkCounts 0 0 0 0 0 0 0).
Definition locals_init (p : Pressure) (start_lba : Z) : Locals :=
  mkLocals (stats_init p) (mkCounters 0 0 0 0 0 0 start_lba) (mkTimes 0 0 0 0 0 0 0 0)
    (mkFlags true false false false false false false false false false false false false false)
    (mkLoop 0 0 0 false false storage_stop_harvest_state_init storage_input_idle_init)
    (mkGlobals false false 0 false) (mkFinals zero_queue_snapshot 0 0 0 0)
    storage_stop_state_init ccb_dma.DMA_STOP_OK ccb_dma.zero_report.

(** What the producer and the writer share, and the locals. *)
Record State : Type := mkState { sys : Sys; vars : Locals }.
#[export] Instance eta_State : EtaOf State := λ s, mkState (sys s) (vars s).

(** ** The settings of a capture *)
Record Settings : Type := mkSettings {
  environment : storage_config.config_state; cfg_id : Z; supervised : bool;
  bounded : bool; requested_size : Z; harvest_batch_max_cfg : Z; timeouts : StorageStopTimeouts;
  has_control_fd : bool; has_event_fd : bool; start_fd_value : option string; gopt_timeout_us : Z;
  coordinated_idle_enabled : bool; auto_idle_enabled : bool; dma_idle_done_ms : Z;
  first_dma_timeout_us : Z; require_nonempty_payload : bool;
  idle_scan_interval_ms : Z; idle_required_ms : Z; idle_required_scans : Z;
  drain_stable_scans : Z; drain_stable_us : Z }.

(** The value of [storage_env_u32_limit] in the environment of the capture. *)
Definition setting (c : Settings) (name : string) (fallback max_value : Z) : Z :=
  (storage_env_u32_limit name fallback max_value (environment c)).1.

(** The counters that the NVMe code keeps in the runtime. *)
Record NvmeCounters : Type := mkNvmeCounters {
  nvme_payload_bytes_done : Z; nvme_write_bytes_done : Z; nvme_cmd_count : Z;
  nvme_cq_completed : Z; nvme_active_qd_current : Z; nvme_submit_stall_max_us : Z;
  nvme_primary_error : StorageErrorCode; nvme_secondary_error : StorageErrorCode }.

(** A message read before a deadline, or why there is none. *)
Inductive control_read : Type := Message (m : StorageControlMessage) | ReadTimeout | ReadProtocol | ReadFailed.

(** What the producer reaches outside: the writer thread (another run of the
    code of [WriterThread] or [CrossWriter]), the pipes, the scheduler. *)
Record Producer (W : Type) : Type := mkProducer {
  outside : Outside W;
  others : Eff (Sys * W) unit;
  pthread_tryjoin_np : Eff (Sys * W) Z;
  write_event : StorageWorkerEvent → Z → Eff W Z;
  storage_ipc_monotonic_us : Eff W Z;
  read_control : Eff W (option StorageControlMessage);
  control_nonblocking : Eff W bool;
  read_control_deadline : Z → Eff W control_read;
  read_start_us : Z → Eff W (option Z);
  apply_producer_rt : Eff W Z;
  perf_due : Eff W bool;
  read_nvme : Eff W NvmeCounters;
  metadata_write : list FileEntry → Eff W Z }.
Arguments mkProducer {W}. Arguments outside {W}. Arguments others {W}.
Arguments pthread_tryjoin_np {W}. Arguments write_event {W}.
Arguments storage_ipc_monotonic_us {W}. Arguments read_control {W}.
Arguments control_nonblocking {W}. Arguments read_control_deadline {W}. Arguments read_start_us {W}. Arguments apply_producer_rt {W}. Arguments perf_due {W}. Arguments read_nvme {W}. Arguments metadata_write {W}.

(** How a step of the capture ends early: the loop goes on, the loop is left,
    [goto out], or the fuel of a waiting loop (or a division by zero) ends the run. *)
Inductive outcome : Type := Again | Leave | GoOut | Stuck.

Section Producer.
Context {W : Type} (P : Producer W) (c : Settings).

Definition M (A : Type) : Type := Eff (State * W) A.
Definition on_sys {A} (m : Eff (Sys * W) A) : M A := λ '(s, w),
  let '(a, (y, w)) := m (sys s, w) in (a, (s <| sys := y |>, w)).
Definition get : M Locals := let! s := sget in eret (vars s).
Definition mod_vars (f : Locals → Locals) : M unit := smod (λ s, s <| vars ::= f |>).
Definition mod_stats (f : StorageProducerStats → StorageProducerStats) : M unit :=
  mod_vars (λ l, l <| stats ::= f |>).
Definition mod_counters (f : Counters → Counters) : M unit := mod_vars (λ l, l <| counters ::= f |>).
Definition mod_flags (f : Flags → Flags) : M unit := mod_vars (λ l, l <| flags ::= f |>).
Definition mod_times (f : Times → Times) : M unit := mod_vars (λ l, l <| times ::= f |>).
Definition mod_loop (f : Loop → Loop) : M unit := mod_vars (λ l, l <| loop ::= f |>).
Definition mod_globals (f : Globals → Globals) : M unit := mod_vars (λ l, l <| globals ::= f |>).
Definition mod_stop (f : StorageStopState → StorageStopState) : M unit :=
  mod_vars (λ l, l <| stop_state ::= f |>).
(** The queue without its mutex, and an operation under the mutex. *)
Definition queue_of : M StorageWriteQueue := on_sys get_q.
Definition locked {A} (f : StorageWriteQueue → A * StorageWriteQueue) : M A :=
  on_sys (let! _ := lock (others P) in run_q f).
Definition locked_ (f : StorageWriteQueue → StorageWriteQueue) : M unit :=
  locked (λ q, (tt, f q)).
Definition hw : ccb_dma.DmaHw W := dma_hw (outside P).
Definition storage_wall_time_us : M Z := sio (ccb_dma.wall_time_us hw).
Definition channel_dma : M ccb_dma.Rt := let! q := queue_of in eret (dma (rt q)).
(** Sleeping and yielding let the other threads run. *)
Definition usleep : M unit := on_sys (others P).
Definition stop_ {A} (o : outcome) : M (outcome + A) := eret (inl o).
Definition lift {A} (m : M A) : M (outcome + A) := let! a := m in xret a.

Definition record_error (code : StorageErrorCode) (reason : string) : M unit :=
  mod_stats (storage_record_error code reason).
Definition record_failure (reason : string) : M unit := mod_stats (storage_record_failure reason).

(** [storage_ring_event] on the ring of the producer. *)
Definition producer_ring_event (id arg0 arg1 : Z) (fatal : bool) : M unit :=
  let! t := storage_wall_time_us in
  on_sys (mod_q (λ q, q <| producer_event_ring ::= ccb_storage_diag.storage_event_ring_push
    (ccb_storage_diag.mkRec t id (u16 (channel (rt q))) 0 arg0 arg1 0) fatal |>)).

(** *** Events to the parent *)
Definition reason_bytes (reason : string) : list Z := c_stdlib.code <$> String.list_ascii_of_string reason.

(** A fatal event is sent at most once. *)
Definition storage_emit_event (type : Z) (code : StorageErrorCode) (received : Z) (reason : string) : M Z :=
  if negb (has_event_fd c) then eret 0 else
  let! l := get in
  if (type =? STORAGE_WORKER_FATAL) && g_storage_fatal_event_sent (globals l) then eret 0 else
  let! t := sio (storage_ipc_monotonic_us P) in
  let e := storage_ipc_make_event t type (u32 (cfg_id c)) code received (Some (reason_bytes reason)) in
  let! t := sio (storage_ipc_monotonic_us P) in
  let! rc := sio (write_event P e (u64 (t + STORAGE_EVENT_DEADLINE_US))) in
  let! _ := (if (type =? STORAGE_WORKER_FATAL) && (rc =? 0)
             then mod_globals (λ g, g <| g_storage_fatal_event_sent := true |>) else eret tt) in
  eret rc.
Definition storage_emit_stop_phase (phase : Z) (code : StorageErrorCode) (received : Z)
    (reason : string) : M Z :=
  if negb (has_event_fd c) then eret 0 else
  let! l := get in
  let! t := sio (storage_ipc_monotonic_us P) in
  let e := storage_ipc_make_event t STORAGE_WORKER_STOP_PHASE (u32 (cfg_id c)) code received
             (Some (reason_bytes reason)) in
  let e := e <| e_payload ::= λ p, put32 phase_stop_phase_off phase
                 (put64 phase_epoch_off (g_storage_stop_epoch (globals l)) p) |> in
  let! t := sio (storage_ipc_monotonic_us P) in
  sio (write_event P e (u64 (t + STORAGE_EVENT_DEADLINE_US))).
(** A fatal event with the bytes received so far and the current risk. *)
Definition emit_fatal (code : StorageErrorCode) : M unit :=
  let! l := get in
  let! _ := storage_emit_event STORAGE_WORKER_FATAL code (dma_received_bytes (counters l))
              (receive_integrity_risk (receive (stats l))) in eret tt.

(** *** The start gate *)
Definition latch_control_stop (m : StorageControlMessage) : M unit :=
  mod_globals (λ g, g <| g_storage_control_stop_latched := true |>
                      <| g_storage_stop_epoch := c_stop_epoch m |>).

Inductive gate_end : Type := GateFailed (reason : string) | GateStuck.
Definition gate_fail {A} (reason : string) : M (gate_end + A) := xfail (GateFailed reason).

Definition gate_read (name stage : string) (expected : Z) : M (gate_end + StorageControlMessage) :=
  let dflt := if negb (gopt_timeout_us c =? 0) then gopt_timeout_us c else DEFAULT_TIMEOUT_US in
  let start := (storage_timeout_us "SRC_REAL_STORAGE_START_TIMEOUT_US" None dflt (environment c)).1 in
  let timeout := (storage_timeout_us name None start (environment c)).1 in
  let! t := sio (storage_ipc_monotonic_us P) in
  let! r := sio (read_control_deadline P (u64 (t + timeout))) in
  match r with
  | ReadTimeout => gate_fail (stage ++ "_wait_timeout")%string
  | ReadProtocol => gate_fail (stage ++ "_control_protocol_error")%string
  | ReadFailed => gate_fail (stage ++ "_control_eof_or_io_error")%string
  | Message m =>
    if c_type m =? STORAGE_CTRL_STOP then
      let! _ := latch_control_stop m in gate_fail ("stop_before_" ++ stage)%string
    else if negb (c_type m =? expected) then gate_fail ("invalid_" ++ stage ++ "_sequence")%string
    else xret m
  end.

Definition note_skew (start_us : Z) : M unit :=
  let! t := storage_wall_time_us in
  mod_times (λ x, x <| start_skew_us := if start_us <=? t then t - start_us else 0 |>).

(** The two-phase barrier of a supervised worker. *)
Definition gate_control (fuel : nat) : M (gate_end + unit) :=
  let! ok := sio (control_nonblocking P) in
  if negb ok then gate_fail "control_fd_nonblocking_failed" else
  let! rc := storage_emit_event STORAGE_WORKER_READY STORAGE_ERR_NONE 0 "ready" in
  if negb (rc =? 0) then gate_fail "ready_event_send_failed" else
  let? _ := gate_read "SRC_REAL_STORAGE_ARM_TIMEOUT_US" "arm" STORAGE_CTRL_ARM in
  let! started := on_sys (on_dma (ccb_dma.dma_start_s2mm_ring hw fuel)) in
  match started with
  | inl ccb_dma.DivideByZero | inl ccb_dma.OutOfFuel => xfail GateStuck
  | inr rc | inl (ccb_dma.Returned rc) =>
  if negb (rc =? 0) then gate_fail "dma_start_failed" else
  let! rc := storage_emit_event STORAGE_WORKER_ARMED STORAGE_ERR_NONE 0 "armed" in
  if negb (rc =? 0) then gate_fail "armed_event_send_failed" else
  let? m := gate_read "SRC_REAL_STORAGE_RUN_TIMEOUT_US" "run" STORAGE_CTRL_RUN in
  let! _ := note_skew (c_timestamp_us m) in xret tt
  end.

Definition storage_wait_start_gate (fuel : nat) : M (gate_end + unit) :=
  let! _ := mod_times (λ x, x <| start_skew_us := 0 |>) in
  if has_control_fd c then gate_control fuel else
  match start_fd_value c with
  | None | Some EmptyString => xret tt
  | Some v =>
    match c_stdlib.strtol_full v 10 with
    | Some fd =>
      if (fd <? 0) || (INT_MAX <? fd) then gate_fail "invalid_start_fd" else
      let! start := sio (read_start_us P fd) in
      match start with
      | None => gate_fail "start_barrier_io_error"
      | Some us => let! _ := note_skew us in xret tt
      end
    | None => gate_fail "invalid_start_fd"
    end
  end.

(** *** Stop requests *)
Definition storage_control_drain_requested : M bool :=
  let! l := get in
  if g_storage_control_drain_latched (globals l) then eret true else
  let! _ :=
    (if negb (has_control_fd c) then eret tt else
     let! o := sio (read_control P) in
     match o with
     | None => eret tt
     | Some m =>
       if (c_type m =? STORAGE_CTRL_AUTO_DRAIN) || (c_type m =? STORAGE_CTRL_STOP) then
         mod_globals (λ g, g <| g_storage_control_drain_latched := true |>
           <| g_storage_control_stop_latched ::= λ b, b || (c_type m =? STORAGE_CTRL_STOP) |>
           <| g_storage_stop_epoch := c_stop_epoch m |>)
       else eret tt
     end) in
  let! l := get in eret (g_storage_control_drain_latched (globals l)).

Definition stop_flag : M bool := let! s := sget in eret (g_storage_stop_requested (sys s)).

(** The epoch of a stop that has none. *)
Definition ensure_epoch : M unit :=
  let! l := get in
  if negb (g_storage_stop_epoch (globals l) =? 0) then eret tt else
  let! t := storage_wall_time_us in
  mod_globals (λ g, g <| g_storage_stop_epoch := if t =? 0 then 1 else t |>).

(** *** Waiting for the writer *)
Definition EBUSY : Z := 16.
Fixpoint storage_join_writer_deadline (fuel : nat) (deadline_us : Z) : M (outcome + Z) :=
  let! rc := on_sys (pthread_tryjoin_np P) in
  if rc =? 0 then xret 0 else if negb (rc =? EBUSY) then xret (-1) else
  let! t := storage_wall_time_us in
  if deadline_us <=? t then xret (-1) else
  match fuel with
  | O => stop_ Stuck
  | S fuel => let! _ := usleep in storage_join_writer_deadline fuel deadline_us
  end.
End Producer.
End ccb_capture.
