(* ===== verification/ProducerBatch.v ===== *)
(** * The producer of a capture: batches of completed descriptors
      ([src/src/ccb_commands.c])

    What the producer does with the descriptors it harvests: the snapshot of
    the ring and its pressure, the slots that become the next part of the file,
    the descriptors that come too late or do not fill whole sectors, and the
    hand-over to the write queue - in the capture loop and, with other error
    paths, while a failed capture is cleaned up. *)
From S2P Require Import Prelude StorageError SlotTable Pipeline Worker Writer Stop CStdlib Bytes Config Ipc Diag DmaRing CrossSlot CcbTypes WriteQueue WriterThread CmdConfig ProducerStats.

Module ccb_capture_batch.
Import storage_queue storage_worker ccb_types storage_stop storage_ipc ccb_storage_pipeline storage_write_queue storage_writer_thread ccb_cmd_config ccb_capture.

Section Producer.
Context {W : Type} (P : Producer W) (c : Settings).
#[local] Abbreviation M := (M (W := W)).
#[local] Abbreviation storage_wall_time_us := (storage_wall_time_us P).
#[local] Abbreviation locked := (locked P).
#[local] Abbreviation locked_ := (locked_ P).
#[local] Abbreviation hw := (hw P).
#[local] Abbreviation producer_ring_event := (producer_ring_event P).

(** ** Looking at the ring *)
Definition note_first_failure (received t : Z) (r : Receive) : Receive :=
  if first_receive_failure_us r =? 0
  then r <| first_receive_failure_us := t |> <| first_receive_failure_bytes := received |> else r.

(** The engine reports an error, or has halted. *)
Definition check_engine (out : ccb_dma.DmaBdSnapshot) : M unit :=
  let! d := channel_dma in
  if ccb_dma.any (ccb_dma.s2mm_dmasr out) ccb_dma.DMA_ERROR_MASK_S2MM ||
     (negb (ccb_dma.dry_run d) && ccb_dma.any (ccb_dma.s2mm_dmasr out) 1) then
    let! _ := mod_stats (λ s, s <| dma_error_count ::= λ n, u64 (n + 1) |>) in
    let! _ := record_failure "dma_error_or_halted" in
    producer_ring_event STORAGE_EVENT_DMA_ERROR (ccb_dma.s2mm_dmasr out) 0 true
  else eret tt.

(** No descriptor is left for the engine. *)
Definition ring_exhausted (received : Z) (out : ccb_dma.DmaBdSnapshot) : M unit :=
  let! t := storage_wall_time_us in
  let! _ := mod_stats (λ s,
    if ring_full_active (full s) then s else
    s <| full ::= λ f, f <| ring_full_count ::= λ n, u64 (n + 1) |> <| ring_full_active := true |>
                         <| ring_full_start_us := t |> |>
      <| receive ::= note_first_failure received t |>) in
  let! _ := mod_stats (λ s, s <| full ::= λ f, f <| integrity_risk_ring_full := true |> |>) in
  let! _ := producer_ring_event STORAGE_EVENT_DMA_BD_EXHAUSTED
    (ccb_dma.sn_completed_unharvested out) (ccb_dma.ready_slots out) true in
  record_failure "dma_bd_exhausted_no_upstream_backpressure".

(** The verdict on a fresh snapshot. *)
Definition judge_snapshot (received : Z) (out : ccb_dma.DmaBdSnapshot) : M Z :=
  if ccb_dma.sn_dma_writable out =? 0 then let! _ := ring_exhausted received out in eret (-1) else
  let! l := get in
  if negb (receive_integrity_ok (receive (stats l))) then
    let! _ := (if first_receive_failure_us (receive (stats l)) =? 0 then
                 let! t := storage_wall_time_us in
                 mod_stats (λ s, s <| receive ::= note_first_failure received t |>)
               else eret tt) in eret (-1)
  else
    let! _ := (if ring_full_active (full (stats l)) then
                 let! t := storage_wall_time_us in
                 mod_stats (λ s, s <| full ::= λ f,
                   f <| ring_full_total_us ::= λ n, u64 (n + u64 (t - ring_full_start_us f)) |>
                     <| ring_full_active := false |> |>)
               else eret tt) in
    eret 0.

Definition low_watermark (out : ccb_dma.DmaBdSnapshot) : M unit :=
  let! l := get in
  let threshold := setting c "SRC_REAL_DMA_BD_LOW_WATERMARK" 4 (ccb_dma.total_slots out) in
  let w := ccb_dma.sn_dma_writable out in
  if (w <=? threshold) && (0 <? w) && negb (dma_bd_low_active (stats l)) then
    let! _ := mod_stats (λ s, s <| dma_bd_low_active := true |>) in
    producer_ring_event STORAGE_EVENT_DMA_BD_LOW w (ccb_dma.sn_completed_unharvested out) false
  else if threshold <? w then mod_stats (λ s, s <| dma_bd_low_active := false |>)
  else eret tt.

(** The counters of the states add up to the slots of the ring. *)
Definition snapshot_consistent (out : ccb_dma.DmaBdSnapshot) : bool :=
  u32 (ccb_dma.sn_dma_writable out + ccb_dma.sn_completed_unharvested out +
       ccb_dma.ready_slots out + ccb_dma.nvme_busy_slots out + ccb_dma.sn_requeue_pending out +
       ccb_dma.free_slots out) =? ccb_dma.total_slots out.

(** The snapshot the slot counts give, under the lock. *)
Definition snapshot_o1 : M (option ccb_dma.DmaBdSnapshot) :=
  on_sys (let! _ := lock (others P) in let! q := get_q in
          on_dma (ccb_dma.dma_get_bd_snapshot_o1 hw (counts (slots q)))).

Definition storage_capture_bd_snapshot (received : Z) : M (Z * option ccb_dma.DmaBdSnapshot) :=
  let! now_us := storage_wall_time_us in
  let! d := channel_dma in
  let! l := get in
  let interval_ms := setting c "SRC_REAL_BD_SNAPSHOT_INTERVAL_MS" 100 60000 in
  let low_scan := setting c "SRC_REAL_BD_LOW_SCAN_THRESHOLD" 16 (ccb_dma.dma_desc_count d) in
  let last_us := last_bd_snapshot_us (stats l) in
  if negb (last_us =? 0) && (u64 (now_us - last_us) <? interval_ms * 1000) &&
     (low_scan <? ccb_dma.dma_hw_desc_count d)
  then eret (0, last_bd_snapshot (stats l)) else
  let! o := snapshot_o1 in
  match o with
  | None =>
    let! _ := record_failure "slot_ownership_invariant_failed" in
    let! _ := producer_ring_event STORAGE_EVENT_SLOT_STATE_ERROR 0 0 true in eret (-1, None)
  | Some out =>
    let! _ := mod_stats (λ s, s <| last_bd_snapshot := Some out |> <| last_bd_snapshot_us := now_us |>) in
    if negb (snapshot_consistent out) then
      let! _ := record_failure "slot_ownership_invariant_failed" in eret (-1, Some out) else
    let! _ := mod_stats (storage_stats_observe_bd_snapshot out) in
    let! _ := low_watermark out in
    let! _ := check_engine out in
    let! rc := judge_snapshot received out in eret (rc, Some out)
  end.

(** The report of the performance, when one is due: it looks at the queue and
    at the ring, the rest is printed or sent as a sample. *)
Definition observe_ring : M unit :=
  let! o := snapshot_o1 in
  mod_stats (storage_stats_observe_bd_snapshot (default zero_snapshot o)).
Definition storage_stats_print_periodic : M unit :=
  let! due := sio (perf_due P) in
  if negb due then eret tt else
  let! _ := mod_stats storage_stats_finish_harvest_batch in
  let! _ := locked storage_queue_snapshot in observe_ring.
Definition storage_emit_final_perf_window : M unit :=
  let! l := get in
  if capture_start_us (times l) =? 0 then eret tt else observe_ring.

(** The pressure level of the ring sets the writer's budget; [true] asks for a stop. *)
Definition note_pressure (level now_us : Z) (p : Pressure) : Pressure :=
  p <| watermark_level := level |>
    <| ring_critical_since_us ::= λ t,
         if 2 <=? level then (if t =? 0 then now_us else t) else 0 |>.
Definition storage_update_ring_pressure : M bool :=
  let! busy := locked (λ q, ((storage_queue_busy_count q).1, q)) in
  let! _ := locked (λ q, ((storage_queue_buffered_bytes q).1, q)) in
  let! d := channel_dma in
  let! l := get in
  let level := storage_ring_pressure_level busy (ccb_dma.dma_desc_count d)
    (ring_warning_percent (pressure (stats l))) (ring_critical_percent (pressure (stats l))) in
  let! now_us := storage_wall_time_us in
  let! _ := on_sys (mod_q (λ q, q <| writer_budget_override_us :=
    if level =? 0 then 0
    else storage_writer_budget_for_pressure (ccb_hw.writer_budget_us (cross_slot_config q)) level |>)) in
  let! _ := mod_stats (λ s, s <| pressure ::= note_pressure level now_us |>) in
  let! l := get in
  let p := pressure (stats l) in
  let should_stop := negb (ring_critical_stop_triggered p) &&
    storage_ring_pressure_should_stop level (ring_critical_since_us p) now_us
      (ring_critical_duration_us p) (ring_critical_stop_enabled p) in
  let! _ := (if should_stop
             then mod_stats (λ s, s <| pressure ::= λ p, p <| ring_critical_stop_triggered := true |> |>)
             else eret tt) in
  eret should_stop.

(** ** A batch *)
(** [pending], [batch_bytes] and [batch_sectors]. *)
Record Batch : Type := mkBatch { b_pending : list PendingDdrSlot; b_bytes : Z; b_sectors : Z }.
#[export] Instance eta_Batch : EtaOf Batch := λ b, mkBatch (b_pending b) (b_bytes b) (b_sectors b).
Definition empty_batch : Batch := mkBatch [] 0 0.

(** The field is 32 bits wide. *)
Definition observed_bytes (it : ccb_dma.DmaHarvestItem) : Z := u32 (ccb_dma.actual_bytes it).

(** The counters can take the bytes of one more descriptor. *)
Definition bytes_fit (observed taken : Z) (k : Counters) : bool :=
  negb (UINT64_MAX - observed <? dma_observed_bytes k) &&
  negb (UINT64_MAX - taken <? dma_harvested_payload_bytes k) &&
  negb (UINT64_MAX - taken <? dma_received_bytes k).
Definition count_bytes (observed taken : Z) (k : Counters) : Counters :=
  k <| dma_observed_bytes ::= λ n, u64 (n + observed) |>
    <| dma_harvested_payload_bytes ::= λ n, u64 (n + taken) |>
    <| dma_received_bytes ::= λ n, u64 (n + taken) |>.
Definition count_tail (n : Z) (k : Counters) : Counters :=
  k <| tail_unqueued_bytes ::= λ t, u64 (t + n) |>.
Definition note_desc : M unit :=
  let! t := storage_wall_time_us in mod_stats (storage_stats_record_dma_desc t).

(** The next slot of the file; [None] when an address would overflow, with the reason. *)
Definition next_slot (d : ccb_dma.Rt) (base_offset base_lba : Z) (b : Batch)
    (it : ccb_dma.DmaHarvestItem) (queued sectors media : Z) : string + Batch :=
  if UINT64_MAX - base_lba <? b_sectors b then inl "lba_range_overflow"%string else
  if (UINT64_MAX - ccb_dma.ddr_hw_base d) / ccb_dma.dma_desc_bytes d <? ccb_dma.slot it
  then inl "ddr_address_overflow"%string else
  let p := mkPending (ccb_dma.slot it) queued media (ccb_dma.submission_sequence it)
    (u64 (base_offset + b_bytes b)) (u64 (base_lba + b_sectors b)) sectors
    (u64 (ccb_dma.ddr_hw_base d + ccb_dma.slot it * ccb_dma.dma_desc_bytes d)) in
  inr (mkBatch (b_pending b ++ [p]) (u64 (b_bytes b + queued)) (u64 (b_sectors b + sectors))).

(** The slot is marked and the batch ends ([true]). *)
Definition bad_item (reason : string) (it : ccb_dma.DmaHarvestItem) (b : Batch) : M (bool * Batch) :=
  let! _ := record_failure reason in
  let! _ := locked_ (storage_mark_harvest_slot_failed (ccb_dma.slot it)) in eret (true, b).

(** A descriptor completed after a bounded capture had all its bytes. *)
Definition late_item (it : ccb_dma.DmaHarvestItem) (b : Batch) : M (bool * Batch) :=
  let observed := observed_bytes it in
  let! l := get in
  if negb (bytes_fit observed observed (counters l)) ||
     (UINT64_MAX - observed <? tail_unqueued_bytes (counters l))
  then bad_item "dma_byte_counter_overflow" it b else
  let! _ := record_error STORAGE_ERR_LATE_COMPLETION "late_completed_descriptor" in
  let! _ := locked_ (storage_record_deferred_stop_error STORAGE_ERR_LATE_COMPLETION
                       "late_completed_descriptor") in
  let! rc := locked (storage_release_harvested_slot (ccb_dma.slot it)) in
  if negb (rc =? 0) then eret (true, b) else
  let! _ := mod_counters (λ k, count_tail observed (count_bytes observed observed k)) in
  let! _ := note_desc in
  let! _ := mod_flags (λ f, f <| stop_tail_seen := true |>) in eret (false, b).

(** The error a tail is recorded with. *)
Definition tail_error (d : StorageStopTailDisposition) : StorageErrorCode * string :=
  match d with
  | STORAGE_STOP_TAIL_DEFER_LATE => (STORAGE_ERR_LATE_COMPLETION, "late_completed_descriptor"%string)
  | _ => (STORAGE_ERR_TAIL_UNALIGNED, "unaligned_payload_not_safely_paddable"%string)
  end.

(** A tail that is not written: the slot is given up, the bytes are counted.
    [false]: the slot could not be released. *)
Definition defer_tail (d : StorageStopTailDisposition) (it : ccb_dma.DmaHarvestItem) (taken : Z) : M bool :=
  let! l := get in
  let! rc := (if UINT64_MAX - taken <? tail_unqueued_bytes (counters l) then eret (-1)
              else locked (storage_release_harvested_slot (ccb_dma.slot it))) in
  if negb (rc =? 0) then
    let! _ := record_failure "slot_ownership_invariant_failed" in eret false
  else
    let! _ := mod_counters (count_tail taken) in
    let! _ := mod_flags (λ f, f <| stop_tail_seen := true |>) in
    let '(code, reason) := tail_error d in
    let! _ := record_error code reason in
    let! _ := locked_ (storage_record_deferred_stop_error code reason) in eret true.

(** *** In the loop *)
(** The bytes a bounded capture still takes; [None]: it already has too many. *)
Definition remaining_bytes (base_offset : Z) (b : Batch) (observed : Z) : option Z :=
  if bounded c then
    if (requested_size c <? base_offset) || (requested_size c - base_offset <? b_bytes b) then None
    else Some (requested_size c - base_offset - b_bytes b)
  else Some observed.

(** A descriptor whose bytes are taken, at least in part. *)
Definition take_item (d : ccb_dma.Rt) (base_offset base_lba queued : Z)
    (it : ccb_dma.DmaHarvestItem) (b : Batch) : M (bool * Batch) :=
  let observed := observed_bytes it in
  let sectors := bytes_to_sectors queued in
  if (sectors =? 0) || (UINT64_MAX / SECTOR_SIZE <? sectors)
  then bad_item "media_byte_overflow" it b else
  let media := sectors * SECTOR_SIZE in
  let! l := get in
  if negb (bytes_fit observed queued (counters l)) then bad_item "dma_byte_counter_overflow" it b else
  let! _ := mod_counters (count_bytes observed queued) in
  let! _ := note_desc in
  let! l := get in
  match storage_stop_tail_disposition (negb (bool_decide (state (stop_state l) = STORAGE_STOP_NONE)))
          (stop_tail_seen (flags l)) queued media false with
  | STORAGE_STOP_TAIL_QUEUE =>
    match next_slot d base_offset base_lba b it queued sectors media with
    | inl reason => bad_item reason it b
    | inr b => eret (false, b)
    end
  | disposition =>
    let! ok := defer_tail disposition it queued in eret (negb ok, b)
  end.

Definition harvest_item (base_offset base_lba : Z) (it : ccb_dma.DmaHarvestItem) (b : Batch) :
    M (bool * Batch) :=
  let observed := observed_bytes it in
  let! d := channel_dma in
  if (observed =? 0) || (ccb_dma.dma_desc_bytes d <? observed) then
    let! r := bad_item "invalid_dma_harvest_bytes" it b in
    let! _ := producer_ring_event STORAGE_EVENT_DESCRIPTOR_ERROR observed (ccb_dma.dma_desc_bytes d) true in
    eret r
  else
  match remaining_bytes base_offset b observed with
  | None => bad_item "bounded_harvest_overflow" it b
  | Some remaining =>
    if bounded c && (remaining =? 0) then late_item it b
    else take_item d base_offset base_lba (if remaining <? observed then remaining else observed) it b
  end.

Fixpoint harvest_items (base_offset base_lba : Z) (its : list ccb_dma.DmaHarvestItem) (b : Batch) :
    M (bool * Batch) :=
  match its with
  | [] => eret (false, b)
  | it :: its =>
    let! r := harvest_item base_offset base_lba it b in
    let '(invalid, b) := r in
    if invalid : bool then eret (true, b) else harvest_items base_offset base_lba its b
  end.

(** *** While cleaning up *)
(** The code differs: a descriptor that cannot be taken does not end the batch. *)
Definition skip_item (reason : string) (it : ccb_dma.DmaHarvestItem) (b : Batch) : M Batch :=
  let! r := bad_item reason it b in eret r.2.

Definition stopped_remaining (base_offset : Z) (b : Batch) (observed : Z) : Z :=
  if bounded c && (u64 (base_offset + b_bytes b) <? requested_size c)
  then requested_size c - u64 (base_offset + b_bytes b)
  else if bounded c then 0 else observed.

Definition stopped_item (base_offset base_lba : Z) (it : ccb_dma.DmaHarvestItem) (b : Batch) : M Batch :=
  let observed := observed_bytes it in
  let! d := channel_dma in
  let remaining := stopped_remaining base_offset b observed in
  if (observed =? 0) || (ccb_dma.dma_desc_bytes d <? observed) || (bounded c && (remaining =? 0))
  then skip_item "fatal_stop_unqueued_dma_data" it b else
  let taken := if bounded c && (remaining <? observed) then remaining else observed in
  let sectors := bytes_to_sectors taken in
  let media := if sectors <=? UINT64_MAX / SECTOR_SIZE then sectors * SECTOR_SIZE else 0 in
  if (sectors =? 0) || (media =? 0) then skip_item "media_byte_overflow" it b else
  let! l := get in
  let disposition := storage_stop_tail_disposition true (stop_tail_seen (flags l)) taken media false in
  if negb (bytes_fit observed taken (counters l)) then skip_item "dma_byte_counter_overflow" it b else
  let! _ := mod_counters (count_bytes observed taken) in
  let! _ := note_desc in
  match disposition with
  | STORAGE_STOP_TAIL_QUEUE =>
    match next_slot d base_offset base_lba b it taken sectors media with
    | inl reason => skip_item reason it b
    | inr b => eret b
    end
  | _ => let! _ := defer_tail disposition it taken in eret b
  end.

Fixpoint stopped_items (base_offset base_lba : Z) (its : list ccb_dma.DmaHarvestItem) (b : Batch) : M Batch :=
  match its with
  | [] => eret b
  | it :: its => let! b := stopped_item base_offset base_lba it b in stopped_items base_offset base_lba its b
  end.
End Producer.
End ccb_capture_batch.
