(* ===== verification/ProducerRun.v ===== *)
(** * The producer of a capture: the run ([src/src/ccb_commands.c])

    [execute_write_with_result_mode] from the start of the writer thread on:
    the start sequence, the capture loop with its stop sequence, the drain and
    the verdict of a capture that ended well, the clean-up of every capture.
    A statement of the code that leaves the loop, goes on with it or jumps to
    [out] is an [outcome]. *)
From S2P Require Import Prelude StorageError SlotTable Pipeline Worker Writer Stop CStdlib Bytes Config Ipc Diag DmaRing CrossSlot CcbTypes WriteQueue WriterThread CmdConfig ProducerStats ProducerBatch.

Module ccb_capture_run.
Import storage_queue storage_worker ccb_types storage_stop storage_ipc ccb_storage_pipeline storage_write_queue storage_writer_thread ccb_cmd_config ccb_capture ccb_capture_batch.

(** What the set-up has chosen. *)
Record Plan : Type := mkPlan {
  start_lba : Z; effective_file_index : Z; metadata_slot : Z; table : list FileEntry;
  task_no : list Z; file_type : Z }.

(** What the engine answers to a stop that cannot end (see [storage_dma_quiesce_epoch]). *)
Definition STUCK_RESULT : Z := -2.

Section Producer.
Context {W : Type} (P : Producer W) (c : Settings) (plan : Plan).
#[local] Abbreviation M := (M (W := W)).
#[local] Abbreviation storage_wall_time_us := (storage_wall_time_us P).
#[local] Abbreviation locked := (locked P).
#[local] Abbreviation locked_ := (locked_ P).
#[local] Abbreviation hw := (hw P).
#[local] Abbreviation usleep := (usleep P).
#[local] Abbreviation producer_ring_event := (producer_ring_event P).
#[local] Abbreviation storage_emit_event := (storage_emit_event P c).
#[local] Abbreviation storage_emit_stop_phase := (storage_emit_stop_phase P c).
#[local] Abbreviation emit_fatal := (emit_fatal P c).

Definition received : M Z := let! l := get in eret (dma_received_bytes (counters l)).
Definition go_out {A} : M (outcome + A) := stop_ GoOut.
(** An error is recorded and the capture is cleaned up. *)
Definition out_with {A} (code : StorageErrorCode) (reason : string) : M (outcome + A) :=
  let! _ := record_error code reason in go_out.
Definition advance (next : StorageStopPhase) : M unit :=
  mod_stop (λ s, (storage_stop_state_advance s next).2).
Definition set_deadline (timeout : StorageStopTimeouts → Z) : M unit :=
  let! t := storage_wall_time_us in
  mod_stop (λ s, s <| deadline_us := u64 (t + timeout (timeouts c)) |>).
(** Tell the parent; [bad] is recorded when that fails. *)
Definition must_emit_phase (phase : Z) (code : StorageErrorCode) (reason bad : string) :
    M (outcome + unit) :=
  let! n := received in
  let! rc := storage_emit_stop_phase phase code n reason in
  if negb (rc =? 0) then out_with STORAGE_ERR_INTERNAL bad else xret tt.

(** *** DMA operations of the stop, with the capture's report *)
Definition on_dma_report {A} (m : Eff (ccb_dma.State * W) A) : M A := λ '(s, w),
  let q := queue (sys s) in
  let '(a, (d, w)) := m (ccb_dma.mkState (dma (rt q)) (Some (dma_stop_report (vars s))), w) in
  (a, (s <| sys ::= λ y, y <| queue ::= λ q, q <| rt ::= λ r, r <| dma := ccb_dma.rt d |> |> |> |>
         <| vars ::= λ l, l <| dma_stop_report := default ccb_dma.zero_report (ccb_dma.report d) |> |>, w)).

Definition result_of (r : ccb_dma.exit + Z) : Z :=
  match r with
  | inr rc | inl (ccb_dma.Returned rc) => rc
  | inl ccb_dma.DivideByZero | inl ccb_dma.OutOfFuel => STUCK_RESULT
  end.

Definition storage_dma_quiesce_invoke (fuel : nat) (deadline : Z) : M Z :=
  let! q := queue_of in
  let! r := on_dma_report (ccb_dma.dma_quiesce_s2mm_with_state hw fuel deadline (states (slots q))) in
  eret (result_of r).
(** At most one quiesce for an epoch. *)
Definition storage_dma_quiesce_epoch (fuel : nat) : M (outcome + Z) :=
  let! l := get in
  let! r := storage_dma_quiesce_once (quiesce (stop_state l)) (g_storage_stop_epoch (globals l))
              (Some (storage_dma_quiesce_invoke fuel (deadline_us (stop_state l)))) in
  let! _ := mod_stop (λ s, s <| quiesce := r.2 |>) in
  if r.1 =? STUCK_RESULT then stop_ Stuck else xret r.1.
Definition dma_finalize (fuel : nat) : M (outcome + Z) :=
  let! q := queue_of in
  let! r := on_dma_report (ccb_dma.dma_finalize_stop_s2mm_with_state hw fuel (states (slots q))) in
  if result_of r =? STUCK_RESULT then stop_ Stuck else xret (result_of r).
(** The engine has stopped. *)
Definition note_quiesced (r : Z) : M unit :=
  let! _ := mod_vars (λ l, l <| dma_stop_result := r |>) in
  mod_flags (λ f, f <| dma_quiesced := true |>).
(** The reason the engine gave, or a general one. *)
Definition quiesce_reason (l : Locals) : string :=
  if String.eqb (ccb_dma.reason (dma_stop_report l)) "" then "dma_quiesce_failed"
  else ccb_dma.reason (dma_stop_report l).

(** ** The start, after [pthread_create] *)
Definition wait_writer_ready (fuel : nat) : M (outcome + (Z * bool)) :=
  let dflt := if negb (gopt_timeout_us c =? 0) then gopt_timeout_us c else DEFAULT_TIMEOUT_US in
  let! t := storage_wall_time_us in
  let deadline := u64 (t + setting c "SRC_REAL_STORAGE_RUN_READY_TIMEOUT_US" dflt UINT32_MAX) in
  let! r := on_sys (storage_queue_wait_writer_ready (outside P) (others P) fuel deadline) in
  match r with Some a => xret a | None => stop_ Stuck end.
Definition fail_fatal : M unit := on_sys (storage_fail_fatal (outside P) (others P)).

Definition pass_gate (fuel : nat) : M (outcome + unit) :=
  let! g := storage_wait_start_gate P c fuel in
  match g with
  | inr _ => xret tt
  | inl GateStuck => stop_ Stuck
  | inl (GateFailed reason) =>
    let! _ := record_error STORAGE_ERR_IPC_SEQUENCE reason in
    let! _ := storage_emit_event STORAGE_WORKER_FATAL STORAGE_ERR_IPC_SEQUENCE 0 reason in go_out
  end.
(** An error of the queue: recorded and sent. *)
Definition queue_error {A} (reason : string) : M (outcome + A) :=
  let! _ := record_error STORAGE_ERR_QUEUE reason in
  let! l := get in
  let! _ := storage_emit_event STORAGE_WORKER_FATAL STORAGE_ERR_QUEUE 0
              (receive_integrity_risk (receive (stats l))) in go_out.

Definition arm_producer : M (outcome + unit) :=
  let! rc := sio (apply_producer_rt P) in
  let! rc := (if rc =? 0 then locked (storage_queue_set_producer_ready true) else eret rc) in
  if rc =? 0 then xret tt else
  let! _ := record_error STORAGE_ERR_QUEUE "producer_schedule_failed" in
  let! _ := locked (storage_queue_set_producer_ready false) in
  let! _ := fail_fatal in
  let! l := get in
  let! _ := storage_emit_event STORAGE_WORKER_FATAL STORAGE_ERR_QUEUE 0
              (receive_integrity_risk (receive (stats l))) in go_out.

Definition announce_running : M (outcome + unit) :=
  let! rc := locked storage_queue_mark_running in
  if negb (rc =? 0) then
    let! _ := record_error STORAGE_ERR_IPC_SEQUENCE "invalid_running_sequence" in
    let! _ := storage_emit_event STORAGE_WORKER_FATAL STORAGE_ERR_IPC_SEQUENCE 0
                "invalid_running_sequence" in
    let! _ := fail_fatal in go_out
  else
  let! rc := storage_emit_event STORAGE_WORKER_RUNNING STORAGE_ERR_NONE 0 "running" in
  if negb (rc =? 0) then
    let! _ := record_error STORAGE_ERR_IPC "running_event_send_failed" in
    let! _ := fail_fatal in go_out
  else xret tt.

Definition start_capture (fuel : nat) : M (outcome + unit) :=
  let! _ := mod_flags (λ f, f <| writer_started := true |>) in
  let! rc := locked storage_queue_mark_ready in
  if negb (rc =? 0) then out_with STORAGE_ERR_QUEUE "worker_ready_transition_failed" else
  let! _ := mod_flags (λ f, f <| dma_started := true |>) in
  let? _ := pass_gate fuel in
  let! rc := locked storage_queue_enable_run in
  if negb (rc =? 0) then out_with STORAGE_ERR_QUEUE "writer_enable_failed" else
  let? r := wait_writer_ready fuel in
  if negb (r.1 =? 0)
  then queue_error (if r.2 : bool then "writer_run_ready_timeout" else "writer_schedule_failed") else
  let? _ := arm_producer in
  let! t := storage_wall_time_us in
  let! _ := mod_times (λ x, x <| capture_start_us := t |>) in
  let! _ := mod_loop (λ x, x <| next_input_idle_scan_us := u64 (t + idle_scan_interval_ms c * 1000) |>) in
  let? _ := announce_running in
  let! t := storage_wall_time_us in
  let! _ := mod_loop (λ x, x <| last_dma_us := t |>
    <| first_dma_deadline_us := if first_dma_timeout_us c =? 0 then 0 else u64 (t + first_dma_timeout_us c) |>) in
  xret tt.

(** ** One turn of the loop *)
Record Turn : Type := mkTurn {
  t_external : bool; t_stop : bool; t_deadline_due : bool; t_limit : Z }.

Definition deadline_due (stop_requested : bool) : M bool :=
  let! l := get in
  if negb (first_dma_deadline_us (loop l) =? 0) && negb (saw_dma_data (loop l)) && negb stop_requested
  then let! t := storage_wall_time_us in eret (first_dma_deadline_us (loop l) <=? t) else eret false.

(** The limit of the harvest: at most 16, at least that much under pressure. *)
Definition harvest_limit (l : Locals) : Z :=
  let n := harvest_batch_max_cfg c in
  let n := if n =? 0 then 1 else if 16 <? n then 16 else n in
  if (1 <=? watermark_level (pressure (stats l))) && (n <? 16) then 16 else n.

(** The stop requests and the limit; a bounded capture that has all its bytes
    leaves the loop here. *)
Definition begin_turn : M (outcome + Turn) :=
  let! drain := storage_control_drain_requested P c in
  let! flag := stop_flag in
  let! l := get in
  let control_stop := g_storage_control_stop_latched (globals l) in
  let external := flag || control_stop in
  let stop := external || drain || auto_idle_done (flags l) ||
              (bounded c && (requested_size c <=? bytes_captured (counters l))) in
  let! _ := (if drain && negb control_stop
             then mod_flags (λ f, f <| auto_idle_done := true |>) else eret tt) in
  let! due := deadline_due stop in
  let! l := get in
  let! d := channel_dma in
  if bounded c && bool_decide (state (stop_state l) = STORAGE_STOP_NONE) then
    let limit := storage_harvest_limit_for_remaining
      (u64 (requested_size c - bytes_captured (counters l))) (ccb_dma.dma_desc_bytes d) (harvest_limit l) in
    if limit =? 0 then stop_ Leave else xret (mkTurn external stop due limit)
  else xret (mkTurn external stop due (harvest_limit l)).

Definition check_queue : M (outcome + unit) :=
  let! bad := locked (λ q, (storage_queue_has_error q, q)) in
  if negb bad then xret tt else
  let! reason := locked (λ q, (storage_copy_writer_error_reason 64 q, q)) in
  let reason := if String.eqb reason "" then "storage_queue_error"%string else reason in
  let! _ := record_error STORAGE_ERR_QUEUE reason in
  let! n := received in
  let! _ := storage_emit_event STORAGE_WORKER_FATAL STORAGE_ERR_QUEUE n reason in go_out.

(** *** The stop sequence *)
Definition log_stop (t : Turn) : M unit :=
  let! l := get in
  if t_stop t && negb (stop_logged (loop l)) then
    let! _ := mod_loop (λ x, x <| stop_logged := true |>) in
    producer_ring_event STORAGE_EVENT_STOP_LATCHED (dma_received_bytes (counters l)) 0 false
  else eret tt.

Definition latch_stop (t : Turn) : M (outcome + unit) :=
  let! l := get in
  if negb (t_stop t && bool_decide (state (stop_state l) = STORAGE_STOP_NONE)) then xret tt else
  let! _ := mod_flags (λ f, f <| manual_stop_seen := t_external t |>) in
  let! _ := ensure_epoch P in
  let! now := storage_wall_time_us in
  let! _ := mod_stop (λ s, (storage_stop_state_latch s (u64 (now + stop_harvest_us (timeouts c)))).2) in
  let! now := storage_wall_time_us in
  let! _ := mod_times (λ x, x <| stop_request_us := now |>) in
  let! _ := advance STORAGE_STOP_WAIT_BOUNDARY in
  let! rc := locked storage_queue_request_stop_state in
  if negb (rc =? 0) then out_with STORAGE_ERR_QUEUE "worker_stop_transition_failed" else
  let! l := get in
  must_emit_phase STORAGE_WORKER_STOP_REQUESTED STORAGE_ERR_NONE
    (if auto_idle_done (flags l) then "auto_idle" else "stop_requested")
    "stop_requested_event_send_failed".

(** Stopping the engine; a failure is fatal. *)
Definition quiesce_engine (fuel : nat) (on_failure : M unit) : M (outcome + unit) :=
  let! _ := locked storage_queue_latch_stop in
  let! _ := advance STORAGE_STOP_DMA_QUIESCING in
  let! _ := set_deadline dma_quiesce_us in
  let? r := storage_dma_quiesce_epoch fuel in
  if r =? ccb_dma.DMA_STOP_FAILED then
    let! l := get in
    let! _ := record_failure (quiesce_reason l) in
    let! _ := emit_fatal STORAGE_ERR_DMA_STOP in
    let! _ := on_failure in go_out
  else lift (note_quiesced r).
Definition mark_harvesting : M (outcome + unit) :=
  let! rc := locked storage_queue_mark_harvesting in
  if negb (rc =? 0) then out_with STORAGE_ERR_QUEUE "worker_harvest_transition_failed" else xret tt.

(** At the end of a packet, or when waiting for it takes too long. *)
Definition reach_boundary (fuel : nat) (boundary_us : Z) : M (outcome + unit) :=
  let! l := get in
  let! d := channel_dma in
  let timed_out := storage_stop_state_expired (stop_state l) boundary_us in
  let! _ := (if timed_out && ccb_dma.dma_rx_packet_open d
             then record_error STORAGE_ERR_STOP_BOUNDARY_TIMEOUT "stop_packet_boundary_timeout"
             else eret tt) in
  let? _ := (if timed_out then xret tt else
             must_emit_phase STORAGE_WORKER_PACKET_BOUNDARY_REACHED STORAGE_ERR_NONE
               "packet_boundary_reached" "packet_boundary_event_send_failed") in
  let! _ := (if timed_out then eret tt
             else mod_times (λ x, x <| packet_boundary_us := boundary_us |>)) in
  let? _ := quiesce_engine fuel (mod_stop storage_stop_state_fail) in
  let! now := storage_wall_time_us in
  let! _ := mod_times (λ x, x <| dma_quiesced_us := now |>) in
  let? _ := mark_harvesting in
  let? _ := must_emit_phase STORAGE_WORKER_DMA_QUIESCED
    (if timed_out then STORAGE_ERR_STOP_BOUNDARY_TIMEOUT else STORAGE_ERR_NONE)
    (if timed_out then "boundary_timeout_quiesced" else "dma_quiesced")
    "dma_quiesced_event_send_failed" in
  let! _ := set_deadline stop_harvest_us in
  let! _ := advance STORAGE_STOP_HARVESTING in
  let! _ := mod_loop (λ x, x <| stop_harvest_state := storage_stop_harvest_state_init |>) in
  stop_ Again.

Definition stop_dry (fuel : nat) : M (outcome + unit) :=
  let? _ := quiesce_engine fuel (eret tt) in
  let? _ := mark_harvesting in
  let! _ := set_deadline stop_harvest_us in
  lift (advance STORAGE_STOP_HARVESTING).

Definition stop_sequence (fuel : nat) : M (outcome + unit) :=
  let! l := get in
  let! d := channel_dma in
  let waiting := bool_decide (state (stop_state l) = STORAGE_STOP_WAIT_BOUNDARY) in
  let? _ :=
    (if waiting && negb (ccb_dma.dry_run d) then
       let! now := storage_wall_time_us in
       if storage_stop_boundary_should_quiesce (stop_state l) (ccb_dma.dma_rx_packet_open d) now
       then reach_boundary fuel now else xret tt
     else if waiting then stop_dry fuel else xret tt) in
  let! l := get in
  if bool_decide (state (stop_state l) = STORAGE_STOP_HARVESTING) && ccb_dma.dry_run d then
    let! _ := mod_flags (λ f, f <| stop_harvest_stable := true |>) in stop_ Leave
  else xret tt.

(** *** Nothing was harvested *)
Definition harvest_error : M (outcome + unit) :=
  let! d := channel_dma in
  let st := ccb_dma.dma_last_completed_status d in
  let! _ := (if ccb_dma.any st ccb_dma.DESC_STS_ERROR_MASK then
      let! _ := mod_stats (λ s, s <| descriptor_error_count ::= λ n, u64 (n + 1) |>) in
      producer_ring_event STORAGE_EVENT_DESCRIPTOR_ERROR st 0 true
    else
      let! _ := mod_stats (λ s, s <| dma_error_count ::= λ n, u64 (n + 1) |>) in
      producer_ring_event STORAGE_EVENT_DMA_ERROR st 0 true) in
  let! _ := record_error STORAGE_ERR_DMA_DESCRIPTOR "dma_harvest_failed" in
  let! _ := emit_fatal STORAGE_ERR_DMA_DESCRIPTOR in go_out.

Definition first_dma_expired : M (outcome + unit) :=
  let! o := snapshot_o1 P in
  let! _ := mod_stats (storage_stats_observe_bd_snapshot
              (default zero_snapshot o)) in
  let! _ := record_error STORAGE_ERR_DMA_DESCRIPTOR "first_dma_timeout" in
  let! n := received in
  let! _ := storage_emit_event STORAGE_WORKER_FATAL STORAGE_ERR_DMA_DESCRIPTOR n "first_dma_timeout" in
  go_out.

(** The snapshot of every descriptor, without the lock. *)
Definition snapshot_all : M (option ccb_dma.DmaBdSnapshot) :=
  let! q := queue_of in on_sys (on_dma (ccb_dma.dma_get_bd_snapshot hw (states (slots q)))).

(** The stopped engine has nothing more: stable for long enough, or too late. *)
Definition await_stable : M (outcome + unit) :=
  let! now := storage_wall_time_us in
  let! o := snapshot_all in
  match o with
  | None =>
    let! _ := record_error STORAGE_ERR_OWNERSHIP "slot_ownership_invariant_failed" in
    let! _ := emit_fatal STORAGE_ERR_OWNERSHIP in
    let! _ := mod_stop storage_stop_state_fail in go_out
  | Some sn =>
    let! _ := mod_stats (storage_stats_observe_bd_snapshot sn) in
    let! l := get in
    let! d := channel_dma in
    let '(stable, h) := storage_stop_harvest_observe (stop_harvest_state (loop l))
      (dma_quiesced (flags l)) 0 (ccb_dma.sn_completed_unharvested sn) (ccb_dma.dma_rx_packet_open d)
      now STORAGE_STOP_STABLE_EMPTY_SCANS STORAGE_STOP_STABLE_EMPTY_US in
    let! _ := mod_loop (λ x, x <| stop_harvest_state := h |>) in
    if stable : bool then
      let! _ := mod_flags (λ f, f <| stop_harvest_stable := true |>) in
      let? _ := must_emit_phase STORAGE_WORKER_HARVEST_STABLE_EMPTY STORAGE_ERR_NONE
        "harvest_stable_empty" "harvest_stable_event_send_failed" in
      stop_ Leave
    else if storage_stop_state_expired (stop_state l) now then
      let! _ := record_error STORAGE_ERR_STOP_HARVEST_TIMEOUT "stop_harvest_timeout" in
      let! _ := mod_stop storage_stop_state_fail in go_out
    else let! _ := usleep in stop_ Again
  end.

(** The input is idle long enough for a coordinated stop, or active again. *)
Definition observe_idle (t : Turn) (now : Z) : M (outcome + unit) :=
  let! l := get in
  if negb (coordinated_idle_enabled c && negb (t_stop t) && (next_input_idle_scan_us (loop l) <=? now))
  then xret tt else
  let! d := channel_dma in
  let observed := dma_observed_bytes (counters l) in
  let '(event, st) := storage_input_idle_observe (input_idle_state (loop l)) now observed
    (dma_desc_completed_count (harvested (stats l))) (ccb_dma.dma_rx_packet_open d)
    (negb (dma_error_count (stats l) =? 0)) (idle_required_ms c * 1000) (idle_required_scans c) in
  let! _ := mod_loop (λ x, x <| input_idle_state := st |>
    <| next_input_idle_scan_us := u64 (now + idle_scan_interval_ms c * 1000) |>) in
  match event with
  | STORAGE_INPUT_IDLE_CANDIDATE =>
    let! rc := storage_emit_event STORAGE_WORKER_INPUT_IDLE_CANDIDATE STORAGE_ERR_NONE observed
                 "stable_input_idle" in
    if negb (rc =? 0) then out_with STORAGE_ERR_IPC "input_idle_event_send_failed" else xret tt
  | STORAGE_INPUT_ACTIVE =>
    let! rc := storage_emit_event STORAGE_WORKER_INPUT_ACTIVE STORAGE_ERR_NONE observed
                 "new_dma_activity" in
    if negb (rc =? 0) then out_with STORAGE_ERR_IPC "input_active_event_send_failed" else xret tt
  | STORAGE_INPUT_IDLE_NO_CHANGE => xret tt
  end.

(** A capture on its own ends when no data has come for long enough. *)
Definition auto_idle (t : Turn) : M (outcome + unit) :=
  let! l := get in
  let! d := channel_dma in
  if auto_idle_enabled c && negb (t_stop t) && (0 <? dma_idle_done_ms c) && saw_dma_data (loop l) &&
     (0 <? dma_desc_completed_count (harvested (stats l))) && negb (ccb_dma.dma_rx_packet_open d)
  then
    let! now := storage_wall_time_us in
    if dma_idle_done_ms c * 1000 <=? storage_elapsed_us (last_dma_us (loop l)) now then
      let! _ := locked storage_queue_snapshot in
      let! _ := mod_flags (λ f, f <| auto_idle_done := true |>) in stop_ Again
    else xret tt
  else xret tt.

Definition idle_turn (t : Turn) (now : Z) (sn : option ccb_dma.DmaBdSnapshot) : M (outcome + unit) :=
  let! pressure_stop := storage_update_ring_pressure P in
  let sn := default zero_snapshot sn in
  if negb (ccb_dma.sn_dma_writable sn =? 0) && pressure_stop then
    let! _ := on_sys storage_write_request_stop in stop_ Again
  else if ccb_dma.sn_dma_writable sn =? 0 then
    let! _ := mod_stats (λ s, s <| dma_no_free_slot_count ::= λ n, u64 (n + 1) |>) in
    let! _ := producer_ring_event STORAGE_EVENT_DMA_BD_EXHAUSTED
      (ccb_dma.sn_completed_unharvested sn) (ccb_dma.ready_slots sn) true in
    let! _ := record_error STORAGE_ERR_DMA_DESCRIPTOR "dma_bd_exhausted" in
    let! n := received in
    let! _ := storage_emit_event STORAGE_WORKER_FATAL STORAGE_ERR_DMA_DESCRIPTOR n "dma_bd_exhausted" in
    go_out
  else
  let? _ := observe_idle t now in
  let? _ := auto_idle t in
  let! _ := (if t_stop t then eret tt else usleep) in
  let! _ := storage_stats_print_periodic P in
  stop_ Again.

Definition nothing_harvested (t : Turn) (rc count : Z) : M (outcome + unit) :=
  let! l := get in
  match storage_first_dma_deadline_outcome (t_deadline_due t) (saw_dma_data (loop l)) (t_stop t)
          rc count with
  | STORAGE_FIRST_DMA_DEADLINE_EXPIRED => first_dma_expired
  | _ =>
  if bool_decide (state (stop_state l) = STORAGE_STOP_HARVESTING) then await_stable
  else
  let! _ := locked (λ q, (storage_queue_busy_count q, q)) in
  let! now := storage_wall_time_us in
  let! _ := locked (λ q, (storage_queue_buffered_bytes q, q)) in
  let! _ := mod_stats storage_stats_finish_harvest_batch in
  let! n := received in
  let! r := storage_capture_bd_snapshot P c n in
  if negb (r.1 =? 0) then go_out else idle_turn t now r.2
  end.

(** *** Descriptors were harvested *)
Definition push_pending (its : list PendingDdrSlot) : M (outcome + unit) :=
  if Z.of_nat (length its) =? 0 then xret tt else
  let! rc := locked (storage_local_queue_push_batch its) in
  if rc =? 0 then xret tt else
  let! q := queue_of in
  let! _ := producer_ring_event STORAGE_EVENT_QUEUE_FULL (Z.of_nat (length its)) (capacity q) true in
  let! _ := record_error STORAGE_ERR_QUEUE "storage_queue_full_or_state_error" in
  let! n := received in
  let! _ := storage_emit_event STORAGE_WORKER_FATAL STORAGE_ERR_QUEUE n
              "storage_queue_full_or_state_error" in go_out.

(** The file and the counters go on after the batch. *)
Definition account_batch (base_offset base_lba : Z) (b : Batch) : M (outcome + unit) :=
  let! _ := mod_counters (λ k, k <| bytes_captured := u64 (base_offset + b_bytes b) |>) in
  let! l := get in
  if UINT64_MAX - b_bytes b <? queued_payload_bytes (counters l)
  then out_with STORAGE_ERR_INTERNAL "queued_byte_counter_overflow" else
  let! _ := mod_counters (λ k, k <| queued_payload_bytes ::= λ n, u64 (n + b_bytes b) |>) in
  if UINT64_MAX - base_lba <? b_sectors b
  then out_with STORAGE_ERR_INTERNAL "lba_range_overflow" else
  lift (mod_counters (λ k, k <| next_queue_lba := u64 (base_lba + b_sectors b) |>)).

Definition batch_failed (invalid fatal : bool) : M (outcome + unit) :=
  if negb (fatal || invalid) then xret tt else
  let! _ := (if invalid && negb fatal then record_failure "invalid_dma_harvest_bytes" else eret tt) in
  let! _ := record_error STORAGE_ERR_DMA_DESCRIPTOR "dma_harvest_failed" in
  let! _ := emit_fatal STORAGE_ERR_DMA_DESCRIPTOR in go_out.

(** Data restarts the window in which a stopped engine must stay empty. *)
Definition restart_stable_window (count : Z) : M unit :=
  let! l := get in
  if bool_decide (state (stop_state l) = STORAGE_STOP_HARVESTING) then
    let! d := channel_dma in
    let! now := storage_wall_time_us in
    mod_loop (λ x, x <| stop_harvest_state ::= λ h, (storage_stop_harvest_observe h
      (dma_quiesced (flags l)) count 0 (ccb_dma.dma_rx_packet_open d) now
      STORAGE_STOP_STABLE_EMPTY_SCANS STORAGE_STOP_STABLE_EMPTY_US).2 |>)
  else eret tt.

Definition harvested_turn (fatal : bool) (its : list ccb_dma.DmaHarvestItem) : M (outcome + unit) :=
  let! l := get in
  let base_offset := bytes_captured (counters l) in
  let base_lba := next_queue_lba (counters l) in
  let! r := harvest_items P c base_offset base_lba its empty_batch in
  let? _ := push_pending (b_pending r.2) in
  let? _ := account_batch base_offset base_lba r.2 in
  let! now := storage_wall_time_us in
  let! _ := mod_loop (λ x, x <| saw_dma_data := true |> <| last_dma_us := now |>) in
  let? _ := batch_failed r.1 fatal in
  let count := Z.of_nat (length its) in
  let! _ := restart_stable_window count in
  let! _ := mod_stats storage_stats_finish_harvest_batch in
  let! stop := storage_update_ring_pressure P in
  let! _ := (if stop : bool then on_sys storage_write_request_stop else eret tt) in
  let! _ := (if harvest_batch_max_cfg c <=? count then usleep else eret tt) in
  stop_ Again.

Definition turn_body (inner : nat) : M (outcome + unit) :=
  let? t := begin_turn in
  let? _ := check_queue in
  let! _ := log_stop t in
  let? _ := latch_stop t in
  let? _ := stop_sequence inner in
  let! l := get in
  let! (rc, its) := on_sys (on_dma
    (if bool_decide (state (stop_state l) = STORAGE_STOP_HARVESTING)
     then ccb_dma.dma_harvest_completed_batch hw (t_limit t)
     else ccb_dma.dma_harvest_batch hw (t_limit t) 100)) in
  match its with
  | [] => if negb (rc =? 0) then harvest_error else nothing_harvested t rc 0
  | _ => harvested_turn (negb (rc =? 0)) its
  end.
Definition turn (inner : nat) : M outcome :=
  let! r := turn_body inner in eret (match r with inl o => o | inr _ => Again end).

(** [for (;;)]: [fuel] turns, [inner] steps of the waiting loops inside them. *)
Fixpoint capture_loop (fuel inner : nat) : M (outcome + unit) :=
  match fuel with
  | O => stop_ Stuck
  | S fuel =>
    let! o := turn inner in
    match o with
    | Again => capture_loop fuel inner
    | Leave => xret tt
    | o => stop_ o
    end
  end.
End Producer.
End ccb_capture_run.
