(* ===== verification/ProducerEnd.v ===== *)
(** * The producer of a capture: the end ([src/src/ccb_commands.c])

    The rest of [execute_write_with_result_mode]: draining the writer, the
    verdict on a capture that ended well with its result and its metadata, and
    the clean-up after [out] that every capture goes through - stopping the
    engine, saving what it has completed, ending the writer, and deciding
    whether the memory the engine uses may be unmapped. *)
From stdpp Require Import pretty.
From S2P Require Import Prelude StorageError SlotTable Pipeline Worker Writer Stop CStdlib Bytes Config Ipc Diag DmaRing CrossSlot CcbTypes WriteQueue WriterThread CmdConfig ProducerStats ProducerBatch ProducerRun.

Module ccb_capture_end.
Import storage_queue storage_worker storage_writer ccb_types storage_stop storage_ipc ccb_storage_pipeline storage_write_queue storage_writer_thread ccb_cmd_config ccb_capture ccb_capture_batch ccb_capture_run.

(** The fields of [WriteResult] that the capture sets, except for some
    statistics that are copied. *)
Record Result : Type := mkResult {
  r_receive_integrity_ok : bool; r_storage_integrity_ok : bool; r_integrity_ok : bool;
  r_data_persisted : bool; r_dma_stop_recovered : bool;
  r_counters : Counters; r_nvme_completed_bytes : Z; r_nvme_media_bytes : Z;
  r_nvme_padding_bytes : Z; r_completed_unharvested_bytes : Z; r_stop_epoch : Z;
  r_times : Times; r_totals : Totals; r_final_ready_count : Z; r_final_active_count : Z;
  r_final_global_inflight : Z; r_submit_count : Z; r_completion_count : Z;
  r_final_completed_unharvested : Z; r_file_bytes : Z; r_expected : option Z;
  r_metadata_slot : Z; r_start_lba : Z; r_sector_count : Z; r_file_index : Z;
  r_primary_error : StorageErrorCode; r_secondary_error : StorageErrorCode;
  r_integrity_risk : string; r_secondary_reason : string }.

(** The memory of the queue is freed. *)
Definition storage_queue_destroy (q : StorageWriteQueue) : StorageWriteQueue :=
  if negb (nvme_engine_quiesced q) then q
  else q <| items := [] |> <| slots ::= storage_slot_table_destroy |>.

Section Producer.
Context {W : Type} (P : Producer W) (c : Settings) (plan : Plan).
#[local] Abbreviation M := (M (W := W)).
#[local] Abbreviation storage_wall_time_us := (storage_wall_time_us P).
#[local] Abbreviation locked := (locked P).
#[local] Abbreviation locked_ := (locked_ P).
#[local] Abbreviation hw := (hw P).
#[local] Abbreviation usleep := (usleep P).
#[local] Abbreviation must_emit_phase := (must_emit_phase P c).
#[local] Abbreviation set_deadline := (set_deadline P c).
#[local] Abbreviation join := (storage_join_writer_deadline P).

(** ** Ending the writer *)
Definition finish_queue : M unit :=
  let! stop := locked storage_queue_finish in
  if stop : bool then on_sys storage_write_request_stop else eret tt.
Definition abort_queue : M unit :=
  on_sys (let! _ := lock (others P) in storage_queue_request_abort).
(** The writer did not end in time: it is told to abort, and waited for again. *)
Definition abort_writer (inner : nat) : M (outcome + unit) :=
  let! _ := abort_queue in
  let! _ := set_deadline nvme_abort_us in
  let! l := get in
  let? rc := join inner (deadline_us (stop_state l)) in
  lift (if negb (rc =? 0) then record_failure "writer_abort_timeout"
        else mod_flags (λ f, f <| writer_started := false |>)).

(** ** A capture that has left its loop *)
Definition drain_writer (inner : nat) : M (outcome + unit) :=
  let! n := received in
  let! now := storage_wall_time_us in
  let! _ := mod_stats (storage_stats_update_ring_full false now n) in
  let! l := get in
  if negb (stop_harvest_stable (flags l)) || negb (bool_decide (state (stop_state l) = STORAGE_STOP_HARVESTING))
  then
    let! _ := record_failure "stop_harvest_not_stable" in
    let! _ := mod_stop storage_stop_state_fail in go_out
  else
  let! incomplete := on_sys (on_dma (ccb_dma.dma_s2mm_tail_incomplete hw)) in
  let! _ := mod_flags (λ f, f <| tail_incomplete := incomplete |>) in
  let! _ := (if incomplete : bool then record_error STORAGE_ERR_TAIL_UNALIGNED "tail_descriptor_incomplete"
             else eret tt) in
  let! _ := advance STORAGE_STOP_PRODUCER_DONE in
  let! now := storage_wall_time_us in
  let! _ := mod_times (λ x, x <| producer_done_us := now |>) in
  let! _ := finish_queue in
  let! _ := advance STORAGE_STOP_WRITER_DRAINING in
  let! _ := mod_flags (λ f, f <| dma_stop_attempted := true |>) in
  let! _ := set_deadline writer_drain_us in
  let! l := get in
  let? rc := join inner (deadline_us (stop_state l)) in
  if negb (rc =? 0) then
    let! _ := record_error STORAGE_ERR_NVME_TIMEOUT "writer_drain_timeout" in
    let! _ := emit_fatal P c STORAGE_ERR_NVME_TIMEOUT in
    let? _ := abort_writer inner in go_out
  else
  let! _ := mod_flags (λ f, f <| writer_started := false |>) in
  let! now := storage_wall_time_us in
  let! _ := mod_times (λ x, x <| writer_drained_us := now |>) in
  must_emit_phase STORAGE_WORKER_WRITER_DRAINED STORAGE_ERR_NONE "writer_drained"
    "writer_drained_event_send_failed".

Definition finalize_engine (inner : nat) : M (outcome + unit) :=
  let? r := dma_finalize P inner in
  let! _ := mod_vars (λ l,
    if dma_quiesced (flags l) && negb (dma_stop_result l =? ccb_dma.DMA_STOP_RESET_RECOVERED)
    then l <| dma_stop_result := r |> else l) in
  let! l := get in
  lift (if dma_stop_result l =? ccb_dma.DMA_STOP_FAILED then
    let! _ := mod_flags (λ f, f <| dma_stop_failed := true |>) in
    record_error STORAGE_ERR_DMA_STOP "dma_stop_recovery_failed"
  else eret tt).

(** Bytes in descriptors that were completed but never harvested. *)
Definition unharvested_bytes (n desc_bytes : Z) : Z :=
  if UINT64_MAX / desc_bytes <? n then UINT64_MAX else n * desc_bytes.
Definition take_snapshot : M unit :=
  let! sn := locked storage_queue_snapshot in
  let! d := channel_dma in
  mod_vars (λ l, l <| finals ::= λ f, f <| final_queue_snapshot := sn |>
    <| completed_unharvested_bytes :=
         unharvested_bytes (storage_queue.completed_unharvested (sn_counts sn)) (ccb_dma.dma_desc_bytes d) |> |>).
Definition read_queue_totals : M unit :=
  let! q := queue_of in
  mod_vars (λ l, l <| finals ::= λ f, f <| file_bytes := bytes_written (totals q) |>
                                        <| chunks := storage_write_queue.chunks (totals q) |> |>).

(** The queue ends its life; its memory is freed. *)
Definition close_queue : M (outcome + unit) :=
  let! l := get in
  let! _ := (if bool_decide (state (stop_state l) = STORAGE_STOP_WRITER_DRAINING)
             then advance STORAGE_STOP_FINALIZING else eret tt) in
  let! rc := locked storage_queue_mark_finalizing in
  if negb (rc =? 0) then out_with STORAGE_ERR_QUEUE "worker_finalize_transition_failed" else
  let! q := queue_of in
  if error q then go_out else
  let! _ := mod_stats storage_stats_finish_harvest_batch in
  let! _ := take_snapshot in
  let! _ := storage_emit_final_perf_window P in
  let! _ := mod_flags (λ f, f <| final_perf_emitted := true |>) in
  let! _ := read_queue_totals in
  let! rc := locked storage_queue_mark_done in
  if negb (rc =? 0) then out_with STORAGE_ERR_QUEUE "worker_done_transition_failed" else
  let! _ := on_sys (mod_q storage_queue_destroy) in
  let! _ := mod_flags (λ f, f <| write_queue_ready := false |>) in
  let! now := storage_wall_time_us in
  let! _ := mod_times (λ x, x <| final_us := now |>) in
  let! _ := advance STORAGE_STOP_FINISHED in
  let! _ := mod_vars (λ l, l <| finals ::= λ f,
    f <| total_sectors := u64 (next_queue_lba (counters l) - start_lba plan) |> |>) in
  let! l := get in
  if UINT32_MAX <? total_sectors (finals l) then go_out else xret tt.

(** *** The metadata of a standalone capture *)
Definition storage_write_mode_commits_locally : bool := negb (supervised c).
Definition may_commit (l : Locals) (nvme : NvmeCounters) (q : StorageWriteQueue) : bool :=
  storage_write_mode_commits_locally && receive_integrity_ok (receive (stats l)) &&
  negb (tail_incomplete (flags l)) && (tail_unqueued_bytes (counters l) =? 0) &&
  (completed_unharvested_bytes (finals l) =? 0) &&
  (queued_payload_bytes (counters l) =? bytes_written (totals q)) &&
  (queued_payload_bytes (counters l) =? nvme_payload_bytes_done nvme).
(** The task number is copied into a zeroed field of eleven bytes. *)
Definition file_entry (l : Locals) : FileEntry :=
  mkEntry (take 11 (task_no plan ++ replicate 11 0)) 1 (u8 (file_type plan))
    (u16 (effective_file_index plan))
    (if UINT32_MAX <? file_bytes (finals l) then UINT32_MAX else u32 (file_bytes (finals l)))
    (start_lba plan) (u32 (total_sectors (finals l))) 1.
Definition commit_local : M (outcome + unit) :=
  let! l := get in
  let! nvme := sio (read_nvme P) in
  let! q := queue_of in
  let? _ :=
    (if may_commit l nvme q then
       let! rc := sio (metadata_write P (<[Z.to_nat (metadata_slot plan) := file_entry l]> (table plan))) in
       if negb (rc =? 0) then go_out else xret tt
     else xret tt) in
  lift (mod_flags (λ f, f <| data_persisted := true |>)).

(** *** The verdict *)
Definition expected_bytes_setting : option Z :=
  (storage_env_u64 (c_snprintf_s 64 ("SRC_REAL_EXPECTED_BYTES_CH" ++ pretty (cfg_id c))) (environment c)).1.
Definition strict_end_to_end : bool :=
  (storage_env_flag_enabled "SRC_REAL_STRICT_END_TO_END" (environment c)).1.
Definition end_to_end_ok (l : Locals) (nvme : NvmeCounters) : bool :=
  match expected_bytes_setting with
  | Some n => (n =? dma_received_bytes (counters l)) && (n =? nvme_payload_bytes_done nvme)
  | None => negb strict_end_to_end end.

Definition drain_invariant (l : Locals) (nvme : NvmeCounters) : StorageDrainInvariant :=
  let sn := final_queue_snapshot (finals l) in
  mkInvariant (phase_rank STORAGE_STOP_PRODUCER_DONE <=? phase_rank (state (stop_state l)))
    (dma_quiesced (flags l)) (dma_harvested_payload_bytes (counters l))
    (queued_payload_bytes (counters l)) (nvme_payload_bytes_done nvme) (file_bytes (finals l))
    (tail_unqueued_bytes (counters l)) (storage_queue.completed_unharvested (sn_counts sn))
    (ready_depth_current sn) (nvme_busy (sn_counts sn)) (nvme_active_qd_current nvme)
    (nvme_cmd_count nvme) (nvme_cq_completed nvme) (buffered_bytes (sn_totals sn)).

(** The invariant must be seen to hold for long enough. *)
Fixpoint drain_scans (n : nat) (inv : StorageDrainInvariant) (st : StorageDrainStableState) : M bool :=
  match n with
  | O => eret false
  | S n =>
    let! now := storage_wall_time_us in
    let '(stable, st) := storage_drain_stable_observe st inv now (drain_stable_scans c) (drain_stable_us c) in
    if stable : bool then eret true else
    if negb (storage_drain_invariant_ok inv) then eret false else
    let! _ := usleep in drain_scans n inv st
  end.

Definition integrity_risk_text (l : Locals) (nvme : NvmeCounters) : string :=
  let zero := require_nonempty_payload c && (dma_received_bytes (counters l) =? 0) in
  if integrity_risk_ring_full (full (stats l)) then "dma_bd_exhausted_no_upstream_backpressure"
  else if negb (receive_integrity_ok (receive (stats l))) then receive_integrity_risk (receive (stats l))
  else if negb (end_to_end_ok l nvme)
  then (if bool_decide (is_Some expected_bytes_setting) then "expected_byte_mismatch" else "source_count_unavailable")
  else if tail_incomplete (flags l) then "tail_descriptor_incomplete"
  else if negb (dma_received_bytes (counters l) =? file_bytes (finals l)) then "dma_file_byte_mismatch"
  else if dma_stop_failed (flags l) then "dma_stop_recovery_failed"
  else if zero then "zero_payload_not_allowed" else "none".

Definition padding_of (nvme : NvmeCounters) : Z :=
  if nvme_payload_bytes_done nvme <=? nvme_write_bytes_done nvme
  then nvme_write_bytes_done nvme - nvme_payload_bytes_done nvme else 0.
Definition or_nvme (mine other : StorageErrorCode) : StorageErrorCode :=
  if negb (mine =? STORAGE_ERR_NONE) then mine else other.

Definition result_ok (l : Locals) (nvme : NvmeCounters) (receive_ok storage_ok integrity_ok : bool) : Result :=
  let sn := final_queue_snapshot (finals l) in
  mkResult receive_ok storage_ok (receive_ok && integrity_ok) (data_persisted (flags l))
    (dma_stop_result l =? ccb_dma.DMA_STOP_RESET_RECOVERED) (counters l)
    (nvme_payload_bytes_done nvme) (nvme_write_bytes_done nvme) (padding_of nvme)
    (completed_unharvested_bytes (finals l)) (g_storage_stop_epoch (globals l)) (times l)
    (sn_totals sn) (ready_depth_current sn) (nvme_busy (sn_counts sn)) (nvme_active_qd_current nvme)
    (nvme_cmd_count nvme) (nvme_cq_completed nvme) (storage_queue.completed_unharvested (sn_counts sn))
    (file_bytes (finals l)) expected_bytes_setting (metadata_slot plan) (start_lba plan)
    (total_sectors (finals l)) (effective_file_index plan)
    (or_nvme (primary_error (receive (stats l))) (nvme_primary_error nvme))
    (or_nvme (secondary_error (receive (stats l))) (nvme_secondary_error nvme))
    (c_snprintf_s 64 (integrity_risk_text l nvme)) (secondary_reason (receive (stats l))).

(** The return value and the result. *)
Definition judge_capture : M (outcome + (Z * Result)) :=
  let! l := get in
  let! nvme := sio (read_nvme P) in
  let! drained := drain_scans (Z.to_nat (drain_stable_scans c)) (drain_invariant l nvme)
                    storage_drain_stable_init in
  let zero := require_nonempty_payload c && (dma_received_bytes (counters l) =? 0) in
  let storage_ok := negb (tail_incomplete (flags l)) && negb (dma_stop_failed (flags l)) &&
    (completed_unharvested_bytes (finals l) =? 0) && drained && negb zero in
  let! _ := (if zero then record_failure "zero_payload_not_allowed" else eret tt) in
  let! l := get in
  let receive_ok := receive_integrity_ok (receive (stats l)) &&
                    negb (integrity_risk_ring_full (full (stats l))) in
  let integrity_ok := receive_ok && end_to_end_ok l nvme &&
    (tail_unqueued_bytes (counters l) =? 0) && storage_ok in
  let rc := if dma_stop_failed (flags l) || negb integrity_ok || negb receive_ok then -1 else 0 in
  xret (rc, result_ok l nvme receive_ok storage_ok integrity_ok).

Definition finish_capture (inner : nat) : M (outcome + (Z * Result)) :=
  let? _ := drain_writer inner in
  let? _ := finalize_engine inner in
  let? _ := close_queue in
  let? _ := commit_local in
  judge_capture.

(** ** The clean-up after [out] *)
(** The stop sequence as far as the capture has not gone through it. *)
Definition enter_stop : M unit :=
  let! l := get in
  let! _ :=
    (if bool_decide (state (stop_state l) = STORAGE_STOP_NONE) then
       let! _ := (if stop_request_us (times l) =? 0 then
                    let! t := storage_wall_time_us in mod_times (λ x, x <| stop_request_us := t |>)
                  else eret tt) in
       let! t := storage_wall_time_us in
       mod_stop (λ s, (storage_stop_state_latch s (u64 (t + stop_harvest_us (timeouts c)))).2)
     else eret tt) in
  let! _ :=
    (if bool_decide (state (stop_state l) = STORAGE_STOP_NONE) || bool_decide (state (stop_state l) = STORAGE_STOP_REQUESTED)
     then advance STORAGE_STOP_WAIT_BOUNDARY else eret tt) in
  if bool_decide (state (stop_state l) ∈ [STORAGE_STOP_NONE; STORAGE_STOP_REQUESTED; STORAGE_STOP_WAIT_BOUNDARY])
  then
    let! _ := locked storage_queue_request_stop_state in
    let! _ := locked storage_queue_latch_stop in
    let! _ := advance STORAGE_STOP_DMA_QUIESCING in
    set_deadline dma_quiesce_us
  else eret tt.

Definition quiesce_late (inner : nat) : M (outcome + unit) :=
  let! l := get in
  if dma_quiesced (flags l) then xret tt else
  let? r := storage_dma_quiesce_epoch P inner in
  lift (if negb (r =? ccb_dma.DMA_STOP_FAILED) then
    let! _ := note_quiesced r in
    let! _ := locked storage_queue_mark_harvesting in eret tt
  else
    let! _ := mod_flags (λ f, f <| dma_stop_failed := true |>) in
    let! l := get in record_failure (quiesce_reason l)).

(** The descriptors found after the engine has stopped. *)
Definition save_batch (its : list ccb_dma.DmaHarvestItem) : M bool :=
  let! l := get in
  let base_offset := bytes_captured (counters l) in
  let base_lba := next_queue_lba (counters l) in
  let! b := stopped_items P c base_offset base_lba its empty_batch in
  let! rc := (if Z.of_nat (length (b_pending b)) =? 0 then eret 0
              else locked (storage_local_queue_push_batch (b_pending b))) in
  if negb (rc =? 0) then let! _ := record_failure "fatal_stop_unqueued_dma_data" in eret false else
  let! _ := mod_counters (λ k, k <| bytes_captured ::= λ n, u64 (n + b_bytes b) |>) in
  let! l := get in
  let! _ := (if queued_payload_bytes (counters l) <=? UINT64_MAX - b_bytes b
             then mod_counters (λ k, k <| queued_payload_bytes ::= λ n, u64 (n + b_bytes b) |>)
             else record_failure "queued_byte_counter_overflow") in
  let! _ := (if b_sectors b <=? UINT64_MAX - next_queue_lba (counters l)
             then mod_counters (λ k, k <| next_queue_lba ::= λ n, u64 (n + b_sectors b) |>)
             else record_failure "lba_range_overflow") in
  eret true.

(** Nothing was found: [true] when the search is over. *)
Definition search_over (h : StorageStopHarvestState) : M (bool * StorageStopHarvestState) :=
  let! now := storage_wall_time_us in
  let! o := snapshot_all P in
  match o with
  | None => let! _ := record_failure "slot_ownership_invariant_failed" in eret (true, h)
  | Some sn =>
    let! _ := mod_stats (storage_stats_observe_bd_snapshot sn) in
    let! d := channel_dma in
    let '(stable, h) := storage_stop_harvest_observe h true 0 (ccb_dma.sn_completed_unharvested sn)
      (ccb_dma.dma_rx_packet_open d) now STORAGE_STOP_STABLE_EMPTY_SCANS STORAGE_STOP_STABLE_EMPTY_US in
    if stable : bool then eret (true, h) else
    let! l := get in
    if deadline_us (stop_state l) <=? now then
      let! _ := record_failure "stop_harvest_timeout" in eret (true, h)
    else let! _ := usleep in eret (false, h)
  end.

Fixpoint harvest_stopped (fuel : nat) (h : StorageStopHarvestState) : M (outcome + unit) :=
  let! now := storage_wall_time_us in
  let! l := get in
  if storage_stop_state_expired (stop_state l) now
  then lift (record_error STORAGE_ERR_STOP_HARVEST_TIMEOUT "stop_harvest_timeout") else
  let! (rc, its) := on_sys (on_dma (ccb_dma.dma_harvest_completed_batch hw 16)) in
  if negb (rc =? 0) then lift (record_failure "stopped_dma_harvest_failed") else
  match fuel with
  | O => stop_ Stuck
  | S fuel =>
    match its with
    | [] =>
      let! (over, h) := search_over h in
      if over : bool then xret tt else harvest_stopped fuel h
    | _ =>
      let! now := storage_wall_time_us in
      let! d := channel_dma in
      let h := (storage_stop_harvest_observe h true (Z.of_nat (length its)) 0
        (ccb_dma.dma_rx_packet_open d) now STORAGE_STOP_STABLE_EMPTY_SCANS STORAGE_STOP_STABLE_EMPTY_US).2 in
      let! ok := save_batch its in
      if ok : bool then harvest_stopped fuel h else xret tt
    end
  end.

Definition check_tail_late : M unit :=
  let! l := get in
  if manual_stop_seen (flags l) && negb (tail_incomplete (flags l)) && dma_quiesced (flags l) then
    let! incomplete := on_sys (on_dma (ccb_dma.dma_s2mm_tail_incomplete hw)) in
    let! _ := mod_flags (λ f, f <| tail_incomplete := incomplete |>) in
    if incomplete : bool then record_error STORAGE_ERR_TAIL_UNALIGNED "tail_descriptor_incomplete"
    else eret tt
  else eret tt.

(** No more slots will come. *)
Definition finish_late : M unit :=
  let! l := get in
  if writer_started (flags l) then
    let! _ := (if producer_done_us (times l) =? 0 then
                 let! t := storage_wall_time_us in mod_times (λ x, x <| producer_done_us := t |>)
               else eret tt) in
    finish_queue
  else eret tt.
Definition advance_if (current next : StorageStopPhase) : M unit :=
  let! l := get in
  if bool_decide (state (stop_state l) = current) then advance next else eret tt.

Definition stop_engine (inner : nat) : M (outcome + unit) :=
  let! _ := ensure_epoch P in
  let! _ := enter_stop in
  let? _ := quiesce_late inner in
  let! _ := set_deadline stop_harvest_us in
  let! l := get in
  let? _ := (if dma_quiesced (flags l) then harvest_stopped inner storage_stop_harvest_state_init
             else xret tt) in
  let! _ := check_tail_late in
  let! _ := advance_if STORAGE_STOP_DMA_QUIESCING STORAGE_STOP_HARVESTING in
  let! _ := finish_late in
  let! l := get in
  let! _ := (if bool_decide (state (stop_state l) = STORAGE_STOP_HARVESTING)
             then let! _ := advance STORAGE_STOP_PRODUCER_DONE in advance STORAGE_STOP_WRITER_DRAINING
             else eret tt) in
  lift (mod_flags (λ f, f <| dma_stop_attempted := true |>)).

Definition end_writer (inner : nat) : M (outcome + unit) :=
  let! l := get in
  if negb (writer_started (flags l)) then xret tt else
  let! _ := set_deadline writer_drain_us in
  let! l := get in
  let? rc := join inner (deadline_us (stop_state l)) in
  let? _ :=
    (if negb (rc =? 0) then
       let! _ := record_error STORAGE_ERR_NVME_TIMEOUT "writer_drain_timeout" in abort_writer inner
     else lift (mod_flags (λ f, f <| writer_started := false |>))) in
  let! l := get in
  let! _ := (if negb (writer_started (flags l)) && (writer_drained_us (times l) =? 0)
             then let! t := storage_wall_time_us in mod_times (λ x, x <| writer_drained_us := t |>)
             else eret tt) in
  lift read_queue_totals.

(** The engine is reset, unless the stop has done so. *)
Definition finalize_late (inner : nat) : M (outcome + unit) :=
  let! l := get in
  if negb (writer_started (flags l)) && dma_stop_attempted (flags l) && dma_quiesced (flags l) &&
     negb (dma_stop_result l =? ccb_dma.DMA_STOP_RESET_RECOVERED)
  then
    let? r := dma_finalize P inner in
    let! _ := mod_vars (λ l, l <| dma_stop_result := r |>) in
    lift (if r =? ccb_dma.DMA_STOP_FAILED then
      let! _ := mod_flags (λ f, f <| dma_stop_failed := true |>) in
      record_error STORAGE_ERR_DMA_STOP "dma_stop_recovery_failed"
    else eret tt)
  else xret tt.

(** A capture that has run and went wrong says so. *)
Definition report_fatal : M unit :=
  let! l := get in
  let! q := queue_of in
  if negb (stop_failed_phase_sent (flags l)) && negb (capture_start_us (times l) =? 0) &&
     (error q || dma_stop_failed (flags l) || negb (nvme_engine_quiesced q))
  then
    let! _ := ensure_epoch P in
    let! l := get in
    let r := receive (stats l) in
    let! _ := storage_emit_stop_phase P c STORAGE_WORKER_FAILED_FATAL
      (if negb (primary_error r =? STORAGE_ERR_NONE) then primary_error r else STORAGE_ERR_INTERNAL)
      (dma_received_bytes (counters l))
      (if String.eqb (receive_integrity_risk r) "" then "storage_fatal" else receive_integrity_risk r) in
    mod_flags (λ f, f <| stop_failed_phase_sent := true |>)
  else eret tt.

(** S2MM can no longer own memory. *)
Definition engine_off (l : Locals) : bool :=
  negb (dma_started (flags l)) || dma_quiesced (flags l) ||
  (dma_stop_result l =? ccb_dma.DMA_STOP_RESET_RECOVERED).

Definition close_queue_late : M unit :=
  let! l := get in
  if negb (write_queue_ready (flags l)) then eret tt else
  let! _ := take_snapshot in
  let! l := get in
  let! _ := (if final_perf_emitted (flags l) || (capture_start_us (times l) =? 0) then eret tt else
             let! _ := storage_emit_final_perf_window P in
             mod_flags (λ f, f <| final_perf_emitted := true |>)) in
  let! l := get in
  let! q := queue_of in
  if nvme_engine_quiesced q && engine_off l then
    let! _ := on_sys (mod_q storage_queue_destroy) in
    mod_flags (λ f, f <| write_queue_ready := false |>)
  else eret tt.

(** *** The result of a capture that failed *)
(** [recovered] and [expected] keep what the verdict has set. *)
Definition result_failed (l : Locals) (nvme : NvmeCounters) (recovered : bool) (expected : option Z) : Result :=
  let sn := final_queue_snapshot (finals l) in
  let r := receive (stats l) in
  let primary := or_nvme (primary_error r) (nvme_primary_error nvme) in
  mkResult false false false (data_persisted (flags l)) recovered (counters l)
    (nvme_payload_bytes_done nvme) (nvme_write_bytes_done nvme) (padding_of nvme)
    (completed_unharvested_bytes (finals l)) (g_storage_stop_epoch (globals l)) (times l)
    (sn_totals sn) (ready_depth_current sn) (nvme_busy (sn_counts sn)) (nvme_active_qd_current nvme)
    (nvme_cmd_count nvme) (nvme_cq_completed nvme) (storage_queue.completed_unharvested (sn_counts sn))
    (file_bytes (finals l)) expected (metadata_slot plan) (start_lba plan) (total_sectors (finals l))
    (effective_file_index plan)
    (if negb (primary =? STORAGE_ERR_NONE) then primary else STORAGE_ERR_INTERNAL)
    (or_nvme (secondary_error r) (nvme_secondary_error nvme))
    (if String.eqb (receive_integrity_risk r) "" then "storage_error" else receive_integrity_risk r)
    (secondary_reason r).

Definition clean_up (inner : nat) : M (outcome + unit) :=
  let! n := received in
  let! t := storage_wall_time_us in
  let! _ := mod_stats (storage_stats_update_ring_full false t n) in
  let! l := get in
  let? _ := (if dma_started (flags l) && negb (dma_stop_attempted (flags l)) then stop_engine inner
             else lift finish_late) in
  let? _ := end_writer inner in
  let? _ := finalize_late inner in
  let! _ := report_fatal in
  let! _ := advance_if STORAGE_STOP_WRITER_DRAINING STORAGE_STOP_FINALIZING in
  lift close_queue_late.

(** ** The whole capture *)
(** The return value, the result, and whether the runtime was closed. *)
Record Ended : Type := mkEnded { e_rc : Z; e_result : Result; e_closed : bool }.

Definition fail_capture (rc : Z) (recovered : bool) (expected : option Z) (closed : bool) : M Ended :=
  let! l := get in
  let! _ := (if final_us (times l) =? 0 then
               let! t := storage_wall_time_us in mod_times (λ x, x <| final_us := t |>)
             else eret tt) in
  let! l := get in
  let! nvme := sio (read_nvme P) in
  eret (mkEnded rc (result_failed l nvme recovered expected) closed).

Definition leave_capture (r : outcome + (Z * Result)) : M Ended :=
  let! l := get in
  let! q := queue_of in
  let closed := (negb (write_queue_ready (flags l)) || nvme_engine_quiesced q) && engine_off l in
  match r with
  | inr (rc, result) =>
    if rc =? 0 then eret (mkEnded 0 result closed)
    else fail_capture rc (r_dma_stop_recovered result) (r_expected result) closed
  | inl _ => fail_capture (-1) false None closed
  end.

Definition is_stuck (r : outcome + (Z * Result)) : bool :=
  match r with inl Stuck => true | _ => false end.

(** [execute_write_with_result_mode] once the writer thread exists; [None]:
    [fuel] turns of the loop, or [inner] steps of a waiting loop, were not enough. *)
Definition capture (fuel inner : nat) : M (option Ended) :=
  let! r :=
    (let? _ := start_capture P c inner in
     let? _ := capture_loop P c fuel inner in
     finish_capture inner) in
  if is_stuck r then eret None else
  let! o := clean_up inner in
  match o with
  | inl _ => eret None
  | inr _ => let! e := leave_capture r in eret (Some e)
  end.
End Producer.
End ccb_capture_end.
