(* ===== verification/ProducerExample.v ===== *)
(** * The producer of a capture: a run

    A capture of a channel without hardware ([dry_run]): the ring of two slots
    completes a descriptor of 512 bytes in every turn, the writer thread of
    [WriterThread] runs whenever the producer lets others run, and a signal asks
    the capture to stop when the writer has written 1024 bytes. *)
From S2P Require Import Prelude StorageError SlotTable Pipeline Worker Writer Stop CStdlib Bytes Config Ipc Diag DmaRing CrossSlot CcbTypes WriteQueue WriterThread CmdConfig ProducerStats ProducerBatch ProducerRun ProducerEnd.

Module producer_example.
Import storage_queue storage_worker ccb_types storage_write_queue storage_writer_thread ccb_cmd_config ccb_capture ccb_capture_run ccb_capture_end.

(** The clock, and the payload bytes the device has completed. *)
Definition World : Type := Z * Z.
Definition tick (d : Z) : Eff World Z := λ '(t, n), (t, (t + d, n)).
Definition nothing {A} (a : A) : Eff World A := λ w, (a, w).
Definition example_hw (d : Z) : ccb_dma.DmaHw World :=
  ccb_dma.mkHw (λ _, nothing 0) (λ _ _, nothing tt) (λ _ _, nothing 0) (λ _ _ _, nothing tt)
    (λ _, nothing tt) (tick d) (nothing tt).
Definition write_slot (_ _ _ payload _ : Z) : Eff World Z := λ '(t, n), (0, (t, n + payload)).
Definition example_outside (d : Z) : Outside World :=
  mkOutside (example_hw d) write_slot write_slot (nothing 0) (nothing 0) (nothing false) (nothing 0)
    (ccb_hw.mkOps (λ _ _ _ _, nothing 0) (nothing (0, ccb_hw.mkCompletion 0 false)) (tick d) None None None).

(** The other threads: the writer starts when it may, and then writes what is
    ready; the signal comes after 1024 bytes. *)
Definition example_others (d : Z) : Eff (Sys * World) unit :=
  let! q := get_q in
  if bool_decide (worker_state q = WORKER_ARMED) && negb (writer_ready q)
  then set_writer_ready (eret tt) true else
  let! _ := (if bool_decide (worker_state q = WORKER_INIT) || bool_decide (worker_state q = WORKER_READY)
             then eret None else writer_loop (example_outside d) (eret tt) 3 0) in
  let! q := get_q in
  if 1024 <=? bytes_written (totals q) then storage_write_request_stop else eret tt.
Definition example_join (d : Z) : Eff (Sys * World) Z :=
  let! _ := example_others d in
  let! q := get_q in
  eret (if storage_worker_producer_done (worker_state q) && (count q =? 0) then 0 else EBUSY).
Definition example_nvme : Eff World NvmeCounters := λ '(t, n),
  (mkNvmeCounters n n (n / 512) (n / 512) 0 0 STORAGE_ERR_NONE STORAGE_ERR_NONE, (t, n)).
(** The clock advances by [d] microseconds whenever it is read. *)
Definition producer_ticking (d : Z) : Producer World :=
  mkProducer (example_outside d) (example_others d) (example_join d) (λ _ _, nothing 0) (tick d) (nothing None)
    (nothing true) (λ _, nothing ReadTimeout) (λ _, nothing None) (nothing 0) (nothing false)
    example_nvme (λ _, nothing 0).
Definition example_producer : Producer World := producer_ticking 1.

(** A bounded capture of 4096 bytes on channel 0. *)
Definition example_env : storage_config.config_state := storage_config.mkConfigState ∅ [] [] None.
Definition bounded_settings (size : Z) : Settings :=
  mkSettings example_env 0 true true size 1 (mkTimeouts 100 100 100 100 100)
    false false None 1000 false false 0 0 false 10 100 3 1 0.
Definition example_settings : Settings := bounded_settings 4096.
Definition example_plan : Plan := mkPlan 100 0 0 [] [] 1.
Definition example_dma : ccb_dma.Rt :=
  ccb_dma.mkRt 0x40000000 128 0x10000000 true true 1000 0 512 1024 2 2 0 0 0 0 0 false false true 0.
Definition example_rt : ChannelRuntime := mkRuntime example_dma 0 100000 false 4 "".
Definition example_queue : StorageWriteQueue :=
  default (mkQueue example_rt [] zero_table (ccb_storage_diag.mkRing [] 0 0 0 0 ccb_storage_diag.zero_rec)
    (ccb_storage_diag.mkRing [] 0 0 0 0 ccb_storage_diag.zero_rec) 0 0 0 0 (mkDepth 0 0 0 0 0)
    (mkTotals 0 0 0 0 0 0) (mkTiming 0 0 0 0 0 0 0 0 0 0) false WORKER_INIT false false false false ""
    0 "" false false (ccb_hw.mkConfig 0 0 0 0 0 0 0) (ccb_hw.mkStats 0 0 0 0 0 0 0 0 0) 0 0)
    (storage_queue_init example_rt (mkAllocations true true true true true) example_env).1.
Definition example_start : State :=
  mkState (mkSys example_queue false None) (locals_init (pressure_init 0 0 0) 100).
(** In the middle of the capture, with one slot written. *)
Definition example_middle : State := mkState (mkSys example_queue false None)
  ((locals_init (pressure_init 0 0 0) 100) <| counters := mkCounters 512 512 512 512 0 512 101 |>).
Definition example_items : list ccb_dma.DmaHarvestItem :=
  [ccb_dma.mkItem 0 512 0 0; ccb_dma.mkItem 1 100 0 1].
Definition example_run : option Ended * (State * World) :=
  capture example_producer example_settings example_plan 20 20 (example_start, (1, 0)).

(** What a test of a run looks at. *)
Definition ends_with (r : option Ended * (State * World)) (rc bytes : Z) (closed : bool) : bool :=
  match r.1 with
  | Some e => (e_rc e =? rc) && (r_file_bytes (e_result e) =? bytes) && Bool.eqb (e_closed e) closed
  | None => false
  end.

(** The capture is stopped by the signal, with all its bytes on the disk. *)
Example example_run_ends : ends_with example_run 0 1024 true = true.
Proof. by vm_compute. Qed.
(** One that has all its bytes before a signal comes is cleaned up with an error. *)
Example bounded_run_fails :
  ends_with (capture example_producer (bounded_settings 512) example_plan 20 100 (example_start, (1, 0)))
    (-1) 512 true = true.
Proof. by vm_compute. Qed.

End producer_example.
