(* ===== verification/ProducerLogic.v ===== *)
(** * Reasoning about the producer

    Two judgements on the steps of the producer.  [same pi m]: the part [pi] of
    the locals is the same after [m] - the writer and the other threads cannot
    change the locals, and the helpers change only their own part.  [post Pre m
    Post]: a Hoare triple over the locals.  [inv I m] is the triple of a loop
    invariant: [I] holds again unless the step ends the capture with an error. *)
From S2P Require Import Prelude StorageError SlotTable Pipeline Worker Writer Stop CStdlib Bytes Config Ipc Diag DmaRing CrossSlot CcbTypes WriteQueue WriterThread CmdConfig ProducerStats ProducerBatch ProducerRun ProducerEnd.

Module producer_logic.
Import ccb_capture ccb_capture_batch ccb_capture_run ccb_capture_end.

(** ** Frames *)
Definition same {W A X} (pi : Locals → X) (m : M (W := W) A) : Prop :=
  ∀ s w, pi (vars (m (s, w)).2.1) = pi (vars s).

(** A projection that the bookkeeping does not touch. *)
Class Core {X} (pi : Locals → X) : Prop := {
  core_stats : ∀ f l, pi (l <| stats ::= f |>) = pi l;
  core_times : ∀ f l, pi (l <| times ::= f |>) = pi l;
  core_loop : ∀ f l, pi (l <| loop ::= f |>) = pi l;
  core_globals : ∀ f l, pi (l <| globals ::= f |>) = pi l;
  core_report : ∀ f l, pi (l <| dma_stop_report ::= f |>) = pi l }.

#[export] Instance core_counters : Core counters.
Proof. by split. Qed.
#[export] Instance core_flags : Core flags.
Proof. by split. Qed.
#[export] Instance core_stop : Core stop_state.
Proof. by split. Qed.
#[export] Instance core_result : Core dma_stop_result.
Proof. by split. Qed.

Create HintDb frame discriminated.
Section Frame.
Context {W : Type} {X : Type} (pi : Locals → X).
Implicit Types A B : Type.

Lemma same_ret A (a : A) : same (W := W) pi (eret a).
Proof. done. Qed.
Lemma same_bind A B (m : M A) (k : A → M (W := W) B) :
  same pi m → (∀ a, same pi (k a)) → same pi (ebind m k).
Proof.
  intros Hm Hk s w. unfold ebind. specialize (Hm s w). destruct (m (s, w)) as [a [s' w']].
  cbn [fst snd] in *. rewrite <- Hm. apply Hk.
Qed.
Lemma same_xbind A B E (m : M (E + A)) (k : A → M (W := W) (E + B)) :
  same pi m → (∀ a, same pi (k a)) → same pi (xbind m k).
Proof. intros Hm Hk. apply same_bind; [done|]. intros [e|a]; [done|auto]. Qed.
Lemma same_get : same (W := W) pi get.
Proof. done. Qed.
Lemma same_sget : same (W := W) pi sget.
Proof. done. Qed.
Lemma same_sio A (m : Eff W A) : same pi (sio m).
Proof. intros s w. unfold sio. by destruct (m w). Qed.
Lemma same_sys A (m : Eff (storage_writer_thread.Sys * W) A) : same pi (on_sys m).
Proof. intros s w. unfold on_sys. by destruct (m (sys s, w)) as [a [y w']]. Qed.
Lemma same_mod (f : Locals → Locals) : (∀ l, pi (f l) = pi l) → same (W := W) pi (mod_vars f).
Proof. intros H s w. apply H. Qed.

Context `{!Core pi}.
#[local] Set Default Proof Using "Type*".
Lemma same_stats f : same (W := W) pi (mod_stats f).
Proof. apply same_mod, core_stats. Qed.
Lemma same_times f : same (W := W) pi (mod_times f).
Proof. apply same_mod, core_times. Qed.
Lemma same_loop f : same (W := W) pi (mod_loop f).
Proof. apply same_mod, core_loop. Qed.
Lemma same_globals f : same (W := W) pi (mod_globals f).
Proof. apply same_mod, core_globals. Qed.
End Frame.
#[export] Hint Resolve same_ret same_get same_sget same_sio same_sys same_stats same_times
  same_loop same_globals : frame.
#[export] Hint Resolve core_counters core_flags core_stop core_result : frame.

(** Walks through a definition; what it cannot decide is left. *)
Ltac frame := intros; repeat first
  [ solve [eauto 5 with frame] | apply same_xbind; [|intros ?] | apply same_bind; [|intros ?] | case_match ].

Section Helpers.
Context {W : Type} (P : Producer W) (c : Settings) {X : Type} (pi : Locals → X) `{!Core pi}.
#[local] Set Default Proof Using "Type*".

Lemma same_locked A (f : _ → A * _) : same pi (locked P f).
Proof. unfold locked. frame. Qed.
Lemma same_locked_ f : same pi (locked_ P f).
Proof. unfold locked_. apply same_locked. Qed.
Lemma same_queue : same (W := W) pi queue_of.
Proof using Core0. unfold queue_of. frame. Qed.
Lemma same_clock : same pi (storage_wall_time_us P).
Proof. unfold storage_wall_time_us. frame. Qed.
Lemma same_usleep : same pi (usleep P).
Proof. unfold usleep. frame. Qed.
Lemma same_stop_flag : same (W := W) pi stop_flag.
Proof using Core0. unfold stop_flag. frame. Qed.
#[local] Hint Resolve same_locked same_locked_ same_queue same_clock same_usleep same_stop_flag : frame.
Lemma same_dma : same (W := W) pi channel_dma.
Proof using Core0. unfold channel_dma. frame. Qed.
Lemma same_error code r : same (W := W) pi (record_error code r).
Proof using Core0. unfold record_error. frame. Qed.
Lemma same_failure r : same (W := W) pi (record_failure r).
Proof using Core0. unfold record_failure. frame. Qed.
Lemma same_ring i a b f : same pi (producer_ring_event P i a b f).
Proof. unfold producer_ring_event. frame. Qed.
Lemma same_emit t code n r : same pi (storage_emit_event P c t code n r).
Proof. unfold storage_emit_event. frame. Qed.
Lemma same_phase t code n r : same pi (storage_emit_stop_phase P c t code n r).
Proof. unfold storage_emit_stop_phase. frame. Qed.
#[local] Hint Resolve same_dma same_error same_failure same_ring same_emit same_phase : frame.
Lemma same_emit_fatal code : same pi (emit_fatal P c code).
Proof. unfold emit_fatal. frame. Qed.
Lemma same_epoch : same pi (ensure_epoch P).
Proof. unfold ensure_epoch. frame. Qed.
Lemma same_drain_requested : same pi (storage_control_drain_requested P c).
Proof. unfold storage_control_drain_requested. frame. Qed.
Lemma same_gate_read n st e : same pi (gate_read P c n st e).
Proof. unfold gate_read, gate_fail, latch_control_stop, xfail, xret. frame. Qed.
Lemma same_skew t : same pi (note_skew P t).
Proof. unfold note_skew. frame. Qed.
#[local] Hint Resolve same_emit_fatal same_epoch same_gate_read same_skew : frame.
Lemma same_gate fuel : same pi (storage_wait_start_gate P c fuel).
Proof. unfold storage_wait_start_gate, gate_control, gate_fail, xfail, xret. frame. Qed.
Lemma same_join fuel d : same pi (storage_join_writer_deadline P fuel d).
Proof.
  induction fuel as [|fuel IH]; cbn [storage_join_writer_deadline]; unfold stop_, xret; frame.
Qed.
Lemma same_snapshot_o1 : same pi (snapshot_o1 P).
Proof. unfold snapshot_o1. frame. Qed.
Lemma same_snapshot_all : same pi (snapshot_all P).
Proof. unfold snapshot_all. frame. Qed.
#[local] Hint Resolve same_gate same_join same_snapshot_o1 same_snapshot_all same_drain_requested : frame.
Lemma same_observe_ring : same pi (observe_ring P).
Proof. unfold observe_ring. frame. Qed.
#[local] Hint Resolve same_observe_ring : frame.
Lemma same_periodic : same pi (storage_stats_print_periodic P).
Proof. unfold storage_stats_print_periodic. frame. Qed.
Lemma same_final_perf : same pi (storage_emit_final_perf_window P).
Proof. unfold storage_emit_final_perf_window. frame. Qed.
Lemma same_pressure : same pi (storage_update_ring_pressure P).
Proof. unfold storage_update_ring_pressure. frame. Qed.
Lemma same_low out : same pi (low_watermark P c out).
Proof. unfold low_watermark. frame. Qed.
Lemma same_check_engine out : same pi (check_engine P out).
Proof. unfold check_engine. frame. Qed.
Lemma same_judge n out : same pi (judge_snapshot P n out).
Proof. unfold judge_snapshot, ring_exhausted. frame. Qed.
#[local] Hint Resolve same_periodic same_pressure same_low same_check_engine same_judge : frame.
Lemma same_capture_snapshot n : same pi (storage_capture_bd_snapshot P c n).
Proof. unfold storage_capture_bd_snapshot. frame. Qed.
Lemma same_note_desc : same pi (note_desc P).
Proof. unfold note_desc. frame. Qed.
Lemma same_received : same (W := W) pi received.
Proof using Core0. unfold received. frame. Qed.
Lemma same_bad_item r it b : same pi (bad_item P r it b).
Proof. unfold bad_item. frame. Qed.
Lemma same_out_with A code r : same (W := W) pi (out_with (A := A) code r).
Proof using Core0. unfold out_with, go_out, stop_. frame. Qed.
#[local] Hint Resolve same_received same_out_with : frame.
Lemma same_must_emit t code r bad : same pi (must_emit_phase P c t code r bad).
Proof. unfold must_emit_phase, xret. frame. Qed.
Lemma same_deadline_due b : same pi (deadline_due P b).
Proof. unfold deadline_due. frame. Qed.
Lemma same_fail_fatal : same pi (fail_fatal P).
Proof. unfold fail_fatal. frame. Qed.
Lemma same_on_report A (m : Eff (ccb_dma.State * W) A) : same pi (on_dma_report m).
Proof using Core0.
  intros s w. unfold on_dma_report. destruct (m _) as [a [d w']]. cbn [fst snd].
  etransitivity; [|apply (core_report (λ _, default ccb_dma.zero_report (ccb_dma.report d)) (vars s))].
  done.
Qed.
#[local] Hint Resolve same_must_emit same_deadline_due same_fail_fatal same_on_report same_periodic
  same_pressure same_capture_snapshot : frame.
Lemma same_check_queue : same pi (check_queue P c).
Proof. unfold check_queue, go_out, stop_, xret. frame. Qed.
Lemma same_log_stop t : same pi (log_stop P t).
Proof. unfold log_stop. frame. Qed.
Lemma same_mark_harvesting : same pi (mark_harvesting P).
Proof. unfold mark_harvesting, xret. frame. Qed.
Lemma same_harvest_error : same pi (harvest_error P c).
Proof. unfold harvest_error, go_out, stop_. frame. Qed.
Lemma same_first_expired : same pi (first_dma_expired P c).
Proof. unfold first_dma_expired, go_out, stop_. frame. Qed.
Lemma same_observe_idle t n : same pi (observe_idle P c t n).
Proof. unfold observe_idle, xret. frame. Qed.
Lemma same_restart n : same pi (restart_stable_window P n).
Proof. unfold restart_stable_window. frame. Qed.
Lemma same_batch_failed i f : same pi (batch_failed P c i f).
Proof. unfold batch_failed, go_out, stop_, xret. frame. Qed.
Lemma same_push its : same pi (push_pending P c its).
Proof. unfold push_pending, go_out, stop_, xret. frame. Qed.
Lemma same_scans n i st : same pi (drain_scans P c n i st).
Proof. revert st. induction n as [|n IH]; intros st; cbn [drain_scans]; frame. Qed.
Lemma same_finish_queue : same pi (finish_queue P).
Proof. unfold finish_queue. frame. Qed.
End Helpers.
#[export] Hint Resolve same_locked same_locked_ same_queue same_clock same_usleep same_stop_flag
  same_dma same_error same_failure same_ring same_emit same_phase same_emit_fatal same_epoch
  same_drain_requested same_gate same_join same_snapshot_o1 same_snapshot_all same_observe_ring
  same_periodic same_final_perf same_pressure same_capture_snapshot same_note_desc same_received
  same_bad_item same_out_with same_must_emit same_deadline_due same_fail_fatal same_on_report same_scans same_finish_queue same_final_perf same_check_queue same_log_stop same_mark_harvesting same_harvest_error same_first_expired same_observe_idle same_restart same_batch_failed same_push : frame.

(** What is left for a projection that some steps change. *)
#[export] Hint Extern 4 (same _ (mod_flags _)) => (apply same_mod; intros; reflexivity) : frame.
#[export] Hint Extern 4 (same _ (mod_stop _)) => (apply same_mod; intros; reflexivity) : frame.
#[export] Hint Extern 4 (same _ (mod_vars _)) => (apply same_mod; intros; reflexivity) : frame.
#[export] Hint Extern 4 (same _ (mod_counters _)) => (apply same_mod; intros; reflexivity) : frame.

(** The flags that the claims are about: most steps keep them. *)
Definition kept (f : Flags → Flags) : Prop := ∀ x,
  manual_stop_seen (f x) = manual_stop_seen x ∧ auto_idle_done (f x) = auto_idle_done x ∧
  dma_quiesced (f x) = dma_quiesced x ∧ dma_started (f x) = dma_started x ∧
  write_queue_ready (f x) = write_queue_ready x.

(** A projection that the progress of a stop does not change; one that the end
    of the engine does not change either; one that stop requests do not change;
    one that nothing but the counting of bytes changes. *)
Class Phase {X} (pi : Locals → X) : Prop := {
  phase_core :: Core pi;
  phase_flags : ∀ f l, kept f → pi (l <| flags ::= f |>) = pi l;
  phase_stop : ∀ f l, (∀ s, storage_stop.quiesce (f s) = storage_stop.quiesce s) →
    pi (l <| stop_state ::= f |>) = pi l;
  phase_finals : ∀ f l, pi (l <| finals ::= f |>) = pi l }.
Class Steady {X} (pi : Locals → X) : Prop := {
  steady_phase :: Phase pi;
  steady_stop : ∀ f l, pi (l <| stop_state ::= f |>) = pi l;
  steady_quiesced : ∀ b l, pi (l <| flags ::= λ f, f <| dma_quiesced := b |> |>) = pi l;
  steady_result : ∀ f l, pi (l <| dma_stop_result ::= f |>) = pi l }.
Class Asks {X} (pi : Locals → X) : Prop := {
  asks_phase :: Phase pi;
  asks_manual : ∀ b l, pi (l <| flags ::= λ f, f <| manual_stop_seen := b |> |>) = pi l;
  asks_auto : ∀ b l, pi (l <| flags ::= λ f, f <| auto_idle_done := b |> |>) = pi l }.
Class Data {X} (pi : Locals → X) : Prop := {
  data_steady :: Steady pi; data_asks :: Asks pi;
  data_flags : ∀ f l, pi (l <| flags ::= f |>) = pi l }.
#[export] Hint Resolve phase_core steady_phase asks_phase data_steady data_asks : frame.
#[export] Instance data_counters : Data counters.
Proof. by repeat split. Qed.
#[export] Hint Resolve data_counters : frame.

Lemma quiesce_advance n s :
  storage_stop.quiesce (storage_stop.storage_stop_state_advance s n).2 = storage_stop.quiesce s.
Proof. unfold storage_stop.storage_stop_state_advance. by case_match. Qed.
Lemma quiesce_latch d s :
  storage_stop.quiesce (storage_stop.storage_stop_state_latch s d).2 = storage_stop.quiesce s.
Proof. unfold storage_stop.storage_stop_state_latch. by case_match. Qed.

Section Phases.
Context {W : Type} (P : Producer W) (c : Settings) {X : Type} (pi : Locals → X) `{!Phase pi}.
#[local] Set Default Proof Using "Type*".

Lemma same_kept f : kept f → same (W := W) pi (mod_flags f).
Proof using Phase0. intros H. apply same_mod. intros l. by apply phase_flags. Qed.
Lemma same_stop_kept f :
  (∀ s, storage_stop.quiesce (f s) = storage_stop.quiesce s) → same (W := W) pi (mod_stop f).
Proof using Phase0. intros H. apply same_mod. intros l. by apply phase_stop. Qed.
#[local] Hint Extern 3 (same _ (mod_vars _)) => (apply same_mod; intros ?; apply phase_finals) : frame.
#[local] Hint Extern 3 (same _ (mod_flags _)) => (apply same_kept; [..|intros ?; repeat split; reflexivity]; apply _) : frame.
#[local] Hint Extern 3 (same _ (mod_stop _)) => (apply same_stop_kept; [..|intros ?; reflexivity]; apply _) : frame.
Lemma same_advance n : same (W := W) pi (advance n).
Proof using Phase0. apply same_stop_kept, quiesce_advance. Qed.
Lemma same_latch f : same (W := W) pi (mod_stop (λ s, (storage_stop.storage_stop_state_latch s f).2)).
Proof using Phase0. apply same_stop_kept, quiesce_latch. Qed.
Lemma same_set_deadline t : same pi (set_deadline P c t).
Proof. unfold set_deadline. frame. Qed.
#[local] Hint Resolve same_advance same_latch same_set_deadline : frame.
Lemma same_await_stable : same pi (await_stable P c).
Proof. unfold await_stable, go_out, stop_. frame. Qed.
Lemma same_take_snapshot : same pi (take_snapshot P).
Proof. unfold take_snapshot. frame. Qed.
Lemma same_read_totals : same (W := W) pi read_queue_totals.
Proof using Phase0. unfold read_queue_totals. frame. Qed.
Lemma same_commit plan : same pi (commit_local P c plan).
Proof. unfold commit_local, go_out, lift, stop_, xret. frame. Qed.
Lemma same_dma_finalize fuel : same pi (dma_finalize P fuel).
Proof. unfold dma_finalize, stop_, xret. frame. Qed.
Lemma same_abort_writer inner : same pi (abort_writer P c inner).
Proof. unfold abort_writer, abort_queue, lift, xret. frame. Qed.
#[local] Hint Resolve same_abort_writer : frame.
Lemma same_drain_writer inner : same pi (drain_writer P c inner).
Proof. unfold drain_writer, go_out, stop_. frame. Qed.
End Phases.
#[export] Hint Extern 3 (same _ (mod_flags _)) => (apply same_kept; [..|intros ?; repeat split; reflexivity]; apply _) : frame.
#[export] Hint Extern 3 (same _ (mod_stop _)) => (apply same_stop_kept; [..|intros ?; reflexivity]; apply _) : frame.
#[export] Hint Extern 3 (same _ (mod_vars _)) => (apply same_mod; intros ?; eapply phase_finals; apply _) : frame.
#[export] Hint Resolve same_advance same_latch same_set_deadline same_await_stable
  same_take_snapshot same_read_totals same_commit same_dma_finalize same_abort_writer same_drain_writer : frame.

Section Steady.
Context {W : Type} (P : Producer W) (c : Settings) {X : Type} (pi : Locals → X) `{!Steady pi}.
#[local] Set Default Proof Using "Type*".

Lemma same_stop f : same (W := W) pi (mod_stop f).
Proof using Steady0. apply same_mod, steady_stop. Qed.
Lemma same_result f : same (W := W) pi (mod_vars (λ l, l <| dma_stop_result ::= f |>)).
Proof using Steady0. apply same_mod, steady_result. Qed.
Lemma same_quiesced b : same (W := W) pi (mod_flags (λ f, f <| dma_quiesced := b |>)).
Proof using Steady0. apply same_mod, steady_quiesced. Qed.
#[local] Hint Resolve same_stop same_result same_quiesced : frame.
Lemma same_quiesce_epoch fuel : same pi (storage_dma_quiesce_epoch P fuel).
Proof.
  unfold storage_dma_quiesce_epoch, storage_stop.storage_dma_quiesce_once,
    storage_dma_quiesce_invoke, stop_, xret. frame.
Qed.
#[local] Hint Resolve same_quiesce_epoch : frame.
Lemma same_quiesce_engine fuel m : same pi m → same pi (quiesce_engine P c fuel m).
Proof. intros Hm. unfold quiesce_engine, go_out, stop_, lift, xret, note_quiesced. frame. Qed.
#[local] Hint Resolve same_quiesce_engine : frame.
Lemma same_reach_boundary fuel t : same pi (reach_boundary P c fuel t).
Proof. unfold reach_boundary, stop_, xret. frame. Qed.
Lemma same_stop_dry fuel : same pi (stop_dry P c fuel).
Proof. unfold stop_dry, lift, xret. frame. Qed.
#[local] Hint Resolve same_reach_boundary same_stop_dry : frame.
Lemma same_stop_sequence fuel : same pi (stop_sequence P c fuel).
Proof. unfold stop_sequence, stop_, xret. frame. Qed.
Lemma same_finalize_engine inner : same pi (finalize_engine P inner).
Proof.
  unfold finalize_engine, lift, xret. frame. apply same_mod. intros l. case_match; [|done].
  by apply steady_result.
Qed.
End Steady.
#[export] Hint Resolve same_stop same_result same_quiesced same_quiesce_epoch same_quiesce_engine
  same_stop_sequence same_finalize_engine : frame.

Section Asks.
Context {W : Type} (P : Producer W) (c : Settings) {X : Type} (pi : Locals → X) `{!Asks pi}.
#[local] Set Default Proof Using "Type*".

Lemma same_manual b : same (W := W) pi (mod_flags (λ f, f <| manual_stop_seen := b |>)).
Proof using Asks0. apply same_mod, asks_manual. Qed.
Lemma same_auto b : same (W := W) pi (mod_flags (λ f, f <| auto_idle_done := b |>)).
Proof using Asks0. apply same_mod, asks_auto. Qed.
#[local] Hint Resolve same_manual same_auto : frame.
Lemma same_begin_turn : same pi (begin_turn P c).
Proof. unfold begin_turn, stop_, xret. frame. Qed.
Lemma same_latch_stop t : same pi (latch_stop P c t).
Proof. unfold latch_stop, xret. frame. Qed.
Lemma same_idle_turn t n o : same pi (idle_turn P c t n o).
Proof. unfold idle_turn, auto_idle, go_out, stop_, xret. frame. Qed.
#[local] Hint Resolve same_idle_turn : frame.
Lemma same_nothing t rc n : same pi (nothing_harvested P c t rc n).
Proof. unfold nothing_harvested, go_out, stop_. frame. Qed.
End Asks.
#[export] Hint Resolve same_begin_turn same_latch_stop same_nothing : frame.

Section Data.
Context {W : Type} (P : Producer W) (c : Settings) {X : Type} (pi : Locals → X) `{!Data pi}.
#[local] Set Default Proof Using "Type*".

Lemma same_flags f : same (W := W) pi (mod_flags f).
Proof using Data0. apply same_mod, data_flags. Qed.
#[local] Hint Resolve same_flags : frame.
Lemma same_start fuel : same pi (start_capture P c fuel).
Proof.
  unfold start_capture, pass_gate, wait_writer_ready, arm_producer, announce_running, queue_error,
    go_out, stop_, xret. frame.
Qed.
Lemma same_close_queue plan : same pi (close_queue P plan).
Proof. unfold close_queue, go_out, stop_, xret. frame. Qed.
End Data.
#[export] Hint Resolve same_flags same_start same_close_queue : frame.

(** A projection that the descriptors of a batch do not change. *)
Class Items {X} (pi : Locals → X) : Prop := {
  items_core :: Core pi;
  items_counters : ∀ f l, pi (l <| counters ::= f |>) = pi l;
  items_tail : ∀ b l, pi (l <| flags ::= λ f, f <| stop_tail_seen := b |> |>) = pi l }.
#[export] Hint Resolve items_core : frame.

Section Items.
Context {W : Type} (P : Producer W) (c : Settings) {X : Type} (pi : Locals → X) `{!Items pi}.
#[local] Set Default Proof Using "Type*".

Lemma same_count f : same (W := W) pi (mod_counters f).
Proof using Items0. apply same_mod, items_counters. Qed.
Lemma same_tail b : same (W := W) pi (mod_flags (λ f, f <| stop_tail_seen := b |>)).
Proof using Items0. apply same_mod, items_tail. Qed.
#[local] Hint Resolve same_count same_tail : frame.
Lemma same_late_item it b : same pi (late_item P it b).
Proof. unfold late_item. frame. Qed.
Lemma same_defer_tail d it n : same pi (defer_tail P d it n).
Proof. unfold defer_tail. frame. Qed.
#[local] Hint Resolve same_late_item same_defer_tail : frame.
Lemma same_harvest_item off lba it b : same pi (harvest_item P c off lba it b).
Proof. unfold harvest_item, take_item. frame. Qed.
Lemma same_stopped_item off lba it b : same pi (stopped_item P c off lba it b).
Proof. unfold stopped_item, skip_item. frame. Qed.
#[local] Hint Resolve same_harvest_item same_stopped_item : frame.
Lemma same_harvest_items off lba its : ∀ b, same pi (harvest_items P c off lba its b).
Proof. induction its as [|it its IH]; intros b; cbn [harvest_items]; frame. Qed.
Lemma same_stopped_items off lba its : ∀ b, same pi (stopped_items P c off lba its b).
Proof. induction its as [|it its IH]; intros b; cbn [stopped_items]; frame. Qed.
#[local] Hint Resolve same_harvest_items same_stopped_items : frame.
Lemma same_account_batch off lba b : same (W := W) pi (account_batch off lba b).
Proof using Items0. unfold account_batch, lift, xret. frame. Qed.
#[local] Hint Resolve same_account_batch : frame.
Lemma same_harvested_turn fatal its : same pi (harvested_turn P c fatal its).
Proof. unfold harvested_turn. frame. Qed.
Lemma same_save_batch its : same pi (save_batch P c its).
Proof. unfold save_batch. frame. Qed.
End Items.
#[export] Hint Resolve same_count same_tail same_harvested_turn same_save_batch : frame.

(** The clean-up. *)
Section CleanUp.
Context {W : Type} (P : Producer W) (c : Settings) {X : Type} (pi : Locals → X) `{!Phase pi}.
#[local] Set Default Proof Using "Type*".

Lemma same_enter_stop : same pi (enter_stop P c).
Proof. unfold enter_stop. frame. Qed.
Lemma same_check_tail_late : same pi (check_tail_late P).
Proof. unfold check_tail_late. frame. Qed.
Lemma same_finish_late : same pi (finish_late P).
Proof. unfold finish_late. frame. Qed.
Lemma same_report_fatal : same pi (report_fatal P c).
Proof. unfold report_fatal. frame. Qed.
Lemma same_advance_if a b : same (W := W) pi (advance_if a b).
Proof using Phase0. unfold advance_if. frame. Qed.
Lemma same_search_over h : same pi (search_over P h).
Proof. unfold search_over. frame. Qed.
Lemma same_end_writer inner : same pi (end_writer P c inner).
Proof. unfold end_writer, abort_writer, abort_queue, lift, xret. frame. Qed.
Context `{!Items pi}.
#[local] Hint Resolve same_enter_stop same_check_tail_late same_finish_late same_advance_if
  same_search_over same_end_writer : frame.
Lemma same_harvest_stopped fuel : ∀ h, same pi (harvest_stopped P c fuel h).
Proof. induction fuel as [|fuel IH]; intros h; cbn [harvest_stopped]; unfold lift, stop_, xret; frame. Qed.
End CleanUp.
#[export] Hint Resolve same_enter_stop same_check_tail_late same_finish_late same_report_fatal
  same_advance_if same_end_writer same_harvest_stopped : frame.

Section Stopping.
Context {W : Type} (P : Producer W) (c : Settings) {X : Type} (pi : Locals → X).
Context `{!Steady pi, !Items pi}.
#[local] Set Default Proof Using "Type*".

Lemma same_quiesce_late inner : same pi (quiesce_late P inner).
Proof. unfold quiesce_late, note_quiesced, lift, xret. frame. Qed.
#[local] Hint Resolve same_quiesce_late : frame.
Lemma same_stop_engine inner : same pi (stop_engine P c inner).
Proof. unfold stop_engine, lift, xret. frame. Qed.
Lemma same_finalize_late inner : same pi (finalize_late P inner).
Proof. unfold finalize_late, lift, xret. frame. Qed.
End Stopping.
#[export] Hint Resolve same_quiesce_late same_stop_engine same_finalize_late : frame.

(** ** Triples *)
Definition post {W A} (Pre : Locals → Prop) (m : M (W := W) A) (Q : A → Locals → Prop) : Prop :=
  ∀ s w, Pre (vars s) → Q (m (s, w)).1 (vars (m (s, w)).2.1).

(** The step goes on, in the loop or after it. *)
Definition good {A} (I : Locals → Prop) (r : outcome + A) (l : Locals) : Prop :=
  match r with inl GoOut | inl Stuck => True | _ => I l end.
Definition inv {W A} (I : Locals → Prop) (m : M (W := W) (outcome + A)) : Prop := post I m (good I).

(** The step goes on, or ends the capture: it does not go back to the loop. *)
Definition fine {A} (I : Locals → Prop) (r : outcome + A) (l : Locals) : Prop :=
  match r with inl GoOut | inl Stuck => True | inl _ => False | inr _ => I l end.

Lemma good_mono {A} (I J : Locals → Prop) (r : outcome + A) l :
  (I l → J l) → good I r l → good J r l.
Proof. unfold good. repeat case_match; auto. Qed.

Section Triples.
Context {W : Type}.
Implicit Types A B : Type.

Lemma post_ret A (a : A) (Q : A → Locals → Prop) : post (W := W) (Q a) (eret a) Q.
Proof. by intros s w H. Qed.
Lemma post_bind A B Pre R Q (m : M A) (k : A → M (W := W) B) :
  post Pre m R → (∀ a, post (R a) (k a) Q) → post Pre (ebind m k) Q.
Proof.
  intros Hm Hk s w H. unfold ebind. specialize (Hm s w H).
  destruct (m (s, w)) as [a [s' w']]. cbn [fst snd] in *. exact (Hk a s' w' Hm).
Qed.
Lemma post_weaken A (Pre Pre' : Locals → Prop) (Q Q' : A → Locals → Prop) (m : M (W := W) A) :
  post Pre' m Q' → (∀ l, Pre l → Pre' l) → (∀ a l, Q' a l → Q a l) → post Pre m Q.
Proof. intros H Hp Hq s w Hs. by apply Hq, H, Hp. Qed.
Lemma post_get (Pre : Locals → Prop) : post (W := W) Pre get (λ l l', l' = l ∧ Pre l).
Proof. by intros s w H. Qed.
Lemma post_mod (f : Locals → Locals) (Q : Locals → Prop) :
  post (W := W) (λ l, Q (f l)) (mod_vars f) (λ _, Q).
Proof. by intros s w H. Qed.
(** What depends on a part of the locals is kept with it. *)
Lemma post_same A X (pi : Locals → X) (Pre : X → Prop) (m : M (W := W) A) :
  same pi m → post (λ l, Pre (pi l)) m (λ _ l, Pre (pi l)).
Proof. intros H s w Hs. by rewrite H. Qed.
Lemma post_bind_same A B X (pi : Locals → X) (Pre : X → Prop) (m : M A) (k : A → M (W := W) B) Q :
  same pi m → (∀ a, post (λ l, Pre (pi l)) (k a) Q) → post (λ l, Pre (pi l)) (ebind m k) Q.
Proof. intros Hm Hk. apply (post_bind _ _ _ (λ _ l, Pre (pi l))); [by apply post_same|done]. Qed.
Lemma post_if A Pre (b : bool) (m1 m2 : M (W := W) A) Q :
  (b = true → post Pre m1 Q) → (b = false → post Pre m2 Q) → post Pre (if b then m1 else m2) Q.
Proof. destruct b; auto. Qed.
Lemma post_get_bind A Pre (k : Locals → M (W := W) A) Q :
  (∀ l, Pre l → post (λ l', l' = l) (k l) Q) → post Pre (ebind get k) Q.
Proof. intros H s w Hs. exact (H (vars s) Hs s w eq_refl). Qed.

Lemma post_fix A X (pi : Locals → X) (Pre : X → Prop) (m : M (W := W) A) Q :
  (∀ x, Pre x → post (λ l, pi l = x) m Q) → post (λ l, Pre (pi l)) m Q.
Proof. intros H s w Hs. by apply (H _ Hs). Qed.
Lemma post_and A Pre (m : M (W := W) A) Q1 Q2 :
  post Pre m Q1 → post Pre m Q2 → post Pre m (λ a l, Q1 a l ∧ Q2 a l).
Proof. intros H1 H2 s w Hs. by split; [apply H1|apply H2]. Qed.
Lemma post_pre A (Pre Pre' : Locals → Prop) (m : M (W := W) A) Q :
  post Pre' m Q → (∀ l, Pre l → Pre' l) → post Pre m Q.
Proof. intros H Hp s w Hs. by apply H, Hp. Qed.

Lemma inv_bind A B I (m : M A) (k : A → M (W := W) (outcome + B)) :
  post I m (λ _, I) → (∀ a, inv I (k a)) → inv I (ebind m k).
Proof. intros Hm Hk. by apply (post_bind _ _ _ (λ _, I)). Qed.
Lemma post_xbind_to A B Pre I J (m : M (outcome + A)) (k : A → M (W := W) (outcome + B)) :
  post Pre m (good I) → (∀ l, I l → J l) → (∀ a, post I (k a) (good J)) →
  post Pre (xbind m k) (good J).
Proof.
  intros Hm HJ Hk. apply (post_bind _ _ _ (good I)); [done|].
  intros [o|a]; [|apply Hk]. intros s w H. destruct o; try done; by apply HJ.
Qed.
Lemma post_xbind A B Pre I (m : M (outcome + A)) (k : A → M (W := W) (outcome + B)) :
  post Pre m (good I) → (∀ a, inv I (k a)) → post Pre (xbind m k) (good I).
Proof. intros Hm Hk. by apply (post_xbind_to _ _ _ I). Qed.
Lemma inv_xbind A B I (m : M (outcome + A)) (k : A → M (W := W) (outcome + B)) :
  inv I m → (∀ a, inv I (k a)) → inv I (xbind m k).
Proof. apply post_xbind. Qed.
Lemma inv_stop A I o : inv (W := W) (A := A) I (stop_ o).
Proof. intros s w H. by destruct o. Qed.
Lemma inv_ret A I a : inv (W := W) (A := A) I (xret a).
Proof. by intros s w H. Qed.
Lemma inv_lift A I (m : M (W := W) A) : post I m (λ _, I) → inv I (lift m).
Proof. intros H. apply inv_bind; [done|]. intros a. apply inv_ret. Qed.
Lemma post_out A code r Pre I : post (W := W) Pre (out_with (A := A) code r) (good I).
Proof. by intros s w H. Qed.
Lemma post_fine_bind A B Pre I J (m : M (W := W) (outcome + A)) (k : A → M (outcome + B)) :
  post Pre m (fine I) → (∀ a, post I (k a) (good J)) → post Pre (xbind m k) (good J).
Proof.
  intros Hm Hk. eapply post_bind; [exact Hm|]. intros [o|a]; [|apply Hk].
  intros s w Ho. by destruct o.
Qed.
Lemma post_fine_out A code r Pre I : post (W := W) Pre (out_with (A := A) code r) (fine I).
Proof. by intros s w H. Qed.
Lemma post_true A Pre (m : M (W := W) A) : post Pre m (λ _ _, True).
Proof. done. Qed.
(** A step that keeps what the invariant is about. *)
Lemma inv_same A X (pi : Locals → X) (Pre : X → Prop) (m : M (W := W) (outcome + A)) :
  same pi m → inv (λ l, Pre (pi l)) m.
Proof. intros H s w Hs. unfold good. rewrite H. by repeat case_match. Qed.
End Triples.

End producer_logic.
