(* ===== verification/Buffers.v ===== *)
(** * Where the buffers of a channel are

    The base address of the channel's memory and the size of a buffer are set
    before a capture and never changed while it runs: a frame judgement for
    steps on any state, and that the writer thread, the operations of the DMA
    ring it uses and the sections of the queue keep both. *)
From S2P Require Import Prelude StorageError SlotTable Pipeline Worker Writer Stop CStdlib Bytes Config Ipc Diag DmaRing CrossSlot CcbTypes WriteQueue WriterThread CmdConfig ProducerStats ProducerBatch ProducerRun ProducerEnd ProducerExample.

Module buffers.
Import storage_write_queue storage_writer_thread.

(** The address of slot 0 and the bytes of a slot. *)
Definition geometry (r : ccb_dma.Rt) : Z * Z := (ccb_dma.ddr_hw_base r, ccb_dma.dma_desc_bytes r).
Definition placed (q : StorageWriteQueue) : Z * Z := geometry (dma (rt q)).
Definition system_placed (s : Sys) : Z * Z := placed (queue s).

(** [keeps pi m]: the part [pi] of the state is the same after [m]. *)
Definition keeps {S W X A} (pi : S → X) (m : Eff (S * W) A) : Prop :=
  ∀ s w, pi (m (s, w)).2.1 = pi s.

Create HintDb keeps discriminated.
Section Frame.
Context {S W X : Type} (pi : S → X).
Implicit Types A B : Type.

Lemma held_ret A (a : A) : keeps (W := W) pi (eret a).
Proof. done. Qed.
Lemma held_bind A B (m : Eff (S * W) A) (k : A → Eff (S * W) B) :
  keeps pi m → (∀ a, keeps pi (k a)) → keeps pi (ebind m k).
Proof.
  intros Hm Hk s w. unfold ebind. specialize (Hm s w). destruct (m (s, w)) as [a [s' w']].
  cbn [fst snd] in *. rewrite <- Hm. apply Hk.
Qed.
Lemma held_get : keeps (W := W) pi sget.
Proof. done. Qed.
Lemma held_sio A (m : Eff W A) : keeps pi (sio m).
Proof. intros s w. unfold sio. by destruct (m w). Qed.
Lemma held_smod (f : S → S) : (∀ s, pi (f s) = pi s) → keeps (W := W) pi (smod f).
Proof. intros H s w. apply H. Qed.
End Frame.
#[export] Hint Resolve held_ret held_get held_sio : keeps.

(** Walks through a definition; what it cannot decide is left. *)
Ltac keeps := intros; repeat first
  [ solve [eauto 5 with keeps] | apply held_bind; [|intros ?] | case_match ].
(** A change of other fields. *)
Ltac same_place := intros; first [reflexivity | case_match; same_place].
#[export] Hint Extern 4 (keeps _ (smod _)) => (apply held_smod; solve [same_place]) : keeps.

(** ** The sections of the queue *)
Lemma fail_locked_placed q : placed (storage_queue_fail_locked q) = placed q.
Proof. unfold storage_queue_fail_locked. by case_match. Qed.
Lemma transition_placed sl a b q : placed (storage_local_slot_transition_locked sl a b q).2 = placed q.
Proof.
  unfold storage_local_slot_transition_locked. destruct (storage_queue.storage_slot_transition _ _ _ _) as [rc t].
  by case_match.
Qed.
Lemma mark_failed_placed sl q : placed (storage_mark_harvest_slot_failed sl q) = placed q.
Proof.
  unfold storage_mark_harvest_slot_failed. case_match; [done|]. case_match; [|done].
  apply (transition_placed sl).
Qed.
Lemma release_placed sl q : placed (storage_release_harvested_slot sl q).2 = placed q.
Proof. unfold storage_release_harvested_slot. case_match; [done|]. apply transition_placed. Qed.
Lemma deferred_placed code r q : placed (storage_record_deferred_stop_error code r q) = placed q.
Proof. unfold storage_record_deferred_stop_error. by repeat case_match. Qed.
Lemma reason_placed r q : placed (set_error_reason r q) = placed q.
Proof. unfold set_error_reason. by destruct (String.eqb r ""), (String.eqb (error_reason q) ""). Qed.
Lemma writer_ready_placed b q : placed (storage_queue_set_writer_ready b q) = placed q.
Proof. unfold storage_queue_set_writer_ready. case_match; [done|apply fail_locked_placed]. Qed.
Lemma padding_placed it q :
  placed (let '(rc, r) := storage_zero_tail_padding it (rt q) in (rc, q <| rt := r |>)).2 = placed q.
Proof.
  unfold storage_zero_tail_padding. destruct (_ <? _); [done|]. by destruct (_ || _).
Qed.

(** ** The operations of the ring that a capture runs beside its harvest *)
Lemma requeue_geometry {W} (hw : ccb_dma.DmaHw W) sl :
  keeps (λ s, geometry (ccb_dma.rt s)) (ccb_dma.dma_requeue_one hw sl).
Proof.
  unfold ccb_dma.dma_requeue_one, ccb_dma.get_rt, ccb_dma.mod_rt, ccb_dma.wr, ccb_dma.rd. keeps.
Qed.

(** ** The writer thread *)
Section Writer.
Context {W : Type} (out : Outside W) (others : Eff (Sys * W) unit).
Hypothesis others_keep : keeps system_placed others.
#[local] Hint Resolve others_keep : keeps.

Lemma lock_keeps : keeps system_placed (lock others).
Proof using others_keep. exact others_keep. Qed.
Lemma mod_q_keeps f : (∀ q, placed (f q) = placed q) → keeps system_placed (mod_q (W := W) f).
Proof using Type. intros H. apply held_smod. intros s. apply H. Qed.
Lemma run_q_keeps A (f : StorageWriteQueue → A * StorageWriteQueue) :
  (∀ q, placed (f q).2 = placed q) → keeps system_placed (run_q (W := W) f).
Proof using Type. intros H s w. unfold run_q. specialize (H (queue s)). by destruct (f (queue s)). Qed.
Lemma on_dma_keeps A (m : Eff (ccb_dma.State * W) A) :
  keeps (λ s, geometry (ccb_dma.rt s)) m → keeps system_placed (on_dma m).
Proof using Type.
  intros H s w. unfold on_dma. specialize (H (ccb_dma.mkState (dma (rt (queue s))) None) w).
  by destruct (m _) as [a [d w']].
Qed.
#[local] Hint Resolve lock_keeps requeue_geometry on_dma_keeps : keeps.
#[local] Hint Extern 3 (keeps _ (mod_q _)) => (apply mod_q_keeps; first
  [ apply fail_locked_placed | apply reason_placed | apply writer_ready_placed | solve [same_place] ]) : keeps.
#[local] Hint Extern 3 (keeps _ (run_q _)) => (apply run_q_keeps; first
  [ intros ?; apply transition_placed | intros ?; apply padding_placed ]) : keeps.
#[local] Hint Extern 3 (keeps _ (mod_timing _)) => (apply mod_q_keeps; reflexivity) : keeps.
#[local] Hint Extern 3 (keeps _ get_q) => (unfold get_q; keeps) : keeps.
#[local] Hint Extern 3 (keeps _ (now _)) => (apply held_sio) : keeps.

Lemma stop_keeps : keeps system_placed (storage_write_request_stop (W := W)).
Proof using Type. unfold storage_write_request_stop. keeps. Qed.
Lemma ring_event_keeps i a b f : keeps system_placed (storage_ring_event out i a b f).
Proof using Type. unfold storage_ring_event. keeps. Qed.
Lemma writer_reason_keeps r : keeps system_placed (storage_set_writer_error_reason others r).
Proof using others_keep. unfold storage_set_writer_error_reason. keeps. Qed.
#[local] Hint Resolve stop_keeps ring_event_keeps writer_reason_keeps : keeps.
Lemma fail_section_placed b q : placed (fail_section b q) = placed q.
Proof using Type. unfold fail_section. rewrite fail_locked_placed. by case_match. Qed.
Lemma fail_fatal_keeps : keeps system_placed (storage_fail_fatal out others).
Proof using others_keep.
  unfold storage_fail_fatal. keeps. apply mod_q_keeps. intros q. apply fail_section_placed.
Qed.
#[local] Hint Resolve fail_fatal_keeps : keeps.
Lemma requeue_section_keeps it : keeps system_placed (requeue_section out it).
Proof using Type.
  unfold requeue_section. keeps. apply mod_q_keeps. intros q. by rewrite reason_placed, fail_locked_placed.
Qed.
#[local] Hint Resolve requeue_section_keeps : keeps.
Lemma complete_slot_keeps it : keeps system_placed (storage_complete_slot out others it).
Proof using others_keep. unfold storage_complete_slot, complete_section. keeps. Qed.
Lemma pop_section_keeps t : keeps system_placed (pop_section out t).
Proof using Type. unfold pop_section. keeps. Qed.
#[local] Hint Resolve complete_slot_keeps pop_section_keeps : keeps.
Lemma pop_wait_keeps fuel b t : keeps system_placed (pop_wait out others fuel b t).
Proof using others_keep. induction fuel as [|fuel IH]; cbn [pop_wait]; keeps. Qed.
Lemma pop_keeps fuel b : keeps system_placed (storage_queue_pop out others fuel b).
Proof using others_keep. unfold storage_queue_pop. pose proof pop_wait_keeps. keeps. Qed.
Lemma flush_keeps it : keeps system_placed (flush_slot_to_nvme out it).
Proof using Type. unfold flush_slot_to_nvme, slot_writable. keeps. Qed.
#[local] Hint Resolve pop_keeps flush_keeps : keeps.
Lemma write_popped_keeps it : keeps system_placed (write_popped out others it).
Proof using others_keep. unfold write_popped, ready_count, event_if_grown. keeps. Qed.
Lemma gap_keeps a b : keeps system_placed (storage_record_writer_schedule_gap out a b).
Proof using Type. unfold storage_record_writer_schedule_gap. keeps. Qed.
#[local] Hint Resolve write_popped_keeps gap_keeps : keeps.
Lemma writer_loop_keeps fuel t : keeps system_placed (writer_loop out others fuel t).
Proof using others_keep.
  revert t. induction fuel as [|fuel IH]; intros t; cbn [writer_loop]; unfold abort_seen; keeps.
Qed.
Lemma set_writer_ready_keeps b : keeps system_placed (set_writer_ready others b).
Proof using others_keep. unfold set_writer_ready. keeps. Qed.
Lemma wait_run_keeps fuel : keeps system_placed (storage_queue_wait_run others fuel).
Proof using others_keep. induction fuel as [|fuel IH]; cbn [storage_queue_wait_run]; keeps. Qed.
#[local] Hint Resolve writer_loop_keeps set_writer_ready_keeps wait_run_keeps : keeps.

(** The writer thread, from its start to its end, leaves the buffers where they are. *)
Theorem writer_thread_keeps_buffers fuel :
  keeps system_placed (storage_nvme_writer_thread out others fuel).
Proof using others_keep. unfold storage_nvme_writer_thread, setup_failed. keeps. Qed.
End Writer.

(** The other threads of the example. *)
Lemma example_others_keep d : keeps system_placed (producer_example.example_others d).
Proof.
  assert (Hr : keeps (W := producer_example.World) system_placed (eret tt)) by apply held_ret.
  unfold producer_example.example_others, get_q.
  pose proof (set_writer_ready_keeps (eret tt) Hr true).
  pose proof (writer_loop_keeps (producer_example.example_outside d) (eret tt) Hr 3 0).
  pose proof (stop_keeps (W := producer_example.World)). keeps.
Qed.

(** ** The producer *)
Section Producer.
Import ccb_capture ccb_capture_batch.
Context {W : Type} (P : Producer W).
Definition state_placed (s : State) : Z * Z := system_placed (sys s).
Definition others_keep_buffers : Prop := keeps system_placed (others P).
Hypothesis Ho : others_keep_buffers.

Lemma mod_vars_keeps f : keeps state_placed (mod_vars (W := W) f).
Proof using Type. unfold mod_vars. keeps. Qed.
Lemma on_sys_keeps A (m : Eff (Sys * W) A) : keeps system_placed m → keeps state_placed (on_sys m).
Proof using Type.
  intros H s w. unfold on_sys. specialize (H (sys s) w). by destruct (m (sys s, w)) as [a [y w']].
Qed.
Lemma locked_keeps A (f : StorageWriteQueue → A * StorageWriteQueue) :
  (∀ q, placed (f q).2 = placed q) → keeps state_placed (locked P f).
Proof using Ho.
  intros H. apply on_sys_keeps, held_bind; [exact Ho|]. intros _. by apply run_q_keeps.
Qed.
Lemma clock_keeps : keeps state_placed (storage_wall_time_us P).
Proof using Type. apply held_sio. Qed.
Lemma producer_event_keeps i a b f : keeps state_placed (producer_ring_event P i a b f).
Proof using Type.
  unfold producer_ring_event. apply held_bind; [apply clock_keeps|]. intros t.
  apply on_sys_keeps, mod_q_keeps. reflexivity.
Qed.
Lemma locals_keep : keeps state_placed (get (W := W)).
Proof using Type. done. Qed.
Lemma channel_dma_keeps : keeps state_placed (channel_dma (W := W)).
Proof using Type. done. Qed.
End Producer.
#[export] Hint Resolve mod_vars_keeps locked_keeps clock_keeps producer_event_keeps locals_keep channel_dma_keeps : keeps.
End buffers.
