(* ===== verification/ProducerSafe.v ===== *)
(** * The producer of a capture: the file it writes

    The ledger of the producer: the bytes received are the bytes queued and the
    bytes of the tail, the queued bytes are whole sectors, and the slots handed
    to the writer follow each other in the file and on the disk.  They are those
    of the harvested descriptors, at the addresses of the channel's memory; the
    counters of bytes never wrap around. *)
From S2P Require Import Prelude StorageError SlotTable Pipeline Worker Writer Stop CStdlib Bytes Config Ipc Diag DmaRing CrossSlot CcbTypes WriteQueue WriterThread CmdConfig ProducerStats ProducerBatch ProducerRun ProducerEnd ProducerExample ProducerLogic Buffers.

Module producer_safety.
Import storage_stop storage_write_queue ccb_capture ccb_capture_batch ccb_capture_run ccb_capture_end producer_logic producer_example buffers.

#[local] Abbreviation SECTOR := ccb_types.SECTOR_SIZE.

(** Slots that follow each other, from an offset in the file and a sector. *)
Fixpoint laid_out (off lba : Z) (its : list PendingDdrSlot) : Prop :=
  match its with
  | [] => True
  | p :: its => file_offset p = off ∧ storage_write_queue.start_lba p = lba ∧ 0 < bytes p ∧
      bytes p = media_bytes p ∧ bytes p = SECTOR * sectors p ∧
      laid_out (off + bytes p) (lba + sectors p) its
  end.
Definition sum_bytes (its : list PendingDdrSlot) : Z := foldr (λ p n, bytes p + n) 0 its.
Definition sum_sectors (its : list PendingDdrSlot) : Z := foldr (λ p n, sectors p + n) 0 its.

Lemma sum_bytes_batch_app a b : sum_bytes (a ++ b) = sum_bytes a + sum_bytes b.
Proof. induction a; simpl; lia. Qed.
Lemma sum_sectors_app a b : sum_sectors (a ++ b) = sum_sectors a + sum_sectors b.
Proof. induction a; simpl; lia. Qed.
Lemma laid_out_snoc off lba its p :
  laid_out off lba its →
  laid_out (off + sum_bytes its) (lba + sum_sectors its) [p] → laid_out off lba (its ++ [p]).
Proof.
  revert off lba. induction its as [|x its IH]; intros off lba.
  { simpl. by rewrite !Z.add_0_r. }
  intros (H1&H2&H3&H4&H5&H) Hp. simpl. split_and!; try done. apply IH; [done|].
  simpl in Hp. by rewrite <- !Z.add_assoc.
Qed.

(** The ledger of the counters; [lba] is the first sector of the file, [n] the
    bytes of a batch that is being put together. *)
Record ledger (c : Settings) (lba n : Z) (k : Counters) : Prop := {
  lg_queued : 0 <= queued_payload_bytes k; lg_tail : 0 <= tail_unqueued_bytes k; lg_batch : 0 <= n;
  lg_total : dma_harvested_payload_bytes k = queued_payload_bytes k + tail_unqueued_bytes k + n;
  lg_received : dma_received_bytes k = dma_harvested_payload_bytes k;
  lg_max : dma_harvested_payload_bytes k <= UINT64_MAX;
  lg_captured : bytes_captured k = queued_payload_bytes k;
  lg_sectors : bytes_captured k = SECTOR * (next_queue_lba k - lba);
  lg_start : 0 <= lba; lg_lba : next_queue_lba k <= UINT64_MAX;
  lg_bounded : bounded c = true → bytes_captured k + n <= Z.max 0 (requested_size c) }.

(** The batch, as far as it has been put together, continues the file. *)
Record batch_ok (c : Settings) (lba off next : Z) (b : Batch) (k : Counters) : Prop := {
  bo_ledger : ledger c lba (b_bytes b) k;
  bo_off : bytes_captured k = off; bo_next : next_queue_lba k = next;
  bo_bytes : b_bytes b = sum_bytes (b_pending b);
  bo_sectors : b_sectors b = sum_sectors (b_pending b);
  bo_whole : b_bytes b = SECTOR * b_sectors b;
  bo_laid : laid_out off next (b_pending b) }.

Lemma batch_ok_empty c lba k : ledger c lba 0 k → batch_ok c lba (bytes_captured k) (next_queue_lba k) empty_batch k.
Proof. by split. Qed.

(** ** One descriptor *)
Lemma bytes_fit_max o n k :
  bytes_fit o n k = true → dma_harvested_payload_bytes k + n <= UINT64_MAX ∧
  dma_received_bytes k + n <= UINT64_MAX.
Proof. unfold bytes_fit. rewrite !andb_true_iff, !negb_true_iff, !Z.ltb_ge. lia. Qed.

Lemma count_bytes_harvested o n k :
  0 <= n → 0 <= dma_harvested_payload_bytes k →
  dma_received_bytes k = dma_harvested_payload_bytes k → bytes_fit o n k = true →
  dma_harvested_payload_bytes (count_bytes o n k) = dma_harvested_payload_bytes k + n ∧
  dma_received_bytes (count_bytes o n k) = dma_received_bytes k + n.
Proof.
  intros Hn Hk Hr [H1 H2]%bytes_fit_max.
  change (u64 (dma_harvested_payload_bytes k + n) = dma_harvested_payload_bytes k + n ∧
          u64 (dma_received_bytes k + n) = dma_received_bytes k + n).
  split; apply u64_small; cint.
Qed.

(** Bytes that do not go into the file. *)
Lemma batch_ok_tail c lba off next b k o n :
  0 <= n → batch_ok c lba off next b k → bytes_fit o n k = true →
  (UINT64_MAX - n <? tail_unqueued_bytes k) = false →
  batch_ok c lba off next b (count_tail n (count_bytes o n k)).
Proof.
  intros Hn [L H1 H2 H3 H4 H5 H6] Hf Ht. destruct L as [Q T B S R Mx C Se St Lb Bd].
  destruct (count_bytes_harvested o n k) as [Hh Hr]; try lia.
  destruct (bytes_fit_max _ _ _ Hf) as [Hm _].
  assert (Htail : tail_unqueued_bytes (count_tail n (count_bytes o n k)) = tail_unqueued_bytes k + n).
  { change (u64 (tail_unqueued_bytes k + n) = tail_unqueued_bytes k + n). apply u64_small. cint. }
  set (k' := count_tail n (count_bytes o n k)) in *.
  change (dma_harvested_payload_bytes k' = dma_harvested_payload_bytes k + n) in Hh.
  change (dma_received_bytes k' = dma_received_bytes k + n) in Hr.
  change (queued_payload_bytes k) with (queued_payload_bytes k') in *.
  change (bytes_captured k) with (bytes_captured k') in *.
  change (next_queue_lba k) with (next_queue_lba k') in *. clearbody k'.
  split; try done. split; try done; lia.
Qed.

(** Bytes that become the next slot. *)
Lemma batch_ok_next c lba off next b k d it o n sec b' :
  0 < n → batch_ok c lba off next b k → bytes_fit o n k = true →
  n = SECTOR * sec → (bounded c = true → off + b_bytes b + n <= requested_size c) →
  next_slot d off next b it n sec n = inr b' →
  batch_ok c lba off next b' (count_bytes o n k).
Proof.
  intros Hn [L H1 H2 H3 H4 H5 H6] Hf Hw Hbd. destruct L as [Q T B S R Mx C Se St Lb Bd].
  destruct (count_bytes_harvested o n k) as [Hh Hr]; try lia.
  destruct (bytes_fit_max _ _ _ Hf) as [Hm _].
  unfold next_slot. destruct (Z.ltb_spec (UINT64_MAX - next) (b_sectors b)); [done|].
  case_match; [done|]. intros [= <-].
  set (k' := count_bytes o n k) in *.
  change (queued_payload_bytes k) with (queued_payload_bytes k') in *.
  change (tail_unqueued_bytes k) with (tail_unqueued_bytes k') in *.
  change (bytes_captured k) with (bytes_captured k') in *.
  change (next_queue_lba k) with (next_queue_lba k') in *.
  assert (Hsec : SECTOR = 512) by done.
  assert (E1 : u64 (off + b_bytes b) = off + b_bytes b) by (apply u64_small; cint).
  assert (E2 : u64 (next + b_sectors b) = next + b_sectors b) by (apply u64_small; cint).
  assert (E3 : u64 (b_bytes b + n) = b_bytes b + n) by (apply u64_small; cint).
  assert (E4 : u64 (b_sectors b + sec) = b_sectors b + sec) by (apply u64_small; cint).
  rewrite E1, E2, E3, E4. clearbody k'. clear E1 E2 E3 E4.
  split; cbn [b_bytes b_sectors b_pending]; try done.
  - split; try done; lia.
  - rewrite sum_bytes_batch_app. simpl. lia.
  - rewrite sum_sectors_app. simpl. lia.
  - lia.
  - apply laid_out_snoc; [done|]. simpl. rewrite <- H3, <- H4. by split_and!.
Qed.
(** A tail is never taken into the file. *)
Lemma disposition_queue stop seen n sec :
  0 < n → storage_stop_tail_disposition stop seen n (sec * SECTOR) false = STORAGE_STOP_TAIL_QUEUE →
  n = SECTOR * sec.
Proof.
  intros Hn. unfold storage_stop_tail_disposition.
  destruct (Z.eqb_spec n 0); [lia|]. destruct (Z.eqb_spec (sec * SECTOR) n); [lia|].
  simpl. by repeat case_match.
Qed.

Section Items.
Context {W : Type} (P : Producer W) (c : Settings) (lba off next : Z).
#[local] Abbreviation ok := (batch_ok c lba off next).

(** What holds of a batch after a descriptor: it is well laid out in any case,
    and the ledger agrees with it unless the descriptor was refused. *)
Definition item_post (r : bool * Batch) (k : Counters) : Prop :=
  laid_out off next (b_pending r.2) ∧ (r.1 = false → ok r.2 k).

Lemma item_good b k : ok b k → item_post (false, b) k.
Proof. intros H. split; [apply H|done]. Qed.

Lemma bad_item_post (Pre : Locals → Prop) reason it b :
  laid_out off next (b_pending b) →
  post Pre (bad_item P reason it b) (λ r l, item_post r (counters l)).
Proof.
  intros Hl. unfold bad_item.
  eapply post_bind; [apply post_true|]. intros ?.
  eapply post_bind; [apply post_true|]. intros ?. by intros s w _.
Qed.

Lemma late_item_post it b :
  post (λ l, ok b (counters l)) (late_item P it b) (λ r l, item_post r (counters l)).
Proof.
  unfold late_item. apply post_get_bind. intros l Hok. apply post_if.
  { intros _. apply bad_item_post, Hok. }
  rewrite orb_false_iff, negb_false_iff. intros [Hf Ht].
  assert (Hn : 0 <= observed_bytes it) by apply u32_range.
  apply (post_weaken _ _ (λ l', counters l' = counters l) _ (λ r l', item_post r (counters l')));
    [|by intros ? ->|done].
  do 2 (apply (post_bind_same _ _ _ counters (λ k, k = counters l)); [frame|intros ?]).
  apply (post_bind_same _ _ _ counters (λ k, k = counters l)); [frame|intros rc]. apply post_if.
  { intros _ s w _. split; [apply Hok|done]. }
  intros _.
  apply (post_bind _ _ _ (λ _ l', ok b (counters l'))).
  { intros s w Hs. change (ok b (count_tail (observed_bytes it)
      (count_bytes (observed_bytes it) (observed_bytes it) (counters (vars s))))).
    rewrite Hs. by apply batch_ok_tail. }
  intros ?.
  do 2 (apply (post_bind_same _ _ _ counters (ok b)); [unfold mod_flags; frame; by apply same_mod|intros ?]).
  intros s w Hs. by apply item_good.
Qed.

Lemma defer_tail_post d it n o b l :
  0 <= n → ok b (counters l) → bytes_fit o n (counters l) = true →
  post (λ l', counters l' = count_bytes o n (counters l)) (defer_tail P d it n)
    (λ fine l', fine = true → ok b (counters l')).
Proof.
  intros Hn Hok Hf. unfold defer_tail. apply post_get_bind. intros l1 Hl1.
  apply (post_bind _ _ _ (λ rc l', counters l' = counters l1 ∧
    (rc = 0 → (UINT64_MAX - n <? tail_unqueued_bytes (counters l1)) = false))).
  { intros s w Hs. subst l1. destruct (UINT64_MAX - n <? _) eqn:Ht; [done|].
    by split; [apply (same_locked P counters)|]. }
  intros rc. apply post_if.
  { intros _. eapply post_bind; [apply post_true|]. intros ? s w _ [=]. }
  rewrite negb_false_iff, Z.eqb_eq. intros ->.
  apply (post_bind _ _ _ (λ _ l', ok b (counters l'))).
  { intros s w [Hs Ht]. specialize (Ht eq_refl).
    change (ok b (count_tail n (counters (vars s)))). rewrite Hs, Hl1. rewrite Hl1 in Ht.
    by apply batch_ok_tail. }
  intros ?. apply (post_bind_same _ _ _ counters (ok b)); [by apply same_mod|intros ?].
  destruct (tail_error d) as [code reason].
  do 2 (apply (post_bind_same _ _ _ counters (ok b)); [frame|intros ?]). by intros s w Hs _.
Qed.

(** A descriptor that is taken, in the loop or while cleaning up. *)
Lemma take_item_post d n it b :
  0 < n → (bounded c = true → off + b_bytes b + n <= requested_size c) →
  post (λ l, ok b (counters l)) (take_item P d off next n it b) (λ r l, item_post r (counters l)).
Proof.
  intros Hn Hb. unfold take_item. apply post_if.
  { intros _ s w Hs. apply (bad_item_post (λ _, True)); [apply Hs|done]. }
  intros _. apply post_get_bind. intros l Hok. apply post_if.
  { intros _. apply bad_item_post, Hok. }
  rewrite negb_false_iff. intros Hf.
  pose (k1 := count_bytes (observed_bytes it) n (counters l)).
  apply (post_bind _ _ _ (λ _ l', counters l' = k1)); [by intros s w <-|intros ?].
  apply (post_bind_same _ _ _ counters (λ k, k = k1)); [frame|intros ?].
  apply post_get_bind. intros l1 Hl1.
  destruct (storage_stop_tail_disposition _ _ _ _ _) eqn:Hd.
  - apply disposition_queue in Hd; [|done].
    destruct (next_slot _ _ _ _ _ _ _ _) as [r|b'] eqn:Hs.
    + apply bad_item_post, Hok.
    + intros s w Hv. change (item_post (false, b') (counters (vars s))).
      rewrite Hv, Hl1. apply item_good. rewrite Z.mul_comm, <- Hd in Hs.
      by eapply batch_ok_next.
  - apply (post_bind _ _ _ (λ (fine : bool) l', fine = true → ok b (counters l'))).
    + eapply post_weaken; [apply (defer_tail_post _ it n (observed_bytes it) b l); [lia|done..]| |done].
      by intros ? ->.
    + intros fine s w Hs. split; [apply Hok|]. destruct fine; [|done]. intros _. by apply Hs.
  - apply (post_bind _ _ _ (λ (fine : bool) l', fine = true → ok b (counters l'))).
    + eapply post_weaken; [apply (defer_tail_post _ it n (observed_bytes it) b l); [lia|done..]| |done].
      by intros ? ->.
    + intros fine s w Hs. split; [apply Hok|]. destruct fine; [|done]. intros _. by apply Hs.
Qed.

Lemma harvest_item_post it b :
  post (λ l, ok b (counters l)) (harvest_item P c off next it b) (λ r l, item_post r (counters l)).
Proof.
  unfold harvest_item. apply (post_bind_same _ _ _ counters (ok b)); [frame|intros d].
  destruct (Z.eqb_spec (observed_bytes it) 0) as [|Ho]; cbn [orb].
  2: destruct (ccb_dma.dma_desc_bytes d <? observed_bytes it).
  1,2: apply (post_bind _ _ _ (λ r l, item_post r (counters l)));
    [ intros s w Hs; apply (bad_item_post (λ _, True)); [apply Hs|done]
    | intros r; apply (post_bind_same _ _ _ counters (item_post r)); [frame|by intros ? s w Hs] ].
  assert (Hp : 0 <= observed_bytes it) by apply u32_range.
  destruct (remaining_bytes _ _ _ _) as [r|] eqn:Hr.
  2: { intros s w Hs. apply (bad_item_post (λ _, True)); [apply Hs|done]. }
  unfold remaining_bytes in Hr. apply post_if.
  { intros _. apply late_item_post. }
  intros Hz. destruct (bounded c) eqn:Hb; cbn [andb] in Hz.
  - destruct (_ || _) eqn:Hc; [done|]. injection Hr as <-.
    apply orb_false_iff in Hc as [H1 H2]. apply Z.ltb_ge in H1, H2. apply Z.eqb_neq in Hz.
    apply take_item_post; [case_match; lia|]. intros _. case_match; lia.
  - injection Hr as <-. rewrite Z.ltb_irrefl. apply take_item_post; [lia|]. by rewrite Hb.
Qed.

(** A harvest whose descriptors are all taken keeps the ledger; what has been
    put together of one that is not is well laid out too. *)
Lemma harvest_items_post its : ∀ b,
  post (λ l, ok b (counters l)) (harvest_items P c off next its b) (λ r l, item_post r (counters l)).
Proof.
  induction its as [|it its IH]; intros b; cbn [harvest_items].
  { intros s w Hs. by apply item_good. }
  apply (post_bind _ _ _ _ _ _ _ (harvest_item_post it b)). intros [[] b'].
  { intros s w [Hl _]. by split. }
  intros s w [_ Hok]. apply IH. by apply Hok.
Qed.
End Items.

(** ** The counters do not wrap around *)
(** The counters only grow, within 64 bits; an addition that wrapped around
    would have made one smaller. *)
Record grown (k k' : Counters) : Prop := {
  gr_observed : dma_observed_bytes k <= dma_observed_bytes k' <= UINT64_MAX;
  gr_harvested : dma_harvested_payload_bytes k <= dma_harvested_payload_bytes k' <= UINT64_MAX;
  gr_received : dma_received_bytes k <= dma_received_bytes k' <= UINT64_MAX;
  gr_tail : tail_unqueued_bytes k <= tail_unqueued_bytes k' <= UINT64_MAX }.
(** The bytes of the counters are those of 64 bits. *)
Record counters_u64 (k : Counters) : Prop := {
  cu_observed : is_u64 (dma_observed_bytes k); cu_harvested : is_u64 (dma_harvested_payload_bytes k);
  cu_received : is_u64 (dma_received_bytes k); cu_tail : is_u64 (tail_unqueued_bytes k) }.
Definition sum_observed (its : list ccb_dma.DmaHarvestItem) : Z :=
  foldr (λ it n, observed_bytes it + n) 0 its.

Lemma grown_refl k : counters_u64 k → grown k k.
Proof. intros []. split; cint. Qed.
Lemma grown_u64 k k' : counters_u64 k → grown k k' → counters_u64 k'.
Proof. intros [] []. split; cint. Qed.
Lemma grown_trans a b d : grown a b → grown b d → grown a d.
Proof. intros [] []. split; lia. Qed.
Lemma count_bytes_grown o n k :
  0 <= o → 0 <= n → counters_u64 k → bytes_fit o n k = true →
  grown k (count_bytes o n k) ∧ dma_observed_bytes (count_bytes o n k) = dma_observed_bytes k + o.
Proof.
  intros Ho Hn [] Hf. unfold bytes_fit in Hf. rewrite !andb_true_iff, !negb_true_iff, !Z.ltb_ge in Hf.
  assert (E1 : u64 (dma_observed_bytes k + o) = dma_observed_bytes k + o) by (apply u64_small; cint).
  assert (E2 : u64 (dma_harvested_payload_bytes k + n) = dma_harvested_payload_bytes k + n)
    by (apply u64_small; cint).
  assert (E3 : u64 (dma_received_bytes k + n) = dma_received_bytes k + n) by (apply u64_small; cint).
  split; [|exact E1]. split.
  - change (dma_observed_bytes (count_bytes o n k)) with (u64 (dma_observed_bytes k + o)). cint.
  - change (dma_harvested_payload_bytes (count_bytes o n k)) with (u64 (dma_harvested_payload_bytes k + n)). cint.
  - change (dma_received_bytes (count_bytes o n k)) with (u64 (dma_received_bytes k + n)). cint.
  - change (tail_unqueued_bytes (count_bytes o n k)) with (tail_unqueued_bytes k). cint.
Qed.
Lemma count_tail_grown n k :
  0 <= n → counters_u64 k → (UINT64_MAX - n <? tail_unqueued_bytes k) = false →
  grown k (count_tail n k) ∧ dma_observed_bytes (count_tail n k) = dma_observed_bytes k.
Proof.
  intros Hn [] Hf%Z.ltb_ge.
  assert (E : u64 (tail_unqueued_bytes k + n) = tail_unqueued_bytes k + n) by (apply u64_small; cint).
  split; [|done]. split.
  - change (dma_observed_bytes (count_tail n k)) with (dma_observed_bytes k). cint.
  - change (dma_harvested_payload_bytes (count_tail n k)) with (dma_harvested_payload_bytes k). cint.
  - change (dma_received_bytes (count_tail n k)) with (dma_received_bytes k). cint.
  - change (tail_unqueued_bytes (count_tail n k)) with (u64 (tail_unqueued_bytes k + n)). cint.
Qed.

Section Counting.
Context {W : Type} (P : Producer W) (c : Settings) (off next : Z).

(** From the counters [k], [o] more observed bytes unless the batch has ended. *)
Definition counted (k : Counters) (o : Z) (ended : bool) (k' : Counters) : Prop :=
  grown k k' ∧ (ended = false → dma_observed_bytes k' = dma_observed_bytes k + o).

Lemma bad_item_counted k k1 o reason it b : grown k k1 →
  post (λ l, counters l = k1) (bad_item P reason it b) (λ r l, counted k o r.1 (counters l)).
Proof.
  intros Hg. unfold bad_item.
  do 2 (apply (post_bind_same _ _ _ counters (λ x, x = k1)); [frame|intros ?]).
  intros s w Hs. split; [|done]. cbn. by rewrite Hs.
Qed.

Lemma late_item_counted k it b : counters_u64 k →
  post (λ l, counters l = k) (late_item P it b) (λ r l, counted k (observed_bytes it) r.1 (counters l)).
Proof.
  intros Hk. unfold late_item. apply post_get_bind. intros l Hl. subst k. apply post_if.
  { intros _. apply (post_pre _ _ (λ l', counters l' = counters l)); [|by intros ? ->].
    by apply bad_item_counted, grown_refl. }
  rewrite orb_false_iff, negb_false_iff. intros [Hf Ht].
  assert (Hn : 0 <= observed_bytes it) by apply u32_range.
  destruct (count_bytes_grown _ _ _ Hn Hn Hk Hf) as [Hg Ho].
  destruct (count_tail_grown _ (count_bytes (observed_bytes it) (observed_bytes it) (counters l)) Hn
    (grown_u64 _ _ Hk Hg) Ht) as [Hg' Ho'].
  apply (post_pre _ _ (λ l', counters l' = counters l)); [|by intros ? ->].
  do 3 (apply (post_bind_same _ _ _ counters (λ k, k = counters l)); [frame|intros ?]). apply post_if.
  { intros _ s w Hs. split; [|done]. cbn. rewrite Hs. by apply grown_refl. }
  intros _. apply (post_bind _ _ _ (λ _ l', counters l' =
    count_tail (observed_bytes it) (count_bytes (observed_bytes it) (observed_bytes it) (counters l)))).
  { by intros s w <-. }
  intros ?. do 2 (apply (post_bind_same _ _ _ counters (λ k, k = _)); [frame|intros ?]).
  intros s w Hs. cbn. rewrite Hs. split; [by eapply grown_trans|]. intros _. by rewrite Ho', Ho.
Qed.

Lemma defer_tail_counted d it n k : 0 <= n → counters_u64 k →
  post (λ l, counters l = k) (defer_tail P d it n)
    (λ _ l, grown k (counters l) ∧ dma_observed_bytes (counters l) = dma_observed_bytes k).
Proof.
  intros Hn Hk. unfold defer_tail. apply post_get_bind. intros l Hl. subst k.
  apply (post_bind _ _ _ (λ rc l', counters l' = counters l ∧
    (rc = 0 → (UINT64_MAX - n <? tail_unqueued_bytes (counters l)) = false))).
  { intros s w Hs. subst l. destruct (UINT64_MAX - n <? _) eqn:Ht; [done|].
    by split; [apply (same_locked P counters)|]. }
  intros rc. apply post_if.
  { intros _. apply (post_pre _ _ (λ l', counters l' = counters l)); [|by intros ? []].
    apply (post_bind_same _ _ _ counters (λ k, k = counters l)); [frame|intros ?].
    intros s' w' Hs'. cbn. rewrite Hs'. split; [by apply grown_refl|done]. }
  rewrite negb_false_iff, Z.eqb_eq. intros ->.
  apply (post_bind _ _ _ (λ _ l', grown (counters l) (counters l') ∧
    dma_observed_bytes (counters l') = dma_observed_bytes (counters l))).
  { intros s w [Hs Ht]. pose proof (count_tail_grown n (counters l) Hn Hk (Ht eq_refl)) as H.
    rewrite <- Hs in *. exact H. }
  intros ?. destruct (tail_error d) as [code reason].
  do 3 (apply (post_bind_same _ _ _ counters (λ k, grown (counters l) k ∧
    dma_observed_bytes k = dma_observed_bytes (counters l))); [frame|intros ?]).
  by intros s w Hs.
Qed.

Lemma take_item_counted d n it b k : 0 <= n → counters_u64 k →
  post (λ l, counters l = k) (take_item P d off next n it b)
    (λ r l, counted k (observed_bytes it) r.1 (counters l)).
Proof.
  intros Hn Hk. assert (Hno : 0 <= observed_bytes it) by apply u32_range.
  unfold take_item. apply post_if.
  { intros _. by apply bad_item_counted, grown_refl. }
  intros _. apply post_get_bind. intros l <-.
  apply (post_pre _ _ (λ l', counters l' = counters l)); [|by intros ? ->]. apply post_if.
  { intros _. by apply bad_item_counted, grown_refl. }
  rewrite negb_false_iff. intros Hf.
  destruct (count_bytes_grown _ _ _ Hno Hn Hk Hf) as [Hg Ho].
  pose proof (grown_u64 _ _ Hk Hg) as Hk1.
  set (k1 := count_bytes (observed_bytes it) n (counters l)) in *.
  apply (post_bind _ _ _ (λ _ l', counters l' = k1)).
  { intros s w Hs. subst k1. rewrite <- Hs. reflexivity. }
  intros ?. apply (post_bind_same _ _ _ counters (λ k, k = k1)); [frame|intros ?].
  apply post_get_bind. intros l1 Hl1.
  apply (post_pre _ _ (λ l', counters l' = k1)); [|by intros ? ->].
  assert (Hd : ∀ disp, post (λ l', counters l' = k1)
      (let! ok := defer_tail P disp it n in eret (negb ok, b))
      (λ r l', counted (counters l) (observed_bytes it) r.1 (counters l'))).
  { intros disp. eapply post_bind; [by apply defer_tail_counted|]. intros ok s w [Hg2 Ho2].
    split; [by eapply grown_trans|]. intros _. cbn. by rewrite Ho2. }
  destruct (storage_stop_tail_disposition _ _ _ _ _); [|apply Hd..].
  destruct (next_slot _ _ _ _ _ _ _ _) as [r|b']; [by apply bad_item_counted|].
  intros s w Hs. cbn. rewrite Hs. by split.
Qed.

Lemma harvest_item_counted it b k : counters_u64 k →
  post (λ l, counters l = k) (harvest_item P c off next it b)
    (λ r l, counted k (observed_bytes it) r.1 (counters l)).
Proof.
  intros Hk. assert (Hno : 0 <= observed_bytes it) by apply u32_range.
  unfold harvest_item. apply (post_bind_same _ _ _ counters (λ x, x = k)); [frame|intros d]. apply post_if.
  { intros _. eapply post_bind; [by apply (bad_item_counted k k (observed_bytes it)), grown_refl|].
    intros r. apply (post_bind_same _ _ _ counters (counted k (observed_bytes it) r.1)); [frame|].
    by intros ? s w Hs. }
  intros _. destruct (remaining_bytes _ _ _ _) as [r|] eqn:Hr; [|by apply bad_item_counted, grown_refl].
  apply post_if; [intros _; by apply late_item_counted|]. intros _. apply take_item_counted; [|done].
  case_match; [|done]. unfold remaining_bytes in Hr.
  destruct (bounded c); [|by injection Hr as <-]. destruct (_ || _) eqn:Hc; [done|]. injection Hr as <-.
  apply orb_false_iff in Hc as [H1 H2]. apply Z.ltb_ge in H1, H2. lia.
Qed.

Lemma harvest_items_counted its : ∀ b k, counters_u64 k →
  post (λ l, counters l = k) (harvest_items P c off next its b)
    (λ r l, counted k (sum_observed its) r.1 (counters l)).
Proof.
  induction its as [|it its IH]; intros b k Hk; cbn [harvest_items].
  { intros s w Hs. cbn. rewrite Hs. split; [by apply grown_refl|]. intros _. simpl. lia. }
  eapply post_bind; [by apply harvest_item_counted|]. intros [[] b'].
  { intros s w [Hg _]. by split. }
  intros s w [Hg Ho]. specialize (Ho eq_refl).
  destruct (IH b' _ (grown_u64 _ _ Hk Hg) s w eq_refl) as [Hg2 Ho2].
  split; [by eapply grown_trans|]. intros Hf. rewrite (Ho2 Hf), Ho. simpl. lia.
Qed.
End Counting.

(** ** The slots and their addresses *)
(** The slot handed on is that of the descriptor, with bytes of it. *)
Definition from_item (it : ccb_dma.DmaHarvestItem) (p : PendingDdrSlot) : Prop :=
  storage_write_queue.slot p = ccb_dma.slot it ∧
  chunk_index p = ccb_dma.submission_sequence it ∧ bytes p <= observed_bytes it.
(** Its address, for the memory at [g.1] in slots of [g.2] bytes. *)
Definition addressed (g : Z * Z) (p : PendingDdrSlot) : Prop :=
  hw_addr p = g.1 + storage_write_queue.slot p * g.2 ∧ hw_addr p <= UINT64_MAX.

(** What a step answers, whatever the state. *)
Definition gives {W A} (Q : A → Prop) (m : M (W := W) A) : Prop := ∀ s w, Q (m (s, w)).1.
Lemma answers_ret {W A} (Q : A → Prop) (a : A) : Q a → gives (W := W) Q (eret a).
Proof. by intros H s w. Qed.
Lemma answers_bind {W A B} (Q : B → Prop) (m : M (W := W) A) (k : A → M B) :
  (∀ a, gives Q (k a)) → gives Q (ebind m k).
Proof. intros H s w. unfold ebind. destruct (m (s, w)) as [a [s' w']]. apply H. Qed.
Lemma answers_seq {W A B} (R : A → Prop) (Q : B → Prop) (m : M (W := W) A) (k : A → M B) :
  gives R m → (∀ a, R a → gives Q (k a)) → gives Q (ebind m k).
Proof.
  intros Hm Hk s w. unfold ebind. specialize (Hm s w). destruct (m (s, w)) as [a [s' w']]. by apply Hk.
Qed.
Ltac gives := repeat first [apply answers_ret | apply answers_bind; intros ? | case_match].

Section Addresses.
Context {W : Type} (P : Producer W) (c : Settings) (off next : Z).

(** The batch is the old one, or the old one with the slot of the descriptor. *)
Definition extended (d : ccb_dma.Rt) (it : ccb_dma.DmaHarvestItem) (b b' : Batch) : Prop :=
  b_pending b' = b_pending b ∨
  ∃ p, b_pending b' = b_pending b ++ [p] ∧ from_item it p ∧
    (0 <= ccb_dma.slot it → 0 <= ccb_dma.ddr_hw_base d → addressed (geometry d) p).

Lemma next_slot_extended d it b n sec media b' :
  n <= observed_bytes it → 0 < ccb_dma.dma_desc_bytes d →
  next_slot d off next b it n sec media = inr b' → extended d it b b'.
Proof.
  intros Hn Hd. unfold next_slot. case_match; [done|].
  destruct (Z.ltb_spec ((UINT64_MAX - ccb_dma.ddr_hw_base d) / ccb_dma.dma_desc_bytes d) (ccb_dma.slot it))
    as [|Hs]; [done|]. intros [= <-]. right. eexists. split; [reflexivity|]. split; [done|].
  intros Hsl Hb. unfold addressed, geometry. cbn [hw_addr storage_write_queue.slot fst snd].
  assert (ccb_dma.slot it * ccb_dma.dma_desc_bytes d <= UINT64_MAX - ccb_dma.ddr_hw_base d).
  { pose proof (Z.mul_div_le (UINT64_MAX - ccb_dma.ddr_hw_base d) (ccb_dma.dma_desc_bytes d) Hd). nia. }
  rewrite u64_small; [lia|]. split; [nia|lia].
Qed.

Lemma take_item_extended d it b n : n <= observed_bytes it → 0 < ccb_dma.dma_desc_bytes d →
  gives (λ r, extended d it b r.2) (take_item P d off next n it b).
Proof.
  intros Hn Hd. unfold take_item, bad_item, defer_tail.
  gives; try by left. by eapply next_slot_extended.
Qed.

Lemma read_dma B (k : ccb_dma.Rt → M (W := W) B) s w :
  ebind channel_dma k (s, w) = k (dma (rt (storage_writer_thread.queue (sys s)))) (s, w).
Proof. by destruct s. Qed.

Lemma harvest_item_extended it b s w :
  extended (dma (rt (storage_writer_thread.queue (sys s)))) it b (harvest_item P c off next it b (s, w)).1.2.
Proof.
  unfold harvest_item. cbv zeta. rewrite read_dma. set (d := dma _).
  assert (Hno : 0 <= observed_bytes it) by apply u32_range.
  match goal with |- extended _ _ _ (?m (s, w)).1.2 => assert (H : gives (λ r, extended d it b r.2) m) end;
    [|apply H].
  assert (Hbad : ∀ reason (e : bool * Batch → M unit),
    gives (λ r, extended d it b r.2)
      (let! r := bad_item P reason it b in let! _ := e r in eret r)).
  { intros reason e. apply (answers_seq (λ r, r = (true, b))); [unfold bad_item; by gives|].
    intros ? ->. gives. by left. }
  destruct (Z.eqb_spec (observed_bytes it) 0) as [|Ho]; cbn [orb]; [apply Hbad|].
  destruct (Z.ltb_spec (ccb_dma.dma_desc_bytes d) (observed_bytes it)) as [|Hd]; [apply Hbad|].
  destruct (remaining_bytes _ _ _ _) as [r|]; [|unfold bad_item; gives; by left].
  destruct (_ && _); [unfold late_item, bad_item; gives; by left|].
  apply take_item_extended; [|lia]. destruct (Z.ltb_spec r (observed_bytes it)); lia.
Qed.

(** What the slots of a batch come from: the descriptors taken, in order. *)
Definition comes_from (its : list ccb_dma.DmaHarvestItem) (ps : list PendingDdrSlot) : Prop :=
  ∃ taken, taken `sublist_of` its ∧ Forall2 from_item taken ps.

Lemma harvest_items_from its : ∀ done b s w, comes_from done (b_pending b) →
  comes_from (done ++ its) (b_pending (harvest_items P c off next its b (s, w)).1.2).
Proof.
  induction its as [|it its IH]; intros done b s w Hb; cbn [harvest_items].
  { by rewrite app_nil_r. }
  pose proof (harvest_item_extended it b s w) as He. unfold ebind.
  destruct (harvest_item _ _ _ _ _ _ _) as [[invalid b'] [s' w']]. cbn [fst snd] in He.
  assert (Hb' : comes_from (done ++ [it]) (b_pending b')).
  { destruct Hb as (taken & Hs & Hf). destruct He as [->|(p & -> & Hp & _)].
    - exists taken. split; [|done]. by apply sublist_inserts_r.
    - exists (taken ++ [it]). split; [by apply sublist_app|]. apply Forall2_app; [done|]. by constructor. }
  destruct invalid; cbn [fst snd].
  - destruct Hb' as (taken & Hs & Hf). exists taken. split; [|done].
    rewrite (cons_middle it done its), (assoc_L (++)). by apply sublist_inserts_r.
  - specialize (IH (done ++ [it]) b' s' w' Hb'). by rewrite <- (assoc_L (++)) in IH.
Qed.

Hypothesis Ho : others_keep_buffers P.
Lemma bad_item_keeps r it b : keeps state_placed (bad_item P r it b).
Proof using Ho.
  unfold bad_item, record_failure, mod_stats, locked_. keeps. apply locked_keeps; [done|].
  intros q. apply mark_failed_placed.
Qed.
Lemma deferred_keeps code r : keeps state_placed (locked_ P (storage_record_deferred_stop_error code r)).
Proof using Ho. unfold locked_. apply locked_keeps; [done|]. intros q. apply deferred_placed. Qed.
Lemma release_keeps sl : keeps state_placed (locked P (storage_release_harvested_slot sl)).
Proof using Ho. apply locked_keeps; [done|]. intros q. apply release_placed. Qed.
#[local] Hint Resolve bad_item_keeps deferred_keeps release_keeps : keeps.
Lemma defer_tail_keeps d it n : keeps state_placed (defer_tail P d it n).
Proof using Ho. unfold defer_tail, record_failure, mod_stats, mod_counters, mod_flags, record_error. keeps. Qed.
#[local] Hint Resolve defer_tail_keeps : keeps.
Lemma harvest_item_keeps it b : keeps state_placed (harvest_item P c off next it b).
Proof using Ho.
  unfold harvest_item, late_item, take_item, note_desc, record_error, mod_stats, mod_counters, mod_flags.
  keeps.
Qed.

Lemma harvest_items_addressed its : ∀ b s w,
  Forall (λ it, 0 <= ccb_dma.slot it) its → 0 <= (state_placed s).1 →
  Forall (addressed (state_placed s)) (b_pending b) →
  Forall (addressed (state_placed s)) (b_pending (harvest_items P c off next its b (s, w)).1.2).
Proof using Ho.
  induction its as [|it its IH]; intros b s w Hi Hbase Hb; cbn [harvest_items]; [done|].
  inversion_clear Hi as [|? ? Hit Hits].
  pose proof (harvest_item_extended it b s w) as He. pose proof (harvest_item_keeps it b s w) as Hk.
  unfold ebind. destruct (harvest_item _ _ _ _ _ _ _) as [[invalid b'] [s' w']]. cbn [fst snd] in *.
  assert (Hb' : Forall (addressed (state_placed s)) (b_pending b')).
  { destruct He as [->|(p & -> & _ & Hp)]; [done|]. apply Forall_app. split; [done|].
    apply Forall_singleton. by apply Hp. }
  destruct invalid; cbn [fst snd]; [done|]. rewrite <- Hk. apply IH; by rewrite ?Hk.
Qed.
End Addresses.

(** C8: a harvested batch continues the file.  From counters that are in order,
    whatever descriptors the engine reports: the slots handed to the writer are
    those of descriptors of the harvest, in their order and with no more bytes
    than the descriptor has; they are whole sectors and follow each other
    without a gap, in the file from the bytes captured so far and on the disk
    from the next free sector.  No counter of bytes wraps around: each only
    grows and stays within 64 bits.  If the other threads leave the channel's
    memory where it is, the address of every slot is the base of the memory plus
    the slot's offset, within 64 bits.  And unless a descriptor was refused
    (which ends the capture with an error), every byte of every descriptor is
    observed, every byte received is accounted for, as part of the batch or of
    the tail, the size of the batch is the sum of its slots, and a bounded
    capture has not taken more than was asked for. *)
Theorem batch_continues_file (W : Type) (P : Producer W) (c : Settings) (lba : Z)
    (its : list ccb_dma.DmaHarvestItem) (s : State) (w : W) :
  let k := counters (vars s) in
  ledger c lba 0 k → counters_u64 k →
  let '((refused, b), (s', _)) :=
    harvest_items P c (bytes_captured k) (next_queue_lba k) its empty_batch (s, w) in
  let k' := counters (vars s') in
  laid_out (bytes_captured k) (next_queue_lba k) (b_pending b) ∧
  comes_from its (b_pending b) ∧
  grown k k' ∧
  (others_keep_buffers P → 0 <= (state_placed s).1 → Forall (λ it, 0 <= ccb_dma.slot it) its →
   Forall (addressed (state_placed s)) (b_pending b)) ∧
  (refused = false →
   dma_observed_bytes k' = dma_observed_bytes k + sum_observed its ∧
   ledger c lba (b_bytes b) k' ∧
   bytes_captured k' = bytes_captured k ∧
   b_bytes b = sum_bytes (b_pending b) ∧ b_sectors b = sum_sectors (b_pending b) ∧
   b_bytes b = SECTOR * b_sectors b).
Proof.
  intros k Hk Hku. pose proof (harvest_items_post P c lba (bytes_captured k) (next_queue_lba k) its empty_batch
    s w (batch_ok_empty _ _ _ Hk)) as H.
  pose proof (harvest_items_counted P c (bytes_captured k) (next_queue_lba k) its empty_batch k Hku s w
    eq_refl) as [Hg Hobs].
  pose proof (harvest_items_from P c (bytes_captured k) (next_queue_lba k) its [] empty_batch s w) as Hf.
  pose proof (λ Ho Hb Hs, harvest_items_addressed P c (bytes_captured k) (next_queue_lba k) Ho its
    empty_batch s w Hs Hb (Forall_nil_2 _)) as Ha.
  destruct (harvest_items _ _ _ _ _ _ _) as [[r b] [s' w']]. destruct H as [Hl Hr]. cbn [fst snd] in *.
  split; [exact Hl|]. split; [apply Hf; by exists []|]. split; [exact Hg|]. split; [exact Ha|].
  intros Hn. destruct (Hr Hn) as [L H1 H2 H3 H4 H5 _]. split_and!; try done. by apply Hobs.
Qed.

(** Two descriptors, the second of them not a whole sector and without a stop:
    it is a tail that the file does not get. *)
Lemma batch_continues_file_witness :
  let '((refused, b), (s', _)) :=
    harvest_items example_producer example_settings 512 101 example_items empty_batch
      (example_middle, (1, 0)) in
  laid_out 512 101 (b_pending b) ∧ length (b_pending b) = 1%nat ∧ refused = false ∧
  Forall (addressed (0x10000000, 512)) (b_pending b) ∧
  dma_observed_bytes (counters (vars s')) = 512 + (512 + 100) ∧
  ledger example_settings 100 (b_bytes b) (counters (vars s')) ∧
  tail_unqueued_bytes (counters (vars s')) = 100.
Proof.
  pose proof (batch_continues_file World example_producer example_settings 100 example_items
    example_middle (1, 0)) as H. cbv zeta in H.
  change (bytes_captured (counters (vars example_middle))) with 512 in H.
  change (next_queue_lba (counters (vars example_middle))) with 101 in H.
  assert (Hv : let r := harvest_items example_producer example_settings 512 101 example_items empty_batch
      (example_middle, (1, 0)) in
    r.1.1 = false ∧ length (b_pending r.1.2) = 1%nat ∧ tail_unqueued_bytes (counters (vars r.2.1)) = 100)
    by (vm_compute; repeat split).
  destruct (harvest_items _ _ _ _ _ _ _) as [[refused b] [s' w']]. destruct Hv as (Hf&Hn&Ht).
  destruct H as (Hl & _ & _ & Ha & Hr).
  { split; cbn; try lia; try done; intros _; vm_compute; congruence. }
  { split; cbn; cint. }
  destruct (Hr Hf) as (Ho & HL & _). split_and!; [exact Hl|exact Hn|exact Hf| |exact Ho|exact HL|exact Ht].
  apply Ha; [apply example_others_keep|vm_compute; congruence|].
  repeat constructor; vm_compute; congruence.
Defined.

End producer_safety.
