(* ===== verification/ProducerTurn.v ===== *)
(** * The producer of a capture: what a turn of the loop keeps

    The ledger of [ProducerSafe] holds at the head of every turn; a bounded
    capture is only stopped by a request; and the record of the stopped engine
    is true. *)
From S2P Require Import Prelude StorageError SlotTable Pipeline Worker Writer Stop CStdlib Bytes Config Ipc Diag DmaRing CrossSlot CcbTypes WriteQueue WriterThread CmdConfig ProducerStats ProducerBatch ProducerRun ProducerEnd ProducerLogic ProducerSafe.

Module producer_turn.
Import storage_stop storage_write_queue ccb_capture ccb_capture_batch ccb_capture_run ccb_capture_end producer_logic producer_safety.

(** ** The ledger *)
Section Ledger.
Context {W : Type} (P : Producer W) (c : Settings) (lba : Z).
#[local] Abbreviation booked := (λ l, ledger c lba 0 (counters l)).

(** The counters after a batch. *)
Definition batch_counted (off next : Z) (b : Batch) (k : Counters) : Counters :=
  k <| bytes_captured := u64 (off + b_bytes b) |>
    <| queued_payload_bytes ::= λ n, u64 (n + b_bytes b) |>
    <| next_queue_lba := u64 (next + b_sectors b) |>.

Lemma ledger_counted off next b k :
  batch_ok c lba off next b k → b_bytes b <= UINT64_MAX - queued_payload_bytes k →
  b_sectors b <= UINT64_MAX - next → ledger c lba 0 (batch_counted off next b k).
Proof.
  intros [L H1 H2 H3 H4 H5 H6] Hb Hs. destruct L as [Q T B S R Mx C Se St Lb Bd].
  assert (Hsec : ccb_types.SECTOR_SIZE = 512) by done.
  assert (E1 : u64 (off + b_bytes b) = off + b_bytes b) by (apply u64_small; cint).
  assert (E2 : u64 (queued_payload_bytes k + b_bytes b) = queued_payload_bytes k + b_bytes b)
    by (apply u64_small; cint).
  assert (E3 : u64 (next + b_sectors b) = next + b_sectors b) by (apply u64_small; cint).
  set (k' := batch_counted off next b k).
  change (bytes_captured k' = off + b_bytes b) in E1.
  change (queued_payload_bytes k' = queued_payload_bytes k + b_bytes b) in E2.
  change (next_queue_lba k' = next + b_sectors b) in E3.
  change (tail_unqueued_bytes k) with (tail_unqueued_bytes k') in *.
  change (dma_harvested_payload_bytes k) with (dma_harvested_payload_bytes k') in *.
  change (dma_received_bytes k) with (dma_received_bytes k') in *. clearbody k'.
  split; try done; lia.
Qed.

Lemma post_counters (k : Counters) f :
  post (W := W) (λ l, counters l = k) (mod_counters f) (λ _ l, counters l = f k).
Proof. by intros s w <-. Qed.

Lemma account_batch_post off next b :
  post (λ l, batch_ok c lba off next b (counters l)) (account_batch (W := W) off next b) (good booked).
Proof.
  apply (post_fix _ _ counters). intros k Hb.
  unfold account_batch. eapply post_bind; [apply post_counters|]. intros ?.
  apply post_get_bind. intros l Hl. apply post_if; [intros _; apply post_out|].
  rewrite Z.ltb_ge. intros Hq. apply (post_pre _ _ (λ l', counters l' = counters l)); [|by intros ? ->].
  eapply post_bind; [apply post_counters|]. intros ?. cbv beta. apply post_if; [intros _; apply post_out|].
  rewrite Z.ltb_ge. intros Hs. unfold lift.
  eapply post_bind; [apply post_counters|]. intros ? s w Hv. simpl. rewrite Hv, Hl.
  rewrite Hl in Hq. change (queued_payload_bytes k <= UINT64_MAX - b_bytes b) in Hq.
  clear Hl Hv. apply (ledger_counted off next b k); [done|lia|done].
Qed.

Lemma push_pending_fine X (pi : Locals → X) `{!Core pi} (Pre : X → Prop) its :
  post (λ l, Pre (pi l)) (push_pending P c its) (fine (λ l, Pre (pi l))).
Proof.
  unfold push_pending. apply post_if; [by intros _ s w Hs|]. intros _.
  apply post_bind_same; [frame|intros rc]. apply post_if; [by intros _ s w Hs|]. intros _.
  repeat (eapply post_bind; [apply post_true|intros ?]). by intros s w _.
Qed.
Lemma account_batch_fine off next b :
  post (λ _, True) (account_batch (W := W) off next b) (fine (λ _, True)).
Proof.
  unfold account_batch. repeat (eapply post_bind; [apply post_true|intros ?]).
  apply post_if; [intros _; apply post_fine_out|intros _].
  repeat (eapply post_bind; [apply post_true|intros ?]).
  apply post_if; [intros _; apply post_fine_out|intros _].
  unfold lift. eapply post_bind; [apply post_true|intros ?]. by intros s w _.
Qed.
Lemma batch_failed_refused fatal I : post (λ _, True) (batch_failed P c true fatal) (good I).
Proof.
  unfold batch_failed. rewrite orb_true_r. cbn [negb].
  repeat (eapply post_bind; [apply post_true|intros ?]). by intros s w _.
Qed.

Lemma harvested_turn_inv fatal its : inv booked (harvested_turn P c fatal its).
Proof.
  unfold harvested_turn, inv. apply post_get_bind. intros l Hl.
  apply (post_pre _ _ (λ l', batch_ok c lba (bytes_captured (counters l)) (next_queue_lba (counters l))
    empty_batch (counters l'))); [|by intros ? ->; apply batch_ok_empty].
  eapply post_bind; [apply harvest_items_post|]. intros [[] b]; cbn [fst snd].
  { apply (post_pre _ _ (λ _, True)); [|done].
    eapply post_fine_bind; [apply (push_pending_fine _ counters (λ _, True))|intros ?].
    eapply post_fine_bind; [apply account_batch_fine|intros ?].
    do 2 (eapply post_bind; [apply post_true|intros ?]).
    eapply post_bind; [apply (batch_failed_refused _ (λ _, False))|]. 
    intros [o|?] s w Hs; [|done]. by destruct o. }
  apply (post_pre _ _ (λ l', batch_ok c lba (bytes_captured (counters l)) (next_queue_lba (counters l))
    b (counters l'))); [|by intros ? [_ H]; apply H].
  eapply post_fine_bind; [apply (push_pending_fine _ counters)|intros ?].
  apply (post_xbind _ _ _ booked); [apply account_batch_post|intros ?].
  apply (inv_same _ _ counters (ledger c lba 0)). frame.
Qed.
Lemma turn_body_ledger inner : inv booked (turn_body P c inner).
Proof.
  unfold turn_body. apply inv_xbind; [apply (inv_same _ _ counters); frame|intros t].
  apply inv_xbind; [apply (inv_same _ _ counters); frame|intros ?].
  apply inv_bind; [apply (post_same _ _ counters); frame|intros ?].
  do 2 (apply inv_xbind; [apply (inv_same _ _ counters); frame|intros ?]).
  apply inv_bind; [apply (post_same _ _ counters); frame|intros l].
  apply inv_bind; [apply (post_same _ _ counters); frame|intros [rc its]].
  destruct its; [|apply harvested_turn_inv]. apply (inv_same _ _ counters). frame.
Qed.
End Ledger.
(** ** Why a capture stops *)
(** The state of the stop and the requests that have been seen. *)
Definition requests (l : Locals) : bool * bool := (manual_stop_seen (flags l), auto_idle_done (flags l)).
Definition stops (l : Locals) : StorageStopState * (bool * bool) := (stop_state l, requests l).
#[export] Instance steady_requests : Steady requests.
Proof.
  repeat split. intros f l H. unfold requests. destruct (H (flags l)) as (H1&H2&_).
  change ((manual_stop_seen (f (flags l)), auto_idle_done (f (flags l))) = requests l).
  by rewrite H1, H2.
Qed.
#[export] Instance core_stops : Core stops.
Proof. by split. Qed.
#[export] Instance core_counted_stops : Core (λ l, (counters l, stops l)).
Proof. by split. Qed.
#[export] Instance items_stops : Items stops.
Proof. by repeat split. Qed.
#[export] Hint Resolve items_stops steady_requests core_stops core_counted_stops : frame.

Section Cause.
Context {W : Type} (P : Producer W) (c : Settings) (lba : Z).

(** A bounded capture is being stopped because it was asked to. *)
Definition asked (r : bool * bool) : Prop := bounded c = true → r.1 = true ∨ r.2 = true.
Definition cause (v : StorageStopState * (bool * bool)) : Prop :=
  state v.1 = STORAGE_STOP_NONE ∨ asked v.2.
#[local] Abbreviation booked := (λ l, ledger c lba 0 (counters l)).
#[local] Abbreviation caused := (λ l, cause (stops l)).

(** What [begin_turn] promises the latch. *)
Definition told (r : outcome + Turn) (l : Locals) : Prop :=
  match r with
  | inr t => caused l ∧ (t_stop t = true → state (stop_state l) = STORAGE_STOP_NONE →
                        asked (t_external t, auto_idle_done (flags l)))
  | inl _ => caused l
  end.

Lemma begin_turn_told :
  is_u64 (requested_size c) →
  post (λ l, ledger c lba 0 (counters l) ∧ caused l) (begin_turn P c) told.
Proof.
  intros Hreq. unfold begin_turn.
  pose (pi := λ l, (counters l, stops l)).
  apply (post_bind_same _ _ _ pi (λ v, ledger c lba 0 v.1 ∧ cause v.2)); [frame|intros drain].
  apply (post_bind_same _ _ _ pi (λ v, ledger c lba 0 v.1 ∧ cause v.2)); [frame|intros flag].
  apply post_get_bind. intros l [Hl Hc].
  set (control := g_storage_control_stop_latched (globals l)).
  set (auto := auto_idle_done (flags l) || (drain && negb control)).
  pose (v := (counters l, (stop_state l, (manual_stop_seen (flags l), auto)))).
  apply (post_bind _ _ _ (λ _ l', pi l' = v)).
  { intros s w Hs. unfold v, auto. subst l.
    destruct (drain && negb control); [by rewrite orb_true_r|by rewrite orb_false_r]. }
  intros ?. apply (post_bind_same _ _ _ pi (λ x, x = v)); [frame|intros due].
  apply post_get_bind. intros l1 Hl1.
  assert (Hcause : cause (stops l1)).
  { change (cause (pi l1).2). rewrite Hl1. destruct Hc as [Hc|Hc]; [by left|right].
    intros Hb. destruct (Hc Hb) as [H|H]; [by left|right]. change (auto = true). unfold auto.
    change (auto_idle_done (flags l) = true) in H. by rewrite H. }
  assert (Hauto : auto_idle_done (flags l1) = auto) by (change ((pi l1).2.2.2 = auto); by rewrite Hl1).
  assert (Hcnt : counters l1 = counters l) by (change ((pi l1).1 = counters l); by rewrite Hl1).
  apply (post_pre _ _ (λ l', stops l' = stops l1)); [|by intros ? ->].
  apply (post_bind_same _ _ _ stops (λ x, x = stops l1)); [frame|intros d].
  assert (Hreason : (bounded c = true → bytes_captured (counters l) < requested_size c) →
    flag || control || drain || auto_idle_done (flags l) ||
      (bounded c && (requested_size c <=? bytes_captured (counters l))) = true →
    asked (flag || control, auto)).
  { intros Hlt Hst Hb. specialize (Hlt Hb). apply Z.leb_gt in Hlt. rewrite Hlt, andb_false_r, orb_false_r in Hst.
    subst auto. cbn [fst snd]. destruct flag, control, drain, (auto_idle_done (flags l)); auto. }
  assert (Hq : ∀ l', stops l' = stops l1 → cause (stops l') ∧ auto_idle_done (flags l') = auto).
  { intros l' H'. rewrite H'. split; [done|]. change ((stops l').2.2 = auto). by rewrite H'. }
  destruct (bounded c) eqn:Hb; cbn [andb]; [|by intros s w [H1 H2]%Hq; split; [|intros _ _ ?; congruence]].
  destruct (bool_decide (state (stop_state l1) = STORAGE_STOP_NONE)) eqn:Hn.
  - apply post_if; [intros _ s w H'; apply (Hq _ H')|]. rewrite Z.eqb_neq. intros Hlim s w H'.
    destruct (Hq _ H') as [H1 H2]. split; [done|]. cbn [t_stop t_external].
    intros Ht _. change (asked (flag || control, auto_idle_done (flags (vars s)))). rewrite H2. apply Hreason; [|done]. intros _.
    destruct Hl as [Q T B S R Mx C Se St Lb Bd]. specialize (Bd Hb).
    change (counters l1) with (counters l1) in Hlim. rewrite Hcnt in Hlim. change (pi l).1 with (counters l) in *.
    destruct (Z.eq_dec (bytes_captured (counters l)) (requested_size c)) as [E|E]; [|cint].
    rewrite E, Z.sub_diag in Hlim. done.
  - intros s w H'. destruct (Hq _ H') as [H1 H2]. split; [done|]. intros _ Hn'.
    apply bool_decide_eq_false in Hn. destruct Hn. rewrite <- Hn'.
    change (state (stops l1).1 = state (stops (vars s)).1). by rewrite H'.
Qed.
(** Once a request has been seen it is not forgotten. *)
Lemma inv_asked A (m : M (W := W) (outcome + A)) (Pre : Locals → Prop) :
  same requests m → (∀ l, Pre l → asked (requests l)) → post Pre m (good caused).
Proof.
  intros Hm Hp s w Hs. apply (good_mono (λ l, asked (requests l))); [by right|].
  apply (inv_same _ _ requests asked); [done|]. by apply Hp.
Qed.

Lemma latch_stop_cause t : post (λ l, told (inr t) l) (latch_stop P c t) (good caused).
Proof.
  unfold latch_stop. apply post_get_bind. intros l [Hc Ht]. apply post_if.
  { intros _. eapply post_pre; [apply inv_ret|by intros ? ->]. }
  rewrite negb_false_iff, andb_true_iff, bool_decide_eq_true. intros [H1 H2].
  specialize (Ht H1 H2). apply (post_bind _ _ _ (λ _ l', asked (requests l'))).
  { intros s w Hs. change (asked (t_external t, auto_idle_done (flags (vars s)))). by rewrite Hs. }
  intros ?. apply inv_asked; [|done]. unfold xret. frame.
Qed.

Lemma stop_sequence_cause fuel : inv caused (stop_sequence P c fuel).
Proof.
  unfold inv, stop_sequence. apply post_get_bind. intros l Hc.
  apply (post_pre _ _ (λ l', stops l' = stops l)); [|by intros ? ->]. destruct Hc as [Hn|Ha].
  - rewrite (bool_decide_eq_false_2 (state (stop_state l) = STORAGE_STOP_WAIT_BOUNDARY)) by
      (change (state (stop_state l) = STORAGE_STOP_NONE) in Hn; congruence).
    cbn [andb]. eapply post_pre; [apply (inv_same _ _ stops cause); frame|intros l' E; left; by rewrite E].
  - apply inv_asked; [|intros l' Hl'; change (asked (stops l').2); by rewrite Hl'].
    unfold stop_, xret. frame.
Qed.

Lemma idle_turn_cause t now sn : inv caused (idle_turn P c t now sn).
Proof.
  unfold idle_turn. apply inv_bind; [apply (post_same _ _ stops cause); frame|intros stop].
  case_match; [apply (inv_same _ _ stops cause); frame|].
  case_match; [apply (inv_same _ _ stops cause); unfold go_out, stop_; frame|].
  apply inv_xbind; [apply (inv_same _ _ stops cause); frame|intros ?].
  apply inv_xbind; [|intros ?; apply (inv_same _ _ stops cause); frame].
  unfold auto_idle. apply inv_bind; [apply (post_same _ _ stops cause); frame|intros l].
  apply inv_bind; [apply (post_same _ _ stops cause); frame|intros d].
  case_match; [|apply inv_ret].
  apply inv_bind; [apply (post_same _ _ stops cause); frame|intros now'].
  case_match; [|apply inv_ret].
  apply inv_bind; [apply (post_same _ _ stops cause); frame|intros ?].
  apply inv_bind; [|intros ?; apply inv_stop].
  intros s w Hs. right. intros _. by right.
Qed.
Lemma nothing_cause t rc n : inv caused (nothing_harvested P c t rc n).
Proof.
  unfold nothing_harvested, inv. apply post_get_bind. intros l Hc.
  apply (post_pre _ _ (λ l', stops l' = stops l)); [|by intros ? ->].
  assert (Hx : ∀ A (m : M (W := W) (outcome + A)), inv caused m → post (λ l', stops l' = stops l) m (good caused)).
  { intros A m Hm. eapply post_pre; [exact Hm|]. intros l' E. cbv beta. by rewrite E. }
  assert (Ha : bool_decide (state (stop_state l) = STORAGE_STOP_HARVESTING) = true →
    post (λ l', stops l' = stops l) (await_stable P c) (good caused)).
  { intros Hs%bool_decide_eq_true. apply inv_asked; [frame|]. intros l' E.
    destruct Hc as [Hn|Hc]; [change (state (stop_state l) = STORAGE_STOP_NONE) in Hn; congruence|].
    change (asked (stops l').2). by rewrite E. }
  assert (Hb : post (λ l', stops l' = stops l)
    (if bool_decide (state (stop_state l) = STORAGE_STOP_HARVESTING) then await_stable P c else
     let! _ := locked P (λ q, (storage_queue_busy_count q, q)) in
     let! now := storage_wall_time_us P in
     let! _ := locked P (λ q, (storage_queue_buffered_bytes q, q)) in
     let! _ := mod_stats storage_stats_finish_harvest_batch in
     let! n := received in
     let! r := storage_capture_bd_snapshot P c n in
     if negb (r.1 =? 0) then go_out else idle_turn P c t now r.2) (good caused)).
  { apply post_if; [exact Ha|intros _; apply Hx].
    do 6 (apply inv_bind; [apply (post_same _ _ stops cause); frame|intros ?]).
    case_match; [apply inv_stop|apply idle_turn_cause]. }
  destruct (ccb_storage_pipeline.storage_first_dma_deadline_outcome _ _ _ _ _);
    first [exact Hb | apply Hx, (inv_same _ _ stops cause); frame].
Qed.
Lemma turn_body_cause inner :
  is_u64 (requested_size c) →
  post (λ l, ledger c lba 0 (counters l) ∧ caused l) (turn_body P c inner) (good caused).
Proof.
  intros Hreq. unfold turn_body.
  eapply post_bind; [by apply begin_turn_told|]. intros [o|t].
  { intros s w Hc. by destruct o. }
  pose (toldv := λ v, cause v ∧ (t_stop t = true → state v.1 = STORAGE_STOP_NONE →
    asked (t_external t, v.2.2))).
  apply (post_xbind_to _ _ _ (λ l, toldv (stops l))); [apply (inv_same _ _ stops toldv); frame|by intros l []|].
  intros ?. apply (post_bind_same _ _ _ stops toldv); [frame|intros ?].
  apply (post_xbind _ _ _ caused); [apply latch_stop_cause|intros ?].
  apply inv_xbind; [apply stop_sequence_cause|intros ?].
  apply inv_bind; [apply (post_same _ _ stops cause); frame|intros l].
  apply inv_bind; [apply (post_same _ _ stops cause); frame|intros [rc its]].
  destruct its; [case_match; [|apply nothing_cause]|].
  all: apply (inv_same _ _ stops cause); frame.
Qed.
End Cause.
(** ** The loop *)
Section Loop.
Context {W : Type} (P : Producer W) (c : Settings) (lba : Z).

(** What holds at the head of every turn. *)
Definition in_order (l : Locals) : Prop := ledger c lba 0 (counters l) ∧ cause c (stops l).

Lemma turn_in_order inner :
  is_u64 (requested_size c) →
  post in_order (turn P c inner) (λ o l, match o with Again | Leave => in_order l | _ => True end).
Proof.
  intros Hreq. unfold turn.
  apply (post_bind _ _ _ (good in_order)).
  - intros s w Hs. pose proof (turn_body_ledger P c lba inner s w (proj1 Hs)) as H1.
    pose proof (turn_body_cause P c lba inner Hreq s w Hs) as H2.
    unfold good in *. by repeat case_match.
  - intros r s w Hs. by destruct r as [[]|].
Qed.

Lemma capture_loop_in_order inner : is_u64 (requested_size c) → ∀ fuel,
  post in_order (capture_loop P c fuel inner) (fine in_order).
Proof.
  intros Hreq. induction fuel as [|fuel IH]; cbn [capture_loop]; [by intros s w _|].
  eapply post_bind; [by apply turn_in_order|]. intros []; [exact IH|..]; by intros s w.
Qed.

Lemma start_capture_in_order inner : inv in_order (start_capture P c inner).
Proof.
  apply (inv_same _ _ (λ l, (counters l, stops l)) (λ v, ledger c lba 0 v.1 ∧ cause c v.2)).
  unfold start_capture, pass_gate, wait_writer_ready, arm_producer, announce_running, queue_error,
    go_out, stop_, xret. frame.
Qed.
End Loop.
End producer_turn.
