(* ===== verification/ProducerSound.v ===== *)
(** * The producer of a capture: what a successful capture means

    The verdict of [execute_write_with_result_mode]: a capture that returns 0
    has written every byte it received, and nothing else; and a bounded capture
    only returns 0 when it was asked to stop. *)
From S2P Require Import Prelude StorageError SlotTable Pipeline Worker Writer Stop CStdlib Bytes Config Ipc Diag DmaRing CrossSlot CcbTypes WriteQueue WriterThread CmdConfig ProducerStats ProducerBatch ProducerRun ProducerEnd ProducerExample ProducerLogic ProducerSafe ProducerTurn.

Module producer_sound.
Import storage_stop storage_writer storage_write_queue ccb_capture ccb_capture_batch ccb_capture_run ccb_capture_end producer_logic producer_safety producer_turn producer_example.

(** The result of a capture that has written what it received. *)
Record sound_result (c : Settings) (plan : Plan) (r : Result) : Prop := {
  so_verdict : r_receive_integrity_ok r = true ∧ r_storage_integrity_ok r = true ∧ r_integrity_ok r = true;
  (** what was received was queued, completed by the device and is in the file *)
  so_received : dma_received_bytes (r_counters r) = r_file_bytes r;
  so_harvested : dma_harvested_payload_bytes (r_counters r) = r_file_bytes r;
  so_queued : queued_payload_bytes (r_counters r) = r_file_bytes r;
  so_completed : r_nvme_completed_bytes r = r_file_bytes r;
  so_tail : tail_unqueued_bytes (r_counters r) = 0;
  (** nothing is left on the way *)
  so_unharvested : r_completed_unharvested_bytes r = 0 ∧ r_final_completed_unharvested r = 0;
  so_empty : r_final_ready_count r = 0 ∧ r_final_active_count r = 0 ∧ r_final_global_inflight r = 0;
  so_commands : r_submit_count r = r_completion_count r;
  so_persisted : r_data_persisted r = true;
  so_ring : buffered_bytes (r_totals r) = 0;
  (** the sectors of the file are the bytes of the file *)
  so_start : r_start_lba r = start_lba plan;
  so_planned : r_metadata_slot r = metadata_slot plan ∧ r_file_index r = effective_file_index plan;
  so_sectors : r_file_bytes r = ccb_types.SECTOR_SIZE * r_sector_count r;
  so_range : 0 <= r_sector_count r ∧ r_start_lba r + r_sector_count r <= UINT64_MAX;
  (** the number of bytes is the one that was asked for *)
  so_expected : ∀ n, r_expected r = Some n → r_file_bytes r = n;
  so_bounded : bounded c = true → r_file_bytes r <= requested_size c }.

Section Judge.
Context {W : Type} (P : Producer W) (c : Settings) (plan : Plan).
#[local] Abbreviation lba := (start_lba plan).

Lemma drain_scans_ok n inv : ∀ st s w,
  (drain_scans P c n inv st (s, w)).1 = true → storage_drain_invariant_ok inv = true.
Proof.
  induction n as [|n IH]; intros st s w; cbn [drain_scans]; [done|].
  unfold ebind at 1. destruct (storage_wall_time_us P (s, w)) as [now [s' w']].
  unfold storage_drain_stable_observe. destruct (storage_drain_invariant_ok inv); [done|].
  done.
Qed.

(** What the verdict starts from. *)
Definition settled (l : Locals) : Prop :=
  ledger c lba 0 (counters l) ∧ total_sectors (finals l) = u64 (next_queue_lba (counters l) - lba).

Lemma end_to_end_expected l nvme n :
  end_to_end_ok c l nvme = true → expected_bytes_setting c = Some n → dma_received_bytes (counters l) = n.
Proof.
  unfold end_to_end_ok. intros H E. rewrite E in H. apply andb_true_iff in H as [H _]. lia.
Qed.

Lemma result_ok_sound l nvme :
  is_u64 (requested_size c) → settled l →
  storage_drain_invariant_ok (drain_invariant l nvme) = true → end_to_end_ok c l nvme = true →
  (tail_unqueued_bytes (counters l) =? 0) = true → (completed_unharvested_bytes (finals l) =? 0) = true →
  data_persisted (flags l) = true →
  sound_result c plan (result_ok c plan l nvme true true true).
Proof.
  intros Hreq [L Hsec] Hd He Ht Hc Hp. unfold storage_drain_invariant_ok in Hd.
  repeat case_match; [done..|]. rewrite !andb_true_iff, !Z.eqb_eq in Hd. rewrite Z.eqb_eq in Ht, Hc.
  unfold drain_invariant in Hd. cbn in Hd. destruct L as [Q T B S R Mx C Se St Lb Bd].
  assert (Hse : ccb_types.SECTOR_SIZE = 512) by done.
  rewrite u64_small in Hsec by cint.
  split; cbn; try split_and!; try lia; try done.
  - intros n Hn. pose proof (end_to_end_expected l nvme n He Hn). lia.
  - intros Hb. specialize (Bd Hb). cint.
Qed.

Lemma judge_capture_sound :
  is_u64 (requested_size c) →
  post (λ l, settled l ∧ data_persisted (flags l) = true) (judge_capture P c plan)
    (λ r _, ∀ res, r = inr (0, res) → sound_result c plan res).
Proof.
  intros Hreq. unfold judge_capture. apply post_get_bind. intros l [Hl Hp].
  pose (pi := λ l, (counters l, (finals l, (flags l, stop_state l)))).
  assert (Hpi : Core pi) by by split.
  apply (post_pre _ _ (λ l', pi l' = pi l)); [|by intros ? ->].
  apply (post_bind_same _ _ _ pi (λ v, v = pi l)); [frame|intros nvme].
  apply (post_bind _ _ _ (λ (drained : bool) l', pi l' = pi l ∧
    (drained = true → storage_drain_invariant_ok (drain_invariant l nvme) = true))).
  { intros s w Hs. split; [|apply drain_scans_ok]. rewrite <- Hs. by apply (same_scans P c pi). }
  intros drained. apply (post_bind_same _ _ _ pi (λ v, v = pi l ∧ (drained = true →
    storage_drain_invariant_ok (drain_invariant l nvme) = true))); [frame|intros ?].
  apply post_get_bind. intros l1 [Hl1 Hok] s w _ res. cbn [xret eret fst]. intros Hr.
  injection Hr as Hrc <-.
  destruct (dma_stop_failed (flags l1)); [done|]. cbn [orb] in Hrc.
  destruct (receive_integrity_ok (receive (stats l1)) && negb (integrity_risk_ring_full (full (stats l1))));
    [|done]. cbn [andb negb orb] in Hrc |- *.
  assert (E1 : counters l1 = counters l) by (change ((pi l1).1 = counters l); by rewrite Hl1).
  assert (E2 : finals l1 = finals l) by (change ((pi l1).2.1 = finals l); by rewrite Hl1).
  assert (E3 : drain_invariant l1 nvme = drain_invariant l nvme).
  { unfold drain_invariant. rewrite E1, E2. change (stop_state l1) with (pi l1).2.2.2.
    change (flags l1) with (pi l1).2.2.1. by rewrite Hl1. }
  assert (E4 : flags l1 = flags l) by (change ((pi l1).2.2.1 = flags l); by rewrite Hl1).
  clearbody pi. set (ok := _ && negb (_ && _)) in Hrc |- *.
  destruct (end_to_end_ok c l1 nvme) eqn:He; [|done].
  destruct (tail_unqueued_bytes (counters l1) =? 0) eqn:Ht; [|done].
  destruct ok eqn:Hst; [|done]. subst ok. cbn [andb].
  rewrite !andb_true_iff in Hst. destruct Hst as [[[[_ _] Hc] Hd] _].
  apply result_ok_sound; try done; [|by rewrite E3; auto|by rewrite E2|by rewrite E4].
  destruct Hl as [L Hsec]. split; by rewrite ?E1, ?E2.
Qed.
(** ** Up to the verdict *)
Definition counted_requests (l : Locals) : Counters * (bool * bool) := (counters l, requests l).

#[export] Instance steady_counted_requests : Steady counted_requests.
Proof.
  repeat split. intros f l H. unfold counted_requests, requests. destruct (H (flags l)) as (H1&H2&_).
  change ((counters l, (manual_stop_seen (f (flags l)), auto_idle_done (f (flags l)))) = counted_requests l).
  by rewrite H1, H2.
Qed.
#[local] Hint Resolve steady_counted_requests : frame.

Lemma drain_writer_asked inner :
  post (in_order c lba) (drain_writer P c inner)
    (good (λ l, ledger c lba 0 (counters l) ∧ asked c (requests l))).
Proof.
  pose (pi := λ l, (counters l, stops l)).
  unfold drain_writer.
  do 3 (apply (post_bind_same _ _ _ pi (λ v, ledger c lba 0 v.1 ∧ cause c v.2)); [frame|intros ?]).
  apply post_get_bind. intros l [HL Hc]. apply post_if.
  { intros _. do 2 (eapply post_bind; [apply post_true|intros ?]). by intros s w _. }
  rewrite orb_false_iff, !negb_false_iff, bool_decide_eq_true. intros [_ Hst].
  assert (Ha : asked c (requests l)).
  { destruct Hc as [Hn|Hc]; [|done]. change (state (stop_state l) = STORAGE_STOP_NONE) in Hn. congruence. }
  apply (post_pre _ _ (λ l', counted_requests l' = counted_requests l)); [|by intros ? ->].
  eapply post_pre; [apply (inv_same _ _ counted_requests (λ v, ledger c lba 0 v.1 ∧ asked c v.2))|
    intros l' E; cbv beta; by rewrite E].
  unfold go_out, stop_. frame.
Qed.

Lemma close_queue_settled :
  post (λ l, ledger c lba 0 (counters l)) (close_queue P plan) (good settled).
Proof.
  unfold close_queue.
  apply post_get_bind. intros l Hl. apply (post_pre _ _ (λ l', counters l' = counters l)); [|by intros ? ->].
  do 2 (apply (post_bind_same _ _ _ counters (λ k, k = counters l)); [frame|intros ?]).
  apply post_if; [intros _; apply post_out|intros _].
  apply (post_bind_same _ _ _ counters (λ k, k = counters l)); [frame|intros q].
  apply post_if; [by intros _ s w _|intros _].
  do 6 (apply (post_bind_same _ _ _ counters (λ k, k = counters l)); [frame|intros ?]).
  apply post_if; [intros _; apply post_out|intros _].
  do 5 (apply (post_bind_same _ _ _ counters (λ k, k = counters l)); [frame|intros ?]).
  apply (post_bind _ _ _ (λ _, settled)).
  { intros s w Hs. set (l' := vars s) in *. rewrite <- Hs in Hl. by split. }
  intros ?. apply post_get_bind. intros l' Hl'. apply post_if; [by intros _ s w _|intros _].
  eapply post_pre; [apply inv_ret|by intros ? ->].
Qed.

Lemma close_queue_requests : same requests (close_queue P plan).
Proof. unfold close_queue, go_out, stop_, xret. frame. Qed.
Lemma judge_requests : same requests (judge_capture P c plan).
Proof. unfold judge_capture, xret. frame. Qed.

Lemma commit_local_persists : post (λ l, settled l ∧ asked c (requests l)) (commit_local P c plan)
  (good (λ l, (settled l ∧ asked c (requests l)) ∧ data_persisted (flags l) = true)).
Proof.
  pose (pi := λ l, (counters l, (finals l, requests l))).
  assert (Hpi : Core pi) by by split.
  pose (Pre := λ v, (ledger c lba 0 v.1 ∧ total_sectors v.2.1 = u64 (next_queue_lba v.1 - lba)) ∧ asked c v.2.2).
  intros s w Hs.
  pose proof (inv_same _ _ pi Pre (commit_local P c plan)
    ltac:(unfold commit_local, go_out, lift, stop_, xret; frame) s w Hs) as H1.
  cut (good (λ l, data_persisted (flags l) = true) (commit_local P c plan (s, w)).1 (vars (commit_local P c plan (s, w)).2.1)).
  { revert H1. unfold good. destruct (commit_local P c plan (s, w)).1 as [[]|]; intros H1 H2; first [exact I|exact (conj H1 H2)]. }
  change (wp (commit_local P c plan) (λ r st, good (λ l, data_persisted (flags l) = true) r (vars st.1)) (s, w)).
  unfold commit_local. apply wp_bind. unfold wp at 1. cbn [get sget ebind eret fst snd]. apply wp_bind, wp_sio_any. intros nvme w1.
  apply wp_bind. unfold wp at 1. destruct (queue_of _) as [q st]. apply wp_xbind.
  apply (wp_mono _ (λ r _, ∀ o, r = inl o → o = GoOut)).
  - destruct (may_commit _ _ _ _); [|by apply wp_ret]. apply wp_bind. destruct st as [s2 w2]. apply wp_sio_any. intros rc w3.
    destruct (negb _); apply wp_ret; by intros o [= <-].
  - intros [o|u] [s3 w3] Ho; [by rewrite (Ho o eq_refl)|done].
Qed.

(** What a capture that has left its loop well returns. *)
Definition verdict (r : outcome + (Z * Result)) (l : Locals) : Prop :=
  ∀ res, r = inr (0, res) → sound_result c plan res ∧ asked c (requests l).

Lemma finish_capture_verdict inner :
  is_u64 (requested_size c) → post (in_order c lba) (finish_capture P c plan inner) verdict.
Proof.
  intros Hreq. unfold finish_capture.
  eapply post_bind; [apply drain_writer_asked|]. intros [o|?]; [by intros s w _ res|].
  eapply post_bind.
  { apply (inv_same _ _ counted_requests (λ v, ledger c lba 0 v.1 ∧ asked c v.2)). frame. }
  intros [o|?]; [by intros s w _ res|].
  apply (post_bind _ _ _ (good (λ l, settled l ∧ asked c (requests l)))).
  { intros s w [HL Ha].
    pose proof (close_queue_settled s w HL) as H1.
    pose proof (inv_same _ _ requests (asked c) (close_queue P plan) close_queue_requests s w Ha) as H2.
    unfold good in *. by repeat case_match. }
  intros [o|?]; [by intros s w _ res|].
  eapply post_bind; [apply commit_local_persists|].
  intros [o|?]; [by intros s w _ res|]. intros s w ([Hs Ha]&Hp) res Hr.
  split; [by apply (judge_capture_sound Hreq s w (conj Hs Hp))|].
  by rewrite (judge_requests s w).
Qed.
(** ** The whole capture *)
#[export] Instance items_requests : Items requests.
Proof. by repeat split. Qed.
#[local] Hint Resolve items_requests : frame.

Lemma clean_up_requests inner : same requests (clean_up P c inner).
Proof. unfold clean_up, close_queue_late, lift, xret. frame. Qed.

Lemma leave_capture_requests r : same requests (leave_capture P plan r).
Proof. unfold leave_capture, fail_capture. frame. Qed.

Lemma run_verdict fuel inner :
  is_u64 (requested_size c) →
  post (in_order c lba) (let? _ := start_capture P c inner in
     let? _ := capture_loop P c fuel inner in finish_capture P c plan inner) verdict.
Proof.
  intros Hreq. eapply post_bind; [apply start_capture_in_order|]. intros [o|?]; [by intros s w _ res|].
  eapply post_bind; [by apply capture_loop_in_order|]. intros [o|?]; [by intros s w _ res|].
  by apply finish_capture_verdict.
Qed.

(** A capture that returns 0 has the verdict's result, and the runtime is only
    closed when the engine is off. *)
Definition left (r : outcome + (Z * Result)) (e : Ended) (l : Locals) : Prop :=
  (e_rc e = 0 → r = inr (0, e_result e)) ∧ (e_closed e = true → engine_off l = true).

Lemma fail_capture_post rc b o closed l :
  post (λ l', l' = l) (fail_capture P plan rc b o closed)
    (λ e l', e_rc e = rc ∧ e_closed e = closed ∧ engine_off l' = engine_off l).
Proof.
  pose (pi := λ l, (flags l, dma_stop_result l)). assert (Hpi : Core pi) by by split.
  unfold fail_capture. apply (post_pre _ _ (λ l', pi l' = pi l)); [|by intros ? ->].
  do 4 (apply (post_bind_same _ _ _ pi (λ v, v = pi l)); [frame|intros ?]).
  intros s w Hs. split_and!; [done..|]. cbn. unfold engine_off.
  change (flags (vars s)) with (pi (vars s)).1. change (dma_stop_result (vars s)) with (pi (vars s)).2.
  by rewrite Hs.
Qed.

Lemma leave_capture_post r : post (λ _, True) (leave_capture P plan r) (left r).
Proof.
  unfold leave_capture. apply post_get_bind. intros l _.
  apply (post_bind _ _ _ (λ _ l', l' = l)); [by intros s w|intros q].
  set (closed := _ && engine_off l).
  assert (Hc : closed = true → engine_off l = true) by (unfold closed; by intros [_ ?]%andb_true_iff).
  clearbody closed. destruct r as [o|[rc res]].
  - eapply post_weaken; [apply (fail_capture_post (-1) _ _ _ l)|done|]. intros e l' (H1&H2&H3). split; [lia|].
    rewrite H2, H3. done.
  - apply post_if.
    + rewrite Z.eqb_eq. intros -> s w Hs. cbn in Hs |- *. by subst l.
    + rewrite Z.eqb_neq. intros Hrc. eapply post_weaken; [apply (fail_capture_post rc _ _ _ l)|done|].
      intros e l' (H1&H2&H3). split; [lia|]. by rewrite H2, H3.
Qed.

Lemma capture_post fuel inner :
  is_u64 (requested_size c) →
  post (in_order c lba) (capture P c plan fuel inner)
    (λ o l, ∀ e, o = Some e → e_rc e = 0 → sound_result c plan (e_result e) ∧ asked c (requests l)).
Proof.
  intros Hreq. unfold capture. eapply post_bind; [by apply run_verdict|]. intros r.
  apply post_if; [by intros _ s w _ e|intros _].
  apply (post_bind_same _ _ _ requests (λ v, ∀ res, r = inr (0, res) → sound_result c plan res ∧ asked c v));
    [apply clean_up_requests|intros [o|?]]; [by intros s w _ e|].
  intros s w Hv. unfold ebind. pose proof (leave_capture_post r s w I) as [Hz _].
  pose proof (leave_capture_requests r s w) as Hq.
  destruct (leave_capture P plan r (s, w)) as [e [s' w']]. cbn [fst snd eret] in *.
  intros e' [= <-] H0. rewrite Hq. by apply Hv, Hz.
Qed.

Lemma init_in_order p :
  is_u64 lba → in_order c lba (locals_init p lba).
Proof.
  intros Hl. split; [|by left]. split; cbn; try lia; try done. all: cint.
Qed.
End Judge.

(** ** The properties *)
(** C5: a capture that returns 0 has written exactly what it received.  Through
    the start of the capture, every turn of its loop, the drain of the writer,
    the verdict and the clean-up, and whatever the writer thread, the other
    processes, the engine and the device do in between: when
    [execute_write_with_result_mode] returns 0, the bytes received from the
    engine, the bytes harvested, the bytes queued for the writer, the bytes the
    device completed and the bytes of the file are the same number; no byte was
    left out as a tail, no descriptor and no command is pending, the ring is
    empty, every submitted command is completed; the data counts as persisted;
    the file has the slot and
    the index of the plan and is a whole number of sectors, exactly those between
    the planned first sector and the next free one; the number of bytes is the
    one the environment expects, when it names one, and at most the requested
    one of a bounded capture. *)
Theorem capture_success_sound (W : Type) (P : Producer W) (c : Settings) (plan : Plan) (p : Pressure)
    (fuel inner : nat) (s : State) (w : W) (e : Ended) (s' : State) (w' : W) :
  is_u64 (requested_size c) → is_u64 (start_lba plan) →
  vars s = locals_init p (start_lba plan) →
  capture P c plan fuel inner (s, w) = (Some e, (s', w')) → e_rc e = 0 →
  sound_result c plan (e_result e).
Proof.
  intros Hreq Hlba Hs Hc H0.
  pose proof (capture_post P c plan fuel inner Hreq s w) as H. rewrite Hc, Hs in H.
  by apply (H (init_in_order c plan p Hlba) e eq_refl H0).
Qed.

(** The capture that a signal stops after 1024 bytes. *)
Lemma capture_success_sound_witness :
  ∃ e, example_run.1 = Some e ∧ r_file_bytes (e_result e) = 1024 ∧ r_sector_count (e_result e) = 2 ∧
    sound_result example_settings example_plan (e_result e).
Proof.
  assert (Hr : ends_with example_run 0 1024 true = true) by (vm_compute; reflexivity).
  pose proof (capture_success_sound World example_producer example_settings example_plan
    (pressure_init 0 0 0) 20 20 example_start (1, 0)) as H.
  unfold example_run in *. destruct (capture _ _ _ _ _ _) as [[e|] [s' w']]; [|discriminate].
  unfold ends_with in Hr. cbn [fst] in Hr. rewrite !andb_true_iff, !Z.eqb_eq in Hr.
  destruct Hr as [[Hrc Hb] _]. exists e.
  specialize (H e s' w' ltac:(split; vm_compute; congruence) ltac:(split; vm_compute; congruence)
    eq_refl eq_refl Hrc).
  pose proof (so_sectors _ _ _ H) as Hsec. split_and!; [reflexivity|exact Hb| |exact H].
  rewrite Hb in Hsec. change ccb_types.SECTOR_SIZE with 512 in Hsec. lia.
Defined.

(** Someone has asked the capture to stop: a signal or a command of the parent,
    or the end of the input. *)
Definition stop_asked (l : Locals) : bool := manual_stop_seen (flags l) || auto_idle_done (flags l).

(** C31: a bounded capture does not end well by itself.  When a capture of a
    given size returns 0, it was asked to stop, by a signal, by the parent or
    because its input was idle.  So a capture that has received exactly the
    bytes it was to receive, and that nobody stops, fails: the loop is left
    before the stop is latched, and the drain finds that nothing was stopped. *)
Theorem bounded_capture_needs_stop (W : Type) (P : Producer W) (c : Settings) (plan : Plan)
    (p : Pressure) (fuel inner : nat) (s : State) (w : W) (e : Ended) (s' : State) (w' : W) :
  bounded c = true → is_u64 (requested_size c) → is_u64 (start_lba plan) →
  vars s = locals_init p (start_lba plan) →
  capture P c plan fuel inner (s, w) = (Some e, (s', w')) → e_rc e = 0 →
  stop_asked (vars s') = true.
Proof.
  intros Hb Hreq Hlba Hs Hc H0.
  pose proof (capture_post P c plan fuel inner Hreq s w) as H. rewrite Hc, Hs in H.
  destruct (H (init_in_order c plan p Hlba) e eq_refl H0) as [_ Ha].
  apply orb_true_iff. exact (Ha Hb).
Qed.

(** The same capture with a signal, and one that has all its bytes and no
    signal: it returns -1. *)
Lemma bounded_capture_needs_stop_witness :
  (∃ s' w' e, example_run = (Some e, (s', w')) ∧ stop_asked (vars s') = true) ∧
  ends_with (capture example_producer (bounded_settings 512) example_plan 20 100
    (example_start, (1, 0))) (-1) 512 true = true.
Proof.
  split; [|vm_compute; reflexivity].
  assert (Hr : ends_with example_run 0 1024 true = true) by (vm_compute; reflexivity).
  pose proof (bounded_capture_needs_stop World example_producer example_settings example_plan
    (pressure_init 0 0 0) 20 20 example_start (1, 0)) as H.
  unfold example_run in *. destruct (capture _ _ _ _ _ _) as [[e|] [s' w']]; [|discriminate].
  unfold ends_with in Hr. cbn [fst] in Hr. rewrite !andb_true_iff, !Z.eqb_eq in Hr.
  destruct Hr as [[Hrc Hb] _]. exists s', w', e. split; [reflexivity|].
  exact (H e s' w' eq_refl ltac:(split; vm_compute; congruence) ltac:(split; vm_compute; congruence)
    eq_refl eq_refl Hrc).
Defined.
End producer_sound.
