(* ===== verification/ProducerQuiesce.v ===== *)
(** * The producer of a capture: the engine is stopped before its memory goes

    The record of the quiesce of the DMA engine is true through the whole
    capture, so that the runtime - and with it the memory that the engine writes
    to - is only closed when the engine was never started or has been stopped. *)
From S2P Require Import Prelude StorageError SlotTable Pipeline Worker Writer Stop CStdlib Bytes Config Ipc Diag DmaRing CrossSlot CcbTypes WriteQueue WriterThread CmdConfig ProducerStats ProducerBatch ProducerRun ProducerEnd ProducerExample ProducerLogic ProducerSafe ProducerTurn ProducerSound.

Module producer_quiesce.
Import storage_stop storage_write_queue ccb_capture ccb_capture_batch ccb_capture_run ccb_capture_end producer_logic producer_sound producer_example.

(** What is known of the engine: the flag, the result, the record of the stop. *)
Definition engine (l : Locals) : bool * (Z * StorageDmaQuiesceState) :=
  (dma_quiesced (flags l), (dma_stop_result l, quiesce (stop_state l))).

#[export] Instance phase_engine : Phase engine.
Proof.
  repeat split.
  - intros f l H. destruct (H (flags l)) as (_&_&H1&_). unfold engine.
    change ((dma_quiesced (f (flags l)), (dma_stop_result l, quiesce (stop_state l))) = engine l).
    by rewrite H1.
  - intros f l H. change ((dma_quiesced (flags l), (dma_stop_result l, quiesce (f (stop_state l)))) = engine l).
    by rewrite H.
Qed.
#[export] Instance asks_engine : Asks engine.
Proof. by split; [apply _|..]. Qed.
#[export] Instance items_engine : Items engine.
Proof. by split; [apply _|..]. Qed.
#[export] Hint Resolve phase_engine asks_engine items_engine : frame.

(** The engine has stopped in one of the ways that are safe. *)
Definition stopped (q : StorageDmaQuiesceState) : Prop :=
  started q = true ∧ finished q = true ∧ result q ≠ ccb_dma.DMA_STOP_FAILED.
Definition honest (v : bool * (Z * StorageDmaQuiesceState)) : Prop :=
  (v.1 = true → stopped v.2.2) ∧ (v.2.1 = ccb_dma.DMA_STOP_RESET_RECOVERED → v.1 = true).

Section Quiesce.
Context {W : Type} (P : Producer W) (c : Settings) (plan : Plan).
#[local] Abbreviation ok := (λ l, honest (engine l)).

(** [m] keeps the record true, whatever it answers. *)
Definition keeps {A} (m : M (W := W) A) : Prop := post ok m (λ _, ok).

Lemma keeps_same A (m : M A) : same engine m → keeps m.
Proof. apply (post_same _ _ engine honest). Qed.
Lemma keeps_seq A B (m : M A) (k : A → M B) : keeps m → (∀ a, keeps (k a)) → keeps (ebind m k).
Proof. intros Hm Hk. by apply (post_bind _ _ _ (λ _, ok)). Qed.
Lemma keeps_xbind A B (m : M (outcome + A)) (k : A → M (outcome + B)) :
  keeps m → (∀ a, keeps (k a)) → keeps (xbind m k).
Proof. intros Hm Hk. apply keeps_seq; [done|]. intros [o|a]; [|done]. by intros s w. Qed.

Lemma quiesce_epoch_keeps fuel :
  post ok (storage_dma_quiesce_epoch P fuel) (λ r l, ok l ∧
    ∀ x, r = inr x → x ≠ ccb_dma.DMA_STOP_FAILED → stopped (quiesce (stop_state l))).
Proof.
  unfold storage_dma_quiesce_epoch. apply post_get_bind. intros l Hl.
  apply (post_bind _ _ _ (λ r l', engine l' = engine l ∧ (r.2 = quiesce (stop_state l) ∧
    (r.1 ≠ ccb_dma.DMA_STOP_FAILED → stopped r.2) ∨ started (quiesce (stop_state l)) = false ∧
    started r.2 = true ∧ finished r.2 = true ∧ result r.2 = r.1))).
  { unfold storage_dma_quiesce_once. set (q := quiesce (stop_state l)).
    apply (post_pre _ _ (λ l', engine l' = engine l)); [|by intros ? ->].
    apply post_if; [by intros _ s w Hs; split; [|left]|intros _].
    apply post_if; [intros Hst|intros Hst].
    - apply post_if; [by intros _ s w Hs; split; [|left]|].
      rewrite orb_false_iff, !negb_false_iff. intros [_ Hf] s w Hs. split; [done|left]. by split.
    - apply (post_bind_same _ _ _ engine (λ v, v = engine l));
        [unfold storage_dma_quiesce_invoke; frame|].
      intros r s w Hs. split; [done|right]. by split_and!. }
  intros [r q]. apply (post_bind _ _ _ (λ _ l', ok l' ∧
    (r ≠ ccb_dma.DMA_STOP_FAILED → stopped (quiesce (stop_state l'))))).
  { intros s w [He Hq]. change (engine (vars s)) with (engine (vars s)) in He.
    change (honest ((engine (vars s)).1, ((engine (vars s)).2.1, q)) ∧
      (r ≠ ccb_dma.DMA_STOP_FAILED → stopped q)). rewrite He. cbn [fst snd] in Hq.
    destruct Hl as [H1 H2]. destruct Hq as [[-> Hq]|(Hn&Hs&Hf&Hr)].
    - by split; [split|].
    - split; [split; [|done]|intros ?; split_and!; by rewrite ?Hr]. cbn [fst snd].
      intros Hd. destruct (H1 Hd) as [Hc _]. cbn in Hc. congruence. }
  intros ?. apply post_if; intros _ s w [Hs Hq]; split; try done. by intros x [= <-].
Qed.

Lemma quiesce_engine_keeps fuel m : keeps m → keeps (quiesce_engine P c fuel m).
Proof.
  intros Hm. unfold quiesce_engine.
  do 3 (apply keeps_seq; [apply keeps_same; frame|intros ?]).
  eapply post_bind; [apply quiesce_epoch_keeps|]. intros [o|r]; [by intros s w []|].
  apply post_if.
  - intros _. apply (post_pre _ _ ok); [|by intros ? []].
    do 3 (apply keeps_seq; [apply keeps_same; frame|intros ?]).
    apply keeps_seq; [done|]. intros ?. by intros s w.
  - rewrite Z.eqb_neq. intros Hr s w [[H1 H2] Hs]. specialize (Hs r eq_refl Hr).
    by split.
Qed.
(** Steps that keep the record, in sequence. *)
Ltac keep := repeat first
  [ simple apply quiesce_engine_keeps | apply keeps_same; solve [eauto 5 with frame]
  | simple apply keeps_xbind; [|intros ?] | simple apply keeps_seq; [|intros ?] | case_match
  | apply keeps_same; solve [unfold stop_, xret; frame] ].

Lemma stop_sequence_keeps fuel : keeps (stop_sequence P c fuel).
Proof. unfold stop_sequence, reach_boundary, stop_dry, lift. keep. Qed.

Lemma turn_keeps inner : keeps (turn P c inner).
Proof.
  unfold turn, turn_body. apply keeps_seq; [|by intros r s w].
  do 2 (apply keeps_xbind; [keep|intros ?]). apply keeps_seq; [keep|intros ?].
  apply keeps_xbind; [keep|intros ?]. apply keeps_xbind; [apply stop_sequence_keeps|intros ?].
  apply keeps_seq; [keep|intros l]. apply keeps_seq; [keep|intros [rc its]].
  destruct its; [case_match|]; apply keeps_same.
  - apply (same_harvest_error P c engine).
  - apply (same_nothing P c engine).
  - apply (same_harvested_turn P c engine).
Qed.
Lemma capture_loop_keeps fuel inner : keeps (capture_loop P c fuel inner).
Proof.
  induction fuel as [|fuel IH]; cbn [capture_loop]; [by intros s w|].
  apply keeps_seq; [apply turn_keeps|]. intros []; [done|..]; by intros s w.
Qed.
Lemma start_capture_keeps inner : keeps (start_capture P c inner).
Proof.
  apply keeps_same. unfold start_capture, pass_gate, wait_writer_ready, arm_producer, announce_running,
    queue_error, go_out, stop_, xret. frame.
Qed.

Lemma finalize_engine_keeps inner : keeps (finalize_engine P inner).
Proof.
  unfold finalize_engine. apply keeps_xbind; [keep|intros r]. apply keeps_seq.
  { intros s w [H1 H2]. unfold mod_vars, smod. cbn [fst snd vars].
    set (l := vars s) in *. change (honest (engine (if dma_quiesced (flags l) &&
      negb (dma_stop_result l =? ccb_dma.DMA_STOP_RESET_RECOVERED)
      then l <| dma_stop_result := r |> else l))). clearbody l.
    destruct (dma_quiesced (flags l)) eqn:Hd; cbn [andb]; [|by split].
    case_match; [|by split]. split; [exact H1|]. intros _. exact Hd. }
  intros ?. unfold lift. keep.
Qed.
Lemma finish_capture_keeps inner : keeps (finish_capture P c plan inner).
Proof.
  unfold finish_capture. apply keeps_xbind; [keep|intros ?].
  apply keeps_xbind; [apply finalize_engine_keeps|intros ?].
  apply keeps_xbind; [apply keeps_same; unfold close_queue, go_out, stop_, xret; frame|intros ?].
  unfold judge_capture. keep.
Qed.

Lemma quiesce_late_keeps inner : keeps (quiesce_late P inner).
Proof.
  unfold quiesce_late. apply keeps_seq; [keep|intros l]. case_match; [keep|].
  eapply post_bind; [apply quiesce_epoch_keeps|]. intros [o|r]; [by intros s w []|].
  destruct (Z.eqb_spec r ccb_dma.DMA_STOP_FAILED) as [->|Hr]; cbn [negb].
  - apply (post_pre _ _ ok); [|by intros ? []]. unfold lift. keep.
  - unfold lift. apply (post_bind _ _ _ (λ _, ok)); [|intros ?; keep].
    apply (post_bind _ _ _ (λ _, ok)); [|intros ?; keep].
    intros s w [[H1 H2] Hs]. specialize (Hs r eq_refl Hr). by split.
Qed.
Lemma stop_engine_keeps inner : keeps (stop_engine P c inner).
Proof.
  unfold stop_engine. do 2 (apply keeps_seq; [keep|intros ?]).
  apply keeps_xbind; [apply quiesce_late_keeps|intros ?]. unfold lift. keep.
Qed.
Lemma finalize_late_keeps inner : keeps (finalize_late P inner).
Proof.
  unfold finalize_late. apply post_get_bind. intros l Hl.
  apply (post_pre _ _ (λ l', engine l' = engine l)); [|by intros ? ->].
  assert (Hok : ∀ A (m : M (W := W) A), keeps m → post (λ l', engine l' = engine l) m (λ _, ok)).
  { intros A m Hm. eapply post_pre; [exact Hm|]. intros l' E. cbv beta. by rewrite E. }
  apply post_if; [|intros _; apply Hok; keep]. rewrite !andb_true_iff. intros [[_ Hd] _].
  apply (post_bind _ _ _ (λ _ l', engine l' = engine l)).
  { intros s w <-. by apply (same_dma_finalize P engine). }
  intros [o|r]; [apply Hok; by intros s w|].
  apply (post_bind _ _ _ (λ _, ok)); [|intros ?; unfold lift; keep].
  intros s w He. set (l' := vars s) in *. change (honest ((engine l').1, (r, (engine l').2.2))).
  rewrite He. destruct Hl as [H1 H2]. by split.
Qed.
Lemma clean_up_keeps inner : keeps (clean_up P c inner).
Proof.
  unfold clean_up. do 4 (apply keeps_seq; [keep|intros ?]).
  apply keeps_xbind; [case_match; [apply stop_engine_keeps|unfold lift; keep]|intros ?].
  apply keeps_xbind; [keep|intros ?]. apply keeps_xbind; [apply finalize_late_keeps|intros ?].
  unfold close_queue_late, lift. keep.
Qed.

(** What [engine_off] means while the record is true. *)
Lemma engine_off_stopped l :
  ok l → engine_off l = true → dma_started (flags l) = false ∨ stopped (quiesce (stop_state l)).
Proof.
  intros [H1 H2]. unfold engine_off. rewrite !orb_true_iff, negb_true_iff, Z.eqb_eq.
  intros [[H|H]|H]; [by left|right; by apply H1|right; by apply H1, H2].
Qed.

Lemma capture_keeps fuel inner :
  post ok (capture P c plan fuel inner) (λ o l, ∀ e, o = Some e →
    ok l ∧ (e_closed e = true → engine_off l = true)).
Proof.
  unfold capture. apply (post_bind _ _ _ (λ _, ok)).
  { apply keeps_xbind; [apply start_capture_keeps|intros ?].
    apply keeps_xbind; [apply capture_loop_keeps|intros ?]. apply finish_capture_keeps. }
  intros r. apply post_if; [by intros _ s w _ e|intros _].
  apply (post_bind _ _ _ (λ _, ok)); [apply clean_up_keeps|]. intros [o|?]; [by intros s w _ e|].
  apply (post_bind _ _ _ (λ e l, ok l ∧ left r e l)).
  { apply post_and; [|eapply post_pre; [apply leave_capture_post|done]].
    apply keeps_same. unfold leave_capture, fail_capture. frame. }
  intros e s w [Hok [_ Hc]] e' [= <-]. by split.
Qed.
End Quiesce.

(** C9: the runtime is closed only after the engine has been stopped.  However a
    capture ends - with success, with an error at any point, after a time-out of
    the writer - [close_runtime] is called only if the DMA engine was never
    started or the one quiesce of this capture has been carried out and did not
    fail; otherwise the mappings and the memory the engine may write to are kept
    until the process ends. *)
Theorem runtime_closed_engine_stopped (W : Type) (P : Producer W) (c : Settings) (plan : Plan)
    (p : Pressure) (fuel inner : nat) (s : State) (w : W) (e : Ended) (s' : State) (w' : W) :
  vars s = locals_init p (start_lba plan) →
  capture P c plan fuel inner (s, w) = (Some e, (s', w')) → e_closed e = true →
  dma_started (flags (vars s')) = false ∨ stopped (quiesce (stop_state (vars s'))).
Proof.
  intros Hs Hc He. pose proof (capture_keeps P c plan fuel inner s w) as H. rewrite Hc, Hs in H.
  assert (Hi : honest (engine (locals_init p (start_lba plan)))) by (split; [done|by intros [=]]).
  destruct (H Hi e eq_refl) as [Hok Ho].
  apply engine_off_stopped; auto.
Qed.

(** A capture that failed: the engine is stopped in the clean-up. *)
Lemma runtime_closed_engine_stopped_witness :
  let '(o, (s', w')) := capture example_producer (bounded_settings 512) example_plan 20 100 (example_start, (1, 0)) in
  ∃ e, o = Some e ∧ e_rc e = -1 ∧ dma_started (flags (vars s')) = true ∧
    (dma_started (flags (vars s')) = false ∨ stopped (quiesce (stop_state (vars s')))).
Proof.
  set (r := capture example_producer (bounded_settings 512) example_plan 20 100 (example_start, (1, 0))).
  assert (Hr : ends_with r (-1) 512 true && dma_started (flags (vars r.2.1)) = true) by (vm_compute; reflexivity).
  pose proof (runtime_closed_engine_stopped World example_producer (bounded_settings 512) example_plan
    (pressure_init 0 0 0) 20 100 example_start (1, 0)) as H.
  unfold ends_with in Hr. subst r. destruct (capture _ _ _ _ _ _) as [[e|] [s' w']]; [|discriminate].
  cbn [fst snd] in Hr. rewrite !andb_true_iff, !Z.eqb_eq, eqb_true_iff in Hr.
  destruct Hr as [[[Hrc _] Hcl] Hd]. exists e. split_and!; [reflexivity|exact Hrc|exact Hd|].
  exact (H e s' w' eq_refl eq_refl Hcl).
Defined.
End producer_quiesce.
