(* ===== verification/CrossSlotReqs.v ===== *)
(** * Which requests the cross-slot engine holds

    The requests of the active contexts of the engine, and how each operation
    changes them: an accepted request is added, one that is handed to the
    callback and taken back is removed, nothing else changes them.  The lemmas
    are about any world whose hardware callbacks keep what it says of the
    requests held; the writer thread is the client. *)
From stdpp Require Import gmap.
From S2P Require Import Prelude StorageError CrossSlot.

Module cross_slot_requests.
Import ccb_hw.

Definition requests (e : NvmeCrossSlotEngine) : list NvmeWriteSlotReq := s_req <$> actives (slots e).
Definition view (s : SlotEntry) : bool * NvmeWriteSlotReq := (s_active s, s_req s).
Definition shape (e : NvmeCrossSlotEngine) : list (bool * NvmeWriteSlotReq) := view <$> slots e.
(** The same requests in the same places. *)
Definition same (e e' : NvmeCrossSlotEngine) : Prop :=
  shape e' = shape e ∧ active_count e' = active_count e.
#[export] Instance same_preorder : PreOrder same.
Proof. split; [by intros e|]. intros e1 e2 e3 [] []. split; congruence. Qed.

Lemma requests_shape l l' : view <$> l = view <$> l' → s_req <$> actives l = s_req <$> actives l'.
Proof.
  revert l'; induction l as [|s l IH]; intros [|s' l'] H; try done. simpl in H. injection H as Hv Ha Hl.
  unfold actives in *. rewrite !filter_cons. rewrite Hv. case_decide; simpl; [f_equal|]; auto.
Qed.
Lemma same_requests e e' : same e e' → requests e' = requests e.
Proof. intros [H _]. by apply requests_shape. Qed.

(** The engine's tables: one context per identifier, and the count. *)
Definition tables_ok (e : NvmeCrossSlotEngine) : Prop :=
  length (slots e) = NVME_PENDING_CAPACITY ∧ active_count e = Z.of_nat (length (requests e)).
Lemma same_ok e e' : same e e' → tables_ok e → tables_ok e'.
Proof.
  intros Hs [Hl Hc]. split; [|rewrite (same_requests _ _ Hs); by destruct Hs as [_ ->]].
  destruct Hs as [H _]. apply (f_equal length) in H. unfold shape in H. rewrite !length_fmap in H. congruence.
Qed.
Lemma actives_bound l : (length (actives l) <= length l)%nat.
Proof. apply length_filter. Qed.

(** ** Changes of the tables *)
Lemma same_frame e e' : slots e' = slots e → active_count e' = active_count e → same e e'.
Proof. unfold same, shape. by intros -> ->. Qed.
Lemma same_fail code reason e : same e (cross_slot_fail_code code reason e).
Proof. unfold cross_slot_fail_code. by apply same_frame; repeat case_match. Qed.
Lemma same_abort reason e : same e (nvme_cross_slot_engine_request_abort reason e).
Proof. unfold nvme_cross_slot_engine_request_abort. by apply same_frame; repeat case_match. Qed.
Lemma same_validate e : same e (cross_slot_validate e).2.
Proof. unfold cross_slot_validate. destruct (validate_reason e); [apply same_fail|done]. Qed.
Lemma same_put_slot i s s' e : slots e !! i = Some s → view s' = view s → same e (put_slot i s' e).
Proof.
  intros Hs Hv. split; [|done]. unfold shape. simpl. rewrite list_fmap_insert, Hv.
  apply list_insert_id. by rewrite list_lookup_fmap, Hs.
Qed.
Lemma shape_account i p e : same e (account_submitted i p e).
Proof.
  split; [|done]. unfold shape, account_submitted. simpl. apply list_eq. intros j.
  rewrite !list_lookup_fmap, list_lookup_alter. case_decide; [subst j|done]. by destruct (slots e !! i).
Qed.
Lemma same_retire k p j s b e : slots e !! j = Some s → same e (retire k p j s b e).
Proof.
  intros Hs. etrans; [by apply (same_put_slot j s (s <| s_ctx ::= λ c,
    let c := c <| inflight_cmds ::= λ n, u32 (n - 1) |> in
    if b then c <| failed_cmds ::= λ n, u32 (n + 1) |> else c <| completed_cmds ::= λ n, u32 (n + 1) |> |>))|].
  by apply same_frame.
Qed.

(** Releasing a context and filling one. *)
Lemma requests_insert l i s s' :
  l !! i = Some s →
  (if s_active s then [s_req s] else []) ++ (s_req <$> actives (<[i := s']> l)) ≡ₚ
  (if s_active s' then [s_req s'] else []) ++ (s_req <$> actives l).
Proof.
  intros Hs. rewrite <-(take_drop_middle l i s Hs) at 2. rewrite insert_take_drop by (by eapply lookup_lt_Some).
  unfold actives. rewrite !filter_app, !filter_cons.
  destruct (s_active s), (s_active s'); simpl; rewrite ?fmap_app; simpl; rewrite ?fmap_app; solve_Permutation.
Qed.
Lemma release_spec i s e :
  tables_ok e → slots e !! i = Some s → s_active s = true →
  tables_ok (release i e) ∧ requests e ≡ₚ s_req s :: requests (release i e).
Proof.
  intros [Hl Hc] Hs Ha. pose proof (requests_insert (slots e) i s idle_entry Hs) as Hp.
  rewrite Ha in Hp. simpl in Hp. split; [|by symmetry]. split; [simpl; by rewrite length_insert|].
  apply Permutation_length in Hp. unfold requests in *. simpl in *. rewrite <-Hp in Hc. simpl in Hc.
  assert (length (s_req <$> actives (<[i:=idle_entry]> (slots e))) <= NVME_PENDING_CAPACITY)%nat.
  { rewrite length_fmap. etrans; [apply actives_bound|]. by rewrite length_insert, Hl. }
  unfold NVME_PENDING_CAPACITY in *. rewrite Hc, u32_small by cint. lia.
Qed.
Lemma accept_spec i s req e :
  tables_ok e → slots e !! i = Some s → s_active s = false →
  tables_ok (accept i req e) ∧ requests (accept i req e) ≡ₚ req :: requests e.
Proof.
  intros [Hl Hc] Hs Ha. pose proof (requests_insert (slots e) i s (mkEntry true (mkCtx (r_slot req)
    (r_start_lba req) (r_hw_addr req) (r_bytes req) (r_sectors req) 0 0 0 0 0) req) Hs) as Hp.
  rewrite Ha in Hp. simpl in Hp. split; [|done]. split; [simpl; by rewrite length_insert|].
  apply Permutation_length in Hp. unfold requests in *. simpl in *. rewrite Hp.
  assert (length (s_req <$> actives (slots e)) <= NVME_PENDING_CAPACITY)%nat.
  { rewrite length_fmap. etrans; [apply actives_bound|]. by rewrite Hl. }
  unfold NVME_PENDING_CAPACITY in *. rewrite Hc, u32_small by cint. lia.
Qed.

(** ** The operations *)
Section Operations.
Context {W : Type} (ops : NvmeCrossSlotOps W) (cb : NvmeWriteSlotReq → Eff W Z)
  (ab : Eff W (option string)).
(** What the world says of the requests held, and what it always says. *)
Context (P : list NvmeWriteSlotReq → W → Prop) (T : W → Prop).
Definition stable (w w' : W) : Prop := (∀ rs, P rs w → P rs w') ∧ (T w → T w').
Definition keeps_world {A} (m : Eff W A) : Prop := ∀ w, stable w (m w).2.
Record harmless : Prop := {
  hm_perm : ∀ rs rs' w, rs ≡ₚ rs' → P rs w → P rs' w;
  hm_world : ∀ rs w, P rs w → T w;
  hm_abort : keeps_world ab;
  hm_submit : ∀ cid lba n addr, keeps_world (submit ops cid lba n addr);
  hm_poll : keeps_world (poll_completion ops);
  hm_time : keeps_world (monotonic_us ops);
  hm_sleep : ∀ f us, sleep_us ops = Some f → keeps_world (f us);
  hm_yield : ∀ m, yield_cpu ops = Some m → keeps_world m;
  hm_reset : ∀ m, reset ops = Some m → keeps_world m;
  hm_callback : ∀ req rs w, P (req :: rs) w → wp (cb req) (λ rc w', (rc = 0 → P rs w') ∧ T w') w }.
Context (Hm : harmless).
#[local] Set Default Proof Using "Hm".

#[export] Instance stable_preorder : PreOrder stable.
Proof using Type. split; [by intros w|]. intros w1 w2 w3 [P1 T1] [P2 T2]. split; auto. Qed.

(** Operations that leave the requests alone. *)
Definition steady {A} (m : M A) : Prop :=
  ∀ e w, wp m (λ _ st, same e st.1 ∧ stable w st.2) (e, w).
Lemma steady_ret {A} (x : A) : steady (eret x).
Proof using Type. done. Qed.
Lemma steady_bind {A B} (m : M A) (k : A → M B) :
  steady m → (∀ x, steady (k x)) → steady (ebind m k).
Proof using Type.
  intros H1 Hk e w. apply wp_bind. eapply wp_mono; [apply H1|]. intros x [e1 w1] [S1 W1]. simpl in *.
  eapply wp_mono; [apply Hk|]. intros y [e2 w2] [S2 W2]. split; by etrans.
Qed.
Lemma steady_get : steady get.
Proof using Type. done. Qed.
Lemma steady_modify f : (∀ e, same e (f e)) → steady (modify f).
Proof using Type. intros H e w. split; [apply H|done]. Qed.
Lemma steady_run {A} (f : NvmeCrossSlotEngine → A * NvmeCrossSlotEngine) :
  (∀ e, same e (f e).2) → steady (run f).
Proof using Type. intros H e w. unfold wp, run. specialize (H e). by destruct (f e). Qed.
Lemma steady_io {A} (m : Eff W A) : keeps_world m → steady (io m).
Proof using Type. intros H e w. unfold wp, io. specialize (H w). by destruct (m w). Qed.
Lemma steady_return {A} rc : steady (return_ rc : M (exit + A)).
Proof using Type. apply steady_ret. Qed.
Lemma steady_fail {A} reason : steady (fail_with reason : M (exit + A)).
Proof using Type.
  apply steady_bind; [apply steady_modify; intros; apply same_fail|intros; apply steady_return].
Qed.
Lemma steady_xret {A} (x : A) : steady (xret x : M (exit + A)).
Proof using Type. apply steady_ret. Qed.
Lemma steady_xbind {A B} (m : M (exit + A)) (k : A → M (exit + B)) :
  steady m → (∀ x, steady (k x)) → steady (let? x := m in k x).
Proof using Type. intros H1 Hk. apply steady_bind; [done|]. intros [e|x]; [apply steady_ret|apply Hk]. Qed.
Lemma steady_time : steady (io (monotonic_us ops)).
Proof. apply steady_io, Hm. Qed.
Lemma steady_poll : steady (io (poll_completion ops)).
Proof. apply steady_io, Hm. Qed.
Lemma steady_submit cid lba n addr : steady (io (submit ops cid lba n addr)).
Proof. apply steady_io, Hm. Qed.
Lemma steady_yield : steady (yield_ ops).
Proof.
  unfold yield_. destruct (yield_cpu ops) eqn:E; [|apply steady_ret]. apply steady_io. by apply Hm.
Qed.
Lemma steady_load : steady (load_running ab).
Proof.
  apply steady_bind; [apply steady_io, Hm|]. intros a. apply steady_bind.
  - apply steady_modify. intros e. destruct a; [apply same_abort|done].
  - intros _. apply steady_bind; [apply steady_get|]. intros e. apply steady_ret.
Qed.

Ltac frame := apply same_frame;
  unfold cross_slot_record_cq_empty, cross_slot_clear_cq_empty, record_sq_full, clear_sq_full;
  repeat case_match; reflexivity.
Ltac steady_change := lazymatch goal with
  | |- same _ (cross_slot_fail_code _ _ _) => apply same_fail
  | |- same _ (cross_slot_fail _ _) => apply same_fail
  | |- same _ (account_submitted _ _ _) => apply shape_account
  | |- same _ (cross_slot_validate _).2 => apply same_validate
  | |- _ => frame end.
Ltac steady_step := lazymatch goal with
  | |- steady (ebind _ _) => apply steady_bind; [|intros]
  | |- steady (xbind _ _) => apply steady_xbind; [|intros]
  | |- steady (eret _) => apply steady_ret
  | |- steady (xret _) => apply steady_xret
  | |- steady (return_ _) => apply steady_return
  | |- steady (fail_with _) => apply steady_fail
  | |- steady get => apply steady_get
  | |- steady (modify _) => apply steady_modify; intros; steady_change
  | |- steady (run _) => apply steady_run; intros; steady_change
  | |- steady (io (monotonic_us _)) => apply steady_time
  | |- steady (io (poll_completion _)) => apply steady_poll
  | |- steady (io (submit _ _ _ _ _)) => apply steady_submit
  | |- steady (yield_ _) => apply steady_yield
  | |- steady (load_running _) => apply steady_load
  | |- steady (if ?b then _ else _) => destruct b
  | |- steady (match ?x with _ => _ end) => destruct x
  end.
Ltac steady := repeat steady_step.

Lemma wp_steady {A} (m : M A) e0 w0 e w :
  steady m → same e0 e → stable w0 w →
  wp m (λ _ st, same e0 st.1 ∧ stable w0 st.2) (e, w).
Proof using Type.
  intros Hs He Hw. eapply wp_mono; [apply Hs|]. intros x st [H1 H2]. split; by etrans.
Qed.
Lemma steady_handle cpl : steady (cross_slot_handle_completion ops cpl).
Proof.
  intros e w. apply wp_bind. unfold wp at 1. simpl.
  destruct (nvme_find_pending_by_cid _ _) as [[k p]|]; [|by apply wp_steady; [steady| |]].
  destruct (nvme_find_slot_context (slots e) (p_slot p)) as [[j s]|] eqn:Hj; [|by apply wp_steady; [steady| |]].
  apply list_find_Some in Hj as (Hj & _). destruct (_ || _); [by apply wp_steady; [steady| |]|].
  apply wp_bind. eapply (wp_mono _ (λ _ st, st.1 = e ∧ stable w st.2)).
  { destruct (nvme_diag_timing (rt e)); [|done]. unfold wp, io. pose proof (hm_time Hm w).
    by destruct (monotonic_us ops w). }
  intros t [e1 w1] [He Hw]. simpl in He. subst e1. destruct (cpl_error cpl).
  - apply wp_bind. unfold wp at 1. simpl. apply wp_steady; [steady|by apply same_retire|done].
  - apply wp_bind. unfold wp at 1. simpl. apply wp_bind. unfold wp at 1. simpl.
    apply wp_steady; [steady| |done]. etrans; [|by apply same_retire]. by apply same_frame.
Qed.
Lemma steady_process cpl t : steady (process_completion ops cpl t).
Proof. unfold process_completion. apply steady_bind; [apply steady_handle|]. intros rc. steady. Qed.
Lemma steady_poll_cq n progress : steady (poll_cq ops n progress).
Proof.
  revert progress; induction n as [|n IH]; intros progress; cbn [poll_cq]; steady; [apply steady_process|apply IH].
Qed.
Lemma steady_timed_submit p : steady (timed_submit ops p).
Proof. unfold timed_submit. steady. Qed.
Lemma steady_refill n progress : steady (refill ops ab n progress).
Proof.
  revert progress; induction n as [|n IH]; intros progress; cbn [refill]; steady;
    try apply steady_timed_submit; apply IH.
Qed.
Lemma steady_busy_poll fuel deadline : steady (busy_poll ops fuel deadline).
Proof.
  induction fuel as [|fuel IH]; cbn [busy_poll]; steady; [apply IH|apply steady_process].
Qed.
Lemma steady_poll_once : steady (poll_once ops).
Proof. unfold poll_once. steady. apply steady_process. Qed.
Lemma steady_sleep us : steady (sleep_ ops us).
Proof.
  unfold sleep_. steady_step; [apply steady_xret|]. destruct (sleep_us ops) as [f|] eqn:E; [|apply steady_ret].
  apply steady_bind; [apply steady_io; by eapply Hm|]. intros _. steady.
Qed.
Lemma steady_no_progress fuel start budget : steady (no_progress ops fuel start budget).
Proof.
  unfold no_progress, clear_no_progress. steady;
    [apply steady_busy_poll|apply steady_poll_once|apply steady_sleep].
Qed.

(** Leaving early means leaving with an error. *)
Definition honest {A} (m : M (W := W) (exit + A)) : Prop := ∀ st, wp m (λ r _, r ≠ inl (Returned 0)) st.
Lemma honest_ret {A} (r : exit + A) : r ≠ inl (Returned 0) → honest (eret r).
Proof using Type. intros H st. exact H. Qed.
Lemma honest_fail {A} reason : honest (fail_with reason : M (exit + A)).
Proof using Type. intros [e w]. unfold wp. simpl. congruence. Qed.
Lemma honest_bind {A B} (m : M A) (k : A → M (exit + B)) : (∀ x, honest (k x)) → honest (ebind m k).
Proof using Type. intros H st. apply wp_bind. unfold wp at 1. destruct (m st). apply H. Qed.
Lemma honest_xbind {A B} (m : M (exit + A)) (k : A → M (exit + B)) :
  honest m → (∀ x, honest (k x)) → honest (let? x := m in k x).
Proof using Type.
  intros H1 Hk st. apply wp_bind. eapply wp_mono; [apply H1|]. intros [r|x] st' Hr; [|apply Hk].
  apply wp_ret. congruence.
Qed.
Ltac honest_step := lazymatch goal with
  | |- honest (eret _) => apply honest_ret; congruence
  | |- honest (xret _) => apply honest_ret; congruence
  | |- honest (return_ _) => apply honest_ret; congruence
  | |- honest (fail_with _) => apply honest_fail
  | |- honest (xbind _ _) => apply honest_xbind; [|intros]
  | |- honest (ebind _ _) => apply honest_bind; intros
  | |- honest (if ?b then _ else _) => destruct b
  | |- honest (match ?x with _ => _ end) => destruct x
  end.
Ltac honest := repeat honest_step.
Lemma honest_process cpl t : honest (process_completion ops cpl t).
Proof using Type. unfold process_completion. honest. Qed.
Lemma honest_poll_cq n progress : honest (poll_cq ops n progress).
Proof using Type.
  revert progress; induction n as [|n IH]; intros progress; cbn [poll_cq]; honest; [apply honest_process|apply IH].
Qed.
Lemma honest_refill n progress : honest (refill ops ab n progress).
Proof using Type. revert progress; induction n as [|n IH]; intros progress; cbn [refill]; honest; apply IH. Qed.
Lemma honest_busy_poll fuel deadline : honest (busy_poll ops fuel deadline).
Proof using Type. induction fuel as [|fuel IH]; cbn [busy_poll]; honest; [apply IH|apply honest_process]. Qed.
Lemma honest_no_progress fuel start budget : honest (no_progress ops fuel start budget).
Proof using Type.
  unfold no_progress, poll_once, sleep_. honest; first [apply honest_busy_poll|apply honest_process].
Qed.

(** Handing slots to the callback. *)
Definition good (st : NvmeCrossSlotEngine * W) : Prop := tables_ok st.1 ∧ P (requests st.1) st.2.
Definition sound {A} (m : M (exit + A)) : Prop :=
  ∀ e w, good (e, w) → wp m (λ r st, match r with inr _ => good st | inl x => x ≠ Returned 0 ∧ T st.2 end) (e, w).
Lemma good_steady e w e' w' : same e e' → stable w w' → good (e, w) → good (e', w').
Proof using Type.
  intros Hs [Hp _] [Ht H]. split; [by eapply same_ok|]. simpl in *. rewrite (same_requests _ _ Hs). auto.
Qed.
Lemma good_world st : good st → T st.2.
Proof. intros [_ H]. by eapply Hm. Qed.
Lemma sound_steady {A} (m : M (exit + A)) : honest m → steady m → sound m.
Proof.
  intros Hh Hs e w Hg. specialize (Hh (e, w)). specialize (Hs e w). unfold wp in *.
  destruct (m (e, w)) as [r [e' w']]. destruct Hs as [H1 H2].
  pose proof (good_steady _ _ _ _ H1 H2 Hg) as Hg'. destruct r; [|done].
  apply good_world in Hg'. split; [intros ->; by apply Hh|done].
Qed.
Lemma sound_bind {A B} (m : M A) (k : A → M (exit + B)) : steady m → (∀ x, sound (k x)) → sound (ebind m k).
Proof using Type.
  intros H1 Hk e w Hg. apply wp_bind. eapply wp_mono; [apply H1|]. intros x [e1 w1] [S1 W1]. simpl in *.
  apply Hk. by eapply good_steady.
Qed.
Lemma sound_xbind {A B} (m : M (exit + A)) (k : A → M (exit + B)) :
  sound m → (∀ x, sound (k x)) → sound (let? x := m in k x).
Proof using Type.
  intros H1 Hk e w Hg. apply wp_bind. eapply wp_mono; [by apply H1|]. intros [r|x] [e1 w1] H; [done|]. by apply Hk.
Qed.
Lemma finish_sound idx progress : sound (finish_slots (Some cb) idx progress).
Proof.
  revert progress; induction idx as [|i idx IH]; intros progress; cbn [finish_slots];
    [apply sound_steady; [apply honest_ret; congruence|apply steady_xret]|].
  intros e w Hg. apply wp_bind. unfold wp at 1. simpl. destruct (slots e !! i) as [s|] eqn:Hs; [|by apply IH].
  destruct (drained s) eqn:Hd; [|by apply IH]. simpl negb. cbv iota.
  destruct (negb (failed_cmds (s_ctx s) =? 0)); [by apply sound_steady; [apply honest_fail|apply steady_fail|]|].
  destruct Hg as [Ht Hp]. simpl in Ht, Hp.
  destruct (release_spec i s e Ht Hs) as [Ht' Hperm]; [unfold drained in Hd; by destruct (s_active s)|].
  apply wp_bind. pose proof (hm_callback Hm (s_req s) (requests (release i e)) w) as Hcb.
  unfold wp in Hcb. unfold wp at 1, io. destruct (cb (s_req s) w) as [rc w'].
  destruct Hcb as [H0 HT]; [by eapply hm_perm|]. cbn [fst snd] in *.
  destruct (rc =? 0) eqn:Hrc; simpl negb; cbv iota.
  - apply wp_bind. unfold wp at 1. simpl. apply IH. split; [done|]. apply H0. lia.
  - apply wp_bind. unfold wp at 1. simpl. apply wp_ret. done.
Qed.

Ltac sound_step := lazymatch goal with
  | |- sound (xbind _ _) => apply sound_xbind; [|intros]
  | |- sound (ebind _ _) => apply sound_bind; [|intros]
  | |- sound (if ?b then _ else _) => destruct b
  | |- sound (match ?x with _ => _ end) => destruct x
  | |- sound (finish_slots _ _ _) => apply finish_sound
  | |- sound (poll_cq _ _ _) => apply sound_steady; [apply honest_poll_cq|]
  | |- sound (refill _ _ _ _) => apply sound_steady; [apply honest_refill|]
  | |- sound (no_progress _ _ _ _) => apply sound_steady; [apply honest_no_progress|]
  | |- sound _ => apply sound_steady; [honest|]
  | |- steady (poll_cq _ _ _) => apply steady_poll_cq
  | |- steady (refill _ _ _ _) => apply steady_refill
  | |- steady (no_progress _ _ _ _) => apply steady_no_progress
  | |- steady _ => steady_step
  end.
Lemma iteration_sound fuel start budget : sound (step_iteration ops (Some cb) ab fuel start budget).
Proof. unfold step_iteration, clear_no_progress. repeat sound_step. Qed.
Lemma loop_sound fuel start budget : sound (step_loop ops (Some cb) ab fuel start budget).
Proof.
  induction fuel as [|fuel IH]; cbn [step_loop]; [repeat sound_step|].
  apply sound_bind; [repeat sound_step|]. intros e. destruct (negb _); [repeat sound_step|].
  apply sound_xbind; [apply iteration_sound|]. intros again. destruct again; [apply IH|repeat sound_step].
Qed.
(** The step keeps the requests that are left. *)
Lemma step_sound fuel budget : sound (nvme_cross_slot_engine_step ops (Some cb) ab fuel budget).
Proof.
  unfold nvme_cross_slot_engine_step, update_qd.
  apply sound_bind; [repeat sound_step|]. intros running. destruct (negb running); [repeat sound_step|].
  apply sound_bind; [repeat sound_step|]. intros e. apply sound_bind; [repeat sound_step|]. intros start.
  apply sound_bind; [repeat sound_step|]. intros _. apply sound_xbind; [apply loop_sound|].
  intros _. repeat sound_step.
Qed.

(** Accepting a request. *)
Definition offering (req : NvmeWriteSlotReq) (st : NvmeCrossSlotEngine * W) : Prop :=
  tables_ok st.1 ∧ P (req :: requests st.1) st.2.
Definition taken (rc : Z) (st : NvmeCrossSlotEngine * W) : Prop := (rc = 0 → good st) ∧ T st.2.
Lemma offering_steady req e w e' w' : same e e' → stable w w' → offering req (e, w) → offering req (e', w').
Proof using Type.
  intros Hs [Hp _] [Ht H]. split; [by eapply same_ok|]. simpl in *. rewrite (same_requests _ _ Hs). auto.
Qed.
Lemma refused req rc e w : rc ≠ 0 → offering req (e, w) → wp (eret rc : M Z) taken (e, w).
Proof. intros Hrc [_ H]. apply wp_ret. split; [done|]. by eapply Hm. Qed.
Lemma add_sound req e w :
  offering req (e, w) → wp (nvme_cross_slot_engine_add ab req) taken (e, w).
Proof.
  intros Ho. unfold nvme_cross_slot_engine_add.
  assert (Hfail : ∀ reason e w, offering req (e, w) →
    wp (let! _ := modify (cross_slot_fail reason) in eret (-1)) taken (e, w)).
  { clear e w Ho. intros reason e w [_ H]. apply wp_bind, wp_ret. split; [done|]. by eapply Hm. }
  destruct (_ || _); [by eapply refused|].
  apply wp_bind. eapply wp_mono; [apply steady_load|]. intros running [e1 w1] [S1 W1]. simpl in S1, W1.
  apply (offering_steady _ _ _ _ _ S1 W1) in Ho. clear S1 W1 e w.
  destruct (negb running); [by eapply refused|]. destruct (_ <? _); [by apply Hfail|].
  destruct (_ || _); [by apply Hfail|]. destruct (_ || _); [by apply Hfail|].
  apply wp_bind. unfold wp at 1. simpl. destruct (_ && _); [by apply Hfail|].
  destruct (_ && _); [by apply Hfail|]. destruct (existsb _ _); [by apply Hfail|].
  apply wp_bind. eapply wp_mono; [apply steady_load|]. intros running2 [e2 w2] [S2 W2]. simpl in S2, W2.
  apply (offering_steady _ _ _ _ _ S2 W2) in Ho. clear S2 W2 e1 w1.
  apply wp_bind. unfold wp at 1. simpl. destruct (negb _); [by eapply refused|].
  destruct (find_if _ _) as [[i s]|] eqn:Hf; [|by eapply refused].
  apply list_find_Some in Hf as (Hs & Ha & _). destruct Ho as [Ht Hp]. simpl in Ht, Hp.
  destruct (accept_spec i s req e2 Ht Hs) as [Ht' Hperm]; [by destruct (s_active s)|].
  apply wp_bind. unfold wp at 1. simpl. unfold wp, run.
  pose proof (same_validate (accept i req e2)) as Hv.
  destruct (cross_slot_validate (accept i req e2)) as [rc e3]. simpl in Hv. simpl.
  assert (Hg : good (e3, w2)).
  { eapply good_steady; [exact Hv|done|]. split; [done|]. by eapply hm_perm. }
  split; [done|]. by apply good_world in Hg.
Qed.

(** The abort drops the requests. *)
Definition settled {A} (m : M A) : Prop := ∀ e w, wp m (λ _ st, stable w st.2) (e, w).
Lemma settled_steady {A} (m : M A) : steady m → settled m.
Proof using Type. intros Hs e w. eapply wp_mono; [apply Hs|]. by intros x st []. Qed.
Lemma settled_bind {A B} (m : M A) (k : A → M B) : settled m → (∀ x, settled (k x)) → settled (ebind m k).
Proof using Type.
  intros H1 Hk e w. apply wp_bind. eapply wp_mono; [apply H1|]. intros x [e1 w1] W1. simpl in *.
  eapply wp_mono; [apply Hk|]. intros y [e2 w2] W2. by etrans.
Qed.
Lemma settled_modify f : settled (modify f).
Proof using Type. intros e w. done. Qed.
Lemma drain_loop_steady fuel deadline : steady (drain_loop ops fuel deadline).
Proof.
  assert (Hsleep : ∀ f us, sleep_us ops = Some f → steady (io (f us))).
  { intros f us Hf. apply steady_io. by eapply Hm. }
  induction fuel as [|fuel IH]; cbn [drain_loop]; [steady|].
  destruct (sleep_us ops) as [f|]; steady; try apply steady_handle; try apply IH. by apply Hsleep.
Qed.
Lemma quiesce_settled : settled quiesce.
Proof using Type. unfold quiesce. do 2 (apply settled_bind; [apply settled_modify|intros]). done. Qed.
Lemma drain_settled fuel deadline : settled (nvme_cross_slot_engine_drain_abort ops fuel deadline).
Proof.
  unfold nvme_cross_slot_engine_drain_abort. apply settled_bind; [apply settled_modify|intros _].
  apply settled_bind; [done|]. intros e. do 2 (case_bool_decide; [done|]).
  apply settled_bind; [apply settled_modify|intros _].
  apply settled_bind; [apply settled_steady, drain_loop_steady|]. intros [?|_]; [done|].
  apply settled_bind; [done|]. intros e'. destruct (_ =? 0); [apply quiesce_settled|].
  apply settled_bind; [apply settled_modify|intros _]. apply settled_bind.
  { destruct (reset ops) as [m|] eqn:E; [|done]. apply settled_steady, steady_io. by apply Hm. }
  intros rc. destruct (rc =? 0); [apply quiesce_settled|].
  by apply settled_bind; [apply settled_modify|].
Qed.
End Operations.

Lemma created_ok r c e :
  nvme_cross_slot_engine_create_with_ops_config r c = Some e → tables_ok e ∧ requests e = [].
Proof.
  unfold nvme_cross_slot_engine_create_with_ops_config. destruct (_ || _); [done|]. intros [= <-].
  by split.
Qed.
End cross_slot_requests.
