(* ===== verification/CrossWriter.v ===== *)
(** * The cross-slot writer thread ([src/src/ccb_commands.c])

    The thread that moves slots from the write queue into the cross-slot NVMe
    engine and drives it; the engine's slot callback completes the slot in the
    queue.  The engine and the queue are the ones of their own files, composed
    here as the thread composes them. *)
From S2P Require Import Prelude StorageError SlotTable Worker Writer Diag DmaRing CrossSlot CcbTypes WriteQueue WriterThread.

Module storage_cross_writer.
Import storage_writer ccb_types storage_write_queue storage_writer_thread.

(** Hardware callbacks seen from a larger world. *)
Definition lift_ops {S W : Type} (ops : ccb_hw.NvmeCrossSlotOps W) : ccb_hw.NvmeCrossSlotOps (S * W) :=
  ccb_hw.mkOps (λ cid lba n addr, sio (ccb_hw.submit ops cid lba n addr))
    (sio (ccb_hw.poll_completion ops)) (sio (ccb_hw.monotonic_us ops))
    ((λ f us, sio (f us)) <$> ccb_hw.sleep_us ops) (sio <$> ccb_hw.yield_cpu ops)
    (sio <$> ccb_hw.reset ops).

(** The request for a slot of the queue, and the slot of a request. *)
Definition request_of (it : PendingDdrSlot) : ccb_hw.NvmeWriteSlotReq :=
  ccb_hw.mkReq (slot it) (start_lba it) (sectors it) (hw_addr it) (bytes it) (chunk_index it)
    (file_offset it) (media_bytes it).
Definition item_of (req : ccb_hw.NvmeWriteSlotReq) : PendingDdrSlot :=
  mkPending (ccb_hw.r_slot req) (ccb_hw.r_bytes req)
    (if negb (ccb_hw.r_media_bytes req =? 0) then ccb_hw.r_media_bytes req
     else u64 (ccb_hw.r_sectors req * SECTOR_SIZE))
    (ccb_hw.r_chunk_index req) (ccb_hw.r_file_offset req) (ccb_hw.r_start_lba req)
    (ccb_hw.r_sectors req) (ccb_hw.r_hw_addr req).

Section CrossWriter.
Context {W : Type} (out : Outside W) (others : Eff (Sys * W) unit).

Definition SM (A : Type) : Type := Eff (Sys * W) A.
Definition storage_cross_slot_done_cb (req : ccb_hw.NvmeWriteSlotReq) : SM Z :=
  storage_complete_slot out others (item_of req).

(** What reaches the published engine while the other threads run. *)
Definition take_abort : SM (option string) :=
  let! _ := others in
  let! s := sget in
  let! _ := smod (λ s, s <| engine_abort := None |>) in eret (engine_abort s).

Definition ops : ccb_hw.NvmeCrossSlotOps (Sys * W) := lift_ops (nvme_ops out).

(** The engine threaded with the queue. *)
Definition CM (A : Type) : Type := Eff (ccb_hw.NvmeCrossSlotEngine * (Sys * W)) A.
Definition q_op {A} (m : SM A) : CM A := sio m.
Definition engine : CM ccb_hw.NvmeCrossSlotEngine := sget.

Definition storage_cross_slot_update_stats : CM unit :=
  let! e := engine in
  let stats := ccb_hw.stats e in
  q_op (mod_q (λ q, q <| cross_stats := stats |>
    <| timing ::= λ m, m <| writer_no_progress_sleep_count := ccb_hw.no_progress_sleep_count stats |> |>)).

Definition storage_queue_set_engine : CM unit :=
  let! _ := q_op (lock others) in
  let! _ := q_op (mod_q (λ q, q <| nvme_engine := true |>)) in
  let! q := q_op get_q in
  if storage_queue_abort_requested q
  then smod (ccb_hw.nvme_cross_slot_engine_request_abort "writer_abort_requested") else eret tt.

(** The engine that is left. *)
Definition storage_queue_destroy_engine : CM (option ccb_hw.NvmeCrossSlotEngine) :=
  let! _ := q_op (lock others) in
  let! q := q_op get_q in
  let! e := engine in
  if nvme_engine q then
    let! _ := q_op (mod_q (λ q, q <| nvme_engine := false |>)) in
    eret (ccb_hw.nvme_cross_slot_engine_destroy e)
  else eret (Some e).

Definition storage_cross_slot_writer_decision_locked : CM StorageCrossSlotWriterDecision :=
  let! _ := q_op (lock others) in
  let! q := q_op get_q in
  let! e := engine in
  eret (storage_cross_slot_writer_decide (storage_worker.storage_worker_producer_done (worker_state q))
          (count q) (error q) (ccb_hw.nvme_cross_slot_engine_active (Some e))
          (ccb_hw.nvme_cross_slot_engine_inflight (Some e))).

(** One turn of the loop: it goes on, it breaks (failed or not), or the fuel of
    a waiting loop is used up (also: the engine called through NULL). *)
Inductive turn : Type := Next (expected_run_us : Z) | Break (failed : bool) | Stuck.

Definition break_with (reason : string) : CM turn :=
  let! _ := q_op (storage_set_writer_error_reason others reason) in eret (Break true).
Definition break_with_engine : CM turn :=
  let! e := engine in break_with (ccb_hw.last_error e).

Definition can_accept : CM bool :=
  let! _ := ccb_hw.load_running take_abort in
  let! e := engine in eret (ccb_hw.nvme_cross_slot_engine_can_accept e).

(** Handing a popped slot to the engine; [None]: no failure. *)
Definition add_popped (it : PendingDdrSlot) : CM (option turn) :=
  let! q := q_op get_q in
  match storage_slot_addresses (rt q) it with
  | None =>
      let text := nvme_last_error (rt q) in
      let! t := break_with (if String.eqb text "" then "slot_padding_failed" else text) in eret (Some t)
  | Some _ =>
      let! rc := q_op (run_q (λ q, let '(rc, r) := storage_zero_tail_padding it (rt q) in
                                   (rc, q <| rt := r |>))) in
      if negb (rc =? 0) then
        let! q := q_op get_q in
        let text := nvme_last_error (rt q) in
        let! t := break_with (if String.eqb text "" then "slot_padding_failed" else text) in
        eret (Some t)
      else
        let! rc := ccb_hw.nvme_cross_slot_engine_add take_abort (request_of it) in
        if negb (rc =? 0) then let! t := break_with_engine in eret (Some t) else eret None
  end.

(** Driving the engine and looking at what is left to do. *)
Definition after_step (start rc : Z) : CM turn :=
  let! t := q_op (now out) in
  let! _ := q_op (mod_timing (λ m, m <| writer_active_us ::= λ n, u64 (n + storage_elapsed_us start t) |>)) in
  let! _ := storage_cross_slot_update_stats in
  if negb (rc =? 0) then break_with_engine else
  let! expected := q_op (now out) in
  let! decision := storage_cross_slot_writer_decision_locked in
  match decision with
  | STORAGE_CROSS_SLOT_WRITER_QUEUE_ERROR => break_with "storage_queue_error"
  | STORAGE_CROSS_SLOT_WRITER_DRAINED =>
      let! _ := q_op (storage_ring_event out STORAGE_EVENT_STOP_DRAINED 0 0 false) in eret (Break false)
  | _ => eret (Next expected)
  end.
Definition step_and_decide (fuel : nat) : CM turn :=
  let! start := q_op (now out) in
  let! q := q_op get_q in
  let! r := ccb_hw.nvme_cross_slot_engine_step ops (Some storage_cross_slot_done_cb) take_abort fuel
              (writer_budget_override_us q) in
  match r with
  | inl ccb_hw.OutOfFuel | inl ccb_hw.NullCall => eret Stuck
  | inl (ccb_hw.Returned rc) | inr rc => after_step start rc
  end.

Definition writer_turn (fuel : nat) (expected_run_us : Z) : CM turn :=
  let! e := engine in
  let wait_for_item := ccb_hw.active_count e =? 0 in
  let! aborted := q_op (abort_seen others) in
  if (aborted : bool) then break_with "writer_abort_requested" else
  let! _ := (if wait_for_item then eret tt else
             let! t := q_op (now out) in
             q_op (storage_record_writer_schedule_gap out expected_run_us t)) in
  let! accepting := can_accept in
  let! popped := (if (accepting : bool) then q_op (storage_queue_pop out others fuel wait_for_item)
                  else eret (Some (STORAGE_QUEUE_POP_NOT_ATTEMPTED, zero_pending))) in
  match popped with
  | None => eret Stuck
  | Some (STORAGE_QUEUE_POP_ERROR, _) => break_with "storage_queue_pop_failed"
  | Some (STORAGE_QUEUE_POP_ITEM, it) =>
      let! failed := add_popped it in
      match failed with Some t => eret t | None => step_and_decide fuel end
  | Some (_, _) => step_and_decide fuel
  end.

Fixpoint cross_loop (fuel : nat) (expected_run_us : Z) : CM (option bool) :=
  match fuel with
  | O => eret None
  | S fuel =>
    let! t := writer_turn fuel expected_run_us in
    match t with
    | Next expected => cross_loop fuel expected
    | Break failed => eret (Some failed)
    | Stuck => eret None
    end
  end.

Definition set_quiesced : CM unit :=
  let! e := engine in
  q_op (mod_q (λ q, q <| nvme_engine_quiesced := ccb_hw.nvme_cross_slot_engine_is_quiesced e |>)).

(** The way out after a failure; [false]: the fuel of the drain is used up. *)
Definition abort_writer (fuel : nat) : CM bool :=
  let! now_us := q_op (now out) in
  let! q := q_op get_q in
  let drain_us :=
    if negb (nvme_abort_timeout_us q =? 0) then nvme_abort_timeout_us q
    else if negb (ccb_hw.no_progress_timeout_us (cross_slot_config q) =? 0)
    then ccb_hw.no_progress_timeout_us (cross_slot_config q)
    else ccb_dma.timeout_us (dma (rt q)) in
  let! _ := smod (λ e, ccb_hw.nvme_cross_slot_engine_request_abort (ccb_hw.last_error e) e) in
  let! r := ccb_hw.nvme_cross_slot_engine_drain_abort ops fuel (u64 (now_us + drain_us)) in
  match r with
  | inl ccb_hw.OutOfFuel | inl ccb_hw.NullCall => eret false
  | _ =>
    let! _ := set_quiesced in
    let! _ := storage_cross_slot_update_stats in
    let! _ := q_op (storage_fail_fatal out others) in eret true
  end.

(** From the published engine to the end of the thread, with the engine left. *)
Definition run_engine (fuel : nat) : CM (option (WriterEnd * option ccb_hw.NvmeCrossSlotEngine)) :=
  let! _ := storage_queue_set_engine in
  let! _ := q_op (set_writer_ready others true) in
  let! r := cross_loop fuel 0 in
  match r with
  | None => eret None
  | Some failed =>
    let! ok := (if (failed : bool) then abort_writer fuel else let! _ := set_quiesced in eret true) in
    if negb ok then eret None else
    let! q := q_op get_q in
    let! kept := (if nvme_engine_quiesced q then storage_queue_destroy_engine
                  else let! e := engine in eret (Some e)) in
    eret (Some (if failed then Failed else Drained, kept))
  end.

(** [er]: the NVMe side of the channel; [alloc_ok]: the engine's allocation. *)
Definition storage_nvme_cross_slot_writer_thread (fuel : nat) (er : ccb_hw.Runtime) (alloc_ok : bool) :
    SM (option (WriterEnd * option ccb_hw.NvmeCrossSlotEngine)) :=
  let no_engine (m : SM (option WriterEnd)) : SM (option (WriterEnd * option ccb_hw.NvmeCrossSlotEngine)) :=
    let! r := m in eret ((λ e, (e, None)) <$> r) in
  let! run := storage_queue_wait_run others fuel in
  match run with
  | None => eret None
  | Some rc =>
    if negb (rc =? 0) then eret (Some (NotStarted, None)) else
    let! rc := sio (storage_apply_writer_rt out) in
    if negb (rc =? 0) then no_engine (setup_failed out others) else
    let! q := get_q in
    match (if alloc_ok
           then ccb_hw.nvme_cross_slot_engine_create_with_ops_config er (cross_slot_config q)
           else None) with
    | None =>
        let! _ := storage_set_writer_error_reason others "cross_slot_engine_create_failed" in
        no_engine (setup_failed out others)
    | Some e => λ sw, let '(r, (_, sw)) := run_engine fuel (e, sw) in (r, sw)
    end
  end.
End CrossWriter.
End storage_cross_writer.
