(* ===== verification/WriteQueueRep.v ===== *)
(** * What the write queue represents

    The abstract queue (what was pushed, what is queued, what the writer holds,
    what it has completed) and, for every critical section of the code, how it
    changes: each accepted batch is queued as a whole, each pop takes the oldest
    slot, each completion settles the accounting, nothing else moves a slot
    that is queued or held. *)
From S2P Require Import Prelude StorageError SlotTable Worker DmaRing CcbTypes WriteQueue WriterThread.

Module write_queue_rep.
Import storage_queue storage_worker ccb_types storage_write_queue storage_writer_thread.

Definition pos (it : PendingDdrSlot) : nat := Z.to_nat (slot it).
Definition sum_bytes (l : list PendingDdrSlot) : Z := foldr (λ it n, bytes it + n) 0 l.
Lemma sum_bytes_app l l' : sum_bytes (l ++ l') = sum_bytes l + sum_bytes l'.
Proof. induction l as [|it l IH]; simpl in *; lia. Qed.
Lemma sum_bytes_perm l l' : l ≡ₚ l' → sum_bytes l = sum_bytes l'.
Proof. induction 1; simpl; lia. Qed.
Lemma sum_bytes_nonneg l : Forall (λ it, 0 < bytes it) l → 0 <= sum_bytes l.
Proof. induction 1; simpl; lia. Qed.

(** ** The states of the queued and of the held slots *)
Record holds (l : list StorageSlotState) (queued held : list PendingDdrSlot) : Prop := {
  h_ready : ∀ i, l !! i = Some STORAGE_SLOT_READY_FOR_NVME ↔ i ∈ pos <$> queued;
  h_busy : ∀ i, l !! i = Some STORAGE_SLOT_NVME_BUSY ↔ i ∈ pos <$> held;
  h_nodup : NoDup (pos <$> queued ++ held);
  h_nonneg : Forall (λ it, 0 <= slot it) (queued ++ held) }.

Definition owned_state (s : StorageSlotState) : Prop :=
  s = STORAGE_SLOT_READY_FOR_NVME ∨ s = STORAGE_SLOT_NVME_BUSY.
#[export] Instance owned_state_dec s : Decision (owned_state s).
Proof. unfold owned_state. solve_decision. Defined.

Lemma lookup_insert_state (l : list StorageSlotState) k e n i s :
  l !! k = Some e → <[k := n]> l !! i = Some s ↔ (i = k ∧ n = s) ∨ (i ≠ k ∧ l !! i = Some s).
Proof.
  intros Hk. destruct (decide (i = k)) as [->|Hne].
  - rewrite list_lookup_insert_eq by (by eapply lookup_lt_Some). naive_solver.
  - rewrite list_lookup_insert_ne by done. naive_solver.
Qed.

(** A slot that nobody owns stays so. *)
Lemma holds_move l queued held k e n :
  holds l queued held → l !! k = Some e → ¬ owned_state e → ¬ owned_state n →
  holds (<[k := n]> l) queued held.
Proof.
  unfold owned_state. intros [Hr Hb Hn Hp] Hk He Hn'. split; try done.
  - intros i. rewrite lookup_insert_state by done. rewrite <-Hr. naive_solver.
  - intros i. rewrite lookup_insert_state by done. rewrite <-Hb. naive_solver.
Qed.

Lemma holds_push l queued held it e :
  holds l queued held → 0 <= slot it → l !! pos it = Some e → ¬ owned_state e →
  holds (<[pos it := STORAGE_SLOT_READY_FOR_NVME]> l) (queued ++ [it]) held.
Proof.
  unfold owned_state. intros [Hr Hb Hn Hp] H0 Hk He.
  assert (Hq : pos it ∉ pos <$> queued) by (rewrite <-Hr; naive_solver).
  assert (Hh : pos it ∉ pos <$> held) by (rewrite <-Hb; naive_solver).
  split.
  - intros i. rewrite lookup_insert_state, Hr, fmap_app, elem_of_app by done.
    simpl. rewrite list_elem_of_singleton. split; [naive_solver|].
    intros [Hi| ->]; [|naive_solver]. right. split; [by intros ->|done].
  - intros i. rewrite lookup_insert_state, Hb by done. split; [naive_solver|].
    intros Hi. right. split; [by intros ->|done].
  - rewrite <-(assoc_L (++)), fmap_app. rewrite fmap_app in Hn. simpl.
    apply NoDup_app in Hn as (Hn1 & Hn2 & Hn3).
    apply NoDup_app. split_and!; [done| |].
    + intros x Hx. rewrite not_elem_of_cons. split; [by intros ->|by apply Hn2].
    + by apply NoDup_cons.
  - rewrite !Forall_app in Hp |- *. destruct Hp. split; [|done]. apply Forall_app.
    split; [done|by constructor].
Qed.

Lemma holds_pop l queued held it :
  holds l (it :: queued) held →
  l !! pos it = Some STORAGE_SLOT_READY_FOR_NVME ∧
  holds (<[pos it := STORAGE_SLOT_NVME_BUSY]> l) queued (held ++ [it]).
Proof.
  intros [Hr Hb Hn Hp]. simpl in Hn. apply NoDup_cons in Hn as [Hi Hn].
  rewrite fmap_app, not_elem_of_app in Hi. destruct Hi as [Hiq Hih].
  assert (Hk : l !! pos it = Some STORAGE_SLOT_READY_FOR_NVME) by (apply Hr; simpl; left).
  split; [done|]. split.
  - intros i. rewrite lookup_insert_state, Hr by done. simpl. rewrite elem_of_cons.
    split; [naive_solver|]. intros Hin. right. split; [by intros ->|by right].
  - intros i. rewrite lookup_insert_state, Hb, fmap_app, elem_of_app by done. simpl.
    rewrite list_elem_of_singleton. split; [naive_solver|].
    intros [Hin| ->]; [|naive_solver]. right. split; [by intros ->|done].
  - rewrite (assoc_L (++)), fmap_app. apply NoDup_app. split_and!; [done| |apply NoDup_singleton].
    intros x Hx Hx'. apply list_elem_of_singleton in Hx' as ->. rewrite fmap_app in Hx. set_solver.
  - inversion_clear Hp. rewrite (assoc_L (++)). apply Forall_app. split; [done|by constructor].
Qed.

Lemma holds_complete l queued held1 held2 it n :
  holds l queued (held1 ++ it :: held2) → ¬ owned_state n →
  l !! pos it = Some STORAGE_SLOT_NVME_BUSY ∧
  holds (<[pos it := n]> l) queued (held1 ++ held2).
Proof.
  unfold owned_state. intros [Hr Hb Hn Hp] Hn'.
  assert (Hk : l !! pos it = Some STORAGE_SLOT_NVME_BUSY)
    by (apply Hb, list_elem_of_fmap_2; set_solver).
  assert (Hperm : queued ++ held1 ++ it :: held2 ≡ₚ it :: queued ++ held1 ++ held2)
    by solve_Permutation.
  rewrite Hperm in Hn, Hp. simpl in Hn. apply NoDup_cons in Hn as [Hi Hn].
  inversion_clear Hp. rewrite !fmap_app, !not_elem_of_app in Hi. destruct Hi as (Hq & H1 & H2).
  split; [done|]. split; try done.
  - intros i. rewrite lookup_insert_state, Hr by done. split; [naive_solver|].
    intros Hin. right. split; [by intros ->|done].
  - intros i. rewrite lookup_insert_state, Hb by done. rewrite !fmap_app, fmap_cons, !elem_of_app, elem_of_cons.
    split; [naive_solver|]. intros Hin. right. split; [intros ->; naive_solver|naive_solver].
Qed.

(** ** The abstract queue *)
Record ghost : Type := mkGhost {
  g_slots : list StorageSlotState; g_queue : list PendingDdrSlot; g_held : list PendingDdrSlot;
  g_pushed : list PendingDdrSlot; g_taken : list PendingDdrSlot; g_done : list PendingDdrSlot }.

Record queue_core (q : StorageWriteQueue) (g : ghost) : Prop := {
  qc_table : table_rep (slots q) (g_slots g);
  qc_capacity : capacity q = Z.of_nat (length (g_slots g));
  qc_items : length (items q) = length (g_slots g);
  qc_ring : ring_rep (items q) (head q) (g_queue g);
  qc_tail : tail q = (head q + Z.of_nat (length (g_queue g))) mod capacity q;
  qc_count : count q = Z.of_nat (length (g_queue g));
  qc_holds : holds (g_slots g) (g_queue g) (g_held g);
  qc_order : g_pushed g = g_taken g ++ g_queue g;
  qc_taken : g_taken g ≡ₚ g_done g ++ g_held g;
  qc_bytes : Forall (λ it, 0 < bytes it) (g_pushed g);
  qc_buffered : buffered_bytes (totals q) = sum_bytes (g_queue g ++ g_held g);
  qc_written : bytes_written (totals q) = sum_bytes (g_done g) ∧ sum_bytes (g_done g) <= UINT64_MAX;
  qc_queued : queued_slot_count (totals q) = Z.of_nat (length (g_pushed g));
  qc_completed : completed_slot_count (totals q) = Z.of_nat (length (g_done g)) }.

(** The flags: a failed worker is an error; once the stop is latched on the DMA
    side, or requeueing is disabled there, the queue does not requeue; no
    requeue has been attempted after the latch. *)
Record queue_flags (q : StorageWriteQueue) : Prop := {
  qf_failed : worker_state q = WORKER_FAILED → error q = true;
  qf_latched : ccb_dma.dma_stop_latched (dma (rt q)) = true ∨
               ccb_dma.dma_requeue_enabled (dma (rt q)) = false → requeue_enabled q = false;
  qf_no_late : ccb_dma.dma_requeue_after_stop_count (dma (rt q)) = 0;
  qf_count : ccb_dma.dma_desc_count (dma (rt q)) = capacity q }.

Definition queue_rep (q : StorageWriteQueue) (g : ghost) : Prop := queue_core q g ∧ queue_flags q.

(** Changes outside the core. *)
Record same_core (q q' : StorageWriteQueue) : Prop := {
  sc_items : items q' = items q; sc_slots : slots q' = slots q; sc_capacity : capacity q' = capacity q;
  sc_head : head q' = head q; sc_tail : tail q' = tail q; sc_count : count q' = count q;
  sc_totals : buffered_bytes (totals q') = buffered_bytes (totals q) ∧
    bytes_written (totals q') = bytes_written (totals q) ∧
    queued_slot_count (totals q') = queued_slot_count (totals q) ∧
    completed_slot_count (totals q') = completed_slot_count (totals q) }.
Lemma core_frame q q' g : same_core q q' → queue_core q g → queue_core q' g.
Proof.
  intros [H1 H2 H3 H4 H5 H6 (H7 & H8 & H9 & H10)] [].
  split; rewrite ?H1, ?H2, ?H3, ?H4, ?H5, ?H6, ?H7, ?H8, ?H9, ?H10; done.
Qed.

(** How far the worker has got. *)
Definition stage (q : StorageWriteQueue) : Z := worker_rank (worker_state q).

(** ** Failing *)
Lemma fail_locked_spec q :
  error (storage_queue_fail_locked q) = true ∧ same_core q (storage_queue_fail_locked q) ∧
  rt (storage_queue_fail_locked q) = rt q ∧
  requeue_enabled (storage_queue_fail_locked q) = requeue_enabled q ∧
  (worker_state (storage_queue_fail_locked q) = WORKER_FAILED ∨
   worker_state (storage_queue_fail_locked q) = WORKER_DONE).
Proof.
  unfold storage_queue_fail_locked. case_bool_decide as Hd; simpl.
  - split_and!; try done. left. destruct Hd as [H1 H2]. by destruct (worker_state q).
  - split_and!; try done. destruct (decide (worker_state q = WORKER_DONE)); [by right|].
    destruct (decide (worker_state q = WORKER_FAILED)); [by left|]. by destruct Hd.
Qed.

Lemma stage_fail q : stage q <= stage (storage_queue_fail_locked q).
Proof.
  unfold stage, storage_queue_fail_locked. case_bool_decide; simpl; [|lia].
  by destruct (worker_state q).
Qed.

Lemma flags_set_error q : queue_flags q → queue_flags (q <| error := true |>).
Proof. intros []. split; simpl; auto. Qed.
Lemma flags_fail q : queue_flags q → queue_flags (storage_queue_fail_locked q).
Proof.
  intros Hf. destruct (fail_locked_spec q) as (He & Hc & Hr & Hq & _). destruct Hf as [_ F2 F3 F4].
  destruct Hc as [_ _ Hcap _ _ _ _].
  split; rewrite ?Hr, ?Hq, ?Hcap; done.
Qed.
Lemma rep_in_error q g : queue_rep q g → queue_rep (q <| error := true |>) g.
Proof. intros [Hc Hf]. split; [|by apply flags_set_error]. by eapply core_frame; [|exact Hc]. Qed.
Lemma rep_fail q g : queue_rep q g → queue_rep (storage_queue_fail_locked q) g.
Proof.
  intros [Hc Hf]. split; [|by apply flags_fail]. eapply core_frame; [|exact Hc]. apply fail_locked_spec.
Qed.

(** A slot transition of the queue. *)
Lemma local_transition_accept sl e n q l :
  table_rep (slots q) l → 0 <= sl → l !! Z.to_nat sl = Some e → e ≠ n → n ≠ STORAGE_SLOT_INVALID →
  ∃ t, storage_local_slot_transition_locked sl e n q = (0, q <| slots := t |>) ∧
       table_rep t (<[Z.to_nat sl := n]> l).
Proof.
  intros Ht H0 Hl Hne Hn. destruct (transition_accept _ _ _ _ _ Ht H0 Hl Hne Hn) as (t & Ht' & Hr).
  exists t. unfold storage_local_slot_transition_locked. by rewrite Ht'.
Qed.
Lemma local_transition_cases sl e n q l :
  table_rep (slots q) l → 0 <= sl →
  (∃ t, storage_local_slot_transition_locked sl e n q = (0, q <| slots := t |>) ∧
        l !! Z.to_nat sl = Some e ∧ table_rep t (<[Z.to_nat sl := n]> l)) ∨
  storage_local_slot_transition_locked sl e n q = (-1, q <| error := true |>).
Proof.
  intros Ht H0. unfold storage_local_slot_transition_locked.
  pose proof (transition_spec _ _ sl e n Ht H0) as Hs. unfold spec_transition in Hs.
  case_decide as Hd.
  - destruct Hs as (t & -> & Ht'). left. exists t. naive_solver.
  - rewrite Hs. right. simpl. by destruct q.
Qed.

(** ** Pushing a batch *)
(** The field types. *)
Definition typed_item (it : PendingDdrSlot) : Prop := 0 <= slot it ∧ 0 <= bytes it.
(** No slot becomes writable. *)
Definition none_writable (l l' : list StorageSlotState) : Prop :=
  ∀ i, l' !! i = Some STORAGE_SLOT_DMA_WRITABLE → l !! i = Some STORAGE_SLOT_DMA_WRITABLE.
#[export] Instance none_writable_preorder : PreOrder none_writable.
Proof. split; unfold none_writable; [by intros l i|]. intros a b c H1 H2 i. eauto. Qed.
Lemma none_writable_insert l k n :
  n ≠ STORAGE_SLOT_DMA_WRITABLE → none_writable l (<[k := n]> l).
Proof. intros Hn i Hi. apply list_lookup_insert_Some in Hi as [(_ & ? & _)|[_ Hi]]; done. Qed.

Lemma commit_one it q l queued held :
  table_rep (slots q) l → capacity q = Z.of_nat (length l) → length (items q) = length l →
  ring_rep (items q) (head q) queued → holds l queued held → 0 <= slot it →
  l !! pos it = Some STORAGE_SLOT_DMA_WRITABLE → (length queued < length l)%nat →
  let tl := (head q + Z.of_nat (length queued)) mod capacity q in
  ∃ t l', table_rep t l' ∧ l' = <[pos it := STORAGE_SLOT_READY_FOR_NVME]> l ∧
    holds l' (queued ++ [it]) held ∧
    ring_rep (<[Z.to_nat tl := it]> (items q)) (head q) (queued ++ [it]) ∧
    u32 (tl + 1) mod capacity q = (head q + Z.of_nat (length (queued ++ [it]))) mod capacity q ∧
    ∀ rest, commit_items tl (it :: rest) q =
      commit_items (u32 (tl + 1) mod capacity q) rest
        (q <| items := <[Z.to_nat tl := it]> (items q) |> <| slots := t |>).
Proof.
  intros Ht Hcap Hlen Hring Hh H0 Hl Hlt tl.
  set (q1 := q <| items ::= <[Z.to_nat tl := it]> |>).
  destruct (local_transition_accept (slot it) STORAGE_SLOT_DMA_WRITABLE
    STORAGE_SLOT_DMA_COMPLETED_UNHARVESTED q1 l Ht H0 Hl) as (t1 & E1 & Ht1); [done..|].
  set (q2 := q1 <| slots := t1 |>) in E1.
  destruct (local_transition_accept (slot it) STORAGE_SLOT_DMA_COMPLETED_UNHARVESTED
    STORAGE_SLOT_READY_FOR_NVME q2
    (<[pos it := STORAGE_SLOT_DMA_COMPLETED_UNHARVESTED]> l) Ht1 H0) as (t2 & E2 & Ht2); [|done..|].
  { rewrite list_lookup_insert_eq by (by eapply lookup_lt_Some). done. }
  rewrite list_insert_insert_eq in Ht2. pose proof (rep_nonempty _ _ Ht) as Hne.
  assert (Hcl : capacity q = Z.of_nat (length (items q))) by lia.
  exists t2, (<[pos it := STORAGE_SLOT_READY_FOR_NVME]> l). split_and!; try done.
  - eapply holds_push; [done..|]. unfold owned_state. naive_solver.
  - unfold tl. rewrite Hcl. apply ring_rep_push; [done|lia].
  - assert (Hb : 0 <= tl < capacity q) by (apply Z.mod_pos_bound; lia).
    rewrite u32_small by cint. unfold tl. rewrite Zplus_mod_idemp_l, length_app. simpl. f_equal. lia.
  - intros rest. cbn [commit_items]. fold q1. rewrite E1. cbn [fst snd]. simpl (negb (0 =? 0)). cbv iota.
    rewrite E2. simpl (negb (0 =? 0)). cbv iota. done.
Qed.

Lemma commit_spec its : ∀ q l queued held,
  table_rep (slots q) l → capacity q = Z.of_nat (length l) → length (items q) = length l →
  ring_rep (items q) (head q) queued → holds l queued held →
  Forall (λ it, 0 <= slot it) its → NoDup (pos <$> its) →
  Forall (λ it, l !! pos it = Some STORAGE_SLOT_DMA_WRITABLE) its →
  (length queued + length its <= length l)%nat →
  ∃ arr t l', commit_items ((head q + Z.of_nat (length queued)) mod capacity q) its q =
      (true, (head q + Z.of_nat (length (queued ++ its))) mod capacity q,
       q <| items := arr |> <| slots := t |>) ∧
    table_rep t l' ∧ length l' = length l ∧ length arr = length l ∧
    ring_rep arr (head q) (queued ++ its) ∧ holds l' (queued ++ its) held ∧ none_writable l l'.
Proof.
  induction its as [|it its IH]; intros q l queued held Ht Hcap Hlen Hring Hh Hn Hd Hw Hfit.
  { exists (items q), (slots q), l. rewrite !app_nil_r. simpl. destruct q. done. }
  apply Forall_cons in Hn as [H0 Hn]. apply Forall_cons in Hw as [Hw0 Hw].
  simpl in Hd. apply NoDup_cons in Hd as [Hi Hd]. simpl in Hfit.
  destruct (commit_one it q l queued held) as (t & l' & Ht' & -> & Hh' & Hr' & Htl & Hstep);
    [done..|lia|].
  set (q1 := q <| items := _ |> <| slots := t |>) in Hstep.
  destruct (IH q1 (<[pos it := STORAGE_SLOT_READY_FOR_NVME]> l) (queued ++ [it]) held)
    as (arr & t' & l2 & E & Ht2 & Hl2 & Ha2 & Hr2 & Hh2 & Hnw); try done.
  - by rewrite length_insert.
  - unfold q1. simpl. by rewrite !length_insert.
  - apply Forall_forall. intros it' Hin. rewrite list_lookup_insert_ne.
    + rewrite Forall_forall in Hw. by apply Hw.
    + intros Heq. apply Hi. rewrite Heq. by apply list_elem_of_fmap_2.
  - rewrite length_insert, length_app. simpl. lia.
  - exists arr, t', l2. rewrite length_insert in Hl2, Ha2.
    rewrite Hstep, Htl. change (head q1) with (head q) in *. change (capacity q1) with (capacity q) in *.
    rewrite E. rewrite <-(assoc_L (++)) in Hr2, Hh2 |- *. split_and!; try done.
    etrans; [|exact Hnw]. by apply none_writable_insert.
Qed.

(** What the checks of a batch establish. *)
Lemma batch_bytes_spec q l its : ∀ seen acc b,
  table_rep (slots q) l → Forall typed_item its → 0 <= acc <= UINT64_MAX →
  batch_bytes q seen acc its = Some b →
  b = acc + sum_bytes its ∧ b <= UINT64_MAX ∧ Forall (λ it, 0 < bytes it) its ∧
  Forall (λ it, l !! pos it = Some STORAGE_SLOT_DMA_WRITABLE) its ∧ NoDup (pos <$> its) ∧
  (∀ it it', it ∈ its → it' ∈ seen → slot it' ≠ slot it).
Proof.
  induction its as [|it its IH]; intros seen acc b Ht Hty Hacc Hb; simpl in Hb.
  { simplify_eq. simpl. split_and!; try done; [lia..|constructor|set_solver]. }
  apply Forall_cons in Hty as [[H0 Hbytes] Hty].
  destruct (pending_item_ok q seen acc it) eqn:Hok; [|done].
  unfold pending_item_ok in Hok. rewrite !andb_true_iff, !negb_true_iff, !orb_false_iff in Hok.
  destruct Hok as ((((H1 & H2) & H3) & H4) & H5). destruct_and!.
  match goal with H : negb (bool_decide _) = false |- _ =>
    rewrite negb_false_iff, bool_decide_eq_true, (rep_slot_state _ _ _ Ht H0) in H; rename H into Hst end.
  destruct (l !! Z.to_nat (slot it)) as [s|] eqn:Hl; [simpl in Hst; subst s|done].
  apply IH in Hb; [|done|done|rewrite u64_small; cint].
  destruct Hb as (-> & Hle & Hpos & Hw & Hnd & Hseen).
  rewrite u64_small in Hle |- * by cint.
  assert (Hni : ∀ it', it' ∈ seen → slot it' ≠ slot it).
  { intros it' Hin Heq. assert (existsb (λ it0, slot it0 =? slot it) seen = true); [|congruence].
    apply existsb_exists. exists it'. rewrite <-list_elem_of_In. split; [done|lia]. }
  simpl. split_and!; try lia.
  - constructor; [lia|done].
  - constructor; done.
  - apply NoDup_cons. split; [|done]. intros (it' & Heq & Hin)%list_elem_of_fmap.
    apply (Hseen it' it); [done|set_solver|]. unfold pos in Heq.
    rewrite Forall_forall in Hty. destruct (Hty it' Hin). lia.
  - intros a b' Ha Hb'. apply elem_of_cons in Ha as [->|Ha]; [by apply Hni|].
    apply Hseen; set_solver.
Qed.

(** The rest of the queue: an error is not forgotten. *)
Record keeps (q q' : StorageWriteQueue) : Prop := {
  kp_rt : rt q' = rt q; kp_requeue : requeue_enabled q' = requeue_enabled q;
  kp_state : worker_state q' = worker_state q; kp_error : error q = true → error q' = true }.
#[export] Instance keeps_preorder : PreOrder keeps.
Proof. split; [by intros q|]. intros q1 q2 q3 [] []. split; try congruence; auto. Qed.
Lemma keeps_flags q q' : keeps q q' → capacity q' = capacity q → queue_flags q → queue_flags q'.
Proof.
  intros [K1 K2 K3 K4] Hcap [F1 F2 F3 F4].
  split; rewrite ?K1, ?K2, ?K3, ?Hcap; try done. auto.
Qed.

Definition push_ghost (g : ghost) (its : list PendingDdrSlot) (l : list StorageSlotState) : ghost :=
  mkGhost l (g_queue g ++ its) (g_held g) (g_pushed g ++ its) (g_taken g) (g_done g).

Lemma push_core q g its b arr t l tl :
  queue_core q g → b = sum_bytes its → b <= UINT64_MAX →
  Forall (λ it, 0 < bytes it) its → Z.of_nat (length its) <= capacity q - count q →
  buffered_bytes (totals q) <= UINT64_MAX - b →
  queued_slot_count (totals q) <= UINT64_MAX - Z.of_nat (length its) →
  table_rep t l → length l = length (g_slots g) → length arr = length (g_slots g) →
  ring_rep arr (head q) (g_queue g ++ its) → holds l (g_queue g ++ its) (g_held g) →
  tl = (head q + Z.of_nat (length (g_queue g ++ its))) mod capacity q →
  queue_core (note_pushed (Z.of_nat (length its)) b (q <| items := arr |> <| slots := t |> <| tail := tl |>))
    (push_ghost g its l).
Proof.
  intros [] -> Hb Hpos Hn Hbuf Hq Ht Hl Ha Hr Hh ->.
  assert (Hsum : 0 <= buffered_bytes (totals q)).
  { rewrite qc_buffered0. apply sum_bytes_nonneg. rewrite qc_order0 in qc_bytes0.
    apply Forall_app in qc_bytes0 as [Hty1 Hty2]. apply Forall_app. split; [done|].
    rewrite qc_taken0 in Hty1. by apply Forall_app in Hty1 as [_ ?]. }
  pose proof (sum_bytes_nonneg _ Hpos). pose proof (rep_nonempty _ _ Ht).
  split; simpl; rewrite ?Hl; try done.
  - rewrite qc_count0, length_app. rewrite u32_small by cint. lia.
  - rewrite qc_order0. by rewrite (assoc_L (++)).
  - apply Forall_app. done.
  - rewrite u64_small by cint. rewrite qc_buffered0, !sum_bytes_app. lia.
  - rewrite u64_small by cint. rewrite length_app. lia.
Qed.

Lemma push_spec q g its :
  queue_rep q g → Forall typed_item its →
  let '(rc, q') := storage_local_queue_push_batch its q in
  keeps q q' ∧
  (rc = 0 ∧ (∃ l, queue_rep q' (push_ghost g its l) ∧ none_writable (g_slots g) l) ∨
   rc = -1 ∧ queue_rep q' g).
Proof.
  intros Hrep Hty. pose proof Hrep as [Hc Hf]. unfold storage_local_queue_push_batch.
  destruct (Z.of_nat (length its) =? 0); [split; [done|by right]|].
  assert (Hbad : ∀ q2, same_core q q2 ∧ keeps q q2 →
    keeps q (q2 <| error := true |>) ∧ queue_rep (q2 <| error := true |>) g).
  { intros q2 [Hsc Hk]. split; [destruct Hk; by split|]. apply rep_in_error. split.
    - by eapply core_frame.
    - eapply keeps_flags; [done| |done]. apply Hsc. }
  destruct (Hbad q) as [Hk Hr]; [by split|].
  destruct (_ || _) eqn:Hg; [split; [done|by right]|].
  rewrite !orb_false_iff in Hg. destruct_and!.
  destruct (batch_bytes q [] 0 its) as [b|] eqn:Hb; [|split; [done|by right]].
  destruct (_ || _) eqn:Hg2; [split; [done|by right]|]. clear Hbad Hk Hr.
  rewrite !orb_false_iff in Hg2. destruct_and!.
  assert (H00 : 0 <= 0 <= UINT64_MAX) by cint.
  destruct (batch_bytes_spec _ _ _ _ _ _ (qc_table _ _ Hc) Hty H00 Hb)
    as (Hsum & Hle & Hpos & Hw & Hnd & _).
  pose proof Hc as [Ct Ccap Cit Cring Ctl Ccnt Chold _ _ _ _ _ _ _].
  destruct (commit_spec its q (g_slots g) (g_queue g) (g_held g))
    as (arr & t & l & E & Ht & Hl & Ha & Hr & Hh & Hnw); try done.
  { eapply Forall_impl; [exact Hty|]. by intros it []. }
  { lia. }
  rewrite Ctl, E. simpl negb. cbv iota. split; [done|]. left. split; [done|].
  exists l. split; [|done]. split.
  - apply push_core; try done; try cint.
  - eapply keeps_flags; [| |exact Hf]; done.
Qed.

(** ** The DMA side *)
(** What an operation of the ring leaves alone. *)
Record dma_keeps (d d' : ccb_dma.Rt) : Prop := {
  dk_count : ccb_dma.dma_desc_count d' = ccb_dma.dma_desc_count d;
  dk_latched : ccb_dma.dma_stop_latched d' = ccb_dma.dma_stop_latched d;
  dk_enabled : ccb_dma.dma_requeue_enabled d' = ccb_dma.dma_requeue_enabled d;
  dk_late : ccb_dma.dma_requeue_after_stop_count d' = ccb_dma.dma_requeue_after_stop_count d }.
#[export] Instance dma_keeps_preorder : PreOrder dma_keeps.
Proof. split; [by intros d|]. intros d1 d2 d3 [] []. split; congruence. Qed.

Lemma requeue_keeps {W} (hw : ccb_dma.DmaHw W) sl d w :
  ccb_dma.dma_stop_latched d = false → ccb_dma.dma_requeue_enabled d = true →
  wp (ccb_dma.dma_requeue_one hw sl) (λ _ st, dma_keeps d (ccb_dma.rt st.1))
     (ccb_dma.mkState d None, w).
Proof.
  intros Hl He. unfold ccb_dma.dma_requeue_one. apply wp_bind, wp_bind, wp_sget, wp_ret.
  simpl. rewrite Hl, He. simpl. destruct (_ || _); [by apply wp_ret|].
  apply wp_bind, wp_sio_any. intros _ w1. apply wp_bind, wp_sio_any. intros _ w2.
  apply wp_bind, wp_sio_any. intros _ w3. apply wp_bind, wp_sio_any. intros sr w4.
  apply wp_bind, wp_sio_any. intros cr w5. destruct (_ || _); [by apply wp_ret|].
  apply wp_bind, wp_smod, wp_bind, wp_bind, wp_sget, wp_ret.
  destruct (_ <? _); [|by apply wp_ret]. apply wp_bind, wp_smod. by apply wp_ret.
Qed.

(** ** Taking a slot *)
Section Thread.
Context {W : Type} (out : Outside W).

Lemma wp_get_q (Q : StorageWriteQueue → Sys * W → Prop) s w :
  Q (queue s) (s, w) → wp get_q Q (s, w).
Proof. done. Qed.
Lemma wp_mod_q f (Q : unit → Sys * W → Prop) s w :
  Q tt (s <| queue ::= f |>, w) → wp (mod_q f) Q (s, w).
Proof. done. Qed.
Lemma wp_run_q {A} (f : StorageWriteQueue → A * StorageWriteQueue) (Q : A → Sys * W → Prop) s w :
  (let '(a, q) := f (queue s) in Q a (s <| queue := q |>, w)) → wp (run_q f) Q (s, w).
Proof. unfold wp, run_q. by destruct (f (queue s)). Qed.
Lemma wp_clock (Q : Z → Sys * W → Prop) s w :
  (∀ t w', Q t (s, w')) → wp (now out) Q (s, w).
Proof. apply wp_sio_any. Qed.
Lemma wp_mod_timing f (Q : unit → Sys * W → Prop) s w :
  Q tt (s <| queue ::= λ q, q <| timing ::= f |> |>, w) → wp (mod_timing f) Q (s, w).
Proof. done. Qed.

(** Only the queue of the system changes. *)
Record same_sys (s s' : Sys) : Prop := {
  ss_stop : g_storage_stop_requested s' = g_storage_stop_requested s;
  ss_abort : engine_abort s' = engine_abort s }.
#[export] Instance same_sys_preorder : PreOrder same_sys.
Proof. split; [by intros s|]. intros s1 s2 s3 [] []. split; congruence. Qed.

Definition pop_ghost (g : ghost) (it : PendingDdrSlot) (rest : list PendingDdrSlot) : ghost :=
  mkGhost (<[pos it := STORAGE_SLOT_NVME_BUSY]> (g_slots g)) rest (g_held g ++ [it])
    (g_pushed g) (g_taken g ++ [it]) (g_done g).

Lemma pop_core q g it rest t :
  queue_core q g → g_queue g = it :: rest →
  table_rep t (<[pos it := STORAGE_SLOT_NVME_BUSY]> (g_slots g)) →
  queue_core (storage_queue_record_depth_locked
    (q <| head := u32 (head q + 1) mod capacity q |> <| count := u32 (count q - 1) |> <| slots := t |>))
    (pop_ghost g it rest).
Proof.
  intros [] Hq Ht. rewrite Hq in *. pose proof (rep_nonempty _ _ Ht) as Hne.
  rewrite length_insert in Hne. destruct (holds_pop _ _ _ _ qc_holds0) as [_ Hh].
  assert (Hh1 : u32 (head q + 1) = head q + 1) by (destruct qc_ring0; apply u32_small; cint).
  split; simpl; rewrite ?length_insert, ?Hh1; try done.
  - rewrite qc_capacity0, <-qc_items0. eapply ring_rep_pop; done.
  - rewrite qc_tail0. simpl. rewrite Zplus_mod_idemp_l. f_equal. lia.
  - rewrite qc_count0. simpl. rewrite u32_small; [lia|]. destruct qc_ring0. simpl in *. cint.
  - rewrite qc_order0. by rewrite <-(assoc_L (++)).
  - rewrite qc_taken0. by rewrite (assoc_L (++)).
  - rewrite qc_buffered0. apply sum_bytes_perm. rewrite (assoc_L (++)). apply Permutation_cons_append.
Qed.

(** The outcome of a pop. *)
Definition popped (q : StorageWriteQueue) (g : ghost) (r : StorageQueuePopResult) (it : PendingDdrSlot)
    (q' : StorageWriteQueue) (g' : ghost) : Prop :=
  match r with
  | STORAGE_QUEUE_POP_ITEM => ∃ rest, g_queue g = it :: rest ∧ g' = pop_ghost g it rest
  | STORAGE_QUEUE_POP_ERROR => g' = g ∧ error q' = true
  | STORAGE_QUEUE_POP_PRODUCER_DRAINED => g' = g ∧ g_queue g = [] ∧ error q' = false ∧
      storage_worker_producer_done (worker_state q') = true
  | STORAGE_QUEUE_POP_TEMP_EMPTY => g' = g ∧ g_queue g = [] ∧ must_wait q = true
  | STORAGE_QUEUE_POP_NOT_ATTEMPTED => False
  end.

Lemma pop_spec start s w g :
  queue_rep (queue s) g →
  wp (pop_section out start) (λ r st, ∃ g', queue_rep (queue st.1) g' ∧ keeps (queue s) (queue st.1) ∧
    same_sys s st.1 ∧ none_writable (g_slots g) (g_slots g') ∧
    popped (queue s) g r.1 r.2 (queue st.1) g') (s, w).
Proof.
  intros Hrep. apply wp_bind.
  eapply (wp_mono _ (λ _ st, queue_rep (queue st.1) g ∧ keeps (queue s) (queue st.1) ∧ same_sys s st.1)).
  { destruct (start =? 0); [done|]. apply wp_bind, wp_clock. intros t w'. apply wp_mod_timing. cbn [fst].
    split_and!; [|by split|by split]. destruct Hrep as [Hc Hf]. split; [by eapply core_frame; [|exact Hc]|].
    destruct Hf. by split. }
  rename Hrep into Hrep0. intros [] [s1 w1] (Hrep & Hk & Hsys). cbn [fst] in *.
  apply wp_bind, wp_get_q. destruct (error (queue s1)) eqn:He.
  { apply wp_ret. exists g. cbn [fst snd]. done. }
  pose proof Hrep as [Hc Hf]. rewrite (qc_count _ _ Hc).
  destruct (g_queue g) as [|it rest] eqn:Hq.
  { simpl. apply wp_ret. exists g. cbn [fst snd]. split_and!; try done.
    destruct (storage_worker_producer_done _) eqn:Hp; [done|]. simpl. split_and!; [done..|].
    destruct Hrep0 as [Hc0 _]. unfold must_wait. rewrite (qc_count _ _ Hc0), Hq, <-(kp_state _ _ Hk), Hp.
    destruct (error (queue s)) eqn:He0; [|done]. by rewrite (kp_error _ _ Hk He0) in He. }
  replace (Z.of_nat (length (it :: rest)) =? 0) with false by (simpl; lia).
  assert (Hhead : items (queue s1) !! Z.to_nat (head (queue s1)) = Some it).
  { destruct Hc. rewrite Hq in *. by eapply ring_rep_head. }
  rewrite Hhead. simpl default. apply wp_bind, wp_mod_q, wp_bind, wp_run_q.
  pose proof (qc_holds _ _ Hc) as Hh. rewrite Hq in Hh. pose proof (h_nonneg _ _ _ Hh) as Hnn.
  apply holds_pop in Hh as [Hl _]. simpl in Hnn. inversion_clear Hnn.
  set (q1 := (queue s1) <| head := u32 (head (queue s1) + 1) mod capacity (queue s1) |>
                      <| count := u32 (count (queue s1) - 1) |>).
  destruct (local_transition_accept (slot it) STORAGE_SLOT_READY_FOR_NVME STORAGE_SLOT_NVME_BUSY q1
    (g_slots g) (qc_table _ _ Hc)) as (t & E & Ht); [done..|].
  match goal with |- context [storage_local_slot_transition_locked _ _ _ ?x] => change x with q1 end.
  rewrite E. simpl negb. cbv iota.
  apply wp_bind, wp_mod_q, wp_ret. exists (pop_ghost g it rest). cbn [fst snd]. split_and!.
  - split; [by apply pop_core|]. eapply keeps_flags; [| |exact Hf]; done.
  - etrans; [exact Hk|]. by split.
  - etrans; [exact Hsys|]. by split.
  - by apply none_writable_insert.
  - by exists rest.
Qed.

(** *** Completing a slot *)
Lemma wp_on_dma {A} (m : Eff (ccb_dma.State * W) A) (Q : A → Sys * W → Prop) s w :
  wp m (λ a st, Q a (s <| queue ::= λ q, q <| rt ::= λ r, r <| dma := ccb_dma.rt st.1 |> |> |>, st.2))
     (ccb_dma.mkState (dma (rt (queue s))) None, w) →
  wp (on_dma m) Q (s, w).
Proof. unfold wp, on_dma. by destruct (m _) as [a [d w']]. Qed.

Definition done_ghost (g : ghost) (held : list PendingDdrSlot) (it : PendingDdrSlot)
    (n : StorageSlotState) : ghost :=
  mkGhost (<[pos it := n]> (g_slots g)) (g_queue g) held (g_pushed g) (g_taken g) (g_done g ++ [it]).

(** The rest of what an operation of the writer leaves alone: the flags that
    the producer sets. *)
Record stays (q q' : StorageWriteQueue) : Prop := {
  sy_requeue : requeue_enabled q' = requeue_enabled q;
  sy_error : error q = true → error q' = true;
  sy_capacity : capacity q' = capacity q;
  sy_stage : stage q <= stage q';
  sy_state : error q' = false → worker_state q' = worker_state q;
  sy_dma : dma_keeps (dma (rt q)) (dma (rt q')) }.
#[export] Instance stays_preorder : PreOrder stays.
Proof.
  split; [by intros q|]. intros q1 q2 q3 [R1 E1 C1 S1 W1 D1] [R2 E2 C2 S2 W2 D2].
  split; [congruence|auto|congruence|lia| |by etrans].
  intros He. rewrite W2 by done. apply W1. destruct (error q2) eqn:E; [|done]. by rewrite E2 in He.
Qed.
Lemma stays_flags q q' :
  stays q q' → (worker_state q' = WORKER_FAILED → error q' = true) → queue_flags q → queue_flags q'.
Proof.
  intros [H1 H2 H3 _ _ [D1 D2 D3 D4]] Hf [F1 F2 F3 F4].
  split; rewrite ?H1, ?H3, ?D1, ?D2, ?D3, ?D4; done.
Qed.
Lemma stays_error q : stays q (q <| error := true |>).
Proof. by split. Qed.
Lemma stays_of q q' : same_core q q' → keeps q q' → stays q q'.
Proof. intros [] [K1 K2 K3 K4]. split; unfold stage; rewrite ?K1, ?K3; done. Qed.
Lemma stays_fail q : stays q (storage_queue_fail_locked q).
Proof.
  destruct (fail_locked_spec q) as (He & Hc & Hr & Hq & _). destruct Hc. split; rewrite ?Hr; try done. apply stage_fail.
Qed.

(** The slot is accounted and has left the writer, in state [n]. *)
Lemma done_core q g held1 it held2 t n :
  queue_core q g → g_held g = held1 ++ it :: held2 → ¬ owned_state n →
  bytes_written (totals q) <= UINT64_MAX - bytes it →
  table_rep t (<[pos it := n]> (g_slots g)) →
  queue_core (q <| totals ::= account_completed it |> <| slots := t |>)
    (done_ghost g (held1 ++ held2) it n).
Proof.
  intros [] Hheld Hn Hw Ht. rewrite Hheld in *.
  destruct (holds_complete _ _ _ _ _ _ qc_holds0 Hn) as [_ Hh].
  assert (Hpos : 0 < bytes it ∧ 0 <= sum_bytes (g_queue g ++ held1 ++ held2)).
  { rewrite qc_order0, qc_taken0 in qc_bytes0.
    assert (Hp : (g_done g ++ held1 ++ it :: held2) ++ g_queue g ≡ₚ
                 it :: g_done g ++ (g_queue g ++ held1 ++ held2)) by solve_Permutation.
    rewrite Hp in qc_bytes0. inversion_clear qc_bytes0 as [|?? H1 H2]. split; [done|].
    apply Forall_app in H2 as [_ H2]. by apply sum_bytes_nonneg. }
  assert (Hsum : sum_bytes (g_queue g ++ held1 ++ it :: held2) =
                 bytes it + sum_bytes (g_queue g ++ held1 ++ held2)).
  { rewrite (sum_bytes_perm _ (it :: g_queue g ++ held1 ++ held2)) by solve_Permutation. done. }
  split; simpl; rewrite ?length_insert; try done.
  - rewrite qc_taken0. solve_Permutation.
  - rewrite qc_buffered0, Hsum. case_match; lia.
  - rewrite (proj1 qc_written0), sum_bytes_app. simpl. split; [lia|cint].
  - rewrite qc_completed0, length_app. simpl. lia.
Qed.

(** Changing the state of a slot that nobody owns. *)
Lemma move_core q g k e n t :
  queue_core q g → g_slots g !! k = Some e → ¬ owned_state e → ¬ owned_state n →
  table_rep t (<[k := n]> (g_slots g)) →
  queue_core (q <| slots := t |>)
    (mkGhost (<[k := n]> (g_slots g)) (g_queue g) (g_held g) (g_pushed g) (g_taken g) (g_done g)).
Proof.
  intros [] Hk He Hn Ht. split; simpl; rewrite ?length_insert; try done. by eapply holds_move.
Qed.

(** The state in which the completed slot is left. *)
Definition left_state (a : after_section) (n : StorageSlotState) : Prop :=
  match a with
  | Completed true => n = STORAGE_SLOT_DMA_WRITABLE
  | Completed false => n = STORAGE_SLOT_FREE
  | ReturnNow rc => rc = -1 ∧ n = STORAGE_SLOT_REQUEUE_PENDING
  | FailFatal => n = STORAGE_SLOT_REQUEUE_PENDING
  end.

Lemma requeue_spec it s w g held :
  queue_rep (queue s) (done_ghost g held it STORAGE_SLOT_REQUEUE_PENDING) → 0 <= slot it →
  (pos it < length (g_slots g))%nat → requeue_enabled (queue s) = true →
  wp (requeue_section out it) (λ a st, ∃ n, queue_rep (queue st.1) (done_ghost g held it n) ∧
    stays (queue s) (queue st.1) ∧ same_sys s st.1 ∧ left_state a n ∧
    (a = Completed true ∨ error (queue st.1) = true)) (s, w).
Proof.
  intros Hrep H0 Hlt Hen. apply wp_bind, wp_get_q. destruct (_ =? UINT64_MAX).
  { apply wp_bind, wp_mod_q, wp_ret. eexists. cbn [fst snd].
    split_and!; [by apply rep_in_error|apply stays_error|by split|done|by right]. }
  pose proof Hrep as [Hc [F1 F2 F3 F4]]. apply wp_bind, wp_on_dma.
  eapply wp_mono.
  { apply requeue_keeps; [destruct (ccb_dma.dma_stop_latched _) eqn:E|
      destruct (ccb_dma.dma_requeue_enabled _) eqn:E]; try done; rewrite F2 in Hen; auto; done. }
  intros rc [d w'] Hd. cbn [fst snd] in *. set (s1 := s <| queue ::= _ |>).
  assert (Hs1 : stays (queue s) (queue s1)) by by split.
  assert (Hrep1 : queue_rep (queue s1) (done_ghost g held it STORAGE_SLOT_REQUEUE_PENDING)).
  { split; [by eapply core_frame; [|exact Hc]|]. eapply stays_flags; [exact Hs1|done|by split]. }
  assert (Hsys1 : same_sys s s1) by by split. clearbody s1. clear Hd Hrep Hc F1 F2 F3 F4.
  destruct (rc =? 0); simpl negb; cbv iota.
  2:{ apply wp_bind, wp_mod_q, wp_ret. eexists. cbn [fst snd].
      assert (Hf : same_core (storage_queue_fail_locked (queue s1))
        (set_error_reason "dma_requeue_failed" (storage_queue_fail_locked (queue s1))) ∧
        keeps (storage_queue_fail_locked (queue s1))
        (set_error_reason "dma_requeue_failed" (storage_queue_fail_locked (queue s1)))).
      { unfold set_error_reason. simpl (String.eqb _ ""). cbv iota. case_match; by repeat split. }
      destruct Hf as [Hsc Hkp]. destruct (rep_fail _ _ Hrep1) as [Hc2 Hf2].
      split_and!; [| | |done|].
      - split; [by eapply core_frame|]. eapply keeps_flags; [done| |done]. apply Hsc.
      - etrans; [exact Hs1|]. etrans; [apply stays_fail|]. by apply stays_of.
      - etrans; [exact Hsys1|]. by split.
      - right. apply Hkp. apply fail_locked_spec. }
  apply wp_bind, wp_run_q. destruct Hrep1 as [Hc1 Hf1].
  destruct (local_transition_accept (slot it) STORAGE_SLOT_REQUEUE_PENDING STORAGE_SLOT_DMA_WRITABLE
    (queue s1) _ (qc_table _ _ Hc1)) as (t & E & Ht); [done| |done..|].
  { simpl. by rewrite list_lookup_insert_eq. }
  rewrite E. simpl negb. cbv iota. apply wp_bind, wp_mod_q, wp_ret.
  exists STORAGE_SLOT_DMA_WRITABLE. cbn [fst snd].
  assert (Hs2 : stays (queue s1) ((queue s1) <| slots := t |>)) by by split.
  split_and!; [|etrans; [exact Hs1|]; by split|etrans; [exact Hsys1|]; by split|done|by left].
  split; [|destruct Hf1; by split].
  pose proof (move_core _ _ (pos it) STORAGE_SLOT_REQUEUE_PENDING STORAGE_SLOT_DMA_WRITABLE t Hc1) as Hm.
  cbn [g_slots g_queue g_held g_pushed g_taken g_done done_ghost] in Hm, Ht.
  rewrite list_insert_insert_eq in Hm, Ht.
  eapply core_frame; [|apply Hm]; [by split|by rewrite list_lookup_insert_eq|..|exact Ht];
    unfold owned_state; naive_solver.
Qed.

(** What became of a completion: refused with an error, or accounted. *)
Definition completed_as (q q' : StorageWriteQueue) (g g' : ghost) (it : PendingDdrSlot)
    (held : list PendingDdrSlot) (a : after_section) : Prop :=
  (a = ReturnNow (-1) ∧ g' = g ∧ error q' = true) ∨
  (∃ n, g' = done_ghost g held it n ∧ left_state a n ∧
    ((∃ b, a = Completed b) ∨ error q' = true) ∧
    (requeue_enabled q = false → n = STORAGE_SLOT_FREE)).

Lemma complete_spec it held1 held2 s w g :
  queue_rep (queue s) g → g_held g = held1 ++ it :: held2 →
  wp (complete_section out it) (λ a st, ∃ g', queue_rep (queue st.1) g' ∧
    stays (queue s) (queue st.1) ∧ same_sys s st.1 ∧
    completed_as (queue s) (queue st.1) g g' it (held1 ++ held2) a ∧
    (requeue_enabled (queue s) = false → st.2 = w)) (s, w).
Proof.
  intros Hrep Hheld. pose proof Hrep as [Hc Hf]. apply wp_bind, wp_get_q.
  assert (H0 : 0 <= slot it).
  { pose proof (h_nonneg _ _ _ (qc_holds _ _ Hc)) as Hn. rewrite Hheld in Hn.
    rewrite !Forall_app, Forall_cons in Hn. tauto. }
  pose proof (qc_holds _ _ Hc) as Hh. rewrite Hheld in Hh.
  assert (Hl : g_slots g !! pos it = Some STORAGE_SLOT_NVME_BUSY).
  { apply (h_busy _ _ _ Hh), list_elem_of_fmap_2. set_solver. }
  rewrite (rep_slot_state _ _ _ (qc_table _ _ Hc) H0). unfold pos in Hl. rewrite Hl. simpl negb. cbv iota.
  destruct (_ || _) eqn:Hfull.
  { apply wp_bind, wp_mod_q, wp_ret. exists g. cbn [fst snd].
    split_and!; [by apply rep_in_error|apply stays_error|by split|by left|done]. }
  rewrite orb_false_iff in Hfull. destruct Hfull as [Hb Hcc].
  apply wp_bind, wp_mod_q. set (req := _ && _).
  apply wp_bind, wp_run_q. set (n := if req then _ else _).
  set (s1 := s <| queue ::= _ |>).
  assert (Hn : ¬ owned_state n ∧ n ≠ STORAGE_SLOT_INVALID) by (unfold n, owned_state; destruct req; naive_solver).
  destruct (local_transition_accept (slot it) STORAGE_SLOT_NVME_BUSY n (queue s1) (g_slots g)
    (qc_table _ _ Hc) H0 Hl) as (t & E & Ht); [unfold owned_state in Hn; naive_solver|apply Hn|].
  rewrite E. simpl negb. cbv iota.
  set (s2 := s1 <| queue := _ |>).
  assert (Hs2 : stays (queue s) (queue s2)) by by split.
  assert (Hsys2 : same_sys s s2) by by split.
  assert (Hrep2 : queue_rep (queue s2) (done_ghost g (held1 ++ held2) it n)).
  { split; [apply done_core; [done..|apply Hn|lia|done]|]. eapply stays_flags; [exact Hs2| |done].
    apply Hf. }
  destruct req eqn:Hreq.
  - apply andb_true_iff in Hreq as [Hen _]. eapply wp_mono.
    { apply requeue_spec; [exact Hrep2|done|by eapply lookup_lt_Some|exact Hen]. }
    intros a [s3 w3] (n' & Hrep3 & Hs3 & Hsys3 & Hleft & Ho). cbn [fst snd] in *.
    eexists. split_and!; [exact Hrep3|by etrans|by etrans| |by rewrite Hen].
    right. exists n'. split_and!; try done; [naive_solver|by rewrite Hen].
  - apply wp_ret. eexists. cbn [fst snd]. split_and!; [exact Hrep2|done|done| |done].
    right. exists n. split_and!; try done. left. by exists false.
Qed.
End Thread.
End write_queue_rep.
