(* ===== verification/WriteQueueSafe.v ===== *)
(** * The write queue under any interleaving

    The critical sections of the producer and of the writer in any order: the
    queue conserves slots and bytes, hands every slot over exactly once and in
    order, and after the stop is latched hands nothing back to the hardware. *)
From S2P Require Import Prelude StorageError SlotTable Worker Config Diag DmaRing DmaSafe CcbTypes CrossSlot WriteQueue WriterThread WriteQueueRep.

Module write_queue_safety.
Import storage_queue storage_worker ccb_types storage_write_queue storage_writer_thread write_queue_rep.

(** ** The producer's critical sections *)
Inductive producer_op : Type :=
| OpPush (its : list PendingDdrSlot) | OpMarkFailed (sl : Z) | OpRelease (sl : Z)
| OpReady | OpEnableRun | OpProducerReady (success : bool) | OpRunning
| OpRequestStop | OpLatchStop | OpHarvesting | OpFinish | OpFinalizing | OpDone
| OpAbort | OpSnapshot | OpSetReason (reason : string) | OpFailFatal (unresolved : bool)
| OpDeferred (code : Z) (reason : string) | OpBudget (us : Z)
| OpHarvest (max_items budget_us : Z) (allow_halted : bool).

Definition op_wf (op : producer_op) : Prop :=
  match op with
  | OpPush its => Forall typed_item its
  | OpMarkFailed sl | OpRelease sl => 0 <= sl
  | _ => True
  end.

Section Producer.
Context {W : Type} (out : Outside W).

(** One section; the items it put into the queue. *)
Definition producer_step (op : producer_op) : M (W := W) (list PendingDdrSlot) :=
  let code (f : StorageWriteQueue → Z * StorageWriteQueue) : M (list PendingDdrSlot) :=
    let! _ := run_q f in eret [] in
  let change (f : StorageWriteQueue → StorageWriteQueue) : M (list PendingDdrSlot) :=
    let! _ := mod_q f in eret [] in
  match op with
  | OpPush its =>
      let! rc := run_q (storage_local_queue_push_batch its) in eret (if rc =? 0 then its else [])
  | OpMarkFailed sl => change (storage_mark_harvest_slot_failed sl)
  | OpRelease sl => code (storage_release_harvested_slot sl)
  | OpReady => code storage_queue_mark_ready
  | OpEnableRun => code storage_queue_enable_run
  | OpProducerReady b => code (storage_queue_set_producer_ready b)
  | OpRunning => code storage_queue_mark_running
  | OpRequestStop => code storage_queue_request_stop_state
  | OpLatchStop => let! _ := run_q storage_queue_latch_stop in eret []
  | OpHarvesting => code storage_queue_mark_harvesting
  | OpFinish =>
      let! stop := run_q storage_queue_finish in
      let! _ := (if (stop : bool) then storage_write_request_stop else eret tt) in eret []
  | OpFinalizing => code storage_queue_mark_finalizing
  | OpDone => code storage_queue_mark_done
  | OpAbort => let! _ := storage_queue_request_abort in eret []
  | OpSnapshot => let! _ := run_q storage_queue_snapshot in eret []
  | OpSetReason reason => change (set_error_reason reason)
  | OpFailFatal unresolved =>
      let! _ := mod_q (fail_section unresolved) in let! _ := storage_write_request_stop in eret []
  | OpDeferred c reason => change (storage_record_deferred_stop_error c reason)
  | OpBudget us => change (λ q, q <| writer_budget_override_us := us |>)
  | OpHarvest n budget halted =>
      let! _ := on_dma (ccb_dma.dma_harvest_batch_impl (dma_hw out) n budget halted) in eret []
  end.

(** What the producer never takes back. *)
Record evolves (s s' : Sys) : Prop := {
  ev_error : error (queue s) = true → error (queue s') = true;
  ev_requeue : requeue_enabled (queue s) = false → requeue_enabled (queue s') = false;
  ev_stage : stage (queue s) <= stage (queue s');
  ev_capacity : capacity (queue s') = capacity (queue s);
  ev_stop : g_storage_stop_requested s = true → g_storage_stop_requested s' = true }.
#[export] Instance evolves_preorder : PreOrder evolves.
Proof. split; [by intros s|]. intros s1 s2 s3 [] []. split; auto; congruence || lia. Qed.

(** Changing nothing of what the queue represents. *)
Record calm (q q' : StorageWriteQueue) : Prop := {
  cm_core : same_core q q'; cm_flags : queue_flags q → queue_flags q';
  cm_error : error q = true → error q' = true;
  cm_requeue : requeue_enabled q = false → requeue_enabled q' = false;
  cm_stage : stage q <= stage q' }.
#[export] Instance calm_preorder : PreOrder calm.
Proof.
  split; [by intros q|]. intros q1 q2 q3 [[? ? ? ? ? ? (?&?&?&?)] ? ? ? ?] [[? ? ? ? ? ? (?&?&?&?)] ? ? ? ?].
  split; auto; [|lia]. split; try congruence. split_and!; congruence.
Qed.
Lemma calm_keeps q q' : same_core q q' → keeps q q' → calm q q'.
Proof.
  intros Hc Hk. split; [done|by eapply keeps_flags; [done|apply Hc]|apply Hk| |].
  - by rewrite (kp_requeue _ _ Hk).
  - unfold stage. by rewrite (kp_state _ _ Hk).
Qed.
Lemma calm_error q : calm q (q <| error := true |>).
Proof. apply calm_keeps; by split. Qed.
Lemma calm_fail q : calm q (storage_queue_fail_locked q).
Proof.
  destruct (fail_locked_spec q) as (He & Hc & _ & Hr & _).
  split; [done|apply flags_fail|done|by rewrite Hr|apply stage_fail].
Qed.
Lemma calm_transition e n q : n ≠ WORKER_FAILED → calm q (storage_queue_transition_locked e n q).2.
Proof.
  intros Hn. unfold storage_queue_transition_locked, storage_worker_transition.
  destruct (_ || _) eqn:Hd; simpl; [apply calm_error|].
  split; [done| |done|done|]; [intros []; by split|].
  apply orb_false_iff in Hd as [He%negb_false_iff%bool_decide_eq_true Ha%negb_false_iff].
  subst e. apply transition_rank in Ha. unfold stage. simpl. lia.
Qed.

(** The sections that only touch the lifecycle and the error texts. *)
Lemma calm_finish q : calm q (storage_queue_finish q).2.
Proof.
  unfold storage_queue_finish. destruct (worker_state q); simpl; try done; try apply calm_fail.
  - pose proof (calm_transition WORKER_RUNNING WORKER_DRAINING q).
    destruct (storage_queue_transition_locked _ _ q). auto.
  - pose proof (calm_transition WORKER_HARVESTING WORKER_DRAINING q).
    destruct (storage_queue_transition_locked _ _ q). auto.
Qed.
Lemma calm_request_stop q : calm q (storage_queue_request_stop_state q).2.
Proof.
  unfold storage_queue_request_stop_state. case_bool_decide; [by apply calm_transition|].
  destruct (negb _); [apply calm_fail|done].
Qed.
Lemma calm_latch q : calm q (storage_queue_latch_stop q).2 ∧
  requeue_enabled (storage_queue_latch_stop q).2 = false.
Proof.
  unfold storage_queue_latch_stop. set (q1 := if bool_decide _ then _ else q).
  assert (H1 : calm q q1) by (unfold q1; case_bool_decide; [by apply calm_transition|done]).
  set (p := if bool_decide (worker_state q1 = _) then _ else _).
  assert (H2 : calm q1 p.2).
  { unfold p. case_bool_decide; [|done].
    pose proof (calm_transition WORKER_WAIT_BOUNDARY WORKER_DMA_QUIESCING q1) as Ht.
    destruct (storage_queue_transition_locked _ _ q1). by apply Ht. }
  destruct p as [first q2]. simpl in *. split; [|done]. etrans; [exact H1|]. etrans; [exact H2|].
  split; [done| |done..]. intros [F1 F2 F3 F4]. split; simpl; try done.
Qed.
Lemma calm_harvesting q : calm q (storage_queue_mark_harvesting q).2.
Proof. unfold storage_queue_mark_harvesting. case_bool_decide; [done|by apply calm_transition]. Qed.
Lemma calm_finalizing q : calm q (storage_queue_mark_finalizing q).2.
Proof.
  unfold storage_queue_mark_finalizing.
  pose proof (calm_transition WORKER_DRAINING WORKER_DRAINED_WAIT_STOP q) as Ht.
  destruct (storage_queue_transition_locked _ _ q) as [rc q1]. destruct (rc =? 0); [|by apply Ht].
  etrans; [by apply Ht|]. by apply calm_transition.
Qed.
Lemma calm_producer_ready b q : calm q (storage_queue_set_producer_ready b q).2.
Proof.
  unfold storage_queue_set_producer_ready. destruct (_ && _); [|apply calm_fail]. apply calm_keeps; by split.
Qed.
Lemma calm_writer_ready b q : calm q (storage_queue_set_writer_ready b q).
Proof.
  unfold storage_queue_set_writer_ready. destruct (_ && _); [|apply calm_fail]. apply calm_keeps; by split.
Qed.
Lemma calm_running q : calm q (storage_queue_mark_running q).2.
Proof.
  unfold storage_queue_mark_running. destruct (_ || _); [apply calm_fail|by apply calm_transition].
Qed.
Lemma calm_snapshot q : calm q (storage_queue_snapshot q).2.
Proof. unfold storage_queue_snapshot. simpl. destruct (negb _); [apply calm_error|done]. Qed.
Lemma calm_reason reason q : calm q (set_error_reason reason q).
Proof. unfold set_error_reason. repeat case_match; try done. apply calm_keeps; by split. Qed.
Lemma calm_deferred c reason q : calm q (storage_record_deferred_stop_error c reason q).
Proof.
  unfold storage_record_deferred_stop_error. repeat case_match; try done. apply calm_keeps; by split.
Qed.
Lemma calm_fail_section b q : calm q (fail_section b q).
Proof. unfold fail_section. etrans; [|apply calm_fail]. destruct b; [apply calm_keeps; by split|done]. Qed.

(** The harvest leaves the latch and the size of the ring alone. *)
Lemma keeps_advance d : dma_keeps d (ccb_dma.advance d).
Proof. by split. Qed.
Lemma keeps_note st d : dma_keeps d (ccb_dma.note_packet st d).
Proof. unfold ccb_dma.note_packet. by repeat case_match; split. Qed.
Lemma dry_harvest_keeps n d (w : W) :
  wp (ccb_dma.dry_harvest n) (λ _ st, dma_keeps (ccb_dma.rt d) (ccb_dma.rt st.1)) (d, w).
Proof.
  revert d w; induction n as [|n IH]; intros d w; [done|].
  simpl. apply wp_bind, wp_bind, wp_sget, wp_ret, wp_bind, wp_smod, wp_bind.
  eapply wp_mono; [apply IH|]. intros items st H. apply wp_ret. etrans; [|exact H].
  apply keeps_advance.
Qed.
Lemma harvest_loop_keeps n budget start ah d (w : W) :
  wp (ccb_dma.harvest_loop (dma_hw out) n budget start ah)
     (λ _ st, dma_keeps (ccb_dma.rt d) (ccb_dma.rt st.1)) (d, w).
Proof.
  revert d w; induction n as [|n IH]; intros d w; [done|].
  simpl. apply wp_bind, wp_bind, wp_sget, wp_ret. destruct (_ && _); [by apply wp_ret|].
  apply wp_bind, wp_sio_any. intros sr w1. destruct (_ || _); [by apply wp_ret|].
  apply wp_bind, wp_sio_any. intros st w2. destruct (negb _); [by apply wp_ret|].
  apply wp_bind, wp_smod. destruct (ccb_dma.any st _); [by apply wp_ret|].
  apply wp_bind, wp_smod. set (d1 := upd ccb_dma.rt _ _).
  assert (H1 : dma_keeps (ccb_dma.rt d) (ccb_dma.rt d1)) by (etrans; [|apply keeps_note]; by split).
  apply wp_bind. eapply (wp_mono _ (λ _ st, st.1 = d1)); [by destruct ah; [apply wp_sio_any|]|].
  intros [] [d2 w3] Hd2. simpl in Hd2. subst d2. apply wp_bind, wp_smod.
  set (d3 := upd ccb_dma.rt _ _).
  assert (H3 : dma_keeps (ccb_dma.rt d) (ccb_dma.rt d3)).
  { etrans; [exact H1|]. unfold d3. simpl. by case_match; split. }
  apply wp_bind. eapply (wp_mono _ (λ _ st, st.1 = d3)).
  { destruct (budget =? 0); [done|]. by apply wp_bind, wp_sio_any. }
  intros late [d4 w4] Hd4. simpl in Hd4. subst d4. destruct late; [by apply wp_ret|].
  apply wp_bind. eapply wp_mono; [apply IH|]. intros [rc items] st' H. apply wp_ret. by etrans.
Qed.
Lemma harvest_keeps n budget ah d (w : W) :
  wp (ccb_dma.dma_harvest_batch_impl (dma_hw out) n budget ah)
     (λ _ st, dma_keeps (ccb_dma.rt d) (ccb_dma.rt st.1)) (d, w).
Proof.
  unfold ccb_dma.dma_harvest_batch_impl. destruct (n =? 0); [done|]. apply wp_bind.
  eapply (wp_mono _ (λ _ st, st.1 = d)); [by destruct (budget =? 0); [|apply wp_sio_any]|].
  intros start [d1 w1] Hd1. simpl in Hd1. subst d1. apply wp_bind, wp_bind, wp_sget, wp_ret.
  destruct (ccb_dma.dry_run _).
  - apply wp_bind. eapply wp_mono; [apply dry_harvest_keeps|]. done.
  - apply harvest_loop_keeps.
Qed.

(** A slot transition of a slot that the queue does not hold. *)
Definition move_ghost (g : ghost) (l : list StorageSlotState) : ghost :=
  mkGhost l (g_queue g) (g_held g) (g_pushed g) (g_taken g) (g_done g).
Lemma move_ghost_same g : move_ghost g (g_slots g) = g.
Proof. by destruct g. Qed.

Lemma local_move sl e n q g :
  queue_rep q g → 0 <= sl → ¬ owned_state e → ¬ owned_state n → n ≠ STORAGE_SLOT_DMA_WRITABLE →
  let q' := (storage_local_slot_transition_locked sl e n q).2 in
  keeps q q' ∧ capacity q' = capacity q ∧
  ∃ l, queue_rep q' (move_ghost g l) ∧ none_writable (g_slots g) l.
Proof.
  intros Hrep H0 He Hn Hnw. pose proof Hrep as [Hc Hf].
  destruct (local_transition_cases sl e n q _ (qc_table _ _ Hc) H0) as [(t & E & Hl & Ht)|E];
    rewrite E; simpl.
  - split; [by split|]. split; [done|]. exists (<[Z.to_nat sl := n]> (g_slots g)).
    split; [|by apply none_writable_insert]. split; [by eapply move_core|].
    destruct Hf. by split.
  - split; [by split|]. split; [done|]. exists (g_slots g). rewrite move_ghost_same.
    split; [by apply rep_in_error|done].
Qed.

Definition after_op (s : Sys) (g : ghost) (acc : list PendingDdrSlot) (s' : Sys) : Prop :=
  ∃ l, queue_rep (queue s') (push_ghost g acc l) ∧ evolves s s' ∧ none_writable (g_slots g) l.

Lemma push_ghost_nil g l : push_ghost g [] l = move_ghost g l.
Proof. unfold push_ghost. by rewrite !app_nil_r. Qed.
Lemma after_calm s s' g :
  queue_rep (queue s) g → calm (queue s) (queue s') →
  (g_storage_stop_requested s = true → g_storage_stop_requested s' = true) → after_op s g [] s'.
Proof.
  intros [Hc Hf] [C1 C2 C3 C4 C5] Hs. exists (g_slots g). rewrite push_ghost_nil, move_ghost_same.
  split_and!; [|split; auto; apply C1|done]. split; [by eapply core_frame|auto].
Qed.
Lemma after_move s q' g l :
  queue_rep q' (move_ghost g l) → keeps (queue s) q' → capacity q' = capacity (queue s) →
  none_writable (g_slots g) l → after_op s g [] (s <| queue := q' |>).
Proof.
  intros Hr [K1 K2 K3 K4] Hcap Hl. exists l. rewrite push_ghost_nil.
  split_and!; [done|split; simpl; auto; [by rewrite K2|unfold stage; by rewrite K3]|done].
Qed.

Lemma wp_code (f : StorageWriteQueue → Z * StorageWriteQueue) s (w : W) g :
  queue_rep (queue s) g → calm (queue s) (f (queue s)).2 →
  wp (let! _ := run_q f in eret []) (λ acc st, after_op s g acc st.1) (s, w).
Proof.
  intros Hr Hc. apply wp_bind, wp_run_q. destruct (f (queue s)) as [rc q']. apply wp_ret.
  by apply after_calm.
Qed.
Lemma wp_change f s (w : W) g :
  queue_rep (queue s) g → calm (queue s) (f (queue s)) →
  wp (let! _ := mod_q f in eret []) (λ acc st, after_op s g acc st.1) (s, w).
Proof. intros Hr Hc. apply wp_bind, wp_mod_q, wp_ret. by apply after_calm. Qed.

Lemma producer_spec op s (w : W) g :
  queue_rep (queue s) g → op_wf op →
  wp (producer_step op) (λ acc st, after_op s g acc st.1) (s, w).
Proof.
  intros Hr Hwf. destruct op; simpl.
  - apply wp_bind, wp_run_q. pose proof (push_spec _ _ _ Hr Hwf) as Hp.
    destruct (storage_local_queue_push_batch its (queue s)) as [rc q'].
    destruct Hp as [Hk [[-> (l & Hr' & Hnw)]|[-> Hr']]]; apply wp_ret; simpl.
    + exists l. split_and!; [done|split; simpl; auto; try apply Hk|done].
      * by rewrite (kp_requeue _ _ Hk).
      * unfold stage. by rewrite (kp_state _ _ Hk).
      * destruct Hr as [Hc [_ _ _ F]], Hr' as [_ [_ _ _ F']]. by rewrite <-F', <-F, (kp_rt _ _ Hk).
    + destruct Hr as [Hc [_ _ _ F]], Hr' as [Hc' F2]. pose proof F2 as [_ _ _ F'].
      eapply after_move; [rewrite move_ghost_same; by split|done| |done].
      by rewrite <-F', <-F, (kp_rt _ _ Hk).
  - apply wp_bind, wp_mod_q, wp_ret. cbn [fst].
    change (after_op s g [] (s <| queue := storage_mark_harvest_slot_failed sl (queue s) |>)).
    unfold storage_mark_harvest_slot_failed. destruct (capacity (queue s) <=? sl).
    { by apply after_calm. }
    case_bool_decide.
    + destruct (local_move sl STORAGE_SLOT_DMA_WRITABLE STORAGE_SLOT_DMA_COMPLETED_UNHARVESTED _ _ Hr Hwf)
        as (Hk & Hc & l & Hr' & Hnw); [unfold owned_state; naive_solver..|].
      eapply (after_move s); [by apply rep_in_error| |exact Hc|done]. etrans; [exact Hk|by split].
    + apply after_calm; [done|apply calm_error|done].
  - apply wp_bind, wp_run_q. unfold storage_release_harvested_slot.
    destruct (_ <=? _); [by apply wp_ret, after_calm|].
    destruct (local_move sl STORAGE_SLOT_DMA_WRITABLE STORAGE_SLOT_FREE _ _ Hr Hwf)
      as (Hk & Hc & l & Hr' & Hnw); [unfold owned_state; naive_solver..|].
    destruct (storage_local_slot_transition_locked _ _ _ _) as [rc q']. apply wp_ret.
    by eapply after_move.
  - apply wp_code; [done|by apply calm_transition].
  - apply wp_code; [done|by apply calm_transition].
  - apply wp_code; [done|apply calm_producer_ready].
  - apply wp_code; [done|apply calm_running].
  - apply wp_code; [done|apply calm_request_stop].
  - apply wp_bind, wp_run_q. pose proof (calm_latch (queue s)) as [Hc _].
    destruct (storage_queue_latch_stop (queue s)). apply wp_ret. by apply after_calm.
  - apply wp_code; [done|apply calm_harvesting].
  - apply wp_bind, wp_run_q. pose proof (calm_finish (queue s)) as Hc.
    destruct (storage_queue_finish (queue s)) as [stop q']. destruct stop; by apply after_calm.
  - apply wp_code; [done|apply calm_finalizing].
  - apply wp_code; [done|by apply calm_transition].
  - apply wp_bind, wp_bind, wp_mod_q, wp_bind, wp_get_q. simpl.
    destruct (nvme_engine _); (apply after_calm; [done|apply calm_fail|done]).
  - apply wp_bind, wp_run_q. pose proof (calm_snapshot (queue s)).
    destruct (storage_queue_snapshot (queue s)). apply wp_ret. by apply after_calm.
  - apply wp_change; [done|apply calm_reason].
  - apply wp_bind, wp_mod_q, wp_bind, wp_smod, wp_ret. apply after_calm; [done|apply calm_fail_section|done].
  - apply wp_change; [done|apply calm_deferred].
  - apply wp_change; [done|apply calm_keeps; by split].
  - apply wp_bind, wp_on_dma. eapply wp_mono; [apply harvest_keeps|].
    intros r [d w'] [D1 D2 D3 D4]. apply wp_ret. simpl in *. apply after_calm; [done| |done].
    split; [done| |done..]. intros [F1 F2 F3 F4]. split; simpl; rewrite ?D1, ?D2, ?D3, ?D4; done.
Qed.
End Producer.

(** ** Sequences of critical sections *)
(** [Complete k]: the writer completes the [k]-th slot it holds. *)
Inductive section : Type :=
| Producer (op : producer_op) | WriterReady (success : bool) | Pop (wait_start_us : Z)
| Complete (k : nat).
Definition section_wf (c : section) : Prop :=
  match c with Producer op => op_wf op | _ => True end.

(** What was seen to enter and to leave. *)
Record History : Type := mkHistory {
  pushed : list PendingDdrSlot; taken : list PendingDdrSlot; held : list PendingDdrSlot;
  done : list PendingDdrSlot }.
Definition no_history : History := mkHistory [] [] [] [].

Section Run.
Context {W : Type} (out : Outside W).

Definition run_section (c : section) (st : (Sys * W) * History) : (Sys * W) * History :=
  let '(sw, h) := st in
  match c with
  | Producer op =>
      let '(acc, sw) := producer_step out op sw in
      (sw, mkHistory (pushed h ++ acc) (taken h) (held h) (done h))
  | WriterReady b =>
      let '(_, sw) := mod_q (storage_queue_set_writer_ready b) sw in (sw, h)
  | Pop start =>
      let '((r, it), sw) := pop_section out start sw in
      (sw, if bool_decide (r = STORAGE_QUEUE_POP_ITEM)
           then mkHistory (pushed h) (taken h ++ [it]) (held h ++ [it]) (done h) else h)
  | Complete k =>
      match held h !! k with
      | None => (sw, h)
      | Some it =>
          let '(a, sw') := complete_section out it sw in
          (sw', if completed_slot_count (totals (queue sw'.1)) =? completed_slot_count (totals (queue sw.1))
                then h else mkHistory (pushed h) (taken h) (delete k (held h)) (done h ++ [it]))
      end
  end.
Definition run_sections (cs : list section) (st : (Sys * W) * History) : (Sys * W) * History :=
  foldl (λ st c, run_section c st) st cs.

(** The history is the one the queue represents. *)
Definition agrees (g : ghost) (h : History) : Prop :=
  g_pushed g = pushed h ∧ g_taken g = taken h ∧ g_held g = held h ∧ g_done g = done h.
Definition tracked (st : (Sys * W) * History) : Prop :=
  ∃ g, queue_rep (queue st.1.1) g ∧ agrees g st.2.

(** One section, seen from the abstract queue. *)
Record section_post (s : Sys) (g : ghost) (s' : Sys) (g' : ghost) : Prop := {
  sp_rep : queue_rep (queue s') g'; sp_evolves : evolves s s';
  sp_writable : requeue_enabled (queue s) = false → none_writable (g_slots g) (g_slots g') }.

Lemma evolves_keeps s s' : keeps (queue s) (queue s') → same_sys s s' →
  capacity (queue s') = capacity (queue s) → evolves s s'.
Proof.
  intros [K1 K2 K3 K4] [] H. split; try done; [congruence|unfold stage; by rewrite K3|congruence].
Qed.
Lemma rep_capacity_eq q q' g g' : queue_rep q g → queue_rep q' g' → rt q' = rt q → capacity q' = capacity q.
Proof. intros [_ [_ _ _ F]] [_ [_ _ _ F']] H. by rewrite <-F', <-F, H. Qed.

Lemma run_section_spec c s w h g :
  queue_rep (queue s) g → agrees g h → section_wf c →
  let '((s', w'), h') := run_section c ((s, w), h) in
  ∃ g', section_post s g s' g' ∧ agrees g' h'.
Proof.
  intros Hrep (Hp & Ht & Hh & Hd) Hwf. destruct c as [op|b|start|k]; simpl.
  - pose proof (producer_spec out op s w g Hrep Hwf) as H. unfold wp in H.
    destruct (producer_step out op (s, w)) as [acc [s' w']]. destruct H as (l & Hr & He & Hn).
    exists (push_ghost g acc l). split; [by split|]. split_and!; simpl; congruence.
  - exists g. split; [|done]. pose proof (calm_writer_ready b (queue s)) as [K1 K2 K3 K4 K5].
    destruct Hrep as [Hc Hf]. split; [|split; simpl; auto; apply K1|done].
    split; [by eapply core_frame|by apply K2].
  - pose proof (pop_spec out start s w g Hrep) as H. unfold wp in H.
    destruct (pop_section out start (s, w)) as [[r it] [s' w']].
    destruct H as (g' & Hr & Hk & Hs & Hn & Hpop). exists g'. split.
    + split; [done| |done]. apply evolves_keeps; [done..|]. eapply rep_capacity_eq; [done..|apply Hk].
    + cbn [fst snd] in Hpop. destruct r; simpl in Hpop; try (destruct Hpop as [-> _]; done); [|done].
      destruct Hpop as (rest & Hq & ->). split_and!; simpl; congruence.
  - destruct (held h !! k) as [it|] eqn:Hk; [|exists g; split; [by split|done]].
    rewrite <-Hh in Hk. apply list_elem_of_split_length in Hk as (h1 & h2 & Hheld & ->).
    pose proof (complete_spec out it h1 h2 s w g Hrep Hheld) as H. unfold wp in H.
    destruct (complete_section out it (s, w)) as [a [s' w']]. cbn [fst snd] in *.
    destruct H as (g' & Hr & [S1 S2 S3 S5 _ S4] & [Hs1 Hs2] & Hcases & _).
    assert (Hev : evolves s s') by (split; auto; congruence).
    pose proof Hrep as [Hc _]. pose proof Hr as [Hc' _]. exists g'.
    destruct Hcases as [(-> & -> & He)|(n & -> & Hl & He & Hreq)].
    + split; [by split|]. rewrite (qc_completed _ _ Hc), (qc_completed _ _ Hc'), Z.eqb_refl. done.
    + split.
      * split; [done..|]. intros Hoff. rewrite (Hreq Hoff). by apply none_writable_insert.
      * rewrite (qc_completed _ _ Hc), (qc_completed _ _ Hc'). simpl. rewrite length_app. simpl.
        replace (_ =? _) with false by lia. split_and!; simpl; try congruence.
        rewrite <-Hh, Hheld. by rewrite delete_middle.
Qed.

Lemma run_sections_spec cs : ∀ s w h g,
  queue_rep (queue s) g → agrees g h → Forall section_wf cs →
  let '((s', w'), h') := run_sections cs ((s, w), h) in
  ∃ g', section_post s g s' g' ∧ agrees g' h'.
Proof.
  induction cs as [|c cs IH]; intros s w h g Hr Ha Hwf.
  { exists g. split; [by split|done]. }
  apply Forall_cons in Hwf as [Hc Hwf].
  change (run_sections (c :: cs) (s, w, h)) with (run_sections cs (run_section c (s, w, h))).
  pose proof (run_section_spec c s w h g Hr Ha Hc) as H.
  destruct (run_section c (s, w, h)) as [[s1 w1] h1]. destruct H as (g1 & [R1 E1 W1] & A1).
  specialize (IH s1 w1 h1 g1 R1 A1 Hwf).
  destruct (run_sections cs (s1, w1, h1)) as [[s2 w2] h2]. destruct IH as (g2 & [R2 E2 W2] & A2).
  exists g2. split; [|done]. split; [done|by etrans|]. intros Hoff. etrans; [by apply W1|].
  apply W2. by apply E1.
Qed.
End Run.

(** ** A fresh queue *)
(** The ring as [dma_prepare_s2mm_ring] and [dma_start_s2mm_ring] leave it. *)
Definition ring_fresh (r : ChannelRuntime) : Prop :=
  ccb_dma.dma_desc_count (dma r) <= UINT32_MAX ∧ 0 <= ccb_dma.dma_desc_count (dma r) ∧
  ccb_dma.dma_stop_latched (dma r) = false ∧ ccb_dma.dma_requeue_enabled (dma r) = true ∧
  ccb_dma.dma_requeue_after_stop_count (dma r) = 0.

Definition fresh_ghost (n : Z) : ghost :=
  mkGhost (replicate (Z.to_nat n) STORAGE_SLOT_DMA_WRITABLE) [] [] [] [] [].

Lemma init_rep_queue r a c c' q :
  storage_queue_init r a c = (Some q, c') → ring_fresh r →
  queue_rep q (fresh_ghost (ccb_dma.dma_desc_count (dma r))).
Proof.
  intros Hi (Hmax & Hmin & Hl & He & Hz). unfold storage_queue_init in Hi.
  set (n := ccb_dma.dma_desc_count (dma r)) in *. destruct (n =? 0) eqn:Hn; [done|].
  assert (Hrange : 0 < n <= UINT32_MAX) by lia.
  destruct (table_ok a); [|unfold storage_slot_table_init in Hi; rewrite Hn in Hi; by destruct (items_ok a)].
  pose proof (init_rep zero_table n Hrange) as Ht.
  assert (Hrc : (storage_slot_table_init true zero_table n).1 = 0)
    by (unfold storage_slot_table_init; by rewrite Hn).
  destruct (storage_slot_table_init true zero_table n) as [rc table]. simpl in Ht, Hrc. subst rc.
  simpl in Hi. destruct (items_ok a); [|done]. simpl in Hi. unfold ebind in Hi.
  destruct (storage_env_u32_limit _ _ _ c) as [size1 c1].
  destruct (ccb_storage_diag.storage_event_ring_init size1 _); [|done].
  destruct (storage_env_u32_limit _ _ _ c1) as [size2 c2].
  destruct (ccb_storage_diag.storage_event_ring_init size2 _); [|done].
  destruct (storage_env_flag_enabled _ c2) as [b c3]. destruct (lock_ok a); [|done].
  injection Hi as <- _. split; split; simpl; rewrite ?length_replicate; try done; try lia.
  - split; simpl; [rewrite length_replicate; lia|lia|done].
  - assert (Hno : ∀ i x, x ≠ STORAGE_SLOT_DMA_WRITABLE →
      replicate (Z.to_nat n) STORAGE_SLOT_DMA_WRITABLE !! i = Some x ↔ i ∈ []).
    { intros i x Hx. split; [by intros [-> _]%lookup_replicate_1|by intros ?%elem_of_nil]. }
    split; simpl; [intros i; by apply Hno|intros i; by apply Hno|constructor|constructor].
Qed.

(** The slots queued, oldest first. *)
Definition queued_items (q : StorageWriteQueue) : list PendingDdrSlot :=
  (λ i, default zero_pending (items q !! Z.to_nat ((head q + Z.of_nat i) mod capacity q))) <$>
    seq 0 (Z.to_nat (count q)).
Lemma queued_items_rep q g : queue_core q g → queued_items q = g_queue g.
Proof.
  intros []. apply list_eq. intros i. unfold queued_items. rewrite qc_count0, Nat2Z.id, list_lookup_fmap.
  destruct (g_queue g !! i) as [it|] eqn:Hi.
  - rewrite lookup_seq_lt by (by eapply lookup_lt_Some). simpl.
    destruct qc_ring0 as [_ _ He]. rewrite qc_capacity0, <-qc_items0. by rewrite (He _ _ Hi).
  - rewrite lookup_seq_ge by (by apply lookup_ge_None). done.
Qed.

(** ** Conservation *)
(** What the queue, the slot table and the accounting say of the history. *)
Record conserved (q : StorageWriteQueue) (h : History) : Prop := {
  cv_fifo : pushed h = taken h ++ queued_items q;
  cv_taken : taken h ≡ₚ done h ++ held h;
  cv_distinct : NoDup (pos <$> queued_items q ++ held h);
  cv_ready : ∀ sl, 0 <= sl → storage_slot_state (slots q) sl = STORAGE_SLOT_READY_FOR_NVME ↔
    ∃ it, it ∈ queued_items q ∧ slot it = sl;
  cv_busy : ∀ sl, 0 <= sl → storage_slot_state (slots q) sl = STORAGE_SLOT_NVME_BUSY ↔
    ∃ it, it ∈ held h ∧ slot it = sl;
  cv_buffered : buffered_bytes (totals q) = sum_bytes (queued_items q ++ held h);
  cv_written : bytes_written (totals q) = sum_bytes (done h);
  cv_counts : count q = Z.of_nat (length (queued_items q)) ∧
    queued_slot_count (totals q) = Z.of_nat (length (pushed h)) ∧
    completed_slot_count (totals q) = Z.of_nat (length (done h));
  cv_valid : storage_queue_slot_counts_valid_locked q = true;
  cv_no_late : ccb_dma.dma_requeue_after_stop_count (dma (rt q)) = 0 }.

Lemma state_of_items l its s (P : ∀ i, l !! i = Some s ↔ i ∈ pos <$> its) table sl :
  table_rep table l → 0 <= sl → s ≠ STORAGE_SLOT_INVALID → Forall (λ it, 0 <= slot it) its →
  storage_slot_state table sl = s ↔ ∃ it, it ∈ its ∧ slot it = sl.
Proof.
  intros Ht H0 Hs Hn. rewrite (rep_slot_state _ _ _ Ht H0). specialize (P (Z.to_nat sl)).
  transitivity (l !! Z.to_nat sl = Some s).
  { destruct (l !! Z.to_nat sl); simpl; split; intros; congruence. }
  rewrite P, list_elem_of_fmap. unfold pos. rewrite Forall_forall in Hn.
  split; intros (it & H1 & H2); exists it; [specialize (Hn it H2)|specialize (Hn it H1)]; split; try done; lia.
Qed.

Lemma rep_conserved q g h : queue_rep q g → agrees g h → conserved q h.
Proof.
  intros [Hc Hf] (Hp & Ht & Hh & Hd). pose proof Hc as []. pose proof Hf as [].
  pose proof (queued_items_rep _ _ Hc) as Hq. pose proof qc_holds0 as [Hready Hbusy Hnd Hnn].
  apply Forall_app in Hnn as [Hn1 Hn2]. rewrite Hh in *.
  split; rewrite ?Hq; try congruence.
  - intros sl Hsl. by eapply state_of_items.
  - intros sl Hsl. by eapply state_of_items.
  - destruct qc_written0. congruence.
  - split_and!; congruence.
  - unfold storage_queue_slot_counts_valid_locked. rewrite (rep_valid _ _ qc_table0).
    pose proof (rep_capacity _ _ qc_table0). rewrite andb_true_r. destruct qc_ring0. lia.
Qed.

(** C28: The write queue conserves slots and bytes under any interleaving.
    After any sequence of critical sections of the producer (pushing batches,
    failing, releasing, harvesting, every step of the lifecycle and of the
    stop) and of the writer (popping, completing a slot it holds), whatever the
    hardware and the clock answer: the slots pushed are those taken, in the
    same order, followed by those still queued; those taken are the completed
    ones and the held ones; no slot occurs twice; a slot is READY exactly when
    it is queued and BUSY exactly when it is held; the byte and slot counters
    count exactly these; the table stays valid; and no requeue was ever tried
    after the stop was latched. *)
Theorem write_queue_conserves (W : Type) (out : Outside W) (r : ChannelRuntime) (a : Allocations)
    (c c' : storage_config.config_state) (q0 : StorageWriteQueue) (stop : bool) (w : W)
    (cs : list section) :
  storage_queue_init r a c = (Some q0, c') → ring_fresh r → Forall section_wf cs →
  let '((s, _), h) := run_sections out cs ((mkSys q0 stop None, w), no_history) in
  conserved (queue s) h.
Proof.
  intros Hi Hr Hwf. pose proof (init_rep_queue _ _ _ _ _ Hi Hr) as Hrep.
  pose proof (run_sections_spec out cs (mkSys q0 stop None) w no_history _ Hrep
    ltac:(by split_and!) Hwf) as H.
  destruct (run_sections out cs _) as [[s w'] h]. destruct H as (g' & [Hg _ _] & Ha).
  by eapply rep_conserved.
Qed.

(** ** After the stop has been latched *)

(** An observation of the world that an operation does not move. *)
Definition unmoved {S V X A} (f : V → X) (m : Eff (S * V) A) : Prop :=
  ∀ s w, f (m (s, w)).2.2 = f w.
Lemma unmoved_ret {S V X A} (f : V → X) (x : A) : unmoved (S := S) f (eret x).
Proof. done. Qed.
Lemma unmoved_bind {S V X A B} (f : V → X) (m : Eff (S * V) A) (k : A → Eff (S * V) B) :
  unmoved f m → (∀ x, unmoved f (k x)) → unmoved f (ebind m k).
Proof.
  intros Hm Hk s w. unfold ebind. specialize (Hm s w).
  destruct (m (s, w)) as [x [s' w']]. simpl in Hm. by rewrite Hk.
Qed.
Lemma unmoved_smod {S V X} (f : V → X) (g : S → S) : unmoved f (smod g).
Proof. done. Qed.
Lemma unmoved_sget {S V X} (f : V → X) : unmoved (S := S) f sget.
Proof. done. Qed.
Lemma unmoved_sio {S V X A} (f : V → X) (m : Eff V A) :
  (∀ w, f (m w).2 = f w) → unmoved (S := S) f (sio m).
Proof. intros H s w. unfold sio. specialize (H w). by destruct (m w). Qed.
Lemma unmoved_run_q {V X A} (f : V → X) (g : StorageWriteQueue → A * StorageWriteQueue) :
  unmoved f (run_q g).
Proof. intros s w. unfold run_q. by destruct (g (queue s)). Qed.
Lemma unmoved_on_dma {V X A} (f : V → X) (m : Eff (ccb_dma.State * V) A) :
  unmoved f m → unmoved f (on_dma m).
Proof.
  intros H s w. unfold on_dma. specialize (H (ccb_dma.mkState (dma (rt (queue s))) None) w).
  by destruct (m _) as [x [d w']].
Qed.

(** Going through an operation; [more] deals with its calls of the outside. *)
Ltac unmoved_with more := repeat first
  [ apply unmoved_ret | apply unmoved_smod | apply unmoved_sget | apply unmoved_run_q
  | more | apply unmoved_bind; [|intros] | case_match ].

Section Unmoved.
Context {V X : Type} (f : V → X) (o : Outside V).
Context (Hreg : ∀ off w, f (ccb_dma.reg_read32 (dma_hw o) off w).2 = f w).
Context (Hread : ∀ i x w, f (ccb_dma.desc_read (dma_hw o) i x w).2 = f w).
Context (Hwrite : ∀ i x v w, f (ccb_dma.desc_write (dma_hw o) i x v w).2 = f w).
Context (Hclock : ∀ w, f (ccb_dma.wall_time_us (dma_hw o) w).2 = f w).

Ltac unmoved_step := unmoved_with ltac:(apply unmoved_sio; first
  [apply Hreg | apply Hread | apply Hwrite | apply Hclock]).

Lemma unmoved_harvest_loop n budget start ah :
  unmoved f (ccb_dma.harvest_loop (dma_hw o) n budget start ah).
Proof using Hreg Hread Hwrite Hclock.
  induction n as [|n IH]; cbn [ccb_dma.harvest_loop]; [apply unmoved_ret|].
  repeat first [progress unmoved_step | apply IH].
Qed.
Lemma unmoved_dry_harvest n : unmoved f (ccb_dma.dry_harvest n).
Proof.
  induction n as [|n IH]; cbn [ccb_dma.dry_harvest]; [apply unmoved_ret|].
  repeat first [progress unmoved_step | apply IH].
Qed.
Lemma unmoved_producer op : unmoved f (producer_step o op).
Proof using Hreg Hread Hwrite Hclock.
  destruct op; cbn [producer_step]; try (by unmoved_step).
  apply unmoved_bind; [|intros; apply unmoved_ret]. apply unmoved_on_dma.
  unfold ccb_dma.dma_harvest_batch_impl.
  repeat first [progress unmoved_step | apply unmoved_dry_harvest | apply unmoved_harvest_loop].
Qed.
Lemma unmoved_pop start : unmoved f (pop_section o start).
Proof using Hclock. unfold pop_section. unmoved_step. Qed.

Context (Hregw : ∀ off v w, f (ccb_dma.reg_write32 (dma_hw o) off v w).2 = f w).
Lemma unmoved_complete it : unmoved f (complete_section o it).
Proof using Hreg Hwrite Hregw.
  unfold complete_section, requeue_section.
  unmoved_with ltac:(apply unmoved_on_dma; unfold ccb_dma.dma_requeue_one;
    unmoved_with ltac:(apply unmoved_sio; first [apply Hreg | apply Hwrite | apply Hregw])).
Qed.
End Unmoved.

Section Quiet.
Context {W : Type} (out : Outside W).
(** The outside with its register and descriptor accesses recorded. *)
Definition lift_log {A} (m : Eff W A) : Eff (W * ccb_dma_safety.Log) A :=
  λ '(w, l), let '(x, w) := m w in (x, (w, l)).
Definition traced : Outside (W * ccb_dma_safety.Log) :=
  mkOutside (ccb_dma_safety.trace_hw (dma_hw out))
    (λ a b c d e, lift_log (nvme_write_contiguous_tight_qd_payload out a b c d e))
    (λ a b c d e, lift_log (nvme_write_slot_qd_payload out a b c d e))
    (lift_log (nvme_submit_stall_count out)) (lift_log (nvme_cq_empty_polls out))
    (lift_log (nvme_ownership_unresolved out)) (lift_log (storage_apply_writer_rt out))
    (let o := nvme_ops out in
     ccb_hw.mkOps (λ x1 x2 x3 x4, lift_log (ccb_hw.submit o x1 x2 x3 x4))
       (lift_log (ccb_hw.poll_completion o)) (lift_log (ccb_hw.monotonic_us o))
       ((λ f us, lift_log (f us)) <$> ccb_hw.sleep_us o) (lift_log <$> ccb_hw.yield_cpu o)
       (lift_log <$> ccb_hw.reset o)).

(** The registers written do not depend on reads. *)
Definition regs (w : W * ccb_dma_safety.Log) : list (Z * Z) := ccb_dma_safety.writes w.2.
Lemma regs_logged {A} (ev : A → ccb_dma_safety.Ev) (m : Eff W A) w :
  (∀ x, ccb_dma_safety.writes [ev x] = []) → regs (ccb_dma_safety.logged ev m w).2 = regs w.
Proof.
  intros H. destruct w as [w l]. unfold regs. simpl. destruct (m w) as [x w']. simpl.
  by rewrite ccb_dma_safety.writes_app, H, app_nil_r.
Qed.
Lemma quiet_producer op : unmoved regs (producer_step traced op).
Proof. apply unmoved_producer; intros; by apply regs_logged. Qed.
Lemma quiet_pop start : unmoved regs (pop_section traced start).
Proof. apply unmoved_pop; intros; by apply regs_logged. Qed.

(** While requeueing is off, no section writes a register. *)
Lemma run_section_quiet c s w l h g :
  queue_rep (queue s) g → agrees g h → requeue_enabled (queue s) = false →
  ccb_dma_safety.writes (run_section traced c ((s, (w, l)), h)).1.2.2 = ccb_dma_safety.writes l.
Proof.
  intros Hrep (_ & _ & Hh & _) Hoff. destruct c as [op|b|start|k]; simpl.
  - pose proof (quiet_producer op s (w, l)) as H. unfold regs in H. by destruct (producer_step _ op _) as [acc [s' [w' l']]].
  - done.
  - pose proof (quiet_pop start s (w, l)) as H. unfold regs in H. by destruct (pop_section _ start _) as [[r it] [s' [w' l']]].
  - destruct (held h !! k) as [it|] eqn:Hk; [|done]. rewrite <-Hh in Hk.
    apply list_elem_of_split_length in Hk as (h1 & h2 & Hheld & _).
    pose proof (complete_spec traced it h1 h2 s (w, l) g Hrep Hheld) as H. unfold wp in H.
    destruct (complete_section traced it (s, (w, l))) as [x [s' w']]. cbn [fst snd] in *.
    destruct H as (_ & _ & _ & _ & _ & Hw). by rewrite (Hw Hoff).
Qed.
Lemma run_sections_quiet cs : ∀ s w l h g,
  queue_rep (queue s) g → agrees g h → requeue_enabled (queue s) = false → Forall section_wf cs →
  ccb_dma_safety.writes (run_sections traced cs ((s, (w, l)), h)).1.2.2 = ccb_dma_safety.writes l.
Proof.
  induction cs as [|c cs IH]; intros s w l h g Hr Ha Hoff Hwf; [done|].
  apply Forall_cons in Hwf as [Hc Hwf].
  change (run_sections traced (c :: cs) (s, (w, l), h))
    with (run_sections traced cs (run_section traced c (s, (w, l), h))).
  pose proof (run_section_quiet c s w l h g Hr Ha Hoff) as Hq.
  pose proof (run_section_spec traced c s (w, l) h g Hr Ha Hc) as H.
  destruct (run_section traced c (s, (w, l), h)) as [[s1 [w1 l1]] h1].
  destruct H as (g1 & [R1 E1 _] & A1). simpl in Hq. rewrite <-Hq. eapply IH; try done. by apply E1.
Qed.
End Quiet.

(** C29: Latching the stop is final.  Take any sequence of critical sections,
    then [storage_queue_latch_stop], then any other sequence, including
    completions of slots that were in flight when the stop came: after the
    latch no DMA register is written, so no descriptor is handed back to the
    hardware; no slot becomes writable again; requeueing stays off; and no
    requeue was attempted after the latch, so the error the completion checks
    for cannot be raised. *)
Theorem stop_latch_final (W : Type) (out : Outside W) (r : ChannelRuntime) (a : Allocations)
    (c c' : storage_config.config_state) (q0 : StorageWriteQueue) (stop : bool) (w : W)
    (pre post : list section) :
  storage_queue_init r a c = (Some q0, c') → ring_fresh r →
  Forall section_wf pre → Forall section_wf post →
  let st1 := run_sections (traced out) pre ((mkSys q0 stop None, (w, [])), no_history) in
  let '((s2, (w2, l2)), h2) := run_section (traced out) (Producer OpLatchStop) st1 in
  let '((s3, (_, l3)), _) := run_sections (traced out) post ((s2, (w2, l2)), h2) in
  ccb_dma_safety.writes l3 = ccb_dma_safety.writes l2 ∧
  (∀ sl, 0 <= sl → storage_slot_state (slots (queue s3)) sl = STORAGE_SLOT_DMA_WRITABLE →
     storage_slot_state (slots (queue s2)) sl = STORAGE_SLOT_DMA_WRITABLE) ∧
  requeue_enabled (queue s3) = false ∧
  ccb_dma.dma_requeue_after_stop_count (dma (rt (queue s3))) = 0.
Proof.
  intros Hi Hr Hpre Hpost st1. pose proof (init_rep_queue _ _ _ _ _ Hi Hr) as Hrep.
  pose proof (run_sections_spec (traced out) pre (mkSys q0 stop None) (w, []) no_history _ Hrep
    ltac:(by split_and!) Hpre) as H1. subst st1.
  destruct (run_sections (traced out) pre _) as [[s1 w1] h1]. destruct H1 as (g1 & [R1 _ _] & A1).
  pose proof (run_section_spec (traced out) (Producer OpLatchStop) s1 w1 h1 g1 R1 A1 I) as H2.
  assert (Hoff : requeue_enabled (queue (run_section (traced out) (Producer OpLatchStop) (s1, w1, h1)).1.1) = false).
  { simpl. unfold ebind, run_q, eret. pose proof (calm_latch (queue s1)) as [_ Hl].
    by destruct (storage_queue_latch_stop (queue s1)). }
  destruct (run_section (traced out) (Producer OpLatchStop) (s1, w1, h1)) as [[s2 [w2 l2]] h2].
  destruct H2 as (g2 & [R2 _ _] & A2). simpl in Hoff.
  pose proof (run_sections_quiet out post s2 w2 l2 h2 g2 R2 A2 Hoff Hpost) as Hq.
  pose proof (run_sections_spec (traced out) post s2 (w2, l2) h2 g2 R2 A2 Hpost) as H3.
  destruct (run_sections (traced out) post _) as [[s3 [w3 l3]] h3].
  destruct H3 as (g3 & [[C3 F3] E3 N3] & _). destruct R2 as [C2 _].
  split_and!; [done| |by apply E3|apply F3].
  intros sl Hsl. rewrite (rep_slot_state _ _ _ (qc_table _ _ C3) Hsl), (rep_slot_state _ _ _ (qc_table _ _ C2) Hsl).
  intros Hw. destruct (g_slots g3 !! Z.to_nat sl) eqn:E; [|done]. simpl in Hw. subst s.
  by rewrite (N3 Hoff _ E).
Qed.

(** ** A concrete queue *)
Definition example_rt : ChannelRuntime :=
  mkRuntime (ccb_dma.mkRt 0x40000000 128 0x10000000 true false 1000 0 512 1024 2 2 0 0 0 0 0
               false false true 0) 1 100000 false 4 "".
Definition example_item (sl lba : Z) : PendingDdrSlot :=
  mkPending sl 512 512 0 0 lba 1 (0x10000000 + sl * 512).
(** Registers that read as running, with the answer of every write a success. *)
Definition example_out : Outside (list Z) :=
  mkOutside
    (ccb_dma.mkHw (λ off l, (if off =? ccb_dma.S2MM_DMACR then 1 else 0, l)) (λ _ _ l, (tt, l))
       (λ _ _ l, (Z.lor ccb_dma.DESC_STS_CMPLT 512, l)) (λ _ _ _ l, (tt, l)) (λ _ l, (tt, l))
       (λ l, (5, l)) (λ l, (tt, l)))
    (λ _ _ _ _ _ l, (0, l)) (λ _ lba _ _ _ l, (0, l ++ [lba])) (λ l, (0, l)) (λ l, (0, l))
    (λ l, (false, l)) (λ l, (0, l))
    (ccb_hw.mkOps (λ _ _ _ _ l, (0, l)) (λ l, ((0, ccb_hw.mkCompletion 0 false), l)) (λ l, (0, l)) None None None).
Definition example_config : storage_config.config_state :=
  storage_config.mkConfigState ∅ [] [] None.
Definition example_alloc : Allocations := mkAllocations true true true true true.
Definition example_queue : StorageWriteQueue :=
  default (mkQueue example_rt [] zero_table (ccb_storage_diag.mkRing [] 0 0 0 0 ccb_storage_diag.zero_rec)
    (ccb_storage_diag.mkRing [] 0 0 0 0 ccb_storage_diag.zero_rec) 0 0 0 0 (mkDepth 0 0 0 0 0)
    (mkTotals 0 0 0 0 0 0) (mkTiming 0 0 0 0 0 0 0 0 0 0) false WORKER_INIT false false false false ""
    0 "" false false (ccb_hw.mkConfig 0 0 0 0 0 0 0) (ccb_hw.mkStats 0 0 0 0 0 0 0 0 0) 0 0)
    (storage_queue_init example_rt example_alloc example_config).1.
(** Started, two slots pushed, one of them taken. *)
Definition example_start : list section :=
  [Producer OpReady; Producer OpEnableRun; WriterReady true; Producer (OpProducerReady true);
   Producer OpRunning; Producer (OpHarvest 2 0 false); Producer (OpPush [example_item 0 7; example_item 1 9]); Pop 0].
Lemma example_init : (storage_queue_init example_rt example_alloc example_config).1 = Some example_queue.
Proof. by vm_compute. Qed.
Lemma example_fresh : ring_fresh example_rt.
Proof. by vm_compute. Qed.
Lemma example_start_wf : Forall section_wf example_start.
Proof. repeat constructor; simpl; lia. Qed.

(** One slot written and handed back, the other still queued. *)
Lemma write_queue_conserves_witness :
  let '((s, _), h) := run_sections example_out (example_start ++ [Complete 0])
    ((mkSys example_queue false None, []), no_history) in
  conserved (queue s) h ∧ done h = [example_item 0 7] ∧ queued_items (queue s) = [example_item 1 9] ∧
  slot_at (slots (queue s)) 0 = Some STORAGE_SLOT_DMA_WRITABLE.
Proof.
  pose proof (write_queue_conserves (list Z) example_out example_rt example_alloc example_config
    (storage_queue_init example_rt example_alloc example_config).2 example_queue false []
    (example_start ++ [Complete 0])) as H.
  destruct (run_sections _ _ _) as [[s w] h] eqn:E. split.
  { apply H; [|apply example_fresh|apply Forall_app; split; [apply example_start_wf|by repeat constructor]].
    rewrite <-example_init. by destruct (storage_queue_init _ _ _). }
  clear H. vm_compute in E. injection E as <- <- <-. by vm_compute.
Defined.

(** The same completion after the latch: the slot is kept back. *)
Lemma stop_latch_final_witness :
  let st1 := run_sections (traced example_out) example_start ((mkSys example_queue false None, ([], [])), no_history) in
  let '((s2, (w2, l2)), h2) := run_section (traced example_out) (Producer OpLatchStop) st1 in
  let '((s3, (_, l3)), h3) := run_sections (traced example_out) [Complete 0; Pop 0; Complete 0] ((s2, (w2, l2)), h2) in
  (ccb_dma_safety.writes l3 = ccb_dma_safety.writes l2 ∧
  (∀ sl, 0 <= sl → storage_slot_state (slots (queue s3)) sl = STORAGE_SLOT_DMA_WRITABLE →
     storage_slot_state (slots (queue s2)) sl = STORAGE_SLOT_DMA_WRITABLE) ∧
  requeue_enabled (queue s3) = false ∧
  ccb_dma.dma_requeue_after_stop_count (dma (rt (queue s3))) = 0) ∧
  done h3 = [example_item 0 7; example_item 1 9] ∧
  states (slots (queue s3)) = Some [STORAGE_SLOT_FREE; STORAGE_SLOT_FREE].
Proof.
  pose proof (stop_latch_final (list Z) example_out example_rt example_alloc example_config
    (storage_queue_init example_rt example_alloc example_config).2 example_queue false []
    example_start [Complete 0; Pop 0; Complete 0]) as H. cbv zeta in H |- *.
  destruct (run_section _ _ _) as [[s2 [w2 l2]] h2] eqn:E2.
  destruct (run_sections _ _ (s2, (w2, l2), h2)) as [[s3 [w3 l3]] h3] eqn:E3. split.
  { apply H; [|apply example_fresh|apply example_start_wf|by repeat constructor].
    rewrite <-example_init. by destruct (storage_queue_init _ _ _). }
  clear H. vm_compute in E2. injection E2 as <- <- <- <-. vm_compute in E3.
  injection E3 as <- <- <- <-. by vm_compute.
Defined.
End write_queue_safety.
