(* ===== verification/WriterSteps.v ===== *)
(** * Running the writer against the producer

    What is observed of a run, the producer's sections that are interleaved with
    the writer's, and the steps of the writer that leave its own part of the
    queue alone; shared by the proofs of the two writer threads. *)
From S2P Require Import Prelude StorageError SlotTable Worker Config Diag DmaRing CcbTypes CrossSlot WriteQueue WriterThread WriteQueueRep WriteQueueSafe.

Module writer_steps.
Import storage_queue storage_worker ccb_types storage_write_queue storage_writer_thread
  write_queue_rep write_queue_safety.

(** ** What is observed *)
(** Slots accepted by the queue, and NVMe writes: address on the medium,
    address in memory, payload. *)
Inductive Event : Type := Accepted (its : list PendingDdrSlot) | NvmeWrite (lba hw bytes : Z).
Definition accepted (l : list Event) : list PendingDdrSlot :=
  concat (omap (λ e, match e with Accepted its => Some its | _ => None end) l).
Definition calls (l : list Event) : list (Z * Z * Z) :=
  omap (λ e, match e with NvmeWrite lba hw b => Some (lba, hw, b) | _ => None end) l.
Definition call_of (it : PendingDdrSlot) : Z * Z * Z := (start_lba it, hw_addr it, bytes it).
Lemma slots_accepted_app l l' : accepted (l ++ l') = accepted l ++ accepted l'.
Proof. unfold accepted. by rewrite omap_app, concat_app. Qed.
Lemma calls_app l l' : calls (l ++ l') = calls l ++ calls l'.
Proof. apply omap_app. Qed.

(** With the producer's sections that are still to come: those of the first
    list run when the writer next takes the mutex or waits. *)
Record Log : Type := mkLog { script : list (list producer_op); events : list Event }.
#[export] Instance eta_Log : EtaOf Log := λ l, mkLog (script l) (events l).

Section Observed.
Context {W : Type} (out : Outside W).
Definition seen {A} (ev : A → list Event) (m : Eff W A) : Eff (W * Log) A :=
  λ '(w, l), let '(x, w) := m w in (x, (w, l <| events ::= λ e, e ++ ev x |>)).
Definition unseen {A} : Eff W A → Eff (W * Log) A := seen (λ _, []).
Definition observed : Outside (W * Log) :=
  mkOutside
    (let h := dma_hw out in
     ccb_dma.mkHw (λ off, unseen (ccb_dma.reg_read32 h off))
       (λ off v, unseen (ccb_dma.reg_write32 h off v))
       (λ i f, unseen (ccb_dma.desc_read h i f)) (λ i f v, unseen (ccb_dma.desc_write h i f v))
       (λ i, unseen (ccb_dma.desc_clear h i)) (unseen (ccb_dma.wall_time_us h))
       (unseen (ccb_dma.pause h)))
    (λ hw lba media b qd, seen (λ _, [NvmeWrite lba hw b])
       (nvme_write_contiguous_tight_qd_payload out hw lba media b qd))
    (λ sl lba n b hw, seen (λ _, [NvmeWrite lba hw b]) (nvme_write_slot_qd_payload out sl lba n b hw))
    (unseen (nvme_submit_stall_count out)) (unseen (nvme_cq_empty_polls out))
    (unseen (nvme_ownership_unresolved out)) (unseen (storage_apply_writer_rt out))
    (let o := nvme_ops out in
     ccb_hw.mkOps (λ x1 x2 x3 x4, unseen (ccb_hw.submit o x1 x2 x3 x4))
       (unseen (ccb_hw.poll_completion o)) (unseen (ccb_hw.monotonic_us o))
       ((λ f us, unseen (f us)) <$> ccb_hw.sleep_us o) (unseen <$> ccb_hw.yield_cpu o)
       (unseen <$> ccb_hw.reset o)).

Definition note_accepted (its : list PendingDdrSlot) : M (W := W * Log) unit :=
  λ '(s, (w, l)), (tt, (s, (w, l <| events ::= λ e, e ++ [Accepted its] |>))).
Fixpoint run_ops (ops : list producer_op) : M (W := W * Log) unit :=
  match ops with
  | [] => eret tt
  | op :: ops => let! its := producer_step observed op in let! _ := note_accepted its in run_ops ops
  end.
Definition others : Eff (Sys * (W * Log)) unit := λ '(s, (w, l)),
  match script l with
  | [] => (tt, (s, (w, l)))
  | ops :: rest => run_ops ops (s, (w, l <| script := rest |>))
  end.

(** ** Steps between the writer's own *)
(** The queue, with what has been accepted. *)
Record tracks (s : Sys) (l : Log) (g : ghost) : Prop := {
  tr_rep : queue_rep (queue s) g;
  tr_accepted : accepted (events l) = g_pushed g;
  tr_script : Forall (Forall op_wf) (script l) }.

(** What is still to be done, at most: sections, slots to push, slots queued. *)
Definition offered (ops : list producer_op) : list PendingDdrSlot :=
  concat (omap (λ op, match op with OpPush its => Some its | _ => None end) ops).
Definition budget (l : Log) (g : ghost) : nat :=
  length (script l) + length (offered (concat (script l))) + length (g_queue g).
(** The producer is done, or will be. *)
Definition producer_over (s : Sys) : bool := storage_worker_producer_done (worker_state (queue s)).
Definition finishing (s : Sys) (l : Log) : Prop :=
  OpFinish ∈ concat (script l) ∨ producer_over s = true.
Lemma over_stage s s' : stage (queue s) <= stage (queue s') → producer_over s = true → producer_over s' = true.
Proof. unfold producer_over, storage_worker_producer_done, stage. lia. Qed.
Lemma offered_app a b : offered (a ++ b) = offered a ++ offered b.
Proof. unfold offered. by rewrite omap_app, concat_app. Qed.
Lemma finishing_script s l : finishing s l → producer_over s = false → script l ≠ [].
Proof. intros [H|H] Ho E; [rewrite E in H; set_solver|congruence]. Qed.
Lemma budget_script l g : script l ≠ [] → (0 < budget l g)%nat.
Proof. unfold budget. destruct (script l); simpl; [done|lia]. Qed.

(** The writer's own part does not change; [ops] have been run. *)
Record ran (ops : list producer_op) (s : Sys) (l : Log) (g : ghost) (s' : Sys) (l' : Log)
    (g' : ghost) : Prop := {
  rn_tracks : tracks s' l' g'; rn_held : g_held g' = g_held g; rn_done : g_done g' = g_done g;
  rn_taken : g_taken g' = g_taken g;
  rn_calls : calls (events l') = calls (events l); rn_evolves : evolves s s';
  rn_budget : (budget l' g' <= length (offered ops) + budget l g)%nat;
  rn_finish : OpFinish ∈ ops ∨ finishing s l → finishing s' l';
  rn_queue : offered ops = [] → offered (concat (script l)) = [] →
    offered (concat (script l')) = [] ∧ g_queue g' = g_queue g }.
Lemma ran_refl s l g : tracks s l g → ran [] s l g s l g.
Proof. intros Ht. split; try done. intros [Hi|Hf]; [set_solver|done]. Qed.
Lemma ran_trans ops1 ops2 s1 l1 g1 s2 l2 g2 s3 l3 g3 :
  ran ops1 s1 l1 g1 s2 l2 g2 → ran ops2 s2 l2 g2 s3 l3 g3 → ran (ops1 ++ ops2) s1 l1 g1 s3 l3 g3.
Proof.
  intros [T1 H1 D1 K1 C1 E1 B1 F1 Q1] [T2 H2 D2 K2 C2 E2 B2 F2 Q2]. split; try congruence.
  - by etrans.
  - rewrite offered_app, length_app. lia.
  - rewrite elem_of_app. tauto.
  - rewrite offered_app. intros [H3 H4]%app_eq_nil H5. destruct (Q1 H3 H5) as [H6 H7].
    destruct (Q2 H4 H6) as [H8 ->]. done.
Qed.

(** The producer pushes nothing after [OpFinish]: of the sections still to come,
    that those after the finish push nothing, and that nothing is pushed any
    more once the producer is over without an error. *)
Definition tidy (ops : list producer_op) : Prop := ∀ a b, ops = a ++ OpFinish :: b → offered b = [].
Definition shut (s : Sys) (ops : list producer_op) : Prop :=
  tidy ops ∧ (producer_over s = true → error (queue s) = false → offered ops = []).
Record env (s : Sys) (l : Log) (g : ghost) (s' : Sys) (l' : Log) (g' : ghost) : Prop := {
  en_ran : ran [] s l g s' l' g';
  en_shut : shut s (concat (script l)) → shut s' (concat (script l')) }.
Lemma env_refl s l g : tracks s l g → env s l g s l g.
Proof. intros Ht. split; [by apply ran_refl|done]. Qed.
Lemma env_trans s1 l1 g1 s2 l2 g2 s3 l3 g3 :
  env s1 l1 g1 s2 l2 g2 → env s2 l2 g2 s3 l3 g3 → env s1 l1 g1 s3 l3 g3.
Proof. intros [R1 S1] [R2 S2]. split; [exact (ran_trans [] [] _ _ _ _ _ _ _ _ _ R1 R2)|auto]. Qed.

Lemma env_tracks s l g s' l' g' : env s l g s' l' g' → tracks s' l' g'.
Proof. intros [[] _]. done. Qed.
Lemma env_evolves s l g s' l' g' : env s l g s' l' g' → evolves s s'.
Proof. intros [[] _]. done. Qed.

(** The writer changes the lifecycle only to fail. *)
Record own (q q' : StorageWriteQueue) : Prop := {
  ow_calm : calm q q'; ow_state : error q' = false → worker_state q' = worker_state q }.
Lemma shut_state s s' ops :
  (error (queue s') = false → worker_state (queue s') = worker_state (queue s)) →
  (error (queue s) = true → error (queue s') = true) → shut s ops → shut s' ops.
Proof.
  intros Hw Herr [Ht Hs]. split; [done|]. unfold producer_over. intros Ho He. rewrite (Hw He) in Ho.
  apply Hs; [done|]. destruct (error (queue s)) eqn:E; [|done]. by rewrite Herr in He.
Qed.
Lemma own_shut s s' ops : own (queue s) (queue s') → shut s ops → shut s' ops.
Proof. intros [Hc Hw]. apply shut_state; [done|apply Hc]. Qed.
Lemma env_own s l g s' :
  tracks s l g → own (queue s) (queue s') →
  (g_storage_stop_requested s = true → g_storage_stop_requested s' = true) → env s l g s' l g.
Proof.
  intros [[Hc Hf] Ha] Hown Hs. split; [|by apply own_shut]. destruct Hown as [[C1 C2 C3 C4 C5] _].
  split; try done.
  - split; try done. split; [by eapply core_frame|auto].
  - split; auto. apply C1.
  - intros [H|[H|H]]; [set_solver|by left|right]. by eapply over_stage.
Qed.
Lemma own_keeps q q' : same_core q q' → keeps q q' → own q q'.
Proof. intros Hc Hk. split; [by apply calm_keeps|]. intros _. apply Hk. Qed.
Lemma own_failed q q' : calm q q' → error q' = true → own q q'.
Proof. intros Hc He. split; [done|]. by rewrite He. Qed.
Lemma own_timing f q : own q (q <| timing ::= f |>).
Proof. apply own_keeps; by split. Qed.
Lemma own_event x b q :
  own q (q <| writer_event_ring ::= ccb_storage_diag.storage_event_ring_push x b |>).
Proof. apply own_keeps; by split. Qed.

(** An operation that only lets such steps happen; [Q] of its result and the
    system it ends in. *)
Definition idle {A} (m : M (W := W * Log) A) (Q : A → Sys → Prop) : Prop :=
  ∀ s w l g, tracks s l g →
    wp m (λ x st, ∃ g', env s l g st.1 st.2.2 g' ∧ Q x st.1) (s, (w, l)).
Definition any_ {A} : A → Sys → Prop := λ _ _, True.

Lemma idle_ret {A} (x : A) : idle (eret x) any_.
Proof. intros s w l g Ht. exists g. split; [by apply env_refl|done]. Qed.
Lemma idle_bind {A B} (m : M A) (k : A → M B) P Q :
  idle m P → (∀ x, idle (k x) Q) → idle (ebind m k) Q.
Proof.
  intros Hm Hk s w l g Ht. apply wp_bind. eapply wp_mono; [by apply Hm|].
  intros x [s1 [w1 l1]] (g1 & E1 & _). cbn [fst snd] in *.
  eapply wp_mono; [eapply Hk, env_tracks, E1|]. intros y [s2 [w2 l2]] (g2 & E2 & HQ). exists g2.
  split; [by eapply env_trans|done].
Qed.
Lemma idle_weaken {A} (m : M A) P (Q : A → Sys → Prop) :
  idle m P → (∀ x s, P x s → Q x s) → idle m Q.
Proof.
  intros Hm H s w l g Ht. eapply wp_mono; [by apply Hm|]. intros x st (g' & E & HP). eauto.
Qed.
Lemma idle_mod f :
  (∀ s, own (queue s) (f (queue s))) → idle (mod_q f) any_.
Proof. intros H s w l g Ht. apply wp_mod_q. exists g. split; [by apply env_own|done]. Qed.
Lemma idle_mod_timing f : idle (mod_timing f) any_.
Proof. apply idle_mod. intros s. apply own_timing. Qed.
Lemma idle_get : idle get_q (λ q s, q = queue s).
Proof. intros s w l g Ht. apply wp_get_q. exists g. split; [by apply env_refl|done]. Qed.
Lemma idle_stop : idle storage_write_request_stop any_.
Proof. intros s w l g Ht. exists g. split; [by apply env_own|done]. Qed.
(** A call of the outside that is not recorded. *)
Lemma idle_unseen {A} (m : Eff W A) : idle (sio (unseen m)) any_.
Proof.
  intros s w l g Ht. unfold wp, sio, unseen, seen. destruct (m w) as [x w1]. simpl. exists g.
  split; [|done]. replace (upd events _ l) with l by (destruct l; simpl; by rewrite app_nil_r).
  by apply env_refl.
Qed.
Lemma idle_now : idle (now observed) any_.
Proof. apply idle_unseen. Qed.


(** The producer's sections, and those of the queue, are not recorded. *)
Lemma unseen_log {A} (m : Eff W A) w : (unseen m w).2.2 = w.2.
Proof. destruct w as [w l]. unfold unseen, seen. destruct (m w), l. simpl. by rewrite app_nil_r. Qed.
Lemma silent_producer op : unmoved snd (producer_step observed op).
Proof. apply unmoved_producer; intros; apply unseen_log. Qed.
Lemma silent_pop start : unmoved snd (pop_section observed start).
Proof. apply unmoved_pop; intros; apply unseen_log. Qed.
Lemma silent_complete it : unmoved snd (complete_section observed it).
Proof. apply unmoved_complete; intros; apply unseen_log. Qed.

(** A specification, with the log. *)
Lemma wp_silent {A} (m : M (W := W * Log) A) (Q : A → Sys * (W * Log) → Prop) s w l :
  unmoved snd m → wp m (λ x st, ∀ w', Q x (st.1, (w', l))) (s, (w, l)) → wp m Q (s, (w, l)).
Proof.
  intros Hu H. unfold wp in *. specialize (Hu s (w, l)).
  destruct (m (s, (w, l))) as [x [s' [w' l']]]. simpl in *. subst l'. apply H.
Qed.

(** What a section can accept is what it offers. *)
Lemma wp_then {A B} (m : M (W := W * Log) A) (y : B) st : wp (let! _ := m in eret y) (λ x _, x = y) st.
Proof. unfold wp, ebind, eret. by destruct (m st). Qed.
Lemma accepted_offered op st :
  wp (producer_step observed op) (λ its _, (length its <= length (offered [op]))%nat) st.
Proof.
  destruct op; try (eapply wp_mono; [apply wp_then|intros ? ? ->; simpl; lia]).
  - destruct st as [s w]. apply wp_bind, wp_run_q.
    destruct (storage_local_queue_push_batch its (queue s)) as [rc q]. apply wp_ret.
    unfold offered. simpl. rewrite app_nil_r. destruct (rc =? 0); simpl; lia.
  - destruct st as [s w]. apply wp_bind, wp_run_q. destruct (storage_queue_finish (queue s)) as [stop q].
    eapply wp_mono; [apply wp_then|intros ? ? ->; simpl; lia].
  - destruct st as [s w]. apply wp_bind, wp_mod_q. eapply wp_mono; [apply wp_then|intros ? ? ->; simpl; lia].
Qed.
(** [OpFinish] ends the producer, whatever the state. *)
Lemma finish_over s w : wp (producer_step observed OpFinish) (λ _ st, producer_over st.1 = true) (s, w).
Proof.
  apply wp_bind, wp_run_q. assert (H : stage (storage_queue_finish (queue s)).2 >= worker_rank WORKER_DRAINING).
  { unfold stage, storage_queue_finish, storage_queue_transition_locked.
    destruct (fail_locked_spec (queue s)) as (_ & _ & _ & _ & [Hf|Hf]);
      (destruct (worker_state (queue s)) eqn:E;
       try match goal with |- context [storage_worker_transition ?a ?b ?c] =>
         change (storage_worker_transition a b c) with (0, c) end;
       cbv beta iota delta [snd]; rewrite ?E, ?Hf; simpl; lia). }
  destruct (storage_queue_finish (queue s)) as [stop q]. simpl in H.
  destruct stop; unfold wp, producer_over, storage_worker_producer_done; simpl; unfold stage in H; simpl in H; lia.
Qed.

Lemma ran_op op s w l g : op_wf op → tracks s l g →
  wp (let! its := producer_step observed op in note_accepted its)
     (λ _ st, ∃ g', ran [op] s l g st.1 st.2.2 g') (s, (w, l)).
Proof.
  intros Hwf [Hr Ha Hs]. apply wp_bind. pose proof (accepted_offered op (s, (w, l))) as H1.
  assert (H2 : wp (producer_step observed op) (λ its st, after_op s g its st.1 ∧ st.2.2 = l) (s, (w, l))).
  { apply wp_silent; [apply silent_producer|]. eapply wp_mono; [by apply producer_spec|]. by intros its st H w'. }
  assert (H3 : wp (producer_step observed op) (λ _ st, op = OpFinish → producer_over st.1 = true) (s, (w, l))).
  { destruct op; try (unfold wp; by destruct (producer_step _ _ _)).
    eapply wp_mono; [apply finish_over|done]. }
  eapply wp_mono; [apply (wp_and _ _ _ _ H1 (wp_and _ _ _ _ H2 H3))|]. clear H1 H2 H3.
  intros its [s' [w' l']] (Hlen & [(sl & Hr' & He & _) Hl] & Hfin). cbn [fst snd] in *. subst l'.
  unfold wp. simpl. exists (push_ghost g its sl). split; try done; simpl.
  - split; try done. simpl. rewrite slots_accepted_app, Ha. unfold accepted. simpl. by rewrite app_nil_r.
  - rewrite calls_app. by rewrite app_nil_r.
  - unfold budget. simpl. rewrite length_app. lia.
  - intros [Hin|[Hin|Hin]].
    + right. apply Hfin. by apply list_elem_of_singleton in Hin.
    + by left.
    + right. eapply over_stage; [apply He|done].
  - intros Hoff Hrest. split; [done|]. rewrite Hoff in Hlen.
    destruct its; [by rewrite app_nil_r|simpl in Hlen; lia].
Qed.
Lemma ran_run_ops ops : ∀ s w l g, Forall op_wf ops → tracks s l g →
  wp (run_ops ops) (λ _ st, ∃ g', ran ops s l g st.1 st.2.2 g') (s, (w, l)).
Proof.
  induction ops as [|op ops IH]; intros s w l g Hwf Ht.
  { exists g. by apply ran_refl. }
  apply Forall_cons in Hwf as [Hop Hwf]. pose proof (ran_op op s w l g Hop Ht) as H.
  assert (H2 : wp (ebind (let! its := producer_step observed op in note_accepted its) (λ _, run_ops ops))
    (λ _ st, ∃ g', ran (op :: ops) s l g st.1 st.2.2 g') (s, (w, l))).
  { apply wp_bind. eapply wp_mono; [exact H|]. intros _ [s1 [w1 l1]] (g1 & E1). cbn [fst snd] in *.
    eapply wp_mono; [apply IH; [done|apply E1]|]. intros _ [s2 [w2 l2]] (g2 & E2).
    exists g2. exact (ran_trans [op] ops _ _ _ _ _ _ _ _ _ E1 E2). }
  unfold wp, ebind in *. simpl. unfold ebind. destruct (producer_step observed op (s, (w, l))) as [its st].
  by destruct (note_accepted its st).
Qed.
(** Only [OpFinish] ends the producer without an error. *)
Definition late (q q' : StorageWriteQueue) : Prop :=
  error q' = false → stage q < worker_rank WORKER_DRAINING → stage q' < worker_rank WORKER_DRAINING.
Lemma late_state q q' : worker_state q' = worker_state q → late q q'.
Proof. unfold late, stage. by intros ->. Qed.
Lemma late_error q q' : error q' = true → late q q'.
Proof. unfold late. by intros ->. Qed.
Lemma late_transition e n q :
  worker_rank n < worker_rank WORKER_DRAINING ∨ worker_rank WORKER_DRAINING <= worker_rank e →
  late q (storage_queue_transition_locked e n q).2.
Proof.
  intros Hr. unfold storage_queue_transition_locked, storage_worker_transition.
  destruct (_ || _) eqn:Hd; [by apply late_error|].
  apply orb_false_iff in Hd as [He%negb_false_iff%bool_decide_eq_true _]. unfold late, stage. simpl in *.
  subst e. lia.
Qed.
Lemma late_trans q1 q2 q3 :
  late q1 q2 → late q2 q3 → (error q2 = true → error q3 = true) → late q1 q3.
Proof.
  intros H1 H2 He H3 H. apply H2; [done|]. apply H1; [|done].
  destruct (error q2); [by rewrite He in H3|done].
Qed.
Lemma late_fail q : late q (storage_queue_fail_locked q).
Proof. apply late_error, fail_locked_spec. Qed.
Lemma late_latch q : late q (storage_queue_latch_stop q).2.
Proof.
  unfold storage_queue_latch_stop. set (q1 := if bool_decide _ then _ else q).
  assert (H1 : late q q1) by (unfold q1; case_bool_decide; [apply late_transition; simpl; lia|by apply late_state]).
  clearbody q1. eapply late_trans; [exact H1| |].
  - case_bool_decide; [|by apply late_state].
    pose proof (late_transition WORKER_WAIT_BOUNDARY WORKER_DMA_QUIESCING q1) as Ht.
    destruct (storage_queue_transition_locked _ _ q1). apply Ht. simpl. lia.
  - case_bool_decide; [|done]. unfold storage_queue_transition_locked.
    destruct (storage_worker_transition _ _ _) as [rc ?]. by destruct (rc =? 0).
Qed.
Ltac late_cases := repeat first
  [ apply late_fail | by apply late_state | by apply late_error
  | apply late_transition; simpl; lia | case_bool_decide | destruct (_ && _) | destruct (_ || _)
  | destruct (negb _) ].
Lemma late_release sl q : late q (storage_release_harvested_slot sl q).2.
Proof.
  unfold storage_release_harvested_slot, storage_local_slot_transition_locked.
  destruct (_ <=? _); [by apply late_state|]. destruct (storage_slot_transition _ _ _ _) as [rc t].
  destruct (rc =? 0); late_cases.
Qed.
Lemma late_producer_ready b q : late q (storage_queue_set_producer_ready b q).2.
Proof. unfold storage_queue_set_producer_ready. late_cases. Qed.
Lemma late_running q : late q (storage_queue_mark_running q).2.
Proof. unfold storage_queue_mark_running. late_cases. Qed.
Lemma late_request_stop q : late q (storage_queue_request_stop_state q).2.
Proof. unfold storage_queue_request_stop_state. late_cases. Qed.
Lemma late_harvesting q : late q (storage_queue_mark_harvesting q).2.
Proof. unfold storage_queue_mark_harvesting. late_cases. Qed.
Lemma late_finalizing q : late q (storage_queue_mark_finalizing q).2.
Proof.
  unfold storage_queue_mark_finalizing.
  pose proof (late_transition WORKER_DRAINING WORKER_DRAINED_WAIT_STOP q) as H1.
  destruct (storage_queue_transition_locked _ _ q) as [rc q1]. simpl in H1.
  destruct (rc =? 0); [|apply H1; lia]. eapply late_trans; [apply H1; lia| |].
  - apply late_transition. simpl. lia.
  - unfold storage_queue_transition_locked. destruct (storage_worker_transition _ _ _) as [rc2 ?].
    by destruct (rc2 =? 0).
Qed.
Lemma late_mark_failed sl q : late q (storage_mark_harvest_slot_failed sl q).
Proof. unfold storage_mark_harvest_slot_failed. destruct (_ <=? _); late_cases. Qed.
Lemma late_reason reason q : late q (set_error_reason reason q).
Proof. unfold set_error_reason. by repeat case_match; apply late_state. Qed.
Lemma late_deferred c reason q : late q (storage_record_deferred_stop_error c reason q).
Proof. unfold storage_record_deferred_stop_error. by repeat case_match; apply late_state. Qed.
Lemma late_snapshot q : late q (storage_queue_snapshot q).2.
Proof. unfold storage_queue_snapshot. simpl. late_cases. Qed.
Create HintDb late discriminated.
#[local] Hint Resolve late_release late_producer_ready late_running late_request_stop late_harvesting
  late_finalizing late_mark_failed late_reason late_deferred late_snapshot late_fail late_latch : late.

Lemma late_code {A C} (f : StorageWriteQueue → C * StorageWriteQueue) (x : A) s (w : W * Log) (P : Prop) :
  late (queue s) (f (queue s)).2 →
  wp (let! _ := run_q f in eret x) (λ _ st, P ∨ late (queue s) (queue st.1)) (s, w).
Proof. intros H. apply wp_bind, wp_run_q. destruct (f (queue s)). apply wp_ret. by right. Qed.
Lemma late_change {A} f (x : A) s (w : W * Log) (P : Prop) :
  late (queue s) (f (queue s)) →
  wp (let! _ := mod_q f in eret x) (λ _ st, P ∨ late (queue s) (queue st.1)) (s, w).
Proof. intros H. apply wp_bind, wp_mod_q, wp_ret. by right. Qed.
Lemma late_op op s l g (w : W) :
  tracks s l g → op_wf op →
  wp (producer_step observed op) (λ _ st, op = OpFinish ∨ late (queue s) (queue st.1)) (s, (w, l)).
Proof.
  intros [Hr _ _] Hwf. destruct op;
    try (apply late_code; first [by apply late_transition; simpl; lia | auto with late; fail]);
    try (apply late_change; first [by apply late_state | auto with late; fail]).
  - apply wp_bind, wp_run_q. pose proof (push_spec _ _ _ Hr Hwf) as Hp.
    destruct (storage_local_queue_push_batch its (queue s)) as [rc q'].
    apply wp_ret. right. apply late_state. by destruct Hp as [[_ _ Hs _] _].
  - unfold wp. destruct (producer_step _ _ _). by left.
  - apply wp_bind, wp_bind, wp_mod_q, wp_bind, wp_get_q. right.
    by destruct (nvme_engine _); apply late_fail.
  - apply wp_bind, wp_mod_q, wp_bind, wp_smod, wp_ret. right. by apply late_error.
  - apply wp_bind, wp_on_dma. eapply (wp_mono _ (λ _ _, True)); [done|]. intros x [d w'] _.
    apply wp_ret. right. by apply late_state.
Qed.

Lemma shut_op s s' op c :
  op = OpFinish ∨ late (queue s) (queue s') → (error (queue s) = true → error (queue s') = true) →
  shut s (op :: c) → shut s' c.
Proof.
  intros Hlate He [Ht Hs]. split; [intros a b ->; by apply (Ht (op :: a))|]. intros Ho He'.
  destruct Hlate as [->|Hl]; [by apply (Ht [])|].
  assert (Ho' : producer_over s = true).
  { unfold producer_over, storage_worker_producer_done in *. unfold late, stage in Hl. specialize (Hl He'). lia. }
  assert (Hoff : offered ([op] ++ c) = []).
  { apply Hs; [done|]. destruct (error (queue s)); [by rewrite He in He'|done]. }
  rewrite offered_app in Hoff. by apply app_eq_nil in Hoff as [_ ?].
Qed.
Lemma run_ops_shut ops : ∀ s w l g, Forall op_wf ops → tracks s l g →
  wp (run_ops ops) (λ _ st, script st.2.2 = script l ∧ ∀ c, shut s (ops ++ c) → shut st.1 c) (s, (w, l)).
Proof.
  induction ops as [|op ops IH]; intros s w l g Hwf Ht; [done|].
  apply Forall_cons in Hwf as [Hop Hwf].
  pose proof (ran_op op s w l g Hop Ht) as H1. pose proof (late_op op s l g w Ht Hop) as H2.
  pose proof (silent_producer op s (w, l)) as H3. unfold wp, ebind in *. simpl. unfold ebind.
  destruct (producer_step observed op (s, (w, l))) as [its [s1 [w1 l1]]]. cbn [fst snd] in *. subst l1.
  unfold note_accepted in *. simpl in H1. destruct H1 as (g1 & R1).
  pose proof (IH s1 w1 _ g1 Hwf (rn_tracks _ _ _ _ _ _ _ R1)) as H. unfold wp in H.
  destruct (run_ops ops _) as [u [s2 [w2 l2]]]. cbn [fst snd] in *. destruct H as [Hl Hc].
  split; [done|]. intros c Hshut. apply Hc. eapply shut_op; [exact H2|apply (rn_evolves _ _ _ _ _ _ _ R1)|done].
Qed.
(** Each wait uses up a part of the script. *)
Lemma lock_spec s w l g : tracks s l g →
  wp (lock others) (λ _ st, ∃ g', env s l g st.1 st.2.2 g' ∧
    (script l = [] ∨ (budget st.2.2 g' < budget l g)%nat)) (s, (w, l)).
Proof.
  intros Ht. unfold lock, others, wp. pose proof Ht as [Hr Ha Hs].
  destruct (script l) as [|ops rest] eqn:El.
  { exists g. split; [by apply env_refl|by left]. }
  apply Forall_cons in Hs as [Hops Hrest].
  assert (Ht1 : tracks s (l <| script := rest |>) g) by by split.
  pose proof (ran_run_ops ops s w _ g Hops Ht1) as H. pose proof (run_ops_shut ops s w _ g Hops Ht1) as H2.
  unfold wp in H, H2. destruct (run_ops ops (s, (w, l <| script := rest |>))) as [u [s1 [w1 l1]]].
  destruct H as (g1 & [T Hh D K C E B Fi Qu]). destruct H2 as [Hl Hshut]. cbn [fst snd] in *. exists g1.
  assert (Hb : budget l g = S (length (offered ops) + budget (l <| script := rest |>) g)).
  { unfold budget. rewrite El. simpl. rewrite offered_app, length_app. lia. }
  split; [split|right; lia].
  - split; try done; [simpl; lia| |].
    2:{ intros _. rewrite El. simpl. rewrite offered_app. intros [H1 H2]%app_eq_nil. by apply Qu. }
    intros [Hin|[Hin|Hin]]; [set_solver| |apply Fi; right; by right].
    rewrite El in Hin. simpl in Hin. apply elem_of_app in Hin as [Hin|Hin]; apply Fi; [by left|right; by left].
  - rewrite Hl, El. apply Hshut.
Qed.
Lemma idle_lock : idle (lock others) any_.
Proof.
  intros s w l g Ht. eapply wp_mono; [by apply lock_spec|]. intros [] st (g' & E & _). by exists g'.
Qed.

(** *** The writer's steps that are idle *)
Lemma own_reason reason q : own q (set_error_reason reason q).
Proof. split; [apply calm_reason|]. unfold set_error_reason. by repeat case_match. Qed.
Lemma own_fail_section b q : own q (fail_section b q).
Proof. apply own_failed; [apply calm_fail_section|]. unfold fail_section. apply fail_locked_spec. Qed.
Lemma own_writer_ready b q : own q (storage_queue_set_writer_ready b q).
Proof.
  split; [apply calm_writer_ready|]. unfold storage_queue_set_writer_ready. destruct (_ && _); [done|].
  destruct (fail_locked_spec q) as [-> _]. done.
Qed.
Definition failed_ {A} : A → Sys → Prop := λ _ s, error (queue s) = true.
Lemma idle_then {A B} (m : M A) (k : A → M B) :
  idle m failed_ → (∀ x, idle (k x) any_) → idle (ebind m k) failed_.
Proof.
  intros Hm Hk s w l g Ht. apply wp_bind. eapply wp_mono; [by apply Hm|].
  intros x [s1 [w1 l1]] (g1 & E1 & He). cbn [fst snd] in *.
  eapply wp_mono; [eapply Hk, env_tracks, E1|]. intros y [s2 [w2 l2]] (g2 & E2 & _). exists g2.
  split; [by eapply env_trans|]. by apply (ev_error _ _ (env_evolves _ _ _ _ _ _ E2)).
Qed.
Lemma idle_event id x y b : idle (storage_ring_event observed id x y b) any_.
Proof.
  eapply idle_bind; [apply idle_now|]. intros t. apply idle_mod. intros s. apply own_event.
Qed.
Lemma idle_reason reason : idle (storage_set_writer_error_reason others reason) any_.
Proof.
  unfold storage_set_writer_error_reason. destruct (String.eqb reason ""); [apply idle_ret|].
  eapply idle_bind; [apply idle_lock|]. intros _. apply idle_mod. intros s. apply own_reason.
Qed.
Lemma idle_fail_section b : idle (mod_q (fail_section b)) failed_.
Proof.
  intros s w l g Ht. apply wp_mod_q. exists g. split.
  - apply env_own; [done|apply own_fail_section|done].
  - unfold failed_, fail_section. apply fail_locked_spec.
Qed.
Lemma idle_fail_fatal : idle (storage_fail_fatal observed others) failed_.
Proof.
  eapply idle_bind; [apply idle_reason|]. intros _. eapply idle_bind; [apply idle_lock|]. intros _.
  eapply idle_bind; [apply idle_unseen|]. intros b. eapply idle_then; [apply idle_fail_section|].
  intros _. eapply idle_bind; [apply idle_event|]. intros _. apply idle_stop.
Qed.
Lemma idle_ready_count : idle (ready_count others) any_.
Proof.
  eapply idle_bind; [apply idle_lock|]. intros _. eapply idle_bind; [apply idle_get|].
  intros q. apply idle_ret.
Qed.
Lemma idle_abort_seen : idle (abort_seen others) (λ b s, b = true → error (queue s) = true).
Proof.
  intros s w l g Ht. apply wp_bind. eapply wp_mono; [by apply idle_lock|].
  intros [] [s1 [w1 l1]] (g1 & E1 & _). cbn [fst snd] in *. apply wp_bind, wp_get_q, wp_ret.
  exists g1. split; [done|]. intros Ha. destruct (env_tracks _ _ _ _ _ _ E1) as [[_ Hf] _ _]. apply Hf.
  by apply bool_decide_eq_true in Ha.
Qed.
Lemma idle_gap expected t : idle (storage_record_writer_schedule_gap observed expected t) any_.
Proof.
  unfold storage_record_writer_schedule_gap. destruct (_ || _); [apply idle_ret|].
  destruct (_ <? 1000); [apply idle_ret|]. eapply idle_bind; [apply idle_mod_timing|].
  intros _. apply idle_event.
Qed.
Lemma idle_writer_ready b : idle (set_writer_ready others b) (λ _ s, b = false → error (queue s) = true).
Proof.
  intros s w l g Ht. apply wp_bind. eapply wp_mono; [by apply idle_lock|].
  intros [] [s1 [w1 l1]] (g1 & E1 & _). cbn [fst snd] in *. apply wp_mod_q. exists g1. split.
  - eapply env_trans; [exact E1|]. apply env_own; [eapply env_tracks, E1|apply own_writer_ready|done].
  - by intros ->.
Qed.
Lemma idle_setup_failed : idle (setup_failed observed others) failed_.
Proof.
  eapply idle_then.
  - eapply idle_weaken; [apply idle_writer_ready|]. intros [] s H. by apply H.
  - intros _. eapply idle_bind; [apply idle_event|]. intros _.
    eapply idle_bind; [apply idle_stop|]. intros _. apply idle_ret.
Qed.
Lemma idle_wait_run fuel : idle (storage_queue_wait_run others fuel) any_.
Proof.
  induction fuel as [|fuel IH]; cbn [storage_queue_wait_run];
    (eapply idle_bind; [apply idle_lock|]; intros _; eapply idle_bind; [apply idle_get|]; intros q;
     destruct (_ || _); [|apply idle_ret]); [apply idle_ret|apply IH].
Qed.
Lemma own_rt r q : dma r = dma (rt q) → own q (q <| rt := r |>).
Proof. intros H. split; [|done]. split; [by split| |done..]. intros []. split; simpl; by rewrite ?H. Qed.
Lemma padding_dma it r : dma (storage_zero_tail_padding it r).2 = dma r.
Proof. unfold storage_zero_tail_padding. by repeat case_match. Qed.
Ltac idle_branch := match goal with
  | |- idle (if ?b then _ else _) _ => destruct b
  | |- idle (match ?o with Some _ => _ | None => _ end) _ => destruct o end.
Lemma idle_padding it :
  idle (run_q (λ q, let '(rc, r) := storage_zero_tail_padding it (rt q) in (rc, q <| rt := r |>))) any_.
Proof.
  intros s w l g Ht. apply wp_run_q. pose proof (padding_dma it (rt (queue s))) as Hd.
  destruct (storage_zero_tail_padding it (rt (queue s))) as [rc r]. exists g. split; [|done].
  apply env_own; [done|by apply own_rt|done].
Qed.
Lemma idle_slot_writable it : idle (slot_writable it) any_.
Proof.
  eapply idle_bind; [apply idle_get|]. intros q. cbv zeta. idle_branch; [apply idle_ret|].
  idle_branch; [|apply idle_ret].
  eapply idle_bind; [apply idle_padding|]. intros rc. repeat idle_branch; apply idle_ret.
Qed.

Lemma setup_failed_value st : wp (setup_failed observed others) (λ o _, o = Some SetupFailed) st.
Proof.
  unfold setup_failed. by do 3 (apply wp_bind; eapply (wp_mono _ (λ _ _, True)); [done|intros ? ? _]).
Qed.

(** *** Nothing left *)
(** Everything that was accepted is completed and accounted. *)
Record accounted (s : Sys) (l : Log) : Prop := {
  ac_count : count (queue s) = 0; ac_buffered : buffered_bytes (totals (queue s)) = 0;
  ac_written : bytes_written (totals (queue s)) = sum_bytes (accepted (events l));
  ac_completed : completed_slot_count (totals (queue s)) = Z.of_nat (length (accepted (events l)));
  ac_slots : ∀ sl, 0 <= sl → storage_slot_state (slots (queue s)) sl ≠ STORAGE_SLOT_READY_FOR_NVME ∧
                             storage_slot_state (slots (queue s)) sl ≠ STORAGE_SLOT_NVME_BUSY }.
Lemma drained_accounted s l g : tracks s l g → g_held g = [] → g_queue g = [] → accounted s l.
Proof.
  intros [[[] _] Ha _] Hh Hq. rewrite Hq, Hh in *. rewrite app_nil_r in *.
  assert (Hp : accepted (events l) ≡ₚ g_done g) by (by rewrite Ha, qc_order0).
  split; [done|done|by rewrite (proj1 qc_written0), (sum_bytes_perm _ _ Hp)|by rewrite qc_completed0, Hp|].
  intros sl Hsl. rewrite (rep_slot_state _ _ _ qc_table0 Hsl). destruct qc_holds0 as [H1 H2 _ _].
  specialize (H1 (Z.to_nat sl)). specialize (H2 (Z.to_nat sl)). simpl in *.
  destruct (g_slots g !! Z.to_nat sl) as [x|]; [|done]. simpl. split; intros ->; set_solver.
Qed.

End Observed.
End writer_steps.
