(* ===== verification/WriterSafe.v ===== *)
(** * The writer thread delivers what was pushed

    The thread of one slot at a time, run against any schedule of the
    producer's critical sections: whatever it writes is the next slot pushed,
    and when it ends drained everything that was pushed has been written once,
    in order, and is accounted. *)
From S2P Require Import Prelude StorageError SlotTable Worker Config Diag DmaRing CcbTypes CrossSlot WriteQueue WriterThread WriteQueueRep WriteQueueSafe WriterSteps.

Module writer_safety.
Import storage_queue storage_worker ccb_types storage_write_queue storage_writer_thread
  write_queue_rep write_queue_safety writer_steps.

Section Observed.
Context {W : Type} (out : Outside W).
#[local] Abbreviation observed := (writer_steps.observed out).
#[local] Abbreviation others := (writer_steps.others out).

(** ** Where the writer stands *)
(** [F]: the script lets the producer finish; [B] bounds what is to be done. *)
Context (F : Prop).
Record at_ (held_ done_ : list PendingDdrSlot) (cs : list (Z * Z * Z)) (B : nat) (s : Sys) (l : Log)
    (g : ghost) : Prop := {
  at_tracks : tracks s l g; at_held : g_held g = held_; at_done : g_done g = done_;
  at_order : g_taken g = done_ ++ held_;
  at_calls : calls (events l) = cs; at_budget : (budget l g <= B)%nat; at_finish : F → finishing s l }.
Lemma at_env held_ done_ cs B s l g s' l' g' :
  env s l g s' l' g' → at_ held_ done_ cs B s l g → at_ held_ done_ cs B s' l' g'.
Proof.
  intros [[E1 E2 E3 EK E4 E5 E6 E7] _] [Ht Hh Hd Hk Hc Hb Hf]. simpl in E6.
  split; try congruence; try done; [simpl in *; lia|intros HF; apply E7; right; by apply Hf].
Qed.
Lemma idle_at {A} (m : M (W := W * Log) A) Q held_ done_ cs B s w l g :
  idle m Q → at_ held_ done_ cs B s l g →
  wp m (λ x st, (∃ g', at_ held_ done_ cs B st.1 st.2.2 g') ∧ Q x st.1) (s, (w, l)).
Proof.
  intros Hm Hat. eapply wp_mono; [apply Hm, Hat|].
  intros x st (g' & HE & HQ). split; [|done]. exists g'. by eapply at_env.
Qed.
Lemma bind_idle {A C} (m : M (W := W * Log) A) (k : A → M C) P Q held_ done_ cs B s w l g :
  idle m P → at_ held_ done_ cs B s l g →
  (∀ x s' w' l' g', P x s' → at_ held_ done_ cs B s' l' g' → wp (k x) Q (s', (w', l'))) →
  wp (ebind m k) Q (s, (w, l)).
Proof.
  intros Hm Hat Hk. apply wp_bind. eapply wp_mono; [eapply idle_at; [exact Hm|exact Hat]|].
  intros x [s' [w' l']] [[g' Hat'] HP]. by eapply Hk.
Qed.
(** What a wait brings. *)
Lemma lock_at held_ done_ cs B s w l g :
  at_ held_ done_ cs B s l g →
  wp (lock others) (λ _ st, ∃ g' B', at_ held_ done_ cs B' st.1 st.2.2 g' ∧ (B' <= B)%nat ∧
    stage (queue s) <= stage (queue st.1) ∧ (F → producer_over s = false → (B' < B)%nat)) (s, (w, l)).
Proof.
  intros Hat. eapply wp_mono; [apply lock_spec, Hat|]. intros _ st (g' & HE & Hdec).
  exists g', (budget st.2.2 g'). pose proof (at_env _ _ _ _ _ _ _ _ _ _ HE Hat) as [A1 A2 A3 AK A4 A5 A6].
  split_and!; [by split|done|apply (ev_stage _ _ (env_evolves _ _ _ _ _ _ HE))|]. intros HF Ho.
  destruct Hdec as [Hn|Hlt]; [|destruct Hat; lia].
  destruct Hat as [_ _ _ _ _ _ Hfin]. exfalso. by apply (finishing_script s l); [apply Hfin| |].
Qed.
Lemma at_not_over held_ done_ cs B s l g :
  at_ held_ done_ cs B s l g → F → producer_over s = false → (0 < B)%nat.
Proof.
  intros [_ _ _ _ _ Hb Hf] HF Ho. pose proof (budget_script l g (finishing_script s l (Hf HF) Ho)). lia.
Qed.

(** Nothing was written twice, or out of order. *)
Definition in_order (l : Log) : Prop := calls (events l) `prefix_of` (call_of <$> accepted (events l)).
Lemma at_in_order held_ done_ cs B s l g :
  at_ held_ done_ cs B s l g → cs `prefix_of` (call_of <$> done_ ++ held_) → in_order l.
Proof.
  intros [[[Hc _] Ha _] _ _ Ho <- _ _] Hp. unfold in_order. rewrite Ha, (qc_order _ _ Hc), Ho, fmap_app.
  by apply prefix_app_r.
Qed.
Lemma at_bytes it held_ done_ cs B s l g : at_ (it :: held_) done_ cs B s l g → 0 < bytes it.
Proof.
  intros [[[Hc _] Ha _] Hh _ Ho _ _ _]. pose proof (qc_bytes _ _ Hc) as Hb. rewrite Forall_forall in Hb.
  apply Hb. rewrite (qc_order _ _ Hc), Ho. set_solver.
Qed.

(** Writing a slot: refused without a call, or one call. *)
Lemma flush_spec it held_ done_ cs B s w l g :
  at_ held_ done_ cs B s l g → 0 < bytes it →
  wp (flush_slot_to_nvme observed it) (λ rc st, ∃ g',
    (rc ≠ 0 ∧ at_ held_ done_ cs B st.1 st.2.2 g') ∨
    at_ held_ done_ (cs ++ [call_of it]) B st.1 st.2.2 g') (s, (w, l)).
Proof.
  intros Hat Hb. unfold flush_slot_to_nvme. replace (bytes it =? 0) with false by lia.
  apply wp_bind. eapply wp_mono; [eapply idle_at; [apply idle_slot_writable|exact Hat]|].
  intros o [s1 [w1 l1]] [(g1 & Hat1) _]. cbn [fst snd] in *.
  destruct o as [media|]; [|apply wp_ret; exists g1; by left].
  apply wp_bind, wp_get_q, wp_bind.
  assert (Hcall : ∀ x : Eff W Z, wp (sio (seen (λ _, [NvmeWrite (start_lba it) (hw_addr it) (bytes it)]) x))
    (λ rc st, wp (eret (if negb (rc =? 0) then -1 else 0)) (λ rc st, ∃ g',
      (rc ≠ 0 ∧ at_ held_ done_ cs B st.1 st.2.2 g') ∨
      at_ held_ done_ (cs ++ [call_of it]) B st.1 st.2.2 g') st) (s1, (w1, l1))).
  { intros x. unfold wp, sio, seen. destruct (x w1) as [rc w2]. simpl. exists g1. right.
    destruct Hat1 as [[T1 T3 T4] H2 H3 HK H4 H5 H6]. split; try done.
    - split; try done. simpl. rewrite slots_accepted_app, T3. unfold accepted. simpl. by rewrite app_nil_r.
    - simpl. by rewrite calls_app, H4. }
  destruct (nvme_feed_mode_tight _); apply Hcall.
Qed.

(** Waiting for a slot and taking it. *)
Definition taken_as (done_ : list PendingDdrSlot) (cs : list (Z * Z * Z)) (B : nat) (s : Sys) (l : Log)
    (r : StorageQueuePopResult) (it : PendingDdrSlot) (g : ghost) : Prop :=
  match r with
  | STORAGE_QUEUE_POP_ITEM => (0 < B)%nat ∧ at_ [it] done_ cs (pred B) s l g
  | STORAGE_QUEUE_POP_ERROR => at_ [] done_ cs B s l g ∧ error (queue s) = true
  | STORAGE_QUEUE_POP_PRODUCER_DRAINED => at_ [] done_ cs B s l g ∧ g_queue g = [] ∧ error (queue s) = false
  | _ => False
  end.
Lemma stage_over s s' : worker_state (queue s') = worker_state (queue s) → producer_over s' = producer_over s.
Proof. unfold producer_over. by intros ->. Qed.
Lemma pop_section_spec start done_ cs B s w l g :
  at_ [] done_ cs B s l g → must_wait (queue s) = false →
  wp (pop_section observed start) (λ r st, ∃ g', taken_as done_ cs B st.1 st.2.2 r.1 r.2 g') (s, (w, l)).
Proof.
  intros [[Hr Ha Hs] Hh Hd Ho Hc Hb Hf] Hw. apply wp_silent; [apply silent_pop|].
  eapply wp_mono; [by apply pop_spec|].
  intros [r it] st (g' & Hr' & Hk & Hsys & Hn & Hp) w'. exists g'. cbn [fst snd] in *.
  assert (Hf' : F → finishing st.1 l).
  { intros HF. destruct (Hf HF) as [Hin|Hin]; [by left|right]. by rewrite (stage_over s) by apply Hk. }
  destruct r; simpl in Hp |- *.
  - destruct Hp as [-> He]. split; [by split|done].
  - by destruct Hp as (_ & _ & Hm); rewrite Hm in Hw.
  - destruct Hp as (rest & Hq & ->). unfold budget in Hb. rewrite Hq in Hb. simpl in Hb. split; [lia|].
    split; simpl; [|by rewrite Hh|done| |done|unfold budget; simpl; lia|done].
    + by split.
    + by rewrite Ho, <-(assoc_L (++)).
  - destruct Hp as (-> & Hq & He & _). split_and!; [by split|done|done].
  - done.
Qed.
Definition pop_post (fuel : nat) (done_ : list PendingDdrSlot) (cs : list (Z * Z * Z)) (B : nat)
    (o : option (StorageQueuePopResult * PendingDdrSlot)) (st : Sys * (W * Log)) : Prop :=
  ∃ g, match o with
       | Some (r, it) => ∃ B', (B' <= B)%nat ∧ taken_as done_ cs B' st.1 st.2.2 r it g
       | None => at_ [] done_ cs B st.1 st.2.2 g ∧ (F → (fuel < B)%nat)
       end.
Lemma must_wait_over s : must_wait (queue s) = true → producer_over s = false.
Proof. unfold must_wait, producer_over. rewrite !andb_true_iff, !negb_true_iff. tauto. Qed.
Lemma at_mono held_ done_ cs B B' s l g :
  at_ held_ done_ cs B s l g → (B <= B')%nat → at_ held_ done_ cs B' s l g.
Proof. intros [] ?. split; try done. lia. Qed.
Lemma pop_wait_spec fuel start done_ cs B s w l g :
  at_ [] done_ cs B s l g →
  wp (pop_wait observed others fuel true start) (pop_post fuel done_ cs B) (s, (w, l)).
Proof.
  revert B s w l g; induction fuel as [|fuel IH]; intros B s w l g Hat; cbn [pop_wait];
    apply wp_bind, wp_get_q; simpl andb; destruct (must_wait (queue s)) eqn:Hw;
    try (apply wp_bind; eapply wp_mono; [eapply pop_section_spec; [exact Hat|exact Hw]|];
         intros [r it] st [g' H]; apply wp_ret; by exists g', B).
  - apply wp_ret. exists g. split; [done|]. intros HF. eapply at_not_over; [done..|by apply must_wait_over].
  - apply wp_bind. eapply wp_mono; [eapply lock_at; exact Hat|].
    intros [] [s1 [w1 l1]] (g1 & B1 & Hat1 & Hle & _ & Hdec). cbn [fst snd] in *.
    eapply wp_mono; [eapply IH; exact Hat1|]. intros o st [g2 H2]. exists g2. destruct o as [[r it]|].
    + destruct H2 as (B2 & H2 & H3). exists B2. split; [lia|done].
    + destruct H2 as [H2 H3]. split; [by eapply at_mono|]. intros HF. specialize (H3 HF).
      specialize (Hdec HF (must_wait_over _ Hw)). lia.
Qed.
Lemma queue_pop_spec fuel done_ cs B s w l g :
  at_ [] done_ cs B s l g →
  wp (storage_queue_pop observed others fuel true) (pop_post fuel done_ cs B) (s, (w, l)).
Proof.
  intros Hat. apply wp_bind. eapply wp_mono; [eapply idle_at; [apply idle_lock|exact Hat]|].
  intros [] [s1 [w1 l1]] [(g1 & Hat1) _]. apply wp_bind, wp_get_q, wp_bind.
  eapply wp_mono; [eapply (idle_at _ any_); [destruct (_ && _); [apply idle_now|apply idle_ret]|exact Hat1]|].
  intros start [s2 [w2 l2]] [(g2 & Hat2) _]. eapply pop_wait_spec; exact Hat2.
Qed.
(** Completing it: accounted, or an error. *)
Definition stuck (it : PendingDdrSlot) (done_ : list PendingDdrSlot) (cs : list (Z * Z * Z)) (B : nat)
    (s : Sys) (l : Log) : Prop :=
  ∃ g h d, at_ h d cs B s l g ∧ d ++ h = done_ ++ [it].
Lemma complete_section_at it done_ cs B s w l g :
  at_ [it] done_ cs B s l g →
  wp (complete_section observed it) (λ a st,
    ccb_dma.dma_requeue_after_stop_count (dma (rt (queue st.1))) = 0 ∧
    match a with
    | Completed _ => ∃ g', at_ [] (done_ ++ [it]) cs B st.1 st.2.2 g'
    | ReturnNow rc => rc = -1 ∧ stuck it done_ cs B st.1 st.2.2
    | FailFatal => stuck it done_ cs B st.1 st.2.2
    end) (s, (w, l)).
Proof.
  intros [[Hr Ha Hs] Hh Hd Ho Hc Hb Hf]. apply wp_silent; [apply silent_complete|].
  eapply wp_mono; [by apply (complete_spec observed it [] [])|].
  intros a st (g' & Hr' & Hst & Hsys & Hcases & _) w'. cbn [fst snd]. split; [apply Hr'|].
  assert (Hf' : F → finishing st.1 l).
  { intros HF. destruct (Hf HF) as [Hin|Hin]; [by left|right]. eapply over_stage; [apply Hst|done]. }
  destruct Hcases as [(-> & -> & He)|(n & -> & Hl & He & _)].
  - split; [done|]. exists g, [it], done_. split; [|done]. by split.
  - assert (Hat : at_ [] (done_ ++ [it]) cs B st.1 l (done_ghost g ([] ++ []) it n)).
    { split; simpl; [by split|done|by rewrite Hd|by rewrite app_nil_r|done|done|done]. }
    assert (Hstuck : stuck it done_ cs B st.1 l).
    { eexists _, [], _. split; [exact Hat|]. by rewrite app_nil_r. }
    destruct a as [rc| |b]; [|done|by eexists]. by destruct Hl.
Qed.
Lemma stuck_at it done_ cs B s l g : at_ [it] done_ cs B s l g → stuck it done_ cs B s l.
Proof. intros H. by exists g, [it], done_. Qed.
Lemma idle_stuck {A} (m : M (W := W * Log) A) Q it done_ cs B s w l :
  idle m Q → stuck it done_ cs B s l →
  wp m (λ x st, stuck it done_ cs B st.1 st.2.2 ∧ Q x st.1) (s, (w, l)).
Proof.
  intros Hm (g & h & d & Hat & Hd). eapply wp_mono; [eapply idle_at; [exact Hm|exact Hat]|].
  intros x st [(g' & Hat') HQ]. split; [|done]. by exists g', h, d.
Qed.
Lemma complete_at it done_ cs B s w l g :
  at_ [it] done_ cs B s l g →
  wp (storage_complete_slot observed others it) (λ rc st,
    if rc =? 0 then ∃ g', at_ [] (done_ ++ [it]) cs B st.1 st.2.2 g'
    else stuck it done_ cs B st.1 st.2.2) (s, (w, l)).
Proof.
  intros Hat. apply wp_bind, wp_get_q. destruct (_ <=? _); [apply wp_ret; by eapply stuck_at|].
  apply wp_bind. eapply wp_mono; [eapply idle_at; [apply idle_lock|exact Hat]|].
  intros [] [s1 [w1 l1]] [(g1 & Hat1) _]. cbn [fst snd] in *.
  apply wp_bind. eapply wp_mono; [eapply complete_section_at; exact Hat1|].
  intros [rc| |b] [s2 [w2 l2]] [Hlate H]; cbn [fst snd] in *.
  - destruct H as [-> H]. by apply wp_ret.
  - apply wp_bind. eapply wp_mono; [eapply idle_stuck; [apply idle_fail_fatal|exact H]|].
    intros [] st [H' _]. by apply wp_ret.
  - destruct H as [g2 H]. apply wp_bind, wp_get_q. rewrite Hlate. rewrite andb_false_r. apply wp_ret.
    by exists g2.
Qed.

(** *** One slot *)
Lemma own_account_write us b q : own q (account_write us b q).
Proof. apply own_timing. Qed.
Lemma idle_if_grown a b id us : idle (event_if_grown observed a b id us) any_.
Proof. unfold event_if_grown. destruct (a <? b); [apply idle_event|apply idle_ret]. Qed.
Definition failed_end (s : Sys) (l : Log) : Prop := error (queue s) = true ∧ in_order l.
Lemma stuck_in_order it done_ cs B s l :
  stuck it done_ cs B s l → cs `prefix_of` (call_of <$> done_ ++ [it]) → in_order l.
Proof. intros (g & h & d & Hat & Hd) Hp. eapply at_in_order; [exact Hat|]. by rewrite Hd. Qed.
Lemma fail_stuck {A} (x : A) it done_ cs B s w l :
  stuck it done_ cs B s l → cs `prefix_of` (call_of <$> done_ ++ [it]) →
  wp (let! _ := storage_fail_fatal observed others in eret x)
     (λ y st, y = x ∧ failed_end st.1 st.2.2) (s, (w, l)).
Proof.
  intros H Hp. apply wp_bind. eapply wp_mono; [eapply idle_stuck; [apply idle_fail_fatal|exact H]|].
  intros [] st [H' He]. apply wp_ret. split; [done|split]; [exact He|eapply stuck_in_order; [exact H'|done]].
Qed.
Lemma flush_at it done_ B s w l g :
  at_ [it] done_ (call_of <$> done_) B s l g →
  wp (flush_slot_to_nvme observed it) (λ rc st,
    if rc =? 0 then ∃ g', at_ [it] done_ (call_of <$> done_ ++ [it]) B st.1 st.2.2 g'
    else ∃ cs, cs `prefix_of` (call_of <$> done_ ++ [it]) ∧ stuck it done_ cs B st.1 st.2.2) (s, (w, l)).
Proof.
  intros Hat. eapply wp_mono; [eapply flush_spec; [exact Hat|by eapply at_bytes]|].
  intros rc st [g' [[Hn H]|H]].
  - replace (rc =? 0) with false by lia. exists (call_of <$> done_).
    split; [rewrite fmap_app; by apply prefix_app_r|by eapply stuck_at].
  - change [call_of it] with (call_of <$> [it]) in H. rewrite <-fmap_app in H.
    destruct (rc =? 0); [by exists g'|]. exists (call_of <$> done_ ++ [it]).
    split; [done|by eapply stuck_at].
Qed.
(** What [write_popped] leaves. *)
Definition popped_post (it : PendingDdrSlot) (done_ : list PendingDdrSlot) (B : nat) (r : WriterEnd + Z)
    (st : Sys * (W * Log)) : Prop :=
  match r with
  | inl e => e = Failed ∧ failed_end st.1 st.2.2
  | inr _ => ∃ g', at_ [] (done_ ++ [it]) (call_of <$> done_ ++ [it]) B st.1 st.2.2 g'
  end.
Lemma fail_popped it done_ B cs s w l :
  stuck it done_ cs B s l → cs `prefix_of` (call_of <$> done_ ++ [it]) →
  wp (let! _ := storage_fail_fatal observed others in eret (inl Failed)) (popped_post it done_ B) (s, (w, l)).
Proof.
  intros H Hp. eapply wp_mono; [by eapply fail_stuck|]. by intros r st [-> He].
Qed.
#[local] Tactic Notation "idle_next" hyp(H) uconstr(lem) := eapply bind_idle; [apply lem|exact H|]; clear H; intros ? ? ? ? ? _ H.
Lemma write_popped_at it done_ B s w l g :
  at_ [it] done_ (call_of <$> done_) B s l g →
  wp (write_popped observed others it) (popped_post it done_ B) (s, (w, l)).
Proof.
  intros Hat. unfold write_popped. idle_next Hat idle_ready_count. do 2 idle_next Hat idle_unseen.
  idle_next Hat idle_now. apply wp_bind. eapply wp_mono; [eapply flush_at; exact Hat|]. clear Hat.
  intros rc [s1 [w1 l1]] H. cbn [fst snd] in H. destruct (rc =? 0); simpl negb; cbv iota.
  2:{ destruct H as (cs & Hp & H). by eapply fail_popped. }
  destruct H as [g1 Hat]. idle_next Hat idle_now. idle_next Hat idle_unseen. idle_next Hat idle_if_grown.
  idle_next Hat idle_unseen. idle_next Hat idle_if_grown.
  eapply bind_idle; [apply idle_mod; intros; apply own_account_write|exact Hat|]. clear Hat.
  intros [] s2 w2 l2 g2 _ Hat. apply wp_bind. eapply wp_mono; [eapply complete_at; exact Hat|]. clear Hat.
  intros rc2 [s3 [w3 l3]] H. cbn [fst snd] in H. destruct (rc2 =? 0); simpl negb; cbv iota.
  2:{ by eapply fail_popped. }
  destruct H as [g3 Hat]. idle_next Hat idle_ready_count. destruct (0 <? _).
  - idle_next Hat idle_now. apply wp_ret. by eexists.
  - apply wp_ret. by eexists.
Qed.

(** *** The loop *)
Definition end_post (fuel B : nat) (o : option WriterEnd) (st : Sys * (W * Log)) : Prop :=
  in_order (st.2.2) ∧
  match o with
  | None => F → (fuel <= B)%nat
  | Some Drained => error (queue st.1) = false ∧
      ∃ d g, at_ [] d (call_of <$> d) B st.1 st.2.2 g ∧ g_queue g = []
  | Some Failed | Some SetupFailed => error (queue st.1) = true
  | Some NotStarted => True
  end.
Lemma at_settled d B s l g : at_ [] d (call_of <$> d) B s l g → in_order l.
Proof. intros H. eapply at_in_order; [exact H|]. by rewrite app_nil_r. Qed.
Lemma end_post_mono fuel fuel' B B' o st :
  (F → fuel <= B → fuel' <= B')%nat → (B <= B')%nat → end_post fuel B o st → end_post fuel' B' o st.
Proof.
  intros Hf HB [Ho H]. split; [done|]. destruct o as [[]|]; try done; [|intros HF; auto].
  destruct H as (He & d & g & Hat & Hq). split; [done|]. exists d, g. split; [by eapply at_mono|done].
Qed.
(** The event of the end, after which nothing runs any more. *)
Lemma drained_end d B s w l g fuel :
  at_ [] d (call_of <$> d) B s l g → g_queue g = [] → error (queue s) = false →
  wp (let! _ := storage_ring_event observed STORAGE_EVENT_STOP_DRAINED 0 0 false in eret (Some Drained))
     (end_post fuel B) (s, (w, l)).
Proof.
  intros Hat Hq He. apply wp_bind, wp_bind. unfold wp at 1, now, sio, observed, dma_hw, unseen, seen.
  simpl. destruct (ccb_dma.wall_time_us _ w) as [t w']. cbn [fst snd].
  replace (upd events _ l) with l by (destruct l; simpl; by rewrite app_nil_r).
  apply wp_mod_q, wp_ret. pose proof (at_settled _ _ _ _ _ Hat) as Ho. split; [done|]. split; [done|].
  exists d, g. split; [|done]. eapply at_env; [|exact Hat].
  apply env_own; [apply Hat|apply own_event|done].
Qed.
Lemma writer_loop_spec fuel : ∀ expected d B s w l g,
  at_ [] d (call_of <$> d) B s l g →
  wp (writer_loop observed others fuel expected) (end_post fuel B) (s, (w, l)).
Proof.
  induction fuel as [|fuel IH]; intros expected d B s w l g Hat; cbn [writer_loop].
  { apply wp_ret. split; [by eapply at_settled|]. intros _. lia. }
  eapply bind_idle; [apply idle_abort_seen|exact Hat|]. clear s w l g Hat.
  intros aborted s w l g Hab Hat. destruct aborted.
  { apply wp_ret. split; [by eapply at_settled|by apply Hab]. }
  eapply (bind_idle _ _ any_); [|exact Hat|].
  { destruct (expected =? 0); [apply idle_ret|]. eapply idle_bind; [apply idle_now|]. intros t. apply idle_gap. }
  clear s w l g Hat Hab. intros _ s w l g _ Hat.
  apply wp_bind. eapply wp_mono; [eapply queue_pop_spec; exact Hat|]. clear s w l g Hat.
  intros o [s [w l]] [g H]. cbn [fst snd] in H. destruct o as [[r it]|].
  2:{ apply wp_ret. destruct H as [Hat Hf]. split; [by eapply at_settled|]. intros HF. specialize (Hf HF). lia. }
  destruct H as (B' & Hle & H). destruct r; simpl in H; try done.
  - destruct H as [Hat _]. apply wp_bind.
    eapply wp_mono; [eapply idle_at; [apply idle_fail_fatal|exact Hat]|].
    intros [] st [[g' Hat'] He]. apply wp_ret. split; [by eapply at_settled|exact He].
  - destruct H as [Hpos Hat]. apply wp_bind. eapply wp_mono; [eapply write_popped_at; exact Hat|].
    clear s w l g Hat. intros [e|t] [s [w l]]; cbn [popped_post fst snd].
    + intros [-> [He Ho]]. apply wp_ret. by split.
    + intros [g Hat]. eapply wp_mono; [eapply IH; exact Hat|]. intros o st. apply end_post_mono; lia.
  - destruct H as (Hat & Hq & He). eapply drained_end; [by eapply at_mono|done|done].
Qed.

Lemma not_started_over s :
  bool_decide (worker_state (queue s) = WORKER_INIT) || bool_decide (worker_state (queue s) = WORKER_READY) = true →
  producer_over s = false.
Proof. unfold producer_over. rewrite orb_true_iff, !bool_decide_eq_true. by intros [-> | ->]. Qed.
Lemma wait_run_spec fuel : ∀ d cs B s w l g,
  at_ [] d cs B s l g →
  wp (storage_queue_wait_run others fuel) (λ o st, (∃ g', at_ [] d cs B st.1 st.2.2 g') ∧
    (o = None → F → (fuel < B)%nat)) (s, (w, l)).
Proof.
  induction fuel as [|fuel IH]; intros d cs B s w l g Hat; cbn [storage_queue_wait_run];
    (apply wp_bind; eapply wp_mono; [eapply lock_at; exact Hat|];
     intros [] [s1 [w1 l1]] (g1 & B1 & Hat1 & Hle & Hst & Hdec); cbn [fst snd] in *;
     apply wp_bind, wp_get_q; destruct (_ || _) eqn:Hw;
     [|apply wp_ret; split; [exists g1; by eapply at_mono|done]]).
  - apply wp_ret. split; [exists g1; by eapply at_mono|]. intros _ HF.
    assert (0 < B1)%nat by (eapply at_not_over; [exact Hat1|done|by apply not_started_over]). lia.
  - eapply wp_mono; [eapply IH; exact Hat1|]. intros o st [[g2 Hat2] Hnone].
    split; [exists g2; by eapply at_mono|]. intros Ho HF. specialize (Hnone Ho HF).
    assert (producer_over s = false).
    { apply not_started_over in Hw. destruct (producer_over s) eqn:E; [|done]. by rewrite (over_stage _ _ Hst E) in Hw. }
    specialize (Hdec HF). lia.
Qed.
Lemma thread_spec fuel B s w l g :
  at_ [] [] [] B s l g →
  wp (storage_nvme_writer_thread observed others fuel) (end_post fuel B) (s, (w, l)).
Proof.
  intros Hat. apply wp_bind. eapply wp_mono; [eapply wait_run_spec; exact Hat|]. clear s w l g Hat.
  intros o [s [w l]] [[g Hat] Hnone]. cbn [fst snd] in *. destruct o as [rc|].
  2:{ apply wp_ret. split; [by eapply (at_settled [])|]. intros HF. specialize (Hnone eq_refl HF). lia. }
  destruct (rc =? 0); simpl negb; cbv iota; [|apply wp_ret; split; [by eapply (at_settled [])|done]].
  eapply bind_idle; [apply idle_unseen|exact Hat|]. clear Hnone rc s w l g Hat. intros rc s w l g _ Hat.
  destruct (rc =? 0); simpl negb; cbv iota.
  - eapply bind_idle; [apply idle_writer_ready|exact Hat|]. clear s w l g Hat. intros _ s w l g _ Hat.
    by eapply (writer_loop_spec _ _ []).
  - eapply bind_idle; [apply idle_reason|exact Hat|]. clear s w l g Hat. intros _ s w l g _ Hat.
    eapply wp_mono; [apply wp_and; [apply setup_failed_value|eapply idle_at; [apply idle_setup_failed|exact Hat]]|].
    intros o st [-> [[g' Hat'] He]]. split; [by eapply (at_settled [])|exact He].
Qed.

(** *** The two ends *)
Lemma init_at r a c c' q0 stop sections :
  storage_queue_init r a c = (Some q0, c') → ring_fresh r → Forall (Forall op_wf) sections →
  (F → OpFinish ∈ concat sections) →
  ∃ g, at_ [] [] [] (length sections + length (offered (concat sections)))
         (mkSys q0 stop None) (mkLog sections []) g.
Proof.
  intros Hi Hr Hs HF. pose proof (init_rep_queue _ _ _ _ _ Hi Hr) as Hrep. eexists.
  split; [split; [exact Hrep|done|done]|done|done|done|done|unfold budget; simpl; lia|].
  intros HF'. left. by apply HF.
Qed.
Lemma drained_calls d B s l g :
  at_ [] d (call_of <$> d) B s l g → g_queue g = [] →
  calls (events l) = call_of <$> accepted (events l) ∧ accounted s l.
Proof.
  intros [Ht Hh Hd Ho Hc _ _] Hq. split; [|by eapply drained_accounted].
  destruct Ht as [[[] _] Ha _]. by rewrite Hc, Ha, qc_order0, Ho, Hq, !app_nil_r.
Qed.
End Observed.

(** The thread, against the sections of the producer that run between its own. *)
Definition run_writer {W : Type} (out : Outside W) (q0 : StorageWriteQueue) (stop : bool) (w : W)
    (sections : list (list producer_op)) (fuel : nat) : option WriterEnd * (Sys * (W * Log)) :=
  storage_nvme_writer_thread (observed out) (others out) fuel (mkSys q0 stop None, (w, mkLog sections [])).
(** C16: The writer delivers: whatever critical sections the producer runs
    between its own, the NVMe writes it issues are those of the accepted slots,
    in the order of acceptance and each at most once.  When it ends drained,
    every accepted slot has been written, the queue is empty, no slot is left
    ready or busy, the bytes and the slots completed are those accepted, and
    there is no error; when it ends otherwise after its start the queue is in
    error. *)
Theorem writer_thread_drains (W : Type) (out : Outside W) (r : ChannelRuntime) (a : Allocations)
    (c c' : storage_config.config_state) (q0 : StorageWriteQueue) (stop : bool) (w : W)
    (sections : list (list producer_op)) (fuel : nat) :
  storage_queue_init r a c = (Some q0, c') → ring_fresh r → Forall (Forall op_wf) sections →
  let '(o, (s, (_, l))) := run_writer out q0 stop w sections fuel in
  calls (events l) `prefix_of` (call_of <$> accepted (events l)) ∧
  match o with
  | Some Drained => error (queue s) = false ∧ calls (events l) = call_of <$> accepted (events l) ∧ accounted s l
  | Some Failed | Some SetupFailed => error (queue s) = true
  | _ => True
  end.
Proof.
  intros Hi Hr Hs. pose proof (init_at False _ _ _ _ _ stop _ Hi Hr Hs) as [g Hat].
  { done. }
  pose proof (thread_spec out False fuel _ _ w _ g Hat) as H. unfold wp in H. unfold run_writer.
  destruct (storage_nvme_writer_thread _ _ _ _) as [o [s [w' l]]]. destruct H as [Ho H].
  cbn [fst snd] in *. split; [exact Ho|]. destruct o as [[]|]; try done.
  destruct H as (He & d & g' & Hat' & Hq). split; [done|].
  by eapply drained_calls.
Qed.

(** C25: The writer ends: when the producer's critical sections are finitely many
    and one of them finishes the queue, the thread ends within as many steps of
    each of its loops as there are sections to come and slots to push, whatever
    they are and wherever they fall. *)
Theorem writer_thread_ends (W : Type) (out : Outside W) (r : ChannelRuntime) (a : Allocations)
    (c c' : storage_config.config_state) (q0 : StorageWriteQueue) (stop : bool) (w : W)
    (sections : list (list producer_op)) (fuel : nat) :
  storage_queue_init r a c = (Some q0, c') → ring_fresh r → Forall (Forall op_wf) sections →
  OpFinish ∈ concat sections → (length sections + length (offered (concat sections)) < fuel)%nat →
  ∃ e, (run_writer out q0 stop w sections fuel).1 = Some e.
Proof.
  intros Hi Hr Hs Hfin Hfuel. pose proof (init_at True _ _ _ _ _ stop _ Hi Hr Hs) as [g Hat].
  { done. }
  pose proof (thread_spec out True fuel _ _ w _ g Hat) as [_ H].
  unfold run_writer. destruct (storage_nvme_writer_thread _ _ _ _) as [o [s [w' l]]]. cbn [fst snd] in *.
  destruct o as [e|]; [by exists e|]. specialize (H I). lia.
Qed.

(** *** A concrete run: two slots pushed while the writer waits, then the end *)
Definition example_sections : list (list producer_op) :=
  [[OpReady; OpEnableRun]; []; [OpProducerReady true; OpRunning; OpHarvest 2 0 false];
   [OpPush [example_item 0 7; example_item 1 9]; OpRequestStop]; [OpLatchStop]; [OpHarvesting; OpFinish]].
Lemma example_sections_wf : Forall (Forall op_wf) example_sections.
Proof. repeat constructor; simpl; lia. Qed.
Definition example_run : option WriterEnd * (Sys * (list Z * Log)) :=
  run_writer example_out example_queue false [] example_sections 20.

Lemma writer_thread_drains_witness :
  let '(o, (s, (w, l))) := example_run in
  calls (events l) `prefix_of` (call_of <$> accepted (events l)) ∧ o = Some Drained ∧
  calls (events l) = [(7, 0x10000000, 512); (9, 0x10000200, 512)] ∧ w = [7; 9].
Proof.
  pose proof (writer_thread_drains (list Z) example_out example_rt example_alloc example_config
    (storage_queue_init example_rt example_alloc example_config).2 example_queue false []
    example_sections 20) as H. fold example_run in H.
  destruct example_run as [o [s [w l]]] eqn:E. split.
  { apply H; [|apply example_fresh|apply example_sections_wf].
    rewrite <-example_init. by destruct (storage_queue_init _ _ _). }
  clear H. vm_compute in E. injection E as <- <- <- <-. by vm_compute.
Defined.

Lemma writer_thread_ends_witness : ∃ e, example_run.1 = Some e.
Proof.
  apply (writer_thread_ends (list Z) example_out example_rt example_alloc example_config
    (storage_queue_init example_rt example_alloc example_config).2 example_queue false []
    example_sections 20);
    [|apply example_fresh|apply example_sections_wf|by vm_compute; do 9 right; left|by vm_compute; lia].
  rewrite <-example_init. by destruct (storage_queue_init _ _ _).
Defined.
End writer_safety.
