(* ===== verification/CrossWriterSafe.v ===== *)
(** * The cross-slot writer thread delivers what was pushed

    The thread composed of the write queue and of the cross-slot engine, run
    against any schedule of the producer's critical sections and any behaviour
    of the NVMe device.  The requests of the engine's active contexts are the
    slots the queue has handed out; when the thread ends drained nothing is
    left in the queue or in the engine and everything that was accepted is
    accounted. *)
From S2P Require Import Prelude StorageError SlotTable Worker Writer Config Diag DmaRing CcbTypes CrossSlot WriteQueue WriterThread CrossSlotReqs CrossWriter WriteQueueRep WriteQueueSafe WriterSteps CrossSlotSafe.

Module cross_writer_safety.
Import storage_queue storage_worker storage_writer ccb_types storage_write_queue
  storage_writer_thread storage_cross_writer write_queue_rep write_queue_safety writer_steps
  cross_slot_requests.

Section Composed.
Context {W : Type} (out : Outside W).
#[local] Abbreviation observed := (writer_steps.observed out).
#[local] Abbreviation others := (writer_steps.others out).
#[local] Abbreviation ops := (storage_cross_writer.ops observed).
#[local] Abbreviation callback := (storage_cross_slot_done_cb observed others).
#[local] Abbreviation abort := (take_abort others).
(** The queue, the outside and the log. *)
Definition world : Type := Sys * (W * Log).

(** ** The requests of the engine and the slots handed out *)
Definition item_key (it : PendingDdrSlot) : Z * Z := (slot it, bytes it).
Definition request_key (r : ccb_hw.NvmeWriteSlotReq) : Z * Z := (ccb_hw.r_slot r, ccb_hw.r_bytes r).
Definition hands_out (rs : list ccb_hw.NvmeWriteSlotReq) (x : world) : Prop :=
  ∃ g, tracks x.1 x.2.2 g ∧ shut x.1 (concat (script x.2.2)) ∧
    item_key <$> g_held g ≡ₚ request_key <$> rs.
Definition known (x : world) : Prop := ∃ g, tracks x.1 x.2.2 g.
(** Nothing is left, and nothing will come. *)
Definition empty_handed (x : world) : Prop :=
  ∃ g, tracks x.1 x.2.2 g ∧ g_held g = [] ∧ g_queue g = [] ∧ offered (concat (script x.2.2)) = [].

Lemma hands_known rs x : hands_out rs x → known x.
Proof. intros (g & H & _). by exists g. Qed.
Lemma hands_env rs s l g s' (w' : W) l' g' :
  env s l g s' l' g' → tracks s l g ∧ shut s (concat (script l)) ∧ item_key <$> g_held g ≡ₚ request_key <$> rs →
  hands_out rs (s', (w', l')).
Proof.
  intros HE (_ & Hs & Hk). exists g'. split_and!; [by eapply env_tracks|by apply HE|].
  by rewrite (rn_held _ _ _ _ _ _ _ (en_ran _ _ _ _ _ _ HE)).
Qed.

(** An idle operation keeps them. *)
Lemma idle_keeps {A} (m : SM A) Q : idle m Q → keeps_world hands_out known m.
Proof.
  intros Hm [s [w l]]. split.
  - intros rs (g & Ht & H). pose proof (Hm s w l g Ht) as Hi. unfold wp in Hi.
    destruct (m (s, (w, l))) as [x [s' [w' l']]]. destruct Hi as (g' & HE & _). by eapply hands_env.
  - intros [g Ht]. pose proof (Hm s w l g Ht) as Hi. unfold wp in Hi.
    destruct (m (s, (w, l))) as [x [s' [w' l']]]. destruct Hi as (g' & HE & _). exists g'. by eapply env_tracks.
Qed.
Lemma idle_empty {A} (m : SM A) Q x : idle m Q → empty_handed x → wp m (λ _ x', empty_handed x') x.
Proof.
  intros Hm. destruct x as [s [w l]]. intros (g & Ht & Hh & Hq & Ho). eapply wp_mono; [by apply Hm|].
  intros _ [s' [w' l']] (g' & [R _] & _). cbn [fst snd] in *.
  destruct (rn_queue _ _ _ _ _ _ _ R eq_refl Ho) as [Ho' Hq']. exists g'. cbn [fst snd].
  split_and!; [apply R|by rewrite (rn_held _ _ _ _ _ _ _ R)|by rewrite Hq'|done].
Qed.
Lemma idle_abort : idle abort any_.
Proof.
  eapply idle_bind; [apply idle_lock|]. intros _ s w l g Ht. unfold take_abort. apply wp_bind, wp_sget.
  apply wp_bind, wp_smod, wp_ret. exists g. split; [|done]. apply env_own; [done| |done].
  by apply own_keeps.
Qed.

(** *** Completing a slot that is held *)
(** The completion looks at the slot and at its bytes only. *)
Lemma complete_by_key it it' :
  item_key it = item_key it' → storage_complete_slot observed others it = storage_complete_slot observed others it'.
Proof.
  intros [= Hs Hb]. unfold storage_complete_slot, complete_section, requeue_section, account_completed.
  by rewrite Hs, Hb.
Qed.
Definition released (held1 held2 : list PendingDdrSlot) (rc : Z) (x : world) : Prop :=
  known x ∧ (rc = 0 → ∃ g, tracks x.1 x.2.2 g ∧ shut x.1 (concat (script x.2.2)) ∧ g_held g = held1 ++ held2).
Lemma not_released {A} (m : SM A) held1 held2 rc x :
  rc ≠ 0 → idle m any_ → known x → wp (let! _ := m in eret rc) (released held1 held2) x.
Proof.
  intros Hrc Hm. destruct x as [s [w l]]. intros [g Ht]. apply wp_bind. eapply wp_mono; [by apply Hm|].
  intros _ [s' [w' l']] (g' & HE & _). apply wp_ret. split; [|done]. exists g'. by eapply env_tracks.
Qed.
Lemma idle_fatal : idle (storage_fail_fatal observed others) any_.
Proof. eapply idle_weaken; [apply idle_fail_fatal|done]. Qed.
Lemma complete_section_released it held1 held2 s w l g :
  tracks s l g → shut s (concat (script l)) → g_held g = held1 ++ it :: held2 →
  wp (complete_section observed it) (λ a x, match a with
    | Completed _ => released held1 held2 0 x
    | ReturnNow rc => rc ≠ 0 ∧ known x
    | FailFatal => known x end) (s, (w, l)).
Proof.
  intros [Hr Ha Hs] Hshut Hheld. apply wp_silent; [apply silent_complete|].
  eapply wp_mono; [by apply (complete_spec observed it held1 held2)|].
  intros a st (g' & Hr' & Hst & Hsys & Hcases & _) w'. cbn [fst snd].
  destruct Hcases as [(-> & -> & He)|(n & -> & Hl & _ & _)].
  - split; [done|]. by exists g.
  - assert (Ht' : tracks st.1 l (done_ghost g (held1 ++ held2) it n)) by by split.
    assert (Hk : known (st.1, (w', l))) by by eexists.
    destruct a as [rc| |b]; [split; [by destruct Hl as [-> _]|done]|done|].
    split; [done|]. intros _. eexists. split_and!; [exact Ht'| |done]. by eapply shut_state; [apply Hst..|].
Qed.
Lemma complete_released it held1 held2 s w l g :
  tracks s l g → shut s (concat (script l)) → g_held g = held1 ++ it :: held2 →
  wp (storage_complete_slot observed others it) (released held1 held2) (s, (w, l)).
Proof.
  intros Ht Hs Hheld. apply wp_bind, wp_get_q. destruct (_ <=? _).
  { apply wp_ret. split; [by exists g|done]. }
  apply wp_bind. eapply wp_mono; [by apply idle_lock|]. intros [] [s1 [w1 l1]] (g1 & HE & _). cbn [fst snd] in *.
  apply wp_bind. eapply wp_mono.
  { apply (complete_section_released it held1 held2 s1 w1 l1 g1); [by eapply env_tracks|by apply HE|].
    by rewrite (rn_held _ _ _ _ _ _ _ (en_ran _ _ _ _ _ _ HE)). }
  clear s w l g Ht Hs Hheld s1 w1 l1 g1 HE. intros [rc| |b] [s [w l]] H.
  - destruct H as [Hrc Hk]. apply wp_ret. split; [done|]. by intros ->.
  - by apply not_released; [|apply idle_fatal|].
  - apply wp_bind, wp_get_q. destruct (_ && _); [|by apply wp_ret].
    destruct H as [[g Ht] _]. apply wp_bind. eapply wp_mono; [by apply idle_reason|].
    intros _ [s' [w' l']] (g' & HE & _). cbn [fst snd] in *.
    apply not_released; [done|apply idle_fatal|]. exists g'. by eapply env_tracks.
Qed.

(** ** What the engine relies on *)
Lemma find_key (l : list PendingDdrSlot) k ks :
  item_key <$> l ≡ₚ k :: ks → ∃ it held1 held2, l = held1 ++ it :: held2 ∧ item_key it = k ∧
    item_key <$> (held1 ++ held2) ≡ₚ ks.
Proof.
  intros Hp. assert (Hin : k ∈ item_key <$> l) by (rewrite Hp; by left).
  apply list_elem_of_fmap in Hin as (it & -> & Hin). apply list_elem_of_split in Hin as (h1 & h2 & ->).
  exists it, h1, h2. split_and!; [done..|]. apply (Permutation_cons_inv (a := item_key it)). rewrite <-Hp.
  rewrite !fmap_app, fmap_cons. solve_Permutation.
Qed.
Lemma queue_harmless : harmless ops callback abort hands_out known.
Proof.
  split.
  - intros rs rs' x Hp (g & H1 & H2 & H3). exists g. split_and!; [done..|]. by rewrite H3, Hp.
  - apply hands_known.
  - eapply idle_keeps, idle_abort.
  - intros. eapply idle_keeps. apply idle_unseen.
  - eapply idle_keeps, idle_unseen.
  - eapply idle_keeps, idle_unseen.
  - intros f us. simpl. destruct (ccb_hw.sleep_us (nvme_ops out)); simpl; [|done]. intros [= <-].
    eapply idle_keeps, idle_unseen.
  - intros m. simpl. destruct (ccb_hw.yield_cpu (nvme_ops out)); simpl; [|done]. intros [= <-].
    eapply idle_keeps, idle_unseen.
  - intros m. simpl. destruct (ccb_hw.reset (nvme_ops out)); simpl; [|done]. intros [= <-].
    eapply idle_keeps, idle_unseen.
  - intros req rs [s [w l]] (g & Ht & Hs & Hk). cbn [fst snd] in *.
    destruct (find_key _ _ _ Hk) as (it & h1 & h2 & Hh & Hit & Hrest).
    unfold storage_cross_slot_done_cb. rewrite (complete_by_key (item_of req) it) by done.
    eapply wp_mono; [by eapply complete_released|]. intros rc x [Hkn H0]. split; [|done].
    intros Hrc. destruct (H0 Hrc) as (g' & Ht' & Hs' & Hh'). exists g'. by rewrite Hh'.
Qed.
(** ** Taking a slot *)
Definition pop_left (rs : list ccb_hw.NvmeWriteSlotReq) (o : option (StorageQueuePopResult * PendingDdrSlot))
    (x : world) : Prop :=
  match o with
  | Some (STORAGE_QUEUE_POP_ITEM, it) => hands_out (request_of it :: rs) x
  | Some (STORAGE_QUEUE_POP_ERROR, _) | None => known x
  | Some (_, _) => hands_out rs x
  end.
Lemma pop_section_left start rs x :
  hands_out rs x → wp (pop_section observed start) (λ r, pop_left rs (Some r)) x.
Proof.
  destruct x as [s [w l]]. intros (g & [Hr Ha Hs] & Hshut & Hk). cbn [fst snd] in *.
  apply wp_silent; [apply silent_pop|]. eapply wp_mono; [by apply pop_spec|].
  intros [r it] st (g' & Hr' & Hkeep & Hsys & Hn & Hp) w'. cbn [fst snd] in *.
  assert (Hshut' : shut st.1 (concat (script l))) by (eapply shut_state; [intros _; apply Hkeep|apply Hkeep|done]).
  destruct r; simpl in Hp; [| | | |done].
  - destruct Hp as [-> _]. exists g. by split.
  - destruct Hp as [-> _]. exists g. by split_and!.
  - destruct Hp as (rest & Hq & ->). eexists. cbn [fst snd]. split_and!; [by split|done|]. simpl.
    rewrite fmap_app. simpl. rewrite Hk. symmetry. apply Permutation_cons_append.
  - destruct Hp as [-> _]. exists g. by split_and!.
Qed.
Lemma idle_hands {A} (m : SM A) Q rs x : idle m Q → hands_out rs x → wp m (λ _, hands_out rs) x.
Proof. intros Hm H. unfold wp. pose proof (idle_keeps m Q Hm x) as [Hp _]. specialize (Hp rs H). by destruct (m x). Qed.
Lemma pop_wait_left fuel wait start rs x :
  hands_out rs x → wp (pop_wait observed others fuel wait start) (pop_left rs) x.
Proof.
  revert x; induction fuel as [|fuel IH]; intros [s [w l]] H; cbn [pop_wait]; apply wp_bind, wp_get_q;
    destruct (_ && _);
    try (apply wp_bind; eapply wp_mono; [by apply pop_section_left|]; intros r x' H'; by apply wp_ret).
  - apply wp_ret. by eapply hands_known.
  - apply wp_bind. eapply wp_mono; [eapply idle_hands; [apply idle_lock|done]|]. intros [] x'. apply IH.
Qed.
Lemma queue_pop_left fuel wait rs x :
  hands_out rs x → wp (storage_queue_pop observed others fuel wait) (pop_left rs) x.
Proof.
  intros H. apply wp_bind. eapply wp_mono; [eapply idle_hands; [apply idle_lock|done]|].
  intros [] [s [w l]] H1. apply wp_bind, wp_get_q, wp_bind.
  eapply wp_mono; [eapply (idle_hands _ any_); [destruct (_ && _); [apply idle_now|apply idle_ret]|done]|].
  intros start x'. apply pop_wait_left.
Qed.

(** ** One turn *)
#[local] Abbreviation good := (good hands_out).
#[local] Abbreviation offering := (offering hands_out).
#[local] Abbreviation taken := (taken hands_out known).
#[local] Abbreviation steady := (steady hands_out known).
Lemma steady_q {A} (m : SM A) Q : idle m Q → steady (q_op m).
Proof. intros H. apply (steady_io hands_out known). by eapply idle_keeps. Qed.
Lemma wp_engine (Q : ccb_hw.NvmeCrossSlotEngine → ccb_hw.NvmeCrossSlotEngine * world → Prop) e x :
  Q e (e, x) → wp engine Q (e, x).
Proof. done. Qed.
Lemma bind_taken {A B} (m : CM A) (k : A → CM B) Q rc e x :
  steady m → taken rc (e, x) → (∀ a st, taken rc st → wp (k a) Q st) → wp (ebind m k) Q (e, x).
Proof.
  intros Hm [Hg Hk] H. apply wp_bind. eapply wp_mono; [apply Hm|]. intros a [e' x'] [S1 S2]. apply H.
  split; [intros Hrc|by apply S2]. eapply good_steady; [exact S1|exact S2|by apply Hg].
Qed.
Lemma good_taken rc st : good st → taken rc st.
Proof. intros H. split; [done|]. destruct H as [_ H]. by eapply hands_known. Qed.

Definition turn_left (t : turn) (st : ccb_hw.NvmeCrossSlotEngine * world) : Prop :=
  match t with
  | Next _ => good st
  | Break false => empty_handed st.2
  | Break true | Stuck => known st.2
  end.
Lemma idle_known {A} (m : SM A) Q x : idle m Q → known x → wp m (λ _, known) x.
Proof. intros Hm H. unfold wp. pose proof (idle_keeps m Q Hm x) as [_ Hp]. specialize (Hp H). by destruct (m x). Qed.
Lemma break_left reason st : known st.2 →
  wp (break_with (W := W * Log) others reason) (λ t st, t = Break true ∧ known st.2) st.
Proof.
  destruct st as [e x]. intros H. apply wp_bind, wp_sio.
  eapply wp_mono; [eapply idle_known; [apply idle_reason|exact H]|]. intros [] x' H'. by apply wp_ret.
Qed.
Lemma break_turn reason st : known st.2 → wp (break_with (W := W * Log) others reason) turn_left st.
Proof. intros H. eapply wp_mono; [by apply break_left|]. by intros t st' [-> H']. Qed.
Lemma add_popped_left it st :
  offering (request_of it) st →
  wp (add_popped others it) (λ o st', match o with None => good st' | Some t => turn_left t st' end) st.
Proof.
  assert (Hbreak : ∀ reason st, known st.2 →
    wp (let! t := break_with (W := W * Log) others reason in eret (Some t))
      (λ o st', match o with None => good st' | Some t => turn_left t st' end) st).
  { intros reason st' H. apply wp_bind. eapply wp_mono; [by apply break_turn|]. intros t st'' H'. by apply wp_ret. }
  destruct st as [e x]. intros Ho. assert (Hkn : known x) by (destruct Ho as [_ H]; by eapply hands_known).
  unfold add_popped. apply wp_bind, wp_sio. destruct x as [s wl]. apply wp_get_q.
  destruct (storage_slot_addresses _ _); [|by apply Hbreak].
  apply wp_bind. eapply wp_mono; [eapply steady_q, idle_padding|]. intros rc [e1 x1] [S1 S2]. cbn [fst snd] in *.
  assert (Ho1 : offering (request_of it) (e1, x1)) by by eapply offering_steady.
  assert (Hkn1 : known x1) by by apply S2. clear Ho Hkn S1 S2 e s wl.
  destruct (negb (rc =? 0)).
  { apply wp_bind, wp_sio. destruct x1 as [s wl]. apply wp_get_q. by apply Hbreak. }
  apply wp_bind. eapply wp_mono; [by eapply add_sound, Ho1; apply queue_harmless|].
  intros rc2 [e2 x2] [H0 Hk2]. destruct (rc2 =? 0) eqn:Hrc; simpl negb; cbv iota.
  - apply wp_ret, H0. lia.
  - apply wp_bind, wp_bind, wp_engine. eapply wp_mono; [by apply break_turn|]. intros t st H. by apply wp_ret.
Qed.

(** The decision to stop is the right one. *)
Lemma decision_left e x :
  good (e, x) →
  wp (storage_cross_slot_writer_decision_locked (W := W * Log) others) (λ d st, good st ∧
    (d = STORAGE_CROSS_SLOT_WRITER_DRAINED → empty_handed st.2)) (e, x).
Proof.
  intros Hg. apply wp_bind. eapply wp_mono; [eapply steady_q, idle_lock|]. intros [] [e1 x1] [S1 S2].
  assert (Hg1 : good (e1, x1)) by by eapply good_steady. clear Hg S1 S2 e x. destruct x1 as [s [w l]].
  apply wp_bind, wp_sio, wp_get_q, wp_bind, wp_engine, wp_ret. split; [done|].
  destruct Hg1 as [[_ Hc] (g & Ht & [_ Hs] & Hk)]. cbn [fst snd] in *.
  unfold storage_cross_slot_writer_decide. destruct (error (queue s)) eqn:He; [done|].
  destruct (_ || _) eqn:Hz; [done|]. destruct (storage_worker_producer_done _) eqn:Hp; [|done]. intros _.
  simpl in Hz. rewrite !orb_false_iff, !negb_false_iff in Hz. destruct Hz as [[Hn Ha] _].
  exists g. cbn [fst snd]. split_and!; [done| | |by apply Hs].
  - apply Permutation_length in Hk. rewrite !length_fmap in Hk. apply nil_length_inv. lia.
  - destruct Ht as [[Hcore _] _ _]. apply nil_length_inv. rewrite (qc_count _ _ Hcore) in Hn. lia.
Qed.
Lemma steady_update_stats : steady (storage_cross_slot_update_stats (W := W * Log)).
Proof.
  apply (steady_bind hands_out known); [done|]. intros e. eapply steady_q, idle_mod. intros s. by apply own_keeps.
Qed.
Lemma after_step_left start rc st :
  taken rc st → wp (after_step observed others start rc) turn_left st.
Proof.
  destruct st as [e x]. intros H. unfold after_step.
  eapply bind_taken; [eapply steady_q, idle_now|exact H|]. clear e x H. intros t [e x] H.
  eapply bind_taken; [eapply steady_q, idle_mod_timing|exact H|]. clear e x H. intros _ [e x] H.
  eapply bind_taken; [apply steady_update_stats|exact H|]. clear e x H. intros _ [e x] [Hg Hk].
  destruct (rc =? 0) eqn:Hrc; simpl negb; cbv iota.
  2:{ apply wp_bind, wp_engine. by apply break_turn. }
  assert (Hg' : good (e, x)) by (apply Hg; lia). apply (good_taken 0) in Hg'. clear Hg Hk.
  eapply bind_taken; [eapply steady_q, idle_now|exact Hg'|]. clear e x Hg' Hrc rc t. intros expected [e x] [Hg _].
  apply wp_bind. eapply wp_mono; [apply decision_left; by apply Hg|]. clear e x Hg. intros d [e x] [Hg Hd].
  destruct d; try by apply wp_ret.
  - apply wp_bind, wp_sio. eapply wp_mono; [eapply idle_empty; [apply idle_event|by apply Hd]|].
    intros [] x' H. by apply wp_ret.
  - apply break_turn. destruct Hg as [_ H]. by eapply hands_known.
Qed.
Lemma step_and_decide_left fuel st :
  good st → wp (step_and_decide observed others fuel) turn_left st.
Proof.
  destruct st as [e x]. intros H. apply (good_taken 0) in H. unfold step_and_decide.
  eapply bind_taken; [eapply steady_q, idle_now|exact H|]. clear e x H. intros start [e x] H.
  eapply bind_taken; [eapply steady_q, idle_get|exact H|]. clear e x H. intros q [e x] [H _].
  apply wp_bind. eapply wp_mono; [apply (step_sound _ _ _ _ _ queue_harmless); by apply H|].
  clear e x H. intros [[rc| |]|rc] st H; [|by apply wp_ret; apply H..|].
  - apply after_step_left. destruct H as [Hrc Hk]. split; [by intros ->|done].
  - by apply after_step_left, good_taken.
Qed.
Lemma steady_can_accept : steady (can_accept others).
Proof.
  apply (steady_bind hands_out known); [apply (steady_load _ _ _ _ _ queue_harmless)|]. intros _.
  by apply (steady_bind hands_out known).
Qed.
Lemma writer_turn_left fuel expected st :
  good st → wp (writer_turn observed others fuel expected) turn_left st.
Proof.
  destruct st as [e x]. intros H. apply (good_taken 0) in H. unfold writer_turn. apply wp_bind, wp_engine.
  cbv zeta. generalize (ccb_hw.active_count e =? 0). intros wait.
  eapply bind_taken; [eapply steady_q, idle_abort_seen|exact H|]. clear e x H. intros aborted [e x] H.
  destruct aborted; [by apply break_turn, H|].
  eapply bind_taken; [|exact H|].
  { destruct wait; [done|]. apply (steady_bind hands_out known); [eapply steady_q, idle_now|]. intros t.
    eapply steady_q, idle_gap. }
  clear e x H. intros _ [e x] H.
  eapply bind_taken; [apply steady_can_accept|exact H|]. clear e x H. intros accepting [e x] [H _].
  specialize (H eq_refl). destruct H as [Ht Hp]. cbn [fst snd] in *. apply wp_bind.
  eapply (wp_mono _ (λ o st, st.1 = e ∧ pop_left (requests e) o st.2)).
  { destruct accepting; [|by apply wp_ret]. apply wp_sio.
    eapply wp_mono; [by apply queue_pop_left|]. by intros o x' H. }
  intros o [e' x'] [He H]. cbn [fst snd] in *. subst e'. destruct o as [[r it]|]; [|by apply wp_ret].
  destruct r; simpl in H; try by apply step_and_decide_left.
  - by apply break_turn.
  - apply wp_bind. eapply wp_mono; [by apply add_popped_left|]. intros [t|] st Hst; [by apply wp_ret|].
    by apply step_and_decide_left.
Qed.
Lemma cross_loop_left fuel : ∀ expected st, good st →
  wp (cross_loop observed others fuel expected) (λ o st,
    match o with Some false => empty_handed st.2 | _ => known st.2 end) st.
Proof.
  induction fuel as [|fuel IH]; intros expected st H; cbn [cross_loop].
  { apply wp_ret. destruct H as [_ H]. by eapply hands_known. }
  apply wp_bind. eapply wp_mono; [by apply writer_turn_left|]. clear st H. intros [t|[]|] st H.
  - by apply IH.
  - by apply wp_ret.
  - by apply wp_ret.
  - by apply wp_ret.
Qed.

(** ** The ends *)
(** What no idle operation undoes. *)
Definition down (x : world) : Prop := ∃ g, tracks x.1 x.2.2 g ∧ error (queue x.1) = true.
Definition lasting (R : world → Prop) : Prop :=
  ∀ A (m : SM A) Q x, idle m Q → R x → wp m (λ _, R) x.
Lemma lasting_known : lasting known.
Proof. intros A m Q x. apply idle_known. Qed.
Lemma lasting_empty : lasting empty_handed.
Proof. intros A m Q x. apply idle_empty. Qed.
Lemma lasting_down : lasting down.
Proof.
  intros A m Q [s [w l]] Hm (g & Ht & He). eapply wp_mono; [by apply Hm|].
  intros _ [s' [w' l']] (g' & HE & _). exists g'. split; [by eapply env_tracks|].
  by apply (ev_error _ _ (env_evolves _ _ _ _ _ _ HE)).
Qed.
Lemma lasting_q {A} (m : SM A) Q R st : lasting R → idle m Q → R st.2 → wp (q_op m) (λ _ st, R st.2) st.
Proof. intros HR Hm H. destruct st as [e x]. apply wp_sio. eapply wp_mono; [by eapply HR|]. done. Qed.
Lemma lasting_quiesced R st : lasting R → R st.2 → wp (set_quiesced (W := W * Log)) (λ _ st, R st.2) st.
Proof.
  intros HR H. destruct st as [e x]. apply wp_bind, wp_engine.
  eapply lasting_q; [done| |done]. apply idle_mod. intros s. by apply own_keeps.
Qed.
Lemma lasting_update_stats R st :
  lasting R → R st.2 → wp (storage_cross_slot_update_stats (W := W * Log)) (λ _ st, R st.2) st.
Proof.
  intros HR H. destruct st as [e x]. apply wp_bind, wp_engine.
  eapply lasting_q; [done| |done]. apply idle_mod. intros s. by apply own_keeps.
Qed.
Lemma lasting_destroy R st :
  lasting R → R st.2 → wp (storage_queue_destroy_engine (W := W * Log) others) (λ _ st, R st.2) st.
Proof.
  intros HR H. apply wp_bind. eapply wp_mono; [by eapply lasting_q; [|apply idle_lock|]|].
  clear st H. intros [] [e [s wl]] H. apply wp_bind, wp_sio, wp_get_q, wp_bind, wp_engine.
  destruct (nvme_engine _); [|by apply wp_ret]. apply wp_bind.
  eapply wp_mono; [eapply lasting_q; [done| |exact H]|by intros [] st H'; apply wp_ret].
  apply idle_mod. intros s'. by apply own_keeps.
Qed.
Lemma abort_left fuel st :
  known st.2 → wp (abort_writer observed others fuel) (λ ok st, ok = true → down st.2) st.
Proof.
  intros H. apply wp_bind. eapply wp_mono; [eapply lasting_q; [apply lasting_known|apply idle_now|done]|].
  clear st H. intros now_us [e [s wl]] H. apply wp_bind, wp_sio, wp_get_q. cbv zeta.
  apply wp_bind, wp_smod, wp_bind. eapply wp_mono; [apply (drain_settled _ _ _ _ _ queue_harmless)|].
  intros r st [_ Hk]. specialize (Hk H). clear e s wl H. revert st Hk.
  assert (Hend : ∀ st, known st.2 →
    wp (let! _ := set_quiesced (W := W * Log) in let! _ := storage_cross_slot_update_stats in
        let! _ := q_op (storage_fail_fatal observed others) in eret true) (λ ok st, ok = true → down st.2) st).
  { intros st H. apply wp_bind. eapply wp_mono; [by apply lasting_quiesced; [apply lasting_known|]|].
    intros [] st1 H1. apply wp_bind. eapply wp_mono; [by apply lasting_update_stats; [apply lasting_known|]|].
    intros [] [e2 [s2 [w2 l2]]] [g2 H2]. cbn [fst snd] in *. apply wp_bind, wp_sio.
    eapply wp_mono; [by apply idle_fail_fatal|]. intros [] x (g3 & HE & He). apply wp_ret. intros _.
    exists g3. split; [by eapply env_tracks|done]. }
  intros st Hk. by destruct r as [[]|]; [apply Hend|apply wp_ret|apply wp_ret|apply Hend].
Qed.
Lemma set_engine_steady : steady (storage_queue_set_engine (W := W * Log) others).
Proof.
  apply (steady_bind hands_out known); [eapply steady_q, idle_lock|intros _].
  apply (steady_bind hands_out known).
  { eapply steady_q, idle_mod. intros s. by apply own_keeps. }
  intros _. apply (steady_bind hands_out known); [eapply steady_q, idle_get|]. intros q.
  destruct (storage_queue_abort_requested q); [|by apply steady_ret].
  apply (steady_modify hands_out known). intros e. apply same_abort.
Qed.
Definition end_left (o : option (WriterEnd * option ccb_hw.NvmeCrossSlotEngine)) (x : world) : Prop :=
  match o with
  | Some (Drained, _) => empty_handed x
  | Some (Failed, _) | Some (SetupFailed, _) => down x
  | _ => True
  end.
Lemma run_engine_left fuel st :
  good st → wp (run_engine observed others fuel) (λ o st, end_left o st.2) st.
Proof.
  destruct st as [e x]. intros H. apply (good_taken 0) in H. unfold run_engine.
  eapply bind_taken; [apply set_engine_steady|exact H|]. clear e x H. intros _ [e x] H.
  eapply bind_taken; [eapply steady_q, idle_writer_ready|exact H|]. clear e x H. intros _ [e x] [H _].
  apply wp_bind. eapply wp_mono; [apply cross_loop_left; by apply H|]. clear e x H.
  intros [failed|] st H; [|by apply wp_ret]. apply wp_bind.
  set (R := if failed then down else empty_handed).
  assert (HR : lasting R) by (destruct failed; [apply lasting_down|apply lasting_empty]).
  eapply (wp_mono _ (λ ok st, ok = true → R st.2)).
  { destruct failed; [by apply abort_left|]. apply wp_bind.
    eapply wp_mono; [by apply lasting_quiesced|]. intros [] st' H'. by apply wp_ret. }
  clear st H. intros [] st H; [|by apply wp_ret]. specialize (H eq_refl). destruct st as [e [s wl]].
  apply wp_bind, wp_sio, wp_get_q, wp_bind. eapply (wp_mono _ (λ _ st, R st.2)).
  - destruct (nvme_engine_quiesced _); [by apply lasting_destroy|]. by apply wp_bind, wp_engine, wp_ret.
  - intros kept st' H'. apply wp_ret. by destruct failed.
Qed.
Lemma idle_setup : idle (setup_failed observed others) any_.
Proof. eapply idle_weaken; [apply idle_setup_failed|done]. Qed.
Lemma setup_left x : known x →
  wp (let! r := setup_failed observed others in eret ((λ e, (e, None)) <$> r)) end_left x.
Proof.
  destruct x as [s [w l]]. intros [g Ht]. apply wp_bind. cbn [fst snd] in *.
  eapply wp_mono; [apply wp_and; [apply setup_failed_value|by apply idle_setup_failed]|].
  intros r x [-> (g' & HE & He)]. apply wp_ret. exists g'. split; [by eapply env_tracks|done].
Qed.
Lemma bind_hands {A B} (m : SM A) (k : A → SM B) P Q rs x :
  idle m P → hands_out rs x → (∀ a x', hands_out rs x' → wp (k a) Q x') → wp (ebind m k) Q x.
Proof. intros Hm H Hk. apply wp_bind. eapply wp_mono; [by eapply idle_hands|]. intros a x'. apply Hk. Qed.
Lemma cross_thread_left fuel er alloc_ok x :
  hands_out [] x →
  wp (storage_nvme_cross_slot_writer_thread observed others fuel er alloc_ok) end_left x.
Proof.
  intros H. unfold storage_nvme_cross_slot_writer_thread.
  eapply bind_hands; [apply idle_wait_run|exact H|]. clear x H. intros [rc|] x H; [|by apply wp_ret].
  destruct (negb (rc =? 0)); [by apply wp_ret|].
  eapply bind_hands; [apply idle_unseen|exact H|]. clear rc x H. intros rc x H.
  destruct (negb (rc =? 0)); [by eapply setup_left, hands_known|].
  eapply bind_hands; [apply idle_get|exact H|]. clear rc x H. intros q x H.
  destruct (if alloc_ok then _ else _) as [e|] eqn:He.
  - assert (Hg : good (e, x)).
    { destruct alloc_ok; [|done]. apply created_ok in He as [Hok Hr]. split; [done|]. cbn [fst snd]. by rewrite Hr. }
    pose proof (run_engine_left fuel (e, x) Hg) as Hrun. unfold wp in *.
    by destruct (run_engine _ _ _ _) as [r [e' x']].
  - eapply bind_hands; [apply idle_reason|exact H|]. clear x H. intros _ x H. by eapply setup_left, hands_known.
Qed.

(** *** The start *)
(** The queue as the task configures it after its creation. *)
Definition configured (c : ccb_hw.NvmeCrossSlotConfig) (abort_us : Z) (q : StorageWriteQueue) :
    StorageWriteQueue := q <| cross_slot_config := c |> <| nvme_abort_timeout_us := abort_us |>.
Lemma init_not_over r a c c' q :
  storage_queue_init r a c = (Some q, c') → worker_state q = WORKER_INIT.
Proof.
  unfold storage_queue_init. destruct (_ =? 0); [done|]. destruct (storage_slot_table_init _ _ _) as [rc t].
  destruct (_ || _); [done|]. unfold ebind. destruct (storage_env_u32_limit _ _ _ c) as [z1 c1].
  destruct (ccb_storage_diag.storage_event_ring_init z1 _); [|done].
  destruct (storage_env_u32_limit _ _ _ c1) as [z2 c2].
  destruct (ccb_storage_diag.storage_event_ring_init z2 _); [|done].
  destruct (storage_env_flag_enabled _ c2) as [b c3]. destruct (negb _); [done|]. by intros [= <- _].
Qed.
Lemma init_hands r a c c' q0 cfg abort_us stop sections (w : W) :
  storage_queue_init r a c = (Some q0, c') → ring_fresh r → Forall (Forall op_wf) sections →
  tidy (concat sections) →
  hands_out [] (mkSys (configured cfg abort_us q0) stop None, (w, mkLog sections [])).
Proof.
  intros Hi Hr Hs Ht. pose proof (init_rep_queue _ _ _ _ _ Hi Hr) as [Hc Hf].
  exists (fresh_ghost (ccb_dma.dma_desc_count (dma r))). split_and!; cbn [fst snd].
  - split; [|done|done]. split; [by eapply core_frame, Hc; split|by destruct Hf].
  - split; [done|]. unfold producer_over. simpl. by rewrite (init_not_over _ _ _ _ _ Hi).
  - done.
Qed.
(** The thread, against the sections of the producer that run between its own. *)
Definition run_cross_writer (fuel : nat) (er : ccb_hw.Runtime) (alloc_ok : bool) (q0 : StorageWriteQueue)
    (stop : bool) (w : W) (sections : list (list producer_op)) :
    option (WriterEnd * option ccb_hw.NvmeCrossSlotEngine) * world :=
  storage_nvme_cross_slot_writer_thread observed others fuel er alloc_ok
    (mkSys q0 stop None, (w, mkLog sections [])).
End Composed.

(** C17: The cross-slot writer delivers: whatever critical sections the producer
    runs between the thread's own, and whatever the device, the clock and the
    DMA registers answer, when the thread ends drained the producer has nothing
    more to push, the queue is empty, no slot is left ready or busy, and the
    slots completed by the engine's callback and the bytes written are those of
    all the slots that were accepted, no more and no fewer; when it ends
    otherwise after its start the queue is in error.  The producer is only
    asked not to push after it has finished. *)
Theorem cross_writer_drains (W : Type) (out : Outside W) (r : ChannelRuntime) (a : Allocations)
    (c c' : storage_config.config_state) (q0 : StorageWriteQueue) (cfg : ccb_hw.NvmeCrossSlotConfig)
    (abort_us : Z) (stop : bool) (w : W) (sections : list (list producer_op)) (fuel : nat)
    (er : ccb_hw.Runtime) (alloc_ok : bool) :
  storage_queue_init r a c = (Some q0, c') → ring_fresh r → Forall (Forall op_wf) sections →
  tidy (concat sections) →
  let '(o, (s, (_, l))) :=
    run_cross_writer out fuel er alloc_ok (configured cfg abort_us q0) stop w sections in
  match o with
  | Some (Drained, _) => offered (concat (script l)) = [] ∧ accounted s l
  | Some (Failed, _) | Some (SetupFailed, _) => error (queue s) = true
  | _ => True
  end.
Proof.
  intros Hi Hr Hs Ht.
  pose proof (init_hands r a c c' q0 cfg abort_us stop sections w Hi Hr Hs Ht) as H.
  apply (cross_thread_left out fuel er alloc_ok) in H. unfold wp in H. unfold run_cross_writer.
  destruct (storage_nvme_cross_slot_writer_thread _ _ _ _ _ _) as [o [s [w' l]]].
  destruct o as [[[] kept]|]; try done; simpl in H.
  - by destruct H as (g & _ & He).
  - by destruct H as (g & _ & He).
  - destruct H as (g & Htr & Hh & Hq & Ho). split; [done|]. by eapply drained_accounted.
Qed.

(** *** A concrete run: two slots pushed while the writer waits, then the end *)
Definition example_device : Outside (Z * list Z) :=
  mkOutside
    (ccb_dma.mkHw (λ off x, (if off =? ccb_dma.S2MM_DMACR then 1 else 0, x)) (λ _ _ x, (tt, x))
       (λ _ _ x, (Z.lor ccb_dma.DESC_STS_CMPLT 512, x)) (λ _ _ _ x, (tt, x)) (λ _ x, (tt, x))
       (λ x, (5, x)) (λ x, (tt, x)))
    (λ _ _ _ _ _ x, (0, x)) (λ _ _ _ _ _ x, (0, x)) (λ x, (0, x)) (λ x, (0, x))
    (λ x, (false, x)) (λ x, (0, x)) cross_slot_safety.fifo_hw.
Definition example_sections : list (list producer_op) :=
  [[OpReady; OpEnableRun]; []; []; [OpProducerReady true; OpRunning; OpHarvest 2 0 false];
   [OpPush [example_item 0 7; example_item 1 9]; OpRequestStop]; [OpLatchStop]; []; [];
   [OpHarvesting; OpFinish]].
Definition example_cross : option (WriterEnd * option ccb_hw.NvmeCrossSlotEngine) * world (W := Z * list Z) :=
  run_cross_writer example_device 60 cross_slot_safety.witness_rt true
    (configured cross_slot_safety.witness_config 0 example_queue) false (0, []) example_sections.
Lemma example_sections_tidy : tidy (concat example_sections).
Proof.
  intros a b H. assert (Hl : concat example_sections =
    [OpReady; OpEnableRun; OpProducerReady true; OpRunning; OpHarvest 2 0 false;
     OpPush [example_item 0 7; example_item 1 9]; OpRequestStop; OpLatchStop; OpHarvesting] ++ OpFinish :: [])
    by reflexivity.
  rewrite Hl in H. clear Hl. do 10 (destruct a as [|? a]; [by injection H as ?; subst|injection H as ? H]).
  by destruct a.
Qed.
Lemma cross_writer_drains_witness :
  let '(o, (s, (w, l))) := example_cross in
  (offered (concat (script l)) = [] ∧ accounted s l) ∧ o = Some (Drained, None) ∧
  accepted (events l) = [example_item 0 7; example_item 1 9] ∧ completed_slot_count (totals (queue s)) = 2.
Proof.
  pose proof (cross_writer_drains (Z * list Z) example_device example_rt example_alloc example_config
    (storage_queue_init example_rt example_alloc example_config).2 example_queue
    cross_slot_safety.witness_config 0 false (0, []) example_sections 60 cross_slot_safety.witness_rt true) as H.
  fold example_cross in H. destruct example_cross as [o [s [w l]]] eqn:E.
  assert (Ho : o = Some (Drained, None)) by (vm_compute in E; by injection E as <- _ _ _). subst o. split.
  { apply H; [|apply example_fresh|repeat constructor; simpl; lia|apply example_sections_tidy].
    rewrite <-example_init. by destruct (storage_queue_init _ _ _). }
  clear H. vm_compute in E. injection E as <- <- <-. by vm_compute.
Defined.
End cross_writer_safety.
