(* ===== verification/NvmeQueue.v ===== *)
(** * The NVMe queue of a channel ([src/src/ccb_hw.c])

    The host core's submission and completion FIFOs behind their registers:
    how a command is written into the registers and its doorbell rung, how the
    completion queue is polled, how a completion is settled, and how commands
    whose acceptance is unknown are drained.  Registers, clock, sleeping and the
    process-wide stop flag are reached through [NvmeHw]. *)
From stdpp Require Import gmap.
From S2P Require Import Prelude StorageError CStdlib Config CcbTypes CrossSlot.

Module nvme_queue.
Import storage_config ccb_hw.

Definition NVME_POLL_SLEEP_US_DEFAULT : Z := 10.
Definition NVME_SUBMIT_STALL_US : Z := 1000.
Definition NVM_WRITE : Z := 1.
Definition NVM_READ : Z := 2.
Definition NVME_CMD_KIB_DEFAULT : Z := 256.

Definition QUEUE_REG_OFFSET : Z := 0x80.
Definition QUEUE_INT_STATUS : Z := 0.
Definition QUEUE_CUR_CQ_CID : Z := 0x0C.
Definition QUEUE_PRP1_L : Z := 0x10.
Definition QUEUE_PRP1_H : Z := 0x14.
Definition QUEUE_CTX0 : Z := 0x20.
Definition QUEUE_CTX1 : Z := 0x24.
Definition QUEUE_LBA_L : Z := 0x28.
Definition QUEUE_LBA_H : Z := 0x2C.
Definition QUEUE_TX_CTRL : Z := 0x30.
Definition QUEUE_TX_STATUS : Z := 0x34.
Definition QUEUE_SQ_PTRS : Z := 0x38.
Definition QUEUE_CQ_PTRS : Z := 0x3C.
Definition QUEUE_TX_CTRL_CMD_PENDING : Z := 1.
Definition QUEUE_CQ_FIFO_EMPTY : Z := 4.
Definition QUEUE_SQ_FIFO_FULL : Z := 2.
Definition GENERIC_NVM_STATUS : Z := 0x14.
Definition GENERIC_MAXLBA_L : Z := 0x18.
Definition GENERIC_MAXLBA_H : Z := 0x1C.
Definition GENERIC_PCIE_LINK_STATUS : Z := 4096.
Definition GENERIC_NVME_LINK_STATUS : Z := 256.

(** ** The channel's NVMe state *)
Inductive NvmeFeedMode : Type := NVME_FEED_MODE_LEGACY | NVME_FEED_MODE_TIGHT.
#[export] Instance NvmeFeedMode_eq_dec : EqDecision NvmeFeedMode.
Proof. solve_decision. Defined.

(** What the configuration and the probe of the device fix. *)
Record Settings : Type := mkSettings {
  cfg : ccb_types.ChannelConfig; dry_run : bool; skip_link_check : bool; timeout_us : Z;
  nvme_block_size : Z; nvme_max_dts_bytes : Z; nvme_cmd_size_bytes : Z; nvme_qd_requested : Z;
  nvme_qd_effective : Z; nvme_feed_mode : NvmeFeedMode; nvme_cq_pop_batch : Z;
  nvme_skip_const_ctx : bool; nvme_busy_poll_us : Z; nvme_poll_sleep_us : Z; dma_ring_bytes : Z }.
#[export] Instance eta_Settings : EtaOf Settings := λ s,
  mkSettings (cfg s) (dry_run s) (skip_link_check s) (timeout_us s) (nvme_block_size s)
    (nvme_max_dts_bytes s) (nvme_cmd_size_bytes s) (nvme_qd_requested s) (nvme_qd_effective s)
    (nvme_feed_mode s) (nvme_cq_pop_batch s) (nvme_skip_const_ctx s) (nvme_busy_poll_us s)
    (nvme_poll_sleep_us s) (dma_ring_bytes s).

(** What the queue counts and times. *)
Record Counters : Type := mkCounters {
  nvme_first_submit_us : Z; nvme_submit_calls : Z; nvme_submit_total_us : Z;
  nvme_submit_pending_wait_us : Z; nvme_submit_sq_full_count : Z; nvme_submit_stall_count : Z;
  nvme_submit_stall_max_us : Z; nvme_cq_poll_calls : Z; nvme_cq_empty_polls : Z;
  nvme_cq_wait_total_us : Z; nvme_cq_pop_total_us : Z; nvme_cq_completed : Z;
  nvme_refill_count : Z; nvme_completion_count : Z }.
#[export] Instance eta_Counters : EtaOf Counters := λ c,
  mkCounters (nvme_first_submit_us c) (nvme_submit_calls c) (nvme_submit_total_us c)
    (nvme_submit_pending_wait_us c) (nvme_submit_sq_full_count c) (nvme_submit_stall_count c)
    (nvme_submit_stall_max_us c) (nvme_cq_poll_calls c) (nvme_cq_empty_polls c)
    (nvme_cq_wait_total_us c) (nvme_cq_pop_total_us c) (nvme_cq_completed c)
    (nvme_refill_count c) (nvme_completion_count c).

(** [base] holds the fields of [ChannelRuntime] that the cross-slot engine
    uses too; [conf] is the state of the process configuration. *)
Record Nvme : Type := mkNvme {
  base : Runtime; set : Settings; cnt : Counters; nvme_ownership_unresolved : bool;
  conf : config_state }.
#[export] Instance eta_Nvme : EtaOf Nvme := λ n,
  mkNvme (base n) (set n) (cnt n) (nvme_ownership_unresolved n) (conf n).

Record NvmeHw (W : Type) : Type := mkHw {
  reg_read32 : Z → Eff W Z;
  reg_write32 : Z → Z → Eff W unit;
  wall_time_us : Eff W Z;
  usleep : Z → Eff W unit;
  sched_yield : Eff W unit;
  nvme_stop_requested : Eff W bool }.
Arguments mkHw {W}. Arguments reg_read32 {W}. Arguments reg_write32 {W}.
Arguments wall_time_us {W}. Arguments usleep {W}. Arguments sched_yield {W}.
Arguments nvme_stop_requested {W}.

(** Leaving an operation early: its status, a division by zero, or the fuel of
    a waiting loop used up. *)
Inductive leave : Type := Return (rc : Z) | DivideByZero | OutOfFuel.

Definition elapsed (start_us now_us : Z) : Z :=
  if now_us <=? start_us then 0
  else if UINT32_MAX <? now_us - start_us then UINT32_MAX else now_us - start_us.

Section Queue.
Context {W : Type} (hw : NvmeHw W).

Definition M (A : Type) : Type := Eff (Nvme * W) A.
Definition get : M Nvme := sget.
Definition mod_base (f : Runtime → Runtime) : M unit := smod (λ n, n <| base ::= f |>).
Definition mod_set (f : Settings → Settings) : M unit := smod (λ n, n <| set ::= f |>).
Definition count_ (f : Counters → Counters) : M unit := smod (λ n, n <| cnt ::= f |>).
Definition return_ {A} (rc : Z) : M (leave + A) := eret (inl (Return rc)).
Definition in_config {A} (m : ceff A) : M A := λ '(n, w),
  let '(a, c) := m (conf n) in (a, (n <| conf := c |>, w)).
Definition rd (off : Z) : M Z := sio (reg_read32 hw (QUEUE_REG_OFFSET + off)).
Definition wr (off v : Z) : M unit := sio (reg_write32 hw (QUEUE_REG_OFFSET + off) v).
Definition now : M Z := sio (wall_time_us hw).
Definition stop_requested : M bool := sio (nvme_stop_requested hw).
Definition pause_us (us : Z) : M unit := sio (usleep hw us).
Definition yield : M unit := sio (sched_yield hw).
Definition elapsed_us_since (start_us : Z) : M Z := let! t := now in eret (elapsed start_us t).
Definition set_last_error (reason : string) : M unit := mod_base (nvme_set_last_error reason).

Definition nvme_poll_pause (start_us : Z) : M unit :=
  let! waited_us := elapsed_us_since start_us in
  let! n := get in
  if waited_us <? nvme_busy_poll_us (set n) then eret tt else
  if nvme_poll_sleep_us (set n) =? 0 then eret tt else pause_us (nvme_poll_sleep_us (set n)).

Definition env_u64_limit (name : string) (fallback max_value : Z) : M Z :=
  let! v := in_config (storage_config_compat_getenv name) in
  eret (match v with
        | Some s =>
          if c_stdlib.non_empty v then
            match c_stdlib.strtoul_full s 0 with
            | Some parsed => if parsed =? 0 then fallback
                             else if max_value <? parsed then max_value else parsed
            | None => fallback
            end
          else fallback
        | None => fallback end).

(** ** Submission *)
Definition record_submit_stall (submit_us : Z) (c : Counters) : Counters :=
  if submit_us <=? NVME_SUBMIT_STALL_US then c
  else c <| nvme_submit_stall_count ::= λ n, u64 (n + 1) |>
         <| nvme_submit_stall_max_us ::= λ m, atomic_update_max_u64 m submit_us |>.

(** The times of a submission that has ended. *)
Definition account_submit (submit_start_us pending_start_us : Z) : M unit :=
  let! submit_us := elapsed_us_since submit_start_us in
  let! wait_us := elapsed_us_since pending_start_us in
  count_ (λ c, record_submit_stall submit_us
    (c <| nvme_submit_pending_wait_us ::= λ n, u64 (n + wait_us) |>
       <| nvme_submit_total_us ::= λ n, u64 (n + submit_us) |>)).
(** The first submission is remembered. *)
Definition note_first_submit : M unit :=
  let! submitted_us := now in
  count_ (λ c, if nvme_first_submit_us c =? 0 then c <| nvme_first_submit_us := submitted_us |> else c).

(** The registers of a command, the doorbell excepted. *)
Definition write_command_tail (cid hw_addr lba : Z) : M unit :=
  let! _ := wr QUEUE_CTX1 cid in
  let! _ := wr QUEUE_PRP1_L (Z.land hw_addr UINT32_MAX) in
  let! _ := wr QUEUE_PRP1_H (u32 (Z.shiftr hw_addr 32)) in
  let! _ := wr QUEUE_LBA_L (Z.land lba UINT32_MAX) in
  wr QUEUE_LBA_H (u32 (Z.shiftr lba 32)).
Definition command_ctx0 (opcode sectors : Z) : Z :=
  Z.lor (u32 (Z.shiftl (u32 (sectors - 1)) 16)) opcode.
Definition ring_doorbell : M unit := wr QUEUE_TX_CTRL QUEUE_TX_CTRL_CMD_PENDING.
Definition tx_pending : M bool :=
  let! v := rd QUEUE_TX_CTRL in eret (negb (Z.land v QUEUE_TX_CTRL_CMD_PENDING =? 0)).
Definition sq_full : M bool :=
  let! v := rd QUEUE_TX_STATUS in eret (negb (Z.land v QUEUE_SQ_FIFO_FULL =? 0)).

(** Waiting until the host core has taken the command. *)
Fixpoint accept_wait (fuel : nat) (submit_start_us pending_start_us : Z) : M (leave + Z) :=
  let! pend := tx_pending in
  if negb pend then
    let! _ := account_submit submit_start_us pending_start_us in
    let! _ := note_first_submit in xret NVME_SUBMIT_ACCEPTED
  else
    let! stopped := stop_requested in
    if (stopped : bool) then
      let! _ := account_submit submit_start_us pending_start_us in
      let! _ := set_last_error "submit_accept_timeout_after_stop" in
      xret NVME_SUBMIT_ACCEPTANCE_UNKNOWN
    else
      let! waited := elapsed_us_since pending_start_us in
      let! n := get in
      if timeout_us (set n) <=? waited then
        let! _ := account_submit submit_start_us pending_start_us in
        let! _ := set_last_error "submit_accept_timeout" in
        let! _ := rd QUEUE_TX_CTRL in
        let! _ := rd QUEUE_TX_STATUS in
        xret NVME_SUBMIT_ACCEPTANCE_UNKNOWN
      else
        let! _ := nvme_poll_pause pending_start_us in
        match fuel with
        | O => eret (inl OutOfFuel)
        | S fuel => accept_wait fuel submit_start_us pending_start_us
        end.

Definition nvme_submit_command_async (fuel : nat) (opcode cid lba sectors hw_addr : Z) :
    M (leave + Z) :=
  let! n := get in
  if (sectors =? 0) || (UINT16_MAX <? sectors) then xret NVME_SUBMIT_NOT_ACCEPTED else
  if dry_run (set n) then xret NVME_SUBMIT_ACCEPTED else
  let! stopped := stop_requested in
  if (stopped : bool) then xret NVME_SUBMIT_STOPPED_BEFORE_DOORBELL else
  let! full := sq_full in
  if (full : bool) then
    let! _ := count_ (λ c, c <| nvme_submit_sq_full_count ::= λ k, u64 (k + 1) |>) in
    xret NVME_SUBMIT_RETRY_SQ_FULL
  else
    let! submit_start_us := now in
    let! _ := count_ (λ c, c <| nvme_submit_calls ::= λ k, u64 (k + 1) |>) in
    let! _ := wr QUEUE_CTX0 (command_ctx0 opcode sectors) in
    let! _ := write_command_tail cid hw_addr lba in
    let! stopped := stop_requested in
    if (stopped : bool) then xret NVME_SUBMIT_STOPPED_BEFORE_DOORBELL else
    let! _ := ring_doorbell in
    let! pending_start_us := now in
    accept_wait fuel submit_start_us pending_start_us.
Definition nvme_submit_write_async (fuel : nat) (cid lba sectors ddr_addr : Z) : M (leave + Z) :=
  nvme_submit_command_async fuel NVM_WRITE cid lba sectors ddr_addr.

(** Waiting without a look at the stop flag; [pending_start_us] is 0 until the
    first reading of the clock. *)
Fixpoint fast_wait (fuel : nat) (pending_start_us : Z) : M (leave + Z) :=
  let! pend := tx_pending in
  if negb pend then xret NVME_SUBMIT_ACCEPTED else
  let! now_us := now in
  let! n := get in
  if negb (pending_start_us =? 0) && (timeout_us (set n) <=? u64 (now_us - pending_start_us)) then
    let! _ := set_last_error "submit_timeout" in xret NVME_SUBMIT_ACCEPTANCE_UNKNOWN
  else
    let pending_start_us := if pending_start_us =? 0 then now_us else pending_start_us in
    let! _ := (if negb (nvme_poll_sleep_us (set n) =? 0) && negb (pending_start_us =? 0) &&
                  (nvme_busy_poll_us (set n) <=? u64 (now_us - pending_start_us))
               then pause_us (nvme_poll_sleep_us (set n)) else eret tt) in
    match fuel with
    | O => eret (inl OutOfFuel)
    | S fuel => fast_wait fuel pending_start_us
    end.

(** The status and the first context word that the registers now hold
    ([None]: unknown); [remember] is false when the caller keeps no cache. *)
Definition nvme_submit_write_fast (fuel : nat) (cid lba sectors hw_addr : Z) (remember : bool)
    (last_ctx0 : option Z) : M (leave + Z * option Z) :=
  let! n := get in
  if (sectors =? 0) || (UINT16_MAX <? sectors) then xret (NVME_SUBMIT_NOT_ACCEPTED, last_ctx0) else
  if dry_run (set n) then xret (NVME_SUBMIT_ACCEPTED, last_ctx0) else
  let! stopped := stop_requested in
  if (stopped : bool) then xret (NVME_SUBMIT_STOPPED_BEFORE_DOORBELL, last_ctx0) else
  let! full := sq_full in
  if (full : bool) then
    let! _ := count_ (λ c, c <| nvme_submit_sq_full_count ::= λ k, u64 (k + 1) |>) in
    xret (NVME_SUBMIT_RETRY_SQ_FULL, last_ctx0)
  else
    let! _ := count_ (λ c, c <| nvme_submit_calls ::= λ k, u64 (k + 1) |>) in
    let ctx0 := command_ctx0 NVM_WRITE sectors in
    let skip := nvme_skip_const_ctx (set n) && remember && bool_decide (last_ctx0 = Some ctx0) in
    let! _ := (if skip then eret tt else wr QUEUE_CTX0 ctx0) in
    let last_ctx0 := if remember && negb skip then Some ctx0 else last_ctx0 in
    let! _ := write_command_tail cid hw_addr lba in
    let! _ := ring_doorbell in
    let? rc := fast_wait fuel 0 in
    if rc =? NVME_SUBMIT_ACCEPTED then
      let! n := get in
      let! _ := (if nvme_first_submit_us (cnt n) =? 0 then note_first_submit else eret tt) in
      xret (rc, last_ctx0)
    else xret (rc, last_ctx0).

(** ** Completions *)
Definition decode_completion (cq : Z) : NvmeCompletion :=
  mkCompletion (Z.land cq 0xFFFF)
    (negb (Z.land (Z.shiftr cq 17) 1 =? 0) || negb (Z.land (Z.shiftr cq 18) 0xFF =? 0)).
Definition cq_empty : M bool :=
  let! v := rd QUEUE_TX_STATUS in eret (negb (Z.land v QUEUE_CQ_FIFO_EMPTY =? 0)).
Definition no_completion : NvmeCompletion := mkCompletion 0 false.
Definition note_empty_poll : M unit := count_ (λ c, c <| nvme_cq_empty_polls ::= λ k, u64 (k + 1) |>).
Definition note_poll : M unit := count_ (λ c, c <| nvme_cq_poll_calls ::= λ k, u64 (k + 1) |>).

(** The status (negative: error, 0: none, 1: popped) and the completion. *)
Definition nvme_try_poll_cq : M (Z * NvmeCompletion) :=
  let! n := get in
  if dry_run (set n) then eret (-1, no_completion) else
  let! _ := note_poll in
  let! stopped := stop_requested in
  if (stopped : bool) then eret (-2, no_completion) else
  let! empty := cq_empty in
  if (empty : bool) then let! _ := note_empty_poll in eret (0, no_completion) else
  let! pop_start_us := now in
  let! cq := rd QUEUE_CUR_CQ_CID in
  let! us := elapsed_us_since pop_start_us in
  let! _ := count_ (λ c, c <| nvme_cq_pop_total_us ::= λ k, u64 (k + us) |>
                           <| nvme_cq_completed ::= λ k, u64 (k + 1) |>) in
  eret (1, decode_completion cq).

Definition nvme_try_poll_cq_fast : M (Z * NvmeCompletion) :=
  let! n := get in
  if dry_run (set n) then eret (-1, no_completion) else
  let! _ := note_poll in
  let! empty := cq_empty in
  if (empty : bool) then let! _ := note_empty_poll in eret (0, no_completion) else
  let! cq := rd QUEUE_CUR_CQ_CID in
  let! _ := count_ (λ c, c <| nvme_cq_completed ::= λ k, u64 (k + 1) |>) in
  eret (1, decode_completion cq).

(** The four status registers that an error report prints. *)
Definition read_status : M unit :=
  let! _ := rd QUEUE_TX_STATUS in let! _ := rd QUEUE_INT_STATUS in
  let! _ := rd QUEUE_SQ_PTRS in let! _ := rd QUEUE_CQ_PTRS in eret tt.

Fixpoint poll_cq_loop (fuel : nat) (start_us timeout : Z) : M (leave + Z * NvmeCompletion) :=
  let! (poll_rc, cpl) := nvme_try_poll_cq in
  if 0 <? poll_rc then
    let! us := elapsed_us_since start_us in
    let! _ := count_ (λ c, c <| nvme_cq_wait_total_us ::= λ k, u64 (k + us) |>) in
    xret (0, cpl)
  else if poll_rc <? 0 then xret (poll_rc, cpl)
  else
    let! waited := elapsed_us_since start_us in
    if timeout <=? waited then
      let! _ := set_last_error "cq_timeout" in
      let! _ := read_status in xret (-1, cpl)
    else
      let! _ := nvme_poll_pause start_us in
      match fuel with O => eret (inl OutOfFuel) | S fuel => poll_cq_loop fuel start_us timeout end.
Definition nvme_poll_cq (fuel : nat) (timeout : Z) : M (leave + Z * NvmeCompletion) :=
  let! n := get in
  if (timeout =? 0) || dry_run (set n) then xret (-1, no_completion) else
  let! start_us := now in poll_cq_loop fuel start_us timeout.

(** *** Settling a completion *)
(** The pending commands, and the context of the slot being written. *)
Record Batch : Type := mkBatch { pend : list NvmePendingCmd; ctx : NvmeSlotWriteContext }.
#[export] Instance eta_Batch : EtaOf Batch := λ b, mkBatch (pend b) (ctx b).

Definition clear_pending (k : nat) (p : NvmePendingCmd) (l : list NvmePendingCmd) : list NvmePendingCmd :=
  <[k := p <| p_valid := false |>]> l.

Definition nvme_handle_write_completion (b : Batch) (cpl : NvmeCompletion) : M (Z * Batch) :=
  let! completion_us := now in
  match nvme_find_pending_by_cid (pend b) (cpl_cid cpl) with
  | None =>
      let! _ := mod_base (nvme_set_error STORAGE_ERR_UNKNOWN_CID "completion_without_pending_cid") in
      eret (-1, b)
  | Some (k, p) =>
    if cpl_error cpl then
      let! _ := set_last_error "completion_status_error" in
      let b := mkBatch (clear_pending k p (pend b))
                 ((ctx b) <| failed_cmds ::= λ n, u32 (n + 1) |>
                        <| inflight_cmds ::= λ n, u32 (n - 1) |>) in
      let! _ := mod_base (λ r, nvme_record_active_qd_event (inflight_cmds (ctx b))
                           (nvme_update_active_qd (inflight_cmds (ctx b)) completion_us r)) in
      eret (-1, b)
    else
      let! _ := mod_base (nvme_record_write_completion p completion_us) in
      let b := mkBatch (clear_pending k p (pend b))
                 ((ctx b) <| completed_cmds ::= λ n, u32 (n + 1) |>
                        <| inflight_cmds ::= λ n, u32 (n - 1) |>) in
      let! _ := mod_base (λ r, nvme_record_active_qd_event (inflight_cmds (ctx b))
                           (nvme_update_active_qd (inflight_cmds (ctx b)) completion_us r)) in
      eret (0, b)
  end.

(** *** Unknown ownership *)
Definition cross_slot_real_reset : M Z :=
  let! n := get in
  let! _ := (if String.eqb (nvme_last_error (base n)) ""
             then set_last_error "nvme_queue_reset_unavailable" else eret tt) in
  eret (-1).
Definition nvme_legacy_reset_unavailable : M Z := cross_slot_real_reset.

Definition mark_unresolved (primary_reason : string) (n : Nvme) : Nvme :=
  let '(p, s) := storage_error_record (nvme_primary_error (base n)) (nvme_secondary_error (base n))
                   STORAGE_ERR_OWNERSHIP in
  let n := n <| nvme_ownership_unresolved := true |>
             <| base ::= λ r, r <| nvme_primary_error := p |> <| nvme_secondary_error := s |> |> in
  if String.eqb (nvme_last_error (base n)) ""
  then n <| base ::= λ r, r <| nvme_last_error := c_snprintf_s 64 primary_reason |> |> else n.
Definition nvme_mark_ownership_unresolved (primary_reason : string) : M unit :=
  smod (mark_unresolved primary_reason).

(** Giving up: the commands still posted may be served at any time. *)
Definition abandon {A} (x : A) : M (leave + (Z * A)) :=
  let! _ := nvme_legacy_reset_unavailable in
  let! _ := nvme_mark_ownership_unresolved "submit_accept_timeout" in xret (-1, x).
Definition drain_pause : M unit :=
  let! n := get in
  if negb (nvme_poll_sleep_us (set n) =? 0) then pause_us (nvme_poll_sleep_us (set n)) else yield.

Fixpoint nvme_drain_ambiguous_legacy_pending (fuel : nat) (deadline_us : Z) (b : Batch) :
    M (leave + Z * Batch) :=
  if negb (0 <? inflight_cmds (ctx b)) then xret (0, b) else
  match fuel with
  | O => eret (inl OutOfFuel)
  | S fuel =>
    let! (poll_rc, cpl) := nvme_try_poll_cq_fast in
    if 0 <? poll_rc then
      let! (rc, b) := nvme_handle_write_completion b cpl in
      if negb (rc =? 0) then abandon b
      else nvme_drain_ambiguous_legacy_pending fuel deadline_us b
    else
      let! late := (if poll_rc <? 0 then eret true
                    else let! t := now in eret (deadline_us <=? t)) in
      if (late : bool) then abandon b else
      let! _ := drain_pause in nvme_drain_ambiguous_legacy_pending fuel deadline_us b
  end.

(** The commands of a contiguous write: pending table, commands in flight and
    completed. *)
Record Tight : Type := mkTight { t_pend : list NvmePendingCmd; active_qd : Z; completed : Z }.
#[export] Instance eta_Tight : EtaOf Tight := λ t, mkTight (t_pend t) (active_qd t) (completed t).

Fixpoint nvme_drain_ambiguous_tight_pending (fuel : nat) (deadline_us : Z) (t : Tight) :
    M (leave + Z * Tight) :=
  if negb (0 <? active_qd t) then xret (0, t) else
  match fuel with
  | O => eret (inl OutOfFuel)
  | S fuel =>
    let! (poll_rc, cpl) := nvme_try_poll_cq_fast in
    if 0 <? poll_rc then
      match nvme_find_pending_by_cid (t_pend t) (cpl_cid cpl) with
      | None =>
          let! _ := set_last_error "completion_without_pending_cid" in abandon t
      | Some (k, p) =>
          let t := t <| t_pend ::= clear_pending k p |> <| active_qd ::= λ n, u32 (n - 1) |> in
          if cpl_error cpl then
            let! _ := set_last_error "completion_status_error" in xret (-1, t)
          else
            let! us := now in
            let! _ := mod_base (nvme_record_write_completion p us) in
            nvme_drain_ambiguous_tight_pending fuel deadline_us (t <| completed ::= λ n, u64 (n + 1) |>)
      end
    else
      let! late := (if poll_rc <? 0 then eret true
                    else let! us := now in eret (deadline_us <=? us)) in
      if (late : bool) then abandon t else
      let! _ := drain_pause in nvme_drain_ambiguous_tight_pending fuel deadline_us t
  end.

(** ** Dry run *)
Definition nvme_simulate_write_qd_payload (sectors payload_bytes command_sectors : Z) : M (leave + Z) :=
  if command_sectors =? 0 then eret (inl DivideByZero) else
  let! n := get in
  let command_count := u64 (u64 (sectors + command_sectors) - 1) / command_sectors in
  let command_bytes := u64 (sectors * NVME_SECTOR_BYTES) in
  let max_qd := if command_count <? nvme_qd_effective (set n) then u32 command_count
                else nvme_qd_effective (set n) in
  let! _ := mod_base (λ r,
    r <| nvme_cmd_count ::= λ k, u64 (k + command_count) |>
      <| nvme_cmd_bytes_total ::= λ k, u64 (k + command_bytes) |>
      <| nvme_write_bytes_done ::= λ k, u64 (k + command_bytes) |>
      <| nvme_payload_bytes_done ::= λ k,
           u64 (k + (if negb (payload_bytes =? 0) then payload_bytes else command_bytes)) |>
      <| active_qd_max := max_qd |>) in
  xret 0.

Definition nvme_reset_active_qd_events : M unit :=
  let! _ := mod_base (λ r, r <| active_qd_event_sum := 0 |> <| active_qd_event_samples := 0 |>
                             <| active_qd_event_min := UINT32_MAX |>) in
  count_ (λ c, c <| nvme_refill_count := 0 |> <| nvme_completion_count := 0 |>).
End Queue.
End nvme_queue.
