(* ===== verification/NvmeConfig.v ===== *)
(** * Configuration and probe of a channel's NVMe queue ([src/src/ccb_hw.c])

    The environment and the profile choose command size, queue depth and
    polling; the device reports its limits; [nvme_configure_runtime] brings the
    two together.  [nvme_probe] waits for the links and reads the capability. *)
From stdpp Require Import gmap pretty.
From S2P Require Import Prelude StorageError CStdlib Config CcbTypes CrossSlot NvmeQueue.

Module nvme_config.
Import c_stdlib storage_config ccb_types ccb_hw nvme_queue.

Definition NVME_BUSY_POLL_US_DEFAULT : Z := 0.
Definition NVME_CMD_KIB_MAX : Z := 4096.
Definition NVME_QD_DEFAULT : Z := 4.
Definition NVME_QD_HIGH_DEFAULT : Z := 8.
Definition NVME_QD_SAFETY_MAX : Z := 32.
Definition GENERIC_REG_OFFSET : Z := 0.

(** ** The environment *)
Definition hw_env_flag_enabled (name : string) : ceff bool :=
  let! v := storage_config_compat_getenv name in
  eret (match v with
        | Some s => negb (bool_decide (s ∈ [""; "0"; "false"; "FALSE"; "no"; "NO"]%string))
        | None => false end).
(** [None]: not set; [Some None]: not a number. *)
Definition env_u64_exact (name : string) : ceff (option (option Z)) :=
  let! v := storage_config_compat_getenv name in
  eret (match v with
        | Some s => if non_empty v then Some (strtoul_full s 0) else None
        | None => None end).
Definition pcie_bridge_base_for_channel (c : ChannelConfig) : ceff Z :=
  let! v := env_u64_exact (c_snprintf_s 64 ("SRC_REAL_PCIE_BRIDGE_BASE_CH" ++ pretty (id c))) in
  eret (match v with Some (Some base) => base | _ => pcie_bridge_base c end).

Definition channel_env (c : ChannelConfig) (prefix : string) (buf_size : nat) : ceff (option string) :=
  storage_config_compat_getenv (c_snprintf_s buf_size (prefix ++ "_CH" ++ pretty (id c))).
(** The channel's own variable, otherwise the common one. *)
Definition channel_or_common (c : ChannelConfig) (prefix : string) (buf_size : nat) : ceff (option string) :=
  let! v := channel_env c prefix buf_size in
  if non_empty v then eret v else storage_config_compat_getenv prefix.
(** The number it holds, when one is set. *)
Definition number_of (v : option string) : option (option Z) :=
  match v with
  | Some s => if non_empty v then Some (strtoul_full s 0) else None
  | None => None end.

Definition parse_channel_u32_env (c : ChannelConfig) (prefix : string) (fallback max_value : Z) : ceff Z :=
  let! v := channel_or_common c prefix 64 in
  eret (match number_of v with
        | Some (Some parsed) => if max_value <? parsed then fallback else parsed
        | _ => fallback end).

Definition parse_storage_ring_bytes (c : ChannelConfig) : ceff Z :=
  let fallback := ccb_types.dma_ring_bytes c in
  let! v := channel_or_common c "SRC_REAL_STORAGE_RING_BYTES" 64 in
  let max_ring_bytes := if (id c =? HIGH_I_CHANNEL_ID) || (id c =? HIGH_Q_CHANNEL_ID)
                        then fallback else ccb_types.dma_ring_bytes_max c in
  eret (match number_of v with
        | Some (Some parsed) =>
            if (parsed =? 0) || negb (parsed mod SECTOR_SIZE =? 0) then fallback
            else if max_ring_bytes <? parsed then fallback else parsed
        | _ => fallback end).

Definition profile_of (c : ChannelConfig) : ceff (option ChannelStorageConfig) :=
  let! conf := storage_config_get in eret (storage_config_channel conf (u32 (id c))).
Definition channel_default_nvme_cmd_kib (c : ChannelConfig) : ceff Z :=
  let! profile := profile_of c in
  eret (match profile with
        | Some p => if command_bytes p mod 1024 =? 0 then command_bytes p / 1024 else NVME_CMD_KIB_DEFAULT
        | None => NVME_CMD_KIB_DEFAULT end).
Definition nvme_default_qd_for_channel (channel_id : Z) : Z :=
  if (channel_id =? HIGH_I_CHANNEL_ID) || (channel_id =? HIGH_Q_CHANNEL_ID)
  then NVME_QD_HIGH_DEFAULT else NVME_QD_DEFAULT.
Definition channel_default_nvme_qd (c : ChannelConfig) : ceff Z :=
  let! profile := profile_of c in
  eret (match profile with Some p => nvme_qd p | None => nvme_default_qd_for_channel (id c) end).

Definition nvme_cmd_kib_allowed (kib : Z) : bool := bool_decide (kib ∈ [256; 512; 1024; 2048; 4096]).
Definition parse_nvme_cmd_kib (c : ChannelConfig) : ceff Z :=
  let! own := channel_env c "SRC_REAL_NVME_CMD_KIB" 48 in
  let! fallback := channel_default_nvme_cmd_kib c in
  let! v := (if non_empty own then eret own else storage_config_compat_getenv "SRC_REAL_NVME_CMD_KIB") in
  eret (match number_of v with
        | Some (Some parsed) => if (UINT32_MAX <? parsed) || negb (nvme_cmd_kib_allowed (u32 parsed))
                                then fallback else u32 parsed
        | _ => fallback end).
Definition parse_nvme_qd (c : ChannelConfig) : ceff Z :=
  let! own := channel_env c "SRC_REAL_NVME_QD" 48 in
  let! fallback := channel_default_nvme_qd c in
  let! v := (if non_empty own then eret own else storage_config_compat_getenv "SRC_REAL_NVME_QD") in
  eret (match number_of v with
        | Some (Some parsed) =>
            if (parsed =? 0) || (NVME_QD_SAFETY_MAX <? parsed) ||
               negb (bool_decide (parsed ∈ [1; 2; 4; 8; 16; 32])) then fallback else u32 parsed
        | _ => fallback end).
Definition parse_nvme_feed_mode (c : ChannelConfig) : ceff NvmeFeedMode :=
  let! v := channel_or_common c "SRC_REAL_NVME_FEED_MODE" 64 in
  eret (if bool_decide (v = Some "tight"%string) then NVME_FEED_MODE_TIGHT else NVME_FEED_MODE_LEGACY).

(** ** The command size *)
Definition safe_limit_of (max_dts_bytes : Z) : Z :=
  let limit := NVME_CMD_KIB_MAX * 1024 in
  let limit := if (0 <? max_dts_bytes) && (max_dts_bytes <? limit) then max_dts_bytes else limit in
  let limit := limit - limit mod NVME_SECTOR_BYTES in
  if limit <? NVME_SECTOR_BYTES then NVME_SECTOR_BYTES else limit.
(** The largest of the sizes, in order, that is within both limits. *)
Fixpoint best_candidate (kibs : list Z) (safe_limit requested effective : Z) : Z :=
  match kibs with
  | [] => effective
  | kib :: kibs =>
      if (safe_limit <? kib * 1024) || (requested <? kib * 1024) then effective
      else best_candidate kibs safe_limit requested (kib * 1024)
  end.
Definition effective_command_bytes (requested_kib max_dts_bytes : Z) : Z :=
  let requested := requested_kib * 1024 in
  let safe_limit := safe_limit_of max_dts_bytes in
  if safe_limit <? requested
  then best_candidate [256; 512; 1024; 2048; 4096] safe_limit requested safe_limit else requested.

Section Probe.
Context {W : Type} (hw : NvmeHw W).
#[local] Abbreviation M := (M (W := W)).

Definition nvme_configure_runtime : M unit :=
  let! n := get in
  let c := cfg (set n) in
  let! requested_kib := in_config (parse_nvme_cmd_kib c) in
  let cmd_bytes := u32 (effective_command_bytes requested_kib (nvme_max_dts_bytes (set n))) in
  let! _ := mod_set (λ s, s <| nvme_cmd_size_bytes := cmd_bytes |>) in
  let! _ := mod_base (λ r, r <| nvme_cmd_sectors := cmd_bytes / NVME_SECTOR_BYTES |>) in
  let! qd := in_config (parse_nvme_qd c) in
  let! _ := mod_set (λ s, s <| nvme_qd_requested := qd |>
                            <| nvme_qd_effective := if NVME_QD_SAFETY_MAX <? qd then NVME_QD_SAFETY_MAX else qd |>) in
  let! mode := in_config (parse_nvme_feed_mode c) in
  let! _ := mod_set (λ s, s <| nvme_feed_mode := mode |>) in
  let! batch := in_config (parse_channel_u32_env c "SRC_REAL_NVME_CQ_POP_BATCH" 1 NVME_QD_SAFETY_MAX) in
  let! _ := mod_set (λ s, s <| nvme_cq_pop_batch := if batch =? 0 then 1 else batch |>) in
  let! diag := in_config (hw_env_flag_enabled "SRC_REAL_NVME_DIAG_TIMING") in
  let! _ := mod_base (λ r, r <| nvme_diag_timing := diag |>) in
  let! skip := in_config (hw_env_flag_enabled "SRC_REAL_NVME_SKIP_CONST_CTX") in
  let! _ := mod_set (λ s, s <| nvme_skip_const_ctx := skip |>) in
  let! busy := in_config (parse_channel_u32_env c "SRC_REAL_NVME_BUSY_POLL_US" NVME_BUSY_POLL_US_DEFAULT 1000000) in
  let! _ := mod_set (λ s, s <| nvme_busy_poll_us := busy |>) in
  let! sleep := in_config (parse_channel_u32_env c "SRC_REAL_NVME_POLL_SLEEP_US" NVME_POLL_SLEEP_US_DEFAULT 1000000) in
  mod_set (λ s, s <| nvme_poll_sleep_us := sleep |>).

(** ** The device *)
Definition rdg (off : Z) : M Z := sio (reg_read32 hw (GENERIC_REG_OFFSET + off)).

Fixpoint wait_loop (fuel : nat) (start_us off mask expected timeout : Z) : M (leave + Z) :=
  match fuel with
  | O => eret (inl OutOfFuel)
  | S fuel =>
      let! waited := elapsed_us_since hw start_us in
      if negb (waited <? timeout) then xret (-1) else
      let! v := rdg off in
      if Z.land v mask =? expected then xret 0 else
      let! _ := pause_us hw NVME_POLL_SLEEP_US_DEFAULT in wait_loop fuel start_us off mask expected timeout
  end.
Definition wait_reg_bits (fuel : nat) (off mask expected timeout : Z) : M (leave + Z) :=
  let! start_us := now hw in wait_loop fuel start_us off mask expected timeout.

Definition nvme_wait_links (fuel : nat) : M (leave + Z) :=
  let! n := get in
  if skip_link_check (set n) then xret 0 else
  let? pcie := wait_reg_bits fuel GENERIC_NVM_STATUS GENERIC_PCIE_LINK_STATUS GENERIC_PCIE_LINK_STATUS (timeout_us (set n)) in
  if negb (pcie =? 0) then let! _ := rdg GENERIC_NVM_STATUS in xret (-1) else
  let? link := wait_reg_bits fuel GENERIC_NVM_STATUS GENERIC_NVME_LINK_STATUS GENERIC_NVME_LINK_STATUS (timeout_us (set n)) in
  if negb (link =? 0) then let! _ := rdg GENERIC_NVM_STATUS in xret (-1) else xret 0.

Definition nvme_read_capability : M Z :=
  let! status := rdg GENERIC_NVM_STATUS in
  let blk_exp := Z.land (Z.shiftr status 29) 0x1F in
  let blocks := Z.land (Z.shiftr status 16) 0x1FFF in
  if 22 <? blk_exp then let! _ := set_last_error "nvme_block_size_invalid" in eret (-1) else
  let block := u32 (Z.shiftl 1 (blk_exp + 9)) in
  let! _ := mod_set (λ s, s <| nvme_block_size := block |>) in
  if negb (block =? NVME_SECTOR_BYTES) then let! _ := set_last_error "nvme_block_size_unsupported" in eret (-1) else
  let blocks := if blocks =? 0 then 512 else blocks in
  if UINT32_MAX <? blocks * block then let! _ := set_last_error "nvme_max_dts_overflow" in eret (-1) else
  let! _ := mod_set (λ s, s <| nvme_max_dts_bytes := u32 (blocks * block) |>) in
  let! lba_l := rdg GENERIC_MAXLBA_L in
  let! lba_h := rdg GENERIC_MAXLBA_H in
  let max_lba := Z.lor (Z.shiftl lba_h 32) lba_l in
  let! _ := mod_base (λ r, r <| nvme_max_lba := max_lba |>) in
  if max_lba =? 0 then let! _ := set_last_error "nvme_capacity_unavailable" in eret (-1) else
  let! _ := rd hw QUEUE_TX_STATUS in
  let! _ := rd hw QUEUE_INT_STATUS in eret 0.

Definition nvme_probe (fuel : nat) : M (leave + Z) :=
  let! n := get in
  if dry_run (set n) then
    let! _ := mod_set (λ s, s <| nvme_block_size := 512 |> <| nvme_max_dts_bytes := NVME_CMD_KIB_MAX * 1024 |>) in
    let! _ := mod_base (λ r, r <| nvme_max_lba := 1024 * 1024 * 1024 |>) in
    let! _ := nvme_configure_runtime in xret 0
  else
    let? links := nvme_wait_links fuel in
    if negb (links =? 0) then xret (-1) else
    let! rc := nvme_read_capability in
    if negb (rc =? 0) then xret (-1) else
    let! _ := nvme_configure_runtime in xret 0.

Definition nvme_reset_sw_timing : M unit :=
  let! _ := count_ (λ c, c <| nvme_submit_calls := 0 |> <| nvme_submit_total_us := 0 |>
    <| nvme_submit_pending_wait_us := 0 |> <| nvme_submit_sq_full_count := 0 |> <| nvme_submit_stall_count := 0 |>
    <| nvme_submit_stall_max_us := 0 |> <| nvme_cq_poll_calls := 0 |> <| nvme_cq_empty_polls := 0 |>
    <| nvme_cq_wait_total_us := 0 |> <| nvme_cq_pop_total_us := 0 |> <| nvme_cq_completed := 0 |>
    <| nvme_refill_count := 0 |> <| nvme_completion_count := 0 |>) in
  mod_base (λ r, r <| active_qd_event_sum := 0 |> <| active_qd_event_samples := 0 |>
                   <| active_qd_event_min := UINT32_MAX |>).
End Probe.

(** ** Addresses *)
Definition cpu_to_hw_addr (c : ChannelConfig) (cpu_addr : Z) : Z :=
  u64 (ddr_hw_base c + u64 (cpu_addr - ddr_cpu_base c)).
Definition ddr_addr_validate (c : ChannelConfig) (cpu_addr size : Z) : Z :=
  let start := ddr_cpu_base c in
  if UINT64_MAX - start <? ddr_cpu_size c then -1 else
  let end_ := start + ddr_cpu_size c in
  if (cpu_addr <? start) || (end_ <=? cpu_addr) then -1 else
  if (0 <? size) && (end_ - cpu_addr <? size) then -1 else 0.
End nvme_config.
