(* ===== verification/NvmeWrite.v ===== *)
(** * The NVMe writers of one slot ([src/src/ccb_hw.c])

    The two ways of writing a contiguous range: the tight loop that keeps the
    submission FIFO full and the slot writer that retires a completion before
    refilling; the synchronous command; the read and write entry point.  The
    loops over the hardware take fuel; the inner loops are bounded by the queue
    depth and by the batch of completions, as in the code. *)
From stdpp Require Import gmap.
From S2P Require Import Prelude StorageError Config CcbTypes CrossSlot WriteQueue NvmeQueue.

Module nvme_write.
Import ccb_hw nvme_queue.
Abbreviation bytes_to_sectors := storage_write_queue.bytes_to_sectors.

(** The status with which an operation ended; [None]: it did not. *)
Definition returned (r : leave + Z) : option Z :=
  match r with inr rc | inl (Return rc) => Some rc | inl _ => None end.

Section Write.
Context {W : Type} (hw : NvmeHw W).

(** ** The tight loop *)
Definition nvme_tight_error (reason : string) : M (W := W) unit :=
  let! _ := set_last_error reason in read_status hw.
Definition tight_fail {A} (reason : string) (rc : Z) : M (leave + A) :=
  let! _ := nvme_tight_error reason in return_ rc.

(** The local variables of the loop. *)
Record Progress : Type := mkProgress {
  tight : Tight; submitted : Z; next_lba : Z; next_ddr : Z; bytes_left : Z;
  no_progress_start_us : Z; last_ctx0 : option Z }.
#[export] Instance eta_Progress : EtaOf Progress := λ p,
  mkProgress (tight p) (submitted p) (next_lba p) (next_ddr p) (bytes_left p)
    (no_progress_start_us p) (last_ctx0 p).

Definition note_refill (active : Z) : M (W := W) unit :=
  let! _ := count_ (λ c, c <| nvme_refill_count ::= λ k, u64 (k + 1) |>) in
  mod_base (nvme_record_active_qd_event active).
Definition submit_stamp : M (W := W) Z :=
  let! n := get in if nvme_diag_timing (base n) then now hw else eret 0.

(** The table entry of the next command of [cmd_bytes]. *)
Definition tight_command (bytes payload_bytes : Z) (cid cmd_bytes submit_us : Z) (p : Progress) :
    NvmePendingCmd :=
  let offset := u64 (bytes - bytes_left p) in
  let remaining := if offset <? payload_bytes then payload_bytes - offset else 0 in
  mkPending true cid NO_SLOT offset (next_lba p) (next_ddr p) (u32 (bytes_to_sectors cmd_bytes)) cmd_bytes
    (u32 (if cmd_bytes <? remaining then cmd_bytes else remaining)) submit_us.

(** A command whose acceptance is unknown. *)
Definition tight_unknown (fuel : nat) (cid : Z) (t : Tight) : M (leave + Progress * bool) :=
  let t := t <| active_qd ::= λ k, u32 (k + 1) |> in
  let! _ := note_refill (active_qd t) in
  let! now_us := now hw in
  let! n := get in
  let deadline_us := u64 (now_us + timeout_us (set n)) in
  if deadline_us <? timeout_us (set n) then return_ (-1) else
  let? (rc, _) := nvme_drain_ambiguous_tight_pending hw fuel deadline_us t in
  if negb (rc =? 0) then return_ (-1)
  else tight_fail "submit_accept_timeout" NVME_SUBMIT_ACCEPTANCE_UNKNOWN.

(** Refilling: at most [k] commands; whether one was submitted. *)
Fixpoint tight_fill (k fuel : nat) (qd bytes payload_bytes total_cmds : Z) (made : bool) (p : Progress) :
    M (leave + Progress * bool) :=
  match k with
  | O => xret (p, made)
  | S k =>
    if negb ((active_qd (tight p) <? qd) && (submitted p <? total_cmds)) then xret (p, made) else
    let! full := sq_full hw in
    if (full : bool) then
      let! _ := count_ (λ c, c <| nvme_submit_sq_full_count ::= λ k, u64 (k + 1) |>) in xret (p, made)
    else
    match nvme_find_free_pending (t_pend (tight p)) with
    | None => tight_fail "submit_timeout" (-1)
    | Some (i, _) =>
      let! n := get in
      let '(cid, r) := nvme_alloc_cid (base n) (t_pend (tight p)) in
      let! _ := mod_base (λ _, r) in
      match cid with
      | None => tight_fail "submit_timeout" (-1)
      | Some cid =>
        if bool_decide (is_Some (nvme_find_pending_by_cid (t_pend (tight p)) cid))
        then tight_fail "duplicate_cid" (-1) else
        let cmd_bytes := if nvme_cmd_size_bytes (set n) <? bytes_left p
                         then nvme_cmd_size_bytes (set n) else bytes_left p in
        if (cmd_bytes =? 0) || (UINT32_MAX <? cmd_bytes) then tight_fail "lba_or_ddr_range" (-1) else
        let! submit_us := submit_stamp in
        let cmd := tight_command bytes payload_bytes cid cmd_bytes submit_us p in
        let t := (tight p) <| t_pend ::= <[i := cmd]> |> in
        let? (rc, cache) := nvme_submit_write_fast hw fuel cid (next_lba p) (p_sectors cmd) (next_ddr p)
                              true (last_ctx0 p) in
        let p := p <| last_ctx0 := cache |> in
        if rc =? NVME_SUBMIT_RETRY_SQ_FULL then
          let! _ := count_ (λ c, c <| nvme_submit_sq_full_count ::= λ k, u64 (k + 1) |>) in
          xret (p <| tight := t <| t_pend ::= clear_pending i cmd |> |>, made)
        else if rc =? NVME_SUBMIT_ACCEPTANCE_UNKNOWN then tight_unknown fuel cid t
        else if negb (rc =? NVME_SUBMIT_ACCEPTED) then
          tight_fail (if rc =? NVME_SUBMIT_STOPPED_BEFORE_DOORBELL
                      then "submit_stopped_before_doorbell" else "submit_failed") rc
        else
          let t := t <| active_qd ::= λ k, u32 (k + 1) |> in
          let! _ := note_refill (active_qd t) in
          tight_fill k fuel qd bytes payload_bytes total_cmds true
            (p <| tight := t |> <| next_lba ::= λ l, u64 (l + p_sectors cmd) |>
               <| next_ddr ::= λ a, u64 (a + cmd_bytes) |>
               <| bytes_left ::= λ b, b - cmd_bytes |> <| submitted ::= λ s, u64 (s + 1) |>
               <| no_progress_start_us := 0 |>)
      end
    end
  end.

(** Retiring at most [k] completions. *)
Fixpoint tight_pop (k : nat) (made : bool) (p : Progress) : M (leave + Progress * bool) :=
  match k with
  | O => xret (p, made)
  | S k =>
    if negb (0 <? active_qd (tight p)) then xret (p, made) else
    let! n := get in
    let! (poll_rc, cpl) := (if nvme_diag_timing (base n) then nvme_try_poll_cq hw else nvme_try_poll_cq_fast hw) in
    if poll_rc <? 0 then tight_fail "cq_error" poll_rc else
    if poll_rc =? 0 then xret (p, made) else
    match nvme_find_pending_by_cid (t_pend (tight p)) (cpl_cid cpl) with
    | None =>
        let! _ := mod_base (nvme_set_error STORAGE_ERR_UNKNOWN_CID "unknown_cid") in
        tight_fail "unknown_cid" (-1)
    | Some (i, e) =>
        if cpl_error cpl then tight_fail "cq_error" (-1) else
        let! us := submit_stamp in
        let! _ := mod_base (nvme_record_write_completion e us) in
        let t := (tight p) <| t_pend ::= clear_pending i e |> <| completed ::= λ c, u64 (c + 1) |>
                           <| active_qd ::= λ a, u32 (a - 1) |> in
        let! _ := count_ (λ c, c <| nvme_completion_count ::= λ k, u64 (k + 1) |>) in
        let! _ := mod_base (nvme_record_active_qd_event (active_qd t)) in
        tight_pop k true (p <| tight := t |> <| no_progress_start_us := 0 |>)
    end
  end.

(** An iteration that neither submitted nor completed anything. *)
Definition tight_idle (p : Progress) : M (leave + Progress) :=
  let! n := get in
  let! p := (if no_progress_start_us p =? 0
             then let! t := now hw in eret (inr (p <| no_progress_start_us := t |>))
             else
               let! waited := elapsed_us_since hw (no_progress_start_us p) in
               if timeout_us (set n) <=? waited then tight_fail "cq_error" (-1) else xret p) in
  match p with
  | inl e => eret (inl e)
  | inr p =>
    let! sleep := (if nvme_poll_sleep_us (set n) =? 0 then eret false else
                   let! waited := elapsed_us_since hw (no_progress_start_us p) in
                   eret (nvme_busy_poll_us (set n) <=? waited)) in
    let! _ := (if (sleep : bool) then pause_us hw (nvme_poll_sleep_us (set n)) else yield hw) in
    xret p
  end.

Fixpoint tight_loop (fuel : nat) (qd bytes payload_bytes total_cmds : Z) (p : Progress) :
    M (leave + Progress) :=
  match fuel with
  | O => eret (inl OutOfFuel)
  | S fuel =>
    if negb (completed (tight p) <? total_cmds) then xret p else
    let? (p, made) := tight_fill (Z.to_nat qd) fuel qd bytes payload_bytes total_cmds false p in
    let! n := get in
    let? (p, made) := tight_pop (Z.to_nat (nvme_cq_pop_batch (set n))) made p in
    if (made : bool) then tight_loop fuel qd bytes payload_bytes total_cmds p else
    if (submitted p <? total_cmds) && (active_qd (tight p) =? 0)
    then tight_loop fuel qd bytes payload_bytes total_cmds p else
    let? p := tight_idle p in
    tight_loop fuel qd bytes payload_bytes total_cmds p
  end.

(** What the writer refuses before the first command. *)
Definition tight_refused (n : Nvme) (ddr_hw_start start_lba bytes : Z) : bool :=
  let s := set n in
  let hw_base := ccb_types.ddr_hw_base (cfg s) in
  (nvme_cmd_size_bytes s =? 0) || (nvme_max_dts_bytes s <? nvme_cmd_size_bytes s) ||
  (ddr_hw_start <? hw_base) || (dma_ring_bytes s <? ddr_hw_start - hw_base) ||
  (dma_ring_bytes s - (ddr_hw_start - hw_base) <? bytes) ||
  ((0 <? nvme_max_lba (base n)) && (nvme_max_lba (base n) <? u64 (start_lba + bytes_to_sectors bytes))).

Definition command_total (size bytes : Z) : Z := u64 (u64 (bytes + size) - 1) / size.
Definition zero_table : list NvmePendingCmd := replicate NVME_PENDING_CAPACITY zero_pending.

Definition nvme_write_contiguous_tight_qd_payload (fuel : nat)
    (ddr_hw_start start_lba bytes payload_bytes qd : Z) : M (leave + Z) :=
  if bytes =? 0 then xret 0 else
  if bytes <? payload_bytes then let! _ := set_last_error "payload_media_mismatch" in xret (-1) else
  if (qd =? 0) || (Z.of_nat NVME_PENDING_CAPACITY <? qd) then tight_fail "invalid_qd" (-1) else
  let! n := get in
  if tight_refused n ddr_hw_start start_lba bytes then tight_fail "lba_or_ddr_range" (-1) else
  if dry_run (set n) then
    nvme_simulate_write_qd_payload (bytes_to_sectors bytes) payload_bytes (nvme_cmd_sectors (base n))
  else
    let! _ := nvme_reset_active_qd_events in
    let total_cmds := command_total (nvme_cmd_size_bytes (set n)) bytes in
    let! _ := mod_base (nvme_record_active_qd_event 0) in
    let? p := tight_loop fuel qd bytes payload_bytes total_cmds
      (mkProgress (mkTight zero_table 0 0) 0 start_lba ddr_hw_start bytes 0 None) in
    if negb (submitted p =? total_cmds) || negb (completed (tight p) =? total_cmds) ||
       negb (active_qd (tight p) =? 0) || negb (bytes_left p =? 0)
    then tight_fail "lba_or_ddr_range" (-1) else xret 0.
Definition nvme_write_contiguous_tight_qd (fuel : nat) (ddr_hw_start start_lba bytes qd : Z) : M (leave + Z) :=
  nvme_write_contiguous_tight_qd_payload fuel ddr_hw_start start_lba bytes bytes qd.
End Write.
End nvme_write.
