(* ===== verification/NvmeSlot.v ===== *)
(** * The slot writer, the synchronous command and [nvme_rw] ([src/src/ccb_hw.c])

    The writer that retires a completion before it refills the queue, the
    entry points that choose between it and the tight loop, and the commands
    issued one at a time that read.  Loops over the hardware take fuel; the
    refill is bounded by the queue depth and the read loop by the sectors. *)
From stdpp Require Import gmap.
From S2P Require Import Prelude StorageError Config CcbTypes CrossSlot NvmeQueue NvmeConfig NvmeWrite.

Module nvme_slot.
Import ccb_hw nvme_queue nvme_write.

Definition default_command_sectors : Z := NVME_CMD_KIB_DEFAULT * 1024 / NVME_SECTOR_BYTES.
(** The command of a context's next sectors. *)
Definition slot_command (c : NvmeSlotWriteContext) (payload_bytes cid command_sectors submit_us : Z) :
    NvmePendingCmd :=
  let slot_offset := u64 (next_submit_sector c * NVME_SECTOR_BYTES) in
  let bytes := u32 (command_sectors * NVME_SECTOR_BYTES) in
  let remaining := if slot_offset <? payload_bytes then payload_bytes - slot_offset else 0 in
  mkPending true cid (c_slot c) slot_offset (u64 (base_lba c + next_submit_sector c))
    (u64 (base_ddr_addr c + slot_offset)) command_sectors bytes
    (u32 (if bytes <? remaining then bytes else remaining)) submit_us.
Definition next_sectors (c : NvmeSlotWriteContext) (command_limit : Z) : Z :=
  let remaining := u64 (total_sectors c - next_submit_sector c) in
  u32 (if command_limit <? remaining then command_limit else remaining).
(** The command is counted as the device's. *)
Definition post_command (command_sectors : Z) (c : NvmeSlotWriteContext) : NvmeSlotWriteContext :=
  c <| next_submit_sector ::= λ n, u64 (n + command_sectors) |>
    <| submitted_cmds ::= λ n, u32 (n + 1) |> <| inflight_cmds ::= λ n, u32 (n + 1) |>.
Definition slot_complete (c : NvmeSlotWriteContext) : bool :=
  (next_submit_sector c =? total_sectors c) && (completed_cmds c =? submitted_cmds c) &&
  (inflight_cmds c =? 0) && (failed_cmds c =? 0).

Section Slot.
Context {W : Type} (hw : NvmeHw W).
#[local] Abbreviation M := (M (W := W)).

Definition command_limit_of : M Z :=
  let! n := get in
  let command_limit := nvme_cmd_sectors (base n) in
  let command_limit := if command_limit =? 0 then default_command_sectors else command_limit in
  env_u64_limit "CCB_NVME_MAX_SECTORS" command_limit command_limit.
Definition fail_with {A} (reason : string) : M (leave + A) :=
  let! _ := set_last_error reason in return_ (-1).
Definition account_active (inflight : Z) : M unit :=
  let! us := now hw in
  mod_base (λ r, nvme_record_active_qd_event inflight (nvme_update_active_qd inflight us r)).
(** A submission that the queue refused for another reason than being full. *)
Definition refused {A} (rc : Z) : M (leave + A) :=
  let! n := get in
  let! _ := (if negb (rc =? NVME_SUBMIT_STOPPED_BEFORE_DOORBELL) && String.eqb (nvme_last_error (base n)) ""
             then set_last_error "async_submit_failed" else eret tt) in return_ rc.
Definition dump_write_timeout_context : M unit := let! _ := now hw in read_status hw.

(** ** The slot writer *)
Definition slot_unknown (fuel : nat) (b : Batch) : M (leave + Batch * bool * bool) :=
  let! _ := account_active (inflight_cmds (ctx b)) in
  let! now_us := now hw in
  let! n := get in
  let deadline_us := u64 (now_us + timeout_us (set n)) in
  if deadline_us <? timeout_us (set n) then return_ (-1) else
  let? (rc, b) := nvme_drain_ambiguous_legacy_pending hw fuel deadline_us b in
  if negb (rc =? 0) then return_ (-1)
  else if slot_complete (ctx b) then return_ 0 else return_ NVME_SUBMIT_ACCEPTANCE_UNKNOWN.

(** At most [k] commands; whether one was submitted and whether the queue was full. *)
Fixpoint slot_fill (k fuel : nat) (qd payload_bytes command_limit : Z) (made : bool) (b : Batch) :
    M (leave + Batch * bool * bool) :=
  match k with
  | O => xret (b, made, false)
  | S k =>
    if negb ((inflight_cmds (ctx b) <? qd) && (next_submit_sector (ctx b) <? total_sectors (ctx b)))
    then xret (b, made, false) else
    match nvme_find_free_pending (pend b) with
    | None => fail_with "pending_or_cid_allocation_failed"
    | Some (i, _) =>
      let! n := get in
      let '(cid, r) := nvme_alloc_cid (base n) (pend b) in
      let! _ := mod_base (λ _, r) in
      match cid with
      | None => fail_with "pending_or_cid_allocation_failed"
      | Some cid =>
        let command_sectors := next_sectors (ctx b) command_limit in
        let! submit_us := submit_stamp hw in
        let cmd := slot_command (ctx b) payload_bytes cid command_sectors submit_us in
        let posted := mkBatch (<[i := cmd]> (pend b)) (post_command command_sectors (ctx b)) in
        let? rc := nvme_submit_write_async hw fuel (p_cid cmd) (p_lba cmd) (p_sectors cmd) (p_ddr_addr cmd) in
        if rc =? NVME_SUBMIT_RETRY_SQ_FULL then
          xret (mkBatch (clear_pending i cmd (<[i := cmd]> (pend b))) (ctx b), made, true)
        else if rc =? NVME_SUBMIT_ACCEPTANCE_UNKNOWN then slot_unknown fuel posted
        else if negb (rc =? NVME_SUBMIT_ACCEPTED) then refused rc
        else
          let! _ := account_active (inflight_cmds (ctx posted)) in
          slot_fill k fuel qd payload_bytes command_limit true posted
      end
    end
  end.

Definition handled {A} (r : Z * A) : M (leave + A) :=
  let '(rc, b) := r in if negb (rc =? 0) then return_ (-1) else xret b.
Definition slot_poll (made : bool) (b : Batch) : M (leave + Batch * bool) :=
  if negb (0 <? inflight_cmds (ctx b)) then xret (b, made) else
  let! (poll_rc, cpl) := nvme_try_poll_cq hw in
  if poll_rc <? 0 then return_ poll_rc
  else if 0 <? poll_rc then
    let! r := nvme_handle_write_completion hw b cpl in
    let? b := handled r in xret (b, true)
  else xret (b, made).

Fixpoint slot_loop (fuel : nat) (qd payload_bytes command_limit : Z) (b : Batch) : M (leave + Batch) :=
  match fuel with
  | O => eret (inl OutOfFuel)
  | S fuel =>
    if negb ((next_submit_sector (ctx b) <? total_sectors (ctx b)) || (0 <? inflight_cmds (ctx b))) then xret b else
    let? (b, made, full) := slot_fill (Z.to_nat qd) fuel qd payload_bytes command_limit false b in
    let? (b, made) := slot_poll made b in
    if (made : bool) then slot_loop fuel qd payload_bytes command_limit b else
    if inflight_cmds (ctx b) =? 0 then fail_with "sq_full_without_software_pending" else
    if negb full && (inflight_cmds (ctx b) <? qd) && (next_submit_sector (ctx b) <? total_sectors (ctx b))
    then slot_loop fuel qd payload_bytes command_limit b else
    let! n := get in
    let? (poll_rc, cpl) := nvme_poll_cq hw fuel (timeout_us (set n)) in
    if negb (poll_rc =? 0) then let! _ := dump_write_timeout_context in return_ poll_rc else
    let! r := nvme_handle_write_completion hw b cpl in
    let? b := handled r in
    slot_loop fuel qd payload_bytes command_limit b
  end.

Definition slot_context (slot lba sectors hw_addr : Z) : NvmeSlotWriteContext :=
  mkCtx slot lba hw_addr (u64 (sectors * NVME_SECTOR_BYTES)) sectors 0 0 0 0 0.

Definition nvme_write_slot_qd_legacy_payload (fuel : nat) (slot lba sectors payload_bytes hw_addr : Z) :
    M (leave + Z) :=
  if sectors =? 0 then xret 0 else
  let! n := get in
  let qd := nvme_qd_effective (set n) in
  if (qd =? 0) || (Z.of_nat NVME_PENDING_CAPACITY <? qd) then return_ (-1) else
  let! command_limit := command_limit_of in
  if dry_run (set n) then nvme_simulate_write_qd_payload sectors payload_bytes command_limit else
  let! _ := nvme_reset_active_qd_events in
  let! _ := mod_base (nvme_record_active_qd_event 0) in
  let? b := slot_loop fuel qd payload_bytes command_limit (mkBatch zero_table (slot_context slot lba sectors hw_addr)) in
  if negb (slot_complete (ctx b)) then fail_with "slot_completion_invariant_failed" else xret 0.

Definition nvme_write_slot_qd_payload (fuel : nat) (slot lba sectors payload_bytes hw_addr : Z) : M (leave + Z) :=
  if sectors =? 0 then xret 0 else
  if UINT64_MAX / NVME_SECTOR_BYTES <? sectors then fail_with "slot_media_byte_overflow" else
  if sectors * NVME_SECTOR_BYTES <? payload_bytes then fail_with "slot_payload_media_mismatch" else
  let! n := get in
  if bool_decide (nvme_feed_mode (set n) = NVME_FEED_MODE_TIGHT)
  then nvme_write_contiguous_tight_qd_payload hw fuel hw_addr lba (sectors * NVME_SECTOR_BYTES) payload_bytes
         (nvme_qd_effective (set n))
  else nvme_write_slot_qd_legacy_payload fuel slot lba sectors payload_bytes hw_addr.
Definition nvme_write_slot_qd (fuel : nat) (slot lba sectors hw_addr : Z) : M (leave + Z) :=
  if UINT64_MAX / NVME_SECTOR_BYTES <? sectors then return_ (-1)
  else nvme_write_slot_qd_payload fuel slot lba sectors (sectors * NVME_SECTOR_BYTES) hw_addr.

(** ** One command at a time *)
(** Submitting until the queue takes the command. *)
Fixpoint sync_submit (tries fuel : nat) (start_us opcode cid lba sectors hw_addr : Z) : M (leave + Z) :=
  let? rc := nvme_submit_command_async hw fuel opcode cid lba sectors hw_addr in
  if negb (rc =? NVME_SUBMIT_RETRY_SQ_FULL) then xret rc else
  let! waited := elapsed_us_since hw start_us in
  let! n := get in
  if timeout_us (set n) <=? waited then return_ (-1) else
  let! _ := nvme_poll_pause hw start_us in
  match tries with
  | O => eret (inl OutOfFuel)
  | S tries => sync_submit tries fuel start_us opcode cid lba sectors hw_addr
  end.
Definition sync_batch (cid lba sectors hw_addr : Z) : Batch :=
  mkBatch [mkPending true cid NO_SLOT 0 lba hw_addr sectors (u32 (sectors * NVME_SECTOR_BYTES)) 0 0]
    (mkCtx NO_SLOT 0 0 0 0 0 1 0 0 1).

Definition nvme_issue_one_sync (fuel : nat) (opcode lba sectors hw_addr : Z) : M (leave + Z) :=
  let! n := get in
  if dry_run (set n) then xret 0 else
  let '(cid, r) := nvme_alloc_cid (base n) [zero_pending] in
  let! _ := mod_base (λ _, r) in
  match cid with
  | None => return_ (-1)
  | Some cid =>
    let! start_us := now hw in
    let? submit_rc := sync_submit fuel fuel start_us opcode cid lba sectors hw_addr in
    if submit_rc =? NVME_SUBMIT_ACCEPTANCE_UNKNOWN then
      let! now_us := now hw in
      let! n := get in
      let deadline_us := u64 (now_us + timeout_us (set n)) in
      if deadline_us <? timeout_us (set n) then return_ (-1) else
      let? (rc, _) := nvme_drain_ambiguous_legacy_pending hw fuel deadline_us (sync_batch cid lba sectors hw_addr) in
      if negb (rc =? 0) then return_ (-1) else
      let! _ := set_last_error "submit_accept_timeout" in xret NVME_SUBMIT_ACCEPTANCE_UNKNOWN
    else if negb (submit_rc =? NVME_SUBMIT_ACCEPTED) then xret submit_rc else
    let! n := get in
    let? (poll_rc, completion) := nvme_poll_cq hw fuel (timeout_us (set n)) in
    if negb (poll_rc =? 0) then xret poll_rc
    else if negb (cpl_cid completion =? cid) then xret (-1)
    else if cpl_error completion then xret (-1) else xret 0
  end.

(** What the caller of a single command makes of an early return. *)
Definition settle (r : leave + Z) : leave + Z :=
  match r with inl (Return rc) => inr rc | r => r end.
Fixpoint read_loop (k fuel : nat) (max_sectors sectors submitted cur_lba cur_hw : Z) : M (leave + Z) :=
  if negb (submitted <? sectors) then xret 0 else
  match k with
  | O => eret (inl OutOfFuel)
  | S k =>
    let rem := sectors - submitted in
    let this_sectors := u16 (if max_sectors <? rem then max_sectors else rem) in
    let! stopped := stop_requested hw in
    if (stopped : bool) then xret (-2) else
    let! r := nvme_issue_one_sync fuel NVM_READ cur_lba this_sectors cur_hw in
    match settle r with
    | inl e => eret (inl e)
    | inr issue_rc =>
      if negb (issue_rc =? 0) then
        if issue_rc =? NVME_SUBMIT_STOPPED_BEFORE_DOORBELL then xret (-2)
        else if issue_rc =? NVME_SUBMIT_ACCEPTANCE_UNKNOWN then
          let! _ := set_last_error "submit_accept_timeout" in xret NVME_SUBMIT_ACCEPTANCE_UNKNOWN
        else xret (-1)
      else read_loop k fuel max_sectors sectors (u64 (submitted + this_sectors)) (u64 (cur_lba + this_sectors))
             (u64 (cur_hw + u64 (this_sectors * NVME_SECTOR_BYTES)))
    end
  end.
Definition nvme_rw (fuel : nat) (is_write : bool) (lba sectors hw_addr : Z) : M (leave + Z) :=
  let! max_sectors := command_limit_of in
  if is_write then nvme_write_slot_qd fuel NO_SLOT lba sectors hw_addr
  else read_loop fuel fuel max_sectors sectors 0 lba hw_addr.
End Slot.

(** ** The callbacks of the cross-slot engine *)
Section Real.
Context {W : Type} (hw : NvmeHw W) (fuel : nat).
#[local] Abbreviation M := (M (W := W)).
(** No cache of the context word is kept. *)
Definition cross_slot_real_submit (cid lba sectors ddr_addr : Z) : M (leave + Z) :=
  let? (rc, _) := nvme_submit_write_fast hw fuel cid lba sectors ddr_addr false None in xret rc.
Definition cross_slot_real_poll : M (Z * NvmeCompletion) := nvme_try_poll_cq_fast hw.
Definition cross_slot_real_time : M Z := now hw.
Definition cross_slot_real_sleep (us : Z) : M unit := pause_us hw us.
Definition cross_slot_real_yield : M unit := yield hw.
End Real.
Definition nvme_cross_slot_engine_create_with_ops (n : Nvme) : option NvmeCrossSlotEngine :=
  nvme_cross_slot_engine_create_with_ops_config (base n)
    (mkConfig 4 (nvme_qd_effective (set n)) (nvme_cq_pop_batch (set n)) 300 (nvme_busy_poll_us (set n))
      (nvme_poll_sleep_us (set n)) (timeout_us (set n))).
End nvme_slot.
