(* ===== verification/NvmeDevice.v ===== *)
(** * What the NVMe device sees

    A run of the queue code against any hardware, observed at the registers:
    a write of the doorbell issues the command that the registers then hold, a
    read of the completion register pops a completion.  [follow] is what the
    device requires of its driver.  The lemmas say what each operation of the
    queue adds to the observation. *)
From stdpp Require Import gmap.
From S2P Require Import Prelude StorageError CStdlib Config CcbTypes CrossSlot CrossSlotSpec CrossSlotSafe NvmeQueue.

Module nvme_device.
Import ccb_hw nvme_queue.

(** ** The device's side *)
Inductive Raw : Type := RegWrite (off v : Z) | CqRead (v : Z).
(** The registers of the command that is being written. *)
Record RegFile : Type := mkRegs { ctx0 : Z; ctx1 : Z; prp_l : Z; prp_h : Z; lba_l : Z; lba_h : Z }.
#[export] Instance eta_RegFile : EtaOf RegFile := λ f,
  mkRegs (ctx0 f) (ctx1 f) (prp_l f) (prp_h f) (lba_l f) (lba_h f).
Record Command : Type := mkCommand { c_op : Z; c_cid : Z; c_lba : Z; c_sectors : Z; c_addr : Z }.
#[export] Instance Command_eq_dec : EqDecision Command.
Proof. solve_decision. Defined.
Inductive Device : Type := Issue (c : Command) | Pop (cpl : NvmeCompletion).

Definition command_of (f : RegFile) : Command :=
  mkCommand (Z.land (ctx0 f) 0xFFFF) (ctx1 f) (lba_l f + Z.shiftl (lba_h f) 32)
    (Z.shiftr (ctx0 f) 16 + 1) (prp_l f + Z.shiftl (prp_h f) 32).
Definition write_reg (off v : Z) (f : RegFile) : RegFile :=
  let reg := off - QUEUE_REG_OFFSET in
  if reg =? QUEUE_CTX0 then f <| ctx0 := v |> else if reg =? QUEUE_CTX1 then f <| ctx1 := v |>
  else if reg =? QUEUE_PRP1_L then f <| prp_l := v |> else if reg =? QUEUE_PRP1_H then f <| prp_h := v |>
  else if reg =? QUEUE_LBA_L then f <| lba_l := v |> else if reg =? QUEUE_LBA_H then f <| lba_h := v |>
  else f.
Definition rings (off v : Z) : bool :=
  (off =? QUEUE_REG_OFFSET + QUEUE_TX_CTRL) && negb (Z.land v QUEUE_TX_CTRL_CMD_PENDING =? 0).
Definition see (st : RegFile * list Device) (e : Raw) : RegFile * list Device :=
  match e with
  | RegWrite off v => if rings off v then (st.1, st.2 ++ [Issue (command_of st.1)])
                      else (write_reg off v st.1, st.2)
  | CqRead v => (st.1, st.2 ++ [Pop (decode_completion v)])
  end.
(** From any content of the registers. *)
Definition device (f : RegFile) (l : list Raw) : RegFile * list Device := foldl see (f, []) l.
Definition issued (l : list Device) : list Command :=
  omap (λ d, match d with Issue c => Some c | Pop _ => None end) l.

(** What the device requires: at most [qd] commands owned by it, with distinct
    identifiers; after an error or a completion that belongs to no command,
    nothing more is issued.  [None]: the driver broke it. *)
Record Owned : Type := mkOwned { owned : list Z; stopped : bool }.
Definition follow_one (qd : Z) (o : Owned) (d : Device) : option Owned :=
  match d with
  | Issue c =>
      if negb (stopped o) && bool_decide (c_cid c ∉ owned o) && (Z.of_nat (length (owned o)) <? qd)
      then Some (mkOwned (c_cid c :: owned o) false) else None
  | Pop cpl =>
      if bool_decide (cpl_cid cpl ∈ owned o)
      then Some (mkOwned (filter (λ c, c ≠ cpl_cid cpl) (owned o)) (stopped o || cpl_error cpl))
      else Some (mkOwned (owned o) true)
  end.
Fixpoint follow (qd : Z) (o : Owned) (l : list Device) : option Owned :=
  match l with
  | [] => Some o
  | d :: l => match follow_one qd o d with Some o => follow qd o l | None => None end
  end.
Definition nothing_owned : Owned := mkOwned [] false.

Lemma follow_app qd o l l' :
  follow qd o (l ++ l') = match follow qd o l with Some o' => follow qd o' l' | None => None end.
Proof. revert o; induction l as [|d l IH]; intros o; [done|]. simpl. by destruct (follow_one qd o d). Qed.
Lemma issued_app l l' : issued (l ++ l') = issued l ++ issued l'.
Proof. apply omap_app. Qed.
Lemma device_app f l l' :
  device f (l ++ l') = foldl see (device f l) l'.
Proof. apply foldl_app. Qed.

(** ** The observed hardware *)
Section Observed.
Context {W : Type} (hw : NvmeHw W).
Definition log_of (off v : Z) : list Raw :=
  if off =? QUEUE_REG_OFFSET + QUEUE_CUR_CQ_CID then [CqRead v] else [].
Definition watch {A} (ev : A → list Raw) (m : Eff W A) : Eff (W * list Raw) A :=
  λ '(w, l), let '(x, w) := m w in (x, (w, l ++ ev x)).
Definition watched : NvmeHw (W * list Raw) :=
  mkHw (λ off, watch (log_of off) (reg_read32 hw off))
    (λ off v, watch (λ _, [RegWrite off v]) (reg_write32 hw off v))
    (watch (λ _, []) (wall_time_us hw)) (λ us, watch (λ _, []) (usleep hw us))
    (watch (λ _, []) (sched_yield hw)) (watch (λ _, []) (nvme_stop_requested hw)).

(** ** Operations that the device does not see *)
(** What such an operation leaves alone. *)
Definition alike (n n' : Nvme) : Prop :=
  set n' = set n ∧ next_cmd_id (base n') = next_cmd_id (base n) ∧
  nvme_cmd_sectors (base n') = nvme_cmd_sectors (base n).
#[export] Instance alike_preorder : PreOrder alike.
Proof. split; [by intros n|]. intros n1 n2 n3 (?&?&?) (?&?&?). split_and!; congruence. Qed.
Definition quiet {A} (m : M (W := W * list Raw) A) : Prop :=
  ∀ n w l, wp m (λ _ st, alike n st.1 ∧ st.2.2 = l) (n, (w, l)).

Lemma quiet_ret {A} (x : A) : quiet (eret x).
Proof. done. Qed.
Lemma quiet_bind {A B} (m : M A) (k : A → M B) : quiet m → (∀ x, quiet (k x)) → quiet (ebind m k).
Proof.
  intros Hm Hk n w l. apply wp_bind. eapply wp_mono; [apply Hm|]. intros x [n1 [w1 l1]] [H1 H2]. simpl in *. subst l1.
  eapply wp_mono; [apply Hk|]. intros y st [H3 H4]. split; [by etrans|done].
Qed.
Lemma quiet_xbind {A B} (m : M (leave + A)) (k : A → M (leave + B)) :
  quiet m → (∀ x, quiet (k x)) → quiet (let? x := m in k x).
Proof. intros Hm Hk. apply quiet_bind; [done|]. intros [e|x]; [apply quiet_ret|apply Hk]. Qed.
Lemma quiet_get : quiet get.
Proof. done. Qed.
Lemma quiet_count f : quiet (count_ f).
Proof. done. Qed.
Lemma quiet_base f : (∀ r, next_cmd_id (f r) = next_cmd_id r ∧ nvme_cmd_sectors (f r) = nvme_cmd_sectors r) →
  quiet (mod_base f).
Proof. intros H n w l. split; [|done]. split; [done|]. apply H. Qed.
Lemma quiet_watch {A} (m : Eff W A) : quiet (sio (watch (λ _, []) m)).
Proof.
  intros n w l. unfold wp, sio, watch. destruct (m w). simpl. split; [done|]. by rewrite app_nil_r.
Qed.
Lemma quiet_rd off : off ≠ QUEUE_CUR_CQ_CID → quiet (rd watched off).
Proof.
  intros Hoff n w l. unfold wp, rd, sio, watched, watch, log_of. simpl. destruct (reg_read32 hw _ w). simpl.
  replace (_ =? _) with false by lia. by rewrite app_nil_r.
Qed.
Lemma quiet_now : quiet (now watched).
Proof. apply quiet_watch. Qed.
Lemma quiet_config {A} (m : storage_config.ceff A) : quiet (in_config m).
Proof. intros n w l. unfold wp, in_config. by destruct (m (conf n)). Qed.

Lemma set_error_alike code reason r :
  next_cmd_id (nvme_set_error code reason r) = next_cmd_id r ∧
  nvme_cmd_sectors (nvme_set_error code reason r) = nvme_cmd_sectors r.
Proof. unfold nvme_set_error. destruct (storage_error_record _ _ _). by case_match. Qed.
Lemma quiet_set_error code reason : quiet (mod_base (nvme_set_error code reason)).
Proof. apply quiet_base, set_error_alike. Qed.
Lemma quiet_last_error reason : quiet (set_last_error reason).
Proof. apply quiet_set_error. Qed.
Lemma completion_alike p us r :
  next_cmd_id (nvme_record_write_completion p us r) = next_cmd_id r ∧
  nvme_cmd_sectors (nvme_record_write_completion p us r) = nvme_cmd_sectors r.
Proof. unfold nvme_record_write_completion. by case_match. Qed.
Lemma active_alike a us r :
  next_cmd_id (nvme_update_active_qd a us r) = next_cmd_id r ∧
  nvme_cmd_sectors (nvme_update_active_qd a us r) = nvme_cmd_sectors r.
Proof. unfold nvme_update_active_qd. by case_match. Qed.
Lemma quiet_unresolved reason : quiet (nvme_mark_ownership_unresolved reason).
Proof.
  intros n w l. unfold nvme_mark_ownership_unresolved, wp. simpl. split; [|done].
  unfold mark_unresolved. destruct (storage_error_record _ _ _). by case_match.
Qed.

End Observed.

Ltac quiet_step := lazymatch goal with
  | |- quiet (ebind _ _) => apply quiet_bind; [|intros]
  | |- quiet (xbind _ _) => apply quiet_xbind; [|intros]
  | |- quiet (eret _) => apply quiet_ret
  | |- quiet (xret _) => apply quiet_ret
  | |- quiet (return_ _) => apply quiet_ret
  | |- quiet get => apply quiet_get
  | |- quiet (count_ _) => apply quiet_count
  | |- quiet (now _) => apply quiet_now
  | |- quiet (stop_requested _) => apply quiet_watch
  | |- quiet (pause_us _ _) => apply quiet_watch
  | |- quiet (yield _) => apply quiet_watch
  | |- quiet (in_config _) => apply quiet_config
  | |- quiet (set_last_error _) => apply quiet_last_error
  | |- quiet (rd _ _) => apply quiet_rd; done
  | |- quiet (nvme_mark_ownership_unresolved _) => apply quiet_unresolved
  | |- quiet (if ?b then _ else _) => destruct b
  | |- quiet (match ?x with _ => _ end) => destruct x
  end.
Ltac quiet := repeat quiet_step.

Section Operations.
Context {W : Type} (hw : NvmeHw W).
#[local] Abbreviation watched := (watched hw).

Lemma quiet_elapsed us : quiet (elapsed_us_since watched us).
Proof. unfold elapsed_us_since. quiet. Qed.
Lemma quiet_pause us : quiet (nvme_poll_pause watched us).
Proof. unfold nvme_poll_pause. quiet. apply quiet_elapsed. Qed.
Lemma quiet_env name a b : quiet (W := W) (env_u64_limit name a b).
Proof. unfold env_u64_limit. quiet. Qed.
Lemma quiet_account a b : quiet (account_submit watched a b).
Proof. unfold account_submit. quiet; apply quiet_elapsed. Qed.
Lemma quiet_first : quiet (note_first_submit watched).
Proof. unfold note_first_submit. quiet. Qed.
Lemma quiet_sq_full : quiet (sq_full watched).
Proof. unfold sq_full. quiet. Qed.
Lemma quiet_cq_empty : quiet (cq_empty watched).
Proof. unfold cq_empty. quiet. Qed.
Lemma quiet_tx_pending : quiet (tx_pending watched).
Proof. unfold tx_pending. quiet. Qed.
Lemma quiet_status : quiet (read_status watched).
Proof. unfold read_status. quiet. Qed.
Lemma quiet_drain_pause : quiet (drain_pause watched).
Proof. unfold drain_pause. quiet. Qed.
Lemma quiet_abandon {A} (x : A) : quiet (W := W) (abandon x).
Proof. unfold abandon, nvme_legacy_reset_unavailable, cross_slot_real_reset. quiet. Qed.
Lemma quiet_accept_wait fuel a b : quiet (accept_wait watched fuel a b).
Proof.
  induction fuel as [|fuel IH]; cbn [accept_wait]; quiet;
    first [apply quiet_tx_pending|apply quiet_account|apply quiet_first|apply quiet_elapsed|apply quiet_pause|apply IH].
Qed.
Lemma quiet_fast_wait fuel us : quiet (fast_wait watched fuel us).
Proof.
  revert us; induction fuel as [|fuel IH]; intros us; cbn [fast_wait]; quiet;
    first [apply quiet_tx_pending|apply IH].
Qed.
Lemma quiet_simulate a b c : quiet (W := W) (nvme_simulate_write_qd_payload a b c).
Proof. unfold nvme_simulate_write_qd_payload. quiet. by apply quiet_base. Qed.
Lemma quiet_reset_events : quiet (W := W) nvme_reset_active_qd_events.
Proof. unfold nvme_reset_active_qd_events. quiet. by apply quiet_base. Qed.

Lemma bind_quiet {A B} (m : M (W := W * list Raw) A) (k : A → M B) Q n w l :
  quiet m → (∀ x n' w', alike n n' → wp (k x) Q (n', (w', l))) → wp (ebind m k) Q (n, (w, l)).
Proof.
  intros Hm Hk. apply wp_bind. eapply wp_mono; [apply Hm|]. intros x [n1 [w1 l1]] [H1 H2]. simpl in *. subst l1.
  by apply Hk.
Qed.
Lemma bind_get {B} (k : Nvme → M (W := W * list Raw) B) Q n w l : wp (k n) Q (n, (w, l)) → wp (ebind get k) Q (n, (w, l)).
Proof. done. Qed.
Lemma wp_quiet {A} (m : M (W := W * list Raw) A) Q n w l :
  quiet m → (∀ x n' w', alike n n' → Q x (n', (w', l))) → wp m Q (n, (w, l)).
Proof.
  intros Hm HQ. eapply wp_mono; [apply Hm|]. intros x [n1 [w1 l1]] [H1 H2]. simpl in *. subst l1. by apply HQ.
Qed.

(** ** Issuing a command *)
Context (f : RegFile).
#[local] Abbreviation seen l := (device f l).
Definition cache_ok (cache : option Z) (r : RegFile) : Prop := ∀ c, cache = Some c → ctx0 r = c.

Lemma bind_wr {B} off v (k : unit → M B) Q n w l :
  (∀ w', wp (k tt) Q (n, (w', l ++ [RegWrite (QUEUE_REG_OFFSET + off) v]))) →
  wp (ebind (wr watched off v) k) Q (n, (w, l)).
Proof. intros H. apply wp_bind. unfold wp at 1, wr, sio, watched, watch. simpl. destruct (reg_write32 hw _ _ w) as [[] w1]. apply H. Qed.
Lemma seen_write l off v :
  rings off v = false → seen (l ++ [RegWrite off v]) = (write_reg off v (seen l).1, (seen l).2).
Proof. intros H. rewrite device_app. simpl. unfold see. by rewrite H. Qed.
Lemma seen_doorbell l :
  seen (l ++ [RegWrite (QUEUE_REG_OFFSET + QUEUE_TX_CTRL) QUEUE_TX_CTRL_CMD_PENDING]) =
  ((seen l).1, (seen l).2 ++ [Issue (command_of (seen l).1)]).
Proof. by rewrite device_app. Qed.
Lemma seen_read l v : seen (l ++ [CqRead v]) = ((seen l).1, (seen l).2 ++ [Pop (decode_completion v)]).
Proof. by rewrite device_app. Qed.

Lemma command_decode op cid lba sectors addr :
  0 <= op <= 0xFFFF → 1 <= sectors <= UINT16_MAX → is_u64 lba → is_u64 addr →
  command_of (mkRegs (command_ctx0 op sectors) cid (Z.land addr UINT32_MAX) (u32 (Z.shiftr addr 32))
    (Z.land lba UINT32_MAX) (u32 (Z.shiftr lba 32))) = mkCommand op cid lba sectors addr.
Proof.
  intros Hop Hs Hl Ha. unfold command_of, command_ctx0. simpl.
  assert (Hjoin : ∀ x, is_u64 x → Z.land x UINT32_MAX + Z.shiftl (u32 (Z.shiftr x 32)) 32 = x).
  { intros x Hx. change UINT32_MAX with (Z.ones 32). rewrite Z.land_ones, Z.shiftr_div_pow2, Z.shiftl_mul_pow2 by lia.
    assert (0 <= x / 2 ^ 32 < 2 ^ 32).
    { split; [apply Z.div_pos; [cint|lia]|]. apply Z.div_lt_upper_bound; [lia|]. cint. }
    rewrite u32_small by cint. pose proof (Z.div_mod x (2 ^ 32)). lia. }
  rewrite !Hjoin by done.
  assert (Hw : u32 (Z.shiftl (u32 (sectors - 1)) 16) = Z.shiftl (sectors - 1) 16).
  { rewrite (u32_small (sectors - 1)) by cint. apply u32_small. rewrite Z.shiftl_mul_pow2 by lia. cint. }
  rewrite Hw. f_equal.
  - change 0xFFFF with (Z.ones 16). rewrite Z.land_lor_distr_l, !Z.land_ones, Z.shiftl_mul_pow2 by lia.
    rewrite Z.mod_mul, Z.lor_0_l by lia. apply Z.mod_small. lia.
  - rewrite Z.shiftr_lor, Z.shiftr_shiftl_l by lia. replace (Z.shiftl _ (16 - 16)) with (sectors - 1) by (by rewrite Z.shiftl_0_r).
    rewrite (Z.shiftr_div_pow2 op), Z.div_small, Z.lor_0_r by lia. lia.
Qed.

(** Writing a command leaves it in the registers; the doorbell issues it. *)
Lemma tail_spec cid addr lba n w l :
  wp (write_command_tail watched cid addr lba) (λ _ st, st.1 = n ∧
    seen st.2.2 = (mkRegs (ctx0 (seen l).1) cid (Z.land addr UINT32_MAX) (u32 (Z.shiftr addr 32))
                     (Z.land lba UINT32_MAX) (u32 (Z.shiftr lba 32)), (seen l).2)) (n, (w, l)).
Proof.
  unfold write_command_tail. do 4 (apply bind_wr; intros ?).
  unfold wp, wr, sio, watched, watch. simpl. destruct (reg_write32 hw _ _ _) as [[] ?]. simpl. split; [done|].
  by rewrite !seen_write.
Qed.
(** What a submission can have done. *)
Definition submitted_as (op cid lba sectors addr : Z) (l l' : list Raw) : Prop :=
  (seen l').2 = (seen l).2 ++ [Issue (mkCommand op cid lba sectors addr)].
Definition fast_post (n : Nvme) (cid lba sectors addr : Z) (cache : option Z) (l : list Raw)
    (r : leave + Z * option Z) (st : Nvme * (W * list Raw)) : Prop :=
  alike n st.1 ∧
  match r with
  | inl e => e = OutOfFuel ∧ submitted_as NVM_WRITE cid lba sectors addr l st.2.2
  | inr (rc, cache') =>
      if bool_decide (rc = NVME_SUBMIT_ACCEPTED ∨ rc = NVME_SUBMIT_ACCEPTANCE_UNKNOWN)
      then submitted_as NVM_WRITE cid lba sectors addr l st.2.2 ∧ cache_ok cache' (seen st.2.2).1
      else st.2.2 = l ∧ cache' = cache
  end.
Lemma fast_wait_codes fuel us st :
  wp (fast_wait watched fuel us) (λ r _, r = inl OutOfFuel ∨ r = inr NVME_SUBMIT_ACCEPTED ∨
    r = inr NVME_SUBMIT_ACCEPTANCE_UNKNOWN) st.
Proof.
  revert us st; induction fuel as [|fuel IH]; intros us st; cbn [fast_wait];
    apply wp_bind; (eapply (wp_mono _ (λ _ _, True)); [done|]); intros pend st1 _; (destruct (negb pend); [apply wp_ret; by right; left|]);
    apply wp_bind; (eapply (wp_mono _ (λ _ _, True)); [done|]); intros t st2 _;
    apply wp_bind; (eapply (wp_mono _ (λ _ _, True)); [done|]); intros n st3 _; destruct (_ && _);
    apply wp_bind; (eapply (wp_mono _ (λ _ _, True)); [done|]); intros ? st4 _;
    try (apply wp_ret; by right; right).
  - apply wp_ret. by left.
  - apply IH.
Qed.
Lemma submit_fast_spec fuel cid lba sectors addr cache n w l :
  dry_run (set n) = false → is_u64 lba → is_u64 addr → 0 <= sectors → cache_ok cache (seen l).1 →
  wp (nvme_submit_write_fast watched fuel cid lba sectors addr true cache)
    (fast_post n cid lba sectors addr cache l) (n, (w, l)).
Proof.
  intros Hdry Hl Ha Hs Hc. unfold nvme_submit_write_fast.
  apply bind_get. destruct (_ || _) eqn:Hsec; [by apply wp_ret|]. rewrite Hdry.
  apply bind_quiet; [apply quiet_watch|]. intros stop n1 w1 H1. destruct stop; [by apply wp_ret|].
  apply bind_quiet; [apply quiet_sq_full|]. intros full n2 w2 H2. destruct full.
  { apply bind_quiet; [apply quiet_count|]. intros [] n3 w3 H3. apply wp_ret. split; [|done].
    by etrans; [|etrans]. }
  apply bind_quiet; [apply quiet_count|]. intros [] n3 w3 H3.
  assert (H : alike n n3) by (by etrans; [|etrans]). clear H1 H2 H3 n1 n2.
  set (ctx := command_ctx0 NVM_WRITE sectors). set (skip := _ && _).
  set (cache' := if true && negb skip then Some ctx else cache).
  apply wp_bind. eapply (wp_mono _ (λ _ st, st.1 = n3 ∧ (seen st.2.2).2 = (seen l).2 ∧ ctx0 (seen st.2.2).1 = ctx ∧ cache' = Some ctx)).
  { destruct skip eqn:Hskip.
    - apply andb_true_iff in Hskip as [_ Hb%bool_decide_eq_true]. apply wp_ret. split_and!; try done.
      by apply Hc.
    - unfold wp, wr, sio, watched, watch. simpl. destruct (reg_write32 hw _ _ _) as [[] ?]. simpl.
      by rewrite seen_write. }
  intros [] [n4 [w4 l4]] (Hn & Hs4 & Hx & Hcache). cbn [fst snd] in *. subst n4.
  apply wp_bind. eapply wp_mono; [apply tail_spec|]. intros [] [n5 [w5 l5]] [Hn Hs5]. cbn [fst snd] in *. subst n5.
  apply bind_wr. intros w6. set (l6 := l5 ++ _).
  assert (Hl6 : submitted_as NVM_WRITE cid lba sectors addr l l6 ∧ cache_ok cache' (seen l6).1).
  { unfold l6. unfold submitted_as. rewrite seen_doorbell, Hs5. cbn [fst snd]. rewrite Hx, Hs4. unfold ctx.
    rewrite command_decode; [|unfold NVM_WRITE; lia|cint|done|done]. split; [done|]. rewrite Hcache. by intros c [= <-]. }
  apply wp_bind. eapply wp_mono; [apply wp_and; [apply fast_wait_codes|apply quiet_fast_wait]|].
  intros r [n7 [w7 l7]] [Hr [H7 Hl7]]. cbn [fst snd] in *. subst l7.
  assert (Hn7 : alike n n7) by by etrans.
  destruct Hr as [->|[->| ->]].
  { apply wp_ret. split; [done|]. split; [done|apply Hl6]. }
  2:{ apply wp_ret. by split. }
  change (NVME_SUBMIT_ACCEPTED =? NVME_SUBMIT_ACCEPTED) with true. cbv iota. apply bind_get. apply bind_quiet.
  { destruct (nvme_first_submit_us _ =? 0); [apply quiet_first|apply quiet_ret]. }
  intros [] n8 w8 H8. apply wp_ret. split; [by etrans|done].
Qed.
Definition async_post (n : Nvme) (op cid lba sectors addr : Z) (l : list Raw)
    (r : leave + Z) (st : Nvme * (W * list Raw)) : Prop :=
  alike n st.1 ∧
  match r with
  | inl e => e = OutOfFuel ∧ submitted_as op cid lba sectors addr l st.2.2
  | inr rc =>
      if bool_decide (rc = NVME_SUBMIT_ACCEPTED ∨ rc = NVME_SUBMIT_ACCEPTANCE_UNKNOWN)
      then submitted_as op cid lba sectors addr l st.2.2 else (seen st.2.2).2 = (seen l).2
  end.
Lemma accept_wait_codes fuel a b st :
  wp (accept_wait watched fuel a b) (λ r _, r = inl OutOfFuel ∨ r = inr NVME_SUBMIT_ACCEPTED ∨
    r = inr NVME_SUBMIT_ACCEPTANCE_UNKNOWN) st.
Proof.
  revert st; induction fuel as [|fuel IH]; intros st; cbn [accept_wait];
    repeat (lazymatch goal with
      | |- wp (ebind _ _) _ _ => apply wp_bind; eapply (wp_mono _ (λ _ _, True)); [done|]; intros ? ? _
      | |- wp (if ?b then _ else _) _ _ => destruct b
      | |- wp (xret _) _ _ => apply wp_ret; tauto
      | |- wp (eret _) _ _ => apply wp_ret; tauto
      end); apply IH.
Qed.
Lemma submit_async_spec fuel op cid lba sectors addr n w l :
  0 <= op <= 0xFFFF → dry_run (set n) = false → is_u64 lba → is_u64 addr → 0 <= sectors →
  wp (nvme_submit_command_async watched fuel op cid lba sectors addr)
    (async_post n op cid lba sectors addr l) (n, (w, l)).
Proof.
  intros Hop Hdry Hl Ha Hs. unfold nvme_submit_command_async.
  apply bind_get. destruct (_ || _) eqn:Hsec; [by apply wp_ret|]. rewrite Hdry.
  apply bind_quiet; [apply quiet_watch|]. intros stop n1 w1 H1. destruct stop; [by apply wp_ret|].
  apply bind_quiet; [apply quiet_sq_full|]. intros full n2 w2 H2. destruct full.
  { apply bind_quiet; [apply quiet_count|]. intros [] n3 w3 H3. apply wp_ret. split; [|done].
    by etrans; [|etrans]. }
  apply bind_quiet; [apply quiet_now|]. intros start n3 w3 H3.
  apply bind_quiet; [apply quiet_count|]. intros [] n4 w4 H4.
  assert (H : alike n n4) by (by etrans; [|etrans; [|etrans]]). clear H1 H2 H3 H4 n1 n2 n3.
  apply bind_wr. intros w5. apply wp_bind. eapply wp_mono; [apply tail_spec|].
  intros [] [n6 [w6 l6]] [Hn Hs6]. cbn [fst snd] in *. subst n6. rewrite seen_write in Hs6 by done.
  apply bind_quiet; [apply quiet_watch|]. intros stop n7 w7 H7. destruct stop.
  { apply wp_ret. split; [by etrans|]. cbn [fst snd]. by rewrite Hs6. }
  apply bind_wr. intros w8. set (l8 := l6 ++ _).
  assert (Hl8 : submitted_as op cid lba sectors addr l l8).
  { unfold l8, submitted_as. rewrite seen_doorbell, Hs6. cbn [fst snd].
    change (ctx0 (write_reg _ _ _)) with (command_ctx0 op sectors).
    by rewrite command_decode; [|done|cint..]. }
  apply bind_quiet; [apply quiet_now|]. intros pending n9 w9 H9.
  eapply wp_mono; [apply wp_and; [apply accept_wait_codes|apply quiet_accept_wait]|].
  intros r st [Hr [H10 Hl10]]. split; [by etrans; [|etrans; [|etrans]]|]. rewrite Hl10.
  by destruct Hr as [->|[->| ->]].
Qed.

(** ** Popping a completion *)
Definition poll_post (n : Nvme) (l : list Raw) (r : Z * NvmeCompletion) (st : Nvme * (W * list Raw)) : Prop :=
  alike n st.1 ∧
  ((0 < r.1 ∧ (seen st.2.2).1 = (seen l).1 ∧ (seen st.2.2).2 = (seen l).2 ++ [Pop r.2]) ∨
   (r.1 <= 0 ∧ st.2.2 = l)).
Lemma bind_pop {B} (k : Z → M B) Q n w l :
  (∀ v w', wp (k v) Q (n, (w', l ++ [CqRead v]))) → wp (ebind (rd watched QUEUE_CUR_CQ_CID) k) Q (n, (w, l)).
Proof.
  intros H. apply wp_bind. unfold wp at 1, rd, sio, watched, watch, log_of. simpl.
  destruct (reg_read32 hw _ w) as [v w1]. apply H.
Qed.
Lemma poll_fast_spec n w l : wp (nvme_try_poll_cq_fast watched) (poll_post n l) (n, (w, l)).
Proof.
  unfold nvme_try_poll_cq_fast. apply bind_get. destruct (dry_run _); [apply wp_ret; split; [done|by right]|].
  apply bind_quiet; [apply quiet_count|]. intros [] n1 w1 H1.
  apply bind_quiet; [apply quiet_cq_empty|]. intros empty n2 w2 H2. destruct empty.
  { apply bind_quiet; [apply quiet_count|]. intros [] n3 w3 H3. apply wp_ret.
    split; [by etrans; [|etrans]|by right]. }
  apply bind_pop. intros v w3. apply bind_quiet; [apply quiet_count|]. intros [] n4 w4 H4. apply wp_ret.
  split; [by etrans; [|etrans]|]. left. cbn [fst snd]. by rewrite seen_read.
Qed.
Lemma poll_spec n w l : wp (nvme_try_poll_cq watched) (poll_post n l) (n, (w, l)).
Proof.
  unfold nvme_try_poll_cq. apply bind_get. destruct (dry_run _); [apply wp_ret; split; [done|by right]|].
  apply bind_quiet; [apply quiet_count|]. intros [] n1 w1 H1.
  apply bind_quiet; [apply quiet_watch|]. intros stop n2 w2 H2. destruct stop.
  { apply wp_ret. split; [by etrans|by right]. }
  apply bind_quiet; [apply quiet_cq_empty|]. intros empty n3 w3 H3. destruct empty.
  { apply bind_quiet; [apply quiet_count|]. intros [] n4 w4 H4. apply wp_ret.
    split; [by etrans; [|etrans; [|etrans]]|by right]. }
  apply bind_quiet; [apply quiet_now|]. intros t n4 w4 H4.
  apply bind_pop. intros v w5. apply bind_quiet; [apply quiet_elapsed|]. intros us n6 w6 H6.
  apply bind_quiet; [apply quiet_count|]. intros [] n7 w7 H7. apply wp_ret.
  split; [by repeat (etrans; [eassumption|])|]. left. cbn [fst snd]. by rewrite seen_read.
Qed.
Lemma poll_wait_spec fuel start timeout n w l :
  wp (poll_cq_loop watched fuel start timeout) (λ r st, alike n st.1 ∧ match r with
    | inr (rc, cpl) => (rc = 0 ∧ (seen st.2.2).1 = (seen l).1 ∧ (seen st.2.2).2 = (seen l).2 ++ [Pop cpl]) ∨
                       (rc < 0 ∧ st.2.2 = l)
    | inl e => e = OutOfFuel ∧ st.2.2 = l end) (n, (w, l)).
Proof.
  revert n w; induction fuel as [|fuel IH]; intros n w; cbn [poll_cq_loop];
    (apply wp_bind; eapply wp_mono; [apply poll_spec|]; intros [rc cpl] [n1 [w1 l1]] [H1 Hp];
     cbn [fst snd] in *; destruct (0 <? rc) eqn:Hpos;
     [destruct Hp as [(_ & Hr & Hp)|[? _]]; [|lia]; apply bind_quiet; [apply quiet_elapsed|];
      intros us n2 w2 H2; apply bind_quiet; [apply quiet_count|]; intros [] n3 w3 H3; apply wp_ret;
      split; [by etrans; [|etrans]|by left]|];
     destruct Hp as [[? _]|[_ ->]]; [lia|]; destruct (rc <? 0) eqn:Hneg;
     [apply wp_ret; split; [done|]; right; split; [lia|done]|];
     apply bind_quiet; [apply quiet_elapsed|]; intros waited n2 w2 H2; destruct (timeout <=? waited);
     [apply bind_quiet; [apply quiet_last_error|]; intros [] n3 w3 H3; apply bind_quiet; [apply quiet_status|];
      intros [] n4 w4 H4; apply wp_ret; split; [by repeat (etrans; [eassumption|])|by right]|];
     apply bind_quiet; [apply quiet_pause|]; intros [] n3 w3 H3).
  - apply wp_ret. split; [by repeat (etrans; [eassumption|])|done].
  - eapply wp_mono; [apply IH|]. intros r st [H4 Hr]. split; [by repeat (etrans; [eassumption|])|done].
Qed.
End Operations.
End nvme_device.
