(* ===== verification/NvmePlan.v ===== *)
(** * What a write of a range issues

    The plan of a write: the range cut into commands of one size, in order.
    [good] is what holds of the device at any time of a write: what it has been
    given is the beginning of the plan, and [follow] never fails.  The lemmas
    say how a completion and an accepted command change that, and what the
    table of pending commands knows of it. *)
From stdpp Require Import gmap.
From S2P Require Import Prelude StorageError CStdlib Config CcbTypes CrossSlot CrossSlotSpec CrossSlotSafe WriteQueue NvmeQueue NvmeWrite NvmeDevice.

Module nvme_plan.
Import ccb_hw cross_slot_protocol nvme_queue nvme_write nvme_device.

(** ** The table of pending commands *)
(** [o]: the identifiers the device owns. *)
Record table_ok (l : list NvmePendingCmd) (o : list Z) : Prop := {
  tb_perm : o ≡ₚ p_cid <$> valids l; tb_nodup : NoDup o }.
Lemma insert_valids (l : list NvmePendingCmd) i q x :
  l !! i = Some q →
  (if p_valid q then [q] else []) ++ valids (<[i := x]> l) ≡ₚ (if p_valid x then [x] else []) ++ valids l.
Proof.
  intros Hi. pose proof (filter_insert_perm (λ p, p_valid p = true) l i q x Hi) as H.
  rewrite !filter_cons, !filter_nil in H. by destruct (p_valid q), (p_valid x).
Qed.
Lemma table_add l o i q cmd :
  table_ok l o → nvme_find_free_pending l = Some (i, q) → p_valid cmd = true → p_cid cmd ∉ o →
  table_ok (<[i := cmd]> l) (p_cid cmd :: o) ∧ table_ok (clear_pending i cmd (<[i := cmd]> l)) o.
Proof.
  intros [Hp Hn] Hf Hv Hc. apply find_if_spec in Hf as [Hi Hq]. apply negb_true_iff in Hq.
  pose proof (insert_valids l i q cmd Hi) as H1. pose proof (insert_valids l i q (cmd <| p_valid := false |>) Hi) as H2.
  rewrite Hq, Hv in H1. rewrite Hq in H2. simpl in H1, H2. split; split; try done.
  - by rewrite H1, fmap_cons, Hp.
  - by constructor.
  - unfold clear_pending. rewrite list_insert_insert_eq. by rewrite H2.
Qed.
Lemma table_remove l o cid i e :
  table_ok l o → nvme_find_pending_by_cid l cid = Some (i, e) →
  cid ∈ o ∧ table_ok (clear_pending i e l) (filter (λ c, c ≠ cid) o) ∧
  length (filter (λ c, c ≠ cid) o) = pred (length o).
Proof.
  intros [Hp Hn] Hf. apply find_if_spec in Hf as [Hi Hq]. apply andb_true_iff in Hq as [Hv Hc].
  assert (Hcid : p_cid e = cid) by lia. pose proof (insert_valids l i e (e <| p_valid := false |>) Hi) as H.
  rewrite Hv in H. simpl in H. rewrite <-H in Hp. rewrite fmap_cons, Hcid in Hp.
  rewrite Hp in Hn. apply NoDup_cons in Hn as [Hn1 Hn2].
  assert (Hf : filter (λ c, c ≠ cid) o ≡ₚ p_cid <$> valids (clear_pending i e l)).
  { rewrite Hp, filter_cons_False by naive_solver. rewrite filter_all; [done|]. by intros x Hx ->. }
  split_and!.
  - rewrite Hp. by left.
  - split; [done|]. by rewrite Hf.
  - rewrite Hf, Hp. done.
Qed.
Lemma table_absent l o cid : table_ok l o → nvme_find_pending_by_cid l cid = None → cid ∉ o.
Proof.
  intros [-> _] Hf (e & -> & He)%list_elem_of_fmap. apply valids_spec in He as [Hv He].
  pose proof (find_if_none _ _ Hf e He) as H. simpl in H. rewrite Hv in H. simpl in H. lia.
Qed.
Lemma table_fresh l o r cid r' :
  table_ok l o → is_u16 (next_cmd_id r) → nvme_alloc_cid r l = (Some cid, r') → cid ∉ o.
Proof.
  intros [-> _] Hr. unfold nvme_alloc_cid. pose proof (cross_slot_safety.alloc_cid_loop_spec (Z.to_nat UINT16_MAX) _ l Hr) as H.
  destruct (alloc_cid_loop _ _ _) as [c nx]. destruct H as [_ H]. intros [= -> <-]. apply H.
Qed.
Lemma alloc_alike r l cid r' : is_u16 (next_cmd_id r) → nvme_alloc_cid r l = (cid, r') →
  is_u16 (next_cmd_id r') ∧ nvme_cmd_sectors r' = nvme_cmd_sectors r.
Proof.
  intros Hr. unfold nvme_alloc_cid. pose proof (cross_slot_safety.alloc_cid_loop_spec (Z.to_nat UINT16_MAX) _ l Hr) as H.
  destruct (alloc_cid_loop _ _ _) as [c nx]. destruct H as [H _]. by intros [= _ <-].
Qed.

(** ** The plan of a write *)
Section Plan.
Context (size bytes lba addr : Z).
Definition chunk (i : Z) : Z := Z.min size (bytes - i * size).
Definition plan_entry (i : Z) : Z * Z * Z * Z :=
  (NVM_WRITE, lba + i * (size / NVME_SECTOR_BYTES), bytes_to_sectors (chunk i), addr + i * size).
Definition plan (k : Z) : list (Z * Z * Z * Z) := plan_entry <$> seqZ 0 k.
Definition plan_total : Z := (bytes + size - 1) / size.
Definition what (c : Command) : Z * Z * Z * Z := (c_op c, c_lba c, c_sectors c, c_addr c).

Record write_args : Prop := {
  wa_bytes : 0 < bytes; wa_size : 0 < size <= UINT32_MAX; wa_aligned : size mod NVME_SECTOR_BYTES = 0;
  wa_fits : bytes + size <= UINT64_MAX;
  wa_lba : 0 <= lba ∧ lba + bytes_to_sectors bytes <= UINT64_MAX;
  wa_addr : 0 <= addr ∧ addr + bytes <= UINT64_MAX }.
Context (Hargs : write_args).
#[local] Set Default Proof Using "Hargs".

Lemma plan_snoc k : 0 <= k → plan (k + 1) = plan k ++ [plan_entry k].
Proof using Type. intros Hk. unfold plan. by rewrite seqZ_app, fmap_app by lia. Qed.
Lemma plan_prefix k k' : 0 <= k <= k' → plan k `prefix_of` plan k'.
Proof using Type.
  intros Hk. exists (plan_entry <$> seqZ k (k' - k)). unfold plan. rewrite <-fmap_app. f_equal.
  replace k' with (k + (k' - k)) at 1 by lia. by rewrite seqZ_app by lia.
Qed.
Lemma total_spec i : 0 <= i → i < plan_total ↔ i * size < bytes.
Proof.
  intros Hi. destruct Hargs. unfold plan_total. pose proof (Z.div_mod (bytes + size - 1) size).
  pose proof (Z.mod_pos_bound (bytes + size - 1) size). split; intros; nia.
Qed.
Lemma total_pos : 0 < plan_total <= UINT64_MAX.
Proof.
  destruct Hargs. split; [apply total_spec; lia|]. unfold plan_total.
  apply Z.div_le_upper_bound; [lia|]. nia.
Qed.
Lemma sectors_of b : 0 <= b <= UINT64_MAX →
  bytes_to_sectors b = (b + NVME_SECTOR_BYTES - 1) / NVME_SECTOR_BYTES.
Proof using Type.
  intros Hb. unfold bytes_to_sectors, ccb_types.SECTOR_SIZE, NVME_SECTOR_BYTES in *. pose proof (Z.div_mod b 512). pose proof (Z.mod_pos_bound b 512).
  assert (E : b / 512 + (if negb (b mod 512 =? 0) then 1 else 0) = (b + 512 - 1) / 512).
  { destruct (b mod 512 =? 0) eqn:E; simpl.
    - apply Z.eqb_eq in E. apply (Z.div_unique _ _ _ 511); lia.
    - apply (Z.div_unique _ _ _ (b mod 512 - 1)); lia. }
  rewrite E. apply u64_small. split; [apply Z.div_pos; lia|]. apply Z.div_le_upper_bound; cint.
Qed.
(** A command of the plan lies in the range. *)
Lemma plan_entry_bounds i : 0 <= i < plan_total →
  0 < chunk i <= size ∧ i * (size / NVME_SECTOR_BYTES) + bytes_to_sectors (chunk i) <= bytes_to_sectors bytes ∧
  (i + 1 < plan_total → chunk i = size ∧ bytes_to_sectors (chunk i) = size / NVME_SECTOR_BYTES).
Proof.
  intros [Hi Ht]. pose proof (proj1 (total_spec i Hi) Ht) as Hb. destruct Hargs.
  assert (Hc : 0 < chunk i <= size) by (unfold chunk; lia). split; [done|].
  assert (Hs : size = NVME_SECTOR_BYTES * (size / NVME_SECTOR_BYTES)) by (pose proof (Z.div_mod size NVME_SECTOR_BYTES); unfold NVME_SECTOR_BYTES in *; lia).
  split.
  - rewrite !sectors_of by (unfold chunk; lia).
    replace (i * (size / NVME_SECTOR_BYTES) + (chunk i + NVME_SECTOR_BYTES - 1) / NVME_SECTOR_BYTES) with
      ((chunk i + NVME_SECTOR_BYTES - 1 + i * (size / NVME_SECTOR_BYTES) * NVME_SECTOR_BYTES) / NVME_SECTOR_BYTES)
      by (rewrite Z.div_add by done; lia).
    apply Z.div_le_mono; [done|]. unfold chunk. nia.
  - intros Hn. apply total_spec in Hn; [|lia]. assert (E : chunk i = size) by (unfold chunk; lia). rewrite E. split; [done|].
    rewrite sectors_of by cint. rewrite Hs at 1. symmetry. apply (Z.div_unique _ _ _ 511); unfold NVME_SECTOR_BYTES; lia.
Qed.
End Plan.

(** The command lies in the sectors and the memory of the write. *)
Definition in_range (bytes lba addr : Z) (c : Command) : Prop :=
  c_op c = NVM_WRITE ∧ 0 < c_sectors c ∧ lba <= c_lba c ∧ c_lba c + c_sectors c <= lba + bytes_to_sectors bytes ∧
  addr <= c_addr c ∧ c_addr c < addr + bytes.
Lemma plan_in_range size bytes lba addr k l :
  write_args size bytes lba addr → k <= plan_total size bytes →
  what <$> issued l = plan size bytes lba addr k → Forall (in_range bytes lba addr) (issued l).
Proof.
  intros Ha Hk Hl. apply Forall_forall. intros c Hc.
  assert (Hw : what c ∈ plan size bytes lba addr k) by (rewrite <-Hl; by apply list_elem_of_fmap_2).
  apply list_elem_of_fmap in Hw as (i & Hi & Hin%elem_of_seqZ). injection Hi as Eop El Es Ea.
  destruct (plan_entry_bounds size bytes lba addr Ha i) as (Hch&Hr&_); [lia|].
  pose proof (proj1 (total_spec size bytes lba addr Ha i ltac:(lia)) ltac:(lia)). destruct Ha.
  assert (0 <= i * (size / NVME_SECTOR_BYTES)) by (apply Z.mul_nonneg_nonneg; [lia|by apply Z.div_pos; [lia|]]).
  assert (0 <= i * size) by (apply Z.mul_nonneg_nonneg; lia).
  unfold in_range. rewrite Eop, El, Es, Ea. split_and!; try done; try lia.
  rewrite sectors_of by cint. apply Z.div_str_pos. unfold NVME_SECTOR_BYTES. lia.
Qed.

(** ** The device during a write *)
Section Device.
Context (f : RegFile) (size qd bytes lba addr : Z).
#[local] Abbreviation total := (plan_total size bytes).
#[local] Abbreviation plan k := (plan size bytes lba addr k).
#[local] Abbreviation log l := (device f l).2.

(** What holds of the device at any time. *)
Definition good (l : list Raw) : Prop :=
  ∃ k o, 0 <= k <= total ∧ what <$> issued (log l) = plan k ∧ follow qd nothing_owned (log l) = Some o.
(** The whole plan has been issued and everything is completed. *)
Definition complete (l : list Raw) : Prop :=
  what <$> issued (log l) = plan total ∧ follow qd nothing_owned (log l) = Some nothing_owned.
Lemma pop_follows l l' c o : follow qd nothing_owned (log l) = Some o → log l' = log l ++ [Pop c] →
  follow qd nothing_owned (log l') = follow_one qd o (Pop c) ∧ issued (log l') = issued (log l).
Proof.
  intros Ho ->. rewrite follow_app, issued_app, Ho. simpl. rewrite app_nil_r. split; [|done].
  by case_bool_decide.
Qed.
Lemma good_pop l l' c : good l → log l' = log l ++ [Pop c] → good l'.
Proof.
  intros (k&o&Hk&Hp&Ho) Hl. destruct (pop_follows l l' c o Ho Hl) as [H1 H2].
  simpl in H1. unfold good. rewrite H1, H2. case_bool_decide; by eexists k, _.
Qed.

(** Draining only pops. *)
Definition pops (l l' : list Raw) : Prop := ∃ cs, log l' = log l ++ (Pop <$> cs).
Lemma pops_refl l : pops l l.
Proof. exists []. by rewrite app_nil_r. Qed.
Lemma pops_trans l l' l'' c : log l' = log l ++ [Pop c] → pops l' l'' → pops l l''.
Proof. intros H [cs Hcs]. exists (c :: cs). by rewrite Hcs, H, <-app_assoc. Qed.
Lemma good_pops l l' : good l → pops l l' → good l'.
Proof.
  intros (k&o&Hk&Hp&Ho) [cs Hl]. unfold good. rewrite Hl, issued_app, follow_app, Ho.
  assert (issued (Pop <$> cs) = []) as ->.
  { clear. induction cs as [|c cs IH]; [done|exact IH]. }
  rewrite app_nil_r.
  assert (∃ o', follow qd o (Pop <$> cs) = Some o') as [o' ->]; [|by eexists k, _].
  clear. revert o; induction cs as [|c cs IH]; intros o; [by eexists|]. simpl. case_bool_decide; apply IH.
Qed.
(** What the device has taken. *)
Definition took (k : Z) (o : list Z) (l : list Raw) : Prop :=
  what <$> issued (log l) = plan (k + 1) ∧ follow qd nothing_owned (log l) = Some (mkOwned o false).
Lemma took_good k o l : 0 <= k < total → took k o l → good l.
Proof. intros Hk [H1 H2]. eexists (k + 1), _. split; [lia|done]. Qed.
Lemma issue_took k o c l l' :
  0 <= k → what <$> issued (log l) = plan k → follow qd nothing_owned (log l) = Some (mkOwned o false) →
  c_cid c ∉ o → Z.of_nat (length o) < qd → what c = plan_entry size bytes lba addr k →
  log l' = log l ++ [Issue c] → took k (c_cid c :: o) l'.
Proof.
  intros Hk Hp Ho Hc Hq Hw Hl. unfold took. rewrite Hl, issued_app, follow_app, fmap_app, Hp, Ho, plan_snoc by done.
  simpl. rewrite Hw. split; [done|]. rewrite bool_decide_true by done. by replace (_ <? qd) with true by lia.
Qed.
End Device.
End nvme_plan.
