(* ===== verification/NvmeSafe.v ===== *)
(** * The tight writer follows its plan

    The commands that the tight writer issues are those of its plan, in order.
    The device never owns more than the queue depth, an identifier is never used
    twice at a time, nothing is issued after an error, and a write that reports
    success has issued the whole plan and seen every command completed. *)
From stdpp Require Import gmap.
From S2P Require Import Prelude StorageError CStdlib Config CcbTypes CrossSlot CrossSlotSpec CrossSlotSafe WriteQueue NvmeQueue NvmeWrite NvmeDevice NvmePlan.

Module nvme_safety.
Import ccb_hw cross_slot_protocol nvme_queue nvme_write nvme_device nvme_plan.

(** ** The writer and the device *)
Section Run.
Context {W : Type} (hw : NvmeHw W) (f : RegFile) (S0 : Settings) (qd bytes payload_bytes lba addr : Z).
#[local] Abbreviation size := (nvme_cmd_size_bytes S0).
#[local] Abbreviation total := (plan_total size bytes).
#[local] Abbreviation plan k := (nvme_plan.plan size bytes lba addr k).
#[local] Abbreviation good l := (nvme_plan.good f size qd bytes lba addr l).
#[local] Abbreviation took k o l := (nvme_plan.took f size qd bytes lba addr k o l).
#[local] Abbreviation pops l l' := (nvme_plan.pops f l l').
#[local] Abbreviation log l := (device f l).2.
Context (Hargs : write_args size bytes lba addr) (Hqd : 0 < qd <= Z.of_nat NVME_PENDING_CAPACITY)
  (Hdry : dry_run S0 = false).
#[local] Set Default Proof Using "Hargs Hqd Hdry".

Definition nv_ok (n : Nvme) : Prop := set n = S0 ∧ is_u16 (next_cmd_id (base n)).
Record writing (p : Progress) (o : list Z) (n : Nvme) (l : list Raw) : Prop := {
  at_nv : nv_ok n;
  at_sub : 0 <= submitted p <= total;
  at_plan : what <$> issued (log l) = plan (submitted p);
  at_next : submitted p < total →
    next_lba p = lba + submitted p * (size / NVME_SECTOR_BYTES) ∧ next_ddr p = addr + submitted p * size ∧
    bytes_left p = bytes - submitted p * size;
  at_end : submitted p = total → bytes_left p = 0;
  at_own : follow qd nothing_owned (log l) = Some (mkOwned o false);
  at_table : table_ok (t_pend (tight p)) o;
  at_active : active_qd (tight p) = Z.of_nat (length o);
  at_depth : active_qd (tight p) <= qd;
  at_done : completed (tight p) + active_qd (tight p) = submitted p;
  at_done0 : 0 <= completed (tight p);
  at_cache : cache_ok (last_ctx0 p) (device f l).1 }.
Definition fail_post (e : leave) (l : list Raw) : Prop := e ≠ Return 0 ∧ e ≠ DivideByZero ∧ good l.
Definition step_post (r : leave + Progress * bool) (st : Nvme * (W * list Raw)) : Prop :=
  match r with inl e => fail_post e st.2.2 | inr (p, _) => ∃ o, writing p o st.1 st.2.2 end.

Lemma nv_alike n n' : nv_ok n → alike n n' → nv_ok n'.
Proof using Type. intros [H1 H2] (?&?&?). split; [congruence|]. by replace (next_cmd_id (base n')) with (next_cmd_id (base n)). Qed.
Lemma writing_alike p o n n' l : writing p o n l → alike n n' → writing p o n' l.
Proof using Type. intros [] H. split; try done. by eapply nv_alike. Qed.
Lemma writing_good p o n l : writing p o n l → good l.
Proof using Type. intros []. by eexists _, _. Qed.
Lemma tight_fail_spec {A} reason rc n w l (Q : leave + A → Nvme * (W * list Raw) → Prop) :
  (∀ n' w', Q (inl (Return rc)) (n', (w', l))) → wp (tight_fail (watched hw) reason rc) Q (n, (w, l)).
Proof using Type.
  intros HQ. apply bind_quiet; [apply quiet_bind; [apply quiet_last_error|intros; apply quiet_status]|].
  intros [] n' w' _. apply wp_ret, HQ.
Qed.
Lemma fail_step {A} reason rc n w l (Q : leave + A → Nvme * (W * list Raw) → Prop) :
  rc ≠ 0 → good l → (∀ e st, fail_post e st.2.2 → Q (inl e) st) → wp (tight_fail (watched hw) reason rc) Q (n, (w, l)).
Proof using Type.
  intros Hrc Hl HQ. apply tight_fail_spec. intros n' w'. apply HQ. by split; [intros [= ->]|].
Qed.

Lemma tight_drain_spec fuel deadline t n w l :
  wp (nvme_drain_ambiguous_tight_pending (watched hw) fuel deadline t)
    (λ r st, (∀ e, r = inl e → e = OutOfFuel) ∧ pops l st.2.2) (n, (w, l)).
Proof using Type.
  clear Hargs Hqd Hdry. assert (Hgive : ∀ (n : Nvme) (w : W) l0 l (t : Tight), pops l0 l → wp (abandon t)
    (λ (r : leave + Z * Tight) st, (∀ e, r = inl e → e = OutOfFuel) ∧ pops l0 st.2.2) (n, (w, l))).
  { intros n1 w1 l0 l1 t1 Hl. unfold abandon, nvme_legacy_reset_unavailable.
    apply bind_quiet; [unfold cross_slot_real_reset; quiet|]. intros z n2 w2 _.
    apply bind_quiet; [quiet|]. intros [] n3 w3 _. by apply wp_ret. }
  revert t n w l; induction fuel as [|fuel IH]; intros t n w l; cbn [nvme_drain_ambiguous_tight_pending];
    (destruct (negb _); [apply wp_ret; split; [done|apply pops_refl]|]);
    [apply wp_ret; split; [by intros e [= <-]|apply pops_refl]|].
  apply wp_bind. eapply wp_mono; [apply poll_fast_spec|]. intros [rc c] [n1 [w1 l1]] [_ Hp]. cbn [fst snd] in *.
  destruct (0 <? rc) eqn:Hrc.
  - destruct Hp as [(_&_&Hp)|[? _]]; [|lia]. assert (H1 : pops l l1) by (exists [c]; by rewrite Hp).
    destruct (nvme_find_pending_by_cid _ _) as [[k p]|].
    + destruct (cpl_error c); [by apply bind_quiet; [quiet|intros [] n2 w2 _; apply wp_ret]|].
      apply bind_quiet; [quiet|]. intros us n2 w2 _.
      apply bind_quiet; [apply quiet_base, completion_alike|]. intros [] n3 w3 _.
      eapply wp_mono; [apply IH|]. intros r st [H2 H3]. split; [done|]. by eapply pops_trans.
    + apply bind_quiet; [quiet|]. intros [] n2 w2 _. by apply Hgive.
  - destruct Hp as [[? _]|[_ ->]]; [lia|]. apply bind_quiet; [quiet|]. intros late n2 w2 _.
    destruct late; [apply Hgive, pops_refl|]. apply bind_quiet; [apply quiet_drain_pause|]. intros [] n3 w3 _. apply IH.
Qed.

(** *** Refilling *)
Lemma command_at p o n l :
  writing p o n l → submitted p < total →
  let c := chunk size bytes (submitted p) in
  (if size <? bytes_left p then size else bytes_left p) = c ∧ 0 < c <= UINT32_MAX ∧
  0 < bytes_to_sectors c <= UINT32_MAX ∧
  plan_entry size bytes lba addr (submitted p) = (NVM_WRITE, next_lba p, bytes_to_sectors c, next_ddr p) ∧
  next_lba p + bytes_to_sectors c <= lba + bytes_to_sectors bytes ∧ next_ddr p + c <= addr + bytes ∧
  lba <= next_lba p ∧ addr <= next_ddr p.
Proof.
  intros H Hs c. destruct H. destruct (at_next0 Hs) as (Hl&Hd&Hb).
  destruct (plan_entry_bounds size bytes lba addr Hargs (submitted p)) as (Hc&Hr&_); [lia|].
  fold c in Hc, Hr. destruct Hargs. rewrite Hl, Hd, Hb.
  assert (0 <= size / NVME_SECTOR_BYTES) by (apply Z.div_pos; [lia|done]).
  assert (Hcs : 0 < bytes_to_sectors c <= UINT32_MAX).
  { rewrite sectors_of by cint. split; [apply Z.div_str_pos; unfold NVME_SECTOR_BYTES; lia|].
    apply Z.div_le_upper_bound; unfold NVME_SECTOR_BYTES; cint. }
  assert (Hcm : c = Z.min size (bytes - submitted p * size)) by done. clearbody c.
  assert (0 <= submitted p * (size / NVME_SECTOR_BYTES)) by (apply Z.mul_nonneg_nonneg; lia).
  assert (0 <= submitted p * size) by (apply Z.mul_nonneg_nonneg; lia).
  split_and!; try lia.
  - case_match; lia.
  - unfold plan_entry, chunk. by rewrite <-Hcm.
Qed.
Lemma submit_at fuel p o n l w cid us c :
  writing p o n l → submitted p < total → active_qd (tight p) < qd → cid ∉ o →
  c = chunk size bytes (submitted p) →
  wp (nvme_submit_write_fast (watched hw) fuel cid (next_lba p) (p_sectors (tight_command bytes payload_bytes cid c us p))
        (next_ddr p) true (last_ctx0 p))
    (λ r st, nv_ok st.1 ∧ match r with
      | inl e => e = OutOfFuel ∧ good st.2.2
      | inr (rc, cache) =>
          if bool_decide (rc = NVME_SUBMIT_ACCEPTED ∨ rc = NVME_SUBMIT_ACCEPTANCE_UNKNOWN)
          then took (submitted p) (cid :: o) st.2.2 ∧ cache_ok cache (device f st.2.2).1
          else st.2.2 = l ∧ cache = last_ctx0 p end) (n, (w, l)).
Proof.
  intros H Hs Ha Hcid ->. destruct (command_at _ _ _ _ H Hs) as (_&Hc&Hsec&Hplan&Hl&Hd&Hl0&Hd0).
  set (c := chunk _ _ _) in *. cbn [tight_command p_sectors]. rewrite u32_small by cint.
  assert (Htook : ∀ l', submitted_as f NVM_WRITE cid (next_lba p) (bytes_to_sectors c) (next_ddr p) l l' →
    took (submitted p) (cid :: o) l').
  { intros l' Hl'. destruct H. unfold took. rewrite Hl', issued_app, follow_app, fmap_app, at_plan0, at_own0.
    rewrite plan_snoc, Hplan by lia. split; [done|]. simpl. rewrite bool_decide_true by done.
    by replace (_ <? qd) with true by lia. }
  destruct Hargs. eapply wp_mono.
  - apply (submit_fast_spec hw f); [by rewrite (proj1 (at_nv _ _ _ _ H))|cint..|apply H].
  - intros r st [Hn Hr]. split; [by eapply nv_alike; [apply H|]|].
    destruct r as [e|[rc cache]].
    + destruct Hr as [-> Hr]. split; [done|]. eapply took_good; [|by apply Htook].
      pose proof (at_sub _ _ _ _ H). lia.
    + case_bool_decide; [|done]. destruct Hr as [Hr ?]. split; [by apply Htook|done].
Qed.
Lemma quiet_refill a : quiet (note_refill (W := W * list Raw) a).
Proof using Type. unfold note_refill. quiet. by apply quiet_base. Qed.
Lemma quiet_stamp : quiet (submit_stamp (watched hw)).
Proof using Type. unfold submit_stamp. quiet. Qed.
Lemma tight_unknown_spec fuel cid t n w l :
  good l → wp (tight_unknown (watched hw) fuel cid t) (λ r st, ∃ e, r = inl e ∧ fail_post e st.2.2) (n, (w, l)).
Proof using Type.
  intros Hl. unfold tight_unknown. set (t' := t <| active_qd ::= _ |>). cbv zeta.
  apply bind_quiet; [apply quiet_refill|]. intros [] n1 w1 _.
  apply bind_quiet; [apply quiet_now|]. intros us n2 w2 _. apply bind_get.
  destruct (_ <? _); [apply wp_ret; by eexists|]. apply wp_xbind.
  eapply wp_mono; [apply tight_drain_spec|]. intros r [n3 [w3 l3]] [He Hp]. pose proof (good_pops _ _ _ _ _ _ _ _ Hl Hp) as Hg.
  destruct r as [e|[rc t3]]; [rewrite (He e eq_refl); by eexists|].
  destruct (negb _); [apply wp_ret; by eexists|]. apply fail_step; [done..|]. intros e st He'. by eexists.
Qed.
(** The command has been accepted. *)
Lemma accepted_at p o n l n' l' i q cid us cache c :
  writing p o n l → submitted p < total → active_qd (tight p) < qd → 
  nvme_find_free_pending (t_pend (tight p)) = Some (i, q) → cid ∉ o → c = chunk size bytes (submitted p) →
  took (submitted p) (cid :: o) l' → nv_ok n' → cache_ok cache (device f l').1 →
  let cmd := tight_command bytes payload_bytes cid c us p in
  writing (mkProgress (mkTight (<[i := cmd]> (t_pend (tight p))) (u32 (active_qd (tight p) + 1)) (completed (tight p)))
             (u64 (submitted p + 1)) (u64 (next_lba p + p_sectors cmd)) (u64 (next_ddr p + c)) (bytes_left p - c) 0 cache)
    (cid :: o) n' l'.
Proof.
  intros H Hs Ha Hi Hcid -> [Hpl Hfo] Hn Hcache cmd.
  destruct (command_at _ _ _ _ H Hs) as (_&Hc&Hsec&_&Hl&Hd&Hl0&Hd0). destruct H, (at_next0 Hs) as (El&Ed&Eb).
  destruct (plan_entry_bounds size bytes lba addr Hargs (submitted p)) as (_&_&Hnext); [lia|].
  assert (Hend : submitted p + 1 = total → bytes - submitted p * size <= size).
  { intros E. pose proof (total_spec size bytes lba addr Hargs (submitted p + 1)). lia. }
  assert (Hcm : chunk size bytes (submitted p) = Z.min size (bytes - submitted p * size)) by done.
  pose proof (total_pos _ _ _ _ Hargs) as Htot. assert (Hps : p_sectors cmd = bytes_to_sectors (chunk size bytes (submitted p))).
  { apply u32_small. cint. }
  destruct Hargs. set (c := chunk _ _ _) in *. clearbody c.
  assert (Hq : qd <= 32) by exact (proj2 Hqd). clear Hqd.
  destruct (table_add _ o i q cmd at_table0 Hi) as [Htable _]; [done..|].
  rewrite Hps, (u64_small (submitted p + 1)), (u32_small (_ + 1)) by cint. change (p_cid cmd) with cid in Htable. clearbody cmd.
  split; cbn [tight submitted next_lba next_ddr bytes_left last_ctx0 t_pend active_qd completed length]; try done; try lia.
  intros Hs'. rewrite !u64_small by cint. destruct Hnext as [? Hb]; [done|]. split_and!; lia.
Qed.
(** A refused command leaves the table as it was. *)
Lemma refused_at p o n l n' i q cid us c :
  writing p o n l → nvme_find_free_pending (t_pend (tight p)) = Some (i, q) → cid ∉ o → nv_ok n' →
  let cmd := tight_command bytes payload_bytes cid c us p in
  let t := (tight p) <| t_pend ::= <[i := cmd]> |> in
  writing (p <| last_ctx0 := last_ctx0 p |> <| tight := t <| t_pend ::= clear_pending i cmd |> |>) o n' l.
Proof using Type.
  intros [] Hi Hcid Hn cmd t. split; try done. apply (table_add _ o i q cmd at_table0 Hi); done.
Qed.
Lemma cid_at p o n l cid r :
  writing p o n l → nvme_alloc_cid (base n) (t_pend (tight p)) = (cid, r) →
  writing p o (n <| base := r |>) l ∧ (∀ c, cid = Some c → c ∉ o).
Proof using Type.
  intros [] Hr. destruct at_nv0 as [Hn Hid]. destruct (alloc_alike _ _ _ _ Hid Hr) as [? _]. split.
  - split; try done.
  - intros c ->. eapply table_fresh; [done| |done]. done.
Qed.
Lemma tight_fill_spec k fuel made p o n w l :
  writing p o n l →
  wp (tight_fill (watched hw) k fuel qd bytes payload_bytes total made p) step_post (n, (w, l)).
Proof.
  revert made p o n w l; induction k as [|k IH]; intros made p o n w l H; cbn [tight_fill]; [by apply wp_ret; eexists|].
  pose proof (writing_good _ _ _ _ H) as Hg.
  destruct (negb _) eqn:Hgo; [by apply wp_ret; eexists|]. apply negb_false_iff, andb_true_iff in Hgo as [Ha Hs].
  apply bind_quiet; [apply quiet_sq_full|]. intros full n1 w1 H1. apply (writing_alike _ _ _ _ _ H) in H1. clear H.
  destruct full; [apply bind_quiet; [quiet|]; intros [] n2 w2 H2; apply wp_ret; eexists; by eapply writing_alike|].
  destruct (nvme_find_free_pending _) as [[i q]|] eqn:Hfree; [|by apply fail_step].
  apply bind_get. destruct (nvme_alloc_cid _ _) as [cid r] eqn:Hcid. destruct (cid_at _ _ _ _ _ _ H1 Hcid) as [H2 Hfresh].
  apply wp_bind, wp_smod. destruct cid as [cid|]; [|by apply fail_step].
  destruct (bool_decide _); [by apply fail_step|]. specialize (Hfresh cid eq_refl).
  destruct (command_at _ _ _ _ H2) as (Hc&Hcb&_); [lia|]. rewrite (proj1 (at_nv _ _ _ _ H1)), Hc.
  destruct (_ || _) eqn:Hbad; [by apply fail_step|]. set (c := chunk _ _ _) in *.
  apply bind_quiet; [apply quiet_stamp|]. intros us n3 w3 H3. apply (writing_alike _ _ _ _ _ H2) in H3. cbv zeta.
  apply wp_xbind. eapply wp_mono; [eapply submit_at; [apply H3|lia|lia|done|done]|].
  intros [e|[rc cache]] [n4 [w4 l4]] [Hn4 Hr]; cbn [fst snd] in *; [by destruct Hr as [-> ?]|].
  destruct (rc =? NVME_SUBMIT_RETRY_SQ_FULL) eqn:Hretry.
  { apply Z.eqb_eq in Hretry as ->. destruct Hr as [-> ->]. apply bind_quiet; [quiet|]. intros [] n5 w5 H5.
    apply wp_ret. eexists. eapply writing_alike; [|done]. by eapply refused_at. }
  destruct (rc =? NVME_SUBMIT_ACCEPTANCE_UNKNOWN) eqn:Hunk.
  { apply Z.eqb_eq in Hunk as ->. destruct Hr as [Hr _]. eapply wp_mono.
    - apply tight_unknown_spec. eapply took_good; [|done]. pose proof (at_sub _ _ _ _ H3). lia.
    - by intros r' st (e & -> & He). }
  destruct (negb _) eqn:Hacc.
  { case_bool_decide; [lia|]. destruct Hr as [-> ->]. apply fail_step; [|done..]. unfold NVME_SUBMIT_ACCEPTED in *. lia. }
  apply negb_false_iff, Z.eqb_eq in Hacc as ->. destruct Hr as [Hr Hcache].
  apply bind_quiet; [apply quiet_refill|]. intros [] n5 w5 H5. apply (IH _ _ (cid :: o)).
  eapply writing_alike; [|done]. by eapply (accepted_at p o _ _ n4 l4); [apply H3|lia|lia|..].
Qed.

(** *** Retiring *)
Lemma popped_at p o n l l' c i e :
  writing p o n l → nvme_find_pending_by_cid (t_pend (tight p)) (cpl_cid c) = Some (i, e) → cpl_error c = false →
  (device f l').1 = (device f l).1 → log l' = log l ++ [Pop c] →
  writing (mkProgress (mkTight (clear_pending i e (t_pend (tight p))) (u32 (active_qd (tight p) - 1)) (u64 (completed (tight p) + 1)))
             (submitted p) (next_lba p) (next_ddr p) (bytes_left p) 0 (last_ctx0 p))
    (filter (λ x, x ≠ cpl_cid c) o) n l'.
Proof.
  intros [] Hf Hc Hreg Hl. destruct (table_remove _ _ _ _ _ at_table0 Hf) as (Hin&Ht&Hlen).
  destruct (pop_follows f qd l l' c _ at_own0 Hl) as [Hfo Hi]. simpl in Hfo. rewrite bool_decide_true, Hc in Hfo by done.
  pose proof (total_pos _ _ _ _ Hargs) as Htot. assert (Hq : qd <= 32) by exact (proj2 Hqd).
  assert (0 < active_qd (tight p)) by (rewrite at_active0; destruct o; [by apply not_elem_of_nil in Hin|simpl; lia]).
  rewrite u32_small, u64_small by cint.
  split; cbn [tight submitted next_lba next_ddr bytes_left last_ctx0 t_pend active_qd completed]; try done; try lia.
  - by rewrite Hi.
  - by rewrite Hreg.
Qed.
Lemma try_poll_either n w l :
  wp (if nvme_diag_timing (base n) then nvme_try_poll_cq (watched hw) else nvme_try_poll_cq_fast (watched hw))
    (poll_post f n l) (n, (w, l)).
Proof using Type. destruct (nvme_diag_timing _); [apply poll_spec|apply poll_fast_spec]. Qed.
Lemma tight_pop_spec k made p o n w l :
  writing p o n l → wp (tight_pop (watched hw) k made p) step_post (n, (w, l)).
Proof.
  revert made p o n w l; induction k as [|k IH]; intros made p o n w l H; cbn [tight_pop]; [by apply wp_ret; eexists|].
  pose proof (writing_good _ _ _ _ H) as Hg.
  destruct (negb _); [by apply wp_ret; eexists|]. apply bind_get. apply wp_bind.
  eapply wp_mono; [apply try_poll_either|]. intros [rc c] [n1 [w1 l1]] [H1 Hp]. cbn [fst snd] in *.
  destruct Hp as [(Hrc&Hreg&Hl)|[Hrc ->]].
  - replace (rc <? 0) with false by lia. replace (rc =? 0) with false by lia. pose proof (good_pop _ _ _ _ _ _ _ _ _ Hg Hl) as Hg1.
    destruct (nvme_find_pending_by_cid _ _) as [[i e]|] eqn:Hf.
    2:{ apply bind_quiet; [apply quiet_set_error|]. intros [] n2 w2 _. by apply fail_step. }
    destruct (cpl_error c) eqn:Hc; [by apply fail_step|].
    apply bind_quiet; [apply quiet_stamp|]. intros us n2 w2 H2.
    apply bind_quiet; [apply quiet_base, completion_alike|]. intros [] n3 w3 H3. cbv zeta.
    apply bind_quiet; [quiet|]. intros [] n4 w4 H4. apply bind_quiet; [by apply quiet_base|]. intros [] n5 w5 H5.
    eapply IH. eapply writing_alike; [by apply (popped_at p o n l l1 c i e)|]. by repeat (etrans; [eassumption|]).
  - destruct (rc <? 0) eqn:Hneg; [apply fail_step; [lia|done..]|]. replace (rc =? 0) with true by lia.
    apply wp_ret. eexists. by eapply writing_alike.
Qed.

(** *** The loop *)
Definition done_post (r : leave + Progress) (st : Nvme * (W * list Raw)) : Prop :=
  match r with inl e => fail_post e st.2.2 | inr p => ∃ o, writing p o st.1 st.2.2 end.
Lemma tight_idle_spec p o n w l :
  writing p o n l → wp (tight_idle (watched hw) p) done_post (n, (w, l)).
Proof using Type.
  intros H. unfold tight_idle. apply bind_get. pose proof (writing_good _ _ _ _ H) as Hg. apply wp_bind.
  eapply (wp_mono _ (λ r st, match r with inl e => fail_post e st.2.2 | inr p => ∃ o, writing p o st.1 st.2.2 end)).
  { destruct (_ =? 0).
    - apply bind_quiet; [quiet|]. intros t n1 w1 H1. apply wp_ret. exists o. destruct (writing_alike _ _ _ _ _ H H1).
      by split.
    - apply bind_quiet; [apply quiet_elapsed|]. intros t n1 w1 H1. destruct (_ <=? _); [by apply fail_step|].
      apply wp_ret. exists o. by eapply writing_alike. }
  intros [e|p1] [n1 [w1 l1]]; [done|]. intros [o1 H1]. cbn [fst snd] in *.
  apply bind_quiet; [quiet; apply quiet_elapsed|]. intros sleep n2 w2 H2.
  apply bind_quiet; [quiet|]. intros [] n3 w3 H3. apply wp_ret. exists o1. eapply writing_alike; [done|]. by etrans.
Qed.
Lemma tight_loop_spec fuel p o n w l :
  writing p o n l →
  wp (tight_loop (watched hw) fuel qd bytes payload_bytes total p) (λ r st, done_post r st ∧
    ∀ p', r = inr p' → completed (tight p') = total) (n, (w, l)).
Proof.
  revert p o n w l; induction fuel as [|fuel IH]; intros p o n w l H; cbn [tight_loop].
  { apply wp_ret. split; [|done]. split_and!; [done..|]. by eapply writing_good. }
  destruct (negb _) eqn:Hgo.
  { apply wp_ret. split; [by eexists|]. intros p' [= <-]. destruct H. lia. }
  apply wp_xbind. eapply wp_mono; [by eapply tight_fill_spec|].
  intros [e|[p1 made]] [n1 [w1 l1]]; [by split|]. intros [o1 H1]. cbn [fst snd] in *. apply bind_get.
  apply wp_xbind. eapply wp_mono; [by eapply tight_pop_spec|].
  intros [e|[p2 made2]] [n2 [w2 l2]]; [by split|]. intros [o2 H2]. cbn [fst snd] in *.
  destruct made2; [by eapply IH|]. destruct (_ && _); [by eapply IH|].
  apply wp_xbind. eapply wp_mono; [by eapply tight_idle_spec|].
  intros [e|p3] [n3 [w3 l3]]; [by split|]. intros [o3 H3]. by eapply IH.
Qed.

(** *** The whole write *)
Definition start : Progress := mkProgress (mkTight zero_table 0 0) 0 lba addr bytes 0 None.
Lemma start_writing n : nv_ok n → ∀ l, log l = [] → writing start [] n l.
Proof.
  intros Hn l Hl. pose proof (total_pos _ _ _ _ Hargs). split; rewrite ?Hl; cbn [start tight submitted completed active_qd
    t_pend next_lba next_ddr bytes_left last_ctx0 length]; try done; try lia.
  split; [reflexivity|apply NoDup_nil_2].
Qed.
Definition final_post (r : leave + Z) (st : Nvme * (W * list Raw)) : Prop :=
  good st.2.2 ∧ (returned r = Some 0 →
    what <$> issued (log st.2.2) = plan total ∧ follow qd nothing_owned (log st.2.2) = Some nothing_owned).
Lemma tight_run_spec fuel n w l :
  nv_ok n → log l = [] →
  wp (nvme_write_contiguous_tight_qd_payload (watched hw) fuel addr lba bytes payload_bytes qd) final_post (n, (w, l)).
Proof.
  intros Hn Hl. pose proof (start_writing n Hn l Hl) as H0. pose proof (writing_good _ _ _ _ H0) as Hg.
  assert (Hfail : ∀ e st, fail_post e st.2.2 → final_post (inl e) st).
  { intros e st (He&_&?). split; [done|]. destruct e as [rc| |]; [|done..]. by intros [= ->]. }
  unfold nvme_write_contiguous_tight_qd_payload. destruct Hargs. replace (bytes =? 0) with false by lia.
  destruct (_ <? _); [apply bind_quiet; [quiet|]; intros [] n1 w1 _; by apply wp_ret|].
  destruct (_ || _) eqn:Hq; [by apply fail_step|]. apply bind_get.
  destruct (tight_refused _ _ _ _); [by apply fail_step|]. rewrite (proj1 Hn), Hdry.
  apply bind_quiet; [apply quiet_reset_events|]. intros [] n1 w1 H1. cbv zeta.
  replace (command_total _ _) with total.
  2:{ unfold command_total, plan_total. rewrite (u64_small (bytes + size)), u64_small by cint. done. }
  apply bind_quiet; [by apply quiet_base|]. intros [] n2 w2 H2. apply wp_xbind.
  eapply wp_mono; [eapply (tight_loop_spec _ start); eapply writing_alike; [done|by etrans]|].
  intros [e|p] [n3 [w3 l3]]; cbn [fst snd]; intros [Hr Hdone]; [by apply Hfail|]. destruct Hr as [o H3]. cbn [fst snd] in H3.
  pose proof (writing_good _ _ _ _ H3) as Hg3. specialize (Hdone p eq_refl). destruct H3.
  assert (Hall : submitted p = total ∧ o = []) by (destruct o; simpl in at_active0; [split; [lia|done]|lia]).
  destruct Hall as [Hs ->]. rewrite Hdone, Hs, at_active0, (at_end0 Hs), !Z.eqb_refl. apply wp_ret.
  split; [done|]. intros _. rewrite <-Hs. by split.
Qed.
End Run.

(** Without a device nothing is seen, and a wrong depth is refused. *)
Lemma tight_unseen {W} (hw : NvmeHw W) fuel addr lba bytes payload_bytes qd n w l :
  0 < bytes → dry_run (set n) = true ∨ ¬ 0 < qd <= Z.of_nat NVME_PENDING_CAPACITY → 0 <= qd →
  wp (nvme_write_contiguous_tight_qd_payload (watched hw) fuel addr lba bytes payload_bytes qd)
    (λ r st, st.2.2 = l ∧ (returned r = Some 0 → dry_run (set n) = true)) (n, (w, l)).
Proof.
  intros Hb Hn Hqd. unfold nvme_write_contiguous_tight_qd_payload. replace (bytes =? 0) with false by lia.
  destruct (_ <? _); [apply bind_quiet; [quiet|]; intros [] n1 w1 _; by apply wp_ret|].
  destruct (_ || _) eqn:Hq; [by apply tight_fail_spec|]. destruct Hn as [Hn|Hn]; [|lia]. apply bind_get.
  destruct (tight_refused _ _ _ _); [by apply tight_fail_spec|]. rewrite Hn.
  apply wp_quiet; [apply quiet_simulate|done].
Qed.
(** ** A queue that stays full *)
(** Without a command in flight the loop is not timed, and it does not look at
    the stop flag: it waits for the submission queue for ever. *)
Lemma tight_full_queue_spins {W} (hw : NvmeHw W) fuel qd bytes payload_bytes total p n w :
  (∀ w, negb (Z.land (reg_read32 hw (QUEUE_REG_OFFSET + QUEUE_TX_STATUS) w).1 QUEUE_SQ_FIFO_FULL =? 0) = true) →
  0 < qd → submitted p < total → active_qd (tight p) = 0 → completed (tight p) < total →
  (tight_loop hw fuel qd bytes payload_bytes total p (n, w)).1 = inl OutOfFuel.
Proof.
  intros Hfull Hqd Hs Ha Hc. revert n w. induction fuel as [|fuel IH]; intros n w; [done|]. cbn [tight_loop].
  replace (negb _) with false by lia.
  assert (Hfill : ∀ made, ∃ n' w', tight_fill hw (Z.to_nat qd) fuel qd bytes payload_bytes total made p (n, w) = (inr (p, made), (n', w'))).
  { intros made. destruct (Z.to_nat qd) as [|k] eqn:E; [lia|]. cbn [tight_fill]. replace (negb _) with false by lia.
    unfold sq_full, rd, sio, ebind. specialize (Hfull w). destruct (reg_read32 _ _ w) as [v w']. cbn [fst] in Hfull.
    unfold eret. rewrite Hfull. by eexists _, _. }
  destruct (Hfill false) as (n' & w' & Hf). unfold xbind at 1, ebind at 1. rewrite Hf. cbv beta iota.
  assert (Hpop : ∀ k made st, tight_pop hw k made p st = (inr (p, made), st)).
  { intros [|k] made st; [done|]. cbn [tight_pop]. by rewrite Ha. }
  unfold ebind at 1, get, sget. unfold xbind at 1, ebind at 1. rewrite Hpop.
  replace (_ && _) with true by lia. apply IH.
Qed.
End nvme_safety.
