(* ===== verification/NvmeProbeSafe.v ===== *)
(** * A probed channel is configured within its limits

    Whatever the environment holds and the device reports, the settings that a
    successful probe leaves are ones that the writers can use. *)
From stdpp Require Import gmap pretty.
From S2P Require Import Prelude StorageError CStdlib Config CcbTypes CrossSlot NvmeQueue NvmeConfig.

Module nvme_probe_safety.
Import c_stdlib storage_config ccb_types ccb_hw nvme_queue nvme_config.

(** ** Reading the configuration *)
(** The configuration that is loaded, if one is, is one that loading gives. *)
Definition conf_ok (s : config_state) : Prop :=
  ∀ c, g_config s = Some c → channels c = set_channel_profile (storage_profile c).
(** Only the deprecation warnings change. *)
Definition kept {A} (m : ceff A) : Prop := ∀ s, g_config (m s).2 = g_config s.

Lemma kept_ret {A} (a : A) : kept (eret a).
Proof. done. Qed.
Lemma kept_bind {A B} (m : ceff A) (k : A → ceff B) : kept m → (∀ a, kept (k a)) → kept (ebind m k).
Proof. intros Hm Hk s. unfold ebind. specialize (Hm s). destruct (m s) as [a s1]. simpl in *. by rewrite Hk. Qed.
Lemma kept_if {A} (b : bool) (m1 m2 : ceff A) : kept m1 → kept m2 → kept (if b then m1 else m2).
Proof. by destruct b. Qed.
Lemma kept_getenv n : kept (cgetenv n).
Proof. done. Qed.
Lemma kept_warn n : kept (warn_deprecated_once n).
Proof. intros s. unfold warn_deprecated_once. repeat case_match; done. Qed.
Create HintDb kept discriminated.
#[export] Hint Resolve kept_ret kept_bind kept_if kept_getenv kept_warn : kept.
Lemma kept_compat n : kept (storage_config_compat_getenv n).
Proof. unfold storage_config_compat_getenv, is_storage_worker_process, storage_config_legacy_compat_enabled. auto 12 with kept. Qed.
#[export] Hint Resolve kept_compat : kept.
Lemma kept_channel_env c p n : kept (channel_env c p n).
Proof. unfold channel_env. auto with kept. Qed.
#[export] Hint Resolve kept_channel_env : kept.
Lemma kept_common c p n : kept (channel_or_common c p n).
Proof. unfold channel_or_common. auto with kept. Qed.
#[export] Hint Resolve kept_common : kept.

(** *** Loading *)
Lemma kept_xbind {E A B} (m : ceff (E + A)) (k : A → ceff (E + B)) : kept m → (∀ a, kept (k a)) → kept (xbind m k).
Proof. intros. apply kept_bind; [done|]. intros [e|a]; [done|auto]. Qed.
Lemma kept_lift {A} (m : ceff A) : kept m → kept (lift m).
Proof. intros. by apply kept_bind. Qed.
#[export] Hint Resolve kept_xbind kept_lift : kept.
Lemma kept_read p l : kept (read_primary_or_legacy p l).
Proof. unfold read_primary_or_legacy. destruct l; auto 10 with kept. Qed.
Lemma kept_warn_present ns : kept (warn_present ns).
Proof. induction ns; simpl; auto 10 with kept. Qed.
Lemma kept_profile_warnings : kept warn_profile_overrides_once.
Proof. unfold warn_profile_overrides_once, is_storage_worker_process. auto 10 using kept_warn_present with kept. Qed.
Lemma kept_timeout p m d l : kept (load_timeout p m d l).
Proof. unfold load_timeout, lift_parse, xret. auto 15 with kept. Qed.
Lemma kept_interval : kept load_perf_interval.
Proof. unfold load_perf_interval, lift_parse, xret. auto 15 with kept. Qed.
Lemma kept_enabled : kept storage_config_legacy_compat_enabled.
Proof. unfold storage_config_legacy_compat_enabled. auto with kept. Qed.
#[export] Hint Resolve kept_read kept_profile_warnings kept_timeout kept_interval kept_enabled : kept.
Lemma kept_load : kept storage_config_load.
Proof.
  unfold storage_config_load. apply kept_xbind; [auto with kept|]. intros uart.
  apply kept_xbind; [auto with kept|]. intros lvl. destruct (parse_log_level lvl); [|done].
  apply kept_xbind; [auto with kept|]. intros prof. destruct (parse_profile prof); [|done].
  unfold xret. auto 20 with kept.
Qed.
Lemma load_channels s c s' : storage_config_load s = (inr c, s') → channels c = set_channel_profile (storage_profile c).
Proof.
  intros H. unfold storage_config_load in H.
  apply xbind_inr in H as (uart & s1 & _ & H). apply xbind_inr in H as (lvl & s2 & _ & H).
  destruct (parse_log_level lvl) as [level|]; [|done]. apply xbind_inr in H as (prof & s3 & _ & H).
  destruct (parse_profile prof) as [profile|]; [|done].
  do 7 (apply xbind_inr in H as (? & ? & _ & H)). by injection H as <- _.
Qed.
(** What a profile sets for the NVMe queue. *)
Definition profile_ok (p : ChannelStorageConfig) : Prop := command_bytes p = 256 * 1024 ∧ 1 <= nvme_qd p <= 8.
Lemma profile_of_ok c s : conf_ok s → wp (profile_of c) (λ p s', conf_ok s' ∧ ∀ q, p = Some q → profile_ok q) s.
Proof.
  intros Hs. unfold profile_of. apply wp_bind.
  assert (Hget : wp storage_config_get (λ conf s', conf_ok s' ∧ ∀ k, conf = Some k → channels k = set_channel_profile (storage_profile k)) s).
  { unfold wp, storage_config_get, storage_config_load_global. destruct (g_config s) as [k|] eqn:Hk.
    - simpl. split; [done|]. rewrite Hk. intros k' [= ->]. by apply Hs.
    - pose proof (kept_load s) as Hkept. rewrite Hk in Hkept. destruct (storage_config_load s) as [[e|k] s1] eqn:Hl; simpl in *.
      + split; [|done]. intros k. by rewrite Hkept.
      + apply load_channels in Hl. split; [by intros k' [= ->]|by intros k' [= ->]]. }
  eapply wp_mono; [exact Hget|]. intros conf s' [Hs' Hc]. apply wp_ret. split; [done|]. intros q Hq.
  unfold storage_config_channel in Hq. destruct conf as [k|]; [|done]. simpl in Hq. case_match; [|done].
  rewrite (Hc k eq_refl) in Hq. apply list_elem_of_lookup_2 in Hq. unfold set_channel_profile in Hq. simpl in Hq.
  unfold profile_ok. repeat (apply elem_of_cons in Hq as [->|Hq]; [destruct (storage_profile k); vm_compute; intuition congruence|]).
  by apply not_elem_of_nil in Hq.
Qed.

(** *** The parsers *)
Definition gives {A} (m : ceff A) (P : A → Prop) : Prop := ∀ s, conf_ok s → wp m (λ a s', conf_ok s' ∧ P a) s.
Lemma gives_bind {A B} (m : ceff A) (k : A → ceff B) P Q :
  gives m P → (∀ a, P a → gives (k a) Q) → gives (ebind m k) Q.
Proof.
  intros Hm Hk s Hs. apply wp_bind. eapply wp_mono; [by apply Hm|]. intros a s1 [Hs1 Ha]. by apply Hk.
Qed.
Lemma gives_ret {A} (a : A) (P : A → Prop) : P a → gives (eret a) P.
Proof. intros Ha s Hs. by apply wp_ret. Qed.
Lemma gives_kept {A} (m : ceff A) : kept m → gives m (λ _, True).
Proof. intros Hm s Hs. unfold wp. split; [|done]. intros c. rewrite Hm. apply Hs. Qed.
Lemma number_of_range v z : number_of v = Some (Some z) → is_u64 z.
Proof. unfold number_of. destruct v as [s|]; [|done]. destruct (non_empty _); [|done].
  intros [= H]. by eapply strtoul_full_range; [|done]. Qed.

Lemma u32_env_gives c p fallback max :
  0 <= fallback <= max → gives (parse_channel_u32_env c p fallback max) (λ v, 0 <= v <= max).
Proof.
  intros Hf. unfold parse_channel_u32_env. eapply gives_bind; [apply gives_kept; auto with kept|]. intros v _. apply gives_ret.
  destruct (number_of v) as [[z|]|] eqn:Hz; [|done..]. apply number_of_range in Hz. case_match; cint.
Qed.
Lemma ring_gives c : ccb_types.dma_ring_bytes c <= dma_ring_bytes_max c → ccb_types.dma_ring_bytes c mod SECTOR_SIZE = 0 → 
  gives (parse_storage_ring_bytes c) (λ v, v = ccb_types.dma_ring_bytes c ∨ 0 < v <= dma_ring_bytes_max c ∧ v mod SECTOR_SIZE = 0).
Proof.
  intros Hle Hmod. unfold parse_storage_ring_bytes. eapply gives_bind; [apply gives_kept; auto with kept|]. intros v _. apply gives_ret.
  destruct (number_of v) as [[z|]|] eqn:Hz; [|by left..]. apply number_of_range in Hz.
  destruct (_ || _) eqn:Hbad; [by left|]. destruct (_ <? _) eqn:Hmax; [by left|]. right. apply orb_false_iff in Hbad as [Hz0 Hbad].
  apply negb_false_iff, Z.eqb_eq in Hbad. split; [|done]. cint_unfold. destruct (_ || _); lia.
Qed.
Lemma cmd_kib_gives c : gives (parse_nvme_cmd_kib c) (λ k, k ∈ [256; 512; 1024; 2048; 4096]).
Proof.
  unfold parse_nvme_cmd_kib, channel_default_nvme_cmd_kib.
  eapply gives_bind; [apply gives_kept; auto with kept|]. intros own _.
  apply (gives_bind _ _ (λ k, k = 256)).
  { eapply gives_bind; [exact (profile_of_ok c)|]. intros p Hp. apply gives_ret. destruct p as [q|]; [|done].
    destruct (Hp q eq_refl) as [-> _]. done. }
  intros fallback ->. eapply gives_bind; [apply gives_kept; auto with kept|]. intros v _. apply gives_ret.
  destruct (number_of v) as [[z|]|]; [|by left..]. destruct (_ || _) eqn:Hbad; [by left|].
  apply orb_false_iff in Hbad as [_ Hbad%negb_false_iff]. by apply bool_decide_eq_true in Hbad.
Qed.
Lemma qd_gives c : gives (parse_nvme_qd c) (λ q, 1 <= q <= 32).
Proof.
  unfold parse_nvme_qd, channel_default_nvme_qd.
  eapply gives_bind; [apply gives_kept; auto with kept|]. intros own _.
  apply (gives_bind _ _ (λ q, 1 <= q <= 8)).
  { eapply gives_bind; [exact (profile_of_ok c)|]. intros p Hp. apply gives_ret. destruct p as [q|].
    - by destruct (Hp q eq_refl).
    - unfold nvme_default_qd_for_channel, NVME_QD_HIGH_DEFAULT, NVME_QD_DEFAULT. case_match; lia. }
  intros fallback Hf. eapply gives_bind; [apply gives_kept; auto with kept|]. intros v _. apply gives_ret.
  destruct (number_of v) as [[z|]|] eqn:Hz; [|lia..]. apply number_of_range in Hz.
  destruct (_ || _) eqn:Hbad; [lia|]. unfold NVME_QD_SAFETY_MAX in Hbad. rewrite u32_small by cint. cint.
Qed.

(** ** The command size *)
Lemma safe_limit_spec m :
  0 <= m → 512 <= safe_limit_of m <= 4194304 ∧ safe_limit_of m mod 512 = 0 ∧ (512 <= m → safe_limit_of m <= m).
Proof.
  intros Hm. unfold safe_limit_of, NVME_CMD_KIB_MAX, NVME_SECTOR_BYTES. change (4096 * 1024) with 4194304.
  set (l := if _ && _ then m else 4194304). assert (Hl : 0 < l <= 4194304 ∧ (512 <= m → l <= m) ∨ l = 4194304 ∧ m = 0).
  { unfold l. destruct (_ && _) eqn:E; lia. }
  clearbody l. pose proof (Z.div_mod l 512). pose proof (Z.mod_pos_bound l 512).
  assert (Hd : (l - l mod 512) mod 512 = 0) by (replace (l - l mod 512) with (l / 512 * 512) by lia; by apply Z.mod_mul).
  destruct (_ <? _) eqn:E; split_and!; try done; lia.
Qed.
Lemma best_candidate_spec l safe req eff :
  (∀ k, k ∈ l → 256 <= k) → 512 <= eff <= safe → eff mod 512 = 0 →
  512 <= best_candidate l safe req eff <= safe ∧ best_candidate l safe req eff mod 512 = 0.
Proof.
  revert eff. induction l as [|k l IH]; intros eff Hl He Hm; [done|]. cbn [best_candidate].
  destruct (_ || _) eqn:E; [done|]. specialize (Hl k ltac:(by left)) as Hk. apply IH; [set_solver|lia|].
  replace (k * 1024) with (k * 2 * 512) by lia. by apply Z.mod_mul.
Qed.
Lemma effective_spec kib m :
  kib ∈ [256; 512; 1024; 2048; 4096] → 0 <= m →
  let e := effective_command_bytes kib m in 512 <= e <= 4194304 ∧ e mod 512 = 0 ∧ (512 <= m → e <= m).
Proof.
  intros Hk Hm e. destruct (safe_limit_spec m Hm) as (Hs & Hsm & Hle).
  assert (Hkib : 256 <= kib <= 4096).
  { repeat (apply elem_of_cons in Hk as [->|Hk]; [lia|]). by apply not_elem_of_nil in Hk. }
  unfold e, effective_command_bytes. destruct (_ <? _) eqn:E.
  - destruct (best_candidate_spec [256; 512; 1024; 2048; 4096] (safe_limit_of m) (kib * 1024) (safe_limit_of m)) as [H1 H2];
      [|lia|done|split_and!; try done; lia].
    intros k Hin. repeat (apply elem_of_cons in Hin as [->|Hin]; [lia|]). by apply not_elem_of_nil in Hin.
  - split_and!; [lia|lia| |lia]. replace (kib * 1024) with (kib * 2 * 512) by lia. by apply Z.mod_mul.
Qed.

(** ** The settings *)
Record configured (n : Nvme) : Prop := {
  cf_block : nvme_block_size (set n) = NVME_SECTOR_BYTES;
  cf_dts : NVME_SECTOR_BYTES <= nvme_max_dts_bytes (set n) <= UINT32_MAX;
  cf_size : NVME_SECTOR_BYTES <= nvme_cmd_size_bytes (set n) <= nvme_max_dts_bytes (set n);
  cf_aligned : nvme_cmd_size_bytes (set n) mod NVME_SECTOR_BYTES = 0;
  cf_sectors : nvme_cmd_sectors (base n) = nvme_cmd_size_bytes (set n) / NVME_SECTOR_BYTES ∧
               0 < nvme_cmd_sectors (base n) <= UINT16_MAX;
  cf_depth : 0 < nvme_qd_effective (set n) <= Z.of_nat NVME_PENDING_CAPACITY;
  cf_requested : nvme_qd_requested (set n) = nvme_qd_effective (set n);
  cf_batch : 0 < nvme_cq_pop_batch (set n) <= NVME_QD_SAFETY_MAX;
  cf_poll : 0 <= nvme_busy_poll_us (set n) <= 1000000 ∧ 0 <= nvme_poll_sleep_us (set n) <= 1000000;
  cf_capacity : nvme_max_lba (base n) ≠ 0;
  cf_conf : conf_ok (conf n) }.

(** Follow the settings back to where they were written. *)
Ltac chase := repeat match goal with
  | H : set ?n = _ |- context [set ?n] => rewrite H; cbv [upd]; cbn
  | H : base ?n = _ |- context [base ?n] => rewrite H; cbv [upd]; cbn
  | H : conf ?n = _ |- context [conf ?n] => rewrite H; cbv [upd]; cbn end.

Section Probe.
Context {W : Type} (hw : NvmeHw W).
Lemma bind_config {A B} (m : ceff A) (k : A → M (W := W) B) P Q n w :
  gives m P → conf_ok (conf n) →
  (∀ a n', set n' = set n → base n' = base n → conf_ok (conf n') → P a → wp (k a) Q (n', w)) →
  wp (ebind (in_config m) k) Q (n, w).
Proof.
  intros Hm Hn Hk. apply wp_bind. specialize (Hm (conf n) Hn). unfold wp in Hm. unfold wp at 1, in_config.
  destruct (m (conf n)) as [a c]. destruct Hm as [Hc Ha]. by apply Hk.
Qed.
Lemma bind_set {B} f (k : unit → M (W := W) B) Q n w :
  (∀ n', set n' = f (set n) → base n' = base n → conf n' = conf n → wp (k tt) Q (n', w)) →
  wp (ebind (mod_set f) k) Q (n, w).
Proof. intros Hk. by apply wp_bind, wp_smod, Hk. Qed.
Lemma bind_base {B} f (k : unit → M (W := W) B) Q n w :
  (∀ n', set n' = set n → base n' = f (base n) → conf n' = conf n → wp (k tt) Q (n', w)) →
  wp (ebind (mod_base f) k) Q (n, w).
Proof. intros Hk. by apply wp_bind, wp_smod, Hk. Qed.

Lemma wp_set f (Q : unit → Nvme * W → Prop) n w :
  (∀ n', set n' = f (set n) → base n' = base n → conf n' = conf n → Q tt (n', w)) → wp (mod_set f) Q (n, w).
Proof. intros Hk. by apply wp_smod, Hk. Qed.

Lemma configure_spec n w :
  nvme_block_size (set n) = NVME_SECTOR_BYTES → NVME_SECTOR_BYTES <= nvme_max_dts_bytes (set n) <= UINT32_MAX →
  nvme_max_lba (base n) ≠ 0 → conf_ok (conf n) →
  wp (nvme_configure_runtime (W := W)) (λ _ st, configured st.1 ∧ cfg (set st.1) = cfg (set n)) (n, w).
Proof.
  intros Hb Hd Hl Hc. unfold nvme_configure_runtime. apply wp_bind, wp_sget. cbv zeta.
  eapply bind_config; [apply cmd_kib_gives|done|]. intros kib n1 S1 B1 Hc1 Hk.
  destruct (effective_spec kib (nvme_max_dts_bytes (set n)) Hk) as (He & Hm & Hle); [unfold NVME_SECTOR_BYTES in Hd; lia|].
  specialize (Hle ltac:(unfold NVME_SECTOR_BYTES in Hd; lia)). rewrite u32_small by cint.
  set (size := effective_command_bytes _ _) in *. clearbody size. clear Hk.
  apply bind_set. intros n2 S2 B2 C2. apply bind_base. intros n3 S3 B3 C3.
  eapply bind_config; [apply qd_gives|by chase|]. intros qd n4 S4 B4 Hc4 Hqd. cbv beta in Hqd.
  replace (NVME_QD_SAFETY_MAX <? qd) with false by (unfold NVME_QD_SAFETY_MAX; lia).
  apply bind_set. intros n5 S5 B5 C5. eapply (bind_config _ _ (λ _, True)); [|by chase|].
  { unfold parse_nvme_feed_mode. eapply gives_bind; [apply gives_kept; auto with kept|]. intros v _. by apply gives_ret. }
  intros mode n6 S6 B6 Hc6 _. apply bind_set. intros n7 S7 B7 C7.
  eapply bind_config; [apply u32_env_gives; unfold NVME_QD_SAFETY_MAX; lia|by chase|]. intros batch n8 S8 B8 Hc8 Hbatch. 
  apply bind_set. intros n9 S9 B9 C9.
  eapply bind_config; [apply gives_kept; unfold hw_env_flag_enabled; auto with kept|by chase|]. intros diag n10 S10 B10 Hc10 _.
  apply bind_base. intros n11 S11 B11 C11.
  eapply bind_config; [apply gives_kept; unfold hw_env_flag_enabled; auto with kept|by chase|]. intros skip n12 S12 B12 Hc12 _.
  apply bind_set. intros n13 S13 B13 C13.
  eapply bind_config; [apply u32_env_gives; unfold NVME_BUSY_POLL_US_DEFAULT; lia|by chase|]. intros busy n14 S14 B14 Hc14 Hbusy.
  apply bind_set. intros n15 S15 B15 C15.
  eapply bind_config; [apply u32_env_gives; unfold NVME_POLL_SLEEP_US_DEFAULT; lia|by chase|]. intros sleep n16 S16 B16 Hc16 Hsleep.
  apply wp_set. intros n17 S17 B17 C17. cbv beta in *. unfold NVME_QD_SAFETY_MAX, NVME_SECTOR_BYTES in *.
  assert (Hsec : 0 < size / 512 <= UINT16_MAX).
  { split; [apply Z.div_str_pos; lia|]. apply Z.div_le_upper_bound; cint. }
  split; [|by cbn [fst]; chase]. split; cbn [fst]; chase; unfold NVME_QD_SAFETY_MAX, NVME_SECTOR_BYTES; try done; try lia.
  - change (Z.of_nat NVME_PENDING_CAPACITY) with 32. lia.
  - destruct (batch =? 0) eqn:E; lia.
Qed.

(** *** The probe *)
(** What waiting and reading leave alone. *)
Definition same_cfg (n n' : Nvme) : Prop :=
  cfg (set n') = cfg (set n) ∧ conf n' = conf n ∧ dry_run (set n') = dry_run (set n).
#[local] Abbreviation M := (M (W := W)).
Definition calm {A} (m : M A) : Prop := ∀ n w, wp m (λ _ st, same_cfg n st.1) (n, w).
#[export] Instance same_cfg_preorder : PreOrder same_cfg.
Proof. split; [by intros n|]. intros n1 n2 n3 (?&?&?) (?&?&?). split_and!; congruence. Qed.
Lemma calm_sio {A} (m : Eff W A) : calm (sio m).
Proof. intros n w. by apply wp_sio_any. Qed.
Lemma calm_ret {A} (x : A) : calm (eret x).
Proof. done. Qed.
Lemma calm_bind {A B} (m : M A) (k : A → M B) : calm m → (∀ x, calm (k x)) → calm (ebind m k).
Proof.
  intros Hm Hk n w. apply wp_bind. eapply wp_mono; [apply Hm|]. intros x [n1 w1] H1. cbn in H1.
  eapply wp_mono; [apply Hk|]. intros y st H2. by etrans.
Qed.
Lemma calm_wait fuel a b c d e : calm (wait_loop hw fuel a b c d e).
Proof.
  induction fuel as [|fuel IH]; cbn [wait_loop]; [done|]. apply calm_bind; [apply calm_bind; [apply calm_sio|done]|].
  intros t. destruct (negb _); [done|]. apply calm_bind; [apply calm_sio|]. intros v.
  destruct (_ =? _); [done|]. apply calm_bind; [apply calm_sio|done].
Qed.
Lemma calm_links fuel : calm (nvme_wait_links hw fuel).
Proof.
  unfold nvme_wait_links, wait_reg_bits. apply calm_bind; [done|]. intros n. destruct (skip_link_check _); [done|].
  apply calm_bind; [apply calm_bind; [apply calm_sio|intros; apply calm_wait]|]. intros [e|pcie]; [done|].
  destruct (negb _); [by apply calm_bind; [apply calm_sio|]|].
  apply calm_bind; [apply calm_bind; [apply calm_sio|intros; apply calm_wait]|]. intros [e|link]; [done|].
  destruct (negb _); [by apply calm_bind; [apply calm_sio|]|done].
Qed.
(** What the device must have reported. *)
Definition usable (n : Nvme) : Prop :=
  nvme_block_size (set n) = NVME_SECTOR_BYTES ∧ NVME_SECTOR_BYTES <= nvme_max_dts_bytes (set n) <= UINT32_MAX ∧
  nvme_max_lba (base n) ≠ 0.
Definition capability_post (n : Nvme) (rc : Z) (st : Nvme * W) : Prop :=
  same_cfg n st.1 ∧ (rc = 0 → usable st.1).
Lemma refuse_spec reason n n1 w : same_cfg n n1 →
  wp (let! _ := set_last_error (W := W) reason in eret (-1)) (capability_post n) (n1, w).
Proof. intros H. by apply wp_bind, wp_smod, wp_ret. Qed.
Lemma capability_spec n w :
  wp (nvme_read_capability hw) (capability_post n) (n, w).
Proof.
  unfold nvme_read_capability. apply wp_bind, wp_sio_any. intros status w1. cbv zeta.
  assert (Hexp : 0 <= Z.land (Z.shiftr status 29) 0x1F) by (apply Z.land_nonneg; by right).
  assert (Hblocks : 0 <= Z.land (Z.shiftr status 16) 0x1FFF < 2 ^ 13).
  { change 0x1FFF with (Z.ones 13). rewrite Z.land_ones by lia. apply Z.mod_pos_bound. lia. }
  set (blk := Z.land _ 0x1F) in *. set (blocks := Z.land _ 0x1FFF) in *. clearbody blk blocks.
  destruct (22 <? blk); [by apply (refuse_spec _ n)|]. apply bind_set. intros n1 S1 B1 C1.
  destruct (negb _) eqn:Hb; [apply (refuse_spec _ n); unfold same_cfg; by chase|].
  apply negb_false_iff, Z.eqb_eq in Hb. rewrite Hb. set (k := if blocks =? 0 then 512 else blocks).
  assert (Hk : 0 < k <= 8192) by (unfold k; destruct (blocks =? 0) eqn:E; lia). clearbody k.
  destruct (_ <? _) eqn:Hmax; [apply (refuse_spec _ n); unfold same_cfg; by chase|].
  apply bind_set. intros n2 S2 B2 C2. apply wp_bind, wp_sio_any. intros lo w2. apply wp_bind, wp_sio_any. intros hi w3.
  apply bind_base. intros n3 S3 B3 C3. destruct (_ =? 0) eqn:Hlba.
  { apply (refuse_spec _ n). unfold same_cfg. by chase. }
  apply wp_bind, wp_sio_any. intros ? w4. apply wp_bind, wp_sio_any. intros ? w5. apply wp_ret. split.
  { unfold same_cfg. cbn [fst]. by chase. }
  intros _. unfold usable. cbn [fst]. unfold NVME_SECTOR_BYTES in *. rewrite u32_small in S2 by cint. chase. split_and!; cint.
Qed.
End Probe.

(** C40: Whatever the environment holds and the device reports, a probe that succeeds leaves settings that the
    writers can use: a block is a sector, a command is a whole number of sectors, at least one and no more than the
    device transfers or a submission can name, the queue depth fits the table of pending commands, the limits of
    polling are in range and the capacity is known. *)
Theorem probe_configures {W} (hw : NvmeHw W) fuel n w n' w' :
  conf_ok (conf n) → nvme_probe hw fuel (n, w) = (inr 0, (n', w')) → configured n' ∧ cfg (set n') = cfg (set n).
Proof.
  intros Hc Hrun. cut (wp (nvme_probe hw fuel) (λ r st, r = inr 0 → configured st.1 ∧ cfg (set st.1) = cfg (set n)) (n, w)).
  { unfold wp. rewrite Hrun. intros H. by apply H. }
  clear Hrun n' w'. unfold nvme_probe. apply wp_bind, wp_sget. destruct (dry_run (set n)).
  - apply bind_set. intros n1 S1 B1 C1. apply bind_base. intros n2 S2 B2 C2. apply wp_bind.
    eapply wp_mono; [apply configure_spec; [by chase..|by chase]|].
    intros [] st [H1 H2]. apply wp_ret. intros _. split; [done|]. rewrite H2. by chase.
  - apply wp_xbind. eapply wp_mono; [apply calm_links|]. intros [e|links] [n1 w1] H1; [done|]. cbn in H1.
    destruct (negb _); [by apply wp_ret|]. apply wp_bind. eapply wp_mono; [apply capability_spec|].
    intros rc [n2 w2] [H2 Hrc]. cbn in H2, Hrc. destruct (negb _) eqn:E; [by apply wp_ret|].
    destruct Hrc as (Hb&Hd&Hl); [lia|]. apply wp_bind. destruct H1 as (E1&E2&_), H2 as (E3&E4&_).
    eapply wp_mono; [apply configure_spec; [done|done|done|by rewrite E4, E2]|].
    intros [] st [H3 H4]. apply wp_ret. intros _. split; [done|]. by rewrite H4, E3.
Qed.

(** A device with both links up that transfers 1024 blocks at a time. *)
Definition example_device : NvmeHw unit :=
  mkHw (λ off, eret (if off =? GENERIC_NVM_STATUS then 1024 * 65536 + 4096 + 256
                     else if off =? GENERIC_MAXLBA_L then 1000000 else 0))
    (λ _ _, eret tt) (eret 1000) (λ _, eret tt) (eret tt) (eret false).
Definition unprobed : Nvme :=
  mkNvme (mkRt 1 0 0 false 0 0 0 0 0 0 0 0 0 0 0 0 0 0 0 0 0 0 0 0 "")
    (mkSettings (mkChannel 0 "example" 1 0 0 0 0 0 0 0 0 0x10000000 0 0 0 0) false false 1000 0 0 0 0 0
       NVME_FEED_MODE_LEGACY 0 false 0 0 65536)
    (mkCounters 0 0 0 0 0 0 0 0 0 0 0 0 0 0) false (witness_state [("SRC_REAL_NVME_CMD_KIB", "4096"); ("CCB_STORAGE_COMPAT_MODE", "1")]%string).
Lemma probe_configures_witness :
  ∃ n', (nvme_probe example_device 5 (unprobed, tt)).1 = inr 0 ∧ configured n' ∧ nvme_cmd_size_bytes (set n') = 524288.
Proof.
  destruct (nvme_probe example_device 5 (unprobed, tt)) as [r [n' []]] eqn:E.
  assert (Hr : r = inr 0) by (change r with ((r, (n', tt)).1); rewrite <-E; vm_compute; done). subst r.
  exists n'. split; [done|]. split.
  - apply (probe_configures example_device 5 unprobed tt n' tt); [done|exact E].
  - change n' with ((@inr leave Z 0, (n', tt)).2.1). rewrite <-E. vm_compute. done.
Defined.
End nvme_probe_safety.
