(* ===== verification/NvmeSlotSafe.v ===== *)
(** * A slot is written exactly once, in order, whichever writer does it

    The slot writer keeps to its plan like the tight writer does ([NvmeSafe]);
    the theorem is about the entry point that chooses between them. *)
From stdpp Require Import gmap pretty.
From S2P Require Import Prelude StorageError CStdlib Config CcbTypes CrossSlot CrossSlotSpec CrossSlotSafe WriteQueue NvmeQueue NvmeConfig NvmeWrite NvmeSlot NvmeDevice NvmePlan NvmeSafe NvmeProbeSafe.

Module nvme_slot_safety.
Import ccb_hw cross_slot_protocol nvme_queue nvme_write nvme_slot nvme_device nvme_plan.

Section Slot.
Context {W : Type} (hw : NvmeHw W) (f : RegFile) (S0 : Settings).
Context (limit qd sectors payload_bytes lba addr : Z).
#[local] Abbreviation size := (limit * NVME_SECTOR_BYTES).
#[local] Abbreviation bytes := (sectors * NVME_SECTOR_BYTES).
#[local] Abbreviation total := (plan_total size bytes).
#[local] Abbreviation plan k := (nvme_plan.plan size bytes lba addr k).
#[local] Abbreviation good l := (nvme_plan.good f size qd bytes lba addr l).
#[local] Abbreviation complete l := (nvme_plan.complete f size qd bytes lba addr l).
#[local] Abbreviation took k o l := (nvme_plan.took f size qd bytes lba addr k o l).
#[local] Abbreviation log l := (device f l).2.
#[local] Abbreviation nv_ok n := (nvme_safety.nv_ok S0 n).
Context (Hargs : write_args size bytes lba addr) (Hqd : 0 < qd <= Z.of_nat NVME_PENDING_CAPACITY)
  (Hdry : dry_run S0 = false).
#[local] Set Default Proof Using "Hargs Hqd Hdry".

(** [k] commands have been issued, [o] are the device's. *)
Record slot_at (b : Batch) (k : Z) (o : list Z) (n : Nvme) (l : list Raw) : Prop := {
  sl_nv : nv_ok n;
  sl_k : 0 <= k <= total;
  sl_plan : what <$> issued (log l) = plan k;
  sl_own : follow qd nothing_owned (log l) = Some (mkOwned o false);
  sl_table : table_ok (pend b) o;
  sl_next : next_submit_sector (ctx b) = Z.min (k * limit) sectors;
  sl_ctx : total_sectors (ctx b) = sectors ∧ base_lba (ctx b) = lba ∧ base_ddr_addr (ctx b) = addr ∧
           failed_cmds (ctx b) = 0;
  sl_inflight : inflight_cmds (ctx b) = Z.of_nat (length o) ∧ inflight_cmds (ctx b) <= qd;
  sl_counts : submitted_cmds (ctx b) = u32 k ∧ completed_cmds (ctx b) = u32 (k - Z.of_nat (length o)) }.
(** Leaving early. *)
Definition exit_post (e : leave) (l : list Raw) : Prop := e ≠ DivideByZero ∧ good l ∧ (e = Return 0 → complete l).

Lemma at_alike b k o n n' l : slot_at b k o n l → alike n n' → slot_at b k o n' l.
Proof using Type. intros [] H. split; try done. by eapply nvme_safety.nv_alike. Qed.
Lemma at_good b k o n l : slot_at b k o n l → good l.
Proof using Type. intros []. by eexists _, _. Qed.
Lemma fail_exit rc l : rc ≠ 0 → good l → exit_post (Return rc) l.
Proof using Type. intros Hrc Hl. split_and!; [done|done|]. by intros [= ->]. Qed.
Lemma fuel_exit l : good l → exit_post OutOfFuel l.
Proof using Type. intros Hl. by split_and!. Qed.

(** *** The numbers *)
Lemma limit_pos : 0 < limit ∧ size / NVME_SECTOR_BYTES = limit ∧ bytes_to_sectors bytes = sectors ∧ 0 < sectors.
Proof using Hargs.
  clear Hdry Hqd. destruct Hargs. unfold NVME_SECTOR_BYTES in *. split_and!; try lia; [by apply Z.div_mul|].
  rewrite sectors_of by cint. unfold NVME_SECTOR_BYTES. symmetry. apply (Z.div_unique _ _ _ 511); lia.
Qed.
Lemma more_left k : 0 <= k → k < total ↔ Z.min (k * limit) sectors < sectors.
Proof using Hargs.
  clear Hdry Hqd. intros Hk. rewrite (total_spec _ _ _ _ Hargs) by done. unfold NVME_SECTOR_BYTES. lia.
Qed.
Lemma slot_command_at b k o n l cid us :
  slot_at b k o n l → k < total →
  let s := next_sectors (ctx b) limit in
  let cmd := slot_command (ctx b) payload_bytes cid s us in
  p_cid cmd = cid ∧ 0 < s <= UINT32_MAX ∧ s = bytes_to_sectors (chunk size bytes k) ∧
  (p_sectors cmd, p_lba cmd, p_ddr_addr cmd) = (s, lba + k * limit, addr + k * size) ∧
  Z.min (k * limit) sectors + s = Z.min ((k + 1) * limit) sectors ∧
  is_u64 (p_lba cmd) ∧ is_u64 (p_ddr_addr cmd).
Proof using Hargs.
  clear Hdry Hqd. intros [] Hk. destruct limit_pos as (Hl&_&Hs&Hs0). destruct sl_ctx0 as (Et&El&Ea&_).
  assert (Hb : k * limit < sectors) by (apply more_left in Hk; lia). destruct Hargs. rewrite Hs in wa_lba0.
  assert (Hk0 : 0 <= k * limit) by (apply Z.mul_nonneg_nonneg; lia). unfold NVME_SECTOR_BYTES in *.
  assert (Hn : next_sectors (ctx b) limit = Z.min limit (sectors - k * limit)).
  { unfold next_sectors. rewrite Et, sl_next0, u64_small by cint. replace (Z.min (k * limit) sectors) with (k * limit) by lia.
    rewrite u32_small by (case_match; cint). case_match; lia. }
  cbv zeta. cbn [slot_command p_cid p_sectors p_lba p_ddr_addr]. unfold NVME_SECTOR_BYTES.
  rewrite Hn, El, Ea, sl_next0. replace (Z.min (k * limit) sectors) with (k * limit) by lia.
  rewrite (u64_small (k * limit * 512)), !u64_small by cint.
  assert (Hc : chunk (limit * 512) (sectors * 512) k = Z.min limit (sectors - k * limit) * 512) by (unfold chunk; lia).
  split_and!; try done; try lia; try cint.
  - rewrite Hc, sectors_of by cint. unfold NVME_SECTOR_BYTES. apply (Z.div_unique _ _ _ 511); lia.
  - f_equal; lia.
Qed.

(** *** Submitting *)
Lemma slot_submit_at fuel b k o n l w cid us :
  slot_at b k o n l → k < total → inflight_cmds (ctx b) < qd → cid ∉ o →
  let cmd := slot_command (ctx b) payload_bytes cid (next_sectors (ctx b) limit) us in
  wp (nvme_submit_write_async (watched hw) fuel (p_cid cmd) (p_lba cmd) (p_sectors cmd) (p_ddr_addr cmd))
    (λ r st, nv_ok st.1 ∧ match r with
      | inl e => e = OutOfFuel ∧ good st.2.2
      | inr rc =>
          if bool_decide (rc = NVME_SUBMIT_ACCEPTED ∨ rc = NVME_SUBMIT_ACCEPTANCE_UNKNOWN)
          then took k (cid :: o) st.2.2 else log st.2.2 = log l end) (n, (w, l)).
Proof.
  intros H Hk Hq Hcid cmd. destruct (slot_command_at _ _ _ _ _ cid us H Hk) as (Hcc&Hs&Hsc&Hcmd&_&Hl&Ha). fold cmd in Hcc, Hcmd, Hl, Ha.
  clearbody cmd. simplify_eq.
  assert (Htook : ∀ l', submitted_as f NVM_WRITE (p_cid cmd) (p_lba cmd) (p_sectors cmd) (p_ddr_addr cmd) l l' → took k (p_cid cmd :: o) l').
  { intros l' Hl'. destruct H. apply (issue_took f size qd bytes lba addr k o
      (mkCommand NVM_WRITE (p_cid cmd) (p_lba cmd) (p_sectors cmd) (p_ddr_addr cmd)) l l'); try done; [lia|lia|].
    destruct limit_pos as (_&Hls&_). unfold plan_entry, what. cbn. rewrite Hls. congruence. }
  eapply wp_mono.
  - apply (submit_async_spec hw f); [unfold NVM_WRITE; lia|by rewrite (proj1 (sl_nv _ _ _ _ _ H))|done|done|cint].
  - intros r st [Hn Hr]. split; [by eapply nvme_safety.nv_alike; [apply H|]|].
    destruct r as [e|rc]; [destruct Hr as [-> Hr]|].
    + split; [done|]. eapply took_good; [|by apply Htook]. pose proof (sl_k _ _ _ _ _ H). lia.
    + case_bool_decide; [by apply Htook|done].
Qed.
Lemma posted_at b k o n n' l l' i q cid us :
  slot_at b k o n l → k < total → inflight_cmds (ctx b) < qd → cid ∉ o →
  nvme_find_free_pending (pend b) = Some (i, q) → nv_ok n' → took k (cid :: o) l' →
  let s := next_sectors (ctx b) limit in
  slot_at (mkBatch (<[i := slot_command (ctx b) payload_bytes cid s us]> (pend b)) (post_command s (ctx b))) (k + 1) (cid :: o) n' l'.
Proof.
  intros H Hk Hq Hcid Hi Hn [Hpl Hfo] s. destruct (slot_command_at _ _ _ _ _ cid us H Hk) as (Hcc&Hs&_&_&Hnext&_). fold s in Hcc, Hs, Hnext.
  destruct H. destruct (table_add _ o i q (slot_command (ctx b) payload_bytes cid s us) sl_table0 Hi) as [Ht _]; [done|by rewrite Hcc|].
  rewrite Hcc in Ht. destruct sl_inflight0 as [Ei Hle], sl_counts0 as [Es Ec], sl_ctx0 as (Et&El&Ea&Ef).
  assert (Hq32 : qd <= 32) by exact (proj2 Hqd). destruct limit_pos as (Hlim&_&_&Hsec). destruct Hargs.
  assert (Hu : is_u64 (next_submit_sector (ctx b) + s)) by (unfold NVME_SECTOR_BYTES in *; cint).
  split; cbn [pend ctx]; try done; try lia.
  - change (next_submit_sector (post_command s (ctx b))) with (u64 (next_submit_sector (ctx b) + s)).
    by rewrite u64_small, sl_next0 by done.
  - change (inflight_cmds (post_command s (ctx b))) with (u32 (inflight_cmds (ctx b) + 1)). rewrite u32_small by cint.
    cbn [length]. lia.
  - change (submitted_cmds (post_command s (ctx b))) with (u32 (submitted_cmds (ctx b) + 1)).
    change (completed_cmds (post_command s (ctx b))) with (completed_cmds (ctx b)). rewrite Es, Ec. cbn [length]. split.
    + unfold u32, uwrap. by rewrite Zplus_mod_idemp_l.
    + f_equal. lia.
Qed.
Lemma slot_cid_at b k o n l cid r :
  slot_at b k o n l → nvme_alloc_cid (base n) (pend b) = (cid, r) →
  slot_at b k o (n <| base := r |>) l ∧ (∀ c, cid = Some c → c ∉ o).
Proof using Type.
  intros [] Hr. destruct sl_nv0 as [Hn Hid]. destruct (alloc_alike _ _ _ _ Hid Hr) as [? _]. split.
  - split; try done.
  - intros c ->. eapply table_fresh; [done| |done]. done.
Qed.

(** *** Completions *)
Lemma slot_quiet_account a : quiet (account_active (watched hw) a).
Proof using Type.
  unfold account_active. quiet. apply quiet_base. intros r.
  destruct (active_alike a x r) as [H1 H2]. by rewrite <-H1, <-H2.
Qed.
Lemma quiet_event inflight us : quiet (W := W) (mod_base (λ r, nvme_record_active_qd_event inflight (nvme_update_active_qd inflight us r))).
Proof using Type. apply quiet_base. intros r. destruct (active_alike inflight us r) as [H1 H2]. by rewrite <-H1, <-H2. Qed.
Lemma settled_at b k o n l0 l cpl i e :
  slot_at b k o n l0 → log l = log l0 ++ [Pop cpl] → nvme_find_pending_by_cid (pend b) (cpl_cid cpl) = Some (i, e) →
  cpl_error cpl = false →
  ∃ o', slot_at (mkBatch (clear_pending i e (pend b)) ((ctx b) <| completed_cmds ::= λ n, u32 (n + 1) |> <| inflight_cmds ::= λ n, u32 (n - 1) |>))
    k o' n l.
Proof.
  intros [] Hl Hf Hc. destruct (table_remove _ _ _ _ _ sl_table0 Hf) as (Hin&Ht&Hlen).
  destruct (pop_follows f qd l0 l cpl _ sl_own0 Hl) as [Hfo Hi]. simpl in Hfo. rewrite bool_decide_true, Hc in Hfo by done.
  destruct sl_inflight0 as [Ei Hle], sl_counts0 as [Es Ec]. assert (Hq32 : qd <= 32) by exact (proj2 Hqd).
  assert (Hpos : (0 < length o)%nat) by (destruct o; [by apply not_elem_of_nil in Hin|simpl; lia]).
  exists (filter (λ c, c ≠ cpl_cid cpl) o). split; cbn [pend ctx]; try done; try lia.
  - by rewrite Hi.
  - match goal with |- inflight_cmds ?c = _ ∧ _ => change (inflight_cmds c) with (u32 (inflight_cmds (ctx b) - 1)) end.
    rewrite u32_small by cint. lia.
  - match goal with |- submitted_cmds ?c = _ ∧ _ => change (submitted_cmds c) with (submitted_cmds (ctx b));
      change (completed_cmds c) with (u32 (completed_cmds (ctx b) + 1)) end. split; [done|].
    rewrite Ec, Hlen. unfold u32, uwrap. rewrite Zplus_mod_idemp_l. f_equal. lia.
Qed.
Definition handle_post (k : Z) (l : list Raw) (r : Z * Batch) (st : Nvme * (W * list Raw)) : Prop :=
  st.2.2 = l ∧ good l ∧ (r.1 = 0 → ∃ o, slot_at r.2 k o st.1 l).
Lemma slot_handle_spec b k o n l0 w l cpl :
  slot_at b k o n l0 → log l = log l0 ++ [Pop cpl] →
  wp (nvme_handle_write_completion (watched hw) b cpl) (handle_post k l) (n, (w, l)).
Proof.
  intros H Hl. pose proof (good_pop _ _ _ _ _ _ _ _ _ (at_good _ _ _ _ _ H) Hl) as Hg. unfold nvme_handle_write_completion.
  apply bind_quiet; [apply quiet_now|]. intros us n1 w1 H1. apply (at_alike _ _ _ _ _ _ H) in H1. clear H.
  destruct (nvme_find_pending_by_cid _ _) as [[i e]|] eqn:Hf.
  2:{ apply bind_quiet; [apply quiet_set_error|]. intros [] n2 w2 _. by apply wp_ret. }
  destruct (cpl_error cpl) eqn:Hc.
  { apply bind_quiet; [quiet|]. intros [] n2 w2 _. cbv zeta. apply bind_quiet; [apply quiet_event|]. intros [] n3 w3 _. by apply wp_ret. }
  apply bind_quiet; [apply quiet_base, completion_alike|]. intros [] n2 w2 H2. cbv zeta.
  apply bind_quiet; [apply quiet_event|]. intros [] n3 w3 H3. apply wp_ret. split; [done|]. split; [done|]. intros _. cbn [fst snd].
  destruct (settled_at _ _ _ _ _ l cpl i e H1 Hl Hf Hc) as [o' Ho]. exists o'. eapply at_alike; [exact Ho|]. by etrans.
Qed.

(** *** Draining after an unknown submission *)
Definition drain_post (k : Z) (r : leave + Z * Batch) (st : Nvme * (W * list Raw)) : Prop :=
  good st.2.2 ∧ match r with
  | inl e => e = OutOfFuel
  | inr (rc, b) => rc = 0 → ∃ o, slot_at b k o st.1 st.2.2 ∧ inflight_cmds (ctx b) <= 0 end.
Lemma abandon_post k n w l (b : Batch) : good l → wp (abandon b) (drain_post k) (n, (w, l)).
Proof using Type.
  intros Hl. unfold abandon, nvme_legacy_reset_unavailable. apply bind_quiet; [unfold cross_slot_real_reset; quiet|].
  intros z n2 w2 _. apply bind_quiet; [quiet|]. intros [] n3 w3 _. by apply wp_ret.
Qed.
Lemma slot_drain_spec fuel deadline b k o n w l :
  slot_at b k o n l → wp (nvme_drain_ambiguous_legacy_pending (watched hw) fuel deadline b) (drain_post k) (n, (w, l)).
Proof.
  revert b o n w l; induction fuel as [|fuel IH]; intros b o n w l H; pose proof (at_good _ _ _ _ _ H) as Hg;
    cbn [nvme_drain_ambiguous_legacy_pending];
    (destruct (negb _) eqn:Hz; [apply wp_ret; split; [done|]; intros _; exists o; split; [done|lia]|]); [by apply wp_ret|].
  apply wp_bind. eapply wp_mono; [apply poll_fast_spec|]. intros [rc c] [n1 [w1 l1]] [H1 Hp]. cbn [fst snd] in *.
  apply (at_alike _ _ _ _ _ _ H) in H1. clear H. destruct (0 <? rc) eqn:Hrc.
  - destruct Hp as [(_&_&Hp)|[? _]]; [|lia]. apply wp_bind.
    eapply wp_mono; [by eapply slot_handle_spec|]. intros [hrc b2] [n2 [w2 l2]] (El&Hg2&Hh). cbn [fst snd] in *. subst l2.
    destruct (negb (hrc =? 0)) eqn:Hbad; [by apply abandon_post|]. destruct Hh as [o2 H2]; [lia|]. by eapply IH.
  - destruct Hp as [[? _]|[_ ->]]; [lia|]. apply bind_quiet; [quiet|]. intros late n2 w2 H2.
    destruct late; [by apply abandon_post|]. apply bind_quiet; [apply quiet_drain_pause|]. intros [] n3 w3 H3.
    eapply IH, at_alike; [done|]. by etrans.
Qed.
Lemma slot_complete_at b k o n l : slot_at b k o n l → slot_complete (ctx b) = true → complete l.
Proof.
  intros [] Hc. unfold slot_complete in Hc. apply andb_true_iff in Hc as [[[Hn _]%andb_true_iff Hi]%andb_true_iff _].
  destruct sl_ctx0 as (Et&_). assert (Hk : k = total) by (pose proof (more_left k); lia).
  assert (o = []) as -> by (destruct o; simpl in sl_inflight0; [done|lia]). split; [by rewrite sl_plan0, Hk|done].
Qed.
Lemma unknown_spec fuel b k o n w l :
  slot_at b k o n l → wp (slot_unknown (watched hw) fuel b) (λ r st, ∃ e, r = inl e ∧ exit_post e st.2.2) (n, (w, l)).
Proof.
  intros H. pose proof (at_good _ _ _ _ _ H) as Hg. unfold slot_unknown.
  apply bind_quiet; [apply slot_quiet_account|]. intros [] n1 w1 H1. apply bind_quiet; [apply quiet_now|]. intros us n2 w2 H2. apply bind_get.
  destruct (_ <? _); [apply wp_ret; eexists; split; [done|by apply fail_exit]|]. apply wp_xbind.
  eapply wp_mono; [eapply slot_drain_spec, at_alike; [done|by etrans]|].
  intros [e|[rc b3]] [n3 [w3 l3]] [Hg3 Hr]; cbn [fst snd] in *; [subst e; eexists; split; [done|by apply fuel_exit]|].
  destruct (negb (rc =? 0)) eqn:E; [apply wp_ret; eexists; split; [done|by apply fail_exit]|]. destruct Hr as (o3&H3&_); [lia|].
  destruct (slot_complete _) eqn:Hc; apply wp_ret; eexists; (split; [done|]); [|by apply fail_exit].
  split_and!; [done|done|]. intros _. by eapply slot_complete_at.
Qed.

(** *** The loop *)
Definition fill_post (r : leave + Batch * bool * bool) (st : Nvme * (W * list Raw)) : Prop :=
  match r with inl e => exit_post e st.2.2 | inr (b, _, _) => ∃ k o, slot_at b k o st.1 st.2.2 end.
Lemma fail_with_post {A} reason n w l (Q : leave + A → Nvme * (W * list Raw) → Prop) :
  good l → (∀ e st, exit_post e st.2.2 → Q (inl e) st) → wp (fail_with reason) Q (n, (w, l)).
Proof using Type.
  intros Hl HQ. unfold fail_with. apply bind_quiet; [quiet|]. intros [] n1 w1 _. apply wp_ret, HQ. by apply fail_exit.
Qed.
Lemma table_same b k o n n' l l' i cmd q :
  slot_at b k o n l → nvme_find_free_pending (pend b) = Some (i, q) → p_valid cmd = true → p_cid cmd ∉ o → nv_ok n' → log l' = log l →
  slot_at (mkBatch (clear_pending i cmd (<[i := cmd]> (pend b))) (ctx b)) k o n' l'.
Proof using Type.
  intros [] Hi Hv Hc Hn Hl. split; rewrite ?Hl; try done. by apply (table_add _ o i q cmd sl_table0 Hi).
Qed.
Lemma fill_spec j fuel made b k o n w l :
  slot_at b k o n l → wp (slot_fill (watched hw) j fuel qd payload_bytes limit made b) fill_post (n, (w, l)).
Proof.
  revert made b k o n w l; induction j as [|j IH]; intros made b k o n w l H; cbn [slot_fill]; [by apply wp_ret; eexists _, _|].
  pose proof (at_good _ _ _ _ _ H) as Hg. destruct (negb _) eqn:Hgo; [by apply wp_ret; eexists _, _|].
  apply negb_false_iff, andb_true_iff in Hgo as [Hq Hs].
  assert (Hk : k < total).
  { destruct H. destruct sl_ctx0 as (Et&_). apply more_left; lia. }
  destruct (nvme_find_free_pending _) as [[i q]|] eqn:Hfree; [|by apply fail_with_post].
  apply bind_get. destruct (nvme_alloc_cid _ _) as [cid r] eqn:Hcid. destruct (slot_cid_at _ _ _ _ _ _ _ H Hcid) as [H2 Hfresh].
  apply wp_bind, wp_smod. destruct cid as [cid|]; [|by apply fail_with_post]. specialize (Hfresh cid eq_refl).
  apply bind_quiet; [apply nvme_safety.quiet_stamp|]. intros us n3 w3 H3. apply (at_alike _ _ _ _ _ _ H2) in H3. clear H H2. cbv zeta.
  apply wp_xbind. eapply wp_mono; [eapply slot_submit_at; [apply H3|done|lia|done]|].
  destruct (slot_command_at _ _ _ _ _ cid us H3 Hk) as (Hcc&_).
  intros [e|rc] [n4 [w4 l4]] [Hn4 Hr]; cbn [fst snd] in *; [destruct Hr as [-> ?]; by apply fuel_exit|].
  destruct (rc =? NVME_SUBMIT_RETRY_SQ_FULL) eqn:Hretry.
  { apply Z.eqb_eq in Hretry as ->. apply wp_ret. eexists k, o. by eapply table_same. }
  destruct (rc =? NVME_SUBMIT_ACCEPTANCE_UNKNOWN) eqn:Hunk.
  { apply Z.eqb_eq in Hunk as ->. eapply wp_mono.
    - eapply unknown_spec. by eapply (posted_at b k o n3 n4 l l4); [| |lia| | | |].
    - by intros r' st (e & -> & He). }
  destruct (negb _) eqn:Hacc.
  { assert (Hg4 : good l4).
    { case_bool_decide as Hb; [by eapply took_good; [pose proof (sl_k _ _ _ _ _ H3); lia|]|].
      destruct Hg as (k0&o0&?&?&?). exists k0, o0. by rewrite Hr. }
    unfold refused. apply bind_get. apply bind_quiet; [quiet|]. intros [] n5 w5 _. apply wp_ret. apply fail_exit; [|done].
    unfold NVME_SUBMIT_ACCEPTED in *. lia. }
  apply negb_false_iff, Z.eqb_eq in Hacc as ->.
  apply bind_quiet; [apply slot_quiet_account|]. intros [] n5 w5 H5. eapply IH, at_alike; [|done].
  by eapply (posted_at b k o n3 n4 l l4); [| |lia| | | |].
Qed.
Definition poll_made_post (r : leave + Batch * bool) (st : Nvme * (W * list Raw)) : Prop :=
  match r with inl e => exit_post e st.2.2 | inr (b, _) => ∃ k o, slot_at b k o st.1 st.2.2 end.
(** A popped completion is settled, or the writer fails. *)
Lemma settle_popped {B} b k o n l0 w l cpl (cont : Batch → M (W := W * list Raw) (leave + B)) (Q : leave + B → Nvme * (W * list Raw) → Prop) :
  slot_at b k o n l0 → log l = log l0 ++ [Pop cpl] →
  (∀ e st, exit_post e st.2.2 → Q (inl e) st) →
  (∀ b' o' n' w', slot_at b' k o' n' l → wp (cont b') Q (n', (w', l))) →
  wp (let! r := nvme_handle_write_completion (watched hw) b cpl in let? b := handled r in cont b) Q (n, (w, l)).
Proof.
  intros H Hl HQ Hk. apply wp_bind. eapply wp_mono; [by eapply slot_handle_spec|].
  intros [rc b2] [n2 [w2 l2]] (El&Hg&Hh). cbn [fst snd] in *. subst l2. apply wp_xbind. unfold handled.
  destruct (negb (rc =? 0)) eqn:E; [apply wp_ret, HQ; by apply fail_exit|]. destruct Hh as [o2 H2]; [lia|].
  apply wp_ret. by eapply Hk.
Qed.
Lemma slot_poll_spec made b k o n w l :
  slot_at b k o n l → wp (slot_poll (watched hw) made b) poll_made_post (n, (w, l)).
Proof.
  intros H. pose proof (at_good _ _ _ _ _ H) as Hg. unfold slot_poll. destruct (negb _); [by apply wp_ret; eexists _, _|].
  apply wp_bind. eapply wp_mono; [apply (poll_spec hw f)|]. intros [rc c] [n1 [w1 l1]] [H1 Hp]. cbn [fst snd] in *.
  apply (at_alike _ _ _ _ _ _ H) in H1. clear H. destruct Hp as [(Hrc&_&Hl)|[Hrc ->]].
  - replace (rc <? 0) with false by lia. replace (0 <? rc) with true by lia.
    eapply (settle_popped _ k o); [exact H1|exact Hl|done|]. intros b' o' n' w' H'. apply wp_ret. by eexists _, _.
  - destruct (rc <? 0) eqn:E; [apply wp_ret, fail_exit; [lia|done]|]. replace (0 <? rc) with false by lia.
    apply wp_ret. by eexists _, _.
Qed.
Lemma poll_cq_post fuel timeout n w l :
  wp (nvme_poll_cq (watched hw) fuel timeout) (λ r st, alike n st.1 ∧ match r with
    | inr (rc, cpl) => (rc = 0 ∧ log st.2.2 = log l ++ [Pop cpl]) ∨ (rc < 0 ∧ st.2.2 = l)
    | inl e => e = OutOfFuel ∧ st.2.2 = l end) (n, (w, l)).
Proof using Type.
  unfold nvme_poll_cq. apply bind_get. destruct (_ || _); [apply wp_ret; split; [done|by right]|].
  apply bind_quiet; [apply quiet_now|]. intros t n1 w1 H1. eapply wp_mono; [apply (poll_wait_spec hw f)|].
  intros r st [H2 Hr]. split; [by etrans|]. destruct r as [e|[rc cpl]]; [done|]. destruct Hr as [(?&_&?)|?]; [by left|by right].
Qed.
Lemma slot_loop_spec fuel b k o n w l :
  slot_at b k o n l → wp (slot_loop (watched hw) fuel qd payload_bytes limit b) (λ r st, match r with
    | inl e => exit_post e st.2.2
    | inr b => (∃ k o, slot_at b k o st.1 st.2.2) ∧ sectors <= next_submit_sector (ctx b) ∧ inflight_cmds (ctx b) <= 0 end) (n, (w, l)).
Proof.
  revert b k o n w l; induction fuel as [|fuel IH]; intros b k o n w l H; cbn [slot_loop].
  { apply wp_ret, fuel_exit. by eapply at_good. }
  destruct (negb _) eqn:Hgo.
  { apply wp_ret. split; [by eexists _, _|]. destruct H. destruct sl_ctx0 as (Et&_). lia. }
  apply wp_xbind. eapply wp_mono; [by eapply fill_spec|].
  intros [e|[[b1 made] full]] [n1 [w1 l1]]; [done|]. intros (k1&o1&H1). cbn [fst snd] in *.
  apply wp_xbind. eapply wp_mono; [by eapply slot_poll_spec|].
  intros [e|[b2 made2]] [n2 [w2 l2]]; [done|]. intros (k2&o2&H2). cbn [fst snd] in *. pose proof (at_good _ _ _ _ _ H2) as Hg2.
  destruct made2; [by eapply IH|]. destruct (_ =? 0); [by apply fail_with_post|]. destruct (_ && _); [by eapply IH|].
  apply bind_get. apply wp_xbind. eapply wp_mono; [apply poll_cq_post|].
  intros [e|[rc cpl]] [n3 [w3 l3]] [H3 Hr]; cbn [fst snd] in *; [destruct Hr as [-> ->]; by apply fuel_exit|].
  apply (at_alike _ _ _ _ _ _ H2) in H3. destruct Hr as [[-> Hl]|[Hrc ->]].
  - cbn [Z.eqb negb]. eapply (settle_popped _ k2 o2); [exact H3|exact Hl|done|]. intros b' o' n' w' H'. by eapply IH.
  - replace (negb (rc =? 0)) with true by lia. apply bind_quiet; [unfold dump_write_timeout_context; quiet; apply quiet_status|].
    intros [] n4 w4 _. apply wp_ret, fail_exit; [lia|done].
Qed.

(** *** The whole write *)
Definition final_post (r : leave + Z) (st : Nvme * (W * list Raw)) : Prop :=
  good st.2.2 ∧ (returned r = Some 0 → complete st.2.2).
Lemma start_at slot n : nv_ok n → ∀ l, log l = [] → slot_at (mkBatch zero_table (slot_context slot lba sectors addr)) 0 [] n l.
Proof.
  intros Hn l Hl. pose proof (total_pos _ _ _ _ Hargs). split; rewrite ?Hl; cbn; try done; try lia.
  - split; [reflexivity|apply NoDup_nil_2].
  - pose proof limit_pos. lia.
Qed.
(** What remains once the limit is known. *)
Lemma slot_run_spec fuel b n w l :
  slot_at b 0 [] n l → wp (let? b := slot_loop (watched hw) fuel qd payload_bytes limit b in
    if negb (slot_complete (ctx b)) then fail_with "slot_completion_invariant_failed" else xret 0) final_post (n, (w, l)).
Proof.
  intros H. apply wp_xbind. eapply wp_mono; [by eapply slot_loop_spec|].
  assert (Hexit : ∀ (e : leave) (st : Nvme * (W * list Raw)), exit_post e st.2.2 → final_post (inl e) st).
  { intros e st (_&Hg&He). split; [done|]. destruct e as [rc| |]; [|done..]. intros [= ->]. by apply He. }
  intros [e|b1] [n1 [w1 l1]]; [apply Hexit|]. cbn [fst snd]. intros ((k1&o1&H1)&_&_).
  destruct (slot_complete (ctx b1)) eqn:Hc; cbn [negb]; [|apply fail_with_post; [by eapply at_good|exact Hexit]].
  apply wp_ret. split; [by eapply at_good|]. intros _. by eapply slot_complete_at.
Qed.
End Slot.

(** ** Both writers *)
Section Either.
Context {W : Type} (hw : NvmeHw W) (f : RegFile).
(** The plan's command size is [limit] sectors, no more than the configured one. *)
Definition planned (n : Nvme) (sectors lba addr : Z) (r : leave + Z) (raw : list Raw) : Prop :=
  ∃ limit, 0 < limit <= nvme_cmd_sectors (base n) ∧
    let size := limit * NVME_SECTOR_BYTES in let bytes := sectors * NVME_SECTOR_BYTES in
    good f size (nvme_qd_effective (set n)) bytes lba addr raw ∧
    (returned r = Some 0 → complete f size (nvme_qd_effective (set n)) bytes lba addr raw).

Lemma limit_spec n w l :
  0 < nvme_cmd_sectors (base n) → wp (command_limit_of (W := W * list Raw)) (λ limit st,
    alike n st.1 ∧ st.2.2 = l ∧ 0 < limit <= nvme_cmd_sectors (base n)) (n, (w, l)).
Proof.
  intros Hn. unfold command_limit_of. apply bind_get. cbv zeta. replace (nvme_cmd_sectors (base n) =? 0) with false by lia.
  unfold env_u64_limit. apply wp_bind. eapply wp_mono; [apply quiet_config|]. intros v [n1 [w1 l1]] [H1 H2]. cbn [fst snd] in *.
  apply wp_ret. split; [done|]. split; [done|]. destruct v as [s|]; [|lia]. destruct (c_stdlib.non_empty _); [|lia].
  destruct (c_stdlib.strtoul_full s 0) as [z|] eqn:Hz; [|lia]. apply c_stdlib.strtoul_full_range in Hz; [|done].
  destruct (z =? 0) eqn:E; [lia|]. case_match; cint.
Qed.

(** The range can be addressed. *)
Definition addressable (sectors lba addr : Z) : Prop :=
  0 < sectors ∧ 0 <= lba ∧ lba + sectors <= UINT64_MAX ∧ 0 <= addr ∧ addr + (sectors + UINT16_MAX) * NVME_SECTOR_BYTES <= UINT64_MAX.
Lemma args_of sectors lba addr limit : addressable sectors lba addr → 0 < limit <= UINT16_MAX →
  write_args (limit * NVME_SECTOR_BYTES) (sectors * NVME_SECTOR_BYTES) lba addr.
Proof.
  intros (?&?&?&?&?) Hl. unfold NVME_SECTOR_BYTES in *. split; try (unfold NVME_SECTOR_BYTES; cint).
  - by apply Z.mod_mul.
  - rewrite sectors_of by cint. unfold NVME_SECTOR_BYTES.
    replace ((sectors * 512 + 512 - 1) / 512) with sectors; [lia|]. apply (Z.div_unique _ _ _ 511); lia.
Qed.
Lemma unseen_planned n sectors lba addr r l :
  0 < nvme_cmd_sectors (base n) <= UINT16_MAX → addressable sectors lba addr → (device f l).2 = [] → returned r ≠ Some 0 →
  planned n sectors lba addr r l.
Proof.
  intros Hn Ha Hl Hr. exists (nvme_cmd_sectors (base n)). split; [lia|]. split; [|done].
  pose proof (total_pos _ _ _ _ (args_of sectors lba addr _ Ha Hn)).
  exists 0, nothing_owned. rewrite Hl. split; [lia|done].
Qed.
Lemma cf_sectors_of n : nvme_probe_safety.configured n →
  0 < nvme_cmd_sectors (base n) <= UINT16_MAX ∧ 0 < nvme_qd_effective (set n) <= Z.of_nat NVME_PENDING_CAPACITY.
Proof. intros []. split; [apply cf_sectors|done]. Qed.
Lemma legacy_spec fuel n w slot sectors payload_bytes lba addr :
  dry_run (set n) = false → is_u16 (next_cmd_id (base n)) → addressable sectors lba addr →
  0 < nvme_cmd_sectors (base n) <= UINT16_MAX → 0 < nvme_qd_effective (set n) <= Z.of_nat NVME_PENDING_CAPACITY →
  wp (nvme_write_slot_qd_legacy_payload (watched hw) fuel slot lba sectors payload_bytes addr)
    (λ r st, planned n sectors lba addr r st.2.2) (n, (w, [])).
Proof.
  intros Hdry Hid Ha Hn Hqd. unfold nvme_write_slot_qd_legacy_payload. destruct Ha as [Hs Ha'] eqn:E; clear E.
  replace (sectors =? 0) with false by lia. apply bind_get. destruct (_ || _) eqn:Hbad; [lia|].
  apply wp_bind. eapply wp_mono; [apply limit_spec; lia|]. intros limit [n1 [w1 l1]] (H1&Hl1&Hlim). cbn [fst snd] in *. subst l1.
  rewrite Hdry. apply bind_quiet; [apply quiet_reset_events|]. intros [] n2 w2 H2. apply bind_quiet; [by apply quiet_base|]. intros [] n3 w3 H3.
  assert (Hok : nvme_safety.nv_ok (set n) n3).
  { assert (H : alike n n3) by (by etrans; [|etrans]). destruct H as (E1&E2&_). split; [done|by rewrite E2]. }
  assert (Hargs : write_args (limit * NVME_SECTOR_BYTES) (sectors * NVME_SECTOR_BYTES) lba addr) by (apply args_of; [done|lia]).
  eapply wp_mono; [apply (slot_run_spec hw f (set n) limit _ sectors payload_bytes lba addr Hargs Hqd Hdry)|].
  - by apply start_at.
  - intros r st [Hg Hr]. exists limit. by split.
Qed.
Lemma tight_spec fuel n w sectors payload_bytes lba addr :
  nvme_probe_safety.configured n → dry_run (set n) = false → is_u16 (next_cmd_id (base n)) → addressable sectors lba addr →
  wp (nvme_write_contiguous_tight_qd_payload (watched hw) fuel addr lba (sectors * NVME_SECTOR_BYTES) payload_bytes (nvme_qd_effective (set n)))
    (λ r st, planned n sectors lba addr r st.2.2) (n, (w, [])).
Proof.
  intros Hc Hdry Hid Ha. destruct Hc. destruct cf_sectors as [Hcs Hn].
  assert (Hsize : nvme_cmd_size_bytes (set n) = nvme_cmd_sectors (base n) * NVME_SECTOR_BYTES).
  { rewrite Hcs. pose proof (Z.div_mod (nvme_cmd_size_bytes (set n)) NVME_SECTOR_BYTES ltac:(done)). lia. }
  pose proof (args_of sectors lba addr _ Ha Hn) as Hargs. rewrite <-Hsize in Hargs.
  eapply wp_mono; [by apply (nvme_safety.tight_run_spec hw f (set n) _ _ payload_bytes lba addr Hargs cf_depth Hdry)|].
  intros r st [Hg Hr]. exists (nvme_cmd_sectors (base n)). rewrite <-Hsize. split; [lia|done].
Qed.
(** A dry run leaves the device alone. *)
Lemma slot_unseen fuel n w slot sectors payload_bytes lba addr :
  0 < sectors → dry_run (set n) = true →
  0 < nvme_qd_effective (set n) →
  wp (nvme_write_slot_qd_payload (watched hw) fuel slot lba sectors payload_bytes addr) (λ _ st, st.2.2 = []) (n, (w, [])).
Proof.
  intros Hs Hdry Hqd. unfold nvme_write_slot_qd_payload. replace (sectors =? 0) with false by lia.
  destruct (_ <? _); [apply bind_quiet; [quiet|]; intros [] n1 w1 _; by apply wp_ret|].
  destruct (_ <? _); [apply bind_quiet; [quiet|]; intros [] n1 w1 _; by apply wp_ret|].
  apply bind_get. case_bool_decide.
  - eapply wp_mono; [apply nvme_safety.tight_unseen; [unfold NVME_SECTOR_BYTES; lia|by left|lia]|]. by intros r st [? _].
  - unfold nvme_write_slot_qd_legacy_payload. replace (sectors =? 0) with false by lia. apply bind_get.
    destruct (_ || _); [by apply wp_ret|]. apply bind_quiet.
    { unfold command_limit_of. quiet; apply quiet_env. }
    intros limit n1 w1 _. rewrite Hdry. apply wp_quiet; [apply quiet_simulate|done].
Qed.
Lemma slot_spec fuel n w slot sectors payload_bytes lba addr :
  nvme_probe_safety.configured n → dry_run (set n) = false → is_u16 (next_cmd_id (base n)) → addressable sectors lba addr →
  wp (nvme_write_slot_qd_payload (watched hw) fuel slot lba sectors payload_bytes addr)
    (λ r st, planned n sectors lba addr r st.2.2) (n, (w, [])).
Proof.
  intros Hc Hdry Hid Ha. pose proof Ha as [Hs _]. destruct (cf_sectors_of n Hc) as [Hn Hqd].
  assert (Hfail : ∀ reason, wp (fail_with reason) (λ (r : leave + Z) st, planned n sectors lba addr r st.2.2) (n, (w, []))).
  { intros reason. apply bind_quiet; [quiet|]. intros [] n1 w1 _. apply wp_ret. by apply unseen_planned. }
  unfold nvme_write_slot_qd_payload. replace (sectors =? 0) with false by lia.
  destruct (_ <? _); [apply Hfail|]. destruct (_ <? _); [apply Hfail|]. apply bind_get.
  case_bool_decide; [by apply tight_spec|by apply legacy_spec].
Qed.
End Either.

(** C18: Writing a slot of a probed channel, with either writer, whatever the device, the clock and the stop flag do
    and wherever it stops: the commands issued are the first commands of a plan (the sectors cut, in order, into
    commands no larger than configured), each within the sectors and the memory of the slot; the device has never
    been given an identifier it still owned, more commands than the queue depth, or a command after an error or a
    completion it did not owe.  A write that returns success has issued the whole plan and seen every command
    completed; a dry run writes no register and takes no completion (it still reads a few when a tight write is
    refused), so it issues nothing. *)
Theorem slot_write_exact {W} (hw : NvmeHw W) f fuel n w slot sectors payload_bytes lba addr :
  nvme_probe_safety.configured n → is_u16 (next_cmd_id (base n)) → addressable sectors lba addr →
  let '(r, (_, (_, raw))) := nvme_write_slot_qd_payload (watched hw) fuel slot lba sectors payload_bytes addr (n, (w, [])) in
  let l := (device f raw).2 in
  ∃ limit, 0 < limit <= nvme_cmd_sectors (base n) ∧
    let size := limit * NVME_SECTOR_BYTES in let bytes := sectors * NVME_SECTOR_BYTES in
    let whole := plan size bytes lba addr (plan_total size bytes) in
    what <$> issued l `prefix_of` whole ∧ Forall (in_range bytes lba addr) (issued l) ∧
    follow (nvme_qd_effective (set n)) nothing_owned l ≠ None ∧ (dry_run (set n) = true → raw = []) ∧
    (returned r = Some 0 → dry_run (set n) = false →
       what <$> issued l = whole ∧ follow (nvme_qd_effective (set n)) nothing_owned l = Some nothing_owned).
Proof.
  intros Hc Hid Ha. destruct (cf_sectors_of n Hc) as [Hn Hqd]. destruct (dry_run (set n)) eqn:Hdry.
  - pose proof (slot_unseen hw fuel n w slot sectors payload_bytes lba addr (proj1 Ha) Hdry (proj1 Hqd)) as H. unfold wp in H.
    destruct (nvme_write_slot_qd_payload _ _ _ _ _ _ _ _) as [r [n' [w' raw]]]. cbn in H. subst raw. cbv zeta.
    exists (nvme_cmd_sectors (base n)). split_and!; try done; try lia. apply prefix_nil.
  - pose proof (slot_spec hw f fuel n w slot sectors payload_bytes lba addr Hc Hdry Hid Ha) as H. unfold wp in H.
    destruct (nvme_write_slot_qd_payload _ _ _ _ _ _ _ _) as [r [n' [w' raw]]]. destruct H as (limit & Hl & (k & o & Hk & Hp & Ho) & Hr).
    cbn [fst snd] in *. cbv zeta. exists limit. split; [done|]. pose proof (args_of sectors lba addr limit Ha ltac:(lia)) as Hargs.
    split_and!; [|by eapply plan_in_range; [|apply Hk|]|by rewrite Ho|done|by intros Hret%Hr _].
    rewrite Hp. by apply plan_prefix.
Qed.
(** *** An example: a device that completes in order *)
(** The identifier register and the queue of completions. *)
Definition fifo_read (off : Z) : Eff (Z * list Z) Z := λ '(cid, q),
  if off =? QUEUE_REG_OFFSET + QUEUE_TX_STATUS
  then (match q with [] => QUEUE_CQ_FIFO_EMPTY | _ => 0 end, (cid, q))
  else if off =? QUEUE_REG_OFFSET + QUEUE_CUR_CQ_CID then (hd 0 q, (cid, tl q)) else (0, (cid, q)).
Definition fifo_write (off v : Z) : Eff (Z * list Z) unit := λ '(cid, q),
  (tt, if off =? QUEUE_REG_OFFSET + QUEUE_CTX1 then (v, q)
       else if off =? QUEUE_REG_OFFSET + QUEUE_TX_CTRL then (cid, q ++ [cid]) else (cid, q)).
Definition fifo_hw : NvmeHw (Z * list Z) :=
  mkHw fifo_read fifo_write (eret 1000) (λ _, eret tt) (eret tt) (eret false).
Definition example_nvme (mode : NvmeFeedMode) : Nvme :=
  mkNvme (cross_slot_safety.witness_rt <| nvme_cmd_sectors := 2 |> <| nvme_max_lba := 1000000 |>)
    (mkSettings (ccb_types.mkChannel 0 "example" 1 0 0 0 0 0 0 0 0 0x10000000 0 0 0 0) false false 100000
       512 131072 1024 2 2 mode 4 true 0 0 65536)
    (mkCounters 0 0 0 0 0 0 0 0 0 0 0 0 0 0) false (storage_config.mkConfigState ∅ [] [] None).
Definition example_issued : list (Z * Z * Z * Z) :=
  [(NVM_WRITE, 100, 2, 0x10000000); (NVM_WRITE, 102, 2, 0x10000400); (NVM_WRITE, 104, 1, 0x10000800)].
Lemma slot_write_exact_witness :
  let run mode := nvme_write_slot_qd_payload (watched fifo_hw) 20 7 100 5 2500 0x10000000 (example_nvme mode, ((0, []), [])) in
  let log mode := (device (mkRegs 0 0 0 0 0 0) (run mode).2.2.2).2 in
  Forall (λ mode, returned (run mode).1 = Some 0 ∧ what <$> issued (log mode) = example_issued ∧
    Forall (in_range 2560 100 0x10000000) (issued (log mode)) ∧
    follow 2 nothing_owned (log mode) ≠ None) [NVME_FEED_MODE_LEGACY; NVME_FEED_MODE_TIGHT].
Proof.
  intros run log. apply Forall_forall. intros mode Hmode.
  assert (Hc : nvme_probe_safety.configured (example_nvme mode)).
  { split; try done; vm_compute; intuition congruence. }
  assert (Ha : addressable 5 100 0x10000000) by (vm_compute; intuition congruence).
  pose proof (slot_write_exact fifo_hw (mkRegs 0 0 0 0 0 0) 20 (example_nvme mode) (0, []) 7 5 2500 100 0x10000000 Hc
    ltac:(vm_compute; intuition congruence) Ha) as H. fold (run mode) in H.
  assert (Hrun : returned (run mode).1 = Some 0 ∧ what <$> issued (log mode) = example_issued).
  { unfold log, run. clear -Hmode. apply elem_of_cons in Hmode as [->|[->|[]%not_elem_of_nil]%elem_of_cons]; vm_compute; by split. }
  split; [apply Hrun|]. split; [apply Hrun|]. unfold log. clear Hrun. clearbody run.
  destruct (run mode) as [r [n' [w' raw]]]. destruct H as (limit & _ & _ & H1 & H2 & _). by split.
Defined.
End nvme_slot_safety.
