(* ===== verification/Cli.v ===== *)
(** * The command line ([src/src/ccb_cli.c], [src/include/ccb_types.h])

    Leading global options, the subcommand name, its options as
    [getopt_long] scans them, and the validators.  [strtol] and [getopt_long]
    are modelled as the C library documents them; messages on stderr are left
    out.  A function that returns 0 or -1 is an [option] when it fills a
    result and a [bool] when it only accepts. *)
From stdpp Require Import pretty.
From S2P Require Import Prelude CStdlib CcbTypes Config.
From Stdlib Require Import Ascii.

Module ccb_cli.
Import c_stdlib ccb_types ccb_config storage_config.

Definition DEFAULT_TIMEOUT_US : Z := 5000000.

Inductive SourceMode := SOURCE_TRANSFER | SOURCE_TEST.
Inductive CommandType :=
| CMD_WRITE | CMD_READ | CMD_LIST | CMD_INIT_META | CMD_STORAGE_WRITE | CMD_NETWORK_SEND
| CMD_DDR_PATTERN_STORE | CMD_SSD_LBA_WRAP_TEST | CMD_SSD_CONTINUOUS_PATTERN_TEST
| CMD_DMA_RX_BENCHMARK.
#[export] Instance CommandType_eq_dec : EqDecision CommandType.
Proof. solve_decision. Defined.
#[export] Instance SourceMode_eq_dec : EqDecision SourceMode.
Proof. solve_decision. Defined.

Record GlobalOptions : Type := mkGlobal {
  dry_run : bool; skip_link_check : bool; timeout_us : Z }.
#[export] Instance eta_GlobalOptions : EtaOf GlobalOptions := λ g,
  mkGlobal (dry_run g) (skip_link_check g) (timeout_us g).

Record ParsedArgs : Type := mkArgs {
  has_lba : bool; lba_auto : bool; lba : Z;
  has_size : bool; size_bytes : Z;
  has_task_no : bool; arg_task_no : string;
  has_file_index : bool; arg_file_index : Z;
  has_proto_file_type : bool; proto_file_type : Z;
  has_calibration_type : bool; calibration_type : Z;
  has_source : bool; source : SourceMode;
  has_dma_desc_bytes : bool; dma_desc_bytes : Z;
  has_ddr_offset : bool; ddr_offset : Z;
  has_duration_sec : bool; duration_sec : Z;
  has_channel : bool; channel_id : Z; channel_all : bool }.
#[export] Instance eta_ParsedArgs : EtaOf ParsedArgs := λ a,
  mkArgs (has_lba a) (lba_auto a) (lba a) (has_size a) (size_bytes a) (has_task_no a)
    (arg_task_no a) (has_file_index a) (arg_file_index a) (has_proto_file_type a)
    (proto_file_type a) (has_calibration_type a) (calibration_type a) (has_source a)
    (source a) (has_dma_desc_bytes a) (dma_desc_bytes a) (has_ddr_offset a) (ddr_offset a)
    (has_duration_sec a) (duration_sec a) (has_channel a) (channel_id a) (channel_all a).
#[export] Instance ParsedArgs_eq_dec : EqDecision ParsedArgs.
Proof. solve_decision. Defined.

(** The result cleared by [memset]. *)
Definition zero_args : ParsedArgs :=
  mkArgs false false 0 false 0 false "" false 0 false 0 false 0 false SOURCE_TRANSFER
    false 0 false 0 false 0 false 0 false.

(** ** Values of options *)
Inductive lba_arg := LbaAuto | LbaValue (v : Z).

(** Literal "auto" or an integer of any base. *)
Definition parse_u64_auto (s : string) : option lba_arg :=
  if bool_decide (s = "auto"%string) then Some LbaAuto
  else LbaValue <$> strtoul_full s 0.

Inductive channel_arg := ChannelAll | ChannelId (v : Z).

Definition parse_channel_arg (s : string) : option channel_arg :=
  if bool_decide (s = "all"%string) then Some ChannelAll
  else match strtol_full s 10 with
  | Some v => if negb (v =? HIGH_I_CHANNEL_ID) && negb (v =? HIGH_Q_CHANNEL_ID) &&
                 negb (v =? LOW_SPEED_CHANNEL_ID) then None else Some (ChannelId v)
  | None => None
  end.

(** A number that satisfies the option's own test. *)
Definition number_arg (ok : Z → bool) (s : string) : option Z :=
  match strtoul_full s 0 with Some v => if ok v then Some v else None | None => None end.

(** ** Leading global options: the rest starts at the command *)
Fixpoint global_loop (args : list string) (out : GlobalOptions)
  : option (GlobalOptions * list string) :=
  match args with
  | [] => Some (out, [])
  | arg :: args' =>
    if bool_decide (arg = "--dry-run"%string) then global_loop args' (out <| dry_run := true |>)
    else if bool_decide (arg = "--skip-link-check"%string)
    then global_loop args' (out <| skip_link_check := true |>)
    else if bool_decide (arg = "--timeout-us"%string) then
      match args' with
      | [] => None
      | value :: args'' =>
        match number_arg (λ v, negb (v =? 0)) value with
        | Some v => global_loop args'' (out <| timeout_us := u32 v |>)
        | None => None
        end
      end
    else Some (out, args)
  end.
Definition parse_global_options (argv : list string) : option (GlobalOptions * list string) :=
  global_loop (drop 1 argv) (mkGlobal false false DEFAULT_TIMEOUT_US).

Definition parse_command_type (s : string) : option CommandType :=
  if bool_decide (s = "write"%string) then Some CMD_WRITE
  else if bool_decide (s = "read"%string) then Some CMD_READ
  else if bool_decide (s = "list"%string) then Some CMD_LIST
  else if bool_decide (s = "init-meta"%string) then Some CMD_INIT_META
  else if bool_decide (s = "storage-write"%string) then Some CMD_STORAGE_WRITE
  else if bool_decide (s = "network-send"%string) then Some CMD_NETWORK_SEND
  else if bool_decide (s = "ddr-pattern-store"%string) then Some CMD_DDR_PATTERN_STORE
  else if bool_decide (s = "ssd-lba-wrap-test"%string) then Some CMD_SSD_LBA_WRAP_TEST
  else if bool_decide (s = "ssd-continuous-pattern-test"%string)
  then Some CMD_SSD_CONTINUOUS_PATTERN_TEST
  else if bool_decide (s = "dma-rx-benchmark"%string) then Some CMD_DMA_RX_BENCHMARK
  else None.

(** ** Options of a subcommand

    Every option takes an argument: the rest of a short option's word or the
    text after [=], else the next word, whatever it is.  A long name may be
    shortened while it stays unambiguous. *)
Definition short_opts : list ascii :=
  ["c"; "s"; "T"; "i"; "l"; "S"; "b"; "O"; "p"; "C"; "d"]%char.
Definition long_opts : list (string * ascii) :=
  [ ("channel", "c"%char); ("size", "s"%char); ("task-no", "T"%char);
    ("file-index", "i"%char); ("ssd-lba", "l"%char); ("source", "S"%char);
    ("dma-desc-bytes", "b"%char); ("ddr-offset", "O"%char); ("proto-file-type", "p"%char);
    ("calibration-type", "C"%char); ("duration-sec", "d"%char) ]%string.

Fixpoint split_eq (s : string) : string * option string :=
  match s with
  | EmptyString => (EmptyString, None)
  | String c s' =>
    if Ascii.eqb c "="%char then (EmptyString, Some s')
    else let '(n, v) := split_eq s' in (String c n, v)
  end.

Definition long_match (name : string) : option ascii :=
  match filter (λ o, o.1 = name) long_opts with
  | o :: _ => Some o.2
  | [] => match filter (λ o, String.prefix name o.1 = true) long_opts with
          | [o] => Some o.2
          | _ => None
          end
  end.

(** What [getopt_long] makes of one word. *)
Inductive getopt_word :=
| Operand | EndOfOptions | OptArg (c : ascii) (v : string) | OptNext (c : ascii) | OptInvalid.

Definition getopt_long (arg : string) : getopt_word :=
  match arg with
  | String d (String e name) =>
    if negb (Ascii.eqb d "-"%char) then Operand
    else if Ascii.eqb e "-"%char then
      match name with
      | EmptyString => EndOfOptions
      | _ => let '(n, v) := split_eq name in
             match long_match n, v with
             | Some c, Some v => OptArg c v
             | Some c, None => OptNext c
             | None, _ => OptInvalid
             end
      end
    else if bool_decide (e ∈ short_opts) then
      match name with EmptyString => OptNext e | _ => OptArg e name end
    else OptInvalid
  | _ => Operand
  end.

(** The body of the [switch]. *)
Definition set_option (c : ascii) (optarg : string) (out : ParsedArgs) : option ParsedArgs :=
  if Ascii.eqb c "c" then
    match parse_channel_arg optarg with
    | Some ChannelAll =>
        Some (out <| has_channel := true |> <| channel_all := true |> <| channel_id := -1 |>)
    | Some (ChannelId v) =>
        Some (out <| has_channel := true |> <| channel_all := false |> <| channel_id := v |>)
    | None => None
    end
  else if Ascii.eqb c "s" then
    (λ v, out <| has_size := true |> <| size_bytes := v |>) <$>
      number_arg (λ v, negb (v =? 0)) optarg
  else if Ascii.eqb c "T" then
    Some (out <| has_task_no := true |> <| arg_task_no := String.substring 0 11 optarg |>)
  else if Ascii.eqb c "i" then
    (λ v, out <| has_file_index := true |> <| arg_file_index := u32 v |>) <$>
      number_arg (λ _, true) optarg
  else if Ascii.eqb c "l" then
    match parse_u64_auto optarg with
    | Some LbaAuto => Some (out <| has_lba := true |> <| lba_auto := true |> <| lba := 0 |>)
    | Some (LbaValue v) =>
        Some (out <| has_lba := true |> <| lba_auto := false |> <| lba := v |>)
    | None => None
    end
  else if Ascii.eqb c "S" then
    if bool_decide (optarg = "transfer"%string)
    then Some (out <| has_source := true |> <| source := SOURCE_TRANSFER |>)
    else if bool_decide (optarg = "test"%string)
    then Some (out <| has_source := true |> <| source := SOURCE_TEST |>)
    else None
  else if Ascii.eqb c "b" then
    (λ v, out <| has_dma_desc_bytes := true |> <| dma_desc_bytes := u32 v |>) <$>
      number_arg (λ v, negb (v =? 0) && negb (0xFFFFFFFF <? v)) optarg
  else if Ascii.eqb c "O" then
    (λ v, out <| has_ddr_offset := true |> <| ddr_offset := v |>) <$>
      number_arg (λ _, true) optarg
  else if Ascii.eqb c "p" then
    (λ v, out <| has_proto_file_type := true |> <| proto_file_type := u32 v |>) <$>
      number_arg (λ v, negb (0xFF <? v)) optarg
  else if Ascii.eqb c "C" then
    (λ v, out <| has_calibration_type := true |> <| calibration_type := u32 v |>) <$>
      number_arg (λ v, negb (0xFF <? v)) optarg
  else if Ascii.eqb c "d" then
    (λ v, out <| has_duration_sec := true |> <| duration_sec := u32 v |>) <$>
      number_arg (λ v, negb (v =? 0) && negb (86400 <? v)) optarg
  else None.

(** The loop and the test [optind != argc] after it: [getopt_long] moves the
    words that are no options behind the others, so some are left exactly when
    there was one. *)
Fixpoint option_loop (args : list string) (operand : bool) (out : ParsedArgs)
  : option ParsedArgs :=
  match args with
  | [] => if operand then None else Some out
  | arg :: args' =>
    match getopt_long arg with
    | Operand => option_loop args' true out
    | EndOfOptions => match args' with [] => if operand then None else Some out | _ => None end
    | OptArg c v =>
        match set_option c v out with
        | Some out' => option_loop args' operand out'
        | None => None
        end
    | OptNext c =>
        match args' with
        | [] => None
        | v :: args'' =>
            match set_option c v out with
            | Some out' => option_loop args'' operand out'
            | None => None
            end
        end
    | OptInvalid => None
    end
  end.
Definition parse_subcommand_args (argv : list string) : option ParsedArgs :=
  option_loop (drop 1 argv) false zero_args.

(** ** Validators: [true] is the return value 0 *)
Definition ensure_channel_required (a : ParsedArgs) (allow_all : bool) : bool :=
  has_channel a && (allow_all || negb (channel_all a)).

Definition validate_dma_desc_bytes_for_channel (a : ParsedArgs) : bool :=
  if negb (has_dma_desc_bytes a) then true
  else if negb (dma_desc_bytes a mod SECTOR_SIZE =? 0) then false
  else if DMA_DESC_BYTES_MAX <? dma_desc_bytes a then false
  else match find_channel (channel_id a) with
  | None => false
  | Some cfg =>
    if negb (dma_ring_bytes cfg mod dma_desc_bytes a =? 0) then false
    else
      let desc_count := u32 (dma_ring_bytes cfg / dma_desc_bytes a) in
      let max_desc_count := u32 (desc_cpu_size cfg / DMA_DESC_ENTRY_BYTES) in
      negb ((desc_count =? 0) || (max_desc_count <? desc_count))
  end.

Definition or_low_speed (a : ParsedArgs) : option ChannelConfig :=
  if has_channel a then find_channel (channel_id a) else find_channel LOW_SPEED_CHANNEL_ID.

Definition size_or (a : ParsedArgs) (default : Z) : Z :=
  if has_size a then size_bytes a else default.

Definition validate_ddr_offset_for_channel (a : ParsedArgs) : bool :=
  if negb (has_ddr_offset a) then true
  else if negb (ddr_offset a mod SECTOR_SIZE =? 0) then false
  else match or_low_speed a with
  | None => false
  | Some cfg =>
    negb ((dma_ring_bytes_max cfg <? ddr_offset a) ||
          (u64 (dma_ring_bytes_max cfg - ddr_offset a) <? size_or a (32 * 1024 * 1024)))
  end.

Definition task_no_fits (a : ParsedArgs) : bool :=
  negb (11 <? Z.of_nat (String.length (arg_task_no a))).

Definition validate_write_args (a : ParsedArgs) : bool :=
  if negb (ensure_channel_required a false) then false
  else if negb (has_size a) || negb (has_task_no a) || negb (has_file_index a) ||
          negb (has_lba a) || negb (has_source a) then false
  else if negb (task_no_fits a) then false
  else if negb (size_bytes a mod SECTOR_SIZE =? 0) then false
  else if FILE_MAX_BYTES <? size_bytes a then false
  else validate_dma_desc_bytes_for_channel a.

Definition validate_read_args (a : ParsedArgs) : bool :=
  if negb (ensure_channel_required a false) then false
  else
    let by_task := has_task_no a && has_file_index a in
    let by_lba := has_lba a && negb (lba_auto a) && has_size a in
    if negb by_task && negb by_lba then false
    else negb (by_lba && negb (size_bytes a mod SECTOR_SIZE =? 0)).

Definition validate_list_args (a : ParsedArgs) : bool := ensure_channel_required a true.
Definition validate_init_meta_args (a : ParsedArgs) : bool := ensure_channel_required a true.

Definition validate_storage_write_args (a : ParsedArgs) : bool :=
  if negb (ensure_channel_required a false) then false
  else if negb (has_task_no a) || negb (has_file_index a) || negb (has_lba a) ||
          negb (has_source a) then false
  else if negb (task_no_fits a) then false
  else if (if has_size a
           then negb (size_bytes a mod SECTOR_SIZE =? 0) || (FILE_MAX_BYTES <? size_bytes a)
           else negb (lba_auto a)) then false
  else if negb (has_proto_file_type a) then false
  else validate_dma_desc_bytes_for_channel a.

Definition validate_network_send_args (a : ParsedArgs) : bool :=
  if negb (has_task_no a) || negb (has_file_index a) || negb (has_proto_file_type a) then false
  else task_no_fits a.

Definition validate_ddr_pattern_store_args (a : ParsedArgs) : ceff bool :=
  let size := size_or a (32 * 1024 * 1024) in
  let cfg := or_low_speed a in
  let! raw_env := storage_config_compat_getenv "SRC_REAL_DDR_RAW_STORE" in
  let raw_store := non_empty raw_env && negb (bool_decide (raw_env = Some "0"%string)) in
  let size_limit := match cfg with
    | Some c => if raw_store then dma_ring_bytes c else CHANNEL_CPU_DDR_BYTES
    | None => CHANNEL_CPU_DDR_BYTES end in
  eret (
    if negb (has_task_no a) || negb (has_file_index a) || negb (has_proto_file_type a) then false
    else if has_channel a && channel_all a then false
    else if has_channel a && negb (bool_decide (is_Some (find_channel (channel_id a)))) then false
    else if negb (task_no_fits a) then false
    else if negb (size mod SECTOR_SIZE =? 0) then false
    else if (size =? 0) || (size_limit <? size) then false
    else validate_ddr_offset_for_channel a).

(** The destructive tests run on channel 2 only. *)
Definition test_channel_refused (a : ParsedArgs) : bool :=
  has_channel a && (channel_all a || negb (channel_id a =? LOW_SPEED_CHANNEL_ID)).

(** [(size + 4095) & ~4095], in 64 bits *)
Definition page_aligned (size : Z) : Z := Z.land (u64 (size + 4095)) (u64 (Z.lnot 4095)).

Definition validate_ssd_lba_wrap_test_args (a : ParsedArgs) : bool :=
  let size := size_or a (4 * 1024 * 1024) in
  if negb (has_lba a) || lba_auto a then false
  else if test_channel_refused a then false
  else if negb (size mod SECTOR_SIZE =? 0) then false
  else negb ((size =? 0) || (CHANNEL_CPU_DDR_BYTES / 4 <? page_aligned size)).

Definition validate_ssd_continuous_pattern_test_args (a : ParsedArgs) : bool :=
  let size := size_or a (640 * 1024 * 1024) in
  if negb (has_lba a) || lba_auto a then false
  else if test_channel_refused a then false
  else if negb (size mod SECTOR_SIZE =? 0) then false
  else negb (size =? 0).

(** ** What a parse guarantees *)
Record args_ok (a : ParsedArgs) : Prop := {
  ao_lba : is_u64 (lba a);
  ao_size : is_u64 (size_bytes a) ∧ (has_size a = true → size_bytes a ≠ 0);
  ao_task : (String.length (arg_task_no a) <= 11)%nat;
  ao_index : is_u32 (arg_file_index a);
  ao_type : is_u8 (proto_file_type a);
  ao_calib : is_u8 (calibration_type a);
  ao_desc : is_u32 (dma_desc_bytes a) ∧ (has_dma_desc_bytes a = true → dma_desc_bytes a ≠ 0);
  ao_offset : is_u64 (ddr_offset a);
  ao_duration : has_duration_sec a = true → 1 <= duration_sec a <= 86400;
  ao_channel : if channel_all a then channel_id a = -1 else 0 <= channel_id a < NUM_CHANNELS }.

Lemma zero_args_ok : args_ok zero_args.
Proof. split; simpl; try done; try cint; try lia; try (split; [cint|done]). Qed.

Lemma number_arg_range ok s v : number_arg ok s = Some v → is_u64 v ∧ ok v = true.
Proof.
  unfold number_arg. intros H. destruct (strtoul_full s 0) as [n|] eqn:E; [|done].
  destruct (ok n) eqn:Ho; simplify_eq. split; [|done]. by eapply (strtoul_full_range s 0).
Qed.

Lemma substring_short s : ∀ n, (String.length s <= n)%nat → String.substring 0 n s = s.
Proof.
  induction s as [|c s IH]; intros [|n] H; simpl in *; try done; [lia|]. f_equal. apply IH. lia.
Qed.

Lemma parse_channel_range s v : parse_channel_arg s = Some (ChannelId v) → 0 <= v < NUM_CHANNELS.
Proof.
  unfold parse_channel_arg. intros H. repeat case_match; simplify_eq.
  unfold HIGH_I_CHANNEL_ID, HIGH_Q_CHANNEL_ID, LOW_SPEED_CHANNEL_ID, NUM_CHANNELS in *. lia.
Qed.

Lemma parse_lba_range s v : parse_u64_auto s = Some (LbaValue v) → is_u64 v.
Proof.
  unfold parse_u64_auto. intros H. case_bool_decide; simplify_eq.
  apply fmap_Some in H as (n & Hn & [= ->]). by eapply (strtoul_full_range s 0).
Qed.

Lemma set_option_ok c v a a' : args_ok a → set_option c v a = Some a' → args_ok a'.
Proof.
  intros Ha. destruct a as [f1 f2 f3 f4 f5 f6 f7 f8 f9 f10 f11 f12 f13 f14 f15 f16 f17 f18 f19
    f20 f21 f22 f23 f24]. destruct Ha as [H1 H2 H3 H4 H5 H6 H7 H8 H9 H10]. simpl in *.
  assert (∀ n k, 0 <= k <= UINT32_MAX → is_u64 n → n <= k → 0 <= u32 n <= k ∧ (n ≠ 0 → u32 n ≠ 0))
    as Hu by (intros n k ? ? ?; rewrite u32_small; cint).
  unfold set_option. intros H.
  repeat match type of H with (if Ascii.eqb c _ then _ else _) = _ => destruct (Ascii.eqb c _) end;
    try (apply fmap_Some in H as (n & [Hn Ho]%number_arg_range & ->)); [..|done].
  - destruct (parse_channel_arg v) as [[|n]|] eqn:E; simplify_eq; split; try assumption; [done|].
    by eapply parse_channel_range.
  - split; try assumption. split; [done|]. intros _. simpl. lia.
  - simplify_eq. split; try assumption. apply substring_length_le.
  - split; try assumption. apply u32_range.
  - destruct (parse_u64_auto v) as [[|n]|] eqn:E; simplify_eq; split; try assumption; [cbn; cint|].
    by eapply parse_lba_range.
  - repeat case_bool_decide; simplify_eq; by split.
  - split; try assumption. assert (n <= UINT32_MAX) as Hle by cint. destruct (Hu n UINT32_MAX); [done..|]. split; [done|]. intros _. cbn. lia.
  - by split.
  - split; try assumption. destruct (Hu n 0xFF); [done..|lia|]. done.
  - split; try assumption. destruct (Hu n 0xFF); [done..|lia|]. done.
  - destruct (Hu n 86400) as [? ?]; [done..|lia|]. split; try assumption. intros _. cbn in *. lia.
Qed.

Lemma option_loop_ok args : ∀ operand a a',
  args_ok a → option_loop args operand a = Some a' → args_ok a'.
Proof.
  induction args as [args IH] using (induction_ltof1 _ length). unfold ltof in IH.
  intros operand a a' Ha H. destruct args as [|arg args]; simpl in H; [by destruct operand; simplify_eq|].
  destruct (getopt_long arg) as [| |c v|c|]; [..|done].
  - by eapply IH in H; [|simpl; lia|].
  - by repeat case_match; simplify_eq.
  - destruct (set_option c v a) eqn:E; [|done].
    eapply IH in H; [done|simpl; lia|by eapply set_option_ok].
  - destruct args as [|v args]; [done|]. destruct (set_option c v a) eqn:E; [|done].
    eapply IH in H; [done|simpl; lia|by eapply set_option_ok].
Qed.

Lemma parse_subcommand_args_ok argv a : parse_subcommand_args argv = Some a → args_ok a.
Proof. apply option_loop_ok, zero_args_ok. Qed.

(** The task number never fails its length test: it was cut while parsing. *)
Lemma task_no_fits_parsed a : args_ok a → task_no_fits a = true.
Proof. intros [_ _ H _ _ _ _ _ _ _]. unfold task_no_fits. lia. Qed.

Lemma find_channel_some i : 0 <= i < NUM_CHANNELS → ∃ c, find_channel i = Some c.
Proof.
  unfold NUM_CHANNELS. intros H. assert (i = 0 ∨ i = 1 ∨ i = 2) as [-> | [-> | ->]] by lia; by eexists.
Qed.

(** A descriptor size that lays the ring of a channel out exactly. *)
Definition desc_ok (cfg : ChannelConfig) (n : Z) : Prop :=
  n mod SECTOR_SIZE = 0 ∧ 0 < n <= DMA_DESC_BYTES_MAX ∧ dma_ring_bytes cfg mod n = 0 ∧
  0 < dma_ring_bytes cfg / n ∧
  dma_ring_bytes cfg / n * DMA_DESC_ENTRY_BYTES <= desc_cpu_size cfg.

Lemma find_channel_bounds i cfg : find_channel i = Some cfg →
  0 < dma_ring_bytes cfg <= UINT32_MAX ∧ dma_ring_bytes cfg <= dma_ring_bytes_max cfg <= UINT32_MAX ∧
  desc_cpu_size cfg = 0x4000.
Proof.
  unfold find_channel. simpl. intros H. repeat case_match; simplify_eq/=; cbv; repeat split; done.
Qed.

Lemma validate_dma_desc_spec a cfg : args_ok a → find_channel (channel_id a) = Some cfg →
  validate_dma_desc_bytes_for_channel a = true ↔
  (has_dma_desc_bytes a = true → desc_ok cfg (dma_desc_bytes a)).
Proof.
  intros Ha Hc. destruct (ao_desc a Ha) as [Hr Hn]. unfold validate_dma_desc_bytes_for_channel, desc_ok.
  destruct (has_dma_desc_bytes a); simpl; [|done]. specialize (Hn eq_refl). rewrite Hc.
  destruct (find_channel_bounds _ _ Hc) as (Hb & _ & ->).
  assert (0 < dma_desc_bytes a) as Hp by cint. clear Hn.
  assert (is_u32 (dma_ring_bytes cfg / dma_desc_bytes a)) as Hq.
  { split; [apply Z.div_pos; lia|].
    pose proof (Z.div_le_upper_bound (dma_ring_bytes cfg) (dma_desc_bytes a) (dma_ring_bytes cfg)).
    nia. }
  rewrite (u32_small _ Hq). change (u32 (0x4000 / DMA_DESC_ENTRY_BYTES)) with 256.
  change DMA_DESC_ENTRY_BYTES with 64.
  destruct (Z.eqb_spec (dma_desc_bytes a mod SECTOR_SIZE) 0); simpl; [|naive_solver].
  destruct (Z.ltb_spec DMA_DESC_BYTES_MAX (dma_desc_bytes a)); [naive_solver lia|].
  destruct (Z.eqb_spec (dma_ring_bytes cfg mod dma_desc_bytes a) 0); simpl; [|naive_solver].
  split; [intros; repeat split; auto; unfold is_u32 in Hq; lia|].
  intros H'. specialize (H' eq_refl). destruct H' as (_ & _ & _ & ? & ?). lia.
Qed.

(** What both write commands hand to the storage engine. *)
Record write_bounds (a : ParsedArgs) (cfg : ChannelConfig) : Prop := {
  wb_channel : find_channel (channel_id a) = Some cfg ∧ channel_all a = false;
  wb_task : has_task_no a = true ∧ (String.length (arg_task_no a) <= 11)%nat;
  wb_index : has_file_index a = true ∧ is_u32 (arg_file_index a);
  wb_size : has_size a = true →
    0 < size_bytes a <= FILE_MAX_BYTES ∧ size_bytes a mod SECTOR_SIZE = 0;
  wb_open : has_size a = false → lba_auto a = true;
  wb_desc : has_dma_desc_bytes a = true → desc_ok cfg (dma_desc_bytes a) }.

Lemma single_channel a : args_ok a → ensure_channel_required a false = true →
  channel_all a = false ∧ ∃ cfg, find_channel (channel_id a) = Some cfg.
Proof.
  intros Ha H. unfold ensure_channel_required in H. pose proof (ao_channel a Ha) as Hc.
  destruct (channel_all a); [by rewrite andb_false_r in H|].
  split; [done|]. by apply find_channel_some.
Qed.

Lemma write_accepted a : args_ok a → validate_write_args a = true →
  ∃ cfg, write_bounds a cfg.
Proof.
  intros Ha H. unfold validate_write_args in H. destruct (ensure_channel_required a false) eqn:He; [|done].
  destruct (single_channel a Ha He) as (Hall & cfg & Hc). simpl in H.
  repeat case_match; try done. rewrite !orb_false_iff, !negb_false_iff in *. destruct_and!.
  destruct (ao_size a Ha) as [Hu Hz].
  exists cfg. split; try done.
  - split; [done|apply Ha].
  - split; [done|apply Ha].
  - intros Hs. specialize (Hz Hs). split; [cint|lia].
  - congruence.
  - by apply validate_dma_desc_spec.
Qed.

Lemma storage_write_accepted a : args_ok a → validate_storage_write_args a = true →
  ∃ cfg, write_bounds a cfg ∧ has_proto_file_type a = true.
Proof.
  intros Ha H. unfold validate_storage_write_args in H.
  destruct (ensure_channel_required a false) eqn:He; [|done].
  destruct (single_channel a Ha He) as (Hall & cfg & Hc). simpl in H.
  destruct (ao_size a Ha) as [Hu Hz].
  destruct (negb _ || negb _ || negb _ || negb _) eqn:E1; [done|].
  destruct (negb (task_no_fits a)); [done|].
  destruct (if has_size a then _ else _) eqn:E2; [done|].
  destruct (has_proto_file_type a) eqn:E3; [|done]. simpl in H.
  rewrite !orb_false_iff, !negb_false_iff in E1. destruct_and!.
  exists cfg. split; [|done]. split; try done.
  - split; [done|apply Ha].
  - split; [done|apply Ha].
  - intros Hs. rewrite Hs in E2. specialize (Hz Hs). split; [cint|lia].
  - intros Hs. rewrite Hs in E2. by apply negb_false_iff in E2.
  - by apply validate_dma_desc_spec.
Qed.

(** ** Numbers printed and parsed back *)
Lemma pretty_char_digit x : (x < 10)%N →
  digit_val (pretty_N_char x) = Some (Z.of_N x) ∧
  (code (pretty_N_char x) =? 48) = (x =? 0)%N ∧ is_space (pretty_N_char x) = false ∧
  (code (pretty_N_char x) =? 45) = false ∧ (code (pretty_N_char x) =? 43) = false.
Proof.
  intros H. assert (x = 0 ∨ x = 1 ∨ x = 2 ∨ x = 3 ∨ x = 4 ∨ x = 5 ∨ x = 6 ∨ x = 7 ∨ x = 8 ∨ x = 9)%N
    as Hx by lia. by destruct_or!; subst.
Qed.

Lemma digits_pretty_go x : ∀ s, digits 10 0 (pretty_N_go x s) = digits 10 (Z.of_N x) s.
Proof.
  induction (N.lt_wf_0 x) as [x _ IH]; intros s.
  destruct (decide (x = 0)%N) as [->|Hx]; [done|].
  rewrite pretty_N_go_step by lia. rewrite IH by (apply N.div_lt; lia).
  assert (x mod 10 < 10)%N as Hm by (apply N.mod_lt; lia).
  destruct (pretty_char_digit _ Hm) as (Hd & _). simpl. rewrite Hd.
  replace (Z.of_N (x mod 10) <? 10) with true by lia. f_equal.
  rewrite N2Z.inj_div, N2Z.inj_mod. simpl. pose proof (Z.div_mod (Z.of_N x) 10). lia.
Qed.

Lemma pretty_go_first x : (0 < x)%N → ∀ s, ∃ d r, (0 < d < 10)%N ∧
  pretty_N_go x s = String (pretty_N_char d) r.
Proof.
  induction (N.lt_wf_0 x) as [x _ IH]; intros Hx s. rewrite pretty_N_go_step by lia.
  destruct (decide (x < 10)%N) as [Hs|Hs].
  - rewrite N.div_small, N.mod_small by lia. rewrite pretty_N_go_0. exists x, s. split; [lia|done].
  - apply IH; [apply N.div_lt; lia|]. apply N.div_str_pos. lia.
Qed.

(** Every unsigned number prints as its own text for [strtoul]. *)
Lemma strtoul_pretty n : is_u64 n → strtoul_full (pretty n) 0 = Some n.
Proof.
  intros Hn. destruct n as [|p|p]; [done| |cint].
  change (pretty (Z.pos p)) with (pretty_N_go (N.pos p) ""%string).
  pose proof (digits_pretty_go (N.pos p) "") as Hd.
  destruct (pretty_go_first (N.pos p) ltac:(lia) "") as (d & r & Hdr & E). rewrite E in *.
  destruct (pretty_char_digit d) as (Hv & H0 & Hsp & Hm & Hp); [lia|].
  unfold strtoul_full, strtoul. cbn [skip_space]. rewrite Hsp, Hm, Hp.
  assert (base_of 0 (String (pretty_N_char d) r) = (10, String (pretty_N_char d) r)) as ->.
  { rewrite (proj2 (N.eqb_neq d 0)) in H0 by lia. unfold base_of. by destruct r; rewrite !H0. }
  assert (starts_digit 10 (String (pretty_N_char d) r) = true) as ->.
  { simpl. rewrite Hv. lia. }
  rewrite Hd. cbn [digits negb]. by replace (UINT64_MAX <? Z.of_N (N.pos p)) with false by cint.
Qed.

Lemma number_arg_pretty ok n : is_u64 n → ok n = true → number_arg ok (pretty n) = Some n.
Proof. intros Hn Ho. unfold number_arg. by rewrite strtoul_pretty, Ho. Qed.

(** The unsigned sum of [validate_ssd_lba_wrap_test_args] wraps: the largest
    sector-aligned size passes a check that means to bound it by 16 MiB. *)
Theorem wrap_test_size_unbounded :
  ∃ a, parse_subcommand_args
         ["ssd-lba-wrap-test"; "--ssd-lba"; "0x1000"; "--size"; "18446744073709551104"]%string
       = Some a ∧
  validate_ssd_lba_wrap_test_args a = true ∧ size_bytes a = 2 ^ 64 - 512.
Proof. eexists. split; [vm_compute; reflexivity|]. by vm_compute. Qed.

(** The timeout is tested for zero before it is cut to 32 bits. *)
Theorem timeout_option_wraps :
  parse_global_options ["worker"; "--timeout-us"; "4294967296"; "list"]%string =
  Some (mkGlobal false false 0, ["list"%string]).
Proof. by vm_compute. Qed.

(** An over-long task number is cut before its length is tested: two
    different ones end up naming the same task. *)
Theorem long_task_numbers_collide s t : (11 <= String.length s)%nat →
  set_option "T" (s ++ t) zero_args = set_option "T" s zero_args.
Proof.
  intros H. unfold set_option. simpl. do 2 f_equal.
  revert s H. generalize 11%nat. induction n as [|n IH]; intros s H.
  - by destruct s, t.
  - destruct s as [|c s]; simpl in *; [lia|]. f_equal. apply IH. lia.
Qed.
End ccb_cli.
