(* ===== verification/ChannelOpen.v ===== *)
(** * Opening a channel ([src/src/ccb_hw.c])

    What every command that works on a channel begins and ends with: mapping the
    devices and setting up the runtime, selecting the source of the stream,
    closing.  The report of the PCIe bridge at start-up is printing only. *)
From S2P Require Import Prelude StorageError CcbTypes Config DmaRing CrossSlot NvmeQueue NvmeConfig CmdConfig Cli.

Module ccb_channel.
Import ccb_types ccb_cli storage_config ccb_cmd_config.
#[local] Existing Instance nvme_queue.eta_Nvme.

Definition AXIS_SWITCH_CTRL_REG_OFFSET : Z := 0.
Definition AXIS_SWITCH_MI0_MUX_OFFSET : Z := 0x40.
Definition AXIS_SWITCH_REG_UPDATE : Z := 2.

(** ** Opening the channel *)
(** The fields that [channel_runtime_open] sets, in the record of each part. *)
Definition open_dma (cfg : ChannelConfig) (gopt : GlobalOptions) (ring : Z) : ccb_dma.Rt :=
  ccb_dma.mkRt (desc_dma_base cfg) (desc_cpu_size cfg) (ddr_hw_base cfg) (negb (dry_run gopt))
    (dry_run gopt) (timeout_us gopt) 0 (dma_desc_bytes_default cfg) ring
    (u32 (ring / dma_desc_bytes_default cfg)) 0 0 0 0 0 0 false false false 0.
Definition open_nvme (cfg : ChannelConfig) (gopt : GlobalOptions) (ring : Z) (s : config_state) :
    nvme_queue.Nvme :=
  let cmd := nvme_queue.NVME_CMD_KIB_DEFAULT * 1024 in
  nvme_queue.mkNvme
    (ccb_hw.mkRt 1 0 (cmd / ccb_hw.NVME_SECTOR_BYTES) false (u32 (ring / dma_desc_bytes_default cfg))
       0 0 0 0 0 0 0 0 0 0 0 0 0 0 0 0 0 STORAGE_ERR_NONE STORAGE_ERR_NONE "")
    (nvme_queue.mkSettings cfg (dry_run gopt) (skip_link_check gopt) (timeout_us gopt) 512 (256 * 1024) cmd
       nvme_config.NVME_QD_DEFAULT nvme_config.NVME_QD_DEFAULT nvme_queue.NVME_FEED_MODE_LEGACY
       0 false 0 0 ring)
    (nvme_queue.mkCounters 0 0 0 0 0 0 0 0 0 0 0 0 0 0) false s.

(** ** The devices *)
(** What the commands reach: the registers of the NVMe host and of the stream
    switch, the mapping of the devices, and the metadata table of a channel. *)
Record Devices (W : Type) : Type := mkDevices {
  nvme_hw : nvme_queue.NvmeHw W;
  axis_switch : nvme_queue.NvmeHw W;
  map_devices : ChannelConfig → Eff W bool;
  metadata_read : ChannelConfig → Eff W (option (list FileEntry));
  metadata_write : ChannelConfig → list FileEntry → Eff W Z }.
Arguments mkDevices {W}. Arguments nvme_hw {W}. Arguments axis_switch {W}.
Arguments map_devices {W}. Arguments metadata_read {W}. Arguments metadata_write {W}.

Section Channel.
Context {W : Type} (D : Devices W).
#[local] Abbreviation M := (Eff (config_state * W)).

(** An operation on the NVMe part of the runtime. *)
Definition on_nvme {X} (n : nvme_queue.Nvme) (m : Eff (nvme_queue.Nvme * W) X) : M (X * nvme_queue.Nvme) :=
  λ '(s, w), let '(x, (n, w)) := m (n <| nvme_queue.conf := s |>, w) in ((x, n), (nvme_queue.conf n, w)).

Definition channel_runtime_open (cfg : ChannelConfig) (gopt : GlobalOptions) :
    M (option (ccb_dma.Rt * nvme_queue.Nvme)) :=
  let! ring := configured (nvme_config.parse_storage_ring_bytes cfg) in
  let! _ := configured (nvme_config.pcie_bridge_base_for_channel cfg) in
  let! mapped := (if dry_run gopt then eret true else sio (map_devices D cfg)) in
  let! s := sget in
  eret (if mapped : bool then Some (open_dma cfg gopt ring, open_nvme cfg gopt ring s) else None).

(** The switch is told where the stream comes from; that it never reports the
    update is not an error. *)
Definition axis_switch_select (fuel : nat) (src : SourceMode) :
    Eff (nvme_queue.Nvme * W) (nvme_queue.leave + unit) :=
  let! n := sget in
  if nvme_queue.dry_run (nvme_queue.set n) then xret tt else
  let input := match src with SOURCE_TEST => 1 | SOURCE_TRANSFER => 0 end in
  let! _ := sio (nvme_queue.reg_write32 (axis_switch D) AXIS_SWITCH_MI0_MUX_OFFSET (Z.land input 15)) in
  let! _ := sio (nvme_queue.reg_write32 (axis_switch D) AXIS_SWITCH_CTRL_REG_OFFSET AXIS_SWITCH_REG_UPDATE) in
  let? _ := nvme_config.wait_reg_bits (axis_switch D) fuel AXIS_SWITCH_CTRL_REG_OFFSET
              AXIS_SWITCH_REG_UPDATE 0 (nvme_queue.timeout_us (nvme_queue.set n)) in
  xret tt.

End Channel.

(** Whether [channel_runtime_close] unmaps the devices: not while the device may
    still own memory. *)
Definition channel_runtime_close (n : nvme_queue.Nvme) : bool := negb (nvme_queue.nvme_ownership_unresolved n).
End ccb_channel.
