(* ===== verification/ProducerSetup.v ===== *)
(** * The set-up of a capture ([src/src/ccb_commands.c], [src/src/ccb_hw.c])

    The first half of [execute_write_with_result_mode]: reading the settings,
    opening the channel, checking the layout of the ring, probing the device,
    planning the file from the metadata table, preparing the ring and the write
    queue, and starting the writer thread; and the function as a whole, with
    the capture of [ProducerEnd] behind the set-up.  Log lines and the values
    that are only printed are left out. *)
From stdpp Require Import pretty.
From S2P Require Import Prelude StorageError SlotTable CStdlib CcbTypes Metadata Config Stop Ipc DmaRing CrossSlot WriteQueue WriterThread CmdConfig NvmeQueue NvmeConfig Cli ChannelOpen ProducerStats ProducerBatch ProducerRun ProducerEnd.

Module ccb_capture_setup.
Import c_stdlib ccb_types ccb_cli storage_config storage_write_queue storage_writer_thread ccb_cmd_config ccb_channel ccb_capture ccb_capture_run ccb_capture_end.
#[local] Existing Instance nvme_queue.NvmeFeedMode_eq_dec.

Definition CCB_INTERNAL_START_FD : string := "CCB_INTERNAL_START_FD".
Definition CCB_INTERNAL_STORAGE_CONTROL_FD : string := "CCB_INTERNAL_STORAGE_CONTROL_FD".
Definition CCB_INTERNAL_STORAGE_EVENT_FD : string := "CCB_INTERNAL_STORAGE_EVENT_FD".
Definition CCB_INTERNAL_SUPERVISED_CHANNEL_COUNT : string := "CCB_INTERNAL_SUPERVISED_CHANNEL_COUNT".
(** ** The settings *)
(** A descriptor of a pipe to the parent, or -1. *)
Definition storage_env_fd (name : string) : ceff Z :=
  let! value := storage_config_compat_getenv name in
  eret (match value with
        | Some v =>
          if String.eqb v "" then -1 else
          match strtol_full v 10 with
          | Some fd => if (0 <=? fd) && (fd <=? INT_MAX) then fd else -1
          | None => -1
          end
        | None => -1 end).

(** The thresholds of ring pressure. *)
Definition pressure_settings : ceff Pressure :=
  let! warning := storage_env_u32_limit "SRC_REAL_RING_WARNING_PERCENT" 75 100 in
  let! critical := storage_env_u32_limit "SRC_REAL_RING_CRITICAL_PERCENT" 90 100 in
  let! duration := storage_timeout_us "SRC_REAL_RING_CRITICAL_DURATION_US" None 100000 in
  eret (pressure_init warning critical duration).

(** Whether the cross-slot writer is used, and its parameters. *)
Definition cross_slot_settings (ch : Z) : ceff (bool * ccb_hw.NvmeCrossSlotConfig) :=
  let resolve p := let! r := storage_cross_slot_resolve_config ch p in eret (value r) in
  let! enabled := resolve STORAGE_CROSS_SLOT_CONFIG_ENABLED in
  let! max_active := resolve STORAGE_CROSS_SLOT_CONFIG_MAX_ACTIVE in
  let! target_qd := resolve STORAGE_CROSS_SLOT_CONFIG_TARGET_QD in
  let! cq_batch := resolve STORAGE_CROSS_SLOT_CONFIG_CQ_BATCH in
  let! budget := resolve STORAGE_CROSS_SLOT_CONFIG_WRITER_BUDGET_US in
  let! busy := resolve STORAGE_CROSS_SLOT_CONFIG_BUSY_POLL_US in
  let! empty := resolve STORAGE_CROSS_SLOT_CONFIG_EMPTY_SLEEP_US in
  let! no_progress := resolve STORAGE_CROSS_SLOT_CONFIG_NO_PROGRESS_TIMEOUT_US in
  eret (negb (enabled =? 0),
        ccb_hw.mkConfig max_active target_qd cq_batch budget busy empty no_progress).

(** How long a supervised capture of all channels waits for its first data. *)
Definition first_timeout (required : bool) (configured : Z) : Z :=
  if required && (configured =? 0) then 30000000 else configured.

Definition capture_settings (cfg : ChannelConfig) (a : ParsedArgs) (gopt : GlobalOptions)
    (supervised : bool) : ceff Settings :=
  let! app := storage_config_get in
  let bounded := has_size a in
  let! idle := (if bounded then eret 0 else
                match app with Some c => eret (storage_config.idle_required_ms c) | None => storage_dma_idle_done_ms end) in
  let! _ := storage_stop_timeouts 0 in
  let! first := storage_first_dma_timeout_us cfg in
  let! channels := (if supervised then storage_env_u32_limit CCB_INTERNAL_SUPERVISED_CHANNEL_COUNT 1 3
                    else eret 1) in
  let required := supervised && (channels =? NUM_CHANNELS) in
  let coordinated := negb bounded && supervised &&
    match app with Some c => auto_input_complete c | None => false end in
  let! batch := storage_channel_env_u32 cfg "HARVEST_BATCH_MAX" (Some "SRC_REAL_HARVEST_BATCH_MAX"%string)
                  (if id cfg =? 2 then 4 else 16) 1024 in
  let! stop := storage_stop_timeouts (timeout_us gopt) in
  let! control := storage_env_fd CCB_INTERNAL_STORAGE_CONTROL_FD in
  let! event := storage_env_fd CCB_INTERNAL_STORAGE_EVENT_FD in
  let! start := storage_config_compat_getenv CCB_INTERNAL_START_FD in
  let of_app {A} (f : AppConfig → A) (d : A) := match app with Some c => f c | None => d end in
  λ s, (mkSettings s (id cfg) supervised bounded (if bounded then size_bytes a else 0) batch stop
    (0 <=? control) (0 <=? event) start (timeout_us gopt) coordinated
    (negb bounded && negb coordinated && (channels <=? 1)) idle (first_timeout required first) required
    (of_app storage_config.idle_scan_interval_ms 100) (of_app storage_config.idle_required_ms 500)
    (of_app storage_config.idle_required_scans 5) (of_app storage_config.drain_stable_scans 3)
    (of_app storage_config.drain_stable_us 100), s).

(** ** The plan of the file *)
Definition task_text (a : ParsedArgs) : list Z := code <$> String.list_ascii_of_string (arg_task_no a).

(** A refused plan, with the error that is recorded. *)
Inductive verdict : Type := Accepted | Refused (reason : option string).

Definition empty_plan (cfg : ChannelConfig) (a : ParsedArgs) (table : list FileEntry) : Plan :=
  mkPlan 0 (arg_file_index a) (-1) table (task_text a)
    (if has_proto_file_type a then proto_file_type a else ch_file_type cfg).

Definition check_range (a : ParsedArgs) (max_lba : Z) (table : list FileEntry) (start : Z) : verdict :=
  if has_size a then
    let sectors := bytes_to_sectors (size_bytes a) in
    if UINT64_MAX - start <? sectors then Refused (Some "lba_range_overflow"%string) else
    if negb (lba_auto a) && negb (ccb_metadata.metadata_check_lba_overlap table start sectors =? 0)
    then Refused None else
    if (0 <? max_lba) && negb (nvme_lba_range_valid max_lba start sectors) then Refused None else Accepted
  else if negb (lba_auto a) then Refused None else Accepted.

Definition plan_file (cfg : ChannelConfig) (a : ParsedArgs) (max_lba : Z) (table : list FileEntry) :
    verdict * Plan :=
  let p := empty_plan cfg a table in
  match ccb_metadata.metadata_resolve_file_index table (task_text a) (arg_file_index a) with
  | None => (Refused None, p)
  | Some index =>
    match ccb_metadata.metadata_alloc_slot_and_lba table with
    | None => (Refused None, mkPlan 0 index (-1) table (ccb_capture_run.task_no p) (file_type p))
    | Some (slot, auto, _) =>
      let start := if lba_auto a then auto else lba a in
      (check_range a max_lba table start,
       mkPlan start index slot table (ccb_capture_run.task_no p) (file_type p))
    end
  end.

(** ** The surroundings *)
(** [around] is what the capture reaches; the set-up also uses the devices of
    the channel, the allocator and [pthread_create].  [unset_queue] is the write
    queue before it is initialised. *)
Record Surroundings (W : Type) : Type := mkAround {
  around : Producer W;
  devices : Devices W;
  allocations : Allocations;
  pthread_create : bool → Eff W bool;
  unset_queue : StorageWriteQueue }.
Arguments mkAround {W}. Arguments around {W}. Arguments devices {W}. Arguments allocations {W}.
Arguments pthread_create {W}. Arguments unset_queue {W}.

(** What the set-up hands to the capture, or to the clean-up. *)
Record Prepared : Type := mkPrepared { p_settings : Settings; p_plan : Plan; p_state : State }.
(** The function returns before anything is open; it goes to [out]; a waiting
    loop has used up its fuel. *)
Inductive early : Type := NotOpened | GotoOut (p : Prepared) | NoFuel.

Section Setup.
Context {W : Type} (A : Surroundings W).
#[local] Abbreviation M := (Eff (config_state * W)).

(** An operation on the ring. *)
Definition on_ring {X} (d : ccb_dma.Rt) (m : Eff (ccb_dma.State * W) X) : M (X * ccb_dma.Rt) :=
  λ '(s, w), let '(x, (d, w)) := m (ccb_dma.mkState d None, w) in ((x, ccb_dma.rt d), (s, w)).

(** The part of the runtime that the write queue uses. *)
Definition runtime (cfg : ChannelConfig) (d : ccb_dma.Rt) (n : nvme_queue.Nvme) : ChannelRuntime :=
  mkRuntime d (id cfg) (ccb_hw.nvme_max_lba (nvme_queue.base n))
    (bool_decide (nvme_queue.nvme_feed_mode (nvme_queue.set n) = nvme_queue.NVME_FEED_MODE_TIGHT))
    (nvme_queue.nvme_qd_effective (nvme_queue.set n)) (ccb_hw.nvme_last_error (nvme_queue.base n)).

(** The locals before the writer thread exists: [next] is the next sector. *)
Definition early_locals (p : Pressure) (next : Z) (queue_ready : bool) : Locals :=
  (locals_init p next) <| flags ::= λ f, f <| write_queue_ready := queue_ready |> |>.

(** [goto out] before the queue exists. *)
Definition out {X} (c : Settings) (plan : Plan) (p : Pressure) (r : ChannelRuntime)
    (reason : option string) : M (early + X) :=
  let l := (early_locals p 0 false) <| stats ::= λ s,
    match reason with Some t => storage_record_failure t s | None => s end |> in
  xfail (GotoOut (mkPrepared c plan (mkState (mkSys ((unset_queue A) <| rt := r |>) false None) l))).

(** The reason why the configured ring is refused. *)
Definition ring_error (cfg : ChannelConfig) (ring desc_bytes requested : Z) : bool :=
  negb (requested =? ring) ||
  bool_decide (is_Some (storage_ring_layout_error_reason cfg ring desc_bytes).1.1).

(** Probing the device and reading the table. *)
Definition examine (fuel : nat) (cfg : ChannelConfig) (a : ParsedArgs) (c : Settings) (p : Pressure)
    (d : ccb_dma.Rt) (n : nvme_queue.Nvme) : M (early + (nvme_queue.Nvme * Plan)) :=
  let stop n plan reason := out c plan p (runtime cfg d n) reason in
  let none := empty_plan cfg a [] in
  let! (r, n) := on_nvme n (nvme_config.nvme_probe (nvme_hw (devices A)) fuel) in
  match r with
  | inl nvme_queue.OutOfFuel | inl nvme_queue.DivideByZero => xfail NoFuel
  | inl (nvme_queue.Return rc) | inr rc =>
  if negb (rc =? 0) then stop n none None else
  if ccb_hw.nvme_max_lba (nvme_queue.base n) =? 0 then stop n none None else
  let! o := sio (metadata_read (devices A) cfg) in
  match o with
  | None => stop n none None
  | Some table =>
    match plan_file cfg a (ccb_hw.nvme_max_lba (nvme_queue.base n)) table with
    | (Accepted, plan) => xret (n, plan)
    | (Refused reason, plan) => stop n plan reason
    end
  end
  end.

(** Selecting the stream and preparing the ring. *)
Definition prepare_ring (fuel : nat) (cfg : ChannelConfig) (a : ParsedArgs) (c : Settings) (p : Pressure)
    (plan : Plan) (desc_bytes : Z) (d : ccb_dma.Rt) (n : nvme_queue.Nvme) : M (early + (ccb_dma.Rt * nvme_queue.Nvme)) :=
  let! (r, n) := on_nvme n (axis_switch_select (devices A) fuel (source a)) in
  match r with
  | inl _ => xfail NoFuel
  | inr _ =>
    let! (r, d) := on_ring d (ccb_dma.dma_prepare_s2mm_ring (dma_hw (outside (around A))) fuel desc_bytes) in
    match r with
    | inl ccb_dma.OutOfFuel | inl ccb_dma.DivideByZero => xfail NoFuel
    | inl (ccb_dma.Returned rc) | inr rc =>
      if negb (rc =? 0) then out c plan p (runtime cfg d n) None else xret (d, n)
    end
  end.

(** The write queue and its writer thread. *)
Definition start_writer (cfg : ChannelConfig) (c : Settings) (p : Pressure) (plan : Plan)
    (cross : bool * ccb_hw.NvmeCrossSlotConfig) (r : ChannelRuntime) : M (early + Prepared) :=
  let! o := configured (storage_queue_init r (allocations A)) in
  match o with
  | None => out c plan p r None
  | Some q =>
    let q := q <| cross_slot_config := cross.2 |> <| nvme_abort_timeout_us := nvme_abort_us (timeouts c) |> in
    let prepared := mkPrepared c plan
      (mkState (mkSys q false None) (early_locals p (start_lba plan) true)) in
    let! started := sio (pthread_create A cross.1) in
    if started : bool then xret prepared else xfail (GotoOut prepared)
  end.

Definition set_up (a : ParsedArgs) (gopt : GlobalOptions) (supervised : bool) (fuel : nat) :
    M (early + Prepared) :=
  match ccb_config.find_channel (channel_id a) with
  | None => xfail NotOpened
  | Some cfg =>
    let desc_bytes := if has_dma_desc_bytes a then dma_desc_bytes a
                      else storage_default_dma_desc_bytes (Some cfg) in
    let! c := configured (capture_settings cfg a gopt supervised) in
    let! p := configured pressure_settings in
    let! cross := configured (cross_slot_settings (id cfg)) in
    let! o := channel_runtime_open (devices A) cfg gopt in
    match o with
    | None => xfail NotOpened
    | Some (d, n) =>
      let! requested := configured (storage_requested_ring_bytes cfg) in
      if ring_error cfg (ccb_dma.dma_ring_bytes d) desc_bytes requested
      then out c (empty_plan cfg a []) p (runtime cfg d n) None else
      let? (n, plan) := examine fuel cfg a c p d n in
      let? (d, n) := prepare_ring fuel cfg a c p plan desc_bytes d n in
      start_writer cfg c p plan cross (runtime cfg d n)
    end
  end.

(** ** The whole function *)
(** -1 before anything is open, the end of the capture with the process-wide variables it leaves, or not enough fuel. *)
Inductive Write : Type := Unopened | Returned (e : Ended) (g : Globals) | Unfinished.

(** The capture runs on the state that the set-up has made. *)
Definition in_capture (p : Prepared) (m : Eff (State * W) (option Ended)) : M Write := λ '(s, w),
  let '(o, (y, w)) := m (p_state p, w) in
  (match o with Some e => Returned e (globals (vars y)) | None => Unfinished end, (s, w)).

(** [out], when the set-up has failed. *)
Definition abandon (p : Prepared) (inner : nat) : Eff (State * W) (option Ended) :=
  let! o := clean_up (around A) (p_settings p) inner in
  match o with
  | inl _ => eret None
  | inr _ => let! e := leave_capture (around A) (p_plan p) (inl GoOut) in eret (Some e)
  end.

Definition execute_write_with_result_mode (a : ParsedArgs) (gopt : GlobalOptions) (supervised : bool)
    (fuel inner : nat) : M Write :=
  let! r := set_up a gopt supervised inner in
  match r with
  | inl NotOpened => eret Unopened
  | inl NoFuel => eret Unfinished
  | inl (GotoOut p) => in_capture p (abandon p inner)
  | inr p => in_capture p (capture (around A) (p_settings p) (p_plan p) fuel inner)
  end.
Definition execute_write_with_result (a : ParsedArgs) (gopt : GlobalOptions) (fuel inner : nat) : M Write :=
  execute_write_with_result_mode a gopt false fuel inner.
(** The exit status: -1 unless the capture has another one. *)
Definition write_rc (r : Write) : Z := match r with Returned e _ => e_rc e | _ => -1 end.
End Setup.
End ccb_capture_setup.
