(* ===== verification/ProducerFresh.v ===== *)
(** * The set-up of a capture: the file it plans

    The plan that [set_up] makes comes from the table that was read, and the
    file of a capture that succeeds is new: it has a free slot, an index that no
    file of its task has, and sectors that no file has. *)
From S2P Require Import Prelude CStdlib CcbTypes Metadata Config DmaRing CrossSlot WriteQueue WriterThread CmdConfig NvmeQueue NvmeConfig Cli ChannelOpen ProducerStats ProducerBatch ProducerRun ProducerEnd ProducerExample ProducerLogic ProducerSafe ProducerTurn ProducerSound ProducerSetup.

Module producer_fresh.
Import ccb_types ccb_metadata ccb_cli storage_config storage_write_queue ccb_cmd_config ccb_capture ccb_capture_run ccb_capture_end ccb_channel producer_sound producer_example ccb_capture_setup.

(** ** What a step of the set-up returns *)
Section Setup.
Context {W : Type} (A : Surroundings W).
#[local] Abbreviation M := (Eff (config_state * W)).

Definition yields {X} (m : M X) (Q : X → Prop) : Prop := ∀ st, Q (m st).1.
(** An early end may be anything. *)
Definition on_right {E X} (Q : X → Prop) (r : E + X) : Prop := match r with inl _ => True | inr x => Q x end.

Lemma yields_any {X} (m : M X) : yields m (λ _, True).
Proof. done. Qed.
Lemma yields_ret {X} (x : X) (Q : X → Prop) : Q x → yields (eret x) Q.
Proof. by intros ? st. Qed.
Lemma yields_bind {X Y} (m : M X) (k : X → M Y) P Q :
  yields m P → (∀ x, P x → yields (k x) Q) → yields (ebind m k) Q.
Proof.
  intros Hm Hk st. unfold ebind. specialize (Hm st). destruct (m st) as [x st'].
  by apply (Hk x Hm st').
Qed.
Lemma yields_xbind {E X Y} (m : M (E + X)) (k : X → M (E + Y)) P Q :
  yields m (on_right P) → (∀ x, P x → yields (k x) (on_right Q)) → yields (xbind m k) (on_right Q).
Proof.
  intros Hm Hk. unfold xbind. apply (yields_bind _ _ _ _ Hm). intros [e|x] Hx; [by apply yields_ret|by apply Hk].
Qed.
Lemma yields_fail {E X} (e : E) (Q : X → Prop) : yields (xfail e) (on_right Q).
Proof. done. Qed.
Lemma yields_configured {X} (m : ceff X) (Q : X → Prop) :
  (∀ s, Q (m s).1) → yields (configured m) Q.
Proof. intros H [s w]. unfold configured. specialize (H s). by destruct (m s). Qed.

(** ** The steps *)
(** The plan was made from the table that was read. *)
Definition planned (a : ParsedArgs) (plan : Plan) : Prop :=
  ∃ cfg max t w w', ccb_config.find_channel (channel_id a) = Some cfg ∧
    metadata_read (devices A) cfg w = (Some t, w') ∧ plan_file cfg a max t = (Accepted, plan).

Lemma examine_yields fuel cfg a c p d n :
  ccb_config.find_channel (channel_id a) = Some cfg →
  yields (examine A fuel cfg a c p d n) (on_right (λ r, planned a r.2)).
Proof.
  intros Hcfg. unfold examine. eapply yields_bind; [apply yields_any|]. intros [r n'] _.
  assert (Hread : ∀ rc, yields
    (if negb (rc =? 0) then out A c (empty_plan cfg a []) p (runtime cfg d n') None else
     if ccb_hw.nvme_max_lba (nvme_queue.base n') =? 0 then out A c (empty_plan cfg a []) p (runtime cfg d n') None else
     let! o := sio (metadata_read (devices A) cfg) in
     match o with
     | None => out A c (empty_plan cfg a []) p (runtime cfg d n') None
     | Some table =>
       match plan_file cfg a (ccb_hw.nvme_max_lba (nvme_queue.base n')) table with
       | (Accepted, plan) => xret (n', plan)
       | (Refused reason, plan) => out A c plan p (runtime cfg d n') reason
       end
     end) (on_right (λ r, planned a r.2))).
  { intros rc. destruct (negb (rc =? 0)); [by apply yields_fail|].
    destruct (_ =? 0); [by apply yields_fail|].
    apply (yields_bind _ _ (λ o, ∃ w w', metadata_read (devices A) cfg w = (o, w'))).
    { intros [s w]. unfold sio. destruct (metadata_read (devices A) cfg w) as [o w'] eqn:E. by exists w, w'. }
    intros [t|] (w & w' & Hr); [|by apply yields_fail].
    destruct (plan_file _ _ _ _) as [[|reason] plan] eqn:E; [|by apply yields_fail].
    apply yields_ret. by exists cfg, (ccb_hw.nvme_max_lba (nvme_queue.base n')), t, w, w'. }
  destruct r as [[rc| |]|rc]; [apply Hread|by apply yields_fail..|apply Hread].
Qed.

(** What the set-up hands to the capture. *)
Record ready (a : ParsedArgs) (p : Prepared) : Prop := {
  rd_plan : planned a (p_plan p);
  rd_vars : ∃ pr, vars (p_state p) = locals_init pr (start_lba (p_plan p));
  rd_bounded : bounded (p_settings p) = has_size a;
  rd_size : has_size a = true → requested_size (p_settings p) = size_bytes a;
  rd_u64 : args_ok a → is_u64 (requested_size (p_settings p)) }.

Lemma capture_settings_size cfg a gopt sup s :
  let c := (capture_settings cfg a gopt sup s).1 in
  bounded c = has_size a ∧ requested_size c = if has_size a then size_bytes a else 0.
Proof.
  unfold capture_settings, ebind.
  repeat match goal with |- context [let '(_, _) := ?m in _] =>
    destruct m as [? ?] end.
  done.
Qed.

Lemma set_up_yields a gopt sup fuel : yields (set_up A a gopt sup fuel) (on_right (ready a)).
Proof.
  unfold set_up. destruct (ccb_config.find_channel _) as [cfg|] eqn:Hcfg; [|by apply yields_fail].
  apply (yields_bind _ _ (λ c, bounded c = has_size a ∧ requested_size c = if has_size a then size_bytes a else 0));
    [apply yields_configured, (capture_settings_size cfg a gopt sup)|]. intros c [Hb Hr].
  do 3 (eapply yields_bind; [apply yields_any|]; intros ? _). destruct x1 as [[d n]|]; [|by apply yields_fail].
  eapply yields_bind; [apply yields_any|]. intros ? _. destruct (ring_error _ _ _ _); [by apply yields_fail|].
  eapply yields_xbind; [by apply examine_yields|]. intros [n' plan] Hp.
  eapply (yields_xbind _ _ (λ _, True)); [by intros st; destruct (_ st).1|]. intros [d' n2] _.
  unfold start_writer. eapply yields_bind; [apply yields_any|]. intros [q|] _; [|by apply yields_fail].
  eapply yields_bind; [apply yields_any|]. intros [] _; [|by apply yields_fail].
  apply yields_ret. split; cbn; [exact Hp|by eexists|exact Hb|by intros E; rewrite Hr, E|].
  intros Ha. rewrite Hr. destruct (has_size a); [apply (ao_size a Ha)|cint].
Qed.

(** A set-up that fails ends with -1. *)
Lemma leave_out plan st : e_rc (leave_capture (around A) plan (inl GoOut) st).1 = -1.
Proof.
  unfold leave_capture, fail_capture, ebind.
  repeat match goal with |- context [let '(_, _) := ?m in _] => destruct m as [? ?] end. done.
Qed.
Lemma abandon_fails p inner st e : (abandon A p inner st).1 = Some e → e_rc e = -1.
Proof.
  unfold abandon, ebind. destruct (clean_up _ _ _ _) as [[o|u] st1]; [done|].
  pose proof (leave_out (p_plan p) st1) as H. destruct (leave_capture _ _ _ _) as [e1 st2].
  by intros [= <-].
Qed.
End Setup.

(** ** The planned file *)
(** A table that the program has kept consistent. *)
Record good_table (t : list FileEntry) : Prop := {
  gt_inv : table_inv t; gt_length : length t = MAX_FILES_TOTAL; gt_entries : Forall entry_ok t }.

(** The file of the result is new in the table. *)
Record fresh_file (a : ParsedArgs) (t : list FileEntry) (r : Result) : Prop := {
  (** a slot that holds no file *)
  ff_slot : ∃ k old, r_metadata_slot r = Z.of_nat k ∧ t !! k = Some old ∧ entry_valid old = false;
  (** an index that the task has not used *)
  ff_index : arg_file_index a <= r_file_index r ∧
    metadata_find_by_task t (task_text a) (r_file_index r) = None;
  (** sectors of its own, which do not wrap around *)
  ff_disjoint : ∀ x, x ∈ t → entry_valid x = true → ccb_config.disjoint_ranges
    (ccb_types.start_lba x) (sector_count x) (r_start_lba r) (r_sector_count r);
  ff_range : 0 <= r_sector_count r ∧ r_start_lba r + r_sector_count r <= UINT64_MAX;
  (** where and how much the arguments ask for *)
  ff_auto : lba_auto a = true → DATA_START_LBA <= r_start_lba r;
  ff_lba : lba_auto a = false → has_size a = true ∧ r_start_lba r = lba a;
  ff_size : has_size a = true → r_file_bytes r <= size_bytes a;
  ff_bytes : r_file_bytes r = SECTOR_SIZE * r_sector_count r }.

Lemma plan_accepted cfg a max t p :
  plan_file cfg a max t = (Accepted, p) →
  ∃ index slot auto n,
    metadata_resolve_file_index t (task_text a) (arg_file_index a) = Some index ∧
    metadata_alloc_slot_and_lba t = Some (slot, auto, n) ∧
    ccb_capture_run.start_lba p = (if lba_auto a then auto else lba a) ∧
    effective_file_index p = index ∧ metadata_slot p = slot ∧
    check_range a max t (ccb_capture_run.start_lba p) = Accepted.
Proof.
  unfold plan_file. destruct (metadata_resolve_file_index _ _ _) as [index|]; [|done].
  destruct (metadata_alloc_slot_and_lba t) as [[[slot auto] n]|]; [|done].
  intros [= Hc <-]. by exists index, slot, auto, n.
Qed.

(** The planned first sector is a 64-bit number. *)
Lemma planned_start cfg a max t p :
  args_ok a → good_table t → plan_file cfg a max t = (Accepted, p) → is_u64 (ccb_capture_run.start_lba p).
Proof.
  intros Ha [Hinv Hlen _] Hp. destruct (plan_accepted _ _ _ _ _ Hp) as (_&slot&auto&n&_&Hal&->&_).
  destruct (lba_auto a); [|apply (ao_lba a Ha)].
  pose proof (metadata_alloc_spec t Hinv Hlen) as H. rewrite Hal in H.
  destruct H as (_&_&Hlow&_&[->|(x&Hx&Hv&->)]); [vm_compute; split; congruence|].
  destruct (table_range t x Hinv Hx Hv) as (?&?&?). unfold DATA_START_LBA in *. cint.
Qed.

(** The range that was accepted, for the bytes that arrive. *)
Lemma check_range_disjoint a max t start count :
  good_table t → 0 <= start → is_u64 (size_bytes a) → lba_auto a = false →
  check_range a max t start = Accepted → 0 <= count → SECTOR_SIZE * count <= size_bytes a →
  has_size a = true ∧ ∀ x, x ∈ t → entry_valid x = true →
    ccb_config.disjoint_ranges (ccb_types.start_lba x) (sector_count x) start count.
Proof.
  intros Ht Hs Hz Ha. unfold check_range. rewrite Ha. destruct (has_size a); [|done]. cbn [negb andb].
  set (n := bytes_to_sectors (size_bytes a)). intros H Hc Hb.
  assert (Hn : count <= n).
  { subst n. unfold bytes_to_sectors, SECTOR_SIZE in *.
    pose proof (Z.div_mod (size_bytes a) 512 ltac:(lia)). pose proof (Z.mod_pos_bound (size_bytes a) 512 ltac:(lia)).
    rewrite u64_small; [destruct (Z.eqb_spec (size_bytes a mod 512) 0); cbn [negb]; lia|].
    destruct (Z.eqb_spec (size_bytes a mod 512) 0); cbn [negb]; cint. }
  destruct (Z.ltb_spec (UINT64_MAX - start) n); [done|].
  destruct (Z.eqb_spec (metadata_check_lba_overlap t start n) 0) as [Ho|]; [|done].
  split; [done|]. intros x Hx Hv.
  apply check_lba_overlap_iff in Ho as [_ Ho]; [|apply Ht|lia|lia].
  specialize (Ho x Hx Hv). destruct (table_range t x (gt_inv t Ht) Hx Hv) as (_&?&_).
  unfold ccb_config.disjoint_ranges. lia.
Qed.

Lemma planned_fresh cfg a max t plan c r :
  args_ok a → good_table t → plan_file cfg a max t = (Accepted, plan) →
  bounded c = has_size a → (has_size a = true → requested_size c = size_bytes a) →
  sound_result c plan r → fresh_file a t r.
Proof.
  intros Ha Ht Hp Hb Hr Hs. destruct (plan_accepted _ _ _ _ _ Hp) as (index&slot&auto&n&Hi&Hal&Hst&He&Hsl&Hc).
  destruct (alloc_some _ _ _ _ (gt_inv t Ht) (gt_length t Ht) Hal) as (k&old&->&Hk&Hold&Hlow&Hends).
  pose proof (resolved_index_fresh t (task_text a) (arg_file_index a) (gt_length t Ht) (gt_entries t Ht)
    ltac:(pose proof (ao_index a Ha); cint)) as Hidx.
  rewrite Hi in Hidx. destruct Hidx as (Hle&_&Hnone&_).
  destruct (so_planned _ _ _ Hs) as [Ps Pi]. pose proof (so_start _ _ _ Hs) as Pl.
  pose proof (so_range _ _ _ Hs) as Pr. pose proof (so_sectors _ _ _ Hs) as Pb.
  assert (Hsize : has_size a = true → r_file_bytes r <= size_bytes a).
  { intros E. rewrite <- Hr by done. apply (so_bounded _ _ _ Hs). by rewrite Hb. }
  assert (Hexp : lba_auto a = false → has_size a = true).
  { unfold check_range in Hc. intros E. rewrite E in Hc. by destruct (has_size a). }
  rewrite <- Pl in Hst, Hc. pose proof (ao_lba a Ha). split; try done.
  - exists k, old. rewrite Ps. auto.
  - rewrite Pi, He. split; [lia|done].
  - intros x Hx Hv. destruct (lba_auto a) eqn:E.
    + specialize (Hends x Hx Hv). left. lia.
    + assert (Hb' : SECTOR_SIZE * r_sector_count r <= size_bytes a) by (rewrite <- Pb; by apply Hsize, Hexp).
      apply (check_range_disjoint a max t (r_start_lba r) (r_sector_count r) Ht); try done.
      * rewrite Hst. cint.
      * apply (ao_size a Ha).
      * lia.
  - intros E. rewrite E in Hst. lia.
  - intros E. rewrite E in Hst. auto.
Qed.
(** ** The property *)
(** C7: a recorded file is new.  When the whole of
    [execute_write_with_result_mode] - settings, opening and probing the channel,
    planning the file from the metadata table, the capture, the clean-up -
    returns 0, then in the table that it read, if that table is consistent: the
    slot of the result holds no file; no file of the task has the index of the
    result, which is at least the requested one; the sectors of the file are
    disjoint from those of every valid file and do not wrap around; an
    automatically placed file is in the data area, any other one starts where the
    arguments say; and it is no larger than the size that was asked for. *)
Theorem recorded_file_fresh (W : Type) (A : Surroundings W) (a : ParsedArgs) (gopt : GlobalOptions)
    (supervised : bool) (fuel inner : nat) (st st' : config_state * W) (e : Ended) (g : Globals) :
  args_ok a →
  execute_write_with_result_mode A a gopt supervised fuel inner st = (Returned e g, st') → e_rc e = 0 →
  ∃ cfg t w w', ccb_config.find_channel (channel_id a) = Some cfg ∧
    metadata_read (devices A) cfg w = (Some t, w') ∧ (good_table t → fresh_file a t (e_result e)).
Proof.
  intros Ha He H0. unfold execute_write_with_result_mode, ebind in He.
  pose proof (set_up_yields A a gopt supervised inner st) as Hs.
  destruct (set_up A a gopt supervised inner st) as [[[|p|]|p] [s1 w1]]; try discriminate He.
  - unfold in_capture in He. pose proof (abandon_fails A p inner (p_state p, w1)) as Hf.
    destruct (abandon A p inner (p_state p, w1)) as [[e1|] [s2 w2]]; [|discriminate He].
    injection He as <- _ _. specialize (Hf e1 eq_refl). lia.
  - destruct Hs as [(cfg&max&t&w&w'&Hcfg&Hread&Hp) [pr Hv] Hb Hr Hu].
    exists cfg, t, w, w'. split; [exact Hcfg|]. split; [exact Hread|]. intros Ht. unfold in_capture in He.
    pose proof (capture_post (around A) (p_settings p) (p_plan p) fuel inner (Hu Ha) (p_state p) w1) as Hc.
    destruct (capture _ _ _ _ _ _) as [[e1|] [s2 w2]]; [|discriminate He].
    injection He as <- _ _. rewrite Hv in Hc.
    destruct (Hc (init_in_order (p_settings p) (p_plan p) pr (planned_start _ _ _ _ _ Ha Ht Hp)) e1 eq_refl H0)
      as [Hsound _].
    by apply (planned_fresh cfg a max t (p_plan p) (p_settings p)).
Qed.

(** *** A run *)
(** A channel without hardware whose metadata table has one file. *)
Definition no_registers : nvme_queue.NvmeHw World :=
  nvme_queue.mkHw (λ _, nothing 0) (λ _ _, nothing tt) (tick 1000) (λ _, nothing tt) (nothing tt) (nothing false).
Definition example_around : Surroundings World :=
  mkAround (producer_ticking 1000)
    (mkDevices no_registers no_registers (λ _, nothing true) (λ _, nothing (Some witness_table)) (λ _ _, nothing 0))
    (mkAllocations true true true true true) (λ _, nothing true)
    example_queue.
Definition example_args : ParsedArgs := zero_args <| lba_auto := true |> <| has_lba := true |>
  <| has_channel := true |> <| channel_id := 0 |> <| arg_task_no := "AAAAAAAAAAA" |> <| arg_file_index := 2 |>.
Definition example_write : Write * (config_state * World) :=
  execute_write_with_result_mode example_around example_args (mkGlobal true false 0) false 20 20 (example_env, (1, 0)).

Lemma witness_table_good : good_table witness_table.
Proof. split; [apply witness_table_inv|done|apply witness_entries_ok]. Qed.

(** A continuous capture that a signal stops: 128 MiB behind the only file of
    the table, with the next index of the task. *)
Lemma recorded_file_fresh_witness :
  ∃ e g, example_write.1 = Returned e g ∧ e_rc e = 0 ∧ r_file_bytes (e_result e) = 134217728 ∧
    r_start_lba (e_result e) = 1008 ∧ r_file_index (e_result e) = 4 ∧
    fresh_file example_args witness_table (e_result e).
Proof.
  assert (Hr : match example_write.1 with
               | Returned e _ => (e_rc e =? 0) && (r_file_bytes (e_result e) =? 134217728) &&
                               (r_start_lba (e_result e) =? 1008) && (r_file_index (e_result e) =? 4)
               | _ => false end = true) by (vm_compute; reflexivity).
  pose proof (recorded_file_fresh World example_around example_args (mkGlobal true false 0) false 20 20
    (example_env, (1, 0))) as H.
  unfold example_write in *. destruct (execute_write_with_result_mode _ _ _ _ _ _ _) as [[|e g|] st']; try discriminate Hr.
  cbn [fst] in Hr. rewrite !andb_true_iff, !Z.eqb_eq in Hr. destruct Hr as [[[H0 Hb] Hl] Hi].
  exists e, g. destruct (H st' e g) as (cfg&t&w&w'&_&Hread&Hf); [| reflexivity|exact H0|].
  - split; cbn; try (split; vm_compute; congruence); try done; vm_compute; lia.
  - injection Hread as <- _. refine (conj eq_refl (conj H0 (conj Hb (conj Hl (conj Hi _))))). apply Hf, witness_table_good.
Defined.
End producer_fresh.
