(* ===== verification/FileCommands.v ===== *)
(** * The commands on recorded files ([src/src/ccb_commands.c])

    Reading a file, or a range of sectors, back into the DDR window of its
    channel; listing the files of a channel; clearing its metadata table.  All
    three open the channel, probe the device and close the channel again. *)
From S2P Require Import Prelude StorageError CcbTypes Metadata Config CrossSlot WriteQueue NvmeQueue NvmeConfig NvmeSlot Cli ChannelOpen CmdConfig ProducerSetup.

Module ccb_file_commands.
Import ccb_types ccb_config ccb_metadata ccb_cli storage_config ccb_channel ccb_capture_setup.
#[local] Existing Instance nvme_queue.eta_Nvme.

Section Commands.
Context {W : Type} (D : Devices W).
#[local] Abbreviation M := (Eff (config_state * W)).

(** The frame of a command: its exit status and what it found out, and whether
    the devices were unmapped at the end.  [None]: a waiting loop has used up
    its fuel. *)
Record Done (X : Type) : Type := mkDone { d_rc : Z; d_output : X; d_unmapped : bool }.
Arguments mkDone {X}. Arguments d_rc {X}. Arguments d_output {X}. Arguments d_unmapped {X}.

Definition with_channel {X} (none : X) (channel : Z) (gopt : GlobalOptions) (fuel : nat)
    (body : ChannelConfig → nvme_queue.Nvme → M (option (Z * X) * nvme_queue.Nvme)) : M (option (Done X)) :=
  match find_channel channel with
  | None => eret (Some (mkDone (-1) none true))
  | Some cfg =>
    let! o := channel_runtime_open D cfg gopt in
    match o with
    | None => eret (Some (mkDone (-1) none true))
    | Some (_, n) =>
      let! (r, n) := on_nvme n (nvme_config.nvme_probe (nvme_hw D) fuel) in
      match r with
      | inl nvme_queue.OutOfFuel | inl nvme_queue.DivideByZero => eret None
      | inl (nvme_queue.Return rc) | inr rc =>
        if negb (rc =? 0) then eret (Some (mkDone (-1) none (channel_runtime_close n))) else
        let! (o, n) := body cfg n in
        eret (match o with
              | Some (rc, x) => Some (mkDone rc x (channel_runtime_close n))
              | None => None end)
      end
    end
  end.

(** ** Reading *)
(** The sectors of the file that is named, or those that are given. *)
Definition read_target (cfg : ChannelConfig) (a : ParsedArgs) : M (option (Z * Z)) :=
  if has_task_no a && has_file_index a then
    let! o := sio (metadata_read D cfg) in
    eret (match o with
          | None => None
          | Some table =>
            match metadata_find_by_task table (task_text a) (arg_file_index a) with
            | Some (_, e) => Some (start_lba e, sector_count e)
            | None => None
            end
          end)
  else eret (Some (lba a, storage_write_queue.bytes_to_sectors (size_bytes a))).

(** The sectors that were to be read are the output. *)
Definition read_body (a : ParsedArgs) (fuel : nat) (cfg : ChannelConfig) (n : nvme_queue.Nvme) :
    M (option (Z * option (Z * Z)) * nvme_queue.Nvme) :=
  if ccb_hw.nvme_max_lba (nvme_queue.base n) =? 0 then eret (Some (-1, None), n) else
  let! target := read_target cfg a in
  match target with
  | None => eret (Some (-1, None), n)
  | Some (lba, sectors) =>
    let! (r, n) := on_nvme n (nvme_slot.nvme_rw (nvme_hw D) fuel false lba sectors
                                (nvme_config.cpu_to_hw_addr cfg (ddr_cpu_base cfg))) in
    eret (match r with
          | inl nvme_queue.OutOfFuel | inl nvme_queue.DivideByZero => None
          | inl (nvme_queue.Return rc) | inr rc => Some (if rc =? 0 then 0 else -1, target)
          end, n)
  end.
Definition execute_read (a : ParsedArgs) (gopt : GlobalOptions) (fuel : nat) : M (option (Done (option (Z * Z)))) :=
  with_channel None (channel_id a) gopt fuel (read_body a fuel).

(** ** Listing *)
(** The valid entries with their slots, in the order of the table. *)
Fixpoint listed_from (i : Z) (table : list FileEntry) : list (Z * FileEntry) :=
  match table with
  | [] => []
  | e :: rest => if entry_valid e then (i, e) :: listed_from (i + 1) rest else listed_from (i + 1) rest
  end.
Definition execute_list_single (channel : Z) (gopt : GlobalOptions) (fuel : nat) :
    M (option (Done (list (Z * FileEntry)))) :=
  with_channel [] channel gopt fuel (λ cfg n,
    let! o := sio (metadata_read D cfg) in
    eret (match o with Some table => Some (0, listed_from 0 table) | None => Some (-1, []) end, n)).

(** ** Clearing the table *)
Definition execute_init_meta_single (channel : Z) (gopt : GlobalOptions) (fuel : nat) : M (option (Done unit)) :=
  with_channel tt channel gopt fuel (λ cfg n,
    let! rc := sio (metadata_write D cfg (replicate MAX_FILES_TOTAL zero_entry)) in
    eret (Some (if rc =? 0 then 0 else -1, tt), n)).

(** ** All channels *)
(** Every channel is tried; one failure makes the command fail. *)
Fixpoint over_channels {X} (command : Z → M (option (Done X))) (channels : list ChannelConfig) : M (option Z) :=
  match channels with
  | [] => eret (Some 0)
  | c :: rest =>
    let! o := command (id c) in
    match o with
    | None => eret None
    | Some r =>
      let! o := over_channels command rest in
      eret (match o with Some rc => Some (if d_rc r =? 0 then rc else -1) | None => None end)
    end
  end.
Definition single_or_all {X} (command : Z → M (option (Done X))) (a : ParsedArgs) : M (option Z) :=
  if channel_all a then over_channels command kChannels
  else let! o := command (channel_id a) in
       eret (match o with Some r => Some (d_rc r) | None => None end).
Definition execute_list (a : ParsedArgs) (gopt : GlobalOptions) (fuel : nat) : M (option Z) :=
  single_or_all (λ ch, execute_list_single ch gopt fuel) a.
Definition execute_init_meta (a : ParsedArgs) (gopt : GlobalOptions) (fuel : nat) : M (option Z) :=
  single_or_all (λ ch, execute_init_meta_single ch gopt fuel) a.
End Commands.
Arguments mkDone {X}. Arguments d_rc {X}. Arguments d_output {X}. Arguments d_unmapped {X}.
End ccb_file_commands.
