(* ===== verification/ReadSafe.v ===== *)
(** * Reading issues the sectors of the file

    [nvme_rw] cuts a range of sectors into read commands, one at a time.  What
    the device sees of it: the commands of the plan, in order, each completed
    before the next one is issued; and what that means for [execute_read]. *)
From stdpp Require Import gmap.
From S2P Require Import Prelude StorageError Bytes CStdlib CcbTypes Metadata Config CrossSlot CrossSlotSpec CrossSlotSafe WriteQueue NvmeQueue NvmeConfig NvmeWrite NvmeSlot NvmeDevice NvmePlan NvmeSafe NvmeProbeSafe NvmeSlotSafe Cli CmdConfig ChannelOpen ProducerSetup FileCommands.

Module read_safety.
Import ccb_hw cross_slot_protocol nvme_queue nvme_write nvme_slot nvme_device nvme_plan ccb_channel ccb_file_commands.
#[local] Existing Instance ccb_cli.eta_ParsedArgs.

(** ** The plan of a read *)
Definition as_read (e : Z * Z * Z * Z) : Z * Z * Z * Z := let '(_, l, s, a) := e in (NVM_READ, l, s, a).
(** The sectors from [lba] on, cut into commands of [limit] sectors, in order, into the memory at [addr]. *)
Definition read_plan (limit sectors lba addr k : Z) : list (Z * Z * Z * Z) :=
  as_read <$> plan (limit * NVME_SECTOR_BYTES) (sectors * NVME_SECTOR_BYTES) lba addr k.
Definition read_total (limit sectors : Z) : Z := plan_total (limit * NVME_SECTOR_BYTES) (sectors * NVME_SECTOR_BYTES).

Section Read.
Context {W : Type} (hw : NvmeHw W) (f : RegFile) (limit sectors lba addr : Z).
#[local] Abbreviation total := (read_total limit sectors).
#[local] Abbreviation plan k := (read_plan limit sectors lba addr k).
#[local] Abbreviation log l := (device f l).2.
Context (Hlim : 0 < limit <= UINT16_MAX) (Ha : nvme_slot_safety.addressable sectors lba addr).
#[local] Set Default Proof Using "Hlim Ha".

(** What holds of the device at any time, between two commands, and while it owns one. *)
Definition reading (l : list Raw) : Prop :=
  ∃ k o, 0 <= k <= total ∧ what <$> issued (log l) = plan k ∧ follow 1 nothing_owned (log l) = Some o.
Definition idle (k : Z) (l : list Raw) : Prop :=
  what <$> issued (log l) = plan k ∧ follow 1 nothing_owned (log l) = Some nothing_owned.
Definition busy (k cid : Z) (l : list Raw) : Prop :=
  what <$> issued (log l) = plan (k + 1) ∧ follow 1 nothing_owned (log l) = Some (mkOwned [cid] false).
Definition working (n : Nvme) : Prop := dry_run (set n) = false ∧ is_u16 (next_cmd_id (base n)).

Lemma working_alike n n' : working n → alike n n' → working n'.
Proof using Type.
  intros [H1 H2] (E1&E2&_). split; [by rewrite E1|]. by replace (next_cmd_id (base n')) with (next_cmd_id (base n)).
Qed.
Lemma idle_reading k l : 0 <= k <= total → idle k l → reading l.
Proof using Type. intros Hk [H1 H2]. by exists k, nothing_owned. Qed.
Lemma busy_reading k cid l : 0 <= k < total → busy k cid l → reading l.
Proof using Type. intros Hk [H1 H2]. exists (k + 1), (mkOwned [cid] false). split; [lia|done]. Qed.
Lemma idle_same k l l' : log l' = log l → idle k l → idle k l'.
Proof using Type. unfold idle. by intros ->. Qed.
Lemma reading_pops l l' : reading l → pops f l l' → reading l'.
Proof using Type.
  intros (k&o&Hk&Hp&Ho) [cs Hl]. unfold reading. rewrite Hl, issued_app, follow_app, Ho.
  assert (Hi : issued (Pop <$> cs) = []) by (clear; induction cs as [|c cs IH]; [done|exact IH]).
  rewrite Hi, app_nil_r.
  assert (∃ o', follow 1 o (Pop <$> cs) = Some o') as [o' ->]; [|by eexists k, _].
  clear. revert o; induction cs as [|c cs IH]; intros o; [by eexists|]. simpl. case_bool_decide; apply IH.
Qed.

(** The next command of the plan. *)
Lemma at_command k :
  0 <= k < total → k * limit < sectors ∧
  (let s := Z.min limit (sectors - k * limit) in
   0 < s <= UINT16_MAX ∧ Z.min ((k + 1) * limit) sectors = k * limit + s ∧
   as_read (plan_entry (limit * NVME_SECTOR_BYTES) (sectors * NVME_SECTOR_BYTES) lba addr k) =
     (NVM_READ, lba + k * limit, s, addr + k * limit * NVME_SECTOR_BYTES)).
Proof.
  intros [Hk Ht]. pose proof (nvme_slot_safety.args_of sectors lba addr limit Ha Hlim) as Hargs.
  assert (Hb : k * limit < sectors).
  { apply (total_spec _ _ _ _ Hargs) in Ht; [|done]. unfold NVME_SECTOR_BYTES in Ht. nia. }
  split; [done|]. intros s. assert (Hs : 0 < s <= UINT16_MAX) by (subst s; lia).
  assert (Hc : chunk (limit * NVME_SECTOR_BYTES) (sectors * NVME_SECTOR_BYTES) k = s * NVME_SECTOR_BYTES)
    by (subst s; unfold chunk, NVME_SECTOR_BYTES; lia).
  split_and!; try lia. unfold plan_entry. rewrite Hc, sectors_of by (unfold NVME_SECTOR_BYTES; cint). cbn [as_read].
  rewrite Z.div_mul by done. f_equal; [f_equal|ring].
  symmetry. apply (Z.div_unique _ _ _ 511); unfold NVME_SECTOR_BYTES; lia.
Qed.
Lemma plan_next k : 0 <= k → plan (k + 1) = plan k ++ [as_read (plan_entry (limit * NVME_SECTOR_BYTES) (sectors * NVME_SECTOR_BYTES) lba addr k)].
Proof using Type. intros Hk. unfold read_plan. by rewrite plan_snoc, fmap_app by done. Qed.

(** *** One command *)
(** The drain of a submission whose fate is unknown only pops completions. *)
Lemma handle_pops b n (w : W) l cpl :
  wp (nvme_handle_write_completion (watched hw) b cpl) (λ _ (st : Nvme * (W * list Raw)), st.2.2 = l) (n, (w, l)).
Proof using Type.
  unfold nvme_handle_write_completion. apply bind_quiet; [apply quiet_now|]. intros us n1 w1 _.
  destruct (nvme_find_pending_by_cid _ _) as [[i e]|].
  2:{ apply bind_quiet; [apply quiet_set_error|]. intros [] n2 w2 _. by apply wp_ret. }
  destruct (cpl_error cpl); (apply bind_quiet; [first [apply quiet_base, completion_alike|quiet]|]; intros [] n2 w2 _; cbv zeta;
    apply bind_quiet; [apply nvme_slot_safety.quiet_event|]; intros [] n3 w3 _; by apply wp_ret).
Qed.
Lemma abandon_same (b : Batch) n (w : W) l :
  wp (abandon b) (λ (r : leave + Z * Batch) (st : Nvme * (W * list Raw)), (∀ e, r = inl e → e = OutOfFuel) ∧ st.2.2 = l) (n, (w, l)).
Proof using Type.
  unfold abandon, nvme_legacy_reset_unavailable. apply bind_quiet; [unfold cross_slot_real_reset; quiet|].
  intros z n2 w2 _. apply bind_quiet; [quiet|]. intros [] n3 w3 _. by apply wp_ret.
Qed.
Lemma drain_pops fuel deadline b n w l :
  wp (nvme_drain_ambiguous_legacy_pending (watched hw) fuel deadline b) (λ r (st : Nvme * (W * list Raw)), (∀ e, r = inl e → e = OutOfFuel) ∧ pops f l st.2.2) (n, (w, l)).
Proof using Type.
  revert b n w l; induction fuel as [|fuel IH]; intros b n w l; cbn [nvme_drain_ambiguous_legacy_pending];
    (destruct (negb _); [apply wp_ret; split; [done|apply pops_refl]|]);
    [apply wp_ret; split; [by intros e [= <-]|apply pops_refl]|].
  apply wp_bind. eapply wp_mono; [apply (poll_fast_spec hw f)|]. intros [rc c] [n1 [w1 l1]] [_ Hp]. cbn [fst snd] in *.
  destruct (0 <? rc) eqn:Hrc.
  - destruct Hp as [(_&_&Hp)|[? _]]; [|lia]. apply wp_bind. eapply wp_mono; [apply handle_pops|].
    intros [hrc b2] [n2 [w2 l2]] El. cbn [fst snd] in *. subst l2.
    destruct (negb (hrc =? 0)).
    + eapply wp_mono; [apply abandon_same|]. intros r st [? ->]. split; [done|]. exists [c]. by rewrite Hp.
    + eapply wp_mono; [apply IH|]. intros r st [? H]. split; [done|]. by eapply pops_trans.
  - destruct Hp as [[? _]|[_ ->]]; [lia|]. apply bind_quiet; [quiet|]. intros late n2 w2 _. destruct late.
    + eapply wp_mono; [apply abandon_same|]. intros r st [? ->]. split; [done|apply pops_refl].
    + apply bind_quiet; [apply quiet_drain_pause|]. intros [] n3 w3 _. apply IH.
Qed.

(** The device has taken the command, or has not seen it. *)
Definition taken (k cid : Z) (l : list Raw) (rc : Z) : Prop :=
  if bool_decide (rc = NVME_SUBMIT_ACCEPTED ∨ rc = NVME_SUBMIT_ACCEPTANCE_UNKNOWN) then busy k cid l else idle k l.
#[local] Abbreviation command fuel op := (λ k cid : Z, op fuel NVM_READ cid (lba + k * limit)
  (Z.min limit (sectors - k * limit)) (addr + k * limit * NVME_SECTOR_BYTES)).

Lemma async_at fuel k cid n w l :
  0 <= k < total → working n → idle k l →
  wp (command fuel (nvme_submit_command_async (watched hw)) k cid)
    (λ r st, working st.1 ∧ match r with
      | inl e => e = OutOfFuel ∧ busy k cid st.2.2
      | inr rc => taken k cid st.2.2 rc end) (n, (w, l)).
Proof.
  intros Hk Hn [Hp Hf]. destruct (at_command k Hk) as (Hb&Hs&_&He). set (s := Z.min _ _) in *.
  assert (Hl0 : 0 <= k * limit) by (apply Z.mul_nonneg_nonneg; lia).
  assert (Htook : ∀ l', submitted_as f NVM_READ cid (lba + k * limit) s (addr + k * limit * NVME_SECTOR_BYTES) l l' → busy k cid l').
  { intros l' Hl'. unfold busy. rewrite Hl', issued_app, follow_app, fmap_app, Hp, Hf, plan_next by lia. split; [by rewrite He|].
    cbn [follow follow_one nothing_owned owned stopped c_cid length]. by rewrite bool_decide_true by apply not_elem_of_nil. }
  destruct Ha as (Hsec&Hlba&Hlm&Had&Ham). unfold NVME_SECTOR_BYTES in *.
  eapply wp_mono; [apply (submit_async_spec hw f); [unfold NVM_READ; lia|apply Hn|cint..|lia]|].
  intros r st [H1 Hr]. split; [by eapply working_alike|]. destruct r as [e|rc].
  - destruct Hr as [-> Hr]. auto.
  - unfold taken. case_bool_decide; [by apply Htook|]. split; by rewrite Hr.
Qed.

(** An early end: an error or no more fuel, in the middle of a read. *)
Definition broken (e : leave) (l : list Raw) : Prop := e ≠ Return 0 ∧ reading l.
Lemma sync_submit_spec fuel start k cid tries n w l :
  0 <= k < total → working n → idle k l →
  wp (sync_submit (watched hw) tries fuel start NVM_READ cid (lba + k * limit) (Z.min limit (sectors - k * limit))
        (addr + k * limit * NVME_SECTOR_BYTES))
    (λ r st, match r with
      | inl e => broken e st.2.2
      | inr rc => working st.1 ∧ taken k cid st.2.2 rc end) (n, (w, l)).
Proof.
  intros Hk. revert n w l. induction tries as [|tries IH]; intros n w l Hn Hl; cbn [sync_submit].
  all: apply wp_xbind; eapply wp_mono; [by apply (async_at fuel k cid)|].
  all: intros [e|rc] [n1 [w1 l1]] [Hn1 Hr]; cbn [fst snd] in *;
    [destruct Hr as [-> Hr]; split; [done|by eapply busy_reading]|].
  all: destruct (Z.eqb_spec rc NVME_SUBMIT_RETRY_SQ_FULL) as [->|]; cbn [negb]; [|by apply wp_ret].
  all: unfold taken in Hr; rewrite bool_decide_false in Hr by (intros [[=]|[=]]).
  all: apply bind_quiet; [apply quiet_elapsed|]; intros waited n2 w2 H2; apply bind_get.
  all: destruct (_ <=? _); [apply wp_ret; split; [done|eapply idle_reading; [|done]; lia]|].
  all: apply bind_quiet; [apply quiet_pause|]; intros [] n3 w3 H3.
  - apply wp_ret. split; [done|]. eapply idle_reading; [|done]. lia.
  - apply IH; [|done]. eapply working_alike; [|done]. by eapply working_alike.
Qed.

(** A popped completion settles the command, or the read is over. *)
Lemma popped k cid l l' cpl :
  0 <= k < total → busy k cid l → log l' = log l ++ [Pop cpl] →
  reading l' ∧ (cpl_cid cpl = cid → cpl_error cpl = false → idle (k + 1) l').
Proof.
  intros Hk [Hp Hf] Hl. split; [apply (reading_pops l); [by eapply busy_reading|by exists [cpl]]|].
  intros <- He. unfold idle. rewrite Hl, issued_app, follow_app, Hf. change (issued [Pop cpl]) with (@nil Command).
  rewrite app_nil_r. split; [done|]. cbn [follow follow_one owned stopped]. rewrite bool_decide_true by by left.
  rewrite He. by rewrite filter_cons_False by (intros H; by apply H).
Qed.

Lemma issue_spec fuel k n w l :
  0 <= k < total → working n → idle k l →
  wp (nvme_issue_one_sync (watched hw) fuel NVM_READ (lba + k * limit) (Z.min limit (sectors - k * limit))
        (addr + k * limit * NVME_SECTOR_BYTES))
    (λ r st, reading st.2.2 ∧ (settle r = inr 0 → working st.1 ∧ idle (k + 1) st.2.2)) (n, (w, l)).
Proof.
  intros Hk Hn Hl. assert (Hkl : reading l) by (eapply idle_reading; [|done]; lia).
  unfold nvme_issue_one_sync. apply bind_get. rewrite (proj1 Hn).
  destruct (nvme_alloc_cid _ _) as [cid r] eqn:Ec. pose proof (alloc_alike _ _ _ _ (proj2 Hn) Ec) as [Hr _].
  apply wp_bind, wp_smod. set (n0 := n <| base := r |>).
  assert (Hn0 : working n0) by (split; [apply Hn|done]). clearbody n0. clear Hn.
  destruct cid as [cid|]; [|by apply wp_ret].
  apply bind_quiet; [apply quiet_now|]. intros start n1 w1 H1. apply (working_alike _ _ Hn0) in H1.
  apply wp_xbind. eapply wp_mono; [by apply sync_submit_spec|].
  intros [e|rc] [n2 [w2 l2]] H2; cbn [fst snd] in *.
  { destruct H2 as [He Hread]. split; [done|]. destruct e as [rc| |]; [|done..]. cbn. intros [= ->]. done. }
  destruct H2 as [Hn2 Ht]. unfold taken in Ht.
  destruct (Z.eqb_spec rc NVME_SUBMIT_ACCEPTANCE_UNKNOWN) as [->|Hu].
  { rewrite bool_decide_true in Ht by auto. apply (busy_reading k cid l2 Hk) in Ht as Hb.
    apply bind_quiet; [apply quiet_now|]. intros us n3 w3 _. apply bind_get. cbv zeta.
    destruct (_ <? _); [by apply wp_ret|]. apply wp_xbind. eapply wp_mono; [apply drain_pops|].
    intros [e|[rc b]] [n4 [w4 l4]] [Hx Hpop]; cbn [fst snd] in *; apply (reading_pops _ _ Hb) in Hpop.
    - split; [done|]. by rewrite (Hx e eq_refl).
    - destruct (negb _); [by apply wp_ret|]. apply bind_quiet; [quiet|]. intros [] n5 w5 _. by apply wp_ret. }
  destruct (Z.eqb_spec rc NVME_SUBMIT_ACCEPTED) as [->|Ha']; cbn [negb].
  2:{ rewrite bool_decide_false in Ht by tauto. apply wp_ret. split; [eapply idle_reading; [|done]; lia|]. cbn. intros [= ->]. by destruct Ha'. }
  rewrite bool_decide_true in Ht by auto. apply bind_get. apply wp_xbind.
  eapply wp_mono; [apply (nvme_slot_safety.poll_cq_post hw f)|].
  intros [e|[prc cpl]] [n3 [w3 l3]] [H3 Hp]; cbn [fst snd] in *.
  { destruct Hp as [-> ->]. split; [by eapply busy_reading|done]. }
  destruct Hp as [[-> Hp]|[Hneg ->]].
  2:{ replace (prc =? 0) with false by lia. apply wp_ret. split; [by eapply busy_reading|]. cbn. intros [= ->]. lia. }
  destruct (popped k cid l2 l3 cpl Hk Ht Hp) as [Hread Hidle]. cbn [negb Z.eqb].
  destruct (Z.eqb_spec (cpl_cid cpl) cid); [|by apply wp_ret]. destruct (cpl_error cpl); [by apply wp_ret|].
  apply wp_ret. split; [done|]. intros _. split; [by eapply working_alike|by apply Hidle].
Qed.

(** *** The whole range *)
Lemma read_loop_spec steps fuel k n w l :
  0 <= k <= total → working n → idle k l →
  let s := Z.min (k * limit) sectors in
  wp (read_loop (watched hw) steps fuel limit sectors s (lba + s) (addr + s * NVME_SECTOR_BYTES))
    (λ r st, reading st.2.2 ∧ (returned r = Some 0 → idle total st.2.2)) (n, (w, l)).
Proof.
  pose proof (nvme_slot_safety.args_of sectors lba addr limit Ha Hlim) as Hargs.
  revert k n w l; induction steps as [|steps IH]; intros k n w l Hk Hn Hl; cbn zeta; cbn [read_loop].
  all: assert (Hread : reading l) by (by eapply idle_reading).
  all: destruct (Z.ltb_spec (Z.min (k * limit) sectors) sectors) as [Hlt|Hge]; cbn [negb].
  all: try (apply wp_ret; split; [done|]; intros _; assert (k = total) as ->; [|done];
    pose proof (total_spec _ _ _ _ Hargs k (proj1 Hk)) as Ht; unfold read_total, NVME_SECTOR_BYTES in *; lia).
  - by apply wp_ret.
  - assert (Hkt : 0 <= k < total).
    { split; [lia|]. apply (total_spec _ _ _ _ Hargs k); [lia|]. unfold NVME_SECTOR_BYTES. lia. }
    destruct (at_command k Hkt) as (Hb&Hs&Hnext&_). cbv zeta in Hs, Hnext. cbv zeta.
    replace (Z.min (k * limit) sectors) with (k * limit) in * by lia.
    replace (if limit <? sectors - k * limit then limit else sectors - k * limit) with (Z.min limit (sectors - k * limit)) by (case_match; lia).
    rewrite u16_small by cint. apply bind_quiet; [apply quiet_watch|]. intros stop n1 w1 H1.
    apply (working_alike _ _ Hn) in H1. destruct stop; [by apply wp_ret|].
    apply wp_bind. eapply wp_mono; [by apply issue_spec|]. intros r [n2 [w2 l2]] [Hr Hok]. cbn [fst snd] in *.
    destruct (settle r) as [e|rc] eqn:E.
    { apply wp_ret. split; [done|]. destruct e as [z| |]; [|done..]. by destruct r as [[]|]. }
    destruct (Z.eqb_spec rc 0) as [->|Hrc]; cbn [negb].
    2:{ destruct (_ =? _); [by apply wp_ret|]. destruct (_ =? _); [|by apply wp_ret].
        apply bind_quiet; [apply quiet_last_error|]. intros [] n3 w3 _. by apply wp_ret. }
    destruct (Hok eq_refl) as [Hn2 Hl2]. destruct Ha as (Ha1&Ha2&Ha3&Ha4&Ha5). unfold NVME_SECTOR_BYTES in *.
    assert (0 <= k * limit) by (apply Z.mul_nonneg_nonneg; lia).
    rewrite !(u64_small (_ * 512)), !u64_small by cint.
    specialize (IH (k + 1) n2 w2 l2 ltac:(lia) Hn2 Hl2). cbv zeta in IH. rewrite Hnext in IH.
    by rewrite <-!Z.add_assoc, <-Z.mul_add_distr_r.
Qed.
End Read.

(** ** [nvme_rw] *)
Section Range.
Context {W : Type} (hw : NvmeHw W) (f : RegFile) (sectors lba addr : Z).
#[local] Abbreviation log l := (device f l).2.

(** What a read that returned [r] has issued, with commands of [limit] sectors. *)
Record read_as (limit : Z) (dry : bool) (r : option Z) (l : list Raw) : Prop := {
  ra_prefix : what <$> issued (log l) `prefix_of` read_plan limit sectors lba addr (read_total limit sectors);
  ra_follow : follow 1 nothing_owned (log l) ≠ None;
  ra_dry : dry = true → l = [];
  ra_whole : r = Some 0 → dry = false →
    what <$> issued (log l) = read_plan limit sectors lba addr (read_total limit sectors) ∧
    follow 1 nothing_owned (log l) = Some nothing_owned }.

Lemma prefix_whole limit k : 0 <= k <= read_total limit sectors →
  read_plan limit sectors lba addr k `prefix_of` read_plan limit sectors lba addr (read_total limit sectors).
Proof.
  intros Hk. destruct (plan_prefix (limit * NVME_SECTOR_BYTES) (sectors * NVME_SECTOR_BYTES) lba addr k _ Hk) as [z Hz].
  exists (as_read <$> z). unfold read_plan, read_total in *. by rewrite Hz, fmap_app.
Qed.
Lemma untouched limit dry r : (r = Some 0 → dry = true) → read_as limit dry r [].
Proof.
  intros Hr. split; [apply prefix_nil|done|done|]. intros H1 H2. apply Hr in H1. congruence.
Qed.
(** A dry run issues nothing. *)
Lemma dry_loop steps fuel limit submitted cur_lba cur_hw n w :
  dry_run (set n) = true →
  wp (read_loop (watched hw) steps fuel limit sectors submitted cur_lba cur_hw) (λ _ st, st.2.2 = []) (n, (w, [])).
Proof.
  revert submitted cur_lba cur_hw n w; induction steps as [|steps IH]; intros submitted cur_lba cur_hw n w Hn; cbn [read_loop];
    (destruct (negb _); [by apply wp_ret|]); [by apply wp_ret|]. cbv zeta.
  apply bind_quiet; [apply quiet_watch|]. intros stop n1 w1 (E&_). destruct stop; [by apply wp_ret|].
  apply wp_bind. unfold nvme_issue_one_sync. apply bind_get. rewrite E, Hn. apply wp_ret. cbn [settle negb Z.eqb].
  apply IH. by rewrite E.
Qed.
Lemma rw_spec fuel n w :
  nvme_probe_safety.configured n → is_u16 (next_cmd_id (base n)) → nvme_slot_safety.addressable sectors lba addr →
  wp (nvme_rw (watched hw) fuel false lba sectors addr)
    (λ r st, ∃ limit, 0 < limit <= nvme_cmd_sectors (base n) ∧ read_as limit (dry_run (set n)) (returned r) st.2.2) (n, (w, [])).
Proof.
  intros Hc Hid Ha. destruct (nvme_slot_safety.cf_sectors_of n Hc) as [Hn _]. unfold nvme_rw.
  apply wp_bind. eapply wp_mono; [apply nvme_slot_safety.limit_spec; lia|].
  intros limit [n1 [w1 l1]] (H1&Hl1&Hlim). cbn [fst snd] in *. subst l1.
  destruct H1 as (E1&E2&_). destruct (dry_run (set n)) eqn:Hdry.
  { eapply wp_mono; [apply dry_loop; by rewrite E1|]. intros r [n2 [w2 l2]] E. cbn [fst snd] in E. subst l2. exists limit. split; [lia|].
    by apply untouched. }
  assert (Hlim' : 0 < limit <= UINT16_MAX) by lia.
  pose proof (total_pos _ _ _ _ (nvme_slot_safety.args_of sectors lba addr limit Ha Hlim')) as Htot. fold (read_total limit sectors) in Htot.
  assert (H0 : idle f limit sectors lba addr 0 []) by done.
  assert (Hw : working n1) by (split; [by rewrite E1|by rewrite E2]).
  pose proof (read_loop_spec hw f limit sectors lba addr Hlim' Ha fuel fuel 0 n1 w1 [] ltac:(lia) Hw H0) as H. cbv zeta in H.
  replace (Z.min (0 * limit) sectors) with 0 in H by (destruct Ha; lia). rewrite Z.mul_0_l, !Z.add_0_r in H.
  eapply wp_mono; [exact H|]. intros r st [(k&o&Hk&Hp&Ho) Hok]. exists limit. split; [lia|]. split.
  - rewrite Hp. by apply prefix_whole.
  - by rewrite Ho.
  - done.
  - intros Hr _. by destruct (Hok Hr).
Qed.
(** Where the last command of the plan ends. *)
Lemma plan_end limit : 0 < limit <= UINT16_MAX → nvme_slot_safety.addressable sectors lba addr →
  ∃ s a, (NVM_READ, lba + (a - addr) / NVME_SECTOR_BYTES, s, a) ∈ read_plan limit sectors lba addr (read_total limit sectors) ∧
    a + s * NVME_SECTOR_BYTES = addr + sectors * NVME_SECTOR_BYTES.
Proof.
  intros Hl Ha. pose proof (nvme_slot_safety.args_of sectors lba addr limit Ha Hl) as Hargs.
  pose proof (total_pos _ _ _ _ Hargs) as Ht. fold (read_total limit sectors) in Ht.
  set (k := read_total limit sectors - 1). assert (Hk : 0 <= k < read_total limit sectors) by lia.
  destruct (at_command limit sectors lba addr Hl Ha k Hk) as (_&_&Hn&He). cbv zeta in Hn, He.
  assert (sectors <= (k + 1) * limit).
  { pose proof (total_spec _ _ _ _ Hargs (k + 1) ltac:(lia)) as H. unfold read_total, NVME_SECTOR_BYTES in *. lia. }
  exists (Z.min limit (sectors - k * limit)), (addr + k * limit * NVME_SECTOR_BYTES). split.
  - apply list_elem_of_fmap. eexists. split; [|apply list_elem_of_fmap; exists k; split; [done|apply elem_of_seqZ; lia]].
    rewrite He. f_equal; f_equal; f_equal; f_equal. rewrite Z.add_simpl_l. by apply Z.div_mul.
  - rewrite <-Z.add_assoc, <-Z.mul_add_distr_r. f_equal. f_equal. lia.
Qed.
End Range.

(** ** Reading a file *)
(** The devices of a channel, with the registers of its NVMe host observed. *)
Definition observed {W} (D : Devices W) : Devices (W * list Raw) :=
  mkDevices (watched (nvme_hw D))
    (mkHw (λ off, watch (λ _, []) (reg_read32 (axis_switch D) off))
      (λ off v, watch (λ _, []) (reg_write32 (axis_switch D) off v))
      (watch (λ _, []) (wall_time_us (axis_switch D))) (λ us, watch (λ _, []) (usleep (axis_switch D) us))
      (watch (λ _, []) (sched_yield (axis_switch D))) (watch (λ _, []) (nvme_stop_requested (axis_switch D))))
    (λ cfg, watch (λ _, []) (map_devices D cfg)) (λ cfg, watch (λ _, []) (metadata_read D cfg))
    (λ cfg t, watch (λ _, []) (metadata_write D cfg t)).

Section File.
Context {W : Type} (D : Devices W) (f : RegFile) (a : ccb_cli.ParsedArgs) (cfg : ccb_types.ChannelConfig).
#[local] Abbreviation window := (nvme_config.cpu_to_hw_addr cfg (ccb_types.ddr_cpu_base cfg)).

Lemma target_unseen s (w : W) l :
  wp (read_target (observed D) cfg a) (λ t st, t = (read_target D cfg a (s, w)).1 ∧ st.1 = s ∧ st.2.2 = l) (s, (w, l)).
Proof.
  unfold wp, read_target. destruct (_ && _); [|done]. unfold ebind, sio, observed, watch. cbn.
  destruct (metadata_read D cfg w) as [o w1]. rewrite app_nil_r. by destruct o.
Qed.
(** What a read has done at its end, when these are the sectors named. *)
Definition read_outcome (n : Nvme) (target : option (Z * Z)) (o : option (Z * option (Z * Z))) (l : list Raw) : Prop :=
  match target with
  | None => o = Some (-1, None) ∧ l = []
  | Some (lba, sectors) => nvme_slot_safety.addressable sectors lba window →
      ∃ limit, 0 < limit <= nvme_cmd_sectors (base n) ∧
        ∃ r, read_as f sectors lba window limit (dry_run (set n)) r l ∧
          match o with Some (rc, t) => t = Some (lba, sectors) ∧ (rc = 0 → r = Some 0) | None => r = None end
  end.
Lemma body_spec fuel n w :
  nvme_probe_safety.configured n → is_u16 (next_cmd_id (base n)) →
  wp (read_body (observed D) a fuel cfg n)
    (λ r st, read_outcome n (read_target D cfg a (conf n, w)).1 r.1 st.2.2) (conf n, (w, [])).
Proof.
  intros Hc Hid. unfold read_body. pose proof (nvme_probe_safety.cf_capacity n Hc) as Hcap.
  replace (nvme_max_lba (base n) =? 0) with false by lia.
  apply wp_bind. eapply wp_mono; [apply target_unseen|]. intros t [s [w1 l1]] (Ht&Es&El). cbn [fst snd] in *. rewrite <-Ht. clear Ht. subst s l1.
  destruct t as [[lba sectors]|]; [|by apply wp_ret].
  destruct (decide (nvme_slot_safety.addressable sectors lba window)) as [Ha|Hna].
  2:{ unfold wp, read_outcome. match goal with |- context [ebind ?m ?k ?st] => destruct (ebind m k st) end. by intros H%Hna. }
  apply wp_bind. unfold on_nvme, wp at 1.
  assert (En : n <| conf := conf n |> = n) by by destruct n. rewrite En.
  pose proof (rw_spec (nvme_hw D) f sectors lba window fuel n w1 Hc Hid Ha) as H. unfold wp in H.
  change (nvme_hw (observed D)) with (watched (nvme_hw D)).
  destruct (nvme_rw _ _ _ _ _ _ _) as [r [n2 [w2 l2]]]. destruct H as (limit&Hl&Hr). cbn [fst snd] in Hr.
  apply wp_ret. intros _. exists limit. split; [done|]. exists (returned r). split; [done|].
  destruct r as [[rc| |]|rc]; cbn [fst snd returned]; try done; (split; [done|]); destruct (Z.eqb_spec rc 0) as [->|]; by intros.
Qed.
End File.

(** The window of the channel is the start of its memory. *)
Lemma window_base cfg : is_u64 (ccb_types.ddr_hw_base cfg) →
  nvme_config.cpu_to_hw_addr cfg (ccb_types.ddr_cpu_base cfg) = ccb_types.ddr_hw_base cfg.
Proof.
  intros Hb. unfold nvme_config.cpu_to_hw_addr. rewrite Z.sub_diag, (u64_small 0), Z.add_0_r by cint.
  by apply u64_small.
Qed.

(** *** The sectors that are asked for *)
(** The entry is the one the arguments name: valid, of their task and index. *)
Definition names (a : ccb_cli.ParsedArgs) (e : ccb_types.FileEntry) : Prop :=
  ccb_types.valid e = 1 ∧ ccb_types.file_index e = ccb_cli.arg_file_index a ∧
  c_text (ccb_types.task_no e) = c_stdlib.code <$> String.list_ascii_of_string (ccb_cli.arg_task_no a).
#[export] Instance names_dec a e : Decision (names a e).
Proof. unfold names. apply _. Defined.
(** The sectors, by the table (if it could be read) when a task and an index are
    given, and otherwise those that cover the bytes asked for. *)
Inductive asked_for (a : ccb_cli.ParsedArgs) : option (list ccb_types.FileEntry) → option (Z * Z) → Prop :=
| af_range o :
    ccb_cli.has_task_no a = false ∨ ccb_cli.has_file_index a = false →
    asked_for a o (Some (ccb_cli.lba a, (ccb_cli.size_bytes a + 511) / 512))
| af_unreadable :
    ccb_cli.has_task_no a = true → ccb_cli.has_file_index a = true → asked_for a None None
| af_unknown table :
    ccb_cli.has_task_no a = true → ccb_cli.has_file_index a = true →
    (∀ e, e ∈ table → ¬ names a e) → asked_for a (Some table) None
| af_file table k e :
    ccb_cli.has_task_no a = true → ccb_cli.has_file_index a = true →
    table !! k = Some e → names a e → (∀ j x, (j < k)%nat → table !! j = Some x → ¬ names a x) →
    asked_for a (Some table) (Some (ccb_types.start_lba e, ccb_types.sector_count e)).

Lemma find_step_names a e :
  ccb_metadata.find_step (ccb_capture_setup.task_text a) (ccb_cli.arg_file_index a) e = true ↔ names a e.
Proof.
  unfold ccb_metadata.find_step, ccb_metadata.entry_valid, ccb_metadata.task_matches, names.
  rewrite !andb_true_iff, !Z.eqb_eq, bool_decide_eq_true. tauto.
Qed.
Lemma sectors_covering b : is_u64 b → storage_write_queue.bytes_to_sectors b = (b + 511) / 512.
Proof.
  intros Hb. unfold storage_write_queue.bytes_to_sectors. change ccb_types.SECTOR_SIZE with 512.
  pose proof (Z.div_mod b 512 ltac:(done)) as E. pose proof (Z.mod_pos_bound b 512 ltac:(done)) as Hm.
  set (q := b / 512) in *. set (m := b mod 512) in *.
  assert (H : (b + 511) / 512 = q + if negb (m =? 0) then 1 else 0).
  { destruct (Z.eqb_spec m 0); simpl; symmetry.
    - apply (Z.div_unique _ _ _ 511); lia.
    - apply (Z.div_unique _ _ _ (m - 1)); lia. }
  rewrite H. apply u64_small. destruct (negb (m =? 0)); cint.
Qed.
Lemma read_target_asked {W} (D : Devices W) cfg a s w : is_u64 (ccb_cli.size_bytes a) →
  asked_for a (metadata_read D cfg w).1 (read_target D cfg a (s, w)).1.
Proof.
  intros Hb. unfold read_target. destruct (ccb_cli.has_task_no a) eqn:Ht, (ccb_cli.has_file_index a) eqn:Hi; cbn [andb].
  2-4: cbn; rewrite sectors_covering by done; apply af_range; auto.
  unfold ebind, sio. destruct (metadata_read D cfg w) as [[table|] w1]; cbn; [|by constructor].
  unfold ccb_metadata.metadata_find_by_task.
  destruct (list_find (names a) table) as [[k e]|] eqn:Hf.
  - apply list_find_Some in Hf as (Hk & Hn & Hlt).
    rewrite (ccb_metadata.find_from_first _ _ _ 0 k e); [eapply af_file; try done; intros j x Hj Hx; by eapply Hlt|done|by apply find_step_names|].
    intros j x Hj Hx. apply not_true_is_false. rewrite find_step_names. by eapply Hlt.
  - apply list_find_None in Hf. rewrite Forall_forall in Hf.
    rewrite (proj2 (ccb_metadata.find_from_none _ _ _ 0)); [by constructor|].
    intros e He. apply not_true_is_false. rewrite find_step_names. by apply Hf.
Qed.

(** C19: Reading a file (or a range) of a probed channel, whatever the device, the clock and the stop flag do.  When a
    task and an index are given, the sectors are those that the first valid entry of the metadata table with that task
    and that index records; otherwise they start where asked and cover the bytes asked for.  When the table cannot be
    read, or has no such entry, the command fails, no register is written and no completion is taken.  Otherwise the
    commands issued are the first ones of a plan (reads only, which cut the sectors, in order, into commands no larger
    than configured and put them one after the other into the channel's memory, from its start); there is never more
    than one command with the device, and none after an error.  A read that reports success has issued the whole plan
    and seen each of its commands completed; a dry run writes no register and takes no completion. *)
Theorem file_read_exact {W} (D : Devices W) f a fuel cfg n w :
  nvme_probe_safety.configured n → is_u16 (next_cmd_id (base n)) →
  is_u64 (ccb_cli.size_bytes a) → is_u64 (ccb_types.ddr_hw_base cfg) →
  let '((o, _), (_, (_, raw))) := read_body (observed D) a fuel cfg n (conf n, (w, [])) in
  let l := (device f raw).2 in
  ∃ target, asked_for a (metadata_read D cfg w).1 target ∧
  match target with
  | None => o = Some (-1, None) ∧ raw = []
  | Some (lba, sectors) =>
      let addr := ccb_types.ddr_hw_base cfg in
      nvme_slot_safety.addressable sectors lba addr →
      ∃ limit, 0 < limit <= nvme_cmd_sectors (base n) ∧
        let whole := read_plan limit sectors lba addr (read_total limit sectors) in
        what <$> issued l `prefix_of` whole ∧ follow 1 nothing_owned l ≠ None ∧
        (dry_run (set n) = true → raw = []) ∧
        (∀ t, o = Some (0, t) → t = Some (lba, sectors) ∧
           (dry_run (set n) = false → what <$> issued l = whole ∧ follow 1 nothing_owned l = Some nothing_owned))
  end.
Proof.
  intros Hc Hid Hb Hbase. pose proof (body_spec D f a cfg fuel n w Hc Hid) as H. unfold wp in H.
  pose proof (read_target_asked D cfg a (conf n) w Hb) as Hasked.
  destruct (read_body _ _ _ _ _ _) as [[o n'] [s' [w' raw]]]. unfold read_outcome in H. cbn [fst snd] in H. cbv zeta.
  exists (read_target D cfg a (conf n, w)).1. split; [exact Hasked|]. rewrite (window_base cfg Hbase) in H.
  destruct (read_target _ _ _ _).1 as [[lba sectors]|]; [|exact H].
  intros Ha. destruct (H Ha) as (limit&Hl&r&[]&Ho). exists limit. split_and!; try done; try lia.
  intros t ->. destruct Ho as [-> Hr]. split; [done|]. intros Hd. by apply ra_whole0; [apply Hr|].
Qed.

(** Nothing bounds a read by the memory set aside for it: a read that reports success of a file that is larger
    than the memory of its channel, whatever its size is taken to be (the window that the CPU maps, the whole ring),
    has told the device to write past the end of that memory.  A recorded file may well be larger, since the capture
    goes round the ring. *)
Theorem read_leaves_window {W} (D : Devices W) f a fuel cfg n w lba sectors memory :
  nvme_probe_safety.configured n → is_u16 (next_cmd_id (base n)) → dry_run (set n) = false →
  (read_target D cfg a (conf n, w)).1 = Some (lba, sectors) →
  nvme_slot_safety.addressable sectors lba (ccb_types.ddr_hw_base cfg) →
  is_u64 (ccb_types.ddr_hw_base cfg) → memory < sectors * NVME_SECTOR_BYTES →
  let '((o, _), (_, (_, raw))) := read_body (observed D) a fuel cfg n (conf n, (w, [])) in
  ∀ t, o = Some (0, t) → ∃ c, c ∈ issued (device f raw).2 ∧ c_op c = NVM_READ ∧
    ccb_types.ddr_hw_base cfg + memory < c_addr c + c_sectors c * NVME_SECTOR_BYTES.
Proof.
  intros Hc Hid Hd Ht Ha Hb Hbig. pose proof (body_spec D f a cfg fuel n w Hc Hid) as H. unfold wp in H.
  destruct (read_body _ _ _ _ _ _) as [[o n'] [s' [w' raw]]]. unfold read_outcome in H. rewrite Ht in H. cbn [fst snd] in H.
  rewrite (window_base cfg Hb) in H. destruct (H Ha) as (limit&Hl&r&[]&Ho). intros t ->. destruct Ho as [-> Hr].
  destruct (ra_whole0 (Hr eq_refl) Hd) as [Hw _]. destruct (nvme_slot_safety.cf_sectors_of n Hc) as [Hn _].
  destruct (plan_end sectors lba (ccb_types.ddr_hw_base cfg) limit ltac:(lia) Ha) as (s&addr&Hin&Hend).
  rewrite <-Hw in Hin. apply list_elem_of_fmap in Hin as (c&Ec&Hin). exists c. split; [done|].
  unfold what in Ec. injection Ec as E1 E2 E3 E4. split; [done|]. lia.
Qed.

(** *** Examples *)
(** A channel whose device completes in order; its table has one file of [sectors] sectors. *)
Definition example_entry (sectors : Z) : ccb_types.FileEntry :=
  ccb_metadata.witness_entry 1000 sectors.
Definition example_devices (sectors : Z) : Devices (Z * list Z) :=
  mkDevices nvme_slot_safety.fifo_hw nvme_slot_safety.fifo_hw (λ _, eret true) (λ _, eret (Some [example_entry sectors])) (λ _ _, eret 0).
Definition example_args : ccb_cli.ParsedArgs :=
  ccb_cli.zero_args <| ccb_cli.has_task_no := true |> <| ccb_cli.arg_task_no := "AAAAAAAAAAA"%string |>
    <| ccb_cli.has_file_index := true |> <| ccb_cli.arg_file_index := ccb_types.file_index (example_entry 0) |>.
Definition example_channel : ccb_types.ChannelConfig :=
  default (ccb_types.mkChannel 0 "" 0 0 0 0 0 0 0 0 0 0 0 0 0 0) (ccb_config.find_channel 0).
(** Commands of [cmd] sectors. *)
Definition example_nvme (cmd : Z) : Nvme :=
  let n := nvme_slot_safety.example_nvme NVME_FEED_MODE_LEGACY in
  n <| base := (base n) <| nvme_cmd_sectors := cmd |> |>
    <| set := (set n) <| nvme_cmd_size_bytes := cmd * NVME_SECTOR_BYTES |> <| nvme_max_dts_bytes := 0x2000000 |> |>.
Definition example_read (sectors cmd : Z) (fuel : nat) :=
  read_body (observed (example_devices sectors)) example_args fuel example_channel (example_nvme cmd)
    (conf (example_nvme cmd), ((0, []), [])).
Definition no_regs : RegFile := mkRegs 0 0 0 0 0 0.

Lemma example_configured : nvme_probe_safety.configured (example_nvme 2) ∧ nvme_probe_safety.configured (example_nvme 0xFFFF).
Proof. split; (split; try done; vm_compute; intuition congruence). Qed.

(** Five sectors in commands of two. *)
Lemma file_read_exact_witness :
  let r := example_read 5 2 20 in
  r.1.1 = Some (0, Some (1000, 5)) ∧ asked_for example_args (Some [example_entry 5]) (Some (1000, 5)) ∧
  what <$> issued (device no_regs r.2.2.2).2 = [(NVM_READ, 1000, 2, 0); (NVM_READ, 1002, 2, 1024); (NVM_READ, 1004, 1, 2048)] ∧
  follow 1 nothing_owned (device no_regs r.2.2.2).2 = Some nothing_owned.
Proof.
  intros r.
  assert (Hr : r.1.1 = Some (0, Some (1000, 5)) ∧
    what <$> issued (device no_regs r.2.2.2).2 = [(NVM_READ, 1000, 2, 0); (NVM_READ, 1002, 2, 1024); (NVM_READ, 1004, 1, 2048)])
    by (vm_compute; by split).
  pose proof (file_read_exact (example_devices 5) no_regs example_args 20 example_channel (example_nvme 2) (0, [])
    (proj1 example_configured) ltac:(vm_compute; intuition congruence) ltac:(vm_compute; intuition congruence)
    ltac:(vm_compute; intuition congruence)) as H.
  fold (example_read 5 2 20) in H. fold r in H. split; [apply Hr|]. destruct Hr as [Hr Hi]. clearbody r.
  destruct r as [[o n] [s [w raw]]]. cbn [fst snd] in *. destruct H as (t&Ht&H). cbn [fst example_devices metadata_read eret] in Ht.
  assert (Hnamed : names example_args (example_entry 5)) by (vm_compute; by split_and!).
  assert (Et : t = Some (1000, 5)).
  { inversion Ht as [o' [E|E]| |t' _ _ Hno|t' k e _ _ Hk _ _]; subst; try discriminate.
    - by destruct (Hno (example_entry 5) ltac:(by left)).
    - destruct k as [|k]; [injection Hk as <-; reflexivity|by destruct k]. }
  subst t. split; [exact Ht|]. split; [exact Hi|].
  destruct H as (limit&_&_&_&_&H); [vm_compute; intuition congruence|]. destruct (H _ Hr) as [_ H']. by apply H'.
Defined.

(** Two gibibytes and one sector, which is more than the whole memory of the channel. *)
Lemma read_leaves_window_witness :
  ∃ c, c ∈ issued (device no_regs (example_read 4194305 0xFFFF 70).2.2.2).2 ∧
    ccb_types.dma_ring_bytes_max example_channel < c_addr c + c_sectors c * NVME_SECTOR_BYTES.
Proof.
  set (r := example_read 4194305 0xFFFF 70).
  assert (Hr : match r.1.1 with Some (0, _) => true | _ => false end = true) by (vm_compute; reflexivity).
  pose proof (read_leaves_window (example_devices 4194305) no_regs example_args 70 example_channel (example_nvme 0xFFFF) (0, [])
    1000 4194305 (ccb_types.dma_ring_bytes_max example_channel)
    (proj2 example_configured) ltac:(vm_compute; intuition congruence) eq_refl eq_refl ltac:(vm_compute; intuition congruence)
    ltac:(vm_compute; intuition congruence) ltac:(vm_compute; intuition congruence)) as H.
  fold (example_read 4194305 0xFFFF 70) in H. fold r in H. clearbody r.
  destruct r as [[o n] [s [w raw]]]. cbn [fst snd] in *. destruct o as [[[| |] t]|]; try discriminate Hr.
  destruct (H t eq_refl) as (c&Hc&_&Hend). by exists c.
Defined.
End read_safety.
