(* ===== verification/TcpTransfer.v ===== *)
(** * Sending memory over the network ([src/src/ccb_tcp_transfer.c])

    The memory-to-stream half of the DMA engine sends a range of the DDR: the
    stream switch is routed, a chain of descriptors covers the range, the engine
    is brought to a halt, started and fed, and every descriptor is waited for.
    The registers, the descriptor memory, the stop flag (set by a signal handler)
    and the mapping of the devices are parameters: every read may answer
    anything.  Log lines, with the reads that only feed them, are left out. *)
From S2P Require Import Prelude CcbTypes Config Cli CmdConfig.

Module ccb_tcp_transfer.
Import ccb_types storage_config.

(** ** Registers and bits *)
Definition TCP_SWITCH_BASE_DEFAULT : Z := 0xA0040000.
Definition TCP_SWITCH_INPUT_DEFAULT : Z := 0.
Definition TCP_DMA_BASE_DEFAULT : Z := 0x41E00000.
Definition TCP_DESC_CPU_BASE_DEFAULT : Z := 0x20000000.
Definition TCP_DESC_DMA_BASE_DEFAULT : Z := 0x10000000.
Definition TCP_DDR_DMA_BASE_DEFAULT : Z := 0.
Definition TCP_MAX_BYTES_PER_DESC : Z := 16 * 1024 * 1024.
Definition DMA_DESC_BRAM_BYTES : Z := 8192.
Definition DMA_DESC_COUNT_MAX : Z := DMA_DESC_BRAM_BYTES / DMA_DESC_ENTRY_BYTES.
Definition TCP_MM2S_DMACR : Z := 0x00.
Definition TCP_MM2S_DMASR : Z := 0x04.
Definition TCP_MM2S_CURDESC : Z := 0x08.
Definition TCP_MM2S_CURDESC_MSB : Z := 0x0C.
Definition TCP_MM2S_TAILDESC : Z := 0x10.
Definition TCP_MM2S_TAILDESC_MSB : Z := 0x14.
Definition TCP_S2MM_DMACR : Z := 0x30.
Definition TCP_DMA_CR_RS_BIT : Z := Z.shiftl 1 0.
Definition TCP_DMA_CR_RESET_BIT : Z := Z.shiftl 1 2.
Definition TCP_DMA_CR_IOC_IRQ_EN : Z := Z.shiftl 1 12.
Definition TCP_DMA_SR_HALTED : Z := Z.shiftl 1 0.
Definition TCP_DMA_SR_DMA_INT_ERR : Z := Z.shiftl 1 4.
Definition TCP_DMA_SR_DMA_SLV_ERR : Z := Z.shiftl 1 5.
Definition TCP_DMA_SR_DMA_DEC_ERR : Z := Z.shiftl 1 6.
Definition TCP_DMA_SR_SG_INT_ERR : Z := Z.shiftl 1 8.
Definition TCP_DMA_SR_SG_SLV_ERR : Z := Z.shiftl 1 9.
Definition TCP_DMA_SR_SG_DEC_ERR : Z := Z.shiftl 1 10.
Definition TCP_DMA_SR_IRQ_STATUS_MASK : Z := 0x7000.
Definition TCP_DMA_SR_ERR_IRQ : Z := Z.shiftl 1 14.
Definition TCP_DMA_SR_ERROR_MASK : Z :=
  Z.lor (Z.lor (Z.lor TCP_DMA_SR_DMA_INT_ERR TCP_DMA_SR_DMA_SLV_ERR)
               (Z.lor TCP_DMA_SR_DMA_DEC_ERR TCP_DMA_SR_SG_INT_ERR))
        (Z.lor (Z.lor TCP_DMA_SR_SG_SLV_ERR TCP_DMA_SR_SG_DEC_ERR) TCP_DMA_SR_ERR_IRQ).
Definition TCP_DESC_CTRL_SOF : Z := Z.shiftl 1 27.
Definition TCP_DESC_CTRL_EOF : Z := Z.shiftl 1 26.
Definition TCP_DESC_STS_CMPLT : Z := Z.shiftl 1 31.
Definition TCP_AXIS_SWITCH_CTRL : Z := 0x0.
Definition TCP_AXIS_SWITCH_MI0_MUX : Z := 0x40.
Definition TCP_AXIS_SWITCH_UPDATE : Z := Z.shiftl 1 1.
Definition TCP_POLL_SLEEP_US : Z := 10.

(** [(v & mask) != 0] *)
Definition any (v mask : Z) : bool := negb (Z.land v mask =? 0).

Record TcpTransferConfig : Type := mkTcpConfig {
  switch_base : Z; switch_input_select : Z; tcp_dma_base : Z; tcp_desc_cpu_base : Z;
  tcp_desc_dma_base : Z; ddr_dma_base : Z; transfer_bytes : Z; tcp_timeout_us : Z; tcp_dry_run : bool }.
#[export] Instance eta_TcpTransferConfig : EtaOf TcpTransferConfig := λ c,
  mkTcpConfig (switch_base c) (switch_input_select c) (tcp_dma_base c) (tcp_desc_cpu_base c)
    (tcp_desc_dma_base c) (ddr_dma_base c) (transfer_bytes c) (tcp_timeout_us c) (tcp_dry_run c).

(** A descriptor; the reserved and application words are zero. *)
Record DmaSgDesc : Type := mkDesc {
  next_desc : Z; next_desc_msb : Z; buffer_addr : Z; buffer_addr_msb : Z; control : Z; status : Z }.
#[export] Instance DmaSgDesc_eq_dec : EqDecision DmaSgDesc.
Proof. solve_decision. Defined.

(** The two register regions. *)
Inductive Region : Type := Dma | Switch.
#[export] Instance Region_eq_dec : EqDecision Region.
Proof. solve_decision. Defined.
Record TcpHw (W : Type) : Type := mkHw {
  mmio_read32 : Region → Z → Eff W Z;
  mmio_write32 : Region → Z → Z → Eff W unit;
  desc_put : Z → DmaSgDesc → Eff W unit;
  desc_status : Z → Eff W Z;
  desc_clear_status : Z → Eff W unit;
  map_regions : TcpTransferConfig → Eff W bool;
  tcp_stop_requested : Eff W bool;
  usleep : Z → Eff W unit }.
Arguments mkHw {W}. Arguments mmio_read32 {W}. Arguments mmio_write32 {W}. Arguments desc_put {W}.
Arguments desc_status {W}. Arguments desc_clear_status {W}. Arguments map_regions {W}.
Arguments tcp_stop_requested {W}. Arguments usleep {W}.

(** [goto out], or the fuel of a waiting loop. *)
Inductive exit : Type := GoOut (rc : Z) | OutOfFuel.

(** ** The chain of descriptors *)
Definition tcp_desc_count (cfg : TcpTransferConfig) : Z :=
  u32 (u64 (transfer_bytes cfg + TCP_MAX_BYTES_PER_DESC - 1) / TCP_MAX_BYTES_PER_DESC).
(** Descriptor [i] of [n], with its share of what is left. *)
Definition tcp_desc (cfg : TcpTransferConfig) (n i remaining ddr_addr : Z) : Z * DmaSgDesc :=
  let next := u32 (i + 1) mod n in
  let chunk := if TCP_MAX_BYTES_PER_DESC <? remaining then TCP_MAX_BYTES_PER_DESC else u32 remaining in
  let control := if i =? 0 then Z.lor chunk TCP_DESC_CTRL_SOF else chunk in
  let control := if i =? n - 1 then Z.lor control TCP_DESC_CTRL_EOF else control in
  (chunk, mkDesc (u32 (tcp_desc_dma_base cfg + next * DMA_DESC_ENTRY_BYTES)) 0 (u32 ddr_addr) 0 control 0).
Definition tcp_tail_address (cfg : TcpTransferConfig) (n : Z) : Z :=
  u32 (tcp_desc_dma_base cfg + (n - 1) * DMA_DESC_ENTRY_BYTES).

Section Transfer.
Context {W : Type} (hw : TcpHw W).
#[local] Abbreviation M := (Eff (config_state * W)).
Definition rd (r : Region) (off : Z) : M Z := sio (mmio_read32 hw r off).
Definition wr (r : Region) (off v : Z) : M unit := sio (mmio_write32 hw r off v).
Definition go_out {A} (rc : Z) : M (exit + A) := eret (inl (GoOut rc)).

Definition tcp_env_flag_enabled (name : string) : ceff bool :=
  let! value := storage_config_compat_getenv name in
  eret (match value with
        | Some v => negb (bool_decide (v ∈ [""; "0"; "false"; "FALSE"; "no"; "NO"]%string))
        | None => false end).

(** *** Waiting for a register *)
Fixpoint wait_bits_common (fuel : nat) (r : Region) (off mask expected timeout_us : Z) (abort_on_stop : bool)
    (waited : Z) : M (exit + Z) :=
  if negb (waited <? timeout_us) then xret (-1) else
  match fuel with
  | O => eret (inl OutOfFuel)
  | S fuel =>
    let! value := rd r off in
    if Z.land value mask =? expected then xret 0 else
    let! stop := (if abort_on_stop then sio (tcp_stop_requested hw) else eret false) in
    if (stop : bool) then xret (-2) else
    let! _ := sio (usleep hw TCP_POLL_SLEEP_US) in
    wait_bits_common fuel r off mask expected timeout_us abort_on_stop (u32 (waited + TCP_POLL_SLEEP_US))
  end.
Definition wait_bits (fuel : nat) (r : Region) (off mask expected timeout_us : Z) : M (exit + Z) :=
  wait_bits_common fuel r off mask expected timeout_us true 0.
Definition wait_bits_no_stop (fuel : nat) (r : Region) (off mask expected timeout_us : Z) : M (exit + Z) :=
  wait_bits_common fuel r off mask expected timeout_us false 0.

(** *** The switch *)
Definition tcp_route_switch (fuel : nat) (cfg : TcpTransferConfig) : M (exit + Z) :=
  let! _ := wr Switch TCP_AXIS_SWITCH_MI0_MUX (Z.land (switch_input_select cfg) 0x0F) in
  let! _ := wr Switch TCP_AXIS_SWITCH_CTRL TCP_AXIS_SWITCH_UPDATE in
  wait_bits fuel Switch TCP_AXIS_SWITCH_CTRL TCP_AXIS_SWITCH_UPDATE 0 (tcp_timeout_us cfg).

(** *** Reset and halt *)
(** Both channels are waited for, whatever becomes of the first. *)
Definition tcp_reset_dma_mapped (fuel : nat) (cfg : TcpTransferConfig) : M (exit + Z) :=
  let! mm2s_cr_before := rd Dma TCP_MM2S_DMACR in
  let! s2mm_cr_before := rd Dma TCP_S2MM_DMACR in
  if any (Z.lor mm2s_cr_before s2mm_cr_before) TCP_DMA_CR_RESET_BIT then xret (-1) else
  let! _ := wr Dma TCP_MM2S_DMACR TCP_DMA_CR_RESET_BIT in
  let? mm2s := wait_bits_no_stop fuel Dma TCP_MM2S_DMACR TCP_DMA_CR_RESET_BIT 0 (tcp_timeout_us cfg) in
  let? s2mm := wait_bits_no_stop fuel Dma TCP_S2MM_DMACR TCP_DMA_CR_RESET_BIT 0 (tcp_timeout_us cfg) in
  xret (if (mm2s =? 0) && (s2mm =? 0) then 0 else -1).
Definition tcp_halt_mm2s_mapped (fuel : nat) (cfg : TcpTransferConfig) : M (exit + Z) :=
  let! control := rd Dma TCP_MM2S_DMACR in
  let! status := rd Dma TCP_MM2S_DMASR in
  if any control TCP_DMA_CR_RESET_BIT then xret (-1) else
  if any status TCP_DMA_SR_HALTED then xret 0 else
  let! _ := wr Dma TCP_MM2S_DMACR (Z.land control (UINT32_MAX - TCP_DMA_CR_RS_BIT)) in
  let? rc := wait_bits_no_stop fuel Dma TCP_MM2S_DMASR TCP_DMA_SR_HALTED TCP_DMA_SR_HALTED (tcp_timeout_us cfg) in
  xret (if negb (rc =? 0) then -1 else 0).
(** An engine with an error is reset, any other one is halted. *)
Definition tcp_prepare_mm2s_mapped (fuel : nat) (cfg : TcpTransferConfig) : M (exit + Z) :=
  let! mm2s_control := rd Dma TCP_MM2S_DMACR in
  let! s2mm_control := rd Dma TCP_S2MM_DMACR in
  let! mm2s_status := rd Dma TCP_MM2S_DMASR in
  if any (Z.lor mm2s_control s2mm_control) TCP_DMA_CR_RESET_BIT then xret (-1) else
  let? rc := (if any mm2s_status TCP_DMA_SR_ERROR_MASK then tcp_reset_dma_mapped fuel cfg
              else tcp_halt_mm2s_mapped fuel cfg) in
  if negb (rc =? 0) then xret (-1) else
  let! _ := wr Dma TCP_MM2S_DMASR TCP_DMA_SR_IRQ_STATUS_MASK in
  xret 0.
Definition tcp_cleanup_mm2s_mapped (fuel : nat) (cfg : TcpTransferConfig) : M (exit + Z) :=
  let! status := rd Dma TCP_MM2S_DMASR in
  if any status TCP_DMA_SR_ERROR_MASK then tcp_reset_dma_mapped fuel cfg else tcp_halt_mm2s_mapped fuel cfg.

(** *** The descriptors *)
(** [rest] descriptors from number [i] on. *)
Fixpoint prepare_from (rest : nat) (cfg : TcpTransferConfig) (n i remaining ddr_addr : Z) : M unit :=
  match rest with
  | O => eret tt
  | S rest =>
    let '(chunk, d) := tcp_desc cfg n i remaining ddr_addr in
    let! _ := sio (desc_put hw i d) in
    prepare_from rest cfg n (i + 1) (u64 (remaining - chunk)) (u64 (ddr_addr + chunk))
  end.
Definition tcp_prepare_desc (cfg : TcpTransferConfig) : M Z :=
  let n := tcp_desc_count cfg in
  let! _ := prepare_from (Z.to_nat n) cfg n 0 (transfer_bytes cfg) (ddr_dma_base cfg) in
  eret n.

(** *** Sending *)
(** Up to the start of the engine; nothing is cleaned up before that. *)
Definition prepare_engine (fuel : nat) (cfg : TcpTransferConfig) : M (exit + Z) :=
  let? rc := tcp_route_switch fuel cfg in
  if negb (rc =? 0) then go_out (-1) else
  let! n := tcp_prepare_desc cfg in
  let? rc := tcp_prepare_mm2s_mapped fuel cfg in
  if negb (rc =? 0) then go_out (-1) else xret n.
Definition start_engine (cfg : TcpTransferConfig) : M unit :=
  let! _ := wr Dma TCP_MM2S_CURDESC (u32 (tcp_desc_dma_base cfg)) in
  let! _ := wr Dma TCP_MM2S_CURDESC_MSB 0 in
  wr Dma TCP_MM2S_DMACR (Z.lor TCP_DMA_CR_RS_BIT TCP_DMA_CR_IOC_IRQ_EN).
Definition feed_engine (fuel : nat) (cfg : TcpTransferConfig) (n : Z) : M (exit + unit) :=
  let? rc := wait_bits fuel Dma TCP_MM2S_DMASR TCP_DMA_SR_HALTED 0 (tcp_timeout_us cfg) in
  if negb (rc =? 0) then go_out (-1) else
  let! _ := wr Dma TCP_MM2S_TAILDESC (tcp_tail_address cfg n) in
  let! _ := wr Dma TCP_MM2S_TAILDESC_MSB 0 in
  xret tt.
Fixpoint completion_loop (fuel : nat) (cfg : TcpTransferConfig) (n : Z) (poll_dmasr : bool)
    (completed next_desc idle_waited_us : Z) : M (exit + Z) :=
  if negb (completed <? n) then xret 0 else
  match fuel with
  | O => eret (inl OutOfFuel)
  | S fuel =>
    let! stop := sio (tcp_stop_requested hw) in
    if (stop : bool) then go_out (-2) else
    let! status := sio (desc_status hw next_desc) in
    if any status TCP_DESC_STS_CMPLT then
      let! _ := sio (desc_clear_status hw next_desc) in
      completion_loop fuel cfg n poll_dmasr (u32 (completed + 1)) (u32 (next_desc + 1) mod n) 0
    else
    let! bad := (if poll_dmasr then let! dmasr := rd Dma TCP_MM2S_DMASR in eret (any dmasr TCP_DMA_SR_ERROR_MASK)
                 else eret false) in
    if (bad : bool) then go_out (-1) else
    let! _ := sio (usleep hw TCP_POLL_SLEEP_US) in
    let idle := if idle_waited_us <? UINT32_MAX - TCP_POLL_SLEEP_US then idle_waited_us + TCP_POLL_SLEEP_US
                else idle_waited_us in
    if tcp_timeout_us cfg <=? idle then go_out (-1) else
    completion_loop fuel cfg n poll_dmasr completed next_desc idle
  end.
(** From the start of the engine on: whatever happens, it is cleaned up. *)
Definition run_engine (fuel : nat) (cfg : TcpTransferConfig) (n : Z) (poll_dmasr : bool) : M (exit + Z) :=
  let! _ := start_engine cfg in
  let! r := (let? _ := feed_engine fuel cfg n in completion_loop fuel cfg n poll_dmasr 0 0 0) in
  match r with
  | inl OutOfFuel => eret (inl OutOfFuel)
  | inl (GoOut rc) | inr rc =>
    let? cleanup_rc := tcp_cleanup_mm2s_mapped fuel cfg in
    xret (if negb (cleanup_rc =? 0) && (rc =? 0) then -1 else rc)
  end.

(** What became of a call; [None]: it does not return with this fuel. *)
Definition returned (r : exit + Z) : option Z :=
  match r with inr rc | inl (GoOut rc) => Some rc | inl OutOfFuel => None end.
Definition tcp_transfer_send (fuel : nat) (cfg : TcpTransferConfig) : M (option Z) :=
  if transfer_bytes cfg =? 0 then eret (Some (-1)) else
  if TCP_MAX_BYTES_PER_DESC * DMA_DESC_COUNT_MAX <? transfer_bytes cfg then eret (Some (-1)) else
  if tcp_dry_run cfg then eret (Some 0) else
  let! stop := sio (tcp_stop_requested hw) in
  if (stop : bool) then eret (Some (-2)) else
  let! mapped := (if tcp_desc_count cfg =? 0 then eret false else sio (map_regions hw cfg)) in
  if negb (mapped : bool) then eret (Some (-1)) else
  let! poll_dmasr := ccb_cmd_config.configured (tcp_env_flag_enabled "SRC_REAL_TCP_POLL_DMASR") in
  let! r := (let? n := prepare_engine fuel cfg in run_engine fuel cfg n poll_dmasr) in
  eret (returned r).

(** Resetting the engine on its own; only its registers are mapped. *)
Definition tcp_transfer_reset (fuel : nat) (cfg : TcpTransferConfig) : M (option Z) :=
  if tcp_dry_run cfg then eret (Some 0) else
  let! mapped := sio (map_regions hw cfg) in
  if negb (mapped : bool) then eret (Some (-1)) else
  let! r := tcp_reset_dma_mapped fuel cfg in
  eret (returned r).
End Transfer.

Definition tcp_transfer_default_config (bytes : Z) (gopt : ccb_cli.GlobalOptions) : TcpTransferConfig :=
  mkTcpConfig TCP_SWITCH_BASE_DEFAULT TCP_SWITCH_INPUT_DEFAULT TCP_DMA_BASE_DEFAULT TCP_DESC_CPU_BASE_DEFAULT
    TCP_DESC_DMA_BASE_DEFAULT TCP_DDR_DMA_BASE_DEFAULT bytes
    (if negb (ccb_cli.timeout_us gopt =? 0) then ccb_cli.timeout_us gopt else ccb_cli.DEFAULT_TIMEOUT_US)
    (ccb_cli.dry_run gopt).
End ccb_tcp_transfer.
