(* ===== verification/TcpSafe.v ===== *)
(** * Sending keeps to the rules of the engine

    What the switch and the engine see of [tcp_transfer_send], and what they
    require: [allowed] says when an access is in order and [see] what is known
    after it.  A send never breaks a rule, and one that returns 0 has sent the
    whole range and left the engine halted. *)
From stdpp Require Import gmap.
From S2P Require Import Prelude CcbTypes Config Cli CmdConfig TcpTransfer.

Module tcp_safety.
Import ccb_types storage_config ccb_tcp_transfer.

(** ** The chain that is planned *)
(** Descriptor [i] of the transfer: its share begins [i] shares into the range. *)
Definition planned_chunk (cfg : TcpTransferConfig) (i : Z) : Z :=
  Z.min TCP_MAX_BYTES_PER_DESC (transfer_bytes cfg - i * TCP_MAX_BYTES_PER_DESC).
Definition planned_desc (cfg : TcpTransferConfig) (i : Z) : DmaSgDesc :=
  (tcp_desc cfg (tcp_desc_count cfg) i (transfer_bytes cfg - i * TCP_MAX_BYTES_PER_DESC)
     (ddr_dma_base cfg + i * TCP_MAX_BYTES_PER_DESC)).2.
Definition planned (cfg : TcpTransferConfig) : list DmaSgDesc := planned_desc cfg <$> seqZ 0 (tcp_desc_count cfg).

(** ** What is seen *)
Inductive Ev : Type :=
| Rd (r : Region) (off v : Z) | Wr (r : Region) (off v : Z)
| Put (i : Z) (d : DmaSgDesc) | Sts (i v : Z) | Clr (i : Z).
(** The engine as far as the driver can know it. *)
Inductive Engine : Type := Unknown | Halted | Resetting (mm2s s2mm : bool) | Starting | Running.
#[export] Instance Engine_eq_dec : EqDecision Engine.
Proof. solve_decision. Defined.
Record View : Type := mkView {
  v_mux : option Z; v_asked : bool; v_routed : bool;
  v_table : list DmaSgDesc; v_engine : Engine;
  v_cur : option Z; v_tail : option Z; v_done : Z }.
#[export] Instance eta_View : EtaOf View := λ v,
  mkView (v_mux v) (v_asked v) (v_routed v) (v_table v) (v_engine v) (v_cur v) (v_tail v) (v_done v).
Definition unseen : View := mkView None false false [] Unknown None None 0.

Section Rules.
Context (cfg : TcpTransferConfig).
(** The access is in order: descriptors are written one after the other, while the
    engine has not been started; its position is set while it is halted; it is
    started on the finished chain, with the switch known to be routed; it is fed
    once, while it runs; the descriptors complete in order. *)
Definition allowed (v : View) (e : Ev) : bool :=
  match e with
  | Put i _ => (i =? Z.of_nat (length (v_table v))) && bool_decide (v_engine v ≠ Starting ∧ v_engine v ≠ Running)
  | Wr Dma off x =>
      if off =? TCP_MM2S_CURDESC then bool_decide (v_engine v = Halted)
      else if off =? TCP_MM2S_TAILDESC then bool_decide (v_engine v = Running ∧ v_tail v = None) && (x =? tcp_tail_address cfg (tcp_desc_count cfg))
      else if off =? TCP_MM2S_DMACR then
        any x TCP_DMA_CR_RESET_BIT || negb (any x TCP_DMA_CR_RS_BIT)
        || bool_decide (v_engine v = Halted ∧ v_routed v = true ∧ v_mux v = Some (Z.land (switch_input_select cfg) 0x0F) ∧
             v_cur v = Some (u32 (tcp_desc_dma_base cfg)) ∧ v_table v = planned cfg)
      else true
  | Sts i x => negb (any x TCP_DESC_STS_CMPLT) || ((i =? v_done v) && bool_decide (v_tail v ≠ None))
  | _ => true
  end.
Definition see_dmasr (x : Z) (e : Engine) : Engine :=
  match e with
  | Unknown | Halted | Running => if any x TCP_DMA_SR_HALTED then Halted else e
  | Starting => if any x TCP_DMA_SR_HALTED then Starting else Running
  | Resetting _ _ => e end.
Definition see_reset (mm2s s2mm : bool) (e : Engine) : Engine :=
  match e with
  | Resetting a b => if (a || mm2s) && (b || s2mm) then Halted else Resetting (a || mm2s) (b || s2mm)
  | _ => e end.
Definition see (v : View) (e : Ev) : View :=
  match e with
  | Wr Switch off x =>
      if off =? TCP_AXIS_SWITCH_MI0_MUX then v <| v_mux := Some x |> <| v_routed := false |>
      else if off =? TCP_AXIS_SWITCH_CTRL then v <| v_asked := any x TCP_AXIS_SWITCH_UPDATE |> <| v_routed := false |> else v
  | Rd Switch off x =>
      if off =? TCP_AXIS_SWITCH_CTRL then v <| v_routed := v_asked v && negb (any x TCP_AXIS_SWITCH_UPDATE) |> else v
  | Rd Dma off x =>
      if off =? TCP_MM2S_DMASR then v <| v_engine ::= see_dmasr x |>
      else if any x TCP_DMA_CR_RESET_BIT then v
      else v <| v_engine ::= see_reset (off =? TCP_MM2S_DMACR) (off =? TCP_S2MM_DMACR) |>
  | Wr Dma off x =>
      if off =? TCP_MM2S_CURDESC then v <| v_cur := Some x |>
      else if off =? TCP_MM2S_TAILDESC then v <| v_tail := Some x |>
      else if off =? TCP_MM2S_DMACR then
        if any x TCP_DMA_CR_RESET_BIT then v <| v_engine := Resetting false false |>
        else if any x TCP_DMA_CR_RS_BIT then v <| v_engine := Starting |> else v
      else v
  | Put _ d => v <| v_table ::= λ t, t ++ [d] |>
  | Sts _ x => if any x TCP_DESC_STS_CMPLT then v <| v_done ::= λ n, n + 1 |> else v
  | Clr _ => v
  end.
Fixpoint follow (v : View) (l : list Ev) : option View :=
  match l with [] => Some v | e :: l => if allowed v e then follow (see v e) l else None end.
Lemma sent_follow_app v l l' : follow v (l ++ l') = match follow v l with Some v => follow v l' | None => None end.
Proof. revert v; induction l as [|e l IH]; intros v; [done|]. simpl. case_match; [apply IH|done]. Qed.
End Rules.

(** ** The observed hardware *)
Section Observed.
Context {W : Type} (hw : TcpHw W) (cfg : TcpTransferConfig).
Definition logged {A} (ev : A → list Ev) (m : Eff W A) : Eff (W * list Ev) A :=
  λ '(w, l), let '(a, w) := m w in (a, (w, l ++ ev a)).
Definition watched : TcpHw (W * list Ev) :=
  mkHw (λ r off, logged (λ v, [Rd r off v]) (mmio_read32 hw r off))
    (λ r off v, logged (λ _, [Wr r off v]) (mmio_write32 hw r off v))
    (λ i d, logged (λ _, [Put i d]) (desc_put hw i d))
    (λ i, logged (λ v, [Sts i v]) (desc_status hw i)) (λ i, logged (λ _, [Clr i]) (desc_clear_status hw i))
    (λ c, logged (λ _, []) (map_regions hw c)) (logged (λ _, []) (tcp_stop_requested hw)) (λ us, logged (λ _, []) (usleep hw us)).
(** What is known at this point of the log; no rule has been broken. *)
Definition known (v : View) (l : list Ev) : Prop := follow cfg unseen l = Some v.
#[local] Abbreviation St := (config_state * (W * list Ev))%type.

Lemma known_next v l e : known v l → allowed cfg v e = true → known (see v e) (l ++ [e]).
Proof. unfold known. intros H Ha. by rewrite sent_follow_app, H; simpl; rewrite Ha. Qed.
Lemma wp_logged {A} (ev : A → list Ev) (m : Eff W A) (Q : A → St → Prop) s w l :
  (∀ a w', Q a (s, (w', l ++ ev a))) → wp (sio (logged ev m)) Q (s, (w, l)).
Proof. intros H. unfold wp, sio, logged. destruct (m w). apply H. Qed.
Lemma wp_unlogged {A} (m : Eff W A) (Q : A → St → Prop) s w l :
  (∀ a w', Q a (s, (w', l))) → wp (sio (logged (λ _, []) m)) Q (s, (w, l)).
Proof. intros H. apply wp_logged. intros a w'. by rewrite app_nil_r. Qed.
Lemma wp_tcp_rd r off (Q : Z → St → Prop) s w l v :
  known v l → (∀ x w' l', known (see v (Rd r off x)) l' → Q x (s, (w', l'))) → wp (rd watched r off) Q (s, (w, l)).
Proof. intros H HQ. apply wp_logged. intros x w'. apply HQ, known_next; [done|by destruct r]. Qed.
Lemma wp_tcp_wr r off x (Q : unit → St → Prop) s w l v :
  known v l → allowed cfg v (Wr r off x) = true → (∀ w' l', known (see v (Wr r off x)) l' → Q tt (s, (w', l'))) →
  wp (wr watched r off x) Q (s, (w, l)).
Proof. intros H Ha HQ. apply wp_logged. intros [] w'. apply HQ. by apply known_next. Qed.

(** *** Waiting *)
(** [P] holds while the register does not show what is awaited, [Q] when it does. *)
Definition waited_post (P Q : View → Prop) (r : exit + Z) (st : St) : Prop :=
  ∃ v, known v st.2.2 ∧ match r with
    | inl e => e = OutOfFuel ∧ P v
    | inr rc => (rc = 0 ∧ Q v) ∨ (rc < 0 ∧ P v) end.
Lemma wait_spec (P Q : View → Prop) fuel r off mask expected timeout abort waited s w l v :
  (∀ v x, P v → Z.land x mask ≠ expected → P (see v (Rd r off x))) →
  (∀ v x, P v → Z.land x mask = expected → Q (see v (Rd r off x))) →
  known v l → P v →
  wp (wait_bits_common watched fuel r off mask expected timeout abort waited) (waited_post P Q) (s, (w, l)).
Proof.
  intros HP HQ. revert waited s w l v; induction fuel as [|fuel IH]; intros waited s w l v Hl Hv; cbn [wait_bits_common];
    (destruct (negb _); [apply wp_ret; exists v; split; [done|right; split; [lia|done]]|]); [apply wp_ret; exists v; by split_and!|].
  apply wp_bind. eapply wp_tcp_rd; [done|]. intros x w1 l1 H1. destruct (Z.eqb_spec (Z.land x mask) expected) as [E|E].
  - apply wp_ret. eexists. split; [done|]. left. auto.
  - pose proof (HP v x Hv E) as Hv1. apply wp_bind.
    assert (Hgo : ∀ (stop : bool) w2, wp (if stop then xret (-2) else
      let! _ := sio (usleep watched TCP_POLL_SLEEP_US) in
      wait_bits_common watched fuel r off mask expected timeout abort (u32 (waited + TCP_POLL_SLEEP_US)))
      (waited_post P Q) (s, (w2, l1))).
    { intros [] w2; [apply wp_ret; eexists; split; [done|right; split; [lia|done]]|].
      apply wp_bind, wp_unlogged. intros [] w3. by eapply IH. }
    destruct abort; [apply wp_unlogged; intros stop w2; apply Hgo|apply wp_ret, (Hgo false)].
Qed.

(** *** The engine *)
Definition only_engine (v v' : View) : Prop := v' = v <| v_engine := v_engine v' |>.
Definition settled (e : Engine) : Prop := e = Unknown ∨ e = Halted ∨ e = Running.
Lemma only_engine_trans v v1 v2 : only_engine v v1 → only_engine v1 v2 → only_engine v v2.
Proof. unfold only_engine. intros -> ->. by destruct v. Qed.
Lemma only_engine_set v e : only_engine v (v <| v_engine := e |>).
Proof. by destruct v. Qed.
Lemma only_engine_same v : only_engine v v.
Proof. by destruct v. Qed.
Lemma only_engine_rd v off x : only_engine v (see v (Rd Dma off x)).
Proof. cbn [see]. case_match; [|case_match]; [apply only_engine_set|apply only_engine_same|apply only_engine_set]. Qed.
Lemma clear_land x mask : Z.land x mask = 0 ↔ any x mask = false.
Proof. unfold any. rewrite negb_false_iff. by rewrite Z.eqb_eq. Qed.

Definition engine_post (v : View) (r : exit + Z) (st : St) : Prop :=
  ∃ v', known v' st.2.2 ∧ only_engine v v' ∧
    match r with inl e => e = OutOfFuel | inr rc => rc = 0 → v_engine v' = Halted end.
Lemma engine_post_weaken v v1 r st : only_engine v v1 → engine_post v1 r st → engine_post v r st.
Proof. intros Hv (v'&?&?&?). exists v'. split; [done|]. split; [by eapply only_engine_trans|done]. Qed.

(** Waiting for the reset bit of one channel. *)
Lemma wait_reset fuel off s w l v a b :
  off ≠ TCP_MM2S_DMASR → known v l → v_engine v = Resetting a b →
  wp (wait_bits_no_stop watched fuel Dma off TCP_DMA_CR_RESET_BIT 0 (tcp_timeout_us cfg))
    (waited_post (λ v', only_engine v v' ∧ v_engine v' = Resetting a b)
       (λ v', only_engine v v' ∧ v_engine v' = see_reset (off =? TCP_MM2S_DMACR) (off =? TCP_S2MM_DMACR) (Resetting a b)))
    (s, (w, l)).
Proof.
  intros Hoff Hl Hv. eapply wait_spec; [| |done|by split; [apply only_engine_same|]].
  - intros v1 x [Ho He] Hx. replace (see v1 (Rd Dma off x)) with v1; [by split|].
    cbn [see]. replace (off =? TCP_MM2S_DMASR) with false by lia. rewrite clear_land in Hx. by destruct (any _ _).
  - intros v1 x [Ho He] Hx%clear_land. split; [eapply only_engine_trans; [done|apply only_engine_rd]|].
    cbn [see]. replace (off =? TCP_MM2S_DMASR) with false by lia. rewrite Hx.
    change (v_engine (v1 <| v_engine ::= see_reset (off =? TCP_MM2S_DMACR) (off =? TCP_S2MM_DMACR) |>))
      with (see_reset (off =? TCP_MM2S_DMACR) (off =? TCP_S2MM_DMACR) (v_engine v1)). by rewrite He.
Qed.
Lemma reset_spec fuel s w l v : known v l → wp (tcp_reset_dma_mapped watched fuel cfg) (engine_post v) (s, (w, l)).
Proof.
  intros Hl. unfold tcp_reset_dma_mapped.
  apply wp_bind. eapply wp_tcp_rd; [done|]. intros x w1 l1 H1. apply wp_bind. eapply wp_tcp_rd; [done|]. intros y w2 l2 H2.
  set (v2 := see (see v (Rd Dma TCP_MM2S_DMACR x)) (Rd Dma TCP_S2MM_DMACR y)) in *.
  assert (Hv2 : only_engine v v2) by (eapply only_engine_trans; apply only_engine_rd). clearbody v2.
  eapply wp_mono; [|intros r st; by apply engine_post_weaken]. clear Hv2 Hl H1 v.
  destruct (any _ _); [apply wp_ret; eexists; split; [done|]; split; [apply only_engine_same|done]|].
  apply wp_bind. eapply wp_tcp_wr; [done|reflexivity|]. intros w3 l3 H3.
  change (known (v2 <| v_engine := Resetting false false |>) l3) in H3.
  eapply wp_mono; [|intros r st; apply (engine_post_weaken v2 _ _ _ (only_engine_set v2 (Resetting false false)))].
  set (v3 := v2 <| v_engine := Resetting false false |>) in *. assert (E3 : v_engine v3 = Resetting false false) by done. clearbody v3.
  apply wp_xbind. eapply wp_mono; [by eapply wait_reset|]. intros r [s4 [w4 l4]] (v4&H4&Hr). cbn [fst snd] in *.
  destruct r as [e|rc]; [destruct Hr as (->&Ho&_); exists v4; by split_and!|].
  assert (Hb : ∃ b, only_engine v3 v4 ∧ v_engine v4 = Resetting b false ∧ (rc = 0 → b = true)).
  { destruct Hr as [[-> [Ho E]]|[? [Ho E]]]; [exists true|exists false]; split_and!; try done. lia. }
  destruct Hb as (b&Ho&E4&Hb). eapply wp_mono; [|intros r st; by apply engine_post_weaken]. clear Hr E3 H3 Ho.
  apply wp_xbind. eapply wp_mono; [by eapply wait_reset|]. intros r [s5 [w5 l5]] (v5&H5&Hr). cbn [fst snd] in *.
  destruct r as [e|rc2]; [destruct Hr as (->&Ho&_); exists v5; by split_and!|]. apply wp_ret. exists v5. split; [done|].
  destruct Hr as [[-> [Ho E]]|[? [Ho E]]]; (split; [done|]).
  - rewrite E. destruct (Z.eqb_spec rc 0) as [->|]; [|done]. by rewrite Hb.
  - replace (rc2 =? 0) with false by lia. by rewrite andb_false_r.
Qed.
(** Reading the status of an engine that is settled tells whether it is halted. *)
Definition stays_settled (v v' : View) : Prop := only_engine v v' ∧ (settled (v_engine v) → settled (v_engine v')).
Lemma see_rd v off x : v_engine (see v (Rd Dma off x)) =
  if off =? TCP_MM2S_DMASR then see_dmasr x (v_engine v)
  else if any x TCP_DMA_CR_RESET_BIT then v_engine v
  else see_reset (off =? TCP_MM2S_DMACR) (off =? TCP_S2MM_DMACR) (v_engine v).
Proof. cbn [see]. case_match; [done|]. by case_match. Qed.
Lemma rd_settled v off x : stays_settled v (see v (Rd Dma off x)).
Proof.
  split; [apply only_engine_rd|]. rewrite see_rd. unfold settled. intros [E|[E|E]]; rewrite E;
    repeat (cbn [see_dmasr see_reset]; case_match); auto.
Qed.
Lemma stays_settled_trans v v1 v2 : stays_settled v v1 → stays_settled v1 v2 → stays_settled v v2.
Proof. intros [H1 H2] [H3 H4]. split; [by eapply only_engine_trans|auto]. Qed.
Lemma rd_halted v x :
  any x TCP_DMA_SR_HALTED = true → settled (v_engine v) → v_engine (see v (Rd Dma TCP_MM2S_DMASR x)) = Halted.
Proof. intros Hx [E|[E|E]]; rewrite see_rd, E; cbn; by rewrite Hx. Qed.

(** An engine that has only just been started may not have left the halt yet: what it shows then says nothing. *)
Definition halted_post (v : View) (r : exit + Z) (st : St) : Prop :=
  ∃ v', known v' st.2.2 ∧ only_engine v v' ∧
    match r with inl e => e = OutOfFuel | inr rc => rc = 0 → settled (v_engine v) → v_engine v' = Halted end.
Lemma halted_weaken v v1 r st : stays_settled v v1 → halted_post v1 r st → halted_post v r st.
Proof.
  intros [Hv Hs] (v'&?&?&Hr). exists v'. split; [done|]. split; [by eapply only_engine_trans|]. destruct r; auto.
Qed.
Lemma bind_rd_halted off (m : Z → Eff St (exit + Z)) s w l v :
  known v l → (∀ x w' l' v1, known v1 l' → v1 = see v (Rd Dma off x) → wp (m x) (halted_post v1) (s, (w', l'))) →
  wp (ebind (rd watched Dma off) m) (halted_post v) (s, (w, l)).
Proof.
  intros Hl Hm. apply wp_bind. eapply wp_tcp_rd; [done|]. intros x w1 l1 H1. eapply wp_mono; [by apply Hm|].
  intros r st. apply halted_weaken, rd_settled.
Qed.
Lemma halt_spec fuel s w l v : known v l → wp (tcp_halt_mm2s_mapped watched fuel cfg) (halted_post v) (s, (w, l)).
Proof.
  intros Hl. unfold tcp_halt_mm2s_mapped. apply bind_rd_halted; [done|]. clear l Hl w. intros c w l v1 Hl _. clear v. rename v1 into v.
  apply wp_bind. eapply wp_tcp_rd; [done|]. intros x w2 l2 H2.
  destruct (any c TCP_DMA_CR_RESET_BIT) eqn:Ec; [apply wp_ret; eexists; split; [done|]; split; [apply only_engine_rd|done]|].
  destruct (any x TCP_DMA_SR_HALTED) eqn:Ex.
  { apply wp_ret. eexists. split; [done|]. split; [apply only_engine_rd|]. intros _ Hv. by apply rd_halted. }
  eapply wp_mono; [|intros r st; apply halted_weaken, (rd_settled v TCP_MM2S_DMASR x)].
  generalize dependent (see v (Rd Dma TCP_MM2S_DMASR x)). clear v Hl. intros v H2.
  assert (Hr : any (Z.land c (UINT32_MAX - TCP_DMA_CR_RS_BIT)) TCP_DMA_CR_RESET_BIT = false).
  { unfold any in *. rewrite <-Z.land_assoc. exact Ec. }
  assert (Hs : any (Z.land c (UINT32_MAX - TCP_DMA_CR_RS_BIT)) TCP_DMA_CR_RS_BIT = false).
  { unfold any. rewrite <-Z.land_assoc. change (Z.land (UINT32_MAX - TCP_DMA_CR_RS_BIT) TCP_DMA_CR_RS_BIT) with 0. by rewrite Z.land_0_r. }
  apply wp_bind. eapply wp_tcp_wr; [done|cbn; by rewrite Hr, Hs|]. intros w3 l3 H3. cbn in H3. rewrite Hr, Hs in H3.
  apply wp_xbind. eapply wp_mono.
  - eapply (wait_spec (stays_settled v) (λ v', only_engine v v' ∧ (settled (v_engine v) → v_engine v' = Halted))); [| |exact H3|].
    + intros v1 y Hv1 _. eapply stays_settled_trans, rd_settled. done.
    + intros v1 y [Ho Hv1] Hy. split; [eapply only_engine_trans, only_engine_rd; done|]. intros Hv. apply rd_halted; [|auto].
      unfold any. by rewrite Hy.
    + split; [apply only_engine_same|done].
  - intros r [s4 [w4 l4]] (v4&H4&Hr4). cbn [fst snd] in *. destruct r as [e|rc].
    { destruct Hr4 as [-> [Ho _]]. exists v4. by split_and!. }
    apply wp_ret. exists v4. split; [done|]. destruct Hr4 as [[-> [Ho Hh]]|[? [Ho _]]]; (split; [done|]); [by intros _|].
    replace (rc =? 0) with false by lia. done.
Qed.

(** Preparing and cleaning up. *)
Lemma reset_or_halt_spec (b : bool) fuel s w l v :
  known v l → wp (if b then tcp_reset_dma_mapped watched fuel cfg else tcp_halt_mm2s_mapped watched fuel cfg) (halted_post v) (s, (w, l)).
Proof.
  intros Hl. destruct b; [|by apply halt_spec]. eapply wp_mono; [by apply reset_spec|].
  intros r st (v'&?&?&Hr). exists v'. split; [done|]. split; [done|]. destruct r; auto.
Qed.
Lemma prepare_mm2s_spec fuel s w l v : known v l → wp (tcp_prepare_mm2s_mapped watched fuel cfg) (halted_post v) (s, (w, l)).
Proof.
  intros Hl. unfold tcp_prepare_mm2s_mapped.
  do 3 (apply bind_rd_halted; [done|]; clear w l Hl; intros ? w l v1 Hl _; clear v; rename v1 into v).
  destruct (any _ _); [apply wp_ret; eexists; split; [done|]; split; [apply only_engine_same|done]|].
  apply wp_xbind. eapply wp_mono; [by apply reset_or_halt_spec|]. intros [e|rc] [s4 [w4 l4]] (v4&H4&Ho&Hr); [by exists v4|]. cbn [fst snd] in *.
  destruct (Z.eqb_spec rc 0) as [->|]; cbn [negb]; [|apply wp_ret; exists v4; by split_and!].
  apply wp_bind. eapply wp_tcp_wr; [done|reflexivity|]. intros w5 l5 H5. apply wp_ret. exists v4. by split_and!.
Qed.
Lemma cleanup_spec fuel s w l v : known v l → wp (tcp_cleanup_mm2s_mapped watched fuel cfg) (halted_post v) (s, (w, l)).
Proof.
  intros Hl. unfold tcp_cleanup_mm2s_mapped. apply bind_rd_halted; [done|]. intros. by apply reset_or_halt_spec.
Qed.

(** *** The descriptors *)
Record in_range : Prop := {
  ir_bytes : 0 < transfer_bytes cfg <= TCP_MAX_BYTES_PER_DESC * DMA_DESC_COUNT_MAX;
  ir_addr : 0 <= ddr_dma_base cfg ∧ ddr_dma_base cfg + transfer_bytes cfg <= UINT64_MAX }.
#[local] Abbreviation n := (tcp_desc_count cfg).
Lemma desc_count_spec : in_range →
  0 < n <= DMA_DESC_COUNT_MAX ∧ (n - 1) * TCP_MAX_BYTES_PER_DESC < transfer_bytes cfg <= n * TCP_MAX_BYTES_PER_DESC.
Proof.
  intros [Hb _]. unfold tcp_desc_count.
  change DMA_DESC_COUNT_MAX with 128 in *. unfold TCP_MAX_BYTES_PER_DESC in *. rewrite u64_small by cint.
  pose proof (Z.div_mod (transfer_bytes cfg + 16 * 1024 * 1024 - 1) (16 * 1024 * 1024) ltac:(lia)).
  pose proof (Z.mod_pos_bound (transfer_bytes cfg + 16 * 1024 * 1024 - 1) (16 * 1024 * 1024) ltac:(lia)).
  rewrite u32_small by cint. lia.
Qed.
Lemma chunk_spec i : in_range → 0 <= i < n →
  0 < planned_chunk cfg i <= TCP_MAX_BYTES_PER_DESC ∧
  (tcp_desc cfg n i (transfer_bytes cfg - i * TCP_MAX_BYTES_PER_DESC) (ddr_dma_base cfg + i * TCP_MAX_BYTES_PER_DESC)).1 = planned_chunk cfg i ∧
  (i < n - 1 → planned_chunk cfg i = TCP_MAX_BYTES_PER_DESC).
Proof.
  intros Hr Hi. destruct (desc_count_spec Hr) as [Hn Hb]. destruct Hr as [Hr _]. change DMA_DESC_COUNT_MAX with 128 in *.
  unfold planned_chunk, tcp_desc, TCP_MAX_BYTES_PER_DESC in *. cbn [fst]. split; [lia|]. split; [|lia].
  case_match; [lia|]. rewrite u32_small by cint. lia.
Qed.
Definition idle_engine (v : View) : Prop := v_engine v ≠ Starting ∧ v_engine v ≠ Running.
Lemma prepare_from_spec rest i s w l v :
  in_range → i = n - Z.of_nat rest → (Z.of_nat rest <= n) → idle_engine v → v_table v = planned_desc cfg <$> seqZ 0 i → known v l →
  wp (prepare_from watched rest cfg n i (transfer_bytes cfg - Z.min (i * TCP_MAX_BYTES_PER_DESC) (transfer_bytes cfg))
        (ddr_dma_base cfg + Z.min (i * TCP_MAX_BYTES_PER_DESC) (transfer_bytes cfg)))
    (λ _ st, known (v <| v_table := planned cfg |>) st.2.2) (s, (w, l)).
Proof.
  intros Hr. revert i s w l v; induction rest as [|rest IH]; intros i s w l v Hi Hle He Ht Hl.
  - apply wp_ret. replace i with n in Ht by lia. unfold planned. rewrite <-Ht. by destruct v.
  - cbn [prepare_from]. destruct (desc_count_spec Hr) as [Hn Hb]. assert (Hin : 0 <= i < n) by lia.
    assert (Hlow : i * TCP_MAX_BYTES_PER_DESC < transfer_bytes cfg) by (unfold TCP_MAX_BYTES_PER_DESC in *; lia).
    replace (Z.min (i * TCP_MAX_BYTES_PER_DESC) (transfer_bytes cfg)) with (i * TCP_MAX_BYTES_PER_DESC) by lia.
    destruct (chunk_spec i Hr Hin) as (Hc&Hc'&_). destruct (tcp_desc _ _ _ _ _) as [chunk d] eqn:Ed. cbn [fst] in Hc'. subst chunk.
    assert (Hd : d = planned_desc cfg i) by (unfold planned_desc; by rewrite Ed). subst d.
    apply wp_bind, wp_logged. intros [] w1.
    assert (H1 : known (see v (Put i (planned_desc cfg i))) (l ++ [Put i (planned_desc cfg i)])).
    { apply known_next; [done|]. cbn. rewrite bool_decide_true by exact He. rewrite Ht, length_fmap, length_seqZ. lia. }
    destruct Hr as [Hr1 Hr2]. change DMA_DESC_COUNT_MAX with 128 in *. unfold planned_chunk, TCP_MAX_BYTES_PER_DESC in *.
    rewrite !u64_small by cint.
    match goal with |- wp (prepare_from _ _ _ _ _ ?a ?b) _ _ =>
      replace a with (transfer_bytes cfg - Z.min ((i + 1) * (16 * 1024 * 1024)) (transfer_bytes cfg)) by lia;
      replace b with (ddr_dma_base cfg + Z.min ((i + 1) * (16 * 1024 * 1024)) (transfer_bytes cfg)) by lia end.
    eapply wp_mono; [apply (IH (i + 1) s w1 _ (see v (Put i (planned_desc cfg i)))); [lia|lia|exact He| |exact H1]|].
    + change (v_table (see v (Put i (planned_desc cfg i)))) with (v_table v ++ [planned_desc cfg i]).
      by rewrite Ht, seqZ_app, fmap_app by lia.
    + by intros [] st.
Qed.

(** *** The switch *)
Definition routed (v : View) : View :=
  v <| v_mux := Some (Z.land (switch_input_select cfg) 0x0F) |> <| v_asked := true |> <| v_routed := true |>.
Definition asked (v : View) : View :=
  v <| v_mux := Some (Z.land (switch_input_select cfg) 0x0F) |> <| v_asked := true |> <| v_routed := false |>.
Lemma route_spec fuel s w l v : known v l →
  wp (tcp_route_switch watched fuel cfg) (λ r st, ∃ v', known v' st.2.2 ∧
    match r with inl e => e = OutOfFuel | inr rc => rc = 0 → v' = routed v end) (s, (w, l)).
Proof.
  intros Hl. unfold tcp_route_switch. apply wp_bind. eapply wp_tcp_wr; [done|done|]. intros w1 l1 H1.
  apply wp_bind. eapply wp_tcp_wr; [done|done|]. intros w2 l2 H2.
  change (known (asked v) l2) in H2. eapply wp_mono.
  - eapply (wait_spec (λ v', v' = asked v) (λ v', v' = routed v)); [| |exact H2|done].
    + intros v1 x -> Hx. cbn. destruct (any x TCP_AXIS_SWITCH_UPDATE) eqn:E; [by destruct v|]. by apply clear_land in E.
    + intros v1 x -> Hx%clear_land. cbn. rewrite Hx. by destruct v.
  - intros r st (v'&H'&Hr). exists v'. split; [done|]. destruct r; [by destruct Hr|]. destruct Hr as [[_ ->]|[? _]]; [done|lia].
Qed.

(** *** A send *)
(** The views of a send from the start of the engine on: [k] descriptors are known to be complete. *)
Definition sending (cur tail : option Z) (e : Engine) (k : Z) : View :=
  mkView (Some (Z.land (switch_input_select cfg) 0x0F)) true true (planned cfg) e cur tail k.
#[local] Abbreviation first := (Some (u32 (tcp_desc_dma_base cfg))).
#[local] Abbreviation tail := (Some (tcp_tail_address cfg n)).
Definition fed (k : Z) (v : View) : Prop := ∃ e, settled e ∧ v = sending first tail e k.
(** An early end: fuel, or a return code that is not 0. *)
Definition early (e : exit) : Prop := e ≠ GoOut 0.

Lemma prepare_engine_spec fuel s w : in_range →
  wp (prepare_engine watched fuel cfg) (λ r st, ∃ v', known v' st.2.2 ∧
    match r with inl e => early e | inr m => m = n ∧ v' = sending None None Halted 0 end) (s, (w, [])).
Proof.
  intros Hr. unfold prepare_engine. assert (H0 : known unseen []) by done.
  apply wp_xbind. eapply wp_mono; [by apply route_spec|]. intros [e|rc] [s1 [w1 l1]] (v1&H1&E1); cbn [fst snd] in *; [by subst e; exists v1|].
  destruct (Z.eqb_spec rc 0) as [->|]; cbn [negb]; [|apply wp_ret; by exists v1]. rewrite (E1 eq_refl) in H1. clear E1 v1.
  destruct (desc_count_spec Hr) as [Hn _].
  apply wp_bind. unfold tcp_prepare_desc. apply wp_bind.
  pose proof (prepare_from_spec (Z.to_nat n) 0 s1 w1 l1 (routed unseen) Hr ltac:(lia) ltac:(lia) ltac:(done) eq_refl H1) as Hp.
  rewrite Z.mul_0_l, Z.min_l, Z.sub_0_r, Z.add_0_r in Hp by (destruct Hr as [[? _] _]; lia).
  eapply wp_mono; [exact Hp|]. intros [] [s2 [w2 l2]] H2. cbn [fst snd] in *. apply wp_ret.
  apply wp_xbind. eapply wp_mono; [by apply prepare_mm2s_spec|]. intros [e|rc] [s3 [w3 l3]] (v3&H3&Ho&E3); cbn [fst snd] in *; [by subst e; exists v3|].
  destruct (Z.eqb_spec rc 0) as [->|]; cbn [negb]; apply wp_ret; exists v3; (split; [done|]); [|done]. split; [done|].
  rewrite Ho, E3; [done|done|by left].
Qed.
Lemma start_spec s w l : known (sending None None Halted 0) l →
  wp (start_engine watched cfg) (λ _ st, known (sending first None Starting 0) st.2.2) (s, (w, l)).
Proof.
  intros Hl. unfold start_engine. apply wp_bind. eapply wp_tcp_wr; [done|done|]. intros w1 l1 H1.
  apply wp_bind. eapply wp_tcp_wr; [done|done|]. intros w2 l2 H2. eapply wp_tcp_wr; [done| |by intros w3 l3 H3].
  change (see (see (sending None None Halted 0) (Wr Dma TCP_MM2S_CURDESC (u32 (tcp_desc_dma_base cfg)))) (Wr Dma TCP_MM2S_CURDESC_MSB 0))
    with (sending first None Halted 0). cbn. by rewrite bool_decide_true.
Qed.
Lemma feed_spec fuel s w l : known (sending first None Starting 0) l →
  wp (feed_engine watched fuel cfg n) (λ r st, ∃ v', known v' st.2.2 ∧
    match r with inl e => early e | inr _ => fed 0 v' end) (s, (w, l)).
Proof.
  intros Hl. unfold feed_engine. apply wp_xbind. eapply wp_mono.
  - eapply (wait_spec (λ v', v' = sending first None Starting 0) (λ v', v' = sending first None Running 0)); [| |exact Hl|done].
    + intros v1 x -> Hx. cbn. destruct (any x TCP_DMA_SR_HALTED) eqn:E; [done|]. by apply clear_land in E.
    + intros v1 x -> Hx%clear_land. cbn. by rewrite Hx.
  - intros [e|rc] [s1 [w1 l1]] (v'&H1&Hr); cbn [fst snd] in *; [destruct Hr as [-> _]; by exists v'|].
    destruct (Z.eqb_spec rc 0) as [->|]; cbn [negb]; [|apply wp_ret; by exists v'].
    destruct Hr as [[_ ->]|[? _]]; [|lia].
    apply wp_bind. eapply wp_tcp_wr; [done|cbn; by rewrite bool_decide_true, Z.eqb_refl|]. intros w2 l2 H2.
    apply wp_bind. eapply wp_tcp_wr; [done|done|]. intros w3 l3 H3. apply wp_ret. eexists. split; [done|].
    exists Running. split; [by right; right|done].
Qed.
Lemma fed_rd k v off x : fed k v → fed k (see v (Rd Dma off x)).
Proof.
  intros (e&He&->). pose proof (rd_settled (sending first tail e k) off x) as [Ho Hs]. rewrite Ho.
  eexists. split; [by apply Hs|done].
Qed.
Lemma completion_spec fuel poll k idle s w l v :
  in_range → 0 <= k <= n → fed k v → known v l →
  wp (completion_loop watched fuel cfg n poll k (k mod n) idle) (λ r st, ∃ v', known v' st.2.2 ∧
    match r with inl e => early e | inr rc => rc = 0 ∧ fed n v' end) (s, (w, l)).
Proof.
  intros Hr. destruct (desc_count_spec Hr) as [Hn _]. change DMA_DESC_COUNT_MAX with 128 in Hn.
  revert k idle s w l v; induction fuel as [|fuel IH]; intros k idle s w l v Hk Hv Hl; cbn [completion_loop];
    (destruct (Z.ltb_spec k n); cbn [negb]; [|apply wp_ret; exists v; split; [done|]; by replace n with k by lia]); [by apply wp_ret; exists v|].
  apply wp_bind, wp_unlogged. intros stop w1. destruct stop; [apply wp_ret; by exists v|].
  rewrite Z.mod_small by lia. apply wp_bind, wp_logged. intros x w2.
  assert (H2 : known (see v (Sts k x)) (l ++ [Sts k x])).
  { apply known_next; [done|]. destruct Hv as (e&_&->). cbn. rewrite Z.eqb_refl. by rewrite orb_true_r. }
  cbn [see] in H2. destruct (any x TCP_DESC_STS_CMPLT).
  - apply wp_bind, wp_logged. intros [] w3. rewrite !u32_small by cint. eapply IH; [lia| |by apply known_next].
    destruct Hv as (e&He&->). by exists e.
  - clear Hl. generalize dependent (l ++ [Sts k x]). clear l. intros l2 H2. apply wp_bind.
    eapply (wp_mono _ (λ _ (st : St), ∃ v', known v' st.2.2 ∧ fed k v')).
    { destruct poll; [|apply wp_ret; by exists v]. apply wp_bind. eapply wp_tcp_rd; [done|]. intros y w4 l4 H4. apply wp_ret.
      eexists. split; [done|]. by apply fed_rd. }
    intros bad [s5 [w5 l5]] (v5&H5&Hv5). cbn [fst snd] in *. destruct bad; [apply wp_ret; by exists v5|].
    apply wp_bind, wp_unlogged. intros [] w6. destruct (_ <=? _); [apply wp_ret; by exists v5|].
    rewrite <-(Z.mod_small k n) at 2 by lia. by eapply IH.
Qed.
Lemma run_spec fuel poll s w l : in_range → known (sending None None Halted 0) l →
  wp (run_engine watched fuel cfg n poll) (λ r st, ∃ v', known v' st.2.2 ∧
    match r with inl e => early e | inr rc => rc = 0 → v' = sending first tail Halted n end) (s, (w, l)).
Proof.
  intros Hr Hl. unfold run_engine. apply wp_bind. eapply wp_mono; [by apply start_spec|]. intros [] [s1 [w1 l1]] H1. cbn [fst snd] in H1.
  apply wp_bind. eapply (wp_mono _ (λ r (st : St), ∃ v', known v' st.2.2 ∧
    match r with inl e => early e | inr rc => rc = 0 ∧ fed n v' end)).
  { apply wp_xbind. eapply wp_mono; [by apply feed_spec|]. intros [e|[]] [s2 [w2 l2]] (v2&H2&E2); [by exists v2|].
    apply (completion_spec fuel poll 0 0 s2 w2 l2 v2 Hr); [|done..]. destruct (desc_count_spec Hr); lia. }
  intros r [s2 [w2 l2]] (v2&H2&E2). cbn [fst snd] in *.
  destruct r as [[rc|]|rc]; [| by exists v2|]; (apply wp_xbind; eapply wp_mono; [by apply cleanup_spec|];
    intros [e|crc] [s3 [w3 l3]] (v3&H3&Ho&E3); cbn [fst snd] in *; [by subst e; exists v3|]; apply wp_ret; exists v3; split; [done|]).
  - intros H. case_match; [done|]. subst rc. by destruct E2.
  - destruct E2 as [-> (e&He&->)]. rewrite Z.eqb_refl, andb_true_r. destruct (Z.eqb_spec crc 0) as [->|]; [|done].
    intros _. rewrite Ho, E3; done.
Qed.
End Observed.

(** ** What the chain covers *)
Definition length_mask : Z := Z.ones 26.
Definition segment (d : DmaSgDesc) : Z * Z := (buffer_addr d, Z.land (control d) length_mask).
(** The segments are not empty, no larger than a descriptor may describe, and follow each other from [a] to [b]. *)
Fixpoint covers (a : Z) (l : list (Z * Z)) (b : Z) : Prop :=
  match l with
  | [] => a = b
  | (x, len) :: l => x = a ∧ 0 < len <= TCP_MAX_BYTES_PER_DESC ∧ covers (a + len) l b
  end.
(** A closed chain; the frame begins with its first descriptor and ends with its last. *)
Definition chained (cfg : TcpTransferConfig) (t : list DmaSgDesc) : Prop :=
  ∀ i d, t !! i = Some d →
    next_desc d = tcp_desc_dma_base cfg + (Z.of_nat i + 1) mod Z.of_nat (length t) * DMA_DESC_ENTRY_BYTES ∧
    (any (control d) TCP_DESC_CTRL_SOF = true ↔ i = O) ∧ (any (control d) TCP_DESC_CTRL_EOF = true ↔ S i = length t).

Lemma land_high c m : 0 <= c < 2 ^ 26 → Z.land (Z.ones 26) m = 0 → Z.land c m = 0.
Proof.
  intros Hc Hm. rewrite <-(Z.mod_small c (2 ^ 26)), <-Z.land_ones, <-Z.land_assoc, Hm by lia. apply Z.land_0_r.
Qed.
Lemma control_bits c (sof eof : bool) : 0 <= c < 2 ^ 26 →
  let x := (if eof then Z.lor (if sof then Z.lor c TCP_DESC_CTRL_SOF else c) TCP_DESC_CTRL_EOF
            else if sof then Z.lor c TCP_DESC_CTRL_SOF else c) in
  Z.land x length_mask = c ∧ any x TCP_DESC_CTRL_SOF = sof ∧ any x TCP_DESC_CTRL_EOF = eof.
Proof.
  intros Hc x. assert (H0 : Z.land c length_mask = c) by (unfold length_mask; rewrite Z.land_ones by lia; by apply Z.mod_small).
  assert (H1 : Z.land c TCP_DESC_CTRL_SOF = 0) by (by apply land_high). assert (H2 : Z.land c TCP_DESC_CTRL_EOF = 0) by (by apply land_high).
  unfold any, x. destruct sof, eof; rewrite ?Z.land_lor_distr_l, ?H0, ?H1, ?H2; (split; [|by split]); cbn; by rewrite ?Z.lor_0_r.
Qed.

Section Cover.
Context (cfg : TcpTransferConfig) (Hr : in_range cfg).
Context (H32 : ddr_dma_base cfg + transfer_bytes cfg <= UINT32_MAX + 1).
Context (Hd : 0 <= tcp_desc_dma_base cfg ∧ tcp_desc_dma_base cfg + DMA_DESC_BRAM_BYTES <= UINT32_MAX + 1).
#[local] Abbreviation n := (tcp_desc_count cfg).
#[local] Set Default Proof Using "Hr H32 Hd".

Lemma planned_desc_spec i : 0 <= i < n →
  segment (planned_desc cfg i) = (ddr_dma_base cfg + i * TCP_MAX_BYTES_PER_DESC, planned_chunk cfg i) ∧
  next_desc (planned_desc cfg i) = tcp_desc_dma_base cfg + (i + 1) mod n * DMA_DESC_ENTRY_BYTES ∧
  any (control (planned_desc cfg i)) TCP_DESC_CTRL_SOF = (i =? 0) ∧ any (control (planned_desc cfg i)) TCP_DESC_CTRL_EOF = (i =? n - 1).
Proof.
  intros Hi. destruct (chunk_spec cfg i Hr Hi) as (Hc&Ec&_). destruct (desc_count_spec cfg Hr) as [Hn Hb].
  change DMA_DESC_COUNT_MAX with 128 in Hn. change DMA_DESC_BRAM_BYTES with 8192 in Hd.
  unfold planned_desc, segment. unfold tcp_desc in *. cbn [fst snd] in *. rewrite Ec.
  assert (Hc26 : 0 <= planned_chunk cfg i < 2 ^ 26) by (unfold TCP_MAX_BYTES_PER_DESC in Hc; lia).
  destruct (control_bits (planned_chunk cfg i) (i =? 0) (i =? n - 1) Hc26) as (E1&E2&E3). cbv zeta in E1, E2, E3.
  cbn [buffer_addr control next_desc]. split; [|split; [|by split]].
  - f_equal; [|exact E1]. assert (Hlow : i * TCP_MAX_BYTES_PER_DESC < transfer_bytes cfg) by (unfold planned_chunk in Hc; lia).
    destruct Hr as [_ ?]. unfold TCP_MAX_BYTES_PER_DESC in *. apply u32_small. cint.
  - rewrite (u32_small (i + 1)) by cint. pose proof (Z.mod_pos_bound (i + 1) n ltac:(lia)). change DMA_DESC_ENTRY_BYTES with 64.
    apply u32_small. cint.
Qed.
Lemma planned_covers : covers (ddr_dma_base cfg) (segment <$> planned cfg) (ddr_dma_base cfg + transfer_bytes cfg).
Proof.
  destruct (desc_count_spec cfg Hr) as [Hn Hb].
  assert (H : ∀ m i, 0 <= i → i + Z.of_nat m = n →
    covers (ddr_dma_base cfg + Z.min (i * TCP_MAX_BYTES_PER_DESC) (transfer_bytes cfg)) (segment <$> (planned_desc cfg <$> seqZ i (Z.of_nat m)))
      (ddr_dma_base cfg + transfer_bytes cfg)).
  { induction m as [|m IH]; intros i Hi Hm.
    - change (ddr_dma_base cfg + Z.min (i * TCP_MAX_BYTES_PER_DESC) (transfer_bytes cfg) = ddr_dma_base cfg + transfer_bytes cfg).
      assert (i = n) as -> by lia. lia.
    - rewrite seqZ_cons by lia. cbn [fmap list_fmap]. destruct (planned_desc_spec i ltac:(lia)) as (E&_). rewrite E.
      destruct (chunk_spec cfg i Hr ltac:(lia)) as (Hc&_&_). cbn [covers].
      assert (Hlow : i * TCP_MAX_BYTES_PER_DESC < transfer_bytes cfg) by (unfold TCP_MAX_BYTES_PER_DESC in *; lia).
      split; [lia|]. split; [done|]. replace (Z.pred (Z.of_nat (S m))) with (Z.of_nat m) by lia.
      replace (ddr_dma_base cfg + _ + _) with (ddr_dma_base cfg + Z.min (Z.succ i * TCP_MAX_BYTES_PER_DESC) (transfer_bytes cfg))
        by (unfold planned_chunk in *; unfold TCP_MAX_BYTES_PER_DESC in *; lia). apply IH; lia. }
  specialize (H (Z.to_nat n) 0 ltac:(lia) ltac:(lia)). rewrite Z2Nat.id in H by lia.
  rewrite Z.mul_0_l, Z.min_l, Z.add_0_r in H by (destruct Hr; lia). exact H.
Qed.
Lemma planned_chained : chained cfg (planned cfg).
Proof.
  destruct (desc_count_spec cfg Hr) as [Hn _]. assert (El : length (planned cfg) = Z.to_nat n) by (unfold planned; by rewrite length_fmap, length_seqZ).
  intros i d Hi. unfold planned in Hi. rewrite list_lookup_fmap, fmap_Some in Hi. destruct Hi as (j&Hj&->).
  apply lookup_seqZ in Hj as [-> Hj]. rewrite El, Z2Nat.id by lia. rewrite Z.add_0_l. destruct (planned_desc_spec (Z.of_nat i) ltac:(lia)) as (_&E1&E2&E3).
  rewrite E1, E2, E3, !Z.eqb_eq. split; [done|]. lia.
Qed.
End Cover.

(** C21: Sending a range over the network, whatever the switch, the engine, the descriptor memory and the stop flag show
    and wherever it stops: no rule of the engine is ever broken (its descriptors are written before it is started, its
    position is set while it is known to be halted, it is started on the finished chain and with the switch known to be
    routed as configured, it is fed once, while it is known to run).  A send that returns 0 has written a closed chain
    of descriptors which covers exactly the range, in order, as one frame; it has seen every descriptor complete, in
    order; and it leaves the engine known to be halted.  A dry run touches nothing. *)
Theorem tcp_send_exact {W} (hw : TcpHw W) fuel cfg s w :
  0 <= transfer_bytes cfg → 0 <= ddr_dma_base cfg → ddr_dma_base cfg + transfer_bytes cfg <= UINT32_MAX + 1 →
  0 <= tcp_desc_dma_base cfg → tcp_desc_dma_base cfg + DMA_DESC_BRAM_BYTES <= UINT32_MAX + 1 →
  let '(r, (_, (_, l))) := tcp_transfer_send (watched hw) fuel cfg (s, (w, [])) in
  ∃ v, follow cfg unseen l = Some v ∧ (tcp_dry_run cfg = true → l = []) ∧
    (r = Some 0 → tcp_dry_run cfg = false →
       v_mux v = Some (Z.land (switch_input_select cfg) 0x0F) ∧ v_routed v = true ∧
       covers (ddr_dma_base cfg) (segment <$> v_table v) (ddr_dma_base cfg + transfer_bytes cfg) ∧ chained cfg (v_table v) ∧
       v_cur v = Some (tcp_desc_dma_base cfg) ∧ v_done v = Z.of_nat (length (v_table v)) ∧ v_engine v = Halted).
Proof.
  intros Hb Ha H32 Hd Hd32. cut (wp (tcp_transfer_send (watched hw) fuel cfg) (λ r st, ∃ v, follow cfg unseen st.2.2 = Some v ∧
    (tcp_dry_run cfg = true → st.2.2 = []) ∧ (r = Some 0 → tcp_dry_run cfg = false →
       in_range cfg ∧ v = sending cfg (Some (u32 (tcp_desc_dma_base cfg))) (Some (tcp_tail_address cfg (tcp_desc_count cfg))) Halted (tcp_desc_count cfg)))
    (s, (w, []))).
  { unfold wp. destruct (tcp_transfer_send _ _ _ _) as [r [s' [w' l]]]. intros (v&H1&H2&H3). exists v. split; [exact H1|]. split; [exact H2|].
    intros Hr Hdry. destruct (H3 Hr Hdry) as [Hin ->]. destruct (desc_count_spec cfg Hin) as [Hn _]. change DMA_DESC_BRAM_BYTES with 8192 in *. cbn.
    split_and!; try done; [by apply planned_covers|by apply planned_chained|by rewrite u32_small by cint|].
    unfold planned. rewrite length_fmap, length_seqZ. lia. }
  assert (Hout : ∀ (r : option Z) s' w', r ≠ Some 0 → wp (eret r) (λ r (st : config_state * (W * list Ev)), ∃ v, follow cfg unseen st.2.2 = Some v ∧
    (tcp_dry_run cfg = true → st.2.2 = []) ∧ (r = Some 0 → tcp_dry_run cfg = false → in_range cfg ∧
      v = sending cfg (Some (u32 (tcp_desc_dma_base cfg))) (Some (tcp_tail_address cfg (tcp_desc_count cfg))) Halted (tcp_desc_count cfg)))
    (s', (w', []))).
  { intros r s' w' Hr. apply wp_ret. exists unseen. by split_and!. }
  unfold tcp_transfer_send. destruct (Z.eqb_spec (transfer_bytes cfg) 0); [by apply Hout|].
  destruct (Z.ltb_spec (TCP_MAX_BYTES_PER_DESC * DMA_DESC_COUNT_MAX) (transfer_bytes cfg)); [by apply Hout|].
  destruct (tcp_dry_run cfg) eqn:Hdry; [apply wp_ret; exists unseen; by split_and!|].
  apply wp_bind, wp_unlogged. intros stop w1. destruct stop; [by apply Hout|]. apply wp_bind.
  assert (Hin : in_range cfg) by (split; [lia|cint]). destruct (desc_count_spec cfg Hin) as [Hn _].
  replace (tcp_desc_count cfg =? 0) with false by lia. apply wp_unlogged. intros mapped w2. destruct mapped; cbn [negb]; [|by apply Hout].
  apply wp_bind. unfold ccb_cmd_config.configured. unfold wp at 1. destruct (tcp_env_flag_enabled _ s) as [poll s1]. cbn [fst snd].
  apply wp_bind. apply wp_xbind. eapply wp_mono; [by apply prepare_engine_spec|].
  intros [e|m] [s3 [w3 l3]] (v3&H3&E3); cbn [fst snd] in *.
  { apply wp_ret. exists v3. split_and!; [done|done|]. intros Hret. destruct e as [rc|]; [|done]. injection Hret as ->. done. }
  destruct E3 as [-> ->]. eapply wp_mono; [by apply run_spec|]. intros r [s4 [w4 l4]] (v4&H4&E4). cbn [fst snd] in *.
  apply wp_ret. exists v4. split_and!; [done|done|]. intros Hret _. split; [done|]. destruct r as [[rc|]|rc]; [|done|].
  - injection Hret as ->. done.
  - apply E4. by injection Hret.
Qed.

(** *** An engine that works at once *)
(** The world is whether the engine runs. *)
Definition example_hw : TcpHw bool :=
  mkHw (λ r off running, (match r with
      | Dma => if off =? TCP_MM2S_DMASR then (if (running : bool) then 0 else TCP_DMA_SR_HALTED) else 0
      | Switch => 0 end, running))
    (λ r off x running, (tt, match r with Dma => if off =? TCP_MM2S_DMACR then any x TCP_DMA_CR_RS_BIT else running | Switch => running end))
    (λ _ _, eret tt) (λ _, eret TCP_DESC_STS_CMPLT) (λ _, eret tt) (λ _, eret true) (eret false) (λ _, eret tt).
(** 33 MiB: three descriptors. *)
Definition example_config : TcpTransferConfig :=
  mkTcpConfig TCP_SWITCH_BASE_DEFAULT 2 TCP_DMA_BASE_DEFAULT TCP_DESC_CPU_BASE_DEFAULT 0x10000000 0x1000 (33 * 1024 * 1024) 1000 false.
Definition example_conf : config_state := mkConfigState ∅ [] [] None.
Definition example_send := tcp_transfer_send (watched example_hw) 10 example_config (example_conf, (false, [])).
Lemma tcp_send_exact_witness :
  example_send.1 = Some 0 ∧
  ∃ v, follow example_config unseen example_send.2.2.2 = Some v ∧ v_engine v = Halted ∧
    covers 0x1000 (segment <$> v_table v) (0x1000 + 33 * 1024 * 1024) ∧ v_done v = 3.
Proof.
  assert (H0 : example_send.1 = Some 0) by (vm_compute; reflexivity). split; [exact H0|].
  pose proof (tcp_send_exact example_hw 10 example_config example_conf false ltac:(vm_compute; congruence) ltac:(vm_compute; congruence)
    ltac:(vm_compute; congruence) ltac:(vm_compute; congruence) ltac:(vm_compute; congruence)) as H.
  fold example_send in H.
  assert (H3 : ∀ v, follow example_config unseen example_send.2.2.2 = Some v → length (v_table v) = 3%nat).
  { intros v Hv. assert (Hl : length <$> (v_table <$> follow example_config unseen example_send.2.2.2) = Some 3%nat) by (vm_compute; reflexivity).
    rewrite Hv in Hl. by injection Hl. }
  destruct example_send as [r [s [w l]]]. cbn [fst snd] in *. destruct H as (v&Hv&_&H). exists v.
  destruct (H H0 eq_refl) as (_&_&Hcov&_&_&Hdone&Hh). split_and!; try done. by rewrite Hdone, (H3 v Hv).
Defined.

(** ** Sending ends *)
Section Ends.
Context {W : Type} (hw : TcpHw W).
#[local] Abbreviation St := (config_state * W)%type.
(** A waiting loop whose timeout its counter can reach. *)
Definition waits (timeout_us : Z) : Prop := 0 <= timeout_us <= UINT32_MAX - TCP_POLL_SLEEP_US.
Definition rounds (timeout_us : Z) : Z := timeout_us / TCP_POLL_SLEEP_US + 2.

Definition comes_back {A} (r : exit + A) : Prop := r ≠ inl OutOfFuel.
Lemma wait_ends fuel r off mask expected timeout abort waited st :
  waits timeout → 0 <= waited → timeout <= waited + TCP_POLL_SLEEP_US * Z.of_nat fuel →
  wp (wait_bits_common hw fuel r off mask expected timeout abort waited) (λ r _, comes_back r) st.
Proof.
  intros Ht. revert waited st; induction fuel as [|fuel IH]; intros waited [s w] Hw Hf; cbn [wait_bits_common];
    (destruct (Z.ltb_spec waited timeout); cbn [negb]; [|by apply wp_ret]); [lia|].
  apply wp_bind, wp_sio_any. intros x w1. destruct (_ =? _); [by apply wp_ret|]. apply wp_bind.
  assert (Hgo : ∀ (stop : bool) w2, wp (if stop then xret (-2) else
      let! _ := sio (usleep hw TCP_POLL_SLEEP_US) in
      wait_bits_common hw fuel r off mask expected timeout abort (u32 (waited + TCP_POLL_SLEEP_US)))
      (λ r _, comes_back r) (s, w2)).
  { intros [] w2; [by apply wp_ret|]. apply wp_bind, wp_sio_any. intros [] w3. unfold waits, TCP_POLL_SLEEP_US in *.
    rewrite u32_small by cint. apply IH; lia. }
  destruct abort; [apply wp_sio_any; intros stop w2; apply Hgo|apply wp_ret, (Hgo false)].
Qed.
Definition enough (cfg : TcpTransferConfig) (fuel : nat) : Prop := rounds (tcp_timeout_us cfg) <= Z.of_nat fuel.
Lemma wait_enough cfg fuel r off mask expected abort st : waits (tcp_timeout_us cfg) → enough cfg fuel →
  wp (wait_bits_common hw fuel r off mask expected (tcp_timeout_us cfg) abort 0) (λ r _, comes_back r) st.
Proof.
  intros Hw Hf. apply wait_ends; [done|lia|]. unfold enough, rounds, TCP_POLL_SLEEP_US in *.
  pose proof (Z.div_mod (tcp_timeout_us cfg) 10 ltac:(lia)). pose proof (Z.mod_pos_bound (tcp_timeout_us cfg) 10 ltac:(lia)). lia.
Qed.
(** Anything built from steps that come back does. *)
Definition back {A} (m : Eff St (exit + A)) : Prop := ∀ st, wp m (λ r _, comes_back r) st.
Lemma back_bind {A B} (m : Eff St A) (k : A → Eff St (exit + B)) : (∀ a, back (k a)) → back (ebind m k).
Proof. intros Hk st. unfold wp, ebind. destruct (m st) as [a st']. apply Hk. Qed.
Lemma back_xbind {A B} (m : Eff St (exit + A)) (k : A → Eff St (exit + B)) : back m → (∀ a, back (k a)) → back (xbind m k).
Proof.
  intros Hm Hk st. apply wp_xbind. eapply wp_mono; [apply Hm|]. intros [e|a] st'; [|intros _; apply Hk].
  intros He [= ->]. by apply He.
Qed.
Lemma back_ret {A} (a : A) : back (xret a).
Proof. by intros st. Qed.
Lemma back_out {A} rc : back (@go_out W A rc).
Proof. by intros st. Qed.
Lemma back_if {A} (b : bool) (m1 m2 : Eff St (exit + A)) : back m1 → back m2 → back (if b then m1 else m2).
Proof. by destruct b. Qed.
Section Config.
Context (cfg : TcpTransferConfig) (fuel : nat) (Hw : waits (tcp_timeout_us cfg)) (Hf : enough cfg fuel).
#[local] Set Default Proof Using "Hw Hf".
Ltac back := repeat first [ apply back_ret | apply back_out | apply back_xbind; [|intros ?] | apply back_bind; intros ? | apply back_if ].
Lemma back_wait r off mask expected abort : back (wait_bits_common hw fuel r off mask expected (tcp_timeout_us cfg) abort 0).
Proof. intros st. by apply wait_enough. Qed.
Lemma back_prepare : back (prepare_engine hw fuel cfg).
Proof. unfold prepare_engine, tcp_prepare_mm2s_mapped. back; apply back_wait. Qed.
Lemma back_cleanup : back (tcp_cleanup_mm2s_mapped hw fuel cfg).
Proof. unfold tcp_cleanup_mm2s_mapped. back; apply back_wait. Qed.
Lemma back_feed n : back (feed_engine hw fuel cfg n).
Proof. unfold feed_engine. back; apply back_wait. Qed.

(** Every descriptor may be waited for as long as the timeout allows. *)
Lemma completion_ends k n poll i next idle st :
  n <= DMA_DESC_COUNT_MAX → 0 <= i → 0 <= idle → idle / TCP_POLL_SLEEP_US <= tcp_timeout_us cfg / TCP_POLL_SLEEP_US →
  (n - i) * rounds (tcp_timeout_us cfg) - idle / TCP_POLL_SLEEP_US <= Z.of_nat k →
  wp (completion_loop hw k cfg n poll i next idle) (λ r _, comes_back r) st.
Proof using Hw.
  clear Hf. intros Hn. change DMA_DESC_COUNT_MAX with 128 in Hn. unfold rounds, waits, TCP_POLL_SLEEP_US in *.
  assert (HT : 0 <= tcp_timeout_us cfg / 10) by (apply Z.div_pos; lia).
  revert i next idle st; induction k as [|k IH]; intros i next idle [s w] Hi Hidle Hle Hk; cbn [completion_loop];
    (destruct (Z.ltb_spec i n); cbn [negb]; [|by apply wp_ret]);
    assert (Hone : 1 * (tcp_timeout_us cfg / 10 + 2) <= (n - i) * (tcp_timeout_us cfg / 10 + 2)) by (apply Z.mul_le_mono_nonneg_r; lia);
    [lia|].
  apply wp_bind, wp_sio_any. intros stop w1. destruct stop; [by apply wp_ret|]. apply wp_bind, wp_sio_any. intros x w2. destruct (any _ _).
  - apply wp_bind, wp_sio_any. intros [] w3. rewrite (u32_small (i + 1)) by cint. apply IH; rewrite ?Z.div_0_l by lia; [lia..|].
    replace (n - (i + 1)) with ((n - i) - 1) by lia. lia.
  - apply wp_bind. assert (Hgo : ∀ (bad : bool) w3, wp (if bad then go_out (-1) else
      let! _ := sio (usleep hw 10) in
      let idle := if idle <? UINT32_MAX - 10 then idle + 10 else idle in
      if tcp_timeout_us cfg <=? idle then go_out (-1) else completion_loop hw k cfg n poll i next idle)
      (λ r _, comes_back r) (s, w3)).
    { intros [] w3; [by apply wp_ret|]. apply wp_bind, wp_sio_any. intros [] w4. cbv zeta. destruct (Z.leb_spec (tcp_timeout_us cfg) (if idle <? UINT32_MAX - 10 then idle + 10 else idle)) as [|Hlt]; [by apply wp_ret|].
      destruct (Z.ltb_spec idle (UINT32_MAX - 10)); [|lia].
      assert (E : (idle + 10) / 10 = idle / 10 + 1) by (replace (idle + 10) with (idle + 1 * 10) by lia; by apply Z.div_add).
      apply IH; [lia|lia|apply Z.div_le_mono; lia|lia]. }
    destruct poll; [|apply wp_ret, (Hgo false)]. apply wp_bind, wp_sio_any. intros y w3. apply wp_ret, Hgo.
Qed.
Lemma back_run n poll : n <= DMA_DESC_COUNT_MAX → n * rounds (tcp_timeout_us cfg) <= Z.of_nat fuel → back (run_engine hw fuel cfg n poll).
Proof.
  intros Hn Hk. unfold run_engine. apply back_bind. intros []. intros st. apply wp_bind. eapply wp_mono.
  - assert (H : back (let? _ := feed_engine hw fuel cfg n in completion_loop hw fuel cfg n poll 0 0 0)); [|apply H].
    apply back_xbind; [apply back_feed|]. intros [] st'. unfold waits, TCP_POLL_SLEEP_US in *.
    apply completion_ends; try done; unfold TCP_POLL_SLEEP_US; rewrite ?Z.div_0_l by lia; [apply Z.div_pos; lia|lia].
  - intros r st' Hr. destruct r as [[rc|]|rc]; [|by destruct Hr|]; apply back_xbind; [apply back_cleanup|intros; apply back_ret|apply back_cleanup|intros; apply back_ret].
Qed.
(** What the preparation returns. *)
Lemma prepare_count st : wp (prepare_engine hw fuel cfg) (λ r _, match r with inl _ => True | inr n => n = tcp_desc_count cfg end) st.
Proof using Type.
  unfold wp, prepare_engine, tcp_prepare_desc, xbind, ebind, eret, go_out, xret.
  repeat (case_match; simplify_eq/=; try done).
Qed.
End Config.
End Ends.

(** C24: A send returns, whatever the hardware shows: the timeout bounds the wait for every register and for every
    descriptor, so with fuel for at most 128 descriptors that each take the whole timeout the model never runs out of
    it.  This needs a timeout that a 32-bit counter in steps of ten microseconds passes before it goes round; with the
    longest one it never passes it ([long_wait_never_ends]). *)
Theorem tcp_send_returns {W} (hw : TcpHw W) fuel cfg st :
  waits (tcp_timeout_us cfg) → DMA_DESC_COUNT_MAX * rounds (tcp_timeout_us cfg) <= Z.of_nat fuel → 0 <= transfer_bytes cfg →
  ∃ rc st', tcp_transfer_send hw fuel cfg st = (Some rc, st').
Proof.
  intros Hw Hk Hb. assert (HT : 0 <= tcp_timeout_us cfg / TCP_POLL_SLEEP_US) by (unfold waits, TCP_POLL_SLEEP_US in *; apply Z.div_pos; lia).
  change DMA_DESC_COUNT_MAX with 128 in Hk. assert (Hf : enough cfg fuel) by (unfold enough, rounds in *; lia).
  cut (wp (tcp_transfer_send hw fuel cfg) (λ r _, ∃ rc, r = Some rc) st).
  { unfold wp. destruct (tcp_transfer_send _ _ _ _) as [r st']. cbn. intros [rc ->]. by exists rc, st'. }
  destruct st as [s w]. unfold tcp_transfer_send. destruct (Z.eqb_spec (transfer_bytes cfg) 0); [by apply wp_ret; eexists|].
  destruct (Z.ltb_spec (TCP_MAX_BYTES_PER_DESC * DMA_DESC_COUNT_MAX) (transfer_bytes cfg)); [by apply wp_ret; eexists|].
  destruct (tcp_dry_run cfg); [by apply wp_ret; eexists|]. apply wp_bind, wp_sio_any. intros stop w1. destruct stop; [by apply wp_ret; eexists|].
  assert (Hn : 0 < tcp_desc_count cfg <= 128).
  { change DMA_DESC_COUNT_MAX with 128 in *. unfold tcp_desc_count, TCP_MAX_BYTES_PER_DESC in *. rewrite u64_small by cint.
    pose proof (Z.div_mod (transfer_bytes cfg + 16 * 1024 * 1024 - 1) (16 * 1024 * 1024) ltac:(lia)).
    pose proof (Z.mod_pos_bound (transfer_bytes cfg + 16 * 1024 * 1024 - 1) (16 * 1024 * 1024) ltac:(lia)). rewrite u32_small by cint. lia. }
  apply wp_bind. replace (tcp_desc_count cfg =? 0) with false by lia. apply wp_sio_any. intros mapped w2.
  destruct mapped; cbn [negb]; [|by apply wp_ret; eexists]. apply wp_bind. unfold ccb_cmd_config.configured, wp at 1.
  destruct (tcp_env_flag_enabled _ s) as [poll s1]. cbn [fst snd]. apply wp_bind. eapply (wp_mono _ (λ r _, comes_back r)).
  - apply wp_xbind. eapply wp_mono; [apply (wp_and _ _ _ _ (back_prepare hw cfg fuel Hw Hf _) (prepare_count hw cfg fuel _))|].
    intros [e|m] st' [Hr E]; [intros [= ->]; by destruct Hr|]. cbn in E. subst m. apply back_run; try done; [exact (proj2 Hn)|].
    unfold rounds in *. apply Z.le_trans with (128 * (tcp_timeout_us cfg / TCP_POLL_SLEEP_US + 2)); [apply Z.mul_le_mono_nonneg_r; lia|lia].
  - intros [[rc|]|rc] st' Hr; apply wp_ret; [by eexists|by destruct Hr|by eexists].
Qed.
(** The engine of the example, which is never told to hurry. *)
Lemma tcp_send_returns_witness :
  waits (tcp_timeout_us example_config) ∧
  ∃ rc st', tcp_transfer_send example_hw (Z.to_nat (128 * 102)) example_config (example_conf, false) = (Some rc, st').
Proof.
  split; [vm_compute; intuition congruence|].
  apply tcp_send_returns; [vm_compute; intuition congruence|vm_compute; congruence|vm_compute; congruence].
Defined.

(** With the longest timeout the counter, always even, goes round below it: a register that never shows what is awaited
    is waited for without end. *)
Lemma long_wait_never_ends {W} (hw : TcpHw W) r off mask expected :
  (∀ w, Z.land (mmio_read32 hw r off w).1 mask ≠ expected) →
  ∀ fuel st, (wait_bits_no_stop hw fuel r off mask expected UINT32_MAX st).1 = inl OutOfFuel.
Proof.
  intros Hne fuel. unfold wait_bits_no_stop. cut (∀ waited st, is_u32 waited → waited mod 2 = 0 →
    (wait_bits_common hw fuel r off mask expected UINT32_MAX false waited st).1 = inl OutOfFuel).
  { intros H st. apply H; [cint|done]. }
  induction fuel as [|fuel IH]; intros waited [s w] Hw He; cbn [wait_bits_common];
    (assert (Hlt : waited < UINT32_MAX) by (pose proof (Z.div_mod waited 2); cint));
    replace (waited <? UINT32_MAX) with true by lia; cbn [negb]; [done|].
  unfold ebind at 1, rd, sio. pose proof (Hne w) as Hx. destruct (mmio_read32 hw r off w) as [x w1]. cbn [fst] in Hx.
  replace (Z.land x mask =? expected) with false by lia. unfold ebind, eret. destruct (usleep hw TCP_POLL_SLEEP_US w1) as [[] w2].
  apply IH; [apply u32_range|]. unfold u32, uwrap, TCP_POLL_SLEEP_US.
  rewrite Z.mod_mod_divide by (by exists (2 ^ 31)). rewrite <-Zplus_mod_idemp_l, He. done.
Qed.
End tcp_safety.
