(* ===== verification/NetSend.v ===== *)
(** * Downloading a file over the network ([src/src/system.c])

    The chunks of a recorded file are read from the NVMe device into the DDR and
    sent from there, one frame each: one after the other ([network_send_serial]),
    or by a reading and a sending thread that share a ring of slots
    ([NetPipe]).  Both are written against an interface, [Transport], whose
    instance over the NVMe code and the stream engine is at the end.  The DDR
    verification of the diagnostic build is left out. *)
From S2P Require Import Prelude CStdlib CcbTypes Config Cli CmdConfig WriteQueue NvmeQueue NvmeConfig NvmeWrite NvmeSlot ChannelOpen TcpTransfer.

Module system_network.
Import c_stdlib ccb_types storage_config ccb_tcp_transfer.

Definition NETWORK_DDR_OFFSET_BYTES : Z := 4 * 1024.

(** ** Configuration *)
(** A number up to [max_value], 0 included. *)
Definition env_u32_allow_zero (name : string) (max_value : Z) : ceff (option Z) :=
  let! value := storage_config_compat_getenv name in
  eret (match value with
        | Some v => if non_empty value then
                      match strtoul_full v 0 with
                      | Some n => if max_value <? n then None else Some (u32 n)
                      | None => None end
                    else None
        | None => None end).
Definition env_u32_or_default (name : string) (dflt : Z) : ceff Z :=
  let! value := storage_config_compat_getenv name in
  eret (match value with
        | Some v => if non_empty value then
                      match strtoul_full v 0 with
                      | Some n => if (n =? 0) || (UINT32_MAX <? n) then dflt else n
                      | None => dflt end
                    else dflt
        | None => dflt end).
Definition network_limit_mb_s : ceff Z :=
  let! limit := env_u32_allow_zero "SRC_REAL_NETWORK_LIMIT_MB_S" 10000 in eret (default 0 limit).
(** The input of the switch that a channel's engine is connected to. *)
Definition configure_tcp_for_channel (cfg : ChannelConfig) (tcp : TcpTransferConfig) : ceff (option TcpTransferConfig) :=
  let input := if id cfg =? HIGH_I_CHANNEL_ID then Some 0 else if id cfg =? HIGH_Q_CHANNEL_ID then Some 1
               else if id cfg =? LOW_SPEED_CHANNEL_ID then Some 2 else None in
  match input with
  | None => eret None
  | Some input =>
    let! override := env_u32_allow_zero "SRC_REAL_TCP_SWITCH_INPUT" 15 in
    eret (Some (tcp <| switch_base := TCP_SWITCH_BASE_DEFAULT |> <| switch_input_select := default input override |>
      <| tcp_dma_base := dma_base cfg |> <| tcp_desc_cpu_base := desc_cpu_base cfg |>
      <| tcp_desc_dma_base := desc_dma_base cfg |> <| ddr_dma_base := ddr_hw_base cfg |>))
  end.

(** ** The interface *)
(** [None] from a read or a send: it does not return. *)
Record Transport (W : Type) : Type := mkTransport {
  t_stop : Eff W bool;
  t_clock : Eff W Z;
  t_read : Z → Z → Z → Eff W (option Z);
  t_route : Z → Eff W (option TcpTransferConfig);
  t_send : TcpTransferConfig → Eff W (option Z);
  t_limit : Eff W Z;
  t_sleep : Z → Eff W unit }.
Arguments mkTransport {W}. Arguments t_stop {W}. Arguments t_clock {W}. Arguments t_read {W}.
Arguments t_route {W}. Arguments t_send {W}. Arguments t_limit {W}. Arguments t_sleep {W}.

Section Serial.
Context {W : Type} (T : Transport W).

(** [rounds] steps of 10 ms are enough for the time that is left. *)
Fixpoint throttle_loop (rounds : nat) (sleep_us : Z) : Eff W unit :=
  match rounds with
  | O => eret tt
  | S rounds =>
    if negb (0 <? sleep_us) then eret tt else
    let! stop := t_stop T in
    if (stop : bool) then eret tt else
    let step_us := if 10000 <? sleep_us then 10000 else sleep_us in
    let! _ := t_sleep T step_us in
    throttle_loop rounds (sleep_us - step_us)
  end.
(** A chunk takes at least the time that the limit gives it (1 MB/s is a byte per microsecond). *)
Definition network_throttle_after_chunk (chunk_start_us bytes : Z) : Eff W unit :=
  let! limit_mb_s := t_limit T in
  if (limit_mb_s =? 0) || (bytes =? 0) || (chunk_start_us =? 0) then eret tt else
  let target_us := bytes / limit_mb_s in
  let! now_us := t_clock T in
  let elapsed_us := if chunk_start_us <=? now_us then now_us - chunk_start_us else 0 in
  if target_us <=? elapsed_us then eret tt else
  let sleep_us := target_us - elapsed_us in
  throttle_loop (Z.to_nat (sleep_us / 10000 + 1)) sleep_us.

(** The code that a failed read or send leaves. *)
Definition failure_rc (rc : Z) : Z := if rc =? -2 then -2 else -1.
(** Sending [bytes] from [ddr_hw]. *)
Definition send_chunk (bytes ddr_hw : Z) : Eff W (option Z) :=
  let! route := t_route T bytes in
  match route with
  | None => eret (Some (-1))
  | Some tcp => t_send T (tcp <| ddr_dma_base := ddr_hw |>)
  end.

(** ** One chunk after the other *)
Section Loop.
Context (cfg : ChannelConfig) (max_payload_bytes network_ring_bytes : Z).
(** The code and the number of chunks that were sent. *)
Fixpoint serial_loop (steps : nat) (remaining_bytes cur_lba chunk_index : Z) : Eff W (option (Z * Z)) :=
  if negb (0 <? remaining_bytes) then eret (Some (0, chunk_index)) else
  match steps with
  | O => eret None
  | S steps =>
    let chunk_bytes := if max_payload_bytes <? remaining_bytes then max_payload_bytes else remaining_bytes in
    let read_sectors := storage_write_queue.bytes_to_sectors chunk_bytes in
    let read_bytes := u64 (read_sectors * SECTOR_SIZE) in
    let network_ddr_hw := u64 (ddr_hw_base cfg + NETWORK_DDR_OFFSET_BYTES) in
    let! chunk_start_us := t_clock T in
    let! stop := t_stop T in
    if (stop : bool) then eret (Some (-2, chunk_index)) else
    if (network_ring_bytes <? u64 (NETWORK_DDR_OFFSET_BYTES + read_bytes))
       || (network_ring_bytes <? u64 (NETWORK_DDR_OFFSET_BYTES + chunk_bytes)) then eret (Some (-1, chunk_index)) else
    let! read := t_read T cur_lba read_sectors network_ddr_hw in
    match read with
    | None => eret None
    | Some read_rc =>
      if negb (read_rc =? 0) then eret (Some (failure_rc read_rc, chunk_index)) else
      let! sent := send_chunk chunk_bytes network_ddr_hw in
      match sent with
      | None => eret None
      | Some send_rc =>
        if negb (send_rc =? 0) then eret (Some (failure_rc send_rc, chunk_index)) else
        let! _ := network_throttle_after_chunk chunk_start_us chunk_bytes in
        serial_loop steps (u64 (remaining_bytes - chunk_bytes)) (u64 (cur_lba + read_sectors)) (u32 (chunk_index + 1))
      end
    end
  end.
Definition network_send_serial (steps : nat) (file_size start_sector : Z) : Eff W (option (Z * Z)) :=
  serial_loop steps file_size start_sector 0.
End Loop.
End Serial.

(** ** Over the devices *)
(** The NVMe part of the runtime goes with the world. *)
Section Real.
Context {W : Type} (D : ccb_channel.Devices W) (tcp : TcpHw W) (clock : Eff W Z).
Context (cfg : ChannelConfig) (gopt : ccb_cli.GlobalOptions) (fuel : nat).
#[local] Abbreviation State := (nvme_queue.Nvme * (config_state * W))%type.
Definition in_env {A} (m : Eff (config_state * W) A) : Eff State A := sio m.
Definition real_read (lba sectors addr : Z) : Eff State (option Z) := λ '(n, st),
  let '((r, n), st) := ccb_channel.on_nvme n (nvme_slot.nvme_rw (ccb_channel.nvme_hw D) fuel false lba sectors addr) st in
  (nvme_write.returned r, (n, st)).
Definition real_transport : Transport State :=
  mkTransport (in_env (sio (nvme_queue.nvme_stop_requested (ccb_channel.nvme_hw D)))) (in_env (sio clock)) real_read
    (λ bytes, in_env (ccb_cmd_config.configured (configure_tcp_for_channel cfg (tcp_transfer_default_config bytes gopt))))
    (λ c, in_env (tcp_transfer_send tcp fuel c)) (in_env (ccb_cmd_config.configured network_limit_mb_s))
    (λ us, in_env (sio (usleep tcp us))).
End Real.
End system_network.
