(* ===== verification/NetPipe.v ===== *)
(** * The reading and the sending thread of a download ([src/src/system.c])

    With more than one slot the chunks go through a ring of slots in the DDR:
    [network_read_thread] fills them, [network_send_thread] sends and frees
    them.  The sections under the mutex and the operations on the devices are
    the steps of the two threads; any sequence of steps may happen, and a thread
    whose condition does not hold is blocked.  [network_send_existing_file]
    chooses the way and runs it. *)
From S2P Require Import Prelude CcbTypes Config Cli CmdConfig Commit CommitStore CrossSlot WriteQueue NvmeQueue NvmeConfig NvmeWrite NvmeSlot ChannelOpen TcpTransfer NetSend.

Module system_pipeline.
Import ccb_types storage_config ccb_tcp_transfer system_network.

Inductive NetworkSlotState : Type := NETWORK_SLOT_FREE | NETWORK_SLOT_READING | NETWORK_SLOT_READY | NETWORK_SLOT_SENDING.
#[export] Instance NetworkSlotState_eq_dec : EqDecision NetworkSlotState.
Proof. solve_decision. Defined.
Record NetworkPipelineSlot : Type := mkSlot {
  sl_state : NetworkSlotState; sl_chunk_index : Z; sl_ring_slot : Z; sl_lba : Z; sl_chunk_bytes : Z;
  sl_read_sectors : Z; sl_send_bytes : Z; sl_ddr_hw : Z }.
#[export] Instance eta_NetworkPipelineSlot : EtaOf NetworkPipelineSlot := λ s,
  mkSlot (sl_state s) (sl_chunk_index s) (sl_ring_slot s) (sl_lba s) (sl_chunk_bytes s) (sl_read_sectors s)
    (sl_send_bytes s) (sl_ddr_hw s).
Definition free_slot : NetworkPipelineSlot := mkSlot NETWORK_SLOT_FREE 0 0 0 0 0 0 0.

(** What is fixed when the threads start. *)
Record Job : Type := mkJob {
  slot_count : Z; total_chunks : Z; j_cfg : ChannelConfig; max_payload_bytes : Z; network_ring_stride : Z;
  network_ring_bytes : Z; total_file_bytes : Z; start_lba : Z }.
(** The shared part. *)
Record NetworkPipelineCtx : Type := mkCtx {
  slots : list NetworkPipelineSlot; next_send_chunk : Z; producer_done : bool; error_rc : Z }.
#[export] Instance eta_NetworkPipelineCtx : EtaOf NetworkPipelineCtx := λ c,
  mkCtx (slots c) (next_send_chunk c) (producer_done c) (error_rc c).
Definition network_pipeline_set_error (rc : Z) (c : NetworkPipelineCtx) : NetworkPipelineCtx :=
  if error_rc c =? 0 then c <| error_rc := rc |> else c.
Definition slot_of (c : NetworkPipelineCtx) (i : Z) : NetworkPipelineSlot := default free_slot (slots c !! Z.to_nat i).
Definition set_slot (i : Z) (s : NetworkPipelineSlot) (c : NetworkPipelineCtx) : NetworkPipelineCtx :=
  c <| slots ::= <[Z.to_nat i := s]> |>.
Definition set_slot_state (i : Z) (state : NetworkSlotState) (c : NetworkPipelineCtx) : NetworkPipelineCtx :=
  set_slot i ((slot_of c i) <| sl_state := state |>) c.

(** Where a thread is.  [Hung]: an operation on a device does not return. *)
Inductive ReadPc : Type := ReadTop | ReadAcquire | ReadDevice | ReadReady | ReadFail (rc : Z) | ReadEnd | ReadHung.
Inductive SendPc : Type := SendWait | SendDevice (copy : NetworkPipelineSlot) | SendFree | SendFail (rc : Z) | SendEnd | SendHung.
#[export] Instance ReadPc_eq_dec : EqDecision ReadPc.
Proof. solve_decision. Defined.
Record Reader : Type := mkReader { r_pc : ReadPc; remaining_bytes : Z; cur_lba : Z; chunk_index : Z }.
#[export] Instance eta_Reader : EtaOf Reader := λ r, mkReader (r_pc r) (remaining_bytes r) (cur_lba r) (chunk_index r).
Record Net : Type := mkNet { ctx : NetworkPipelineCtx; reader : Reader; sender : SendPc }.
#[export] Instance eta_Net : EtaOf Net := λ x, mkNet (ctx x) (reader x) (sender x).
Inductive Thread : Type := ReadThread | SendThread.

Section Pipeline.
Context {W : Type} (T : Transport W) (j : Job).

(** The numbers of the chunk that the reader is about to read. *)
Definition chunk_bytes (r : Reader) : Z :=
  if max_payload_bytes j <? remaining_bytes r then max_payload_bytes j else remaining_bytes r.
Definition read_sectors (r : Reader) : Z := storage_write_queue.bytes_to_sectors (chunk_bytes r).
Definition ring_slot (r : Reader) : Z := chunk_index r mod slot_count j.
Definition slot_base (r : Reader) : Z := u64 (ring_slot r * network_ring_stride j).
Definition network_ddr_hw (r : Reader) : Z :=
  u64 (u64 (ddr_hw_base (j_cfg j) + slot_base r) + NETWORK_DDR_OFFSET_BYTES).
Definition filled_slot (r : Reader) : NetworkPipelineSlot :=
  mkSlot NETWORK_SLOT_READING (chunk_index r) (ring_slot r) (cur_lba r) (chunk_bytes r) (read_sectors r)
    (chunk_bytes r) (network_ddr_hw r).
Definition fits_ring (r : Reader) : bool :=
  let base := u64 (slot_base r + NETWORK_DDR_OFFSET_BYTES) in
  negb ((network_ring_bytes j <? u64 (base + u64 (read_sectors r * SECTOR_SIZE)))
        || (network_ring_bytes j <? u64 (base + chunk_bytes r))).

(** One step of the reader; [None]: it is blocked, or has ended. *)
Definition network_read_step (c : NetworkPipelineCtx) (r : Reader) : Eff W (option (NetworkPipelineCtx * Reader)) :=
  match r_pc r with
  | ReadTop =>
      if negb (0 <? remaining_bytes r) then eret (Some (c <| producer_done := true |>, r <| r_pc := ReadEnd |>)) else
      let! stop := t_stop T in
      eret (Some (c, r <| r_pc := if (stop : bool) then ReadFail (-2) else if fits_ring r then ReadAcquire else ReadFail (-1) |>))
  | ReadAcquire =>
      eret (if negb (error_rc c =? 0) then Some (c, r <| r_pc := ReadEnd |>)
            else if decide (sl_state (slot_of c (ring_slot r)) = NETWORK_SLOT_FREE)
            then Some (set_slot (ring_slot r) (filled_slot r) c, r <| r_pc := ReadDevice |>)
            else None)
  | ReadDevice =>
      let! read := t_read T (cur_lba r) (read_sectors r) (network_ddr_hw r) in
      eret (Some (c, r <| r_pc := match read with
        | None => ReadHung
        | Some rc => if rc =? 0 then ReadReady else ReadFail (failure_rc rc) end |>))
  | ReadReady =>
      eret (Some (set_slot_state (ring_slot r) NETWORK_SLOT_READY c,
        mkReader ReadTop (u64 (remaining_bytes r - chunk_bytes r)) (u64 (cur_lba r + read_sectors r)) (u32 (chunk_index r + 1))))
  | ReadFail rc => eret (Some (network_pipeline_set_error rc c, r <| r_pc := ReadEnd |>))
  | ReadEnd | ReadHung => eret None
  end.
(** One step of the sender. *)
Definition network_send_step (c : NetworkPipelineCtx) (pc : SendPc) : Eff W (option (NetworkPipelineCtx * SendPc)) :=
  let i := next_send_chunk c mod slot_count j in
  match pc with
  | SendWait =>
      eret (if negb (next_send_chunk c <? total_chunks j) then Some (c, SendEnd)
            else let slot := slot_of c i in
            if negb (error_rc c =? 0) then Some (c, SendEnd)
            else if decide (sl_state slot = NETWORK_SLOT_READY ∧ sl_chunk_index slot = next_send_chunk c)
            then let slot := slot <| sl_state := NETWORK_SLOT_SENDING |> in Some (set_slot i slot c, SendDevice slot)
            else if producer_done c && bool_decide (sl_state slot = NETWORK_SLOT_FREE)
            then Some (c <| error_rc := -1 |>, SendEnd)
            else None)
  | SendDevice copy =>
      let! stop := t_stop T in
      if (stop : bool) then eret (Some (c, SendFail (-2))) else
      let! route := t_route T (sl_send_bytes copy) in
      match route with
      | None => eret (Some (c, SendFail (-1)))
      | Some tcp =>
        let! chunk_start_us := t_clock T in
        let! sent := t_send T (tcp <| ddr_dma_base := sl_ddr_hw copy |>) in
        match sent with
        | None => eret (Some (c, SendHung))
        | Some rc =>
          if negb (rc =? 0) then eret (Some (c, SendFail (failure_rc rc))) else
          let! _ := network_throttle_after_chunk T chunk_start_us (sl_send_bytes copy) in
          eret (Some (c, SendFree))
        end
      end
  | SendFree =>
      eret (Some ((set_slot_state i NETWORK_SLOT_FREE c) <| next_send_chunk ::= λ n, u32 (n + 1) |>, SendWait))
  | SendFail rc => eret (Some (network_pipeline_set_error rc c, SendEnd))
  | SendEnd | SendHung => eret None
  end.
Definition step (t : Thread) (x : Net) : Eff W (option Net) :=
  match t with
  | ReadThread => let! o := network_read_step (ctx x) (reader x) in
      eret (match o with Some (c, r) => Some (x <| ctx := c |> <| reader := r |>) | None => None end)
  | SendThread => let! o := network_send_step (ctx x) (sender x) in
      eret (match o with Some (c, pc) => Some (x <| ctx := c |> <| sender := pc |>) | None => None end)
  end.
(** The threads take turns as the schedule says; a turn of a blocked thread does nothing. *)
Fixpoint run (schedule : list Thread) (x : Net) : Eff W Net :=
  match schedule with
  | [] => eret x
  | t :: schedule => let! o := step t x in run schedule (default x o)
  end.
Definition init : Net :=
  mkNet (mkCtx (replicate (Z.to_nat (slot_count j)) free_slot) 0 false 0)
    (mkReader ReadTop (total_file_bytes j) (start_lba j) 0) SendWait.
Definition ended (x : Net) : bool :=
  bool_decide (r_pc (reader x) = ReadEnd) && match sender x with SendEnd => true | _ => false end.
(** Both threads are joined; [None]: not with this schedule. *)
Definition joined (x : Net) : option Z :=
  if ended x then
    Some (if error_rc (ctx x) =? 0 then if next_send_chunk (ctx x) =? total_chunks j then 0 else -1
          else error_rc (ctx x))
  else None.
End Pipeline.

(** ** Sending a recorded file *)
(** The sources and results of the set-up of the threads. *)
Record Threads : Type := mkThreads {
  slots_allocated : bool; sync_initialised : bool; reader_created : bool; sender_created : bool;
  schedule : list Thread }.
(** The channel that files of a type are sent from. *)
Definition route_channel_id (proto_file_type_code : Z) : option Z :=
  if (proto_file_type_code =? system_commit.FILE_TYPE_LOW) || (proto_file_type_code =? system_commit.FILE_TYPE_CALIB) then Some LOW_SPEED_CHANNEL_ID
  else if proto_file_type_code =? system_commit.FILE_TYPE_I then Some HIGH_I_CHANNEL_ID
  else if proto_file_type_code =? system_commit.FILE_TYPE_Q then Some HIGH_Q_CHANNEL_ID else None.
(** The record of the database that may be sent. *)
Definition network_target (a : ccb_cli.ParsedArgs) (found : option ccb_storage_commit.FileRecord) :
    option (ccb_storage_commit.FileRecord * ChannelConfig) :=
  match found with
  | None => None
  | Some rec =>
    let type_ := ccb_storage_commit.fr_proto_file_type_code rec in
    if negb (type_ =? ccb_cli.proto_file_type a) then None else
    if ccb_cli.has_calibration_type a && (ccb_cli.proto_file_type a =? system_commit.FILE_TYPE_CALIB)
       && negb (ccb_storage_commit.fr_calibration_type rec =? ccb_cli.calibration_type a) then None else
    if (ccb_storage_commit.fr_file_size rec =? 0) || (ccb_storage_commit.fr_sector_count rec =? 0) then None else
    match route_channel_id type_ with
    | None => None
    | Some ch => match ccb_config.find_channel ch with Some cfg => Some (rec, cfg) | None => None end
    end
  end.
(** The memory of the ring and the number of slots in it. *)
Definition ring_bytes_of (cfg : ChannelConfig) : Z :=
  if (ddr_cpu_size cfg =? 0) || (dma_ring_bytes cfg <? ddr_cpu_size cfg) then dma_ring_bytes cfg else ddr_cpu_size cfg.
Definition ring_stride : Z := TCP_MAX_BYTES_PER_DESC + NETWORK_DDR_OFFSET_BYTES.
Definition ring_slots (cfg : ChannelConfig) : ceff (option Z) :=
  if ring_bytes_of cfg <? ring_stride then eret None else
  let available := u32 (ring_bytes_of cfg / ring_stride) in
  if available =? 0 then eret None else
  let! requested := env_u32_or_default "SRC_REAL_NETWORK_PIPELINE_SLOTS" 1 in
  let requested := if requested =? 0 then 1 else requested in
  eret (Some (if available <? requested then available else requested)).
Definition chunks_of (file_size : Z) : Z :=
  u32 (u64 (file_size + TCP_MAX_BYTES_PER_DESC - 1) / TCP_MAX_BYTES_PER_DESC).
Definition job_of (cfg : ChannelConfig) (slots : Z) (rec : ccb_storage_commit.FileRecord) : Job :=
  mkJob slots (chunks_of (ccb_storage_commit.fr_file_size rec)) cfg TCP_MAX_BYTES_PER_DESC ring_stride
    (ring_bytes_of cfg) (ccb_storage_commit.fr_file_size rec) (ccb_storage_commit.fr_start_sector rec).

Section Send.
Context {W : Type} (T : Transport W).
(** Without a sender the error is left at some point while the reader already runs. *)
Definition pipelined (threads : Threads) (j : Job) : Eff W (option Z) :=
  if negb (slots_allocated threads && sync_initialised threads && reader_created threads) then eret (Some (-1)) else
  let start := if sender_created threads then init j
               else (init j) <| sender := SendFail (-1) |> in
  let! x := run T j (schedule threads) start in
  eret (joined j x).
Definition send_file (threads : Threads) (cfg : ChannelConfig) (slots : Z) (rec : ccb_storage_commit.FileRecord) :
    Eff W (option Z) :=
  if slots <=? 1 then
    let! o := network_send_serial T cfg TCP_MAX_BYTES_PER_DESC (ring_bytes_of cfg)
                (Z.to_nat (chunks_of (ccb_storage_commit.fr_file_size rec)))
                (ccb_storage_commit.fr_file_size rec) (ccb_storage_commit.fr_start_sector rec) in
    eret (match o with Some (rc, _) => Some rc | None => None end)
  else pipelined threads (job_of cfg slots rec).
End Send.

Section Existing.
Context {W : Type} (D : ccb_channel.Devices W) (tcp : TcpHw W) (clock : Eff W Z).
Context (file_query_by_index : string → Z → Eff W (option ccb_storage_commit.FileRecord)).
#[local] Abbreviation M := (Eff (config_state * W)).
(** The return code and whether the devices were unmapped; [None]: it does not return. *)
Definition network_send_existing_file (threads : Threads) (fuel : nat) (a : ccb_cli.ParsedArgs)
    (gopt : ccb_cli.GlobalOptions) : M (option (Z * bool)) :=
  if negb (ccb_cli.has_task_no a && ccb_cli.has_file_index a && ccb_cli.has_proto_file_type a)
  then eret (Some (-1, true)) else
  let! found := sio (file_query_by_index (ccb_cli.arg_task_no a) (ccb_cli.arg_file_index a)) in
  match network_target a found with
  | None => eret (Some (-1, true))
  | Some (rec, cfg) =>
    let! slots := ccb_cmd_config.configured (ring_slots cfg) in
    match slots with
    | None => eret (Some (-1, true))
    | Some slots =>
      let! rt := ccb_channel.channel_runtime_open D cfg gopt in
      match rt with
      | None => eret (Some (-1, true))
      | Some (_, n) =>
        let! stop := sio (nvme_queue.nvme_stop_requested (ccb_channel.nvme_hw D)) in
        if (stop : bool) then eret (Some (-2, ccb_channel.channel_runtime_close n)) else
        let! (r, n) := ccb_channel.on_nvme n (nvme_config.nvme_probe (ccb_channel.nvme_hw D) fuel) in
        match nvme_write.returned r with
        | None => eret None
        | Some rc =>
          if negb (rc =? 0) || (ccb_hw.nvme_max_lba (nvme_queue.base n) =? 0)
          then eret (Some (-1, ccb_channel.channel_runtime_close n)) else λ st,
          let '(o, (n, st)) := send_file (real_transport D tcp clock cfg gopt fuel) threads cfg slots rec (n, st) in
          (match o with Some rc => Some (rc, ccb_channel.channel_runtime_close n) | None => None end, st)
        end
      end
    end
  end.
End Existing.
End system_pipeline.
