(* ===== verification/NetSafe.v ===== *)
(** * A download sends the file, in order

    What the devices see of a download, against any [Transport]: the chunks are
    read and sent in order, none is sent before it has been read and none is read
    into a slot whose chunk has not been sent.  The same rule ([follow]) is kept
    by the loop that does one chunk after the other (a ring of one slot) and by
    the two threads, in every interleaving of their steps. *)
From stdpp Require Import gmap.
From S2P Require Import Prelude CStdlib CcbTypes Config Cli CmdConfig Commit CommitStore CrossSlot WriteQueue NvmeQueue NvmeConfig NvmeWrite NvmeSlot NvmePlan ChannelOpen TcpTransfer NetSend NetPipe.

Module network_safety.
Import ccb_types storage_config ccb_tcp_transfer system_network system_pipeline.

(** ** The interface *)
(** What a download relies on: the route that it is given is for the bytes it asked for. *)
Class TransportOk {W} (T : Transport W) : Prop := {
  route_bytes bytes w tcp w' : t_route T bytes w = (Some tcp, w') → transfer_bytes tcp = bytes }.
#[export] Instance real_transport_ok {W} (D : ccb_channel.Devices W) tcp clock cfg gopt fuel :
  TransportOk (real_transport D tcp clock cfg gopt fuel).
Proof.
  split. intros bytes [n [s w]] c st. cbn. unfold in_env, sio, ccb_cmd_config.configured, configure_tcp_for_channel.
  match goal with |- context [match ?o with Some _ => _ | None => eret None end s] => destruct o; [|by intros [= ]] end.
  unfold ebind, eret. destruct (env_u32_allow_zero _ _ s). by intros [= <- _].
Qed.

(** ** What is seen *)
Inductive Ev : Type := Read (lba sectors addr : Z) (rc : option Z) | Send (bytes addr : Z) (rc : option Z).
Record Seen : Type := mkSeen { reads : Z; sends : Z; read_failed : bool; send_failed : bool }.
#[export] Instance Seen_eq_dec : EqDecision Seen.
Proof. solve_decision. Defined.

Section Rule.
Context (slots size lba base : Z).
Definition chunk_count : Z := (size + TCP_MAX_BYTES_PER_DESC - 1) / TCP_MAX_BYTES_PER_DESC.
Definition bytes_at (k : Z) : Z := Z.min TCP_MAX_BYTES_PER_DESC (size - k * TCP_MAX_BYTES_PER_DESC).
Definition sectors_at (k : Z) : Z := (bytes_at k + SECTOR_SIZE - 1) / SECTOR_SIZE.
Definition lba_at (k : Z) : Z := lba + k * (TCP_MAX_BYTES_PER_DESC / SECTOR_SIZE).
Definition addr_at (k : Z) : Z := base + (k mod slots) * ring_stride + NETWORK_DDR_OFFSET_BYTES.
(** The chunks are read in order, each when the chunk that had its slot has been sent; they are sent in order, each
    when it has been read; a failure ends the reading or the sending. *)
Definition see (v : Seen) (e : Ev) : option Seen :=
  let 'mkSeen r s rf sf := v in
  match e with
  | Read l n a rc =>
      if bool_decide ((l, n, a) = (lba_at r, sectors_at r, addr_at r)) && negb rf && (r <? chunk_count) && (r <? s + slots)
      then Some (if bool_decide (rc = Some 0) then mkSeen (r + 1) s false sf else mkSeen r s true sf) else None
  | Send b a rc =>
      if bool_decide ((b, a) = (bytes_at s, addr_at s)) && negb sf && (s <? r)
      then Some (if bool_decide (rc = Some 0) then mkSeen r (s + 1) rf false else mkSeen r s rf true) else None
  end.
Fixpoint follow (v : Seen) (l : list Ev) : option Seen :=
  match l with [] => Some v | e :: l => match see v e with Some v => follow v l | None => None end end.
Definition nothing : Seen := mkSeen 0 0 false false.
Lemma download_follow_app v l l' : follow v (l ++ l') = match follow v l with Some v => follow v l' | None => None end.
Proof. revert v; induction l as [|e l IH]; intros v; [done|]. simpl. by destruct (see v e). Qed.
Lemma follow_next v l e v' : follow nothing l = Some v → see v e = Some v' → follow nothing (l ++ [e]) = Some v'.
Proof. intros Hl He. rewrite download_follow_app, Hl. simpl. by rewrite He. Qed.

(** A file that can be addressed, and a ring that can. *)
Record file_ok : Prop := {
  fo_size : 0 < size <= TCP_MAX_BYTES_PER_DESC * UINT32_MAX;
  fo_lba : 0 <= lba ∧ lba + size / SECTOR_SIZE + 1 <= UINT64_MAX;
  fo_ring : 0 < slots ∧ 0 <= base ∧ base + slots * ring_stride <= UINT64_MAX }.
Context (Hok : file_ok).
#[local] Set Default Proof Using "Hok".

Lemma chunk_count_spec : 0 < chunk_count <= UINT32_MAX ∧
  (chunk_count - 1) * TCP_MAX_BYTES_PER_DESC < size <= chunk_count * TCP_MAX_BYTES_PER_DESC.
Proof.
  destruct Hok as [Hs _ _]. unfold chunk_count, TCP_MAX_BYTES_PER_DESC in *.
  pose proof (Z.div_mod (size + 16 * 1024 * 1024 - 1) (16 * 1024 * 1024) ltac:(lia)).
  pose proof (Z.mod_pos_bound (size + 16 * 1024 * 1024 - 1) (16 * 1024 * 1024) ltac:(lia)). cint.
Qed.
Lemma chunks_of_spec : chunks_of size = chunk_count.
Proof.
  destruct chunk_count_spec as [Hn _], Hok as [Hs _ _]. unfold chunks_of. rewrite u64_small by (unfold TCP_MAX_BYTES_PER_DESC in *; cint).
  apply u32_small. fold chunk_count. cint.
Qed.
Lemma below k : k < chunk_count ↔ k * TCP_MAX_BYTES_PER_DESC < size.
Proof. destruct chunk_count_spec as [_ H]. unfold TCP_MAX_BYTES_PER_DESC in *. nia. Qed.
Lemma bytes_spec k : 0 <= k < chunk_count →
  0 < bytes_at k <= TCP_MAX_BYTES_PER_DESC ∧ storage_write_queue.bytes_to_sectors (bytes_at k) = sectors_at k ∧
  0 < sectors_at k <= TCP_MAX_BYTES_PER_DESC / SECTOR_SIZE ∧
  (k + 1 < chunk_count → bytes_at k = TCP_MAX_BYTES_PER_DESC ∧ sectors_at k = TCP_MAX_BYTES_PER_DESC / SECTOR_SIZE).
Proof.
  intros Hk. pose proof (proj1 (below k) (proj2 Hk)) as Hb. destruct Hok as [Hs _ _].
  assert (Hby : 0 < bytes_at k <= TCP_MAX_BYTES_PER_DESC) by (unfold bytes_at, TCP_MAX_BYTES_PER_DESC in *; lia).
  split; [done|]. unfold sectors_at. split.
  { rewrite nvme_plan.sectors_of by (unfold TCP_MAX_BYTES_PER_DESC in *; cint). done. }
  unfold SECTOR_SIZE, TCP_MAX_BYTES_PER_DESC in *. change (16 * 1024 * 1024 / 512) with 32768.
  pose proof (Z.div_mod (bytes_at k + 512 - 1) 512 ltac:(lia)). pose proof (Z.mod_pos_bound (bytes_at k + 512 - 1) 512 ltac:(lia)).
  split; [lia|]. intros Hk1%below. unfold TCP_MAX_BYTES_PER_DESC in *.
  assert (bytes_at k = 16 * 1024 * 1024) as E by (unfold bytes_at, TCP_MAX_BYTES_PER_DESC; lia). split; [done|]. by rewrite E.
Qed.
Lemma lba_spec k : 0 <= k < chunk_count → 0 <= lba_at k ∧ lba_at k + sectors_at k <= UINT64_MAX ∧
  (k + 1 < chunk_count → lba_at k + sectors_at k = lba_at (k + 1)).
Proof.
  intros Hk. destruct (bytes_spec k Hk) as (Hb&_&Hs&Hfull). pose proof (proj1 (below k) (proj2 Hk)) as Hlow. destruct Hok as [_ Hl _].
  unfold lba_at, sectors_at, bytes_at, SECTOR_SIZE, TCP_MAX_BYTES_PER_DESC in *. change (16 * 1024 * 1024 / 512) with 32768 in *.
  split; [lia|]. split; [|intros H; rewrite (proj2 (Hfull H)); lia].
  pose proof (Z.div_mod size 512 ltac:(lia)). pose proof (Z.mod_pos_bound size 512 ltac:(lia)).
  set (b := Z.min _ _) in *. pose proof (Z.div_mod (b + 512 - 1) 512 ltac:(lia)). pose proof (Z.mod_pos_bound (b + 512 - 1) 512 ltac:(lia)). lia.
Qed.
Lemma addr_spec k : 0 <= k mod slots * ring_stride ∧ base + k mod slots * ring_stride + NETWORK_DDR_OFFSET_BYTES <= UINT64_MAX.
Proof.
  destruct Hok as [_ _ Hr]. pose proof (Z.mod_pos_bound k slots ltac:(lia)).
  assert (k mod slots * ring_stride <= (slots - 1) * ring_stride).
  { apply Z.mul_le_mono_nonneg_r; [unfold ring_stride; vm_compute; congruence|lia]. }
  change ring_stride with 16781312 in *. unfold NETWORK_DDR_OFFSET_BYTES. lia.
Qed.
(** What is left after [k] chunks. *)
Definition left_after (k : Z) : Z := size - Z.min (k * TCP_MAX_BYTES_PER_DESC) size.
Lemma left_spec k : 0 <= k <= chunk_count →
  (left_after k = 0 ↔ k = chunk_count) ∧ 0 <= left_after k <= UINT64_MAX ∧
  (k < chunk_count → (if TCP_MAX_BYTES_PER_DESC <? left_after k then TCP_MAX_BYTES_PER_DESC else left_after k) = bytes_at k ∧
     left_after k - bytes_at k = left_after (k + 1)).
Proof.
  intros Hk. destruct chunk_count_spec as [_ Hc]. destruct Hok as [Hs _ _]. pose proof (below k) as Hb. unfold left_after, bytes_at, TCP_MAX_BYTES_PER_DESC in *.
  split; [|split; [cint|]].
  - split; [|intros ->; lia]. intros H. destruct (decide (k < chunk_count)) as [Hlt|]; [apply Hb in Hlt; lia|lia].
  - intros Hlt. apply Hb in Hlt. destruct (Z.ltb_spec (16 * 1024 * 1024) (size - Z.min (k * (16 * 1024 * 1024)) size)); lia.
Qed.
End Rule.

(** ** The observed transport *)
Section Observed.
Context {W : Type} (T : Transport W) {HT : TransportOk T}.
Definition noted {A} (ev : A → list Ev) (m : Eff W A) : Eff (W * list Ev) A :=
  λ '(w, l), let '(a, w) := m w in (a, (w, l ++ ev a)).
Definition logged : Transport (W * list Ev) :=
  mkTransport (noted (λ _, []) (t_stop T)) (noted (λ _, []) (t_clock T))
    (λ lba n a, noted (λ rc, [Read lba n a rc]) (t_read T lba n a)) (λ b, noted (λ _, []) (t_route T b))
    (λ c, noted (λ rc, [Send (transfer_bytes c) (ddr_dma_base c) rc]) (t_send T c))
    (noted (λ _, []) (t_limit T)) (λ us, noted (λ _, []) (t_sleep T us)).
#[local] Abbreviation St := (W * list Ev)%type.

Lemma wp_unseen {A} (m : Eff W A) (Q : A → St → Prop) w l :
  (∀ a w', Q a (w', l)) → wp (noted (λ _, []) m) Q (w, l).
Proof using Type. intros H. unfold wp, noted. destruct (m w). cbn. rewrite app_nil_r. apply H. Qed.
Lemma throttle_unseen rounds us w l : wp (throttle_loop logged rounds us) (λ _ st, st.2 = l) (w, l).
Proof using Type.
  revert us w; induction rounds as [|rounds IH]; intros us w; cbn [throttle_loop]; [done|]. destruct (negb _); [done|].
  apply wp_bind, wp_unseen. intros [] w1; [done|]. apply wp_bind, wp_unseen. intros [] w2. apply IH.
Qed.
Lemma after_chunk_unseen start bytes w l : wp (network_throttle_after_chunk logged start bytes) (λ _ st, st.2 = l) (w, l).
Proof using Type.
  unfold network_throttle_after_chunk. apply wp_bind, wp_unseen. intros limit w1. destruct (_ || _); [done|]. cbv zeta.
  apply wp_bind, wp_unseen. intros t w2. destruct (_ <=? _); [done|]. apply throttle_unseen.
Qed.

Section File.
Context (slots size lba base : Z) (Hok : file_ok slots size lba base).
#[local] Abbreviation n := (chunk_count size).
#[local] Abbreviation saw l := (follow slots size lba base nothing l).
#[local] Abbreviation bytes k := (bytes_at size k).
#[local] Abbreviation sectors k := (sectors_at size k).
#[local] Abbreviation addr k := (addr_at slots base k).
#[local] Set Default Proof Using "Hok HT".

Lemma read_spec k s sf w l : 0 <= k < n → k < s + slots → saw l = Some (mkSeen k s false sf) →
  wp (t_read logged (lba_at lba k) (sectors k) (addr k)) (λ rc st,
    saw st.2 = Some (if bool_decide (rc = Some 0) then mkSeen (k + 1) s false sf else mkSeen k s true sf)) (w, l).
Proof using Type.
  intros Hk Hs Hl. unfold wp. cbn. destruct (t_read T _ _ _ w) as [rc w1]. cbn. eapply follow_next; [done|]. cbn.
  rewrite bool_decide_true by done. replace (k <? n) with true by lia. by replace (k <? s + slots) with true by lia.
Qed.
(** A send may happen while the reader has failed. *)
Lemma send_spec k r rf w l c : k < r → transfer_bytes c = bytes k → ddr_dma_base c = addr k → saw l = Some (mkSeen r k rf false) →
  wp (t_send logged c) (λ rc st,
    saw st.2 = Some (if bool_decide (rc = Some 0) then mkSeen r (k + 1) rf false else mkSeen r k rf true)) (w, l).
Proof using Type.
  intros Hk Eb Ea Hl. unfold wp. cbn. destruct (t_send T c w) as [rc w1]. cbn. eapply follow_next; [done|]. cbn. rewrite Eb, Ea.
  rewrite bool_decide_true by done. by replace (k <? r) with true by lia.
Qed.
Lemma bind_route {A} b (m : option TcpTransferConfig → Eff St A) (Q : A → St → Prop) w l :
  (∀ c w', (∀ tcp, c = Some tcp → transfer_bytes tcp = b) → wp (m c) Q (w', l)) → wp (ebind (t_route logged b) m) Q (w, l).
Proof using HT.
  intros H. apply wp_bind. unfold wp at 1. cbn. destruct (t_route T b w) as [c w1] eqn:E. cbn. rewrite app_nil_r. apply H.
  intros tcp ->. by eapply route_bytes.
Qed.
End File.

(** *** One after the other: a ring of one slot *)
Section Serial.
Context (size lba base ring_bytes : Z) (cfg : ChannelConfig) (Hok : file_ok 1 size lba base) (Hbase : ddr_hw_base cfg = base).
#[local] Abbreviation n := (chunk_count size).
#[local] Abbreviation saw l := (follow 1 size lba base nothing l).
#[local] Set Default Proof Using "Hok HT Hbase".
(** The numbers of chunks that the result and the observation agree on. *)
Definition serial_post (o : option (Z * Z)) (l : list Ev) : Prop :=
  ∃ v, saw l = Some v ∧ ∀ rc sent, o = Some (rc, sent) → sends v = sent ∧ (rc = 0 → v = mkSeen n n false false).
Lemma one_slot k : addr_at 1 base k = base + NETWORK_DDR_OFFSET_BYTES.
Proof using Type. unfold addr_at. rewrite Z.mod_1_r. lia. Qed.
Lemma failure_not_0 rc : failure_rc rc ≠ 0.
Proof using Type. unfold failure_rc. by case_match. Qed.
Lemma serial_spec steps k cur w l :
  0 <= k <= n → n <= k + Z.of_nat steps → (k < n → cur = lba_at lba k) → saw l = Some (mkSeen k k false false) →
  wp (serial_loop logged cfg TCP_MAX_BYTES_PER_DESC ring_bytes steps (left_after size k) cur k) (λ o (st : St), serial_post o st.2) (w, l).
Proof.
  destruct (chunk_count_spec 1 size lba base Hok) as [Hn _].
  revert k cur w l; induction steps as [|steps IH]; intros k cur w l Hk Hst Hcur Hl;
    destruct (left_spec 1 size lba base Hok k Hk) as (Hz&Hp&Hleft); cbn [serial_loop].
  all: destruct (Z.ltb_spec 0 (left_after size k)); cbn [negb];
    [|apply wp_ret; eexists; split; [done|]; intros rc sent [= <- <-]; split; [done|]; intros _; assert (k = n) as -> by (apply Hz; lia); done].
  { lia. }
  assert (Hkn : k < n) by lia. destruct (Hleft Hkn) as [Hc Hnext]. rewrite (Hcur Hkn), Hc. clear Hcur.
  destruct (bytes_spec 1 size lba base Hok k ltac:(lia)) as (Hby&Hsec&Hsb&Hfull). rewrite Hsec.
  assert (Hstop : ∀ rc w', rc ≠ 0 → wp (eret (Some (rc, k))) (λ o (st : St), serial_post o st.2) (w', l)).
  { intros rc w' Hrc. apply wp_ret. eexists. split; [done|]. by intros ? ? [= <- <-]. }
  apply wp_bind, wp_unseen. intros start w1. apply wp_bind, wp_unseen. intros stop w2. destruct stop; [by apply Hstop|].
  destruct (_ || _); [by apply Hstop|]. destruct (addr_spec 1 size lba base Hok 0) as [_ Ha].
  assert (Haddr : u64 (ddr_hw_base cfg + NETWORK_DDR_OFFSET_BYTES) = addr_at 1 base k).
  { rewrite one_slot, Hbase. apply u64_small. rewrite Z.mod_1_r in Ha. destruct Hok as [_ _ Hr]. unfold NETWORK_DDR_OFFSET_BYTES in *. cint. }
  rewrite Haddr. apply wp_bind. eapply wp_mono; [apply (read_spec 1 size lba base k k false); [lia|lia|done]|].
  intros rc [w3 l3] H3. cbn [snd] in H3. destruct rc as [rc|]; [|apply wp_ret; by eexists].
  destruct (Z.eqb_spec rc 0) as [->|Hrc]; cbn [negb].
  2:{ rewrite bool_decide_false in H3 by congruence. apply wp_ret. eexists. split; [done|]. intros ? ? [= <- <-]. split; [done|].
      by intros H0%failure_not_0. }
  rewrite bool_decide_true in H3 by done. apply wp_bind. unfold send_chunk. apply bind_route. intros c w4 Hc4.
  destruct c as [tcp|].
  2:{ apply wp_ret. apply wp_ret. eexists. split; [done|]. intros ? ? [= <- <-]. split; [done|]. by intros H0%failure_not_0. }
  eapply wp_mono; [eapply (send_spec 1 size lba base k (k + 1)); [lia|exact (Hc4 tcp eq_refl)|done|done]|].
  intros rc [w5 l5] H5. cbn [snd] in H5. destruct rc as [rc|]; [|apply wp_ret; by eexists].
  destruct (Z.eqb_spec rc 0) as [->|Hrc]; cbn [negb].
  2:{ rewrite bool_decide_false in H5 by congruence. apply wp_ret. eexists. split; [done|]. intros ? ? [= <- <-]. split; [done|].
      by intros H0%failure_not_0. }
  rewrite bool_decide_true in H5 by done. apply wp_bind. eapply wp_mono; [apply after_chunk_unseen|]. intros [] [w6 l6] E. cbn [snd] in E. subst l6.
  destruct (lba_spec 1 size lba base Hok k ltac:(lia)) as (Hl1&Hl2&Hl3). rewrite Hnext, (u32_small (k + 1)) by cint.
  destruct (left_spec 1 size lba base Hok (k + 1) ltac:(lia)) as (_&Hp1&_). rewrite (u64_small (left_after size (k + 1))), (u64_small (lba_at lba k + _)) by cint.
  apply IH; [lia|lia| |done]. intros Hlt. by apply Hl3.
Qed.
End Serial.

(** *** The two threads *)
Section Threads.
Context (slots size lba ring_bytes : Z) (cfg : ChannelConfig).
#[local] Abbreviation base := (ddr_hw_base cfg).
Context (Hok : file_ok slots size lba base).
#[local] Abbreviation n := (chunk_count size).
#[local] Abbreviation saw l := (follow slots size lba base nothing l).
#[local] Abbreviation j := (mkJob slots n cfg TCP_MAX_BYTES_PER_DESC ring_stride ring_bytes size lba).
#[local] Set Default Proof Using "Hok HT".

(** The slot of chunk [k], when the chunks before [S] have been sent and those before [R] have been read; [busy]: the
    reader has the slot of [R], [holding]: the sender has that of [S]. *)
Definition state_at (S R : Z) (busy holding : bool) (k : Z) : NetworkSlotState :=
  if k <? R then if (k =? S) && holding then NETWORK_SLOT_SENDING else NETWORK_SLOT_READY
  else if (k =? R) && busy then NETWORK_SLOT_READING else NETWORK_SLOT_FREE.
Definition holds_chunk (k : Z) (sl : NetworkPipelineSlot) : Prop :=
  sl_chunk_index sl = k ∧ sl_ring_slot sl = k mod slots ∧ sl_send_bytes sl = bytes_at size k ∧ sl_ddr_hw sl = addr_at slots base k.
Definition slot_ok (S R : Z) (busy holding : bool) (k : Z) (sl : NetworkPipelineSlot) : Prop :=
  sl_state sl = state_at S R busy holding k ∧ (k < R ∨ (k = R ∧ busy = true) → holds_chunk k sl).
Definition reader_ok (pc : ReadPc) (R : Z) (busy rf : bool) (r : Z) : Prop :=
  match pc with
  | ReadTop => busy = false ∧ rf = false ∧ r = R
  | ReadAcquire => busy = false ∧ rf = false ∧ r = R ∧ R < n
  | ReadDevice => busy = true ∧ rf = false ∧ r = R
  | ReadReady => busy = true ∧ rf = false ∧ r = R + 1
  | ReadFail _ | ReadEnd | ReadHung => r = R ∧ (rf = true → busy = true) end.
Definition sender_ok (pc : SendPc) (S : Z) (holding sf : bool) (s : Z) : Prop :=
  match pc with
  | SendWait => holding = false ∧ sf = false ∧ s = S
  | SendDevice copy => holding = true ∧ sf = false ∧ s = S ∧ holds_chunk S copy
  | SendFree => holding = true ∧ sf = false ∧ s = S + 1
  | SendFail _ | SendEnd | SendHung => s = S ∧ (sf = true → holding = true) end.
Record inv_at (S R : Z) (busy holding : bool) (x : Net) (v : Seen) : Prop := {
  iv_next : next_send_chunk (ctx x) = S; iv_chunk : chunk_index (reader x) = R;
  iv_order : 0 <= S <= R ∧ R <= n ∧ R <= S + slots;
  iv_busy : busy = true → R < n ∧ R < S + slots; iv_holding : holding = true → S < R;
  iv_left : remaining_bytes (reader x) = left_after size R; iv_lba : R < n → cur_lba (reader x) = lba_at lba R;
  iv_len : length (system_pipeline.slots (ctx x)) = Z.to_nat slots;
  iv_slots : ∀ k, S <= k < S + slots → slot_ok S R busy holding k (slot_of (ctx x) (k mod slots));
  iv_reader : reader_ok (r_pc (reader x)) R busy (read_failed v) (reads v);
  iv_sender : sender_ok (sender x) S holding (send_failed v) (sends v);
  iv_done : producer_done (ctx x) = true → R = n }.
Definition inv (x : Net) (l : list Ev) : Prop := ∃ S R busy holding v, inv_at S R busy holding x v ∧ saw l = Some v.

(** **** The ring *)
Lemma mod_inj S k k' : S <= k < S + slots → S <= k' < S + slots → k mod slots = k' mod slots → k = k'.
Proof using Type.
  intros Hk Hk' E. pose proof (Z.div_mod k slots ltac:(lia)). pose proof (Z.div_mod k' slots ltac:(lia)). rewrite E in *.
  destruct (Z.lt_trichotomy (k / slots) (k' / slots)) as [H1|[H1|H1]]; [nia|by rewrite H1 in *; lia|nia].
Qed.
Lemma slot_set c i i' sl : length (system_pipeline.slots c) = Z.to_nat slots → 0 <= i < slots → 0 <= i' < slots →
  slot_of (set_slot i sl c) i' = if decide (i = i') then sl else slot_of c i'.
Proof using Type.
  intros Hl Hi Hi'. unfold slot_of, set_slot. cbn. change (system_pipeline.slots (upd _ _ c)) with (<[Z.to_nat i := sl]> (system_pipeline.slots c)).
  destruct (decide (i = i')) as [->|]; [rewrite list_lookup_insert_eq by lia; done|]. by rewrite list_lookup_insert_ne by lia.
Qed.
Lemma in_ring k : 0 <= k mod slots < slots.
Proof. destruct Hok as [_ _ ?]. apply Z.mod_pos_bound. lia. Qed.
(** The slot of chunk [K] is rewritten. *)
Lemma slots_set c S R busy holding S' R' busy' holding' K sl :
  length (system_pipeline.slots c) = Z.to_nat slots →
  (∀ k, S <= k < S + slots → slot_ok S R busy holding k (slot_of c (k mod slots))) →
  S' <= K < S' + slots → slot_ok S' R' busy' holding' K sl →
  (∀ k, S' <= k < S' + slots → k ≠ K → S <= k < S + slots ∧
     (state_at S R busy holding k = state_at S' R' busy' holding' k ∧ (k < R' ∨ (k = R' ∧ busy' = true) → k < R ∨ (k = R ∧ busy = true)))) →
  ∀ k, S' <= k < S' + slots → slot_ok S' R' busy' holding' k (slot_of (set_slot (K mod slots) sl c) (k mod slots)).
Proof.
  intros Hl Hold HK Hsl Hrest k Hk. rewrite slot_set by (done || apply in_ring).
  destruct (decide (K mod slots = k mod slots)) as [E|E]; [by apply mod_inj with (S := S') in E as <-|].
  destruct (Hrest k Hk) as (Hk0&Hst&Himp); [by intros ->|]. destruct (Hold k Hk0) as [H1 H2]. split; [by rewrite H1|]. auto.
Qed.

(** **** The reader *)
Lemma reader_chunk r R : 0 <= R < n → chunk_index r = R → remaining_bytes r = left_after size R → cur_lba r = lba_at lba R →
  chunk_bytes j r = bytes_at size R ∧ read_sectors j r = sectors_at size R ∧ ring_slot j r = R mod slots ∧
  network_ddr_hw j r = addr_at slots base R.
Proof.
  intros HR Er El Ec. destruct (left_spec slots size lba base Hok R ltac:(lia)) as (_&_&Hb). destruct Hb as [Hb _]; [lia|].
  assert (E1 : chunk_bytes j r = bytes_at size R) by (unfold chunk_bytes; cbn [max_payload_bytes]; by rewrite El).
  assert (E3 : ring_slot j r = R mod slots) by (unfold ring_slot; by rewrite Er).
  split; [done|]. split; [unfold read_sectors; rewrite E1; by apply (bytes_spec slots size lba base Hok)|]. split; [done|].
  destruct (addr_spec slots size lba base Hok R) as [Ha1 Ha2]. destruct Hok as [_ _ Hr].
  unfold network_ddr_hw, slot_base. rewrite E3. cbn [network_ring_stride j_cfg]. unfold addr_at. unfold NETWORK_DDR_OFFSET_BYTES in *.
  rewrite (u64_small (R mod slots * ring_stride)), (u64_small (base + _)) by cint. apply u64_small. cint.
Qed.
Lemma set_error_same rc c : system_pipeline.slots (network_pipeline_set_error rc c) = system_pipeline.slots c ∧
  next_send_chunk (network_pipeline_set_error rc c) = next_send_chunk c ∧
  producer_done (network_pipeline_set_error rc c) = producer_done c.
Proof using Type. unfold network_pipeline_set_error. by case_match. Qed.
Lemma inv_ctx S R busy holding x v c :
  inv_at S R busy holding x v → system_pipeline.slots c = system_pipeline.slots (ctx x) → next_send_chunk c = next_send_chunk (ctx x) →
  producer_done c = producer_done (ctx x) → inv_at S R busy holding (x <| ctx := c |>) v.
Proof using Type.
  destruct x as [c0 r0 s0]. cbn. intros [] E1 E2 E3. cbn in *. split; cbn; try done; try congruence.
  - intros k Hk. unfold slot_of. rewrite E1. by apply iv_slots0.
  - intros H. apply iv_done0. congruence.
Qed.
Lemma inv_reader_pc S R busy holding x v v' pc :
  inv_at S R busy holding x v → reader_ok pc R busy (read_failed v') (reads v') → sends v' = sends v → send_failed v' = send_failed v →
  inv_at S R busy holding (x <| reader ::= λ r, r <| r_pc := pc |> |>) v'.
Proof using Type. intros [] Hpc E1 E2. split; try done. cbn. by rewrite E1, E2. Qed.
Lemma inv_sender_pc S R busy holding x v pc :
  inv_at S R busy holding x v → sender_ok pc S holding (send_failed v) (sends v) → inv_at S R busy holding (x <| sender := pc |>) v.
Proof using Type. intros [] Hpc. by split. Qed.

Definition read_post (x : Net) (l : list Ev) (o : option (NetworkPipelineCtx * Reader)) (st : St) : Prop :=
  match o with Some (c, r) => inv (x <| ctx := c |> <| reader := r |>) st.2 | None => st.2 = l end.
Lemma read_pc_post x l S R busy holding v v' l' pc w :
  inv_at S R busy holding x v → saw l' = Some v' → reader_ok pc R busy (read_failed v') (reads v') →
  sends v' = sends v → send_failed v' = send_failed v →
  read_post x l (Some (ctx x, (reader x) <| r_pc := pc |>)) (w, l').
Proof using Type.
  intros Hi Hl Hpc E1 E2. exists S, R, busy, holding, v'. split; [|done]. pose proof (inv_reader_pc _ _ _ _ _ _ _ pc Hi Hpc E1 E2) as H.
  by destruct x as [c r sd].
Qed.
Lemma read_acquire_inv S R holding x v l w :
  inv_at S R false holding x v → saw l = Some v → r_pc (reader x) = ReadAcquire →
  sl_state (slot_of (ctx x) (R mod slots)) = NETWORK_SLOT_FREE →
  read_post x l (Some (set_slot (ring_slot j (reader x)) (filled_slot j (reader x)) (ctx x), (reader x) <| r_pc := ReadDevice |>)) (w, l).
Proof.
  intros Hi Hl Hpc Hfree. pose proof Hi as []. rewrite Hpc in iv_reader0. destruct iv_reader0 as (_&Hrf&Hr&HR).
  pose proof (fo_ring _ _ _ _ Hok) as (Hs&_).
  destruct (reader_chunk (reader x) R ltac:(lia) iv_chunk0 iv_left0 (iv_lba0 HR)) as (E1&E2&E3&E4). rewrite E3.
  assert (Hspan : R < S + slots).
  { destruct (decide (R < S + slots)) as [|Hge]; [done|]. assert (R = S + slots) as ER by lia.
    destruct (iv_slots0 S ltac:(lia)) as [Hst _]. rewrite ER in Hfree. replace ((S + slots) mod slots) with (S mod slots) in Hfree.
    - rewrite Hst in Hfree. unfold state_at in Hfree. replace (S <? R) with true in Hfree by lia. by case_match.
    - rewrite <-(Z.mul_1_l slots) at 2. by rewrite Z_mod_plus_full. }
  exists S, R, true, holding, v. split; [|done]. split; cbn; try done; try lia.
  - change (length (<[Z.to_nat (R mod slots) := filled_slot j (reader x)]> (system_pipeline.slots (ctx x))) = Z.to_nat slots).
    by rewrite length_insert.
  - eapply slots_set; [done|exact iv_slots0|lia| |].
    + split; [unfold state_at; cbn; by rewrite Z.ltb_irrefl, Z.eqb_refl|]. intros _. unfold filled_slot. split; cbn; [done|]. by rewrite E3.
    + intros k Hk Hne. split; [done|]. unfold state_at. split; [|intros [?|[? _]]; [by left|lia]].
      replace (k =? R) with false by lia. done.
Qed.
Lemma read_ready_inv S R holding x v l w :
  inv_at S R true holding x v → saw l = Some v → r_pc (reader x) = ReadReady →
  let r := reader x in
  read_post x l (Some (set_slot_state (ring_slot j r) NETWORK_SLOT_READY (ctx x),
    mkReader ReadTop (u64 (remaining_bytes r - chunk_bytes j r)) (u64 (cur_lba r + read_sectors j r)) (u32 (chunk_index r + 1)))) (w, l).
Proof.
  intros Hi Hl Hpc r. pose proof Hi as []. rewrite Hpc in iv_reader0. destruct iv_reader0 as (_&Hrf&Hr). destruct (iv_busy0 eq_refl) as [HR Hspan].
  destruct (reader_chunk (reader x) R ltac:(lia) iv_chunk0 iv_left0 (iv_lba0 HR)) as (E1&E2&E3&E4). fold r in E1, E2, E3, E4. rewrite E1, E2, E3.
  destruct (left_spec slots size lba base Hok R ltac:(lia)) as (_&_&Hb). destruct (Hb HR) as [_ Hnext].
  destruct (left_spec slots size lba base Hok (R + 1) ltac:(lia)) as (_&Hp&_). destruct (chunk_count_spec slots size lba base Hok) as [Hn _].
  destruct (lba_spec slots size lba base Hok R ltac:(lia)) as (Hl1&Hl2&Hl3). destruct (bytes_spec slots size lba base Hok R ltac:(lia)) as (_&_&Hsb&_).
  subst r. rewrite iv_left0, (iv_lba0 HR), iv_chunk0, Hnext, (u64_small (left_after size (R + 1))), (u64_small (lba_at lba R + _)), u32_small by cint.
  exists S, (R + 1), false, holding, v. split; [|done]. split; cbn; try done; try lia.
  - unfold set_slot_state. change (length (<[Z.to_nat (R mod slots) := (slot_of (ctx x) (R mod slots)) <| sl_state := NETWORK_SLOT_READY |>]>
      (system_pipeline.slots (ctx x))) = Z.to_nat slots). by rewrite length_insert.
  - unfold set_slot_state. eapply slots_set; [done|exact iv_slots0|lia| |].
    + destruct (iv_slots0 R ltac:(lia)) as [_ Hh]. split.
      * unfold state_at; cbn. replace (R <? R + 1) with true by lia. destruct (Z.eqb_spec R S) as [->|]; [|done].
        destruct holding; [|done]. specialize (iv_holding0 eq_refl). lia.
      * intros _. apply Hh. by right.
    + intros k Hk Hne. split; [done|]. unfold state_at. split; [|intros [?|[? ?]]; [left; lia|done]].
      replace (k <? R + 1) with (k <? R) by lia. replace (k =? R) with false by lia. by rewrite andb_false_r.
  - intros H. apply iv_done0 in H. lia.
Qed.
Lemma read_step_inv x w l : inv x l → wp (network_read_step logged j (ctx x) (reader x)) (read_post x l) (w, l).
Proof.
  intros (S&R&busy&holding&v&Hi&Hl). pose proof Hi as []. unfold network_read_step. destruct (r_pc (reader x)) eqn:Hpc; cbn in iv_reader0.
  - destruct iv_reader0 as (->&Hrf&Hr). destruct (left_spec slots size lba base Hok R ltac:(lia)) as (Hz&Hp&_).
    destruct (Z.ltb_spec 0 (remaining_bytes (reader x))); cbn [negb].
    + apply wp_bind, wp_unseen. intros stop w1. apply wp_ret. eapply read_pc_post; [done|done| |done|done].
      destruct stop; [by rewrite Hrf|]. destruct (fits_ring _ _); [|by cbn; rewrite Hrf]. repeat (split; [done|]).
      destruct (decide (R < n)) as [|Hge]; [done|]. assert (R = n) as E by lia. pose proof (proj2 Hz E). lia.
    + apply wp_ret. assert (HR : R = n) by (apply Hz; lia). exists S, R, false, holding, v. split; [|done].
      split; cbn; rewrite ?Hrf; try done. all: try lia.
  - destruct iv_reader0 as (->&Hrf&Hr&HR). apply wp_ret.
    destruct (reader_chunk (reader x) R ltac:(lia) iv_chunk0 iv_left0 (iv_lba0 HR)) as (_&_&E3&_).
    destruct (negb _); [eapply read_pc_post; [done|done|cbn; by rewrite Hrf|done|done]|]. destruct (decide _) as [Hf|]; [|done]. rewrite E3 in Hf. by eapply read_acquire_inv.
  - destruct iv_reader0 as (->&Hrf&Hr). destruct (iv_busy0 eq_refl) as [HR Hspan].
    destruct (reader_chunk (reader x) R ltac:(lia) iv_chunk0 iv_left0 (iv_lba0 HR)) as (E1&E2&E3&E4). rewrite E2, E4, (iv_lba0 HR).
    assert (Hsends : S <= sends v).
    { destruct (sender x); cbn in iv_sender0; naive_solver lia. }
    apply wp_bind. destruct v as [r s rf sf]. cbn in Hrf, Hr, iv_sender0, Hsends. subst r rf.
    eapply wp_mono; [apply (read_spec slots size lba base R s sf); [lia|lia|done]|]. intros rc [w1 l1] H1. cbn [snd] in H1. apply wp_ret.
    destruct rc as [rc|]; [destruct (Z.eqb_spec rc 0) as [->|Hrc]|].
    + by eapply read_pc_post.
    + rewrite bool_decide_false in H1 by congruence. by eapply read_pc_post.
    + by eapply read_pc_post.
  - destruct iv_reader0 as (->&Hrf&Hr). apply wp_ret. eapply read_ready_inv; [done|done|done].
  - apply wp_ret. destruct (set_error_same rc (ctx x)) as (F1&F2&F3). exists S, R, busy, holding, v. split; [|done].
    pose proof (inv_ctx _ _ _ _ _ _ _ Hi F1 F2 F3) as H. apply (inv_reader_pc _ _ _ _ _ _ v ReadEnd) in H; [|done..]. by destruct x.
  - done.
  - done.
Qed.

(** **** The sender *)
Definition send_post (x : Net) (l : list Ev) (o : option (NetworkPipelineCtx * SendPc)) (st : St) : Prop :=
  match o with Some (c, pc) => inv (x <| ctx := c |> <| sender := pc |>) st.2 | None => st.2 = l end.
Lemma send_pc_post x l S R busy holding v v' l' pc w :
  inv_at S R busy holding x v → saw l' = Some v' → sender_ok pc S holding (send_failed v') (sends v') →
  reads v' = reads v → read_failed v' = read_failed v → send_post x l (Some (ctx x, pc)) (w, l').
Proof using Type.
  intros [] Hl Hpc E1 E2. exists S, R, busy, holding, v'. split; [|done]. destruct x as [c r sd]. split; try done.
  cbn. by rewrite E1, E2.
Qed.
Lemma set_slot_length i sl c : length (system_pipeline.slots (set_slot i sl c)) = length (system_pipeline.slots c).
Proof using Type.
  unfold set_slot. change (length (<[Z.to_nat i := sl]> (system_pipeline.slots c)) = length (system_pipeline.slots c)). apply length_insert.
Qed.
Lemma send_take_inv S R busy x v l w :
  inv_at S R busy false x v → saw l = Some v → sender x = SendWait → S < R →
  let slot := (slot_of (ctx x) (S mod slots)) <| sl_state := NETWORK_SLOT_SENDING |> in
  send_post x l (Some (set_slot (S mod slots) slot (ctx x), SendDevice slot)) (w, l).
Proof.
  intros Hi Hl Hpc HSR slot. pose proof Hi as []. rewrite Hpc in iv_sender0. destruct iv_sender0 as (_&Hsf&Hs).
  destruct (iv_slots0 S ltac:(pose proof (fo_ring _ _ _ _ Hok); lia)) as [_ Hh].
  assert (Hc : holds_chunk S slot) by (apply Hh; by left). pose proof (fo_ring _ _ _ _ Hok) as (Hs0&_).
  exists S, R, busy, true, v. split; [|done]. split; try done.
  - change (length (system_pipeline.slots (set_slot (S mod slots) slot (ctx x))) = Z.to_nat slots). by rewrite set_slot_length.
  - eapply slots_set; [done|exact iv_slots0|lia| |].
    + split; [|done]. unfold state_at. cbn. replace (S <? R) with true by lia. by rewrite Z.eqb_refl.
    + intros k Hk Hne. split; [done|]. unfold state_at. replace (k =? S) with false by lia. by split.
Qed.
Lemma send_free_inv S R busy x v l w :
  inv_at S R busy true x v → saw l = Some v → sender x = SendFree →
  send_post x l (Some ((set_slot_state (S mod slots) NETWORK_SLOT_FREE (ctx x)) <| next_send_chunk ::= λ n, u32 (n + 1) |>, SendWait)) (w, l).
Proof.
  intros Hi Hl Hpc. pose proof Hi as []. rewrite Hpc in iv_sender0. destruct iv_sender0 as (_&Hsf&Hs). specialize (iv_holding0 eq_refl).
  destruct (chunk_count_spec slots size lba base Hok) as [Hn _]. pose proof (fo_ring _ _ _ _ Hok) as (Hs0&_).
  exists (S + 1), R, busy, false, v. split; [|done]. split; try done; try lia.
  - change (u32 (next_send_chunk (ctx x) + 1) = S + 1). rewrite iv_next0. apply u32_small. cint.
  - change (length (system_pipeline.slots (set_slot_state (S mod slots) NETWORK_SLOT_FREE (ctx x))) = Z.to_nat slots).
    unfold set_slot_state. by rewrite set_slot_length.
  - assert (HK : (S + slots) mod slots = S mod slots) by (rewrite <-(Z.mul_1_l slots) at 1; by rewrite Z_mod_plus_full).
    cut (∀ k, S + 1 <= k < S + 1 + slots → slot_ok (S + 1) R busy false k
      (slot_of (set_slot ((S + slots) mod slots) ((slot_of (ctx x) (S mod slots)) <| sl_state := NETWORK_SLOT_FREE |>) (ctx x)) (k mod slots))).
    { rewrite HK. intros H k Hk. exact (H k Hk). }
    eapply slots_set; [done|exact iv_slots0|lia| |].
    + split; [|intros [?|[? Hb]]; [lia|]; destruct (iv_busy0 Hb); lia]. unfold state_at. replace (S + slots <? R) with false by lia.
      destruct (Z.eqb_spec (S + slots) R) as [HR|]; [|done]. destruct busy; [|done]. destruct (iv_busy0 eq_refl). lia.
    + intros k Hk Hne. split; [lia|]. split; [|done]. unfold state_at. replace (k =? S) with false by lia. cbn. by rewrite andb_false_r.
Qed.
Lemma send_step_inv x w l : inv x l → wp (network_send_step logged j (ctx x) (sender x)) (send_post x l) (w, l).
Proof.
  intros (S&R&busy&holding&v&Hi&Hl). pose proof Hi as []. pose proof (fo_ring _ _ _ _ Hok) as (Hs0&_).
  unfold network_send_step. rewrite iv_next0. cbn [slot_count total_chunks]. destruct (sender x) as [|copy| |rc| |] eqn:Hpc; cbn in iv_sender0.
  - destruct iv_sender0 as (->&Hsf&Hs). apply wp_ret. destruct (Z.ltb_spec S n) as [HS|]; cbn [negb]; [|eapply send_pc_post; [done|done|cbn; by rewrite Hsf|done|done]].
    destruct (negb (error_rc (ctx x) =? 0)); [eapply send_pc_post; [done|done|cbn; by rewrite Hsf|done|done]|].
    destruct (iv_slots0 S ltac:(lia)) as [Hst _]. unfold state_at in Hst. rewrite Z.eqb_refl in Hst. destruct (decide _) as [[Hr _]|Hnr].
    + apply (send_take_inv S R busy x v); [done|done|done|]. rewrite Hr in Hst. destruct (Z.ltb_spec S R); [done|].
      by destruct ((S =? R) && busy).
    + destruct (producer_done (ctx x)) eqn:Hd; [|done]. cbn [andb]. assert (R = n) as HR by auto. case_bool_decide as Hf; [|done].
      rewrite Hf in Hst. replace (S <? R) with true in Hst by lia. done.
  - destruct iv_sender0 as (->&Hsf&Hs&Hidx&Hring&Hb&Ha). specialize (iv_holding0 eq_refl).
    assert (Hreads : R <= reads v) by (destruct (r_pc (reader x)); cbn in iv_reader0; naive_solver lia).
    apply wp_bind, wp_unseen. intros stop w1. destruct stop; [apply wp_ret; eapply send_pc_post; [done|done|cbn; by rewrite Hsf|done|done]|].
    apply bind_route. intros c w2 Hc. destruct c as [tcp|]; [|apply wp_ret; eapply send_pc_post; [done|done|cbn; by rewrite Hsf|done|done]].
    apply wp_bind, wp_unseen. intros start w3. destruct v as [r s rf sf]. cbn in Hsf, Hs, Hreads. subst sf s.
    apply wp_bind. eapply wp_mono; [eapply (send_spec slots size lba base S r rf); [lia| |exact Ha|done]|].
    { change (transfer_bytes tcp = bytes_at size S). rewrite <-Hb. by apply Hc. }
    intros rc [w4 l4] H4. cbn [snd] in H4. destruct rc as [rc|]; [|apply wp_ret; by eapply send_pc_post].
    destruct (Z.eqb_spec rc 0) as [->|Hrc]; cbn [negb].
    2:{ rewrite bool_decide_false in H4 by congruence. apply wp_ret. by eapply send_pc_post. }
    rewrite bool_decide_true in H4 by done. apply wp_bind. eapply wp_mono; [apply after_chunk_unseen|].
    intros [] [w5 l5] E. cbn [snd] in E. subst l5. apply wp_ret. by eapply send_pc_post.
  - destruct iv_sender0 as (->&Hsf&Hs). apply wp_ret. by apply (send_free_inv S R busy x v).
  - apply wp_ret. destruct (set_error_same rc (ctx x)) as (F1&F2&F3). exists S, R, busy, holding, v. split; [|done].
    pose proof (inv_ctx _ _ _ _ _ _ _ Hi F1 F2 F3) as H. apply (inv_sender_pc _ _ _ _ _ _ SendEnd) in H; [|done]. by destruct x.
  - done.
  - done.
Qed.
(** **** Any schedule *)
Lemma step_inv t x w l : inv x l → wp (step logged j t x) (λ o st, inv (default x o) st.2) (w, l).
Proof.
  intros Hi. destruct t; cbn [step]; apply wp_bind; (eapply wp_mono; [first [by apply read_step_inv|by apply send_step_inv]|]);
    intros o [w1 l1] H; apply wp_ret; destruct o as [[c r]|]; cbn [default]; [exact H|by cbn in *; subst l1..|exact H|by cbn in *; subst l1].
Qed.
Lemma run_inv sched x w l : inv x l → wp (run logged j sched x) (λ y st, inv y st.2) (w, l).
Proof.
  revert x w l; induction sched as [|t sched IH]; intros x w l Hi; cbn [run]; [by apply wp_ret|].
  apply wp_bind. eapply wp_mono; [by apply step_inv|]. intros o [w1 l1] H1. by apply IH.
Qed.
Lemma start_inv x : x = init j ∨ x = (init j) <| sender := SendFail (-1) |> → inv x [].
Proof.
  intros Hx. pose proof (fo_ring _ _ _ _ Hok) as (Hs0&_). destruct (chunk_count_spec slots size lba base Hok) as [Hn _].
  exists 0, 0, false, false, nothing. split; [|done].
  assert (Hfree : ∀ k, 0 <= k < 0 + slots → slot_ok 0 0 false false k
    (default free_slot (replicate (Z.to_nat slots) free_slot !! Z.to_nat (k mod slots)))).
  { intros k Hk. rewrite lookup_replicate_2 by (pose proof (in_ring k); lia). split; [|intros [?|[_ ?]]; [lia|done]].
    unfold state_at. replace (k <? 0) with false by lia. by rewrite andb_false_r. }
  destruct Hx as [-> | ->]; split; cbn; try done; try lia; try apply length_replicate.
  all: try (unfold left_after; destruct Hok as [? _ _]; lia). all: try (unfold lba_at; lia).
Qed.
(** Success: the sender has sent every chunk, so no flag can be set. *)
Lemma joined_whole x l : inv x l → joined j x = Some 0 → saw l = Some (mkSeen n n false false).
Proof.
  intros (S&R&busy&holding&v&[]&Hl). unfold joined, ended. destruct (bool_decide _) eqn:Hr; [|done].
  apply bool_decide_eq_true in Hr. rewrite Hr in iv_reader0. destruct (sender x); try done. cbn [andb total_chunks]. rewrite iv_next0.
  destruct (Z.eqb_spec (error_rc (ctx x)) 0) as [|He]; [|intros [= H]; by destruct He]. destruct (Z.eqb_spec S n) as [->|]; [|done].
  intros _. cbn in iv_reader0, iv_sender0. assert (R = n) as -> by lia. rewrite Hl. f_equal.
  destruct v as [r s rf sf]; cbn in *. destruct iv_reader0 as [-> Hrf], iv_sender0 as [-> Hsf]. f_equal.
  - destruct rf; [|done]. destruct (iv_busy0 (Hrf eq_refl)). lia.
  - destruct sf; [|done]. specialize (iv_holding0 (Hsf eq_refl)). lia.
Qed.
Lemma pipelined_spec threads w : wp (pipelined logged threads j) (λ o st, ∃ v, saw st.2 = Some v ∧ (o = Some 0 → v = mkSeen n n false false)) (w, []).
Proof.
  unfold pipelined. destruct (negb _); [apply wp_ret; by exists nothing|]. apply wp_bind. eapply wp_mono.
  - apply run_inv, start_inv. destruct (sender_created threads); auto.
  - intros x [w1 l1] Hx. apply wp_ret. cbn [snd] in *. destruct (joined j x) as [rc|] eqn:Hj.
    + destruct (decide (rc = 0)) as [->|Hrc].
      * eexists. split; [by apply (joined_whole x)|done].
      * destruct Hx as (?&?&?&?&v&_&Hv). exists v. split; [done|]. intros [= H]. done.
    + destruct Hx as (?&?&?&?&v&_&Hv). by exists v.
Qed.

(** **** The threads end *)
(** What keeps a thread from being forgotten: one that has ended has done its part or has left an error. *)
Record live (x : Net) : Prop := {
  lv_reader : r_pc (reader x) = ReadEnd → producer_done (ctx x) = true ∨ error_rc (ctx x) ≠ 0;
  lv_sender : sender x = SendEnd → n <= next_send_chunk (ctx x) ∨ error_rc (ctx x) ≠ 0;
  lv_read_fail rc : r_pc (reader x) = ReadFail rc → rc ≠ 0;
  lv_send_fail rc : sender x = SendFail rc → rc ≠ 0;
  lv_hung : r_pc (reader x) ≠ ReadHung ∧ sender x ≠ SendHung }.
Definition read_rank (pc : ReadPc) : Z :=
  match pc with ReadTop => 4 | ReadAcquire => 3 | ReadDevice => 2 | ReadReady => 1 | _ => 1 end.
Definition send_rank (pc : SendPc) : Z :=
  match pc with SendWait => 3 | SendDevice _ => 2 | SendFree => 1 | _ => 1 end.
Definition measure (x : Net) : Z :=
  (match r_pc (reader x) with ReadEnd => 0 | pc => 5 * (n - chunk_index (reader x)) + read_rank pc end) +
  (match sender x with SendEnd => 0 | pc => 4 * (n - next_send_chunk (ctx x)) + send_rank pc end).
(** The devices answer. *)
Definition answers : Prop :=
  (∀ lba' c a w, (t_read T lba' c a w).1 ≠ None) ∧ (∀ tcp w, (t_send T tcp w).1 ≠ None).
Definition moved (x : Net) (o : option Net) : Prop :=
  match o with Some y => measure y < measure x ∧ live y | None => True end.
Lemma set_error_nonzero rc c : rc ≠ 0 → error_rc (network_pipeline_set_error rc c) ≠ 0.
Proof using Type. intros H. unfold network_pipeline_set_error. destruct (Z.eqb_spec (error_rc c) 0); done. Qed.
Lemma error_stays rc c : error_rc c ≠ 0 → error_rc (network_pipeline_set_error rc c) ≠ 0.
Proof using Type. intros H. unfold network_pipeline_set_error. by replace (error_rc c =? 0) with false by lia. Qed.
#[local] Arguments Z.lt : simpl never.
#[local] Arguments Z.le : simpl never.
#[local] Arguments Z.add : simpl never.
#[local] Arguments Z.mul : simpl never.
Ltac drops := first [lia|apply Z.compare_lt_iff; lia|cbn; lia].
Ltac still := cbn; intros; first [by auto|congruence|by left|by right|split; [done|tauto]|split; [tauto|done]|split; congruence|lia].
Lemma read_moved x w l : answers → inv x l → live x →
  wp (network_read_step logged j (ctx x) (reader x))
    (λ o _, moved x (match o with Some (c, r) => Some (x <| ctx := c |> <| reader := r |>) | None => None end)) (w, l).
Proof.
  intros [Hread _] (S&R&busy&holding&v&[]&_) []. destruct (chunk_count_spec slots size lba base Hok) as [Hn _].
  destruct x as [[sl nx pd er] [pc rem cl ci] sd]. cbn in *. subst nx ci. unfold network_read_step. cbn [r_pc].
  destruct pc; cbn in iv_reader0.
  - cbn [remaining_bytes]. destruct (0 <? rem); cbn [negb].
    + apply wp_bind, wp_unseen. intros stop w1. apply wp_ret. unfold moved, measure. cbn.
      destruct stop; [|destruct (fits_ring _ _)]; (split; [drops|split; still]).
    + apply wp_ret. unfold moved, measure. cbn. split; [drops|]. split; still.
  - apply wp_ret. cbn. destruct (Z.eqb_spec er 0) as [->|He]; cbn [negb].
    + destruct (decide _); [|done]. unfold moved, measure. cbn. split; [drops|]. split; still.
    + unfold moved, measure. cbn. split; [drops|]. split; still.
  - apply wp_bind. unfold wp at 1, logged. cbn. unfold noted. pose proof (Hread cl (read_sectors j (mkReader ReadDevice rem cl R))
      (network_ddr_hw j (mkReader ReadDevice rem cl R)) w) as Hr.
    destruct (t_read T _ _ _ w) as [rc w1]. cbn in *. destruct rc as [rc|]; [|done]. apply wp_ret. unfold moved, measure. cbn.
    destruct (rc =? 0); cbn; (split; [drops|]); split; try still. intros rc' [= <-]. apply failure_not_0.
  - apply wp_ret. destruct iv_reader0 as (->&_&_). destruct (iv_busy0 eq_refl) as [HR _]. unfold moved, measure. cbn.
    rewrite u32_small by cint. split; [drops|]. split; still.
  - apply wp_ret. pose proof (lv_read_fail0 rc eq_refl) as Hrc. pose proof (set_error_nonzero rc (mkCtx sl S pd er) Hrc) as He.
    destruct (set_error_same rc (mkCtx sl S pd er)) as (_&E1&_). unfold moved, measure. cbn in *. rewrite E1. split; [drops|]. split; still.
  - done.
  - done.
Qed.
Lemma send_moved x w l : answers → inv x l → live x →
  wp (network_send_step logged j (ctx x) (sender x))
    (λ o _, moved x (match o with Some (c, pc) => Some (x <| ctx := c |> <| sender := pc |>) | None => None end)) (w, l).
Proof.
  intros [_ Hsend] (S&R&busy&holding&v&[]&_) []. destruct (chunk_count_spec slots size lba base Hok) as [Hn _].
  destruct x as [[sl nx pd er] [pc rem cl ci] sd]. cbn in *. subst nx ci. unfold network_send_step. cbn [next_send_chunk slot_count total_chunks error_rc].
  destruct sd as [|copy| |rc| |]; cbn in iv_sender0.
  - apply wp_ret. destruct (Z.ltb_spec S n); cbn [negb].
    2:{ unfold moved, measure. cbn. split; [drops|]. split; still. }
    destruct (Z.eqb_spec er 0) as [->|He]; cbn [negb].
    2:{ unfold moved, measure. cbn. split; [drops|]. split; still. }
    destruct (decide _); [unfold moved, measure; cbn; split; [drops|]; split; still|].
    destruct (_ && _); [|done]. unfold moved, measure. cbn. split; [drops|]. split; still.
  - apply wp_bind, wp_unseen. intros stop w1. destruct stop; [apply wp_ret; unfold moved, measure; cbn; split; [drops|]; split; still|].
    apply bind_route. intros c w2 _. destruct c as [tcp|]; [|apply wp_ret; unfold moved, measure; cbn; split; [drops|]; split; still].
    apply wp_bind, wp_unseen. intros start w3. apply wp_bind. unfold wp at 1, logged. cbn. unfold noted.
    pose proof (Hsend (tcp <| ddr_dma_base := sl_ddr_hw copy |>) w3) as Hr. destruct (t_send T _ w3) as [rc w4]. cbn in *. destruct rc as [rc|]; [|done].
    destruct (rc =? 0); cbn [negb].
    + apply wp_bind. eapply wp_mono; [apply after_chunk_unseen|]. intros [] [w5 l5] _. apply wp_ret. unfold moved, measure. cbn. split; [drops|]. split; still.
    + apply wp_ret. unfold moved, measure. cbn. split; [drops|]. split; try still. intros rc' [= <-]. apply failure_not_0.
  - apply wp_ret. destruct iv_sender0 as (->&_&_). specialize (iv_holding0 eq_refl). unfold moved, measure. cbn. rewrite u32_small by cint.
    split; [drops|]. split; still.
  - apply wp_ret. pose proof (lv_send_fail0 rc eq_refl) as Hrc. pose proof (set_error_nonzero rc (mkCtx sl S pd er) Hrc) as He.
    destruct (set_error_same rc (mkCtx sl S pd er)) as (_&E1&_). unfold moved, measure. cbn in *. split; [rewrite ?E1; drops|]. split; still.
  - done.
  - done.
Qed.

(** Not both threads are blocked before they have ended. *)
Definition read_blocked (x : Net) : Prop :=
  r_pc (reader x) = ReadEnd ∨ (r_pc (reader x) = ReadAcquire ∧ error_rc (ctx x) = 0 ∧
    sl_state (slot_of (ctx x) (ring_slot j (reader x))) ≠ NETWORK_SLOT_FREE).
Definition send_blocked (x : Net) : Prop :=
  let S := next_send_chunk (ctx x) in let sl := slot_of (ctx x) (S mod slots) in
  sender x = SendEnd ∨ (sender x = SendWait ∧ S < n ∧ error_rc (ctx x) = 0 ∧ ¬ (sl_state sl = NETWORK_SLOT_READY ∧ sl_chunk_index sl = S) ∧
    ¬ (producer_done (ctx x) = true ∧ sl_state sl = NETWORK_SLOT_FREE)).
Lemma read_blocks x st : live x → wp (network_read_step logged j (ctx x) (reader x)) (λ o _, o = None → read_blocked x) st.
Proof using Type.
  intros []. unfold network_read_step, read_blocked. destruct (r_pc (reader x)) eqn:Hpc.
  - destruct (negb _); [by apply wp_ret|]. apply wp_bind. unfold wp at 1. destruct (t_stop logged st). by apply wp_ret.
  - apply wp_ret. destruct (Z.eqb_spec (error_rc (ctx x)) 0); cbn [negb]; [|done]. destruct (decide _); [done|]. by right.
  - apply wp_bind. unfold wp at 1. destruct (t_read logged _ _ _ st). by apply wp_ret.
  - by apply wp_ret.
  - by apply wp_ret.
  - apply wp_ret. by left.
  - by destruct lv_hung0.
Qed.
Lemma send_blocks x st : live x → wp (network_send_step logged j (ctx x) (sender x)) (λ o _, o = None → send_blocked x) st.
Proof using Type.
  intros []. unfold network_send_step, send_blocked. cbn [slot_count total_chunks]. destruct (sender x) as [|copy| |rc| |] eqn:Hpc.
  - apply wp_ret. destruct (Z.ltb_spec (next_send_chunk (ctx x)) n); cbn [negb]; [|done].
    destruct (Z.eqb_spec (error_rc (ctx x)) 0); cbn [negb]; [|done]. destruct (decide _); [done|].
    destruct (producer_done (ctx x) && _) eqn:E; [done|]. intros _. right. split_and!; try done. intros [Hd Hf].
    by rewrite Hd, bool_decide_true in E by done.
  - apply wp_bind. unfold wp at 1. destruct (t_stop logged st) as [[] st1]; [by apply wp_ret|].
    apply wp_bind. unfold wp at 1. destruct (t_route logged _ _) as [[tcp|] st2]; [|by apply wp_ret].
    apply wp_bind. unfold wp at 1. destruct (t_clock logged _) as [t st3]. apply wp_bind. unfold wp at 1. destruct (t_send logged _ _) as [[rc|] st4]; [|by apply wp_ret].
    cbn [fst snd]. destruct (negb _); [by apply wp_ret|]. apply wp_bind. unfold wp at 1. destruct (network_throttle_after_chunk _ _ _ _). by apply wp_ret.
  - by apply wp_ret.
  - by apply wp_ret.
  - apply wp_ret. by left.
  - by destruct lv_hung0.
Qed.
Lemma progress x l : inv x l → live x → read_blocked x → send_blocked x → r_pc (reader x) = ReadEnd ∧ sender x = SendEnd.
Proof.
  intros (S&R&busy&holding&v&[]&_) [] Hr Hs. pose proof (fo_ring _ _ _ _ Hok) as (Hs0&_).
  destruct (iv_slots0 S ltac:(lia)) as [Hst Hh].
  destruct Hr as [Hr|(Hr&He&Hf)], Hs as [Hs|(Hs&HS&He'&Hnr&Hnf)]; [done|exfalso..]; rewrite Hr in *; rewrite ?Hs in *; cbn in iv_reader0, iv_sender0; rewrite ?iv_next0 in *.
  - destruct lv_reader0 as [Hd|?]; [done| |done]. destruct iv_sender0 as (->&_&_). assert (R = n) as -> by auto.
    apply Hnr. split; [|by apply Hh; left]. rewrite Hst. unfold state_at. replace (S <? n) with true by lia. by rewrite andb_false_r.
  - destruct lv_sender0 as [?|?]; [done|lia|done].
  - destruct iv_reader0 as (->&_&_&_), iv_sender0 as (->&_&_). destruct (decide (S < R)).
    + apply Hnr. split; [|by apply Hh; left]. rewrite Hst. unfold state_at. replace (S <? R) with true by lia. by rewrite andb_false_r.
    + assert (S = R) as -> by lia. apply Hf. unfold ring_slot. rewrite iv_chunk0. cbn [slot_count]. rewrite Hst. unfold state_at.
      by rewrite Z.ltb_irrefl, Z.eqb_refl.
Qed.
Definition blocked (t : Thread) (x : Net) : Prop := match t with ReadThread => read_blocked x | SendThread => send_blocked x end.
Lemma step_moves t x w l : answers → inv x l → live x → wp (step logged j t x)
  (λ o st, inv (default x o) st.2 ∧ match o with Some y => measure y < measure x ∧ live y | None => blocked t x end) (w, l).
Proof.
  intros Ha Hi Hv. eapply wp_mono with (P := λ o st, inv (default x o) st.2 ∧ (moved x o ∧ (o = None → blocked t x))).
  2:{ intros o [w1 l1] (H1&H2&H3). split; [done|]. destruct o; auto. }
  apply wp_and; [by apply step_inv|]. destruct t; cbn [step]; apply wp_bind.
  - eapply wp_mono; [apply wp_and; [by eapply read_moved|by apply read_blocks]|]. intros o st [H1 H2]. apply wp_ret.
    destruct o as [[c r]|]; split; cbn in *; by auto.
  - eapply wp_mono; [apply wp_and; [by eapply send_moved|by apply send_blocks]|]. intros o st [H1 H2]. apply wp_ret.
    destruct o as [[c r]|]; split; cbn in *; by auto.
Qed.
(** A piece of the schedule that has a turn of either thread makes a step, or the threads have ended. *)
Definition fair (seg : list Thread) : Prop := ReadThread ∈ seg ∧ SendThread ∈ seg.
Lemma turns seg x w l : answers → inv x l → live x → wp (run logged j seg x) (λ y st, inv y st.2 ∧ live y ∧
  (measure y < measure x ∨ (y = x ∧ ∀ t, t ∈ seg → blocked t x))) (w, l).
Proof.
  intros Ha. revert x w l; induction seg as [|t seg IH]; intros x w l Hi Hv; cbn [run].
  { apply wp_ret. split_and!; try done. right. split; [done|]. intros t H. by apply elem_of_nil in H. }
  apply wp_bind. eapply wp_mono; [by apply step_moves|]. intros o [w1 l1] [Hi1 Ho]. cbn [snd] in *.
  assert (Hv1 : live (default x o)) by (destruct o; [apply Ho|done]).
  eapply wp_mono; [by apply IH|]. intros y [w2 l2] (Hi2&Hv2&Hm). split_and!; try done. destruct o as [x1|]; cbn [default Datatypes.id] in *.
  - left. destruct Ho as [Ho _]. destruct Hm as [Hm|[-> _]]; lia.
  - destruct Hm as [Hm|[-> Hm]]; [by left|]. right. split; [done|]. intros t' [->|H]%elem_of_cons; [done|by apply Hm].
Qed.
Lemma measure_spec x l : inv x l → live x → 0 <= measure x ∧ (measure x = 0 ↔ ended x = true).
Proof.
  intros (S&R&busy&holding&v&[]&_) [_ _ _ _ [H1 H2]]. destruct (chunk_count_spec slots size lba base Hok) as [Hn _].
  unfold measure, ended. rewrite iv_next0, iv_chunk0, andb_true_iff, bool_decide_eq_true.
  destruct (r_pc (reader x)); try done; destruct (sender x); try done; (split; [cbn; lia|]); split; first [intros [? ?]; done|cbn; intros; first [lia|done]].
Qed.
Lemma wp_run_app a b x (Q : Net → St → Prop) st :
  wp (run logged j a x) (λ y st, wp (run logged j b y) Q st) st → wp (run logged j (a ++ b) x) Q st.
Proof using Type.
  revert x st; induction a as [|t a IH]; intros x st H; [exact H|]. cbn [run app] in *. apply wp_bind. unfold wp at 1.
  unfold wp at 1, ebind in H. destruct (step logged j t x st). by apply IH.
Qed.
Lemma segs_end segs x w l : answers → Forall fair segs → inv x l → live x → measure x <= Z.of_nat (length segs) →
  wp (run logged j (concat segs) x) (λ y _, ended y = true) (w, l).
Proof.
  intros Ha Hf. revert x w l; induction Hf as [|seg segs [Hfr Hfs] Hf IH]; intros x w l Hi Hv Hm; cbn [concat].
  - apply wp_ret. destruct (measure_spec x l Hi Hv) as [H0 H1]. apply H1. cbn in Hm. lia.
  - apply wp_run_app. eapply wp_mono; [by apply turns|]. intros y [w1 l1] (Hi1&Hv1&Hy). cbn [snd] in *. apply IH; [done..|].
    cbn [length] in Hm. destruct Hy as [?|[-> Hb]]; [lia|]. destruct (progress x l1 Hi1 Hv (Hb _ Hfr) (Hb _ Hfs)) as [E1 E2].
    unfold measure. rewrite E1, E2. lia.
Qed.
Lemma start_live b : let x := if b : bool then init j else (init j) <| sender := SendFail (-1) |> in
  live x ∧ measure x <= 9 * n + 7.
Proof.
  destruct (chunk_count_spec slots size lba base Hok) as [Hn _]. destruct b; (split; [split; cbn; intros; first [congruence|by simplify_eq|done]|]).
  all: unfold measure; cbn -[Z.mul Z.add chunk_count]; lia.
Qed.
Lemma pipelined_ends threads segs w : answers → schedule threads = concat segs → Forall fair segs → 9 * n + 7 <= Z.of_nat (length segs) →
  wp (pipelined logged threads j) (λ o _, o ≠ None) (w, []).
Proof.
  intros Ha Hs Hf Hl. unfold pipelined. destruct (negb _); [by apply wp_ret|]. destruct (start_live (sender_created threads)) as [Hv Hm].
  apply wp_bind. rewrite Hs. eapply wp_mono; [apply segs_end; [done|done| |exact Hv|lia]|].
  - apply start_inv. destruct (sender_created threads); auto.
  - intros x st Hx. apply wp_ret. unfold joined. by rewrite Hx.
Qed.
End Threads.

(** *** Observing a download changes nothing in it *)
Definition same {A} (m' : Eff St A) (m : Eff W A) : Prop := ∀ w l, (m' (w, l)).1 = (m w).1 ∧ (m' (w, l)).2.1 = (m w).2.
Lemma observed_ret {A} (a : A) : same (eret a) (eret a).
Proof using Type. by intros w l. Qed.
Lemma same_noted {A} (ev : A → list Ev) (m : Eff W A) : same (noted ev m) m.
Proof using Type. intros w l. unfold noted. by destruct (m w). Qed.
Lemma observed_bind {A B} (m' : Eff St A) m (k' : A → Eff St B) k : same m' m → (∀ a, same (k' a) (k a)) → same (ebind m' k') (ebind m k).
Proof using Type.
  intros Hm Hk w l. unfold ebind. destruct (Hm w l) as [E1 E2]. destruct (m' (w, l)) as [a' [w' l']], (m w) as [a w1]. cbn in *. subst. apply Hk.
Qed.
#[local] Hint Resolve observed_ret same_noted : core.
Ltac same_step := first [apply observed_ret|apply same_noted|apply observed_bind; [|intros ?]|case_match].
Lemma same_throttle rounds us : same (throttle_loop logged rounds us) (throttle_loop T rounds us).
Proof using Type. revert us; induction rounds as [|rounds IH]; intros us; cbn [throttle_loop]; repeat first [apply IH|same_step]. Qed.
Lemma same_after_chunk start bytes : same (network_throttle_after_chunk logged start bytes) (network_throttle_after_chunk T start bytes).
Proof using Type. unfold network_throttle_after_chunk. cbv zeta. repeat first [apply same_throttle|same_step]. Qed.
Lemma same_serial cfg max ring steps left cur k :
  same (serial_loop logged cfg max ring steps left cur k) (serial_loop T cfg max ring steps left cur k).
Proof using Type.
  revert left cur k; induction steps as [|steps IH]; intros left cur k; cbn [serial_loop]; unfold send_chunk; cbv zeta;
    repeat first [apply IH|apply same_after_chunk|same_step].
Qed.
Lemma same_read_step j c r : same (network_read_step logged j c r) (network_read_step T j c r).
Proof using Type. unfold network_read_step. destruct (r_pc r); repeat same_step. Qed.
Lemma same_send_step j c pc : same (network_send_step logged j c pc) (network_send_step T j c pc).
Proof using Type. unfold network_send_step. cbv zeta. destruct pc; repeat first [apply same_after_chunk|same_step]. Qed.
Lemma same_step_of j t x : same (step logged j t x) (step T j t x).
Proof using Type. destruct t; cbn [step]; repeat first [apply same_read_step|apply same_send_step|same_step]. Qed.
Lemma same_run j sched x : same (run logged j sched x) (run T j sched x).
Proof using Type. revert x; induction sched as [|t sched IH]; intros x; cbn [run]; repeat first [apply IH|apply same_step_of|same_step]. Qed.
Lemma same_send_file threads cfg slots rec : same (send_file logged threads cfg slots rec) (send_file T threads cfg slots rec).
Proof using Type. unfold send_file, pipelined, network_send_serial. cbv zeta. repeat first [apply same_serial|apply same_run|same_step]. Qed.

(** *** The loop ends *)
Lemma serial_ends cfg ring steps left cur k w : answers → is_u64 left → left <= Z.of_nat steps * TCP_MAX_BYTES_PER_DESC →
  wp (serial_loop T cfg TCP_MAX_BYTES_PER_DESC ring steps left cur k) (λ o _, o ≠ None) w.
Proof using Type.
  intros [Hr Hs]. revert left cur k w; induction steps as [|steps IH]; intros left cur k w Hleft Hst; cbn [serial_loop];
    (destruct (Z.ltb_spec 0 left); cbn [negb]; [|by apply wp_ret]); [cbn in Hst; lia|].
  apply wp_bind. unfold wp at 1. destruct (t_clock T w) as [t w1]. apply wp_bind. unfold wp at 1. destruct (t_stop T _) as [[] w2]; [by apply wp_ret|].
  cbn [fst snd]. destruct (_ || _); [by apply wp_ret|]. apply wp_bind. unfold wp at 1. 
  match goal with |- context [t_read T ?a ?b ?c ?w] => pose proof (Hr a b c w) as Hw; destruct (t_read T a b c w) as [[rc|] w3]; [|done] end.
  cbn [fst snd]. destruct (negb _); [by apply wp_ret|]. apply wp_bind. unfold wp at 1, send_chunk. unfold ebind at 1 2. destruct (t_route T _ _) as [[c|] w4]; [|by apply wp_ret].
  match goal with |- context [t_send T ?c ?w] => pose proof (Hs c w) as Hw'; destruct (t_send T c w) as [[rc'|] w5]; [|done] end.
  cbn [fst snd]. destruct (negb _); [by apply wp_ret|]. apply wp_bind. unfold wp at 1. destruct (network_throttle_after_chunk _ _ _ _) as [[] w6]. cbn [fst snd].
  assert (Hu : ∀ b, 0 <= b <= left → u64 (left - b) = left - b) by (intros b Hb; apply u64_small; cint).
  destruct (Z.ltb_spec TCP_MAX_BYTES_PER_DESC left); apply IH; rewrite Hu by (unfold TCP_MAX_BYTES_PER_DESC in *; lia); unfold TCP_MAX_BYTES_PER_DESC in *; cint.
Qed.
End Observed.

(** ** The ring of a channel *)
Lemma env_u32_positive name dflt s : 0 < dflt → 0 < (env_u32_or_default name dflt s).1.
Proof.
  intros Hd. unfold env_u32_or_default, ebind. destruct (storage_config_compat_getenv name s) as [[v|] s1]; [|done]; unfold eret; cbn [fst].
  destruct (c_stdlib.non_empty (Some v)); [|done]. destruct (c_stdlib.strtoul_full v 0) as [n|] eqn:E; [|done].
  apply c_stdlib.strtoul_full_range in E; [|done]. destruct (Z.eqb_spec n 0); [done|]. destruct (_ <? _); cbn; cint.
Qed.
(** However many slots are asked for, the slots fit the memory of the ring, so the ring part of [file_ok] holds. *)
Lemma ring_slots_fit i cfg s k s' : ccb_config.find_channel i = Some cfg → ring_slots cfg s = (Some k, s') →
  0 < k ∧ k * ring_stride <= ring_bytes_of cfg ∧ 0 <= ddr_hw_base cfg ∧ ddr_hw_base cfg + k * ring_stride <= UINT64_MAX.
Proof.
  intros Hf Hr. assert (Hb : ddr_hw_base cfg = 0 ∧ ring_bytes_of cfg <= UINT32_MAX).
  { revert Hf. unfold ccb_config.find_channel. simpl. intros H. repeat case_match; simplify_eq/=; vm_compute; split; congruence. }
  unfold ring_slots in Hr. destruct (Z.ltb_spec (ring_bytes_of cfg) ring_stride) as [|Hs]; [done|]. change ring_stride with 16781312 in *.
  pose proof (Z.div_mod (ring_bytes_of cfg) 16781312 ltac:(lia)). pose proof (Z.mod_pos_bound (ring_bytes_of cfg) 16781312 ltac:(lia)).
  rewrite u32_small in Hr by cint. destruct (Z.eqb_spec (ring_bytes_of cfg / 16781312) 0); [done|]. unfold ebind in Hr.
  pose proof (env_u32_positive "SRC_REAL_NETWORK_PIPELINE_SLOTS" 1 s ltac:(lia)) as Hp. destruct (env_u32_or_default _ _ s) as [q s1]. cbn in Hp.
  replace (q =? 0) with false in Hr by lia. injection Hr as <- _. destruct Hb as [-> Hb].
  destruct (Z.ltb_spec (ring_bytes_of cfg / 16781312) q); cint.
Qed.

(** ** The properties *)
Section Claims.
Context {W : Type} (T : Transport W) {HT : TransportOk T}.
Lemma answers_logged : answers T → answers (logged T).
Proof using Type.
  intros [Hr Hs]. split; [intros l c a [v e]; specialize (Hr l c a v)|intros c [v e]; specialize (Hs c v)]; cbn in *.
  - by destruct (t_read T l c a v).
  - by destruct (t_send T c v).
Qed.

(** C20: a download sends the file, in order.  Against any transport, with any number of slots and any interleaving of the
    reading and the sending thread, wherever it stops: the chunks of the file are read from the device in order, each
    from its own sectors and into its own slot, and only when the chunk that had the slot has been sent; they are sent in
    order, each as one transfer of its own bytes from the slot it was read into, and only when it has been read; after a
    failure nothing more is read or sent by that side.  A download that returns 0 has read and sent every chunk. *)
Theorem download_in_order threads cfg slots rec w :
  let size := ccb_storage_commit.fr_file_size rec in let lba := ccb_storage_commit.fr_start_sector rec in
  let base := ddr_hw_base cfg in
  file_ok slots size lba base →
  let '(o, (_, l)) := send_file (logged T) threads cfg slots rec (w, []) in
  ∃ v, follow slots size lba base nothing l = Some v ∧
    (o = Some 0 → v = mkSeen (chunk_count size) (chunk_count size) false false).
Proof using HT.
  intros size lba base Hok. cut (wp (send_file (logged T) threads cfg slots rec) (λ o (st : W * list Ev), ∃ v, follow slots size lba base nothing st.2 = Some v ∧
    (o = Some 0 → v = mkSeen (chunk_count size) (chunk_count size) false false)) (w, [])).
  { unfold wp. by destruct (send_file _ _ _ _ _ _) as [o [w' l]]. }
  destruct (chunk_count_spec slots size lba base Hok) as [Hn _]. pose proof Hok as [Hsize _ [Hs _]].
  pose proof (chunks_of_spec slots size lba base Hok) as Hc.
  unfold send_file. fold size lba. destruct (Z.leb_spec slots 1) as [H1|].
  - assert (slots = 1) as -> by lia. apply wp_bind. unfold network_send_serial. rewrite Hc.
    pose proof (serial_spec T size lba base (ring_bytes_of cfg) cfg Hok eq_refl (Z.to_nat (chunk_count size)) 0 lba w []) as H.
    unfold left_after in H. rewrite Z.mul_0_l, Z.min_l, Z.sub_0_r in H by lia.
    eapply wp_mono; [apply H; [lia|lia|unfold lba_at; lia|done]|]. intros o [w1 l1] (v&Hv&Ho). apply wp_ret. exists v. split; [done|].
    destruct o as [[rc sent]|]; [|done]. intros [= ->]. by apply (Ho 0 sent).
  - unfold job_of. fold size lba. rewrite Hc. by apply pipelined_spec.
Qed.

(** C22: the threads never have the same slot.  After any sequence of steps, while the reader fills a slot and the sender
    sends one, these are different slots, and their memory does not overlap. *)
Theorem slots_never_shared slots size lba ring_bytes cfg schedule w copy :
  file_ok slots size lba (ddr_hw_base cfg) →
  let j := mkJob slots (chunk_count size) cfg TCP_MAX_BYTES_PER_DESC ring_stride ring_bytes size lba in
  let x := (run (logged T) j schedule (init j) (w, [])).1 in
  r_pc (reader x) = ReadDevice → sender x = SendDevice copy →
  ring_slot j (reader x) ≠ sl_ring_slot copy ∧
  ccb_config.disjoint_ranges (network_ddr_hw j (reader x)) (read_sectors j (reader x) * SECTOR_SIZE) (sl_ddr_hw copy) (sl_send_bytes copy).
Proof using HT.
  intros Hok j x Hr Hs. pose proof (run_inv T slots size lba ring_bytes cfg Hok schedule (init j) w []
    (start_inv T slots size lba ring_bytes cfg Hok (init j) (or_introl eq_refl))) as (S&R&busy&holding&v&Hi&_).
  change (run (logged T) _ schedule (init j) (w, [])) with (run (logged T) j schedule (init j) (w, [])) in Hi. fold x in Hi. clearbody x.
  destruct Hi. rewrite Hr in iv_reader0. rewrite Hs in iv_sender0. cbn in iv_reader0, iv_sender0.
  destruct iv_reader0 as (->&_&_), iv_sender0 as (->&_&_&_&Hring&Hb&Ha). destruct (iv_busy0 eq_refl) as [HR Hspan]. specialize (iv_holding0 eq_refl).
  destruct (reader_chunk T slots size lba ring_bytes cfg Hok (reader x) R ltac:(lia) iv_chunk0 iv_left0 (iv_lba0 HR)) as (_&E2&E3&E4). fold j in E2, E3, E4.
  rewrite E2, E3, E4, Hring, Ha, Hb.
  assert (Hne : R mod slots ≠ S mod slots) by (intros E; apply (mod_inj slots S R S) in E; lia). split; [done|].
  destruct (bytes_spec slots size lba _ Hok R ltac:(lia)) as (_&_&Hr1&_). destruct (bytes_spec slots size lba _ Hok S ltac:(lia)) as (Hb1&_).
  unfold ccb_config.disjoint_ranges, addr_at. unfold SECTOR_SIZE, TCP_MAX_BYTES_PER_DESC in *. change ring_stride with 16781312. change (16 * 1024 * 1024 / 512) with 32768 in Hr1.
  lia.
Qed.

(** C23: a download ends.  When the devices answer and the schedule gives both threads their turns often enough, however
    they are interleaved, [send_file] returns: neither the loop nor the two threads, which wait for each other's slots,
    can be left waiting, whichever of them fails, is stopped, or could not be created. *)
Theorem download_ends threads cfg slots rec segs w :
  let size := ccb_storage_commit.fr_file_size rec in
  file_ok slots size (ccb_storage_commit.fr_start_sector rec) (ddr_hw_base cfg) → answers T →
  schedule threads = concat segs → Forall fair segs → 9 * chunk_count size + 7 <= Z.of_nat (length segs) →
  ∃ rc, (send_file T threads cfg slots rec w).1 = Some rc.
Proof using HT.
  intros size Hok Ha Hs Hf Hl. destruct (same_send_file T threads cfg slots rec w []) as [<- _].
  match goal with |- ∃ rc, ?o = _ => change (is_Some o) end. apply not_eq_None_Some.
  cut (wp (send_file (logged T) threads cfg slots rec) (λ o _, o ≠ None) (w, [])); [done|]. pose proof (chunks_of_spec slots _ _ _ Hok) as Hc.
  unfold send_file. fold size in Hc |- *. destruct (Z.leb_spec slots 1).
  - apply wp_bind. unfold network_send_serial. fold size. rewrite Hc. eapply wp_mono; [apply serial_ends|].
    + by apply answers_logged.
    + destruct Hok as [H1 _ _]. unfold TCP_MAX_BYTES_PER_DESC in *. cint.
    + destruct (chunk_count_spec slots _ _ _ Hok) as [Hn Hm]. fold size in Hn, Hm. lia.
    + intros [[rc sent]|] st H0; by apply wp_ret.
  - unfold job_of. fold size. rewrite Hc. by eapply pipelined_ends.
Qed.
End Claims.

(** ** Examples *)
(** Devices that always do what they are asked, and a file of 40 MiB: three chunks, in a ring of two slots. *)
Definition example_transport : Transport unit :=
  mkTransport (eret false) (eret 0) (λ _ _ _, eret (Some 0))
    (λ bytes, eret (Some (tcp_transfer_default_config bytes (ccb_cli.mkGlobal false false 0)))) (λ _, eret (Some 0)) (eret 0) (λ _, eret tt).
#[export] Instance example_transport_ok : TransportOk example_transport.
Proof. split. by intros bytes [] c [] [= <-]. Qed.
Definition example_channel : ChannelConfig := default (mkChannel 0 "" 0 0 0 0 0 0 0 0 0 0 0 0 0 0) (ccb_config.find_channel LOW_SPEED_CHANNEL_ID).
Definition example_size : Z := 40 * 1024 * 1024.
Definition example_file : ccb_storage_commit.FileRecord :=
  ccb_storage_commit.mkFileRecord 1 "T1" 0 1 "LOW_SPEED" LOW_SPEED_CHANNEL_ID 0 0 1000 (example_size / SECTOR_SIZE) example_size "T1_LOW_SPEED_1.bin" 0.
Definition example_segs : list (list Thread) := replicate 34 [ReadThread; SendThread].
Definition example_threads : Threads := mkThreads true true true true (concat example_segs).
Lemma example_ok : file_ok 2 example_size 1000 (ddr_hw_base example_channel).
Proof. split; vm_compute; repeat split; congruence. Qed.

(** The whole file is sent. *)
Lemma download_in_order_witness :
  file_ok 2 example_size 1000 (ddr_hw_base example_channel) ∧
  let '(o, (_, l)) := send_file (logged example_transport) example_threads example_channel 2 example_file (tt, []) in
  o = Some 0 ∧ ∃ v, follow 2 example_size 1000 (ddr_hw_base example_channel) nothing l = Some v ∧ (o = Some 0 → v = mkSeen 3 3 false false).
Proof.
  split; [exact example_ok|].
  pose proof (download_in_order example_transport example_threads example_channel 2 example_file tt example_ok) as H.
  assert (E : (send_file (logged example_transport) example_threads example_channel 2 example_file (tt, [])).1 = Some 0) by (vm_compute; reflexivity).
  destruct (send_file _ _ _ _ _ _) as [o [u l]]. split; [exact E|exact H].
Defined.
(** Chunk 1 is being read while chunk 0 is being sent. *)
Lemma slots_never_shared_witness :
  let j := mkJob 2 3 example_channel TCP_MAX_BYTES_PER_DESC ring_stride (ring_bytes_of example_channel) example_size 1000 in
  let x := (run (logged example_transport) j (replicate 6 ReadThread ++ [SendThread]) (init j) (tt, [])).1 in
  ∃ copy, r_pc (reader x) = ReadDevice ∧ sender x = SendDevice copy ∧ ring_slot j (reader x) = 1 ∧
    ring_slot j (reader x) ≠ sl_ring_slot copy ∧
    ccb_config.disjoint_ranges (network_ddr_hw j (reader x)) (read_sectors j (reader x) * SECTOR_SIZE) (sl_ddr_hw copy) (sl_send_bytes copy).
Proof.
  cbv zeta. eexists. split; [vm_compute; reflexivity|]. split; [vm_compute; reflexivity|]. split; [vm_compute; reflexivity|].
  apply (slots_never_shared example_transport 2 example_size 1000 (ring_bytes_of example_channel) example_channel (replicate 6 ReadThread ++ [SendThread]) tt);
    [exact example_ok|vm_compute; reflexivity|vm_compute; reflexivity].
Defined.
Lemma download_ends_witness :
  answers example_transport ∧ Forall fair example_segs ∧ 9 * chunk_count example_size + 7 <= Z.of_nat (length example_segs) ∧
  ∃ rc, (send_file example_transport example_threads example_channel 2 example_file tt).1 = Some rc.
Proof.
  assert (Ha : answers example_transport) by done.
  assert (Hf : Forall fair example_segs).
  { apply Forall_replicate. split; [by left|by right; left]. }
  split; [exact Ha|]. split; [exact Hf|]. split; [vm_compute; congruence|].
  apply (download_ends example_transport example_threads example_channel 2 example_file example_segs tt);
    [exact example_ok|exact Ha|reflexivity|exact Hf|vm_compute; congruence].
Defined.
End network_safety.
