(* ===== verification/Launch.v ===== *)
(** * Launching workers ([src/src/system.c])

    The plan of a capture task, the command lines the supervisor starts its
    workers with, the mode [main] picks from a command line and the argument
    handling of the two worker modes, up to the point where they open their
    databases.  The production build ([CCB_BUILD_DIAG] undefined). *)
From stdpp Require Import pretty.
From S2P Require Import Prelude CStdlib CcbTypes Config Task Commit CommitStore Cli.
From Stdlib Require Import Ascii.

Module system_launch.
Import c_stdlib ccb_types ccb_config storage_config ccb_storage_task ccb_storage_commit system_commit ccb_cli.

Definition STORAGE_WORKER_ARG : string := "--storage-worker".
Definition STORAGE_WRITE_ARG : string := "storage-write".
Definition NETWORK_WORKER_ARG : string := "--network-worker".
Definition NETWORK_SEND_ARG : string := "network-send".

Definition TASK_FILE_MODE_CALIB_ONLY : Z := 0x11.
Definition TASK_FILE_MODE_LOW_ONLY : Z := 0x22.
Definition TASK_FILE_MODE_HIGH_ONLY : Z := 0x33.
Definition TASK_FILE_MODE_ALL : Z := 0xAA.
Definition ACQ_TYPE_ENVELOPE : Z := 0x01.
Definition ACQ_TYPE_HIGH_I : Z := 0x02.
Definition ACQ_TYPE_HIGH_Q : Z := 0x04.
Definition ACQ_TYPE_CALIB : Z := 0x08.
Definition FAIL_TYPE_NONE : Z := 0x00.
Definition FAIL_TYPE_LOW : Z := 0x01.
Definition FAIL_TYPE_HIGH_I : Z := 0x02.
Definition FAIL_TYPE_HIGH_Q : Z := 0x04.

(** ** The plan *)
Record LastTaskContext : Type := mkLastTask {
  lt_valid : bool; lt_task_id : string; lt_overpass_time : Z; lt_task_file_mode : Z;
  lt_usb_transfer_enable : Z; lt_calibration_type : Z; lt_envelope_clock_raw : Z;
  lt_envelope_duration : Z }.

Definition build_file_plan (ctx : LastTaskContext) : option (list PlannedFile) :=
  let file ch code name calib := mkPlanned ch code (Some name) 0 0 0 0 calib in
  let mode := lt_task_file_mode ctx in
  if mode =? TASK_FILE_MODE_CALIB_ONLY then
    Some [file 2 FILE_TYPE_CALIB "CALIB"%string (lt_calibration_type ctx)]
  else if mode =? TASK_FILE_MODE_LOW_ONLY then
    Some [file 2 FILE_TYPE_LOW "LOW_SPEED"%string 0]
  else if mode =? TASK_FILE_MODE_HIGH_ONLY then None
  else if mode =? TASK_FILE_MODE_ALL then
    Some [file 2 FILE_TYPE_LOW "LOW_SPEED"%string 0; file 0 FILE_TYPE_I "HIGH_I"%string 0;
          file 1 FILE_TYPE_Q "HIGH_Q"%string 0]
  else None.

Definition acq_type_from_task_mode (mode : Z) : Z :=
  if (mode =? TASK_FILE_MODE_CALIB_ONLY) || (mode =? TASK_FILE_MODE_LOW_ONLY)
  then ACQ_TYPE_ENVELOPE
  else if mode =? TASK_FILE_MODE_HIGH_ONLY then Z.lor ACQ_TYPE_HIGH_I ACQ_TYPE_HIGH_Q
  else if mode =? TASK_FILE_MODE_ALL
  then Z.lor (Z.lor ACQ_TYPE_ENVELOPE ACQ_TYPE_HIGH_I) ACQ_TYPE_HIGH_Q
  else 0.

Definition failure_type_from_acq_type (acq : Z) : Z :=
  let bit (mask t : Z) := if Z.land acq mask =? 0 then 0 else t in
  Z.lor (Z.lor (Z.lor FAIL_TYPE_NONE (bit (Z.lor ACQ_TYPE_ENVELOPE ACQ_TYPE_CALIB) FAIL_TYPE_LOW))
    (bit ACQ_TYPE_HIGH_I FAIL_TYPE_HIGH_I)) (bit ACQ_TYPE_HIGH_Q FAIL_TYPE_HIGH_Q).

(** ** Command lines *)
Definition flag_value (v : option string) : bool :=
  match v with
  | Some s => negb (bool_decide (s ∈ [""; "0"; "false"; "FALSE"; "off"; "OFF"; "no"; "NO"]%string))
  | None => false
  end.
Definition env_flag_enabled (name : string) : ceff bool :=
  let! v := storage_config_compat_getenv name in eret (flag_value v).

(** A variable copied into a 32-byte buffer; the empty text when it is unset. *)
Definition buffer_text (v : option string) : string :=
  if non_empty v then c_snprintf_s 32 (default ""%string v) else ""%string.

Definition dma_desc_text (ch : Z) : ceff string :=
  let! v := storage_config_compat_getenv
              (c_snprintf_s 48 ("SRC_REAL_STORAGE_DMA_DESC_BYTES_CH" ++ pretty ch)) in
  if non_empty v then eret (buffer_text v)
  else let! w := storage_config_compat_getenv "SRC_REAL_STORAGE_DMA_DESC_BYTES" in
       eret (buffer_text w).

Definition opt_word (present : bool) (words : list string) : list string :=
  if present then words else [].
Definition text_set (s : string) : bool := negb (bool_decide (s = ""%string)).

(** The words of [argv], in the order the code appends them. *)
Definition storage_argv (program : string) (dry skip : bool) (timeout dma : string)
    (p : PlannedFile) (task_id : string) : list string :=
  [program; STORAGE_WORKER_ARG] ++
  opt_word dry ["--dry-run"%string] ++
  opt_word skip ["--skip-link-check"%string] ++
  opt_word (text_set timeout) ["--timeout-us"%string; timeout] ++
  [STORAGE_WRITE_ARG; "--channel"%string; pretty (pf_channel_id p)] ++
  opt_word (0 <? pf_size_bytes p) ["--size"%string; pretty (pf_size_bytes p)] ++
  ["--task-no"; task_id; "--file-index"; pretty (pf_file_index p); "--ssd-lba"; "auto";
   "--source"; "transfer"; "--proto-file-type"; pretty (pf_proto_file_type_code p);
   "--calibration-type"; pretty (pf_calibration_type p)]%string ++
  opt_word (text_set dma) ["--dma-desc-bytes"%string; dma].

Definition start_storage_worker_argv (program : string) (p : PlannedFile) (task_id : string)
  : ceff (list string) :=
  let! dma := dma_desc_text (pf_channel_id p) in
  let! dry := env_flag_enabled "SRC_REAL_STORAGE_DRY_RUN" in
  let! skip := env_flag_enabled "SRC_REAL_STORAGE_SKIP_LINK_CHECK" in
  let! timeout := storage_config_compat_getenv "SRC_REAL_STORAGE_TIMEOUT_US" in
  eret (storage_argv program dry skip (buffer_text timeout) dma p task_id).

Definition network_argv (program : string) (dry skip : bool) (timeout : string)
    (r : FileRecord) : list string :=
  [program; NETWORK_WORKER_ARG] ++
  opt_word dry ["--dry-run"%string] ++
  opt_word skip ["--skip-link-check"%string] ++
  opt_word (text_set timeout) ["--timeout-us"%string; timeout] ++
  [NETWORK_SEND_ARG; "--task-no"%string; fr_task_id r; "--file-index"%string;
   pretty (fr_file_index r); "--proto-file-type"%string; pretty (fr_proto_file_type_code r);
   "--calibration-type"%string; pretty (fr_calibration_type r)].

Definition start_network_worker_argv (program : string) (r : FileRecord) : ceff (list string) :=
  let! dry := env_flag_enabled "SRC_REAL_NETWORK_DRY_RUN" in
  let! skip := env_flag_enabled "SRC_REAL_NETWORK_SKIP_LINK_CHECK" in
  let! timeout := storage_config_compat_getenv "SRC_REAL_NETWORK_TIMEOUT_US" in
  eret (network_argv program dry skip (buffer_text timeout) r).

(** ** The worker side *)
Inductive main_mode :=
| StorageWorker (argv : list string) (supervised : bool) | NetworkWorker (argv : list string)
| Service.

Definition main_dispatch (argv : list string) : main_mode :=
  match argv with
  | _ :: arg :: _ =>
    if bool_decide (arg = STORAGE_WORKER_ARG) then StorageWorker (drop 1 argv) true
    else if bool_decide (arg = STORAGE_WRITE_ARG) then StorageWorker argv false
    else if bool_decide (arg = NETWORK_WORKER_ARG) then NetworkWorker (drop 1 argv)
    else if bool_decide (arg = NETWORK_SEND_ARG) then NetworkWorker argv
    else Service
  | _ => Service
  end.

(** [None] is the exit with status 2. *)
Definition run_storage_worker_args (argv : list string) : option (GlobalOptions * ParsedArgs) :=
  match parse_global_options argv with
  | Some (gopt, (command :: _) as rest) =>
    match parse_command_type command with
    | Some CMD_STORAGE_WRITE =>
      match parse_subcommand_args rest with
      | Some a => if validate_storage_write_args a then Some (gopt, a) else None
      | None => None
      end
    | Some CMD_WRITE =>
      match parse_subcommand_args rest with
      | Some a =>
        if validate_write_args a then
          Some (gopt, a <| has_proto_file_type := true |>
            <| proto_file_type := match find_channel (channel_id a) with
                                  | Some cfg => ch_file_type cfg | None => FILE_TYPE_LOW end |>
            <| has_calibration_type := true |> <| calibration_type := 0 |>)
        else None
      | None => None
      end
    | _ => None
    end
  | _ => None
  end.

Definition run_network_worker_args (argv : list string) : option (GlobalOptions * ParsedArgs) :=
  match parse_global_options argv with
  | Some (gopt, (command :: _) as rest) =>
    match parse_command_type command with
    | Some CMD_NETWORK_SEND =>
      match parse_subcommand_args rest with
      | Some a => if validate_network_send_args a then Some (gopt, a) else None
      | None => None
      end
    | _ => None
    end
  | _ => None
  end.

Create HintDb launch.

(** ** What the environment says does not depend on the warnings printed *)
Definition env_only {A} (m : ceff A) : Prop :=
  env_const m ∧ ∀ s1 s2, env s1 = env s2 → fst (m s1) = fst (m s2).

Lemma env_only_ret {A} (a : A) : env_only (eret a).
Proof. done. Qed.
Lemma env_only_unit (m : ceff ()) : env_const m → env_only m.
Proof. intros. split; [done|]. intros. by destruct (fst (m s1)), (fst (m s2)). Qed.
Lemma env_only_bind {A B} (m : ceff A) (k : A → ceff B) :
  env_only m → (∀ a, env_only (k a)) → env_only (ebind m k).
Proof.
  intros [Hc Hm] Hk. split; [apply env_const_bind; [done|apply Hk]|]. intros s1 s2 E.
  unfold ebind. pose proof (Hm s1 s2 E) as Hr. pose proof (Hc s1) as H1. pose proof (Hc s2) as H2.
  destruct (m s1) as [a1 t1], (m s2) as [a2 t2]. simpl in *. subst. apply Hk. congruence.
Qed.
Lemma env_only_if {A} (b : bool) (m1 m2 : ceff A) :
  env_only m1 → env_only m2 → env_only (if b then m1 else m2).
Proof. by destruct b. Qed.
Lemma env_only_getenv n : env_only (cgetenv n).
Proof. split; [done|]. intros s1 s2 E. unfold cgetenv. simpl. by rewrite E. Qed.
#[export] Hint Resolve env_only_ret env_only_bind env_only_if env_only_getenv env_only_unit
  env_const_warn : launch.
Lemma env_only_compat n : env_only (storage_config_compat_getenv n).
Proof.
  unfold storage_config_compat_getenv, is_storage_worker_process,
    storage_config_legacy_compat_enabled. auto 12 with launch.
Qed.
#[export] Hint Resolve env_only_compat : launch.
Lemma env_only_flag n : env_only (env_flag_enabled n).
Proof. unfold env_flag_enabled. auto with launch. Qed.
Lemma env_only_dma ch : env_only (dma_desc_text ch).
Proof. unfold dma_desc_text. auto with launch. Qed.
#[export] Hint Resolve env_only_flag env_only_dma : launch.

(** The result of a sequence, each value read in the initial environment. *)
Lemma env_only_fst {A B} (m : ceff A) (k : A → ceff B) s :
  env_only m → (∀ a, env_only (k a)) → fst (ebind m k s) = fst (k (fst (m s)) s).
Proof.
  intros [Hc Hm] Hk. unfold ebind. pose proof (Hc s) as E. destruct (m s) as [a t]. simpl in *.
  by apply Hk.
Qed.

Lemma start_storage_worker_argv_value program p task s :
  fst (start_storage_worker_argv program p task s) =
  storage_argv program (fst (env_flag_enabled "SRC_REAL_STORAGE_DRY_RUN" s))
    (fst (env_flag_enabled "SRC_REAL_STORAGE_SKIP_LINK_CHECK" s))
    (buffer_text (fst (storage_config_compat_getenv "SRC_REAL_STORAGE_TIMEOUT_US" s)))
    (fst (dma_desc_text (pf_channel_id p) s)) p task.
Proof.
  unfold start_storage_worker_argv. by do 4 (rewrite env_only_fst by auto 10 with launch).
Qed.

Lemma start_network_worker_argv_value program r s :
  fst (start_network_worker_argv program r s) =
  network_argv program (fst (env_flag_enabled "SRC_REAL_NETWORK_DRY_RUN" s))
    (fst (env_flag_enabled "SRC_REAL_NETWORK_SKIP_LINK_CHECK" s))
    (buffer_text (fst (storage_config_compat_getenv "SRC_REAL_NETWORK_TIMEOUT_US" s))) r.
Proof.
  unfold start_network_worker_argv. by do 3 (rewrite env_only_fst by auto 10 with launch).
Qed.

(** ** Parsing the words back *)
Definition timeout_of (text : string) : Z :=
  default DEFAULT_TIMEOUT_US (u32 <$> number_arg (λ v, negb (v =? 0)) text).
Definition timeout_text_ok (text : string) : Prop :=
  text_set text = true → is_Some (number_arg (λ v, negb (v =? 0)) text).

Lemma global_dry l g :
  global_loop ("--dry-run"%string :: l) g = global_loop l (g <| dry_run := true |>).
Proof. done. Qed.
Lemma global_skip l g :
  global_loop ("--skip-link-check"%string :: l) g = global_loop l (g <| skip_link_check := true |>).
Proof. done. Qed.
Lemma global_timeout l g text v : number_arg (λ v, negb (v =? 0)) text = Some v →
  global_loop ("--timeout-us"%string :: text :: l) g = global_loop l (g <| timeout_us := u32 v |>).
Proof. intros H. simpl. by rewrite H. Qed.

Lemma global_words arg dry skip timeout command rest :
  timeout_text_ok timeout → command ∈ ["storage-write"; "network-send"]%string →
  parse_global_options (arg :: opt_word dry ["--dry-run"%string] ++
    opt_word skip ["--skip-link-check"%string] ++
    opt_word (text_set timeout) ["--timeout-us"%string; timeout] ++ command :: rest) =
  Some (mkGlobal dry skip (timeout_of timeout), command :: rest).
Proof.
  intros Ht Hc. unfold parse_global_options, timeout_text_ok, timeout_of in *. cbn [drop]; rewrite drop_0.
  assert (∀ g, global_loop (command :: rest) g = Some (g, command :: rest)) as Hstop.
  { intros g. set_unfold in Hc. by destruct_or!; subst. }
  destruct (text_set timeout) eqn:E.
  - destruct (Ht eq_refl) as [v Hv].
    destruct dry, skip; cbn [opt_word app];
      by rewrite ?global_dry, ?global_skip, (global_timeout _ _ _ _ Hv), Hstop, Hv.
  - unfold text_set in E. apply negb_false_iff, bool_decide_eq_true in E as ->.
    destruct dry, skip; cbn [opt_word app]; by rewrite ?global_dry, ?global_skip, Hstop.
Qed.

Lemma option_next arg c v rest operand out out' :
  getopt_long arg = OptNext c → set_option c v out = Some out' →
  option_loop (arg :: v :: rest) operand out = option_loop rest operand out'.
Proof. intros Hg Hs. simpl. by rewrite Hg, Hs. Qed.

Record planned_ok (p : PlannedFile) : Prop := {
  po_channel : 0 <= pf_channel_id p < NUM_CHANNELS;
  po_size : 0 <= pf_size_bytes p <= FILE_MAX_BYTES ∧ pf_size_bytes p mod SECTOR_SIZE = 0;
  po_index : 0 <= pf_file_index p <= INT_MAX;
  po_type : is_u8 (pf_proto_file_type_code p);
  po_calib : is_u8 (pf_calibration_type p) }.

Definition dma_of (text : string) : Z :=
  default 0 (number_arg (λ v, negb (v =? 0) && negb (0xFFFFFFFF <? v)) text).
Definition dma_text_ok (ch : Z) (text : string) : Prop :=
  text_set text = true →
  ∃ cfg v, find_channel ch = Some cfg ∧
    number_arg (λ v, negb (v =? 0) && negb (0xFFFFFFFF <? v)) text = Some v ∧ desc_ok cfg v.

(** The arguments a storage worker must end up with. *)
Definition launched_args (p : PlannedFile) (task_id dma : string) : ParsedArgs :=
  mkArgs true true 0 (0 <? pf_size_bytes p) (pf_size_bytes p) true task_id
    true (pf_file_index p) true (pf_proto_file_type_code p) true (pf_calibration_type p)
    true SOURCE_TRANSFER (text_set dma) (dma_of dma) false 0 false 0
    true (pf_channel_id p) false.

Lemma set_channel n out : 0 <= n < NUM_CHANNELS → set_option "c"%char (pretty n) out =
  Some (out <| has_channel := true |> <| channel_all := false |> <| channel_id := n |>).
Proof.
  unfold NUM_CHANNELS. intros H. by assert (n = 0 ∨ n = 1 ∨ n = 2) as [-> | [-> | ->]] by lia.
Qed.

Lemma set_size n out : is_u64 n → n ≠ 0 → set_option "s"%char (pretty n) out =
  Some (out <| has_size := true |> <| size_bytes := n |>).
Proof. intros H H0. unfold set_option. simpl. by rewrite number_arg_pretty by (done || lia). Qed.
Lemma set_index n out : is_u64 n → set_option "i"%char (pretty n) out =
  Some (out <| has_file_index := true |> <| arg_file_index := u32 n |>).
Proof. intros H. unfold set_option. simpl. by rewrite number_arg_pretty. Qed.
Lemma set_type n out : is_u8 n → set_option "p"%char (pretty n) out =
  Some (out <| has_proto_file_type := true |> <| proto_file_type := n |>).
Proof.
  intros H. unfold set_option. simpl. rewrite number_arg_pretty by (cint || (unfold is_u8, UINT8_MAX in H; lia)).
  simpl. rewrite u32_small; [done|cint].
Qed.
Lemma set_calibration n out : is_u8 n → set_option "C"%char (pretty n) out =
  Some (out <| has_calibration_type := true |> <| calibration_type := n |>).
Proof.
  intros H. unfold set_option. simpl. rewrite number_arg_pretty by (cint || (unfold is_u8, UINT8_MAX in H; lia)).
  simpl. rewrite u32_small; [done|cint].
Qed.
Lemma set_desc text v out :
  number_arg (λ v, negb (v =? 0) && negb (0xFFFFFFFF <? v)) text = Some v → is_u32 v →
  set_option "b"%char text out =
  Some (out <| has_dma_desc_bytes := true |> <| dma_desc_bytes := v |>).
Proof. intros H Hv. unfold set_option. simpl. rewrite H. simpl. by rewrite u32_small. Qed.

Lemma storage_options p task dma :
  planned_ok p → (String.length task <= 11)%nat → dma_text_ok (pf_channel_id p) dma →
  parse_subcommand_args
    ([STORAGE_WRITE_ARG; "--channel"%string; pretty (pf_channel_id p)] ++
     opt_word (0 <? pf_size_bytes p) ["--size"%string; pretty (pf_size_bytes p)] ++
     ["--task-no"; task; "--file-index"; pretty (pf_file_index p); "--ssd-lba"; "auto";
      "--source"; "transfer"; "--proto-file-type"; pretty (pf_proto_file_type_code p);
      "--calibration-type"; pretty (pf_calibration_type p)]%string ++
     opt_word (text_set dma) ["--dma-desc-bytes"%string; dma]) =
  Some (launched_args p task dma).
Proof.
  intros [Hc [Hs Hs'] Hi Ht Hk] Hl Hd. unfold parse_subcommand_args, launched_args. cbn [app drop].
  destruct p as [ch code name size idx lba sc calib].
  cbn [pf_channel_id pf_size_bytes pf_file_index pf_proto_file_type_code pf_calibration_type] in *.
  assert (is_u64 size) as Hu by (unfold FILE_MAX_BYTES, FILE_MAX_SECTORS, SECTOR_SIZE in *; cint).
  assert (is_u64 idx) as Hui by cint.
  erewrite option_next; [|reflexivity|by apply set_channel].
  assert (∀ rest out, size_bytes out = 0 → has_size out = false →
    option_loop (opt_word (0 <? size) ["--size"%string; pretty size] ++ rest) false out =
    option_loop rest false (out <| has_size := (0 <? size) |> <| size_bytes := size |>)) as Hsize.
  { intros rest out H1 H2. destruct (Z.ltb_spec 0 size); simpl opt_word; cbn [app].
    - erewrite option_next; [done|reflexivity|]. apply set_size; [done|lia].
    - assert (size = 0) as -> by lia. destruct out. cbn in *. by subst. }
  rewrite Hsize by done. clear Hsize. cbn [app].
  erewrite option_next; [|reflexivity|reflexivity].
  erewrite option_next; [|reflexivity|by apply set_index].
  do 2 (erewrite option_next; [|reflexivity|reflexivity]).
  erewrite option_next; [|reflexivity|by apply set_type].
  erewrite option_next; [|reflexivity|by apply set_calibration].
  rewrite u32_small by cint. rewrite (substring_short task 11) by done.
  destruct (text_set dma) eqn:E.
  - destruct (Hd E) as (cfg & v & _ & Hv & Hok). unfold dma_of. rewrite Hv.
    cbn [opt_word]. erewrite option_next; [done|reflexivity|]. apply set_desc; [done|].
    destruct Hok as (_ & Hb & _). clear - Hb. unfold DMA_DESC_BYTES_MAX, DMA_DESC_BYTES_CH2_DEFAULT in Hb.
    simpl. cint.
  - apply negb_false_iff, bool_decide_eq_true in E as ->. done.
Qed.

Lemma launched_valid p task dma :
  planned_ok p → (String.length task <= 11)%nat → dma_text_ok (pf_channel_id p) dma →
  validate_storage_write_args (launched_args p task dma) = true.
Proof.
  intros Hp Hl Hd. pose proof (parse_subcommand_args_ok _ _ (storage_options p task dma Hp Hl Hd)) as Ha.
  destruct (find_channel_some _ (po_channel p Hp)) as [cfg Hc].
  destruct (po_size p Hp) as [Hs Hm]. unfold validate_storage_write_args.
  rewrite (task_no_fits_parsed _ Ha). unfold ensure_channel_required, launched_args at 1 2 3 4 5 6 7 8 9 10 11.
  cbn -[validate_dma_desc_bytes_for_channel Z.modulo]. rewrite Hm.
  replace (FILE_MAX_BYTES <? pf_size_bytes p) with false by lia. cbn -[validate_dma_desc_bytes_for_channel].
  assert (validate_dma_desc_bytes_for_channel (launched_args p task dma) = true) as Hv.
  { apply (validate_dma_desc_spec _ cfg Ha Hc). intros Ht.
    destruct (Hd Ht) as (cfg' & v & Hc' & Hn & Hok). assert (cfg' = cfg) as -> by congruence.
    unfold launched_args, dma_of. cbn [dma_desc_bytes]. by rewrite Hn. }
  by destruct (0 <? pf_size_bytes p).
Qed.

(** The supervisor's command line reaches the worker's write engine intact. *)
Lemma storage_argv_parsed program dry skip timeout dma p task :
  planned_ok p → (String.length task <= 11)%nat → timeout_text_ok timeout →
  dma_text_ok (pf_channel_id p) dma →
  ∃ argv, main_dispatch (storage_argv program dry skip timeout dma p task) = StorageWorker argv true ∧
    run_storage_worker_args argv =
    Some (mkGlobal dry skip (timeout_of timeout), launched_args p task dma).
Proof.
  intros Hp Hl Ht Hd. eexists. split; [reflexivity|]. unfold storage_argv. cbn [app drop].
  unfold run_storage_worker_args.
  pose proof (storage_options p task dma Hp Hl Hd) as Ho. cbn [app] in Ho.
  rewrite global_words by (done || set_solver).
  change (parse_command_type STORAGE_WRITE_ARG) with (Some CMD_STORAGE_WRITE). cbv beta iota.
  rewrite Ho. by rewrite launched_valid.
Qed.

Lemma network_options r :
  is_u32 (fr_file_index r) → is_u8 (fr_proto_file_type_code r) → is_u8 (fr_calibration_type r) →
  parse_subcommand_args
    [NETWORK_SEND_ARG; "--task-no"%string; fr_task_id r; "--file-index"%string;
     pretty (fr_file_index r); "--proto-file-type"%string; pretty (fr_proto_file_type_code r);
     "--calibration-type"%string; pretty (fr_calibration_type r)] =
  Some (mkArgs false false 0 false 0 true (String.substring 0 11 (fr_task_id r))
    true (fr_file_index r) true (fr_proto_file_type_code r) true (fr_calibration_type r)
    false SOURCE_TRANSFER false 0 false 0 false 0 false 0 false).
Proof.
  intros Hi Ht Hc. unfold parse_subcommand_args. cbn [drop].
  erewrite option_next; [|reflexivity|reflexivity].
  erewrite option_next; [|reflexivity|apply set_index; cint].
  erewrite option_next; [|reflexivity|by apply set_type].
  erewrite option_next; [|reflexivity|by apply set_calibration].
  by rewrite u32_small.
Qed.

(** A network worker looks up the record it was started for, when the task
    number has at most 11 characters. *)
Theorem network_argv_parsed program r s :
  is_u32 (fr_file_index r) → is_u8 (fr_proto_file_type_code r) → is_u8 (fr_calibration_type r) →
  (String.length (fr_task_id r) <= 11)%nat →
  timeout_text_ok (buffer_text (fst (storage_config_compat_getenv "SRC_REAL_NETWORK_TIMEOUT_US" s))) →
  ∃ argv g a, main_dispatch (fst (start_network_worker_argv program r s)) = NetworkWorker argv ∧
    run_network_worker_args argv = Some (g, a) ∧ arg_task_no a = fr_task_id r ∧
    arg_file_index a = fr_file_index r ∧ proto_file_type a = fr_proto_file_type_code r.
Proof.
  intros Hi Ht Hc Hl Hto. rewrite start_network_worker_argv_value.
  pose proof (network_options r Hi Ht Hc) as Ho. pose proof (parse_subcommand_args_ok _ _ Ho) as Ha.
  rewrite (substring_short (fr_task_id r) 11) in Ho, Ha by done.
  do 3 eexists. split; [reflexivity|]. unfold run_network_worker_args, network_argv. cbn [app drop].
  rewrite global_words by (done || set_solver).
  change (parse_command_type NETWORK_SEND_ARG) with (Some CMD_NETWORK_SEND). cbv beta iota.
  rewrite Ho. unfold validate_network_send_args. rewrite (task_no_fits_parsed _ Ha). done.
Qed.

(** Every file of a plan can be handed to a worker, whatever index it gets. *)
Theorem plan_files_ok ctx files p n :
  build_file_plan ctx = Some files → is_u8 (lt_calibration_type ctx) → p ∈ files →
  0 <= n <= INT_MAX →
  planned_ok (mkPlanned (pf_channel_id p) (pf_proto_file_type_code p) (pf_file_type_name p)
    (pf_size_bytes p) n (pf_start_lba p) (pf_sector_count p) (pf_calibration_type p)).
Proof.
  intros Hf Hc Hp Hn. unfold build_file_plan in Hf. unfold is_u8, UINT8_MAX in Hc.
  repeat case_match; simplify_eq; set_unfold in Hp; destruct_or!; subst;
    split; cbn; unfold NUM_CHANNELS, is_u8, UINT8_MAX; try done; lia.
Qed.

(** C26: a storage worker works on exactly the file the supervisor planned.
    For every planned file with a known channel, a sector-aligned size and
    codes of one byte, a task number of at most 11 characters and overrides
    that parse, the words the supervisor puts into [argv] - numbers printed in
    decimal, options in the order of the code - take [main] into the supervised
    worker mode, whose global options, subcommand options and validator accept
    them and give back the planned channel, size, index, type, calibration,
    task number, descriptor size and timeout, with automatic placement and the
    transfer source. *)
Theorem worker_command_line_roundtrip program p task s :
  planned_ok p → (0 < String.length task <= 11)%nat →
  let dma := fst (dma_desc_text (pf_channel_id p) s) in
  let timeout := buffer_text (fst (storage_config_compat_getenv "SRC_REAL_STORAGE_TIMEOUT_US" s)) in
  dma_text_ok (pf_channel_id p) dma → timeout_text_ok timeout →
  ∃ argv, main_dispatch (fst (start_storage_worker_argv program p task s)) = StorageWorker argv true ∧
    run_storage_worker_args argv =
    Some (mkGlobal (fst (env_flag_enabled "SRC_REAL_STORAGE_DRY_RUN" s))
            (fst (env_flag_enabled "SRC_REAL_STORAGE_SKIP_LINK_CHECK" s)) (timeout_of timeout),
          launched_args p task dma).
Proof.
  intros Hp Hl dma timeout Hd Ht. rewrite start_storage_worker_argv_value.
  apply storage_argv_parsed; [done|lia|done|done].
Qed.

Definition example_env : config_state :=
  mkConfigState (<["SRC_REAL_STORAGE_TIMEOUT_US" := "0x10000"]>
    (<["SRC_REAL_STORAGE_DMA_DESC_BYTES_CH0" := "8388608"]>
    (<["CCB_STORAGE_COMPAT_MODE" := "1"]> ∅)))%string [] [] None.
Definition example_planned : PlannedFile := mkPlanned 0 FILE_TYPE_I (Some "HIGH_I"%string) 0 7 0 0 0.

Lemma worker_command_line_roundtrip_witness :
  ∃ argv, main_dispatch (fst (start_storage_worker_argv "./app" example_planned "T20240101" example_env))
            = StorageWorker argv true ∧
    run_storage_worker_args argv =
    Some (mkGlobal false false 65536,
      mkArgs true true 0 false 0 true "T20240101" true 7 true 1 true 0 true SOURCE_TRANSFER
        true 8388608 false 0 false 0 true 0 false).
Proof.
  refine (worker_command_line_roundtrip "./app" example_planned "T20240101" example_env _ _ _ _).
  - split; vm_compute; repeat split; discriminate.
  - vm_compute. lia.
  - intros _. eexists _, _. split; [reflexivity|]. split; [vm_compute; reflexivity|].
    vm_compute. repeat split; discriminate.
  - intros _. vm_compute. by eexists.
Defined.

(** C27: what a worker's command line can make the storage engine do is
    bounded.  If either write command is accepted, the channel is one of the
    table's, the task number has at most 11 characters, a given size is a
    positive number of whole sectors that fits in a metadata entry, a missing
    size comes with automatic placement, a given descriptor size divides the
    channel's ring into at least one and at most as many descriptors as its
    descriptor memory holds, and the file type is one byte. *)
Theorem accepted_write_bounded argv g a :
  run_storage_worker_args argv = Some (g, a) →
  ∃ cfg, write_bounds a cfg ∧ has_proto_file_type a = true ∧ is_u8 (proto_file_type a).
Proof.
  unfold run_storage_worker_args. intros H.
  destruct (parse_global_options argv) as [[gopt [|command rest]]|]; [done| |done].
  destruct (parse_command_type command) as [[]|]; try done;
    destruct (parse_subcommand_args (command :: rest)) as [b|] eqn:E; try done;
    pose proof (parse_subcommand_args_ok _ _ E) as Hb.
  - destruct (validate_write_args b) eqn:Hv; [|done]. injection H as <- <-.
    destruct (write_accepted b Hb Hv) as (cfg & [Hc ? ? ? ? ?]). exists cfg.
    split; [by split|]. split; [done|]. cbn [proto_file_type].
    destruct Hc as [Hc _].
    change (is_u8 (match find_channel (channel_id b) with
                   | Some cfg => ch_file_type cfg | None => FILE_TYPE_LOW end)).
    rewrite Hc. unfold find_channel in Hc. simpl in Hc. repeat case_match; simplify_eq; cbn; cint.
  - destruct (validate_storage_write_args b) eqn:Hv; [|done]. injection H as <- <-.
    destruct (storage_write_accepted b Hb Hv) as (cfg & Hw & Hp). exists cfg.
    split; [done|]. split; [done|]. apply Hb.
Qed.

Lemma accepted_write_bounded_witness :
  ∃ cfg, write_bounds (launched_args example_planned "T1" "") cfg ∧
    has_proto_file_type (launched_args example_planned "T1" "") = true ∧
    is_u8 (proto_file_type (launched_args example_planned "T1" "")).
Proof.
  apply (accepted_write_bounded
    (drop 1 (storage_argv "./app" false false "" "" example_planned "T1"))
    (mkGlobal false false DEFAULT_TIMEOUT_US)). vm_compute. reflexivity.
Defined.
End system_launch.
