(* ===== verification/WorkerMain.v ===== *)
(** * The process of a storage worker ([src/src/system.c])

    [run_storage_worker_main]: the arguments, the capture, and what the parent is
    told of it.  A worker whose capture is fully drained announces that, waits
    for the parent to stop it and reports that it has finalised; any other one
    reports a fatal error; then the result follows.  The pipes and the signal
    flag are parameters; that an event is refused which
    [storage_ipc_validate_event] does not accept is the first thing
    [storage_ipc_write_event_deadline] does. *)
From S2P Require Import Prelude StorageError CStdlib CcbTypes Config Ipc DmaRing CrossSlot WriteQueue CmdConfig NvmeQueue Cli ChannelOpen ProducerStats ProducerBatch ProducerRun ProducerEnd ProducerSetup Launch.

Module storage_worker_main.
Import storage_config storage_ipc storage_write_queue ccb_capture ccb_capture_run ccb_capture_end ccb_capture_setup.

Definition EAGAIN : Z := 11.
(** Drained-ready events, and the position of the result in a final event. *)
Definition drain_harvested_off : nat := 32%nat.
Definition drain_queued_off : nat := 40%nat.
Definition drain_completed_off : nat := 48%nat.
Definition drain_tail_off : nat := 56%nat.
Definition drain_submit_off : nat := 64%nat.
Definition drain_completion_off : nat := 72%nat.
Definition drain_integrity_off : nat := 80%nat.
Definition final_result_off : nat := 80%nat.

#[export] Instance eta_Result : EtaOf Result := λ r,
  mkResult (r_receive_integrity_ok r) (r_storage_integrity_ok r) (r_integrity_ok r) (r_data_persisted r)
    (r_dma_stop_recovered r) (r_counters r) (r_nvme_completed_bytes r) (r_nvme_media_bytes r)
    (r_nvme_padding_bytes r) (r_completed_unharvested_bytes r) (r_stop_epoch r) (r_times r) (r_totals r)
    (r_final_ready_count r) (r_final_active_count r) (r_final_global_inflight r) (r_submit_count r)
    (r_completion_count r) (r_final_completed_unharvested r) (r_file_bytes r) (r_expected r) (r_metadata_slot r)
    (r_start_lba r) (r_sector_count r) (r_file_index r) (r_primary_error r) (r_secondary_error r)
    (r_integrity_risk r) (r_secondary_reason r).
(** The zeroed result that a capture which opens nothing leaves. *)
Definition zero_result : Result :=
  mkResult false false false false false (mkCounters 0 0 0 0 0 0 0) 0 0 0 0 0 (mkTimes 0 0 0 0 0 0 0 0) (mkTotals 0 0 0 0 0 0)
    0 0 0 0 0 0 0 None 0 0 0 0 STORAGE_ERR_NONE STORAGE_ERR_NONE "" "".

Definition storage_result_fully_drained (r : Result) : bool :=
  let queued := queued_payload_bytes (r_counters r) in
  let harvested := dma_harvested_payload_bytes (r_counters r) in
  r_data_persisted r && (r_final_completed_unharvested r =? 0) && (r_final_ready_count r =? 0) &&
  (r_final_active_count r =? 0) && (r_final_global_inflight r =? 0) &&
  (r_submit_count r =? r_completion_count r) && (queued =? r_nvme_completed_bytes r) &&
  (r_nvme_completed_bytes r =? r_file_bytes r) && (buffered_bytes (r_totals r) =? 0) &&
  (queued <=? harvested) && (harvested - queued =? tail_unqueued_bytes (r_counters r)).

(** What the worker reaches of its process: the flag of the signal handler, the
    pipe of control messages ([inl]: the errno of a read that gave none), the
    start of the logger. *)
Record Process (W : Type) : Type := mkProcess {
  capture_around : Surroundings W;
  stop_signalled : Eff W bool;
  read_stop_control : Z → Eff W (Z + StorageControlMessage);
  logger_init : Eff W bool;
  result_bytes : Result → list Z }.
Arguments mkProcess {W}. Arguments capture_around {W}. Arguments stop_signalled {W}.
Arguments read_stop_control {W}. Arguments logger_init {W}. Arguments result_bytes {W}.

(** ** The events *)
Section Events.
Context (ch : Z) (task : string) (result_bytes : Result → list Z).
Definition make_event (now type : Z) (code : StorageErrorCode) (received : Z) (reason : string) : StorageWorkerEvent :=
  storage_ipc_make_event now type (u32 ch) code received (Some (reason_bytes reason)).
Definition valid_or_none (code : StorageErrorCode) : StorageErrorCode :=
  if storage_error_code_valid code then code else STORAGE_ERR_NONE.
Definition or_internal (code : StorageErrorCode) : StorageErrorCode :=
  if negb (code =? STORAGE_ERR_NONE) then code else STORAGE_ERR_INTERNAL.
Definition storage_worker_fill_drain_ready (now : Z) (r : Result) : StorageWorkerEvent :=
  let primary := valid_or_none (r_primary_error r) in
  (make_event now STORAGE_WORKER_DRAIN_READY primary (dma_observed_bytes (r_counters r))
    (if r_integrity_ok r then "none" else r_integrity_risk r)) <| e_payload ::= λ p,
  put 0 (take 11 (reason_bytes task))
  (put64 drain_epoch_off (r_stop_epoch r)
  (put64 drain_harvested_off (dma_harvested_payload_bytes (r_counters r))
  (put64 drain_queued_off (queued_payload_bytes (r_counters r))
  (put64 drain_completed_off (r_nvme_completed_bytes r)
  (put64 drain_tail_off (tail_unqueued_bytes (r_counters r))
  (put64 drain_submit_off (r_submit_count r)
  (put64 drain_completion_off (r_completion_count r)
  (put32 drain_integrity_off (if r_integrity_ok r then 1 else 0)
  (put32 drain_secondary_off (valid_or_none (r_secondary_error r)) p))))))))) |>.
Definition fatal_event (now : Z) (r : Result) : StorageWorkerEvent :=
  make_event now STORAGE_WORKER_FATAL (or_internal (r_primary_error r)) (dma_received_bytes (r_counters r))
    (if String.eqb (r_integrity_risk r) "" then "worker_failed" else r_integrity_risk r).
Definition finalized_event (now : Z) (r : Result) : StorageWorkerEvent :=
  (make_event now STORAGE_WORKER_STOP_PHASE STORAGE_ERR_NONE (dma_observed_bytes (r_counters r)) "finalized")
    <| e_payload ::= λ p, put32 phase_stop_phase_off STORAGE_WORKER_FINALIZED (put64 phase_epoch_off (r_stop_epoch r) p) |>.
Definition final_event (now rc : Z) (r : Result) : StorageWorkerEvent :=
  (make_event now STORAGE_WORKER_FINAL_RESULT (if rc =? 0 then STORAGE_ERR_NONE else or_internal (r_primary_error r))
    (dma_received_bytes (r_counters r)) (if rc =? 0 then "final" else "failed"))
    <| e_payload ::= put final_result_off (result_bytes r) |>.
End Events.

(** What the parent is told; the return code goes with a final result. *)
Inductive Message : Type := DrainReady (r : Result) | Fatal (r : Result) | Finalized (r : Result) | Final (rc : Z) (r : Result).
Definition event_of (ch : Z) (task : string) (bytes : Result → list Z) (now : Z) (m : Message) : StorageWorkerEvent :=
  match m with
  | DrainReady r => storage_worker_fill_drain_ready ch task now r
  | Fatal r => fatal_event ch now r
  | Finalized r => finalized_event ch now r
  | Final rc r => final_event ch bytes now rc r
  end.

(** ** The interface to the parent *)
Record Parent (W : Type) : Type := mkParent {
  tell : Message → Eff W bool;
  finalize_requested : Eff W bool;
  await_control : Eff W (Z + StorageControlMessage) }.
Arguments mkParent {W}. Arguments tell {W}. Arguments finalize_requested {W}. Arguments await_control {W}.

(** [storage_ipc_write_event_deadline] refuses an event that is not valid. *)
Definition write_event_deadline {W} (P : Producer W) (e : StorageWorkerEvent) : Eff W bool :=
  let! t := storage_ipc_monotonic_us P in
  if negb (storage_ipc_validate_event e) || (e_type e =? STORAGE_WORKER_PERF_SAMPLE) then eret false else
  let! rc := write_event P e (u64 (t + 1000000)) in
  eret (rc =? 0).
(** A stop command that the capture has seen, or a signal. *)
Definition storage_write_finalize_requested {W} (X : Process W) (g : Globals) : Eff W bool :=
  if g_storage_control_stop_latched g then eret true else stop_signalled X.
(** The time stamp of an event is read when it is made. *)
Definition parent_of {W} (X : Process W) (g : Globals) (ch : Z) (task : string) : Parent W :=
  let P := around (capture_around X) in
  mkParent
    (λ m, let! now := storage_ipc_monotonic_us P in write_event_deadline P (event_of ch task (result_bytes X) now m))
    (storage_write_finalize_requested X g)
    (let! now := storage_ipc_monotonic_us P in read_stop_control X (u64 (now + 500000))).

Section Report.
Context {W : Type} (Q : Parent W).

(** Errors of a read that are tried again. *)
Definition again (errno : Z) : bool := (errno =? ETIMEDOUT) || (errno =? EAGAIN) || (errno =? EINTR).
Fixpoint wait_loop (fuel : nat) (drain_epoch : Z) : Eff W (option Z) :=
  match fuel with
  | O => eret None
  | S fuel =>
    let! requested := finalize_requested Q in
    if (requested : bool) then eret (Some 0) else
    let! o := await_control Q in
    match o with
    | inl errno => if again errno then wait_loop fuel drain_epoch else eret (Some (-1))
    | inr m =>
      if (c_type m =? STORAGE_CTRL_AUTO_DRAIN) && (c_stop_epoch m =? drain_epoch) then wait_loop fuel drain_epoch else
      if negb (c_type m =? STORAGE_CTRL_STOP) || negb (c_stop_epoch m =? drain_epoch) then eret (Some (-1))
      else eret (Some 0)
    end
  end.
Definition storage_worker_wait_for_stop (fuel : nat) (control_fd drain_epoch : Z) : Eff W (option Z) :=
  if (control_fd <? 0) || (drain_epoch =? 0) then eret (Some (-1)) else wait_loop fuel drain_epoch.

(** A drained worker: [None], it waits for ever; [Some None], it goes on as
    drained; otherwise the reason why it does not. *)
Definition announce_drained (fuel : nat) (control_fd : Z) (r : Result) : Eff W (option (option string)) :=
  let! ok := tell Q (DrainReady r) in
  if negb (ok : bool) then eret (Some (Some "drain_ready_event_send_failed"%string)) else
  let! requested := finalize_requested Q in
  if (requested : bool) then eret (Some None) else
  let! rc := storage_worker_wait_for_stop fuel control_fd (r_stop_epoch r) in
  eret (match rc with
        | None => None
        | Some rc => Some (if negb (rc =? 0) then Some "drained_wait_stop_failed"%string else None) end).
Definition with_risk (why : string) (r : Result) : Result :=
  r <| r_integrity_risk := why |> <| r_integrity_ok := false |>.

(** Whether the result was delivered. *)
Definition report_failed (fatal_sent : bool) (rc : Z) (r : Result) : Eff W bool :=
  let! ok := (if fatal_sent then eret true else tell Q (Fatal r)) in
  if (ok : bool) then tell Q (Final rc r) else eret false.
Definition storage_worker_emit_finalized (r : Result) : Eff W bool := tell Q (Finalized r).
Definition report_drained (rc : Z) (r : Result) : Eff W bool :=
  let! ok := storage_worker_emit_finalized r in
  if (ok : bool) then tell Q (Final rc r) else eret false.
Definition report (fuel : nat) (control_fd : Z) (fatal_sent : bool) (rc : Z) (r : Result) : Eff W (option bool) :=
  if negb (storage_result_fully_drained r) then let! o := report_failed fatal_sent rc r in eret (Some o) else
  let! o := announce_drained fuel control_fd r in
  match o with
  | None => eret None
  | Some None => let! o := report_drained rc r in eret (Some o)
  | Some (Some why) => let! o := report_failed fatal_sent (-1) (with_risk why r) in eret (Some o)
  end.
End Report.

(** ** The process *)
Section Main.
Context {W : Type} (X : Process W).
#[local] Abbreviation M := (Eff (config_state * W)).
(** Nothing has been sent before the capture begins. *)
Definition reset_globals : Globals := mkGlobals false false 0 false.
(** The exit status; [None]: the capture or the wait for the parent does not end. *)
Definition run_storage_worker_main (argv : list string) (supervised : bool) (fuel inner : nat) : M (option Z) :=
  match system_launch.run_storage_worker_args argv with
  | None => eret (Some 2)
  | Some (gopt, a) =>
    let! logging := sio (logger_init X) in
    if negb (logging : bool) then eret (Some 1) else
    let! o := execute_write_with_result_mode (capture_around X) a gopt supervised fuel inner in
    let after rc r g :=
      let! event_fd := ccb_cmd_config.configured (storage_env_fd CCB_INTERNAL_STORAGE_EVENT_FD) in
      if negb (supervised && (0 <=? event_fd)) then eret (Some (if supervised then 1 else if rc =? 0 then 0 else 1)) else
      let! control_fd := ccb_cmd_config.configured (storage_env_fd CCB_INTERNAL_STORAGE_CONTROL_FD) in
      let! o := sio (report (parent_of X g (ccb_cli.channel_id a) (ccb_cli.arg_task_no a)) fuel control_fd (g_storage_fatal_event_sent g) rc r) in
      eret (match o with None => None | Some final_sent => Some (if (final_sent : bool) then 0 else 1) end) in
    match o with
    | Unfinished => eret None
    | Unopened => after (-1) zero_result reset_globals
    | Returned e g => after (e_rc e) (e_result e) g
    end
  end.
End Main.
End storage_worker_main.
