(* ===== verification/WorkerMainSafe.v ===== *)
(** * What a worker tells its parent is true

    [report] against any [Parent], observed: a result is announced as a success
    only by a worker that was drained, was told so to stop and has said that it
    has finalised, and whose capture has returned 0, with all that this means
    ([ProducerSound]).  Over the real pipe, a failure whose first error is only
    a deferred one is not told at all. *)
From S2P Require Import Prelude StorageError CStdlib CcbTypes Config Ipc DmaRing CrossSlot WriteQueue CmdConfig NvmeQueue Cli ChannelOpen ProducerStats ProducerBatch ProducerRun ProducerEnd ProducerExample ProducerLogic ProducerSafe ProducerTurn ProducerSound ProducerSetup ProducerFresh Launch WorkerMain.

Module worker_main_safety.
Import storage_ipc storage_write_queue ccb_capture ccb_capture_run ccb_capture_end producer_example producer_sound storage_worker_main.

(** A successful capture passes the test that the worker makes. *)
Lemma sound_is_drained c plan r : sound_result c plan r → storage_result_fully_drained r = true.
Proof.
  intros [_ _ Hh Hq Hc Ht [_ Hu] (He1&He2&He3) Hs Hp Hb _ _ _ _ _ _]. unfold storage_result_fully_drained.
  rewrite Hp, Hu, He1, He2, He3, Hs, Hq, Hc, Hb, Hh, Ht. by rewrite !Z.eqb_refl, Z.leb_refl, Z.sub_diag.
Qed.

(** ** What is seen *)
Inductive Note : Type := Tell (m : Message) (delivered : bool) | Asked (stop : bool) | Heard (o : Z + StorageControlMessage).

Section Observed.
Context {W : Type} (Q : Parent W).
#[local] Abbreviation St := (W * list Note)%type.
Definition noting {A} (note : A → Note) (m : Eff W A) : Eff St A := λ '(w, l), let '(a, w) := m w in (a, (w, l ++ [note a])).
Definition watched : Parent St :=
  mkParent (λ m, noting (Tell m) (tell Q m)) (noting Asked (finalize_requested Q)) (noting Heard (await_control Q)).
Lemma wp_noting {A} (note : A → Note) (m : Eff W A) (R : A → St → Prop) w l :
  (∀ a w', R a (w', l ++ [note a])) → wp (noting note m) R (w, l).
Proof. intros H. unfold wp, noting. destruct (m w) as [a w1]. apply (H a w1). Qed.

(** *** Waiting for the stop *)
Definition silent (l : list Note) : Prop := Forall (λ n, match n with Tell _ _ => False | _ => True end) l.
(** A stop of this epoch, or of the process. *)
Definition released (epoch : Z) (l : list Note) : Prop :=
  Asked true ∈ l ∨ ∃ m, Heard (inr m) ∈ l ∧ c_type m = STORAGE_CTRL_STOP ∧ c_stop_epoch m = epoch.
Lemma await_stop_spec epoch fuel w l : wp (wait_loop watched fuel epoch)
  (λ o st, ∃ mid, st.2 = l ++ mid ∧ silent mid ∧ (o = Some 0 → released epoch mid)) (w, l).
Proof.
  revert w l; induction fuel as [|fuel IH]; intros w l; cbn [wait_loop].
  { apply wp_ret. exists []. rewrite app_nil_r. by split_and!; [|constructor|]. }
  apply wp_bind, wp_noting. intros b w1. destruct b.
  { apply wp_ret. exists [Asked true]. split_and!; [done|by repeat constructor|]. intros _. left. by left. }
  assert (Hstop : ∀ (o : Z + StorageControlMessage) rc w', (rc = Some 0 → released epoch [Asked false; Heard o]) →
    wp (eret rc) (λ (o : option Z) (st : St), ∃ mid, st.2 = l ++ mid ∧ silent mid ∧ (o = Some 0 → released epoch mid)) (w', (l ++ [Asked false]) ++ [Heard o])).
  { intros o rc w' Hr. apply wp_ret. exists [Asked false; Heard o]. split_and!; [by rewrite <-app_assoc|by repeat constructor|done]. }
  assert (Hgo : ∀ (o : Z + StorageControlMessage) w', wp (wait_loop watched fuel epoch)
    (λ o (st : St), ∃ mid, st.2 = l ++ mid ∧ silent mid ∧ (o = Some 0 → released epoch mid)) (w', (l ++ [Asked false]) ++ [Heard o])).
  { intros o w'. eapply wp_mono; [apply IH|]. intros rc [w2 l2] (mid&E&Hs&Hr). exists ([Asked false; Heard o] ++ mid). split_and!.
    - cbn [snd] in *. rewrite E. by rewrite <-!app_assoc.
    - apply Forall_app. by split; [repeat constructor|].
    - intros Hrc. destruct (Hr Hrc) as [H|(m&H&H')]; [left|right; exists m; split; [|done]]; apply elem_of_app; by right. }
  apply wp_bind, wp_noting. intros [errno|m] w2.
  - destruct (again errno); [apply Hgo|by apply Hstop].
  - destruct (_ && _); [apply Hgo|]. destruct (Z.eqb_spec (c_type m) STORAGE_CTRL_STOP) as [Ht|]; cbn [negb orb]; [|by apply Hstop].
    destruct (Z.eqb_spec (c_stop_epoch m) epoch) as [He|]; cbn [negb]; [|by apply Hstop]. apply Hstop. intros _. right. exists m.
    split; [by right; left|done].
Qed.

(** *** Telling *)
Definition told (m : Message) (l : list Note) : Prop := Tell m true ∈ l.
(** A stop was awaited, then the end was told. *)
Definition wound_up (r : Result) (l : list Note) : Prop :=
  ∃ mid, silent mid ∧ released (r_stop_epoch r) mid ∧ l = Tell (DrainReady r) true :: mid ++ [Tell (Finalized r) true; Tell (Final 0 r) true].
(** No success is told. *)
Definition no_success (l : list Note) : Prop := ∀ r, ¬ told (Final 0 r) l.
Lemma silent_no_success l : silent l → no_success l.
Proof. intros H r Hr. unfold silent in H. rewrite Forall_forall in H. exact (H _ Hr). Qed.
Lemma no_success_app l l' : no_success l → no_success l' → no_success (l ++ l').
Proof. intros H H' r [Hr|Hr]%elem_of_app; [by eapply H|by eapply H']. Qed.
Lemma no_success_one m b : (∀ r, m = Final 0 r → b = false) → no_success [Tell m b].
Proof. intros H r [E|Hr]%elem_of_cons; [injection E as <- <-; by specialize (H r eq_refl)|by apply elem_of_nil in Hr]. Qed.

Lemma report_failed_spec fatal rc r w l : rc ≠ 0 → no_success l →
  wp (report_failed watched fatal rc r) (λ _ (st : St), no_success st.2) (w, l).
Proof.
  intros Hrc Hl. unfold report_failed. assert (Hf : ∀ w l, no_success l → wp (tell watched (Final rc r)) (λ _ (st : St), no_success st.2) (w, l)).
  { intros w1 l1 H1. apply wp_noting. intros ok w2. apply no_success_app; [done|]. apply no_success_one. by intros r' [= E]. }
  apply wp_bind. destruct fatal; [apply wp_ret; by apply Hf|]. apply wp_noting. intros ok w1.
  assert (no_success (l ++ [Tell (Fatal r) ok])) by (by apply no_success_app, no_success_one).
  destruct ok; [by apply Hf|by apply wp_ret].
Qed.
Lemma announce_spec fuel fd r w : wp (announce_drained watched fuel fd r) (λ o (st : St), no_success st.2 ∧
  (o = Some None → ∃ mid, silent mid ∧ released (r_stop_epoch r) mid ∧ st.2 = Tell (DrainReady r) true :: mid)) (w, []).
Proof.
  assert (Hd : ∀ b, no_success [Tell (DrainReady r) b]) by (intros b; by apply no_success_one).
  unfold announce_drained. apply wp_bind, wp_noting. intros ok w1. destruct ok; cbn [negb app]; [|apply wp_ret; split; [apply Hd|done]].
  apply wp_bind, wp_noting. intros b w2. destruct b.
  { apply wp_ret. split; [by apply (no_success_app [_]); [|apply silent_no_success; repeat constructor]|]. intros _.
    exists [Asked true]. split_and!; [by repeat constructor|left; by left|done]. }
  apply wp_bind. unfold storage_worker_wait_for_stop. destruct (_ || _).
  { do 2 apply wp_ret. split; [by apply (no_success_app [_]); [|apply silent_no_success; repeat constructor]|done]. }
  eapply wp_mono; [apply await_stop_spec|]. intros rc [w3 l3] (mid&E&Hs&Hr). cbn [snd] in *. subst l3. apply wp_ret. cbn [snd].
  assert (Hs' : silent (Asked false :: mid)) by (by constructor).
  split; [apply (no_success_app [_] (Asked false :: mid)); [done|by apply silent_no_success]|].
  destruct rc as [rc|]; [|done]. destruct (Z.eqb_spec rc 0) as [->|]; [|done]. intros _. exists (Asked false :: mid). split_and!; [done| |done].
  destruct (Hr eq_refl) as [H|(m&H&H')]; [left; by right|right; exists m; split; [by right|done]].
Qed.
(** A report that tells a success winds up the capture that returned 0. *)
Lemma report_spec fuel fd fatal rc r w : (rc = 0 → storage_result_fully_drained r = true) →
  wp (report watched fuel fd fatal rc r) (λ o (st : St), ∀ r', told (Final 0 r') st.2 → rc = 0 ∧ r' = r ∧ wound_up r st.2) (w, []).
Proof.
  intros Hd. unfold report. destruct (storage_result_fully_drained r); cbn [negb].
  2:{ apply wp_bind. eapply wp_mono; [apply report_failed_spec; [by intros H%Hd|by intros r' ?%elem_of_nil]|]. intros o st Hn. apply wp_ret.
      intros r' Hr. by destruct (Hn r'). }
  apply wp_bind. eapply wp_mono; [apply announce_spec|]. intros o [w1 l1] [Hn Ho]. cbn [snd] in *. destruct o as [[why|]|].
  - apply wp_bind. eapply wp_mono; [by apply report_failed_spec|]. intros o st Hn'. apply wp_ret. intros r' Hr. by destruct (Hn' r').
  - destruct (Ho eq_refl) as (mid&Hs&Hr&->). apply wp_bind. unfold report_drained, storage_worker_emit_finalized. apply wp_bind, wp_noting. intros ok w2.
    assert (Hn2 : no_success ((Tell (DrainReady r) true :: mid) ++ [Tell (Finalized r) ok])) by (by apply no_success_app, no_success_one).
    destruct ok; [|by do 2 apply wp_ret; intros r' H'; destruct (Hn2 r')]. apply wp_noting. intros sent w3. apply wp_ret. cbn [snd].
    intros r' [H'|H']%elem_of_app; [by destruct (Hn2 r')|]. apply list_elem_of_singleton in H'. injection H' as <- <- <-.
    split_and!; [done|done|]. exists mid. split_and!; [done|done|]. by rewrite <-app_assoc.
  - apply wp_ret. intros r' Hr. by destruct (Hn r').
Qed.
End Observed.

(** ** The properties *)
(** C6: a success is only reported when it has been earned.  Whatever a capture does and whatever the parent answers: a
    final result that is delivered as a success is the result of that capture, which has returned 0, so that every
    number in it agrees ([sound_result]); before it, in this order and with nothing else told in between, the worker has
    delivered that it is drained, has been asked to stop - by a signal, by a command that the capture has seen, or by a
    stop command of the capture's own epoch - and has delivered that it has finalised. *)
Theorem success_reported_soundly (W : Type) (P : Producer W) (c : Settings) (plan : Plan) (p : Pressure)
    (fuel inner : nat) (s : State) (w : W) (e : Ended) (s' : State) (w' : W)
    (V : Type) (Q : Parent V) (patience : nat) (control_fd : Z) (fatal_sent : bool) (v : V) :
  is_u64 (requested_size c) → is_u64 (start_lba plan) → vars s = locals_init p (start_lba plan) →
  capture P c plan fuel inner (s, w) = (Some e, (s', w')) →
  let '(_, (_, l)) := report (watched Q) patience control_fd fatal_sent (e_rc e) (e_result e) (v, []) in
  ∀ r, told (Final 0 r) l → e_rc e = 0 ∧ r = e_result e ∧ sound_result c plan r ∧ wound_up r l.
Proof.
  intros Hreq Hlba Hs Hc. pose proof (capture_post P c plan fuel inner Hreq s w) as H. rewrite Hc, Hs in H.
  specialize (H (init_in_order c plan p Hlba) e eq_refl).
  assert (Hd : e_rc e = 0 → storage_result_fully_drained (e_result e) = true) by (intros [Hsound _]%H; by eapply sound_is_drained).
  pose proof (report_spec Q patience control_fd fatal_sent (e_rc e) (e_result e) v Hd) as Hr. unfold wp in Hr.
  destruct (report _ _ _ _ _ _ _) as [o [v1 l]]. intros r Ht. destruct (Hr r Ht) as (H0&->&Hw). split_and!; [done|done|by apply H|done].
Qed.

(** A parent that is always reached, and asks for the stop with the first command. *)
Definition example_parent (epoch : Z) : Parent unit :=
  mkParent (λ _, eret true) (eret false) (eret (inr (mkControl STORAGE_IPC_MAGIC STORAGE_IPC_VERSION 32 STORAGE_CTRL_STOP 0 0 epoch))).
Definition example_report (e : Ended) : option bool * (unit * list Note) :=
  report (watched (example_parent (r_stop_epoch (e_result e)))) 5 7 false (e_rc e) (e_result e) (tt, []).
(** The capture that a signal stops after 1024 bytes is reported as a success. *)
Lemma success_reported_soundly_witness :
  ∃ e, example_run.1 = Some e ∧ (example_report e).1 = Some true ∧
    (told (Final 0 (e_result e)) (example_report e).2.2 →
     e_rc e = 0 ∧ sound_result example_settings example_plan (e_result e) ∧ wound_up (e_result e) (example_report e).2.2).
Proof.
  assert (Hr : match example_run.1 with Some e => bool_decide ((example_report e).1 = Some true) | None => false end = true)
    by (vm_compute; reflexivity).
  pose proof (success_reported_soundly World example_producer example_settings example_plan (pressure_init 0 0 0) 20 20 example_start (1, 0)) as H.
  unfold example_run in *. destruct (capture _ _ _ _ _ _) as [[e|] [s' w']]; [|discriminate]. cbn [fst] in Hr |- *.
  exists e. split; [reflexivity|]. split; [exact (proj1 (bool_decide_eq_true _) Hr)|].
  specialize (H e s' w' unit (example_parent (r_stop_epoch (e_result e))) 5%nat 7 false tt
    ltac:(split; vm_compute; congruence) ltac:(split; vm_compute; congruence) eq_refl eq_refl).
  fold (example_report e) in H. destruct (example_report e) as [o [v l]]. cbn [fst snd] in *.
  intros Ht. destruct (H (e_result e) Ht) as (H0&_&Hs&Hw). exact (conj H0 (conj Hs Hw)).
Defined.

(** The capture was not drained, and its first error is of the deferred class. *)
Definition deferred_only (r : Result) : Prop :=
  storage_result_fully_drained r = false ∧ storage_error_class (r_primary_error r) = STORAGE_ERROR_DEFERRED.

(** C34: a failure that is only deferred is not reported.  When a capture that is not drained has a first error of the
    deferred class - the late end of a packet or of the harvest, an unaligned tail, a late completion - and nothing fatal
    has been sent, the fatal event that the worker makes of it is one that the sender itself refuses; so neither it nor
    the result is written, and the worker only reads the clock before it gives up. *)
Theorem deferred_failure_untold (W : Type) (X : Process W) (g : Globals) (ch : Z) (task : string) (fuel : nat)
    (control_fd rc : Z) (r : Result) (w : W) :
  deferred_only r →
  let clock := storage_ipc_monotonic_us (ccb_capture_setup.around (capture_around X)) in
  report (parent_of X g ch task) fuel control_fd false rc r w = (Some false, (clock (clock w).2).2).
Proof.
  intros [Hd Hc] clock. unfold report, report_failed. rewrite Hd. cbn [negb]. unfold ebind, parent_of. cbn [tell].
  unfold write_event_deadline, ebind. fold clock. clearbody clock. destruct (clock w) as [now w1]. cbn [snd]. destruct (clock w1) as [t w2]. cbn [snd].
  assert (Hne : r_primary_error r ≠ STORAGE_ERR_NONE) by (intros E; rewrite E in Hc; discriminate Hc).
  assert (Hu : is_u32 (r_primary_error r)).
  { revert Hc. generalize (r_primary_error r). intros code. unfold storage_error_class. destruct (code =? _); [done|].
    destruct (_ || _) eqn:E; [|done]. intros _. rewrite !orb_true_iff, !Z.eqb_eq in E.
    by destruct E as [[[-> | ->] | ->] | ->]; split; vm_compute. }
  assert (Hv : storage_ipc_validate_event (event_of ch task (result_bytes X) now (Fatal r)) = false).
  { cbn [event_of]. unfold fatal_event, make_event, or_internal. replace (r_primary_error r =? STORAGE_ERR_NONE) with false by lia. cbn [negb].
    rewrite make_event_validity by (done || cint). unfold made_event_acceptable. rewrite Hc. by destruct (storage_error_code_valid _). }
  rewrite Hv. reflexivity.
Qed.
(** A stop whose harvest did not come to an end in time. *)
Definition late_harvest : Result := zero_result <| r_primary_error := STORAGE_ERR_STOP_HARVEST_TIMEOUT |>.
Definition example_process : Process World :=
  mkProcess producer_fresh.example_around (nothing false) (λ _, nothing (inl ETIMEDOUT)) (nothing true) (λ _, []).
Lemma deferred_failure_untold_witness :
  deferred_only late_harvest ∧
  (report (parent_of example_process reset_globals 2 "T1") 5 7 false (-1) late_harvest (1, 0)).1 = Some false.
Proof.
  assert (Hd : deferred_only late_harvest) by (split; reflexivity). split; [exact Hd|].
  rewrite (deferred_failure_untold World example_process reset_globals 2 "T1" 5 7 (-1) late_harvest (1, 0) Hd). reflexivity.
Defined.
End worker_main_safety.
