(* ===== verification/Parent.v ===== *)
(** * The parent process ([src/src/system.c])

    The supervising loop around [Supervisor], [Capture], [Commit] and [Task]:
    reading worker events, reaping workers, sending control messages, the
    deferred answers to the start and stop commands, and the aggregate verdict
    with its commit.  The kernel, the clock, the pipes, the database and the
    commit callbacks answer anything; an acknowledgement is an entry of [acks].
    Log lines and performance records are left out. *)
From stdpp Require Import pretty.
From S2P Require Import Prelude Bytes CStdlib StorageError CcbTypes Config Ipc Supervisor Task Capture Commit CommitStore Cli Launch.

Module system_parent.
Import storage_controller c_stdlib ccb_types ccb_config storage_config storage_ipc storage_supervisor ccb_storage_task ccb_storage_commit system_commit ccb_cli system_launch.

Definition ACK_SUCCESS : Z := 0x11.
Definition ACK_FAILED : Z := 0xFF.
Definition ACK_INVALID_PARAM : Z := 0x00.
Definition ACK_RETRYING : Z := 0x55.
Definition SWITCH_ON : Z := 0x11.
Definition SWITCH_OFF : Z := 0xFF.
Definition CCB_INTERNAL_SUPERVISED_CHANNEL_COUNT : string := "CCB_INTERNAL_SUPERVISED_CHANNEL_COUNT".
Definition STORAGE_TASK_COUNT : Z := NUM_CHANNELS.
Definition STORAGE_STOP_MAX_SEND_ATTEMPTS : Z := 3.
Definition ALL_FAILURES : Z := Z.lor (Z.lor FAIL_TYPE_LOW FAIL_TYPE_HIGH_I) FAIL_TYPE_HIGH_Q.

Inductive StorageStartPhase :=
| STORAGE_START_NONE | STORAGE_START_PREP_READY | STORAGE_START_ARM_WAIT
| STORAGE_START_RUN_WAIT | STORAGE_START_FAILED.
#[export] Instance StorageStartPhase_eq_dec : EqDecision StorageStartPhase.
Proof. solve_decision. Defined.

Record StoragePendingStart : Type := mkStart {
  st_active : bool; st_prepare : bool; st_failure_ack_sent : bool;
  st_phase : StorageStartPhase; st_task_id : string; st_acq_type : Z;
  st_failure_type : Z; st_target_count : Z; st_deadline_us : Z }.
#[export] Instance eta_Start : EtaOf StoragePendingStart := λ p,
  mkStart (st_active p) (st_prepare p) (st_failure_ack_sent p) (st_phase p) (st_task_id p)
    (st_acq_type p) (st_failure_type p) (st_target_count p) (st_deadline_us p).
Definition no_start : StoragePendingStart := mkStart false false false STORAGE_START_NONE "" 0 0 0 0.

Record StoragePendingStop : Type := mkStop {
  sp_active : bool; sp_forced_reap : bool; sp_task_id : string; sp_acq_type : Z;
  sp_failure_type : Z; sp_deadline_us : Z; sp_stop_epoch : Z; sp_requested_workers : Z }.
#[export] Instance eta_Stop : EtaOf StoragePendingStop := λ p,
  mkStop (sp_active p) (sp_forced_reap p) (sp_task_id p) (sp_acq_type p) (sp_failure_type p)
    (sp_deadline_us p) (sp_stop_epoch p) (sp_requested_workers p).
Definition no_stop : StoragePendingStop := mkStop false false "" 0 0 0 0 0.

(** The frames [proto_send_ack] for a task command and [proto_send_acq_ack]. *)
Inductive ack := AckTask (result : Z) | AckAcq (result acq_type failure_type : Z).
#[export] Instance ack_eq_dec : EqDecision ack.
Proof. solve_decision. Defined.

(** The globals; [aggregate_emitted] and [drain_report_emitted] are the two
    fields of the supervisor that only [system.c] uses. *)
Record Parent : Type := mkParent {
  storage_tasks : list Task;
  g_storage_supervisor : StorageTaskSupervisor;
  aggregate_emitted : bool;
  drain_report_emitted : bool;
  g_capture_task : CaptureTask;
  g_storage_commit_state : StorageCommitState;
  g_pending_storage_start : StoragePendingStart;
  g_pending_storage_stop : StoragePendingStop;
  g_last_task : LastTaskContext;
  g_config_state : config_state;
  acks : list ack;
  closed_fds : list Z;
  stdout : list Z }.
#[export] Instance eta_Parent : EtaOf Parent := λ p,
  mkParent (storage_tasks p) (g_storage_supervisor p) (aggregate_emitted p)
    (drain_report_emitted p) (g_capture_task p) (g_storage_commit_state p)
    (g_pending_storage_start p) (g_pending_storage_stop p) (g_last_task p) (g_config_state p)
    (acks p) (closed_fds p) (stdout p).

(** What a read of events ended with, and what a send returned. *)
Inductive read_end := ReadEof | ReadAgain | ReadError.
Inductive send_result := SendOk | SendAgain | SendError.
#[export] Instance send_result_eq_dec : EqDecision send_result.
Proof. solve_decision. Defined.

(** The calls that leave the process.  [read_events] gives the events that
    [storage_ipc_read_event_raw] delivers before it returns something else. *)
Record Kernel (W : Type) : Type := mkKernel {
  monotonic_us : Eff W Z;
  wall_seconds : Eff W Z;
  storage_process_poll : Z → Eff W (Z * Z);
  process_kill : Z → Eff W unit;
  process_term : Z → Eff W unit;
  read_output : Z → Eff W (list (option (list Z)));
  read_events : Z → Eff W (list StorageWorkerEvent * read_end);
  write_control : Z → StorageControlMessage → Z → Eff W send_result;
  spawn_worker : list string → Eff W (option (Z * Z * Z * Z));
  update_status : string → TaskStatus → Eff W Z;
  next_index_by_task : string → Eff W (Z * Z);
  commit_ops : StorageCommitOps W }.
Arguments monotonic_us {W}. Arguments wall_seconds {W}. Arguments storage_process_poll {W}.
Arguments process_kill {W}. Arguments process_term {W}. Arguments read_output {W}.
Arguments read_events {W}. Arguments write_control {W}. Arguments spawn_worker {W}.
Arguments update_status {W}. Arguments next_index_by_task {W}. Arguments commit_ops {W}.

Definition task_at (p : Parent) (i : Z) : Task :=
  default (mkTask (-1) 0 IDLE "" (-1) (-1) (-1) 0 zero_event zero_event [] 0 false false false
             false false [] 0 [] 0 false false false false false false 0 zero_planned false "" 0 0)
    (storage_tasks p !! Z.to_nat i).

Section Loop.
Context {W : Type} (K : Kernel W).
Definition M (A : Type) : Type := Eff (Parent * W) A.
Definition get : M Parent := sget.
Definition modify (f : Parent → Parent) : M unit := smod f.
Definition now : M Z := sio (monotonic_us K).
Definition task (i : Z) : M Task := let! p := get in eret (task_at p i).
Definition mod_task (i : Z) (f : Task → Task) : M unit :=
  modify (λ p, p <| storage_tasks ::= alter f (Z.to_nat i) |>).
Definition sup : M StorageTaskSupervisor := let! p := get in eret (g_storage_supervisor p).
Definition mod_sup (f : StorageTaskSupervisor → StorageTaskSupervisor) : M unit :=
  modify (λ p, p <| g_storage_supervisor ::= f |>).
(** A supervisor call with a result. *)
Definition on_sup {A} (f : StorageTaskSupervisor → A * StorageTaskSupervisor) : M A :=
  let! s := sup in let '(a, s') := f s in let! _ := mod_sup (λ _, s') in eret a.
Definition on_capture {A} (f : CaptureTask → A * CaptureTask)
  : M A :=
  let! p := get in let '(a, c) := f (g_capture_task p) in
  let! _ := modify (λ p, p <| g_capture_task := c |>) in eret a.
Definition in_conf {A} (m : ceff A) : M A :=
  let! p := get in let '(a, c) := m (g_config_state p) in
  let! _ := modify (λ p, p <| g_config_state := c |>) in eret a.
Definition close_fd (fd : Z) : M unit := modify (λ p, p <| closed_fds ::= λ l, l ++ [fd] |>).
Definition send (a : ack) : M unit := modify (λ p, p <| acks ::= λ l, l ++ [a] |>).
Definition set_start (f : StoragePendingStart → StoragePendingStart) : M unit :=
  modify (λ p, p <| g_pending_storage_start ::= f |>).
Definition set_stop (f : StoragePendingStop → StoragePendingStop) : M unit :=
  modify (λ p, p <| g_pending_storage_stop ::= f |>).
Definition each (f : Z → M unit) : M unit :=
  let! _ := f 0 in let! _ := f 1 in f 2.

(** A clock that cannot give the epoch 0. *)
Definition fresh_epoch : M Z := let! t := now in eret (if t =? 0 then 1 else t).

Definition any_task (f : Task → bool) : M bool := let! p := get in eret (existsb f (storage_tasks p)).
Definition storage_any_state (s : TaskState) : M bool := any_task (λ t, bool_decide (state t = s)).
Definition storage_any_running : M bool := storage_any_state RUNNING.
Definition storage_any_live_worker : M bool := any_task (λ t, 0 <? pid t).

(** ** Control messages *)
Definition storage_send_control (i : Z) (type timestamp_us : Z) : M send_result :=
  let! t := task i in
  if control_fd t <? 0 then eret SendError
  else
    let msg := storage_ipc_make_control type timestamp_us in
    let! p := get in
    let msg :=
      if type =? STORAGE_CTRL_STOP
      then mkControl (c_magic msg) (c_version msg) (c_size msg) (c_type msg) (c_flags msg)
             (c_timestamp_us msg) (storage_controller.stop_epoch (g_capture_task p))
      else if type =? STORAGE_CTRL_AUTO_DRAIN
      then mkControl (c_magic msg) (c_version msg) (c_size msg) (c_type msg) (c_flags msg)
             (c_timestamp_us msg) (auto_drain_epoch (g_storage_supervisor p))
      else msg in
    let! t0 := now in
    sio (write_control K (control_fd t) msg (u64 (t0 + 1000))).

Definition storage_fallback_stop (i : Z) : M unit :=
  let! t := task i in
  let! _ := (if 0 <=? control_fd t then
               let! _ := close_fd (control_fd t) in mod_task i (λ t, t <| control_fd := -1 |>)
             else eret tt) in
  let! _ := sio (process_term K (pid t)) in
  let! _ := mod_sup (λ s, storage_supervisor_mark_stop_failed s i) in
  mod_task i (λ t, t <| stop_send_attempts := STORAGE_STOP_MAX_SEND_ATTEMPTS + 1 |>).

Definition request_capture_stop (epoch : Z) : M unit :=
  let! _ := on_capture (λ c, capture_task_request_stop c epoch) in eret tt.

Definition try_send_stop (pending i : Z) : M unit :=
  let! t := task i in
  if negb (Z.testbit pending i) || (pid t <=? 0) ||
     (STORAGE_STOP_MAX_SEND_ATTEMPTS <? stop_send_attempts t) then eret tt
  else if control_fd t <? 0 then storage_fallback_stop i
  else
    let! t0 := now in
    let! r := storage_send_control i STORAGE_CTRL_STOP t0 in
    match r with
    | SendOk => mod_sup (λ s, storage_supervisor_mark_stop_sent s i)
    | _ =>
      let! _ := mod_task i (λ t, t <| stop_send_attempts ::= λ n, u32 (n + 1) |>) in
      let! _ := mod_sup (λ s, storage_supervisor_mark_stop_failed s i) in
      let! t := task i in
      if bool_decide (r = SendError) || (STORAGE_STOP_MAX_SEND_ATTEMPTS <=? stop_send_attempts t)
      then storage_fallback_stop i else eret tt
    end.

Definition storage_try_send_pending_stops : M unit :=
  let! s := sup in
  let pending := storage_supervisor_peek_stop_mask s in
  let! p := get in
  let! _ := (if negb (pending =? 0) && (storage_controller.stop_epoch (g_capture_task p) =? 0)
             then let! e := fresh_epoch in request_capture_stop e else eret tt) in
  let! p := get in
  let! _ := (if negb (pending =? 0) && (stop_epoch (g_storage_supervisor p) =? 0)
             then mod_sup (λ s, s <| stop_epoch :=
                    storage_controller.stop_epoch (g_capture_task p) |>) else eret tt) in
  each (try_send_stop pending).

Definition try_send_auto_drain (pending i : Z) : M unit :=
  let! t := task i in
  if negb (Z.testbit pending i) || (pid t <=? 0) then eret tt
  else
    let! t0 := now in
    let! r := storage_send_control i STORAGE_CTRL_AUTO_DRAIN t0 in
    if bool_decide (r = SendOk) then mod_sup (λ s, storage_supervisor_mark_auto_drain_sent s i)
    else eret tt.
Definition storage_try_send_auto_drains : M unit :=
  let! s := sup in each (try_send_auto_drain (storage_supervisor_auto_drain_pending_mask s)).

(** Returns the number of workers that are asked to stop. *)
Definition request_storage_stop_all : M Z :=
  let! p := get in
  let! _ :=
    (if storage_controller.stop_epoch (g_capture_task p) =? 0 then
       let! e := (if negb (auto_drain_epoch (g_storage_supervisor p) =? 0)
                  then eret (auto_drain_epoch (g_storage_supervisor p)) else now) in
       request_capture_stop (if e =? 0 then 1 else e)
     else eret tt) in
  let live i := 0 <? pid (task_at p i) in
  let mask := Z.lor (Z.lor (if live 0 then 1 else 0) (if live 1 then 2 else 0))
                (if live 2 then 4 else 0) in
  let! _ := mod_sup (λ s, storage_supervisor_request_stop s mask) in
  let! p := get in
  let! _ := mod_sup (λ s, s <| stop_epoch := storage_controller.stop_epoch (g_capture_task p) |>) in
  let! _ := storage_try_send_pending_stops in
  eret (Z.of_nat (length (filter (λ i, live i = true) [0; 1; 2]))).

(** ** The verdict *)
Definition result_status : M StorageTaskTerminal := on_sup storage_supervisor_result_status.

Fixpoint first_task_id (p : Parent) (chs : list Z) : string :=
  match chs with
  | [] => ""
  | i :: chs =>
    if Z.testbit (target_channel_mask (g_storage_supervisor p)) i &&
       negb (String.eqb (ccb_storage_task.task_id (task_at p i)) "")
    then ccb_storage_task.task_id (task_at p i) else first_task_id p chs
  end.

Definition capture_state : M CaptureState :=
  let! p := get in eret (storage_controller.state (g_capture_task p)).
Definition capture_move (from to : CaptureState) : M Z :=
  on_capture (λ c, capture_task_transition c from to).
Definition capture_fail (code : StorageErrorCode) : M unit :=
  modify (λ p, p <| g_capture_task ::= λ c, capture_task_fail c code |>).

(** The capture enters the commit unless it has failed. *)
Definition capture_to_commit : M unit :=
  let! st := capture_state in
  if bool_decide (st = CAPTURE_FAILED) then eret tt
  else
    let! _ :=
      (if negb (bool_decide (st = CAPTURE_STOPPING)) then
         let! p := get in
         let! e := (if negb (storage_controller.stop_epoch (g_capture_task p) =? 0)
                    then eret (storage_controller.stop_epoch (g_capture_task p)) else now) in
         request_capture_stop (if e =? 0 then 1 else e)
       else eret tt) in
    let! st := capture_state in
    if bool_decide (st = CAPTURE_STOPPING)
    then let! _ := capture_move CAPTURE_STOPPING
                     CAPTURE_COMMITTING in eret tt
    else eret tt.

Definition commit_results (id : string) : M Z :=
  let! p := get in
  let! (rc, c) := sio (storage_commit_supervised_results (g_storage_supervisor p) (storage_tasks p) id
                         (g_storage_commit_state p) (commit_ops K)) in
  let! _ := modify (λ p, p <| g_storage_commit_state := c |>) in eret rc.

Definition task_failed (id : string) : M unit :=
  let! _ := sio (update_status K id TASK_FAILED) in eret tt.

(** The verdict becomes the task's: a successful one through the commit. *)
Definition settle_task (status : StorageTaskTerminal) (id : string) : M unit :=
  if bool_decide (status = STORAGE_TASK_SUCCESS) then
    let! rc := commit_results id in
    if negb (rc =? 0) then
      let! p := get in
      let! _ := mod_sup (λ s, storage_supervisor_protocol_fail s NUM_CHANNELS
                  (Some (txt (reason (g_storage_commit_state p))))) in
      capture_fail STORAGE_ERR_COMMIT
    else
      let! st := capture_state in
      if bool_decide (st = CAPTURE_COMMITTING)
      then let! _ := capture_move CAPTURE_COMMITTING CAPTURE_DONE in eret tt
      else eret tt
  else if negb (String.eqb id "") then
    let! _ := task_failed id in capture_fail STORAGE_ERR_WORKER_EXIT
  else eret tt.

Definition storage_supervisor_emit_aggregate : M unit :=
  let! status := result_status in
  let! p := get in
  if aggregate_emitted p || bool_decide (status = STORAGE_TASK_ACTIVE) then eret tt
  else
    let! _ := capture_to_commit in
    let! p := get in
    let! _ := settle_task status (first_task_id p [0; 1; 2]) in
    modify (λ p, p <| aggregate_emitted := true |>).

(** ** Events *)
Definition fatal_event (ch : Z) (reason : list Z) : M StorageWorkerEvent :=
  let! t := now in
  eret (storage_ipc_make_event t STORAGE_WORKER_FATAL ch STORAGE_ERR_IPC 0 (Some reason)).

Definition note_fatal (i : Z) (e : StorageWorkerEvent) : M unit :=
  mod_task i (λ t, t <| fatal_seen := true |> <| t_first_fatal := e |>).

(** All workers have been idle: the stop of the input is announced once. *)
Definition begin_auto_drain : M unit :=
  let! s := sup in
  if storage_supervisor_auto_drain_ready s then
    let! e := fresh_epoch in
    let! begun := on_sup (λ s, storage_supervisor_begin_auto_drain s e) in
    if begun : bool then storage_try_send_auto_drains else eret tt
  else eret tt.

Definition report_drained (e : StorageWorkerEvent) : M unit :=
  modify (λ p,
    let s := g_storage_supervisor p in
    if (e_type e =? STORAGE_WORKER_DRAIN_READY) && negb (drain_report_emitted p) &&
       (Z.land (drained_mask s) (target_channel_mask s) =? target_channel_mask s)
    then p <| drain_report_emitted := true |> else p).

(** The descriptor of the worker after an accepted event. *)
Definition note_event (e : StorageWorkerEvent) (t : Task) : Task :=
  let t := t <| worker_event := e |> <| worker_phase := e_type e |> in
  let r := field wr_off wr_size (e_payload e) in
  if e_type e =? STORAGE_WORKER_READY then t <| ready_seen := true |>
  else if e_type e =? STORAGE_WORKER_ARMED then t <| armed_seen := true |>
  else if e_type e =? STORAGE_WORKER_RUNNING then t <| running_seen := true |>
  else if e_type e =? STORAGE_WORKER_DRAIN_READY then t <| drained_seen := true |>
  else if e_type e =? STORAGE_WORKER_FINAL_RESULT then
    if final_result_seen t then t <| fatal_seen := true |>
    else
      t <| final_result_seen := true |> <| t_final_result := r |>
        <| final_data_persisted := data_persisted r |> <| final_integrity_ok := integrity_ok r |>
        <| final_status_success := data_persisted r && integrity_ok r |>
        <| final_receive_seen := true |> <| final_dma_received_bytes := dma_received_bytes r |>
  else if (e_type e =? STORAGE_WORKER_FATAL) && negb (fatal_seen t)
  then t <| fatal_seen := true |> <| t_first_fatal := e |> else t.

Definition handle_event (i expected : Z) (e : StorageWorkerEvent) : M unit :=
  let! rc := on_sup (λ s, storage_supervisor_handle_event_for_channel s expected e) in
  if negb (rc =? 0) then
    let! s := sup in
    let! f := fatal_event expected (match fatal_reason s with
                                    | [] => txt "event_protocol_invalid" | r => r end) in
    note_fatal i f
  else
    let! _ := begin_auto_drain in
    let! _ := report_drained e in
    mod_task i (note_event e).

Fixpoint handle_events (i expected : Z) (l : list StorageWorkerEvent) : M unit :=
  match l with
  | [] => eret tt
  | e :: l => let! _ := handle_event i expected e in handle_events i expected l
  end.

Definition drain_storage_events (i : Z) (report_eof : bool) : M unit :=
  let! t := task i in
  if event_fd t <? 0 then eret tt
  else
    let expected := u32 (pf_channel_id (planned_file t)) in
    let! (events, end_) := sio (read_events K (event_fd t)) in
    let! _ := handle_events i expected events in
    let! _ := storage_try_send_auto_drains in
    match end_ with
    | ReadAgain => eret tt
    | ReadError =>
      let! _ := mod_sup (λ s, storage_supervisor_protocol_fail s expected
                  (Some (txt "event_read_integrity_failed"))) in
      let! f := fatal_event expected (txt "event_read_integrity_failed") in
      note_fatal i f
    | ReadEof =>
      if report_eof then
        let! _ := on_sup (λ s, storage_supervisor_handle_worker_eof s expected) in
        let! _ := close_fd (event_fd t) in
        mod_task i (λ t, t <| event_fd := -1 |>)
      else eret tt
    end.

Definition poll_storage_events (i : Z) : M unit :=
  let! _ := drain_storage_events i true in
  let! _ := storage_try_send_pending_stops in
  storage_supervisor_emit_aggregate.

(** ** Worker processes *)
Definition poll_output (i : Z) : M unit :=
  let! t := task i in
  if output_fd t <? 0 then eret tt
  else
    let! reads := sio (read_output K (output_fd t)) in
    let! p := get in
    let level := match g_config (g_config_state p) with Some c => Some (log_level c) | None => None end in
    let '(t', out) := poll_task_output level t reads (stdout p) in
    let! _ := modify (λ p, p <| stdout := out |>) in
    mod_task i (λ _, t').

Definition finalize_storage_task (i exit_code : Z) : M unit :=
  let! t := task i in
  if negb (has_planned_file t) then eret tt
  else
    let r := t_final_result t in
    let success :=
      final_result_seen t && (exit_code =? 0) && data_persisted r && receive_integrity_ok r &&
      storage_integrity_ok r && integrity_ok r &&
      (dma_received_bytes r =? nvme_completed_bytes r) &&
      (nvme_completed_bytes r =? file_bytes r) in
    let! _ := mod_task i (λ t, t <| state := if success then IDLE else ERROR |>) in
    if success then eret tt else let! _ := request_storage_stop_all in eret tt.

Definition close_worker (i : Z) : M unit :=
  let! t := task i in
  let! p := get in
  let '(t', closed) := storage_task_close_fds t (closed_fds p) in
  let! _ := modify (λ p, p <| closed_fds := closed |>) in
  mod_task i (λ _, t' <| pid := -1 |>).

Definition storage_finish_worker_exit (i exit_code : Z) : M unit :=
  let! t := task i in
  let is_storage := has_planned_file t in
  let! _ := poll_output i in
  let! _ :=
    (if is_storage then
       let! _ := drain_storage_events i false in
       let! _ := on_sup (λ s, storage_supervisor_handle_worker_exit s
                   (u32 (pf_channel_id (planned_file t))) exit_code) in eret tt
     else eret tt) in
  let! _ := close_worker i in
  let! _ :=
    (if is_storage then finalize_storage_task i exit_code
     else mod_task i (λ t, t <| state := if exit_code =? 0 then IDLE else ERROR |>)) in
  if is_storage then
    let! _ := storage_try_send_pending_stops in storage_supervisor_emit_aggregate
  else eret tt.

(** [WIFEXITED] and [WEXITSTATUS] *)
Definition exit_code_of (status : Z) : Z :=
  if Z.land status 0x7f =? 0 then Z.land (Z.shiftr status 8) 0xff else 1.
Definition storage_handle_worker_exit (i status : Z) : M unit :=
  storage_finish_worker_exit i (exit_code_of status).

Definition check_timeout (i : Z) : M unit :=
  let! t := task i in
  let! now_s := (if 0 <? timeout_seconds t then sio (wall_seconds K) else eret 0) in
  if (0 <? timeout_seconds t) && (timeout_seconds t <? now_s - start_time t) then
    let! _ := sio (process_kill K (pid t)) in
    let! (ret, status) := sio (storage_process_poll K (pid t)) in
    if ret =? 1 then storage_handle_worker_exit i status
    else if ret <? 0 then eret tt
    else mod_task i (λ t, t <| state := ERROR |>)
  else eret tt.

Definition check_task (i : Z) : M unit :=
  let! t := task i in
  if pid t <=? 0 then eret tt
  else
    let! (ret, status) := sio (storage_process_poll K (pid t)) in
    if ret =? 0 then
      let! _ := poll_output i in
      let! t := task i in
      let! _ := (if has_planned_file t then poll_storage_events i else eret tt) in
      check_timeout i
    else if ret =? 1 then storage_handle_worker_exit i status
    else if ret <? 0 then storage_finish_worker_exit i 1
    else eret tt.

Definition kill_worker (i : Z) : M unit :=
  let! t := task i in
  if 0 <? pid t then
    let! _ := sio (process_kill K (pid t)) in
    let! (ret, status) := sio (storage_process_poll K (pid t)) in
    if ret =? 1 then storage_handle_worker_exit i status else eret tt
  else eret tt.
Definition stop_all_storage_tasks : M unit :=
  let! _ := each kill_worker in
  let! _ := storage_try_send_pending_stops in
  storage_supervisor_emit_aggregate.

(** ** The start barrier *)
Definition env_u32_or_default (name : string) (dflt : Z) : M Z :=
  in_conf (let! v := storage_config_compat_getenv name in
    eret (match v with
          | Some s => if non_empty v then
                        match strtoul_full s 0 with
                        | Some n => if (n =? 0) || (UINT32_MAX <? n) then dflt else n
                        | None => dflt end
                      else dflt
          | None => dflt end)).

Definition targeted (p : Parent) (i : Z) : bool :=
  Z.testbit (target_channel_mask (g_storage_supervisor p)) i.
Definition storage_pending_start_target (p : Parent) (t : Task) : bool :=
  (0 <? pid t) && has_planned_file t && targeted p (pf_channel_id (planned_file t)) &&
  String.eqb (ccb_storage_task.task_id t) (st_task_id (g_pending_storage_start p)).

Definition storage_pending_start_fail : M unit :=
  let! p := get in
  let s := g_pending_storage_start p in
  if negb (st_active s) || bool_decide (st_phase s = STORAGE_START_FAILED) then eret tt
  else
    let! _ := set_start (λ s, s <| st_phase := STORAGE_START_FAILED |>) in
    let! _ := capture_fail STORAGE_ERR_IPC_SEQUENCE in
    let! _ := request_storage_stop_all in eret tt.

Definition storage_pending_start_send_failure : M unit :=
  let! p := get in
  let s := g_pending_storage_start p in
  if negb (st_active s) || st_failure_ack_sent s then eret tt
  else
    let! _ := set_start (λ s, s <| st_failure_ack_sent := true |>) in
    if st_prepare s then
      let! _ := send (AckTask ACK_FAILED) in task_failed (st_task_id s)
    else send (AckAcq ACK_FAILED (st_acq_type s) (st_failure_type s)).

Definition count_targets (p : Parent) : Z :=
  Z.of_nat (length (filter (λ i, targeted p i = true) [0; 1; 2])).

(** [strings] of 12 bytes *)
Definition task_id12 (id : string) : string := c_snprintf_s 12 id.

Definition storage_begin_prepare_wait (id : string) (acq_type failure_type : Z) : M Z :=
  let! timeout := env_u32_or_default "SRC_REAL_STORAGE_PREP_TIMEOUT_US" 5000000 in
  let! p := get in
  if String.eqb id "" || st_active (g_pending_storage_start p) then eret (-1)
  else
    let! t := now in
    let n := count_targets p in
    let! _ := set_start (λ _, mkStart true true false STORAGE_START_PREP_READY (task_id12 id)
                acq_type failure_type n (u64 (t + timeout))) in
    let! _ := (if n =? 0 then storage_pending_start_fail else eret tt) in
    eret 0.

(** [true]: the loop goes on. *)
Definition arm_worker (start_us i : Z) : M bool :=
  let! p := get in
  if negb (targeted p i) then eret true
  else
    let! _ := set_start (λ s, s <| st_target_count ::= λ n, n + 1 |>) in
    let! _ := check_task i in
    let! t := task i in
    let! armed :=
      (if negb (bool_decide (state t = RUNNING)) || (control_fd t <? 0) then eret false
       else let! r := storage_send_control i STORAGE_CTRL_ARM start_us in
            eret (bool_decide (r = SendOk))) in
    if armed : bool then eret true
    else let! _ := storage_pending_start_fail in eret false.

Fixpoint each_while (f : Z → M bool) (l : list Z) : M bool :=
  match l with
  | [] => eret true
  | i :: l => let! go := f i in if go : bool then each_while f l else eret false
  end.

Definition storage_begin_run_barrier (id : string) (acq_type failure_type : Z) : M Z :=
  let! start_us := now in
  let! timeout := env_u32_or_default "SRC_REAL_STORAGE_START_TIMEOUT_US" 5000000 in
  let! p := get in
  if String.eqb id "" || st_active (g_pending_storage_start p) then eret (-1)
  else
    let! rc := capture_move CAPTURE_READY CAPTURE_STARTING in
    if negb (rc =? 0) then eret (-1)
    else
      let! _ := set_start (λ _, mkStart true false false STORAGE_START_ARM_WAIT (task_id12 id)
                  acq_type failure_type 0 0) in
      let! _ := each_while (arm_worker start_us) [0; 1; 2] in
      let! p := get in
      let! _ := (if st_target_count (g_pending_storage_start p) =? 0
                 then storage_pending_start_fail else eret tt) in
      let! t := now in
      let! _ := set_start (λ s, s <| st_deadline_us := u64 (t + timeout) |>) in
      eret 0.

(** One target of the scan: the ready, armed and running counts. *)
Definition start_phase_is (ph : StorageStartPhase) : M bool :=
  let! p := get in eret (bool_decide (st_phase (g_pending_storage_start p) = ph)).

Definition count_if (b : bool) (n : Z) : Z := if b then n + 1 else n.

Definition scan_target (c : Z * Z * Z) (i : Z) : M (Z * Z * Z) :=
  let! p := get in
  if negb (targeted p i) ||
     negb (String.eqb (ccb_storage_task.task_id (task_at p i)) (st_task_id (g_pending_storage_start p)))
  then eret c
  else
    let! _ := check_task i in
    let! p := get in
    let t := task_at p i in
    if storage_pending_start_target p t then
      let! _ := (if fatal_seen t then storage_pending_start_fail else eret tt) in
      let '(ready, armed, running) := c in
      eret (count_if (ready_seen t) ready, count_if (armed_seen t) armed,
            count_if (running_seen t) running)
    else let! _ := storage_pending_start_fail in eret c.

(** [true]: some target was not running or could not be told to run. *)
Definition run_worker (ts i : Z) : M bool :=
  let! p := get in
  if negb (targeted p i) then eret true
  else if negb (bool_decide (state (task_at p i) = RUNNING)) then eret false
  else let! r := storage_send_control i STORAGE_CTRL_RUN ts in eret (bool_decide (r = SendOk)).

Definition clear_start : M unit := set_start (λ _, no_start).

(** [true]: the request has been answered and the function returns. *)
Definition prepared (ready : Z) : M bool :=
  let! p := get in
  let s := g_pending_storage_start p in
  if bool_decide (st_phase s = STORAGE_START_PREP_READY) && (ready =? st_target_count s) then
    let! rc := sio (update_status K (st_task_id s) TASK_RUNNING) in
    let! moved := (if rc =? 0 then capture_move CAPTURE_PREPARING CAPTURE_READY else eret (-1)) in
    if negb (moved =? 0) then let! _ := storage_pending_start_fail in eret false
    else let! _ := send (AckTask ACK_SUCCESS) in let! _ := clear_start in eret true
  else eret false.

Definition all_armed (armed : Z) : M unit :=
  let! p := get in
  let s := g_pending_storage_start p in
  if bool_decide (st_phase s = STORAGE_START_ARM_WAIT) && (armed =? st_target_count s) then
    let! ts := now in
    let! ok := each_while (run_worker ts) [0; 1; 2] in
    if negb ok then storage_pending_start_fail
    else
      let! _ := set_start (λ s, s <| st_phase := STORAGE_START_RUN_WAIT |>) in
      let! t := now in
      let! timeout := env_u32_or_default "SRC_REAL_STORAGE_START_TIMEOUT_US" 5000000 in
      set_start (λ s, s <| st_deadline_us := u64 (t + timeout) |>)
  else eret tt.

Definition all_running (running : Z) : M bool :=
  let! p := get in
  let s := g_pending_storage_start p in
  if bool_decide (st_phase s = STORAGE_START_RUN_WAIT) && (running =? st_target_count s) then
    let! rc := capture_move CAPTURE_STARTING CAPTURE_RUNNING in
    if negb (rc =? 0) then let! _ := storage_pending_start_fail in eret true
    else
      let! _ := send (AckAcq ACK_SUCCESS (st_acq_type s) FAIL_TYPE_NONE) in
      let! _ := clear_start in eret true
  else eret false.

Definition start_failed : M unit :=
  let! failed := start_phase_is STORAGE_START_FAILED in
  if failed : bool then
    let! _ := request_storage_stop_all in
    let! live := storage_any_live_worker in
    if negb live then
      let! _ := storage_pending_start_send_failure in
      let! _ := storage_supervisor_emit_aggregate in
      clear_start
    else eret tt
  else eret tt.

Definition storage_service_pending_start : M unit :=
  let! p := get in
  if negb (st_active (g_pending_storage_start p)) then eret tt
  else
    let! c := scan_target (0, 0, 0) 0 in
    let! c := scan_target c 1 in
    let! c := scan_target c 2 in
    let '(ready, armed, running) := c in
    let! failed := start_phase_is STORAGE_START_FAILED in
    let! _ :=
      (if negb failed then
         let! t := now in
         let! p := get in
         if st_deadline_us (g_pending_storage_start p) <=? t
         then storage_pending_start_fail else eret tt
       else eret tt) in
    let! done := prepared ready in
    if done : bool then eret tt
    else
      let! _ := all_armed armed in
      let! done := all_running running in
      if done : bool then eret tt else start_failed.

(** ** The stop *)
Definition storage_service_pending_stop : M unit :=
  let! p := get in
  if negb (sp_active (g_pending_storage_stop p)) then eret tt
  else
    let! live := storage_any_live_worker in
    if live : bool then
      let! t := now in
      let! p := get in
      let s := g_pending_storage_stop p in
      if storage_ipc_parent_stop_should_force_reap true (sp_forced_reap s) t (sp_deadline_us s) then
        let! _ := set_stop (λ s, s <| sp_forced_reap := true |>) in
        stop_all_storage_tasks
      else eret tt
    else
      let! terminal := result_status in
      let! _ := storage_supervisor_emit_aggregate in
      let! p := get in
      let s := g_pending_storage_stop p in
      let result := if bool_decide (terminal = STORAGE_TASK_SUCCESS) then ACK_SUCCESS else ACK_FAILED in
      let! _ := send (AckAcq result (sp_acq_type s)
                  (if result =? ACK_SUCCESS then FAIL_TYPE_NONE else sp_failure_type s)) in
      set_stop (λ _, no_stop).

(** ** Commands *)
Definition storage_task_for_channel (ch : Z) : option Z :=
  (λ x, Z.of_nat x.1) <$> list_find (λ c, ccb_types.id c = ch) kChannels.

(** The descriptor of a worker that has just been forked. *)
Definition launched_task (pid' start out ctl ev : Z) (planned : PlannedFile) (id : string)
    (overpass : Z) (t : Task) : Task :=
  mkTask pid' start RUNNING (t_name t) out ctl ev 0 zero_event zero_event (t_final_result t) 0
    false false false false false (clear_text (output t)) 0 (clear_text (echo_line t)) 0
    false false false false false false 0 planned true (String.substring 0 11 id) overpass
    (timeout_seconds t).

(** Pipes and [fork] are [spawn_worker]; [None] is a failure of one of them. *)
Definition start_storage_worker (program : string) (planned : PlannedFile) (id : string)
    (overpass : Z) : M Z :=
  if String.eqb id "" then eret (-1)
  else match storage_task_for_channel (pf_channel_id planned) with
  | None => eret (-1)
  | Some i =>
    let! t := task i in
    if bool_decide (state t = RUNNING) then eret (-1)
    else
      let! argv := in_conf (start_storage_worker_argv program planned id) in
      let! r := sio (spawn_worker K argv) in
      match r with
      | None => eret (-1)
      | Some (pid', out, ctl, ev) =>
        let! start := sio (wall_seconds K) in
        let! _ := mod_task i (launched_task pid' start out ctl ev planned id overpass) in
        eret 0
      end
  end.

Inductive prepare_result := PreparePending | PrepareAck (result : Z).

Definition reset_task (i : Z) : M unit :=
  let! t := task i in
  let! p := get in
  let '(t', closed) := storage_task_reset_runtime t (closed_fds p) in
  let! _ := modify (λ p, p <| closed_fds := closed |>) in
  mod_task i (λ _, t').

Definition plan_mask (files : list PlannedFile) : Z :=
  foldl (λ m f, Z.lor m (Z.shiftl 1 (pf_channel_id f))) 0 files.

(** The files are started in order; the first failure makes the rest unavailable. *)
Fixpoint launch_files (program id : string) (overpass next : Z) (files : list PlannedFile) : M bool :=
  match files with
  | [] => eret true
  | f :: rest =>
    let f := mkPlanned (pf_channel_id f) (pf_proto_file_type_code f) (pf_file_type_name f)
               (pf_size_bytes f) next (pf_start_lba f) (pf_sector_count f) (pf_calibration_type f) in
    let! rc := start_storage_worker program f id overpass in
    if rc =? 0 then launch_files program id overpass (next + 1) rest
    else
      let! _ := mod_sup (λ s, foldl (λ s f, storage_supervisor_mark_unavailable s
                  (u32 (pf_channel_id f)) (Some (txt "fork_exec_failed"))) s (f :: rest)) in
      eret false
  end.

Definition prepare_rejected (code : StorageErrorCode) (id : string) (r : Z) : M prepare_result :=
  let! _ := capture_fail code in
  let! _ := task_failed id in eret (PrepareAck r).

(** The supervisor, the capture and the commit start afresh. *)
Definition begin_capture (id : string) (files : list PlannedFile) : M Z :=
  let mask := plan_mask files in
  let! _ := modify (λ p, p <| g_storage_supervisor := storage_supervisor_init mask |>
              <| aggregate_emitted := false |> <| drain_report_emitted := false |>) in
  let! t := now in
  let! rc := on_capture (λ c, capture_task_begin c (Some id) mask (u64 (t + 5000000))) in
  if negb (rc =? 0) then eret rc
  else
    let! _ := modify (λ p, p <| g_storage_commit_state := storage_commit_state_reset |>) in
    let! _ := modify (λ p, p <| g_config_state ::= λ c, c <| env ::=
                <[CCB_INTERNAL_SUPERVISED_CHANNEL_COUNT := pretty (Z.of_nat (length files))]> |> |>) in
    eret 0.

Definition launch_plan (program : string) (acq : Z) (files : list PlannedFile) (next : Z)
  : M prepare_result :=
  let! p := get in
  let id := lt_task_id (g_last_task p) in
  let! ok := launch_files program id (lt_overpass_time (g_last_task p)) next files in
  let failure := if ok : bool then FAIL_TYPE_NONE else failure_type_from_acq_type acq in
  let! rc := storage_begin_prepare_wait id acq failure in
  if rc =? 0 then
    let! _ := (if ok then eret tt else storage_pending_start_fail) in eret PreparePending
  else
    let! _ := request_storage_stop_all in
    let! _ := task_failed id in eret (PrepareAck ACK_FAILED).

Definition start_storage_for_last_task (program : string) : M prepare_result :=
  let! p := get in
  let l := g_last_task p in
  let id := lt_task_id l in
  let acq := if lt_valid l then acq_type_from_task_mode (lt_task_file_mode l) else 0 in
  if negb (lt_valid l) then eret (PrepareAck ACK_INVALID_PARAM)
  else
    let! running := storage_any_running in
    let! live := storage_any_live_worker in
    if (running : bool) || (live : bool) || sp_active (g_pending_storage_stop p)
    then eret (PrepareAck ACK_RETRYING)
    else
      let! _ := each reset_task in
      match build_file_plan l with
      | None => let! _ := task_failed id in eret (PrepareAck ACK_INVALID_PARAM)
      | Some files =>
        let! rc := begin_capture id files in
        if negb (rc =? 0) then let! _ := task_failed id in eret (PrepareAck ACK_RETRYING)
        else if existsb (λ f, negb (bool_decide (is_Some (find_channel (pf_channel_id f))))) files
        then prepare_rejected STORAGE_ERR_CONFIG id ACK_FAILED
        else
          let! (rc, next) := sio (next_index_by_task K id) in
          if negb (rc =? 0) then prepare_rejected STORAGE_ERR_INTERNAL id ACK_FAILED
          else if (next <=? 0) || (INT_MAX - Z.of_nat (length files) + 1 <? next)
          then prepare_rejected STORAGE_ERR_CONFIG id ACK_FAILED
          else launch_plan program acq files next
      end.

(** The frame 0x11: [None] is an overpass time that does not parse; the
    network transfer and the maintenance job are [other_busy]; [ensure] records
    the task in the database. *)
Definition handle_task_info (program : string) (l : option LastTaskContext) (other_busy : bool)
    (ensure : Eff W Z) : M unit :=
  match l with
  | None => send (AckTask ACK_INVALID_PARAM)
  | Some l =>
    let! running := storage_any_running in
    let! live := storage_any_live_worker in
    let! p := get in
    if (running : bool) || (live : bool) || st_active (g_pending_storage_start p) ||
       sp_active (g_pending_storage_stop p) || other_busy
    then send (AckTask ACK_RETRYING)
    else
      let! rc := sio ensure in
      if negb (rc =? 0) then send (AckTask ACK_FAILED)
      else
        let! _ := modify (λ p, p <| g_last_task := l |>) in
        let! r := start_storage_for_last_task program in
        match r with PreparePending => eret tt | PrepareAck a => send (AckTask a) end
  end.

Definition current_acq_type (p : Parent) : Z :=
  let l := g_last_task p in if lt_valid l then acq_type_from_task_mode (lt_task_file_mode l) else 0.

Definition switch_on : M unit :=
  let! p := get in
  let acq := current_acq_type p in
  if st_active (g_pending_storage_start p) || sp_active (g_pending_storage_stop p)
  then send (AckAcq ACK_RETRYING acq ALL_FAILURES)
  else
    let! rc := (if lt_valid (g_last_task p)
                then storage_begin_run_barrier (lt_task_id (g_last_task p)) acq ALL_FAILURES
                else eret (-1)) in
    if negb (rc =? 0) then
      let! _ := request_storage_stop_all in send (AckAcq ACK_FAILED acq ALL_FAILURES)
    else eret tt.

Definition switch_off : M unit :=
  let! p := get in
  let acq := current_acq_type p in
  if negb (lt_valid (g_last_task p)) || (acq =? 0)
  then send (AckAcq ACK_INVALID_PARAM acq FAIL_TYPE_NONE)
  else if sp_active (g_pending_storage_stop p) then eret tt
  else
    let! _ := (if st_active (g_pending_storage_start p) then storage_pending_start_fail else eret tt) in
    let! stopped := request_storage_stop_all in
    let! p := get in
    let! c := in_conf (storage_ipc_parent_stop_timeout_config DEFAULT_TIMEOUT_US) in
    let! t := now in
    set_stop (λ _, mkStop true false (task_id12 (lt_task_id (g_last_task p))) acq FAIL_TYPE_NONE
      (storage_ipc_saturating_add_u64 t (parent_timeout_us c))
      (storage_controller.stop_epoch (g_capture_task p)) stopped).

Definition handle_acq_ctrl (switch_flag : Z) : M unit :=
  if switch_flag =? SWITCH_ON then switch_on
  else if switch_flag =? SWITCH_OFF then switch_off
  else let! p := get in send (AckAcq ACK_INVALID_PARAM (current_acq_type p) FAIL_TYPE_NONE).

(** The storage part of one turn of the main loop. *)
Definition service_slice : M unit :=
  let! _ := each check_task in
  let! _ := storage_service_pending_start in
  storage_service_pending_stop.

(** ** Runs

    What the main loop does with the storage state: it serves a frame, polls a
    worker or advances a pending start or stop. *)
Inductive parent_op :=
| OpTaskInfo (program : string) (l : option LastTaskContext) (other_busy : bool) (ensure : Eff W Z)
| OpAcqCtrl (switch_flag : Z)
| OpCheck (i : Z)
| OpPendingStart
| OpPendingStop.

Definition run_op (op : parent_op) : M unit :=
  match op with
  | OpTaskInfo program l busy ensure => handle_task_info program l busy ensure
  | OpAcqCtrl flag => handle_acq_ctrl flag
  | OpCheck i => check_task i
  | OpPendingStart => storage_service_pending_start
  | OpPendingStop => storage_service_pending_stop
  end.

Definition run_ops (ops : list parent_op) (s : Parent * W) : Parent * W :=
  foldl (λ s op, snd (run_op op s)) s ops.

(** A turn of the loop is a run of five operations. *)
Lemma service_slice_ops s :
  snd (service_slice s) = run_ops [OpCheck 0; OpCheck 1; OpCheck 2; OpPendingStart; OpPendingStop] s.
Proof.
  unfold service_slice, each, run_ops, ebind. cbn [foldl run_op].
  destruct (check_task 0 s) as [[] s1]. cbn [snd]. destruct (check_task 1 s1) as [[] s2]. cbn [snd].
  destruct (check_task 2 s2) as [[] s3]. cbn [snd].
  by destruct (storage_service_pending_start s3) as [[] s4].
Qed.
End Loop.
Arguments parent_op : clear implicits.

Definition idle_task (name : string) : Task :=
  mkTask 0 0 IDLE name (-1) (-1) (-1) 0 zero_event zero_event (replicate 504 0) 0
    false false false false false (replicate STORAGE_TASK_OUTPUT_SIZE 0) 0
    (replicate STORAGE_TASK_ECHO_LINE_SIZE 0) 0 false false false false false false 0
    zero_planned false "" 0 0.

(** The globals when [main] enters its loop. *)
Definition initial_parent (c : config_state) : Parent :=
  mkParent [idle_task "storage0"; idle_task "storage1"; idle_task "storage2"]
    (storage_supervisor_init 0) false false capture_task_init (mkState false false false "")
    no_start no_stop (mkLastTask false "" 0 0 0 0 0 0) c [] [] [].

(** The states the parent can be in, with the answers of the outside so far. *)
Inductive reachable {W} (K : Kernel W) : Parent * W → Prop :=
| reach_init c w : reachable K (initial_parent c, w)
| reach_step op s : reachable K s → reachable K (snd (run_op K op s)).
End system_parent.
