(* ===== verification/ParentSafe.v ===== *)
(** * The parent process: proofs

    Which operations can change what ([keeps]), the invariant that ties the
    verdict to the commit, and what the answers to a start and a stop mean. *)
From S2P Require Import Prelude Bytes CStdlib StorageError CcbTypes Config Ipc Supervisor Task Capture Commit CommitStore Cli Launch Parent.

Module parent_safety.
Import storage_controller c_stdlib ccb_types ccb_config storage_config storage_ipc storage_supervisor ccb_storage_task ccb_storage_commit system_commit ccb_cli system_launch system_parent.

(** ** Changes of the supervisor *)

(** Nothing the verdict depends on changes. *)
Definition quiet_sup (s s' : StorageTaskSupervisor) : Prop :=
  target_channel_mask s' = target_channel_mask s ∧ final_seen_mask s' = final_seen_mask s ∧
  unavailable_mask s' = unavailable_mask s ∧ first_fatal s' = first_fatal s ∧
  terminal s' = terminal s ∧ final_result s' = final_result s ∧
  aggregate_ready s' = aggregate_ready s.

(** A verdict comes with the flag that it has been formed. *)
Definition formed (s : StorageTaskSupervisor) : Prop :=
  terminal s ≠ STORAGE_TASK_ACTIVE → aggregate_ready s = true.

(** A verdict stays, except that success can still turn into failure. *)
Definition loud_sup (s s' : StorageTaskSupervisor) : Prop :=
  target_channel_mask s' = target_channel_mask s ∧
  (terminal s ≠ STORAGE_TASK_ACTIVE → terminal s' ≠ STORAGE_TASK_ACTIVE) ∧
  (terminal s = STORAGE_TASK_FAILED → terminal s' = STORAGE_TASK_FAILED) ∧
  (formed s → formed s').

#[export] Instance quiet_sup_pre : PreOrder quiet_sup.
Proof. split; [done|]. intros a b c (?&?&?&?&?&?&?) (?&?&?&?&?&?&?). unfold quiet_sup. by split_and!; congruence. Qed.
#[export] Instance loud_sup_pre : PreOrder loud_sup.
Proof. split; [done|]. intros a b c (?&?&?&?) (?&?&?&?). unfold loud_sup. split_and!; [congruence|auto..]. Qed.
Lemma quiet_loud s s' : quiet_sup s s' → loud_sup s s'.
Proof. intros (?&_&_&_&Ht&_&Ha). unfold loud_sup, formed. by rewrite Ht, Ha. Qed.

Definition status (s : StorageTaskSupervisor) : StorageTaskTerminal := fst (storage_supervisor_result_status s).

Lemma check_channels_same s s' l :
  target_channel_mask s' = target_channel_mask s → final_result s' = final_result s →
  check_channels s' l = check_channels s l.
Proof. intros Ht Hf. induction l as [|ch l IH]; [done|]. unfold check_channels. fold check_channels. unfold result_of. by rewrite Ht, Hf, IH. Qed.

(** The verdict, without the record it is written to. *)
Definition pure_status (s : StorageTaskSupervisor) : StorageTaskTerminal :=
  if negb (bool_decide (terminal s = STORAGE_TASK_ACTIVE)) then terminal s
  else if negb (Z.lor (final_seen_mask s) (unavailable_mask s) =? target_channel_mask s)
  then STORAGE_TASK_ACTIVE
  else if first_fatal s || negb (unavailable_mask s =? 0) then STORAGE_TASK_FAILED
  else match check_channels s [0; 1; 2] with
       | Some _ => STORAGE_TASK_FAILED
       | None => if (Z.land (target_channel_mask s) 3 =? 3) &&
                    negb (dma_received_bytes (result_of s 0) =? dma_received_bytes (result_of s 1))
                 then STORAGE_TASK_FAILED else STORAGE_TASK_SUCCESS
       end.

Lemma status_pure s : status s = pure_status s.
Proof.
  unfold status, storage_supervisor_result_status, pure_status.
  destruct (negb (bool_decide _)); [done|]. destruct (negb (_ =? _)); [done|].
  set (s1 := s <| aggregate_ready := true |>).
  rewrite (check_channels_same s s1) by (by destruct s).
  change (first_fatal s1) with (first_fatal s). change (unavailable_mask s1) with (unavailable_mask s).
  change (target_channel_mask s1) with (target_channel_mask s).
  change (result_of s1) with (result_of s).
  repeat case_match; by simplify_eq.
Qed.

Lemma quiet_verdict s s' : quiet_sup s s' → status s' = status s.
Proof.
  intros (H1&H2&H3&H4&H5&H6&_). rewrite !status_pure. unfold pure_status.
  rewrite (check_channels_same s s') by done. unfold result_of. by rewrite H1, H2, H3, H4, H5, H6.
Qed.

(** Writing the verdict down does not change it. *)
Lemma result_terminal s :
  terminal (snd (storage_supervisor_result_status s)) = status s ∧
  (status s = STORAGE_TASK_ACTIVE → snd (storage_supervisor_result_status s) = s).
Proof.
  unfold status, storage_supervisor_result_status. case_bool_decide as Ha; cbn [negb]; [|done].
  destruct (negb (_ =? _)); [done|]. set (s1 := s <| aggregate_ready := true |>).
  assert (∀ ch r c why, terminal (fail_task_result s1 ch r c why) = STORAGE_TASK_FAILED) as Hf.
  { intros ch r c why. destruct (fail_task_result_eq s1 ch r c why) as (?&?&?&?&->&_). by destruct s1. }
  destruct (_ || _); [by destruct s|].
  destruct (check_channels s1 _) as [[[? ?] ?]|]; [split; [apply Hf|done]|].
  destruct (_ && _); [split; [apply Hf|done]|by destruct s].
Qed.

Lemma status_terminal s : terminal s ≠ STORAGE_TASK_ACTIVE → status s = terminal s.
Proof. intros H. rewrite status_pure. unfold pure_status. by rewrite bool_decide_eq_false_2. Qed.

Lemma status_again s : status (snd (storage_supervisor_result_status s)) = status s.
Proof.
  destruct (result_terminal s) as [Ht Ha]. destruct (decide (status s = STORAGE_TASK_ACTIVE)) as [E|E].
  - by rewrite (Ha E).
  - by rewrite status_terminal; rewrite Ht.
Qed.

Lemma formed_result s : formed s → formed (snd (storage_supervisor_result_status s)).
Proof.
  intros H Ht. unfold storage_supervisor_result_status in *. revert Ht.
  case_bool_decide as Ha; cbn [negb]; [|intros _; by apply H]. destruct (negb (_ =? _)); [done|].
  set (s1 := s <| aggregate_ready := true |>).
  assert (∀ ch r c why, aggregate_ready (fail_task_result s1 ch r c why) = true) as Hf.
  { intros ch r c why. destruct (fail_task_result_eq s1 ch r c why) as (?&?&?&?&->&_). by destruct s. }
  intros _. destruct (_ || _); [by destruct s|]. destruct (check_channels s1 _) as [[[? ?] ?]|]; [apply Hf|].
  destruct (_ && _); [apply Hf|by destruct s].
Qed.

Lemma target_result s : target_channel_mask (snd (storage_supervisor_result_status s)) = target_channel_mask s.
Proof.
  unfold storage_supervisor_result_status. destruct (negb (bool_decide _)); [done|].
  destruct (negb (_ =? _)); [done|]. set (s1 := s <| aggregate_ready := true |>).
  assert (∀ ch r c why, target_channel_mask (fail_task_result s1 ch r c why) = target_channel_mask s) as Hf.
  { intros ch r c why. destruct (fail_task_result_eq s1 ch r c why) as (?&?&?&?&->&_). by destruct s. }
  destruct (_ || _); [by destruct s|]. destruct (check_channels s1 _) as [[[? ?] ?]|]; [apply Hf|].
  destruct (_ && _); [apply Hf|by destruct s].
Qed.

Lemma loud_result s : loud_sup s (snd (storage_supervisor_result_status s)).
Proof.
  destruct (result_terminal s) as [Ht Ha]. unfold loud_sup. rewrite Ht. split_and!.
  - apply target_result.
  - intros H. by rewrite status_terminal.
  - intros H. rewrite status_terminal; congruence.
  - apply formed_result.
Qed.

Lemma atom_loud s s' : sup_atom s s' → loud_sup s s'.
Proof.
  intros [ch c r| | | | | | | | | | | | | | | | | |]; try (by destruct s).
  - destruct (fail_eq s ch c r) as (?&?&?&?&?&?&->&_). unfold after_fail, loud_sup, formed.
    destruct s. simpl. by destruct aggregate_ready0.
  - apply loud_result.
Qed.
Lemma atoms_loud s s' : rtc sup_atom s s' → loud_sup s s'.
Proof. induction 1 as [|x y z H _ IH]; [done|]. etrans; [by apply atom_loud|done]. Qed.

Lemma loud_event s ch e : 0 <= ch → loud_sup s (snd (storage_supervisor_handle_event_for_channel s ch e)).
Proof.
  intros Hc. unfold storage_supervisor_handle_event_for_channel, storage_supervisor_protocol_fail.
  destruct (negb (storage_ipc_validate_event e)); [apply atom_loud, at_fail|].
  destruct (Z.eqb_spec (e_channel e) ch); cbn [negb]; [|apply atom_loud, at_fail].
  apply atoms_loud, handle_event_atoms. lia.
Qed.
Lemma loud_exit s ch c : 0 <= ch → loud_sup s (snd (storage_supervisor_handle_worker_exit s ch c)).
Proof. intros. by apply atoms_loud, handle_exit_atoms. Qed.
Lemma loud_eof s ch : 0 <= ch → loud_sup s (snd (storage_supervisor_handle_worker_eof s ch)).
Proof. intros. by apply atoms_loud, (sup_step_atoms s (OpEof ch)). Qed.
Lemma loud_protocol s ch r : loud_sup s (storage_supervisor_protocol_fail s ch r).
Proof. apply atom_loud, at_fail. Qed.
Lemma loud_unavailable s ch r : 0 <= ch → loud_sup s (storage_supervisor_mark_unavailable s ch r).
Proof. intros. by apply atoms_loud, (sup_step_atoms s (OpUnavailable ch r)). Qed.

Lemma quiet_stop_failed s ch : quiet_sup s (storage_supervisor_mark_stop_failed s ch).
Proof. unfold storage_supervisor_mark_stop_failed. destruct (has _ _); by destruct s. Qed.
Lemma quiet_stop_sent s ch : quiet_sup s (storage_supervisor_mark_stop_sent s ch).
Proof. unfold storage_supervisor_mark_stop_sent. destruct (has _ _); by destruct s. Qed.
Lemma quiet_auto_sent s ch : quiet_sup s (storage_supervisor_mark_auto_drain_sent s ch).
Proof. unfold storage_supervisor_mark_auto_drain_sent. destruct (_ && _); by destruct s. Qed.
Lemma quiet_request s m : quiet_sup s (storage_supervisor_request_stop s m).
Proof. by destruct s. Qed.
Lemma quiet_epoch s e : quiet_sup s (s <| stop_epoch := e |>).
Proof. by destruct s. Qed.
Lemma quiet_begin s e : quiet_sup s (snd (storage_supervisor_begin_auto_drain s e)).
Proof. unfold storage_supervisor_begin_auto_drain. destruct (_ || _); by destruct s. Qed.

(** ** What an operation can change

    A relation between the globals before and after; an instance of a class
    below says which changes the relation admits. *)
Definition ident (t : Task) :=
  (pid t, has_planned_file t, planned_file t, ccb_storage_task.task_id t,
   ready_seen t, armed_seen t, running_seen t).

Class Quiet (R : relation Parent) : Prop := {
  q_pre :: PreOrder R;
  q_conf p c : R p (p <| g_config_state := c |>);
  q_out p o : R p (p <| stdout := o |>);
  q_closed p l : R p (p <| closed_fds := l |>);
  q_capture p c : R p (p <| g_capture_task := c |>);
  q_soft p i f : (∀ t, ident (f t) = ident t) → R p (p <| storage_tasks ::= alter f i |>);
  q_sup p s : quiet_sup (g_storage_supervisor p) s → R p (p <| g_storage_supervisor := s |>) }.
Class Hard (R : relation Parent) (i : Z) : Prop :=
  h_task p f : R p (p <| storage_tasks ::= alter f (Z.to_nat i) |>).
Class Loud (R : relation Parent) : Prop := {
  l_sup p s : loud_sup (g_storage_supervisor p) s → R p (p <| g_storage_supervisor := s |>);
  l_report p : R p (p <| drain_report_emitted := true |>) }.
Class Emits (R : relation Parent) : Prop := {
  e_commit p c : R p (p <| g_storage_commit_state := c |>);
  e_emitted p : R p (p <| aggregate_emitted := true |>) }.
Class Starts (R : relation Parent) : Prop :=
  s_start p f : R p (p <| g_pending_storage_start ::= f |>).

Section Keeps.
Context {W : Type} (K : Kernel W).

Definition keeps (R : relation Parent) {A} (m : M (W := W) A) : Prop :=
  ∀ p w, R p (fst (snd (m (p, w)))).

Section Rel.
Context (R : relation Parent) {HQ : Quiet R}.

Lemma keeps_ret {A} (a : A) : keeps R (eret a).
Proof using HQ. intros p w. done. Qed.
Lemma keeps_bind {A B} (m : M (W := W) A) (k : A → M (W := W) B) :
  keeps R m → (∀ a, keeps R (k a)) → keeps R (ebind m k).
Proof using HQ.
  intros Hm Hk p w. unfold ebind. specialize (Hm p w). destruct (m (p, w)) as [a [p1 w1]].
  cbn in Hm. etrans; [exact Hm|apply Hk].
Qed.
Lemma keeps_get : keeps R (get (W := W)).
Proof using HQ. intros p w. done. Qed.
Lemma keeps_sio {A} (m : Eff W A) : keeps R (sio m).
Proof using HQ. intros p w. unfold sio. by destruct (m w). Qed.
Lemma keeps_modify f : (∀ p, R p (f p)) → keeps R (modify (W := W) f).
Proof. intros H p w. apply H. Qed.
Lemma keeps_on_sup {A} (f : StorageTaskSupervisor → A * StorageTaskSupervisor) :
  (∀ p, R p (p <| g_storage_supervisor := snd (f (g_storage_supervisor p)) |>)) →
  keeps R (on_sup (W := W) f).
Proof.
  intros H p w. specialize (H p). unfold on_sup, sup, mod_sup, modify, get, ebind, eret, sget, smod.
  by destruct (f (g_storage_supervisor p)) as [a s'].
Qed.
Lemma keeps_on_capture {A} (f : CaptureTask → A * CaptureTask) : keeps R (on_capture (W := W) f).
Proof using HQ.
  intros p w. unfold on_capture, modify, get, ebind, eret, sget, smod.
  destruct (f (g_capture_task p)) as [a c]. apply q_capture.
Qed.
Lemma keeps_in_conf {A} (m : ceff A) : keeps R (in_conf (W := W) m).
Proof using HQ.
  intros p w. unfold in_conf, modify, get, ebind, eret, sget, smod.
  destruct (m (g_config_state p)) as [a c]. apply q_conf.
Qed.
Lemma keeps_soft i f : (∀ t, ident (f t) = ident t) → keeps R (mod_task (W := W) i f).
Proof using HQ. intros H. apply keeps_modify. intros p. by apply q_soft. Qed.
Lemma keeps_quiet_sup f : (∀ s, quiet_sup s (f s)) → keeps R (mod_sup (W := W) f).
Proof using HQ. intros H. apply keeps_modify. intros p. apply (q_sup p (f (g_storage_supervisor p))), H. Qed.
Lemma keeps_capture_fail c : keeps R (capture_fail (W := W) c).
Proof using HQ. apply keeps_modify. intros p. apply q_capture. Qed.
Lemma keeps_close fd : keeps R (close_fd (W := W) fd).
Proof using HQ. apply keeps_modify. intros p. apply q_closed. Qed.
Lemma keeps_each f : (∀ i, keeps R (f i)) → keeps R (each (W := W) f).
Proof using HQ. intros H. unfold each. repeat (apply keeps_bind; [apply H|intros _]). apply H. Qed.
Lemma keeps_each_while f l : (∀ i, keeps R (f i)) → keeps R (each_while (W := W) f l).
Proof using HQ.
  intros H. induction l as [|i l IH]; [apply keeps_ret|]. simpl. apply keeps_bind; [apply H|].
  intros [|]; [done|apply keeps_ret].
Qed.
End Rel.
End Keeps.

Create HintDb keeps discriminated.
#[export] Hint Extern 1 (Quiet _) => typeclasses eauto : keeps.
#[export] Hint Extern 1 (Hard _ _) => typeclasses eauto : keeps.
#[export] Hint Extern 1 (Loud _) => typeclasses eauto : keeps.
#[export] Hint Extern 1 (Emits _) => typeclasses eauto : keeps.
#[export] Hint Extern 1 (Starts _) => typeclasses eauto : keeps.
#[export] Hint Resolve keeps_ret keeps_get keeps_sio keeps_on_capture keeps_in_conf
  keeps_capture_fail keeps_close quiet_stop_failed quiet_stop_sent quiet_auto_sent quiet_request
  quiet_epoch : keeps.

Ltac keep :=
  repeat (cbv zeta; first
    [ progress intros | solve [eauto with keeps]
    | match goal with
      | |- keeps _ (ebind _ _) => apply keeps_bind; [solve [eauto with keeps]| |intros ?]
      | |- keeps _ (each _) => apply keeps_each; [solve [eauto with keeps]|intros ?]
      | |- keeps _ (if ?b then _ else _) => destruct b
      | |- keeps _ (match ?x with _ => _ end) => destruct x
      | |- keeps _ (mod_task _ _) => solve [apply keeps_soft; [eauto with keeps|by intros []]]
      | |- keeps _ (mod_sup _) =>
          solve [apply keeps_quiet_sup; [eauto with keeps|intros ?; eauto with keeps]]
      end ]).

Section Frames.
Context {W : Type} (K : Kernel W).
Section Quiet_ops.
Context (R : relation Parent) {HQ : Quiet R}.

Lemma keeps_now : keeps R (now K).
Proof using HQ. unfold now. keep. Qed.
Lemma keeps_task i : keeps R (task (W := W) i).
Proof using HQ. unfold task. keep. Qed.
Lemma keeps_sup : keeps R (sup (W := W)).
Proof using HQ. unfold sup. keep. Qed.
Lemma keeps_any f : keeps R (any_task (W := W) f).
Proof using HQ. unfold any_task. keep. Qed.
End Quiet_ops.
#[local] Hint Resolve keeps_now keeps_task keeps_sup keeps_any : keeps.

Section Quiet_control.
Context (R : relation Parent) {HQ : Quiet R}.
Lemma keeps_epoch : keeps R (fresh_epoch K).
Proof using HQ. unfold fresh_epoch. keep. Qed.
Lemma keeps_send_control i ty ts : keeps R (storage_send_control K i ty ts).
Proof using HQ. unfold storage_send_control. keep. Qed.
Lemma keeps_fallback i : keeps R (storage_fallback_stop K i).
Proof using HQ. unfold storage_fallback_stop. keep. Qed.
Lemma keeps_request_capture e : keeps R (request_capture_stop (W := W) e).
Proof using HQ. unfold request_capture_stop. keep. Qed.
End Quiet_control.
#[local] Hint Resolve keeps_epoch keeps_send_control keeps_fallback keeps_request_capture : keeps.

Section Quiet_stops.
Context (R : relation Parent) {HQ : Quiet R}.
Lemma keeps_try_stop pending i : keeps R (try_send_stop K pending i).
Proof using HQ. unfold try_send_stop. keep. Qed.
Lemma keeps_try_auto pending i : keeps R (try_send_auto_drain K pending i).
Proof using HQ. unfold try_send_auto_drain. keep. Qed.
End Quiet_stops.
#[local] Hint Resolve keeps_try_stop keeps_try_auto : keeps.

Section Quiet_requests.
Context (R : relation Parent) {HQ : Quiet R}.
Lemma keeps_pending_stops : keeps R (storage_try_send_pending_stops K).
Proof using HQ. unfold storage_try_send_pending_stops. keep. Qed.
Lemma keeps_auto_drains : keeps R (storage_try_send_auto_drains K).
Proof using HQ. unfold storage_try_send_auto_drains. keep. Qed.
End Quiet_requests.
#[local] Hint Resolve keeps_pending_stops keeps_auto_drains : keeps.

Section Quiet_stop_all.
Context (R : relation Parent) {HQ : Quiet R}.
Lemma keeps_stop_all : keeps R (request_storage_stop_all K).
Proof using HQ. unfold request_storage_stop_all. keep. Qed.
Lemma keeps_begin_auto : keeps R (begin_auto_drain K).
Proof using HQ.
  unfold begin_auto_drain. keep. apply keeps_on_sup. intros p. apply q_sup, quiet_begin.
Qed.
Lemma keeps_to_commit : keeps R (capture_to_commit K).
Proof using HQ. unfold capture_to_commit, capture_state, capture_move. keep. Qed.
Lemma keeps_env_u32 n d : keeps R (env_u32_or_default (W := W) n d).
Proof using HQ. unfold env_u32_or_default. keep. Qed.
Lemma keeps_move a b : keeps R (capture_move (W := W) a b).
Proof using HQ. unfold capture_move. keep. Qed.
Lemma keeps_failed id : keeps R (task_failed K id).
Proof using HQ. unfold task_failed. keep. Qed.
End Quiet_stop_all.
#[local] Hint Resolve keeps_stop_all keeps_begin_auto keeps_to_commit keeps_env_u32 keeps_move
  keeps_failed : keeps.

Section Loud_ops.
Context (R : relation Parent) {HQ : Quiet R} {HL : Loud R}.

Lemma keeps_loud {A} (f : StorageTaskSupervisor → A * StorageTaskSupervisor) :
  (∀ s, loud_sup s (snd (f s))) → keeps R (on_sup (W := W) f).
Proof using HL. intros H. apply keeps_on_sup. intros p. apply l_sup, H. Qed.
Lemma keeps_loud_mod f : (∀ s, loud_sup s (f s)) → keeps R (mod_sup (W := W) f).
Proof using HL. intros H. apply keeps_modify. intros p. apply (l_sup p (f (g_storage_supervisor p))), H. Qed.
Lemma keeps_result : keeps R (result_status (W := W)).
Proof using HL. apply keeps_loud. intros s. apply loud_result. Qed.
Lemma keeps_report e : keeps R (report_drained (W := W) e).
Proof using HL HQ.
  apply keeps_modify. intros p. cbv zeta. destruct (_ && _); [apply l_report|done].
Qed.

Section At_task.
Context (i : Z) {HH : Hard R i}.

Lemma keeps_hard f : keeps R (mod_task (W := W) i f).
Proof using HH. apply keeps_modify. intros p. apply h_task. Qed.
#[local] Hint Resolve keeps_hard keeps_report : keeps.

Lemma keeps_fatal_event ch r : keeps R (fatal_event K ch r).
Proof using HQ. unfold fatal_event. keep. Qed.
Lemma keeps_note_fatal e : keeps R (note_fatal (W := W) i e).
Proof using HH. apply keeps_hard. Qed.
#[local] Hint Resolve keeps_fatal_event keeps_note_fatal : keeps.

Lemma keeps_handle_event ch e : 0 <= ch → keeps R (handle_event K i ch e).
Proof using HQ HL HH.
  intros Hc. unfold handle_event. apply keeps_bind; [done| |intros rc].
  - apply keeps_loud. intros s. by apply loud_event.
  - keep.
Qed.
Lemma keeps_handle_events ch l : 0 <= ch → keeps R (handle_events K i ch l).
Proof using HQ HL HH.
  intros Hc. induction l as [|e l IH]; simpl; [keep|].
  apply keeps_bind; [done|by apply keeps_handle_event|done].
Qed.

Lemma keeps_drain eof : keeps R (drain_storage_events K i eof).
Proof using HQ HL HH.
  unfold drain_storage_events. apply keeps_bind; [done|keep|intros t].
  destruct (event_fd t <? 0); [keep|]. cbv zeta.
  assert (0 <= u32 (pf_channel_id (planned_file t))) as Hc by (pose proof (u32_range (pf_channel_id (planned_file t))); cint).
  apply keeps_bind; [done|keep|intros [events end_]].
  apply keeps_bind; [done|by apply keeps_handle_events|intros _].
  apply keeps_bind; [done|keep|intros _]. destruct end_; [|keep|].
  - destruct eof; [|keep]. apply keeps_bind; [done|apply keeps_loud; intros s; by apply loud_eof|]. keep.
  - apply keeps_bind; [done|apply keeps_loud_mod; intros s; apply loud_protocol|]. keep.
Qed.

Lemma keeps_poll_output : keeps R (poll_output K i).
Proof using HQ HH.
  unfold poll_output. keep. apply keeps_modify. intros p. apply q_out.
Qed.
Lemma keeps_finalize c : keeps R (finalize_storage_task K i c).
Proof using HQ HH. unfold finalize_storage_task. keep. Qed.
Lemma keeps_close_worker : keeps R (close_worker (W := W) i).
Proof using HQ HH. unfold close_worker. keep. apply keeps_modify. intros p. apply q_closed. Qed.
End At_task.
End Loud_ops.
#[local] Hint Resolve keeps_result keeps_report keeps_drain keeps_poll_output keeps_finalize
  keeps_close_worker keeps_hard : keeps.

Section Emitting.
Context (R : relation Parent) {HQ : Quiet R} {HL : Loud R} {HE : Emits R}.

Lemma keeps_commit id : keeps R (commit_results K id).
Proof using HQ HE. unfold commit_results. keep. apply keeps_modify. intros p. apply e_commit. Qed.
#[local] Hint Resolve keeps_commit : keeps.
Lemma keeps_emit : keeps R (storage_supervisor_emit_aggregate K).
Proof using HQ HL HE.
  unfold storage_supervisor_emit_aggregate, settle_task, capture_state. keep.
  - apply keeps_loud_mod; [done|]. intros s. apply loud_protocol.
  - apply keeps_modify. intros p. apply e_emitted.
Qed.
#[local] Hint Resolve keeps_emit : keeps.

Section Emit_at.
Context (i : Z) {HH : Hard R i}.
Lemma keeps_poll_events : keeps R (poll_storage_events K i).
Proof using HQ HL HE HH. unfold poll_storage_events. keep. Qed.
Lemma keeps_finish c : keeps R (storage_finish_worker_exit K i c).
Proof using HQ HL HE HH.
  unfold storage_finish_worker_exit. keep.
  apply keeps_loud; [done|]. intros s. apply loud_exit.
  pose proof (u32_range (pf_channel_id (planned_file a))). cint.
Qed.
#[local] Hint Resolve keeps_poll_events keeps_finish : keeps.
Lemma keeps_worker_exit st : keeps R (storage_handle_worker_exit K i st).
Proof using HQ HL HE HH. unfold storage_handle_worker_exit. keep. Qed.
#[local] Hint Resolve keeps_worker_exit : keeps.
Lemma keeps_timeout : keeps R (check_timeout K i).
Proof using HQ HL HE HH. unfold check_timeout. keep. Qed.
#[local] Hint Resolve keeps_timeout : keeps.
Lemma keeps_check : keeps R (check_task K i).
Proof using HQ HL HE HH. unfold check_task. keep. Qed.
Lemma keeps_kill : keeps R (kill_worker K i).
Proof using HQ HL HE HH. unfold kill_worker. keep. Qed.
End Emit_at.

Lemma keeps_stop_tasks : (∀ i, Hard R i) → keeps R (stop_all_storage_tasks K).
Proof using HQ HL HE. intros HH. unfold stop_all_storage_tasks. keep. by apply keeps_kill. Qed.
End Emitting.
#[local] Hint Resolve keeps_commit keeps_emit keeps_poll_events keeps_finish keeps_worker_exit
  keeps_timeout keeps_check keeps_kill keeps_stop_tasks : keeps.

Section Starting.
Context (R : relation Parent) {HQ : Quiet R} {HS : Starts R}.
Lemma keeps_set_start f : keeps R (set_start (W := W) f).
Proof using HS. apply keeps_modify. intros p. apply s_start. Qed.
#[local] Hint Resolve keeps_set_start : keeps.
Lemma keeps_start_fail : keeps R (storage_pending_start_fail K).
Proof using HQ HS. unfold storage_pending_start_fail. keep. Qed.
End Starting.
#[local] Hint Resolve keeps_set_start keeps_start_fail : keeps.

(** ** The verdict and the commit *)

(** Once the verdict has been announced it is final up to failure, and success
    was announced only after a commit that succeeded. *)
Definition announced (p : Parent) : Prop :=
  formed (g_storage_supervisor p) ∧ (aggregate_emitted p = true →
  terminal (g_storage_supervisor p) ≠ STORAGE_TASK_ACTIVE ∧
  (terminal (g_storage_supervisor p) = STORAGE_TASK_SUCCESS →
   success (g_storage_commit_state p) = true)).
(** A successful verdict has been announced. *)
Definition prompt (p : Parent) : Prop :=
  target_channel_mask (g_storage_supervisor p) ≠ 0 →
  status (g_storage_supervisor p) = STORAGE_TASK_SUCCESS → aggregate_emitted p = true.
Definition verdict_inv (p : Parent) : Prop := announced p ∧ prompt p.

Definition same_commit (p p' : Parent) : Prop :=
  aggregate_emitted p' = aggregate_emitted p ∧
  g_storage_commit_state p' = g_storage_commit_state p.
Definition still (p p' : Parent) : Prop :=
  quiet_sup (g_storage_supervisor p) (g_storage_supervisor p') ∧ same_commit p p'.
Definition moving (p p' : Parent) : Prop :=
  loud_sup (g_storage_supervisor p) (g_storage_supervisor p') ∧ same_commit p p'.

#[export] Instance still_quiet : Quiet still.
Proof. split; try done. split; [done|]. intros a b c [H1 [??]] [H2 [??]]. split; [by etrans|]. split; congruence. Qed.
#[export] Instance still_hard i : Hard still i.
Proof. done. Qed.
#[export] Instance still_starts : Starts still.
Proof. done. Qed.
#[export] Instance moving_quiet : Quiet moving.
Proof.
  split; try done.
  - split; [done|]. intros a b c [H1 [??]] [H2 [??]]. split; [by etrans|]. split; congruence.
  - intros p s H. split; [by apply quiet_loud|done].
Qed.
#[export] Instance moving_hard i : Hard moving i.
Proof. done. Qed.
#[export] Instance moving_starts : Starts moving.
Proof. done. Qed.
#[export] Instance moving_loud : Loud moving.
Proof. split; done. Qed.

Lemma still_inv p p' : still p p' → verdict_inv p → verdict_inv p'.
Proof.
  intros [Hs [He Hc]] [Ha Hp]. pose proof (quiet_verdict _ _ Hs) as Hst.
  destruct Hs as (H1&_&_&_&H5&_&H7). unfold verdict_inv, announced, prompt, formed in *.
  by rewrite He, Hc, Hst, H1, H5, H7.
Qed.
Lemma moving_announced p p' : moving p p' → announced p → announced p'.
Proof.
  intros [(_&Hn&Hf&Hg) [He Hc]] [Hg' Ha]. unfold announced in *. rewrite He, Hc.
  split; [by apply Hg|]. intros H.
  destruct (Ha H) as [Hact Hs]. split; [by apply Hn|]. intros Ht. apply Hs.
  destruct (terminal (g_storage_supervisor p)) eqn:E; [done|done|]. by rewrite Hf in Ht.
Qed.

(** [safe]: keeps the invariant; [heals]: restores it. *)
Definition safe {A} (m : M (W := W) A) : Prop :=
  ∀ p w, verdict_inv p → verdict_inv (fst (snd (m (p, w)))).
Definition heals {A} (m : M (W := W) A) : Prop :=
  ∀ p w, announced p → verdict_inv (fst (snd (m (p, w)))).

Lemma safe_still {A} (m : M (W := W) A) : keeps still m → safe m.
Proof. intros H p w. apply still_inv, H. Qed.
Lemma safe_seq {A B} (m : M (W := W) A) (k : A → M (W := W) B) :
  safe m → (∀ a, safe (k a)) → safe (ebind m k).
Proof.
  intros Hm Hk p w Hp. unfold ebind. specialize (Hm p w Hp). destruct (m (p, w)) as [a [p1 w1]]. by apply Hk.
Qed.
Lemma heals_bind {A B} (m : M (W := W) A) (k : A → M (W := W) B) :
  keeps moving m → (∀ a, heals (k a)) → heals (ebind m k).
Proof.
  intros Hm Hk p w Hp. unfold ebind. specialize (Hm p w). destruct (m (p, w)) as [a [p1 w1]].
  apply Hk. by eapply moving_announced.
Qed.
Lemma heals_safe {A} (m : M (W := W) A) : heals m → safe m.
Proof. intros H p w [Ha _]. by apply H. Qed.

Lemma commit_success p id w rc c w' :
  storage_commit_supervised_results (g_storage_supervisor p) (storage_tasks p) id
    (g_storage_commit_state p) (commit_ops K) w = ((rc, c), w') →
  rc = 0 → success c = true.
Proof.
  unfold storage_commit_supervised_results. intros E ->.
  destruct (commit_items _ _ _ _) as [items|].
  - pose proof (run_once_verdict (commit_ops K) (g_storage_commit_state p) (Some id) (Some items)
      (Z.of_nat (length items)) w) as [_ Hv]. rewrite E in Hv. cbn in Hv.
    by destruct (success c).
  - revert E. unfold ebind, eret. destruct (must2 _ _ _ w) as [? ?]. by intros [= ].
Qed.

Lemma protocol_terminal s ch r : aggregate_ready s = true →
  terminal (storage_supervisor_protocol_fail s ch r) = STORAGE_TASK_FAILED.
Proof.
  intros Ha. unfold storage_supervisor_protocol_fail.
  destruct (fail_eq s ch STORAGE_ERR_IPC (Some (or_else r "event_protocol_invalid")))
    as (?&?&?&?&?&?&->&_). destruct s. simpl in *. by subst.
Qed.

(** Hoare triples on the globals. *)
Definition tri {A} (P : Parent → Prop) (m : M (W := W) A) (Q : A → Parent → Prop) : Prop :=
  ∀ p w, P p → Q (fst (m (p, w))) (fst (snd (m (p, w)))).
Lemma tri_bind {A B} P Q S (m : M (W := W) A) (k : A → M (W := W) B) :
  tri P m Q → (∀ a, tri (Q a) (k a) S) → tri P (ebind m k) S.
Proof.
  intros Hm Hk p w Hp. unfold ebind. specialize (Hm p w Hp). destruct (m (p, w)) as [a [p1 w1]].
  by apply Hk.
Qed.
Lemma tri_still {A} P (m : M (W := W) A) :
  (∀ p p', still p p' → P p → P p') → keeps still m → tri P m (λ _, P).
Proof. intros HP Hm p w. apply HP, Hm. Qed.

Lemma tri_weaken {A} (P P' : Parent → Prop) (m : M (W := W) A) Q :
  (∀ p, P p → P' p) → tri P' m Q → tri P m Q.
Proof. intros HP Hm p w Hp. by apply Hm, HP. Qed.

(** The verdict is known: success needs a successful commit. *)
Definition decided (p : Parent) : Prop :=
  formed (g_storage_supervisor p) ∧ terminal (g_storage_supervisor p) ≠ STORAGE_TASK_ACTIVE ∧
  (terminal (g_storage_supervisor p) = STORAGE_TASK_SUCCESS → success (g_storage_commit_state p) = true).
Definition verdict_is (st : StorageTaskTerminal) (p : Parent) : Prop :=
  formed (g_storage_supervisor p) ∧ terminal (g_storage_supervisor p) = st.

Lemma still_verdict st p p' : still p p' → verdict_is st p → verdict_is st p'.
Proof. intros [(?&?&?&?&H5&?&H7) _]. unfold verdict_is, formed. by rewrite H5, H7. Qed.
Lemma still_decided p p' : still p p' → decided p → decided p'.
Proof. intros [(?&?&?&?&H5&?&H7) [_ Hc]]. unfold decided, formed. by rewrite H5, H7, Hc. Qed.

Lemma tri_commit id :
  tri (verdict_is STORAGE_TASK_SUCCESS) (commit_results K id)
    (λ rc p, verdict_is STORAGE_TASK_SUCCESS p ∧ (rc = 0 → success (g_storage_commit_state p) = true)).
Proof.
  intros p w Hp. unfold commit_results, modify, get, ebind, eret, sget, smod, sio.
  destruct (storage_commit_supervised_results _ _ _ _ _ w) as [[rc c] w'] eqn:E. cbn.
  split; [done|]. by eapply commit_success.
Qed.

Lemma tri_settle st id : st ≠ STORAGE_TASK_ACTIVE →
  tri (verdict_is st) (settle_task K st id) (λ _, decided).
Proof.
  intros Hst. unfold settle_task. case_bool_decide as Hs.
  - subst st. eapply tri_bind; [apply tri_commit|]. intros rc. cbn beta.
    destruct (Z.eqb_spec rc 0) as [->|Hrc]; cbn [negb].
    + eapply (tri_weaken _ decided); [intros p [[Hf Ht] Hc]; split; [done|]; rewrite Ht; by auto|].
      apply tri_still; [apply still_decided|]. unfold capture_state. keep.
    + intros p w [[Hf Ht] _].
      set (why := Some (txt (reason (g_storage_commit_state p)))).
      pose proof (protocol_terminal (g_storage_supervisor p) NUM_CHANNELS why) as Hp.
      pose proof (loud_protocol (g_storage_supervisor p) NUM_CHANNELS why) as (_&_&_&Hl).
      assert (aggregate_ready (g_storage_supervisor p) = true) as Hg by (apply Hf; by rewrite Ht).
      specialize (Hp Hg). specialize (Hl Hf).
      set (X := storage_supervisor_protocol_fail (g_storage_supervisor p) NUM_CHANNELS why) in *.
      change (formed X ∧ terminal X ≠ STORAGE_TASK_ACTIVE ∧
        (terminal X = STORAGE_TASK_SUCCESS → success (g_storage_commit_state p) = true)).
      by rewrite Hp.
  - eapply (tri_weaken _ decided); [|apply tri_still; [apply still_decided|keep]].
    intros p [Hf Ht]. split; [done|]. rewrite Ht. by split.
Qed.

Lemma heals_emit : heals (storage_supervisor_emit_aggregate K).
Proof.
  intros p w Ha. unfold storage_supervisor_emit_aggregate.
  set (s1 := snd (storage_supervisor_result_status (g_storage_supervisor p))).
  assert (result_status (p, w) = (status (g_storage_supervisor p), (p <| g_storage_supervisor := s1 |>, w))) as E.
  { unfold result_status, on_sup, sup, mod_sup, modify, get, ebind, eret, sget, smod. subst s1. unfold status.
    by destruct (storage_supervisor_result_status (g_storage_supervisor p)). }
  unfold ebind at 1. rewrite E. clear E. set (p1 := p <| g_storage_supervisor := s1 |>).
  assert (announced p1) as Ha1.
  { eapply moving_announced; [|exact Ha]. split; [apply loud_result|done]. }
  destruct (result_terminal (g_storage_supervisor p)) as [Ht _]. fold s1 in Ht.
  pose proof (status_again (g_storage_supervisor p)) as Hst. fold s1 in Hst.
  set (st := status (g_storage_supervisor p)) in *.
  unfold ebind at 1, get, sget.
  destruct (aggregate_emitted p1 || bool_decide (st = STORAGE_TASK_ACTIVE)) eqn:Eb.
  { cbn. split; [done|]. intros _ Hs. apply orb_true_iff in Eb as [Eb|Eb]; [done|].
    apply bool_decide_eq_true in Eb. change (g_storage_supervisor p1) with s1 in Hs. congruence. }
  apply orb_false_iff in Eb as [_ Eb]. apply bool_decide_eq_false in Eb.
  assert (verdict_is st p1) as Hv by (split; [apply Ha1|exact Ht]). clearbody p1 st. clear - Eb Hv.
  revert p1 w Hv.
  apply (tri_bind _ (λ _, verdict_is st) (λ _ : unit, verdict_inv)).
  { apply tri_still; [apply still_verdict|keep]. }
  intros _. apply (tri_bind _ (λ _, verdict_is st)); [by intros p w|]. intros q.
  eapply tri_bind; [by apply tri_settle|]. intros [] p w (Hf & Hn & Hs). cbn.
  by split; [split|].
Qed.

Ltac heal :=
  repeat (cbv zeta; first
    [ progress intros
    | apply heals_emit
    | match goal with |- heals (ebind _ _) => apply heals_bind; [keep|intros ?] end ]).

Lemma heals_poll_events i : heals (poll_storage_events K i).
Proof. unfold poll_storage_events. heal. Qed.

Lemma safe_finish i c : safe (storage_finish_worker_exit K i c).
Proof.
  unfold storage_finish_worker_exit. apply safe_seq; [apply safe_still; keep|intros t].
  cbv zeta. destruct (has_planned_file t); [|apply safe_still; keep].
  apply heals_safe. heal. apply keeps_loud; [typeclasses eauto|]. intros s. apply loud_exit.
  pose proof (u32_range (pf_channel_id (planned_file t))). cint.
Qed.

Create HintDb safe discriminated.
Ltac safe :=
  repeat (cbv zeta; first
    [ progress intros
    | solve [eauto with safe]
    | solve [apply safe_still; keep]
    | match goal with
      | |- safe (ebind _ _) => apply safe_seq; [|intros ?]
      | |- safe (if ?b then _ else _) => destruct b
      | |- safe (match ?x with _ => _ end) => destruct x
      end ]).
#[local] Hint Resolve safe_finish : safe.
#[local] Hint Extern 1 (safe (poll_storage_events _ _)) => apply heals_safe, heals_poll_events : safe.
#[local] Hint Extern 1 (safe (storage_supervisor_emit_aggregate _)) => apply heals_safe, heals_emit : safe.

Lemma safe_worker_exit i st : safe (storage_handle_worker_exit K i st).
Proof. unfold storage_handle_worker_exit. safe. Qed.
#[local] Hint Resolve safe_worker_exit : safe.
Lemma safe_timeout i : safe (check_timeout K i).
Proof. unfold check_timeout. safe. Qed.
#[local] Hint Resolve safe_timeout : safe.
Lemma safe_check i : safe (check_task K i).
Proof. unfold check_task. safe. Qed.
Lemma safe_kill i : safe (kill_worker K i).
Proof. unfold kill_worker. safe. Qed.
#[local] Hint Resolve safe_check safe_kill : safe.
Lemma safe_stop_tasks : safe (stop_all_storage_tasks K).
Proof. unfold stop_all_storage_tasks, each. safe. Qed.
Lemma safe_result : safe (result_status (W := W)).
Proof.
  intros p w [Ha Hp]. split.
  - eapply moving_announced; [|exact Ha]. apply keeps_result. typeclasses eauto.
  - unfold result_status, on_sup, sup, mod_sup, modify, get, ebind, eret, sget, smod.
    pose proof (status_again (g_storage_supervisor p)) as Hs. pose proof (target_result (g_storage_supervisor p)) as Ht.
    destruct (storage_supervisor_result_status (g_storage_supervisor p)) as [a s1]. cbn [snd] in *.
    change (target_channel_mask s1 ≠ 0 → status s1 = STORAGE_TASK_SUCCESS → aggregate_emitted p = true).
    by rewrite Ht, Hs.
Qed.
#[local] Hint Resolve safe_stop_tasks safe_result : safe.

Lemma keeps_send a : keeps still (send (W := W) a).
Proof. by apply keeps_modify. Qed.
Lemma keeps_set_stop f : keeps still (set_stop (W := W) f).
Proof. by apply keeps_modify. Qed.
Lemma keeps_any_live : keeps still (storage_any_live_worker (W := W)).
Proof. unfold storage_any_live_worker. keep. Qed.
#[local] Hint Resolve keeps_send keeps_set_stop keeps_any_live : keeps.
Lemma keeps_send_failure : keeps still (storage_pending_start_send_failure K).
Proof. unfold storage_pending_start_send_failure. keep. Qed.
Lemma keeps_clear : keeps still (clear_start (W := W)).
Proof. unfold clear_start. keep. Qed.
#[local] Hint Resolve keeps_send_failure keeps_clear : keeps.

Lemma safe_scan c i : safe (scan_target K c i).
Proof. unfold scan_target. safe. Qed.
Lemma safe_prepared n : safe (prepared K n).
Proof. unfold prepared. safe. Qed.
Lemma safe_armed n : safe (all_armed K n).
Proof. apply safe_still. unfold all_armed. keep. apply keeps_each_while; [typeclasses eauto|]. intros i. unfold run_worker. keep. Qed.
Lemma safe_running n : safe (all_running K n).
Proof. unfold all_running. safe. Qed.
Lemma safe_start_failed : safe (start_failed K).
Proof. unfold start_failed, start_phase_is. safe. Qed.
#[local] Hint Resolve safe_scan safe_prepared safe_armed safe_running safe_start_failed : safe.
Lemma safe_pending_start : safe (storage_service_pending_start K).
Proof. unfold storage_service_pending_start, start_phase_is. safe. Qed.
Lemma safe_pending_stop : safe (storage_service_pending_stop K).
Proof. unfold storage_service_pending_stop. safe. Qed.
#[local] Hint Resolve safe_pending_start safe_pending_stop : safe.

Lemma unavailable_fails s ch r : 0 <= ch →
  status (storage_supervisor_mark_unavailable s ch r) = STORAGE_TASK_SUCCESS →
  status s = STORAGE_TASK_SUCCESS.
Proof.
  intros Hc. unfold storage_supervisor_mark_unavailable.
  destruct (_ || _) eqn:Hg; [done|]. apply orb_false_iff in Hg as [Hb _].
  set (s1 := s <| worker_exited_mask ::= λ m, Z.lor m (bit ch) |> <| unavailable_mask ::= λ m, Z.lor m (bit ch) |>).
  destruct (fail_eq s1 ch STORAGE_ERR_WORKER_EXIT (Some (or_else r "worker_unavailable")))
    as (ff&p&q&fc&fr&sr&->&_). rewrite status_again.
  set (s2 := after_fail s1 ff p q fc fr sr). intros H.
  assert (unavailable_mask s2 ≠ 0) as Hu.
  { change (Z.lor (unavailable_mask s) (bit ch) ≠ 0). intros E. apply Z.lor_eq_0_iff in E as [_ E]. lia. }
  assert (terminal s2 = terminal s ∨ terminal s2 = STORAGE_TASK_FAILED) as Ht.
  { change (terminal s2) with (if aggregate_ready s then STORAGE_TASK_FAILED else terminal s).
    destruct (aggregate_ready s); auto. }
  rewrite status_pure in H. unfold pure_status in H.
  case_bool_decide as Ha; cbn [negb] in H.
  - destruct (negb _); [done|]. by replace (first_fatal s2 || negb (unavailable_mask s2 =? 0)) with true in H by lia.
  - destruct Ht as [Ht|Ht]; [|congruence]. rewrite status_terminal; congruence.
Qed.

Lemma safe_mod_sup f : (∀ s, loud_sup s (f s)) →
  (∀ s, status (f s) = STORAGE_TASK_SUCCESS → status s = STORAGE_TASK_SUCCESS) →
  safe (mod_sup (W := W) f).
Proof.
  intros Hl Hs p w [Ha Hp]. split.
  - eapply moving_announced; [|exact Ha]. by apply keeps_loud_mod; [typeclasses eauto|].
  - intros Ht Hst. destruct (Hl (g_storage_supervisor p)) as [E _].
    apply Hp; [|by apply Hs]. intros H0. apply Ht.
    change (target_channel_mask (f (g_storage_supervisor p)) = 0). congruence.
Qed.

Lemma fold_unavailable (files : list PlannedFile) : ∀ s,
  let s' := foldl (λ s f, storage_supervisor_mark_unavailable s (u32 (pf_channel_id f))
                     (Some (txt "fork_exec_failed"))) s files in
  loud_sup s s' ∧ (status s' = STORAGE_TASK_SUCCESS → status s = STORAGE_TASK_SUCCESS).
Proof.
  induction files as [|f files IH]; intros s; [done|]. cbn [foldl].
  assert (0 <= u32 (pf_channel_id f)) as Hc by (pose proof (u32_range (pf_channel_id f)); cint).
  destruct (IH (storage_supervisor_mark_unavailable s (u32 (pf_channel_id f)) (Some (txt "fork_exec_failed"))))
    as [Hl Hs]. split; [etrans; [by apply loud_unavailable|exact Hl]|].
  intros H. eapply unavailable_fails; [exact Hc|]. by apply Hs.
Qed.

Lemma keeps_start_worker program f id o : keeps still (start_storage_worker K program f id o).
Proof. unfold start_storage_worker. keep. Qed.
#[local] Hint Resolve keeps_start_worker : keeps.

Lemma safe_launch program id o files : ∀ next, safe (launch_files K program id o next files).
Proof.
  induction files as [|f files IH]; intros next; cbn [launch_files]; [safe|].
  cbv zeta. apply safe_seq; [apply safe_still; keep|intros rc]. destruct (rc =? 0); [apply IH|].
  apply safe_seq; [|intros _; safe].
  apply safe_mod_sup; intros s; by apply (fold_unavailable (_ :: files)).
Qed.
#[local] Hint Resolve safe_launch : safe.

Lemma init_active mask : mask ≠ 0 → status (storage_supervisor_init mask) = STORAGE_TASK_ACTIVE.
Proof.
  intros H. rewrite status_pure. unfold pure_status, storage_supervisor_init.
  cbn [terminal final_seen_mask unavailable_mask target_channel_mask]. change (Z.lor 0 0) with 0.
  by rewrite (proj2 (Z.eqb_neq 0 mask)).
Qed.

Lemma safe_begin id files : safe (begin_capture K id files).
Proof.
  set (fresh := λ p, verdict_inv p ∧ aggregate_emitted p = false).
  assert (∀ p p', still p p' → fresh p → fresh p') as Hstill.
  { intros p p' H [Hv He]. split; [by eapply still_inv|]. destruct H as [_ [H _]]. congruence. }
  intros p w _. revert p w. cut (tri (λ _, True) (begin_capture K id files) (λ _, verdict_inv)); [by intros H p w; apply H|].
  unfold begin_capture. apply (tri_bind _ (λ _, fresh)).
  { intros p w _. split; [split|done].
    - split; [by intros H|by intros H].
    - intros Hm Hs. change (status (storage_supervisor_init (plan_mask files)) = STORAGE_TASK_SUCCESS) in Hs.
      by rewrite init_active in Hs. }
  intros _. apply (tri_bind _ (λ _, fresh)); [apply tri_still; [done|keep]|intros t].
  apply (tri_bind _ (λ _, fresh)); [apply tri_still; [done|keep]|intros rc].
  destruct (negb (rc =? 0)); [by intros p w [? _]|].
  apply (tri_bind _ (λ _, fresh)).
  { intros p w [[[Hf _] Hp] He]. split; [|exact He]. split; [|exact Hp]. split; [exact Hf|].
    change (aggregate_emitted p = true → terminal (g_storage_supervisor p) ≠ STORAGE_TASK_ACTIVE ∧
      (terminal (g_storage_supervisor p) = STORAGE_TASK_SUCCESS → success storage_commit_state_reset = true)).
    by rewrite He. }
  intros _. apply (tri_bind _ (λ _, fresh)); [|by intros _ p w [? _]].
  by intros p w H.
Qed.
#[local] Hint Resolve safe_begin : safe.

Lemma keeps_prepare_wait id a f : keeps still (storage_begin_prepare_wait K id a f).
Proof. unfold storage_begin_prepare_wait. keep. Qed.
Lemma keeps_rejected c id r : keeps still (prepare_rejected K c id r).
Proof. unfold prepare_rejected. keep. Qed.
Lemma keeps_reset i : keeps still (reset_task (W := W) i).
Proof. unfold reset_task. keep. Qed.
#[local] Hint Resolve keeps_prepare_wait keeps_rejected keeps_reset : keeps.

Lemma safe_launch_plan program a files n : safe (launch_plan K program a files n).
Proof. unfold launch_plan. safe. Qed.
#[local] Hint Resolve safe_launch_plan : safe.

Lemma safe_prepare program : safe (start_storage_for_last_task K program).
Proof. unfold start_storage_for_last_task, storage_any_running, storage_any_state, storage_any_live_worker. safe. Qed.
#[local] Hint Resolve safe_prepare : safe.

Lemma safe_task_info program l b e : safe (handle_task_info K program l b e).
Proof.
  unfold handle_task_info, storage_any_running, storage_any_state, storage_any_live_worker. safe.
Qed.

Lemma safe_arm ts i : safe (arm_worker K ts i).
Proof. unfold arm_worker. safe. Qed.
Lemma safe_each_while f l : (∀ i, safe (f i)) → safe (each_while (W := W) f l).
Proof.
  intros H. induction l as [|i l IH]; [safe|]. cbn [each_while]. apply safe_seq; [apply H|]. intros [|]; [done|safe].
Qed.
Lemma safe_run_barrier id a f : safe (storage_begin_run_barrier K id a f).
Proof. unfold storage_begin_run_barrier. safe. apply safe_each_while, safe_arm. Qed.
#[local] Hint Resolve safe_run_barrier : safe.
Lemma safe_acq flag : safe (handle_acq_ctrl K flag).
Proof. unfold handle_acq_ctrl, switch_on, switch_off. safe. Qed.

Lemma safe_op op : safe (run_op K op).
Proof.
  destruct op; [apply safe_task_info|apply safe_acq|apply safe_check|apply safe_pending_start|apply safe_pending_stop].
Qed.

Lemma parent_initial_inv c : verdict_inv (initial_parent c).
Proof. split; [split; by intros H|by intros H]. Qed.

Lemma parent_reachable_inv s : reachable K s → verdict_inv (fst s).
Proof. induction 1 as [c w|op [p w] H IH]; [apply parent_initial_inv|by apply safe_op]. Qed.
End Frames.

#[export] Hint Resolve keeps_now keeps_task keeps_sup keeps_any keeps_epoch keeps_send_control
  keeps_fallback keeps_request_capture keeps_pending_stops keeps_auto_drains keeps_stop_all
  keeps_begin_auto keeps_to_commit keeps_env_u32 keeps_move keeps_failed keeps_result keeps_hard
  keeps_emit keeps_check keeps_kill keeps_stop_tasks : keeps.
End parent_safety.
