(* ===== verification/ParentAnswers.v ===== *)
(** * The parent process: answers to the requests

    What a positive answer to a start or a stop proves, and that every request
    is answered exactly once. *)
From S2P Require Import Prelude Bytes CStdlib StorageError CcbTypes Config Ipc Supervisor Task Capture Commit CommitStore Cli Launch Parent ParentSafe.

Module parent_answers.
Import storage_controller c_stdlib ccb_types ccb_config storage_config storage_ipc storage_supervisor ccb_storage_task ccb_storage_commit system_commit ccb_cli system_launch system_parent parent_safety.

(** ** What stays the same while a request is pending *)

(** A pending start keeps its request; its phase can only go forward. *)
Definition request (s : StoragePendingStart) :=
  (st_active s, st_prepare s, st_failure_ack_sent s, st_task_id s, st_acq_type s,
   st_failure_type s, st_target_count s).
Definition advances (s s' : StoragePendingStart) : Prop :=
  request s' = request s ∧
  (st_phase s' = st_phase s ∨ st_phase s' = STORAGE_START_FAILED ∨
   (st_phase s = STORAGE_START_ARM_WAIT ∧ st_phase s' = STORAGE_START_RUN_WAIT)).
#[export] Instance advances_pre : PreOrder advances.
Proof.
  split; [by split; [|left]|]. intros a b c [H1 P1] [H2 P2]. split; [congruence|].
  destruct P1 as [P1|[P1|[P1 P1']]], P2 as [P2|[P2|[P2 P2']]]; intuition congruence.
Qed.

(** Nothing is answered; the start request changes within [St], and of the
    tasks only those in [S] in what the barrier looks at. *)
Definition within (St : relation StoragePendingStart) (S : nat → Prop) (p p' : Parent) : Prop :=
  acks p' = acks p ∧ g_pending_storage_stop p' = g_pending_storage_stop p ∧
  target_channel_mask (g_storage_supervisor p') = target_channel_mask (g_storage_supervisor p) ∧
  St (g_pending_storage_start p) (g_pending_storage_start p') ∧
  ∀ j, ¬ S j → ident <$> (storage_tasks p' !! j) = ident <$> (storage_tasks p !! j).

Lemma soft_lookup (l : list Task) i f j : (∀ t, ident (f t) = ident t) →
  ident <$> (alter f i l !! j) = ident <$> (l !! j).
Proof.
  intros H. rewrite list_lookup_alter. case_decide as E; [|done]. subst.
  destruct (l !! j); [|done]. simpl. by rewrite H.
Qed.

Section Within.
Context (St : relation StoragePendingStart) {HSt : PreOrder St}.

#[export] Instance within_pre S : PreOrder (within St S).
Proof using HSt.
  split; [by intros p; split_and!|].
  intros p q r (A1&B1&C1&D1&E1) (A2&B2&C2&D2&E2). unfold within. split_and!; [congruence..| |].
  - by etrans.
  - intros j Hj. by rewrite E2, E1.
Qed.
#[export] Instance within_quiet S : Quiet (within St S).
Proof using HSt.
  split; try (intros; by split_and!).
  - apply within_pre.
  - intros p i f Hf. split_and!; try done. intros j _. by apply soft_lookup.
  - intros p q (H&_). by split_and!.
Qed.
#[export] Instance within_loud S : Loud (within St S).
Proof using HSt. split; [|intros; by split_and!]. intros p q (H&_). by split_and!. Qed.
#[export] Instance within_emits S : Emits (within St S).
Proof using HSt. split; intros; by split_and!. Qed.
#[export] Instance within_hard (S : nat → Prop) i : S (Z.to_nat i) → Hard (within St S) i.
Proof using HSt.
  intros HS p f. split_and!; try done. intros j Hj.
  change (ident <$> alter f (Z.to_nat i) (storage_tasks p) !! j = ident <$> storage_tasks p !! j).
  rewrite list_lookup_alter_ne; [done|]. by intros <-.
Qed.
End Within.
#[export] Hint Extern 2 (Hard (within _ _) _) => apply within_hard : typeclass_instances.

Section Answers.
Context {W : Type} (K : Kernel W).

(** No task changes in what the barrier looks at. *)
Definition none (_ : nat) : Prop := False.
Definition every (_ : nat) : Prop := True.
Definition strict : relation Parent := within eq none.

Lemma workers_same p p' : strict p p' →
  existsb (λ t, 0 <? pid t) (storage_tasks p') = existsb (λ t, 0 <? pid t) (storage_tasks p).
Proof.
  intros (_&_&_&_&H).
  assert (ident <$> storage_tasks p' = ident <$> storage_tasks p) as E.
  { apply list_eq. intros j. rewrite !list_lookup_fmap. apply H. by intros []. }
  revert E. generalize (storage_tasks p'), (storage_tasks p). clear. intros l.
  induction l as [|t l IH]; intros [|t' l']; try done. cbn. intros H. assert (ident t = ident t' ∧ ident <$> l = ident <$> l') as [E E'] by (split; congruence).
  assert (pid t = pid t') as -> by (unfold ident in E; congruence). by rewrite (IH l').
Qed.

Definition live (p : Parent) : bool := existsb (λ t, 0 <? pid t) (storage_tasks p).

Lemma emit_silent p w : aggregate_emitted p = true →
  fst (snd (storage_supervisor_emit_aggregate K (p, w))) =
  p <| g_storage_supervisor := snd (storage_supervisor_result_status (g_storage_supervisor p)) |>.
Proof.
  intros He. unfold storage_supervisor_emit_aggregate, result_status, on_sup, sup, mod_sup, modify, get, ebind, eret, sget, smod.
  destruct (storage_supervisor_result_status (g_storage_supervisor p)) as [st s1].
  cbn [fst snd aggregate_emitted]. change (aggregate_emitted (p <| g_storage_supervisor ::= λ _, s1 |>)) with (aggregate_emitted p).
  by rewrite He.
Qed.

(** ** Triples *)
Lemma tri_get P : tri P (get (W := W)) (λ a p, a = p ∧ P p).
Proof. done. Qed.
Lemma tri_ret {A} (a : A) (P : Parent → Prop) Q : (∀ p, P p → Q a p) → tri P (eret a : M (W := W) A) Q.
Proof. intros H p w. apply H. Qed.
Lemma tri_modify f (P : Parent → Prop) Q : (∀ p, P p → Q (f p)) → tri P (modify (W := W) f) (λ _, Q).
Proof. intros H p w. apply H. Qed.
Lemma tri_keeps {A} (R : relation Parent) P (m : M (W := W) A) :
  (∀ p p', R p p' → P p → P p') → keeps R m → tri P m (λ _, P).
Proof. intros HP Hm p w. apply HP, Hm. Qed.
Lemma tri_post {A} P (Q Q' : A → Parent → Prop) (m : M (W := W) A) :
  tri P m Q → (∀ a p, Q a p → Q' a p) → tri P m Q'.
Proof. intros H HQ p w Hp. by apply HQ, H. Qed.
Lemma tri_pure {A} (X : Prop) P (m : M (W := W) A) Q : (X → tri P m Q) → tri (λ p, X ∧ P p) m Q.
Proof. intros H p w [HX Hp]. by apply H. Qed.
Lemma tri_result p0 : tri (λ p, p = p0) (result_status (W := W)) (λ st p, st = status (g_storage_supervisor p0) ∧
  p = p0 <| g_storage_supervisor := snd (storage_supervisor_result_status (g_storage_supervisor p0)) |>).
Proof.
  intros p w ->. unfold result_status, on_sup, sup, mod_sup, modify, get, ebind, eret, sget, smod, status.
  by destruct (storage_supervisor_result_status (g_storage_supervisor p0)).
Qed.
Lemma tri_live p0 : tri (λ p, p = p0) (storage_any_live_worker (W := W)) (λ b p, b = live p0 ∧ p = p0).
Proof. by intros p w ->. Qed.

(** ** The stop *)

(** What the answer to a stop says of the states before and after it. *)
Definition stop_answered (p p' : Parent) : Prop :=
  g_pending_storage_stop p' = no_stop ∧
  ∃ r f, acks p' = acks p ++ [AckAcq r (sp_acq_type (g_pending_storage_stop p)) f] ∧
    (r = ACK_SUCCESS ∧ f = FAIL_TYPE_NONE ∨
     r = ACK_FAILED ∧ f = sp_failure_type (g_pending_storage_stop p)) ∧
    (target_channel_mask (g_storage_supervisor p) ≠ 0 → r = ACK_SUCCESS →
     terminal (g_storage_supervisor p') = STORAGE_TASK_SUCCESS ∧
     success (g_storage_commit_state p') = true).

(** The stop is still pending. *)
Definition waiting (p0 p : Parent) : Prop :=
  acks p = acks p0 ∧ sp_active (g_pending_storage_stop p) = true.
Lemma waits_on St S p0 p p' : within St S p p' → waiting p0 p → waiting p0 p'.
Proof. intros (A&B&_). unfold waiting. by rewrite A, B. Qed.

Lemma stop_waits p0 : tri (waiting p0) (stop_all_storage_tasks K) (λ _, waiting p0).
Proof.
  apply (tri_keeps (within eq every)).
  - apply waits_on.
  - apply keeps_stop_tasks; try typeclasses eauto. intros i. by apply within_hard; [typeclasses eauto|].
Qed.

Lemma emit_success p0 w : verdict_inv p0 → target_channel_mask (g_storage_supervisor p0) ≠ 0 →
  status (g_storage_supervisor p0) = STORAGE_TASK_SUCCESS →
  let p' := fst (snd (storage_supervisor_emit_aggregate K (p0, w))) in
  terminal (g_storage_supervisor p') = STORAGE_TASK_SUCCESS ∧ success (g_storage_commit_state p') = true.
Proof.
  intros [[_ Ha] Hp] Ht Hs p'. specialize (Hp Ht Hs). destruct (Ha Hp) as [Hn Hc].
  subst p'. rewrite emit_silent by done. destruct (result_terminal (g_storage_supervisor p0)) as [E _].
  split; [exact (eq_trans E Hs)|]. apply Hc. by rewrite <- status_terminal.
Qed.

Lemma stop_verdict p0 : verdict_inv p0 →
  let st := status (g_storage_supervisor p0) in
  tri (λ p, p = p0)
    (let! terminal := result_status in let! _ := storage_supervisor_emit_aggregate K in eret terminal)
    (λ r p, r = st ∧ acks p = acks p0 ∧ g_pending_storage_stop p = g_pending_storage_stop p0 ∧
       (target_channel_mask (g_storage_supervisor p0) ≠ 0 → st = STORAGE_TASK_SUCCESS →
        terminal (g_storage_supervisor p) = STORAGE_TASK_SUCCESS ∧
        success (g_storage_commit_state p) = true)).
Proof.
  intros Hv st. eapply tri_bind; [apply tri_result|]. intros r. cbn beta.
  intros p w [-> ->].
  set (p1 := p0 <| g_storage_supervisor := snd (storage_supervisor_result_status (g_storage_supervisor p0)) |>).
  assert (verdict_inv p1) as Hv1.
  { assert (p1 = fst (snd (result_status (W := W) (p0, w)))) as ->; [|by apply safe_result].
    symmetry. by apply (tri_result p0). }
  pose proof (status_again (g_storage_supervisor p0)) as Hs1. pose proof (target_result (g_storage_supervisor p0)) as Ht1.
  pose proof (keeps_emit K (within eq every) p1 w) as (A&B&_).
  pose proof (emit_success p1 w Hv1) as He. cbv zeta in He.
  unfold ebind. destruct (storage_supervisor_emit_aggregate K (p1, w)) as [a [p2 w2]]. cbn [fst snd] in *.
  split_and!; [done..|]. intros Ht Hs. apply He.
  - change (target_channel_mask (snd (storage_supervisor_result_status (g_storage_supervisor p0))) ≠ 0). by rewrite Ht1.
  - change (status (snd (storage_supervisor_result_status (g_storage_supervisor p0))) = STORAGE_TASK_SUCCESS). by rewrite Hs1.
Qed.
Lemma tri_seq {A B C} P Q S (m : M (W := W) A) (n : A → M (W := W) B) (k : A → B → M (W := W) C) :
  tri P (let! a := m in let! _ := n a in eret a) Q → (∀ a b, tri (Q a) (k a b) S) →
  tri P (let! a := m in let! b := n a in k a b) S.
Proof.
  intros Hm Hk p w Hp. specialize (Hm p w Hp). unfold ebind, eret in *.
  destruct (m (p, w)) as [a [p1 w1]]. destruct (n a (p1, w1)) as [b [p2 w2]]. by apply Hk.
Qed.

(** After [get] the state is known. *)
Lemma tri_read {A} (P : Parent → Prop) (k : Parent → M (W := W) A) Q :
  (∀ p0, P p0 → tri (λ p, p = p0) (k p0) Q) → tri P (let! p := get in k p) Q.
Proof. intros H p w Hp. by apply (H p Hp). Qed.

Lemma stop_served p0 : verdict_inv p0 → sp_active (g_pending_storage_stop p0) = true →
  tri (λ p, p = p0) (storage_service_pending_stop K)
    (λ _ p', if live p0 then waiting p0 p'
             else stop_answered p0 p').
Proof.
  intros Hv Ha. unfold storage_service_pending_stop.
  apply tri_read. intros ? ->. rewrite Ha. cbn [negb].
  eapply tri_bind; [apply tri_live|]. intros b. apply tri_pure. intros ->. destruct (live p0).
  - apply (tri_bind _ (λ _, waiting p0)).
    { apply (tri_weaken _ (waiting p0)); [by intros ? ->|]. apply (tri_keeps (within eq none)); [apply waits_on|keep]. }
    intros t. apply tri_read. intros p1 H1. destruct (storage_ipc_parent_stop_should_force_reap _ _ _ _).
    + apply (tri_bind _ (λ _, waiting p0)); [|intros _; by apply stop_waits].
      apply tri_modify. by intros ? ->.
    + apply tri_ret. by intros ? ->.
  - apply (tri_seq _ _ _ _ _ _ (stop_verdict p0 Hv)). intros r _.
    apply tri_read. intros p1 (->&A&B&C).
    intros p w ->. rewrite B. split; [done|]. eexists _, _. split; [exact (f_equal (λ l, l ++ [_]) A)|].
    case_bool_decide as Hs; cbn; split; [by left| |by right|].
    + intros Ht _. by apply C.
    + by intros _ [=].
Qed.

(** C3: a pending stop waits while some worker lives and is answered, once, as
    soon as none does; with a channel to record, the answer is positive only
    when the verdict is a success and the commit has succeeded. *)
Theorem stop_answer_sound s : reachable K s → sp_active (g_pending_storage_stop (fst s)) = true →
  let p' := fst (snd (storage_service_pending_stop K s)) in
  if live (fst s) then waiting (fst s) p' else stop_answered (fst s) p'.
Proof.
  intros Hr Ha. destruct s as [p w]. apply (stop_served p); [|done..]. by apply (parent_reachable_inv K (p, w)).
Qed.
End Answers.

(** ** A concrete outside

    The state counts the workers started; a worker reports ready when its
    events are first read, and is alive throughout. *)
Definition example_kernel : Kernel Z :=
  mkKernel Z (eret 1000) (eret 5) (λ _, eret (0, 0)) (λ _, eret tt) (λ _, eret tt) (λ _, eret [])
    (λ fd, eret ([storage_ipc_make_event 1000 STORAGE_WORKER_READY fd STORAGE_ERR_NONE 0 None], ReadAgain))
    (λ _ _ _, eret SendOk)
    (λ _ n, (Some (100 + n, -1, 10, 2), n + 1))
    (λ _ _, eret 0) (λ _, eret (0, 1))
    (mkOps None None None None None None None None None None None None None).

Definition example_conf : config_state := mkConfigState ∅ [] [] None.
Definition example_task (mode : Z) : LastTaskContext := mkLastTask true "T20240101" 0 mode 0 0 0 0.
Definition served_ops (mode : Z) : list (parent_op Z) :=
  [OpTaskInfo "./app" (Some (example_task mode)) false (eret 0)].
Definition example_run (ops : list (parent_op Z)) : Parent * Z :=
  run_ops example_kernel ops (initial_parent example_conf, 0).

Lemma example_reachable ops : reachable example_kernel (example_run ops).
Proof.
  unfold example_run. assert (∀ s, reachable example_kernel s → reachable example_kernel (run_ops example_kernel ops s)) as H.
  { induction ops as [|op ops IH]; intros s Hs; [done|]. apply (IH (snd (run_op example_kernel op s))). by apply reach_step. }
  apply H, reach_init.
Qed.

(** A task whose plan is rejected leaves a supervisor with no target, and the
    stop that follows is answered as a success. *)
Lemma rejected_task_stops_with_success :
  acks (fst (example_run (served_ops TASK_FILE_MODE_HIGH_ONLY ++ [OpAcqCtrl SWITCH_OFF; OpPendingStop]))) =
  [AckTask ACK_INVALID_PARAM; AckAcq ACK_SUCCESS (acq_type_from_task_mode TASK_FILE_MODE_HIGH_ONLY) FAIL_TYPE_NONE].
Proof. vm_compute. reflexivity. Qed.

Lemma stop_answer_sound_witness :
  let s := example_run (served_ops TASK_FILE_MODE_LOW_ONLY ++ [OpPendingStart; OpAcqCtrl SWITCH_OFF]) in
  acks (fst s) = [AckTask ACK_SUCCESS] ∧ live (fst s) = true ∧
  waiting (fst s) (fst (snd (storage_service_pending_stop example_kernel s))).
Proof.
  intros s. split; [vm_compute; reflexivity|]. split; [vm_compute; reflexivity|].
  exact (stop_answer_sound example_kernel s (example_reachable _) eq_refl).
Defined.
End parent_answers.
