(* ===== verification/ParentStart.v ===== *)
(** * The parent process: the start barrier

    The scan of the workers that a pending start waits for, the answers it
    gives, and the count of the answers that are owed. *)
From S2P Require Import Prelude Bytes CStdlib StorageError CcbTypes Config Ipc Supervisor Task Capture Commit CommitStore Cli Launch Parent ParentSafe ParentAnswers.

Module parent_start.
Import storage_controller c_stdlib ccb_types ccb_config storage_config storage_ipc storage_supervisor ccb_storage_task ccb_storage_commit system_commit ccb_cli system_launch system_parent parent_safety parent_answers.

(** ** The request that is pending *)

(** An active request has not been answered, and until it fails it waits for
    every target of the capture in the phase of its kind. *)
Definition start_ok (p : Parent) : Prop :=
  let s := g_pending_storage_start p in
  st_active s = true →
  st_failure_ack_sent s = false ∧
  (st_phase s = STORAGE_START_FAILED ∨
   st_target_count s = count_targets p ∧
   if st_prepare s then st_phase s = STORAGE_START_PREP_READY
   else st_phase s = STORAGE_START_ARM_WAIT ∨ st_phase s = STORAGE_START_RUN_WAIT).

(** The request goes forward and the targets stay. *)
Definition forward (p p' : Parent) : Prop :=
  target_channel_mask (g_storage_supervisor p') = target_channel_mask (g_storage_supervisor p) ∧
  advances (g_pending_storage_start p) (g_pending_storage_start p').
#[export] Instance forward_quiet : Quiet forward.
Proof.
  split; try done.
  - split; [done|]. intros p q r [A1 B1] [A2 B2]. split; [congruence|by etrans].
  - intros p s (H&_). by split.
Qed.
#[export] Instance forward_loud : Loud forward.
Proof. split; [|done]. intros p s (H&_). by split. Qed.
#[export] Instance forward_emits : Emits forward.
Proof. by split. Qed.
#[export] Instance forward_hard i : Hard forward i.
Proof. done. Qed.

Lemma targeted_same p p' i :
  target_channel_mask (g_storage_supervisor p') = target_channel_mask (g_storage_supervisor p) →
  targeted p' i = targeted p i.
Proof. unfold targeted. by intros ->. Qed.
Lemma count_same p p' :
  target_channel_mask (g_storage_supervisor p') = target_channel_mask (g_storage_supervisor p) →
  count_targets p' = count_targets p.
Proof. unfold count_targets, targeted. by intros ->. Qed.

Lemma forward_ok p p' : forward p p' → start_ok p → start_ok p'.
Proof.
  intros [Hm [Hq Hp]] H. unfold start_ok in *. rewrite (count_same p p') by done.
  unfold request in Hq. destruct (g_pending_storage_start p), (g_pending_storage_start p'). simpl in *.
  simplify_eq/=. intros Ha. destruct (H Ha) as [Hf Hc]. split; [done|].
  destruct Hp as [->|[->|[-> ->]]]; [done|by left|]. destruct Hc as [|[Hc Hc']]; [done|]. right.
  split; [done|]. by destruct st_prepare0; [|right].
Qed.
Lemma within_forward S p p' : within advances S p p' → forward p p'.
Proof. by intros (_&_&H&H'&_). Qed.
Lemma strict_within S p p' : within eq none p p' → within advances S p p'.
Proof. intros (A&B&C&D&E). split_and!; [done..|by rewrite D|]. intros j _. apply E. by intros []. Qed.

(** ** The scan *)

Definition targets (p : Parent) (l : list Z) : Z :=
  Z.of_nat (length (filter (λ i, targeted p i = true) l)).
Definition attending (p : Parent) (i : Z) : Prop := storage_pending_start_target p (task_at p i) = true.

(** [n] counts workers of [l] with the flag [sel]; when it counts as many as
    there are targets then every target has the flag. *)
Definition counted (sel : Task → bool) (p : Parent) (l : list Z) (n : Z) : Prop :=
  n <= targets p l ∧
  (n = targets p l → ∀ i, i ∈ l → targeted p i = true → attending p i ∧ sel (task_at p i) = true).

Lemma targets_snoc p l i : targets p (l ++ [i]) = targets p l + (if targeted p i then 1 else 0).
Proof.
  unfold targets. rewrite filter_app, length_app. rewrite (filter_cons _ i []).
  destruct (targeted p i); case_decide; try done; cbn; lia.
Qed.

Lemma counted_nil sel p : counted sel p [] 0.
Proof. split; [done|]. intros _ i H. by apply not_elem_of_nil in H. Qed.
Lemma counted_miss sel p l n i : counted sel p l n → counted sel p (l ++ [i]) n.
Proof.
  intros [Hn He]. unfold counted. rewrite targets_snoc. destruct (targeted p i) eqn:Ht; split; [lia|lia|lia|].
  intros E j Hj Htj. apply elem_of_app in Hj as [Hj|Hj%list_elem_of_singleton]; [apply He; [lia|done..]|congruence].
Qed.
Lemma counted_hit sel p l n i : targeted p i = true → attending p i →
  counted sel p l n → counted sel p (l ++ [i]) (count_if (sel (task_at p i)) n).
Proof.
  intros Ht Ha [Hn He]. unfold counted, count_if. rewrite targets_snoc, Ht.
  destruct (sel (task_at p i)) eqn:Hs; split; [lia| |lia|lia].
  intros E j Hj Htj. apply elem_of_app in Hj as [Hj|Hj%list_elem_of_singleton]; [apply He; [lia|done..]|by subst].
Qed.

Lemma task_at_same p p' i :
  ident <$> (storage_tasks p' !! Z.to_nat i) = ident <$> (storage_tasks p !! Z.to_nat i) →
  ident (task_at p' i) = ident (task_at p i).
Proof.
  unfold task_at. destruct (storage_tasks p' !! _), (storage_tasks p !! _); intros H; try done.
  cbn in *. congruence.
Qed.

Definition pure_of (sel : Task → bool) : Prop := ∀ t t', ident t = ident t' → sel t = sel t'.

Lemma attending_same p p' i :
  target_channel_mask (g_storage_supervisor p') = target_channel_mask (g_storage_supervisor p) →
  st_task_id (g_pending_storage_start p') = st_task_id (g_pending_storage_start p) →
  ident (task_at p' i) = ident (task_at p i) → attending p i → attending p' i.
Proof.
  intros Hm Hs Hi. unfold attending, storage_pending_start_target, targeted. rewrite Hm, Hs.
  unfold ident in Hi. by replace (pid (task_at p' i)) with (pid (task_at p i)) by congruence;
  replace (has_planned_file (task_at p' i)) with (has_planned_file (task_at p i)) by congruence;
  replace (planned_file (task_at p' i)) with (planned_file (task_at p i)) by congruence;
  replace (ccb_storage_task.task_id (task_at p' i)) with (ccb_storage_task.task_id (task_at p i)) by congruence.
Qed.

(** Workers that have been counted stay counted when only others change. *)
Lemma counted_same sel S p p' l n : pure_of sel → within advances S p p' →
  (∀ i, i ∈ l → ¬ S (Z.to_nat i)) → counted sel p l n → counted sel p' l n.
Proof.
  intros Hsel (_&_&Hm&[Hq _]&Hj) Hl [Hn He].
  assert (targets p' l = targets p l) as Ht.
  { unfold targets, targeted. by rewrite Hm. }
  split; [lia|]. rewrite Ht. intros E i Hi. rewrite (targeted_same p p') by done. intros Hti.
  destruct (He E i Hi Hti) as [Ha Hs]. pose proof (task_at_same _ _ _ (Hj _ (Hl i Hi))) as Hid.
  split; [|by rewrite (Hsel _ _ Hid)]. eapply attending_same; [done| |done|done].
  unfold request in Hq. congruence.
Qed.

Section Barrier.
Context {W : Type} (K : Kernel W).

Lemma keeps_fail_start S : keeps (within advances S) (storage_pending_start_fail K).
Proof.
  unfold storage_pending_start_fail. keep.
  apply keeps_modify. intros p. split_and!; try done. by split; [|right; left].
Qed.

(** What a scan of the workers [l] of the request of [p0] has established. *)
Definition Scan (p0 : Parent) (l : list Z) (c : Z * Z * Z) (p : Parent) : Prop :=
  within advances every p0 p ∧ counted ready_seen p l c.1.1 ∧ counted armed_seen p l c.1.2 ∧
  counted running_seen p l c.2.

Lemma Scan_within S p0 l c p p' : (∀ i, i ∈ l → ¬ S (Z.to_nat i)) →
  within advances S p p' → Scan p0 l c p → Scan p0 l c p'.
Proof.
  intros Hl H (Hw&H1&H2&H3).
  assert (∀ sel n, pure_of sel → counted sel p l n → counted sel p' l n) as Hc.
  { intros sel n Hs. by eapply counted_same. }
  split_and!; [|apply Hc; [|done]; intros [] []; unfold ident; cbn; congruence..].
  etrans; [exact Hw|]. destruct H as (A1&B1&C1&D1&_). by split_and!.
Qed.
Lemma Scan_keeps {A} S p0 l c (m : M (W := W) A) : (∀ i, i ∈ l → ¬ S (Z.to_nat i)) →
  keeps (within advances S) m → tri (Scan p0 l c) m (λ _, Scan p0 l c).
Proof. intros Hl. apply tri_keeps. intros p p'. by apply Scan_within. Qed.

Lemma scan_step p0 l c i : (∀ j, j ∈ l → Z.to_nat j ≠ Z.to_nat i) →
  tri (Scan p0 l c) (scan_target K c i) (λ c', Scan p0 (l ++ [i]) c').
Proof.
  intros Hl. unfold scan_target.
  assert (∀ p, Scan p0 l c p → Scan p0 (l ++ [i]) c p) as Hmiss.
  { intros p (?&?&?&?). split_and!; [done|by apply counted_miss..]. }
  apply (tri_bind _ (λ a p, a = p ∧ Scan p0 l c p)); [apply tri_get|]. intros p1.
  destruct (negb (targeted p1 i) || _) eqn:Hg; [apply tri_ret; intros ? [_ ?]; by apply Hmiss|].
  apply orb_false_iff in Hg as [Ht%negb_false_iff _].
  set (P := λ p, Scan p0 l c p ∧ targeted p i = true).
  set (at_i := λ j, j = Z.to_nat i).
  assert (Hard (within advances at_i) i) as HH by (by apply within_hard; [typeclasses eauto|]).
  apply (tri_bind _ (λ _, P)).
  { apply (tri_weaken _ P); [by intros p [-> ?]|].
    intros p w [Hs Hti]. split.
    - by apply (Scan_keeps at_i); [|apply keeps_check; typeclasses eauto|].
    - rewrite <- Hti. apply targeted_same. by apply (keeps_check K (within advances at_i) i p w). }
  intros _. apply tri_read. intros p2 [Hs Hti]. cbv zeta.
  destruct (storage_pending_start_target p2 (task_at p2 i)) eqn:Ha.
  - destruct c as [[ready armed] running]. destruct Hs as (Hw&H1&H2&H3).
    set (t := task_at p2 i).
    pose (c' := (count_if (ready_seen t) ready, count_if (armed_seen t) armed, count_if (running_seen t) running)).
    apply (tri_bind _ (λ _, Scan p0 (l ++ [i]) c')).
    + apply (tri_weaken _ (Scan p0 (l ++ [i]) c')); [intros ? ->; by split_and!; [exact Hw|apply counted_hit..]|].
      apply (Scan_keeps none); [by intros ? _ []|]. destruct (fatal_seen _); [apply keeps_fail_start|keep].
    + intros _. by apply tri_ret.
  - apply (tri_bind _ (λ _, Scan p0 (l ++ [i]) c)); [|intros _; by apply tri_ret].
    apply (tri_weaken _ (Scan p0 (l ++ [i]) c)); [intros ? ->; by apply Hmiss|].
    apply (Scan_keeps none); [by intros ? _ []|apply keeps_fail_start].
Qed.

Lemma strict_scan {A} p0 l c (m : M (W := W) A) : keeps (within eq none) m →
  tri (Scan p0 l c) m (λ _, Scan p0 l c).
Proof.
  intros Hm. apply (Scan_keeps none); [by intros ? _ []|]. intros p w. apply strict_within, Hm.
Qed.

(** ** The answers *)

(** Every target of the capture has a live worker of the task of the request,
    and the worker has reported [sel]. *)
Definition assembled (sel : Task → bool) (s : StoragePendingStart) (p : Parent) : Prop :=
  ∀ i, i ∈ [0; 1; 2] → targeted p i = true →
  0 < pid (task_at p i) ∧ ccb_storage_task.task_id (task_at p i) = st_task_id s ∧
  sel (task_at p i) = true.

(** What the answer [a] to the request [s] says of the state [p]. *)
Definition answer_holds (s : StoragePendingStart) (p : Parent) (a : ack) : Prop :=
  match a with
  | AckTask r => st_prepare s = true ∧
      (r = ACK_SUCCESS ∧ assembled ready_seen s p ∨ r = ACK_FAILED ∧ live p = false)
  | AckAcq r acq f => st_prepare s = false ∧ acq = st_acq_type s ∧
      (r = ACK_SUCCESS ∧ f = FAIL_TYPE_NONE ∧ assembled running_seen s p ∨
       r = ACK_FAILED ∧ f = st_failure_type s ∧ live p = false)
  end.

Definition start_answered (p p' : Parent) : Prop :=
  g_pending_storage_start p' = no_start ∧ g_pending_storage_stop p' = g_pending_storage_stop p ∧
  ∃ a, acks p' = acks p ++ [a] ∧ answer_holds (g_pending_storage_start p) p' a.

Lemma counted_all sel p l n : counted sel p l n → n = targets p l →
  ∀ i, i ∈ l → targeted p i = true → 0 < pid (task_at p i) ∧
  ccb_storage_task.task_id (task_at p i) = st_task_id (g_pending_storage_start p) ∧
  sel (task_at p i) = true.
Proof.
  intros [_ H] Hn i Hi Ht. destruct (H Hn i Hi Ht) as [Ha Hs]. unfold attending, storage_pending_start_target in Ha.
  apply andb_true_iff in Ha as [Ha He]. apply andb_true_iff in Ha as [Ha _]. apply andb_true_iff in Ha as [Ha _].
  apply String.eqb_eq in He. split_and!; [lia|done..].
Qed.

Section One.
Context (p0 : Parent) (Hok : start_ok p0) (Hact : st_active (g_pending_storage_start p0) = true).
#[local] Abbreviation all := [0; 1; 2].

Lemma scan_request c p : Scan p0 all c p →
  request (g_pending_storage_start p) = request (g_pending_storage_start p0).
Proof using. by intros ((_&_&_&[H _]&_)&_). Qed.

Lemma scan_ok c p : Scan p0 all c p →
  st_phase (g_pending_storage_start p) ≠ STORAGE_START_FAILED →
  st_target_count (g_pending_storage_start p) = targets p all ∧
  (if st_prepare (g_pending_storage_start p0) then st_phase (g_pending_storage_start p) = STORAGE_START_PREP_READY
   else st_phase (g_pending_storage_start p) = STORAGE_START_ARM_WAIT ∨
        st_phase (g_pending_storage_start p) = STORAGE_START_RUN_WAIT).
Proof using Hok Hact.
  intros Hs Hn. pose proof (scan_request _ _ Hs) as Hq. unfold request in Hq.
  destruct Hs as (Hw&_). apply within_forward in Hw. pose proof (forward_ok _ _ Hw Hok) as Hp.
  unfold start_ok in Hp. replace (st_active (g_pending_storage_start p)) with true in Hp by congruence.
  destruct (Hp eq_refl) as [_ [?|[Hc Hph]]]; [done|].
  replace (st_prepare (g_pending_storage_start p)) with (st_prepare (g_pending_storage_start p0)) in Hph by congruence.
  done.
Qed.

Lemma scan_assembled sel c p n : Scan p0 all c p → counted sel p all n →
  st_phase (g_pending_storage_start p) ≠ STORAGE_START_FAILED →
  n = st_target_count (g_pending_storage_start p) →
  assembled sel (g_pending_storage_start p0) p.
Proof using Hok Hact.
  intros Hs Hc Hp Hn. destruct (scan_ok _ _ Hs Hp) as [Ht _]. rewrite Ht in Hn.
  pose proof (scan_request _ _ Hs) as Hq. unfold request in Hq.
  intros i Hi Hti. destruct (counted_all _ _ _ _ Hc Hn i Hi Hti) as (?&->&?). split_and!; [done|congruence|done].
Qed.

(** The scan while the request does not change. *)
Definition Pinned (s : StoragePendingStart) c (p : Parent) : Prop :=
  Scan p0 all c p ∧ g_pending_storage_start p = s.
Lemma Pinned_keeps {A} s c (m : M (W := W) A) : keeps (within eq none) m →
  tri (Pinned s c) m (λ _, Pinned s c).
Proof using.
  intros Hm p w [Hs E]. split; [by apply (strict_scan p0 all c m Hm)|].
  destruct (Hm p w) as (_&_&_&<-&_). done.
Qed.
Lemma Pinned_fail s c : tri (Pinned s c) (storage_pending_start_fail K) (λ _, Scan p0 all c).
Proof using.
  apply (tri_weaken _ (Scan p0 all c)); [by intros ? [? _]|].
  apply (Scan_keeps none); [by intros ? _ []|apply keeps_fail_start].
Qed.

Lemma prepared_spec c : tri (Scan p0 all c) (prepared K c.1.1) (λ b, if b then start_answered p0 else Scan p0 all c).
Proof using Hok Hact.
  unfold prepared. apply (tri_bind _ (λ a p, a = p ∧ Scan p0 all c p)); [apply tri_get|]. intros p1. cbv zeta.
  destruct (bool_decide _ && _) eqn:Hg; [|by apply tri_ret; intros ? [_ ?]].
  apply andb_true_iff in Hg as [Hph%bool_decide_eq_true Hn%Z.eqb_eq].
  set (s := g_pending_storage_start p1) in *.
  apply (tri_weaken _ (Pinned s c)); [by intros ? [-> ?]|].
  apply (tri_bind _ (λ _, Pinned s c)); [apply Pinned_keeps; keep|]. intros rc.
  apply (tri_bind _ (λ _, Pinned s c)); [apply Pinned_keeps; keep|]. intros moved. destruct (negb (moved =? 0)).
  { apply (tri_bind _ (λ _, Scan p0 all c)); [apply Pinned_fail|by intros _; apply tri_ret]. }
  intros p w [Hs E]. assert (st_phase (g_pending_storage_start p) ≠ STORAGE_START_FAILED) as Hf by (rewrite E, Hph; done).
  destruct (scan_ok _ _ Hs Hf) as [_ Hprep].
  assert (st_prepare (g_pending_storage_start p0) = true) as Hpr.
  { destruct (st_prepare _); [done|]. rewrite E, Hph in Hprep. by destruct Hprep. }
  assert (assembled ready_seen (g_pending_storage_start p0) p) as Ha.
  { eapply (scan_assembled _ _ _ _ Hs); [apply Hs|done|congruence]. }
  destruct Hs as ((A&B&_)&_). split; [done|]. split; [exact B|]. eexists.
  split; [exact (f_equal (λ l, l ++ [_]) A)|]. split; [done|]. by left.
Qed.

Lemma armed_spec c n : tri (Scan p0 all c) (all_armed K n) (λ _, Scan p0 all c).
Proof using.
  unfold all_armed. apply (tri_bind _ (λ a p, a = p ∧ Scan p0 all c p)); [apply tri_get|]. intros p1. cbv zeta.
  destruct (bool_decide _ && _) eqn:Hg; [|by apply tri_ret; intros ? [_ ?]].
  apply andb_true_iff in Hg as [Hph%bool_decide_eq_true _].
  set (s := g_pending_storage_start p1) in *.
  apply (tri_weaken _ (Pinned s c)); [by intros ? [-> ?]|].
  apply (tri_bind _ (λ _, Pinned s c)); [apply Pinned_keeps; keep|]. intros ts.
  apply (tri_bind _ (λ _, Pinned s c)).
  { apply Pinned_keeps, keeps_each_while; [typeclasses eauto|]. intros i. unfold run_worker. keep. }
  intros ok. destruct (negb ok); [apply Pinned_fail|].
  apply (tri_bind _ (λ _, Scan p0 all c)).
  { apply tri_modify. intros p [Hs E]. revert Hs. apply (Scan_within none); [by intros ? _ []|].
    split_and!; try done. split; [done|]. right; right. by rewrite E. }
  intros _. apply (Scan_keeps none); [by intros ? _ []|]. keep.
  apply keeps_modify. intros p. split_and!; try done. by split; [|left].
Qed.

(** The request is still pending, or it has been answered. *)
Definition start_waits (p : Parent) : Prop :=
  within advances every p0 p.
Lemma scan_waits c p : Scan p0 all c p → start_waits p.
Proof using. by intros [? _]. Qed.

Lemma running_spec c : tri (Scan p0 all c) (all_running K c.2)
  (λ b p, if b : bool then start_waits p ∨ start_answered p0 p else start_waits p).
Proof using Hok Hact.
  unfold all_running. apply (tri_bind _ (λ a p, a = p ∧ Scan p0 all c p)); [apply tri_get|]. intros p1. cbv zeta.
  destruct (bool_decide _ && _) eqn:Hg; [|by apply tri_ret; intros ? [_ ?%scan_waits]].
  apply andb_true_iff in Hg as [Hph%bool_decide_eq_true Hn%Z.eqb_eq].
  set (s := g_pending_storage_start p1) in *.
  apply (tri_weaken _ (Pinned s c)); [by intros ? [-> ?]|].
  apply (tri_bind _ (λ _, Pinned s c)); [apply Pinned_keeps; keep|]. intros rc. destruct (negb (rc =? 0)).
  { apply (tri_bind _ (λ _, Scan p0 all c)); [apply Pinned_fail|].
    intros _. apply tri_ret. intros ? ?%scan_waits. by left. }
  intros p w [Hs E]. assert (st_phase (g_pending_storage_start p) ≠ STORAGE_START_FAILED) as Hf by (rewrite E, Hph; done).
  destruct (scan_ok _ _ Hs Hf) as [_ Hprep]. right.
  assert (st_prepare (g_pending_storage_start p0) = false) as Hpr.
  { destruct (st_prepare _); [|done]. by rewrite E, Hph in Hprep. }
  assert (assembled running_seen (g_pending_storage_start p0) p) as Ha.
  { eapply (scan_assembled _ _ _ _ Hs); [apply Hs|done|congruence]. }
  pose proof (scan_request _ _ Hs) as Hq. unfold request in Hq. rewrite E in Hq.
  destruct Hs as ((A&B&_)&_). split; [done|]. split; [exact B|]. eexists.
  split; [exact (f_equal (λ l, l ++ [_]) A)|]. split; [done|]. split; [congruence|]. by left.
Qed.

Definition served (p : Parent) : Prop := start_waits p ∨ start_answered p0 p.

Lemma waits_keeps {A} (m : M (W := W) A) : keeps (within advances every) m → tri start_waits m (λ _, start_waits).
Proof using. apply tri_keeps. intros p p' H H'. unfold start_waits. by etrans. Qed.

Lemma failed_spec : tri start_waits (start_failed K) (λ _, served).
Proof using Hok Hact.
  unfold start_failed. apply (tri_bind _ (λ _, start_waits)); [apply waits_keeps; unfold start_phase_is; keep|].
  intros [|]; [|by apply tri_ret; left].
  apply (tri_bind _ (λ _, start_waits)); [apply waits_keeps; keep|]. intros _.
  apply (tri_bind _ (λ b p, b = live p ∧ start_waits p)); [by intros p w|]. intros b.
  destruct b; cbn [negb]; [apply tri_ret; intros ? [_ ?]; by left|].
  intros p w [Hl Hw]. unfold storage_pending_start_send_failure.
  assert (request (g_pending_storage_start p) = request (g_pending_storage_start p0)) as Hq by apply Hw.
  pose proof (forward_ok _ _ (within_forward _ _ _ Hw) Hok) as Hp. unfold request in Hq.
  assert (st_active (g_pending_storage_start p) = true) as Ha by congruence.
  destruct (Hp Ha) as [Hf _]. revert w. cut (tri (λ q, q = p)
    (let! _ := storage_pending_start_send_failure K in
     let! _ := storage_supervisor_emit_aggregate K in clear_start) (λ _, served)).
  { intros H w. by apply H. }
  set (s := g_pending_storage_start p0) in *. set (a := if st_prepare s then AckTask ACK_FAILED
    else AckAcq ACK_FAILED (st_acq_type s) (st_failure_type s)).
  set (Q := λ q, acks q = acks p0 ++ [a] ∧ live q = false ∧
    g_pending_storage_stop q = g_pending_storage_stop p0).
  assert (∀ A (m : M (W := W) A), keeps (within eq none) m → tri Q m (λ _, Q)) as Hkeep.
  { intros A m. apply tri_keeps. intros q q' H (H1&H2&H3). pose proof (workers_same q q' H) as Hl'.
    destruct H as (B1&B2&_). unfold Q. split_and!; [congruence|exact (eq_trans Hl' H2)|congruence]. }
  destruct Hw as (A&B&_).
  apply (tri_bind _ (λ _, Q)).
  - unfold storage_pending_start_send_failure. apply tri_read. intros ? ->. cbv zeta. rewrite Ha, Hf. cbn [negb orb].
    apply (tri_bind _ (λ _ q, acks q = acks p0 ∧ live q = false ∧ g_pending_storage_stop q = g_pending_storage_stop p0)).
    { apply tri_modify. by intros ? ->. }
    intros _. replace (st_prepare (g_pending_storage_start p)) with (st_prepare s) by congruence.
    replace (st_acq_type (g_pending_storage_start p)) with (st_acq_type s) by congruence.
    replace (st_failure_type (g_pending_storage_start p)) with (st_failure_type s) by congruence.
    assert (tri (λ q, acks q = acks p0 ∧ live q = false ∧ g_pending_storage_stop q = g_pending_storage_stop p0)
      (send (W := W) a) (λ _, Q)) as Hsend.
    { apply tri_modify. intros q (H1&H2&H3). split_and!; [exact (f_equal (λ l, l ++ [a]) H1)|done..]. }
    subst a. destruct (st_prepare s); [|done]. apply (tri_bind _ (λ _, Q)); [done|]. intros _. apply Hkeep. keep.
  - intros _. apply (tri_bind _ (λ _, Q)); [apply Hkeep; keep|]. intros _. apply tri_modify.
    intros q (H1&H2&H3). right. split; [done|]. split; [done|]. exists a. split; [done|].
    subst a. fold s. unfold answer_holds. destruct (st_prepare s); split_and!; try done; by right.
Qed.

Lemma barrier_scanned : tri (λ p, p = p0)
  (let! c := scan_target K (0, 0, 0) 0 in let! c := scan_target K c 1 in scan_target K c 2)
  (λ c, Scan p0 all c).
Proof using.
  apply (tri_weaken _ (Scan p0 [] (0, 0, 0))).
  { intros ? ->. split_and!; [done|apply counted_nil..]. }
  apply (tri_bind _ (λ c, Scan p0 [0] c)); [by apply (scan_step p0 []); intros j []%not_elem_of_nil|].
  intros c1. apply (tri_bind _ (λ c, Scan p0 [0; 1] c)).
  { apply (scan_step p0 [0]). by intros j ->%list_elem_of_singleton. }
  intros c2. apply (scan_step p0 [0; 1]). intros j. rewrite !elem_of_cons, elem_of_nil. intuition; by subst.
Qed.

(** The part that follows the scan. *)
Definition decide_start (c : Z * Z * Z) : M (W := W) unit :=
  let! failed := start_phase_is STORAGE_START_FAILED in
  let! _ := (if negb failed then
               let! t := now K in
               let! p := get in
               if st_deadline_us (g_pending_storage_start p) <=? t
               then storage_pending_start_fail K else eret tt
             else eret tt) in
  let! done := prepared K c.1.1 in
  if done : bool then eret tt
  else
    let! _ := all_armed K c.1.2 in
    let! done := all_running K c.2 in
    if done : bool then eret tt else start_failed K.

Lemma decided_start c : tri (Scan p0 all c) (decide_start c) (λ _, served).
Proof using Hok Hact.
  unfold decide_start.
  apply (tri_bind _ (λ _, Scan p0 all c)); [apply strict_scan; unfold start_phase_is; keep|]. intros failed.
  apply (tri_bind _ (λ _, Scan p0 all c)).
  { apply (Scan_keeps none); [by intros ? _ []|]. keep. apply keeps_fail_start. }
  intros _. eapply tri_bind; [apply prepared_spec|]. intros [|]; [by apply tri_ret; right|].
  apply (tri_bind _ (λ _, Scan p0 all c)); [apply armed_spec|]. intros _.
  eapply tri_bind; [apply running_spec|]. intros [|]; [by apply tri_ret|apply failed_spec].
Qed.

Lemma start_served : tri (λ p, p = p0) (storage_service_pending_start K) (λ _, served).
Proof using Hok Hact.
  intros p w ->. unfold storage_service_pending_start. unfold ebind at 1. unfold get, sget. rewrite Hact. cbn [negb].
  pose proof (tri_bind _ _ _ _ _ barrier_scanned decided_start p0 w eq_refl) as H. unfold ebind in *.
  destruct (scan_target K (0, 0, 0) 0 (p0, w)) as [c1 s1]. destruct (scan_target K c1 1 s1) as [c2 s2].
  destruct (scan_target K c2 2 s2) as [[[r a] n] [p3 w3]]. exact H.
Qed.
End One.
End Barrier.
End parent_start.
