(* ===== verification/ParentOwed.v ===== *)
(** * The parent process: every request is answered once

    The invariant of a pending start over all runs, what a positive answer to
    a start proves, and the balance of the requests and the answers. *)
From S2P Require Import Prelude Bytes CStdlib StorageError CcbTypes Config Ipc Supervisor Task Capture Commit CommitStore Cli Launch Parent ParentSafe ParentAnswers ParentStart.

Module parent_owed.
Import storage_controller c_stdlib ccb_types ccb_config storage_config storage_ipc storage_supervisor ccb_storage_task ccb_storage_commit system_commit ccb_cli system_launch system_parent parent_safety parent_answers parent_start.

Section Owed.
Context {W : Type} (K : Kernel W).

(** Requests that have been answered or are still pending. *)
Definition owed (p : Parent) : Z :=
  Z.of_nat (length (acks p)) + Z.b2z (st_active (g_pending_storage_start p)) +
  Z.b2z (sp_active (g_pending_storage_stop p)).

(** A frame is a request; a repeated stop is not a new one. *)
Definition requests (op : parent_op W) (p : Parent) : Z :=
  match op with
  | OpTaskInfo _ _ _ _ => 1
  | OpAcqCtrl flag =>
    if (flag =? SWITCH_OFF) && lt_valid (g_last_task p) && negb (current_acq_type p =? 0) &&
       sp_active (g_pending_storage_stop p) then 0 else 1
  | _ => 0
  end.

(** ** Operations that do not answer *)

(** No answer and no change of a request. *)
Definition calm (p p' : Parent) : Prop :=
  acks p' = acks p ∧ g_pending_storage_stop p' = g_pending_storage_stop p ∧
  g_pending_storage_start p' = g_pending_storage_start p.
#[export] Instance calm_quiet : Quiet calm.
Proof. split; try done. split; [done|]. intros p q r (A1&B1&C1) (A2&B2&C2). split_and!; congruence. Qed.
#[export] Instance calm_loud : Loud calm.
Proof. by split. Qed.
#[export] Instance calm_emits : Emits calm.
Proof. by split. Qed.
#[export] Instance calm_hard i : Hard calm i.
Proof. done. Qed.

Lemma keeps_calm_sup f : keeps calm (mod_sup (W := W) f).
Proof. by apply keeps_modify. Qed.
#[local] Hint Resolve keeps_calm_sup : keeps.

Lemma calm_reset i : keeps calm (reset_task (W := W) i).
Proof. unfold reset_task. keep. by apply keeps_modify. Qed.
Lemma calm_rejected c id r : keeps calm (prepare_rejected K c id r).
Proof. unfold prepare_rejected. keep. Qed.
Lemma calm_begin id files : keeps calm (begin_capture K id files).
Proof. unfold begin_capture. keep; by apply keeps_modify. Qed.
Lemma calm_start_worker program f id o : keeps calm (start_storage_worker K program f id o).
Proof. unfold start_storage_worker. keep. Qed.
#[local] Hint Resolve calm_reset calm_rejected calm_begin calm_start_worker : keeps.
Lemma calm_launch program id o files : ∀ next, keeps calm (launch_files K program id o next files).
Proof. induction files as [|f files IH]; intros next; cbn [launch_files]; keep. Qed.
#[local] Hint Resolve calm_launch : keeps.

Lemma within_waits p0 p p' : start_waits p0 p → within advances every p p' → start_waits p0 p'.
Proof. unfold start_waits. intros. by etrans. Qed.

Lemma tri_calm {A} p0 (m : M (W := W) A) : keeps calm m → tri (calm p0) m (λ _, calm p0).
Proof. apply tri_keeps. intros p p' H H'. by etrans. Qed.

(** ** The start of a task *)

(** A new request is pending, and nothing has been answered. *)
Definition raised (p0 p : Parent) : Prop :=
  acks p = acks p0 ∧ g_pending_storage_stop p = g_pending_storage_stop p0 ∧
  st_active (g_pending_storage_start p) = true ∧ start_ok p.

Lemma raised_within S p0 p p' : within advances S p p' → raised p0 p → raised p0 p'.
Proof.
  intros H (A&B&C&D). pose proof (forward_ok _ _ (within_forward _ _ _ H) D) as Hok.
  destruct H as (A'&B'&_&[Hq _]&_). unfold request in Hq. split_and!; [congruence..|done].
Qed.
Lemma raised_fail p0 : tri (raised p0) (storage_pending_start_fail K) (λ _, raised p0).
Proof. apply (tri_keeps (within advances none)); [apply raised_within|apply keeps_fail_start]. Qed.

Lemma prepare_wait_spec p0 id acq f : st_active (g_pending_storage_start p0) = false →
  tri (calm p0) (storage_begin_prepare_wait K id acq f)
    (λ rc, if rc =? 0 then raised p0 else calm p0).
Proof.
  intros Hi. unfold storage_begin_prepare_wait.
  apply (tri_bind _ (λ _, calm p0)); [apply tri_calm; keep|]. intros timeout.
  apply tri_read. intros p1 (A&B&C). rewrite C, Hi, orb_false_r.
  destruct (String.eqb id ""); [by apply tri_ret; intros ? ->|].
  apply (tri_bind _ (λ _, within eq none p1)).
  { apply (tri_weaken _ (within eq none p1)); [by intros ? ->|].
    apply (tri_keeps (within eq none)); [|keep]. intros p p' H H'. by etrans. }
  intros t. cbv zeta. apply (tri_bind _ (λ _, raised p0)).
  - apply tri_modify. intros p (A'&B'&H&_). split; [exact (eq_trans A' A)|]. split; [exact (eq_trans B' B)|].
    split; [done|]. intros _. split; [done|]. right. split; [|done]. symmetry. by apply count_same.
  - intros _. apply (tri_bind _ (λ _, raised p0)); [|intros _; by apply tri_ret].
    destruct (count_targets p1 =? 0); [apply raised_fail|by apply tri_ret].
Qed.

(** The result says whether the request is pending. *)
Definition prepared_as (p0 : Parent) (r : prepare_result) : Parent → Prop :=
  match r with PreparePending => raised p0 | PrepareAck _ => calm p0 end.

Lemma prepare_refused p0 a : tri (calm p0) (eret (PrepareAck a) : M (W := W) prepare_result) (prepared_as p0).
Proof. by apply tri_ret. Qed.

Ltac calmly p0 := apply (tri_bind _ (λ _, calm p0)); [apply tri_calm; keep|intros ?].

Lemma rejected_spec p0 c id r : tri (calm p0) (prepare_rejected K c id r) (prepared_as p0).
Proof. unfold prepare_rejected. do 2 calmly p0. apply prepare_refused. Qed.

Lemma launch_plan_spec program acq files next p0 : st_active (g_pending_storage_start p0) = false →
  tri (calm p0) (launch_plan K program acq files next) (prepared_as p0).
Proof.
  intros Hi. unfold launch_plan. calmly p0. cbv zeta. calmly p0.
  eapply tri_bind; [by apply prepare_wait_spec|]. intros rc. cbn beta. destruct (rc =? 0).
  - apply (tri_bind _ (λ _, raised p0)); [|intros _; by apply tri_ret].
    match goal with |- tri _ (if ?b then _ else _) _ => destruct b end; [by apply tri_ret|apply raised_fail].
  - do 2 calmly p0. apply prepare_refused.
Qed.

Lemma prepare_spec program p0 : st_active (g_pending_storage_start p0) = false →
  tri (calm p0) (start_storage_for_last_task K program) (prepared_as p0).
Proof.
  intros Hi. unfold start_storage_for_last_task, storage_any_running, storage_any_state, storage_any_live_worker.
  calmly p0. cbv zeta. match goal with |- tri _ (if ?b then _ else _) _ => destruct b end; [apply prepare_refused|].
  do 2 calmly p0. match goal with |- tri _ (if ?b then _ else _) _ => destruct b end; [apply prepare_refused|].
  calmly p0. case_match; [|calmly p0; apply prepare_refused].
  calmly p0. match goal with |- tri _ (if ?b then _ else _) _ => destruct b end; [calmly p0; apply prepare_refused|].
  match goal with |- tri _ (if ?b then _ else _) _ => destruct b end; [apply rejected_spec|].
  calmly p0. case_match. repeat match goal with |- tri _ (if ?b then _ else _) _ => destruct b; [apply rejected_spec|] end.
  by apply launch_plan_spec.
Qed.

(** ** The start of the run *)

Section Arm.
Context (p0 : Parent).

(** The new request of a run, with [n] counted targets. *)
Definition arming (ph : StorageStartPhase) (p : Parent) : Prop :=
  acks p = acks p0 ∧ g_pending_storage_stop p = g_pending_storage_stop p0 ∧
  let s := g_pending_storage_start p in
  st_active s = true ∧ st_prepare s = false ∧ st_failure_ack_sent s = false ∧ st_phase s = ph.
Definition armed_upto (l : list Z) (p : Parent) : Prop :=
  arming STORAGE_START_ARM_WAIT p ∧ st_target_count (g_pending_storage_start p) = targets p l.

Lemma armed_within S l p p' : within eq S p p' → armed_upto l p → armed_upto l p'.
Proof using.
  intros (A&B&C&D&_) [(A'&B'&E) F]. unfold armed_upto, arming, targets, targeted in *.
  rewrite <- D, C. split; [|exact F]. split; [congruence|]. split; [congruence|exact E].
Qed.
Lemma tri_armed {A} l (m : M (W := W) A) : keeps (within eq every) m → tri (armed_upto l) m (λ _, armed_upto l).
Proof using. apply tri_keeps. intros p p'. apply armed_within. Qed.

Lemma arming_raised p : arming STORAGE_START_FAILED p ∨ armed_upto [0; 1; 2] p → raised p0 p.
Proof using.
  intros [(A&B&C&D&E&F)|[(A&B&C&D&E&F) G]]; split_and!; try done; intros _; (split; [done|]).
  - by left.
  - right. split; [done|]. rewrite D. by left.
Qed.

Lemma arm_fails l : tri (armed_upto l) (storage_pending_start_fail K) (λ _, arming STORAGE_START_FAILED).
Proof using.
  unfold storage_pending_start_fail. apply tri_read. intros p1 [(A&B&C&D&E&F) G]. cbv zeta. rewrite C, F. cbn.
  apply (tri_bind _ (λ _, arming STORAGE_START_FAILED)); [by apply tri_modify; intros ? ->|]. intros _.
  assert (∀ A (m : M (W := W) A), keeps (within eq every) m →
    tri (arming STORAGE_START_FAILED) m (λ _, arming STORAGE_START_FAILED)) as Hk.
  { intros A0 m. apply tri_keeps. intros p p' (A1&B1&_&D1&_) (?&?&H). unfold arming in *. rewrite <- D1.
    split; [congruence|]. split; [congruence|done]. }
  apply (tri_bind _ (λ _, arming STORAGE_START_FAILED)); [apply Hk; keep|]. intros _. apply Hk. keep.
Qed.

Lemma arm_step us l i : tri (armed_upto l) (arm_worker K us i)
  (λ go, if go : bool then armed_upto (l ++ [i]) else arming STORAGE_START_FAILED).
Proof using.
  unfold arm_worker. apply tri_read. intros p1 H. destruct (targeted p1 i) eqn:Ht; cbn [negb].
  - apply (tri_bind _ (λ _, armed_upto (l ++ [i]))).
    { apply tri_modify. intros ? ->. destruct H as [(A&B&C&D&E&F) G]. split; [by split_and!|].
      change (st_target_count (g_pending_storage_start p1) + 1 = targets p1 (l ++ [i])).
      by rewrite targets_snoc, Ht, G. }
    intros _. apply (tri_bind _ (λ _, armed_upto (l ++ [i]))).
    { apply tri_armed, keeps_check; try typeclasses eauto. by apply within_hard; [typeclasses eauto|]. }
    intros _. apply (tri_bind _ (λ _, armed_upto (l ++ [i]))); [apply tri_armed; keep|]. intros t.
    apply (tri_bind _ (λ _, armed_upto (l ++ [i]))); [apply tri_armed; keep|]. intros [|]; [by apply tri_ret|].
    apply (tri_bind _ (λ _, arming STORAGE_START_FAILED)); [apply arm_fails|]. intros _. by apply tri_ret.
  - apply tri_ret. intros ? ->. destruct H as [H G]. split; [done|]. rewrite targets_snoc, Ht. lia.
Qed.

Lemma arm_all us : tri (armed_upto []) (each_while (arm_worker K us) [0; 1; 2]) (λ _, raised p0).
Proof using.
  assert (∀ l l', l ++ l' = [0; 1; 2] →
    tri (armed_upto l) (each_while (arm_worker K us) l') (λ _, raised p0)) as H; [|by apply H].
  intros l l'. revert l. induction l' as [|i l' IH]; intros l E; cbn [each_while].
  - apply tri_ret. intros p Hp. apply arming_raised. right. rewrite app_nil_r in E. by subst.
  - eapply tri_bind; [apply arm_step|]. intros [|]; [apply IH; by rewrite <- app_assoc|].
    apply tri_ret. intros p Hp. apply arming_raised. by left.
Qed.

Lemma barrier_spec id acq f : st_active (g_pending_storage_start p0) = false →
  tri (calm p0) (storage_begin_run_barrier K id acq f) (λ rc, if rc =? 0 then raised p0 else calm p0).
Proof using.
  intros Hi. unfold storage_begin_run_barrier.
  do 2 (apply (tri_bind _ (λ _, calm p0)); [apply tri_calm; keep|intros ?]).
  apply tri_read. intros p1 (A&B&C). apply (tri_weaken _ (calm p0)); [by intros ? ->|].
  rewrite C, Hi. destruct (String.eqb id ""); cbn [orb]; [by apply tri_ret|].
  apply (tri_bind _ (λ _, calm p0)); [apply tri_calm; keep|intros rc]. destruct (negb (rc =? 0)); [by apply tri_ret|].
  apply (tri_bind _ (λ _, armed_upto [])); [by apply tri_modify; intros p (?&?&?); split_and!|]. intros _.
  apply (tri_bind _ (λ _, raised p0)); [apply arm_all|]. intros _.
  apply tri_read. intros p2 H2.
  assert (∀ A (m : M (W := W) A), keeps (within advances every) m → tri (raised p0) m (λ _, raised p0)) as Hk.
  { intros A0 m. apply tri_keeps. intros p p'. apply raised_within. }
  apply (tri_bind _ (λ _, raised p0)).
  { apply (tri_weaken _ (raised p0)); [by intros ? ->|]. apply Hk. destruct (_ =? 0); [apply keeps_fail_start|keep]. }
  intros _. apply (tri_bind _ (λ _, raised p0)); [apply Hk; keep|]. intros t.
  apply (tri_bind _ (λ _, raised p0)); [|intros _; by apply tri_ret]. apply Hk, keeps_modify.
  intros p. split_and!; try done. by split; [|left].
Qed.
End Arm.

(** ** The balance *)

(** [n] more requests than before, and the pending start is in order. *)
Definition booked (p0 : Parent) (n : Z) (p : Parent) : Prop := owed p = owed p0 + n ∧ start_ok p.

Lemma owed_waits p0 p : start_waits p0 p → start_ok p0 → booked p0 0 p.
Proof.
  intros Hw Hok. split; [|by eapply forward_ok, Hok; eapply within_forward].
  destruct Hw as (A&B&_&[Hq _]&_). unfold owed, request in *. rewrite A, B.
  replace (st_active (g_pending_storage_start p)) with (st_active (g_pending_storage_start p0)) by congruence. lia.
Qed.
Lemma calm_waits p0 p : start_waits p0 p → g_pending_storage_start p = g_pending_storage_start p0 → calm p0 p.
Proof. by intros (A&B&_). Qed.

Lemma owed_raised p0 p : st_active (g_pending_storage_start p0) = false → raised p0 p → booked p0 1 p.
Proof. intros Hi (A&B&C&D). split; [|done]. unfold owed. rewrite A, B, C, Hi. cbn. lia. Qed.

Lemma owed_send p0 a : tri (λ p, calm p0 p ∧ start_ok p) (send (W := W) a) (λ _, booked p0 1).
Proof.
  apply tri_modify. intros p [(A&B&C) Hok]. split; [|done]. unfold owed.
  change (acks (p <| acks ::= λ l, l ++ [a] |>)) with (acks p ++ [a]).
  change (g_pending_storage_start (p <| acks ::= λ l, l ++ [a] |>)) with (g_pending_storage_start p).
  change (g_pending_storage_stop (p <| acks ::= λ l, l ++ [a] |>)) with (g_pending_storage_stop p).
  rewrite A, B, C, length_app. cbn [length]. lia.
Qed.
Lemma inactive_ok p0 p : st_active (g_pending_storage_start p0) = false → calm p0 p → calm p0 p ∧ start_ok p.
Proof. intros Hi H. split; [done|]. destruct H as (_&_&C). intros Ha. by rewrite C, Hi in Ha. Qed.

Section One.
Context (p0 : Parent) (Hok : start_ok p0).

Lemma task_info_booked program l busy ensure :
  tri (λ p, p = p0) (handle_task_info K program l busy ensure) (λ _, booked p0 1).
Proof using Hok.
  assert (∀ a, tri (λ p, p = p0) (send (W := W) a) (λ _, booked p0 1)) as Hsend.
  { intros a. eapply tri_weaken; [|apply owed_send]. by intros ? ->. }
  unfold handle_task_info, storage_any_running, storage_any_state, storage_any_live_worker.
  destruct l as [l|]; [|apply Hsend].
  apply (tri_bind _ (λ _ p, p = p0)); [by intros p w ->|]. intros running.
  apply (tri_bind _ (λ _ p, p = p0)); [by intros p w ->|]. intros alive.
  apply tri_read. intros ? ->.
  destruct (_ || busy) eqn:Hb; [apply Hsend|].
  assert (st_active (g_pending_storage_start p0) = false) as Hi by (revert Hb; by destruct (st_active _), running, alive).
  apply (tri_weaken _ (calm p0)); [by intros ? ->|].
  assert (∀ a, tri (calm p0) (send (W := W) a) (λ _, booked p0 1)) as Hsend'.
  { intros a. eapply tri_weaken; [|apply owed_send]. intros p. by apply inactive_ok. }
  calmly p0. match goal with |- tri _ (if ?b then _ else _) _ => destruct b end; [apply Hsend'|].
  apply (tri_bind _ (λ _, calm p0)); [apply tri_calm; by apply keeps_modify|]. intros _.
  eapply tri_bind; [by apply prepare_spec|]. intros [|a']; [|apply Hsend'].
  apply tri_ret. intros p. by apply owed_raised.
Qed.

Lemma switch_on_booked : tri (λ p, p = p0) (switch_on K) (λ _, booked p0 1).
Proof using Hok.
  unfold switch_on. apply tri_read. intros ? ->. cbv zeta.
  destruct (_ || _) eqn:Hb; [eapply tri_weaken; [|apply owed_send]; by intros ? ->|].
  apply orb_false_iff in Hb as [Hi _].
  apply (tri_bind _ (λ rc, if rc =? 0 then raised p0 else calm p0)).
  { apply (tri_weaken _ (calm p0)); [by intros ? ->|]. destruct (lt_valid _); [by apply barrier_spec|by apply tri_ret]. }
  intros rc. destruct (rc =? 0); cbn [negb].
  - apply tri_ret. intros p. by apply owed_raised.
  - calmly p0. eapply tri_weaken; [|apply owed_send]. intros p. by apply inactive_ok.
Qed.

Lemma switch_off_booked : tri (λ p, p = p0) (switch_off K) (λ _, booked p0 (requests (OpAcqCtrl SWITCH_OFF) p0)).
Proof using Hok.
  unfold switch_off. apply tri_read. intros ? ->. cbv zeta. unfold requests. change (SWITCH_OFF =? SWITCH_OFF) with true.
  assert (∀ A (m : M (W := W) A), keeps (within advances every) m → tri (start_waits p0) m (λ _, start_waits p0)) as Hk.
  { intros A m. apply tri_keeps. intros p p' H H'. by eapply within_waits. }
  destruct (lt_valid (g_last_task p0)); cbn [negb orb andb];
    [|eapply tri_weaken; [|apply owed_send]; by intros ? ->].
  destruct (current_acq_type p0 =? 0); cbn [negb andb];
    [eapply tri_weaken; [|apply owed_send]; by intros ? ->|].
  destruct (sp_active (g_pending_storage_stop p0)) eqn:Hs.
  { apply tri_ret. intros ? ->. split; [lia|done]. }
  apply (tri_weaken _ (start_waits p0)); [by intros ? ->|].
  apply (tri_bind _ (λ _, start_waits p0)).
  { apply Hk. destruct (st_active _); [apply keeps_fail_start|keep]. }
  intros _. apply (tri_bind _ (λ _, start_waits p0)); [apply Hk; keep|]. intros n.
  apply (tri_bind _ (λ _, start_waits p0)); [by intros p w|]. intros p1.
  do 2 (apply (tri_bind _ (λ _, start_waits p0)); [apply Hk; keep|intros ?]).
  apply tri_modify. intros p Hw. destruct (owed_waits _ _ Hw Hok) as [Ho Hp]. split; [|done].
  destruct Hw as (_&B&_). unfold owed in *. rewrite B, Hs in Ho. rewrite Hs.
  change (Z.of_nat (length (acks p)) + Z.b2z (st_active (g_pending_storage_start p)) + 1 =
    Z.of_nat (length (acks p0)) + Z.b2z (st_active (g_pending_storage_start p0)) + 0 + 1).
  cbn [Z.b2z] in Ho. lia.
Qed.

Lemma acq_booked flag : tri (λ p, p = p0) (handle_acq_ctrl K flag) (λ _, booked p0 (requests (OpAcqCtrl flag) p0)).
Proof using Hok.
  unfold handle_acq_ctrl. destruct (flag =? SWITCH_ON) eqn:E1.
  { apply Z.eqb_eq in E1 as ->. apply switch_on_booked. }
  destruct (flag =? SWITCH_OFF) eqn:E2; [apply Z.eqb_eq in E2 as ->; apply switch_off_booked|].
  apply tri_read. intros ? ->. unfold requests. rewrite E2.
  eapply tri_weaken; [|apply owed_send]. by intros ? ->.
Qed.

Lemma pending_start_booked : tri (λ p, p = p0) (storage_service_pending_start K) (λ _, booked p0 0).
Proof using Hok.
  destruct (st_active (g_pending_storage_start p0)) eqn:Ha.
  - eapply tri_post; [by apply start_served|]. intros _ p [Hw|(A&B&a&C&_)]; [by apply owed_waits|].
    split; [|intros H; by rewrite A in H]. unfold owed. rewrite A, B, C, Ha, length_app. cbn. lia.
  - unfold storage_service_pending_start. apply tri_read. intros ? ->. rewrite Ha. apply tri_ret.
    intros ? ->. split; [lia|done].
Qed.

Lemma forward_pending_stop : keeps forward (storage_service_pending_stop K).
Proof using.
  assert (∀ a, keeps forward (send (W := W) a)) as H1 by (intros; by apply keeps_modify).
  assert (∀ f, keeps forward (set_stop (W := W) f)) as H2 by (intros; by apply keeps_modify).
  unfold storage_service_pending_stop, storage_any_live_worker. keep; auto.
Qed.

Lemma pending_stop_booked : verdict_inv p0 →
  tri (λ p, p = p0) (storage_service_pending_stop K) (λ _, booked p0 0).
Proof using Hok.
  intros Hv p w ->. pose proof (forward_pending_stop p0 w) as Hf.
  pose proof (forward_ok _ _ Hf Hok) as Hp. destruct Hf as (_&Hq&_). unfold request in Hq.
  destruct (sp_active (g_pending_storage_stop p0)) eqn:Ha.
  - pose proof (stop_served K p0 Hv Ha p0 w eq_refl) as H. cbv beta in H.
    set (p' := fst (snd (storage_service_pending_stop K (p0, w)))) in *. split; [|done]. unfold owed.
    replace (st_active (g_pending_storage_start p')) with (st_active (g_pending_storage_start p0)) by congruence.
    destruct (live p0).
    + destruct H as [-> ->]. rewrite Ha. lia.
    + destruct H as (->&r&f&->&_). rewrite Ha, length_app. cbn. lia.
  - unfold storage_service_pending_stop, ebind, get, sget. rewrite Ha. split; [cbn; lia|done].
Qed.

Lemma op_booked op : verdict_inv p0 → tri (λ p, p = p0) (run_op K op) (λ _, booked p0 (requests op p0)).
Proof using Hok.
  intros Hv. destruct op as [program l busy ensure|flag|i| |].
  - apply task_info_booked.
  - apply acq_booked.
  - intros p w ->. apply owed_waits; [|done].
    assert (Hard (within advances every) i) as HH by (by apply within_hard; [typeclasses eauto|]).
    apply (keeps_check K (within advances every)); typeclasses eauto.
  - apply pending_start_booked.
  - by apply pending_stop_booked.
Qed.
End One.

(** ** All runs *)

Lemma reachable_ok s : reachable K s → start_ok (fst s).
Proof.
  induction 1 as [c w|op [p w] H IH]; [by intros Ha|].
  by apply (op_booked p IH op (parent_reachable_inv K _ H) p w eq_refl).
Qed.

(** The request of [p] is still pending in [p'], or it has been answered. *)
Definition start_progress (p p' : Parent) : Prop :=
  (st_active (g_pending_storage_start p') = true ∧ acks p' = acks p) ∨ start_answered p p'.

(** C4: a pending start is still pending after a scan, with nothing answered,
    or it has been answered exactly once and cleared; the answer is positive
    only when every target of the capture has a live worker of this task that
    has reported ready (for the preparation) or running (for the run), and
    negative only when no worker is left alive. *)
Theorem start_answer_sound s : reachable K s → st_active (g_pending_storage_start (fst s)) = true →
  start_progress (fst s) (fst (snd (storage_service_pending_start K s))).
Proof.
  intros Hr Ha. destruct s as [p w]. cbn [fst] in *. pose proof (reachable_ok _ Hr) as Hok.
  destruct (start_served K p Hok Ha p w eq_refl) as [Hw|H]; [left|by right].
  destruct Hw as (A&_&_&[Hq _]&_). split; [|done]. unfold request in Hq. congruence.
Qed.

(** The requests of a run. *)
Fixpoint asked (ops : list (parent_op W)) (s : Parent * W) : Z :=
  match ops with
  | [] => 0
  | op :: ops => requests op (fst s) + asked ops (snd (run_op K op s))
  end.

Lemma asked_balance ops : ∀ s, reachable K s → owed (fst (run_ops K ops s)) = owed (fst s) + asked ops s.
Proof.
  induction ops as [|op ops IH]; intros [p w] Hr; cbn [asked run_ops foldl]; [cbn; lia|].
  fold (run_ops K ops (snd (run_op K op (p, w)))). rewrite IH by by apply reach_step.
  destruct (op_booked p (reachable_ok _ Hr) op (parent_reachable_inv K _ Hr) p w eq_refl) as [-> _].
  cbn [fst]. lia.
Qed.

(** C10: over any run of the parent, the answers that have been sent and the
    start and stop that are still pending are together exactly the requests
    received, counting a stop that repeats a pending one as the same request:
    no request is lost and none is answered twice. *)
Theorem requests_answered_once c w ops :
  owed (fst (run_ops K ops (initial_parent c, w))) = asked ops (initial_parent c, w).
Proof. rewrite asked_balance by apply reach_init. done. Qed.
End Owed.

Lemma start_answer_sound_witness :
  let s := example_run (served_ops TASK_FILE_MODE_LOW_ONLY) in
  let p' := fst (snd (storage_service_pending_start example_kernel s)) in
  acks p' = [AckTask ACK_SUCCESS] ∧
  start_progress (fst s) p'.
Proof.
  intros s p'. split; [vm_compute; reflexivity|].
  exact (start_answer_sound example_kernel s (example_reachable _) eq_refl).
Defined.
End parent_owed.
